(* ===== verification/_CoqProject ===== *)
-Q . S2P
Prelude.v
CInt.v
CType.v
Overflow.v
TimeCore.v
Calendar.v
Gregorian.v
NoLeap.v
Cal360.v
Calendars.v
Iso8601.v
TimeWindow.v
Alarms.v
Sync.v
Aliasing.v
TickCApi.v
Kahn.v
RankPool.v
EventLoop.v
EventLoopInv.v
EventLoopProps.v
PipelineConfig.v
Orchestrator.v
HandleRegistry.v
FieldView.v
TripleBuffer.v
SpanCApi.v
Conf.v
ConfCApi.v
Pipeline.v
Blend.v
StagingPool.v
ListExtra.v
AmioErrors.v
AmioHandleTable.v
WorkerPool.v
BufferPool.v
PrefetchQueue.v
AmioConfig.v
StructuredPlan.v
PackUnpack.v
StructuredExchange.v
ExchangeProps.v
HaloHandle.v
HaloExchange.v
Consolidation.v
Logger.v
KokkosArrays.v
InterpolationMatrix.v
SparseApply.v
AxisMesh.v
StructuredGrid.v
ProjectionBuilder.v
Magnitude.v
UnitInterval.v
DoubleOrder.v
RegularGrid.v
BilinearRect.v
BilinearRectProps.v
ConservativeRect.v
ConservativeRectilinear.v
Conservation.v
CoastalMask.v
NearestWeights.v
PolygonClip.v
ConservativeSearch.v
VectorWeights.v
WeightGenerator.v
VerticalRegridder.v
RuleGenerator.v
GridNames.v
NamedGrids.v
NamedGridProps.v
MeshFactory.v
AmioRequests.v
AmioCore.v
TransformNode.v
Grib2Templates.v
RowMajor.v
Grib2Driver.v
