(* ===== verification/Prelude.v ===== *)
(** * A verification library for HELM

    HELM is a set of C++20 libraries for Earth-system models, under [src/libs/]: TICK (time,
    calendars, alarms, the mapping of simulation time to the records of a dataset), DAGR
    (a pool of MPI ranks and an event loop that runs a graph of tasks), SPAN (field views,
    triple buffers and their C interface), CONF (configuration documents), BLEND (array
    kernels), AMIO (asynchronous input and output through a C interface), HALO (exchange of
    ghost cells), LOGS (logging on many processes) and AXIS (interpolation between grids).
    This library models the logic of those programs and proves what makes it correct.  It is
    a shallow embedding: a C++ function is a Rocq function, usually of the same name, that
    evaluates, and the code that several threads run at once is a transition system whose
    steps are the critical sections of the code.

    ** Conventions

    [Prelude] has the outcome of an evaluation, [result]: a value, an exception ([Throw]) or
    [Undef], where the C++ standard gives the code no meaning (signed overflow, an access out
    of bounds, division by zero).  A theorem that a call returns [Ok] therefore says as well
    that it has no undefined behaviour.  [CInt] has the integer types: 32- and 64-bit signed
    arithmetic is partial, unsigned arithmetic wraps.  Doubles are the binary64 numbers of
    the Standard Library's [SpecFloat].  [ListExtra] has the lemmas on lists the components
    share.  What is not under [src/] is an interface, a [Class] whose laws are documented
    behaviour of that code, with an instance that shows the laws can hold: the YAML library
    ([Conf.YamlLib]), [std::sort] ([InterpolationMatrix.StdSort]), the loops and reductions of Kokkos
    ([Blend.ParallelFor], [PackUnpack.Kokkos], [KokkosArrays.KokkosReduce],
    [SparseApply.KokkosSparse]), MPI ([StructuredExchange.MPI]), files and g2c
    ([Grib2Driver.Files], [Grib2Driver.G2c]), PROJ ([ProjectionBuilder.ProjLib]), the
    mathematical library ([AxisMesh.Libm]), sorting of doubles ([NamedGrids.DoubleSort],
    [DoubleOrder.AscendingSort]) and the search trees of ArborX ([CoastalMask.NearestTree]), and the
    hyperbolic functions ([VerticalRegridder.Hyperbolic]).
    [CType] is the part of the C library that looks at characters.  Components of HELM meet in
    interfaces too: a calendar is a [Calendar.Calendar], proved by [Gregorian], [NoLeap] and
    [Cal360]; a buffer pool is a [BufferPool.BufferPool], proved for the staging pool and used by the
    prefetch queue and the core of AMIO.

    ** TICK ([src/libs/tick/include/tick/])

    [Overflow] is detail/overflow.hpp, [TimeCore] the time points, durations and calendar
    dates, [Calendar] the calendar concept with the specification of a calendar, [Gregorian],
    [NoLeap] and [Cal360] the three calendars and [Calendars] what holds of each: encoding and
    decoding are inverse, month arithmetic lands in the right month and clamps the day.
    [Iso8601] is parsing and printing of dates (round trip), [TimeWindow] and [Alarms] the
    windows and alarms (the window that contains a time; the first ring after a time), [Sync]
    the heartbeat of several periods.  [Aliasing] is the engine that maps a simulation time to
    two records of a dataset and a weight, with its policies outside the dataset and its
    climatologies.  [TickCApi] is tick_c_api.cpp: no exception leaves it and its error codes
    tell what happened.

    ** DAGR ([src/libs/dagr/])

    [Kahn] is the validation of the task graph, against acyclicity.  [RankPool] is the pool of
    ranks.  [EventLoop] is the loop, one function per operation, [EventLoopInv] its invariant
    and [EventLoopProps] its safety (a task starts after its dependencies, on ranks nobody
    else holds) and liveness (a responsive task set is driven to its end).  [Orchestrator] is
    the facade with its termination; one theorem shows that [run] never returns.
    [PipelineConfig] and [Pipeline] are parse_pipeline.cpp over CONF, [TransformNode] the routing of
    pointers from AMIO and TICK to BLEND.

    ** SPAN, CONF, BLEND

    [FieldView] is the view with its coherency states and the layout of its elements,
    [TripleBuffer] the buffer between a model and input/output, [HandleRegistry] the table of
    handles, refined from a partial map, and [SpanCApi] the C interface over any table of
    handles.  [Conf] is the typed access to configuration trees, through two families of
    accessors shown to agree, and [ConfCApi] its C interface.  [Blend] is the pair of
    interpolation kernels in any order of execution, with views that overlap.

    ** AMIO ([src/libs/amio/src/])

    [AmioErrors] has the status codes and the cordon that turns exceptions into them,
    [AmioHandleTable] the table of handles with generations, refined from a map of live
    tokens, [StagingPool] the buffers, [BufferPool] the interface they implement, [WorkerPool]
    the worker threads (writes of one variable run in order), [PrefetchQueue] the read-ahead,
    [AmioConfig] manifests and the driver registry.  [AmioRequests] is the checking of the
    requests of the C interface, and [AmioCore] composes writes, reads, views, flush, wait and
    close over any buffer pool: buffers are accounted for, a flush reports every write, and
    two theorems show defects of [wait] and of a full queue.  [AmioErrors] has also the text of
    status codes.  [Grib2Templates] has the templates of GRIB2 and the names of fields (a name
    determines its field), [RowMajor] the layouts of arrays with their odometer loops, and
    [Grib2Driver] the driver over interfaces of the file system and of g2c: what was written
    is found and read again.

    ** HALO ([src/libs/halo/])

    [StructuredPlan] is the plan of a block-structured decomposition, [PackUnpack] the kernels
    that pack a face of an array, [StructuredExchange] the exchange over MPI and
    [ExchangeProps] its correctness: every ghost cell receives the interior cell of the
    neighbor.  [HaloHandle] is the pending exchange and the asynchronous variant, which agrees
    with the blocking one.  [HaloExchange] is the exchange by lists of neighbors.

    ** LOGS ([src/libs/logs/src/])

    [Consolidation] is the merging of records of all processes, through its byte format;
    [Logger] the logger as a transition system over threads.

    ** AXIS ([src/libs/axis/])

    [KokkosArrays] has arrays of doubles and the values a parallel sum may have,
    [InterpolationMatrix] the sparse matrix and its conversion to the compressed form,
    [SparseApply] its application: every form computes, cell by cell, a sum of the same
    products.  The meshes: [AxisMesh] numbers the points of circles of different sizes
    and is the container of a mesh with the areas of its cells and the well-formedness
    that consumers rely on, [StructuredGrid] the synthesis of corners and the conversion to a
    mesh, [ProjectionBuilder] the grids made with PROJ and the life of its objects,
    [RuleGenerator] meshes from rules, [GridNames] the table and the parser of names,
    [NamedGrids] the generators behind names, [NamedGridProps] what a name promises, and
    [MeshFactory] the validation of descriptors and the dispatch.  Every generator is shown to
    give a well-formed mesh, cell by cell and node by node.  [Magnitude] bounds what operations
    on doubles give, for the code that turns doubles into indices.

    The weights: [UnitInterval] keeps rounded products of fractions between zero and one,
    [DoubleOrder] orders doubles, [RegularGrid] detects meshes that are grids of latitudes and
    longitudes, [BilinearRect] with [BilinearRectProps] has the configuration and the
    bilinear weights on such grids: every stencil is one of source cells with weights between
    zero and one; [ConservativeRect] the conservative weights, those of the
    overlaps of rectangles in the ranges of rows and columns that floors give; [ConservativeRectilinear] the same between lines that are
    not equally spaced, where bisection is shown to miss no overlap of a brute-force search;
    [Conservation] the accounts of a regridding,
    [CoastalMask] the renormalization at coasts, after which no entry refers to a masked
    cell, [NearestWeights] the nearest neighbors, by rounding or by a search tree,
    [PolygonClip] the two clippers of polygons, which give what cutting along every edge gives on
    lists, without a limit for cells of four corners, and [ConservativeSearch] the conservative
    weights between any meshes in the plane: candidates from a tree of boxes, the date line,
    degenerate cells, and threads that take their places in the result from an atomic counter,
    where what is shown holds for every interleaving.
    [WeightGenerator] is the entry point with its guards, over the interface
    [WeightGenerator.SearchMethods] of the methods that are not modelled, and [VectorWeights] the coupling of the
    components of vectors.  [VerticalRegridder] interpolates columns: what the teams compute in
    their scratch memory is a pure function of the column, which keeps the values at the
    levels of the source.

    ** Bounds and fuel

    Sizes of arrays in memory are [nat], everything the code computes with is an integer of
    the width the code has.  [acquire_loop] of [StagingPool] has fuel 2, because the second
    turn finds the slot the first one made; the drives of [EventLoopProps] have as measure
    the tasks not yet finished; Newton's method has the 100 rounds of the code; the other
    recursions are structural.  The theorems that need
    a bound (fewer than 2^31 cells, fewer than 2^64 writes, dates within the range of 64-bit
    nanoseconds) state it.

    ** Not modelled

    The drivers of AMIO for netCDF and Zarr call their libraries at every step; the start and
    the end of the AMIO core; pinning of threads.  Of HALO, the collective over neighbors,
    gathers, persistent requests, the window guard and the environment.  Of AXIS, the
    conservative weights found by search on the sphere (its clipper is modelled, the filter by caps and the
    caches of sines are not), the weights from stencils of several neighbors and of second order, the device
    pipelines, gradients and the file formats.  The MPI environment of LOGS.  The Fortran and
    Python bindings.  A weakening of memory by the machine is not modelled: an access to a variable that the code
    shares without a lock is a step, and the findings name the places where the code does not
    make it one. *)
From Stdlib Require Import ZArith Lia Bool List.
Import ListNotations.
Local Open Scope Z_scope.

(** ** Exceptions and outcomes *)

(** The exception classes thrown by the modelled code.  [conf_error c] is
    [conf::Conf_Error] carrying the integer value [c] of its [Error_Code]. *)
Inductive exn : Type :=
| invalid_argument
| overflow_error
| out_of_range
| runtime_error
| length_error
| conf_error (code : Z).

(** The outcome of evaluating a C++ expression: a value, an exception, or
    [Undef] where the language standard gives the evaluation no meaning
    (signed overflow, division by zero, an access out of bounds). *)
Inductive result (A : Type) : Type :=
| Ok (a : A)
| Throw (e : exn)
| Undef.
Arguments Ok {A} a.
Arguments Throw {A} e.
Arguments Undef {A}.

Definition bind {A B} (m : result A) (k : A -> result B) : result B :=
  match m with
  | Ok a => k a
  | Throw e => Throw e
  | Undef => Undef
  end.

Declare Scope helm_scope.
Delimit Scope helm_scope with helm.

Notation "'let!' x ':=' m 'in' k" := (bind m (fun x => k))
  (at level 10, x name, m at level 200, k at level 200,
   format "'let!'  x  ':='  m  'in' '//' k") : helm_scope.
Notation "'let!' ' p ':=' m 'in' k" := (bind m (fun x => match x with p => k end))
  (at level 10, p pattern, m at level 200, k at level 200) : helm_scope.
Notation "'do!' m 'then' k" := (bind m (fun _ => k))
  (at level 10, m at level 200, k at level 200,
   format "'do!'  m  'then' '//' k") : helm_scope.
Open Scope helm_scope.

(** [throw_if b e]: the guard [if (b) throw e;]. *)
Definition throw_if (b : bool) (e : exn) : result unit :=
  if b then Throw e else Ok tt.

Definition is_ok {A} (m : result A) : bool :=
  match m with Ok _ => true | _ => false end.

Definition is_undef {A} (m : result A) : bool :=
  match m with Undef => true | _ => false end.

(** The three monad laws. *)
Lemma bind_Ok_l {A B} (a : A) (k : A -> result B) : bind (Ok a) k = k a.
Proof. reflexivity. Qed.

Lemma bind_ext {A B} (m : result A) (k1 k2 : A -> result B) : (forall a, k1 a = k2 a) -> bind m k1 = bind m k2.
Proof. intros H. destruct m; cbn [bind]; auto. Qed.

Lemma bind_Ok_r {A} (m : result A) : bind m (@Ok A) = m.
Proof. now destruct m. Qed.

Lemma bind_assoc {A B C} (m : result A) (k : A -> result B) (h : B -> result C) :
  bind (bind m k) h = bind m (fun a => bind (k a) h).
Proof. now destruct m. Qed.

(** Inversion of a successful sequence. *)
Lemma bind_Ok_inv {A B} (m : result A) (k : A -> result B) b :
  bind m k = Ok b -> exists a, m = Ok a /\ k a = Ok b.
Proof. destruct m; simpl; try discriminate; eauto. Qed.

Lemma throw_if_false e : throw_if false e = Ok tt.
Proof. reflexivity. Qed.

Lemma throw_if_Ok b e u : throw_if b e = Ok u <-> b = false.
Proof. destruct b, u; simpl; split; congruence. Qed.

Create Rewrite HintDb helm.
#[export] Hint Rewrite @bind_Ok_l @bind_assoc throw_if_false : helm.

(** [inv_ok H]: split a hypothesis [bind ... = Ok _] into its steps. *)
Ltac inv_ok H :=
  match type of H with
  | bind _ _ = Ok _ =>
      let a := fresh "a" in let Ha := fresh "Ha" in
      apply bind_Ok_inv in H; destruct H as [a [Ha H]]; try inv_ok Ha; try inv_ok H
  | throw_if _ _ = Ok _ => apply throw_if_Ok in H
  | Ok _ = Ok _ => injection H as H
  end.

(** [case_if]: destruct the condition of the first [if] of the goal. *)
Ltac case_if :=
  match goal with
  | |- context [if ?b then _ else _] =>
      lazymatch b with context [if _ then _ else _] => fail | _ => destruct b eqn:? end
  end.

(** [bsimpl]: turn boolean comparisons in the context into arithmetic. *)
Ltac bsimpl :=
  rewrite ?Bool.andb_true_iff, ?Bool.orb_true_iff, ?Bool.orb_false_iff,
    ?Bool.negb_true_iff, ?Bool.negb_false_iff,
    ?Z.eqb_eq, ?Z.eqb_neq, ?Z.ltb_lt, ?Z.ltb_ge, ?Z.leb_le, ?Z.leb_gt in *.

(** ** Generic lemmas on integer division *)

Lemma quot_nonneg_div a b : 0 <= a -> 0 < b -> Z.quot a b = a / b.
Proof. intros. now apply Z.quot_div_nonneg. Qed.

Lemma rem_nonneg_mod a b : 0 <= a -> 0 < b -> Z.rem a b = a mod b.
Proof. intros. now apply Z.rem_mod_nonneg. Qed.

(** Floored division from the truncated one: the correction that calendar code
    writes by hand is [Z.div]. *)
Lemma quot_floor a b : 0 < b ->
  a / b = Z.quot a b - (if Z.rem a b <? 0 then 1 else 0).
Proof.
  intros Hb. pose proof (Z.quot_rem' a b) as E.
  destruct (Z.ltb_spec (Z.rem a b) 0).
  - symmetry; apply (Z.div_unique a b _ (Z.rem a b + b)); [|lia].
    left. pose proof (Z.rem_bound_abs a b). lia.
  - symmetry; apply (Z.div_unique a b _ (Z.rem a b)); [|lia].
    left. pose proof (Z.rem_bound_abs a b). lia.
Qed.

Lemma div_mod_unique b q r : 0 < b -> 0 <= r < b ->
  (b * q + r) / b = q /\ (b * q + r) mod b = r.
Proof.
  intros Hb Hr. split.
  - symmetry. apply (Z.div_unique _ _ q r); [left; lia | lia].
  - symmetry. apply (Z.mod_unique _ _ q r); [left; lia | lia].
Qed.
