(* ===== verification/CInt.v ===== *)
(** * Machine integers of the C++ code

    Signed 32- and 64-bit arithmetic as C++20 defines it: an operation whose
    mathematical result is not representable has no meaning ([Undef]), division
    truncates towards zero, a conversion to a narrower type wraps.  Unsigned
    arithmetic wraps. *)
From Stdlib Require Import ZArith Lia Bool List.
From S2P Require Import Prelude.
Local Open Scope Z_scope.

(** ** Signed types *)

Inductive ity : Type := I32 | I64.

Definition imin (t : ity) : Z := match t with I32 => -2147483648 | I64 => -9223372036854775808 end.
Definition imax (t : ity) : Z := match t with I32 => 2147483647 | I64 => 9223372036854775807 end.

Definition in_range (t : ity) (z : Z) : bool := (imin t <=? z) && (z <=? imax t).

Abbreviation in_i32 := (in_range I32).
Abbreviation in_i64 := (in_range I64).

(** A C++ integer expression: evaluation may have no meaning. *)
Definition cexpr : Type := result Z.
Definition cval (z : Z) : cexpr := Ok z.
Coercion cval : Z >-> cexpr.

(** The value of an operation of type [t], when representable. *)
Definition arith (t : ity) (z : Z) : cexpr := if in_range t z then Ok z else Undef.

Definition cadd (t : ity) (x y : cexpr) : cexpr := let! a := x in let! b := y in arith t (a + b).
Definition csub (t : ity) (x y : cexpr) : cexpr := let! a := x in let! b := y in arith t (a - b).
Definition cmul (t : ity) (x y : cexpr) : cexpr := let! a := x in let! b := y in arith t (a * b).
Definition cneg (t : ity) (x : cexpr) : cexpr := let! a := x in arith t (- a).
Definition cdiv (t : ity) (x y : cexpr) : cexpr :=
  let! a := x in let! b := y in
  if b =? 0 then Undef else arith t (Z.quot a b).
Definition crem (t : ity) (x y : cexpr) : cexpr :=
  let! a := x in let! b := y in
  if b =? 0 then Undef else let! _q := arith t (Z.quot a b) in Ok (Z.rem a b).

Declare Scope i64_scope.
Delimit Scope i64_scope with i64.
Notation "a + b" := (cadd I64 a b) : i64_scope.
Notation "a - b" := (csub I64 a b) : i64_scope.
Notation "a * b" := (cmul I64 a b) : i64_scope.
Notation "a / b" := (cdiv I64 a b) : i64_scope.
Notation "a 'rem' b" := (crem I64 a b) (at level 40, left associativity) : i64_scope.
Notation "- a" := (cneg I64 a) : i64_scope.

Declare Scope i32_scope.
Delimit Scope i32_scope with i32.
Notation "a + b" := (cadd I32 a b) : i32_scope.
Notation "a - b" := (csub I32 a b) : i32_scope.
Notation "a * b" := (cmul I32 a b) : i32_scope.
Notation "a / b" := (cdiv I32 a b) : i32_scope.
Notation "a 'rem' b" := (crem I32 a b) (at level 40, left associativity) : i32_scope.
Notation "- a" := (cneg I32 a) : i32_scope.

(** [static_cast<std::int32_t>]: modulo [2^32] (C++20). *)
Definition to_i32 (z : Z) : Z := (z + 2147483648) mod 4294967296 - 2147483648.

(** Conversions to unsigned types. *)
Definition to_u32 (z : Z) : Z := z mod 4294967296.
Definition to_u64 (z : Z) : Z := z mod 18446744073709551616.

(** Reading a constant table at an index; out of bounds has no meaning. *)
Definition index_z (l : list Z) (i : Z) : cexpr :=
  if i <? 0 then Undef
  else match nth_error l (Z.to_nat i) with Some v => Ok v | None => Undef end.

(** ** Lemmas *)

Lemma in_range_iff t z : in_range t z = true <-> imin t <= z <= imax t.
Proof. unfold in_range. rewrite andb_true_iff, !Z.leb_le. tauto. Qed.

Lemma in_range_false t z : in_range t z = false <-> z < imin t \/ imax t < z.
Proof. unfold in_range. rewrite andb_false_iff, !Z.leb_gt. tauto. Qed.

Lemma arith_ok t z : imin t <= z <= imax t -> arith t z = Ok z.
Proof. intros H. unfold arith. now rewrite (proj2 (in_range_iff t z) H). Qed.

Lemma arith_undef t z : z < imin t \/ imax t < z -> arith t z = Undef.
Proof. intros H. unfold arith. now rewrite (proj2 (in_range_false t z) H). Qed.

Lemma arith_inv t z v : arith t z = Ok v -> v = z /\ imin t <= z <= imax t.
Proof.
  unfold arith. destruct (in_range t z) eqn:E; [|discriminate].
  intros [= <-]. now rewrite in_range_iff in E.
Qed.

Lemma cadd_ok t a b : imin t <= a + b <= imax t -> cadd t (cval a) (cval b) = cval (a + b).
Proof. apply arith_ok. Qed.

Lemma csub_ok t a b : imin t <= a - b <= imax t -> csub t (cval a) (cval b) = cval (a - b).
Proof. apply arith_ok. Qed.

Lemma cmul_ok t a b : imin t <= a * b <= imax t -> cmul t (cval a) (cval b) = cval (a * b).
Proof. apply arith_ok. Qed.

Lemma cneg_ok t a : imin t <= - a <= imax t -> cneg t (cval a) = cval (- a).
Proof. apply arith_ok. Qed.

Lemma quot_range t a b : imin t <= a <= imax t -> 0 < b -> imin t <= Z.quot a b <= imax t.
Proof.
  intros Ha Hb. pose proof (Z.quot_rem' a b). pose proof (Z.rem_bound_abs a b).
  destruct t; simpl in *; split;
    destruct (Z.le_gt_cases 0 a);
    [ pose proof (Z.quot_pos a b) | pose proof (Z.rem_nonpos a b)
    | pose proof (Z.rem_nonneg a b) | pose proof (Z.rem_nonpos a b)
    | pose proof (Z.quot_pos a b) | pose proof (Z.rem_nonpos a b)
    | pose proof (Z.rem_nonneg a b) | pose proof (Z.rem_nonpos a b) ];
    nia.
Qed.

(** Division by a positive divisor never leaves the type. *)
Lemma cdiv_pos t a b : imin t <= a <= imax t -> 0 < b ->
  cdiv t (cval a) (cval b) = cval (Z.quot a b).
Proof.
  intros Ha Hb. unfold cdiv, cval; simpl.
  destruct (Z.eqb_spec b 0); [lia|]. now apply arith_ok, quot_range.
Qed.

Lemma crem_pos t a b : imin t <= a <= imax t -> 0 < b ->
  crem t (cval a) (cval b) = cval (Z.rem a b).
Proof.
  intros Ha Hb. unfold crem, cval; simpl.
  destruct (Z.eqb_spec b 0); [lia|]. rewrite arith_ok by now apply quot_range. reflexivity.
Qed.

(** The sign test of the hand-written floored divisions. *)
Lemma lxor_sign a b : 0 < b -> (Z.lxor a b <? 0) = (a <? 0).
Proof.
  intros Hb. rewrite !Z.ltb_antisym. f_equal. apply eq_true_iff_eq.
  rewrite !Z.leb_le, Z.lxor_nonneg. assert (0 <= b) by lia. tauto.
Qed.

Lemma floored_quot a b : 0 < b ->
  Z.quot a b - (if negb (Z.rem a b =? 0) && (a <? 0) then 1 else 0) = a / b.
Proof.
  intros Hb. rewrite (quot_floor a b Hb). f_equal.
  pose proof (Z.rem_nonneg a b). pose proof (Z.rem_nonpos a b).
  destruct (Z.eqb_spec (Z.rem a b) 0), (Z.ltb_spec a 0), (Z.ltb_spec (Z.rem a b) 0);
    cbn [negb andb]; lia.
Qed.

Lemma floor_range t a b : imin t <= a <= imax t -> 0 < b -> imin t <= a / b <= imax t.
Proof.
  intros Ha Hb. assert (imin t < 0 < imax t) by (destruct t; cbn; lia).
  split; [apply Z.div_le_lower_bound | apply Z.div_le_upper_bound]; nia.
Qed.

Lemma to_i32_id z : imin I32 <= z <= imax I32 -> to_i32 z = z.
Proof. simpl. intros. unfold to_i32. rewrite Z.mod_small; lia. Qed.

Lemma to_i32_range z : imin I32 <= to_i32 z <= imax I32.
Proof. unfold to_i32; simpl. pose proof (Z.mod_pos_bound (z + 2147483648) 4294967296). lia. Qed.

Lemma to_u32_id z : 0 <= z < 4294967296 -> to_u32 z = z.
Proof. apply Z.mod_small. Qed.

Lemma to_u32_range z : 0 <= to_u32 z < 4294967296.
Proof. apply Z.mod_pos_bound. lia. Qed.

Lemma to_u64_id z : 0 <= z < 18446744073709551616 -> to_u64 z = z.
Proof. apply Z.mod_small. Qed.

Lemma bind_cval {B} a (k : Z -> result B) : bind (cval a) k = k a.
Proof. reflexivity. Qed.

(** ** Automation: evaluate the machine operations of the goal from the inside
    out, proving that each result is representable. *)

Ltac crange := cbn [imin imax] in *; first [lia | repeat case_if; bsimpl; lia].

Ltac cstep_with tac :=
  match goal with
  | |- context [cadd ?t (cval ?a) (cval ?b)] => rewrite (cadd_ok t a b) by tac
  | |- context [csub ?t (cval ?a) (cval ?b)] => rewrite (csub_ok t a b) by tac
  | |- context [cmul ?t (cval ?a) (cval ?b)] => rewrite (cmul_ok t a b) by tac
  | |- context [cneg ?t (cval ?a)] => rewrite (cneg_ok t a) by tac
  | |- context [cdiv ?t (cval ?a) (cval ?b)] => rewrite (cdiv_pos t a b) by tac
  | |- context [crem ?t (cval ?a) (cval ?b)] => rewrite (crem_pos t a b) by tac
  | |- context [bind (cval ?a) ?k] => rewrite (bind_cval a k); cbv beta
  end.

Ltac cstep := cstep_with crange.
Ltac csteps := repeat cstep.
