(* ===== verification/CType.v ===== *)
(** * Characters

    The functions of [<cctype>] in the classic locale, text of digits and [std::stoi]. *)
From Stdlib Require Import ZArith Lia Ascii.
From stdpp Require Import base list numbers strings pretty.
From S2P Require Import Prelude.
Local Open Scope Z_scope.

Definition to_lower (c : ascii) : ascii :=
  let n := N_of_ascii c in if ((65 <=? n) && (n <=? 90))%N then ascii_of_N (n + 32) else c.

Definition to_upper (c : ascii) : ascii :=
  let n := N_of_ascii c in if ((97 <=? n) && (n <=? 122))%N then ascii_of_N (n - 32) else c.

Definition lowercase (s : string) : string := String.string_of_list_ascii (to_lower <$> String.list_ascii_of_string s).

Definition is_digit (c : ascii) : bool :=
  (N.leb (N_of_ascii "0") (N_of_ascii c) && N.leb (N_of_ascii c) (N_of_ascii "9"))%bool.

Definition digit_value (c : ascii) : Z := Z.of_N (N_of_ascii c) - 48.

(** The number that digits spell. *)
Definition digits_value (l : list ascii) : Z := fold_left (fun v c => v * 10 + digit_value c)%Z l 0.

(** [std::stoi] on a text of digits, with no sign or space before them. *)
Definition stoi (digits : string) : result Z :=
  let l := String.list_ascii_of_string digits in
  if bool_decide (l = []) then Throw invalid_argument
  else if digits_value l <? 2 ^ 31 then Ok (digits_value l) else Throw out_of_range.

(** * Lemmas *)

Lemma to_lower_idem c : to_lower (to_lower c) = to_lower c.
Proof. destruct c as [[] [] [] [] [] [] [] []]; reflexivity. Qed.

Lemma lowercase_idem s : lowercase (lowercase s) = lowercase s.
Proof.
  unfold lowercase. rewrite String.list_ascii_of_string_of_list_ascii. f_equal. rewrite <- list_fmap_compose.
  apply list_fmap_ext. intros i c _. apply to_lower_idem.
Qed.

Lemma ascii_append a b : String.list_ascii_of_string (a ++ b) = String.list_ascii_of_string a ++ String.list_ascii_of_string b.
Proof.
  induction a as [|c a IH]; [done|]. change (c :: String.list_ascii_of_string (a ++ b) = c :: (String.list_ascii_of_string a ++ String.list_ascii_of_string b)).
  by rewrite IH.
Qed.

Lemma ascii_inj a b : String.list_ascii_of_string a = String.list_ascii_of_string b -> a = b.
Proof. intros H. rewrite <- (String.string_of_list_ascii_of_string a), H. apply String.string_of_list_ascii_of_string. Qed.

Lemma ascii_length s : length (String.list_ascii_of_string s) = String.length s.
Proof. induction s; cbn; auto. Qed.

Lemma length_append (a b : string) : String.length (a ++ b) = (String.length a + String.length b)%nat.
Proof. induction a as [|c a IH]; [done|]. change (S (String.length (a ++ b)) = S (String.length a + String.length b))%nat. by rewrite IH. Qed.

Lemma substring_all (s : string) n : (String.length s <= n)%nat -> String.substring 0 n s = s.
Proof.
  revert n. induction s as [|c s IH]; intros [|n] H; cbn in *; try done; try lia. f_equal. apply IH. lia.
Qed.

Lemma digit_value_nonneg c : is_digit c = true -> 0 <= digit_value c.
Proof. unfold is_digit, digit_value. change (N_of_ascii "0") with 48%N. intros [H _]%andb_prop. apply N.leb_le in H. lia. Qed.

Lemma digits_value_snoc l c : digits_value (l ++ [c]) = digits_value l * 10 + digit_value c.
Proof. unfold digits_value. by rewrite fold_left_app. Qed.

(** ** Printed numbers *)

Lemma pretty_char_digit n : (n < 10)%N -> is_digit (pretty_N_char n) = true /\ digit_value (pretty_N_char n) = Z.of_N n.
Proof. intros Hn. destruct n as [|p]; [by split|]. do 4 (destruct p as [p|p|]; try (by split); try lia). Qed.

(** Digits put before others. *)
Lemma pretty_go_digits x s : exists pre, pretty_N_go x s = String.string_of_list_ascii (pre ++ String.list_ascii_of_string s) /\
  forallb is_digit pre = true /\ digits_value pre = Z.of_N x /\ ((0 < x)%N -> pre <> []).
Proof.
  revert s. induction (N.lt_wf_0 x) as [x _ IH]. intros s. destruct (decide (x = 0)%N) as [->|Hx].
  - exists []. rewrite pretty_N_go_0. cbn [app]. split; [by rewrite String.string_of_list_ascii_of_string|]. split; [done|]. split; [done|lia].
  - rewrite pretty_N_go_step by lia. set (c := pretty_N_char (x `mod` 10)).
    destruct (IH (x `div` 10)%N ltac:(apply N.div_lt; lia) (String c s)) as (pre & E & Hd & Hv & _).
    destruct (pretty_char_digit (x `mod` 10)) as [Dc Vc]; [by apply N.mod_lt|]. exists (pre ++ [c]).
    split; [rewrite E; by rewrite <- app_assoc|]. split; [rewrite forallb_app; cbn; unfold c; by rewrite Hd, Dc|].
    split; [|by destruct pre]. rewrite digits_value_snoc, Hv. unfold c. rewrite Vc. pose proof (N.div_mod x 10 ltac:(done)). lia.
Qed.

Lemma pretty_spelled n : 0 < n -> exists l, String.list_ascii_of_string (pretty n) = l /\ l <> [] /\ forallb is_digit l = true /\ digits_value l = n.
Proof.
  intros Hn. destruct n as [|p|p]; [lia| |lia]. destruct (pretty_go_digits (N.pos p) EmptyString) as (pre & E & Hd & Hv & Hne).
  cbn [String.list_ascii_of_string] in E. rewrite app_nil_r in E. exists pre. split; [|split; [by apply Hne|by split]].
  change (pretty (Z.pos p)) with (pretty (N.pos p)). unfold pretty, pretty_N. rewrite decide_False by done. rewrite E.
  apply String.list_ascii_of_string_of_list_ascii.
Qed.
