(* ===== verification/Overflow.v ===== *)
(** * TICK: overflow-checked arithmetic ([tick/detail/overflow.hpp])

    Each function has two bodies, one for constant evaluation (comparisons
    against the limits) and one for run time (the compiler's overflow builtins).
    Both are modelled; [const_eval] stands for [std::is_constant_evaluated()]. *)
From Stdlib Require Import ZArith Lia Bool.
From S2P Require Import Prelude CInt.
Local Open Scope Z_scope.

Local Abbreviation max64 := (imax I64).
Local Abbreviation min64 := (imin I64).

(** [c && rhs] with [rhs] evaluated only when [c] holds. *)
Definition c_and (c : bool) (rhs : result bool) : result bool :=
  if c then rhs else Ok false.

(** [__builtin_*_overflow]: the exact result when it fits, else the throw. *)
Definition builtin_or_throw (z : Z) : cexpr :=
  if in_i64 z then Ok z else Throw overflow_error.

Definition checked_add (const_eval : bool) (a b : Z) : cexpr :=
  if const_eval then
    let! over := c_and (0 <? b) (let! lim := (max64 - b)%i64 in Ok (lim <? a)) in
    do! throw_if over overflow_error then
    let! under := c_and (b <? 0) (let! lim := (min64 - b)%i64 in Ok (a <? lim)) in
    do! throw_if under overflow_error then
    (a + b)%i64
  else builtin_or_throw (a + b).

Definition checked_sub (const_eval : bool) (a b : Z) : cexpr :=
  if const_eval then
    let! over := c_and (b <? 0) (let! lim := (max64 + b)%i64 in Ok (lim <? a)) in
    do! throw_if over overflow_error then
    let! under := c_and (0 <? b) (let! lim := (min64 + b)%i64 in Ok (a <? lim)) in
    do! throw_if under overflow_error then
    (a - b)%i64
  else builtin_or_throw (a - b).

Definition checked_mul (const_eval : bool) (a b : Z) : cexpr :=
  if const_eval then
    if (a =? 0) || (b =? 0) then Ok 0
    else if a =? -1 then
      do! throw_if (b =? min64) overflow_error then (- b)%i64
    else if b =? -1 then
      do! throw_if (a =? min64) overflow_error then (- a)%i64
    else
      let! over :=
        (if 0 <? a then
           if 0 <? b then let! q := (max64 / b)%i64 in Ok (q <? a)
           else let! q := (min64 / a)%i64 in Ok (b <? q)
         else
           if 0 <? b then let! q := (min64 / b)%i64 in Ok (a <? q)
           else let! q := (max64 / b)%i64 in Ok (a <? q)) in
      do! throw_if over overflow_error then
      (a * b)%i64
  else builtin_or_throw (a * b).

(** ** Both bodies are the exact operation or an exception *)

Lemma checked_add_spec ce a b : in_i64 a = true -> in_i64 b = true ->
  checked_add ce a b = if in_i64 (a + b) then Ok (a + b) else Throw overflow_error.
Proof.
  rewrite !in_range_iff; cbn [imin imax]; intros Ha Hb.
  destruct ce; [|reflexivity]. unfold checked_add, c_and, throw_if.
  destruct (in_range I64 (a + b)) eqn:E;
    [rewrite in_range_iff in E | rewrite in_range_false in E]; cbn [imin imax] in *.
  - destruct (Z.ltb_spec 0 b), (Z.ltb_spec b 0); try lia; csteps; cbn [bind];
      repeat (case_if; bsimpl; cbn [bind]; try (exfalso; cbn [imin imax] in *; lia));
      csteps; reflexivity.
  - destruct (Z.ltb_spec 0 b), (Z.ltb_spec b 0); try lia; csteps; cbn [bind];
      repeat (case_if; bsimpl; cbn [bind]; try (exfalso; cbn [imin imax] in *; lia));
      reflexivity.
Qed.

Lemma checked_sub_spec ce a b : in_i64 a = true -> in_i64 b = true ->
  checked_sub ce a b = if in_i64 (a - b) then Ok (a - b) else Throw overflow_error.
Proof.
  rewrite !in_range_iff; cbn [imin imax]; intros Ha Hb.
  destruct ce; [|reflexivity]. unfold checked_sub, c_and, throw_if.
  destruct (in_range I64 (a - b)) eqn:E;
    [rewrite in_range_iff in E | rewrite in_range_false in E]; cbn [imin imax] in *.
  - destruct (Z.ltb_spec 0 b), (Z.ltb_spec b 0); try lia; csteps; cbn [bind];
      repeat (case_if; bsimpl; cbn [bind]; try (exfalso; cbn [imin imax] in *; lia));
      csteps; reflexivity.
  - destruct (Z.ltb_spec 0 b), (Z.ltb_spec b 0); try lia; csteps; cbn [bind];
      repeat (case_if; bsimpl; cbn [bind]; try (exfalso; cbn [imin imax] in *; lia));
      reflexivity.
Qed.

(** The truncated quotient of a limit decides whether a product exceeds it. *)
Lemma quot_limit_pos m a b : 0 <= m -> 0 < b -> (Z.quot m b <? a) = (m <? a * b).
Proof.
  intros. apply eq_true_iff_eq. rewrite !Z.ltb_lt.
  pose proof (Z.quot_rem' m b). pose proof (Z.rem_bound_pos m b).
  pose proof (Z.quot_pos m b). split; nia.
Qed.

Lemma quot_limit_neg m a b : m <= 0 -> 0 < b -> (a <? Z.quot m b) = (a * b <? m).
Proof.
  intros. apply eq_true_iff_eq. rewrite !Z.ltb_lt.
  pose proof (Z.quot_opp_l m b). pose proof (Z.quot_rem' (- m) b).
  pose proof (Z.rem_bound_pos (- m) b). pose proof (Z.quot_pos (- m) b). split; nia.
Qed.

Lemma quot_limit_both_neg m a b : 0 <= m -> b < 0 -> (a <? Z.quot m b) = (m <? a * b).
Proof.
  intros. apply eq_true_iff_eq. rewrite !Z.ltb_lt.
  pose proof (Z.quot_opp_r m b). pose proof (Z.quot_rem' m (- b)).
  pose proof (Z.rem_bound_pos m (- b)). pose proof (Z.quot_pos m (- b)). split; nia.
Qed.

Lemma cdiv_max64 b : b <> 0 -> cdiv I64 (cval max64) (cval b) = cval (Z.quot max64 b).
Proof.
  intros Hb. unfold cdiv, cval; cbn [bind]. destruct (Z.eqb_spec b 0); [lia|].
  apply arith_ok. destruct (Z.lt_ge_cases 0 b); [now apply quot_range; cbn [imin imax]|].
  rewrite <- (Z.opp_involutive b), Z.quot_opp_r by lia.
  pose proof (Z.quot_pos max64 (- b)). pose proof (Z.quot_le_upper_bound max64 (- b) max64).
  cbn [imin imax] in *. nia.
Qed.

Lemma checked_mul_spec ce a b : in_i64 a = true -> in_i64 b = true ->
  checked_mul ce a b = if in_i64 (a * b) then Ok (a * b) else Throw overflow_error.
Proof.
  rewrite !in_range_iff; cbn [imin imax]; intros Ha Hb.
  destruct ce; [|reflexivity]. unfold checked_mul.
  destruct (Z.eqb_spec a 0), (Z.eqb_spec b 0); subst; cbn [orb];
    rewrite ?Z.mul_0_l, ?Z.mul_0_r; try reflexivity.
  destruct (Z.eqb_spec a (-1)); [subst a|destruct (Z.eqb_spec b (-1)); [subst b|]].
  - replace (-1 * b) with (- b) by lia. unfold throw_if.
    destruct (Z.eqb_spec b min64); subst; [reflexivity|]. cbn [imin] in *.
    cbn [bind]. rewrite (cneg_ok I64) by crange.
    now rewrite (proj2 (in_range_iff I64 (- b))) by crange.
  - replace (a * -1) with (- a) by lia. unfold throw_if.
    destruct (Z.eqb_spec a min64); subst; [reflexivity|]. cbn [imin] in *.
    cbn [bind]. rewrite (cneg_ok I64) by crange.
    now rewrite (proj2 (in_range_iff I64 (- a))) by crange.
  - assert (Hfin : forall over, over = negb (in_i64 (a * b)) ->
      (do! throw_if over overflow_error then (a * b)%i64) =
      if in_i64 (a * b) then Ok (a * b) else Throw overflow_error).
    { intros over ->. unfold throw_if, cmul, cval, arith; cbn [bind].
      now destruct (in_i64 (a * b)). }
    destruct (Z.ltb_spec 0 a), (Z.ltb_spec 0 b);
      rewrite ?cdiv_max64, ?cdiv_pos by (cbn [imin imax]; lia); cbn [bind]; apply Hfin;
      rewrite ?quot_limit_pos, ?quot_limit_neg, ?quot_limit_both_neg,
        ?(Z.mul_comm b a) by (cbn [imin imax]; lia);
      unfold in_range; cbn [imin imax]; nia.
Qed.

(** The checked operations return the exact 64-bit result when it is
    representable and raise [std::overflow_error] when it is not; the body used in
    constant evaluation, whose comparisons must themselves not overflow, agrees
    with the one used at run time. *)
Theorem checked_arithmetic ce a b : in_i64 a = true -> in_i64 b = true ->
  checked_add ce a b = (if in_i64 (a + b) then Ok (a + b) else Throw overflow_error) /\
  checked_sub ce a b = (if in_i64 (a - b) then Ok (a - b) else Throw overflow_error) /\
  checked_mul ce a b = (if in_i64 (a * b) then Ok (a * b) else Throw overflow_error).
Proof.
  intros Ha Hb. split; [|split];
    [now apply checked_add_spec | now apply checked_sub_spec | now apply checked_mul_spec].
Qed.

Example checked_arithmetic_witness :
  checked_add true 9223372036854775807 1 = Throw overflow_error /\
  checked_sub true (-9223372036854775808) 1 = Throw overflow_error /\
  checked_mul true 9223372036854775807 1 = Ok 9223372036854775807.
Proof.
  split; [exact (proj1 (checked_arithmetic true 9223372036854775807 1 eq_refl eq_refl))|].
  split; [exact (proj1 (proj2 (checked_arithmetic true (-9223372036854775808) 1 eq_refl eq_refl)))|].
  exact (proj2 (proj2 (checked_arithmetic true 9223372036854775807 1 eq_refl eq_refl))).
Defined.
