(* ===== verification/TimeCore.v ===== *)
(** * TICK: durations, time points and decomposed dates
    ([tick/duration.hpp], [tick/time_point.hpp], [tick/date_time.hpp])

    A [Duration] and a [Time_Point] hold a count of nanoseconds in an
    [std::int64_t]; a [Date_Time] is an aggregate of [std::int32_t] fields. *)
From Stdlib Require Import ZArith Lia Bool List.
From S2P Require Import Prelude CInt Overflow.
Local Open Scope Z_scope.

(** ** Duration *)

Record Duration : Type := mkDuration { dur_nanos : Z }.

Definition dur_add (self other : Duration) : result Duration :=
  let! n := checked_add false (dur_nanos self) (dur_nanos other) in Ok (mkDuration n).

Definition dur_sub (self other : Duration) : result Duration :=
  let! n := checked_sub false (dur_nanos self) (dur_nanos other) in Ok (mkDuration n).

Definition dur_mul (self : Duration) (scalar : Z) : result Duration :=
  let! n := checked_mul false (dur_nanos self) scalar in Ok (mkDuration n).

Definition dur_div (self : Duration) (scalar : Z) : result Duration :=
  do! throw_if (scalar =? 0) invalid_argument then
  let! n := (dur_nanos self / scalar)%i64 in Ok (mkDuration n).

Definition dur_neg (self : Duration) : result Duration :=
  let! n := (- dur_nanos self)%i64 in Ok (mkDuration n).

(** The compound assignments: the result is the new value of [*this]. *)
Definition dur_add_assign (self other : Duration) : result Duration :=
  let! n := checked_add false (dur_nanos self) (dur_nanos other) in Ok (mkDuration n).

Definition dur_sub_assign (self other : Duration) : result Duration :=
  let! n := checked_sub false (dur_nanos self) (dur_nanos other) in Ok (mkDuration n).

Definition dur_mul_assign (self : Duration) (scalar : Z) : result Duration :=
  let! n := checked_mul false (dur_nanos self) scalar in Ok (mkDuration n).

Definition dur_div_assign (self : Duration) (scalar : Z) : result Duration :=
  do! throw_if (scalar =? 0) invalid_argument then
  let! n := (dur_nanos self / scalar)%i64 in Ok (mkDuration n).

(** Factory functions: the product is not checked. *)
Definition nanoseconds (count : Z) : result Duration := Ok (mkDuration count).
Definition microseconds (count : Z) : result Duration :=
  let! n := (count * 1000)%i64 in Ok (mkDuration n).
Definition milliseconds (count : Z) : result Duration :=
  let! n := (count * 1000000)%i64 in Ok (mkDuration n).
Definition seconds (count : Z) : result Duration :=
  let! n := (count * 1000000000)%i64 in Ok (mkDuration n).
Definition minutes (count : Z) : result Duration :=
  let! n := (count * 60000000000)%i64 in Ok (mkDuration n).
Definition hours (count : Z) : result Duration :=
  let! n := (count * 3600000000000)%i64 in Ok (mkDuration n).
Definition days (count : Z) : result Duration :=
  let! n := (count * 86400000000000)%i64 in Ok (mkDuration n).

(** ** Time_Point *)

Record Time_Point : Type := mkTime_Point { tp_nanos : Z }.

Definition tp_add (self : Time_Point) (d : Duration) : result Time_Point :=
  let! n := checked_add false (tp_nanos self) (dur_nanos d) in Ok (mkTime_Point n).

Definition tp_sub (self : Time_Point) (d : Duration) : result Time_Point :=
  let! n := checked_sub false (tp_nanos self) (dur_nanos d) in Ok (mkTime_Point n).

Definition tp_diff (self other : Time_Point) : result Duration :=
  let! n := checked_sub false (tp_nanos self) (tp_nanos other) in Ok (mkDuration n).

Definition tp_add_assign (self : Time_Point) (d : Duration) : result Time_Point :=
  let! n := checked_add false (tp_nanos self) (dur_nanos d) in Ok (mkTime_Point n).

Definition tp_sub_assign (self : Time_Point) (d : Duration) : result Time_Point :=
  let! n := checked_sub false (tp_nanos self) (dur_nanos d) in Ok (mkTime_Point n).

(** The defaulted comparisons. *)
Definition tp_eqb (a b : Time_Point) : bool := tp_nanos a =? tp_nanos b.
Definition tp_ltb (a b : Time_Point) : bool := tp_nanos a <? tp_nanos b.
Definition tp_leb (a b : Time_Point) : bool := tp_nanos a <=? tp_nanos b.

Definition nanos_per_second : Z := 1000000000.
Definition nanos_per_minute : Z := 60000000000.
Definition nanos_per_hour : Z := 3600000000000.
Definition nanos_per_day : Z := 86400000000000.

Definition epoch : Time_Point := mkTime_Point 0.

(** Values that fit the members' type. *)
Definition tp_ok (t : Time_Point) : bool := in_i64 (tp_nanos t).
Definition dur_ok (d : Duration) : bool := in_i64 (dur_nanos d).

(** ** Date_Time *)

Record Date_Time : Type := mkDate_Time {
  year : Z; month : Z; day : Z; hour : Z; minute : Z; second : Z; nanosecond : Z
}.

(** The fields in the order in which the defaulted [<=>] compares them. *)
Definition dt_fields (d : Date_Time) : list Z :=
  (year d :: month d :: day d :: hour d :: minute d :: second d :: nanosecond d :: nil)%list.

(** Lexicographic comparison of equally long lists. *)
Fixpoint lex_ltb (xs ys : list Z) : bool :=
  match xs, ys with
  | (x :: xs')%list, (y :: ys')%list => (x <? y) || ((x =? y) && lex_ltb xs' ys')
  | _, _ => false
  end.

Definition dt_ltb (a b : Date_Time) : bool := lex_ltb (dt_fields a) (dt_fields b).

(** All seven fields are representable. *)
Definition dt_ok (d : Date_Time) : bool := forallb in_i32 (dt_fields d).

(** ** Lemmas *)

Lemma npd_hours : nanos_per_day = 24 * nanos_per_hour.
Proof. reflexivity. Qed.

Lemma tp_eta t : mkTime_Point (tp_nanos t) = t.
Proof. now destruct t. Qed.

Lemma dur_eta d : mkDuration (dur_nanos d) = d.
Proof. now destruct d. Qed.

Lemma dt_ok_iff d : dt_ok d = true <->
  in_i32 (year d) = true /\ in_i32 (month d) = true /\ in_i32 (day d) = true /\
  in_i32 (hour d) = true /\ in_i32 (minute d) = true /\ in_i32 (second d) = true /\
  in_i32 (nanosecond d) = true.
Proof. unfold dt_ok; cbn [forallb dt_fields]. rewrite !andb_true_iff. tauto. Qed.

Lemma tp_add_spec t d : tp_ok t = true -> dur_ok d = true ->
  tp_add t d = if in_i64 (tp_nanos t + dur_nanos d)
               then Ok (mkTime_Point (tp_nanos t + dur_nanos d)) else Throw overflow_error.
Proof.
  intros Ht Hd. unfold tp_add. rewrite checked_add_spec by assumption. now case_if.
Qed.

Lemma tp_sub_spec t d : tp_ok t = true -> dur_ok d = true ->
  tp_sub t d = if in_i64 (tp_nanos t - dur_nanos d)
               then Ok (mkTime_Point (tp_nanos t - dur_nanos d)) else Throw overflow_error.
Proof.
  intros Ht Hd. unfold tp_sub. rewrite checked_sub_spec by assumption. now case_if.
Qed.

#[export] Hint Rewrite tp_add_spec tp_sub_spec using assumption : helm.
