(* ===== verification/Calendar.v ===== *)
(** * TICK: the calendar interface ([tick/calendar.hpp]) and its specification

    [Calendar] is the C++ concept.  [CalendarSpec] is what a calendar is, with
    no machine arithmetic: the lengths of its months and the day on which each
    year begins.  A date then names one instant ([instant]), and
    [CalendarRefines] is the contract between an implementation and its
    specification, which the engines built on calendars rely on. *)
From Stdlib Require Import ZArith Lia Bool List.
From S2P Require Import Prelude CInt TimeCore.
Import ListNotations.
Local Open Scope Z_scope.

(** ** The concept *)

Class Calendar : Type := {
  to_date_time : Time_Point -> result Date_Time;
  to_time_point : Date_Time -> result Time_Point;
  days_in_month : Z -> Z -> result Z;
  days_in_year : Z -> result Z
}.

(** ** The specification of a calendar *)

Class CalendarSpec : Type := {
  month_len : Z -> Z -> Z;          (* year, month in 1..12 *)
  year_start : Z -> Z               (* days from 2026-01-01 to January 1st *)
}.

Fixpoint sum_months (f : Z -> Z) (n : nat) : Z :=
  match n with O => 0 | S k => sum_months f k + f (Z.of_nat k + 1) end.

Definition days_before_month `{CalendarSpec} (y m : Z) : Z :=
  sum_months (month_len y) (Z.to_nat (m - 1)).

Definition day_number `{CalendarSpec} (y m d : Z) : Z :=
  year_start y + days_before_month y m + (d - 1).

Definition time_of_day (h mi s ns : Z) : Z :=
  h * nanos_per_hour + mi * nanos_per_minute + s * nanos_per_second + ns.

Definition dt_day `{CalendarSpec} (d : Date_Time) : Z := day_number (year d) (month d) (day d).
Definition dt_tod (d : Date_Time) : Z :=
  time_of_day (hour d) (minute d) (second d) (nanosecond d).

(** The instant a date names, in nanoseconds from the epoch. *)
Definition instant `{CalendarSpec} (d : Date_Time) : Z := dt_day d * nanos_per_day + dt_tod d.

Definition valid_date `{CalendarSpec} (y m d : Z) : bool :=
  (1 <=? m) && (m <=? 12) && (1 <=? d) && (d <=? month_len y m).

Definition valid_tod (h mi s ns : Z) : bool :=
  (0 <=? h) && (h <=? 23) && (0 <=? mi) && (mi <=? 59) && (0 <=? s) && (s <=? 59) &&
  (0 <=? ns) && (ns <=? 999999999).

Definition valid_dt `{CalendarSpec} (d : Date_Time) : bool :=
  valid_date (year d) (month d) (day d) &&
  valid_tod (hour d) (minute d) (second d) (nanosecond d).

Class CalendarSpecLaws (S : CalendarSpec) : Prop := {
  month_len_bounds : forall y m, 1 <= m <= 12 -> 28 <= month_len y m <= 31;
  year_start_succ : forall y, year_start (y + 1) = year_start y + days_before_month y 13;
  year_start_epoch : year_start 2026 = 0
}.

(** ** The contract of an implementation *)

(** The first instant every calendar handles: midnight of the first whole day
    whose beginning is representable. *)
Definition cal_min : Z := -9223286400000000000.

Class CalendarRefines (C : Calendar) (S : CalendarSpec) : Prop := {
  days_in_month_refines : forall y m, in_i32 y = true -> in_i32 m = true ->
    days_in_month y m =
      if (1 <=? m) && (m <=? 12) then Ok (month_len y m) else Throw invalid_argument;
  to_date_time_refines : forall n, cal_min <= n <= imax I64 ->
    exists d, to_date_time (mkTime_Point n) = Ok d /\ dt_ok d = true /\
              valid_dt d = true /\ instant d = n;
  to_time_point_refines : forall d, dt_ok d = true ->
    to_time_point d =
      if valid_dt d then
        if (imin I64 <=? dt_day d * nanos_per_day) && (instant d <=? imax I64)
        then Ok (mkTime_Point (instant d)) else Undef
      else Throw invalid_argument
}.

(** Case analysis on a month number. *)
Lemma month_cases (P : Z -> Prop) :
  P 1 -> P 2 -> P 3 -> P 4 -> P 5 -> P 6 -> P 7 -> P 8 -> P 9 -> P 10 -> P 11 -> P 12 ->
  forall m, 1 <= m <= 12 -> P m.
Proof.
  intros. assert (m = 1 \/ m = 2 \/ m = 3 \/ m = 4 \/ m = 5 \/ m = 6 \/ m = 7 \/ m = 8 \/
    m = 9 \/ m = 10 \/ m = 11 \/ m = 12) as E by lia.
  repeat destruct E as [->|E]; subst; assumption.
Qed.

(** ** Theory of a specification: dates and instants are in the same order *)

Lemma sum_months_succ f n : sum_months f (S n) = sum_months f n + f (Z.of_nat n + 1).
Proof. reflexivity. Qed.

Lemma tod_bounds h mi s ns : valid_tod h mi s ns = true ->
  0 <= time_of_day h mi s ns < nanos_per_day.
Proof.
  unfold valid_tod, time_of_day, nanos_per_day, nanos_per_hour, nanos_per_minute,
    nanos_per_second. rewrite !andb_true_iff, !Z.leb_le. lia.
Qed.

Lemma dt_tod_bounds `{CalendarSpec} d : valid_dt d = true -> 0 <= dt_tod d < nanos_per_day.
Proof. unfold valid_dt. rewrite andb_true_iff. intros [_ Ht]. now apply tod_bounds. Qed.

(** A time of day determines its components. *)
Lemma tod_lex h mi s ns h' mi' s' ns' :
  valid_tod h mi s ns = true -> valid_tod h' mi' s' ns' = true ->
  lex_ltb [h; mi; s; ns] [h'; mi'; s'; ns'] = true ->
  time_of_day h mi s ns < time_of_day h' mi' s' ns'.
Proof.
  unfold valid_tod, time_of_day, nanos_per_hour, nanos_per_minute, nanos_per_second.
  cbn [lex_ltb]. rewrite !andb_true_iff, !Z.leb_le.
  intros Ha Hb. repeat rewrite ?orb_true_iff, ?andb_true_iff, ?Z.ltb_lt, ?Z.eqb_eq.
  intuition (subst; try lia; discriminate).
Qed.

Section Theory.
Context `{L : CalendarSpecLaws}.

Lemma days_before_month_step y m : 1 <= m ->
  days_before_month y (m + 1) = days_before_month y m + month_len y m.
Proof.
  intros Hm. unfold days_before_month.
  replace (Z.to_nat (m + 1 - 1)) with (S (Z.to_nat (m - 1))) by lia.
  rewrite sum_months_succ. do 2 f_equal. lia.
Qed.

Lemma days_before_month_mono y m k : 1 <= m -> (m + Z.of_nat k <= 12) ->
  days_before_month y m + month_len y m <= days_before_month y (m + Z.of_nat k + 1).
Proof.
  intros Hm. induction k as [|k IH]; intros Hk.
  - rewrite Z.add_0_r, days_before_month_step by lia. lia.
  - replace (m + Z.of_nat (S k) + 1) with (m + Z.of_nat k + 1 + 1) by lia.
    rewrite (days_before_month_step y (m + Z.of_nat k + 1)) by lia.
    pose proof (month_len_bounds y (m + Z.of_nat k + 1)). lia.
Qed.

Lemma days_before_month_lt y m m' : 1 <= m -> m < m' <= 13 ->
  days_before_month y m + month_len y m <= days_before_month y m'.
Proof.
  intros. pose proof (days_before_month_mono y m (Z.to_nat (m' - m - 1))) as E.
  replace (m + Z.of_nat (Z.to_nat (m' - m - 1)) + 1) with m' in E by lia. lia.
Qed.

Lemma days_before_month_1 y : days_before_month y 1 = 0.
Proof. reflexivity. Qed.

Lemma days_before_month_nonneg y m : 1 <= m <= 13 -> 0 <= days_before_month y m.
Proof.
  intros. destruct (Z.eq_dec m 1); [subst; rewrite days_before_month_1; lia|].
  pose proof (days_before_month_lt y 1 m). pose proof (month_len_bounds y 1).
  rewrite days_before_month_1 in *. lia.
Qed.

Lemma year_start_mono_nat y k : year_start (y + 1) <= year_start (y + 1 + Z.of_nat k).
Proof.
  induction k as [|k IH]; [rewrite Z.add_0_r; lia|].
  replace (y + 1 + Z.of_nat (S k)) with (y + 1 + Z.of_nat k + 1) by lia.
  rewrite (year_start_succ (y + 1 + Z.of_nat k)).
  pose proof (days_before_month_nonneg (y + 1 + Z.of_nat k) 13). lia.
Qed.

Lemma year_start_mono y y' : y < y' -> year_start (y + 1) <= year_start y'.
Proof.
  intros. pose proof (year_start_mono_nat y (Z.to_nat (y' - y - 1))) as E.
  replace (y + 1 + Z.of_nat (Z.to_nat (y' - y - 1))) with y' in E by lia. lia.
Qed.

Lemma valid_date_iff y m d : valid_date y m d = true <->
  1 <= m <= 12 /\ 1 <= d <= month_len y m.
Proof. unfold valid_date. rewrite !andb_true_iff, !Z.leb_le. lia. Qed.

Lemma day_number_in_year y m d : valid_date y m d = true ->
  year_start y <= day_number y m d < year_start (y + 1).
Proof.
  rewrite valid_date_iff. intros [Hm Hd]. unfold day_number.
  pose proof (days_before_month_nonneg y m). pose proof (days_before_month_lt y m 13).
  rewrite year_start_succ. lia.
Qed.

(** Later dates have larger day numbers. *)
Lemma day_number_lex y m d y' m' d' :
  valid_date y m d = true -> valid_date y' m' d' = true ->
  lex_ltb [y; m; d] [y'; m'; d'] = true -> day_number y m d < day_number y' m' d'.
Proof.
  intros Ha Hb. pose proof (day_number_in_year _ _ _ Ha) as Ia.
  pose proof (day_number_in_year _ _ _ Hb) as Ib.
  rewrite valid_date_iff in Ha, Hb. cbn [lex_ltb].
  repeat rewrite ?orb_true_iff, ?andb_true_iff, ?Z.ltb_lt, ?Z.eqb_eq.
  intros [Hy | [<- [Hm | [<- [Hd | [_ Hf]]]]]]; [| | |discriminate].
  - pose proof (year_start_mono y y' Hy). lia.
  - pose proof (days_before_month_lt y m m'). unfold day_number. lia.
  - unfold day_number. lia.
Qed.

Lemma lex_split7 a b c d e f g a' b' c' d' e' f' g' :
  lex_ltb [a; b; c; d; e; f; g] [a'; b'; c'; d'; e'; f'; g'] =
  lex_ltb [a; b; c] [a'; b'; c'] ||
  ((a =? a') && (b =? b') && (c =? c') && lex_ltb [d; e; f; g] [d'; e'; f'; g']).
Proof.
  cbn [lex_ltb]. destruct (a <? a'), (a =? a'), (b <? b'), (b =? b'), (c <? c'), (c =? c');
    cbn [orb andb]; rewrite ?andb_false_r, ?orb_false_r; reflexivity.
Qed.

Lemma instant_lex a b : valid_dt a = true -> valid_dt b = true ->
  dt_ltb a b = true -> instant a < instant b.
Proof.
  intros Ha Hb. pose proof (dt_tod_bounds _ Ha). pose proof (dt_tod_bounds _ Hb).
  unfold valid_dt in Ha, Hb. rewrite andb_true_iff in Ha, Hb.
  destruct Ha as [Da Ta], Hb as [Db Tb].
  unfold dt_ltb, dt_fields. rewrite lex_split7, orb_true_iff.
  unfold instant. intros [Hd | Ht].
  - pose proof (day_number_lex _ _ _ _ _ _ Da Db Hd). unfold dt_day in *.
    unfold nanos_per_day in *. lia.
  - rewrite !andb_true_iff, !Z.eqb_eq in Ht. destruct Ht as [[[Hy Hm] Hd] Ht].
    pose proof (tod_lex _ _ _ _ _ _ _ _ Ta Tb Ht).
    unfold dt_day, dt_tod. rewrite Hy, Hm, Hd. lia.
Qed.

Lemma lex_total xs : forall ys, length xs = length ys ->
  lex_ltb xs ys = true \/ xs = ys \/ lex_ltb ys xs = true.
Proof.
  induction xs as [|x xs IH]; intros [|y ys] Hl; try discriminate; [tauto|].
  injection Hl as Hl. cbn [lex_ltb]. rewrite !orb_true_iff, !andb_true_iff, !Z.ltb_lt, !Z.eqb_eq.
  destruct (IH ys Hl) as [?|[->|?]]; destruct (Z.lt_trichotomy x y) as [?|[->|?]]; auto.
Qed.

Lemma dt_fields_inj a b : dt_fields a = dt_fields b -> a = b.
Proof. destruct a, b. unfold dt_fields; simpl. now intros [= -> -> -> -> -> -> ->]. Qed.

Lemma dt_total a b : dt_ltb a b = true \/ a = b \/ dt_ltb b a = true.
Proof.
  destruct (lex_total (dt_fields a) (dt_fields b) eq_refl) as [?|[E|?]]; auto.
  apply dt_fields_inj in E. auto.
Qed.

(** The order isomorphism, and with it injectivity. *)
Lemma instant_lt_iff a b : valid_dt a = true -> valid_dt b = true ->
  dt_ltb a b = true <-> instant a < instant b.
Proof.
  intros Ha Hb. split; [now apply instant_lex|]. intros Hlt.
  destruct (dt_total a b) as [?|[->|Hba]]; [assumption|lia|].
  pose proof (instant_lex b a Hb Ha Hba). lia.
Qed.

Lemma instant_inj a b : valid_dt a = true -> valid_dt b = true ->
  instant a = instant b -> a = b.
Proof.
  intros Ha Hb E. destruct (dt_total a b) as [Hl|[?|Hl]]; [|assumption|];
    apply instant_lex in Hl; auto; lia.
Qed.

Lemma dt_day_div a : valid_dt a = true -> dt_day a = instant a / nanos_per_day.
Proof.
  intros Ha. pose proof (dt_tod_bounds _ Ha). unfold instant.
  rewrite Z.mul_comm. symmetry. apply div_mod_unique; unfold nanos_per_day in *; lia.
Qed.
End Theory.

(** ** The decomposition of a time of day, as every calendar performs it *)

Ltac Zify.zify_post_hook ::= Z.to_euclidean_division_equations.

Lemma tod_code {B} (k : Z -> Z -> Z -> Z -> result B) sd : 0 <= sd < nanos_per_day ->
  exists h mi s ns, valid_tod h mi s ns = true /\ time_of_day h mi s ns = sd /\
    to_i32 h = h /\ to_i32 mi = mi /\ to_i32 s = s /\ to_i32 ns = ns /\
    (let! h := (sd / nanos_per_hour)%i64 in
     let! r1 := (sd rem nanos_per_hour)%i64 in
     let! mi := (r1 / nanos_per_minute)%i64 in
     let! r2 := (r1 rem nanos_per_minute)%i64 in
     let! s := (r2 / nanos_per_second)%i64 in
     let! ns := (r2 rem nanos_per_second)%i64 in k h mi s ns) = k h mi s ns.
Proof.
  unfold time_of_day, valid_tod, nanos_per_day, nanos_per_hour, nanos_per_minute,
    nanos_per_second. intros Hsd.
  exists (Z.quot sd 3600000000000), (Z.quot (Z.rem sd 3600000000000) 60000000000),
    (Z.quot (Z.rem (Z.rem sd 3600000000000) 60000000000) 1000000000),
    (Z.rem (Z.rem (Z.rem sd 3600000000000) 60000000000) 1000000000).
  rewrite !andb_true_iff, !Z.leb_le.
  repeat match goal with |- _ /\ _ => split end;
    try (apply to_i32_id; cbn [imin imax]); try lia.
  csteps. reflexivity.
Qed.

(** The guards of the calendars' [validate] functions. *)
Lemma tod_guards h mi s ns :
  (do! throw_if ((h <? 0) || (23 <? h)) invalid_argument then
   do! throw_if ((mi <? 0) || (59 <? mi)) invalid_argument then
   do! throw_if ((s <? 0) || (59 <? s)) invalid_argument then
   throw_if ((ns <? 0) || (999999999 <? ns)) invalid_argument) =
  throw_if (negb (valid_tod h mi s ns)) invalid_argument.
Proof.
  unfold valid_tod, throw_if. rewrite !Z.ltb_antisym.
  destruct (0 <=? h), (h <=? 23), (0 <=? mi), (mi <=? 59), (0 <=? s), (s <=? 59),
    (0 <=? ns), (ns <=? 999999999); reflexivity.
Qed.

(** The final sum of every [to_time_point]: defined exactly when the day's
    first instant and the instant itself are representable. *)
Definition instant_or_undef (d tod : Z) : result Time_Point :=
  if (imin I64 <=? d * nanos_per_day) && (d * nanos_per_day + tod <=? imax I64)
  then Ok (mkTime_Point (d * nanos_per_day + tod)) else Undef.

Lemma base_undef (d : Z) : d * nanos_per_day < imin I64 \/ imax I64 < d * nanos_per_day ->
  cmul I64 (cval d) (cval nanos_per_day) = Undef.
Proof. intros H. unfold cmul, cval; cbn [bind]. now apply arith_undef. Qed.

Lemma cadd_undef t (a b : Z) : a + b < imin t \/ imax t < a + b -> cadd t (cval a) (cval b) = Undef.
Proof. apply arith_undef. Qed.

(** Adding [b >= 0] to a value that is at least the minimum: the sum, or no meaning. *)
Lemma cadd_upto {B} (a b : Z) (k : Z -> result B) : imin I64 <= a -> 0 <= b ->
  bind (cadd I64 (cval a) (cval b)) k = if a + b <=? imax I64 then k (a + b) else Undef.
Proof.
  intros Ha Hb. destruct (Z.leb_spec (a + b) (imax I64)).
  - now rewrite cadd_ok, bind_cval by lia.
  - now rewrite cadd_undef by lia.
Qed.

Ltac tod_unfold :=
  unfold valid_tod, time_of_day, instant_or_undef in *;
  rewrite ?andb_true_iff, ?Z.leb_le in *.

Lemma tod_accumulate (d h mi s ns : Z) : valid_tod h mi s ns = true ->
  (let! n0 := (d * nanos_per_day)%i64 in
   let! n1 := (n0 + h * nanos_per_hour)%i64 in
   let! n2 := (n1 + mi * nanos_per_minute)%i64 in
   let! n3 := (n2 + s * nanos_per_second)%i64 in
   let! n4 := (n3 + ns)%i64 in Ok (mkTime_Point n4)) =
  instant_or_undef d (time_of_day h mi s ns).
Proof.
  intros Hv. tod_unfold.
  destruct (Z.leb_spec (imin I64) (d * nanos_per_day)) as [Hlo|Hlo]; cbn [andb];
    [|now rewrite base_undef by auto].
  destruct (Z.le_gt_cases (d * nanos_per_day) (imax I64)) as [Hhi|Hhi].
  2:{ rewrite base_undef by auto. cbn [bind].
      destruct (Z.leb_spec (d * nanos_per_day + (h * nanos_per_hour + mi * nanos_per_minute +
        s * nanos_per_second + ns)) (imax I64)); [|reflexivity].
      unfold nanos_per_hour, nanos_per_minute, nanos_per_second in *; lia. }
  rewrite cmul_ok, bind_cval by lia. set (base := d * nanos_per_day) in *. clearbody base.
  unfold nanos_per_hour, nanos_per_minute, nanos_per_second in *.
  do 4 (rewrite ?cmul_ok, cadd_upto by crange; case_if; bsimpl;
        [|rewrite (proj2 (Z.leb_gt _ _)) by lia; reflexivity]).
  rewrite (proj2 (Z.leb_le _ _)) by lia. do 2 f_equal. lia.
Qed.

(** The same sum written as one expression, in the two groupings used. *)
Lemma tod_expression (d h mi s ns : Z) : valid_tod h mi s ns = true ->
  bind (d * nanos_per_day + h * nanos_per_hour + mi * nanos_per_minute +
        s * nanos_per_second + ns)%i64 (fun n => Ok (mkTime_Point n)) =
  instant_or_undef d (time_of_day h mi s ns).
Proof.
  intros Hv. rewrite <- tod_accumulate by assumption.
  unfold cadd, cval. rewrite !bind_assoc. reflexivity.
Qed.

Lemma tod_grouped (d h mi s ns : Z) : valid_tod h mi s ns = true ->
  (let! sub := (h * nanos_per_hour + mi * nanos_per_minute + s * nanos_per_second + ns)%i64 in
   let! n := (d * nanos_per_day + sub)%i64 in Ok (mkTime_Point n)) =
  instant_or_undef d (time_of_day h mi s ns).
Proof.
  intros Hv. pose proof (tod_bounds _ _ _ _ Hv) as Hb. tod_unfold.
  unfold nanos_per_hour, nanos_per_minute, nanos_per_second in *.
  rewrite !cmul_ok, !cadd_ok, bind_cval by crange.
  set (sub := _ + ns) in *. clearbody sub. clear Hv.
  destruct (Z.leb_spec (imin I64) (d * nanos_per_day)) as [Hlo|Hlo]; cbn [andb];
    [|now rewrite base_undef by auto].
  destruct (Z.le_gt_cases (d * nanos_per_day) (imax I64)) as [Hhi|Hhi].
  - rewrite cmul_ok, cadd_upto by (split || idtac; lia). reflexivity.
  - rewrite base_undef by auto. now rewrite (proj2 (Z.leb_gt _ _)) by lia.
Qed.

(** ** Calendar-month arithmetic *)

(** The months counted from year 0, and the date [k] months later: the same day
    of the month, or the last one if the target month is shorter. *)
Definition month_index (d : Date_Time) : Z := year d * 12 + (month d - 1).

Definition shift_months `{CalendarSpec} (d : Date_Time) (k : Z) : Date_Time :=
  let t := month_index d + k in
  let y := t / 12 in
  let m := t mod 12 + 1 in
  mkDate_Time y m (Z.min (day d) (month_len y m)) (hour d) (minute d) (second d) (nanosecond d).

Lemma shift_months_valid {S : CalendarSpec} {L : CalendarSpecLaws S} d k :
  valid_dt d = true -> valid_dt (shift_months d k) = true.
Proof.
  unfold valid_dt, shift_months; cbn [year month day hour minute second nanosecond].
  rewrite !andb_true_iff, !valid_date_iff. intros [[Hm Hd] Ht]. split; [|assumption].
  pose proof (Z.mod_pos_bound (month_index d + k) 12).
  pose proof (month_len_bounds ((month_index d + k) / 12) ((month_index d + k) mod 12 + 1)).
  lia.
Qed.

Lemma shift_months_ok {S : CalendarSpec} {L : CalendarSpecLaws S} d k :
  dt_ok d = true -> valid_dt d = true ->
  in_i32 (month_index d + k) = true -> dt_ok (shift_months d k) = true.
Proof.
  intros Hok Hv. pose proof (shift_months_valid d k Hv) as Hv'.
  unfold valid_dt, valid_tod in Hv'. rewrite andb_true_iff, valid_date_iff in Hv'.
  rewrite !andb_true_iff, !Z.leb_le in Hv'. destruct Hv' as [[Hm Hd] Ht].
  pose proof (month_len_bounds (year (shift_months d k)) _ Hm).
  rewrite dt_ok_iff, !in_range_iff. cbn [imin imax]. intros Hr.
  cbn [year shift_months]. lia.
Qed.

(** ** What the contract gives its clients *)

Section Contract.
Context {C : Calendar} {S : CalendarSpec} {R : CalendarRefines C S} {L : CalendarSpecLaws S}.

Lemma valid_month dt : valid_dt dt = true -> 1 <= month dt <= 12.
Proof. unfold valid_dt. rewrite andb_true_iff, valid_date_iff. tauto. Qed.

(** Encoding a decoded instant gives the instant back. *)
Lemma cal_decode_encode n : cal_min <= n <= imax I64 ->
  exists d, to_date_time (mkTime_Point n) = Ok d /\ valid_dt d = true /\ dt_ok d = true /\
            instant d = n /\ to_time_point d = Ok (mkTime_Point n).
Proof.
  intros Hn. destruct (to_date_time_refines n Hn) as (d & Hd & Hok & Hv & Hi).
  exists d. repeat split; try assumption.
  rewrite to_time_point_refines, Hv by assumption.
  rewrite dt_day_div, Hi by assumption.
  rewrite (proj2 (Z.leb_le (imin I64) _)), (proj2 (Z.leb_le n _));
    [reflexivity | lia | unfold nanos_per_day, cal_min in *; cbn [imin imax] in *; lia].
Qed.

(** Decoding an encoded date gives the date back. *)
Lemma cal_encode_decode d : dt_ok d = true -> valid_dt d = true ->
  cal_min <= instant d <= imax I64 ->
  to_time_point d = Ok (mkTime_Point (instant d)) /\
  to_date_time (mkTime_Point (instant d)) = Ok d.
Proof.
  intros Hok Hv Hn. destruct (cal_decode_encode _ Hn) as (d' & Hd & Hv' & Hok' & Hi & He).
  assert (d' = d) as -> by now apply instant_inj. split; assumption.
Qed.

Lemma cal_invalid d : dt_ok d = true -> valid_dt d = false ->
  to_time_point d = Throw invalid_argument.
Proof. intros Hok Hv. now rewrite to_time_point_refines, Hv. Qed.

(** Decoding preserves the order of instants. *)
Lemma cal_decode_order n n' d d' :
  cal_min <= n <= imax I64 -> cal_min <= n' <= imax I64 ->
  to_date_time (mkTime_Point n) = Ok d -> to_date_time (mkTime_Point n') = Ok d' ->
  (dt_ltb d d' = true <-> n < n').
Proof.
  intros Hn Hn' Hd Hd'.
  destruct (to_date_time_refines n Hn) as (e & He & _ & Hv & <-).
  destruct (to_date_time_refines n' Hn') as (e' & He' & _ & Hv' & <-).
  rewrite Hd in He. rewrite Hd' in He'. injection He as <-. injection He' as <-.
  now apply instant_lt_iff.
Qed.
End Contract.
