(* ===== verification/Gregorian.v ===== *)
(** * TICK: the proleptic Gregorian calendar ([tick/gregorian_calendar.hpp])

    The conversions use Hinnant's day-number algorithms in 64-bit arithmetic;
    they are proved to implement the calendar's specification. *)
From Stdlib Require Import ZArith Lia Bool List.
From S2P Require Import Prelude CInt TimeCore Calendar.
Import ListNotations.
Local Open Scope Z_scope.

(** ** The code *)

Definition is_leap_year (y : Z) : bool :=
  ((Z.rem y 4 =? 0) && negb (Z.rem y 100 =? 0)) || (Z.rem y 400 =? 0).

Definition days_in_month (y m : Z) : result Z :=
  do! throw_if ((m <? 1) || (12 <? m)) invalid_argument then
  if (m =? 2) && is_leap_year y then Ok 29
  else index_z [31; 28; 31; 30; 31; 30; 31; 31; 30; 31; 30; 31] (m - 1).

Definition days_in_year (y : Z) : result Z := Ok (if is_leap_year y then 366 else 365).

Definition validate (dt : Date_Time) : result unit :=
  do! throw_if ((month dt <? 1) || (12 <? month dt)) invalid_argument then
  let! max_day := days_in_month (year dt) (month dt) in
  do! throw_if ((day dt <? 1) || (max_day <? day dt)) invalid_argument then
  do! throw_if ((hour dt <? 0) || (23 <? hour dt)) invalid_argument then
  do! throw_if ((minute dt <? 0) || (59 <? minute dt)) invalid_argument then
  do! throw_if ((second dt <? 0) || (59 <? second dt)) invalid_argument then
  throw_if ((nanosecond dt <? 0) || (999999999 <? nanosecond dt)) invalid_argument.

Record Civil : Type := mkCivil { c_year : Z; c_month : Z; c_day : Z }.

Definition days_to_civil (z0 : Z) : result Civil :=
  let! z := (z0 + 719468)%i64 in
  let! era := ((if 0 <=? z then cval z else z - 146096) / 146097)%i64 in
  let! doe := (z - era * 146097)%i64 in
  let! yoe := ((doe - doe / 1460 + doe / 36524 - doe / 146096) / 365)%i64 in
  let! y := (yoe + era * 400)%i64 in
  let! doy := (doe - (365 * yoe + yoe / 4 - yoe / 100))%i64 in
  let! mp := ((5 * doy + 2) / 153)%i64 in
  let! d := (doy - (153 * mp + 2) / 5 + 1)%i64 in
  let! m := (mp + cval (if (mp <? 10)%Z then 3 else (-9)%Z))%i64 in
  let! yr := (y + cval (if (m <=? 2)%Z then 1 else 0))%i64 in
  Ok (mkCivil (to_i32 yr) (to_i32 m) (to_i32 d)).

Definition civil_to_days (y m d : Z) : cexpr :=
  let! yr := (y - cval (if (m <=? 2)%Z then 1 else 0))%i64 in
  let! era := ((if (0 <=? yr)%Z then cval yr else yr - 399) / 400)%i64 in
  let! yoe := (yr - era * 400)%i64 in
  let! mp := (m + cval (if (2 <? m)%Z then (-3)%Z else 9))%i64 in
  let! doy := ((153 * mp + 2) / 5 + d - 1)%i64 in
  let! doe := (yoe * 365 + yoe / 4 - yoe / 100 + doy)%i64 in
  let! days := (era * 146097 + doe)%i64 in
  (days - 719468)%i64.

Definition epoch_day_offset : cexpr := civil_to_days 2026 1 1.

Definition floor_div (a b : Z) : cexpr :=
  let! r := (a rem b)%i64 in
  (a / b - cval (if negb (r =? 0)%Z && (Z.lxor a b <? 0)%Z then 1 else 0))%i64.

Definition floor_div_i32 (a b : Z) : cexpr :=
  let! r := (a rem b)%i32 in
  (a / b - cval (if negb (r =? 0)%Z && (Z.lxor a b <? 0)%Z then 1 else 0))%i32.

Definition day_of_week (dt : Date_Time) : result Z :=
  do! validate dt then
  let! z := civil_to_days (year dt) (month dt) (day dt) in
  let! w0 := ((z + 3) rem 7)%i64 in
  let! w := (if w0 <? 0 then (w0 + 7)%i64 else Ok w0) in
  let! w1 := (w + 1)%i64 in
  Ok (to_i32 w1).

Definition day_of_year (dt : Date_Time) : result Z :=
  do! validate dt then
  let! offset :=
    (if is_leap_year (year dt)
     then index_z [0; 31; 60; 91; 121; 152; 182; 213; 244; 274; 305; 335] (month dt - 1)
     else index_z [0; 31; 59; 90; 120; 151; 181; 212; 243; 273; 304; 334] (month dt - 1)) in
  (offset + day dt)%i32.

Definition to_time_point (dt : Date_Time) : result Time_Point :=
  do! validate dt then
  let! days0 := civil_to_days (year dt) (month dt) (day dt) in
  let! days := (days0 - epoch_day_offset)%i64 in
  let! n0 := (days * nanos_per_day)%i64 in
  let! n1 := (n0 + hour dt * nanos_per_hour)%i64 in
  let! n2 := (n1 + minute dt * nanos_per_minute)%i64 in
  let! n3 := (n2 + second dt * nanos_per_second)%i64 in
  let! n4 := (n3 + nanosecond dt)%i64 in
  Ok (mkTime_Point n4).

Definition to_date_time (tp : Time_Point) : result Date_Time :=
  let nanos := tp_nanos tp in
  let! day_offset := floor_div nanos nanos_per_day in
  let! sub_day := (nanos - day_offset * nanos_per_day)%i64 in
  let! day_offset1 := (day_offset + epoch_day_offset)%i64 in
  let! c := days_to_civil day_offset1 in
  let! h := (sub_day / nanos_per_hour)%i64 in
  let! sub_day1 := (sub_day rem nanos_per_hour)%i64 in
  let! mi := (sub_day1 / nanos_per_minute)%i64 in
  let! sub_day2 := (sub_day1 rem nanos_per_minute)%i64 in
  let! s := (sub_day2 / nanos_per_second)%i64 in
  let! ns := (sub_day2 rem nanos_per_second)%i64 in
  Ok (mkDate_Time (c_year c) (c_month c) (c_day c) (to_i32 h) (to_i32 mi) (to_i32 s) (to_i32 ns)).

Definition add_months (tp : Time_Point) (months : Z) : result Time_Point :=
  let! dt := to_date_time tp in
  let! total_months := ((year dt * 12 + (month dt - 1)) + months)%i32 in
  let! new_year := floor_div_i32 total_months 12 in
  let! new_month := (total_months - new_year * 12 + 1)%i32 in
  let! max_day := days_in_month new_year new_month in
  let new_day := if day dt <? max_day then day dt else max_day in
  to_time_point (mkDate_Time new_year new_month new_day
                   (hour dt) (minute dt) (second dt) (nanosecond dt)).

Definition add_years (tp : Time_Point) (years : Z) : result Time_Point :=
  let! months := (years * 12)%i32 in add_months tp months.

#[export] Instance Gregorian_Calendar : Calendar := {|
  Calendar.to_date_time := to_date_time;
  Calendar.to_time_point := to_time_point;
  Calendar.days_in_month := days_in_month;
  Calendar.days_in_year := days_in_year
|}.

(** ** The specification: leap years by the Gregorian rule *)

Definition leap (y : Z) : bool :=
  ((y mod 4 =? 0) && negb (y mod 100 =? 0)) || (y mod 400 =? 0).

#[export] Instance Gregorian_spec : CalendarSpec := {|
  month_len := fun y m =>
    if m =? 2 then (if leap y then 29 else 28)
    else if (m =? 4) || (m =? 6) || (m =? 9) || (m =? 11) then 30 else 31;
  year_start := fun y =>
    365 * (y - 2026) + (y - 1) / 4 - (y - 1) / 100 + (y - 1) / 400 - 491
|}.

Lemma rem_mod_zero a b : 0 < b -> (Z.rem a b =? 0) = (a mod b =? 0).
Proof.
  intros Hb. apply eq_true_iff_eq. rewrite !Z.eqb_eq.
  rewrite Z.rem_divide, Z.mod_divide by lia. tauto.
Qed.

Lemma is_leap_year_leap y : is_leap_year y = leap y.
Proof. unfold is_leap_year, leap. now rewrite !rem_mod_zero by lia. Qed.

(** Leap days before a year and the length of February. *)
Lemma leap_count y : (if leap y then 1 else 0) =
  (y / 4 - (y - 1) / 4) - (y / 100 - (y - 1) / 100) + (y / 400 - (y - 1) / 400).
Proof.
  unfold leap.
  destruct (Z.eqb_spec (y mod 4) 0), (Z.eqb_spec (y mod 100) 0), (Z.eqb_spec (y mod 400) 0);
    cbn [andb negb orb]; lia.
Qed.

(** Days before each month, as a closed form. *)
Lemma days_before_month_greg y m : 1 <= m <= 12 ->
  days_before_month y m =
  if 2 <? m then (153 * (m - 3) + 2) / 5 + 59 + (if leap y then 1 else 0) else 31 * (m - 1).
Proof. revert m. apply month_cases; cbn; destruct (leap y); reflexivity. Qed.

#[export] Instance Gregorian_laws : CalendarSpecLaws Gregorian_spec.
Proof.
  split.
  - intros y m _. cbn. repeat case_if; lia.
  - intros y. replace (days_before_month y 13) with (365 + if leap y then 1 else 0)
      by (cbn; destruct (leap y); reflexivity).
    rewrite leap_count. cbn [year_start Gregorian_spec].
    replace (y + 1 - 1) with y by lia. lia.
  - reflexivity.
Qed.

(** ** Day numbers of the March-based year *)

(** Days from 0000-03-01 to the given day of the given March-based year. *)
Definition march_days (yr mp d : Z) : Z :=
  365 * yr + yr / 4 - yr / 100 + yr / 400 + (153 * mp + 2) / 5 + (d - 1).

Definition march_year (y m : Z) : Z := y - (if m <=? 2 then 1 else 0).
Definition march_month (m : Z) : Z := if 2 <? m then m - 3 else m + 9.

(** [719468 + 20454] days lie between 0000-03-01 and 2026-01-01. *)
Lemma march_days_day_number y m d : 1 <= m <= 12 ->
  march_days (march_year y m) (march_month m) d = day_number y m d + 739922.
Proof.
  intros Hm. unfold day_number. rewrite days_before_month_greg by assumption.
  pose proof (leap_count y) as Hl. cbn [year_start Gregorian_spec].
  unfold march_days, march_year, march_month.
  destruct (Z.leb_spec m 2), (Z.ltb_spec 2 m); lia.
Qed.

Lemma civil_to_days_spec y m d : in_i32 y = true -> 1 <= m <= 12 -> 1 <= d <= 31 ->
  civil_to_days y m d = Ok (day_number y m d + 20454).
Proof.
  rewrite in_range_iff; cbn [imin imax]; intros Hy Hm Hd.
  replace (day_number y m d + 20454)
    with (march_days (march_year y m) (march_month m) d - 719468)
    by (rewrite march_days_day_number by assumption; lia).
  unfold civil_to_days. rewrite csub_ok by (case_if; crange). rewrite bind_cval.
  fold (march_year y m).
  assert (Hyr : y - 1 <= march_year y m <= y) by (unfold march_year; case_if; lia).
  set (yr := march_year y m) in *. clearbody yr.
  replace (m + cval (if (2 <? m)%Z then (-3)%Z else 9))%i64 with (cval (march_month m))
    by (unfold march_month; case_if; csteps; reflexivity).
  assert (Hmp : 0 <= march_month m <= 11) by (unfold march_month; case_if; bsimpl; lia).
  set (mp := march_month m) in *. clearbody mp.
  assert (Hera : ((if 0 <=? yr then cval yr else yr - 399) / 400)%i64 = cval (yr / 400)).
  { case_if; bsimpl; csteps; f_equal; lia. }
  rewrite Hera. unfold march_days. csteps. cbn [bind]. csteps. unfold cval. f_equal. lia.
Qed.

Lemma epoch_day_offset_spec : epoch_day_offset = Ok 20454.
Proof. reflexivity. Qed.

(** ** The year of the 400-year era *)

(** [doy] is a day of the March-based year [yoe]. *)
Definition march_doy_ok (yoe doy : Z) : Prop :=
  0 <= doy <= 365 /\ (doy = 365 -> leap (yoe + 1) = true).

Lemma leap_true y : leap y = true <->
  (y mod 4 = 0 /\ y mod 100 <> 0) \/ y mod 400 = 0.
Proof. unfold leap. now rewrite orb_true_iff, andb_true_iff, negb_true_iff, !Z.eqb_eq, Z.eqb_neq. Qed.

Lemma yoe_formula yoe doy doe : 0 <= yoe < 400 -> march_doy_ok yoe doy ->
  doe = 365 * yoe + yoe / 4 - yoe / 100 + doy ->
  (doe - doe / 1460 + doe / 36524 - doe / 146096) / 365 = yoe.
Proof.
  intros Hy [Hd Hl] ->. rewrite leap_true in Hl.
  set (c := yoe / 100). set (q := (yoe mod 100) / 4). set (r := yoe mod 4).
  assert (E : yoe = 100 * c + 4 * q + r) by (unfold c, q, r; lia).
  assert (Hr : 0 <= c <= 3 /\ 0 <= q <= 24 /\ 0 <= r <= 3) by (unfold c, q, r; lia).
  replace (yoe / 4) with (25 * c + q) by lia. clearbody c q r.
  assert (Hlast : doy = 365 -> r = 3 /\ (q <> 24 \/ c = 3)) by lia. clear Hl.
  assert (c = 0 \/ c = 1 \/ c = 2 \/ c = 3) as Hc by lia.
  assert (r = 0 \/ r = 1 \/ r = 2 \/ r = 3) as Hr' by lia. subst yoe. clear Hy.
  destruct Hc as [-> | [-> | [-> | -> ]]], Hr' as [-> | [-> | [-> | -> ]]]; lia.
Qed.

(** Every day of the era is a day of some March-based year. *)
Lemma doe_decompose doe : 0 <= doe < 146097 ->
  exists yoe doy, 0 <= yoe < 400 /\ march_doy_ok yoe doy /\
                  doe = 365 * yoe + yoe / 4 - yoe / 100 + doy.
Proof.
  intros Hd. set (c := Z.min 3 (doe / 36524)). set (r1 := doe - 36524 * c).
  assert (H1 : 0 <= c <= 3 /\ 0 <= r1 <= 36524 /\ (r1 = 36524 -> c = 3)) by (unfold r1, c; lia).
  assert (Ed : doe = 36524 * c + r1) by (unfold r1; lia). clearbody c r1.
  set (q := r1 / 1461). set (r2 := r1 mod 1461).
  assert (H2 : r1 = 1461 * q + r2 /\ 0 <= q <= 24 /\ 0 <= r2 <= 1460) by (unfold q, r2; lia).
  clearbody q r2.
  set (r := Z.min 3 (r2 / 365)). set (doy := r2 - 365 * r).
  assert (H3 : 0 <= r <= 3 /\ 0 <= doy <= 365 /\ (doy = 365 -> r = 3)) by (unfold doy, r; lia).
  assert (Er : r2 = 365 * r + doy) by (unfold doy; lia). clearbody r doy.
  exists (100 * c + 4 * q + r), doy.
  assert (E4 : (100 * c + 4 * q + r) / 4 = 25 * c + q) by lia.
  assert (E100 : (100 * c + 4 * q + r) / 100 = c) by lia.
  rewrite E4, E100. split; [lia|]. split; [|lia]. split; [lia|].
  intros Hdoy. rewrite leap_true. lia.
Qed.

Lemma march_month_of_doy doy : 0 <= doy <= 365 ->
  let mp := (5 * doy + 2) / 153 in
  0 <= mp <= 11 /\ (153 * mp + 2) / 5 <= doy /\
  (mp < 11 -> doy < (153 * (mp + 1) + 2) / 5).
Proof. cbv zeta. lia. Qed.

(** The civil date of a March-based year, month and day. *)
Definition civil_of_march (yr mp d : Z) : Civil :=
  let m := if mp <? 10 then mp + 3 else mp - 9 in
  mkCivil (yr + if m <=? 2 then 1 else 0) m d.

Lemma civil_of_march_valid yr doy : march_doy_ok yr doy ->
  let mp := (5 * doy + 2) / 153 in
  let c := civil_of_march yr mp (doy - (153 * mp + 2) / 5 + 1) in
  valid_date (c_year c) (c_month c) (c_day c) = true /\
  march_year (c_year c) (c_month c) = yr /\ march_month (c_month c) = mp /\
  1 <= c_month c <= 12 /\ 1 <= c_day c <= 31 /\ yr <= c_year c <= yr + 1.
Proof.
  intros [Hd Hl]. pose proof (march_month_of_doy doy Hd) as Hmp. cbv zeta in *.
  set (mp := (5 * doy + 2) / 153) in *. clearbody mp.
  set (d := doy - (153 * mp + 2) / 5 + 1). assert (Hdoy : doy = (153 * mp + 2) / 5 + d - 1) by lia.
  clearbody d. subst doy. unfold civil_of_march; cbn [c_year c_month c_day].
  rewrite valid_date_iff. cbn [month_len Gregorian_spec].
  unfold march_year, march_month. destruct Hmp as [Hmp [H1 H2]].
  assert (mp = 0 \/ mp = 1 \/ mp = 2 \/ mp = 3 \/ mp = 4 \/ mp = 5 \/ mp = 6 \/ mp = 7 \/
    mp = 8 \/ mp = 9 \/ mp = 10 \/ mp = 11) as E by lia.
  repeat (destruct E as [->|E]; [cbn -[Z.div leap] in *; lia|]). subst mp.
  cbn -[Z.div leap] in *. destruct (leap (yr + 1)) eqn:El; [lia|].
  assert (d <> 29) by (intros ->; now specialize (Hl eq_refl)). lia.
Qed.

Lemma leap_400 y era : leap (y + era * 400) = leap y.
Proof.
  unfold leap.
  replace ((y + era * 400) mod 4) with (y mod 4) by lia.
  replace ((y + era * 400) mod 100) with (y mod 100) by lia.
  now replace ((y + era * 400) mod 400) with (y mod 400) by lia.
Qed.

(** Evaluation of the algorithm's expressions, each free of overflow. *)
Lemma era_eval z : -200000000 <= z <= 200000000 ->
  ((if (0 <=? z)%Z then cval z else z - 146096) / 146097)%i64 = cval (z / 146097).
Proof. intros. case_if; bsimpl; csteps; f_equal; lia. Qed.

Lemma yoe_eval doe : 0 <= doe < 146097 ->
  ((doe - doe / 1460 + doe / 36524 - doe / 146096) / 365)%i64 =
  cval ((doe - doe / 1460 + doe / 36524 - doe / 146096) / 365).
Proof. intros. csteps. f_equal. rewrite !quot_nonneg_div; lia. Qed.

Lemma doy_eval doe yoe : 0 <= doe < 146097 -> 0 <= yoe < 400 ->
  (doe - (365 * yoe + yoe / 4 - yoe / 100))%i64 =
  cval (doe - (365 * yoe + yoe / 4 - yoe / 100)).
Proof. intros. csteps. f_equal. lia. Qed.

Lemma mp_eval doy : 0 <= doy <= 365 -> ((5 * doy + 2) / 153)%i64 = cval ((5 * doy + 2) / 153).
Proof. intros. csteps. f_equal. lia. Qed.

Lemma civil_eval era yoe doy mp d :
  -2000 <= era <= 2000 -> 0 <= yoe < 400 -> 0 <= doy <= 365 -> 0 <= mp <= 11 ->
  d = doy - (153 * mp + 2) / 5 + 1 -> 0 <= d <= 1000 ->
  (let! d := (doy - (153 * mp + 2) / 5 + 1)%i64 in
   let! m := (mp + cval (if (mp <? 10)%Z then 3 else (-9)%Z))%i64 in
   let! yr := ((yoe + era * 400)%Z + cval (if (m <=? 2)%Z then 1 else 0))%i64 in
   Ok (mkCivil (to_i32 yr) (to_i32 m) (to_i32 d))) = Ok (civil_of_march (yoe + era * 400) mp d).
Proof.
  intros ? ? ? ? -> ?. csteps. unfold civil_of_march.
  replace (Z.quot (153 * mp + 2) 5) with ((153 * mp + 2) / 5) by lia.
  replace (mp + (if mp <? 10 then 3 else -9)) with (if mp <? 10 then mp + 3 else mp - 9)
    by (case_if; lia).
  f_equal; f_equal; apply to_i32_id; crange.
Qed.

(** The algorithm on a day given by its era, year of era and day of year. *)
Lemma days_to_civil_march era yoe doy z :
  0 <= yoe < 400 -> march_doy_ok yoe doy -> -1000 <= era <= 1000 ->
  z + 719468 = era * 146097 + (365 * yoe + yoe / 4 - yoe / 100 + doy) ->
  let mp := (5 * doy + 2) / 153 in
  days_to_civil z =
    Ok (civil_of_march (yoe + era * 400) mp (doy - (153 * mp + 2) / 5 + 1)).
Proof.
  intros Hyoe Hdoy Hera Ez mp.
  set (doe := 365 * yoe + yoe / 4 - yoe / 100 + doy) in *.
  pose proof (yoe_formula yoe doy doe Hyoe Hdoy eq_refl) as Hf.
  pose proof (march_month_of_doy doy (proj1 Hdoy)) as Hmp. cbv zeta in Hmp. fold mp in Hmp.
  assert (Hdoe : 0 <= doe < 146097).
  { destruct Hdoy as [? Hl]. rewrite leap_true in Hl. unfold doe; lia. }
  assert (E4 : doe - (365 * yoe + yoe / 4 - yoe / 100) = doy) by (unfold doe; lia).
  clearbody doe. unfold days_to_civil.
  rewrite cadd_ok, bind_cval, era_eval, bind_cval by crange.
  assert (E1 : (z + 719468) / 146097 = era) by lia. rewrite E1.
  assert (E2 : z + 719468 - era * 146097 = doe) by lia.
  rewrite cmul_ok, csub_ok, E2, bind_cval by crange.
  rewrite yoe_eval, Hf, bind_cval by assumption.
  rewrite cmul_ok, cadd_ok, bind_cval by crange.
  rewrite doy_eval, E4, bind_cval by assumption.
  rewrite mp_eval, bind_cval by apply Hdoy. fold mp.
  apply civil_eval; try tauto; try lia; apply Hdoy.
Qed.

(** Every day number in use is decoded to the valid date it numbers. *)
Lemma days_to_civil_spec z : -100000000 <= z <= 100000000 ->
  exists c, days_to_civil z = Ok c /\
    valid_date (c_year c) (c_month c) (c_day c) = true /\
    day_number (c_year c) (c_month c) (c_day c) + 20454 = z /\
    -1000000 <= c_year c <= 1000000.
Proof.
  intros Hz. destruct (doe_decompose ((z + 719468) mod 146097)) as (yoe & doy & Hy & Hd & E); [lia|].
  set (era := (z + 719468) / 146097). assert (Hera : -1000 <= era <= 1000) by (unfold era; lia).
  assert (Hd' : march_doy_ok (yoe + era * 400) doy).
  { destruct Hd as [? Hl]; split; [assumption|]. intros Hx; specialize (Hl Hx).
    replace (yoe + era * 400 + 1) with (yoe + 1 + era * 400) by lia. now rewrite leap_400. }
  pose proof (civil_of_march_valid _ _ Hd') as Hc. cbv zeta in Hc.
  eexists. split; [apply (days_to_civil_march era yoe doy); [assumption..|unfold era; lia]|].
  set (mp := (5 * doy + 2) / 153) in *.
  set (d := doy - (153 * mp + 2) / 5 + 1) in *.
  set (c := civil_of_march (yoe + era * 400) mp d) in *.
  assert (Ec : c_day c = d) by reflexivity. clearbody c.
  destruct Hc as (Hv & Hyr & Hmp & Hm & _ & Hyy). split; [exact Hv|].
  pose proof (march_days_day_number (c_year c) (c_month c) (c_day c) Hm) as En.
  rewrite Hyr, Hmp, Ec in En. rewrite Ec. unfold march_days in En.
  split; [|lia]. unfold d in En at 1. clearbody d. unfold era in *. lia.
Qed.

(** The hand-written floored divisions are [Z.div]. *)
Lemma greg_floor_div_spec a b : imin I64 <= a <= imax I64 -> 0 < b ->
  floor_div a b = cval (a / b).
Proof.
  intros Ha Hb. unfold floor_div. rewrite crem_pos, bind_cval, cdiv_pos, lxor_sign by lia.
  rewrite csub_ok by (rewrite floored_quot by lia; now apply floor_range).
  now rewrite floored_quot.
Qed.

Lemma greg_floor_div_i32_spec a b : imin I32 <= a <= imax I32 -> 0 < b ->
  floor_div_i32 a b = cval (a / b).
Proof.
  intros Ha Hb. unfold floor_div_i32. rewrite crem_pos, bind_cval, cdiv_pos, lxor_sign by lia.
  rewrite csub_ok by (rewrite floored_quot by lia; now apply floor_range).
  now rewrite floored_quot.
Qed.

(** ** Validation *)

Lemma greg_days_in_month_spec y m :
  days_in_month y m =
  if (1 <=? m) && (m <=? 12) then Ok (month_len y m) else Throw invalid_argument.
Proof.
  unfold days_in_month, throw_if. rewrite !Z.ltb_antisym.
  destruct (Z.leb_spec 1 m), (Z.leb_spec m 12); cbn [negb orb andb bind]; try reflexivity.
  rewrite is_leap_year_leap. assert (Hm : 1 <= m <= 12) by lia. clear - Hm. revert m Hm.
  apply month_cases; cbn; try reflexivity; now destruct (leap y).
Qed.

Lemma greg_validate_spec dt :
  validate dt = throw_if (negb (valid_dt dt)) invalid_argument.
Proof.
  unfold validate. rewrite tod_guards. unfold valid_dt, valid_date, throw_if.
  rewrite greg_days_in_month_spec, !Z.ltb_antisym.
  destruct (1 <=? month dt), (month dt <=? 12); cbn [negb orb andb bind]; try reflexivity.
  rewrite !Z.ltb_antisym.
  destruct (1 <=? day dt), (day dt <=? month_len (year dt) (month dt)); cbn [negb orb andb bind];
    try reflexivity.
Qed.

(** ** Refinement of the specification *)

Lemma day_number_small y m d : in_i32 y = true -> 1 <= m <= 12 -> 1 <= d <= 31 ->
  -1000000000000 <= day_number y m d <= 1000000000000.
Proof.
  rewrite in_range_iff; cbn [imin imax]. intros Hy Hm Hd.
  unfold day_number. rewrite days_before_month_greg by assumption.
  cbn [year_start Gregorian_spec]. repeat case_if; lia.
Qed.

Lemma greg_valid_date_day y m d : valid_date y m d = true -> 1 <= m <= 12 /\ 1 <= d <= 31.
Proof. rewrite valid_date_iff. intros [Hm Hd]. pose proof (month_len_bounds y m Hm). lia. Qed.

Lemma greg_to_time_point_spec dt : dt_ok dt = true ->
  to_time_point dt =
    if valid_dt dt then instant_or_undef (dt_day dt) (dt_tod dt) else Throw invalid_argument.
Proof.
  intros Hok. unfold to_time_point. rewrite greg_validate_spec.
  destruct (valid_dt dt) eqn:Hv; [|reflexivity].
  cbn [negb]. rewrite throw_if_false, bind_Ok_l.
  unfold valid_dt in Hv. apply andb_true_iff in Hv as [Hd Ht].
  apply greg_valid_date_day in Hd. apply dt_ok_iff in Hok.
  rewrite civil_to_days_spec, bind_Ok_l, epoch_day_offset_spec by tauto.
  assert (Hs := day_number_small (year dt) (month dt) (day dt) ltac:(tauto) ltac:(tauto) ltac:(tauto)).
  change (Ok 20454) with (cval 20454). rewrite csub_ok, bind_cval by crange.
  replace (day_number (year dt) (month dt) (day dt) + 20454 - 20454) with (dt_day dt)
    by (unfold dt_day; lia).
  now rewrite tod_accumulate.
Qed.

Lemma greg_to_date_time_spec n : cal_min <= n <= imax I64 ->
  exists d, to_date_time (mkTime_Point n) = Ok d /\ dt_ok d = true /\
            valid_dt d = true /\ instant d = n.
Proof.
  intros Hn. unfold to_date_time. cbn [tp_nanos].
  rewrite greg_floor_div_spec, bind_cval by (unfold nanos_per_day, cal_min in *; crange).
  assert (Hq : -106751 <= n / nanos_per_day <= 106751)
    by (unfold nanos_per_day, cal_min in *; cbn [imin imax] in *; lia).
  assert (Hsd : 0 <= n - n / nanos_per_day * nanos_per_day < nanos_per_day)
    by (unfold nanos_per_day; lia).
  set (q := n / nanos_per_day) in *. clearbody q.
  rewrite cmul_ok, csub_ok, bind_cval
    by (unfold nanos_per_day, cal_min in *; cbn [imin imax] in *; lia).
  rewrite epoch_day_offset_spec. change (Ok 20454) with (cval 20454).
  rewrite cadd_ok, bind_cval by crange.
  destruct (days_to_civil_spec (q + 20454)) as (c & -> & Hvd & Hday & Hcy); [lia|].
  rewrite bind_Ok_l.
  set (sd := n - q * nanos_per_day) in *. assert (En : n = q * nanos_per_day + sd) by lia.
  clearbody sd.
  destruct (tod_code (fun h mi s ns => Ok (mkDate_Time (c_year c) (c_month c) (c_day c)
    (to_i32 h) (to_i32 mi) (to_i32 s) (to_i32 ns))) sd Hsd)
    as (h & mi & s & ns & Hvt & Htod & E1 & E2 & E3 & E4 & ->).
  rewrite E1, E2, E3, E4. eexists. split; [reflexivity|].
  pose proof (greg_valid_date_day _ _ _ Hvd) as Hmd.
  split; [|split].
  - rewrite dt_ok_iff, !in_range_iff. cbn [imin imax year month day hour minute second nanosecond].
    unfold valid_tod in Hvt. rewrite !andb_true_iff, !Z.leb_le in Hvt. lia.
  - unfold valid_dt. cbn [year month day hour minute second nanosecond].
    now rewrite Hvd, Hvt.
  - unfold instant, dt_day, dt_tod. cbn [year month day hour minute second nanosecond]. nia.
Qed.

#[export] Instance Gregorian_refines : CalendarRefines Gregorian_Calendar Gregorian_spec.
Proof.
  split; [intros; apply greg_days_in_month_spec | apply greg_to_date_time_spec | apply greg_to_time_point_spec].
Qed.

(** ** Month arithmetic, weekdays and day counts *)

Lemma min_if a b : (if a <? b then a else b) = Z.min a b.
Proof. case_if; bsimpl; lia. Qed.

Lemma greg_add_months_spec n d k : cal_min <= n <= imax I64 -> in_i32 k = true ->
  to_date_time (mkTime_Point n) = Ok d ->
  add_months (mkTime_Point n) k =
    if in_i32 (month_index d + k) then to_time_point (shift_months d k) else Undef.
Proof.
  intros Hn Hk Hd. destruct (greg_to_date_time_spec n Hn) as (d' & Hd' & Hok & Hv & Hi).
  rewrite Hd in Hd'. injection Hd' as <-.
  pose proof (valid_month d Hv) as Hm. rewrite in_range_iff in Hk.
  assert (Hy : 1700 <= year d <= 2400).
  { pose proof (dt_day_div d Hv) as Eq. rewrite Hi in Eq.
    unfold valid_dt in Hv. apply andb_true_iff in Hv as [Hvd _].
    pose proof (day_number_in_year _ _ _ Hvd) as Hin. unfold dt_day in Eq. rewrite Eq in Hin.
    cbn [year_start Gregorian_spec] in Hin. unfold nanos_per_day, cal_min in *.
    cbn [imax] in *. clear - Hin Hn. lia. }
  unfold add_months. rewrite Hd, bind_Ok_l.
  rewrite cmul_ok, csub_ok, cadd_ok by crange. fold (month_index d).
  destruct (in_i32 (month_index d + k)) eqn:Ht.
  2:{ unfold cadd, cval, arith. cbn [bind]. now rewrite Ht. }
  apply in_range_iff in Ht. rewrite cadd_ok, bind_cval, greg_floor_div_i32_spec, bind_cval by lia.
  assert (Hlo : -2147463248 <= month_index d + k) by (unfold month_index; cbn [imin] in Hk; lia).
  unfold shift_months. set (t := month_index d + k) in *. clearbody t.
  rewrite cmul_ok, csub_ok, cadd_ok, bind_cval by crange.
  replace (t - t / 12 * 12 + 1) with (t mod 12 + 1) by lia.
  rewrite greg_days_in_month_spec, (proj2 (andb_true_iff _ _)) by (rewrite !Z.leb_le; lia).
  rewrite bind_Ok_l, min_if. reflexivity.
Qed.

Lemma day_of_week_spec d : dt_ok d = true -> valid_dt d = true ->
  day_of_week d = Ok ((dt_day d + 3) mod 7 + 1).
Proof.
  intros Hok Hv. unfold day_of_week. rewrite greg_validate_spec, Hv. cbn [negb].
  rewrite throw_if_false, bind_Ok_l. unfold valid_dt in Hv. apply andb_true_iff in Hv as [Hd _].
  apply greg_valid_date_day in Hd. apply dt_ok_iff in Hok.
  rewrite civil_to_days_spec, bind_Ok_l by tauto.
  assert (Hs := day_number_small (year d) (month d) (day d) ltac:(tauto) ltac:(tauto) ltac:(tauto)).
  fold (dt_day d) in *. set (z := dt_day d) in *. clearbody z.
  rewrite cadd_ok, crem_pos, bind_cval by crange.
  replace (if Z.rem (z + 20454 + 3) 7 <? 0 then _ else _) with (cval ((z + 3) mod 7))
    by (case_if; bsimpl; csteps; unfold cval; f_equal; lia).
  rewrite bind_cval, cadd_ok, bind_cval, to_i32_id by crange. reflexivity.
Qed.

Lemma day_of_year_spec d : dt_ok d = true -> valid_dt d = true ->
  day_of_year d = Ok (dt_day d - year_start (year d) + 1).
Proof.
  intros Hok Hv. unfold day_of_year. rewrite greg_validate_spec, Hv. cbn [negb].
  rewrite throw_if_false, bind_Ok_l. unfold valid_dt in Hv. apply andb_true_iff in Hv as [Hd _].
  apply greg_valid_date_day in Hd. destruct Hd as [Hm Hd].
  replace (if is_leap_year (year d) then _ else _)
    with (cval (days_before_month (year d) (month d))).
  2:{ rewrite is_leap_year_leap. clear - Hm. revert Hm. generalize (month d) (year d).
      intros m y. revert m. apply month_cases; cbn; now destruct (leap y). }
  unfold dt_day, day_number. rewrite days_before_month_greg by assumption.
  assert (0 <= (if 2 <? month d then (153 * (month d - 3) + 2) / 5 + 59 +
    (if leap (year d) then 1 else 0) else 31 * (month d - 1)) <= 400) by (repeat case_if; bsimpl; lia).
  set (dbm := if 2 <? month d then _ else _) in *. clearbody dbm.
  rewrite bind_cval, cadd_ok by crange. unfold cval. f_equal. lia.
Qed.

(** The weekday (1 = Monday) and the day of the year of a valid date are those of
    its day number: the epoch is a Thursday, the weekday advances by one each day
    and wraps after seven, and the year's days are counted from one. *)
Theorem weekday_and_yearday d : dt_ok d = true -> valid_dt d = true ->
  exists w y, day_of_week d = Ok w /\ 1 <= w <= 7 /\ (w - 4 - dt_day d) mod 7 = 0 /\
    day_of_year d = Ok y /\ 1 <= y <= (if leap (year d) then 366 else 365) /\
    dt_day d = year_start (year d) + y - 1.
Proof.
  intros Hok Hv. exists ((dt_day d + 3) mod 7 + 1), (dt_day d - year_start (year d) + 1).
  rewrite day_of_week_spec, day_of_year_spec by assumption.
  split; [reflexivity|]. split; [|split; [|split; [reflexivity|split; [|lia]]]];
    [generalize (dt_day d) as z; intros; clear; lia .. |].
  unfold valid_dt in Hv. apply andb_true_iff in Hv as [Hd _].
  pose proof (day_number_in_year _ _ _ Hd) as Hy. fold (dt_day d) in Hy.
  pose proof (leap_count (year d)) as El. cbn [year_start Gregorian_spec] in *.
  set (z := dt_day d) in *. set (yr := year d) in *. clearbody z yr. destruct (leap yr); lia.
Qed.

Example weekday_and_yearday_witness :
  exists w y, day_of_week (mkDate_Time 2028 2 29 0 0 0 0) = Ok w /\ 1 <= w <= 7 /\
    (w - 4 - dt_day (mkDate_Time 2028 2 29 0 0 0 0)) mod 7 = 0 /\
    day_of_year (mkDate_Time 2028 2 29 0 0 0 0) = Ok y /\ 1 <= y <= 366 /\
    dt_day (mkDate_Time 2028 2 29 0 0 0 0) = year_start 2028 + y - 1.
Proof. exact (weekday_and_yearday (mkDate_Time 2028 2 29 0 0 0 0) eq_refl eq_refl). Defined.
