(* ===== verification/NoLeap.v ===== *)
(** * TICK: the 365-day calendar ([tick/noleap_calendar.hpp]) *)
From Stdlib Require Import ZArith Lia Bool List.
From S2P Require Import Prelude CInt TimeCore Calendar.
Import ListNotations.
Local Open Scope Z_scope.

(** ** The code *)

Definition days_in_year (y : Z) : result Z := Ok 365.

Definition days_in_month (y m : Z) : result Z :=
  do! throw_if ((m <? 1) || (12 <? m)) invalid_argument then
  index_z [31; 28; 31; 30; 31; 30; 31; 31; 30; 31; 30; 31] (m - 1).

Definition cum_days : list Z := [0; 31; 59; 90; 120; 151; 181; 212; 243; 273; 304; 334].

(** The loop [for (m = 11; m >= 0; --m) if (cum_days[m] <= day_in_year) ...]
    with its initial value [month = 12]; [k] is the number of months left. *)
Fixpoint find_month (k : nat) (day_in_year : Z) : result Z :=
  match k with
  | O => Ok 12
  | S m =>
      let! c := index_z cum_days (Z.of_nat m) in
      if c <=? day_in_year then Ok (Z.of_nat m + 1) else find_month m day_in_year
  end.

Definition to_date_time (tp : Time_Point) : result Date_Time :=
  let nanos := tp_nanos tp in
  let! day_offset0 := (nanos / nanos_per_day)%i64 in
  let! sub_day0 := (nanos rem nanos_per_day)%i64 in
  let! '(day_offset, sub_day) :=
    (if sub_day0 <? 0 then
       let! d := (day_offset0 - 1)%i64 in
       let! s := (sub_day0 + nanos_per_day)%i64 in Ok (d, s)
     else Ok (day_offset0, sub_day0)) in
  let! '(year_offset, day_in_year) :=
    (if 0 <=? day_offset then
       let! q := (day_offset / 365)%i64 in
       let! r := (day_offset rem 365)%i64 in Ok (q, r)
     else
       let! q := ((day_offset + 1) / 365 - 1)%i64 in
       let! r := (day_offset - q * 365)%i64 in Ok (q, r)) in
  let! y := (to_i32 year_offset + 2026)%i32 in
  let! m := find_month 12 day_in_year in
  let! c := index_z cum_days (m - 1) in
  let! d0 := (day_in_year - c)%i64 in
  let! d := (to_i32 d0 + 1)%i32 in
  let! h := (sub_day / nanos_per_hour)%i64 in
  let! rem1 := (sub_day rem nanos_per_hour)%i64 in
  let! mi := (rem1 / nanos_per_minute)%i64 in
  let! rem2 := (rem1 rem nanos_per_minute)%i64 in
  let! s := (rem2 / nanos_per_second)%i64 in
  let! ns := (rem2 rem nanos_per_second)%i64 in
  Ok (mkDate_Time y m d (to_i32 h) (to_i32 mi) (to_i32 s) (to_i32 ns)).

Definition validate (dt : Date_Time) : result unit :=
  do! throw_if ((month dt <? 1) || (12 <? month dt)) invalid_argument then
  let! max_day := days_in_month (year dt) (month dt) in
  do! throw_if ((month dt =? 2) && (day dt =? 29)) invalid_argument then
  do! throw_if ((day dt <? 1) || (max_day <? day dt)) invalid_argument then
  do! throw_if ((hour dt <? 0) || (23 <? hour dt)) invalid_argument then
  do! throw_if ((minute dt <? 0) || (59 <? minute dt)) invalid_argument then
  do! throw_if ((second dt <? 0) || (59 <? second dt)) invalid_argument then
  throw_if ((nanosecond dt <? 0) || (999999999 <? nanosecond dt)) invalid_argument.

Definition to_time_point (dt : Date_Time) : result Time_Point :=
  do! validate dt then
  let! year_offset := (year dt - 2026)%i64 in
  let! c := index_z cum_days (month dt - 1) in
  let! d0 := (day dt - 1)%i32 in
  let! day_offset := (year_offset * 365 + c + d0)%i64 in
  let! nanos :=
    (day_offset * nanos_per_day + hour dt * nanos_per_hour + minute dt * nanos_per_minute +
     second dt * nanos_per_second + nanosecond dt)%i64 in
  Ok (mkTime_Point nanos).

Definition add_months (tp : Time_Point) (months : Z) : result Time_Point :=
  let! dt := to_date_time tp in
  let! total_months := ((year dt - 1) * 12 + (month dt - 1) + months)%i32 in
  let! '(target_year, target_month) :=
    (if 0 <=? total_months then
       let! y := (total_months / 12 + 1)%i32 in
       let! m := (total_months rem 12 + 1)%i32 in Ok (y, m)
     else
       let! y := ((total_months - 11) / 12 + 1)%i32 in
       let! m := (total_months - (y - 1) * 12 + 1)%i32 in Ok (y, m)) in
  let! max_day := days_in_month target_year target_month in
  let target_day := if max_day <? day dt then max_day else day dt in
  to_time_point (mkDate_Time target_year target_month target_day
                   (hour dt) (minute dt) (second dt) (nanosecond dt)).

Definition add_years (tp : Time_Point) (years : Z) : result Time_Point :=
  let! months := (years * 12)%i32 in add_months tp months.

#[export] Instance NoLeap_Calendar : Calendar := {|
  Calendar.to_date_time := to_date_time;
  Calendar.to_time_point := to_time_point;
  Calendar.days_in_month := days_in_month;
  Calendar.days_in_year := days_in_year
|}.

(** ** The specification: every year has 365 days *)

#[export] Instance NoLeap_spec : CalendarSpec := {|
  month_len := fun _ m =>
    if m =? 2 then 28
    else if (m =? 4) || (m =? 6) || (m =? 9) || (m =? 11) then 30 else 31;
  year_start := fun y => 365 * (y - 2026)
|}.

#[export] Instance NoLeap_laws : CalendarSpecLaws NoLeap_spec.
Proof.
  split.
  - intros y m _. cbn. repeat case_if; lia.
  - intros y. replace (days_before_month y 13) with 365 by reflexivity. cbn [year_start NoLeap_spec]; lia.
  - reflexivity.
Qed.

Lemma cum_days_spec y m : 1 <= m <= 12 -> index_z cum_days (m - 1) = cval (days_before_month y m).
Proof. revert m. apply month_cases; reflexivity. Qed.

Lemma noleap_days_in_month_spec y m :
  days_in_month y m =
  if (1 <=? m) && (m <=? 12) then Ok (month_len y m) else Throw invalid_argument.
Proof.
  unfold days_in_month, throw_if. rewrite !Z.ltb_antisym.
  destruct (Z.leb_spec 1 m), (Z.leb_spec m 12); cbn [negb orb andb bind]; try reflexivity.
  assert (Hm : 1 <= m <= 12) by lia. clear - Hm. revert m Hm. apply month_cases; reflexivity.
Qed.

(** The guard against February 29th repeats what the day's upper bound says. *)
Lemma noleap_validate_spec dt :
  validate dt = throw_if (negb (valid_dt dt)) invalid_argument.
Proof.
  unfold validate. rewrite tod_guards. unfold valid_dt, valid_date, throw_if.
  rewrite noleap_days_in_month_spec, !Z.ltb_antisym.
  destruct (1 <=? month dt), (month dt <=? 12); cbn [negb orb andb bind]; try reflexivity.
  rewrite !Z.ltb_antisym.
  destruct ((month dt =? 2) && (day dt =? 29)) eqn:E; cbn [bind].
  - bsimpl. destruct E as [-> ->]. reflexivity.
  - destruct (1 <=? day dt), (day dt <=? month_len (year dt) (month dt));
      cbn [negb orb andb bind]; reflexivity.
Qed.

(** The reverse search finds the month that contains a day of the year. *)
Lemma find_month_upto y k diy : (k <= 12)%nat -> 0 <= diy ->
  diy < days_before_month y (Z.of_nat k + 1) ->
  exists m, find_month k diy = Ok m /\ 1 <= m <= Z.of_nat k /\
    days_before_month y m <= diy < days_before_month y m + month_len y m.
Proof.
  induction k as [|k IH]; intros Hk Hd Hlt.
  - change (days_before_month y (Z.of_nat 0 + 1)) with 0 in Hlt. lia.
  - cbn [find_month]. replace (Z.of_nat k) with (Z.of_nat k + 1 - 1) by lia.
    rewrite (cum_days_spec y), bind_cval by lia. replace (Z.of_nat k + 1 - 1) with (Z.of_nat k) by lia.
    case_if; bsimpl.
    + exists (Z.of_nat k + 1). split; [reflexivity|]. split; [lia|].
      replace (Z.of_nat (S k) + 1) with (Z.of_nat k + 1 + 1) in Hlt by lia.
      rewrite days_before_month_step in Hlt by lia. lia.
    + destruct IH as (m & Hm & Hb & Hi); [lia..|]. exists m. repeat split; try assumption; lia.
Qed.

Lemma find_month_spec y diy : 0 <= diy < 365 ->
  exists m, find_month 12 diy = Ok m /\ 1 <= m <= 12 /\
    days_before_month y m <= diy < days_before_month y m + month_len y m.
Proof. intros Hd. apply (find_month_upto y 12); try lia. change (days_before_month y _) with 365. lia. Qed.

(** ** Refinement of the specification *)

Lemma noleap_valid_date_day y m d : valid_date y m d = true ->
  1 <= m <= 12 /\ 1 <= d <= 31 /\ 0 <= days_before_month y m <= 365.
Proof.
  rewrite valid_date_iff. intros [Hm Hd]. pose proof (month_len_bounds y m Hm).
  pose proof (days_before_month_nonneg y m). pose proof (days_before_month_lt y m 13).
  change (days_before_month y 13) with 365 in *. lia.
Qed.

Lemma noleap_to_time_point_spec dt : dt_ok dt = true ->
  to_time_point dt =
    if valid_dt dt then instant_or_undef (dt_day dt) (dt_tod dt) else Throw invalid_argument.
Proof.
  intros Hok. unfold to_time_point. rewrite noleap_validate_spec.
  destruct (valid_dt dt) eqn:Hv; [|reflexivity].
  cbn [negb]. rewrite throw_if_false, bind_Ok_l.
  unfold valid_dt in Hv. apply andb_true_iff in Hv as [Hd Ht].
  apply noleap_valid_date_day in Hd. apply dt_ok_iff in Hok as [Hy _]. rewrite in_range_iff in Hy.
  rewrite csub_ok, bind_cval, (cum_days_spec (year dt)), bind_cval by crange.
  rewrite csub_ok, bind_cval, cmul_ok, !cadd_ok, bind_cval by crange.
  rewrite tod_expression by assumption. unfold dt_day, dt_tod, day_number.
  cbn [year_start NoLeap_spec]. f_equal. lia.
Qed.

Lemma noleap_to_date_time_spec n : imin I64 <= n <= imax I64 ->
  exists d, to_date_time (mkTime_Point n) = Ok d /\ dt_ok d = true /\
            valid_dt d = true /\ instant d = n.
Proof.
  intros Hn. unfold to_date_time. cbn [tp_nanos].
  rewrite cdiv_pos, bind_cval, crem_pos, bind_cval by (unfold nanos_per_day; crange).
  set (q := n / nanos_per_day). set (sd := n mod nanos_per_day).
  assert (Hq : -106752 <= q <= 106751)
    by (unfold q, nanos_per_day; cbn [imin imax] in *; lia).
  assert (Hsd : 0 <= sd < nanos_per_day) by (unfold sd, nanos_per_day; lia).
  assert (En : n = q * nanos_per_day + sd) by (unfold q, sd, nanos_per_day; lia).
  replace (if Z.rem n nanos_per_day <? 0 then _ else _) with (Ok (q, sd)).
  2:{ unfold q, sd, nanos_per_day in *; cbn [imin imax] in *. case_if; bsimpl; csteps;
      do 2 f_equal; lia. }
  clearbody q sd. cbn [bind].
  replace (if 0 <=? q then _ else _) with (Ok (q / 365, q mod 365))
    by (case_if; bsimpl; csteps; do 2 f_equal; lia).
  cbn [bind]. rewrite to_i32_id by crange. rewrite cadd_ok, bind_cval by crange.
  destruct (find_month_spec (q / 365 + 2026) (q mod 365)) as (m & -> & Hm & Hdiy); [lia|].
  rewrite bind_Ok_l, (cum_days_spec (q / 365 + 2026)), bind_cval by assumption.
  pose proof (days_before_month_nonneg (q / 365 + 2026) m ltac:(lia)) as Hdbm.
  rewrite csub_ok, bind_cval, to_i32_id, cadd_ok, bind_cval by crange.
  match goal with |- context [mkDate_Time ?y ?m ?d _ _ _ _] =>
    destruct (tod_code (fun h mi s ns => Ok (mkDate_Time y m d
      (to_i32 h) (to_i32 mi) (to_i32 s) (to_i32 ns))) sd Hsd)
      as (h & mi & s & ns & Hvt & Htod & E1 & E2 & E3 & E4 & ->) end.
  rewrite E1, E2, E3, E4. eexists. split; [reflexivity|].
  set (dbm := days_before_month (q / 365 + 2026) m) in *.
  assert (Hvd : valid_date (q / 365 + 2026) m (q mod 365 - dbm + 1) = true)
    by (apply valid_date_iff; lia).
  pose proof (noleap_valid_date_day _ _ _ Hvd) as Hmd.
  split; [|split].
  - rewrite dt_ok_iff, !in_range_iff. cbn [imin imax year month day hour minute second nanosecond].
    unfold valid_tod in Hvt. rewrite !andb_true_iff, !Z.leb_le in Hvt. lia.
  - unfold valid_dt. cbn [year month day hour minute second nanosecond].
    now rewrite Hvd, Hvt.
  - unfold instant, dt_day, dt_tod, day_number.
    cbn [year month day hour minute second nanosecond year_start NoLeap_spec]. fold dbm.
    rewrite Htod, En. f_equal. f_equal. lia.
Qed.

#[export] Instance NoLeap_refines : CalendarRefines NoLeap_Calendar NoLeap_spec.
Proof.
  split; [intros; apply noleap_days_in_month_spec | | apply noleap_to_time_point_spec].
  intros n Hn. apply noleap_to_date_time_spec. unfold cal_min in Hn. cbn [imin]. lia.
Qed.
