(* ===== verification/Cal360.v ===== *)
(** * TICK: the 360-day calendar ([tick/cal360_calendar.hpp]) *)
From Stdlib Require Import ZArith Lia Bool List.
From S2P Require Import Prelude CInt TimeCore Calendar.
Import ListNotations.
Local Open Scope Z_scope.

(** ** The code *)

Definition epoch_year : Z := 2026.

Definition floor_div (a b : Z) : cexpr :=
  let! q := (a / b)%i64 in
  let! r := (a rem b)%i64 in
  if negb (r =? 0) && (Z.lxor r b <? 0) then (q - 1)%i64 else Ok q.

Definition validate (dt : Date_Time) : result unit :=
  do! throw_if ((month dt <? 1) || (12 <? month dt)) invalid_argument then
  do! throw_if ((day dt <? 1) || (30 <? day dt)) invalid_argument then
  do! throw_if ((hour dt <? 0) || (23 <? hour dt)) invalid_argument then
  do! throw_if ((minute dt <? 0) || (59 <? minute dt)) invalid_argument then
  do! throw_if ((second dt <? 0) || (59 <? second dt)) invalid_argument then
  throw_if ((nanosecond dt <? 0) || (999999999 <? nanosecond dt)) invalid_argument.

Definition to_date_time (tp : Time_Point) : result Date_Time :=
  let total_nanos := tp_nanos tp in
  let! day_offset := floor_div total_nanos nanos_per_day in
  let! sub_day := (total_nanos - day_offset * nanos_per_day)%i64 in
  let! yo := floor_div day_offset 360 in
  let year_offset := to_i32 yo in
  let! day_in_year := (day_offset - year_offset * 360)%i64 in
  let! m0 := (day_in_year / 30)%i64 in
  let! m := (to_i32 m0 + 1)%i32 in
  let! d0 := (day_in_year rem 30)%i64 in
  let! d := (to_i32 d0 + 1)%i32 in
  let! h := (sub_day / nanos_per_hour)%i64 in
  let! rem1 := (sub_day rem nanos_per_hour)%i64 in
  let! mi := (rem1 / nanos_per_minute)%i64 in
  let! rem2 := (rem1 rem nanos_per_minute)%i64 in
  let! s := (rem2 / nanos_per_second)%i64 in
  let! ns := (rem2 rem nanos_per_second)%i64 in
  let! y := (epoch_year + year_offset)%i32 in
  Ok (mkDate_Time y m d (to_i32 h) (to_i32 mi) (to_i32 s) (to_i32 ns)).

Definition to_time_point (dt : Date_Time) : result Time_Point :=
  do! validate dt then
  let! year_offset := (year dt - epoch_year)%i32 in
  let! m0 := (month dt - 1)%i32 in
  let! d0 := (day dt - 1)%i32 in
  let! day_offset := (year_offset * 360 + m0 * 30 + d0)%i64 in
  let! sub_day :=
    (hour dt * nanos_per_hour + minute dt * nanos_per_minute +
     second dt * nanos_per_second + nanosecond dt)%i64 in
  let! total_nanos := (day_offset * nanos_per_day + sub_day)%i64 in
  Ok (mkTime_Point total_nanos).

Definition days_in_month (y m : Z) : result Z :=
  do! throw_if ((m <? 1) || (12 <? m)) invalid_argument then Ok 30.

Definition days_in_year (y : Z) : result Z := Ok 360.

Definition add_months (tp : Time_Point) (months : Z) : result Time_Point :=
  let! shift := (months * 30 * nanos_per_day)%i64 in
  let! n := (tp_nanos tp + shift)%i64 in Ok (mkTime_Point n).

Definition add_years (tp : Time_Point) (years : Z) : result Time_Point :=
  let! shift := (years * 360 * nanos_per_day)%i64 in
  let! n := (tp_nanos tp + shift)%i64 in Ok (mkTime_Point n).

#[export] Instance Cal360_Calendar : Calendar := {|
  Calendar.to_date_time := to_date_time;
  Calendar.to_time_point := to_time_point;
  Calendar.days_in_month := days_in_month;
  Calendar.days_in_year := days_in_year
|}.

(** ** The specification: twelve months of thirty days *)

#[export] Instance Cal360_spec : CalendarSpec := {|
  month_len := fun _ _ => 30;
  year_start := fun y => 360 * (y - 2026)
|}.

#[export] Instance Cal360_laws : CalendarSpecLaws Cal360_spec.
Proof.
  split.
  - intros. cbn [month_len Cal360_spec]. lia.
  - intros y. change (days_before_month y 13) with 360. cbn [year_start Cal360_spec]. lia.
  - reflexivity.
Qed.

Lemma days_before_month_360 y m : 1 <= m <= 12 -> days_before_month y m = 30 * (m - 1).
Proof. revert m. apply month_cases; reflexivity. Qed.

Lemma cal360_floor_div_spec a b : imin I64 <= a <= imax I64 -> 0 < b -> floor_div a b = cval (a / b).
Proof.
  intros Ha Hb. unfold floor_div. rewrite cdiv_pos, bind_cval, crem_pos, bind_cval by lia.
  rewrite lxor_sign by assumption. rewrite <- (floored_quot a b Hb).
  pose proof (Z.rem_nonneg a b). pose proof (Z.rem_nonpos a b).
  replace (Z.rem a b <? 0) with (negb (Z.rem a b =? 0) && (a <? 0))
    by (destruct (Z.eqb_spec (Z.rem a b) 0), (Z.ltb_spec a 0), (Z.ltb_spec (Z.rem a b) 0);
        cbn [negb andb]; lia || reflexivity).
  destruct (Z.eqb_spec (Z.rem a b) 0) as [E|E]; cbn [negb andb]; [now rewrite Z.sub_0_r|].
  case_if; [|now rewrite Z.sub_0_r].
  rewrite csub_ok; [reflexivity|]. bsimpl.
  pose proof (floored_quot a b Hb) as F. rewrite (proj2 (Z.eqb_neq _ _) E) in F.
  rewrite (proj2 (Z.ltb_lt a 0)) in F by assumption. cbn [negb andb] in F. rewrite F.
  now apply floor_range.
Qed.

Lemma cal360_days_in_month_spec y m :
  days_in_month y m =
  if (1 <=? m) && (m <=? 12) then Ok (month_len y m) else Throw invalid_argument.
Proof.
  unfold days_in_month, throw_if. rewrite !Z.ltb_antisym.
  now destruct (1 <=? m), (m <=? 12).
Qed.

Lemma cal360_validate_spec dt :
  validate dt = throw_if (negb (valid_dt dt)) invalid_argument.
Proof.
  unfold validate. rewrite tod_guards. unfold valid_dt, valid_date, throw_if.
  cbn [month_len Cal360_spec]. rewrite !Z.ltb_antisym.
  now destruct (1 <=? month dt), (month dt <=? 12), (1 <=? day dt), (day dt <=? 30).
Qed.

(** ** Refinement of the specification *)

Lemma cal360_to_time_point_spec dt : dt_ok dt = true ->
  to_time_point dt =
    if valid_dt dt then instant_or_undef (dt_day dt) (dt_tod dt) else Throw invalid_argument.
Proof.
  intros Hok. unfold to_time_point. rewrite cal360_validate_spec.
  destruct (valid_dt dt) eqn:Hv; [|reflexivity].
  cbn [negb]. rewrite throw_if_false, bind_Ok_l.
  unfold valid_dt in Hv. apply andb_true_iff in Hv as [Hd Ht].
  apply valid_date_iff in Hd as [Hm Hd]. cbn [month_len Cal360_spec] in Hd.
  apply dt_ok_iff in Hok as [Hy _]. rewrite in_range_iff in Hy.
  assert (Eday : dt_day dt = (year dt - 2026) * 360 + (month dt - 1) * 30 + (day dt - 1))
    by (unfold dt_day, day_number; rewrite days_before_month_360 by assumption;
        cbn [year_start Cal360_spec]; lia).
  unfold epoch_year. destruct (Z.le_gt_cases (imin I32) (year dt - 2026)) as [Hlo|Hlo].
  - rewrite !csub_ok, !bind_cval, !cmul_ok, !cadd_ok, bind_cval by crange.
    rewrite <- Eday. now rewrite tod_grouped.
  - assert (E : csub I32 (year dt) 2026 = Undef) by (apply arith_undef; crange).
    rewrite E. cbn [bind].
    unfold instant_or_undef, nanos_per_day.
    destruct (Z.leb_spec (imin I64) (dt_day dt * 86400000000000)); [|reflexivity].
    cbn [imin imax] in *. lia.
Qed.

Lemma cal360_to_date_time_spec n : cal_min <= n <= imax I64 ->
  exists d, to_date_time (mkTime_Point n) = Ok d /\ dt_ok d = true /\
            valid_dt d = true /\ instant d = n.
Proof.
  intros Hn. unfold to_date_time. cbn [tp_nanos].
  rewrite cal360_floor_div_spec, bind_cval by (unfold nanos_per_day, cal_min in *; crange).
  assert (Hq : -106751 <= n / nanos_per_day <= 106751)
    by (unfold nanos_per_day, cal_min in *; cbn [imin imax] in *; lia).
  assert (Hsd : 0 <= n - n / nanos_per_day * nanos_per_day < nanos_per_day)
    by (unfold nanos_per_day; lia).
  set (q := n / nanos_per_day) in *. clearbody q.
  rewrite cmul_ok, csub_ok, bind_cval
    by (unfold nanos_per_day, cal_min in *; cbn [imin imax] in *; lia).
  rewrite cal360_floor_div_spec, bind_cval, to_i32_id by crange.
  set (sd := n - q * nanos_per_day) in *. assert (En : n = q * nanos_per_day + sd) by lia.
  clearbody sd. set (yo := q / 360). set (diy := q mod 360).
  assert (Hyo : -300 <= yo <= 300 /\ 0 <= diy < 360 /\ q = yo * 360 + diy) by (unfold yo, diy; lia).
  clearbody yo diy. destruct Hyo as (Hyo & Hdiy & ->).
  rewrite cmul_ok, csub_ok, bind_cval by crange.
  replace (yo * 360 + diy - yo * 360) with diy by lia.
  rewrite cdiv_pos, bind_cval, to_i32_id, cadd_ok, bind_cval by crange.
  rewrite crem_pos, bind_cval, to_i32_id, cadd_ok, bind_cval by crange.
  unfold epoch_year.
  match goal with |- context [mkDate_Time _ ?m ?d _ _ _ _] =>
    destruct (tod_code (fun h mi s ns => let! y := (2026 + yo)%i32 in Ok (mkDate_Time y m d
      (to_i32 h) (to_i32 mi) (to_i32 s) (to_i32 ns))) sd Hsd)
      as (h & mi & s & ns & Hvt & Htod & E1 & E2 & E3 & E4 & ->) end.
  rewrite E1, E2, E3, E4, cadd_ok, bind_cval by crange. eexists. split; [reflexivity|].
  split; [|split].
  - rewrite dt_ok_iff, !in_range_iff. cbn [imin imax year month day hour minute second nanosecond].
    unfold valid_tod in Hvt. rewrite !andb_true_iff, !Z.leb_le in Hvt. lia.
  - unfold valid_dt. cbn [year month day hour minute second nanosecond].
    rewrite Hvt, (proj2 (valid_date_iff _ _ _)); [reflexivity|]. cbn [month_len Cal360_spec]. lia.
  - unfold instant, dt_day, dt_tod, day_number.
    cbn [year month day hour minute second nanosecond year_start Cal360_spec].
    rewrite days_before_month_360, Htod by lia. f_equal. f_equal. lia.
Qed.

#[export] Instance Cal360_refines : CalendarRefines Cal360_Calendar Cal360_spec.
Proof.
  split; [intros; apply cal360_days_in_month_spec | apply cal360_to_date_time_spec | apply cal360_to_time_point_spec].
Qed.
