(* ===== verification/Calendars.v ===== *)
(** * TICK: the three calendars together

    What the library promises of every calendar it ships, proved once against the
    interface of Calendar.v and instantiated at the three implementations. *)
From Stdlib Require Import ZArith Lia Bool List.
From S2P Require Import Prelude CInt TimeCore Calendar.
From S2P Require Gregorian NoLeap Cal360.
Import ListNotations.
Local Open Scope Z_scope.

Inductive Cal : Type := Gregorian_Calendar | NoLeap_Calendar | Cal360_Calendar.

Definition cal_impl (c : Cal) : Calendar :=
  match c with
  | Gregorian_Calendar => Gregorian.Gregorian_Calendar
  | NoLeap_Calendar => NoLeap.NoLeap_Calendar
  | Cal360_Calendar => Cal360.Cal360_Calendar
  end.

Definition cal_spec (c : Cal) : CalendarSpec :=
  match c with
  | Gregorian_Calendar => Gregorian.Gregorian_spec
  | NoLeap_Calendar => NoLeap.NoLeap_spec
  | Cal360_Calendar => Cal360.Cal360_spec
  end.

#[export] Instance cal_laws c : CalendarSpecLaws (cal_spec c).
Proof. destruct c; [exact Gregorian.Gregorian_laws | exact NoLeap.NoLeap_laws | exact Cal360.Cal360_laws]. Qed.

#[export] Instance cal_refines c : CalendarRefines (cal_impl c) (cal_spec c).
Proof.
  destruct c; [exact Gregorian.Gregorian_refines | exact NoLeap.NoLeap_refines | exact Cal360.Cal360_refines].
Qed.

Definition cal_add_months (c : Cal) : Time_Point -> Z -> result Time_Point :=
  match c with
  | Gregorian_Calendar => Gregorian.add_months
  | NoLeap_Calendar => NoLeap.add_months
  | Cal360_Calendar => Cal360.add_months
  end.

Definition cal_add_years (c : Cal) : Time_Point -> Z -> result Time_Point :=
  match c with
  | Gregorian_Calendar => Gregorian.add_years
  | NoLeap_Calendar => NoLeap.add_years
  | Cal360_Calendar => Cal360.add_years
  end.

(** C1. Decoding is total from [cal_min] on and inverse to encoding: every instant
    is decoded to a valid date, encoding that date gives the instant back, and a
    later instant is decoded to a later date. *)
Theorem decode_encode c n n' : cal_min <= n <= imax I64 -> cal_min <= n' <= imax I64 ->
  exists d d', @to_date_time (cal_impl c) (mkTime_Point n) = Ok d /\
    @to_date_time (cal_impl c) (mkTime_Point n') = Ok d' /\
    @valid_dt (cal_spec c) d = true /\ @instant (cal_spec c) d = n /\
    @to_time_point (cal_impl c) d = Ok (mkTime_Point n) /\
    (dt_ltb d d' = true <-> n < n').
Proof.
  intros Hn Hn'.
  destruct (@cal_decode_encode _ _ (cal_refines c) n Hn) as (d & Hd & Hv & Hok & Hi & He).
  destruct (@cal_decode_encode _ _ (cal_refines c) n' Hn') as (d' & Hd' & _).
  exists d, d'. repeat split; try assumption;
    now apply (@cal_decode_order _ _ (cal_refines c) (cal_laws c) n n' d d').
Qed.

Example decode_encode_witness :
  exists d d', @to_date_time (cal_impl Gregorian_Calendar) (mkTime_Point (-1)) = Ok d /\
    @to_date_time (cal_impl Gregorian_Calendar) (mkTime_Point 0) = Ok d' /\
    @valid_dt (cal_spec Gregorian_Calendar) d = true /\
    @instant (cal_spec Gregorian_Calendar) d = -1 /\
    @to_time_point (cal_impl Gregorian_Calendar) d = Ok (mkTime_Point (-1)) /\
    (dt_ltb d d' = true <-> -1 < 0).
Proof. apply (decode_encode Gregorian_Calendar); vm_compute; intuition discriminate. Defined.

(** Encoding rejects exactly the dates that do not exist, encodes a date whose
    instant is in range to it, and decoding gives the date back. *)
Theorem encode_decode c d : dt_ok d = true ->
  if @valid_dt (cal_spec c) d
  then cal_min <= @instant (cal_spec c) d <= imax I64 ->
       @to_time_point (cal_impl c) d = Ok (mkTime_Point (@instant (cal_spec c) d)) /\
       @to_date_time (cal_impl c) (mkTime_Point (@instant (cal_spec c) d)) = Ok d
  else @to_time_point (cal_impl c) d = Throw invalid_argument.
Proof.
  intros Hok. destruct (@valid_dt (cal_spec c) d) eqn:Hv.
  - now apply (@cal_encode_decode _ _ (cal_refines c) (cal_laws c)).
  - now apply (@cal_invalid _ _ (cal_refines c)).
Qed.

Example encode_decode_witness :
  @to_time_point (cal_impl Gregorian_Calendar) (mkDate_Time 2028 2 29 23 59 59 999999999) =
    Ok (mkTime_Point 68255999999999999) /\
  @to_date_time (cal_impl Gregorian_Calendar) (mkTime_Point 68255999999999999) =
    Ok (mkDate_Time 2028 2 29 23 59 59 999999999).
Proof.
  exact (encode_decode Gregorian_Calendar (mkDate_Time 2028 2 29 23 59 59 999999999) eq_refl
    ltac:(vm_compute; intuition discriminate)).
Defined.

(** ** Month arithmetic of the no-leap and the 360-day calendar *)

Lemma noleap_add_months_spec n d k : cal_min <= n <= imax I64 -> -1000000 <= k <= 1000000 ->
  NoLeap.to_date_time (mkTime_Point n) = Ok d ->
  NoLeap.add_months (mkTime_Point n) k =
    NoLeap.to_time_point (@shift_months NoLeap.NoLeap_spec d k).
Proof.
  intros Hn Hk Hd.
  destruct (@to_date_time_refines _ _ NoLeap.NoLeap_refines n Hn) as (d' & Hd' & Hok & Hv & Hi).
  cbn [Calendar.to_date_time NoLeap.NoLeap_Calendar] in Hd'. rewrite Hd in Hd'. injection Hd' as <-.
  pose proof (@valid_month NoLeap.NoLeap_spec d Hv) as Hm.
  assert (Hy : 1700 <= year d <= 2400).
  { pose proof (@dt_day_div _ d Hv) as Eq. rewrite Hi in Eq.
    unfold valid_dt in Hv. apply andb_true_iff in Hv as [Hvd _].
    pose proof (@day_number_in_year _ NoLeap.NoLeap_laws _ _ _ Hvd) as Hin.
    unfold dt_day in Eq. rewrite Eq in Hin.
    cbn [year_start NoLeap.NoLeap_spec] in Hin. unfold nanos_per_day, cal_min in *.
    cbn [imax] in *. clear - Hin Hn. lia. }
  unfold NoLeap.add_months. rewrite Hd, bind_Ok_l.
  rewrite !csub_ok, cmul_ok, !cadd_ok, bind_cval by crange.
  unfold shift_months. assert (Et : (year d - 1) * 12 + (month d - 1) + k = month_index d + k - 12)
    by (unfold month_index; lia). rewrite Et.
  set (t := month_index d + k) in *. assert (Ht : -1100000 <= t <= 1100000) by (unfold t, month_index; lia).
  clearbody t. clear Et.
  replace (if 0 <=? t - 12 then _ else _) with (@Ok (Z * Z) (t / 12, t mod 12 + 1)).
  2:{ case_if; bsimpl.
      - rewrite cdiv_pos, cadd_ok, bind_cval, crem_pos, cadd_ok, bind_cval by crange.
        do 2 f_equal; lia.
      - rewrite csub_ok, cdiv_pos, cadd_ok, bind_cval by crange.
        replace (Z.quot (t - 12 - 11) 12 + 1) with (t / 12) by lia.
        rewrite csub_ok, cmul_ok, csub_ok, cadd_ok, bind_cval by crange. do 2 f_equal; lia. }
  rewrite bind_Ok_l.
  pose proof (@days_in_month_refines _ _ NoLeap.NoLeap_refines (t / 12) (t mod 12 + 1)) as Edm.
  cbn [Calendar.days_in_month NoLeap.NoLeap_Calendar] in Edm.
  rewrite Edm, (proj2 (andb_true_iff _ _)) by (rewrite ?in_range_iff, ?Z.leb_le; cbn [imin imax]; lia).
  rewrite bind_Ok_l. f_equal. f_equal. case_if; bsimpl; lia.
Qed.

Lemma cal360_shift_instant d k : @valid_dt Cal360.Cal360_spec d = true ->
  @instant Cal360.Cal360_spec (@shift_months Cal360.Cal360_spec d k) =
  @instant Cal360.Cal360_spec d + k * 30 * nanos_per_day.
Proof.
  intros Hv. pose proof (@valid_month Cal360.Cal360_spec d Hv) as Hm.
  unfold valid_dt in Hv. apply andb_true_iff in Hv as [Hd _]. apply valid_date_iff in Hd as [_ Hd].
  cbn [month_len Cal360.Cal360_spec] in Hd.
  unfold instant, shift_months, dt_tod, dt_day, day_number.
  cbn [year month day hour minute second nanosecond month_len year_start Cal360.Cal360_spec].
  rewrite !Cal360.days_before_month_360 by lia. rewrite Z.min_l by lia.
  set (tod := time_of_day _ _ _ _). clearbody tod. unfold month_index, nanos_per_day.
  clear - Hm Hd. set (t := year d * 12 + (month d - 1) + k).
  assert (Et : t = 12 * (t / 12) + t mod 12) by lia.
  unfold t in *. lia.
Qed.

(** C2. Adding months (or years) moves an instant by calendar months, in all three
    calendars: the result is the instant of the date that many months later, with
    the same time of day and the day clamped to the length of the target month. *)
Theorem add_months_correct c n d k : cal_min <= n <= imax I64 -> -3500 <= k <= 3500 ->
  @to_date_time (cal_impl c) (mkTime_Point n) = Ok d ->
  cal_min <= @instant (cal_spec c) (@shift_months (cal_spec c) d k) <= imax I64 ->
  cal_add_months c (mkTime_Point n) k =
    Ok (mkTime_Point (@instant (cal_spec c) (@shift_months (cal_spec c) d k))) /\
  forall j, k = j * 12 ->
    cal_add_years c (mkTime_Point n) j = cal_add_months c (mkTime_Point n) k.
Proof.
  intros Hn Hk Hd Hi.
  destruct (@to_date_time_refines _ _ (cal_refines c) n Hn) as (d' & Hd' & Hok & Hv & Hin).
  rewrite Hd in Hd'. injection Hd' as <-.
  assert (Hmi : c <> Cal360_Calendar -> in_i32 (month_index d + k) = true).
  { intros _. pose proof (@valid_month (cal_spec c) d Hv) as Hm. rewrite in_range_iff.
    assert (1600 <= year d <= 2500); [|unfold month_index; cbn [imin imax]; lia].
    pose proof (@dt_day_div _ d Hv) as Eq. rewrite Hin in Eq.
    unfold valid_dt in Hv. apply andb_true_iff in Hv as [Hvd _].
    pose proof (@day_number_in_year _ (cal_laws c) _ _ _ Hvd) as Hy.
    unfold dt_day in Eq. rewrite Eq in Hy. unfold nanos_per_day, cal_min in *. cbn [imax] in *.
    destruct c; cbn [cal_spec year_start Gregorian.Gregorian_spec NoLeap.NoLeap_spec
      Cal360.Cal360_spec] in Hy; clear - Hy Hn; lia. }
  assert (Henc : c <> Cal360_Calendar ->
    @to_time_point (cal_impl c) (@shift_months (cal_spec c) d k) =
    Ok (mkTime_Point (@instant (cal_spec c) (@shift_months (cal_spec c) d k)))).
  { intros Hc. apply (@cal_encode_decode _ _ (cal_refines c) (cal_laws c)); try assumption.
    - apply (@shift_months_ok _ (cal_laws c)); auto.
    - now apply (@shift_months_valid _ (cal_laws c)). }
  destruct c; cbn [cal_add_months cal_add_years cal_impl cal_spec] in *; (split; [|intros j ->]).
  - rewrite (Gregorian.greg_add_months_spec n d k) by (try assumption; apply in_range_iff; cbn; lia).
    rewrite Hmi by discriminate. now apply Henc.
  - unfold Gregorian.add_years. now rewrite cmul_ok, bind_cval by crange.
  - rewrite (noleap_add_months_spec n d k) by (try assumption; lia). now apply Henc.
  - unfold NoLeap.add_years. now rewrite cmul_ok, bind_cval by crange.
  - rewrite (cal360_shift_instant d k Hv), Hin in *. unfold Cal360.add_months, nanos_per_day, cal_min in *.
    cbn [tp_nanos]. rewrite !cmul_ok, bind_cval, cadd_ok, bind_cval by crange. reflexivity.
  - unfold Cal360.add_years, Cal360.add_months, nanos_per_day. cbn [tp_nanos].
    rewrite !cmul_ok, !bind_cval by crange. do 2 f_equal. unfold cval. do 2 f_equal; lia.
Qed.

Example add_months_correct_witness :
  let d := mkDate_Time 2027 3 31 6 0 0 0 in
  let n := @instant (cal_spec Gregorian_Calendar) d in
  cal_add_months Gregorian_Calendar (mkTime_Point n) (-1) =
    Ok (mkTime_Point (@instant (cal_spec Gregorian_Calendar) (mkDate_Time 2027 2 28 6 0 0 0))) /\
  forall j, -1 = j * 12 -> cal_add_years Gregorian_Calendar (mkTime_Point n) j =
    cal_add_months Gregorian_Calendar (mkTime_Point n) (-1).
Proof.
  exact (add_months_correct Gregorian_Calendar
    (@instant (cal_spec Gregorian_Calendar) (mkDate_Time 2027 3 31 6 0 0 0))
    (mkDate_Time 2027 3 31 6 0 0 0) (-1)
    ltac:(vm_compute; intuition discriminate) ltac:(lia) ltac:(vm_compute; reflexivity)
    ltac:(vm_compute; intuition discriminate)).
Defined.

(** Below [cal_min] the Gregorian and the 360-day decoder compute the first
    nanosecond of a day that is not representable: their behaviour is undefined
    for every instant of that partial day.  The no-leap decoder handles it. *)
Theorem decode_first_partial_day c n : imin I64 <= n < cal_min ->
  let m := @to_date_time (cal_impl c) (mkTime_Point n) in
  match c with NoLeap_Calendar => is_ok m = true | _ => m = Undef end.
Proof.
  intros Hn. unfold cal_min in Hn. cbn [imin] in Hn.
  assert (Eq : n / nanos_per_day = -106752) by (unfold nanos_per_day; lia).
  assert (Eu : csub I64 (cval n) (cmul I64 (cval (-106752)) (cval nanos_per_day)) = Undef) by reflexivity.
  cbv zeta. destruct c; cbn [cal_impl Calendar.to_date_time Gregorian.Gregorian_Calendar
    NoLeap.NoLeap_Calendar Cal360.Cal360_Calendar].
  - unfold Gregorian.to_date_time. cbn [tp_nanos].
    rewrite Gregorian.greg_floor_div_spec, bind_cval, Eq, Eu by (unfold nanos_per_day; crange). reflexivity.
  - unfold NoLeap.to_date_time. cbn [tp_nanos].
    rewrite cdiv_pos, bind_cval, crem_pos, bind_cval by (unfold nanos_per_day; crange).
    assert (E1 : Z.quot n nanos_per_day = -106751) by (unfold nanos_per_day; lia).
    assert (E2 : -nanos_per_day < Z.rem n nanos_per_day < 0) by (unfold nanos_per_day; lia).
    rewrite E1. set (sd := Z.rem n nanos_per_day) in *. clearbody sd.
    rewrite (proj2 (Z.ltb_lt sd 0)), csub_ok, bind_cval, cadd_ok, bind_cval
      by (unfold nanos_per_day in *; crange). rewrite bind_Ok_l.
    change (-106751 - 1) with (-106752). cbn [Z.leb Z.compare].
    match goal with |- context [mkDate_Time ?y ?m ?d] => idtac | |- _ => idtac end.
    destruct (tod_code (fun h mi s ns => Ok (mkDate_Time 1733 7 13 (to_i32 h) (to_i32 mi) (to_i32 s) (to_i32 ns)))
      (sd + nanos_per_day) ltac:(unfold nanos_per_day in *; lia)) as (h & mi & s & ns & _ & _ & _ & _ & _ & _ & E).
    match type of E with ?lhs = _ =>
      match goal with |- is_ok ?g = true => change g with lhs end end.
    now rewrite E.
  - unfold Cal360.to_date_time. cbn [tp_nanos].
    rewrite Cal360.cal360_floor_div_spec, bind_cval, Eq, Eu by (unfold nanos_per_day; crange). reflexivity.
Qed.

Example decode_first_partial_day_witness :
  @to_date_time (cal_impl Gregorian_Calendar) (mkTime_Point (-9223372036854775808)) = Undef.
Proof.
  exact (decode_first_partial_day Gregorian_Calendar (-9223372036854775808)
    ltac:(vm_compute; intuition discriminate)).
Defined.
