(* ===== verification/Iso8601.v ===== *)
(** * TICK: ISO 8601 parsing and formatting ([tick/date_time.hpp])

    A [std::string_view] is the list of its characters.  [std::from_chars] and
    the [%0Nd] conversion of [std::snprintf] are modelled as the standard
    defines them. *)
From Stdlib Require Import ZArith Lia Bool List Ascii.
From S2P Require Import Prelude CInt TimeCore.
Import ListNotations.
Local Open Scope char_scope.
Local Open Scope Z_scope.

(** ** The standard library functions *)

Definition is_digit (c : ascii) : bool :=
  (48 <=? Z.of_N (N_of_ascii c)) && (Z.of_N (N_of_ascii c) <=? 57).
Definition digit_val (c : ascii) : Z := Z.of_N (N_of_ascii c) - 48.
Definition digit_char (d : Z) : ascii := ascii_of_N (Z.to_N (d + 48)).

(** Consume the digits at the front: accumulated value, number read, rest. *)
Fixpoint scan_digits (acc : Z) (n : nat) (s : list ascii) : Z * nat * list ascii :=
  match s with
  | c :: r => if is_digit c then scan_digits (acc * 10 + digit_val c) (S n) r else (acc, n, s)
  | [] => (acc, n, [])
  end.

(** [std::from_chars] on an [std::int32_t], base 10: an optional minus sign and
    at least one digit; [None] for [errc::invalid_argument] and
    [errc::result_out_of_range], else the value and the unread characters. *)
Definition from_chars (s : list ascii) : option (Z * list ascii) :=
  let '(neg, body) := match s with "-" :: r => (true, r) | _ => (false, s) end in
  let '(v, n, rest) := scan_digits 0 0 body in
  match n with
  | O => None
  | _ => let v' := if neg : bool then - v else v in
         if in_i32 v' then Some (v', rest) else None
  end.

(** Decimal digits of a non-negative number, most significant first. *)
Fixpoint dec_digits (fuel : nat) (z : Z) (acc : list ascii) : list ascii :=
  match fuel with
  | O => acc
  | S f => let acc' := digit_char (z mod 10) :: acc in
           if z <? 10 then acc' else dec_digits f (z / 10) acc'
  end.

(** [%0Nd]: at least [width] characters, zero-padded after the sign.  Ten digits
    are enough for an [int]. *)
Definition print_padded (width : nat) (z : Z) : list ascii :=
  let ds := dec_digits 10 (Z.abs z) [] in
  if z <? 0 then "-" :: repeat "0" (width - 1 - length ds) ++ ds
  else repeat "0" (width - length ds) ++ ds.

(** ** The code *)

Definition check_sep (sv : list ascii) (pos : nat) (expected : ascii) : result unit :=
  match nth_error sv pos with
  | Some c => throw_if (negb (Ascii.eqb c expected)) invalid_argument
  | None => Undef
  end.

Definition parse_int (sv : list ascii) (start len : nat) : result Z :=
  match from_chars (firstn len (skipn start sv)) with
  | Some (value, []) => Ok value
  | _ => Throw invalid_argument
  end.

Definition parse_iso8601 (sv : list ascii) : result Date_Time :=
  do! throw_if (negb (Nat.eqb (length sv) 19)) invalid_argument then
  do! check_sep sv 4 "-" then
  do! check_sep sv 7 "-" then
  do! check_sep sv 10 "T" then
  do! check_sep sv 13 ":" then
  do! check_sep sv 16 ":" then
  let! y := parse_int sv 0 4 in
  let! mo := parse_int sv 5 2 in
  let! d := parse_int sv 8 2 in
  let! h := parse_int sv 11 2 in
  let! mi := parse_int sv 14 2 in
  let! s := parse_int sv 17 2 in
  do! throw_if ((mo <? 1) || (12 <? mo)) invalid_argument then
  do! throw_if ((d <? 1) || (31 <? d)) invalid_argument then
  do! throw_if ((h <? 0) || (23 <? h)) invalid_argument then
  do! throw_if ((mi <? 0) || (59 <? mi)) invalid_argument then
  do! throw_if ((s <? 0) || (59 <? s)) invalid_argument then
  Ok (mkDate_Time y mo d h mi s 0).

(** The buffer holds 19 characters and the terminator; longer output is cut. *)
Definition format_iso8601 (dt : Date_Time) : list ascii :=
  firstn 19 (print_padded 4 (year dt) ++ "-" :: print_padded 2 (month dt) ++ "-" ::
    print_padded 2 (day dt) ++ "T" :: print_padded 2 (hour dt) ++ ":" ::
    print_padded 2 (minute dt) ++ ":" :: print_padded 2 (second dt)).

(** ** A printed field is read back *)

Definition reads_back (width : nat) (z : Z) : bool :=
  Nat.eqb (length (print_padded width z)) width &&
  match from_chars (print_padded width z) with
  | Some (v, []) => v =? z
  | _ => false
  end.

(** [check_range f lo n]: [f] holds on [lo], ..., [lo + n - 1]. *)
Fixpoint check_range (f : Z -> bool) (lo : Z) (n : nat) : bool :=
  match n with O => true | S k => f lo && check_range f (lo + 1) k end.

Lemma check_range_sound f n : forall lo, check_range f lo n = true ->
  forall z, lo <= z < lo + Z.of_nat n -> f z = true.
Proof.
  induction n as [|n IH]; intros lo; [lia|]. cbn [check_range].
  rewrite andb_true_iff. intros [H1 H2] z Hz.
  destruct (Z.eq_dec z lo) as [->|]; [assumption|]. apply (IH (lo + 1) H2). lia.
Qed.

Lemma reads_back_2 z : 0 <= z <= 99 -> reads_back 2 z = true.
Proof. intros. apply (check_range_sound _ 100 0); [vm_compute; reflexivity | lia]. Qed.

Lemma reads_back_4 z : -999 <= z <= 9999 -> reads_back 4 z = true.
Proof.
  intros. apply (check_range_sound _ (Z.to_nat 10999) (-999)); [vm_compute; reflexivity | lia].
Qed.

Lemma reads_back_elim_2 z : 0 <= z <= 99 ->
  exists a b, print_padded 2 z = [a; b] /\ from_chars [a; b] = Some (z, []).
Proof.
  intros Hz. apply reads_back_2 in Hz. unfold reads_back in Hz.
  rewrite andb_true_iff, Nat.eqb_eq in Hz. destruct Hz as [Hl Hv].
  destruct (print_padded 2 z) as [|a [|b [|]]]; try discriminate.
  exists a, b. split; [reflexivity|].
  destruct (from_chars [a; b]) as [[v [|]]|]; try discriminate.
  now apply Z.eqb_eq in Hv as ->.
Qed.

Lemma reads_back_elim_4 z : -999 <= z <= 9999 ->
  exists a b c d, print_padded 4 z = [a; b; c; d] /\ from_chars [a; b; c; d] = Some (z, []).
Proof.
  intros Hz. apply reads_back_4 in Hz. unfold reads_back in Hz.
  rewrite andb_true_iff, Nat.eqb_eq in Hz. destruct Hz as [Hl Hv].
  destruct (print_padded 4 z) as [|a [|b [|c [|d [|]]]]]; try discriminate.
  exists a, b, c, d. split; [reflexivity|].
  destruct (from_chars [a; b; c; d]) as [[v [|]]|]; try discriminate.
  now apply Z.eqb_eq in Hv as ->.
Qed.

(** The ranges the parser accepts. *)
Definition iso_fields_ok (dt : Date_Time) : Prop :=
  -999 <= year dt <= 9999 /\ 1 <= month dt <= 12 /\ 1 <= day dt <= 31 /\
  0 <= hour dt <= 23 /\ 0 <= minute dt <= 59 /\ 0 <= second dt <= 59.

(** The date without its fraction of a second, which the format drops. *)
Definition drop_nanos (dt : Date_Time) : Date_Time :=
  mkDate_Time (year dt) (month dt) (day dt) (hour dt) (minute dt) (second dt) 0.

(** C5. *)
Theorem iso8601_roundtrip dt : iso_fields_ok dt ->
  length (format_iso8601 dt) = 19%nat /\
  parse_iso8601 (format_iso8601 dt) = Ok (drop_nanos dt).
Proof.
  destruct dt as [y mo d h mi s ns]. intros (Hy & Hmo & Hd & Hh & Hmi & Hs).
  unfold format_iso8601. cbn [year month day hour minute second] in *.
  destruct (reads_back_elim_4 y Hy) as (y1 & y2 & y3 & y4 & -> & Ey).
  destruct (reads_back_elim_2 mo) as (m1 & m2 & -> & Em); [lia|].
  destruct (reads_back_elim_2 d) as (d1 & d2 & -> & Ed); [lia|].
  destruct (reads_back_elim_2 h) as (h1 & h2 & -> & Eh); [lia|].
  destruct (reads_back_elim_2 mi) as (i1 & i2 & -> & Ei); [lia|].
  destruct (reads_back_elim_2 s) as (s1 & s2 & -> & Es); [lia|].
  cbn [app firstn]. split; [reflexivity|].
  unfold parse_iso8601, parse_int, check_sep.
  cbn [length Nat.eqb negb nth_error Ascii.eqb Bool.eqb skipn firstn throw_if bind].
  rewrite Ey, Em, Ed, Eh, Ei, Es. cbn [bind].
  repeat (rewrite (proj2 (Z.ltb_ge _ _)) by lia). reflexivity.
Qed.

Example iso8601_roundtrip_witness :
  length (format_iso8601 (mkDate_Time 2028 2 29 23 59 59 999)) = 19%nat /\
  parse_iso8601 (format_iso8601 (mkDate_Time 2028 2 29 23 59 59 999)) =
    Ok (mkDate_Time 2028 2 29 23 59 59 0).
Proof.
  apply (iso8601_roundtrip (mkDate_Time 2028 2 29 23 59 59 999)).
  unfold iso_fields_ok; cbn [year month day hour minute second]. lia.
Defined.
