(* ===== verification/TimeWindow.v ===== *)
(** * TICK: time windows and accumulation boundaries ([tick/time_window.hpp]) *)
From Stdlib Require Import ZArith Lia Bool.
From S2P Require Import Prelude CInt Overflow TimeCore.
Local Open Scope Z_scope.

(** ** The code *)

(** The members of [Time_Window]; the constructor is [time_window]. *)
Record Time_Window : Type := mkTime_Window { w_start : Time_Point; w_end : Time_Point }.

Definition time_window (start fin : Time_Point) : result Time_Window :=
  do! throw_if (negb (tp_ltb start fin)) invalid_argument then Ok (mkTime_Window start fin).

Definition time_window_of_duration (start : Time_Point) (duration : Duration) : result Time_Window :=
  let! fin := tp_add start duration in time_window start fin.

Definition contains (w : Time_Window) (t : Time_Point) : bool :=
  tp_leb (w_start w) t && tp_ltb t (w_end w).

Definition window_duration (w : Time_Window) : result Duration :=
  let! n := (tp_nanos (w_end w) - tp_nanos (w_start w))%i64 in Ok (mkDuration n).

Definition is_on_boundary (current_time : Time_Point) (interval : Duration) : result bool :=
  do! throw_if (dur_nanos interval <=? 0) invalid_argument then
  let! r := (tp_nanos current_time rem dur_nanos interval)%i64 in Ok (r =? 0).

Definition compute_window (current_time : Time_Point) (interval : Duration) : result Time_Window :=
  do! throw_if (dur_nanos interval <=? 0) invalid_argument then
  let nanos := tp_nanos current_time in
  let iv := dur_nanos interval in
  let! floor_nanos :=
    (if 0 <=? nanos then ((nanos / iv) * iv)%i64 else (((nanos - iv + 1) / iv) * iv)%i64) in
  let floor_time := mkTime_Point floor_nanos in
  let! fin := tp_add floor_time interval in
  time_window floor_time fin.

(** ** Specification *)

(** The window of length [iv] that starts at [s]. *)
Definition window_at (s iv : Z) : Time_Window :=
  mkTime_Window (mkTime_Point s) (mkTime_Point (s + iv)).

Lemma time_window_at s iv : 0 < iv ->
  time_window (mkTime_Point s) (mkTime_Point (s + iv)) = Ok (window_at s iv).
Proof.
  intros. unfold time_window, tp_ltb. cbn [tp_nanos].
  now rewrite (proj2 (Z.ltb_lt _ _)) by lia.
Qed.

Lemma contains_iff w t : contains w t = true <->
  tp_nanos (w_start w) <= tp_nanos t < tp_nanos (w_end w).
Proof. unfold contains, tp_leb, tp_ltb. rewrite andb_true_iff, Z.leb_le, Z.ltb_lt. lia. Qed.

(** The truncated division of a shifted negative dividend is the floored one. *)
Lemma neg_floor n iv : n < 0 -> 0 < iv -> Z.quot (n - iv + 1) iv = n / iv.
Proof.
  intros Hn Hiv. rewrite <- (Z.opp_involutive (n - iv + 1)), Z.quot_opp_l by lia.
  rewrite Z.quot_div_nonneg by lia.
  replace (- (n - iv + 1)) with ((- n - 1) + 1 * iv) by lia.
  rewrite Z.div_add by lia.
  assert (E : n / iv = - 1 - (- n - 1) / iv); [|lia].
  symmetry. apply (Z.div_unique n iv _ (iv - 1 - (- n - 1) mod iv)).
  - left. pose proof (Z.mod_pos_bound (- n - 1) iv). lia.
  - pose proof (Z.div_mod (- n - 1) iv). lia.
Qed.

Lemma floor_le n iv : 0 < iv -> iv * (n / iv) <= n < iv * (n / iv) + iv.
Proof. intros. pose proof (Z.div_mod n iv). pose proof (Z.mod_pos_bound n iv). lia. Qed.

(** [compute_window], on every branch: the aligned window, an exception when
    its end is not representable, no meaning when the shifted dividend is not. *)
Lemma compute_window_eval t iv : tp_ok t = true -> dur_ok iv = true ->
  compute_window t iv =
    if dur_nanos iv <=? 0 then Throw invalid_argument
    else
      let s := dur_nanos iv * (tp_nanos t / dur_nanos iv) in
      if (0 <=? tp_nanos t) || (imin I64 <=? tp_nanos t - dur_nanos iv) then
        if s + dur_nanos iv <=? imax I64 then Ok (window_at s (dur_nanos iv))
        else Throw overflow_error
      else Undef.
Proof.
  destruct t as [n], iv as [iv]. unfold tp_ok, dur_ok, compute_window, throw_if.
  cbn [tp_nanos dur_nanos]. rewrite !in_range_iff. cbn [imin imax]. intros Hn Hiv.
  destruct (Z.leb_spec iv 0) as [|Hpos]; [reflexivity|]. cbn [bind].
  pose proof (floor_le n iv Hpos) as Hf.
  destruct (Z.leb_spec 0 n) as [Hn0|Hn0]; cbn [orb].
  - assert (0 <= n / iv) by (now apply Z.div_pos; lia).
    rewrite cdiv_pos, quot_nonneg_div, cmul_ok, bind_cval by (cbn [imin imax]; nia).
    rewrite (Z.mul_comm (n / iv)). set (s := iv * (n / iv)) in *.
    rewrite tp_add_spec by (unfold tp_ok, dur_ok; rewrite in_range_iff; cbn; nia).
    unfold in_range. cbn [tp_nanos dur_nanos imin imax]. rewrite (proj2 (Z.leb_le _ (s + iv))) by nia.
    cbn [andb]. case_if; [|reflexivity]. cbn [bind]. now rewrite time_window_at.
  - destruct (Z.leb_spec (-9223372036854775808) (n - iv)) as [Hlo|Hlo].
    + assert (n / iv < 0) by (apply Z.div_lt_upper_bound; lia).
      rewrite csub_ok, cadd_ok, cdiv_pos, neg_floor, cmul_ok, bind_cval by (cbn [imin imax]; nia).
      rewrite (Z.mul_comm (n / iv)). set (s := iv * (n / iv)) in *.
      rewrite tp_add_spec by (unfold tp_ok, dur_ok; rewrite in_range_iff; cbn; nia).
      unfold in_range. cbn [tp_nanos dur_nanos imin imax].
      rewrite (proj2 (Z.leb_le _ (s + iv))), (proj2 (Z.leb_le (s + iv) _)) by nia.
      cbn [andb bind]. now rewrite time_window_at.
    + assert (E : csub I64 (cval n) (cval iv) = Undef) by (apply arith_undef; cbn; lia).
      now rewrite E.
Qed.

(** C4. [compute_window] returns the half-open window that contains the current
    time, begins at a multiple of the interval and is one interval long, whenever
    the interval is positive and the window is representable; and no other aligned
    window of that length contains the time. *)
Theorem compute_window_correct n iv : 0 < iv <= imax I64 ->
  imin I64 + iv <= n -> iv * (n / iv) + iv <= imax I64 ->
  exists w, compute_window (mkTime_Point n) (mkDuration iv) = Ok w /\
    contains w (mkTime_Point n) = true /\
    is_on_boundary (w_start w) (mkDuration iv) = Ok true /\
    window_duration w = Ok (mkDuration iv) /\
    forall k, contains (window_at (k * iv) iv) (mkTime_Point n) = true ->
      window_at (k * iv) iv = w.
Proof.
  intros Hiv Hlo Hhi. pose proof (floor_le n iv ltac:(lia)) as Hf.
  exists (window_at (iv * (n / iv)) iv).
  rewrite compute_window_eval
    by (unfold tp_ok, dur_ok; rewrite in_range_iff; cbn [tp_nanos dur_nanos imin imax] in *;
        clear - Hiv Hlo Hhi Hf; set (q := n / iv) in *; clearbody q; lia).
  cbn [tp_nanos dur_nanos]. set (q := n / iv) in *. clearbody q.
  rewrite (proj2 (Z.leb_gt iv 0)) by lia. cbv zeta.
  rewrite (proj2 (Z.leb_le (imin I64) (n - iv))), orb_true_r by lia.
  rewrite (proj2 (Z.leb_le (iv * q + iv) (imax I64))) by lia.
  split; [reflexivity|]. rewrite contains_iff. cbn [w_start w_end window_at tp_nanos].
  split; [lia|]. split; [|split].
  - unfold is_on_boundary, throw_if. cbn [tp_nanos dur_nanos].
    rewrite (proj2 (Z.leb_gt iv 0)) by lia. cbn [bind].
    rewrite crem_pos, bind_cval by (cbn [imin imax] in *; lia).
    now rewrite Z.mul_comm, Z.rem_mul by lia.
  - unfold window_duration. cbn [w_start w_end window_at tp_nanos].
    rewrite csub_ok by (cbn [imin imax] in *; lia). rewrite bind_cval. do 2 f_equal. lia.
  - intros k. rewrite contains_iff. cbn [w_start w_end window_at tp_nanos]. intros Hk.
    assert (k = q) as -> by nia. now rewrite Z.mul_comm.
Qed.

Example compute_window_correct_witness :
  exists w, compute_window (mkTime_Point (-1)) (mkDuration 3600000000000) = Ok w /\
    contains w (mkTime_Point (-1)) = true /\
    is_on_boundary (w_start w) (mkDuration 3600000000000) = Ok true /\
    window_duration w = Ok (mkDuration 3600000000000) /\
    forall k, contains (window_at (k * 3600000000000) 3600000000000) (mkTime_Point (-1)) = true ->
      window_at (k * 3600000000000) 3600000000000 = w.
Proof. apply compute_window_correct; vm_compute; intuition discriminate. Defined.
