(* ===== verification/Alarms.v ===== *)
(** * TICK: alarms ([tick/interval_alarm.hpp], [tick/absolute_alarm.hpp]) *)
From Stdlib Require Import ZArith Lia Bool.
From S2P Require Import Prelude CInt TimeCore TimeWindow.
Local Open Scope Z_scope.

(** ** The code *)

Record Interval_Alarm : Type := mkInterval_Alarm { ia_interval : Duration; ia_reference : Time_Point }.

Definition interval_alarm (interval : Duration) (reference : Time_Point) : result Interval_Alarm :=
  do! throw_if (dur_nanos interval <=? 0) invalid_argument then
  Ok (mkInterval_Alarm interval reference).

Definition interval_is_ringing (a : Interval_Alarm) (current_time : Time_Point) : result bool :=
  if tp_leb (ia_reference a) current_time then
    let! r := ((tp_nanos current_time - tp_nanos (ia_reference a)) rem dur_nanos (ia_interval a))%i64 in
    Ok (r =? 0)
  else Ok false.

Definition next_ring_at (a : Interval_Alarm) (current_time : Time_Point) : result Time_Point :=
  if tp_ltb current_time (ia_reference a) then Ok (ia_reference a)
  else
    let! elapsed := (tp_nanos current_time - tp_nanos (ia_reference a))%i64 in
    let! n := (elapsed / dur_nanos (ia_interval a) + 1)%i64 in
    let! t := (tp_nanos (ia_reference a) + n * dur_nanos (ia_interval a))%i64 in
    Ok (mkTime_Point t).

Record Absolute_Alarm : Type := mkAbsolute_Alarm { aa_trigger : Time_Point }.

Definition absolute_is_ringing (a : Absolute_Alarm) (current_time : Time_Point) : bool :=
  tp_eqb current_time (aa_trigger a).

Definition has_passed (a : Absolute_Alarm) (current_time : Time_Point) : bool :=
  tp_ltb (aa_trigger a) current_time.

(** ** Specification: the alarm rings at [reference + k * interval], [k >= 0] *)

Definition rings_at (iv ref t : Z) : Prop := exists k, 0 <= k /\ t = ref + k * iv.

Section Interval.
Variables iv ref : Z.
Hypothesis Hiv : 0 < iv <= imax I64.
Local Abbreviation alarm := (mkInterval_Alarm (mkDuration iv) (mkTime_Point ref)).

Lemma is_ringing_eval t : imin I64 <= t - ref <= imax I64 ->
  interval_is_ringing alarm (mkTime_Point t) = Ok ((ref <=? t) && ((t - ref) mod iv =? 0)).
Proof.
  intros Hd. unfold interval_is_ringing, tp_leb. cbn [tp_nanos dur_nanos ia_reference ia_interval].
  destruct (Z.leb_spec ref t); [|reflexivity].
  rewrite csub_ok, crem_pos, bind_cval, rem_nonneg_mod by lia. reflexivity.
Qed.

Lemma rings_at_mod t : rings_at iv ref t <-> ref <= t /\ (t - ref) mod iv = 0.
Proof.
  split.
  - intros (k & Hk & ->). split; [nia|].
    replace (ref + k * iv - ref) with (k * iv) by lia. apply Z.mod_mul. lia.
  - intros [Hle Hm]. apply Z.mod_divide in Hm as [k Hk]; [|lia]. exists k. split; nia.
Qed.

Lemma is_ringing_spec t : imin I64 <= t - ref <= imax I64 ->
  exists b, interval_is_ringing alarm (mkTime_Point t) = Ok b /\ (b = true <-> rings_at iv ref t).
Proof.
  intros Hd. eexists. split; [now apply is_ringing_eval|].
  rewrite rings_at_mod, andb_true_iff, Z.leb_le, Z.eqb_eq. reflexivity.
Qed.

Lemma next_ring_eval t : ref <= t -> t - ref <= imax I64 ->
  iv * ((t - ref) / iv) + iv <= imax I64 ->
  imin I64 <= ref -> ref + (iv * ((t - ref) / iv) + iv) <= imax I64 ->
  next_ring_at alarm (mkTime_Point t) = Ok (mkTime_Point (ref + (iv * ((t - ref) / iv) + iv))).
Proof.
  intros Hle Hd Hm Hr Hs. unfold next_ring_at, tp_ltb.
  cbn [tp_nanos dur_nanos ia_reference ia_interval].
  rewrite (proj2 (Z.ltb_ge t ref)) by lia.
  assert (0 <= (t - ref) / iv) by (apply Z.div_pos; lia).
  rewrite csub_ok, bind_cval by (cbn in *; lia).
  rewrite cdiv_pos, quot_nonneg_div by (cbn in *; lia).
  set (q := (t - ref) / iv) in *. clearbody q.
  rewrite (cadd_ok I64 q 1), bind_cval by (cbn in *; nia).
  rewrite cmul_ok, cadd_ok, bind_cval by (cbn in *; nia). do 2 f_equal. nia.
Qed.
End Interval.

(** The next ring of an interval alarm is the first instant strictly after the
    current time (or the reference itself, before it) at which the alarm rings:
    it rings there and at no instant in between. *)
Theorem next_ring_first iv ref t : 0 < iv <= imax I64 ->
  imin I64 <= ref -> imin I64 <= t -> t - ref <= imax I64 ->
  iv * ((t - ref) / iv) + iv <= imax I64 -> ref + (iv * ((t - ref) / iv) + iv) <= imax I64 ->
  exists a r, interval_alarm (mkDuration iv) (mkTime_Point ref) = Ok a /\
    next_ring_at a (mkTime_Point t) = Ok (mkTime_Point r) /\
    t < r /\ interval_is_ringing a (mkTime_Point r) = Ok true /\
    forall u, t < u < r -> interval_is_ringing a (mkTime_Point u) = Ok false.
Proof.
  intros Hiv Hr Ht Hd Hm Hs. exists (mkInterval_Alarm (mkDuration iv) (mkTime_Point ref)).
  unfold interval_alarm. cbn [dur_nanos]. rewrite (proj2 (Z.leb_gt iv 0)) by lia.
  assert (Hskip : forall u, u < ref ->
    interval_is_ringing (mkInterval_Alarm (mkDuration iv) (mkTime_Point ref)) (mkTime_Point u) = Ok false).
  { intros u Hu. unfold interval_is_ringing, tp_leb. cbn. now rewrite (proj2 (Z.leb_gt ref u)). }
  destruct (Z.lt_ge_cases t ref) as [Hlt|Hge].
  - exists ref. split; [reflexivity|]. unfold next_ring_at at 1, tp_ltb. cbn [tp_nanos ia_reference].
    rewrite (proj2 (Z.ltb_lt t ref)) by assumption. split; [reflexivity|]. split; [assumption|].
    rewrite is_ringing_eval by (cbn in *; lia).
    rewrite Z.leb_refl, Z.sub_diag, Z.mod_0_l by lia. split; [reflexivity|].
    intros u Hu. apply Hskip. lia.
  - set (r := ref + (iv * ((t - ref) / iv) + iv)). exists r. split; [reflexivity|].
    rewrite next_ring_eval by assumption. split; [reflexivity|].
    pose proof (floor_le (t - ref) iv ltac:(lia)) as Hf.
    split; [unfold r; lia|]. split.
    + rewrite is_ringing_eval by (unfold r; cbn in *; lia). f_equal.
      rewrite andb_true_iff, Z.leb_le, Z.eqb_eq. split; [unfold r; nia|].
      replace (r - ref) with (((t - ref) / iv + 1) * iv) by (unfold r; nia). apply Z.mod_mul. lia.
    + intros u Hu. rewrite is_ringing_eval by (unfold r in *; cbn in *; lia). f_equal.
      apply andb_false_iff. right. apply Z.eqb_neq. intros Hz.
      apply Z.mod_divide in Hz as [k Hk]; [|lia]. unfold r in Hu.
      set (q := (t - ref) / iv) in *. clearbody q. clear r.
      assert (iv * q < iv * k < iv * (q + 1)) as [H1 H2] by lia.
      apply Z.mul_lt_mono_pos_l in H1, H2; lia.
Qed.

Example next_ring_first_witness :
  exists a r, interval_alarm (mkDuration 7) (mkTime_Point (-10)) = Ok a /\
    next_ring_at a (mkTime_Point 4) = Ok (mkTime_Point r) /\
    4 < r /\ interval_is_ringing a (mkTime_Point r) = Ok true /\
    forall u, 4 < u < r -> interval_is_ringing a (mkTime_Point u) = Ok false.
Proof. apply next_ring_first; vm_compute; intuition discriminate. Defined.
