(* ===== verification/Sync.v ===== *)
(** * TICK: heartbeat and synchronisation period ([tick/sync.hpp], [src/sync.cpp])

    [std::gcd] is the standard's: the greatest common divisor, [Z.gcd]. *)
From Stdlib Require Import ZArith Znumtheory Lia Bool List.
From S2P Require Import Prelude CInt TimeCore.
Import ListNotations.
Local Open Scope Z_scope.

(** ** The code *)

Definition is_phase_aligned (current_time base_time : Time_Point) (time_step : Duration) : result bool :=
  do! throw_if (dur_nanos time_step <=? 0) invalid_argument then
  if tp_ltb current_time base_time then Ok false
  else
    let! r := ((tp_nanos current_time - tp_nanos base_time) rem dur_nanos time_step)%i64 in
    Ok (r =? 0).

Fixpoint heartbeat_loop (acc : Z) (time_steps : list Duration) : result Duration :=
  match time_steps with
  | [] => Ok (mkDuration acc)
  | step :: rest =>
      do! throw_if (dur_nanos step <=? 0) invalid_argument then
      heartbeat_loop (Z.gcd acc (dur_nanos step)) rest
  end.

Definition compute_heartbeat (time_steps : list Duration) : result Duration :=
  do! throw_if (match time_steps with [] => true | _ => false end) invalid_argument then
  heartbeat_loop 0 time_steps.

Fixpoint sync_period_loop (acc : Z) (time_steps : list Duration) : result Duration :=
  match time_steps with
  | [] => Ok (mkDuration acc)
  | step :: rest =>
      do! throw_if (dur_nanos step <=? 0) invalid_argument then
      let g := Z.gcd acc (dur_nanos step) in
      let! div := (acc / g)%i64 in
      let! over :=
        (if negb (dur_nanos step =? 0)
         then let! lim := (imax I64 / dur_nanos step)%i64 in Ok (lim <? div)
         else Ok false) in
      do! throw_if over overflow_error then
      let! acc' := (div * dur_nanos step)%i64 in
      sync_period_loop acc' rest
  end.

Definition compute_sync_period (time_steps : list Duration) : result Duration :=
  do! throw_if (match time_steps with [] => true | _ => false end) invalid_argument then
  sync_period_loop 1 time_steps.

(** ** Specification *)

Definition all_positive (l : list Duration) : bool := forallb (fun d => 0 <? dur_nanos d) l.
Definition gcd_of (l : list Duration) : Z := fold_left (fun a d => Z.gcd a (dur_nanos d)) l 0.
Definition lcm_of (l : list Duration) : Z := fold_left (fun a d => Z.lcm a (dur_nanos d)) l 1.

Lemma all_positive_cons d l : all_positive (d :: l) = true <-> 0 < dur_nanos d /\ all_positive l = true.
Proof. unfold all_positive; cbn. now rewrite andb_true_iff, Z.ltb_lt. Qed.

Lemma heartbeat_loop_spec l : forall acc,
  heartbeat_loop acc l =
    if all_positive l then Ok (mkDuration (fold_left (fun a d => Z.gcd a (dur_nanos d)) l acc))
    else Throw invalid_argument.
Proof.
  induction l as [|d l IH]; intros acc; [reflexivity|].
  cbn [heartbeat_loop fold_left all_positive forallb]. unfold throw_if.
  destruct (Z.leb_spec (dur_nanos d) 0), (Z.ltb_spec 0 (dur_nanos d)); try lia; [reflexivity|].
  cbn [bind andb]. apply IH.
Qed.

Lemma fold_gcd_divide l : forall acc k,
  (k | fold_left (fun a d => Z.gcd a (dur_nanos d)) l acc) <->
  (k | acc) /\ Forall (fun d => (k | dur_nanos d)) l.
Proof.
  induction l as [|d l IH]; intros acc k; cbn [fold_left].
  - split; [intros; split; auto | tauto].
  - rewrite IH, Forall_cons_iff. split.
    + intros [H ?]. split; [|split]; try assumption.
      * now apply (Z.divide_trans _ _ _ H), Z.gcd_divide_l.
      * now apply (Z.divide_trans _ _ _ H), Z.gcd_divide_r.
    + intros (? & ? & ?). split; [now apply Z.gcd_greatest | assumption].
Qed.

Lemma fold_lcm_divide l : forall acc k,
  (fold_left (fun a d => Z.lcm a (dur_nanos d)) l acc | k) <->
  (acc | k) /\ Forall (fun d => (dur_nanos d | k)) l.
Proof.
  induction l as [|d l IH]; intros acc k; cbn [fold_left].
  - split; [intros; split; auto | tauto].
  - rewrite IH, Forall_cons_iff. split.
    + intros [H ?]. split; [|split]; try assumption; eapply Z.divide_trans; try exact H.
      * apply Z.divide_lcm_l.
      * apply Z.divide_lcm_r.
    + intros (? & ? & ?). split; [now apply Z.lcm_least | assumption].
Qed.

Lemma lcm_pos a b : 0 < a -> 0 < b -> 0 < Z.lcm a b.
Proof.
  intros. pose proof (Z.lcm_nonneg a b). assert (Z.lcm a b <> 0); [|lia].
  rewrite Z.lcm_eq_0. lia.
Qed.

Lemma fold_lcm_pos l : forall acc, 0 < acc -> all_positive l = true ->
  0 < fold_left (fun a d => Z.lcm a (dur_nanos d)) l acc.
Proof.
  induction l as [|d l IH]; intros acc Hacc Hl; cbn [fold_left]; [assumption|].
  apply all_positive_cons in Hl as [Hd Hl]. apply IH; [now apply lcm_pos | assumption].
Qed.

(** Folding more steps in never makes the least common multiple smaller. *)
Lemma fold_lcm_mono l acc : 0 < acc -> all_positive l = true ->
  acc <= fold_left (fun a d => Z.lcm a (dur_nanos d)) l acc.
Proof.
  intros Hacc Hl. apply Z.divide_pos_le; [now apply fold_lcm_pos|].
  now apply (fold_lcm_divide l acc).
Qed.

Lemma lcm_code a b : 0 < a -> 0 < b -> Z.quot a (Z.gcd a b) * b = Z.lcm a b.
Proof.
  intros Ha Hb. pose proof (Z.gcd_nonneg a b).
  assert (Z.gcd a b <> 0) by (rewrite Z.gcd_eq_0; lia).
  rewrite Z.quot_div_nonneg by lia. unfold Z.lcm.
  destruct (Z.gcd_divide_l a b) as [j Hj]. destruct (Z.gcd_divide_r a b) as [k Hk].
  set (g := Z.gcd a b) in *. clearbody g.
  replace (a / g) with j by (apply Z.div_unique_exact; lia).
  replace (b / g) with k by (apply Z.div_unique_exact; lia). nia.
Qed.

Lemma sync_loop_step acc d rest : 0 < acc <= imax I64 -> 0 < dur_nanos d <= imax I64 ->
  sync_period_loop acc (d :: rest) =
    if Z.lcm acc (dur_nanos d) <=? imax I64
    then sync_period_loop (Z.lcm acc (dur_nanos d)) rest else Throw overflow_error.
Proof.
  intros Ha Hd. cbn [sync_period_loop]. set (s := dur_nanos d) in *.
  pose proof (lcm_code acc s) as El. pose proof (Z.gcd_nonneg acc s).
  assert (Z.gcd acc s <> 0) by (rewrite Z.gcd_eq_0; lia).
  rewrite (proj2 (Z.leb_gt s 0)), (proj2 (Z.eqb_neq s 0)) by lia.
  rewrite throw_if_false, bind_Ok_l. cbn [negb].
  rewrite cdiv_pos, bind_cval, cdiv_pos, bind_cval by (cbn [imin imax] in *; lia).
  set (q := Z.quot acc (Z.gcd acc s)) in *.
  assert (Hq : 0 <= q) by (apply Z.quot_pos; lia). rewrite <- El by lia. clear El.
  unfold throw_if. rewrite bind_Ok_l, quot_nonneg_div by lia.
  assert (E : (imax I64 / s <? q) = negb (q * s <=? imax I64)).
  { rewrite Z.ltb_antisym. f_equal. apply eq_true_iff_eq. rewrite !Z.leb_le.
    split; intros; [|now apply Z.div_le_lower_bound; lia].
    pose proof (Z.mul_div_le (imax I64) s). nia. }
  rewrite E. destruct (Z.leb_spec (q * s) (imax I64)); cbn [negb bind]; [|reflexivity].
  rewrite cmul_ok by (cbn [imin imax] in *; nia). reflexivity.
Qed.

Lemma sync_loop_spec l : Forall (fun d => dur_nanos d <= imax I64) l ->
  forall acc, 0 < acc <= imax I64 -> all_positive l = true ->
  let m := fold_left (fun a d => Z.lcm a (dur_nanos d)) l acc in
  sync_period_loop acc l = if m <=? imax I64 then Ok (mkDuration m) else Throw overflow_error.
Proof.
  induction 1 as [|d l Hd _ IH]; intros acc Hacc Hl m.
  - subst m. cbn. now rewrite (proj2 (Z.leb_le acc _)) by apply Hacc.
  - apply all_positive_cons in Hl as [Hpos Hl]. subst m. cbn [fold_left].
    rewrite sync_loop_step by lia. pose proof (lcm_pos acc (dur_nanos d)).
    destruct (Z.leb_spec (Z.lcm acc (dur_nanos d)) (imax I64)).
    + apply IH; [lia | assumption].
    + pose proof (fold_lcm_mono l (Z.lcm acc (dur_nanos d)) ltac:(lia) Hl).
      now rewrite (proj2 (Z.leb_gt _ _)) by lia.
Qed.

Lemma fold_gcd_nonneg l : forall acc, 0 <= acc ->
  0 <= fold_left (fun a d => Z.gcd a (dur_nanos d)) l acc.
Proof. induction l as [|d l IH]; intros acc Ha; cbn; [assumption | apply IH, Z.gcd_nonneg]. Qed.

Lemma gcd_of_pos d l : 0 < dur_nanos d -> 0 < gcd_of (d :: l).
Proof.
  intros Hd. pose proof (fold_gcd_nonneg (d :: l) 0 ltac:(lia)) as H0.
  assert (Hg : (gcd_of (d :: l) | dur_nanos d)).
  { destruct (proj1 (fold_gcd_divide (d :: l) 0 _) (Z.divide_refl _)) as [_ HF].
    exact (Forall_inv HF). }
  fold (gcd_of (d :: l)) in H0. destruct Hg as [k Hk].
  assert (gcd_of (d :: l) <> 0) by (intros E; rewrite E in Hk; lia). lia.
Qed.

(** The heartbeat of a non-empty list of positive steps is their greatest
    common divisor: exactly the numbers that divide every step divide it.  An empty
    list and a step that is not positive raise [std::invalid_argument]. *)
Theorem heartbeat_is_gcd l :
  if negb (Nat.eqb (length l) 0) && all_positive l
  then exists g, compute_heartbeat l = Ok (mkDuration g) /\ 0 < g /\
         forall k, (k | g) <-> Forall (fun d => (k | dur_nanos d)) l
  else compute_heartbeat l = Throw invalid_argument.
Proof.
  destruct l as [|d l]; [reflexivity|]. cbn [length Nat.eqb negb andb].
  unfold compute_heartbeat. rewrite throw_if_false, bind_Ok_l, heartbeat_loop_spec.
  destruct (all_positive (d :: l)) eqn:Hpos; [|reflexivity].
  exists (gcd_of (d :: l)). split; [reflexivity|].
  apply all_positive_cons in Hpos as [Hd _]. split; [now apply gcd_of_pos|].
  intros k. unfold gcd_of. rewrite fold_gcd_divide. intuition auto using Z.divide_0_r.
Qed.

(** The synchronisation period of a non-empty list of positive steps is their
    least common multiple when that is an [int64], and [std::overflow_error]
    exactly when it is not: no intermediate product overflows before the result
    does. *)
Theorem sync_period_is_lcm l : l <> [] -> all_positive l = true ->
  Forall (fun d => dur_nanos d <= imax I64) l ->
  exists m, 0 < m /\ (forall k, (m | k) <-> Forall (fun d => (dur_nanos d | k)) l) /\
    compute_sync_period l = if m <=? imax I64 then Ok (mkDuration m) else Throw overflow_error.
Proof.
  intros Hne Hpos Hmax. exists (lcm_of l). split; [|split].
  - now apply fold_lcm_pos.
  - intros k. unfold lcm_of. rewrite fold_lcm_divide. intuition auto using Z.divide_1_l.
  - destruct l as [|d l]; [congruence|]. unfold compute_sync_period.
    rewrite throw_if_false, bind_Ok_l. now apply sync_loop_spec.
Qed.

Example sync_period_is_lcm_witness :
  exists m, 0 < m /\
    (forall k, (m | k) <-> Forall (fun d => (dur_nanos d | k)) [mkDuration 4; mkDuration 6]) /\
    compute_sync_period [mkDuration 4; mkDuration 6] =
      if m <=? imax I64 then Ok (mkDuration m) else Throw overflow_error.
Proof.
  apply sync_period_is_lcm; [discriminate | reflexivity |].
  repeat constructor; cbn; discriminate.
Defined.
