(* ===== verification/Aliasing.v ===== *)
(** * TICK: temporal aliasing of a dataset ([tick/aliasing_engine.hpp],
    [tick/aliased_window.hpp], [tick/out_of_bounds_policy.hpp])

    The engine maps a simulation time to the two dataset snapshots that enclose
    it.  The template is instantiated at any two of the library's calendars; the
    interpolation weight is a binary64 number ([SpecFloat]). *)
From Stdlib Require Import ZArith Lia Bool List SpecFloat.
From S2P Require Import Prelude CInt Overflow TimeCore Calendar Calendars TimeWindow.
From S2P Require Gregorian NoLeap Cal360.
Import ListNotations.
Local Open Scope Z_scope.

(** [std::is_same_v<Sim_Cal, Gregorian_Calendar> && std::is_same_v<Ds_Cal, NoLeap_Calendar>] *)
Definition greg_to_noleap (sim ds : Cal) : bool :=
  match sim, ds with Gregorian_Calendar, NoLeap_Calendar => true | _, _ => false end.

(** ** Data *)

Inductive OutOfBoundsPolicy : Type := clamp_to_edge | cycle_last_year | pure_climatology | leap_hold.

Definition policy_eqb (a b : OutOfBoundsPolicy) : bool :=
  match a, b with
  | clamp_to_edge, clamp_to_edge | cycle_last_year, cycle_last_year
  | pure_climatology, pure_climatology | leap_hold, leap_hold => true
  | _, _ => false
  end.

Record AliasedWindow : Type := mkAliasedWindow { window : Time_Window; alpha : spec_float }.

(** [AliasedWindow::zero] *)
Definition aliased_zero : AliasedWindow :=
  mkAliasedWindow (mkTime_Window (mkTime_Point 0) (mkTime_Point 1)) (S754_zero false).

Record Aliasing_Engine : Type := mkAliasing_Engine {
  coverage : Time_Window; snapshot_interval : Duration;
  policy : OutOfBoundsPolicy; climatological_year : Z
}.

(** ** The code *)

(** [static_cast<double>] of an [std::int64_t]: round to nearest, ties to even. *)
Definition to_double (z : Z) : spec_float := binary_normalize 53 1024 z 0 false.

Definition zero_double : spec_float := S754_zero false.

Definition calculate_weight (current : Time_Point) (w : Time_Window) : result spec_float :=
  let! d := window_duration w in
  do! throw_if (dur_nanos d =? 0) invalid_argument then
  do! throw_if (tp_ltb current (w_start w) || tp_leb (w_end w) current) out_of_range then
  let! numerator := (tp_nanos current - tp_nanos (w_start w))%i64 in
  let! denominator := (tp_nanos (w_end w) - tp_nanos (w_start w))%i64 in
  Ok (SFdiv 53 1024 (to_double numerator) (to_double denominator)).

Definition enclosing_window (t coverage_start : Time_Point) (interval : Duration) : result Time_Window :=
  let! offset_nanos := (tp_nanos t - tp_nanos coverage_start)%i64 in
  let iv := dur_nanos interval in
  let! floor_offset := ((offset_nanos / iv) * iv)%i64 in
  let! fs := (tp_nanos coverage_start + floor_offset)%i64 in
  let floor_start := mkTime_Point fs in
  let! fin := tp_add floor_start interval in
  time_window floor_start fin.

Definition is_feb29 (dt : Date_Time) : bool := (month dt =? 2) && (day dt =? 29).

Definition midnight (y m d : Z) : Date_Time := mkDate_Time y m d 0 0 0 0.

Section Engine.
  Variables Sim_Cal Ds_Cal : Cal.

Definition aliasing_engine (cov : Time_Window) (iv : Duration) (p : OutOfBoundsPolicy) (cy : Z)
    : result Aliasing_Engine :=
  do! throw_if (dur_nanos iv <=? 0) invalid_argument then
  let! d := window_duration cov in
  let! r := (dur_nanos d rem dur_nanos iv)%i64 in
  do! throw_if (negb (r =? 0)) invalid_argument then
  do! (if policy_eqb p pure_climatology then
         let! start_dt := @to_date_time (cal_impl Ds_Cal) (w_start cov) in
         let! last := tp_sub (w_end cov) (mkDuration 1) in
         let! end_dt := @to_date_time (cal_impl Ds_Cal) last in
         throw_if ((cy <? year start_dt) || (year end_dt <? cy)) invalid_argument
       else Ok tt) then
  Ok (mkAliasing_Engine cov iv p cy).

Definition resolve_in_bounds (e : Aliasing_Engine) (sim_time : Time_Point) : result AliasedWindow :=
  let! w := enclosing_window sim_time (w_start (coverage e)) (snapshot_interval e) in
  let! a := calculate_weight sim_time w in
  Ok (mkAliasedWindow w a).

Definition resolve_clamp (e : Aliasing_Engine) (sim_time : Time_Point) : result AliasedWindow :=
  if tp_leb (w_end (coverage e)) sim_time then
    let! t_left := tp_sub (w_end (coverage e)) (snapshot_interval e) in
    let! w := time_window t_left (w_end (coverage e)) in
    Ok (mkAliasedWindow w zero_double)
  else if tp_ltb sim_time (w_start (coverage e)) then
    let! t_right := tp_add (w_start (coverage e)) (snapshot_interval e) in
    let! w := time_window (w_start (coverage e)) t_right in
    Ok (mkAliasedWindow w zero_double)
  else resolve_in_bounds e sim_time.

(** Substitute the year and clamp the day to the month of the dataset calendar. *)
Definition substitute_year (dt : Date_Time) (y : Z) : result Time_Point :=
  let! max_day := @days_in_month (cal_impl Ds_Cal) y (month dt) in
  let d := if max_day <? day dt then max_day else day dt in
  @to_time_point (cal_impl Ds_Cal)
    (mkDate_Time y (month dt) d (hour dt) (minute dt) (second dt) (nanosecond dt)).

Definition resolve_cycle (e : Aliasing_Engine) (sim_time : Time_Point) : result AliasedWindow :=
  let! dt := @to_date_time (cal_impl Sim_Cal) sim_time in
  let! target :=
    (if tp_leb (w_end (coverage e)) sim_time then
       let! last := tp_sub (w_end (coverage e)) (mkDuration 1) in
       @to_date_time (cal_impl Ds_Cal) last
     else @to_date_time (cal_impl Ds_Cal) (w_start (coverage e))) in
  let! remapped_tp := substitute_year dt (year target) in
  resolve_in_bounds e remapped_tp.

Definition resolve_climatology (e : Aliasing_Engine) (sim_time : Time_Point) : result AliasedWindow :=
  let cy := climatological_year e in
  let! dt := @to_date_time (cal_impl Sim_Cal) sim_time in
  let! remapped_tp := substitute_year dt cy in
  let! clim_year_start := @to_time_point (cal_impl Ds_Cal) (midnight cy 1 1) in
  let! w0 := enclosing_window remapped_tp clim_year_start (snapshot_interval e) in
  let! window_end_dt := @to_date_time (cal_impl Ds_Cal) (w_end w0) in
  let! w :=
    (if cy <? year window_end_dt then
       let! next := (cy + 1)%i32 in
       let! t_right := @to_time_point (cal_impl Ds_Cal) (midnight next 1 1) in
       let! t_left := tp_sub t_right (snapshot_interval e) in
       time_window t_left t_right
     else Ok w0) in
  let! a := calculate_weight remapped_tp w in
  Ok (mkAliasedWindow w a).

(** The frozen window of a February 29th that the dataset calendar lacks. *)
Definition feb29_window (dt : Date_Time) : result AliasedWindow :=
  let! t_left := @to_time_point (cal_impl Ds_Cal) (midnight (year dt) 2 28) in
  let! t_right := @to_time_point (cal_impl Ds_Cal) (midnight (year dt) 3 1) in
  let! w := time_window t_left t_right in
  Ok (mkAliasedWindow w zero_double).

Definition out_of_coverage (e : Aliasing_Engine) (t : Time_Point) : bool :=
  tp_leb (w_end (coverage e)) t || tp_ltb t (w_start (coverage e)).

Definition resolve_leap_hold (e : Aliasing_Engine) (sim_time : Time_Point) : result AliasedWindow :=
  let! dt := @to_date_time (cal_impl Sim_Cal) sim_time in
  if greg_to_noleap Sim_Cal Ds_Cal && is_feb29 dt then feb29_window dt
  else if out_of_coverage e sim_time then resolve_clamp e sim_time
  else resolve_in_bounds e sim_time.

(** The part of [resolve] after the two checks that precede the bounds test. *)
Definition resolve_by_bounds (e : Aliasing_Engine) (sim_time : Time_Point) : result AliasedWindow :=
  if tp_leb (w_start (coverage e)) sim_time && tp_ltb sim_time (w_end (coverage e))
  then resolve_in_bounds e sim_time
  else match policy e with
       | clamp_to_edge => resolve_clamp e sim_time
       | cycle_last_year => resolve_cycle e sim_time
       | leap_hold => resolve_leap_hold e sim_time
       | pure_climatology => resolve_clamp e sim_time
       end.

Definition resolve (e : Aliasing_Engine) (sim_time : Time_Point) : result AliasedWindow :=
  if policy_eqb (policy e) pure_climatology then resolve_climatology e sim_time
  else if policy_eqb (policy e) leap_hold && greg_to_noleap Sim_Cal Ds_Cal then
    let! dt := @to_date_time (cal_impl Sim_Cal) sim_time in
    if is_feb29 dt then feb29_window dt else resolve_by_bounds e sim_time
  else resolve_by_bounds e sim_time.
End Engine.

(** ** Well-formed engines *)

Record wf_engine (e : Aliasing_Engine) : Prop := {
  wf_lo : imin I64 <= tp_nanos (w_start (coverage e));
  wf_hi : tp_nanos (w_end (coverage e)) <= imax I64;
  wf_lt : tp_nanos (w_start (coverage e)) < tp_nanos (w_end (coverage e));
  wf_len : tp_nanos (w_end (coverage e)) - tp_nanos (w_start (coverage e)) <= imax I64;
  wf_iv : 0 < dur_nanos (snapshot_interval e);
  wf_div : (dur_nanos (snapshot_interval e) |
            tp_nanos (w_end (coverage e)) - tp_nanos (w_start (coverage e)))
}.

(** A window that the constructor of [Time_Window] returned. *)
Definition wf_window (w : Time_Window) : Prop :=
  imin I64 <= tp_nanos (w_start w) /\ tp_nanos (w_end w) <= imax I64 /\
  tp_nanos (w_start w) < tp_nanos (w_end w).

Lemma aliasing_engine_wf ds cov iv p cy e : wf_window cov -> dur_ok iv = true ->
  aliasing_engine ds cov iv p cy = Ok e ->
  wf_engine e /\ e = mkAliasing_Engine cov iv p cy.
Proof.
  intros (Hlo & Hhi & Hlt) Hiv H. unfold aliasing_engine in H.
  unfold dur_ok in Hiv. apply in_range_iff in Hiv.
  unfold throw_if, window_duration in H.
  destruct (Z.leb_spec (dur_nanos iv) 0) as [|Hpos]; [discriminate|]. cbn [bind] in H.
  destruct (Z.le_gt_cases (tp_nanos (w_end cov) - tp_nanos (w_start cov)) (imax I64)) as [Hd|Hd].
  2:{ unfold csub, cval in H. cbn [bind] in H. rewrite arith_undef in H by auto. discriminate. }
  rewrite csub_ok, bind_cval in H by (cbn in *; lia). cbn [bind dur_nanos] in H.
  rewrite crem_pos, bind_cval in H by (cbn in *; lia).
  destruct (Z.eqb_spec (Z.rem (tp_nanos (w_end cov) - tp_nanos (w_start cov)) (dur_nanos iv)) 0)
    as [Hr|]; [|discriminate]. cbn [negb bind] in H.
  apply bind_Ok_inv in H as (u & _ & [= <-]). split; [|reflexivity].
  split; cbn [coverage snapshot_interval]; try assumption.
  now apply Z.rem_divide; [lia|].
Qed.

(** ** Windows and weights *)

(** The weight of an offset within an interval, as the code rounds it. *)
Definition weight (num den : Z) : spec_float := SFdiv 53 1024 (to_double num) (to_double den).

Lemma calculate_weight_at t s iv : 0 < iv <= imax I64 -> s <= t < s + iv ->
  calculate_weight (mkTime_Point t) (window_at s iv) = Ok (weight (t - s) iv).
Proof.
  intros Hiv Ht. unfold calculate_weight, window_duration, tp_ltb, tp_leb.
  cbn [window_at w_start w_end tp_nanos].
  rewrite csub_ok, bind_cval by (cbn in *; lia). cbn [bind dur_nanos].
  rewrite (proj2 (Z.eqb_neq (s + iv - s) 0)), throw_if_false, bind_Ok_l by lia.
  rewrite (proj2 (Z.ltb_ge t s)), (proj2 (Z.leb_gt (s + iv) t)) by lia. cbn [orb].
  rewrite throw_if_false, bind_Ok_l, csub_ok, bind_cval by (cbn in *; lia).
  replace (s + iv - s) with iv by lia. reflexivity.
Qed.

(** The start of the snapshot interval that contains [t], counting from [s0]. *)
Definition snapshot_start (s0 iv t : Z) : Z := s0 + iv * ((t - s0) / iv).

Lemma snapshot_start_bounds s0 iv t : 0 < iv -> s0 <= t ->
  s0 <= snapshot_start s0 iv t <= t /\ t < snapshot_start s0 iv t + iv.
Proof.
  intros Hiv Ht. unfold snapshot_start. pose proof (floor_le (t - s0) iv Hiv).
  assert (0 <= (t - s0) / iv) by (apply Z.div_pos; lia). nia.
Qed.

Lemma enclosing_window_spec s0 iv t : 0 < iv <= imax I64 -> imin I64 <= s0 ->
  s0 <= t <= imax I64 -> t - s0 <= imax I64 -> snapshot_start s0 iv t + iv <= imax I64 ->
  enclosing_window (mkTime_Point t) (mkTime_Point s0) (mkDuration iv) =
    Ok (window_at (snapshot_start s0 iv t) iv).
Proof.
  intros Hiv Hs0 Ht Hd Hs. unfold enclosing_window. cbn [tp_nanos dur_nanos].
  pose proof (snapshot_start_bounds s0 iv t ltac:(lia) ltac:(lia)) as Hb.
  unfold snapshot_start in *.
  assert (0 <= (t - s0) / iv) by (apply Z.div_pos; lia).
  rewrite csub_ok, bind_cval, cdiv_pos, quot_nonneg_div by (cbn [imin imax] in *; lia).
  set (q := (t - s0) / iv) in *. clearbody q. rewrite (Z.mul_comm iv q) in *.
  set (f := q * iv) in *.
  rewrite cmul_ok, bind_cval by (cbn [imin imax] in *; fold f; lia). fold f. clearbody f.
  rewrite cadd_ok, bind_cval by (cbn [imin imax] in *; lia).
  rewrite tp_add_spec by (unfold tp_ok, dur_ok; rewrite in_range_iff; cbn [tp_nanos dur_nanos imin imax] in *; lia).
  unfold in_range. cbn [tp_nanos dur_nanos].
  rewrite (proj2 (Z.leb_le (imin I64) _)), (proj2 (Z.leb_le _ (imax I64))) by (cbn [imin imax] in *; lia).
  cbn [andb bind]. now apply time_window_at.
Qed.

(** The answer for a time inside the coverage. *)
Definition in_bounds_answer (e : Aliasing_Engine) (t : Z) : AliasedWindow :=
  let iv := dur_nanos (snapshot_interval e) in
  let s := snapshot_start (tp_nanos (w_start (coverage e))) iv t in
  mkAliasedWindow (window_at s iv) (weight (t - s) iv).

(** A window lies in the coverage, is one interval long and is aligned with its
    snapshots. *)
Definition snapshot_window (e : Aliasing_Engine) (w : Time_Window) : Prop :=
  tp_nanos (w_start (coverage e)) <= tp_nanos (w_start w) /\
  tp_nanos (w_end w) <= tp_nanos (w_end (coverage e)) /\
  tp_nanos (w_end w) = tp_nanos (w_start w) + dur_nanos (snapshot_interval e) /\
  (dur_nanos (snapshot_interval e) | tp_nanos (w_start w) - tp_nanos (w_start (coverage e))).

Definition in_coverage (e : Aliasing_Engine) (t : Z) : bool :=
  contains (coverage e) (mkTime_Point t).

Lemma in_coverage_iff e t : in_coverage e t = true <->
  tp_nanos (w_start (coverage e)) <= t < tp_nanos (w_end (coverage e)).
Proof. unfold in_coverage. now rewrite contains_iff. Qed.

Lemma snapshot_end_le e t : wf_engine e -> in_coverage e t = true ->
  snapshot_start (tp_nanos (w_start (coverage e))) (dur_nanos (snapshot_interval e)) t +
    dur_nanos (snapshot_interval e) <= tp_nanos (w_end (coverage e)).
Proof.
  intros [_ _ _ _ Hiv [k Hk]] Ht. apply in_coverage_iff in Ht. unfold snapshot_start.
  set (s0 := tp_nanos (w_start (coverage e))) in *. set (s1 := tp_nanos (w_end (coverage e))) in *.
  set (iv := dur_nanos (snapshot_interval e)) in *.
  assert ((t - s0) / iv < k) by (apply Z.div_lt_upper_bound; lia). nia.
Qed.

Lemma in_bounds_window e t : wf_engine e -> in_coverage e t = true ->
  snapshot_window e (window (in_bounds_answer e t)) /\
  contains (window (in_bounds_answer e t)) (mkTime_Point t) = true.
Proof.
  intros Hwf Ht. pose proof (snapshot_end_le e t Hwf Ht). apply in_coverage_iff in Ht.
  pose proof (snapshot_start_bounds (tp_nanos (w_start (coverage e)))
    (dur_nanos (snapshot_interval e)) t (wf_iv e Hwf) (proj1 Ht)).
  unfold snapshot_window. rewrite contains_iff.
  cbn [in_bounds_answer window window_at w_start w_end tp_nanos].
  repeat split; try lia. unfold snapshot_start. eexists. rewrite Z.mul_comm.
  rewrite Z.add_simpl_l. reflexivity.
Qed.

Lemma resolve_in_bounds_spec e t : wf_engine e -> in_coverage e t = true ->
  resolve_in_bounds e (mkTime_Point t) = Ok (in_bounds_answer e t).
Proof.
  intros Hwf Ht. pose proof (snapshot_end_le e t Hwf Ht). apply in_coverage_iff in Ht.
  destruct e as [[[s0] [s1]] [iv] p cy], Hwf as [Hlo Hhi Hlt Hlen Hiv [k Hk]].
  unfold resolve_in_bounds, in_bounds_answer in *.
  cbn [coverage snapshot_interval w_start w_end tp_nanos dur_nanos] in *.
  assert (iv <= s1 - s0) by (apply Z.divide_pos_le; [lia | now exists k]).
  pose proof (snapshot_start_bounds s0 iv t ltac:(lia) ltac:(lia)).
  rewrite enclosing_window_spec, bind_Ok_l by lia.
  rewrite calculate_weight_at, bind_Ok_l by lia. reflexivity.
Qed.

(** ** Clamping *)

(** The first and the last snapshot interval of the coverage. *)
Definition first_window (e : Aliasing_Engine) : Time_Window :=
  window_at (tp_nanos (w_start (coverage e))) (dur_nanos (snapshot_interval e)).
Definition last_window (e : Aliasing_Engine) : Time_Window :=
  window_at (tp_nanos (w_end (coverage e)) - dur_nanos (snapshot_interval e))
            (dur_nanos (snapshot_interval e)).

Definition clamp_answer (e : Aliasing_Engine) (t : Z) : AliasedWindow :=
  if in_coverage e t then in_bounds_answer e t
  else if t <? tp_nanos (w_start (coverage e)) then mkAliasedWindow (first_window e) zero_double
  else mkAliasedWindow (last_window e) zero_double.

Lemma wf_iv_le e : wf_engine e ->
  dur_nanos (snapshot_interval e) <= tp_nanos (w_end (coverage e)) - tp_nanos (w_start (coverage e)).
Proof. intros []. apply Z.divide_pos_le; [lia | assumption]. Qed.

Lemma in_coverage_case e t : in_coverage e t = false ->
  t < tp_nanos (w_start (coverage e)) \/ tp_nanos (w_end (coverage e)) <= t.
Proof.
  unfold in_coverage, contains, tp_leb, tp_ltb. cbn [tp_nanos].
  rewrite andb_false_iff, Z.leb_gt, Z.ltb_ge. tauto.
Qed.

Lemma resolve_clamp_spec e t : wf_engine e ->
  resolve_clamp e (mkTime_Point t) = Ok (clamp_answer e t).
Proof.
  intros Hwf. pose proof (wf_iv_le e Hwf) as Hle. unfold clamp_answer, resolve_clamp.
  destruct (in_coverage e t) eqn:Hin.
  - pose proof Hin as Hin'. apply in_coverage_iff in Hin'. unfold tp_leb, tp_ltb. cbn [tp_nanos].
    rewrite (proj2 (Z.leb_gt _ t)), (proj2 (Z.ltb_ge t _)) by lia.
    now apply resolve_in_bounds_spec.
  - apply in_coverage_case in Hin. unfold first_window, last_window.
    destruct e as [[[s0] [s1]] [iv] p cy], Hwf as [Hlo Hhi Hlt Hlen Hiv Hdiv].
    unfold tp_leb, tp_ltb in *.
    cbn [coverage snapshot_interval w_start w_end tp_nanos dur_nanos] in *.
    destruct (Z.ltb_spec t s0).
    + rewrite (proj2 (Z.leb_gt s1 t)) by lia.
      rewrite tp_add_spec by (unfold tp_ok, dur_ok; rewrite in_range_iff; cbn [tp_nanos dur_nanos imin imax] in *; lia).
      unfold in_range. cbn [tp_nanos dur_nanos].
      rewrite (proj2 (Z.leb_le (imin I64) _)), (proj2 (Z.leb_le _ (imax I64))) by lia.
      cbn [andb bind]. now rewrite time_window_at.
    + rewrite (proj2 (Z.leb_le s1 t)) by lia.
      rewrite tp_sub_spec by (unfold tp_ok, dur_ok; rewrite in_range_iff; cbn [tp_nanos dur_nanos imin imax] in *; lia).
      unfold in_range. cbn [tp_nanos dur_nanos].
      rewrite (proj2 (Z.leb_le (imin I64) _)), (proj2 (Z.leb_le _ (imax I64))) by lia.
      cbn [andb bind]. replace s1 with (s1 - iv + iv) at 2 by lia.
      now rewrite time_window_at.
Qed.

Lemma clamp_answer_window e t : wf_engine e ->
  snapshot_window e (window (clamp_answer e t)) /\
  (in_coverage e t = true -> contains (window (clamp_answer e t)) (mkTime_Point t) = true).
Proof.
  intros Hwf. pose proof (wf_iv_le e Hwf) as Hle. pose proof Hwf as [_ _ _ _ Hiv Hdiv].
  unfold clamp_answer. destruct (in_coverage e t) eqn:Hin.
  - destruct (in_bounds_window e t Hwf Hin). now split.
  - split; [|discriminate]. destruct (t <? _); unfold snapshot_window;
      cbn [window first_window last_window window_at w_start w_end tp_nanos].
    + repeat split; try lia. rewrite Z.sub_diag. apply Z.divide_0_r.
    + repeat split; try lia. destruct Hdiv as [k Hk]. exists (k - 1). lia.
Qed.

(** ** Substituting the year *)

Definition remapped (ds : Cal) (dt : Date_Time) (y : Z) : Date_Time :=
  mkDate_Time y (month dt) (Z.min (day dt) (@month_len (cal_spec ds) y (month dt)))
    (hour dt) (minute dt) (second dt) (nanosecond dt).

Lemma remapped_valid sim ds dt y : @valid_dt (cal_spec sim) dt = true ->
  @valid_dt (cal_spec ds) (remapped ds dt y) = true.
Proof.
  unfold valid_dt, remapped. cbn [year month day hour minute second nanosecond].
  rewrite !andb_true_iff, !valid_date_iff. intros [[Hm Hd] Ht].
  pose proof (@month_len_bounds (cal_spec ds) (cal_laws ds) y (month dt) Hm).
  split; [lia | assumption].
Qed.

Lemma remapped_ok sim ds dt y : @valid_dt (cal_spec sim) dt = true -> dt_ok dt = true ->
  in_i32 y = true -> dt_ok (remapped ds dt y) = true.
Proof.
  intros Hv Hok Hy. pose proof (remapped_valid sim ds dt y Hv) as Hr.
  unfold valid_dt in Hr. apply andb_true_iff in Hr as [Hr _]. apply valid_date_iff in Hr as [Hm Hd].
  pose proof (@month_len_bounds (cal_spec ds) (cal_laws ds) y _ Hm).
  rewrite dt_ok_iff in *. repeat split; try apply Hok; [exact Hy|].
  rewrite in_range_iff. cbn [imin imax]. cbn [remapped day month] in *. lia.
Qed.

Definition year_first (ds : Cal) (y : Z) : Z := @year_start (cal_spec ds) y * nanos_per_day.

Lemma instant_in_year c dt : @valid_dt (cal_spec c) dt = true ->
  year_first c (year dt) <= @instant (cal_spec c) dt < year_first c (year dt + 1).
Proof.
  intros Hv. pose proof (@dt_tod_bounds (cal_spec c) dt Hv) as Ht.
  unfold valid_dt in Hv. apply andb_true_iff in Hv as [Hd _].
  pose proof (@day_number_in_year _ (cal_laws c) _ _ _ Hd) as Hy.
  unfold instant, dt_day, year_first in *. unfold nanos_per_day in *. lia.
Qed.

(** An instant within a year is decoded to a date of that year. *)
Lemma year_unique c dt y : @valid_dt (cal_spec c) dt = true ->
  year_first c y <= @instant (cal_spec c) dt < year_first c (y + 1) -> year dt = y.
Proof.
  intros Hv Hi. pose proof (instant_in_year c dt Hv) as Hy. unfold year_first, nanos_per_day in *.
  destruct (Z.lt_trichotomy (year dt) y) as [Hlt|[E|Hgt]]; [|exact E|].
  - pose proof (@year_start_mono _ (cal_laws c) _ _ Hlt). lia.
  - pose proof (@year_start_mono _ (cal_laws c) _ _ Hgt). lia.
Qed.

(** The years in which every calendar's instants are far from the limits. *)
Definition near_year (y : Z) : Prop := 1800 <= y <= 2200.

Lemma year_first_bounds c y : near_year y \/ near_year (y - 1) ->
  -7300000000000000000 <= year_first c y <= 7300000000000000000.
Proof.
  unfold near_year, year_first, nanos_per_day. intros Hy.
  assert (-84000 <= @year_start (cal_spec c) y <= 84000); [|lia].
  destruct c; cbn [cal_spec year_start Gregorian.Gregorian_spec NoLeap.NoLeap_spec Cal360.Cal360_spec]; lia.
Qed.

Lemma to_time_point_near c dt : @valid_dt (cal_spec c) dt = true -> dt_ok dt = true ->
  near_year (year dt) ->
  @to_time_point (cal_impl c) dt = Ok (mkTime_Point (@instant (cal_spec c) dt)).
Proof.
  intros Hv Hok Hy. pose proof (instant_in_year c dt Hv).
  pose proof (year_first_bounds c (year dt) (or_introl Hy)).
  pose proof (year_first_bounds c (year dt + 1)) as Hb.
  replace (year dt + 1 - 1) with (year dt) in Hb by lia. specialize (Hb (or_intror Hy)).
  apply (@cal_encode_decode _ _ (cal_refines c) (cal_laws c)); try assumption.
  unfold cal_min. cbn [imax]. lia.
Qed.

Lemma substitute_year_spec sim ds dt y : @valid_dt (cal_spec sim) dt = true -> dt_ok dt = true ->
  near_year y ->
  substitute_year ds dt y = Ok (mkTime_Point (@instant (cal_spec ds) (remapped ds dt y))).
Proof.
  intros Hv Hok Hy. unfold substitute_year.
  pose proof (@valid_month (cal_spec sim) dt Hv) as Hm.
  assert (Hy32 : in_i32 y = true) by (apply in_range_iff; unfold near_year in Hy; cbn; lia).
  rewrite (@days_in_month_refines _ _ (cal_refines ds)).
  2:{ assumption. }
  2:{ apply in_range_iff; cbn; lia. }
  rewrite (proj2 (Z.leb_le 1 _)), (proj2 (Z.leb_le _ 12)) by lia. cbn [andb]. rewrite bind_Ok_l.
  replace (if _ <? day dt then _ else day dt)
    with (Z.min (day dt) (@month_len (cal_spec ds) y (month dt))) by (case_if; bsimpl; lia).
  fold (remapped ds dt y).
  apply to_time_point_near; [now apply (remapped_valid sim) | now apply (remapped_ok sim) | exact Hy].
Qed.

Lemma midnight_jan1 c y : near_year y \/ near_year (y - 1) ->
  @to_time_point (cal_impl c) (midnight y 1 1) = Ok (mkTime_Point (year_first c y)).
Proof.
  intros Hy. pose proof (year_first_bounds c y Hy) as Hb.
  assert (Hv : @valid_dt (cal_spec c) (midnight y 1 1) = true).
  { unfold valid_dt. rewrite (proj2 (valid_date_iff _ _ _)); [reflexivity|].
    cbn [midnight year month day]. pose proof (@month_len_bounds _ (cal_laws c) y 1). lia. }
  assert (Ei : @instant (cal_spec c) (midnight y 1 1) = year_first c y).
  { unfold instant, dt_day, dt_tod, day_number, year_first, midnight, time_of_day.
    cbn [year month day hour minute second nanosecond].
    rewrite days_before_month_1. unfold nanos_per_day. lia. }
  rewrite <- Ei. apply (@cal_encode_decode _ _ (cal_refines c) (cal_laws c)).
  - rewrite dt_ok_iff, !in_range_iff. unfold near_year in Hy.
    cbn [imin imax midnight year month day hour minute second nanosecond]. lia.
  - assumption.
  - rewrite Ei. unfold cal_min. cbn [imax]. lia.
Qed.

(** ** The policies *)

(** Not the frozen day of the leap-hold policy. *)
Definition not_held (sim ds : Cal) (p : OutOfBoundsPolicy) (t : Z) : Prop :=
  p = leap_hold -> greg_to_noleap sim ds = true ->
  forall dt, @to_date_time (cal_impl sim) (mkTime_Point t) = Ok dt -> is_feb29 dt = false.

Lemma decode c n : cal_min <= n <= imax I64 ->
  exists d, @to_date_time (cal_impl c) (mkTime_Point n) = Ok d /\ @valid_dt (cal_spec c) d = true /\
    dt_ok d = true /\ @instant (cal_spec c) d = n.
Proof.
  intros Hn. destruct (@to_date_time_refines _ _ (cal_refines c) n Hn) as (d & ? & ? & ? & ?).
  exists d. auto.
Qed.

(** The clamping policies share one answer. *)
Lemma resolve_clamp_policies sim ds e t : wf_engine e -> cal_min <= t <= imax I64 ->
  policy e = clamp_to_edge \/ policy e = leap_hold -> not_held sim ds (policy e) t ->
  resolve sim ds e (mkTime_Point t) = Ok (clamp_answer e t).
Proof.
  intros Hwf Ht Hp Hf. destruct (decode sim t Ht) as (dt & Hdt & _).
  assert (Hb : resolve_by_bounds sim ds e (mkTime_Point t) = Ok (clamp_answer e t)).
  { unfold resolve_by_bounds. fold (contains (coverage e) (mkTime_Point t)).
    fold (in_coverage e t). destruct (in_coverage e t) eqn:Hin.
    - rewrite resolve_in_bounds_spec by assumption. unfold clamp_answer. now rewrite Hin.
    - destruct Hp as [Hp|Hp]; rewrite Hp in *; [now apply resolve_clamp_spec|].
      unfold resolve_leap_hold. rewrite Hdt, bind_Ok_l.
      replace (greg_to_noleap sim ds && is_feb29 dt) with false.
      2:{ symmetry. apply andb_false_iff. destruct (greg_to_noleap sim ds) eqn:Hg; [|auto].
          right. now apply (Hf eq_refl Hg). }
      replace (out_of_coverage e (mkTime_Point t)) with true; [now apply resolve_clamp_spec|].
      symmetry. unfold out_of_coverage, tp_leb, tp_ltb. cbn [tp_nanos].
      apply orb_true_iff. rewrite Z.leb_le, Z.ltb_lt. apply in_coverage_case in Hin. tauto. }
  unfold resolve. destruct Hp as [Hp|Hp]; rewrite Hp in *; cbn [policy_eqb andb]; [exact Hb|].
  destruct (greg_to_noleap sim ds) eqn:Hg; [|exact Hb].
  rewrite Hdt, bind_Ok_l, (Hf eq_refl Hg dt Hdt). exact Hb.
Qed.

(** Under the clamping policies (and outside the frozen February 29th) [resolve]
    succeeds for every simulation time: its window is always one of the
    dataset's own snapshot intervals; inside the coverage it contains the time,
    outside it is the first or the last interval with weight zero. *)
Theorem resolve_clamps sim ds cov iv p cy e t :
  wf_window cov -> dur_ok iv = true -> aliasing_engine ds cov iv p cy = Ok e ->
  p = clamp_to_edge \/ p = leap_hold -> cal_min <= t <= imax I64 -> not_held sim ds p t ->
  exists a, resolve sim ds e (mkTime_Point t) = Ok a /\ snapshot_window e (window a) /\
    (if contains cov (mkTime_Point t)
     then contains (window a) (mkTime_Point t) = true
     else alpha a = zero_double /\
          window a = if t <? tp_nanos (w_start cov) then first_window e else last_window e).
Proof.
  intros Hcov Hiv He Hp Ht Hf. apply aliasing_engine_wf in He as [Hwf He]; try assumption.
  exists (clamp_answer e t). split; [|split].
  - apply resolve_clamp_policies; subst e; assumption.
  - now apply clamp_answer_window.
  - pose proof (proj2 (clamp_answer_window e t Hwf)) as Hc. subst e.
    unfold clamp_answer, in_coverage in *. cbn [coverage] in *.
    destruct (contains cov (mkTime_Point t)); [now apply Hc|].
    now destruct (t <? tp_nanos (w_start cov)).
Qed.

(** A coverage of ten days in snapshots of six hours. *)
Definition demo_coverage : Time_Window := window_at 0 864000000000000.
Definition demo_interval : Duration := mkDuration 21600000000000.

Example resolve_clamps_witness :
  let e := mkAliasing_Engine demo_coverage demo_interval clamp_to_edge 0 in
  exists a, resolve Gregorian_Calendar NoLeap_Calendar e (mkTime_Point (-1)) = Ok a /\
    snapshot_window e (window a) /\
    (if contains demo_coverage (mkTime_Point (-1))
     then contains (window a) (mkTime_Point (-1)) = true
     else alpha a = zero_double /\
          window a = if -1 <? tp_nanos (w_start demo_coverage) then first_window e else last_window e).
Proof.
  apply (resolve_clamps Gregorian_Calendar NoLeap_Calendar demo_coverage demo_interval clamp_to_edge 0);
    [vm_compute; intuition discriminate | reflexivity | reflexivity | now left
    | vm_compute; intuition discriminate | intros H; discriminate H].
Defined.

(** The no-leap instants of the two ends of the frozen window. *)
Lemma noleap_feb28 y : @instant NoLeap.NoLeap_spec (midnight y 2 28) =
  (365 * (y - 2026) + 58) * nanos_per_day.
Proof.
  unfold instant, dt_day, day_number, midnight, dt_tod; cbn [year month day hour minute second nanosecond].
  change (@days_before_month NoLeap.NoLeap_spec y 2) with 31.
  cbn [year_start NoLeap.NoLeap_spec]. unfold time_of_day, nanos_per_day. lia.
Qed.

Lemma noleap_mar1 y : @instant NoLeap.NoLeap_spec (midnight y 3 1) =
  (365 * (y - 2026) + 58) * nanos_per_day + nanos_per_day.
Proof.
  unfold instant, dt_day, day_number, midnight, dt_tod; cbn [year month day hour minute second nanosecond].
  change (@days_before_month NoLeap.NoLeap_spec y 3) with 59.
  cbn [year_start NoLeap.NoLeap_spec]. unfold time_of_day, nanos_per_day. lia.
Qed.

(** The day a Gregorian February 29th is frozen at is representable. *)
Lemma feb29_bounds dt : @valid_dt (cal_spec Gregorian_Calendar) dt = true ->
  cal_min <= @instant (cal_spec Gregorian_Calendar) dt <= imax I64 -> is_feb29 dt = true ->
  1720 <= year dt <= 2320 /\ cal_min <= (365 * (year dt - 2026) + 58) * nanos_per_day /\
  (365 * (year dt - 2026) + 58) * nanos_per_day + nanos_per_day <= imax I64.
Proof.
  intros Hv Hi Hf. pose proof (@dt_tod_bounds _ _ Hv) as Htod.
  unfold is_feb29 in Hf. apply andb_true_iff in Hf as [Hm Hd]. apply Z.eqb_eq in Hm, Hd.
  unfold instant, dt_day, day_number in Hi. rewrite Hm, Hd in Hi.
  change (@days_before_month (cal_spec Gregorian_Calendar) (year dt) 2) with 31 in Hi.
  cbn [cal_spec year_start Gregorian.Gregorian_spec] in Hi.
  set (tod := dt_tod dt) in *. clearbody tod. set (y := year dt) in *. clearbody y.
  unfold nanos_per_day, cal_min in *. cbn [imax] in *. clear - Hi Htod. lia.
Qed.

Lemma midnight_feb_ok y m d : -1000000 <= y <= 1000000 -> 1 <= m <= 12 -> 1 <= d <= 28 ->
  dt_ok (midnight y m d) = true /\ @valid_dt NoLeap.NoLeap_spec (midnight y m d) = true.
Proof.
  intros Hy Hm Hd. split.
  - rewrite dt_ok_iff, !in_range_iff. cbn [imin imax midnight year month day hour minute second nanosecond]. lia.
  - unfold valid_dt. rewrite (proj2 (valid_date_iff _ _ _)); [reflexivity|].
    cbn [midnight year month day]. pose proof (@month_len_bounds _ NoLeap.NoLeap_laws y m Hm). lia.
Qed.

Lemma noleap_midnight y m d : -1000000 <= y <= 1000000 -> 1 <= m <= 12 -> 1 <= d <= 28 ->
  cal_min <= @instant NoLeap.NoLeap_spec (midnight y m d) <= imax I64 ->
  @to_time_point (cal_impl NoLeap_Calendar) (midnight y m d) =
    Ok (mkTime_Point (@instant NoLeap.NoLeap_spec (midnight y m d))).
Proof.
  intros Hy Hm Hd Hi. destruct (midnight_feb_ok y m d Hy Hm Hd).
  now apply (@cal_encode_decode _ _ (cal_refines NoLeap_Calendar) (cal_laws NoLeap_Calendar)).
Qed.

(** Under the leap-hold policy a Gregorian February 29th resolves, whatever the
    coverage, to the no-leap window from February 28th to March 1st of the same
    year with weight zero. *)
Theorem leap_hold_feb29 e t dt : policy e = leap_hold -> cal_min <= t <= imax I64 ->
  @to_date_time (cal_impl Gregorian_Calendar) (mkTime_Point t) = Ok dt -> is_feb29 dt = true ->
  resolve Gregorian_Calendar NoLeap_Calendar e (mkTime_Point t) =
    Ok (mkAliasedWindow
          (mkTime_Window (mkTime_Point (@instant NoLeap.NoLeap_spec (midnight (year dt) 2 28)))
                         (mkTime_Point (@instant NoLeap.NoLeap_spec (midnight (year dt) 3 1))))
          zero_double).
Proof.
  intros Hp Ht Hdt Hf. unfold resolve. rewrite Hp. cbn [policy_eqb andb greg_to_noleap].
  rewrite Hdt, bind_Ok_l, Hf.
  destruct (decode Gregorian_Calendar t Ht) as (d' & Hd' & Hv & Hok & Hi).
  rewrite Hdt in Hd'. injection Hd' as <-. rewrite <- Hi in Ht.
  destruct (feb29_bounds dt Hv Ht Hf) as (Hy & Hlo & Hhi).
  pose proof (noleap_feb28 (year dt)) as E28. pose proof (noleap_mar1 (year dt)) as E31.
  unfold nanos_per_day in *. unfold feb29_window.
  rewrite (noleap_midnight (year dt) 2 28), bind_Ok_l by (rewrite ?E28; lia).
  rewrite (noleap_midnight (year dt) 3 1), bind_Ok_l by (rewrite ?E31; lia).
  rewrite E28, E31. fold nanos_per_day. now rewrite time_window_at.
Qed.

(** 2024-02-29T12:00, a time outside the demonstration coverage. *)
Example leap_hold_feb29_witness :
  resolve Gregorian_Calendar NoLeap_Calendar
    (mkAliasing_Engine demo_coverage demo_interval leap_hold 0) (mkTime_Point (-58017600000000000)) =
    Ok (mkAliasedWindow
          (mkTime_Window (mkTime_Point (@instant NoLeap.NoLeap_spec (midnight 2024 2 28)))
                         (mkTime_Point (@instant NoLeap.NoLeap_spec (midnight 2024 3 1))))
          zero_double).
Proof.
  exact (leap_hold_feb29 (mkAliasing_Engine demo_coverage demo_interval leap_hold 0)
    (-58017600000000000) (mkDate_Time 2024 2 29 12 0 0 0) eq_refl
    ltac:(vm_compute; intuition discriminate) ltac:(vm_compute; reflexivity) eq_refl).
Defined.

(** ** Cycling through the years of the coverage *)

Definition cycle_year (ds : Cal) (e : Aliasing_Engine) (t : Z) (target : Date_Time) : Prop :=
  @to_date_time (cal_impl ds)
    (if tp_nanos (w_end (coverage e)) <=? t
     then mkTime_Point (tp_nanos (w_end (coverage e)) - 1) else w_start (coverage e)) = Ok target.

(** Out of bounds, the policy resolves the date with the substituted year. *)
Lemma resolve_cycle_eval sim ds e t dt target : wf_engine e -> policy e = cycle_last_year ->
  cal_min <= t <= imax I64 -> in_coverage e t = false ->
  @to_date_time (cal_impl sim) (mkTime_Point t) = Ok dt ->
  cycle_year ds e t target -> near_year (year target) ->
  resolve sim ds e (mkTime_Point t) =
    resolve_in_bounds e (mkTime_Point (@instant (cal_spec ds) (remapped ds dt (year target)))).
Proof.
  intros Hwf Hp Ht Hin Hdt Htgt Hy. unfold resolve. rewrite Hp. cbn [policy_eqb andb].
  unfold resolve_by_bounds. fold (contains (coverage e) (mkTime_Point t)).
  fold (in_coverage e t). rewrite Hin, Hp. unfold resolve_cycle. rewrite Hdt, bind_Ok_l.
  destruct (decode sim t Ht) as (d' & Hd' & Hv & Hok & _). rewrite Hdt in Hd'. injection Hd' as <-.
  replace (if tp_leb _ _ then _ else _) with (Ok target).
  - rewrite bind_Ok_l. now rewrite (substitute_year_spec sim) by assumption.
  - unfold tp_leb; cbn [tp_nanos]. unfold cycle_year in Htgt. destruct (_ <=? t); [|now symmetry].
    destruct Hwf. rewrite tp_sub_spec
      by (unfold tp_ok, dur_ok; rewrite in_range_iff; cbn [tp_nanos dur_nanos imin imax] in *; lia).
    unfold in_range. cbn [dur_nanos].
    rewrite (proj2 (Z.leb_le (imin I64) _)), (proj2 (Z.leb_le _ (imax I64))) by lia.
    cbn [andb]. rewrite bind_Ok_l. now symmetry.
Qed.

Lemma year_first_mono ds a b : a <= b -> year_first ds a <= year_first ds b.
Proof.
  intros Hab. destruct (Z.eq_dec a b) as [->|]; [lia|].
  pose proof (@year_start_mono _ (cal_laws ds) a b ltac:(lia)).
  pose proof (@year_start_succ _ (cal_laws ds) a).
  pose proof (@days_before_month_nonneg _ (cal_laws ds) a 13 ltac:(lia)).
  unfold year_first, nanos_per_day. lia.
Qed.

Lemma year_first_succ ds a : year_first ds a + nanos_per_day <= year_first ds (a + 1).
Proof.
  pose proof (@year_start_succ _ (cal_laws ds) a).
  pose proof (@days_before_month_lt _ (cal_laws ds) a 1 13 ltac:(lia) ltac:(lia)).
  rewrite days_before_month_1 in *. pose proof (@month_len_bounds _ (cal_laws ds) a 1).
  unfold year_first, nanos_per_day. lia.
Qed.

(** The year in which an instant away from the limits falls, as decoding finds it. *)
Lemma decode_year ds n y : year_first ds y <= n < year_first ds (y + 1) -> near_year y ->
  exists d, @to_date_time (cal_impl ds) (mkTime_Point n) = Ok d /\ year d = y.
Proof.
  intros Hn Hy. pose proof (year_first_bounds ds y (or_introl Hy)).
  pose proof (year_first_bounds ds (y + 1)) as Hb.
  replace (y + 1 - 1) with y in Hb by lia. specialize (Hb (or_intror Hy)).
  destruct (decode ds n) as (d & Hd & Hv & _ & Hi); [unfold cal_min; cbn [imax]; lia|].
  exists d. split; [exact Hd|]. apply (year_unique ds); [assumption|]. now rewrite Hi.
Qed.

Definition whole_years (ds : Cal) (e : Aliasing_Engine) (y0 y1 : Z) : Prop :=
  near_year y0 /\ near_year (y1 - 1) /\ y0 < y1 /\
  coverage e = mkTime_Window (mkTime_Point (year_first ds y0)) (mkTime_Point (year_first ds y1)).

(** The year substituted for a time outside a coverage of whole years. *)
Definition edge_year (ds : Cal) (y0 y1 t : Z) : Z :=
  if year_first ds y1 <=? t then y1 - 1 else y0.

Lemma edge_year_bounds ds e y0 y1 t : whole_years ds e y0 y1 ->
  near_year (edge_year ds y0 y1 t) /\ y0 <= edge_year ds y0 y1 t < y1.
Proof. intros (? & ? & ? & _). unfold edge_year; case_if; unfold near_year in *; lia. Qed.

Lemma cycle_year_whole ds e t y0 y1 : whole_years ds e y0 y1 ->
  exists target, cycle_year ds e t target /\ year target = edge_year ds y0 y1 t.
Proof.
  intros (H0 & H1 & Hlt & Hcov). unfold cycle_year, edge_year.
  rewrite Hcov. cbn [w_start w_end tp_nanos].
  pose proof (year_first_succ ds y0). pose proof (year_first_succ ds (y1 - 1)) as Hl.
  replace (y1 - 1 + 1) with y1 in Hl by lia. unfold nanos_per_day in *.
  destruct (year_first ds y1 <=? t); apply decode_year; try assumption; [|lia].
  replace (y1 - 1 + 1) with y1 by lia. lia.
Qed.

(** When the coverage is a whole number of calendar years, cycling succeeds for
    every simulation time outside it: the window is one of the dataset's snapshot
    intervals and contains the same date in the first or last year of coverage. *)
Theorem cycle_whole_years sim ds e t y0 y1 dt : wf_engine e -> policy e = cycle_last_year ->
  whole_years ds e y0 y1 -> cal_min <= t <= imax I64 -> in_coverage e t = false ->
  @to_date_time (cal_impl sim) (mkTime_Point t) = Ok dt ->
  exists a, resolve sim ds e (mkTime_Point t) = Ok a /\ snapshot_window e (window a) /\
    contains (window a)
      (mkTime_Point (@instant (cal_spec ds) (remapped ds dt (edge_year ds y0 y1 t)))) = true.
Proof.
  intros Hwf Hp Hw Ht Hin Hdt. destruct (edge_year_bounds ds e y0 y1 t Hw) as [Hy Hyy].
  destruct (cycle_year_whole ds e t y0 y1 Hw) as (target & Htgt & Ey).
  destruct (decode sim t Ht) as (d' & Hd' & Hv & Hok & _). rewrite Hdt in Hd'. injection Hd' as <-.
  rewrite (resolve_cycle_eval sim ds e t dt target), Ey by (try assumption; now rewrite Ey).
  set (y := edge_year ds y0 y1 t) in *. set (r := @instant (cal_spec ds) (remapped ds dt y)).
  assert (Hr : in_coverage e r = true).
  { apply in_coverage_iff. destruct Hw as (_ & _ & _ & ->). cbn [w_start w_end tp_nanos].
    pose proof (instant_in_year ds _ (remapped_valid sim ds dt y Hv)) as Hi. fold r in Hi.
    cbn [remapped year] in Hi. pose proof (year_first_mono ds y0 y ltac:(lia)).
    pose proof (year_first_mono ds (y + 1) y1 ltac:(lia)). lia. }
  exists (in_bounds_answer e r). split; [now apply resolve_in_bounds_spec | now apply in_bounds_window].
Qed.

(** Two no-leap years of daily snapshots; the simulation is at 2032-02-29T12:00. *)
Definition cycle_engine : Aliasing_Engine :=
  mkAliasing_Engine (window_at 0 63072000000000000) (mkDuration nanos_per_day) cycle_last_year 0.

Lemma cycle_engine_wf : wf_engine cycle_engine.
Proof. split; try (vm_compute; intuition discriminate). now exists 730. Qed.

Example cycle_whole_years_witness :
  exists a, resolve Gregorian_Calendar NoLeap_Calendar cycle_engine (mkTime_Point 194443200000000000) = Ok a /\
    snapshot_window cycle_engine (window a) /\
    contains (window a)
      (mkTime_Point (@instant (cal_spec NoLeap_Calendar) (remapped NoLeap_Calendar
        (mkDate_Time 2032 2 29 12 0 0 0) (edge_year NoLeap_Calendar 2026 2028 194443200000000000)))) = true.
Proof.
  apply (cycle_whole_years Gregorian_Calendar NoLeap_Calendar cycle_engine 194443200000000000 2026 2028
    (mkDate_Time 2032 2 29 12 0 0 0) cycle_engine_wf eq_refl);
    [repeat split; vm_compute; intuition discriminate | vm_compute; intuition discriminate
    | reflexivity | vm_compute; reflexivity].
Defined.

(** When the coverage starts in the middle of a year, a time whose substituted
    date falls before the coverage is refused with [std::out_of_range] unless it is
    a whole number of intervals before it: the policy does not resolve it. *)
Theorem cycle_before_coverage sim ds e t dt target : wf_engine e -> policy e = cycle_last_year ->
  cal_min <= t <= imax I64 -> in_coverage e t = false ->
  @to_date_time (cal_impl sim) (mkTime_Point t) = Ok dt ->
  cycle_year ds e t target -> near_year (year target) ->
  let r := @instant (cal_spec ds) (remapped ds dt (year target)) in
  let s0 := tp_nanos (w_start (coverage e)) in
  r < s0 -> s0 - r <= imax I64 -> (s0 - r) mod dur_nanos (snapshot_interval e) <> 0 ->
  resolve sim ds e (mkTime_Point t) = Throw out_of_range.
Proof.
  intros Hwf Hp Ht Hin Hdt Htgt Hy r s0 Hr Hd Hm.
  rewrite (resolve_cycle_eval sim ds e t dt target) by assumption. fold r.
  assert (Hrmin : imin I64 <= r).
  { destruct (decode sim t Ht) as (d' & Hd' & Hv & _). rewrite Hdt in Hd'. injection Hd' as <-.
    pose proof (instant_in_year ds _ (remapped_valid sim ds dt (year target) Hv)) as Hi.
    pose proof (year_first_bounds ds (year target) (or_introl Hy)). fold r in Hi.
    cbn [imin remapped year] in *. lia. }
  pose proof (wf_iv_le e Hwf) as Hle. destruct Hwf as [Hlo Hhi _ Hlen Hiv _]. fold s0 in Hlo, Hlen, Hle.
  unfold resolve_in_bounds, enclosing_window. cbn [tp_nanos]. fold s0.
  set (iv := dur_nanos (snapshot_interval e)) in *.
  rewrite csub_ok, bind_cval, cdiv_pos by (cbn [imin imax] in *; lia).
  assert (Eq : Z.quot (r - s0) iv * iv = - (iv * ((s0 - r) / iv))).
  { replace (r - s0) with (- (s0 - r)) by lia.
    rewrite Z.quot_opp_l, Z.quot_div_nonneg by lia. lia. }
  pose proof (Z.div_mod (s0 - r) iv ltac:(lia)) as Edm.
  pose proof (Z.mod_pos_bound (s0 - r) iv ltac:(lia)).
  assert (0 <= (s0 - r) / iv) by (apply Z.div_pos; lia).
  set (q := iv * ((s0 - r) / iv)) in *.
  assert (0 <= q) by (unfold q; nia). clearbody q.
  rewrite cmul_ok, bind_cval, cadd_ok, bind_cval by (rewrite ?Eq; cbn [imin imax] in *; lia).
  rewrite Eq.
  rewrite tp_add_spec by (unfold tp_ok, dur_ok; rewrite in_range_iff; cbn [tp_nanos imin imax] in *; fold iv; lia).
  unfold in_range. cbn [tp_nanos]. fold iv.
  rewrite (proj2 (Z.leb_le (imin I64) _)), (proj2 (Z.leb_le _ (imax I64))) by (cbn [imin imax] in *; lia).
  cbn [andb]. rewrite bind_Ok_l, time_window_at, bind_Ok_l by assumption.
  unfold calculate_weight, window_duration, tp_ltb, tp_leb.
  cbn [window_at w_start w_end tp_nanos].
  rewrite csub_ok, bind_cval by (cbn [imin imax] in *; lia). cbn [dur_nanos]. rewrite bind_Ok_l.
  rewrite (proj2 (Z.eqb_neq _ 0)), throw_if_false, bind_Ok_l by (cbn [dur_nanos]; lia).
  rewrite (proj2 (Z.ltb_lt r _)) by lia. reflexivity.
Qed.

(** Daily snapshots of the Gregorian year that begins on 2026-07-01; the simulation
    is at 2025-03-01T12:00. *)
Definition mid_year_engine : Aliasing_Engine :=
  mkAliasing_Engine (window_at 15638400000000000 31536000000000000) (mkDuration nanos_per_day)
    cycle_last_year 0.

Lemma mid_year_engine_wf : wf_engine mid_year_engine.
Proof. split; try (vm_compute; intuition discriminate). now exists 365. Qed.

Example cycle_before_coverage_witness :
  resolve Gregorian_Calendar Gregorian_Calendar mid_year_engine (mkTime_Point (-26395200000000000)) =
    Throw out_of_range.
Proof.
  apply (cycle_before_coverage Gregorian_Calendar Gregorian_Calendar mid_year_engine
    (-26395200000000000) (mkDate_Time 2025 3 1 12 0 0 0) (mkDate_Time 2026 7 1 0 0 0 0)
    mid_year_engine_wf eq_refl); vm_compute; intuition discriminate.
Defined.

(** ** Climatology *)

(** The window of an instant of the climatological year: the enclosing interval
    counted from January 1st, replaced by the one that ends at the next January
    1st when it would reach it. *)
Definition climatology_start (ds : Cal) (cy iv r : Z) : Z :=
  let s := snapshot_start (year_first ds cy) iv r in
  if year_first ds (cy + 1) <=? s + iv then year_first ds (cy + 1) - iv else s.

Lemma climatology_start_bounds ds cy iv r : 0 < iv ->
  year_first ds cy <= r < year_first ds (cy + 1) ->
  let s := climatology_start ds cy iv r in
  s <= r < s + iv /\ s + iv <= year_first ds (cy + 1).
Proof.
  intros Hiv Hr. pose proof (snapshot_start_bounds (year_first ds cy) iv r Hiv (proj1 Hr)).
  cbv zeta. unfold climatology_start. case_if; bsimpl; lia.
Qed.

Lemma year_first_length ds y : year_first ds (y + 1) <= year_first ds y + 372 * nanos_per_day.
Proof.
  assert (Hk : forall k, (k <= 12)%nat ->
    @days_before_month (cal_spec ds) y (1 + Z.of_nat k) <= 31 * Z.of_nat k).
  { induction k as [|k IH]; intros Hk; [now rewrite days_before_month_1|].
    replace (1 + Z.of_nat (S k)) with (1 + Z.of_nat k + 1) by lia.
    rewrite days_before_month_step by lia.
    pose proof (@month_len_bounds _ (cal_laws ds) y (1 + Z.of_nat k)). lia. }
  specialize (Hk 12%nat ltac:(lia)). change (1 + Z.of_nat 12) with 13 in Hk.
  unfold year_first. rewrite (@year_start_succ _ (cal_laws ds)). unfold nanos_per_day. lia.
Qed.

(** The test on the decoded year of the window's end is the test on the instant. *)
Lemma year_past ds n d cy : @valid_dt (cal_spec ds) d = true -> @instant (cal_spec ds) d = n ->
  (cy <? year d) = (year_first ds (cy + 1) <=? n).
Proof.
  intros Hv <-. pose proof (instant_in_year ds d Hv) as Hi. apply eq_true_iff_eq.
  rewrite Z.ltb_lt, Z.leb_le. split; intros H.
  - pose proof (year_first_mono ds (cy + 1) (year d) ltac:(lia)). lia.
  - destruct (Z.lt_ge_cases cy (year d)); [assumption|].
    pose proof (year_first_mono ds (year d + 1) (cy + 1) ltac:(lia)). lia.
Qed.

(** C3. Under climatology every simulation time resolves: to the window of the
    climatological year that encloses the same date of that year.  It contains
    that date, is one interval long, never reaches past the next January 1st,
    and carries the weight of the date within it. *)
Theorem climatology_resolves sim ds cov iv cy e t dt :
  wf_window cov -> dur_ok iv = true -> aliasing_engine ds cov iv pure_climatology cy = Ok e ->
  near_year cy -> dur_nanos iv <= 1000000000000000000 -> cal_min <= t <= imax I64 ->
  @to_date_time (cal_impl sim) (mkTime_Point t) = Ok dt ->
  let r := @instant (cal_spec ds) (remapped ds dt cy) in
  let s := climatology_start ds cy (dur_nanos iv) r in
  resolve sim ds e (mkTime_Point t) =
    Ok (mkAliasedWindow (window_at s (dur_nanos iv)) (weight (r - s) (dur_nanos iv))) /\
  contains (window_at s (dur_nanos iv)) (mkTime_Point r) = true /\
  s + dur_nanos iv <= year_first ds (cy + 1).
Proof.
  intros Hcov Hiv He Hcy Hmax Ht Hdt r s. apply aliasing_engine_wf in He as [Hwf ->]; try assumption.
  pose proof (wf_iv _ Hwf) as Hpos. cbn [snapshot_interval] in Hpos.
  destruct iv as [iv]. cbn [dur_nanos] in *.
  destruct (decode sim t Ht) as (d' & Hd' & Hv & Hok & _). rewrite Hdt in Hd'. injection Hd' as <-.
  assert (Hr : year_first ds cy <= r < year_first ds (cy + 1))
    by exact (instant_in_year ds _ (remapped_valid sim ds dt cy Hv)).
  pose proof (climatology_start_bounds ds cy iv r Hpos Hr) as Hs. cbv zeta in Hs. fold s in Hs.
  pose proof (year_first_bounds ds cy (or_introl Hcy)) as B0.
  assert (Hcy1 : near_year (cy + 1) \/ near_year (cy + 1 - 1))
    by (right; replace (cy + 1 - 1) with cy by lia; assumption).
  pose proof (year_first_bounds ds (cy + 1) Hcy1) as B1.
  pose proof (snapshot_start_bounds (year_first ds cy) iv r Hpos (proj1 Hr)) as Hss.
  split; [|rewrite contains_iff; cbn [window_at w_start w_end tp_nanos]; clear - Hs; lia].
  unfold resolve, resolve_climatology. cbn [policy policy_eqb climatological_year snapshot_interval].
  rewrite Hdt, bind_Ok_l, (substitute_year_spec sim), bind_Ok_l by assumption. fold r.
  rewrite midnight_jan1, bind_Ok_l by (left; assumption).
  pose proof (year_first_length ds cy) as Hlen. unfold nanos_per_day in Hlen.
  rewrite enclosing_window_spec, bind_Ok_l by (cbn [imin imax]; lia).
  set (s0 := snapshot_start (year_first ds cy) iv r) in *.
  cbn [window_at w_end]. destruct (decode ds (s0 + iv)) as (d & -> & Hvd & _ & Hid);
    [unfold cal_min; cbn [imax]; lia|].
  rewrite bind_Ok_l, (year_past ds (s0 + iv) d cy Hvd Hid).
  replace (if _ <=? s0 + iv then _ else _) with (Ok (window_at s iv)).
  - rewrite bind_Ok_l, calculate_weight_at, bind_Ok_l by (cbn [imax]; lia). reflexivity.
  - unfold s, climatology_start. fold s0. destruct (year_first ds (cy + 1) <=? s0 + iv); [|reflexivity].
    unfold near_year in Hcy. rewrite cadd_ok, bind_cval by (cbn [imin imax]; lia).
    rewrite midnight_jan1, bind_Ok_l by assumption.
    rewrite tp_sub_spec by (unfold tp_ok, dur_ok; rewrite in_range_iff; cbn [tp_nanos dur_nanos imin imax]; lia).
    unfold in_range. cbn [tp_nanos dur_nanos].
    rewrite (proj2 (Z.leb_le (imin I64) _)), (proj2 (Z.leb_le _ (imax I64))) by (cbn [imin imax]; lia).
    cbn [andb]. rewrite bind_Ok_l.
    rewrite <- (time_window_at (year_first ds (cy + 1) - iv) iv) by assumption.
    do 2 f_equal. lia.
Qed.

(** Weekly snapshots (the year is not a whole number of weeks); 2031-12-31T12:00. *)
Example climatology_resolves_witness :
  let t := 189259200000000000 in
  let dt := mkDate_Time 2031 12 31 12 0 0 0 in
  let iv := mkDuration 604800000000000 in
  let e := mkAliasing_Engine (window_at 0 62899200000000000) iv pure_climatology 2027 in
  let r := @instant (cal_spec NoLeap_Calendar) (remapped NoLeap_Calendar dt 2027) in
  let s := climatology_start NoLeap_Calendar 2027 (dur_nanos iv) r in
  resolve Gregorian_Calendar NoLeap_Calendar e (mkTime_Point t) =
    Ok (mkAliasedWindow (window_at s (dur_nanos iv)) (weight (r - s) (dur_nanos iv))) /\
  contains (window_at s (dur_nanos iv)) (mkTime_Point r) = true /\
  s + dur_nanos iv <= year_first NoLeap_Calendar 2028.
Proof.
  apply (climatology_resolves Gregorian_Calendar NoLeap_Calendar (window_at 0 62899200000000000)
    (mkDuration 604800000000000) 2027); vm_compute; intuition discriminate.
Defined.

(** A weight can be exactly one although the time is before the window's end: the
    quotient of the two rounded differences is not below one. *)
Theorem weight_reaches_one : exists w t, contains w t = true /\
  calculate_weight t w = Ok (SFdiv 53 1024 (to_double 1) (to_double 1)).
Proof.
  exists (window_at 0 1152921504606846976), (mkTime_Point 1152921504606846975).
  split; vm_compute; reflexivity.
Qed.
