(* ===== verification/TickCApi.v ===== *)
(** * TICK: the C interface ([tick/tick_c.h], [src/tick_c_api.cpp])

    A function returns its status and, when it stores through its out-pointer,
    the value stored.  [out_null] is the test [!out].  An exception that left a
    function would be a [Throw]; the firewall theorem says there is none. *)
From Stdlib Require Import ZArith Lia Bool List String.
From S2P Require Import Prelude CInt Overflow TimeCore Calendar TimeWindow Alarms Sync.
From S2P Require Gregorian NoLeap Cal360.
Import ListNotations.
Local Open Scope Z_scope.

Definition TICK_OK : Z := 0.
Definition TICK_ERR_OVERFLOW : Z := 1.
Definition TICK_ERR_INVALID_ARG : Z := 2.
Definition TICK_ERR_INVALID_CALENDAR : Z := 3.
Definition TICK_ERR_INVALID_DATE : Z := 4.
Definition TICK_ERR_INTERNAL : Z := 5.

Definition TICK_CAL_GREGORIAN : Z := 0.
Definition TICK_CAL_NOLEAP : Z := 1.
Definition TICK_CAL_360DAY : Z := 2.

(** Status, and the value stored through the out-pointer, if any. *)
Definition c_outcome (A : Type) : Type := result (Z * option A).

Definition fail {A} (status : Z) : c_outcome A := Ok (status, None).

(** [TICK_C_TRY] *)
Definition tick_c_try {A} (body : result A) : c_outcome A :=
  match body with
  | Ok a => Ok (TICK_OK, Some a)
  | Throw overflow_error => fail TICK_ERR_OVERFLOW
  | Throw invalid_argument => fail TICK_ERR_INVALID_ARG
  | Throw _ => fail TICK_ERR_INTERNAL
  | Undef => Undef
  end.

(** The handlers of [tick_to_time_point] and [tick_days_in_month]. *)
Definition tick_date_try {A} (body : result A) : c_outcome A :=
  match body with
  | Ok a => Ok (TICK_OK, Some a)
  | Throw invalid_argument => fail TICK_ERR_INVALID_DATE
  | Throw overflow_error => fail TICK_ERR_OVERFLOW
  | Throw _ => fail TICK_ERR_INTERNAL
  | Undef => Undef
  end.

Definition tick_strerror (status : Z) : string :=
  if status =? TICK_OK then "success"
  else if status =? TICK_ERR_OVERFLOW then "integer overflow"
  else if status =? TICK_ERR_INVALID_ARG then "invalid argument"
  else if status =? TICK_ERR_INVALID_CALENDAR then "invalid calendar"
  else if status =? TICK_ERR_INVALID_DATE then "invalid date"
  else if status =? TICK_ERR_INTERNAL then "internal error"
  else "unknown error".

Definition nanos_of_tp (m : result Time_Point) : result Z := let! t := m in Ok (tp_nanos t).
Definition nanos_of_dur (m : result Duration) : result Z := let! d := m in Ok (dur_nanos d).
Definition bool_to_int (m : result bool) : result Z := let! b := m in Ok (if b : bool then 1 else 0).

(** ** Time points *)

Definition tick_time_point_create (nanos : Z) (out_null : bool) : c_outcome Z :=
  if out_null then fail TICK_ERR_INVALID_ARG else tick_c_try (Ok nanos).

Definition tick_time_point_add_duration (tp dur : Z) (out_null : bool) : c_outcome Z :=
  if out_null then fail TICK_ERR_INVALID_ARG
  else tick_c_try (nanos_of_tp (tp_add (mkTime_Point tp) (mkDuration dur))).

Definition tick_time_point_sub_duration (tp dur : Z) (out_null : bool) : c_outcome Z :=
  if out_null then fail TICK_ERR_INVALID_ARG
  else tick_c_try (nanos_of_tp (tp_sub (mkTime_Point tp) (mkDuration dur))).

Definition tick_time_point_diff (lhs rhs : Z) (out_null : bool) : c_outcome Z :=
  if out_null then fail TICK_ERR_INVALID_ARG
  else tick_c_try (nanos_of_dur (tp_diff (mkTime_Point lhs) (mkTime_Point rhs))).

Definition tick_time_point_compare (lhs rhs : Z) (out_null : bool) : c_outcome Z :=
  if out_null then fail TICK_ERR_INVALID_ARG
  else tick_c_try (Ok (if lhs <? rhs then -1 else if rhs <? lhs then 1 else 0)).

(** ** Durations *)

Definition tick_duration_from_nanos (nanos : Z) (out_null : bool) : c_outcome Z :=
  if out_null then fail TICK_ERR_INVALID_ARG else tick_c_try (Ok nanos).

Definition tick_duration_from_seconds (count : Z) (out_null : bool) : c_outcome Z :=
  if out_null then fail TICK_ERR_INVALID_ARG
  else tick_c_try (checked_mul false count nanos_per_second).

Definition tick_duration_from_minutes (count : Z) (out_null : bool) : c_outcome Z :=
  if out_null then fail TICK_ERR_INVALID_ARG
  else tick_c_try (checked_mul false count nanos_per_minute).

Definition tick_duration_from_hours (count : Z) (out_null : bool) : c_outcome Z :=
  if out_null then fail TICK_ERR_INVALID_ARG
  else tick_c_try (checked_mul false count nanos_per_hour).

Definition tick_duration_from_days (count : Z) (out_null : bool) : c_outcome Z :=
  if out_null then fail TICK_ERR_INVALID_ARG
  else tick_c_try (checked_mul false count nanos_per_day).

Definition tick_duration_add (lhs rhs : Z) (out_null : bool) : c_outcome Z :=
  if out_null then fail TICK_ERR_INVALID_ARG
  else tick_c_try (nanos_of_dur (dur_add (mkDuration lhs) (mkDuration rhs))).

Definition tick_duration_sub (lhs rhs : Z) (out_null : bool) : c_outcome Z :=
  if out_null then fail TICK_ERR_INVALID_ARG
  else tick_c_try (nanos_of_dur (dur_sub (mkDuration lhs) (mkDuration rhs))).

Definition tick_duration_mul (dur scalar : Z) (out_null : bool) : c_outcome Z :=
  if out_null then fail TICK_ERR_INVALID_ARG
  else tick_c_try (nanos_of_dur (dur_mul (mkDuration dur) scalar)).

Definition tick_duration_div (dur scalar : Z) (out_null : bool) : c_outcome Z :=
  if out_null then fail TICK_ERR_INVALID_ARG
  else tick_c_try (nanos_of_dur (dur_div (mkDuration dur) scalar)).

(** ** Calendars *)

Definition known_calendar (cal : Z) : bool :=
  (cal =? TICK_CAL_GREGORIAN) || (cal =? TICK_CAL_NOLEAP) || (cal =? TICK_CAL_360DAY).

Definition tick_to_date_time (tp cal : Z) (out_null : bool) : c_outcome Date_Time :=
  if out_null then fail TICK_ERR_INVALID_ARG
  else if negb (known_calendar cal) then fail TICK_ERR_INVALID_CALENDAR
  else tick_c_try
    (if cal =? TICK_CAL_GREGORIAN then Gregorian.to_date_time (mkTime_Point tp)
     else if cal =? TICK_CAL_NOLEAP then NoLeap.to_date_time (mkTime_Point tp)
     else Cal360.to_date_time (mkTime_Point tp)).

Definition tick_to_time_point (dt : Date_Time) (cal : Z) (out_null : bool) : c_outcome Z :=
  if out_null then fail TICK_ERR_INVALID_ARG
  else if cal =? TICK_CAL_GREGORIAN then tick_date_try (nanos_of_tp (Gregorian.to_time_point dt))
  else if cal =? TICK_CAL_NOLEAP then tick_date_try (nanos_of_tp (NoLeap.to_time_point dt))
  else if cal =? TICK_CAL_360DAY then tick_date_try (nanos_of_tp (Cal360.to_time_point dt))
  else fail TICK_ERR_INVALID_CALENDAR.

Definition tick_days_in_month (cal y m : Z) (out_null : bool) : c_outcome Z :=
  if out_null then fail TICK_ERR_INVALID_ARG
  else if cal =? TICK_CAL_GREGORIAN then tick_date_try (Gregorian.days_in_month y m)
  else if cal =? TICK_CAL_NOLEAP then tick_date_try (NoLeap.days_in_month y m)
  else if cal =? TICK_CAL_360DAY then tick_date_try (Cal360.days_in_month y m)
  else fail TICK_ERR_INVALID_CALENDAR.

Definition tick_days_in_year (cal y : Z) (out_null : bool) : c_outcome Z :=
  if out_null then fail TICK_ERR_INVALID_ARG
  else if negb (known_calendar cal) then fail TICK_ERR_INVALID_CALENDAR
  else tick_c_try
    (if cal =? TICK_CAL_GREGORIAN then Gregorian.days_in_year y
     else if cal =? TICK_CAL_NOLEAP then NoLeap.days_in_year y
     else Cal360.days_in_year y).

(** ** Alarms *)

Definition tick_interval_alarm_is_ringing (interval reference current : Z) (out_null : bool) : c_outcome Z :=
  if out_null then fail TICK_ERR_INVALID_ARG
  else tick_c_try
    (let! alarm := interval_alarm (mkDuration interval) (mkTime_Point reference) in
     bool_to_int (interval_is_ringing alarm (mkTime_Point current))).

Definition tick_interval_alarm_next_ring (interval reference current : Z) (out_null : bool) : c_outcome Z :=
  if out_null then fail TICK_ERR_INVALID_ARG
  else tick_c_try
    (let! alarm := interval_alarm (mkDuration interval) (mkTime_Point reference) in
     nanos_of_tp (next_ring_at alarm (mkTime_Point current))).

Definition tick_absolute_alarm_is_ringing (trigger current : Z) (out_null : bool) : c_outcome Z :=
  if out_null then fail TICK_ERR_INVALID_ARG
  else tick_c_try
    (bool_to_int (Ok (absolute_is_ringing (mkAbsolute_Alarm (mkTime_Point trigger)) (mkTime_Point current)))).

(** ** Synchronisation.  [timesteps] is the array when the pointer is not null;
    the span of its first [count] elements is out of bounds when it is shorter. *)

Definition span_of (timesteps : list Z) (count : Z) : result (list Duration) :=
  if Z.of_nat (List.length timesteps) <? count then Undef
  else Ok (map mkDuration (firstn (Z.to_nat count) timesteps)).

Definition tick_compute_heartbeat (timesteps : option (list Z)) (count : Z) (out_null : bool) : c_outcome Z :=
  match timesteps with
  | None => fail TICK_ERR_INVALID_ARG
  | Some ts =>
      if count <=? 0 then fail TICK_ERR_INVALID_ARG
      else if out_null then fail TICK_ERR_INVALID_ARG
      else tick_c_try (let! l := span_of ts count in nanos_of_dur (compute_heartbeat l))
  end.

Definition tick_compute_sync_period (timesteps : option (list Z)) (count : Z) (out_null : bool) : c_outcome Z :=
  match timesteps with
  | None => fail TICK_ERR_INVALID_ARG
  | Some ts =>
      if count <=? 0 then fail TICK_ERR_INVALID_ARG
      else if out_null then fail TICK_ERR_INVALID_ARG
      else tick_c_try (let! l := span_of ts count in nanos_of_dur (compute_sync_period l))
  end.

Definition tick_is_phase_aligned (current base timestep : Z) (out_null : bool) : c_outcome Z :=
  if out_null then fail TICK_ERR_INVALID_ARG
  else tick_c_try
    (bool_to_int (is_phase_aligned (mkTime_Point current) (mkTime_Point base) (mkDuration timestep))).

(** ** Accumulation windows *)

Definition tick_is_on_boundary (current interval : Z) (out_null : bool) : c_outcome Z :=
  if out_null then fail TICK_ERR_INVALID_ARG
  else tick_c_try (bool_to_int (is_on_boundary (mkTime_Point current) (mkDuration interval))).

Definition tick_compute_window (current interval : Z) (out_start_null out_end_null : bool)
    : c_outcome (Z * Z) :=
  if out_start_null || out_end_null then fail TICK_ERR_INVALID_ARG
  else tick_c_try
    (let! w := compute_window (mkTime_Point current) (mkDuration interval) in
     Ok (tp_nanos (w_start w), tp_nanos (w_end w))).

Definition tick_window_contains (win_start win_end query : Z) (out_null : bool) : c_outcome Z :=
  if out_null then fail TICK_ERR_INVALID_ARG
  else tick_c_try
    (let! w := time_window (mkTime_Point win_start) (mkTime_Point win_end) in
     bool_to_int (Ok (contains w (mkTime_Point query)))).

(** ** The contract of the interface *)

(** The exceptions the library raises, the ones the handlers name. *)
Definition handled {A} (m : result A) : Prop :=
  match m with Throw e => e = overflow_error \/ e = invalid_argument | _ => True end.

(** No exception escapes; the out-parameter is stored exactly on success; the
    status is a listed code and never the one of the catch-all handler. *)
Definition firewalled {A} (m : c_outcome A) : Prop :=
  match m with
  | Ok (status, out) =>
      (status = TICK_OK <-> out <> None) /\ TICK_OK <= status < TICK_ERR_INTERNAL
  | Throw _ => False
  | Undef => True
  end.

Section Handled.
Context {A B : Type}.

Lemma handled_bind (m : result A) (k : A -> result B) :
  handled m -> (forall a, handled (k a)) -> handled (bind m k).
Proof. destruct m; cbn; auto. Qed.

Lemma handled_Ok (a : A) : handled (Ok a).
Proof. exact I. Qed.

Lemma handled_Undef : handled (@Undef A).
Proof. exact I. Qed.

Lemma handled_if (b : bool) (m m' : result A) :
  handled m -> handled m' -> handled (if b then m else m').
Proof. destruct b; auto. Qed.
End Handled.

Lemma handled_throw_invalid b : handled (throw_if b invalid_argument).
Proof. destruct b; cbn; auto. Qed.

Lemma handled_throw_overflow b : handled (throw_if b overflow_error).
Proof. destruct b; cbn; auto. Qed.

Lemma handled_arith t z : handled (arith t z).
Proof. unfold arith. now destruct (in_range t z). Qed.

Lemma handled_index_z l i : handled (index_z l i).
Proof. unfold index_z. destruct (i <? 0); [exact I|]. now destruct (nth_error l _). Qed.

Lemma handled_builtin z : handled (builtin_or_throw z).
Proof. unfold builtin_or_throw. destruct (in_i64 z); cbn; auto. Qed.

Create HintDb handled.
#[export] Hint Resolve handled_Ok handled_throw_invalid handled_throw_overflow
  handled_arith handled_Undef handled_index_z handled_builtin : handled.

(** Decompose a body into its operations. *)
Ltac handled_tac :=
  repeat match goal with
  | |- handled (bind _ _) => apply handled_bind; [|intros ?]
  | |- handled (if _ then _ else _) => apply handled_if
  | |- handled (match ?p with (_, _) => _ end) => destruct p
  | |- handled (let _ := _ in _) => cbv zeta
  | |- handled _ => solve [auto 2 with handled]
  | |- handled (cval _) => exact I
  | |- handled (cadd _ _ _) => unfold cadd
  | |- handled (csub _ _ _) => unfold csub
  | |- handled (cmul _ _ _) => unfold cmul
  | |- handled (cneg _ _) => unfold cneg
  | |- handled (cdiv _ _ _) => unfold cdiv
  | |- handled (crem _ _ _) => unfold crem
  | |- handled (?f _ _ _) => unfold f
  | |- handled (?f _ _) => unfold f
  | |- handled (?f _) => unfold f
  | |- handled ?f => unfold f
  end.

Lemma handled_heartbeat l : handled (compute_heartbeat l).
Proof.
  unfold compute_heartbeat. apply handled_bind; [auto with handled|]. intros _. generalize 0.
  induction l as [|d l IH]; intros acc; cbn [heartbeat_loop]; [exact I|].
  apply handled_bind; [auto with handled | intros _; apply IH].
Qed.

Lemma handled_sync l : handled (compute_sync_period l).
Proof.
  unfold compute_sync_period. apply handled_bind; [auto with handled|]. intros _. generalize 1.
  induction l as [|d l IH]; intros acc; cbn [sync_period_loop]; [exact I|]. cbv zeta.
  repeat (apply handled_bind; [handled_tac|intros ?]). apply IH.
Qed.

Lemma handled_find_month k d : handled (NoLeap.find_month k d).
Proof. induction k; cbn [NoLeap.find_month]; handled_tac. Qed.

#[export] Hint Resolve handled_heartbeat handled_sync handled_find_month : handled.

Lemma handled_to_date_time tp :
  handled (Gregorian.to_date_time tp) /\ handled (NoLeap.to_date_time tp) /\
  handled (Cal360.to_date_time tp).
Proof. repeat split; handled_tac. Qed.

Lemma handled_to_time_point dt :
  handled (Gregorian.to_time_point dt) /\ handled (NoLeap.to_time_point dt) /\
  handled (Cal360.to_time_point dt).
Proof. repeat split; handled_tac. Qed.

Lemma handled_days_in_month y m :
  handled (Gregorian.days_in_month y m) /\ handled (NoLeap.days_in_month y m) /\
  handled (Cal360.days_in_month y m).
Proof. repeat split; handled_tac. Qed.

Lemma fail_firewalled {A} s : TICK_OK < s < TICK_ERR_INTERNAL -> @firewalled A (fail s).
Proof.
  unfold firewalled, fail, TICK_OK. intros H. split; [|lia].
  split; [lia | intros Hn; now contradiction Hn].
Qed.

Lemma ok_firewalled {A} (a : A) : firewalled (Ok (TICK_OK, Some a)).
Proof. split; [split; [discriminate | reflexivity] | unfold TICK_OK, TICK_ERR_INTERNAL; lia]. Qed.

Lemma tick_c_try_firewalled {A} (m : result A) : handled m -> firewalled (tick_c_try m).
Proof.
  destruct m as [a|e|]; cbn [handled]; [intros _; apply ok_firewalled | | intros _; exact I].
  intros [-> | ->]; apply fail_firewalled; vm_compute; intuition discriminate.
Qed.

Lemma tick_date_try_firewalled {A} (m : result A) : handled m -> firewalled (tick_date_try m).
Proof.
  destruct m as [a|e|]; cbn [handled]; [intros _; apply ok_firewalled | | intros _; exact I].
  intros [-> | ->]; apply fail_firewalled; vm_compute; intuition discriminate.
Qed.

(** Peel the entry point's guards; what is left is the library's own code. *)
Ltac firewall :=
  repeat match goal with
  | |- firewalled (if ?b then _ else _) => destruct b
  | |- firewalled (fail _) => apply fail_firewalled; vm_compute; intuition discriminate
  | |- firewalled (tick_c_try _) => apply tick_c_try_firewalled
  | |- firewalled (tick_date_try _) => apply tick_date_try_firewalled
  end; handled_tac.

(** Calendar conversion through the C interface: null out-pointers, unknown
    calendars and invalid dates get their own status, a date whose instant is
    representable is converted.  A valid date whose instant is not representable
    has undefined behaviour: the overflow status is never returned. *)
Theorem tick_to_time_point_status dt cal out_null : dt_ok dt = true ->
  tick_to_time_point dt cal out_null =
    if out_null then Ok (TICK_ERR_INVALID_ARG, None)
    else
      match (if cal =? TICK_CAL_GREGORIAN then Some Gregorian.Gregorian_spec
             else if cal =? TICK_CAL_NOLEAP then Some NoLeap.NoLeap_spec
             else if cal =? TICK_CAL_360DAY then Some Cal360.Cal360_spec else None) with
      | None => Ok (TICK_ERR_INVALID_CALENDAR, None)
      | Some spec =>
          if @valid_dt spec dt then
            if (imin I64 <=? @dt_day spec dt * nanos_per_day) && (@instant spec dt <=? imax I64)
            then Ok (TICK_OK, Some (@instant spec dt)) else Undef
          else Ok (TICK_ERR_INVALID_DATE, None)
      end.
Proof.
  intros Hok. unfold tick_to_time_point. destruct out_null; [reflexivity|].
  pose proof (@to_time_point_refines _ _ Gregorian.Gregorian_refines dt Hok) as E1.
  pose proof (@to_time_point_refines _ _ NoLeap.NoLeap_refines dt Hok) as E2.
  pose proof (@to_time_point_refines _ _ Cal360.Cal360_refines dt Hok) as E3.
  cbn [Calendar.to_time_point Gregorian.Gregorian_Calendar NoLeap.NoLeap_Calendar
    Cal360.Cal360_Calendar] in E1, E2, E3. rewrite E1, E2, E3.
  repeat case_if; reflexivity.
Qed.

Example tick_to_time_point_status_witness :
  tick_to_time_point (mkDate_Time 3000 1 1 0 0 0 0) TICK_CAL_GREGORIAN false = Undef.
Proof.
  exact (eq_trans (tick_to_time_point_status (mkDate_Time 3000 1 1 0 0 0 0) TICK_CAL_GREGORIAN false
    eq_refl) ltac:(vm_compute; reflexivity)).
Defined.

(** The exception firewall: whatever its arguments, no C entry point of the
    library lets an exception escape; each stores through its out-pointer exactly
    when it returns [TICK_OK]; and none ever returns [TICK_ERR_INTERNAL]. *)
Theorem c_api_firewall (a b c : Z) (dt : Date_Time) (ts : option (list Z)) (n n' : bool) :
  (firewalled (tick_time_point_create a n) /\ firewalled (tick_time_point_add_duration a b n) /\
   firewalled (tick_time_point_sub_duration a b n) /\ firewalled (tick_time_point_diff a b n) /\
   firewalled (tick_time_point_compare a b n)) /\
  (firewalled (tick_duration_from_nanos a n) /\ firewalled (tick_duration_from_seconds a n) /\
   firewalled (tick_duration_from_minutes a n) /\ firewalled (tick_duration_from_hours a n) /\
   firewalled (tick_duration_from_days a n) /\ firewalled (tick_duration_add a b n) /\
   firewalled (tick_duration_sub a b n) /\ firewalled (tick_duration_mul a b n) /\
   firewalled (tick_duration_div a b n)) /\
  (firewalled (tick_to_date_time a b n) /\ firewalled (tick_to_time_point dt a n) /\
   firewalled (tick_days_in_month a b c n) /\ firewalled (tick_days_in_year a b n)) /\
  (firewalled (tick_interval_alarm_is_ringing a b c n) /\
   firewalled (tick_interval_alarm_next_ring a b c n) /\
   firewalled (tick_absolute_alarm_is_ringing a b n)) /\
  (firewalled (tick_compute_heartbeat ts a n) /\ firewalled (tick_compute_sync_period ts a n) /\
   firewalled (tick_is_phase_aligned a b c n)) /\
  (firewalled (tick_is_on_boundary a b n) /\ firewalled (tick_compute_window a b n n') /\
   firewalled (tick_window_contains a b c n)).
Proof.
  repeat split;
    match goal with
    | |- firewalled (tick_compute_heartbeat _ _ _) => unfold tick_compute_heartbeat; destruct ts
    | |- firewalled (tick_compute_sync_period _ _ _) => unfold tick_compute_sync_period; destruct ts
    | |- firewalled (?f _ _ _ _) => unfold f
    | |- firewalled (?f _ _ _) => unfold f
    | |- firewalled (?f _ _) => unfold f
    end; firewall.
Qed.
