(* ===== verification/Kahn.v ===== *)
(** * DAGR: dependency graphs and Kahn's algorithm
    ([graph_orchestrator.cpp: validate_dag], [parse_pipeline.cpp])

    Node identifiers are indices into vectors ([nat]); in-degrees are
    [std::uint32_t] counters.  The algorithm is proved to accept exactly the
    acyclic graphs. *)
From stdpp Require Import base list numbers relations.
From Stdlib Require Import ZArith Lia.
From S2P Require Import Prelude CInt.

(** ** The code *)

Record Dependency_Edge : Type := mkEdge { producer_id : nat; consumer_id : nat }.

(** The bounds checks of the first loop over the edges. *)
Fixpoint check_edges (num_tasks : nat) (edges : list Dependency_Edge) : result unit :=
  match edges with
  | [] => Ok tt
  | edge :: rest =>
      do! throw_if (num_tasks <=? producer_id edge)%nat invalid_argument then
      do! throw_if (num_tasks <=? consumer_id edge)%nat invalid_argument then
      check_edges num_tasks rest
  end.

(** [in_degree[consumer] += 1; downstream[producer].push_back(consumer);] *)
Definition add_edge (g : list Z * list (list nat)) (edge : Dependency_Edge) : list Z * list (list nat) :=
  (alter (fun d => to_u32 (d + 1)) (consumer_id edge) (fst g),
   alter (fun l => l ++ [consumer_id edge]) (producer_id edge) (snd g)).

Definition build_graph (num_tasks : nat) (edges : list Dependency_Edge) : list Z * list (list nat) :=
  fold_left add_edge edges (replicate num_tasks 0%Z, replicate num_tasks []).

(** The nodes with in-degree zero, in index order. *)
Definition initial_queue (num_tasks : nat) (in_degree : list Z) : list nat :=
  filter (fun i => in_degree !! i = Some 0%Z) (seq 0 num_tasks).

(** The inner loop over the dependents of a popped node. *)
Fixpoint relax (deps : list nat) (in_degree : list Z) (queue : list nat) : list Z * list nat :=
  match deps with
  | [] => (in_degree, queue)
  | dep :: rest =>
      let d := to_u32 (default 0%Z (in_degree !! dep) - 1) in
      relax rest (<[dep := d]> in_degree) (if (d =? 0)%Z then queue ++ [dep] else queue)
  end.

(** The outer loop; [None] when the fuel is exhausted with nodes still queued. *)
Fixpoint kahn_loop (fuel : nat) (downstream : list (list nat)) (in_degree : list Z)
    (queue : list nat) (sorted_count : nat) : option nat :=
  match queue with
  | [] => Some sorted_count
  | node :: rest =>
      match fuel with
      | O => None
      | S f =>
          let g := relax (default [] (downstream !! node)) in_degree rest in
          kahn_loop f downstream (fst g) (snd g) (S sorted_count)
      end
  end.

Definition kahn (num_tasks : nat) (in_degree : list Z) (downstream : list (list nat)) : option nat :=
  kahn_loop num_tasks downstream in_degree (initial_queue num_tasks in_degree) 0.

Definition validate_dag (num_tasks : nat) (edges : list Dependency_Edge) : result unit :=
  do! check_edges num_tasks edges then
  let g := build_graph num_tasks edges in
  match kahn num_tasks (fst g) (snd g) with
  | Some sorted_count => throw_if (negb (sorted_count =? num_tasks)%nat) invalid_argument
  | None => Undef
  end.

(** ** Specification *)

Definition edge_rel (edges : list Dependency_Edge) (x y : nat) : Prop :=
  mkEdge x y ∈ edges.

Definition acyclic (edges : list Dependency_Edge) : Prop := forall x, ~ tc (edge_rel edges) x x.

Definition edges_in_range (num : nat) (edges : list Dependency_Edge) : Prop :=
  Forall (fun e => producer_id e < num /\ consumer_id e < num) edges.

Definition consumers (edges : list Dependency_Edge) (p : nat) : list nat :=
  consumer_id <$> filter (fun e => producer_id e = p) edges.

Definition in_count (edges : list Dependency_Edge) (j : nat) : nat :=
  length (filter (fun e => consumer_id e = j) edges).

Definition occ (j : nat) (l : list nat) : nat := count_occ Nat.eq_dec l j.

Lemma check_edges_spec num edges :
  (edges_in_range num edges /\ check_edges num edges = Ok tt) \/
  (~ edges_in_range num edges /\ check_edges num edges = Throw invalid_argument).
Proof.
  unfold edges_in_range. induction edges as [|e edges IH]; [left; split; [constructor|done]|].
  simpl. unfold throw_if at 1 2. rewrite Forall_cons.
  destruct (Nat.leb_spec num (producer_id e)); [right; split; [lia|done]|].
  destruct (Nat.leb_spec num (consumer_id e)); [right; split; [lia|done]|]. simpl.
  destruct IH as [[? ->]|[? ->]]; [left|right]; (split; [|done]); [by auto|by intros []].
Qed.

Lemma elem_of_consumers edges p j : j ∈ consumers edges p <-> edge_rel edges p j.
Proof.
  unfold consumers, edge_rel. rewrite list_elem_of_fmap. split.
  - intros ([x y] & -> & [Hp He]%list_elem_of_filter). simpl in *. by subst.
  - intros He. exists (mkEdge p j). split; [done|]. by apply list_elem_of_filter.
Qed.

(** ** The adjacency lists and the in-degrees *)

Lemma build_graph_app num edges e :
  build_graph num (edges ++ [e]) = add_edge (build_graph num edges) e.
Proof. unfold build_graph. by rewrite fold_left_app. Qed.

Lemma in_count_le edges j : in_count edges j <= length edges.
Proof. apply length_filter. Qed.

Lemma build_graph_spec num edges : (Z.of_nat (length edges) < 4294967296)%Z ->
  length (fst (build_graph num edges)) = num /\ length (snd (build_graph num edges)) = num /\
  (forall j, j < num -> fst (build_graph num edges) !! j = Some (Z.of_nat (in_count edges j))) /\
  (forall p, p < num -> snd (build_graph num edges) !! p = Some (consumers edges p)).
Proof.
  induction edges as [|e edges IH] using rev_ind; intros Hlen.
  - unfold build_graph; simpl. rewrite !length_replicate. repeat split;
      intros; rewrite lookup_replicate_2; done.
  - rewrite length_app in Hlen; simpl in Hlen. destruct IH as (Hl1 & Hl2 & Hd & Hc); [lia|].
    rewrite build_graph_app. unfold add_edge; simpl. rewrite !length_alter.
    repeat split; try done; intros j Hj.
    + unfold in_count. rewrite filter_app, length_app, filter_cons, filter_nil.
      destruct (decide (consumer_id e = j)) as [<-|Hne].
      * rewrite list_lookup_alter_eq, Hd by done. simpl. f_equal.
        pose proof (in_count_le edges (consumer_id e)).
        rewrite to_u32_id; unfold in_count in *; lia.
      * rewrite list_lookup_alter_ne, Hd by done. simpl. by rewrite Nat.add_0_r.
    + unfold consumers. rewrite filter_app, fmap_app, filter_cons, filter_nil.
      destruct (decide (producer_id e = j)) as [<-|Hne].
      * by rewrite list_lookup_alter_eq, Hc by done.
      * rewrite list_lookup_alter_ne, Hc by done. simpl. by rewrite app_nil_r.
Qed.

(** ** Sums over the nodes *)

Lemma sum_list_split (f g : nat -> nat) (x : nat) (l : list nat) : NoDup l -> x ∈ l ->
  (forall p, p ∈ l -> p <> x -> f p = g p) -> g x = 0 ->
  sum_list (f <$> l) = f x + sum_list (g <$> l).
Proof.
  induction 1 as [|y l Hy Hnd IH]; intros Hx Hfg Hg; [by apply not_elem_of_nil in Hx|].
  rewrite !fmap_cons. simpl. apply elem_of_cons in Hx as [->|Hx].
  - rewrite Hg. simpl. f_equal. f_equal. apply list_fmap_ext. intros i p Hp.
    apply list_elem_of_lookup_2 in Hp. apply Hfg; [set_solver|]. by intros ->.
  - rewrite (Hfg y) by set_solver. rewrite IH by set_solver. lia.
Qed.

Lemma sum_list_add (f g : nat -> nat) (l : list nat) :
  sum_list ((fun p => f p + g p) <$> l) = sum_list (f <$> l) + sum_list (g <$> l).
Proof. induction l as [|x l IH]; [done|]. rewrite !fmap_cons. simpl. lia. Qed.

Lemma sum_list_zero (l : list nat) : sum_list ((fun _ => 0) <$> l) = 0.
Proof. induction l as [|x l IH]; [done|]. rewrite fmap_cons. simpl. done. Qed.

Lemma sum_list_one (n x : nat) (l : list nat) : NoDup l -> x ∈ l ->
  sum_list ((fun p => if decide (p = x) then n else 0) <$> l) = n.
Proof.
  intros Hnd Hx.
  rewrite (sum_list_split _ (fun _ => 0) x); [|done|done| |done].
  - rewrite decide_True by done. rewrite sum_list_zero. lia.
  - intros p _ Hne. by rewrite decide_False.
Qed.

Lemma occ_consumers_cons e es p j : occ j (consumers (e :: es) p) =
  (if decide (p = producer_id e) then (if decide (consumer_id e = j) then 1 else 0) else 0)
  + occ j (consumers es p).
Proof.
  unfold consumers, occ. rewrite filter_cons.
  destruct (decide (producer_id e = p)), (decide (p = producer_id e)); try congruence; [|done].
  rewrite fmap_cons. simpl. destruct (Nat.eq_dec (consumer_id e) j), (decide (consumer_id e = j)); done.
Qed.

Lemma in_count_sum num edges j : edges_in_range num edges ->
  in_count edges j = sum_list ((fun p => occ j (consumers edges p)) <$> seq 0 num).
Proof.
  induction 1 as [|e es [Hp _] _ IH]; [by rewrite sum_list_zero|].
  rewrite (list_fmap_ext _ (fun p => (if decide (p = producer_id e)
    then (if decide (consumer_id e = j) then 1 else 0) else 0) + occ j (consumers es p)))
    by (intros; apply occ_consumers_cons).
  rewrite sum_list_add, <- IH, sum_list_one by (apply NoDup_seq || (apply elem_of_seq; lia)).
  unfold in_count. rewrite filter_cons. by destruct (decide (consumer_id e = j)).
Qed.

(** ** The in-degree of a node counts its producers that are not sorted yet *)

Section Sort.
Context (num : nat) (dn : list (list nat)).

Definition deps (p : nat) : list nat := default [] (dn !! p).

(** Edges into [j] from the nodes outside [popped]. *)
Definition unsorted (popped : list nat) (j : nat) : nat :=
  sum_list ((fun p => if decide (p ∈ popped) then 0 else occ j (deps p)) <$> seq 0 num).

Lemma unsorted_pop popped x j : x < num -> x ∉ popped ->
  unsorted popped j = occ j (deps x) + unsorted (popped ++ [x]) j.
Proof.
  intros Hx Hnp. unfold unsorted.
  rewrite (sum_list_split (fun p => if decide (p ∈ popped) then 0 else occ j (deps p))
    (fun p => if decide (p ∈ popped ++ [x]) then 0 else occ j (deps p)) x).
  - by rewrite decide_False.
  - apply NoDup_seq.
  - apply elem_of_seq. lia.
  - intros p _ Hne. destruct (decide (p ∈ popped)), (decide (p ∈ popped ++ [x])); set_solver.
  - by rewrite decide_True by set_solver.
Qed.

Lemma unsorted_zero popped j : unsorted popped j = 0 <->
  forall p, p < num -> j ∈ deps p -> p ∈ popped.
Proof.
  unfold unsorted.
  assert (Hz : forall l : list nat, sum_list l = 0 <-> Forall (fun n => n = 0) l).
  { induction l as [|n l IH]; simpl; [split; [constructor|done]|]. rewrite Forall_cons, <- IH. lia. }
  rewrite Hz, Forall_fmap, Forall_forall. unfold compose, occ. split.
  - intros H p Hp Hj. specialize (H p). simpl in H. rewrite elem_of_seq in H.
    specialize (H ltac:(lia)). destruct (decide (p ∈ popped)); [done|].
    apply count_occ_not_In in H. by rewrite list_elem_of_In in Hj.
  - intros H p Hp. apply elem_of_seq in Hp. destruct (decide (p ∈ popped)) as [|Hn]; [done|].
    apply count_occ_not_In. intros Hin. apply Hn, H; [lia|]. by apply list_elem_of_In.
Qed.

(** Every node is preceded by all its producers. *)
Definition topo (l : list nat) : Prop :=
  forall l1 x l2, l = l1 ++ x :: l2 -> forall p, p < num -> x ∈ deps p -> p ∈ l1.

Lemma topo_snoc l x : topo l -> (forall p, p < num -> x ∈ deps p -> p ∈ l) -> topo (l ++ [x]).
Proof.
  intros Ht Hx l1 y l2 E p Hp Hy.
  destruct l2 as [|z l2 _] using rev_ind.
  - apply app_inj_tail in E as [-> ->]. by apply Hx.
  - rewrite app_comm_cons, app_assoc in E. apply app_inj_tail in E as [E _]. by apply (Ht l1 y l2).
Qed.

(** The loop invariant; [todo] are the dependents of the last popped node still to
    be relaxed. *)
Record kahn_inv (popped queue : list nat) (deg : list Z) (todo : list nat) : Prop := {
  ki_len : length deg = num;
  ki_deg : forall j, j < num -> deg !! j = Some (Z.of_nat (unsorted popped j + occ j todo));
  ki_small : forall j, (Z.of_nat (unsorted popped j + occ j todo) < 4294967296)%Z;
  ki_nodup : NoDup (popped ++ queue);
  ki_range : forall x, x ∈ popped ++ queue -> x < num;
  ki_zero : forall j, j < num -> j ∈ popped ++ queue <-> unsorted popped j + occ j todo = 0;
  ki_topo : topo popped
}.

Lemma relax_inv popped todo : forall queue deg,
  (forall j, j ∈ todo -> j < num) -> kahn_inv popped queue deg todo ->
  kahn_inv popped (snd (relax todo deg queue)) (fst (relax todo deg queue)) [].
Proof.
  induction todo as [|d todo IH]; intros queue deg Hr Hinv; [done|].
  simpl. assert (Hd : d < num) by (apply Hr; set_solver).
  destruct Hinv as [Hl Hdeg Hsm Hnd Hrg Hz Ht].
  assert (Hocc : forall j, occ j (d :: todo) = (if decide (j = d) then 1 else 0) + occ j todo).
  { intros j. unfold occ. simpl. destruct (Nat.eq_dec d j), (decide (j = d)); lia || done. }
  assert (Eo : occ d (d :: todo) = S (occ d todo)) by (rewrite Hocc, decide_True; done).
  pose proof (Hsm d) as Hsd. rewrite (Hdeg d Hd), Eo in *. cbn [from_option].
  unfold id. rewrite to_u32_id by lia.
  replace (Z.of_nat (unsorted popped d + S (occ d todo)) - 1)%Z
    with (Z.of_nat (unsorted popped d + occ d todo)) by lia.
  assert (Hnq : d ∉ popped ++ queue).
  { intros Hin. apply Hz in Hin; [|done]. lia. }
  apply IH; [intros; apply Hr; set_solver|].
  split.
  - by rewrite length_insert.
  - intros j Hj. destruct (decide (j = d)) as [->|Hne].
    + by rewrite list_lookup_insert_eq by lia.
    + rewrite list_lookup_insert_ne, Hdeg, Hocc, decide_False by done. done.
  - intros j. specialize (Hsm j). rewrite Hocc in Hsm. lia.
  - destruct (Z.eqb_spec (Z.of_nat (unsorted popped d + occ d todo)) 0); [|done].
    rewrite app_assoc. apply NoDup_app. split; [done|]. split; [set_solver|]. apply NoDup_singleton.
  - intros x. destruct (_ =? 0)%Z; [|apply Hrg]. rewrite app_assoc, elem_of_app, list_elem_of_singleton.
    intros [Hx| ->]; [by apply Hrg | done].
  - intros j Hj. specialize (Hz j Hj). rewrite Hocc in Hz.
    destruct (Z.eqb_spec (Z.of_nat (unsorted popped d + occ d todo)) 0) as [E|E];
      destruct (decide (j = d)) as [->|Hne];
      rewrite ?app_assoc, ?(elem_of_app (popped ++ queue)), ?list_elem_of_singleton.
    + split; [lia|]. by right.
    + simpl in Hz. rewrite Hz. naive_solver lia.
    + split; [|lia]. intros Hin. by contradiction Hnq.
    + simpl in Hz. exact Hz.
  - done.
Qed.

Lemma pop_inv popped x queue deg : kahn_inv popped (x :: queue) deg [] ->
  kahn_inv (popped ++ [x]) queue deg (deps x).
Proof.
  intros [Hl Hdeg Hsm Hnd Hrg Hz Ht].
  assert (Hx : x < num) by (apply Hrg; set_solver).
  assert (Hnp : x ∉ popped) by (apply NoDup_app in Hnd; set_solver).
  assert (Hu : forall j, unsorted popped j + occ j [] = unsorted (popped ++ [x]) j + occ j (deps x)).
  { intros j. rewrite (unsorted_pop popped x j) by done. unfold occ; simpl. lia. }
  split; try done.
  - intros j Hj. by rewrite <- Hu, Hdeg.
  - intros j. by rewrite <- Hu.
  - by rewrite <- app_assoc.
  - intros y. rewrite <- app_assoc. apply Hrg.
  - intros j Hj. rewrite <- Hu, <- app_assoc. by apply Hz.
  - apply topo_snoc; [done|]. apply unsorted_zero.
    pose proof (proj1 (Hz x Hx) ltac:(set_solver)). unfold occ in *; simpl in *. lia.
Qed.

Lemma kahn_init deg : length deg = num ->
  (forall j, j < num -> deg !! j = Some (Z.of_nat (unsorted [] j))) ->
  (forall j, (Z.of_nat (unsorted [] j) < 4294967296)%Z) ->
  kahn_inv [] (initial_queue num deg) deg [].
Proof.
  intros Hl Hdeg Hsm.
  assert (Ez : forall j, unsorted [] j + occ j [] = unsorted [] j) by (intros; unfold occ; simpl; lia).
  split; try done.
  - intros j Hj. by rewrite Ez, Hdeg.
  - intros j. by rewrite Ez.
  - simpl. apply NoDup_filter, NoDup_seq.
  - intros x. simpl. unfold initial_queue. rewrite list_elem_of_filter, elem_of_seq. lia.
  - intros j Hj. simpl. unfold initial_queue. rewrite list_elem_of_filter, elem_of_seq, Ez, Hdeg by done.
    split; [intros [[= H] _]; lia | intros ->; split; [done|lia]].
  - intros l1 x l2 E. by destruct l1.
Qed.
Context (dn_range : forall p l j, dn !! p = Some l -> j ∈ l -> j < num).

(** The loop ends, within [num] iterations, with every node sorted that has all its
    producers sorted. *)
Lemma kahn_loop_spec fuel : forall popped queue deg,
  kahn_inv popped queue deg [] -> num <= fuel + length popped ->
  exists sorted deg', kahn_loop fuel dn deg queue (length popped) = Some (length sorted) /\
    kahn_inv sorted [] deg' [].
Proof.
  induction fuel as [|fuel IH]; intros popped queue deg Hinv Hf; destruct queue as [|x queue].
  - by exists popped, deg.
  - exfalso. pose proof (ki_nodup _ _ _ _ Hinv) as Hnd.
    assert (Hlen : length (popped ++ x :: queue) <= length (seq 0 num)).
    { apply submseteq_length, NoDup_submseteq; [done|].
      intros y Hy%(ki_range _ _ _ _ Hinv). apply elem_of_seq. lia. }
    rewrite length_app, length_seq in Hlen. simpl in Hlen. lia.
  - by exists popped, deg.
  - simpl. apply pop_inv in Hinv.
    assert (Hr : forall j, j ∈ deps x -> j < num).
    { intros j. unfold deps. destruct (dn !! x) eqn:E; simpl; [|set_solver]. by apply (dn_range x). }
    apply (relax_inv _ _ _ _ Hr) in Hinv. fold (deps x).
    destruct (IH _ _ _ Hinv) as (sorted & deg' & E & Hs).
    + rewrite length_app; simpl; lia.
    + exists sorted, deg'. rewrite length_app in E. simpl in E.
      replace (length popped + 1) with (S (length popped)) in E by lia. done.
Qed.

End Sort.

(** ** Acyclicity *)

(** A topological order of all nodes rules out cycles. *)
Lemma topo_lt num dn l p x i j : topo num dn l -> NoDup l -> p < num -> x ∈ deps dn p ->
  l !! i = Some p -> l !! j = Some x -> i < j.
Proof.
  intros Ht Hnd Hp Hx Hi Hj.
  pose proof (list_elem_of_split_length l j x Hj) as (l1 & l2 & -> & Hl1).
  specialize (Ht l1 x l2 eq_refl p Hp Hx). apply list_elem_of_lookup in Ht as [k Hk].
  assert (k < length l1) by by eapply lookup_lt_Some.
  assert (Hk' : (l1 ++ x :: l2) !! k = Some p) by by rewrite lookup_app_l.
  assert (i = k) as -> by by eapply NoDup_lookup. lia.
Qed.

Lemma full_sorted (num : nat) (sorted : list nat) : NoDup sorted -> (forall x, x ∈ sorted -> x < num) ->
  length sorted = num <-> (forall x, x < num -> x ∈ sorted).
Proof.
  intros Hnd Hr.
  assert (Hsub : sorted ⊆+ seq 0 num).
  { apply NoDup_submseteq; [done|]. intros x Hx%Hr. apply elem_of_seq. lia. }
  split.
  - intros Hl x Hx. assert (Hp : sorted ≡ₚ seq 0 num).
    { apply submseteq_length_Permutation; [done|]. rewrite length_seq. lia. }
    rewrite Hp. apply elem_of_seq. lia.
  - intros Hall. apply Nat.le_antisymm.
    + apply submseteq_length in Hsub. by rewrite length_seq in Hsub.
    + assert (Hs : seq 0 num ⊆+ sorted).
      { apply NoDup_submseteq; [apply NoDup_seq|]. intros x Hx%elem_of_seq. apply Hall. lia. }
      apply submseteq_length in Hs. by rewrite length_seq in Hs.
Qed.

Lemma tc_flip_1 {A} (R : relation A) a b : tc (flip R) a b -> tc R b a.
Proof. induction 1 as [a b H|a b c H _ IH]; [by apply tc_once | by eapply tc_r]. Qed.

Section Acyclic.
Context (num : nat) (edges : list Dependency_Edge).
Context (Hrange : edges_in_range num edges).
Context (Hlen : (Z.of_nat (length edges) < 4294967296)%Z).
Local Abbreviation dn := (snd (build_graph num edges)).
Local Abbreviation deg0 := (fst (build_graph num edges)).

Lemma edge_lt x y : edge_rel edges x y -> x < num /\ y < num.
Proof. intros He. by apply (proj1 (Forall_forall _ _) Hrange (mkEdge x y)). Qed.

Lemma deps_consumers p : p < num -> deps dn p = consumers edges p.
Proof.
  intros Hp. unfold deps. destruct (build_graph_spec num edges Hlen) as (_ & _ & _ & Hc).
  by rewrite Hc.
Qed.

Lemma dn_ok : length dn = num /\ (forall p l j, dn !! p = Some l -> j ∈ l -> j < num).
Proof.
  destruct (build_graph_spec num edges Hlen) as (_ & Hl & _ & Hc). split; [done|].
  intros p l j Hp Hj. assert (Hp' : p < num) by (rewrite <- Hl; by eapply lookup_lt_Some).
  rewrite Hc in Hp by done. injection Hp as <-. apply elem_of_consumers in Hj.
  by destruct (edge_lt _ _ Hj).
Qed.

(** The in-degree is the number of edges, counted producer by producer. *)
Lemma in_count_unsorted j : in_count edges j = unsorted num dn [] j.
Proof.
  rewrite (in_count_sum num) by done. unfold unsorted. f_equal.
  apply list_fmap_ext. intros i p Hp. rewrite decide_False by set_solver.
  apply list_elem_of_lookup_2, elem_of_seq in Hp. rewrite deps_consumers by lia. done.
Qed.

Lemma kahn_start : kahn_inv num dn [] (initial_queue num deg0) deg0 [].
Proof.
  destruct (build_graph_spec num edges Hlen) as (Hl & _ & Hd & _).
  apply kahn_init; [done| |].
  - intros j Hj. by rewrite Hd, in_count_unsorted.
  - intros j. rewrite <- in_count_unsorted. pose proof (in_count_le edges j). lia.
Qed.

(** What the algorithm computes: a topologically ordered, duplicate-free list of
    nodes, closed under "all producers sorted". *)
Lemma kahn_result : exists sorted, kahn num deg0 dn = Some (length sorted) /\
  NoDup sorted /\ (forall x, x ∈ sorted -> x < num) /\ topo num dn sorted /\
  (forall j, j < num -> (forall p, edge_rel edges p j -> p ∈ sorted) -> j ∈ sorted).
Proof.
  destruct dn_ok as [Hdl Hdr].
  destruct (kahn_loop_spec num dn Hdr num [] _ deg0 kahn_start) as (sorted & deg & E & Hinv);
    [simpl; lia|].
  exists sorted. destruct Hinv as [_ _ _ Hnd Hrg Hz Ht]. rewrite app_nil_r in Hnd.
  assert (Hrg' : forall x, x ∈ sorted -> x < num) by (intros x Hx; apply Hrg; by rewrite app_nil_r).
  split; [exact E|]. split; [done|]. split; [done|]. split; [done|].
  intros j Hj Hp. specialize (Hz j Hj). rewrite app_nil_r in Hz. apply Hz.
  unfold occ; simpl. rewrite Nat.add_0_r. apply unsorted_zero.
  intros p Hpn. rewrite deps_consumers by done. rewrite elem_of_consumers. apply Hp.
Qed.

Lemma sorted_all_acyclic (sorted : list nat) : NoDup sorted -> topo num dn sorted ->
  (forall x, x < num -> x ∈ sorted) -> acyclic edges.
Proof.
  intros Hnd Ht Hall.
  assert (Hlt : forall x y, tc (edge_rel edges) x y ->
    exists i j, sorted !! i = Some x /\ sorted !! j = Some y /\ i < j).
  { assert (H1 : forall x y, edge_rel edges x y ->
      exists i j, sorted !! i = Some x /\ sorted !! j = Some y /\ i < j).
    { intros x y He. destruct (edge_lt _ _ He) as [Hx Hy].
      apply Hall, list_elem_of_lookup in Hy as [j Hj].
      pose proof (Hall x Hx) as [i Hi]%list_elem_of_lookup.
      exists i, j. split; [done|]. split; [done|].
      eapply (topo_lt num dn sorted x y); try done.
      rewrite deps_consumers by done. by apply elem_of_consumers. }
    induction 1 as [x y He|x y z He _ (i & j & Hi & Hj & Hij)]; [by apply H1|].
    destruct (H1 _ _ He) as (i' & j' & Hi' & Hj' & Hij').
    exists i', j. repeat split; try done.
    assert (j' = i) as -> by by eapply NoDup_lookup. lia. }
  intros x Hc. apply Hlt in Hc as (i & j & Hi & Hj & Hij).
  assert (i = j) by by eapply NoDup_lookup. lia.
Qed.

Lemma acyclic_sorted_all (sorted : list nat) : acyclic edges ->
  (forall j, j < num -> (forall p, edge_rel edges p j -> p ∈ sorted) -> j ∈ sorted) ->
  forall x, x < num -> x ∈ sorted.
Proof.
  intros Hac Hclosed x. assert (Hsn : sn (flip (edge_rel edges)) x).
  { apply tc_finite_sn.
    - intros y Hy. by apply (Hac y), tc_flip_1.
    - exists (seq 0 num). intros y Hy.
      apply elem_of_seq. assert (y < num); [|lia].
      induction Hy as [a b He|a b c He _ IH]; [|done]. by destruct (edge_lt _ _ He). }
  induction Hsn as [x _ IH]. intros Hx. apply Hclosed; [done|].
  intros p Hp. apply IH; [done|]. by destruct (edge_lt _ _ Hp).
Qed.

End Acyclic.

Lemma validate_dag_ok num es : (Z.of_nat (length es) < 4294967296)%Z ->
  (edges_in_range num es /\ acyclic es /\ validate_dag num es = Ok tt) \/
  (~ (edges_in_range num es /\ acyclic es) /\ validate_dag num es = Throw invalid_argument).
Proof.
  intros Hlen. unfold validate_dag.
  destruct (check_edges_spec num es) as [[Hr ->]|[Hr ->]]; [|right; split; [tauto|done]].
  simpl. destruct (kahn_result num es Hr Hlen) as (sorted & -> & Hnd & Hrg & Ht & Hc).
  pose proof (full_sorted num sorted Hnd Hrg) as Hfull.
  destruct (Nat.eqb_spec (length sorted) num) as [E|E]; [left|right]; simpl.
  - split; [done|]. split; [|done].
    apply (sorted_all_acyclic num es Hr Hlen sorted); [done..|]. by apply Hfull.
  - split; [|done]. intros [_ Hac]. apply E, Hfull. by apply (acyclic_sorted_all num es).
Qed.

(** C6. [validate_dag] accepts a pipeline exactly when every edge refers to existing
    tasks and the dependency relation has no cycle, and raises
    [std::invalid_argument] otherwise; its loop always ends. *)
Theorem validate_dag_correct num edges : (Z.of_nat (length edges) < 4294967296)%Z ->
  (edges_in_range num edges /\ acyclic edges /\ validate_dag num edges = Ok tt) \/
  (~ (edges_in_range num edges /\ acyclic edges) /\
   validate_dag num edges = Throw invalid_argument).
Proof. apply validate_dag_ok. Qed.

(** A diamond, and a cycle of two tasks. *)
Definition diamond : list Dependency_Edge := [mkEdge 0 1; mkEdge 0 2; mkEdge 1 3; mkEdge 2 3].

Example validate_dag_correct_witness :
  (edges_in_range 4 diamond /\ acyclic diamond /\ validate_dag 4 diamond = Ok tt) \/
  (~ (edges_in_range 4 diamond /\ acyclic diamond) /\
   validate_dag 4 diamond = Throw invalid_argument).
Proof. apply (validate_dag_correct 4 diamond). reflexivity. Defined.

Example validate_dag_rejects : validate_dag 2 [mkEdge 0 1; mkEdge 1 0] = Throw invalid_argument.
Proof. reflexivity. Qed.
