(* ===== verification/RankPool.v ===== *)
(** * DAGR: the pool of MPI ranks ([dagr/detail/rank_pool.hpp], [rank_pool.cpp])

    The parallel vectors [rank_ids_] and [bitset_] are one list of slots: a rank
    and whether it is available.  [std::set<int>] is [gset Z]; a loop over one
    visits its elements in ascending order.  Every public operation runs under
    [structural_mutex_], so it is one atomic step. *)
From stdpp Require Import base list numbers gmap sets sorting.
From Stdlib Require Import ZArith Lia.
From S2P Require Import Prelude CInt.

(** ** The code *)

Record Rank_Pool : Type := mkPool {
  slots : list (Z * bool);
  total_ : Z;
  available_ : Z
}.

Definition ascending (s : gset Z) : list Z := merge_sort Z.le (elements s).

(** The constructor: every rank available. *)
Definition rank_pool (ranks : gset Z) : Rank_Pool :=
  mkPool ((fun r => (r, true)) <$> ascending ranks)
    (to_u32 (Z.of_nat (size ranks))) (to_u32 (Z.of_nat (size ranks))).

(** [for (i = 0; i < pool_size && allocated.size() < count; ++i)] with the
    compare-exchange from available to taken. *)
Fixpoint grab (count : Z) (l : list (Z * bool)) (allocated : gset Z) : list (Z * bool) * gset Z :=
  match l with
  | [] => ([], allocated)
  | (r, free) :: rest =>
      if (Z.of_nat (size allocated) <? count)%Z then
        let g := grab count rest (if free : bool then {[r]} ∪ allocated else allocated) in
        ((r, false) :: fst g, snd g)
      else (l, allocated)
  end.

(** Set the flag of the slots whose rank is in [a]. *)
Definition mark (a : gset Z) (flag : bool) (l : list (Z * bool)) : list (Z * bool) :=
  (fun s => if decide (s.1 ∈ a) then (s.1, flag) else s) <$> l.

Definition try_allocate (p : Rank_Pool) (count : Z) : result (gset Z * Rank_Pool) :=
  do! throw_if (count =? 0)%Z invalid_argument then
  if (available_ p <? count)%Z then Ok (∅, p)
  else
    let g := grab count (slots p) ∅ in
    if (Z.of_nat (size (snd g)) <? count)%Z then
      Ok (∅, mkPool (mark (snd g) true (fst g)) (total_ p) (available_ p))
    else
      Ok (snd g, mkPool (fst g) (total_ p) (to_u32 (available_ p - Z.of_nat (size (snd g))))).

(** The loop of [release]: the new slots and [released_count]. *)
Fixpoint release_loop (ranks : gset Z) (l : list (Z * bool)) : list (Z * bool) * Z :=
  match l with
  | [] => ([], 0%Z)
  | (r, free) :: rest =>
      let g := release_loop ranks rest in
      if decide (r ∈ ranks) then
        ((r, true) :: fst g, if free : bool then snd g else (snd g + 1)%Z)
      else ((r, free) :: fst g, snd g)
  end.

Definition release (p : Rank_Pool) (ranks : gset Z) : Rank_Pool :=
  let g := release_loop ranks (slots p) in
  mkPool (fst g) (total_ p)
    (if (0 <? snd g)%Z then to_u32 (available_ p + snd g) else available_ p).

Definition add_rank (p : Rank_Pool) (rank_id : Z) : Rank_Pool :=
  if decide (rank_id ∈ (slots p).*1) then p
  else mkPool (slots p ++ [(rank_id, true)]) (to_u32 (total_ p + 1)) (to_u32 (available_ p + 1)).

Definition add_ranks (p : Rank_Pool) (ranks : gset Z) : Rank_Pool :=
  fold_left add_rank (ascending ranks) p.

(** Swap with the last element and pop. *)
Definition swap_remove (l : list (Z * bool)) (idx : nat) : list (Z * bool) :=
  let last := length l - 1 in
  if (idx =? last)%nat then take last l
  else match l !! last with
       | Some b => take last (<[idx := b]> l)
       | None => l
       end.

(** The slots to remove: requested and available. *)
Definition removable (ranks : gset Z) (s : Z * bool) : bool :=
  bool_decide (s.1 ∈ ranks) && s.2.

Fixpoint indices_to_remove (ranks : gset Z) (i : nat) (l : list (Z * bool)) : list nat :=
  match l with
  | [] => []
  | s :: rest =>
      if removable ranks s then i :: indices_to_remove ranks (S i) rest
      else indices_to_remove ranks (S i) rest
  end.

Definition removed_ranks (ranks : gset Z) (l : list (Z * bool)) : gset Z :=
  list_to_set (fst <$> filter (fun s => removable ranks s = true) l).

Definition remove_available (p : Rank_Pool) (ranks : gset Z) : gset Z * Rank_Pool :=
  let removed := removed_ranks ranks (slots p) in
  let l := fold_left swap_remove (reverse (indices_to_remove ranks 0 (slots p))) (slots p) in
  let removed_count := Z.of_nat (size removed) in
  (removed,
   if (0 <? removed_count)%Z
   then mkPool l (to_u32 (total_ p - removed_count)) (to_u32 (available_ p - removed_count))
   else mkPool l (total_ p) (available_ p)).

Definition total_ranks (p : Rank_Pool) : Z := total_ p.
Definition available_ranks (p : Rank_Pool) : Z := available_ p.
Definition allocated_ranks (p : Rank_Pool) : Z := to_u32 (total_ p - available_ p).

(** ** The invariant: distinct ranks, exact counters *)

Definition is_free (s : Z * bool) : Prop := s.2 = true.
#[export] Instance is_free_dec s : Decision (is_free s).
Proof. unfold is_free. apply _. Defined.

Definition rank_ids (p : Rank_Pool) : list Z := (slots p).*1.
Definition free_count (l : list (Z * bool)) : nat := length (filter is_free l).
Definition free_ids (l : list (Z * bool)) : list Z := (filter is_free l).*1.

Record wf_pool (p : Rank_Pool) : Prop := {
  wp_nodup : NoDup (rank_ids p);
  wp_small : (Z.of_nat (length (slots p)) < 4294967296)%Z;
  wp_total : total_ p = Z.of_nat (length (slots p));
  wp_available : available_ p = Z.of_nat (free_count (slots p))
}.

Lemma free_count_le l : free_count l <= length l.
Proof. apply length_filter. Qed.

Lemma free_count_cons r b l : free_count ((r, b) :: l) = (if b : bool then 1 else 0) + free_count l.
Proof. unfold free_count. rewrite filter_cons. unfold is_free; simpl. by destruct b, (decide _). Qed.

Lemma elem_of_free_ids r l : r ∈ free_ids l <-> (r, true) ∈ l.
Proof.
  unfold free_ids. rewrite list_elem_of_fmap. split.
  - intros ([r' b] & -> & [Hb Hin]%list_elem_of_filter). unfold is_free in Hb. simpl in *. by subst.
  - intros Hin. exists (r, true). split; [done|]. by apply list_elem_of_filter.
Qed.

(** ** Marking *)

Lemma mark_ids a b l : (mark a b l).*1 = l.*1.
Proof.
  unfold mark. rewrite <- list_fmap_compose. apply list_fmap_ext. intros i s _. simpl.
  by destruct (decide _).
Qed.

Lemma mark_cons a b s l :
  mark a b (s :: l) = (if decide (s.1 ∈ a) then (s.1, b) else s) :: mark a b l.
Proof. done. Qed.

Lemma length_mark a b l : length (mark a b l) = length l.
Proof. unfold mark. apply length_fmap. Qed.

Lemma mark_disjoint a b l : (forall r, r ∈ l.*1 -> r ∉ a) -> mark a b l = l.
Proof.
  intros H. unfold mark. rewrite <- (list_fmap_id l) at 2. apply list_fmap_ext.
  intros i s Hs%list_elem_of_lookup_2. rewrite decide_False; [done|].
  apply H. by apply list_elem_of_fmap_2.
Qed.

(** Undoing an allocation restores every slot. *)
Lemma mark_back a l : NoDup l.*1 -> (forall r, r ∈ a -> (r, true) ∈ l) ->
  mark a true (mark a false l) = l.
Proof.
  intros Hnd H. unfold mark. rewrite <- list_fmap_compose. rewrite <- (list_fmap_id l) at 2.
  apply list_fmap_ext. intros i [r b] Hs. unfold compose. simpl.
  destruct (decide (r ∈ a)) as [Hr|Hr]; simpl; [|by rewrite decide_False].
  rewrite decide_True by done. specialize (H r Hr). unfold id. f_equal.
  apply list_elem_of_lookup in H as [j Hj].
  assert (i = j) as ->.
  { apply (NoDup_lookup l.*1 i j r Hnd); rewrite list_lookup_fmap; by rewrite ?Hs, ?Hj. }
  congruence.
Qed.

(** ** Allocation *)

Lemma grab_spec count l : forall al, NoDup l.*1 -> (forall r, r ∈ al -> r ∉ l.*1) ->
  (Z.of_nat (size al) <= count)%Z ->
  exists b : gset Z, grab count l al = (mark b false l, al ∪ b) /\ (forall r, r ∈ b -> (r, true) ∈ l) /\
    Z.of_nat (size (al ∪ b)) = Z.min count (Z.of_nat (size al + free_count l)) /\
    free_count (mark b false l) + size b = free_count l /\ size (al ∪ b) = size al + size b.
Proof.
  assert (E0 : size (∅ : gset Z) = 0) by apply size_empty.
  induction l as [|[r free] l IH]; intros al Hnd Hdis Hsz.
  - exists ∅. rewrite union_empty_r_L, E0. unfold free_count; simpl.
    repeat split; (set_solver || lia).
  - rewrite fmap_cons, NoDup_cons in Hnd. destruct Hnd as [Hr Hnd]. simpl in Hr.
    simpl grab. destruct (Z.ltb_spec (Z.of_nat (size al)) count) as [Hlt|Hge].
    2:{ exists ∅. rewrite union_empty_r_L, mark_disjoint, E0 by set_solver.
        repeat split; (set_solver || lia). }
    assert (Hral : r ∉ al) by (intros H; apply (Hdis r H); simpl; set_solver).
    assert (Hsz' : size ({[r]} ∪ al) = S (size al)) by (rewrite size_union, size_singleton by set_solver; done).
    destruct (IH (if free then {[r]} ∪ al else al)) as (b & -> & Hb & Hmin & Hfc & Hsum); [done| | |].
    { intros x Hx. destruct free; [|set_solver].
      apply elem_of_union in Hx as [->%elem_of_singleton|Hx]; [done|set_solver]. }
    { destruct free; [rewrite Hsz'|]; lia. }
    assert (Hrb : r ∉ b).
    { intros H%Hb. apply Hr. by apply (list_elem_of_fmap_2 fst _ (r, true)). }
    simpl fst. simpl snd. destruct free.
    + exists ({[r]} ∪ b).
      assert (Eb : al ∪ ({[r]} ∪ b) = {[r]} ∪ al ∪ b) by set_solver.
      assert (Esz : size ({[r]} ∪ b) = S (size b)) by (rewrite size_union, size_singleton by set_solver; done).
      assert (Em : mark ({[r]} ∪ b) false l = mark b false l).
      { unfold mark. apply list_fmap_ext. intros i s Hs%list_elem_of_lookup_2.
        assert (s.1 <> r) by (intros <-; apply Hr; by apply list_elem_of_fmap_2).
        destruct (decide (s.1 ∈ {[r]} ∪ b)), (decide (s.1 ∈ b)); set_solver. }
      rewrite !mark_cons. simpl. rewrite decide_True, Em, Eb by set_solver. rewrite !free_count_cons. simpl.
      split; [done|]. split; [|split; [|split]].
      * intros x [->%elem_of_singleton|Hx]%elem_of_union; [set_solver|]. apply elem_of_cons. right. by apply Hb.
      * rewrite Hmin, Hsz'. f_equal. lia.
      * rewrite Esz. lia.
      * rewrite Hsum, Hsz', Esz. lia.
    + exists b. rewrite !mark_cons. simpl. rewrite decide_False by done. rewrite !free_count_cons. simpl.
      split; [done|]. split; [|split; [|split]]; [|lia..].
      intros x Hx. apply elem_of_cons. right. by apply Hb.
Qed.

(** A successful allocation takes exactly [count] available ranks; a failed one
    changes nothing. *)
Lemma try_allocate_spec p count : wf_pool p -> (0 < count)%Z ->
  if (count <=? available_ p)%Z then
    exists a, try_allocate p count = Ok (a, mkPool (mark a false (slots p)) (total_ p) (available_ p - count)) /\
      Z.of_nat (size a) = count /\ (forall r, r ∈ a -> (r, true) ∈ slots p) /\
      wf_pool (mkPool (mark a false (slots p)) (total_ p) (available_ p - count))
  else try_allocate p count = Ok (∅, p).
Proof.
  intros [Hnd Hsm Htot Hav] Hc. unfold try_allocate, throw_if.
  destruct (Z.eqb_spec count 0); [lia|]. simpl.
  destruct (Z.leb_spec count (available_ p)), (Z.ltb_spec (available_ p) count); try lia; [|done].
  destruct (grab_spec count (slots p) ∅ Hnd) as (b & E & Hb & Hmin & Hfc & Hsum);
    [set_solver | rewrite size_empty; lia |].
  rewrite union_empty_l_L in *. rewrite E. simpl fst. simpl snd.
  rewrite size_empty in Hmin. pose proof (free_count_le (slots p)).
  assert (Hs : Z.of_nat (size b) = count) by lia.
  destruct (Z.ltb_spec (Z.of_nat (size b)) count); [lia|].
  exists b. rewrite Hs. rewrite to_u32_id by lia. split; [done|]. split; [done|]. split; [done|].
  split; simpl.
  - unfold rank_ids. simpl. by rewrite mark_ids.
  - by rewrite length_mark.
  - by rewrite length_mark.
  - lia.
Qed.

(** ** Release *)

Lemma release_loop_spec ranks l :
  exists n, release_loop ranks l = (mark ranks true l, Z.of_nat n) /\
    free_count (mark ranks true l) = free_count l + n.
Proof.
  induction l as [|[r free] l (n & E & Hn)]; [by exists 0|].
  simpl release_loop. rewrite E, mark_cons. simpl.
  destruct (decide (r ∈ ranks)); simpl; [destruct free|].
  - exists n. rewrite !free_count_cons. split; [done|lia].
  - exists (S n). rewrite !free_count_cons. split; [f_equal; lia|lia].
  - exists n. rewrite !free_count_cons. split; [done|lia].
Qed.

Lemma release_spec p ranks : wf_pool p ->
  release p ranks = mkPool (mark ranks true (slots p)) (total_ p)
    (Z.of_nat (free_count (mark ranks true (slots p)))) /\
  wf_pool (release p ranks).
Proof.
  intros [Hnd Hsm Htot Hav]. unfold release.
  destruct (release_loop_spec ranks (slots p)) as (n & -> & Hn). simpl.
  pose proof (free_count_le (mark ranks true (slots p))) as Hle. rewrite length_mark in Hle.
  replace (if (0 <? Z.of_nat n)%Z then to_u32 (available_ p + Z.of_nat n) else available_ p)
    with (Z.of_nat (free_count (mark ranks true (slots p)))).
  2:{ destruct (Z.ltb_spec 0 (Z.of_nat n)); [rewrite to_u32_id|]; lia. }
  split; [done|]. split; unfold rank_ids; simpl; rewrite ?mark_ids, ?length_mark; done.
Qed.

(** ** Adding ranks *)

Lemma add_rank_wf p r : wf_pool p -> (Z.of_nat (length (slots p)) + 1 < 4294967296)%Z ->
  wf_pool (add_rank p r) /\ length (slots (add_rank p r)) <= S (length (slots p)) /\
  (forall x b, (x, b) ∈ slots p -> (x, b) ∈ slots (add_rank p r)) /\ r ∈ rank_ids (add_rank p r).
Proof.
  intros Hwf Hsm'. unfold add_rank. case_decide as Hr; [auto with lia|].
  destruct Hwf as [Hnd Hsm Htot Hav]. pose proof (free_count_le (slots p)).
  split; [|split; [|split]]; simpl.
  - split; unfold rank_ids; simpl.
    + rewrite fmap_app. apply NoDup_app. split; [done|]. split; [|apply NoDup_singleton].
      intros x Hx. simpl. rewrite list_elem_of_singleton. by intros ->.
    + rewrite length_app; simpl; lia.
    + rewrite length_app, to_u32_id; simpl; lia.
    + unfold free_count in *. rewrite filter_app, length_app, filter_cons_True, filter_nil by done.
      simpl. rewrite to_u32_id; lia.
  - rewrite length_app; simpl; lia.
  - intros x b Hx. apply elem_of_app. by left.
  - unfold rank_ids; simpl. rewrite fmap_app. apply elem_of_app. right. simpl. set_solver.
Qed.

Lemma ascending_elements s : ascending s ≡ₚ elements s.
Proof. apply merge_sort_Permutation. Qed.

Lemma add_ranks_wf p ranks : wf_pool p ->
  (Z.of_nat (length (slots p) + size ranks) < 4294967296)%Z ->
  wf_pool (add_ranks p ranks) /\
  (forall x b, (x, b) ∈ slots p -> (x, b) ∈ slots (add_ranks p ranks)) /\
  (forall x, x ∈ ranks -> x ∈ rank_ids (add_ranks p ranks)).
Proof.
  intros Hwf. unfold add_ranks.
  assert (Hm : forall x, x ∈ ranks <-> x ∈ ascending ranks)
    by (intros; by rewrite ascending_elements, elem_of_elements).
  setoid_rewrite Hm. replace (size ranks) with (length (ascending ranks)).
  2:{ rewrite ascending_elements. done. }
  clear Hm. revert p Hwf. induction (ascending ranks) as [|r rs IH]; intros p Hwf Hsz; simpl in *.
  - split; [done|]. split; [done|set_solver].
  - destruct (add_rank_wf p r Hwf) as (Hwf' & Hlen & Hkeep & Hin); [lia|].
    destruct (IH (add_rank p r) Hwf') as (Hw & Hk & Hi); [lia|].
    split; [done|]. split; [by auto|].
    intros x [->|Hx]%elem_of_cons; [|by auto].
    unfold rank_ids in Hin. apply list_elem_of_fmap in Hin as ([x b] & -> & Hx).
    apply (list_elem_of_fmap_2 fst _ (x, b)). by apply Hk.
Qed.

(** ** Removing available ranks *)

Lemma swap_remove_cons x l i : i < length l -> swap_remove (x :: l) (S i) = x :: swap_remove l i.
Proof.
  intros Hi. unfold swap_remove. simpl length. destruct l as [|y l]; [simpl in Hi; lia|].
  replace (S (length (y :: l)) - 1) with (S (length (y :: l) - 1)) by (simpl; lia).
  set (n := length (y :: l) - 1). simpl Nat.eqb.
  destruct (i =? n); [done|]. change ((x :: y :: l) !! S n) with ((y :: l) !! n).
  destruct ((y :: l) !! n); done.
Qed.

Lemma swap_remove_head x l : swap_remove (x :: l) 0 ≡ₚ l.
Proof.
  unfold swap_remove. simpl length. replace (S (length l) - 1) with (length l) by lia.
  destruct l as [|y l _] using rev_ind; [done|].
  rewrite length_app. simpl length. replace (length l + 1) with (S (length l)) by lia.
  simpl Nat.eqb. cbv iota.
  change ((x :: l ++ [y]) !! S (length l)) with ((l ++ [y]) !! length l).
  rewrite lookup_app_r, Nat.sub_diag by lia. simpl.
  rewrite take_app_length. by rewrite Permutation_cons_append.
Qed.

Lemma swap_remove_length l i : i < length l -> length (swap_remove l i) = length l - 1.
Proof.
  intros Hi. unfold swap_remove. destruct (i =? _); [rewrite length_take; lia|].
  destruct (l !! (length l - 1)) eqn:E; [rewrite length_take, length_insert; lia|].
  apply lookup_ge_None in E. lia.
Qed.

Lemma indices_shift ranks l : forall k,
  indices_to_remove ranks (S k) l = S <$> indices_to_remove ranks k l.
Proof.
  induction l as [|s l IH]; intros k; [done|]. simpl. rewrite (IH (S k)).
  by destruct (removable ranks s).
Qed.

(** Indices shifted past a kept head act on the tail. *)
Lemma fold_swap_shift x (idx : list nat) : forall l,
  (forall i j k, idx !! i = Some j -> idx !! S i = Some k -> k < j) ->
  (forall i, i ∈ idx -> i < length l) ->
  fold_left swap_remove (S <$> idx) (x :: l) = x :: fold_left swap_remove idx l.
Proof.
  induction idx as [|i idx IH]; intros l Hdesc Hlt; [done|].
  rewrite fmap_cons. simpl. rewrite swap_remove_cons by (apply Hlt; set_solver).
  apply IH.
  - intros a j k H1 H2. by apply (Hdesc (S a)).
  - assert (Hb : forall (l' : list nat) i', (forall a j k, (i' :: l') !! a = Some j ->
      (i' :: l') !! S a = Some k -> k < j) -> forall j, j ∈ l' -> j < i').
    { clear. induction l' as [|y l' IH]; intros i' Hd j Hj; [set_solver|].
      assert (y < i') by by apply (Hd 0). apply elem_of_cons in Hj as [->|Hj]; [done|].
      assert (j < y); [|lia]. apply (IH y); [|done]. intros a b c H1 H2. by apply (Hd (S a)). }
    intros j Hj. pose proof (Hb _ _ Hdesc j Hj). pose proof (Hlt i ltac:(set_solver)).
    rewrite swap_remove_length by done. lia.
Qed.

Lemma indices_ascending ranks l : forall k,
  (forall i, i ∈ indices_to_remove ranks k l -> k <= i < k + length l) /\
  StronglySorted lt (indices_to_remove ranks k l).
Proof.
  induction l as [|s l IH]; intros k; simpl; [split; [set_solver|constructor]|].
  destruct (IH (S k)) as [Hr Hs].
  assert (Hr' : forall i, i ∈ indices_to_remove ranks (S k) l -> k < i < k + S (length l))
    by (intros i Hi%Hr; lia).
  destruct (removable ranks s); split; try done.
  - intros i [->|Hi]%elem_of_cons; [lia|]. apply Hr' in Hi. lia.
  - constructor; [done|]. apply Forall_forall. intros i Hi%Hr'. lia.
  - intros i Hi%Hr'. lia.
Qed.

Lemma sorted_lookup_lt (l : list nat) : StronglySorted lt l ->
  forall a b x y, l !! a = Some x -> l !! b = Some y -> a < b -> x < y.
Proof.
  induction 1 as [|z l Hs IH Hf]; intros a b x y Ha Hb Hab; [done|].
  destruct b as [|b]; [lia|]. destruct a as [|a]; simpl in *.
  - injection Ha as <-. rewrite Forall_forall in Hf. apply Hf. by eapply list_elem_of_lookup_2.
  - eapply (IH a b); try done. lia.
Qed.

Lemma sorted_reverse_desc (l : list nat) : StronglySorted lt l ->
  forall i j k, reverse l !! i = Some j -> reverse l !! S i = Some k -> k < j.
Proof.
  intros Hs i j k Hj Hk.
  pose proof (lookup_lt_Some _ _ _ Hk) as Hlt. rewrite length_reverse in Hlt.
  rewrite reverse_lookup in Hj, Hk by lia.
  eapply (sorted_lookup_lt l Hs); [exact Hk|exact Hj|lia].
Qed.

(** Removing the indices from the highest down keeps exactly the other slots. *)
Lemma remove_loop_spec ranks l :
  fold_left swap_remove (reverse (indices_to_remove ranks 0 l)) l ≡ₚ
  filter (fun s => removable ranks s = false) l.
Proof.
  induction l as [|s l IH]; [done|].
  assert (Hshift : fold_left swap_remove (reverse (S <$> indices_to_remove ranks 0 l)) (s :: l) =
    s :: fold_left swap_remove (reverse (indices_to_remove ranks 0 l)) l).
  { destruct (indices_ascending ranks l 0) as [Hr Hs].
    rewrite <- fmap_reverse. apply fold_swap_shift.
    - by apply sorted_reverse_desc.
    - intros i Hi. rewrite elem_of_reverse in Hi. apply Hr in Hi. lia. }
  simpl. rewrite indices_shift, filter_cons.
  destruct (removable ranks s) eqn:E; simpl.
  - rewrite reverse_cons, fold_left_app, Hshift. simpl. by rewrite swap_remove_head.
  - rewrite Hshift. by f_equiv.
Qed.

Lemma elem_of_removed ranks l r :
  r ∈ removed_ranks ranks l <-> r ∈ ranks /\ (r, true) ∈ l.
Proof.
  unfold removed_ranks. rewrite elem_of_list_to_set, list_elem_of_fmap. split.
  - intros ([x b] & -> & [Hr Hin]%list_elem_of_filter). unfold removable in Hr. simpl in *.
    apply andb_true_iff in Hr as [Hr Hb]. apply bool_decide_eq_true in Hr. simpl in *. by subst.
  - intros [Hr Hin]. exists (r, true). split; [done|]. apply list_elem_of_filter. split; [|done].
    unfold removable. simpl. by rewrite bool_decide_true.
Qed.

Lemma size_removed ranks l : NoDup l.*1 ->
  size (removed_ranks ranks l) = length (filter (fun s => removable ranks s = true) l).
Proof.
  intros Hnd. unfold removed_ranks. rewrite size_list_to_set; [by rewrite length_fmap|].
  induction l as [|s l IH]; [constructor|]. rewrite fmap_cons, NoDup_cons in Hnd.
  destruct Hnd as [Hs Hnd]. rewrite filter_cons. case_decide; [|by apply IH].
  rewrite fmap_cons, NoDup_cons. split; [|by apply IH].
  intros Hin. apply Hs. apply list_elem_of_fmap in Hin as (s' & -> & [_ Hs']%list_elem_of_filter).
  by apply list_elem_of_fmap_2.
Qed.

(** Counting removed and kept slots. *)
Lemma removable_counts ranks l :
  length l = length (filter (fun s => removable ranks s = true) l) +
             length (filter (fun s => removable ranks s = false) l) /\
  free_count l = length (filter (fun s => removable ranks s = true) l) +
                 free_count (filter (fun s => removable ranks s = false) l).
Proof.
  induction l as [|[r b] l [IH1 IH2]]; [done|]. rewrite free_count_cons, !filter_cons.
  assert (Hb : removable ranks (r, b) = true -> b = true).
  { unfold removable. simpl. by intros [_ ?]%andb_true_iff. }
  destruct (removable ranks (r, b)) eqn:E; simpl.
  - rewrite Hb by done. lia.
  - rewrite free_count_cons. lia.
Qed.

Lemma free_count_perm l l' : l ≡ₚ l' -> free_count l = free_count l'.
Proof. intros H. unfold free_count. by rewrite H. Qed.

Lemma remove_available_spec p ranks : wf_pool p ->
  (forall r, r ∈ (remove_available p ranks).1 <-> r ∈ ranks /\ (r, true) ∈ slots p) /\
  slots (remove_available p ranks).2 ≡ₚ filter (fun s => removable ranks s = false) (slots p) /\
  wf_pool (remove_available p ranks).2.
Proof.
  intros [Hnd Hsm Htot Hav].
  split; [intros r; simpl; apply elem_of_removed|].
  pose proof (remove_loop_spec ranks (slots p)) as Hp.
  assert (Hs : slots (remove_available p ranks).2 ≡ₚ filter (fun s => removable ranks s = false) (slots p))
    by (unfold remove_available; simpl; by destruct (0 <? _)%Z).
  split; [done|].
  destruct (removable_counts ranks (slots p)) as [Hlen Hfree].
  pose proof (size_removed ranks (slots p) Hnd) as Hsz. pose proof (free_count_le (slots p)).
  assert (Hl : length (slots (remove_available p ranks).2) =
    length (filter (fun s => removable ranks s = false) (slots p))) by by rewrite Hs.
  assert (Hf : free_count (slots (remove_available p ranks).2) =
    free_count (filter (fun s => removable ranks s = false) (slots p))) by by apply free_count_perm.
  split.
  - unfold rank_ids. rewrite Hs. unfold rank_ids in Hnd. revert Hnd.
    generalize (slots p). induction l as [|s l IH]; [done|].
    rewrite fmap_cons, NoDup_cons, filter_cons. intros [Hns Hnd].
    case_decide; [|by apply IH]. rewrite fmap_cons, NoDup_cons. split; [|by apply IH].
    intros Hin. apply Hns. apply list_elem_of_fmap in Hin as (s' & -> & [_ Hs']%list_elem_of_filter).
    by apply list_elem_of_fmap_2.
  - rewrite Hl. lia.
  - rewrite Hl. unfold remove_available. simpl. rewrite Hsz.
    destruct (Z.ltb_spec 0 (Z.of_nat (length (filter (fun s => removable ranks s = true) (slots p)))));
      simpl; [rewrite to_u32_id|]; lia.
  - rewrite Hf. unfold remove_available. simpl. rewrite Hsz.
    destruct (Z.ltb_spec 0 (Z.of_nat (length (filter (fun s => removable ranks s = true) (slots p)))));
      simpl; [rewrite to_u32_id|]; lia.
Qed.

Lemma rank_pool_wf ranks : (Z.of_nat (size ranks) < 4294967296)%Z ->
  wf_pool (rank_pool ranks) /\ (forall r, r ∈ ranks <-> (r, true) ∈ slots (rank_pool ranks)).
Proof.
  intros Hsz. assert (Hl : length (ascending ranks) = size ranks) by by rewrite ascending_elements.
  assert (Hf : free_count ((fun r => (r, true)) <$> ascending ranks) = size ranks).
  { rewrite <- Hl. generalize (ascending ranks). induction l as [|r l IH]; [done|].
    rewrite fmap_cons, free_count_cons, IH. done. }
  split; [split; unfold rank_ids, rank_pool; simpl|].
  - rewrite <- list_fmap_compose. unfold compose; simpl. rewrite list_fmap_id.
    rewrite ascending_elements. apply NoDup_elements.
  - by rewrite length_fmap, Hl.
  - rewrite length_fmap, Hl. by rewrite to_u32_id by lia.
  - rewrite Hf. by rewrite to_u32_id by lia.
  - intros r. unfold rank_pool; simpl. rewrite list_elem_of_fmap, <- elem_of_elements, <- (ascending_elements ranks).
    split; [intros; by exists r|by intros (? & [= ->] & ?)].
Qed.

(** The pool's invariant: rank identifiers stay distinct and the two counters
    stay exact (available + allocated = total) from construction through every
    operation, whatever its arguments. *)
Theorem pool_invariant p ranks count : wf_pool p ->
  (Z.of_nat (length (slots p) + size ranks) < 4294967296)%Z ->
  wf_pool (rank_pool ranks) /\ wf_pool (release p ranks) /\ wf_pool (add_ranks p ranks) /\
  wf_pool (remove_available p ranks).2 /\
  (forall a p', (0 <= count)%Z -> try_allocate p count = Ok (a, p') -> wf_pool p') /\
  available_ranks p = Z.of_nat (free_count (slots p)) /\
  (available_ranks p + allocated_ranks p = total_ranks p)%Z.
Proof.
  intros Hwf Hsz. split; [apply rank_pool_wf; lia|]. split; [by apply release_spec|].
  split; [by apply add_ranks_wf|]. split; [by apply remove_available_spec|].
  split; [|destruct Hwf as [_ Hs Ht Ha]; pose proof (free_count_le (slots p));
    unfold allocated_ranks, available_ranks, total_ranks; split; [done|]; rewrite to_u32_id; lia].
  intros a p' Hc E. destruct (Z.eq_dec count 0) as [->|Hne]; [done|].
  pose proof (try_allocate_spec p count Hwf ltac:(lia)) as Hs. destruct (count <=? available_ p)%Z.
  - destruct Hs as (b & Hb & _ & _ & Hw). rewrite Hb in E. by injection E as <- <-.
  - rewrite Hs in E. by injection E as <- <-.
Qed.

(** Three ranks, one of them allocated. *)
Definition demo_pool : Rank_Pool := mkPool [(1, true); (5, false); (7, true)]%Z 3 2.

Lemma demo_pool_wf : wf_pool demo_pool.
Proof. split; [repeat constructor; set_solver|done..]. Qed.

Example pool_invariant_witness :
  let p := demo_pool in let ranks : gset Z := {[2; 5]}%Z in
  wf_pool (rank_pool ranks) /\ wf_pool (release p ranks) /\
  wf_pool (add_ranks p ranks) /\ wf_pool (remove_available p ranks).2 /\
  (forall a p', (0 <= 2)%Z -> try_allocate p 2 = Ok (a, p') -> wf_pool p') /\
  available_ranks p = Z.of_nat (free_count (slots p)) /\
  (available_ranks p + allocated_ranks p = total_ranks p)%Z.
Proof. apply (pool_invariant demo_pool {[2; 5]}%Z 2); [exact demo_pool_wf | done]. Defined.

(** Allocation is all or nothing: a request that can be met takes exactly that
    many available ranks and releasing them restores the pool, slot by slot; a
    larger request gets nothing and changes nothing; zero is refused. *)
Theorem allocate_release p count : wf_pool p -> (0 <= count)%Z ->
  if (count =? 0)%Z then try_allocate p count = Throw invalid_argument
  else if (count <=? available_ranks p)%Z then
    exists a p', try_allocate p count = Ok (a, p') /\ Z.of_nat (size a) = count /\
      (forall r, r ∈ a -> (r, true) ∈ slots p /\ (r, false) ∈ slots p') /\
      available_ranks p' = (available_ranks p - count)%Z /\ total_ranks p' = total_ranks p /\
      release p' a = p
  else try_allocate p count = Ok (∅, p).
Proof.
  intros Hwf Hc. destruct (Z.eqb_spec count 0) as [->|Hne]; [done|].
  pose proof (try_allocate_spec p count Hwf ltac:(lia)) as Hs. unfold available_ranks in *.
  destruct (count <=? available_ p)%Z; [|done].
  destruct Hs as (a & E & Hsz & Ha & Hw). exists a. eexists. split; [exact E|]. split; [done|].
  split; [|split; [done|split; [done|]]].
  - intros r Hr. split; [by apply Ha|]. simpl. unfold mark. apply list_elem_of_fmap.
    exists (r, true). simpl. rewrite decide_True by done. split; [done|by apply Ha].
  - destruct (release_spec _ a Hw) as [-> _]. simpl. destruct Hwf as [Hnd Hsm Htot Hav].
    rewrite mark_back by done. destruct p; simpl in *. by rewrite Hav.
Qed.

Example allocate_release_witness :
  exists a p', try_allocate demo_pool 2 = Ok (a, p') /\ Z.of_nat (size a) = 2%Z /\
    (forall r, r ∈ a -> (r, true) ∈ slots demo_pool /\ (r, false) ∈ slots p') /\
    available_ranks p' = (2 - 2)%Z /\ total_ranks p' = 3%Z /\ release p' a = demo_pool.
Proof. apply (allocate_release demo_pool 2 demo_pool_wf). done. Defined.
