(* ===== verification/EventLoop.v ===== *)
(** * DAGR: the poll-dispatch-complete event loop
    ([dagr/detail/task_node.hpp], [dagr/detail/event_loop.hpp], [event_loop.cpp])

    One operation is one function on the loop's state.  The callbacks are arbitrary
    functions on a caller state [W]; an exception they throw is a [Throw].  The
    steady clock is a sequence of readings in nanoseconds.  Log messages are not
    modelled.  The state at the time an exception leaves an operation is not
    modelled either. *)
From stdpp Require Import base list numbers gmap sets strings.
From Stdlib Require Import ZArith Lia.
From S2P Require Import Prelude CInt RankPool.

(** ** Data *)

Inductive Task_Status : Type := pending | ready | running | completed | failed | cancelled.

#[export] Instance Task_Status_eq_dec : EqDecision Task_Status.
Proof. solve_decision. Defined.

Record TaskNode : Type := mkNode {
  id : nat; name : string; pending_deps : Z; status : Task_Status;
  required_ranks : Z; dependents : list nat
}.

Definition with_status (s : Task_Status) (n : TaskNode) : TaskNode :=
  mkNode (id n) (name n) (pending_deps n) s (required_ranks n) (dependents n).

(** [pending_deps.fetch_sub(1)] *)
Definition decrement (n : TaskNode) : TaskNode :=
  mkNode (id n) (name n) (to_u32 (pending_deps n - 1)) (status n) (required_ranks n) (dependents n).

Definition is_terminal (s : Task_Status) : bool :=
  bool_decide (s = completed) || bool_decide (s = failed) || bool_decide (s = cancelled).

Record Config : Type := mkConfig { max_concurrency : Z; deadlock_timeout_s : Z }.

(** The scheduling state: the nodes and the pool it references, the queue, the
    counter and the ranks held by each node. *)
Record Core : Type := mkCore {
  nodes : list TaskNode; rank_pool_ : Rank_Pool; ready_queue : list nat;
  in_flight : Z; allocated : list (gset Z)
}.

(** Deadlock detection: last progress, whether the warning was emitted, and how
    often the clock has been read. *)
Record Timer : Type := mkTimer { last_progress : Z; deadlock_warned : bool; clock_reads : nat }.

Record Event_Loop {W : Type} : Type := mkLoop {
  config : Config; core : Core; timer : Timer; world : W;
  dispatch_cb : option (W -> nat -> gset Z -> W * result bool);
  completion_cb : option (W -> W * result (list (nat * bool)))
}.
Arguments Event_Loop W : clear implicits.

(** ** Operations on the scheduling state *)

Definition all_complete (c : Core) : bool := forallb (fun n => is_terminal (status n)) (nodes c).

(** Phase 1: mark the pending nodes without pending dependencies and queue them. *)
Fixpoint poll (l : list TaskNode) (queue : list nat) : list TaskNode * list nat :=
  match l with
  | [] => ([], queue)
  | n :: rest =>
      if bool_decide (status n = pending) && (pending_deps n =? 0)%Z then
        let g := poll rest (queue ++ [id n]) in (with_status ready n :: fst g, snd g)
      else
        let g := poll rest queue in (n :: fst g, snd g)
  end.

Definition poll_ready_nodes (c : Core) : Core :=
  let g := poll (nodes c) (ready_queue c) in
  mkCore (fst g) (rank_pool_ c) (snd g) (in_flight c) (allocated c).

(** Return the ranks a node holds, if any. *)
Definition release_ranks (c : Core) (node_id : nat) : Core :=
  match allocated c !! node_id with
  | Some ranks =>
      if bool_decide (ranks = ∅) then c
      else mkCore (nodes c) (release (rank_pool_ c) ranks) (ready_queue c) (in_flight c)
             (<[node_id := ∅]> (allocated c))
  | None => c
  end.

Definition set_status (c : Core) (node_id : nat) (s : Task_Status) : Core :=
  mkCore (alter (with_status s) node_id (nodes c)) (rank_pool_ c) (ready_queue c)
    (in_flight c) (allocated c).

Definition set_in_flight (c : Core) (n : Z) : Core :=
  mkCore (nodes c) (rank_pool_ c) (ready_queue c) n (allocated c).

(** [force_cancel_in_flight], the loop body for one node and the loop. *)
Definition force_cancel_one (c : Core) (i : nat) : Core :=
  match nodes c !! i with
  | Some n =>
      if bool_decide (status n = running) then set_status (release_ranks c (id n)) i cancelled else c
  | None => c
  end.

Definition force_cancel_core (c : Core) : Core :=
  set_in_flight (fold_left force_cancel_one (seq 0 (length (nodes c))) c) 0.

(** The breadth-first traversal of [propagate_failure]: cancel what is neither
    terminal nor running and continue through it.  Each iteration removes a queue
    entry and each node is expanded at most once, so the initial queue and all the
    adjacency lists bound the iterations. *)
Fixpoint bfs (fuel : nat) (ns : list TaskNode) (queue : list nat) : option (list TaskNode) :=
  match queue with
  | [] => Some ns
  | current_id :: rest =>
      match fuel with
      | O => None
      | S f =>
          match ns !! current_id with
          | None => bfs f ns rest
          | Some dep_node =>
              if is_terminal (status dep_node) then bfs f ns rest
              else if bool_decide (status dep_node = running) then bfs f ns rest
              else bfs f (alter (with_status cancelled) current_id ns) (rest ++ dependents dep_node)
          end
      end
  end.

Definition bfs_fuel (ns : list TaskNode) (queue : list nat) : nat :=
  length queue + sum_list ((fun n => length (dependents n)) <$> ns).

Definition propagate_failure_core (c : Core) (failed_id : nat) : result Core :=
  match nodes c !! failed_id with
  | None => Undef
  | Some node =>
      let c1 := release_ranks (set_status c failed_id failed) failed_id in
      let c2 := set_in_flight c1 (if (0 <? in_flight c1)%Z then in_flight c1 - 1 else in_flight c1)%Z in
      match bfs (bfs_fuel (nodes c2) (dependents node)) (nodes c2) (dependents node) with
      | Some ns => Ok (mkCore ns (rank_pool_ c2) (ready_queue c2) (in_flight c2) (allocated c2))
      | None => Undef
      end
  end.

(** Decrement the pending dependencies of the dependents. *)
Definition notify (ns : list TaskNode) (deps : list nat) : list TaskNode :=
  fold_left (fun ns dep_id => alter decrement dep_id ns) deps ns.

(** The successful branch of [process_completions]. *)
Definition complete_core (c : Core) (node_id : nat) (node : TaskNode) : Core :=
  let c1 := release_ranks (set_status c node_id completed) node_id in
  mkCore (notify (nodes c1) (dependents node)) (rank_pool_ c1) (ready_queue c1)
    (to_u32 (in_flight c1 - 1)) (allocated c1).

(** What dispatching a node changes before the callback is invoked. *)
Definition start_core (c : Core) (node_id : nat) (rest : list nat) (ranks : gset Z) (p : Rank_Pool) : Core :=
  mkCore (alter (with_status running) node_id (nodes c)) p rest
    (to_u32 (in_flight c + 1)) (<[node_id := ranks]> (allocated c)).

(** ** The loop *)

Section Loop.
Context {W : Type} (clock : nat -> Z).

Definition with_core (l : Event_Loop W) (c : Core) : Event_Loop W :=
  mkLoop W (config l) c (timer l) (world l) (dispatch_cb l) (completion_cb l).

Definition with_world (l : Event_Loop W) (w : W) : Event_Loop W :=
  mkLoop W (config l) (core l) (timer l) w (dispatch_cb l) (completion_cb l).

Definition with_timer (l : Event_Loop W) (t : Timer) : Event_Loop W :=
  mkLoop W (config l) (core l) t (world l) (dispatch_cb l) (completion_cb l).

(** The constructor. *)
Definition event_loop (cfg : Config) (ns : list TaskNode) (p : Rank_Pool) (w : W) : result (Event_Loop W) :=
  do! throw_if ((max_concurrency cfg <? 1) || (1024 <? max_concurrency cfg))%Z invalid_argument then
  do! throw_if ((deadlock_timeout_s cfg <? 1) || (3600 <? deadlock_timeout_s cfg))%Z invalid_argument then
  Ok (mkLoop W cfg (mkCore ns p [] 0 (replicate (length ns) ∅)) (mkTimer (clock 0) false 1) w None None).

Definition set_dispatch_callback (l : Event_Loop W) cb : Event_Loop W :=
  mkLoop W (config l) (core l) (timer l) (world l) (Some cb) (completion_cb l).

Definition set_completion_callback (l : Event_Loop W) cb : Event_Loop W :=
  mkLoop W (config l) (core l) (timer l) (world l) (dispatch_cb l) (Some cb).

Definition record_progress (l : Event_Loop W) : Event_Loop W :=
  with_timer l (mkTimer (clock (clock_reads (timer l))) false (S (clock_reads (timer l)))).

Definition force_cancel_in_flight (l : Event_Loop W) : Event_Loop W :=
  record_progress (with_core l (force_cancel_core (core l))).

Definition propagate_failure (l : Event_Loop W) (failed_id : nat) : result (Event_Loop W) :=
  let! c := propagate_failure_core (core l) failed_id in
  Ok (record_progress (with_core l c)).

(** Phase 2.  Every iteration removes a queue entry or stops, so the length of the
    queue bounds the iterations. *)
Fixpoint dispatch_loop (fuel : nat) (l : Event_Loop W) : result (Event_Loop W) :=
  let c := core l in
  match ready_queue c with
  | [] => Ok l
  | node_id :: rest =>
      match fuel with
      | O => Undef
      | S f =>
          if (max_concurrency (config l) <=? in_flight c)%Z then Ok l
          else
            match nodes c !! node_id with
            | None => Undef
            | Some node =>
                if negb (bool_decide (status node = ready)) then
                  dispatch_loop f (with_core l
                    (mkCore (nodes c) (rank_pool_ c) rest (in_flight c) (allocated c)))
                else
                  let! '(ranks, p) := try_allocate (rank_pool_ c) (required_ranks node) in
                  if bool_decide (ranks = ∅) then
                    Ok (with_core l (mkCore (nodes c) p (ready_queue c) (in_flight c) (allocated c)))
                  else
                    let l1 := record_progress (with_core l (start_core c node_id rest ranks p)) in
                    match dispatch_cb l1 with
                    | None => dispatch_loop f l1
                    | Some cb =>
                        let '(w, r) := cb (world l1) node_id ranks in
                        match r with
                        | Ok true => dispatch_loop f (with_world l1 w)
                        | Undef => Undef
                        | _ => let! l2 := propagate_failure (with_world l1 w) node_id in
                               dispatch_loop f l2
                        end
                    end
            end
      end
  end.

Definition dispatch_ready_nodes (l : Event_Loop W) : result (Event_Loop W) :=
  dispatch_loop (length (ready_queue (core l))) l.

(** Phase 3: one reported completion, and the loop over them. *)
Definition complete_one (l : Event_Loop W) (node_id : nat) (success : bool) : result (Event_Loop W) :=
  match nodes (core l) !! node_id with
  | None => Ok l
  | Some node =>
      if negb (bool_decide (status node = running)) then Ok l
      else if success then Ok (record_progress (with_core l (complete_core (core l) node_id node)))
      else propagate_failure l node_id
  end.

Fixpoint complete_all (l : Event_Loop W) (completions : list (nat * bool)) : result (Event_Loop W) :=
  match completions with
  | [] => Ok l
  | (node_id, success) :: rest =>
      let! l' := complete_one l node_id success in complete_all l' rest
  end.

Definition process_completions (l : Event_Loop W) : result (Event_Loop W) :=
  match completion_cb l with
  | None => Ok l
  | Some cb =>
      let '(w, r) := cb (world l) in
      let! completions := r in complete_all (with_world l w) completions
  end.

Definition check_deadlock (l : Event_Loop W) : Event_Loop W :=
  let c := core l in let t := timer l in
  if (in_flight c =? 0)%Z && bool_decide (ready_queue c = []) then l
  else if all_complete c then l
  else
    let elapsed := Z.quot (clock (clock_reads t) - last_progress t) 1000000000 in
    with_timer l (mkTimer (last_progress t)
      (if (deadlock_timeout_s (config l) <=? elapsed)%Z then true else deadlock_warned t)
      (S (clock_reads t))).

Definition cycle (l : Event_Loop W) : result (bool * Event_Loop W) :=
  let l1 := with_core l (poll_ready_nodes (core l)) in
  let! l2 := dispatch_ready_nodes l1 in
  let! l3 := process_completions l2 in
  let l4 := check_deadlock l3 in
  Ok (all_complete (core l4), l4).
End Loop.
