(* ===== verification/EventLoopInv.v ===== *)
(** * DAGR: the invariant of the event loop

    [ranks_inv] says who holds which rank and counts the running nodes;
    [sched_inv dn] relates statuses, pending dependencies and the ready queue over
    the adjacency lists [dn].  Every operation preserves both. *)
From stdpp Require Import base list numbers gmap sets relations.
From Stdlib Require Import ZArith Lia.
From S2P Require Import Prelude CInt Kahn RankPool EventLoop.

Section Invariant.
Context (dn : list (list nat)).
Local Abbreviation num := (length dn).

(** ** Statements *)

Definition status_at (ns : list TaskNode) (i : nat) : option Task_Status := status <$> ns !! i.

Definition done_ids (ns : list TaskNode) : list nat :=
  filter (fun i => status_at ns i = Some completed) (seq 0 (length ns)).

Definition running_count (ns : list TaskNode) : nat :=
  length (filter (fun n => status n = running) ns).

Record ranks_inv (maxc : Z) (c : Core) : Prop := {
  r_len : length (allocated c) = length (nodes c);
  r_pool : wf_pool (rank_pool_ c);
  r_held : forall i n a, nodes c !! i = Some n -> allocated c !! i = Some a ->
    status n = running <-> a <> ∅;
  r_taken : forall r, (r, false) ∈ slots (rank_pool_ c) <->
    exists i a, allocated c !! i = Some a /\ r ∈ a;
  r_disj : forall i j a b r, allocated c !! i = Some a -> allocated c !! j = Some b ->
    r ∈ a -> r ∈ b -> i = j;
  r_flight : in_flight c = Z.of_nat (running_count (nodes c));
  r_max : (0 <= in_flight c <= maxc)%Z
}.

Record sched_inv (ns : list TaskNode) (queue : list nat) : Prop := {
  s_graph : dependents <$> ns = dn;
  s_node : forall i n, ns !! i = Some n -> id n = i /\ (0 < required_ranks n)%Z;
  s_nodup : NoDup queue;
  s_queue : forall i, i ∈ queue -> status_at ns i = Some ready \/ status_at ns i = Some cancelled;
  s_ready : forall i, status_at ns i = Some ready -> i ∈ queue;
  s_deps : forall j n, ns !! j = Some n -> pending_deps n = Z.of_nat (unsorted num dn (done_ids ns) j);
  s_order : forall p j, j ∈ deps dn p -> status_at ns p <> Some completed ->
    status_at ns j = Some pending \/ status_at ns j = Some cancelled;
  s_fail : forall p j, j ∈ deps dn p -> status_at ns p = Some failed \/ status_at ns p = Some cancelled ->
    status_at ns j = Some cancelled
}.

(** The graph is one that the constructor builds. *)
Record graph_ok : Prop := {
  g_range : forall p j, j ∈ deps dn p -> j < num;
  g_small : forall j, (Z.of_nat (unsorted num dn [] j) < 4294967296)%Z
}.

Definition loop_inv (maxc : Z) (c : Core) : Prop :=
  ranks_inv maxc c /\ sched_inv (nodes c) (ready_queue c).

(** ** Lookups and counts under updates *)

Lemma lookup_alter_case {A} (f : A -> A) i j (l : list A) :
  alter f i l !! j = if decide (i = j) then f <$> l !! j else l !! j.
Proof.
  destruct (decide (i = j)) as [->|Hne]; [apply list_lookup_alter_eq | by apply list_lookup_alter_ne].
Qed.

Lemma status_at_alter s i j ns : status_at (alter (with_status s) i ns) j =
  if decide (i = j) then (fun _ => s) <$> ns !! j else status_at ns j.
Proof.
  unfold status_at. rewrite lookup_alter_case. destruct (decide (i = j)); [|done].
  by destruct (ns !! j).
Qed.

Lemma status_at_Some ns i s : status_at ns i = Some s <-> exists n, ns !! i = Some n /\ status n = s.
Proof.
  unfold status_at. rewrite fmap_Some. split; intros (n & ? & ?); exists n; split; congruence.
Qed.

Lemma status_lookup ns i n : ns !! i = Some n -> status_at ns i = Some (status n).
Proof. unfold status_at. by intros ->. Qed.

Lemma elem_of_done ns i : i ∈ done_ids ns <-> status_at ns i = Some completed.
Proof.
  unfold done_ids. rewrite list_elem_of_filter, elem_of_seq. split; [tauto|]. intros H. split; [done|].
  apply status_at_Some in H as (n & Hn & _). apply lookup_lt_Some in Hn. lia.
Qed.

Definition b2n (b : bool) : nat := if b then 1 else 0.

Lemma running_count_alter s i ns n : ns !! i = Some n ->
  running_count (alter (with_status s) i ns) + b2n (bool_decide (status n = running)) =
  running_count ns + b2n (bool_decide (s = running)).
Proof.
  unfold running_count. revert i. induction ns as [|m ns IH]; intros [|i] Hi; try done.
  - injection Hi as ->. simpl. rewrite !filter_cons. simpl.
    repeat case_decide; repeat case_bool_decide; simpl; try congruence; lia.
  - specialize (IH i Hi). change (alter (with_status s) (S i) (m :: ns)) with
      (m :: alter (with_status s) i ns). rewrite !filter_cons. destruct (decide (status m = running)); cbn [length]; lia.
Qed.

Lemma unsorted_ext l1 l2 j : (forall p, p < num -> p ∈ l1 <-> p ∈ l2) ->
  unsorted num dn l1 j = unsorted num dn l2 j.
Proof.
  intros H. unfold unsorted. f_equal. apply list_fmap_ext. intros i p Hp.
  apply list_elem_of_lookup_2, elem_of_seq in Hp. specialize (H p ltac:(lia)).
  destruct (decide (p ∈ l1)), (decide (p ∈ l2)); tauto.
Qed.

Lemma unsorted_le l j : unsorted num dn l j <= unsorted num dn [] j.
Proof.
  unfold unsorted. generalize (seq 0 num) as ids. induction ids as [|p ids IH]; [done|].
  rewrite !fmap_cons. cbn [sum_list_with foldr].
  assert (Hn : p ∉ @nil nat) by set_solver.
  destruct (decide (p ∈ l)), (decide (p ∈ [])); simpl in *; try lia; done.
Qed.

Lemma sched_len ns q : sched_inv ns q -> length ns = num.
Proof. intros H. rewrite <- (s_graph _ _ H). by rewrite length_fmap. Qed.

Lemma sched_deps ns q i n : sched_inv ns q -> ns !! i = Some n -> deps dn i = dependents n.
Proof. intros H Hi. unfold deps. rewrite <- (s_graph _ _ H), list_lookup_fmap, Hi. done. Qed.

Lemma status_bound ns q i s : sched_inv ns q -> status_at ns i = Some s -> i < num.
Proof.
  intros H (n & Hn & _)%status_at_Some. rewrite <- (sched_len _ _ H). by eapply lookup_lt_Some.
Qed.

Lemma deps_producer p j : j ∈ deps dn p -> p < num.
Proof.
  unfold deps. destruct (dn !! p) eqn:E; simpl; [|set_solver]. intros _. by eapply lookup_lt_Some.
Qed.

(** Changing the status of one node keeps the static data. *)
Lemma alter_static s i ns :
  dependents <$> alter (with_status s) i ns = dependents <$> ns /\
  length (alter (with_status s) i ns) = length ns /\
  (forall j n, alter (with_status s) i ns !! j = Some n -> exists m, ns !! j = Some m /\
    id n = id m /\ required_ranks n = required_ranks m /\ pending_deps n = pending_deps m /\
    dependents n = dependents m).
Proof.
  split; [|split; [apply length_alter|]].
  - apply list_eq. intros j. rewrite !list_lookup_fmap, lookup_alter_case.
    destruct (decide _); [|done]. by destruct (ns !! j).
  - intros j n. rewrite lookup_alter_case. destruct (decide _); [|by eauto 6].
    intros (m & -> & Hm)%fmap_Some. exists m. by rewrite Hm.
Qed.

(** ** Releasing the ranks of a node that leaves the running state *)

Lemma held_bound maxc c : ranks_inv maxc c -> running_count (nodes c) <= length (nodes c).
Proof. intros _. apply length_filter. Qed.

Lemma release_ranks_nodes c i : nodes (release_ranks c i) = nodes c /\
  ready_queue (release_ranks c i) = ready_queue c /\ in_flight (release_ranks c i) = in_flight c.
Proof. unfold release_ranks. destruct (allocated c !! i); [|done]. by case_bool_decide. Qed.

Lemma mark_elem_true (a : gset Z) l r : (r, false) ∈ mark a true l <-> (r, false) ∈ l /\ r ∉ a.
Proof.
  unfold mark. rewrite list_elem_of_fmap. split.
  - intros ([r' b] & E & Hin). simpl in E. destruct (decide (r' ∈ a)); [congruence|].
    injection E as -> ->. done.
  - intros [Hin Hr]. exists (r, false). simpl. by rewrite decide_False.
Qed.

Lemma mark_elem_false (a : gset Z) l r : (forall x, x ∈ a -> (x, true) ∈ l) ->
  (r, false) ∈ mark a false l <-> (r, false) ∈ l \/ r ∈ a.
Proof.
  intros Ha. unfold mark. rewrite list_elem_of_fmap. split.
  - intros ([r' b] & E & Hin). simpl in E. destruct (decide (r' ∈ a)).
    + injection E as ->. by right.
    + injection E as -> ->. by left.
  - intros [Hin|Hr].
    + exists (r, false). simpl. by destruct (decide (r ∈ a)).
    + exists (r, true). simpl. rewrite decide_True by done. split; [done|by apply Ha].
Qed.

(** Node [i] stops running: its status becomes [s], its ranks go back, the counter
    is decremented. *)
Lemma stop_ranks_inv maxc c i n s : ranks_inv maxc c -> nodes c !! i = Some n ->
  status n = running -> s <> running ->
  let c1 := release_ranks (set_status c i s) i in
  ranks_inv maxc (set_in_flight c1 (in_flight c - 1)) /\ (1 <= in_flight c)%Z.
Proof.
  intros [Hlen Hp Hheld Htk Hdj Hfl Hmx] Hi Hn Hs c1.
  assert (Ha : exists a, allocated c !! i = Some a).
  { apply lookup_lt_is_Some. rewrite Hlen. by eapply lookup_lt_Some. }
  destruct Ha as [a Ha]. assert (Hne : a <> ∅) by by eapply Hheld.
  pose proof (running_count_alter s i (nodes c) n Hi) as Hrc.
  rewrite bool_decide_true, bool_decide_false in Hrc by done. simpl in Hrc.
  assert (E : c1 = mkCore (alter (with_status s) i (nodes c)) (release (rank_pool_ c) a)
    (ready_queue c) (in_flight c) (<[i := ∅]> (allocated c))).
  { unfold c1, release_ranks, set_status. simpl. rewrite Ha. by rewrite bool_decide_false. }
  rewrite E. clear E c1. destruct (release_spec (rank_pool_ c) a Hp) as [Er Hwr].
  rewrite Er in *. clear Er.
  split; [|lia]. split; simpl.
  - by rewrite length_insert, length_alter.
  - done.
  - intros j m b. rewrite lookup_alter_case.
    destruct (decide (i = j)) as [<-|Hij].
    + rewrite list_lookup_insert_eq by (rewrite Hlen; by eapply lookup_lt_Some).
      rewrite Hi. simpl. by intros [= <-] [= <-].
    + rewrite list_lookup_insert_ne by done. apply Hheld.
  - intros r. rewrite mark_elem_true, Htk. split.
    + intros [(j & b & Hb & Hr) Hra]. exists j, b. split; [|done].
      rewrite list_lookup_insert_ne; [done|]. intros <-. congruence.
    + intros (j & b & Hb & Hr). destruct (decide (i = j)) as [<-|Hij].
      * rewrite list_lookup_insert_eq in Hb by (rewrite Hlen; by eapply lookup_lt_Some).
        injection Hb as <-. set_solver.
      * rewrite list_lookup_insert_ne in Hb by done. split; [by eauto|].
        intros Hra. apply Hij. by eapply Hdj.
  - intros j k b1 b2 r Hj Hk H1 H2.
    destruct (decide (i = j)) as [<-|Hij], (decide (i = k)) as [<-|Hik]; try done.
    + rewrite list_lookup_insert_eq in Hj by (rewrite Hlen; by eapply lookup_lt_Some).
      injection Hj as <-. set_solver.
    + rewrite list_lookup_insert_eq in Hk by (rewrite Hlen; by eapply lookup_lt_Some).
      injection Hk as <-. set_solver.
    + rewrite list_lookup_insert_ne in Hj, Hk by done. by eapply Hdj.
  - lia.
  - lia.
Qed.

(** Statuses that are not [running] may change freely. *)
Lemma ranks_inv_nodes maxc c ns q : ranks_inv maxc c -> length ns = length (nodes c) ->
  (forall i, status_at ns i = Some running <-> status_at (nodes c) i = Some running) ->
  ranks_inv maxc (mkCore ns (rank_pool_ c) q (in_flight c) (allocated c)).
Proof.
  intros [Hlen Hp Hheld Htk Hdj Hfl Hmx] Hl Hrun. split; simpl; try done.
  - congruence.
  - intros i n a Hn Ha. assert (Hm : is_Some (nodes c !! i)).
    { apply lookup_lt_is_Some. rewrite <- Hl. by eapply lookup_lt_Some. }
    destruct Hm as [m Hm]. rewrite <- (Hheld i m a Hm Ha).
    specialize (Hrun i). unfold status_at in Hrun. rewrite Hn, Hm in Hrun. simpl in Hrun.
    by rewrite !(inj_iff Some) in Hrun.
  - rewrite Hfl. f_equal. clear - Hl Hrun. revert ns Hl Hrun.
    induction (nodes c) as [|m l IH]; intros [|n ns] Hl Hrun; try done.
    unfold running_count. rewrite !filter_cons.
    pose proof (Hrun 0) as H0. unfold status_at in H0; simpl in H0. rewrite !(inj_iff Some) in H0.
    assert (IH' := IH ns ltac:(simpl in Hl; lia) (fun i => Hrun (S i))). unfold running_count in IH'.
    destruct (decide (status m = running)), (decide (status n = running)); cbn [length]; tauto || lia.
Qed.
End Invariant.

Section Preservation.
Context (dn : list (list nat)) (Hg : graph_ok dn).
Local Abbreviation num := (length dn).
Local Abbreviation dep := (fun x y => y ∈ deps dn x).

(** ** Phase 1 *)

Definition newly_ready (n : TaskNode) : bool :=
  bool_decide (status n = pending) && (pending_deps n =? 0)%Z.

Lemma poll_spec l : forall q, poll l q =
  ((fun n => if newly_ready n then with_status ready n else n) <$> l,
   q ++ (id <$> filter (fun n => newly_ready n = true) l)).
Proof.
  induction l as [|n l IH]; intros q; [by rewrite app_nil_r|].
  simpl. fold (newly_ready n). rewrite filter_cons. destruct (newly_ready n); rewrite IH; simpl; [|done].
  by rewrite <- app_assoc.
Qed.

Lemma done_ids_ext ns ns' : length ns' = length ns ->
  (forall i, status_at ns' i = Some completed <-> status_at ns i = Some completed) ->
  forall j, unsorted num dn (done_ids ns') j = unsorted num dn (done_ids ns) j.
Proof. intros _ H j. apply unsorted_ext. intros p _. by rewrite !elem_of_done. Qed.

Lemma status_at_poll ns i : status_at ((fun n => if newly_ready n then with_status ready n else n) <$> ns) i =
  match ns !! i with
  | Some n => Some (if newly_ready n then ready else status n)
  | None => None
  end.
Proof. unfold status_at. rewrite list_lookup_fmap. destruct (ns !! i) as [n|]; [|done]. simpl. by destruct (newly_ready n). Qed.

Lemma newly_ready_spec n : newly_ready n = true <-> status n = pending /\ pending_deps n = 0%Z.
Proof. unfold newly_ready. by rewrite andb_true_iff, bool_decide_eq_true, Z.eqb_eq. Qed.

Lemma poll_sched ns q : sched_inv dn ns q -> sched_inv dn (fst (poll ns q)) (snd (poll ns q)).
Proof.
  intros H. rewrite poll_spec. simpl. set (ns' := _ <$> ns).
  assert (Hst : forall i, status_at ns' i = match ns !! i with
    Some n => Some (if newly_ready n then ready else status n) | None => None end)
    by (intros; apply status_at_poll).
  assert (Hnew : forall i, i ∈ id <$> filter (fun n => newly_ready n = true) ns <->
    exists n, ns !! i = Some n /\ newly_ready n = true).
  { intros i. rewrite list_elem_of_fmap. split.
    - intros (n & -> & [Hn Hin]%list_elem_of_filter). apply list_elem_of_lookup in Hin as [k Hk].
      destruct (s_node _ _ _ H k n Hk) as [-> _]. by exists n.
    - intros (n & Hi & Hn). exists n. destruct (s_node _ _ _ H i n Hi) as [-> _].
      split; [done|]. apply list_elem_of_filter. split; [done|]. by eapply list_elem_of_lookup_2. }
  assert (Hdone : forall i, status_at ns' i = Some completed <-> status_at ns i = Some completed).
  { intros i. rewrite Hst. unfold status_at. destruct (ns !! i) as [n|]; [|done]. simpl.
    destruct (newly_ready n) eqn:E; [|done]. apply newly_ready_spec in E as [-> _]. done. }
  split.
  - unfold ns'. rewrite <- list_fmap_compose, <- (s_graph _ _ _ H). apply list_fmap_ext.
    intros i n _. unfold compose. by destruct (newly_ready n).
  - intros i n. unfold ns'. rewrite list_lookup_fmap. intros (m & Hm & ->)%fmap_Some.
    pose proof (s_node _ _ _ H i m Hm). by destruct (newly_ready m).
  - apply NoDup_app. split; [apply H|]. split.
    + intros i Hi Hn. apply Hnew in Hn as (n & Hn & [Hp _]%newly_ready_spec).
      destruct (s_queue _ _ _ H i Hi) as [Hs|Hs]; rewrite (status_lookup _ _ _ Hn) in Hs; congruence.
    + assert (Hids : id <$> ns = seq 0 (length ns)).
      { apply list_eq_same_length with (length ns); [by rewrite length_seq|by rewrite length_fmap|].
        intros i x y Hi Hx Hy. rewrite list_lookup_fmap in Hx. apply fmap_Some in Hx as (n & Hn & ->).
        apply lookup_seq in Hy as [-> _]. simpl. by apply (s_node _ _ _ H). }
      apply (sublist_NoDup _ (id <$> ns)); [rewrite Hids; apply NoDup_seq|].
      apply fmap_sublist. apply sublist_filter.
  - intros i. rewrite elem_of_app, Hnew, Hst. intros [Hi|(n & -> & ->)]; [|by left].
    destruct (s_queue _ _ _ H i Hi) as [Hs|Hs]; apply status_at_Some in Hs as (n & -> & Hs);
      (destruct (newly_ready n) eqn:E; [apply newly_ready_spec in E as [E _]; congruence|]);
      rewrite Hs; [by left | by right].
  - intros i. rewrite elem_of_app, Hnew, Hst. destruct (ns !! i) as [n|] eqn:Hn; [|done].
    destruct (newly_ready n) eqn:E; [intros _; right; by exists n|].
    intros [= Hs]. left. apply (s_ready _ _ _ H). unfold status_at. rewrite Hn. simpl. by f_equal.
  - intros j n. unfold ns' at 1. rewrite list_lookup_fmap. intros (m & Hm & ->)%fmap_Some.
    rewrite (done_ids_ext ns ns') by (done || (unfold ns'; by rewrite length_fmap)).
    rewrite <- (s_deps _ _ _ H j m Hm). by destruct (newly_ready m).
  - intros p j Hj Hp. rewrite Hdone in Hp. pose proof (s_order _ _ _ H p j Hj Hp) as Ho.
    assert (Hn : exists n, ns !! j = Some n)
      by (destruct Ho as [(n & ? & _)%status_at_Some|(n & ? & _)%status_at_Some]; by exists n).
    destruct Hn as [n Hn]. rewrite Hst, Hn. rewrite (status_lookup _ _ _ Hn) in Ho.
    destruct (newly_ready n) eqn:E; [|done]. exfalso. apply newly_ready_spec in E as [_ E].
    rewrite (s_deps _ _ _ H j n Hn) in E. apply Hp, elem_of_done.
    apply (proj1 (unsorted_zero num dn (done_ids ns) j)); [lia|by eapply deps_producer|exact Hj].
  - intros p j Hj Hp. rewrite !Hst in *. destruct (ns !! p) as [n|] eqn:Hn; [|by destruct Hp].
    destruct (newly_ready n) eqn:E; [by destruct Hp|].
    assert (Hc : status_at ns j = Some cancelled).
    { apply (s_fail _ _ _ H p j Hj). by rewrite (status_lookup _ _ _ Hn). }
    apply status_at_Some in Hc as (m & -> & Hc).
    destruct (newly_ready m) eqn:E'; [|by rewrite Hc]. apply newly_ready_spec in E' as [E' _]. congruence.
Qed.

Lemma poll_inv maxc c : loop_inv dn maxc c -> loop_inv dn maxc (poll_ready_nodes c).
Proof.
  intros [Hr Hs]. split; [|by apply poll_sched].
  apply ranks_inv_nodes; [done| |].
  - rewrite poll_spec. simpl. by rewrite length_fmap.
  - intros i. rewrite poll_spec. simpl. rewrite status_at_poll. unfold status_at.
    destruct (nodes c !! i) as [n|]; [|done]. simpl.
    destruct (newly_ready n) eqn:E; [|done]. apply newly_ready_spec in E as [-> _]. done.
Qed.

(** ** Phase 2 *)

(** A queue entry whose node was cancelled is dropped. *)
Lemma stale_inv maxc c i rest n : loop_inv dn maxc c -> ready_queue c = i :: rest ->
  nodes c !! i = Some n -> status n <> ready ->
  loop_inv dn maxc (mkCore (nodes c) (rank_pool_ c) rest (in_flight c) (allocated c)).
Proof.
  intros [Hr Hs] Hq Hi Hn. split; [by apply ranks_inv_nodes|]. simpl. rewrite Hq in Hs.
  destruct Hs as [H1 H2 H3 H4 H5 H6 H7 H8]. split; try done.
  - by apply NoDup_cons in H3 as [_ ?].
  - intros j Hj. apply H4. by right.
  - intros j Hj. pose proof (H5 j Hj) as [->|?]%elem_of_cons; [|done].
    rewrite (status_lookup _ _ _ Hi) in Hj. congruence.
Qed.

(** The head of the queue is dispatched. *)
Lemma start_sched ns q i n : sched_inv dn ns (i :: q) -> ns !! i = Some n -> status n = ready ->
  sched_inv dn (alter (with_status running) i ns) q.
Proof.
  intros H Hi Hn. destruct (alter_static running i ns) as (Hd & Hl & Hst).
  pose proof (status_lookup _ _ _ Hi) as Hsi. rewrite Hn in Hsi.
  assert (Hat : forall j, status_at (alter (with_status running) i ns) j =
    if decide (i = j) then Some running else status_at ns j).
  { intros j. rewrite status_at_alter. destruct (decide (i = j)) as [<-|]; [by rewrite Hi|done]. }
  assert (Hdone : forall j, status_at (alter (with_status running) i ns) j = Some completed <->
    status_at ns j = Some completed).
  { intros j. rewrite Hat. destruct (decide (i = j)) as [<-|]; [|done]. rewrite Hsi. split; congruence. }
  destruct (proj1 (NoDup_cons _ _) (s_nodup _ _ _ H)) as [Hni Hnd].
  split.
  - rewrite Hd. apply H.
  - intros j m (m' & Hm & -> & -> & _)%Hst. by apply (s_node _ _ _ H).
  - done.
  - intros j Hj. rewrite Hat, decide_False by (intros ->; done). apply (s_queue _ _ _ H). by right.
  - intros j. rewrite Hat. destruct (decide (i = j)) as [<-|Hne]; [congruence|].
    intros Hj%(s_ready _ _ _ H). apply elem_of_cons in Hj as [->|?]; [done|done].
  - intros j m Hm. apply Hst in Hm as (m' & Hm & _ & _ & -> & _).
    rewrite (done_ids_ext ns) by done. by apply (s_deps _ _ _ H).
  - intros p j Hj Hp. rewrite Hdone in Hp. pose proof (s_order _ _ _ H p j Hj Hp) as Ho.
    rewrite Hat. destruct (decide (i = j)) as [<-|]; [|done]. rewrite Hsi in Ho. destruct Ho; congruence.
  - intros p j Hj. rewrite !Hat. destruct (decide (i = p)) as [<-|]; [intros []; congruence|].
    intros Hp%(s_fail _ _ _ H p j Hj). destruct (decide (i = j)) as [<-|]; [congruence|done].
Qed.

Lemma start_inv maxc c i rest n : loop_inv dn maxc c -> ready_queue c = i :: rest ->
  nodes c !! i = Some n -> status n = ready -> (in_flight c < maxc)%Z -> (maxc < 4294967296)%Z ->
  exists ranks p, try_allocate (rank_pool_ c) (required_ranks n) = Ok (ranks, p) /\
    (ranks = ∅ -> p = rank_pool_ c) /\
    (ranks <> ∅ -> loop_inv dn maxc (start_core c i rest ranks p)).
Proof.
  intros [[Hlen Hp Hheld Htk Hdj Hfl Hmx] Hs] Hq Hi Hn Hlt Hsmall.
  pose proof (proj2 (s_node _ _ _ Hs i n Hi)) as Hreq.
  pose proof (try_allocate_spec _ _ Hp Hreq) as Ht.
  destruct (required_ranks n <=? available_ (rank_pool_ c))%Z.
  2:{ exists ∅, (rank_pool_ c). split; [done|]. split; [done|]. by intros []. }
  destruct Ht as (a & Ht & Hsz & Ha & Hw). eexists a, _. split; [exact Ht|].
  assert (Hne : a <> ∅) by (intros ->; rewrite size_empty in Hsz; lia).
  split; [by intros ->|]. intros _. rewrite Hq in Hs.
  split; [|simpl; by apply (start_sched _ _ _ n)].
  assert (Hai : allocated c !! i = Some ∅).
  { destruct (allocated c !! i) as [b|] eqn:Eb.
    - f_equal. destruct (decide (b = ∅)) as [|Hb]; [done|].
      apply (Hheld i n b Hi Eb) in Hb. congruence.
    - apply lookup_ge_None in Eb. apply lookup_lt_Some in Hi. lia. }
  pose proof (lookup_lt_Some _ _ _ Hai) as Hlti.
  assert (Hfree : forall r j b, r ∈ a -> allocated c !! j = Some b -> r ∉ b).
  { intros r j b Hr Hb Hrb. apply Ha in Hr.
    assert (Hf : (r, false) ∈ slots (rank_pool_ c)) by (apply Htk; by eauto).
    apply list_elem_of_lookup in Hr as [k1 Hk1]. apply list_elem_of_lookup in Hf as [k2 Hk2].
    assert (k1 = k2) as ->; [|congruence].
    apply (NoDup_lookup _ k1 k2 r (wp_nodup _ Hp)); unfold rank_ids; rewrite list_lookup_fmap;
      by rewrite ?Hk1, ?Hk2. }
  unfold start_core. split; simpl.
  - by rewrite length_insert, length_alter.
  - done.
  - intros j m b. rewrite lookup_alter_case. destruct (decide (i = j)) as [<-|Hij].
    + rewrite list_lookup_insert_eq, Hi by done. simpl. by intros [= <-] [= <-].
    + rewrite list_lookup_insert_ne by done. apply Hheld.
  - intros r. rewrite mark_elem_false, Htk by done. split.
    + intros [(j & b & Hb & Hr)|Hr].
      * exists j, b. split; [|done]. rewrite list_lookup_insert_ne; [done|].
        intros <-. rewrite Hai in Hb. injection Hb as <-. set_solver.
      * exists i, a. by rewrite list_lookup_insert_eq.
    + intros (j & b & Hb & Hr). destruct (decide (i = j)) as [<-|Hij].
      * rewrite list_lookup_insert_eq in Hb by done. injection Hb as <-. by right.
      * rewrite list_lookup_insert_ne in Hb by done. left. by eauto.
  - intros j k b1 b2 r Hj Hk H1 H2.
    destruct (decide (i = j)) as [<-|Hij], (decide (i = k)) as [<-|Hik]; try done.
    + rewrite list_lookup_insert_eq in Hj by done. rewrite list_lookup_insert_ne in Hk by done.
      injection Hj as <-. exfalso. by eapply Hfree.
    + rewrite list_lookup_insert_eq in Hk by done. rewrite list_lookup_insert_ne in Hj by done.
      injection Hk as <-. exfalso. by eapply Hfree.
    + rewrite list_lookup_insert_ne in Hj, Hk by done. by eapply Hdj.
  - pose proof (running_count_alter running i (nodes c) n Hi) as Hrc.
    rewrite bool_decide_false, bool_decide_true in Hrc by congruence. simpl in Hrc.
    rewrite to_u32_id by lia. lia.
  - rewrite to_u32_id by lia. lia.
Qed.

(** ** Failure propagation *)

(** The pointwise effect of the traversal. *)
Definition cancels (ns ns' : list TaskNode) : Prop :=
  dependents <$> ns' = dependents <$> ns /\ length ns' = length ns /\
  forall j n', ns' !! j = Some n' -> exists n, ns !! j = Some n /\
    id n' = id n /\ required_ranks n' = required_ranks n /\ pending_deps n' = pending_deps n /\
    (status n' = status n \/ (status n = pending /\ status n' = cancelled)).

Lemma cancels_status ns ns' j s : cancels ns ns' -> s <> pending -> s <> cancelled ->
  status_at ns' j = Some s <-> status_at ns j = Some s.
Proof.
  intros (_ & Hl & Hc) Hp Hs. rewrite !status_at_Some. split.
  - intros (n' & Hn' & <-). destruct (Hc j n' Hn') as (n & Hn & _ & _ & _ & [E|[E E']]); [|congruence].
    by exists n.
  - intros (n & Hn & <-). assert (Hm : is_Some (ns' !! j)).
    { apply lookup_lt_is_Some. rewrite Hl. by eapply lookup_lt_Some. }
    destruct Hm as [n' Hn']. exists n'. split; [done|].
    destruct (Hc j n' Hn') as (m & Hm & _ & _ & _ & Ho). rewrite Hn in Hm. injection Hm as <-.
    destruct Ho as [?|[? _]]; congruence.
Qed.

Record bfs_inv (ns : list TaskNode) (queue : list nat) : Prop := {
  b_graph : dependents <$> ns = dn;
  b_closed : forall p j, j ∈ deps dn p -> status_at ns p = Some failed \/ status_at ns p = Some cancelled ->
    j ∈ queue \/ status_at ns j = Some cancelled;
  b_order : forall p j, j ∈ deps dn p -> status_at ns p <> Some completed ->
    status_at ns j = Some pending \/ status_at ns j = Some cancelled;
  b_queue : forall j, j ∈ queue -> status_at ns j = Some pending \/ status_at ns j = Some cancelled
}.

Definition weight (ns : list TaskNode) : nat :=
  sum_list ((fun n => if bool_decide (status n = cancelled) then 0 else length (dependents n)) <$> ns).

Lemma weight_cancel ns i n : ns !! i = Some n -> status n <> cancelled ->
  weight (alter (with_status cancelled) i ns) + length (dependents n) = weight ns.
Proof.
  unfold weight. revert i. induction ns as [|m ns IH]; intros [|i] Hi Hs; try done.
  - injection Hi as ->. change (alter (with_status cancelled) 0 (n :: ns)) with (with_status cancelled n :: ns).
    rewrite !fmap_cons. cbn [sum_list_with foldr]. rewrite bool_decide_true, bool_decide_false by done.
    unfold Datatypes.id. lia.
  - specialize (IH i Hi Hs). change (alter (with_status cancelled) (S i) (m :: ns)) with
      (m :: alter (with_status cancelled) i ns). rewrite !fmap_cons. cbn [sum_list_with foldr].
    unfold Datatypes.id in *. lia.
Qed.

Lemma cancel_bfs_inv ns q i n : bfs_inv ns (i :: q) -> ns !! i = Some n -> status n = pending ->
  bfs_inv (alter (with_status cancelled) i ns) (q ++ dependents n).
Proof.
  intros [Hgr Hcl Hor Hqu] Hi Hn. destruct (alter_static cancelled i ns) as (Hd & _ & _).
  assert (Hat : forall j, status_at (alter (with_status cancelled) i ns) j =
    if decide (i = j) then Some cancelled else status_at ns j).
  { intros j. rewrite status_at_alter. destruct (decide (i = j)) as [<-|]; [by rewrite Hi|done]. }
  assert (Hdi : deps dn i = dependents n) by (unfold deps; rewrite <- Hgr, list_lookup_fmap, Hi; done).
  assert (Hci : status_at ns i <> Some completed) by (rewrite (status_lookup _ _ _ Hi); congruence).
  split.
  - by rewrite Hd.
  - intros p j Hj. rewrite !Hat. destruct (decide (i = j)) as [<-|Hij]; [by right|].
    destruct (decide (i = p)) as [<-|Hip].
    + intros _. left. apply elem_of_app. right. by rewrite <- Hdi.
    + intros Hp. destruct (Hcl p j Hj Hp) as [[->|Hq]%elem_of_cons|Hc]; [done| |by right].
      left. apply elem_of_app. by left.
  - intros p j Hj. rewrite !Hat. destruct (decide (i = j)); [by right|].
    destruct (decide (i = p)) as [<-|]; [intros _; by eapply Hor | intros Hp; by eapply Hor].
  - intros j. rewrite Hat, elem_of_app. destruct (decide (i = j)); [by right|].
    intros [Hj|Hj]; [apply Hqu; by right|]. rewrite <- Hdi in Hj. by eapply Hor.
Qed.

(** The traversal ends within its fuel with every dependent of a failed or
    cancelled node cancelled, and cancels only nodes reachable from the queue. *)
Lemma bfs_spec fuel : forall ns queue, bfs_inv ns queue -> length queue + weight ns <= fuel ->
  exists ns', bfs fuel ns queue = Some ns' /\ bfs_inv ns' [] /\ cancels ns ns' /\
    (forall j, status_at ns j = Some cancelled -> status_at ns' j = Some cancelled) /\
    (forall j, j ∈ queue -> status_at ns' j = Some cancelled) /\
    (forall j, status_at ns' j = Some cancelled -> status_at ns j <> Some cancelled ->
       exists q, q ∈ queue /\ rtc dep q j).
Proof.
  induction fuel as [|fuel IH]; intros ns [|i queue] Hinv Hf; try (simpl in Hf; lia).
  1,2: exists ns; split; [done|]; split; [done|]; split;
    [split; [done|]; split; [done|]; intros j n' Hn; exists n'; by auto 6 |];
    split; [done|]; split; [set_solver|by intros].
  simpl bfs.
  destruct (b_queue _ _ Hinv i ltac:(by left)) as [(n & Hn & Hs)%status_at_Some|(n & Hn & Hs)%status_at_Some];
    rewrite Hn; unfold is_terminal; rewrite Hs.
  - rewrite !bool_decide_false by done. simpl.
    pose proof (cancel_bfs_inv _ _ _ _ Hinv Hn Hs) as Hinv'.
    pose proof (weight_cancel ns i n Hn ltac:(congruence)) as Hwt.
    destruct (alter_static cancelled i ns) as (Hd & Hl & Hst).
    assert (Hdi : deps dn i = dependents n)
      by (unfold deps; rewrite <- (b_graph _ _ Hinv), list_lookup_fmap, Hn; done).
    assert (Hat : forall j, status_at (alter (with_status cancelled) i ns) j =
      if decide (i = j) then Some cancelled else status_at ns j).
    { intros j. rewrite status_at_alter. destruct (decide (i = j)) as [<-|]; [by rewrite Hn|done]. }
    destruct (IH _ _ Hinv') as (ns' & E & Hb & (Hc1 & Hc2 & Hc3) & Hk & Hq & Hrch);
      [rewrite length_app; simpl in Hf; lia|].
    exists ns'. split; [done|]. split; [done|]. split; [|split; [|split]].
    + split; [congruence|]. split; [congruence|]. intros j n' Hj.
      destruct (Hc3 j n' Hj) as (m & Hm & E1 & E2 & E3 & Ho).
      rewrite lookup_alter_case in Hm. destruct (decide (i = j)) as [<-|Hij]; [|by exists m].
      rewrite Hn in Hm. injection Hm as <-. exists n. split; [done|]. simpl in *.
      repeat split; try done. right. split; [done|]. destruct Ho as [?|[? _]]; done.
    + intros j Hj. apply Hk. rewrite Hat. by destruct (decide (i = j)).
    + intros j [->|Hj]%elem_of_cons; [apply Hk; by rewrite Hat, decide_True|].
      apply Hq, elem_of_app. by left.
    + intros j Hj Hnc. destruct (decide (i = j)) as [<-|Hij]; [exists i; split; [by left|done]|].
      destruct (Hrch j Hj) as (x & Hx & Hr); [by rewrite Hat, decide_False|].
      apply elem_of_app in Hx as [Hx|Hx]; [exists x; split; [by right|done]|].
      exists i. split; [by left|]. eapply rtc_l; [|exact Hr]. simpl. by rewrite Hdi.
  - rewrite (bool_decide_false (cancelled = completed)), (bool_decide_false (cancelled = failed)),
      (bool_decide_true (cancelled = cancelled)) by done. simpl.
    assert (Hsi : status_at ns i = Some cancelled) by (rewrite (status_lookup _ _ _ Hn); congruence).
    assert (Hinv' : bfs_inv ns queue).
    { destruct Hinv as [H1 H2 H3 H4]. split; try done.
      - intros p j Hj Hp. destruct (H2 p j Hj Hp) as [[->|?]%elem_of_cons|?]; [by right|by left|by right].
      - intros j Hj. apply H4. by right. }
    destruct (IH _ _ Hinv') as (ns' & E & Hb & Hc & Hk & Hq & Hrch); [simpl in Hf; lia|].
    exists ns'. repeat (split; [done|]). split.
    + intros j [->|Hj]%elem_of_cons; [by apply Hk|by apply Hq].
    + intros j Hj Hnc. destruct (Hrch j Hj Hnc) as (x & Hx & Hr). exists x. split; [by right|done].
Qed.

Lemma bfs_fuel_enough ns queue : length queue + weight ns <= bfs_fuel ns queue.
Proof.
  unfold bfs_fuel, weight. apply Nat.add_le_mono_l. induction ns as [|n ns IH]; [done|].
  rewrite !fmap_cons. cbn [sum_list_with foldr]. unfold Datatypes.id in *. case_bool_decide; lia.
Qed.

(** The state in which the traversal starts. *)
Lemma failed_bfs_inv ns q i n : sched_inv dn ns q -> ns !! i = Some n -> status n = running ->
  bfs_inv (alter (with_status failed) i ns) (dependents n).
Proof.
  intros Hs Hi Hn.
  assert (Hat : forall j, status_at (alter (with_status failed) i ns) j =
    if decide (i = j) then Some failed else status_at ns j).
  { intros j. rewrite status_at_alter. destruct (decide (i = j)) as [<-|]; [by rewrite Hi|done]. }
  pose proof (status_lookup _ _ _ Hi) as Hsi. rewrite Hn in Hsi.
  assert (Hdi : deps dn i = dependents n) by by eapply sched_deps.
  destruct (alter_static failed i ns) as (Hd & _ & _).
  split.
  - rewrite Hd. apply Hs.
  - intros p j Hj. rewrite !Hat. destruct (decide (i = p)) as [<-|]; [intros _; left; by rewrite <- Hdi|].
    intros Hp%(s_fail _ _ _ Hs p j Hj). right. destruct (decide (i = j)) as [<-|]; [congruence|done].
  - intros p j Hj. rewrite !Hat.
    assert (Hno : status_at ns p <> Some completed ->
      (if decide (i = j) then Some failed else status_at ns j) = Some pending \/
      (if decide (i = j) then Some failed else status_at ns j) = Some cancelled).
    { intros Hp. pose proof (s_order _ _ _ Hs p j Hj Hp) as Ho.
      destruct (decide (i = j)) as [<-|]; [|done]. rewrite Hsi in Ho. by destruct Ho. }
    destruct (decide (i = p)) as [<-|]; [|done]. intros _. apply Hno. congruence.
  - intros j Hj. rewrite Hat. rewrite <- Hdi in Hj.
    assert (Ho : status_at ns j = Some pending \/ status_at ns j = Some cancelled)
      by (eapply (s_order _ _ _ Hs); [exact Hj|congruence]).
    destruct (decide (i = j)) as [<-|]; [rewrite Hsi in Ho; by destruct Ho|done].
Qed.

(** The nodes after the traversal satisfy the scheduling invariant. *)
Lemma failed_sched ns q i n ns' : sched_inv dn ns q -> ns !! i = Some n -> status n = running ->
  bfs_inv ns' [] -> cancels (alter (with_status failed) i ns) ns' ->
  sched_inv dn ns' q /\ status_at ns' i = Some failed.
Proof.
  intros Hs Hi Hn Hb Hc. pose proof Hc as (Hc1 & Hc2 & Hc3).
  pose proof (status_lookup _ _ _ Hi) as Hsi. rewrite Hn in Hsi.
  destruct (alter_static failed i ns) as (Hd & Hl & Hst).
  assert (Hat : forall j, status_at (alter (with_status failed) i ns) j =
    if decide (i = j) then Some failed else status_at ns j).
  { intros j. rewrite status_at_alter. destruct (decide (i = j)) as [<-|]; [by rewrite Hi|done]. }
  assert (Hkeep : forall j s, s <> pending -> s <> cancelled -> s <> running -> s <> failed ->
    status_at ns' j = Some s <-> status_at ns j = Some s).
  { intros j s ? ? ? ?. rewrite (cancels_status _ _ j s Hc) by done. rewrite Hat.
    destruct (decide (i = j)) as [<-|]; [|done]. rewrite Hsi. split; congruence. }
  split; [split|].
  - rewrite Hc1, Hd. apply Hs.
  - intros j n' (m & Hm & -> & -> & _)%Hc3. apply Hst in Hm as (m' & Hm & -> & -> & _).
    by apply (s_node _ _ _ Hs).
  - apply Hs.
  - intros j Hj. assert (Hij : i <> j).
    { intros <-. destruct (s_queue _ _ _ Hs i Hj); congruence. }
    destruct (s_queue _ _ _ Hs j Hj) as [Hr|Hr].
    + left. by apply Hkeep.
    + right. assert (Hm : status_at (alter (with_status failed) i ns) j = Some cancelled)
        by by rewrite Hat, decide_False.
      apply status_at_Some in Hm as (m & Hm & Hms).
      assert (Hn' : is_Some (ns' !! j)) by (apply lookup_lt_is_Some; rewrite Hc2; by eapply lookup_lt_Some).
      destruct Hn' as [n' Hn']. rewrite (status_lookup _ _ _ Hn'). f_equal.
      destruct (Hc3 j n' Hn') as (m' & Hm' & _ & _ & _ & Ho). rewrite Hm in Hm'. injection Hm' as <-.
      destruct Ho as [?|[? ?]]; congruence.
  - intros j Hj%Hkeep; [|done..]. by apply (s_ready _ _ _ Hs).
  - intros j n' Hn'. rewrite (done_ids_ext ns).
    2:{ by rewrite Hc2. }
    2:{ intros k. by apply Hkeep. }
    apply Hc3 in Hn' as (m & Hm & _ & _ & -> & _). apply Hst in Hm as (m' & Hm & _ & _ & -> & _).
    by apply (s_deps _ _ _ Hs).
  - apply Hb.
  - intros p j Hj Hp. destruct (b_closed _ _ Hb p j Hj Hp) as [?|?]; [set_solver|done].
  - apply (cancels_status _ _ i failed Hc); [done..|]. by rewrite Hat, decide_True.
Qed.

(** What [propagate_failure] does when a running node fails: the invariant is kept,
    the node is failed, exactly its transitive dependents are cancelled. *)
Lemma propagate_spec maxc c i n : loop_inv dn maxc c -> nodes c !! i = Some n -> status n = running ->
  exists c', propagate_failure_core c i = Ok c' /\ loop_inv dn maxc c' /\
    ready_queue c' = ready_queue c /\ status_at (nodes c') i = Some failed /\
    (forall j, tc dep i j -> status_at (nodes c') j = Some cancelled) /\
    (forall j, j <> i -> tc dep i j \/ status_at (nodes c') j = status_at (nodes c) j).
Proof.
  intros [Hr Hs] Hi Hn.
  destruct (stop_ranks_inv maxc c i n failed Hr Hi Hn) as [Hr' Hfl]; [done|].
  destruct (release_ranks_nodes (set_status c i failed) i) as (En & Eq & Ef).
  set (c1 := release_ranks (set_status c i failed) i) in *. simpl in En, Eq, Ef.
  set (ns := alter (with_status failed) i (nodes c)) in *.
  assert (Hdi : deps dn i = dependents n) by by eapply sched_deps.
  destruct (bfs_spec _ ns (dependents n) (failed_bfs_inv _ _ _ _ Hs Hi Hn)
    (bfs_fuel_enough ns (dependents n))) as (ns' & E & Hb & Hc & Hk & Hq & Hrch).
  destruct (failed_sched _ _ _ _ _ Hs Hi Hn Hb Hc) as [Hs' Hsf].
  unfold propagate_failure_core. rewrite Hi. cbv zeta. fold c1.
  cbn [nodes ready_queue in_flight rank_pool_ allocated set_in_flight].
  rewrite En, E, Eq, Ef. destruct (Z.ltb_spec 0 (in_flight c)); [|lia].
  eexists. split; [done|]. split; [split; [|done]|].
  { apply (ranks_inv_nodes maxc (set_in_flight c1 (in_flight c - 1)) ns' (ready_queue c)) in Hr'.
    - done.
    - simpl. rewrite En. by destruct Hc as (_ & -> & _).
    - intros j. simpl. rewrite En. by apply cancels_status. }
  simpl. split; [done|]. split; [done|]. split.
  - intros j Hj. apply (tc_ind_r (R := dep) (fun j => status_at ns' j = Some cancelled) i); [| |done].
    + intros y Hy. apply Hq. by rewrite <- Hdi.
    + intros x y _ Hxy Hx. by apply (s_fail _ _ _ Hs' x y Hxy); right.
  - intros j Hne.
    destruct (decide (status_at ns' j = status_at (nodes c) j)) as [|Hneq]; [by right|left].
    assert (Hat : status_at ns j = status_at (nodes c) j)
      by (unfold ns; rewrite status_at_alter, decide_False; done).
    destruct Hc as (_ & Hl & Hc3). unfold status_at in Hat, Hneq.
    destruct (ns' !! j) as [n'|] eqn:Hn'.
    + destruct (Hc3 j n' Hn') as (m & Hm & _ & _ & _ & [Ho|[Ho1 Ho2]]).
      * exfalso. rewrite Hm in Hat. simpl in *. congruence.
      * destruct (Hrch j) as (x & Hx & Hxj).
        -- by rewrite (status_lookup _ _ _ Hn'), Ho2.
        -- rewrite (status_lookup _ _ _ Hm). congruence.
        -- eapply tc_rtc_r; [|exact Hxj]. apply tc_once. simpl. by rewrite Hdi.
    + exfalso. apply lookup_ge_None in Hn'. rewrite Hl in Hn'.
      apply lookup_ge_None in Hn'. rewrite Hn' in Hat. simpl in *. congruence.
Qed.

(** ** Phase 3 *)

Lemma notify_app ns l x : notify ns (l ++ [x]) = alter decrement x (notify ns l).
Proof. unfold notify. by rewrite fold_left_app. Qed.

Lemma iter_decrement k n : Nat.iter k decrement n =
  mkNode (id n) (name n) (pending_deps (Nat.iter k decrement n)) (status n) (required_ranks n) (dependents n).
Proof. induction k as [|k IH]; [by destruct n|]. simpl. rewrite IH at 1. done. Qed.

Lemma notify_lookup ns l j : notify ns l !! j = Nat.iter (occ j l) decrement <$> ns !! j.
Proof.
  induction l as [|x l IH] using rev_ind; [simpl; by destruct (ns !! j)|].
  rewrite notify_app, lookup_alter_case, IH. unfold occ in *. rewrite count_occ_app. simpl.
  destruct (Nat.eq_dec x j), (decide (x = j)); try congruence.
  - rewrite Nat.add_1_r. by destruct (ns !! j).
  - by rewrite Nat.add_0_r.
Qed.

Lemma iter_decrement_pending k n (v : nat) : pending_deps n = Z.of_nat (k + v) ->
  (Z.of_nat (k + v) < 4294967296)%Z -> pending_deps (Nat.iter k decrement n) = Z.of_nat v.
Proof.
  revert v. induction k as [|k IH]; intros v Hv Hb; [done|].
  simpl. rewrite (IH (S v)) by (rewrite ?Hv; lia || f_equal; lia). rewrite to_u32_id by lia. lia.
Qed.

Lemma complete_sched ns q i n : sched_inv dn ns q -> ns !! i = Some n -> status n = running ->
  let ns' := notify (alter (with_status completed) i ns) (dependents n) in
  sched_inv dn ns' q /\
  (forall j, status_at ns' j = if decide (i = j) then Some completed else status_at ns j) /\
  length ns' = length ns.
Proof.
  intros Hs Hi Hn ns'. pose proof (status_lookup _ _ _ Hi) as Hsi. rewrite Hn in Hsi.
  assert (Hdi : deps dn i = dependents n) by by eapply sched_deps.
  assert (Hlk : forall j, ns' !! j = Nat.iter (occ j (deps dn i)) decrement <$>
    (if decide (i = j) then with_status completed <$> ns !! j else ns !! j)).
  { intros j. unfold ns'. by rewrite notify_lookup, lookup_alter_case, Hdi. }
  assert (Hat : forall j, status_at ns' j = if decide (i = j) then Some completed else status_at ns j).
  { intros j. unfold status_at. rewrite Hlk. destruct (decide (i = j)) as [<-|].
    - rewrite Hi. simpl. by rewrite iter_decrement.
    - destruct (ns !! j); simpl; [|done]. by rewrite iter_decrement. }
  assert (Hnode : forall j m', ns' !! j = Some m' -> exists m, ns !! j = Some m /\ id m' = id m /\
    required_ranks m' = required_ranks m /\ dependents m' = dependents m /\
    pending_deps m' = pending_deps (Nat.iter (occ j (deps dn i)) decrement m)).
  { assert (Hpd : forall k (m1 m2 : TaskNode), pending_deps m1 = pending_deps m2 ->
      pending_deps (Nat.iter k decrement m1) = pending_deps (Nat.iter k decrement m2))
      by (induction k as [|k IH]; intros m1 m2 E; simpl; [done|by rewrite (IH m1 m2)]).
    intros j m'. rewrite Hlk. destruct (decide (i = j)) as [<-|]; intros Hm.
    - rewrite Hi in Hm. simpl in Hm. injection Hm as <-. exists n. split; [done|].
      rewrite (iter_decrement _ (with_status completed n)). simpl. repeat split. by apply Hpd.
    - apply fmap_Some in Hm as (m & Hm & ->). exists m. split; [done|]. by rewrite iter_decrement. }
  assert (Hlen : length ns' = length ns).
  { apply Nat.le_antisymm; apply Nat.le_ngt; intros Hlt.
    - assert (Hx : is_Some (ns' !! length ns)) by (by apply lookup_lt_is_Some).
      destruct Hx as [m' (m & Hm & _)%Hnode]. apply lookup_lt_Some in Hm. lia.
    - assert (Hx : is_Some (ns !! length ns')) by (by apply lookup_lt_is_Some).
      destruct Hx as [m Hm]. pose proof (Hat (length ns')) as Ha.
      rewrite (status_lookup _ _ _ Hm) in Ha. unfold status_at in Ha.
      rewrite (proj2 (lookup_ge_None ns' (length ns'))) in Ha by lia.
      by destruct (decide _). }
  split; [|done]. split.
  - apply list_eq. intros j. rewrite <- (s_graph _ _ _ Hs), !list_lookup_fmap.
    destruct (ns' !! j) as [m'|] eqn:Hm'.
    + apply Hnode in Hm' as (m & -> & _ & _ & E & _). simpl. by rewrite E.
    + apply lookup_ge_None in Hm'. rewrite Hlen in Hm'. apply lookup_ge_None in Hm'. by rewrite Hm'.
  - intros j m' (m & Hm & -> & -> & _)%Hnode. by apply (s_node _ _ _ Hs).
  - apply Hs.
  - intros j Hj. rewrite Hat. destruct (s_queue _ _ _ Hs j Hj);
      (destruct (decide (i = j)) as [<-|]; [congruence|auto]).
  - intros j. rewrite Hat. destruct (decide (i = j)); [congruence|]. apply (s_ready _ _ _ Hs).
  - intros j m' (m & Hm & _ & _ & _ & ->)%Hnode. apply iter_decrement_pending.
    + rewrite (s_deps _ _ _ Hs j m Hm). f_equal.
      rewrite (unsorted_pop num dn _ i j).
      * f_equal. apply unsorted_ext. intros p _. rewrite elem_of_app, !elem_of_done, list_elem_of_singleton, Hat.
        destruct (decide (i = p)) as [<-|]; [tauto|]. split; [intros [?|?]; congruence|tauto].
      * rewrite <- (sched_len _ _ _ Hs). by eapply lookup_lt_Some.
      * rewrite elem_of_done. congruence.
    + pose proof (s_deps _ _ _ Hs j m Hm) as Hd.
      pose proof (unsorted_le dn (done_ids ns) j) as Hle. pose proof (g_small _ Hg j).
      assert (Hx : occ j (deps dn i) + unsorted num dn (done_ids ns') j = unsorted num dn (done_ids ns) j);
        [|lia].
      rewrite (unsorted_pop num dn (done_ids ns) i j).
      * f_equal. apply unsorted_ext. intros p _. rewrite elem_of_app, !elem_of_done, list_elem_of_singleton, Hat.
        destruct (decide (i = p)) as [<-|]; [tauto|]. split; [tauto|intros [?|?]; congruence].
      * rewrite <- (sched_len _ _ _ Hs). by eapply lookup_lt_Some.
      * rewrite elem_of_done. congruence.
  - intros p j Hj. rewrite !Hat. destruct (decide (i = p)) as [<-|]; [congruence|]. intros Hp.
    pose proof (s_order _ _ _ Hs p j Hj Hp) as Ho.
    destruct (decide (i = j)) as [<-|]; [rewrite Hsi in Ho; by destruct Ho|done].
  - intros p j Hj. rewrite !Hat. destruct (decide (i = p)); [intros []; congruence|].
    intros Hp%(s_fail _ _ _ Hs p j Hj). destruct (decide (i = j)) as [<-|]; [congruence|done].
Qed.

Lemma complete_inv maxc c i n : loop_inv dn maxc c -> (maxc < 4294967296)%Z ->
  nodes c !! i = Some n -> status n = running ->
  loop_inv dn maxc (complete_core c i n) /\
  (forall j, status_at (nodes (complete_core c i n)) j =
     if decide (i = j) then Some completed else status_at (nodes c) j).
Proof.
  intros [Hr Hs] Hmax Hi Hn.
  destruct (stop_ranks_inv maxc c i n completed Hr Hi Hn) as [Hr' Hfl]; [done|].
  destruct (release_ranks_nodes (set_status c i completed) i) as (En & Eq & Ef).
  destruct (complete_sched _ _ _ _ Hs Hi Hn) as (Hs' & Hat & Hlen).
  unfold complete_core. cbv zeta. set (c1 := release_ranks (set_status c i completed) i) in *.
  simpl in En, Eq, Ef. rewrite En, Eq, Ef.
  pose proof (r_max _ _ Hr). rewrite to_u32_id by lia.
  split; [split; [|done]|done].
  apply (ranks_inv_nodes maxc (set_in_flight c1 (in_flight c - 1))
    (notify (alter (with_status completed) i (nodes c)) (dependents n)) (ready_queue c)) in Hr'; [done| |].
  - simpl. by rewrite En, Hlen, length_alter.
  - intros j. simpl. rewrite En, Hat, status_at_alter.
    destruct (decide (i = j)) as [<-|]; [|done]. rewrite Hi. done.
Qed.
End Preservation.
