(* ===== verification/EventLoopProps.v ===== *)
(** * DAGR: what a cycle of the event loop guarantees

    The callbacks are reached through the interface [Executor], which says how the
    caller's state follows the set of running nodes; [Responsive] adds that a
    completion is reported whenever something runs.  A cycle keeps the invariant
    and moves every node along its state machine; under a responsive executor an
    acyclic graph is finished after at most one cycle per node. *)
From stdpp Require Import base list numbers gmap sets relations strings.
From Stdlib Require Import ZArith Lia.
From S2P Require Import Prelude CInt Kahn RankPool EventLoop EventLoopInv.

(** ** The interface of the callbacks *)

(** The nodes in state [running]. *)
Definition running_ids (ns : list TaskNode) : gset nat :=
  list_to_set (filter (fun i => status_at ns i = Some running) (seq 0 (length ns))).

(** [tracks w s]: in the caller's state [w] the nodes [s] are running. *)
Class Executor {W : Type} (d : option (W -> nat -> gset Z -> W * result bool))
    (c : option (W -> W * result (list (nat * bool)))) (tracks : W -> gset nat -> Prop) : Prop := {
  x_dispatch : forall cb w s i a w' r, d = Some cb -> tracks w s -> cb w i a = (w', r) ->
    r <> Undef /\ tracks w' (match r with Ok true => {[i]} ∪ s | _ => s end);
  x_silent : forall w s i, d = None -> tracks w s -> tracks w ({[i]} ∪ s);
  x_complete : forall cb w s w' r, c = Some cb -> tracks w s -> cb w = (w', r) ->
    r <> Undef /\ forall l, r = Ok l -> tracks w' (s ∖ list_to_set l.*1)
}.

Class Responsive {W : Type} (d : option (W -> nat -> gset Z -> W * result bool))
    (c : option (W -> W * result (list (nat * bool)))) (tracks : W -> gset nat -> Prop) : Prop := {
  p_executor :: Executor d c tracks;
  p_report : exists cb, c = Some cb /\ forall w s w' r, tracks w s -> cb w = (w', r) ->
    exists l, r = Ok l /\ (s <> ∅ -> exists i, i ∈ s /\ i ∈ l.*1)
}.

(** ** The life of a node *)

Inductive task_step : Task_Status -> Task_Status -> Prop :=
| step_ready : task_step pending ready
| step_start : task_step ready running
| step_complete : task_step running completed
| step_fail : task_step running failed
| step_cancel : task_step pending cancelled.

(** Every node moved along its state machine. *)
Definition moves (ns ns' : list TaskNode) : Prop :=
  length ns' = length ns /\
  forall j s, status_at ns j = Some s -> exists s', status_at ns' j = Some s' /\ rtc task_step s s'.

(** The nodes that have not reached a terminal state. *)
Definition live (ns : list TaskNode) : nat :=
  length (filter (fun n => is_terminal (status n) = false) ns).

#[export] Instance moves_preorder : PreOrder moves.
Proof.
  split.
  - intros ns. split; [done|]. intros j s Hj. by exists s.
  - intros a b c [Hl1 H1] [Hl2 H2]. split; [congruence|]. intros j s Hj.
    destruct (H1 j s Hj) as (s1 & Hj1 & Hs1). destruct (H2 j s1 Hj1) as (s2 & Hj2 & Hs2).
    exists s2. split; [done|]. by etrans.
Qed.

Lemma terminal_final s s' : rtc task_step s s' -> is_terminal s = true -> s' = s.
Proof. intros H Ht. inversion H as [|? y ? Hy]; [done|]. by destruct Hy. Qed.

Lemma moves_terminal ns ns' j s : moves ns ns' -> status_at ns j = Some s -> is_terminal s = true ->
  status_at ns' j = Some s.
Proof.
  intros [_ H] Hj Ht. destruct (H j s Hj) as (s' & Hj' & Hs). rewrite Hj'. f_equal. by apply terminal_final.
Qed.

Lemma live_le ns : forall ns', length ns' = length ns ->
  (forall j s, status_at ns j = Some s -> is_terminal s = true ->
     exists s', status_at ns' j = Some s' /\ is_terminal s' = true) ->
  live ns' <= live ns /\
  ((exists j s s', status_at ns j = Some s /\ is_terminal s = false /\
      status_at ns' j = Some s' /\ is_terminal s' = true) -> live ns' < live ns).
Proof.
  induction ns as [|n ns IH]; intros [|n' ns'] Hl H; try done.
  { split; [done|]. by intros (j & s & _ & Hj & _). }
  destruct (IH ns' ltac:(simpl in Hl; lia) (fun j => H (S j))) as [H1 H2].
  pose proof (H 0 (status n) eq_refl) as H0. unfold live in *. rewrite !filter_cons.
  assert (E : is_terminal (status n) = true -> is_terminal (status n') = true).
  { intros Ht. destruct (H0 Ht) as (s' & [= <-] & ?). done. }
  split.
  - destruct (is_terminal (status n)); [rewrite (E eq_refl)|destruct (is_terminal (status n'))];
      repeat case_decide; cbn [length]; try done; lia.
  - intros ([|j] & s & s' & Hj & Hs & Hj' & Hs').
    + injection Hj as <-. injection Hj' as <-. repeat case_decide; cbn [length]; try congruence. lia.
    + assert (length (filter (fun n => is_terminal (status n) = false) ns') <
        length (filter (fun n => is_terminal (status n) = false) ns)) by (apply H2; by exists j, s, s').
      destruct (is_terminal (status n)) eqn:En; repeat case_decide; cbn [length]; try lia;
        rewrite E in * by done; congruence.
Qed.

Lemma moves_live ns ns' : moves ns ns' -> live ns' <= live ns.
Proof.
  intros Hm. apply live_le; [apply Hm|]. intros j s Hj Hs. exists s. split; [|done].
  by eapply moves_terminal.
Qed.

(** A node that became terminal in between. *)
Lemma moves_live_lt ns ns' j s s' : moves ns ns' -> status_at ns j = Some s -> is_terminal s = false ->
  status_at ns' j = Some s' -> is_terminal s' = true -> live ns' < live ns.
Proof.
  intros Hm ? ? ? ?. apply live_le; [apply Hm| |by exists j, s, s'].
  intros k t Hk Ht. exists t. split; [|done]. by eapply moves_terminal.
Qed.

Lemma live_zero c : all_complete c = true <-> live (nodes c) = 0.
Proof.
  unfold all_complete, live. induction (nodes c) as [|n ns IH]; [done|].
  simpl. rewrite andb_true_iff, IH, filter_cons.
  destruct (is_terminal (status n)) eqn:E; simpl; [tauto|]. split; [by intros []|done].
Qed.

(** ** What no operation changes: the demands of the nodes and the pool's size *)

Definition needs (c : Core) : list Z * Z := (required_ranks <$> nodes c, total_ (rank_pool_ c)).

Lemma fmap_alter_id {A B} (g : A -> B) (f : A -> A) (i : nat) (l : list A) : (forall x, g (f x) = g x) ->
  g <$> alter f i l = g <$> l.
Proof.
  intros H. apply list_eq. intros j. rewrite !list_lookup_fmap, lookup_alter_case.
  destruct (decide _); [|done]. destruct (l !! j); simpl; [|done]. by rewrite H.
Qed.

Lemma needs_poll c : needs (poll_ready_nodes c) = needs c.
Proof.
  unfold needs, poll_ready_nodes. simpl. f_equal. generalize (ready_queue c) as q.
  induction (nodes c) as [|n ns IH]; intros q; [done|]. simpl. case_match; simpl; by rewrite IH.
Qed.

Lemma needs_release_ranks c i : needs (release_ranks c i) = needs c.
Proof. unfold release_ranks. destruct (allocated c !! i); [|done]. by case_bool_decide. Qed.

Lemma needs_set_status c i s : needs (set_status c i s) = needs c.
Proof. unfold needs, set_status. simpl. by rewrite fmap_alter_id. Qed.

Lemma bfs_required fuel : forall ns q ns', bfs fuel ns q = Some ns' ->
  required_ranks <$> ns' = required_ranks <$> ns.
Proof.
  induction fuel as [|fuel IH]; intros ns [|i q] ns'; simpl; try (by intros [= <-]).
  repeat case_match; intros Hb%IH; try done. rewrite Hb. by rewrite fmap_alter_id.
Qed.

Lemma needs_propagate c i c' : propagate_failure_core c i = Ok c' -> needs c' = needs c.
Proof.
  unfold propagate_failure_core. destruct (nodes c !! i) as [n|]; [|done]. cbv zeta.
  destruct (bfs _ _ _) as [ns|] eqn:E; [|done]. intros [= <-].
  apply bfs_required in E. simpl in E.
  pose proof (needs_release_ranks (set_status c i failed) i) as Hr.
  rewrite needs_set_status in Hr. unfold needs in *. simpl. rewrite E. exact Hr.
Qed.

Lemma needs_complete c i n : needs (complete_core c i n) = needs c.
Proof.
  pose proof (needs_release_ranks (set_status c i completed) i) as Hr.
  rewrite needs_set_status in Hr. unfold needs, complete_core in *. simpl. rewrite <- Hr. f_equal.
  unfold notify. generalize (nodes (release_ranks (set_status c i completed) i)) as ns.
  induction (dependents n) as [|d l IH]; intros ns; [done|]. simpl. rewrite IH. by rewrite fmap_alter_id.
Qed.

Lemma filter_all_true {A} (P : A -> Prop) `{forall x, Decision (P x)} (l : list A) :
  (forall x, x ∈ l -> P x) -> filter P l = l.
Proof.
  induction l as [|x l IH]; intros Hl; [done|].
  rewrite filter_cons_True by (apply Hl; by left). f_equal. apply IH. intros y Hy. apply Hl. by right.
Qed.

Lemma filter_all_false {A} (P : A -> Prop) `{forall x, Decision (P x)} (l : list A) :
  (forall x, x ∈ l -> ~ P x) -> filter P l = [].
Proof.
  induction l as [|x l IH]; intros Hl; [done|].
  rewrite filter_cons_False by (apply Hl; by left). apply IH. intros y Hy. apply Hl. by right.
Qed.

Lemma elem_of_running ns i : i ∈ running_ids ns <-> status_at ns i = Some running.
Proof.
  unfold running_ids. rewrite elem_of_list_to_set, list_elem_of_filter, elem_of_seq.
  split; [tauto|]. intros H. split; [done|].
  apply status_at_Some in H as (n & Hn & _). apply lookup_lt_Some in Hn. lia.
Qed.

Lemma running_ids_ext ns ns' : (forall i, status_at ns' i = Some running <-> status_at ns i = Some running) ->
  running_ids ns' = running_ids ns.
Proof. intros H. apply set_eq. intros i. by rewrite !elem_of_running. Qed.

Lemma idle_pool maxc c : ranks_inv maxc c -> running_ids (nodes c) = ∅ ->
  available_ (rank_pool_ c) = total_ (rank_pool_ c).
Proof.
  intros H Hr. pose proof (r_pool _ _ H) as [_ _ Htot Hav]. rewrite Htot, Hav. f_equal.
  unfold free_count. f_equal. apply filter_all_true. intros [r b] Hin.
  unfold is_free. simpl. destruct b; [done|exfalso].
  apply (r_taken _ _ H) in Hin as (i & a & Ha & Hra).
  assert (Hn : is_Some (nodes c !! i)).
  { apply lookup_lt_is_Some. rewrite <- (r_len _ _ H). by eapply lookup_lt_Some. }
  destruct Hn as [n Hn]. assert (Hrun : status n = running).
  { apply (r_held _ _ H i n a Hn Ha). set_solver. }
  assert (Hin : i ∈ running_ids (nodes c)); [|rewrite Hr in Hin; set_solver].
  rewrite elem_of_running, (status_lookup _ _ _ Hn). by f_equal.
Qed.

Section Cycle.
Context {W : Type} (clock : nat -> Z) (dn : list (list nat)) (Hg : graph_ok dn).
Context (tracks : W -> gset nat -> Prop).
Local Abbreviation dep := (fun x y => y ∈ deps dn x).

(** ** The invariant of the loop object *)

Record loop_ok (l : Event_Loop W) : Prop := {
  k_inv : loop_inv dn (max_concurrency (config l)) (core l);
  k_max : (1 <= max_concurrency (config l) <= 1024)%Z;
  k_env : Executor (dispatch_cb l) (completion_cb l) tracks;
  k_world : tracks (world l) (running_ids (nodes (core l)))
}.

(** A node is cancelled because of a failed node it depends on. *)
Definition blame (ns ns' : list TaskNode) : Prop :=
  forall j, status_at ns' j = Some cancelled -> status_at ns j = Some cancelled \/
    exists p, tc dep p j /\ status_at ns' p = Some failed.

(** What every phase leaves as it was, and how the nodes move. *)
Record phase (l l' : Event_Loop W) : Prop := {
  ph_config : config l' = config l;
  ph_dispatch : dispatch_cb l' = dispatch_cb l;
  ph_completion : completion_cb l' = completion_cb l;
  ph_needs : needs (core l') = needs (core l);
  ph_moves : moves (nodes (core l)) (nodes (core l'));
  ph_blame : blame (nodes (core l)) (nodes (core l'));
  ph_clock : clock_reads (timer l) <= clock_reads (timer l')
}.

#[export] Instance phase_preorder : PreOrder phase.
Proof.
  split.
  - intros l. split; try done. by left.
  - intros a b c [] [? ? ? ? Hm Hb ?]. split; try congruence; [by etrans| |lia].
    intros j [Hj|?]%Hb; [|by right]. apply ph_blame0 in Hj as [?|(p & Hp & Hs)]; [by left|right].
    exists p. split; [done|]. by eapply moves_terminal.
Qed.

Lemma blame_none ns ns' : (forall j, status_at ns' j = Some cancelled -> status_at ns j = Some cancelled) ->
  blame ns ns'.
Proof. intros H j Hj. left. by apply H. Qed.

(** The transitive dependents of a node that has not completed wait or are cancelled. *)
Lemma tc_waiting ns q i j : sched_inv dn ns q -> tc dep i j -> status_at ns i <> Some completed ->
  status_at ns j = Some pending \/ status_at ns j = Some cancelled.
Proof.
  intros Hs Ht Hi. apply (tc_ind_r (R := dep)
    (fun j => status_at ns j = Some pending \/ status_at ns j = Some cancelled) i); [| |done].
  - intros y Hy. by eapply (s_order _ _ _ Hs).
  - intros x y _ Hxy Hx. apply (s_order _ _ _ Hs x y Hxy). destruct Hx; congruence.
Qed.

Lemma moves_pointwise ns ns' : length ns' = length ns ->
  (forall j, status_at ns' j = status_at ns j \/
     exists s s', status_at ns j = Some s /\ status_at ns' j = Some s' /\ rtc task_step s s') ->
  moves ns ns'.
Proof.
  intros Hl H. split; [done|]. intros j s Hj.
  destruct (H j) as [E|(t & t' & E & E' & Ht)]; [exists s; split; [congruence|done]|].
  exists t'. split; [done|]. congruence.
Qed.

Lemma needs_len c c' : needs c' = needs c -> length (nodes c') = length (nodes c).
Proof. intros [= E _]. by rewrite <- (length_fmap required_ranks), E, length_fmap. Qed.

(** One running node fails or completes. *)
Lemma fail_core maxc c i n : loop_inv dn maxc c -> nodes c !! i = Some n -> status n = running ->
  exists c', propagate_failure_core c i = Ok c' /\ loop_inv dn maxc c' /\ needs c' = needs c /\
    moves (nodes c) (nodes c') /\ ready_queue c' = ready_queue c /\
    status_at (nodes c') i = Some failed /\
    running_ids (nodes c') = running_ids (nodes c) ∖ {[i]} /\ blame (nodes c) (nodes c').
Proof.
  intros Hi Hn Hs.
  destruct (propagate_spec dn Hg maxc c i n Hi Hn Hs) as (c' & E & Hi' & Hq & Hf & Hc & Ho).
  pose proof (status_lookup _ _ _ Hn) as Hsi. rewrite Hs in Hsi.
  assert (Hw : forall j, tc dep i j -> status_at (nodes c) j = Some pending \/
    status_at (nodes c) j = Some cancelled)
    by (intros j Hj; eapply tc_waiting; [apply Hi|exact Hj|congruence]).
  assert (Hcase : forall j, j = i \/ (j <> i /\ status_at (nodes c') j = status_at (nodes c) j) \/
    (j <> i /\ tc dep i j /\ status_at (nodes c) j = Some pending /\ status_at (nodes c') j = Some cancelled)).
  { intros j. destruct (decide (j = i)) as [|Hne]; [by left|]. right.
    destruct (Ho j Hne) as [Ht|?]; [|by left]. pose proof (Hc j Ht) as Hj.
    destruct (Hw j Ht) as [?|E2]; [by right|left]. split; [done|]. congruence. }
  exists c'. repeat (split; [done|]). split; [by eapply needs_propagate|]. split; [|split; [done|split; [done|]]].
  - apply moves_pointwise; [apply needs_len; by eapply needs_propagate|]. intros j.
    destruct (Hcase j) as [->|[[_ ?]|(_ & _ & H1 & H2)]]; [right|by left|right].
    + exists running, failed. repeat split; try done. apply rtc_once. constructor.
    + exists pending, cancelled. repeat split; try done. apply rtc_once. constructor.
  - split.
    + apply set_eq. intros j. rewrite elem_of_difference, !elem_of_running, elem_of_singleton.
      destruct (Hcase j) as [->|[[? ->]|(? & _ & -> & ->)]]; [rewrite Hf; naive_solver|tauto|naive_solver].
    + intros j Hj. destruct (Hcase j) as [->|[[? E2]|(? & Ht & _)]]; [congruence|left; congruence|].
      right. by exists i.
Qed.

Lemma finish_core maxc c i n : loop_inv dn maxc c -> (maxc <= 1024)%Z ->
  nodes c !! i = Some n -> status n = running ->
  loop_inv dn maxc (complete_core c i n) /\ moves (nodes c) (nodes (complete_core c i n)) /\
  status_at (nodes (complete_core c i n)) i = Some completed /\
  running_ids (nodes (complete_core c i n)) = running_ids (nodes c) ∖ {[i]} /\
  blame (nodes c) (nodes (complete_core c i n)).
Proof.
  intros Hi Hm Hn Hs. destruct (complete_inv dn Hg maxc c i n Hi ltac:(lia) Hn Hs) as [Hi' Ha].
  pose proof (status_lookup _ _ _ Hn) as Hsi. rewrite Hs in Hsi.
  split; [done|]. split; [|split; [by rewrite Ha, decide_True|split]].
  - apply moves_pointwise; [apply needs_len, needs_complete|]. intros j. rewrite Ha.
    destruct (decide (i = j)) as [<-|]; [right|by left].
    exists running, completed. repeat split; try done. apply rtc_once. constructor.
  - apply set_eq. intros j. rewrite elem_of_difference, !elem_of_running, elem_of_singleton, Ha.
    destruct (decide (i = j)) as [<-|]; naive_solver.
  - apply blame_none. intros j. rewrite Ha. by destruct (decide (i = j)).
Qed.

(** ** Phase 3 *)

(** One reported completion: the node leaves the running set. *)
Lemma complete_one_ok l i b : loop_inv dn (max_concurrency (config l)) (core l) ->
  (max_concurrency (config l) <= 1024)%Z ->
  exists l', complete_one clock l i b = Ok l' /\ phase l l' /\ world l' = world l /\
    loop_inv dn (max_concurrency (config l')) (core l') /\
    running_ids (nodes (core l')) = running_ids (nodes (core l)) ∖ {[i]} /\
    (i ∈ running_ids (nodes (core l)) -> exists s, status_at (nodes (core l')) i = Some s /\
       is_terminal s = true).
Proof.
  intros Hi Hm. unfold complete_one.
  assert (Hskip : i ∉ running_ids (nodes (core l)) -> exists l', Ok l = Ok l' /\ phase l l' /\
    world l' = world l /\ loop_inv dn (max_concurrency (config l')) (core l') /\
    running_ids (nodes (core l')) = running_ids (nodes (core l)) ∖ {[i]} /\
    (i ∈ running_ids (nodes (core l)) -> exists s, status_at (nodes (core l')) i = Some s /\
       is_terminal s = true)).
  { intros Hr. exists l. repeat (split; [done|]). split; [set_solver|done]. }
  destruct (nodes (core l) !! i) as [n|] eqn:Hn.
  2:{ apply Hskip. rewrite elem_of_running. unfold status_at. by rewrite Hn. }
  case_bool_decide as Hs; simpl.
  2:{ apply Hskip. rewrite elem_of_running, (status_lookup _ _ _ Hn). congruence. }
  destruct b.
  - destruct (finish_core _ _ _ _ Hi Hm Hn Hs) as (Hi' & Hmv & Hst & Hr & Hbl).
    eexists. split; [done|]. split; [split; try done; [apply needs_complete|simpl; lia]|].
    repeat (split; [done|]). intros _. by exists completed.
  - destruct (fail_core _ _ _ _ Hi Hn Hs) as (c' & E & Hi' & Hnd & Hmv & Hq & Hst & Hr & Hbl).
    unfold propagate_failure. rewrite E. simpl.
    eexists. split; [done|]. split; [split; try done; simpl; lia|]. repeat (split; [done|]). intros _. by exists failed.
Qed.

Lemma complete_all_ok l cs : loop_inv dn (max_concurrency (config l)) (core l) ->
  (max_concurrency (config l) <= 1024)%Z ->
  exists l', complete_all clock l cs = Ok l' /\ phase l l' /\ world l' = world l /\
    loop_inv dn (max_concurrency (config l')) (core l') /\
    running_ids (nodes (core l')) = running_ids (nodes (core l)) ∖ list_to_set cs.*1 /\
    (forall i, i ∈ cs.*1 -> i ∈ running_ids (nodes (core l)) ->
       live (nodes (core l')) < live (nodes (core l))).
Proof.
  revert l. induction cs as [|[i b] cs IH]; intros l Hi Hm.
  - exists l. repeat (split; [done|]). split; [set_solver|]. set_solver.
  - simpl. destruct (complete_one_ok l i b Hi Hm) as (l1 & E1 & Hp1 & Hw1 & Hi1 & Hr1 & Ht1).
    rewrite E1. simpl. pose proof Hp1 as [Hc1 _ _ _ Hm1 _ _].
    destruct (IH l1 Hi1) as (l2 & E2 & Hp2 & Hw2 & Hi2 & Hr2 & Ht2); [by rewrite Hc1|].
    exists l2. split; [done|]. split; [by etrans|]. split; [congruence|]. split; [done|].
    split; [rewrite Hr2, Hr1; set_solver|]. pose proof Hp2 as [_ _ _ _ Hm2 _ _].
    intros j Hj Hjr. destruct (decide (j = i)) as [->|Hne].
    + destruct (Ht1 Hjr) as (s & Hs & Hst). apply elem_of_running in Hjr.
      pose proof (moves_live_lt _ _ i running s Hm1 Hjr eq_refl Hs Hst).
      pose proof (moves_live _ _ Hm2). lia.
    + pose proof (moves_live _ _ Hm1).
      assert (live (nodes (core l2)) < live (nodes (core l1))); [|lia].
      apply (Ht2 j); [set_solver|]. rewrite Hr1. set_solver.
Qed.

(** ** Phase 2 *)

(** Starting the head of the queue. *)
Lemma start_core_ok c i n rest ranks p : nodes c !! i = Some n -> status n = ready ->
  total_ p = total_ (rank_pool_ c) ->
  needs (start_core c i rest ranks p) = needs c /\
  moves (nodes c) (nodes (start_core c i rest ranks p)) /\
  running_ids (nodes (start_core c i rest ranks p)) = {[i]} ∪ running_ids (nodes c) /\
  nodes (start_core c i rest ranks p) !! i = Some (with_status running n) /\
  blame (nodes c) (nodes (start_core c i rest ranks p)).
Proof.
  intros Hn Hs Hp. pose proof (status_lookup _ _ _ Hn) as Hsi. rewrite Hs in Hsi.
  assert (Hat : forall j, status_at (alter (with_status running) i (nodes c)) j =
    if decide (i = j) then Some running else status_at (nodes c) j).
  { intros j. rewrite status_at_alter. destruct (decide (i = j)) as [<-|]; [by rewrite Hn|done]. }
  unfold start_core. simpl. split; [|split; [|split; [|split]]].
  - unfold needs. simpl. by rewrite fmap_alter_id, Hp.
  - apply moves_pointwise; [apply length_alter|]. intros j. rewrite Hat.
    destruct (decide (i = j)) as [<-|]; [right|by left].
    exists ready, running. repeat split; try done. apply rtc_once. constructor.
  - apply set_eq. intros j. rewrite elem_of_union, elem_of_singleton, !elem_of_running, Hat.
    destruct (decide (i = j)) as [<-|]; naive_solver.
  - by rewrite list_lookup_alter_eq, Hn.
  - apply blame_none. intros j. rewrite Hat. by destruct (decide (i = j)).
Qed.

Lemma try_allocate_total p count ranks p' : try_allocate p count = Ok (ranks, p') -> total_ p' = total_ p.
Proof.
  unfold try_allocate, throw_if. destruct (count =? 0)%Z; [done|]. simpl.
  repeat case_match; by intros [= _ <-].
Qed.

(** Dispatching ends within its fuel.  The nodes running before still run; if none
    ran, every demand fits into the pool and some node was ready, then a node runs
    afterwards or a node has become terminal. *)
Lemma dispatch_loop_ok fuel : forall l, loop_ok l -> length (ready_queue (core l)) <= fuel ->
  exists l', dispatch_loop clock fuel l = Ok l' /\ loop_ok l' /\ phase l l' /\
    running_ids (nodes (core l)) ⊆ running_ids (nodes (core l')) /\
    (running_ids (nodes (core l)) = ∅ -> (exists i, status_at (nodes (core l)) i = Some ready) ->
     Forall (fun r => r <= (needs (core l)).2)%Z (needs (core l)).1 ->
     running_ids (nodes (core l')) <> ∅ \/ live (nodes (core l')) < live (nodes (core l))).
Proof.
  induction fuel as [|fuel IH]; intros l Hok Hf;
    destruct (ready_queue (core l)) as [|i rest] eqn:Eq; try (simpl in Hf; lia).
  1,2: exists l; cbn [dispatch_loop]; rewrite Eq; split; [done|]; split; [done|];
    split; [reflexivity|]; split; [done|]; intros _ [j Hj];
    apply (s_ready _ _ _ (proj2 (k_inv _ Hok))) in Hj; rewrite Eq in Hj; set_solver.
  cbn [dispatch_loop]. rewrite Eq. pose proof Hok as [Hi Hm He Hw].
  destruct (Z.leb_spec (max_concurrency (config l)) (in_flight (core l))) as [Hle|Hlt].
  { exists l. split; [done|]. split; [done|]. split; [reflexivity|]. split; [done|].
    intros Hr. exfalso. rewrite (r_flight _ _ (proj1 Hi)) in Hle.
    assert (running_count (nodes (core l)) = 0); [|lia].
    unfold running_count. rewrite filter_all_false; [done|]. intros n Hin Hs. apply list_elem_of_lookup in Hin as [j Hj].
    assert (Hin : j ∈ running_ids (nodes (core l)));
      [rewrite elem_of_running, (status_lookup _ _ _ Hj); by f_equal|]. rewrite Hr in Hin. set_solver. }
  assert (Hsi : status_at (nodes (core l)) i = Some ready \/ status_at (nodes (core l)) i = Some cancelled)
    by (apply (s_queue _ _ _ (proj2 Hi)); rewrite Eq; by left).
  assert (Hn : exists n, nodes (core l) !! i = Some n)
    by (destruct Hsi as [(n & ? & _)%status_at_Some|(n & ? & _)%status_at_Some]; by exists n).
  destruct Hn as [n Hn]. rewrite Hn. case_bool_decide as Hs; cbn [negb].
  2:{ pose proof (stale_inv dn _ _ _ _ _ Hi Eq Hn Hs) as Hi'.
      match goal with |- context [dispatch_loop _ _ ?x] => set (l1 := x) end.
      destruct (IH l1) as (l' & E & Hok' & Hp & Hsub & Hprog); [by split|simpl in *; lia|].
      exists l'. split; [done|]. split; [done|]. split; [by destruct Hp; split|]. by split. }
  destruct (start_inv dn _ _ _ _ _ Hi Eq Hn Hs Hlt ltac:(lia)) as (ranks & p & E & He0 & He1).
  rewrite E. simpl bind. pose proof (try_allocate_total _ _ _ _ E) as Htot.
  case_bool_decide as Hre.
  { rewrite (He0 Hre). eexists. split; [done|].
    rewrite <- Eq. replace (with_core l _) with l by (destruct l as [? [] ? ? ? ?]; done).
    split; [done|]. split; [reflexivity|]. split; [done|]. intros Hidle _ Hfit. exfalso.
    pose proof (idle_pool _ _ (proj1 Hi) Hidle) as Hfree.
    pose proof (try_allocate_spec _ _ (r_pool _ _ (proj1 Hi)) (proj2 (s_node _ _ _ (proj2 Hi) i n Hn))) as Ht.
    rewrite Forall_forall in Hfit. specialize (Hfit (required_ranks n)).
    destruct (Z.leb_spec (required_ranks n) (available_ (rank_pool_ (core l)))) as [_|Hgt].
    - destruct Ht as (a & Ea & Hsz & _). rewrite E in Ea. injection Ea as <- _. subst ranks.
      rewrite size_empty in Hsz. pose proof (proj2 (s_node _ _ _ (proj2 Hi) i n Hn)). lia.
    - cbn in Hfit. rewrite <- Hfree in Hfit.
      assert (required_ranks n <= available_ (rank_pool_ (core l)))%Z; [|lia].
      apply Hfit. apply list_elem_of_fmap. exists n. split; [done|]. by eapply list_elem_of_lookup_2. }
  specialize (He1 Hre). destruct (start_core_ok (core l) i n rest ranks p Hn Hs Htot) as (Hnd & Hmv & Hrun & Hni & Hbl).
  set (c1 := start_core (core l) i rest ranks p) in *.
  set (l1 := record_progress clock (with_core l c1)).
  assert (Hp1 : phase l l1) by (split; try done; simpl; lia).
  assert (Hgo : forall l2, loop_ok l2 -> phase l l2 -> ready_queue (core l2) = rest ->
    running_ids (nodes (core l)) ⊆ running_ids (nodes (core l2)) ->
    running_ids (nodes (core l2)) <> ∅ \/ live (nodes (core l2)) < live (nodes (core l)) ->
    exists l', dispatch_loop clock fuel l2 = Ok l' /\ loop_ok l' /\ phase l l' /\
    running_ids (nodes (core l)) ⊆ running_ids (nodes (core l')) /\
    (running_ids (nodes (core l)) = ∅ -> (exists i, status_at (nodes (core l)) i = Some ready) ->
     Forall (fun r => r <= (needs (core l)).2)%Z (needs (core l)).1 ->
     running_ids (nodes (core l')) <> ∅ \/ live (nodes (core l')) < live (nodes (core l)))).
  { intros l2 Hok2 Hp2 Hq2 Hsub2 Hor. destruct (IH l2 Hok2) as (l' & El & Hok' & Hp & Hsub & _).
    { rewrite Hq2. simpl in Hf. lia. }
    exists l'. split; [done|]. split; [done|]. split; [by etrans|]. split; [set_solver|].
    intros _ _ _. destruct Hor as [Hne|Hlt2]; [left; set_solver|right].
    pose proof (moves_live _ _ (ph_moves _ _ Hp)). lia. }
  assert (Hne : {[i]} ∪ running_ids (nodes (core l)) <> ∅) by set_solver.
  assert (Hsub : running_ids (nodes (core l)) ⊆ {[i]} ∪ running_ids (nodes (core l))) by set_solver.
  assert (Hfresh : ({[i]} ∪ running_ids (nodes (core l))) ∖ {[i]} = running_ids (nodes (core l))).
  { assert (i ∉ running_ids (nodes (core l))); [|set_solver].
    rewrite elem_of_running, (status_lookup _ _ _ Hn). congruence. }
  assert (Hfail : forall w, tracks w (running_ids (nodes (core l))) -> exists l2,
    propagate_failure clock (with_world l1 w) i = Ok l2 /\ loop_ok l2 /\ phase l l2 /\
    ready_queue (core l2) = rest /\ running_ids (nodes (core l)) ⊆ running_ids (nodes (core l2)) /\
    live (nodes (core l2)) < live (nodes (core l))).
  { intros w Hw'. destruct (fail_core _ _ _ _ He1 Hni eq_refl) as (c2 & E2 & Hi2 & Hnd2 & Hmv2 & Hq2 & Hst2 & Hr2 & Hbl2).
    unfold propagate_failure. simpl. rewrite E2. simpl. rewrite Hrun, Hfresh in Hr2.
    eexists. split; [done|]. split; [split; try done; simpl; by rewrite Hr2|].
    split; [etrans; [exact Hp1|split; try done; simpl; lia]|]. split; [done|]. split; [simpl; by rewrite Hr2|].
    simpl. apply (moves_live_lt _ _ i ready failed); try done; [by etrans|].
    rewrite (status_lookup _ _ _ Hn). by f_equal. }
  change (dispatch_cb l1) with (dispatch_cb l). change (world l1) with (world l).
  destruct (dispatch_cb l) as [cb|] eqn:Ecb.
  2:{ apply Hgo; [|done|done|change (core l1) with c1; by rewrite Hrun|
        left; change (core l1) with c1; by rewrite Hrun].
      split; [exact He1|exact Hm|rewrite <- Ecb in He; exact He|]. change (tracks (world l) (running_ids (nodes c1))). rewrite Hrun. by apply x_silent. }
  destruct (cb (world l) i ranks) as [w r] eqn:Er.
  destruct (x_dispatch cb (world l) _ i ranks w r eq_refl Hw Er) as [Hnu Htr].
  destruct r as [[]|e|]; [| | |done].
  - apply Hgo; [|by destruct Hp1; split|done|change (core (with_world l1 w)) with c1; by rewrite Hrun|
      left; change (core (with_world l1 w)) with c1; by rewrite Hrun].
    split; [exact He1|exact Hm|rewrite <- Ecb in He; exact He|]. change (tracks w (running_ids (nodes c1))). by rewrite Hrun.
  - destruct (Hfail w Htr) as (l2 & -> & ? & ? & ? & ? & ?). simpl. apply Hgo; auto.
  - destruct (Hfail w Htr) as (l2 & -> & ? & ? & ? & ? & ?). simpl. apply Hgo; auto.
Qed.

(** ** The whole cycle *)

Lemma check_deadlock_core (l : Event_Loop W) : core (check_deadlock clock l) = core l /\
  world (check_deadlock clock l) = world l /\ phase l (check_deadlock clock l).
Proof.
  unfold check_deadlock. repeat case_match; (split; [done|split; [done|split; done || (simpl; lia) || by left]]).
Qed.

Lemma poll_ok l : loop_ok l ->
  let l' := with_core l (poll_ready_nodes (core l)) in loop_ok l' /\ phase l l' /\
  running_ids (nodes (core l')) = running_ids (nodes (core l)).
Proof.
  intros [Hi Hm He Hw] l'.
  assert (Hst : forall j, status_at (nodes (core l')) j = match nodes (core l) !! j with
    Some n => Some (if newly_ready n then ready else status n) | None => None end).
  { intros j. unfold l'. simpl. rewrite poll_spec. apply status_at_poll. }
  assert (Hrun : running_ids (nodes (core l')) = running_ids (nodes (core l))).
  { apply running_ids_ext. intros j. rewrite Hst. unfold status_at.
    destruct (nodes (core l) !! j) as [n|]; [|done]. simpl. destruct (newly_ready n) eqn:E; [|done].
    apply newly_ready_spec in E as [-> _]. done. }
  split; [|split; [|done]].
  - split; simpl; try done; [by apply poll_inv|]. simpl in Hrun. by rewrite Hrun.
  - split; simpl; try done; [apply needs_poll| |].
    2:{ apply blame_none. intros j. specialize (Hst j). simpl in Hst. rewrite Hst. unfold status_at.
        destruct (nodes (core l) !! j) as [n|]; [|done]. simpl. by destruct (newly_ready n). }
    apply moves_pointwise; [exact (needs_len _ _ (needs_poll (core l)))|]. intros j. specialize (Hst j). simpl in Hst. rewrite Hst. unfold status_at.
    destruct (nodes (core l) !! j) as [n|]; [|by left]. simpl.
    destruct (newly_ready n) eqn:E; [|by left]. apply newly_ready_spec in E as [E _].
    right. exists (status n), ready. repeat split; try done. rewrite E. apply rtc_once. constructor.
Qed.

Lemma completions_ok l : loop_ok l ->
  match process_completions clock l with
  | Ok l' => loop_ok l' /\ phase l l' /\
      (Responsive (dispatch_cb l) (completion_cb l) tracks -> running_ids (nodes (core l)) <> ∅ ->
       live (nodes (core l')) < live (nodes (core l)))
  | Throw e => (exists cb w, completion_cb l = Some cb /\ cb (world l) = (w, Throw e)) /\
      ~ Responsive (dispatch_cb l) (completion_cb l) tracks
  | Undef => False
  end.
Proof.
  intros [Hi Hm He Hw]. unfold process_completions.
  destruct (completion_cb l) as [cb|] eqn:Ecb.
  2:{ split; [by split; rewrite ?Ecb|]. split; [reflexivity|]. intros [_ (cb & ? & _)]. done. }
  destruct (cb (world l)) as [w r] eqn:Er.
  destruct (x_complete cb (world l) _ w r eq_refl Hw Er) as [Hnu Htr].
  destruct r as [cs|e|]; simpl; [| |done].
  - destruct (complete_all_ok (with_world l w) cs Hi) as (l' & -> & Hp & Hwl & Hi' & Hr & Hlv);
      [simpl; lia|]. simpl in *.
    assert (Hph : phase l l') by (destruct Hp; by split).
    split; [|split; [done|]].
    + destruct Hph as [E1 E2 E3 _ _ _ _]. split; try done; [by rewrite E1|by rewrite E2, E3, Ecb|].
      rewrite Hwl, Hr. by apply Htr.
    + intros [_ (cb' & E' & Hrep)] Hne. injection E' as <-.
      destruct (Hrep _ _ _ _ Hw Er) as (cs' & E' & Hx). injection E' as <-.
      destruct (Hx Hne) as (i & Hi1 & Hi2). by apply (Hlv i).
  - split; [by exists cb, w|]. intros [_ (cb' & E' & Hrep)]. injection E' as <-.
    by destruct (Hrep _ _ _ _ Hw Er) as (cs' & ? & _).
Qed.
End Cycle.

(** ** Reachable states and complete executions *)

Section Runs.
Context {W : Type} (clock : nat -> Z).

(** The states after any number of cycles. *)
Definition next (l l' : Event_Loop W) : Prop := exists b, cycle clock l = Ok (b, l').
Definition reachable (l l' : Event_Loop W) : Prop := rtc next l l'.

(** [while (!loop.cycle()) {}] *)
Fixpoint drive (fuel : nat) (l : Event_Loop W) : option (result (Event_Loop W)) :=
  match fuel with
  | O => None
  | S f =>
      match cycle clock l with
      | Ok (true, l') => Some (Ok l')
      | Ok (false, l') => drive f l'
      | Throw e => Some (Throw e)
      | Undef => Some Undef
      end
  end.
End Runs.

(** Nodes and ranks as the orchestrator creates them. *)
Record fresh (dn : list (list nat)) (ns : list TaskNode) : Prop := {
  f_graph : dependents <$> ns = dn;
  f_node : forall i n, ns !! i = Some n -> id n = i /\ status n = pending /\
    (0 < required_ranks n)%Z /\ pending_deps n = Z.of_nat (unsorted (length dn) dn [] i)
}.

Definition all_free (p : Rank_Pool) : Prop := wf_pool p /\ available_ p = total_ p.

Lemma all_free_slots p r : all_free p -> (r, false) ∉ slots p.
Proof.
  intros [[Hnd _ Htot Hav] E] Hin. rewrite Htot, Hav in E.
  apply list_elem_of_lookup in Hin as [k Hk].
  apply (f_equal Z.to_nat) in E. rewrite !Nat2Z.id in E. revert E k Hk.
  clear. unfold free_count. induction (slots p) as [|s l IH]; [done|].
  intros E [|k] Hk; rewrite filter_cons in E.
  - injection Hk as ->. pose proof (length_filter is_free l). case_decide as Hf; [done|simpl in *; lia].
  - pose proof (length_filter is_free l). case_decide; simpl in *; [|lia]. apply (IH ltac:(lia) k Hk).
Qed.

Lemma fresh_status dn ns i : fresh dn ns -> status_at ns i = Some pending \/ status_at ns i = None.
Proof.
  intros H. unfold status_at. destruct (ns !! i) as [n|] eqn:E; [left|by right].
  simpl. f_equal. by apply (f_node _ _ H) in E as (_ & ? & _).
Qed.

(** The constructor establishes the invariant. *)
Lemma event_loop_inv {W} clock dn cfg ns p (w : W) l : graph_ok dn -> fresh dn ns -> all_free p ->
  event_loop clock cfg ns p w = Ok l ->
  loop_inv dn (max_concurrency (config l)) (core l) /\ (1 <= max_concurrency (config l) <= 1024)%Z /\
  nodes (core l) = ns /\ rank_pool_ (core l) = p /\ world l = w /\ config l = cfg.
Proof.
  intros Hg Hf Hp. unfold event_loop, throw_if. repeat case_match; try done. simpl. intros [= <-]. simpl.
  match goal with H : _ || _ = false, H' : _ || _ = false |- _ => bsimpl; simpl in * end.
  assert (Hst : forall i s, status_at ns i = Some s -> s = pending).
  { intros i s Hs. destruct (fresh_status _ _ i Hf); congruence. }
  assert (Hq : running_count ns = 0).
  { unfold running_count. rewrite filter_all_false; [done|]. intros n Hn Hs.
    apply list_elem_of_lookup in Hn as [i Hi]. apply (f_node _ _ Hf) in Hi as (_ & ? & _). congruence. }
  split; [split|repeat split; lia].
  - split; simpl.
    + apply length_replicate.
    + apply Hp.
    + intros i n a Hn Ha. apply lookup_replicate in Ha as [-> _].
      apply (f_node _ _ Hf) in Hn as (_ & -> & _). done.
    + intros r. split; [intros Hr; by apply all_free_slots in Hr|].
      intros (i & a & Ha & Hr). apply lookup_replicate in Ha as [-> _]. set_solver.
    + intros i j a b r Ha Hb Hr. apply lookup_replicate in Ha as [-> _]. set_solver.
    + by rewrite Hq.
    + lia.
  - split.
    + apply Hf.
    + intros i n Hn. apply (f_node _ _ Hf) in Hn. tauto.
    + constructor.
    + set_solver.
    + intros i Hi. apply Hst in Hi. done.
    + intros j n Hn. apply (f_node _ _ Hf) in Hn as (_ & _ & _ & ->). f_equal. apply unsorted_ext.
      intros q _. rewrite elem_of_done. split; [set_solver|]. intros Hq'%Hst. done.
    + intros q j Hj _.
      assert (Hlt : j < length ns).
      { rewrite <- (length_fmap dependents), (f_graph _ _ Hf). by eapply g_range. }
      apply lookup_lt_is_Some in Hlt as [n Hn]. left.
      simpl. rewrite (status_lookup _ _ _ Hn). f_equal. by apply (f_node _ _ Hf) in Hn as (_ & ? & _).
    + intros q j _ [?%Hst|?%Hst]; done.
Qed.

Section Guarantees.
Context {W : Type} (clock : nat -> Z) (dn : list (list nat)) (Hg : graph_ok dn).
Context (tracks : W -> gset nat -> Prop).
Local Abbreviation dep := (fun x y => y ∈ deps dn x).

Lemma phase_ok (l l' : Event_Loop W) : phase dn l l' -> loop_inv dn (max_concurrency (config l')) (core l') ->
  (1 <= max_concurrency (config l) <= 1024)%Z -> Executor (dispatch_cb l) (completion_cb l) tracks ->
  tracks (world l') (running_ids (nodes (core l'))) -> loop_ok dn tracks l'.
Proof. intros [E1 E2 E3 _ _ _ _] ? ? ? ?. split; try done; [by rewrite E1|by rewrite E2, E3]. Qed.

Lemma cycle_step l : loop_ok dn tracks l ->
  match cycle clock l with
  | Ok (b, l') => loop_ok dn tracks l' /\ phase dn l l' /\ b = all_complete (core l')
  | Throw e => exists cb w w', completion_cb l = Some cb /\ cb w = (w', Throw e)
  | Undef => False
  end.
Proof.
  intros Hok. unfold cycle.
  destruct (poll_ok dn tracks l Hok) as (Hok1 & Hp1 & _).
  destruct (dispatch_loop_ok clock dn Hg tracks _ _ Hok1 (le_n _)) as (l2 & E2 & Hok2 & Hp2 & _ & _).
  unfold dispatch_ready_nodes. rewrite E2. simpl bind.
  pose proof (completions_ok clock dn Hg tracks l2 Hok2) as Hc.
  assert (Hp12 : phase dn l l2) by by etrans.
  destruct (process_completions clock l2) as [l3|e|]; simpl; [| |done].
  - destruct Hc as (Hok3 & Hp3 & _). destruct (check_deadlock_core clock dn l3) as (Ec & Ew & Hp4).
    assert (Hp14 : phase dn l (check_deadlock clock l3)) by (etrans; [exact Hp12|]; etrans; [exact Hp3|done]).
    split; [|split; [done|by rewrite Ec]].
    destruct Hok3. apply (phase_ok l3); try done; rewrite Ec; [by rewrite (ph_config _ _ _ Hp4)|by rewrite Ew].
  - destruct Hc as [(cb & w & Hcb & Ew) _]. exists cb, (world l2), w.
    by rewrite <- (ph_completion _ _ _ Hp12).
Qed.

Lemma reachable_step l l' : reachable clock l l' -> loop_ok dn tracks l ->
  loop_ok dn tracks l' /\ phase dn l l'.
Proof.
  induction 1 as [l|l l1 l2 [b E] _ IH]; intros Hok; [by split|].
  pose proof (cycle_step l Hok) as H. rewrite E in H. destruct H as (Hok1 & Hp & _).
  destruct (IH Hok1). split; [done|]. by etrans.
Qed.

(** A graph without cycles: once the nodes are polled and nothing is ready or
    running, every node is terminal. *)
Lemma polled_stuck ns q : (forall x, ~ tc dep x x) -> sched_inv dn ns q ->
  (forall i n, ns !! i = Some n -> status n = pending -> pending_deps n <> 0%Z) ->
  (forall i, status_at ns i <> Some ready) -> running_ids ns = ∅ ->
  forall i n, ns !! i = Some n -> is_terminal (status n) = true.
Proof.
  intros Hac Hs Hpd Hnr Hrun i. assert (Hsn : sn (flip dep) i).
  { apply tc_finite_sn.
    - intros y Hy. by apply (Hac y), tc_flip_1.
    - exists (seq 0 (length dn)). intros y Hy. apply elem_of_seq. assert (y < length dn); [|lia].
      induction Hy as [a b He|a b c He _ IH]; [|done]. by eapply deps_producer. }
  induction Hsn as [i _ IH]. intros n Hn. pose proof (status_lookup _ _ _ Hn) as Hst.
  destruct (status n) eqn:E; try done; [|by destruct (Hnr i)|].
  2:{ assert (Hin : i ∈ running_ids ns) by by apply elem_of_running. rewrite Hrun in Hin. set_solver. }
  exfalso. apply (Hpd i n Hn E). rewrite (s_deps _ _ _ Hs i n Hn).
  change 0%Z with (Z.of_nat 0). f_equal. apply unsorted_zero. intros p Hp Hj.
  apply elem_of_done. rewrite <- (sched_len _ _ _ Hs) in Hp. apply lookup_lt_is_Some in Hp as [m Hm].
  pose proof (IH p Hj m Hm) as Ht. rewrite (status_lookup _ _ _ Hm).
  destruct (status m) eqn:Em; try done; exfalso;
    (assert (Hx : status_at ns i = Some cancelled); [|congruence]);
    apply (s_fail _ _ _ Hs p i Hj); rewrite (status_lookup _ _ _ Hm), Em; auto.
Qed.

Lemma polled_pending c i n : nodes (poll_ready_nodes c) !! i = Some n -> status n = pending ->
  pending_deps n <> 0%Z.
Proof.
  simpl. rewrite poll_spec. simpl. rewrite list_lookup_fmap. intros (m & _ & ->)%fmap_Some.
  destruct (newly_ready m) eqn:E; [done|]. intros Hs Hp.
  assert (newly_ready m = true) by (by apply newly_ready_spec). congruence.
Qed.

(** Progress: under a responsive executor every cycle of an unfinished loop makes a
    node terminal. *)
Lemma cycle_progress l : loop_ok dn tracks l -> (forall x, ~ tc dep x x) ->
  Responsive (dispatch_cb l) (completion_cb l) tracks ->
  Forall (fun r => r <= (needs (core l)).2)%Z (needs (core l)).1 ->
  exists l', cycle clock l = Ok (all_complete (core l'), l') /\ loop_ok dn tracks l' /\ phase dn l l' /\
    (live (nodes (core l)) = 0 \/ live (nodes (core l')) < live (nodes (core l))).
Proof.
  intros Hok Hac Hresp Hfit. pose proof (cycle_step l Hok) as Hstep. revert Hstep. unfold cycle.
  destruct (poll_ok dn tracks l Hok) as (Hok1 & Hp1 & Hr1).
  set (l1 := with_core l (poll_ready_nodes (core l))) in *.
  destruct (dispatch_loop_ok clock dn Hg tracks _ _ Hok1 (le_n _)) as (l2 & E2 & Hok2 & Hp2 & Hsub & Hdisp).
  unfold dispatch_ready_nodes. rewrite E2. simpl bind.
  pose proof (completions_ok clock dn Hg tracks l2 Hok2) as Hc.
  assert (Hp12 : phase dn l l2) by by etrans.
  rewrite (ph_dispatch _ _ _ Hp12), (ph_completion _ _ _ Hp12) in Hc.
  destruct (process_completions clock l2) as [l3|e|]; simpl; [|by destruct Hc|done].
  destruct Hc as (Hok3 & Hp3 & Hlv3). destruct (check_deadlock_core clock dn l3) as (Ec & Ew & Hp4).
  intros (Hok4 & Hp & _). eexists. split; [done|]. split; [done|]. split; [done|]. rewrite Ec.
  destruct (decide (live (nodes (core l)) = 0)) as [|Hlive]; [by left|right].
  pose proof (moves_live _ _ (ph_moves _ _ _ Hp1)) as M1.
  pose proof (moves_live _ _ (ph_moves _ _ _ Hp2)) as M2.
  pose proof (moves_live _ _ (ph_moves _ _ _ Hp3)) as M3.
  destruct (decide (running_ids (nodes (core l2)) = ∅)) as [Hr2|Hr2]; [|specialize (Hlv3 Hresp Hr2); lia].
  assert (Hr : running_ids (nodes (core l1)) = ∅) by set_solver.
  destruct (decide (Exists (fun n => status n = ready) (nodes (core l1)))) as [Hex|Hnex].
  - apply Exists_exists in Hex as (n & Hin & Hn). apply list_elem_of_lookup in Hin as [i Hi].
    destruct Hdisp as [?|?]; [done| | |done|lia].
    + exists i. rewrite (status_lookup _ _ _ Hi). by f_equal.
    + by rewrite (ph_needs _ _ _ Hp1).
  - assert (Ha1 : all_complete (core l1) = true).
    { unfold all_complete. apply forallb_forall. intros n Hin. apply list_elem_of_In in Hin.
      apply list_elem_of_lookup in Hin as [i Hi].
      eapply (polled_stuck (nodes (core l1))); [done|apply (k_inv _ _ _ Hok1)| | |done|exact Hi].
      - intros j m Hm. eapply polled_pending; exact Hm.
      - intros j (m & Hm & Hs)%status_at_Some. apply Hnex, Exists_exists. exists m. split; [|done].
        by eapply list_elem_of_lookup_2. }
    apply live_zero in Ha1. lia.
Qed.
End Guarantees.

(** A loop with its callbacks. *)
Definition start {W} (clock : nat -> Z) (cfg : Config) (ns : list TaskNode) (p : Rank_Pool) (w : W) d c
  : result (Event_Loop W) :=
  let! l := event_loop clock cfg ns p w in
  Ok (set_completion_callback (set_dispatch_callback l d) c).

Section Theorems.
Context {W : Type} (clock : nat -> Z) (dn : list (list nat)) (tracks : W -> gset nat -> Prop).
Local Abbreviation dep := (fun x y => y ∈ deps dn x).

Lemma start_ok cfg ns p (w : W) d c l : graph_ok dn -> fresh dn ns -> all_free p ->
  Executor (Some d) (Some c) tracks -> tracks w ∅ -> start clock cfg ns p w d c = Ok l ->
  loop_ok dn tracks l /\ nodes (core l) = ns /\ rank_pool_ (core l) = p /\
  dispatch_cb l = Some d /\ completion_cb l = Some c.
Proof.
  intros Hg Hf Hp He Hw H. unfold start in H. inv_ok H. subst l.
  destruct (event_loop_inv clock dn cfg ns p w a Hg Hf Hp Ha) as (Hi & Hm & En & Ep & Ew & Ec).
  split; [|done]. split; [exact Hi|exact Hm|exact He|]. simpl. rewrite En, Ew.
  assert (running_ids ns = ∅) as ->; [|done]. apply set_eq. intros i. rewrite elem_of_running.
  destruct (fresh_status _ _ i Hf); split; [congruence|set_solver|congruence|set_solver].
Qed.

(** Who is cancelled, in every reachable state. *)
Lemma cancelled_iff ns l l' : fresh dn ns -> nodes (core l) = ns -> loop_ok dn tracks l' -> phase dn l l' ->
  forall j, status_at (nodes (core l')) j = Some cancelled <->
    exists p, tc dep p j /\ status_at (nodes (core l')) p = Some failed.
Proof.
  intros Hf En Hok Hp j. split.
  - intros Hj. destruct (ph_blame _ _ _ Hp j Hj) as [H|?]; [|done].
    rewrite En in H. destruct (fresh_status _ _ j Hf); congruence.
  - intros (p & Ht & Hfl). apply (tc_ind_r (R := dep)
      (fun j => status_at (nodes (core l')) j = Some cancelled) p); [| |done].
    + intros y Hy. apply (s_fail _ _ _ (proj2 (k_inv _ _ _ Hok)) p y Hy). by left.
    + intros x y _ Hxy Hx. apply (s_fail _ _ _ (proj2 (k_inv _ _ _ Hok)) x y Hxy). by right.
Qed.

Lemma all_complete_spec c : all_complete c = true ->
  forall j s, status_at (nodes c) j = Some s -> s = completed \/ s = failed \/ s = cancelled.
Proof.
  intros H j s (n & Hn & <-)%status_at_Some. unfold all_complete in H.
  assert (Ht : is_terminal (status n) = true).
  { apply (proj1 (forallb_forall _ _) H), list_elem_of_In. by eapply list_elem_of_lookup_2. }
  destruct (status n); try done; auto.
Qed.

Lemma drive_spec (Hg : graph_ok dn) fuel : forall l, loop_ok dn tracks l -> (forall x, ~ tc dep x x) ->
  Responsive (dispatch_cb l) (completion_cb l) tracks ->
  Forall (fun r => r <= (needs (core l)).2)%Z (needs (core l)).1 ->
  live (nodes (core l)) < fuel ->
  exists l', drive clock fuel l = Some (Ok l') /\ loop_ok dn tracks l' /\ phase dn l l' /\
    all_complete (core l') = true.
Proof.
  induction fuel as [|fuel IH]; intros l Hok Hac Hr Hfit Hlt; [lia|]. simpl.
  destruct (cycle_progress clock dn Hg tracks l Hok Hac Hr Hfit) as (l1 & -> & Hok1 & Hp1 & Hlv).
  destruct (all_complete (core l1)) eqn:E; [by exists l1|].
  assert (Hn : live (nodes (core l1)) <> 0) by (intros Hz; apply live_zero in Hz; congruence).
  pose proof (moves_live _ _ (ph_moves _ _ _ Hp1)).
  destruct (IH l1) as (l' & El & Hok' & Hp' & Hall); try done.
  - by rewrite (ph_dispatch _ _ _ Hp1), (ph_completion _ _ _ Hp1).
  - by rewrite (ph_needs _ _ _ Hp1).
  - lia.
  - exists l'. split; [done|]. split; [done|]. split; [by etrans|done].
Qed.
End Theorems.

(** The graph of validated edges. *)
Lemma build_graph_ok num edges : edges_in_range num edges -> (Z.of_nat (length edges) < 4294967296)%Z ->
  graph_ok (snd (build_graph num edges)).
Proof.
  intros Hr Hl. destruct (dn_ok num edges Hr Hl) as [Hn Hd]. split.
  - intros p j Hj. rewrite Hn. unfold deps in Hj.
    destruct (snd (build_graph num edges) !! p) as [l|] eqn:E; [|simpl in Hj; set_solver].
    by eapply Hd.
  - intros j. rewrite Hn, <- in_count_unsorted by done. pose proof (in_count_le edges j). lia.
Qed.

Lemma build_graph_acyclic num edges : edges_in_range num edges -> (Z.of_nat (length edges) < 4294967296)%Z ->
  acyclic edges -> forall x, ~ tc (fun x y => y ∈ deps (snd (build_graph num edges)) x) x x.
Proof.
  intros Hr Hl Hac x Hx. apply (Hac x). revert Hx. generalize x at 2 4. intros y Hxy.
  assert (He : forall a b, b ∈ deps (snd (build_graph num edges)) a -> edge_rel edges a b).
  { intros a b Hb. assert (Ha : a < num).
    { rewrite <- (proj1 (dn_ok num edges Hr Hl)). by eapply deps_producer. }
    rewrite deps_consumers in Hb by done. by apply elem_of_consumers. }
  induction Hxy as [a b Hb|a b c Hb _ IH]; [apply tc_once; by apply He|].
  eapply tc_l; [by apply He|done].
Qed.

(** ** A concrete executor: everything dispatched is reported by the next poll, and
    task 1 fails. *)

Definition demo_dispatch (w : gset nat) (i : nat) (ranks : gset Z) : gset nat * result bool :=
  ({[i]} ∪ w, Ok true).

Definition demo_complete (w : gset nat) : gset nat * result (list (nat * bool)) :=
  (∅, Ok ((fun i => (i, negb (i =? 1)%nat)) <$> elements w)).

#[export] Instance demo_responsive : Responsive (Some demo_dispatch) (Some demo_complete) eq.
Proof.
  assert (E : forall w : gset nat, ((fun i => (i, negb (i =? 1))) <$> elements w).*1 = elements w).
  { intros w. rewrite <- list_fmap_compose. unfold compose. simpl. apply list_fmap_id. }
  split; [split|].
  - intros cb w s i a w' r [= <-] -> [= <- <-]. done.
  - done.
  - intros cb w s w' r [= <-] -> [= <- <-]. split; [done|]. intros l [= <-]. rewrite E. set_solver.
  - exists demo_complete. split; [done|]. intros w s w' r -> [= <- <-].
    eexists. split; [done|]. rewrite E. intros (i & Hi)%set_choose_L. exists i.
    by rewrite elem_of_elements.
Qed.

Definition demo_nodes : list TaskNode :=
  [mkNode 0 "a" 0 pending 1 [1; 2]; mkNode 1 "b" 1 pending 2 [3];
   mkNode 2 "c" 1 pending 1 [3]; mkNode 3 "d" 2 pending 1 []].

Definition demo_cfg : Config := mkConfig 2 30.

Definition demo_ranks : Rank_Pool := mkPool [(0, true); (1, true)]%Z 2 2.

Lemma demo_graph : graph_ok (snd (build_graph 4 diamond)).
Proof. apply build_graph_ok; [repeat constructor|done]. Qed.

Lemma demo_fresh : fresh (snd (build_graph 4 diamond)) demo_nodes.
Proof.
  split; [vm_compute; reflexivity|].
  intros [|[|[|[|i]]]] n Hn; [injection Hn as <-..|done];
    (split; [done|split; [done|split; [done|vm_compute; reflexivity]]]).
Qed.

Lemma demo_free : all_free demo_ranks.
Proof.
  split; [|done]. split; try done. unfold rank_ids. simpl.
  repeat constructor; set_solver.
Qed.

Lemma demo_acyclic : acyclic diamond.
Proof.
  assert (H : forall x y, tc (edge_rel diamond) x y -> x < y).
  { intros x y Hxy. induction Hxy as [a b Hb|a b c Hb _ IH].
    - unfold edge_rel, diamond in Hb. rewrite !elem_of_cons in Hb.
      destruct Hb as [Hb|[Hb|[Hb|[Hb|Hb]]]]; [injection Hb; lia..|set_solver].
    - assert (a < b); [|lia]. unfold edge_rel, diamond in Hb. rewrite !elem_of_cons in Hb.
      destruct Hb as [Hb|[Hb|[Hb|[Hb|Hb]]]]; [injection Hb; lia..|set_solver]. }
  intros x Hx%H. lia.
Qed.

(** C7. Safety of the schedule, for arbitrary callbacks and in every state reached by
    cycles from the constructor: a node leaves the pending state only when all its
    producers have completed, and it is cancelled exactly when a node it transitively
    depends on has failed; no rank is held by two nodes, exactly the running nodes
    hold ranks; [in_flight_] counts the running nodes and never exceeds
    [max_concurrency]. *)
Theorem reachable_safe {W} clock dn (tracks : W -> gset nat -> Prop) cfg ns p w d c l l' :
  graph_ok dn -> fresh dn ns -> all_free p -> Executor (Some d) (Some c) tracks -> tracks w ∅ ->
  start clock cfg ns p w d c = Ok l -> reachable clock l l' ->
  let st := status_at (nodes (core l')) in
  (forall x y, y ∈ deps dn x -> st x <> Some completed -> st y = Some pending \/ st y = Some cancelled) /\
  (forall j, st j = Some cancelled <-> exists x, tc (fun x y => y ∈ deps dn x) x j /\ st x = Some failed) /\
  (forall i j a b r, allocated (core l') !! i = Some a -> allocated (core l') !! j = Some b ->
     r ∈ a -> r ∈ b -> i = j) /\
  (forall i a, allocated (core l') !! i = Some a -> (st i = Some running <-> a <> ∅)) /\
  in_flight (core l') = Z.of_nat (running_count (nodes (core l'))) /\
  (in_flight (core l') <= max_concurrency cfg)%Z.
Proof.
  intros Hg Hf Hp He Hw Hs Hr st.
  destruct (start_ok clock dn tracks cfg ns p w d c l Hg Hf Hp He Hw Hs) as (Hok & En & _ & _).
  destruct (reachable_step clock dn Hg tracks l l' Hr Hok) as [Hok' Hph].
  destruct (k_inv _ _ _ Hok') as [Hri Hsi].
  assert (Ecfg : config l' = cfg).
  { rewrite (ph_config _ _ _ Hph). unfold start in Hs. inv_ok Hs. subst l.
    by destruct (event_loop_inv clock dn cfg ns p w a Hg Hf Hp Ha) as (_ & _ & _ & _ & _ & E). }
  split; [apply Hsi|]. split; [by eapply cancelled_iff|]. split; [apply Hri|]. split.
  - intros i a Ha. assert (Hn : is_Some (nodes (core l') !! i)).
    { apply lookup_lt_is_Some. rewrite <- (r_len _ _ Hri). by eapply lookup_lt_Some. }
    destruct Hn as [n Hn]. rewrite <- (r_held _ _ Hri i n a Hn Ha). unfold st.
    rewrite (status_lookup _ _ _ Hn). split; [by intros [= <-]|by intros ->].
  - rewrite <- Ecfg. split; [apply Hri|]. apply (r_max _ _ Hri).
Qed.

(** C8. Liveness: an acyclic graph whose demands fit into the pool, driven under an
    executor that reports a completion whenever something runs, is finished after at
    most one cycle more than there are nodes; no cycle throws; at the end each node
    has completed, failed, or is cancelled because of a failed node upstream. *)
Theorem drive_completes {W} clock dn (tracks : W -> gset nat -> Prop) cfg ns p w d c l :
  graph_ok dn -> (forall x, ~ tc (fun x y => y ∈ deps dn x) x x) -> fresh dn ns -> all_free p ->
  Forall (fun n => required_ranks n <= total_ p)%Z ns ->
  Responsive (Some d) (Some c) tracks -> tracks w ∅ -> start clock cfg ns p w d c = Ok l ->
  exists l', drive clock (S (length ns)) l = Some (Ok l') /\
  let st := status_at (nodes (core l')) in
  (forall j, j < length ns -> st j = Some completed \/ st j = Some failed \/
     (st j = Some cancelled /\ exists x, tc (fun x y => y ∈ deps dn x) x j /\ st x = Some failed)).
Proof.
  intros Hg Hac Hf Hp Hfit Hr Hw Hs.
  destruct (start_ok clock dn tracks cfg ns p w d c l Hg Hf Hp _ Hw Hs) as (Hok & En & Ep & Ed & Ec).
  destruct (drive_spec clock dn tracks Hg (S (length ns)) l Hok Hac) as (l' & E & Hok' & Hph & Hall).
  - by rewrite Ed, Ec.
  - unfold needs. rewrite En, Ep. simpl. by apply Forall_fmap.
  - rewrite En. unfold live. pose proof (length_filter (fun n => is_terminal (status n) = false) ns). lia.
  - exists l'. split; [done|]. intros st j Hj.
    pose proof (needs_len _ _ (ph_needs _ _ _ Hph)) as Hl. rewrite En in Hl. rewrite <- Hl in Hj.
    apply lookup_lt_is_Some in Hj as [n Hn]. unfold st. rewrite (status_lookup _ _ _ Hn).
    pose proof (status_lookup _ _ _ Hn) as Hst.
    destruct (all_complete_spec _ Hall j _ Hst) as [->|[->|Hc]]; [auto|auto|]. right. right.
    split; [by f_equal|]. rewrite Hc in Hst. by eapply cancelled_iff.
Qed.

Definition demo_clock (n : nat) : Z := (1000000000 * Z.of_nat n)%Z.

Definition demo_loop : Event_Loop (gset nat) :=
  match start demo_clock demo_cfg demo_nodes demo_ranks ∅ demo_dispatch demo_complete with
  | Ok l => l
  | _ => mkLoop _ demo_cfg (mkCore [] demo_ranks [] 0 []) (mkTimer 0 false 0) ∅ None None
  end.

(** Two cycles: task 0 completes, then task 1 (two ranks) fails. *)
Definition demo_next (l : Event_Loop (gset nat)) : Event_Loop (gset nat) :=
  match cycle demo_clock l with Ok (_, l') => l' | _ => l end.

Example reachable_safe_witness :
  let l' := demo_next (demo_next demo_loop) in
  (status <$> nodes (core l')) = [completed; failed; ready; cancelled] /\
  (in_flight (core l') <= max_concurrency demo_cfg)%Z.
Proof.
  split; [vm_compute; reflexivity|].
  refine (proj2 (proj2 (proj2 (proj2 (proj2 (reachable_safe demo_clock _ eq demo_cfg demo_nodes demo_ranks ∅
    demo_dispatch demo_complete demo_loop (demo_next (demo_next demo_loop)) demo_graph demo_fresh demo_free
    _ eq_refl _ _)))))).
  - reflexivity.
  - apply rtc_l with (demo_next demo_loop); [|apply rtc_once]; eexists; vm_compute; reflexivity.
Defined.

Example drive_completes_witness :
  exists l', drive demo_clock 5 demo_loop = Some (Ok l') /\
  forall j, j < 4 -> status_at (nodes (core l')) j = Some completed \/ status_at (nodes (core l')) j = Some failed \/
    (status_at (nodes (core l')) j = Some cancelled /\ exists x,
      tc (fun x y => y ∈ deps (snd (build_graph 4 diamond)) x) x j /\ status_at (nodes (core l')) x = Some failed).
Proof.
  apply (drive_completes demo_clock _ eq demo_cfg demo_nodes demo_ranks ∅ demo_dispatch demo_complete demo_loop).
  - apply demo_graph.
  - apply build_graph_acyclic; [repeat constructor|done|apply demo_acyclic].
  - apply demo_fresh.
  - apply demo_free.
  - repeat constructor; done.
  - apply demo_responsive.
  - reflexivity.
  - reflexivity.
Defined.
