(* ===== verification/PipelineConfig.v ===== *)
(** * DAGR: the parsed pipeline ([dagr/pipeline_config.hpp]) *)
From stdpp Require Import base list numbers strings.
From Stdlib Require Import ZArith.
From S2P Require Import Prelude CInt TimeCore Kahn.

Inductive Temporal_Profile : Type := linear | step.

#[export] Instance Temporal_Profile_eq_dec : EqDecision Temporal_Profile.
Proof. solve_decision. Defined.

Inductive OutOfBounds_Policy : Type := clamp | cycle.

#[export] Instance OutOfBounds_Policy_eq_dec : EqDecision OutOfBounds_Policy.
Proof. solve_decision. Defined.

Record Stream_Descriptor : Type := mkStream {
  stream_name : string;
  temporal_profile : Temporal_Profile;
  oob_policy : OutOfBounds_Policy;
  dataset_path : string;
  snapshot_interval : Duration
}.

Record Pipeline_Config : Type := mkPipeline {
  streams : list Stream_Descriptor;
  task_names : list string;
  edges : list Dependency_Edge;
  max_concurrency : Z;
  deadlock_timeout_s : Z;
  shutdown_timeout_s : Z
}.

(** The member initialisers. *)
Definition default_config : Pipeline_Config := mkPipeline [] [] [] 64 30 30.
