(* ===== verification/Orchestrator.v ===== *)
(** * DAGR: the orchestrator facade ([graph_orchestrator.cpp])

    [Impl] is the private implementation object; the pool it owns is the one its
    event loop works on.  A [GraphOrchestrator] is [None] once moved from.  [run]
    installs the only callbacks the facade ever installs, so the callers' state of
    the event loop is [unit].  Log messages, and with them the text of exceptions,
    are not modelled. *)
From stdpp Require Import base list numbers gmap sets relations strings.
From Stdlib Require Import ZArith Lia.
From S2P Require Import Prelude CInt TimeCore Kahn RankPool EventLoop EventLoopInv EventLoopProps PipelineConfig.

(** ** The implementation object *)

Record Impl : Type := mkImpl {
  pipeline : Pipeline_Config;
  event_loop_ : Event_Loop unit;
  shut_down : bool;
  deferred_reclaim : gset Z
}.

Definition with_loop (i : Impl) (l : Event_Loop unit) : Impl :=
  mkImpl (pipeline i) l (shut_down i) (deferred_reclaim i).

Definition pool (i : Impl) : Rank_Pool := rank_pool_ (core (event_loop_ i)).

Definition with_pool (i : Impl) (p : Rank_Pool) : Impl :=
  let c := core (event_loop_ i) in
  with_loop i (with_core (event_loop_ i) (mkCore (nodes c) p (ready_queue c) (in_flight c) (allocated c))).

Definition with_deferred (i : Impl) (d : gset Z) : Impl :=
  mkImpl (pipeline i) (event_loop_ i) (shut_down i) d.

Definition validated_node_count (cfg : Pipeline_Config) : result nat :=
  do! validate_dag (length (task_names cfg)) (edges cfg) then Ok (length (task_names cfg)).

(** The nodes of the graph: one rank each, in-degrees and adjacency lists. *)
Definition populate_nodes (cfg : Pipeline_Config) : list TaskNode :=
  let g := build_graph (length (task_names cfg)) (edges cfg) in
  imap (fun i task_name => mkNode i task_name (default 0%Z (fst g !! i)) pending 1
                             (default [] (snd g !! i))) (task_names cfg).

Definition build_rank_pool (world_size : Z) : Rank_Pool := rank_pool (list_to_set (seqZ 0 world_size)).

Definition build_event_loop (clock : nat -> Z) (cfg : Pipeline_Config) (ns : list TaskNode) (p : Rank_Pool)
  : result (Event_Loop unit) :=
  event_loop clock (mkConfig (PipelineConfig.max_concurrency cfg) (PipelineConfig.deadlock_timeout_s cfg)) ns p tt.

(** The event loop refers to the node vector, which is filled after it. *)
Definition impl (clock : nat -> Z) (cfg : Pipeline_Config) (world_size : Z) : result Impl :=
  do! validated_node_count cfg then
  let! l := build_event_loop clock cfg (populate_nodes cfg) (build_rank_pool world_size) in
  Ok (mkImpl cfg l false ∅).

Definition process_deferred_reclamation (i : Impl) : Impl :=
  if bool_decide (deferred_reclaim i = ∅) then i
  else
    let g := remove_available (pool i) (deferred_reclaim i) in
    with_deferred (with_pool i (snd g)) (deferred_reclaim i ∖ fst g).

Definition has_failed_node (i : Impl) : bool :=
  existsb (fun n => bool_decide (status n = failed)) (nodes (core (event_loop_ i))).

(** ** The facade *)

Section Facade.
Context (clock : nat -> Z).

Definition GraphOrchestrator : Type := option Impl.

Definition graph_orchestrator (cfg : Pipeline_Config) (world_size : Z) : result GraphOrchestrator :=
  let! i := impl clock cfg world_size in Ok (Some i).

(** The callbacks of [run]: accept every dispatch, report nothing. *)
Definition run_dispatch (w : unit) (node_id : nat) (ranks : gset Z) : unit * result bool := (w, Ok true).
Definition run_completion (w : unit) : unit * result (list (nat * bool)) := (w, Ok []).

(** [while (!all_complete()) { cycle(); process_deferred_reclamation(); }]; [None]
    when the fuel ends before the loop does. *)
Fixpoint run_loop (fuel : nat) (i : Impl) : option (result Impl) :=
  if all_complete (core (event_loop_ i)) then Some (Ok i)
  else
    match fuel with
    | O => None
    | S f =>
        match EventLoop.cycle clock (event_loop_ i) with
        | Ok (_, l) => run_loop f (process_deferred_reclamation (with_loop i l))
        | Throw e => Some (Throw e)
        | Undef => Some Undef
        end
    end.

Definition run (fuel : nat) (g : GraphOrchestrator) : option (result GraphOrchestrator) :=
  match g with
  | None => Some (Ok g)
  | Some i =>
      if shut_down i then Some (Ok g)
      else
        let l := set_completion_callback (set_dispatch_callback (event_loop_ i) run_dispatch) run_completion in
        match run_loop fuel (with_loop i l) with
        | Some (Ok i') => Some (do! throw_if (has_failed_node i') runtime_error then Ok (Some i'))
        | Some (Throw e) => Some (Throw e)
        | Some Undef => Some Undef
        | None => None
        end
  end.

Definition advance_step (g : GraphOrchestrator) : result (bool * GraphOrchestrator) :=
  match g with
  | None => Ok (true, g)
  | Some i =>
      if shut_down i then Ok (true, g)
      else
        let! '(all_done, l) := EventLoop.cycle clock (event_loop_ i) in
        Ok (all_done, Some (process_deferred_reclamation (with_loop i l)))
  end.

(** [steady_clock::now()] *)
Definition now (i : Impl) : Z * Impl :=
  let t := timer (event_loop_ i) in
  (clock (clock_reads t),
   with_loop i (with_timer (event_loop_ i)
     (mkTimer (last_progress t) (deadlock_warned t) (S (clock_reads t))))).

(** The drain loop of [shutdown]. *)
Fixpoint drain (fuel : nat) (start : Z) (i : Impl) : option (result Impl) :=
  if (0 <? in_flight (core (event_loop_ i)))%Z then
    match fuel with
    | O => None
    | S f =>
        let '(t, i1) := now i in
        if (shutdown_timeout_s (pipeline i) * 1000000000 <=? t - start)%Z then
          Some (Ok (with_loop i1 (force_cancel_in_flight clock (event_loop_ i1))))
        else
          match EventLoop.cycle clock (event_loop_ i1) with
          | Ok (_, l) => drain f start (process_deferred_reclamation (with_loop i1 l))
          | Throw e => Some (Throw e)
          | Undef => Some Undef
          end
    end
  else Some (Ok i).

Definition shutdown (fuel : nat) (g : GraphOrchestrator) : option (result GraphOrchestrator) :=
  match g with
  | None => Some (Ok g)
  | Some i =>
      if shut_down i then Some (Ok g)
      else
        let '(start, i1) := now i in
        match drain fuel start i1 with
        | Some (Ok i2) => Some (Ok (Some (mkImpl (pipeline i2) (event_loop_ i2) true (deferred_reclaim i2))))
        | Some (Throw e) => Some (Throw e)
        | Some Undef => Some Undef
        | None => None
        end
  end.

Definition yield_ranks (rank_set : gset Z) (g : GraphOrchestrator) : GraphOrchestrator :=
  match g with
  | None => g
  | Some i => if shut_down i then g else Some (with_pool i (add_ranks (pool i) rank_set))
  end.

Definition reclaim_ranks (rank_set : gset Z) (g : GraphOrchestrator) : GraphOrchestrator :=
  match g with
  | None => g
  | Some i =>
      if shut_down i then g
      else
        let r := remove_available (pool i) rank_set in
        Some (with_deferred (with_pool i (snd r)) (deferred_reclaim i ∪ (rank_set ∖ fst r)))
  end.

Definition orch_total_ranks (g : GraphOrchestrator) : Z :=
  match g with None => 0 | Some i => total_ranks (pool i) end.
Definition orch_available_ranks (g : GraphOrchestrator) : Z :=
  match g with None => 0 | Some i => available_ranks (pool i) end.
Definition in_flight_count (g : GraphOrchestrator) : Z :=
  match g with None => 0 | Some i => in_flight (core (event_loop_ i)) end.
Definition is_shutdown (g : GraphOrchestrator) : bool :=
  match g with None => true | Some i => shut_down i end.
End Facade.

(** ** The sub-communicator registry

    [Comm] is a communicator handle, [W] the state of the message-passing layer;
    [split] is the collective call and [free] the destructor of a handle. *)
Section Communicators.
Context {Comm W : Type} (split : W -> Z -> Z -> W * result Comm) (free : W -> Comm -> W).

Record Registry : Type := mkRegistry {
  task_communicators : list (option Comm);
  comm_creation_order : list nat
}.

(** A slot that is overwritten or reset frees the handle it held. *)
Definition drop (w : W) (slot : option (option Comm)) : W :=
  match slot with Some (Some c) => free w c | _ => w end.

Definition create_task_communicator (w : W) (r : Registry) (node_id : nat) (color key : Z)
  : W * result Registry :=
  let '(w1, sub_comm) := split w color key in
  match sub_comm with
  | Ok c =>
      if decide (node_id < length (task_communicators r)) then
        (drop w1 (task_communicators r !! node_id),
         Ok (mkRegistry (<[node_id := Some c]> (task_communicators r))
               (comm_creation_order r ++ [node_id])))
      else (w1, Undef)
  | Throw e => (w1, Throw e)
  | Undef => (w1, Undef)
  end.

(** [destroy_cancelled_communicator] and [release_task_communicator] have the same body. *)
Definition release_task_communicator (w : W) (r : Registry) (node_id : nat) : W * Registry :=
  match task_communicators r !! node_id with
  | Some (Some c) =>
      (free w c, mkRegistry (<[node_id := None]> (task_communicators r))
                   (filter (fun i => i <> node_id) (comm_creation_order r)))
  | _ => (w, r)
  end.

Definition destroy_cancelled_communicator (w : W) (r : Registry) (node_id : nat) : W * Registry :=
  release_task_communicator w r node_id.

(** The destructor's loop over the reversed creation order. *)
Fixpoint destroy_all (w : W) (comms : list (option Comm)) (ids : list nat) : W * list (option Comm) :=
  match ids with
  | [] => (w, comms)
  | node_id :: rest =>
      match comms !! node_id with
      | Some (Some c) => destroy_all (free w c) (<[node_id := None]> comms) rest
      | _ => destroy_all w comms rest
      end
  end.

Definition destroy_impl (w : W) (r : Registry) : W * Registry :=
  let g := destroy_all w (task_communicators r) (reverse (comm_creation_order r)) in
  (fst g, mkRegistry (snd g) []).
End Communicators.

(** ** The invariant *)

(** The facade's callbacks say nothing about the caller's state. *)
Definition no_tracks : unit -> gset nat -> Prop := fun _ _ => True.

#[export] Instance no_callbacks : Executor (W := unit) None None no_tracks.
Proof. by split. Qed.

#[export] Instance run_callbacks : Executor (Some run_dispatch) (Some run_completion) no_tracks.
Proof.
  split; [|done|].
  - by intros cb w s i a w' r [= <-] _ [= <- <-].
  - by intros cb w s w' r [= <-] _ [= <- <-].
Qed.

Definition graph_of (cfg : Pipeline_Config) : list (list nat) :=
  snd (build_graph (length (task_names cfg)) (edges cfg)).

(** The callbacks the facade can have installed. *)
Definition facade_callbacks (l : Event_Loop unit) : Prop :=
  (dispatch_cb l = None /\ completion_cb l = None) \/
  (dispatch_cb l = Some run_dispatch /\ completion_cb l = Some run_completion).

(** Before the shutdown the loop is well formed; after it no task runs and the
    allocation state is consistent. *)
Definition orch_ok (cfg : Pipeline_Config) (g : GraphOrchestrator) : Prop :=
  match g with
  | None => True
  | Some i =>
      pipeline i = cfg /\
      EventLoop.max_concurrency (config (event_loop_ i)) = PipelineConfig.max_concurrency cfg /\
      facade_callbacks (event_loop_ i) /\
      if shut_down i
      then ranks_inv (PipelineConfig.max_concurrency cfg) (core (event_loop_ i)) /\
           in_flight (core (event_loop_ i)) = 0%Z
      else loop_ok (graph_of cfg) no_tracks (event_loop_ i)
  end.

(** *** Changing the pool *)

Lemma pool_change maxc c p : ranks_inv maxc c -> wf_pool p ->
  (forall r, (r, false) ∈ slots p <-> (r, false) ∈ slots (rank_pool_ c)) ->
  ranks_inv maxc (mkCore (nodes c) p (ready_queue c) (in_flight c) (allocated c)).
Proof. intros [H1 H2 H3 H4 H5 H6 H7] Hp Hs. split; try done. intros r. simpl. rewrite Hs. apply H4. Qed.

Lemma with_pool_ok cfg i p : orch_ok cfg (Some i) -> wf_pool p ->
  (forall r, (r, false) ∈ slots p <-> (r, false) ∈ slots (pool i)) ->
  orch_ok cfg (Some (with_pool i p)).
Proof.
  intros (E1 & E2 & E3 & Hok) Hp Hs. split; [done|]. split; [done|]. split; [done|]. simpl in *.
  destruct (shut_down i).
  - destruct Hok. split; [|done]. by apply pool_change.
  - destruct Hok as [[Hr Hsch] Hm He Hw]. split; try done. split; [|done]. by apply pool_change.
Qed.

Lemma removed_false p ranks r : wf_pool p ->
  (r, false) ∈ slots (remove_available p ranks).2 <-> (r, false) ∈ slots p.
Proof.
  intros Hp. destruct (remove_available_spec p ranks Hp) as (_ & -> & _).
  rewrite list_elem_of_filter. unfold removable. simpl. rewrite andb_false_r. tauto.
Qed.

Lemma added_false p ranks r : (r, false) ∈ slots (add_ranks p ranks) <-> (r, false) ∈ slots p.
Proof.
  unfold add_ranks. generalize (ascending ranks) as l. intros l. revert p.
  induction l as [|x l IH]; intros p; [done|]. simpl. rewrite IH. unfold add_rank.
  case_decide; [done|]. simpl. rewrite elem_of_app, list_elem_of_singleton. split; [intros [?|?]; done|auto].
Qed.

Lemma orch_pool cfg i : orch_ok cfg (Some i) -> wf_pool (pool i).
Proof.
  intros (_ & _ & _ & H). destruct (shut_down i); [apply (r_pool _ _ (proj1 H))|].
  apply (r_pool _ _ (proj1 (k_inv _ _ _ H))).
Qed.

Lemma deferred_irrelevant cfg i d : orch_ok cfg (Some i) -> orch_ok cfg (Some (with_deferred i d)).
Proof. done. Qed.

Lemma reclamation_ok cfg i : orch_ok cfg (Some i) -> orch_ok cfg (Some (process_deferred_reclamation i)).
Proof.
  intros H. unfold process_deferred_reclamation. case_bool_decide; [done|].
  apply deferred_irrelevant, with_pool_ok; [done| |].
  - apply remove_available_spec. by eapply orch_pool.
  - intros r. apply removed_false. by eapply orch_pool.
Qed.

Lemma reclamation_fields i : pipeline (process_deferred_reclamation i) = pipeline i /\
  shut_down (process_deferred_reclamation i) = shut_down i /\
  nodes (core (event_loop_ (process_deferred_reclamation i))) = nodes (core (event_loop_ i)) /\
  timer (event_loop_ (process_deferred_reclamation i)) = timer (event_loop_ i) /\
  dispatch_cb (event_loop_ (process_deferred_reclamation i)) = dispatch_cb (event_loop_ i) /\
  completion_cb (event_loop_ (process_deferred_reclamation i)) = completion_cb (event_loop_ i).
Proof. unfold process_deferred_reclamation. by case_bool_decide. Qed.

(** *** Forced cancellation *)

Lemma force_one maxc c i k : ranks_inv maxc (set_in_flight c k) ->
  (forall j n, nodes c !! j = Some n -> id n = j) ->
  exists k', ranks_inv maxc (set_in_flight (force_cancel_one c i) k') /\
    (forall j n, nodes (force_cancel_one c i) !! j = Some n -> id n = j) /\
    length (nodes (force_cancel_one c i)) = length (nodes c) /\
    status_at (nodes (force_cancel_one c i)) i <> Some running /\
    (forall j, status_at (nodes c) j <> Some running ->
       status_at (nodes (force_cancel_one c i)) j <> Some running).
Proof.
  intros Hr Hid. unfold force_cancel_one. destruct (nodes c !! i) as [n|] eqn:Hn.
  2:{ exists k. repeat (split; [done|]). split; [|done]. unfold status_at. by rewrite Hn. }
  case_bool_decide as Hs.
  2:{ exists k. repeat (split; [done|]). split; [|done]. rewrite (status_lookup _ _ _ Hn). congruence. }
  rewrite (Hid i n Hn).
  destruct (stop_ranks_inv maxc (set_in_flight c k) i n cancelled Hr Hn Hs) as [Hr' _]; [done|].
  assert (E : release_ranks (set_status (set_in_flight c k) i cancelled) i =
    set_in_flight (set_status (release_ranks c i) i cancelled) k).
  { unfold release_ranks, set_status, set_in_flight. simpl.
    destruct (allocated c !! i); [|done]. by case_bool_decide. }
  rewrite E in Hr'. eexists. split; [exact Hr'|].
  destruct (release_ranks_nodes c i) as (En & _ & _). simpl. rewrite En.
  destruct (alter_static cancelled i (nodes c)) as (_ & Hl & Hst).
  split; [intros j m (m' & Hm & -> & _)%Hst; by apply Hid|]. split; [done|].
  assert (Hat : forall j, status_at (alter (with_status cancelled) i (nodes c)) j =
    if decide (i = j) then Some cancelled else status_at (nodes c) j).
  { intros j. rewrite status_at_alter. destruct (decide (i = j)) as [<-|]; [by rewrite Hn|done]. }
  split; [by rewrite Hat, decide_True|]. intros j Hj. rewrite Hat. by destruct (decide (i = j)).
Qed.

Lemma force_fold maxc (l : list nat) : forall c k, ranks_inv maxc (set_in_flight c k) ->
  (forall j n, nodes c !! j = Some n -> id n = j) ->
  exists k', ranks_inv maxc (set_in_flight (fold_left force_cancel_one l c) k') /\
    length (nodes (fold_left force_cancel_one l c)) = length (nodes c) /\
    (forall j, j ∈ l \/ status_at (nodes c) j <> Some running ->
       status_at (nodes (fold_left force_cancel_one l c)) j <> Some running).
Proof.
  induction l as [|i l IH]; intros c k Hr Hid.
  - exists k. split; [done|]. split; [done|]. intros j [Hj|Hj]; [set_solver|done].
  - destruct (force_one maxc c i k Hr Hid) as (k1 & Hr1 & Hid1 & Hl1 & Hi1 & Hk1). simpl.
    destruct (IH _ k1 Hr1 Hid1) as (k2 & Hr2 & Hl2 & Hj2). exists k2. split; [done|].
    split; [congruence|]. intros j [[->|Hj]%elem_of_cons|Hj]; apply Hj2; auto.
Qed.

(** Forced cancellation stops every node and returns every rank. *)
Lemma force_cancel_ok maxc c : ranks_inv maxc c -> (forall j n, nodes c !! j = Some n -> id n = j) ->
  ranks_inv maxc (force_cancel_core c) /\ in_flight (force_cancel_core c) = 0%Z.
Proof.
  intros Hr Hid. split; [|done]. unfold force_cancel_core.
  destruct (force_fold maxc (seq 0 (length (nodes c))) c (in_flight c)) as (k & Hr' & Hl & Hn);
    [by destruct c|done|].
  assert (E : k = 0%Z).
  { rewrite <- (r_flight _ _ Hr'), (r_flight _ _ Hr') || idtac.
    pose proof (r_flight _ _ Hr') as Hf. simpl in Hf. rewrite Hf. unfold running_count.
    rewrite filter_all_false; [done|]. intros n Hin Hs. apply list_elem_of_lookup in Hin as [j Hj].
    apply (Hn j); [left|rewrite (status_lookup _ _ _ Hj); by f_equal].
    apply elem_of_seq. apply lookup_lt_Some in Hj. lia. }
  by rewrite <- E.
Qed.

Lemma idle_all_free maxc c : ranks_inv maxc c -> in_flight c = 0%Z ->
  available_ (rank_pool_ c) = total_ (rank_pool_ c) /\ (forall j, status_at (nodes c) j <> Some running).
Proof.
  intros Hr Hz. assert (Hn : forall j, status_at (nodes c) j <> Some running).
  { intros j Hj. pose proof (r_flight _ _ Hr) as Hf. rewrite Hz in Hf.
    apply status_at_Some in Hj as (n & Hn & Hs). apply list_elem_of_lookup_2 in Hn.
    assert (Hin : n ∈ filter (fun n => status n = running) (nodes c)) by by apply list_elem_of_filter.
    unfold running_count in Hf. destruct (filter _ (nodes c)); [set_solver|simpl in Hf; lia]. }
  split; [|done]. eapply idle_pool; [done|]. apply set_eq. intros j. rewrite elem_of_running.
  split; [by intros ?%Hn|set_solver].
Qed.

(** *** One cycle *)

Section Operations.
Context (clock : nat -> Z) (cfg : Pipeline_Config) (Hg : graph_ok (graph_of cfg)).

Lemma cycle_ok i : orch_ok cfg (Some i) -> shut_down i = false ->
  exists b l, EventLoop.cycle clock (event_loop_ i) = Ok (b, l) /\ b = all_complete (core l) /\
    orch_ok cfg (Some (with_loop i l)) /\ phase (graph_of cfg) (event_loop_ i) l.
Proof.
  intros (E1 & E2 & E3 & Hok) Hs. rewrite Hs in Hok.
  pose proof (cycle_step clock (graph_of cfg) Hg no_tracks _ Hok) as H.
  destruct (EventLoop.cycle clock (event_loop_ i)) as [[b l]|e|]; [| |done].
  - destruct H as (Hok' & Hp & Hb). exists b, l. split; [done|]. split; [done|]. split; [|done].
    split; [done|]. simpl. rewrite Hs. split; [by rewrite (ph_config _ _ _ Hp)|]. split; [|done].
    unfold facade_callbacks. by rewrite (ph_dispatch _ _ _ Hp), (ph_completion _ _ _ Hp).
  - destruct H as (cb & w & w' & Ecb & Ew). exfalso.
    destruct E3 as [[_ Ec]|[_ Ec]]; rewrite Ec in Ecb; [done|]. injection Ecb as <-. done.
Qed.

Lemma advance_ok g : orch_ok cfg g ->
  exists b g', advance_step clock g = Ok (b, g') /\ orch_ok cfg g'.
Proof.
  intros H. destruct g as [i|]; [|by exists true, None]. unfold advance_step.
  destruct (shut_down i) eqn:Hs; [by exists true, (Some i)|].
  destruct (cycle_ok i H Hs) as (b & l & -> & _ & Hok & _). simpl.
  exists b. eexists. split; [done|]. by apply reclamation_ok.
Qed.

Lemma run_loop_ok fuel : forall i, orch_ok cfg (Some i) -> shut_down i = false ->
  match run_loop clock fuel i with
  | Some (Ok i') => orch_ok cfg (Some i') /\ all_complete (core (event_loop_ i')) = true
  | Some _ => False
  | None => True
  end.
Proof.
  induction fuel as [|fuel IH]; intros i H Hs; simpl;
    destruct (all_complete (core (event_loop_ i))) eqn:E; try done.
  destruct (cycle_ok i H Hs) as (b & l & -> & _ & Hok & _).
  apply IH; [by apply reclamation_ok|].
  destruct (reclamation_fields (with_loop i l)) as (_ & -> & _). done.
Qed.

Lemma run_ok fuel g : orch_ok cfg g ->
  match run clock fuel g with
  | Some (Ok g') => orch_ok cfg g'
  | Some (Throw e) => e = runtime_error
  | Some Undef => False
  | None => True
  end.
Proof.
  intros H. destruct g as [i|]; [|done]. unfold run. destruct (shut_down i) eqn:Hs; [done|].
  match goal with |- context [run_loop _ _ ?x] => set (i1 := x) end.
  assert (Hi1 : orch_ok cfg (Some i1)).
  { destruct H as (E1 & E2 & E3 & Hok). rewrite Hs in Hok. split; [done|]. split; [done|].
    split; [by right|]. simpl. rewrite Hs. destruct Hok as [Hi Hm He Hw].
    split; [exact Hi|exact Hm|apply run_callbacks|done]. }
  pose proof (run_loop_ok fuel i1 Hi1 Hs) as Hr.
  destruct (run_loop clock fuel i1) as [[i'|e|]|]; try done.
  unfold throw_if. destruct (has_failed_node i'); simpl; [done|apply Hr].
Qed.

(** *** Shutdown *)

Lemma now_ok i : orch_ok cfg (Some i) -> orch_ok cfg (Some (snd (now clock i))).
Proof.
  intros (E1 & E2 & E3 & Hok). split; [done|]. split; [done|]. split; [done|]. simpl.
  destruct (shut_down i); [done|]. by destruct Hok.
Qed.

(** The drain loop ends: each iteration reads the clock, and after enough readings
    the timeout has passed. *)
Lemma drain_ok K start i : orch_ok cfg (Some i) -> shut_down i = false ->
  (forall k, (K <= k)%nat -> (shutdown_timeout_s cfg * 1000000000 <= clock k - start)%Z) ->
  forall fuel, 0 < fuel -> K < fuel + clock_reads (timer (event_loop_ i)) ->
  exists i', drain clock fuel start i = Some (Ok i') /\ pipeline i' = cfg /\
    EventLoop.max_concurrency (config (event_loop_ i')) = PipelineConfig.max_concurrency cfg /\
    facade_callbacks (event_loop_ i') /\
    ranks_inv (PipelineConfig.max_concurrency cfg) (core (event_loop_ i')) /\
    in_flight (core (event_loop_ i')) = 0%Z.
Proof.
  intros H Hs Hto fuel. revert i H Hs. induction fuel as [|fuel IH]; intros i H Hs Hpf Hf; [lia|].
  pose proof H as (E1 & E2 & E3 & Hok). rewrite Hs in Hok.
  pose proof (k_inv _ _ _ Hok) as [Hr Hsch]. rewrite E2 in Hr.
  cbn [drain]. destruct (Z.ltb_spec 0 (in_flight (core (event_loop_ i)))) as [Hpos|Hz].
  2:{ exists i. pose proof (r_max _ _ Hr). repeat (split; [done|]). lia. }
  pose proof (now_ok i H) as Hn. cbn [now fst snd] in *. rewrite E1.
  match goal with |- context [with_loop i ?x] => set (i1 := with_loop i x) in * end.
  destruct (Z.leb_spec (shutdown_timeout_s cfg * 1000000000) (clock (clock_reads (timer (event_loop_ i))) - start)).
  - eexists. split; [done|]. repeat (split; [done|]).
    apply force_cancel_ok; [done|]. intros j n Hj. by apply (s_node _ _ _ Hsch).
  - destruct (cycle_ok i1 Hn Hs) as (b & l & -> & _ & Hok1 & Hp).
    pose proof (ph_clock _ _ _ Hp) as Hck. simpl in Hck.
    destruct (decide (K <= clock_reads (timer (event_loop_ i)))) as [HK|HK];
      [specialize (Hto _ HK); lia|].
    destruct (reclamation_fields (with_loop i1 l)) as (_ & Esd & _ & Et & _).
    apply IH; [by apply reclamation_ok|by rewrite Esd|lia|]. rewrite Et. simpl. lia.
Qed.

Lemma shutdown_ok K fuel i : orch_ok cfg (Some i) -> shut_down i = false ->
  (forall k, (K <= k)%nat ->
     (shutdown_timeout_s cfg * 1000000000 <= clock k - clock (clock_reads (timer (event_loop_ i))))%Z) ->
  K < fuel ->
  exists i', shutdown clock fuel (Some i) = Some (Ok (Some i')) /\ orch_ok cfg (Some i') /\
    shut_down i' = true.
Proof.
  intros H Hs Hto Hf. unfold shutdown. rewrite Hs.
  destruct (drain_ok K (clock (clock_reads (timer (event_loop_ i)))) (snd (now clock i)) (now_ok i H) Hs Hto fuel
    ltac:(lia) ltac:(simpl; lia)) as (i' & E & E1 & E2 & E3 & Hr & Hz).
  cbn [now fst snd] in *. rewrite E.
  eexists. split; [done|]. split; [|done]. split; [done|]. split; [done|]. split; [done|]. by split.
Qed.

Lemma drain_keeps fuel start : forall i, orch_ok cfg (Some i) -> shut_down i = false ->
  match drain clock fuel start i with
  | Some (Ok i') => pipeline i' = cfg /\
      EventLoop.max_concurrency (config (event_loop_ i')) = PipelineConfig.max_concurrency cfg /\
      facade_callbacks (event_loop_ i') /\
      ranks_inv (PipelineConfig.max_concurrency cfg) (core (event_loop_ i')) /\
      in_flight (core (event_loop_ i')) = 0%Z
  | Some _ => False
  | None => True
  end.
Proof.
  induction fuel as [|fuel IH]; intros i H Hs;
    pose proof H as (E1 & E2 & E3 & Hok); rewrite Hs in Hok;
    pose proof (k_inv _ _ _ Hok) as [Hr Hsch]; rewrite E2 in Hr; pose proof (r_max _ _ Hr);
    cbn [drain]; destruct (Z.ltb_spec 0 (in_flight (core (event_loop_ i)))); try done;
    try (repeat (split; [done|]); lia).
  pose proof (now_ok i H) as Hn. cbn [now fst snd] in *.
  match goal with |- context [with_loop i ?x] => set (i1 := with_loop i x) in * end.
  destruct (shutdown_timeout_s (pipeline i) * 1000000000 <=? _)%Z.
  - repeat (split; [done|]). apply force_cancel_ok; [done|]. intros j n Hj. by apply (s_node _ _ _ Hsch).
  - destruct (cycle_ok i1 Hn Hs) as (b & l & -> & _ & Hok1 & _).
    apply IH; [by apply reclamation_ok|].
    by destruct (reclamation_fields (with_loop i1 l)) as (_ & -> & _).
Qed.

Lemma shutdown_keeps fuel g : orch_ok cfg g ->
  match shutdown clock fuel g with
  | Some (Ok g') => orch_ok cfg g'
  | Some _ => False
  | None => True
  end.
Proof.
  intros H. destruct g as [i|]; [|done]. unfold shutdown. destruct (shut_down i) eqn:Hs; [done|].
  pose proof (drain_keeps fuel (clock (clock_reads (timer (event_loop_ i)))) _ (now_ok i H) Hs) as Hd.
  cbn [now fst snd] in *. destruct (drain _ _ _ _) as [[i'|e|]|]; done.
Qed.

Lemma yield_ok ranks g : orch_ok cfg g ->
  (forall i, g = Some i -> (Z.of_nat (length (slots (pool i)) + size ranks) < 4294967296)%Z) ->
  orch_ok cfg (yield_ranks ranks g).
Proof.
  intros H Hsz. destruct g as [i|]; [|done]. unfold yield_ranks. destruct (shut_down i); [done|].
  apply with_pool_ok; [done| |intros r; apply added_false].
  apply add_ranks_wf; [by eapply orch_pool|by apply Hsz].
Qed.

Lemma reclaim_ok ranks g : orch_ok cfg g -> orch_ok cfg (reclaim_ranks ranks g).
Proof.
  intros H. destruct g as [i|]; [|done]. unfold reclaim_ranks. destruct (shut_down i); [done|].
  apply deferred_irrelevant, with_pool_ok; [done|apply remove_available_spec; by eapply orch_pool|].
  intros r. apply removed_false. by eapply orch_pool.
Qed.
End Operations.

(** *** Construction *)

Lemma imap_fmap_id {A B} (f : nat -> A -> B) (l : list A) i x :
  imap f l !! i = Some x -> exists a, l !! i = Some a /\ x = f i a.
Proof. rewrite list_lookup_imap. intros (a & ? & ?)%fmap_Some. by exists a. Qed.

Lemma populate_fresh cfg : edges_in_range (length (task_names cfg)) (edges cfg) ->
  (Z.of_nat (length (edges cfg)) < 4294967296)%Z -> fresh (graph_of cfg) (populate_nodes cfg).
Proof.
  intros Hr Hl. destruct (build_graph_spec (length (task_names cfg)) (edges cfg) Hl) as (H1 & H2 & H3 & H4).
  split.
  - apply list_eq. intros i. rewrite list_lookup_fmap. unfold populate_nodes, graph_of.
    rewrite list_lookup_imap, <- option_fmap_compose. unfold compose. simpl.
    destruct (task_names cfg !! i) as [t|] eqn:E; simpl.
    + apply lookup_lt_Some in E. by rewrite H4.
    + apply lookup_ge_None in E. symmetry. apply lookup_ge_None. by rewrite H2.
  - intros i n (t & Ht & ->)%imap_fmap_id. apply lookup_lt_Some in Ht. simpl.
    split; [done|]. split; [done|]. split; [done|]. rewrite H3 by done. simpl. f_equal.
    unfold graph_of. rewrite H2. by apply in_count_unsorted.
Qed.

Lemma build_rank_pool_ok world_size : (0 <= world_size < 4294967296)%Z ->
  all_free (build_rank_pool world_size) /\ total_ (build_rank_pool world_size) = world_size /\
  (forall r, (r, true) ∈ slots (build_rank_pool world_size) <-> (0 <= r < world_size)%Z).
Proof.
  intros Hw. unfold build_rank_pool.
  assert (Hs : size (list_to_set (seqZ 0 world_size) : gset Z) = Z.to_nat world_size)
    by (rewrite size_list_to_set by apply NoDup_seqZ; apply length_seqZ).
  destruct (rank_pool_wf (list_to_set (seqZ 0 world_size))) as [Hp Hin]; [rewrite Hs; lia|].
  split; [by split|]. split.
  - unfold rank_pool. simpl. rewrite Hs, to_u32_id by lia. lia.
  - intros r. rewrite <- Hin, elem_of_list_to_set, elem_of_seqZ. lia.
Qed.

Definition config_ok (cfg : Pipeline_Config) : Prop :=
  edges_in_range (length (task_names cfg)) (edges cfg) /\ acyclic (edges cfg) /\
  (1 <= PipelineConfig.max_concurrency cfg <= 1024)%Z /\
  (1 <= PipelineConfig.deadlock_timeout_s cfg <= 3600)%Z.

Lemma config_ok_graph cfg : edges_in_range (length (task_names cfg)) (edges cfg) ->
  (Z.of_nat (length (edges cfg)) < 4294967296)%Z -> graph_ok (graph_of cfg).
Proof. apply build_graph_ok. Qed.

Lemma impl_ok clock cfg world_size i : (Z.of_nat (length (edges cfg)) < 4294967296)%Z ->
  (0 <= world_size < 4294967296)%Z -> impl clock cfg world_size = Ok i ->
  graph_ok (graph_of cfg) /\ orch_ok cfg (Some i) /\ shut_down i = false /\
  nodes (core (event_loop_ i)) = populate_nodes cfg.
Proof.
  intros Hl Hw. unfold impl, validated_node_count.
  destruct (validate_dag_ok (length (task_names cfg)) (edges cfg) Hl) as [(Hrg & Hac & ->)|[_ ->]]; [|done].
  simpl. intros Hi. split; [by apply config_ok_graph|]. inv_ok Hi. subst i.
  destruct (build_rank_pool_ok world_size Hw) as (Hp & _ & _). unfold build_event_loop in Ha.
  pose proof (event_loop_inv clock (graph_of cfg) _ _ _ tt a (config_ok_graph _ Hrg Hl)
    (populate_fresh cfg Hrg Hl) Hp Ha) as (Hinv & Hm & En & _ & _ & Ec).
  unfold event_loop, throw_if in Ha. simpl in Ha. revert Ha. do 2 (case_match; [done|]; simpl).
  intros [= <-]. split; [|done]. split; [done|]. split; [done|]. split; [by left|].
  split; [done..|apply no_callbacks|done].
Qed.

(** Construction succeeds exactly for pipelines with resolved, acyclic
    dependencies and bounds in range; the new orchestrator satisfies the invariant,
    has every rank of the communicator available and nothing in flight. *)
Theorem construction_correct clock cfg world_size : (Z.of_nat (length (edges cfg)) < 4294967296)%Z ->
  (0 <= world_size < 4294967296)%Z ->
  (config_ok cfg /\ exists i, impl clock cfg world_size = Ok i /\ orch_ok cfg (Some i) /\
     nodes (core (event_loop_ i)) = populate_nodes cfg /\ shut_down i = false /\
     orch_available_ranks (Some i) = world_size /\ orch_total_ranks (Some i) = world_size /\
     in_flight_count (Some i) = 0%Z) \/
  (~ config_ok cfg /\ impl clock cfg world_size = Throw invalid_argument).
Proof.
  intros Hl Hw. unfold impl, validated_node_count, config_ok.
  destruct (validate_dag_ok (length (task_names cfg)) (edges cfg) Hl) as [(Hr & Hac & ->)|[Hn ->]];
    [|right; split; [tauto|done]].
  simpl. destruct (build_rank_pool_ok world_size Hw) as (Hp & Ht & _).
  pose proof (populate_fresh cfg Hr Hl) as Hf. pose proof (config_ok_graph cfg Hr Hl) as Hg.
  destruct (build_event_loop clock cfg (populate_nodes cfg) (build_rank_pool world_size)) as [l|e|] eqn:E;
    unfold build_event_loop in E.
  - left. pose proof (event_loop_inv clock (graph_of cfg) _ _ _ tt l Hg Hf Hp E) as (Hi & Hm & En & Ep & _ & Ec).
    assert (Hd : (1 <= PipelineConfig.deadlock_timeout_s cfg <= 3600)%Z).
    { unfold event_loop, throw_if in E. simpl in E. revert E. case_match; [done|]. simpl.
      case_match; [done|]. intros _. bsimpl. lia. }
    rewrite Ec in Hm. simpl in Hm. split; [done|]. eexists. split; [done|].
    unfold orch_available_ranks, orch_total_ranks, available_ranks, total_ranks, pool. simpl.
    rewrite Ep. destruct Hp as [_ Hp]. rewrite Hp, Ht.
    assert (Hz : in_flight (core l) = 0%Z /\ dispatch_cb l = None /\ completion_cb l = None).
    { unfold event_loop, throw_if in E. simpl in E. revert E. case_match; [done|]. simpl.
      case_match; [done|]. by intros [= <-]. }
    destruct Hz as (Hz & Hd1 & Hd2). split; [|done]. split; [done|]. split; [by rewrite Ec|].
    split; [by left|]. split; [done|by rewrite Ec|rewrite Hd1, Hd2; apply no_callbacks|done].
  - right. split.
    + intros (_ & _ & H1 & H2). unfold event_loop, throw_if in E. simpl in E. revert E.
      repeat case_match; bsimpl; simpl; try done; lia.
    + unfold event_loop, throw_if in E. simpl in E. revert E. repeat case_match; simpl; congruence.
  - exfalso. unfold event_loop, throw_if in E. simpl in E. revert E. by repeat case_match.
Qed.

(** ** Steps of a client *)

Inductive client_step (clock : nat -> Z) : GraphOrchestrator -> GraphOrchestrator -> Prop :=
| do_advance b g g' : advance_step clock g = Ok (b, g') -> client_step clock g g'
| do_run fuel g g' : run clock fuel g = Some (Ok g') -> client_step clock g g'
| do_yield ranks g :
    (forall i, g = Some i -> (Z.of_nat (length (slots (pool i)) + size ranks) < 4294967296)%Z) ->
    client_step clock g (yield_ranks ranks g)
| do_reclaim ranks g : client_step clock g (reclaim_ranks ranks g)
| do_shutdown fuel g g' : shutdown clock fuel g = Some (Ok g') -> client_step clock g g'
| do_move g : client_step clock g None.

Lemma client_ok clock cfg g g' : graph_ok (graph_of cfg) -> rtc (client_step clock) g g' ->
  orch_ok cfg g -> orch_ok cfg g'.
Proof.
  intros Hg. induction 1 as [|g1 g2 g3 H _ IH]; [done|]. intros Hok. apply IH. destruct H.
  - destruct (advance_ok clock cfg Hg _ Hok) as (b' & g'' & E & Hok'). congruence.
  - pose proof (run_ok clock cfg Hg fuel _ Hok) as Hr. by rewrite H in Hr.
  - by apply yield_ok.
  - by apply reclaim_ok.
  - pose proof (shutdown_keeps clock cfg Hg fuel _ Hok) as Hr. by rewrite H in Hr.
  - done.
Qed.

(** C9. Whatever sequence of operations a client performs: no rank is ever held by two
    tasks, exactly the running tasks hold ranks, the held ranks are exactly the
    allocated ones, at most [max_concurrency] tasks run, the rank counters add up,
    and the next [advance_step] neither throws nor is undefined. *)
Theorem orchestrator_safe clock cfg world_size i i' :
  (Z.of_nat (length (edges cfg)) < 4294967296)%Z -> (0 <= world_size < 4294967296)%Z ->
  impl clock cfg world_size = Ok i -> rtc (client_step clock) (Some i) (Some i') ->
  let c := core (event_loop_ i') in let p := pool i' in
  (forall x y a b r, allocated c !! x = Some a -> allocated c !! y = Some b -> r ∈ a -> r ∈ b -> x = y) /\
  (forall x a, allocated c !! x = Some a -> (status_at (nodes c) x = Some running <-> a <> ∅)) /\
  (forall r, (r, false) ∈ slots p <-> exists x a, allocated c !! x = Some a /\ r ∈ a) /\
  (0 <= in_flight_count (Some i') <= PipelineConfig.max_concurrency cfg)%Z /\
  (orch_available_ranks (Some i') + allocated_ranks p = orch_total_ranks (Some i'))%Z /\
  is_ok (advance_step clock (Some i')) = true.
Proof.
  intros Hl Hw Hi Hr c p.
  destruct (impl_ok clock cfg world_size i Hl Hw Hi) as (Hg & Hok & _ & _).
  pose proof (client_ok clock cfg _ _ Hg Hr Hok) as Hok'.
  assert (Hri : ranks_inv (PipelineConfig.max_concurrency cfg) c).
  { destruct Hok' as (_ & E & _ & H). destruct (shut_down i'); [apply H|].
    rewrite <- E. apply (k_inv _ _ _ H). }
  split; [apply Hri|]. split.
  { intros x a Ha. assert (Hn : is_Some (nodes c !! x)).
    { apply lookup_lt_is_Some. rewrite <- (r_len _ _ Hri). by eapply lookup_lt_Some. }
    destruct Hn as [n Hn]. rewrite <- (r_held _ _ Hri x n a Hn Ha), (status_lookup _ _ _ Hn).
    split; [by intros [= <-]|by intros ->]. }
  split; [apply Hri|]. split; [apply (r_max _ _ Hri)|]. split.
  - destruct (r_pool _ _ Hri) as [_ Hs Ht Ha]. change (rank_pool_ c) with p in *.
    pose proof (free_count_le (slots p)).
    unfold orch_available_ranks, orch_total_ranks, allocated_ranks, available_ranks, total_ranks.
    change (pool i') with p. rewrite to_u32_id by lia. lia.
  - destruct (advance_ok clock cfg Hg _ Hok') as (b & g & -> & _). done.
Qed.

(** A diamond of tasks on two ranks. *)
Definition demo_pipeline : Pipeline_Config :=
  mkPipeline [] ["a"; "b"; "c"; "d"]%string diamond 2 30 5.

(** A clock of one reading per second. *)
Definition demo_orch : Impl :=
  match impl demo_clock demo_pipeline 2 with
  | Ok i => i
  | _ => mkImpl demo_pipeline (mkLoop _ (mkConfig 1 1) (mkCore [] demo_ranks [] 0 []) (mkTimer 0 false 0) tt None None) true ∅
  end.

Example construction_correct_witness :
  (config_ok demo_pipeline /\ exists i, impl demo_clock demo_pipeline 2 = Ok i /\ orch_ok demo_pipeline (Some i) /\
     nodes (core (event_loop_ i)) = populate_nodes demo_pipeline /\ shut_down i = false /\
     orch_available_ranks (Some i) = 2%Z /\ orch_total_ranks (Some i) = 2%Z /\
     in_flight_count (Some i) = 0%Z) \/
  (~ config_ok demo_pipeline /\ impl demo_clock demo_pipeline 2 = Throw invalid_argument).
Proof. apply construction_correct; [done|lia]. Defined.

(** One cycle, two ranks yielded, rank 0 (in use) and rank 1 reclaimed. *)
Definition demo_advanced : Impl :=
  match advance_step demo_clock (Some demo_orch) with
  | Ok (_, g) => match reclaim_ranks {[0; 1]}%Z (yield_ranks {[7; 8]}%Z g) with Some i => i | None => demo_orch end
  | _ => demo_orch
  end.

Example orchestrator_safe_witness :
  slots (pool demo_advanced) = [(0, false); (8, true); (7, true)]%Z /\
  (0 <= in_flight_count (Some demo_advanced) <= 2)%Z.
Proof.
  split; [vm_compute; reflexivity|].
  refine (proj1 (proj2 (proj2 (proj2 (orchestrator_safe demo_clock demo_pipeline 2 demo_orch demo_advanced
    _ _ eq_refl _))))).
  - done.
  - lia.
  - eapply rtc_l; [eapply do_advance; vm_compute; reflexivity|].
    eapply rtc_l; [apply (do_yield _ {[7; 8]}%Z); intros i [= <-]; vm_compute; reflexivity|].
    eapply rtc_l; [apply (do_reclaim _ {[0; 1]}%Z)|].
    match goal with |- rtc _ ?x ?y => replace x with y by (vm_compute; reflexivity) end. constructor.
Defined.

(** ** [run] *)

(** No node has reached a terminal state. *)
Definition quiet (ns : list TaskNode) : Prop := Forall (fun n => is_terminal (status n) = false) ns.

Lemma quiet_alter s i ns : is_terminal s = false -> quiet ns -> quiet (alter (with_status s) i ns).
Proof.
  intros Hs H. apply Forall_lookup. intros j n. rewrite lookup_alter_case.
  destruct (decide (i = j)); [|apply (Forall_lookup_1 _ _ _ _ H)].
  intros (m & _ & ->)%fmap_Some. done.
Qed.

Lemma dispatch_quiet clock fuel : forall l l' : Event_Loop unit,
  dispatch_cb l = Some run_dispatch -> quiet (nodes (core l)) ->
  dispatch_loop clock fuel l = Ok l' -> quiet (nodes (core l')).
Proof.
  induction fuel as [|fuel IH]; intros l l' Hcb Hq; cbn [dispatch_loop];
    destruct (ready_queue (core l)) as [|i rest]; try done; try (by intros [= <-]).
  destruct (_ <=? _)%Z; [by intros [= <-]|]. destruct (nodes (core l) !! i) as [n|]; [|done].
  case_bool_decide; cbn [negb]; [|by apply IH].
  destruct (try_allocate _ _) as [[ranks p]|e|]; simpl; try done.
  case_bool_decide; [by intros [= <-]|]. rewrite Hcb. cbn [run_dispatch].
  apply IH; [done|]. simpl. by apply quiet_alter.
Qed.

Lemma cycle_quiet clock dn (l l' : Event_Loop unit) b : graph_ok dn -> loop_ok dn no_tracks l ->
  dispatch_cb l = Some run_dispatch -> completion_cb l = Some run_completion ->
  quiet (nodes (core l)) -> EventLoop.cycle clock l = Ok (b, l') -> quiet (nodes (core l')).
Proof.
  intros Hg Hok Hd Hc Hq. destruct (poll_ok dn no_tracks l Hok) as (Hok1 & Hp1 & _).
  unfold EventLoop.cycle, dispatch_ready_nodes.
  set (l1 := with_core l (poll_ready_nodes (core l))) in *.
  assert (Hq1 : quiet (nodes (core l1))).
  { simpl. rewrite poll_spec. simpl. apply Forall_fmap, (Forall_impl _ _ _ Hq).
    intros n Hn. simpl. by destruct (newly_ready n). }
  destruct (dispatch_loop_ok clock dn Hg no_tracks _ _ Hok1 (le_n _)) as (l2 & E & _ & Hp2 & _).
  rewrite E. apply dispatch_quiet in E; [|done|done]. cbn [bind]. unfold process_completions.
  rewrite (ph_completion _ _ _ Hp2). change (completion_cb l1) with (completion_cb l). rewrite Hc. simpl.
  intros [= _ <-]. unfold check_deadlock. simpl. by repeat case_match.
Qed.

(** [run] on a new orchestrator with at least one task never returns and never
    throws: its completion callback always reports nothing, so no task ever reaches a
    terminal state and the loop continues whatever number of cycles it is given. *)
Theorem run_never_returns clock cfg world_size i fuel :
  (Z.of_nat (length (edges cfg)) < 4294967296)%Z -> (0 <= world_size < 4294967296)%Z ->
  task_names cfg <> [] -> impl clock cfg world_size = Ok i ->
  run clock fuel (Some i) = None.
Proof.
  intros Hl Hw Hne Hi.
  destruct (impl_ok clock cfg world_size i Hl Hw Hi) as (Hg & Hok & Hsd & Hnodes).
  unfold run. rewrite Hsd. match goal with |- context [run_loop _ _ ?x] => set (i1 := x) end.
  assert (H : orch_ok cfg (Some i1) /\ shut_down i1 = false /\
    dispatch_cb (event_loop_ i1) = Some run_dispatch /\ completion_cb (event_loop_ i1) = Some run_completion /\
    nodes (core (event_loop_ i1)) <> [] /\ quiet (nodes (core (event_loop_ i1)))).
  { destruct Hok as (E1 & E2 & E3 & Hlo). rewrite Hsd in Hlo. split.
    { split; [done|]. split; [done|]. split; [by right|]. simpl. rewrite Hsd.
      destruct Hlo as [Hv Hm He Hwd]. split; [exact Hv|exact Hm|apply run_callbacks|done]. }
    split; [done|]. split; [done|]. split; [done|]. simpl. rewrite Hnodes. unfold populate_nodes. split.
    - destruct (task_names cfg); [done|]. by rewrite imap_cons.
    - apply Forall_lookup. by intros j n (t & _ & ->)%imap_fmap_id. }
  assert (run_loop clock fuel i1 = None) as ->; [|done].
  clearbody i1. revert i1 H. induction fuel as [|fuel IH]; intros i1 (Hok1 & Hs1 & Hd & Hc & Hn & Hq); simpl;
    (assert (all_complete (core (event_loop_ i1)) = false) as ->;
      [apply not_true_is_false; intros Ha; apply live_zero in Ha; unfold live in Ha;
       rewrite filter_all_true in Ha by (by apply Forall_forall); by apply nil_length_inv in Ha|]); [done|].
  destruct (cycle_ok clock cfg Hg i1 Hok1 Hs1) as (b & l & E & _ & Hok2 & Hp). rewrite E.
  apply IH. destruct (reclamation_fields (with_loop i1 l)) as (_ & -> & -> & _ & -> & ->).
  split; [by apply reclamation_ok|]. split; [done|]. simpl.
  rewrite (ph_dispatch _ _ _ Hp), (ph_completion _ _ _ Hp). split; [done|]. split; [done|]. split.
  - intros Hnil. apply Hn. pose proof (needs_len _ _ (ph_needs _ _ _ Hp)) as Hlen. rewrite Hnil in Hlen.
    by apply nil_length_inv.
  - destruct Hok1 as (_ & _ & _ & Hlo). rewrite Hs1 in Hlo. by eapply cycle_quiet.
Qed.

Example run_never_returns_witness : run demo_clock 1000 (Some demo_orch) = None.
Proof. apply (run_never_returns demo_clock demo_pipeline 2); [done|lia|done|reflexivity]. Defined.

(** C10. [shutdown] ends once the clock readings have passed the timeout: no task runs
    afterwards, every rank is back in the pool, and the orchestrator ignores all
    further operations. *)
Theorem shutdown_terminates clock cfg world_size i i' K :
  (Z.of_nat (length (edges cfg)) < 4294967296)%Z -> (0 <= world_size < 4294967296)%Z ->
  impl clock cfg world_size = Ok i -> rtc (client_step clock) (Some i) (Some i') ->
  shut_down i' = false ->
  (forall k, (K <= k)%nat ->
     (shutdown_timeout_s cfg * 1000000000 <= clock k - clock (clock_reads (timer (event_loop_ i'))))%Z) ->
  exists i2, let g2 := Some i2 in
    shutdown clock (S K) (Some i') = Some (Ok g2) /\ is_shutdown g2 = true /\
    in_flight_count g2 = 0%Z /\ orch_available_ranks g2 = orch_total_ranks g2 /\
    (forall j, status_at (nodes (core (event_loop_ i2))) j <> Some running) /\
    advance_step clock g2 = Ok (true, g2) /\
    (forall fuel ranks, shutdown clock fuel g2 = Some (Ok g2) /\ run clock fuel g2 = Some (Ok g2) /\
       yield_ranks ranks g2 = g2 /\ reclaim_ranks ranks g2 = g2).
Proof.
  intros Hl Hw Hi Hr Hs Hto.
  destruct (impl_ok clock cfg world_size i Hl Hw Hi) as (Hg & Hok & _ & _).
  pose proof (client_ok clock cfg _ _ Hg Hr Hok) as Hok'.
  destruct (shutdown_ok clock cfg Hg K (S K) i' Hok' Hs Hto) as (i2 & E & (_ & _ & _ & H2) & Hs2); [lia|].
  rewrite Hs2 in H2. destruct H2 as [Hri Hz]. destruct (idle_all_free _ _ Hri Hz) as [Hav Hn].
  exists i2. cbv zeta. split; [done|]. simpl. rewrite Hs2. repeat (split; [done|]). done.
Qed.

Definition demo_cycled : Impl :=
  match advance_step demo_clock (Some demo_orch) with Ok (_, Some i) => i | _ => demo_orch end.

Example shutdown_terminates_witness :
  in_flight_count (Some demo_cycled) = 1%Z /\
  exists i2, let g2 := Some i2 in
    shutdown demo_clock 21 (Some demo_cycled) = Some (Ok g2) /\ is_shutdown g2 = true /\
    in_flight_count g2 = 0%Z /\ orch_available_ranks g2 = orch_total_ranks g2 /\
    (forall j, status_at (nodes (core (event_loop_ i2))) j <> Some running) /\
    advance_step demo_clock g2 = Ok (true, g2) /\
    (forall fuel ranks, shutdown demo_clock fuel g2 = Some (Ok g2) /\ run demo_clock fuel g2 = Some (Ok g2) /\
       yield_ranks ranks g2 = g2 /\ reclaim_ranks ranks g2 = g2).
Proof.
  split; [vm_compute; reflexivity|].
  apply (shutdown_terminates demo_clock demo_pipeline 2 demo_orch demo_cycled 20).
  - done.
  - lia.
  - reflexivity.
  - apply rtc_once. eapply do_advance. vm_compute. reflexivity.
  - reflexivity.
  - intros k Hk. change (clock_reads (timer (event_loop_ demo_cycled))) with 3.
    unfold demo_clock. change (shutdown_timeout_s demo_pipeline) with 5%Z. lia.
Defined.

(** ** The communicator registry *)

Section RegistryProofs.
Context {Comm W : Type} (split : W -> Z -> Z -> W * result Comm) (free : W -> Comm -> W).

(** The creation order lists the occupied slots, each once. *)
Definition registry_ok (r : @Registry Comm) : Prop :=
  NoDup (comm_creation_order r) /\
  forall i, i ∈ comm_creation_order r <-> exists c, task_communicators r !! i = Some (Some c).

(** The handles in the order [ids]. *)
Definition handles (comms : list (option Comm)) (ids : list nat) : list Comm :=
  omap (fun i => mjoin (comms !! i)) ids.

Lemma destroy_all_spec ids : forall w comms, NoDup ids ->
  (forall i, i ∈ ids -> exists c, comms !! i = Some (Some c)) ->
  fst (destroy_all free w comms ids) = fold_left free (handles comms ids) w /\
  forall i, snd (destroy_all free w comms ids) !! i =
    if decide (i ∈ ids) then Some None else comms !! i.
Proof.
  induction ids as [|x ids IH]; intros w comms Hnd Hs; [by split|].
  apply NoDup_cons in Hnd as [Hx Hnd]. destruct (Hs x ltac:(by left)) as [c Hc]. simpl. rewrite Hc. simpl.
  assert (Hlt : x < length comms) by (by eapply lookup_lt_Some).
  destruct (IH (free w c) (<[x:=None]> comms) Hnd) as [H1 H2].
  { intros i Hi. rewrite list_lookup_insert_ne by (intros ->; done). apply Hs. by right. }
  split.
  - rewrite H1. f_equal. unfold handles. clear -Hx Hlt. induction ids as [|y ids IH]; [done|].
    apply not_elem_of_cons in Hx as [Hxy Hx]. simpl. rewrite list_lookup_insert_ne by done.
    destruct (mjoin _); [f_equal|]; by apply IH.
  - intros i. rewrite H2. destruct (decide (i ∈ ids)) as [Hi|Hi].
    + rewrite decide_True; [done|by right].
    + destruct (decide (i = x)) as [->|Hne].
      * rewrite list_lookup_insert_eq by done. rewrite decide_True; [done|by left].
      * rewrite list_lookup_insert_ne by done. rewrite decide_False; [done|].
        by intros [?|?]%elem_of_cons.
Qed.
End RegistryProofs.

(** The registry owns each sub-communicator once: creating into an empty slot and
    releasing keep its invariant, releasing frees exactly the node's handle, a failed
    split changes nothing, and the destructor frees every remaining handle exactly
    once, in reverse order of creation. *)
Theorem registry_lifecycle {Comm W} (split : W -> Z -> Z -> W * result Comm) (free : W -> Comm -> W) w r node_id color key :
  registry_ok r -> task_communicators r !! node_id = Some None ->
  match create_task_communicator split free w r node_id color key with
  | (w', Ok r') => exists c, split w color key = (w', Ok c) /\ registry_ok r' /\
      release_task_communicator free w' r' node_id = (free w' c, r)
  | (w', _) => fst (split w color key) = w' /\ is_ok (snd (split w color key)) = false
  end /\
  fst (destroy_impl free w r) =
    fold_left free (handles (task_communicators r) (reverse (comm_creation_order r))) w /\
  (forall i c, task_communicators (snd (destroy_impl free w r)) !! i <> Some (Some c)).
Proof.
  intros [Hnd Hocc] Hn. assert (Hlt : node_id < length (task_communicators r)) by by eapply lookup_lt_Some.
  split.
  - unfold create_task_communicator. destruct (split w color key) as [w' [c|e|]]; try done.
    rewrite decide_True by done. rewrite Hn. simpl. exists c. split; [done|].
    assert (Hni : node_id ∉ comm_creation_order r).
    { intros Hi. apply Hocc in Hi as [c' Hc']. congruence. }
    split.
    + split; simpl.
      * apply NoDup_app. split; [done|]. split; [|apply NoDup_singleton].
        intros x Hx. rewrite list_elem_of_singleton. by intros ->.
      * intros i. rewrite elem_of_app, list_elem_of_singleton. destruct (decide (i = node_id)) as [->|Hne].
        -- rewrite list_lookup_insert_eq by done. split; [by eauto|by right].
        -- rewrite list_lookup_insert_ne by done. rewrite <- Hocc. tauto.
    + unfold release_task_communicator. simpl. rewrite list_lookup_insert_eq by done. f_equal.
      rewrite list_insert_insert_eq, list_insert_id by done.
      rewrite filter_app, filter_all_true, filter_all_false, app_nil_r.
      * by destruct r.
      * intros x ->%list_elem_of_singleton. tauto.
      * intros x Hx ->. done.
  - unfold destroy_impl. simpl.
    destruct (destroy_all_spec free (reverse (comm_creation_order r)) w (task_communicators r)) as [H1 H2].
    + rewrite reverse_Permutation. done.
    + intros i Hi. apply Hocc. by rewrite reverse_Permutation in Hi.
    + split; [done|]. intros i c. rewrite H2. case_decide as Hi; [done|]. intros Hc. apply Hi.
      rewrite reverse_Permutation. apply Hocc. by eauto.
Qed.

(** A layer that hands out increasing handles and logs the freed ones. *)
Definition demo_split (w : Z * list Z) (color key : Z) : (Z * list Z) * result Z :=
  ((w.1 + 1, w.2)%Z, Ok w.1).
Definition demo_free (w : Z * list Z) (c : Z) : Z * list Z := (w.1, w.2 ++ [c]).
Definition demo_registry : Registry := mkRegistry [Some 4; None; Some 3]%Z [2; 0].

Example registry_lifecycle_witness :
  fst (destroy_impl demo_free (5, [])%Z demo_registry) = (5, [4; 3])%Z /\
  (forall i c, task_communicators (snd (destroy_impl demo_free (5, [])%Z demo_registry)) !! i <> Some (Some c)).
Proof.
  refine (proj2 (registry_lifecycle demo_split demo_free (5, [])%Z demo_registry 1 0 0 _ _)); [|done].
  split; [repeat constructor; set_solver|].
  intros [|[|[|i]]]; simpl; (split; [intros H|intros [c H]]); try done; try (by eexists); set_solver.
Defined.
