(* ===== verification/HandleRegistry.v ===== *)
(** * SPAN: the handle registry ([span/src/handle_registry.hpp])

    The two pre-allocated vectors are a map and a set of indices below
    [MAX_CAPACITY]; an access beyond is undefined.  Every operation holds the mutex
    for its whole body.  The registry refines a finite map from handles to objects. *)
From stdpp Require Import base list numbers gmap sets.
From Stdlib Require Import ZArith Lia.
From S2P Require Import Prelude CInt.
Local Open Scope Z_scope.

Definition MAX_CAPACITY : Z := 65536.
Definition HELM_SPAN_ERR_REGISTRY_FULL : Z := -5.

Record HandleRegistry {V : Type} : Type := mkRegistry {
  slots_ : gmap Z V;
  occupied_ : gset Z;
  free_list_ : list Z;
  next_handle_ : Z;
  active_count_ : Z
}.
Arguments HandleRegistry V : clear implicits.

Section Registry.
Context {V : Type}.

(** The constructor of the singleton. *)
Definition registry : HandleRegistry V := mkRegistry V ∅ ∅ [] 1 0.

(** Fill a slot and take a handle. *)
Definition store (r : HandleRegistry V) (handle : Z) (view : V) (free : list Z) (next : Z)
  : result (Z * HandleRegistry V) :=
  if (0 <=? handle - 1) && (handle - 1 <? MAX_CAPACITY) then
    Ok (handle, mkRegistry V (<[handle - 1 := view]> (slots_ r)) ({[handle - 1]} ∪ occupied_ r)
                  free next (active_count_ r + 1))
  else Undef.

Definition register_view (r : HandleRegistry V) (view : V) : result (Z * HandleRegistry V) :=
  if MAX_CAPACITY <=? active_count_ r then Ok (HELM_SPAN_ERR_REGISTRY_FULL, r)
  else
    match free_list_ r with
    | handle :: free => store r handle view free (next_handle_ r)
    | [] => let! next := arith I32 (next_handle_ r + 1) in store r (next_handle_ r) view [] next
    end.

Definition is_valid_unlocked (r : HandleRegistry V) (handle : Z) : bool :=
  if handle <=? 0 then false
  else if MAX_CAPACITY <=? handle - 1 then false
  else bool_decide (handle - 1 ∈ occupied_ r).

Definition lookup (r : HandleRegistry V) (handle : Z) : option V :=
  if is_valid_unlocked r handle then slots_ r !! (handle - 1) else None.

Definition unregister (r : HandleRegistry V) (handle : Z) : bool * HandleRegistry V :=
  if is_valid_unlocked r handle then
    (true, mkRegistry V (delete (handle - 1) (slots_ r)) (occupied_ r ∖ {[handle - 1]})
             (free_list_ r ++ [handle]) (next_handle_ r) (active_count_ r - 1))
  else (false, r).

Definition valid (r : HandleRegistry V) (handle : Z) : bool := is_valid_unlocked r handle.
Definition active_count (r : HandleRegistry V) : Z := active_count_ r.
End Registry.

(** ** The interface: a bounded table of handles *)

Class HandleTable (R V : Type) := {
  ht_register : R -> V -> result (Z * R);
  ht_lookup : R -> Z -> option V;
  ht_unregister : R -> Z -> bool * R;
  ht_ok : R -> Prop;
  ht_map : R -> gmap Z V;
  (** A registration takes a new positive handle, or is refused when the table is full. *)
  ht_register_ok : forall r v, ht_ok r ->
    if decide (Z.of_nat (size (ht_map r)) < MAX_CAPACITY) then
      exists h r', ht_register r v = Ok (h, r') /\ ht_ok r' /\ 0 < h <= MAX_CAPACITY /\
        ht_map r !! h = None /\ ht_map r' = <[h := v]> (ht_map r)
    else ht_register r v = Ok (HELM_SPAN_ERR_REGISTRY_FULL, r);
  ht_lookup_ok : forall r h, ht_ok r -> ht_lookup r h = ht_map r !! h;
  ht_unregister_ok : forall r h, ht_ok r ->
    (ht_unregister r h).1 = bool_decide (is_Some (ht_map r !! h)) /\
    ht_ok (ht_unregister r h).2 /\ ht_map (ht_unregister r h).2 = delete h (ht_map r)
}.

(** ** The registry implements it *)

Section Implementation.
Context {V : Type}.

Record registry_ok (r : HandleRegistry V) : Prop := {
  o_next : 1 <= next_handle_ r <= MAX_CAPACITY + 1;
  o_nodup : NoDup (free_list_ r);
  o_free : forall h, h ∈ free_list_ r -> 1 <= h < next_handle_ r /\ h - 1 ∉ occupied_ r;
  o_occupied : forall i, i ∈ occupied_ r -> 0 <= i < next_handle_ r - 1;
  o_part : forall h, 1 <= h < next_handle_ r -> h ∈ free_list_ r \/ h - 1 ∈ occupied_ r;
  o_slots : dom (slots_ r) = occupied_ r;
  o_count : active_count_ r = Z.of_nat (size (occupied_ r))
}.

(** The handles and their objects. *)
Definition handle_map (r : HandleRegistry V) : gmap Z V := kmap Z.succ (slots_ r).

#[local] Instance succ_inj : Inj (=) (=) Z.succ.
Proof. intros x y. lia. Qed.

Lemma size_kmap_succ (m : gmap Z V) : size (kmap Z.succ m : gmap Z V) = size m.
Proof.
  induction m as [|i x m Hi IH] using map_ind; [by rewrite kmap_empty|].
  rewrite (kmap_insert Z.succ), !map_size_insert_None, IH; [done|done|].
  by rewrite (lookup_kmap Z.succ).
Qed.

Lemma handle_map_lookup r h : handle_map r !! h = slots_ r !! (h - 1).
Proof.
  unfold handle_map. replace h with (Z.succ (h - 1)) at 1 by lia. apply (lookup_kmap Z.succ).
Qed.

Lemma handle_map_size r : registry_ok r -> Z.of_nat (size (handle_map r)) = active_count_ r.
Proof.
  intros H. rewrite (o_count _ H), <- (o_slots _ H), size_dom. unfold handle_map.
  by rewrite size_kmap_succ.
Qed.

Lemma full_occupied r : registry_ok r -> free_list_ r = [] -> next_handle_ r = active_count_ r + 1.
Proof.
  intros H Hf. rewrite (o_count _ H). pose proof (o_next _ H).
  assert (E : occupied_ r = list_to_set (seqZ 0 (next_handle_ r - 1))).
  { apply set_eq. intros i. rewrite elem_of_list_to_set, elem_of_seqZ. split.
    - intros Hi%(o_occupied _ H). lia.
    - intros Hi. destruct (o_part _ H (i + 1)) as [Hx|Hx]; [lia| |].
      + rewrite Hf in Hx. by apply not_elem_of_nil in Hx.
      + by replace (i + 1 - 1) with i in Hx by lia. }
  rewrite E, size_list_to_set by apply NoDup_seqZ. rewrite length_seqZ. lia.
Qed.

Lemma registry_init_ok : registry_ok registry.
Proof. split; simpl; try done; try set_solver; [unfold MAX_CAPACITY|..]; lia || constructor. Qed.

(** Filling a slot that was not occupied. *)
Lemma store_ok r h v free next : registry_ok r -> 0 < h <= MAX_CAPACITY -> h - 1 ∉ occupied_ r ->
  (free_list_ r = h :: free /\ next = next_handle_ r \/
   free_list_ r = [] /\ free = [] /\ h = next_handle_ r /\ next = next_handle_ r + 1) ->
  exists r', store r h v free next = Ok (h, r') /\ registry_ok r' /\ 0 < h <= MAX_CAPACITY /\
    handle_map r !! h = None /\ handle_map r' = <[h := v]> (handle_map r).
Proof.
  intros H Hh Hno Hcase. unfold store.
  assert (((0 <=? h - 1) && (h - 1 <? MAX_CAPACITY)) = true) as -> by (apply andb_true_iff; lia).
  eexists. split; [done|]. pose proof H as [Hn Hnd Hf Ho Hp Hs Hc].
  split; [|split; [done|split]].
  - assert (Hfree : NoDup free /\ (forall x, x ∈ free -> x ∈ free_list_ r /\ x <> h) /\
      (forall x, x ∈ free_list_ r -> x = h \/ x ∈ free)).
    { destruct Hcase as [[E _]|(E & -> & _)]; rewrite E in *.
      - apply NoDup_cons in Hnd as [Hx Hnd]. split; [done|]. split.
        + intros x Hin. split; [by right|]. by intros ->.
        + intros x Hin. by apply elem_of_cons in Hin.
      - split; [constructor|]. split; intros x Hin; by apply not_elem_of_nil in Hin. }
    destruct Hfree as (Hfn & Hf1 & Hf2).
    split; simpl.
    + destruct Hcase as [[E ->]|(E & _ & -> & ->)]; lia.
    + done.
    + intros x Hx. destruct (Hf1 x Hx) as [Hx1 Hx2]. destruct (Hf x Hx1).
      split; [destruct Hcase as [[_ ->]|(_ & _ & _ & ->)]; lia|].
      apply not_elem_of_union. rewrite not_elem_of_singleton. split; [lia|done].
    + intros i [Hi%elem_of_singleton|Hi%Ho]%elem_of_union; try subst i;
        destruct Hcase as [[E ->]|(E & _ & -> & ->)]; try lia.
      destruct (Hf h); [rewrite E; by left|]. lia.
    + intros x Hx. destruct (Z.eq_dec x h) as [->|Hne]; [right; set_solver|].
      destruct (Hp x) as [Hin|Hin]; [destruct Hcase as [[_ ->]|(_ & _ & -> & ->)]; lia| |right; set_solver].
      destruct (Hf2 x Hin) as [->|?]; [done|by left].
    + rewrite dom_insert_L. by rewrite Hs.
    + rewrite size_union by set_solver. rewrite size_singleton. lia.
  - rewrite handle_map_lookup. apply not_elem_of_dom. by rewrite Hs.
  - unfold handle_map. simpl. rewrite (kmap_insert Z.succ). f_equal. lia.
Qed.

#[export] Instance registry_table : HandleTable (HandleRegistry V) V.
Proof.
  refine {| ht_register := register_view; ht_lookup := lookup; ht_unregister := unregister;
            ht_ok := registry_ok; ht_map := handle_map |}.
  - intros r v H. rewrite (handle_map_size r H). unfold register_view.
    destruct (Z.leb_spec MAX_CAPACITY (active_count_ r)) as [Hfull|Hroom];
      [rewrite decide_False by lia; done|rewrite decide_True by lia].
    destruct (free_list_ r) as [|h free] eqn:E.
    + pose proof (full_occupied r H E) as Hn. pose proof (o_next _ H).
      unfold arith. replace (in_range I32 (next_handle_ r + 1)) with true
        by (symmetry; unfold in_range; apply andb_true_iff; unfold MAX_CAPACITY in *; simpl; lia).
      simpl. exists (next_handle_ r). apply store_ok; [done|unfold MAX_CAPACITY in *; lia| |by right].
      intros Hi%(o_occupied _ H). lia.
    + destruct (o_free _ H h) as [Hr Hno]; [rewrite E; by left|]. pose proof (o_next _ H).
      exists h. apply store_ok; [done|lia|done|by left].
  - intros r h H. unfold lookup, is_valid_unlocked. rewrite handle_map_lookup.
    assert (Hnone : h - 1 ∉ occupied_ r -> None = slots_ r !! (h - 1))
      by (intros Hno; symmetry; apply not_elem_of_dom; by rewrite (o_slots _ H)).
    pose proof (o_next _ H).
    destruct (Z.leb_spec h 0); [apply Hnone; intros Hi%(o_occupied _ H); lia|].
    destruct (Z.leb_spec MAX_CAPACITY (h - 1)); [apply Hnone; intros Hi%(o_occupied _ H); lia|].
    case_bool_decide; [done|by apply Hnone].
  - intros r h H. assert (Hv : is_valid_unlocked r h = bool_decide (is_Some (handle_map r !! h))).
    { unfold is_valid_unlocked. rewrite handle_map_lookup.
      assert (Hd : is_Some (slots_ r !! (h - 1)) <-> h - 1 ∈ occupied_ r)
        by (rewrite <- (o_slots _ H); symmetry; apply elem_of_dom).
      rewrite (bool_decide_ext _ _ Hd). pose proof (o_next _ H).
      destruct (Z.leb_spec h 0); [symmetry; apply bool_decide_eq_false; intros Hi%(o_occupied _ H); lia|].
      destruct (Z.leb_spec MAX_CAPACITY (h - 1)); [|done].
      symmetry; apply bool_decide_eq_false; intros Hi%(o_occupied _ H); lia. }
    unfold unregister. rewrite Hv. case_bool_decide as Hin; simpl.
    2:{ split; [done|]. split; [done|]. symmetry. apply delete_id. by apply eq_None_not_Some. }
    split; [done|]. rewrite handle_map_lookup in Hin.
    assert (Hocc : h - 1 ∈ occupied_ r) by (rewrite <- (o_slots _ H); by apply elem_of_dom).
    destruct H as [Hn Hnd Hf Ho Hp Hs Hc]. split.
    + split; simpl; try done.
      * apply NoDup_app. split; [done|]. split; [|apply NoDup_singleton].
        intros x Hx Hxh%list_elem_of_singleton. subst x. by destruct (Hf h Hx).
      * intros x [Hx|Hx%list_elem_of_singleton]%elem_of_app; [destruct (Hf x Hx); split; set_solver|subst x].
        specialize (Ho _ Hocc). split; [lia|set_solver].
      * intros i Hi. apply Ho. set_solver.
      * intros x Hx. destruct (decide (x = h)) as [->|Hne]; [left; set_solver|].
        destruct (Hp x Hx); [left; set_solver|right].
        apply elem_of_difference. rewrite elem_of_singleton. split; [done|lia].
      * rewrite dom_delete_L. by rewrite Hs.
      * rewrite size_difference by set_solver. rewrite size_singleton.
        assert (Hz : size (occupied_ r) <> 0%nat) by (intros Hz%size_empty_inv; set_solver). lia.
    + unfold handle_map. simpl. rewrite (kmap_delete Z.succ). f_equal. lia.
Defined.
End Implementation.

(** ** Sequences of calls against the abstract table *)

Section Trace.
Context {R V : Type} `{!HandleTable R V}.

Inductive request : Type := Register (v : V) | Lookup (h : Z) | Unregister (h : Z).
Inductive answer : Type := Handle (h : Z) | Found (o : option V) | Removed (b : bool).

Definition serve (r : R) (q : request) : result (answer * R) :=
  match q with
  | Register v => let! '(h, r') := ht_register r v in Ok (Handle h, r')
  | Lookup h => Ok (Found (ht_lookup r h), r)
  | Unregister h => let g := ht_unregister r h in Ok (Removed (fst g), snd g)
  end.

Fixpoint serve_all (r : R) (qs : list request) : result (list answer * R) :=
  match qs with
  | [] => Ok ([], r)
  | q :: rest =>
      let! '(a, r1) := serve r q in
      let! '(l, r2) := serve_all r1 rest in Ok (a :: l, r2)
  end.

(** What a bounded table of handles promises. *)
Inductive table_step : gmap Z V -> request -> answer -> gmap Z V -> Prop :=
| t_register m v h : Z.of_nat (size m) < MAX_CAPACITY -> 0 < h <= MAX_CAPACITY -> m !! h = None ->
    table_step m (Register v) (Handle h) (<[h := v]> m)
| t_full m v : ~ Z.of_nat (size m) < MAX_CAPACITY ->
    table_step m (Register v) (Handle HELM_SPAN_ERR_REGISTRY_FULL) m
| t_lookup m h : table_step m (Lookup h) (Found (m !! h)) m
| t_unregister m h : table_step m (Unregister h) (Removed (bool_decide (is_Some (m !! h)))) (delete h m).

Inductive table_steps : gmap Z V -> list request -> list answer -> gmap Z V -> Prop :=
| ts_nil m : table_steps m [] [] m
| ts_cons m q a m1 qs l m2 : table_step m q a m1 -> table_steps m1 qs l m2 ->
    table_steps m (q :: qs) (a :: l) m2.

Lemma serve_refines r q : ht_ok r ->
  exists a r', serve r q = Ok (a, r') /\ ht_ok r' /\ table_step (ht_map r) q a (ht_map r').
Proof.
  intros H. destruct q as [v|h|h]; simpl.
  - pose proof (ht_register_ok r v H) as Hr. case_decide as Hd.
    + destruct Hr as (h & r' & -> & Hok & Hh & Hn & Hm). simpl. exists (Handle h), r'.
      split; [done|]. split; [done|]. rewrite Hm. by constructor.
    + rewrite Hr. simpl. eexists _, r. split; [done|]. split; [done|]. by constructor.
  - eexists _, r. split; [done|]. split; [done|]. rewrite ht_lookup_ok by done. constructor.
  - destruct (ht_unregister_ok r h H) as (E1 & Hok & E2). eexists _, _. split; [done|]. split; [done|].
    rewrite E1, E2. constructor.
Qed.

Lemma serve_all_refines qs : forall r, ht_ok r ->
  exists l r', serve_all r qs = Ok (l, r') /\ ht_ok r' /\ table_steps (ht_map r) qs l (ht_map r').
Proof.
  induction qs as [|q qs IH]; intros r H; simpl.
  - exists [], r. split; [done|]. split; [done|constructor].
  - destruct (serve_refines r q H) as (a & r1 & -> & H1 & Hs). simpl.
    destruct (IH r1 H1) as (l & r2 & -> & H2 & Hss). simpl.
    exists (a :: l), r2. split; [done|]. split; [done|]. by econstructor.
Qed.
End Trace.

(** The handle registry refines a bounded table: from the empty registry any
    sequence of calls stays in bounds and is answered as by a finite map, where a
    registration returns a positive handle that is not in use and is refused exactly
    when 65536 objects are registered. *)
Theorem registry_refines {V} (qs : list (@request V)) :
  exists l r, serve_all (@registry V) qs = Ok (l, r) /\ registry_ok r /\
    table_steps ∅ qs l (handle_map r) /\ active_count r = Z.of_nat (size (handle_map r)).
Proof.
  destruct (@serve_all_refines (HandleRegistry V) V registry_table qs registry registry_init_ok) as (l & r & E & Hok & Hs).
  exists l, r. split; [done|]. split; [done|]. split; [|symmetry; by apply handle_map_size].
  change (ht_map (@registry V)) with (kmap Z.succ (∅ : gmap Z V) : gmap Z V) in Hs.
  by rewrite kmap_empty in Hs.
Qed.

(** A freed handle is taken again, and the stale copy then refers to the new object. *)
Example recycled : serve_all registry [Register 10; Register 11; Unregister 1; Lookup 1; Register 12; Lookup 1] =
  Ok ([Handle 1; Handle 2; Removed true; Found None; Handle 1; Found (Some 12)],
      mkRegistry Z (<[0:=12]> (<[1:=11]> ∅)) {[0; 1]} [] 3 2).
Proof. vm_compute. reflexivity. Qed.
