(* ===== verification/FieldView.v ===== *)
(** * SPAN: field views and their coherency protocol
    ([span/field_view.hpp], [span/coherency_state.hpp])

    Pointers are addresses with 0 the null pointer; a template instance
    [FieldView<T, Rank>] is a record whose extents have [Rank] entries.  The memory
    and [Kokkos::deep_copy] are reached through the interface [Memory]. *)
From stdpp Require Import base list numbers gmap relations.
From Stdlib Require Import ZArith Lia.
From S2P Require Import Prelude CInt.
Local Open Scope Z_scope.

Inductive CoherencyState : Type := HOST_CLEAN | HOST_DIRTY | DEVICE_DIRTY.
Inductive MemorySpaceToken : Type := Host | CudaDevice | HipDevice.

#[export] Instance CoherencyState_eq_dec : EqDecision CoherencyState.
Proof. solve_decision. Defined.
#[export] Instance MemorySpaceToken_eq_dec : EqDecision MemorySpaceToken.
Proof. solve_decision. Defined.

Record FieldView : Type := mkView {
  host_ptr_ : Z;
  device_ptr_ : Z;
  extents_ : list Z;
  total_size_ : Z;
  state_ : CoherencyState;
  mem_space_ : MemorySpaceToken;
  triple_buf_ : Z
}.

(** ** Construction *)

Definition compute_total_size (exts : list Z) : Z := fold_left (fun s e => to_u64 (s * e)) exts 1.

Fixpoint validate_extents (exts : list Z) : result unit :=
  match exts with
  | [] => Ok tt
  | e :: rest => do! throw_if (e =? 0) invalid_argument then validate_extents rest
  end.

Definition validate_host_construction (host_ptr : Z) (exts : list Z) : result unit :=
  do! throw_if (host_ptr =? 0) invalid_argument then validate_extents exts.

Definition validate_device_construction (device_ptr : Z) (exts : list Z) : result unit :=
  do! throw_if (device_ptr =? 0) invalid_argument then validate_extents exts.

(** The back ends enabled in the build. *)
Definition determine_device_memory_space (enable_cuda enable_hip : bool) : MemorySpaceToken :=
  if enable_cuda then CudaDevice else if enable_hip then HipDevice else CudaDevice.

Definition empty_view (rank : nat) : FieldView := mkView 0 0 (replicate rank 0) 0 HOST_CLEAN Host 0.

Definition host_view (host_ptr : Z) (exts : list Z) : result FieldView :=
  do! validate_host_construction host_ptr exts then
  Ok (mkView host_ptr 0 exts (compute_total_size exts) HOST_CLEAN Host 0).

Section Construct.
Context (enable_cuda enable_hip : bool).

Definition device_view (device_ptr : Z) (exts : list Z) : result FieldView :=
  do! validate_device_construction device_ptr exts then
  Ok (mkView 0 device_ptr exts (compute_total_size exts) HOST_CLEAN
        (determine_device_memory_space enable_cuda enable_hip) 0).

Definition dual_view (host_ptr device_ptr : Z) (exts : list Z) : result FieldView :=
  let mem_space := if negb (device_ptr =? 0) && (host_ptr =? 0)
                   then determine_device_memory_space enable_cuda enable_hip else Host in
  if (host_ptr =? 0) && (device_ptr =? 0) then
    Ok (mkView host_ptr device_ptr (replicate (length exts) 0) 0 HOST_CLEAN mem_space 0)
  else
    do! validate_extents exts then
    Ok (mkView host_ptr device_ptr exts (compute_total_size exts) HOST_CLEAN mem_space 0).
End Construct.

(** ** Access *)

(** An [std::mdspan] with column-major layout: base pointer and extents. *)
Record mdspan : Type := mkMdspan { md_ptr : Z; md_extents : list Z }.

(** The offset that [std::layout_left] assigns to a multi-index. *)
Fixpoint layout_left (exts idx : list Z) : Z :=
  match exts, idx with
  | e :: es, i :: js => i + e * layout_left es js
  | _, _ => 0
  end.

Definition view (v : FieldView) : result mdspan :=
  do! throw_if (host_ptr_ v =? 0) runtime_error then Ok (mkMdspan (host_ptr_ v) (extents_ v)).

Definition host_data (v : FieldView) : Z := host_ptr_ v.
Definition device_data (v : FieldView) : Z := device_ptr_ v.

Definition extent (v : FieldView) (dim : nat) : result Z :=
  match extents_ v !! dim with Some e => Ok e | None => Throw out_of_range end.

Definition view_size (v : FieldView) : Z := total_size_ v.
Definition rank (v : FieldView) : nat := length (extents_ v).
Definition valid (v : FieldView) : bool := negb (host_ptr_ v =? 0) || negb (device_ptr_ v =? 0).
Definition has_host_ptr (v : FieldView) : bool := negb (host_ptr_ v =? 0).
Definition has_device_ptr (v : FieldView) : bool := negb (device_ptr_ v =? 0).
Definition is_triple_buffered (v : FieldView) : bool := negb (triple_buf_ v =? 0).

Definition with_state (v : FieldView) (s : CoherencyState) : FieldView :=
  mkView (host_ptr_ v) (device_ptr_ v) (extents_ v) (total_size_ v) s (mem_space_ v) (triple_buf_ v).

Definition mark_host_dirty (v : FieldView) : FieldView := with_state v HOST_DIRTY.
Definition mark_device_dirty (v : FieldView) : FieldView := with_state v DEVICE_DIRTY.

Definition attach_triple_buffer (v : FieldView) (tb : Z) : FieldView :=
  mkView (host_ptr_ v) (device_ptr_ v) (extents_ v) (total_size_ v) (state_ v) (mem_space_ v) tb.

(** A flat unmanaged [Kokkos::View]: pointer and length. *)
Definition to_kokkos_view (v : FieldView) : result (Z * Z) :=
  do! throw_if (negb (valid v)) invalid_argument then Ok (host_ptr_ v, total_size_ v).

Definition to_kokkos_device_view (v : FieldView) : result (Z * Z) :=
  do! throw_if (device_ptr_ v =? 0) invalid_argument then Ok (device_ptr_ v, total_size_ v).

Definition from_kokkos_view (rank : nat) (kv : Z * Z) : result FieldView :=
  do! throw_if (fst kv =? 0) invalid_argument then
  host_view (fst kv) (snd kv :: replicate (rank - 1) 1).

(** ** Memory and synchronisation *)

(** Contiguous blocks of host and device memory, addressed by their base pointers;
    the two spaces are separate.  [deep_copy] copies [n] elements between blocks of
    that length. *)
Class Memory (M A : Type) := {
  host_get : M -> Z -> list A;
  dev_get : M -> Z -> list A;
  host_set : M -> Z -> list A -> M;
  dev_set : M -> Z -> list A -> M;
  deep_copy_to_device : M -> Z -> Z -> Z -> M;
  deep_copy_to_host : M -> Z -> Z -> Z -> M;
  host_get_set : forall m p l, host_get (host_set m p l) p = l;
  dev_get_set : forall m p l, dev_get (dev_set m p l) p = l;
  dev_host_set : forall m p q l, dev_get (host_set m p l) q = dev_get m q;
  host_dev_set : forall m p q l, host_get (dev_set m p l) q = host_get m q;
  copy_to_device_ok : forall m d h n,
    Z.of_nat (length (host_get m h)) = n -> Z.of_nat (length (dev_get m d)) = n ->
    dev_get (deep_copy_to_device m d h n) d = host_get m h /\
    forall q, host_get (deep_copy_to_device m d h n) q = host_get m q;
  copy_to_host_ok : forall m h d n,
    Z.of_nat (length (host_get m h)) = n -> Z.of_nat (length (dev_get m d)) = n ->
    host_get (deep_copy_to_host m h d n) h = dev_get m d /\
    forall q, dev_get (deep_copy_to_host m h d n) q = dev_get m q
}.

Section Sync.
Context {M A : Type} `{!Memory M A}.

Definition sync_for_device (m : M) (v : FieldView) : M * FieldView :=
  if bool_decide (state_ v = HOST_DIRTY) && negb (host_ptr_ v =? 0) && negb (device_ptr_ v =? 0) then
    (deep_copy_to_device m (device_ptr_ v) (host_ptr_ v) (total_size_ v), with_state v HOST_CLEAN)
  else (m, v).

Definition sync_for_host (m : M) (v : FieldView) : M * FieldView :=
  if bool_decide (state_ v = DEVICE_DIRTY) && negb (host_ptr_ v =? 0) && negb (device_ptr_ v =? 0) then
    (deep_copy_to_host m (host_ptr_ v) (device_ptr_ v) (total_size_ v), with_state v HOST_CLEAN)
  else (m, v).

(** ** The coherency protocol *)

(** Both copies exist and have the view's length. *)
Definition dual (m : M) (v : FieldView) : Prop :=
  host_ptr_ v <> 0 /\ device_ptr_ v <> 0 /\
  Z.of_nat (length (host_get m (host_ptr_ v))) = total_size_ v /\
  Z.of_nat (length (dev_get m (device_ptr_ v))) = total_size_ v.

(** [data] is the field: the copies that the state calls current hold it. *)
Definition coherent (m : M) (v : FieldView) (data : list A) : Prop :=
  dual m v /\
  (state_ v <> DEVICE_DIRTY -> host_get m (host_ptr_ v) = data) /\
  (state_ v <> HOST_DIRTY -> dev_get m (device_ptr_ v) = data).

(** The steps of a client that follows the protocol: it synchronises before it uses a
    side and marks the side it wrote. *)
Inductive protocol_step : M * FieldView * list A -> M * FieldView * list A -> Prop :=
| p_sync_device m v data :
    protocol_step (m, v, data) (sync_for_device m v, data)
| p_sync_host m v data :
    protocol_step (m, v, data) (sync_for_host m v, data)
| p_host_write m v data new : length new = length data ->
    protocol_step (m, v, data)
      (host_set (sync_for_host m v).1 (host_ptr_ v) new, mark_host_dirty (sync_for_host m v).2, new)
| p_device_kernel m v data (f : list A -> list A) : (forall l, length (f l) = length l) ->
    protocol_step (m, v, data)
      (let s := sync_for_device m v in
       (dev_set s.1 (device_ptr_ v) (f (dev_get s.1 (device_ptr_ v))), mark_device_dirty s.2, f data)).

Lemma dual_flags m v : dual m v -> negb (host_ptr_ v =? 0) = true /\ negb (device_ptr_ v =? 0) = true.
Proof. intros (H1 & H2 & _). split; apply negb_true_iff, Z.eqb_neq; done. Qed.

Lemma sync_for_device_ok m v data : coherent m v data ->
  let s := sync_for_device m v in
  coherent s.1 s.2 data /\ host_ptr_ s.2 = host_ptr_ v /\ device_ptr_ s.2 = device_ptr_ v /\
  dev_get s.1 (device_ptr_ v) = data /\ state_ s.2 <> HOST_DIRTY.
Proof.
  intros (Hd & Hh & Hv). destruct (dual_flags m v Hd) as [E1 E2]. unfold sync_for_device. rewrite E1, E2.
  case_bool_decide as Hs; simpl.
  - destruct Hd as (H1 & H2 & L1 & L2).
    destruct (copy_to_device_ok m (device_ptr_ v) (host_ptr_ v) _ L1 L2) as [Hc Hk].
    assert (Hh' : host_get m (host_ptr_ v) = data) by (apply Hh; congruence).
    split; [|split; [done|split; [done|]]].
    + split; [split; [done|split; [done|]]|split]; simpl; rewrite ?Hk, ?Hc; done.
    + by rewrite Hc.
  - split; [done|]. split; [done|]. split; [done|]. split; [by apply Hv|done].
Qed.

Lemma sync_for_host_ok m v data : coherent m v data ->
  let s := sync_for_host m v in
  coherent s.1 s.2 data /\ host_ptr_ s.2 = host_ptr_ v /\ device_ptr_ s.2 = device_ptr_ v /\
  host_get s.1 (host_ptr_ v) = data /\ state_ s.2 <> DEVICE_DIRTY.
Proof.
  intros (Hd & Hh & Hv). destruct (dual_flags m v Hd) as [E1 E2]. unfold sync_for_host. rewrite E1, E2.
  case_bool_decide as Hs; simpl.
  - destruct Hd as (H1 & H2 & L1 & L2).
    destruct (copy_to_host_ok m (host_ptr_ v) (device_ptr_ v) _ L1 L2) as [Hc Hk].
    assert (Hv' : dev_get m (device_ptr_ v) = data) by (apply Hv; congruence).
    split; [|split; [done|split; [done|]]].
    + split; [split; [done|split; [done|]]|split]; simpl; rewrite ?Hk, ?Hc; done.
    + by rewrite Hc.
  - split; [done|]. split; [done|]. split; [done|]. split; [by apply Hh|done].
Qed.

Lemma protocol_coherent s s' : protocol_step s s' -> coherent s.1.1 s.1.2 s.2 -> coherent s'.1.1 s'.1.2 s'.2.
Proof.
  intros H. destruct H as [m v data|m v data|m v data new Hl|m v data f Hf]; simpl; intros Hc.
  - by apply sync_for_device_ok.
  - by apply sync_for_host_ok.
  - destruct (sync_for_host_ok m v data Hc) as ((Hd & _ & Hv) & Eh & Ed & Hg & Hs).
    destruct (sync_for_host m v) as [m1 v1]. simpl in *. destruct Hd as (H1 & H2 & L1 & L2).
    unfold coherent, dual. simpl. rewrite Eh, Ed in *. rewrite host_get_set, dev_host_set.
    repeat split; try done. by rewrite Hl, <- Hg.
  - destruct (sync_for_device_ok m v data Hc) as ((Hd & Hh & _) & Eh & Ed & Hg & Hs).
    destruct (sync_for_device m v) as [m1 v1]. simpl in *. destruct Hd as (H1 & H2 & L1 & L2).
    unfold coherent, dual. simpl. rewrite Eh, Ed in *. rewrite dev_get_set, host_dev_set, Hg.
    repeat split; try done. by rewrite Hf, <- Hg.
Qed.
End Sync.


(** A memory with one block per address in each space. *)
#[export] Instance demo_memory : Memory (gmap Z (list Z) * gmap Z (list Z)) Z.
Proof.
  refine {|
    host_get m p := default [] (m.1 !! p); dev_get m p := default [] (m.2 !! p);
    host_set m p l := (<[p := l]> m.1, m.2); dev_set m p l := (m.1, <[p := l]> m.2);
    deep_copy_to_device m d h n := (m.1, <[d := default [] (m.1 !! h)]> m.2);
    deep_copy_to_host m h d n := (<[h := default [] (m.2 !! d)]> m.1, m.2) |};
  intros; simpl; rewrite ?lookup_insert_eq; try done; split; try done; by rewrite lookup_insert_eq.
Defined.

Definition demo_mem : gmap Z (list Z) * gmap Z (list Z) := ({[8 := [1; 2]]}, {[16 := [1; 2]]}).
Definition demo_view : FieldView := mkView 8 16 [2] 2 HOST_CLEAN Host 0.


(** ** Sizes and the column-major layout *)

Definition product (exts : list Z) : Z := foldr Z.mul 1 exts.

Definition in_extents (exts idx : list Z) : Prop := Forall2 (fun e i => 0 <= i < e) exts idx.

(** The multi-index of an offset. *)
Fixpoint unlayout (exts : list Z) (n : Z) : list Z :=
  match exts with
  | [] => []
  | e :: es => n mod e :: unlayout es (n / e)
  end.

Lemma total_size_product exts : Forall (fun e => 0 <= e) exts ->
  compute_total_size exts = to_u64 (product exts).
Proof.
  unfold compute_total_size. intros _.
  assert (H : forall s, to_u64 s = s -> fold_left (fun s e => to_u64 (s * e)) exts s = to_u64 (s * product exts)).
  { induction exts as [|e es IH]; intros s Hs; simpl; [by rewrite Z.mul_1_r|].
    rewrite IH by (unfold to_u64; apply Z.mod_mod; lia).
    unfold to_u64. rewrite Z.mul_mod_idemp_l by lia. f_equal. ring. }
  rewrite H by done. f_equal. lia.
Qed.

Lemma product_pos exts : Forall (fun e => 0 < e) exts -> 0 < product exts.
Proof. induction 1; simpl; nia. Qed.

Lemma layout_bound exts : forall idx, in_extents exts idx -> 0 <= layout_left exts idx < product exts.
Proof.
  induction exts as [|e es IH]; intros idx H; inversion H as [|? i ? js Hi Hjs]; subst; simpl; [lia|].
  specialize (IH js Hjs). nia.
Qed.

Lemma unlayout_layout exts : forall idx, in_extents exts idx -> unlayout exts (layout_left exts idx) = idx.
Proof.
  induction exts as [|e es IH]; intros idx H; inversion H as [|? i ? js Hi Hjs]; subst; simpl; [done|].
  replace (i + e * layout_left es js) with (e * layout_left es js + i) by lia.
  destruct (div_mod_unique e (layout_left es js) i ltac:(lia) Hi) as [-> ->]. by rewrite IH.
Qed.

Lemma layout_unlayout exts : forall n, Forall (fun e => 0 < e) exts -> 0 <= n < product exts ->
  in_extents exts (unlayout exts n) /\ layout_left exts (unlayout exts n) = n.
Proof.
  induction exts as [|e es IH]; intros n H Hn; simpl in *; [split; [constructor|lia]|].
  inversion H; subst. pose proof (product_pos es ltac:(done)).
  pose proof (Z.div_mod n e ltac:(lia)). pose proof (Z.mod_pos_bound n e ltac:(lia)).
  destruct (IH (n / e)) as [Ha Hb]; [done|split; [apply Z.div_pos; lia|apply Z.div_lt_upper_bound; lia]|].
  split; [by constructor|]. rewrite Hb. lia.
Qed.

(** A view is built exactly from a non-null pointer and non-zero extents; when the
    product of the extents fits in 64 bits, [size()] is that product and the
    column-major layout of [view()] maps the multi-indices in range one to one onto
    the offsets [0 .. size() - 1], so no element access leaves the block. *)
Theorem view_layout host_ptr exts : Forall (fun e => 0 <= e < 18446744073709551616) exts ->
  if bool_decide (host_ptr <> 0 /\ Forall (fun e => 0 < e) exts) then
    exists v, host_view host_ptr exts = Ok v /\ view v = Ok (mkMdspan host_ptr exts) /\
      state_ v = HOST_CLEAN /\ valid v = true /\
      (product exts < 18446744073709551616 ->
         view_size v = product exts /\
         (forall idx, in_extents exts idx -> 0 <= layout_left exts idx < view_size v /\
            unlayout exts (layout_left exts idx) = idx) /\
         (forall n, 0 <= n < view_size v ->
            in_extents exts (unlayout exts n) /\ layout_left exts (unlayout exts n) = n))
  else host_view host_ptr exts = Throw invalid_argument.
Proof.
  intros Hr. unfold host_view, validate_host_construction, throw_if.
  assert (Hv : validate_extents exts = Ok tt /\ Forall (fun e => 0 < e) exts \/
    validate_extents exts = Throw invalid_argument /\ ~ Forall (fun e => 0 < e) exts).
  { clear host_ptr. induction Hr as [|e es He _ IH]; [left; split; [done|constructor]|].
    simpl. unfold throw_if. destruct (Z.eqb_spec e 0); simpl.
    - right. split; [done|]. intros H. inversion H; lia.
    - destruct IH as [[-> H]|[-> H]]; [left; split; [done|constructor; [lia|done]]|right].
      split; [done|]. intros H'. by inversion H'. }
  case_bool_decide as Hc.
  - destruct Hc as [Hp Hpos]. destruct (Z.eqb_spec host_ptr 0); [done|]. simpl.
    destruct Hv as [[-> _]|[_ ?]]; [|done]. simpl. eexists. split; [done|].
    unfold view, valid, throw_if. simpl. destruct (Z.eqb_spec host_ptr 0); [done|]. simpl.
    split; [done|]. split; [done|]. split; [done|]. intros Hfit. pose proof (product_pos exts Hpos).
    assert (Hs : compute_total_size exts = product exts).
    { rewrite total_size_product by (eapply Forall_impl; [exact Hpos|simpl; lia]).
      unfold to_u64. apply Z.mod_small. lia. }
    unfold view_size. simpl. rewrite Hs. split; [done|]. split.
    + intros idx Hi. split; [by apply layout_bound|by apply unlayout_layout].
    + intros k Hk. by apply layout_unlayout.
  - destruct (Z.eqb_spec host_ptr 0); [done|]. simpl.
    destruct Hv as [[_ ?]|[-> _]]; [|done]. exfalso. by apply Hc.
Qed.

Example view_layout_witness :
  exists v, host_view 64 [4; 3; 2] = Ok v /\ view v = Ok (mkMdspan 64 [4; 3; 2]) /\
    state_ v = HOST_CLEAN /\ valid v = true /\
    (product [4; 3; 2] < 18446744073709551616 ->
       view_size v = product [4; 3; 2] /\
       (forall idx, in_extents [4; 3; 2] idx -> 0 <= layout_left [4; 3; 2] idx < view_size v /\
          unlayout [4; 3; 2] (layout_left [4; 3; 2] idx) = idx) /\
       (forall n, 0 <= n < view_size v ->
          in_extents [4; 3; 2] (unlayout [4; 3; 2] n) /\ layout_left [4; 3; 2] (unlayout [4; 3; 2] n) = n)).
Proof. apply (view_layout 64 [4; 3; 2]). repeat constructor; lia. Defined.

(** The constructors start as clean without comparing or copying the two sides: a
    synchronisation of a new dual view copies nothing. *)
Example dual_starts_clean :
  let m : gmap Z (list Z) * gmap Z (list Z) := ({[8 := [1; 2]]}, {[16 := [0; 0]]}) in
  match dual_view false false 8 16 [2] with
  | Ok v => dev_get (sync_for_device m v).1 16 = [0; 0]
  | _ => False
  end.
Proof. vm_compute. reflexivity. Qed.
