(* ===== verification/TripleBuffer.v ===== *)
(** * SPAN: the triple buffer ([span/triple_buffer.hpp])

    The three tracks are pointers to blocks that the buffer does not own.  The model
    thread writes through [write_ptr], the I/O thread reads through [io_ptr]; the
    rotation and the release are atomic (they hold the mutex), so an execution is a
    sequence of steps of the two threads. *)
From stdpp Require Import base list numbers gmap relations.
From Stdlib Require Import ZArith Lia.
From S2P Require Import Prelude CInt.
Local Open Scope Z_scope.

Record TripleBuffer : Type := mkTriple {
  buf_WRITE : Z; buf_READ : Z; buf_IO : Z;
  n_elements_ : Z;
  io_locked_ : bool
}.

(** The constructor. *)
Definition triple_buffer (buf_write buf_read buf_io n_elements : Z) : result TripleBuffer :=
  do! throw_if (buf_write =? 0) invalid_argument then
  do! throw_if (buf_read =? 0) invalid_argument then
  do! throw_if (buf_io =? 0) invalid_argument then
  do! throw_if (n_elements =? 0) invalid_argument then
  do! throw_if ((buf_write =? buf_read) || (buf_write =? buf_io) || (buf_read =? buf_io)) invalid_argument then
  Ok (mkTriple buf_write buf_read buf_io n_elements false).

Definition write_ptr (tb : TripleBuffer) : Z := buf_WRITE tb.
Definition read_ptr (tb : TripleBuffer) : Z := buf_READ tb.
Definition io_ptr (tb : TripleBuffer) : Z := buf_IO tb.

Definition swap_buffers_for_amio (tb : TripleBuffer) : bool * TripleBuffer :=
  if io_locked_ tb then (false, tb)
  else (true, mkTriple (buf_IO tb) (buf_WRITE tb) (buf_READ tb) (n_elements_ tb) true).

Definition release_io (tb : TripleBuffer) : TripleBuffer :=
  mkTriple (buf_WRITE tb) (buf_READ tb) (buf_IO tb) (n_elements_ tb) false.

Definition is_io_locked (tb : TripleBuffer) : bool := io_locked_ tb.
Definition buffer_size (tb : TripleBuffer) : Z := n_elements_ tb.

(** ** Executions *)

Section Executions.
Context {A : Type}.

Definition system : Type := TripleBuffer * gmap Z (list A).

(** While the I/O thread streams: the model thread writes a field into the write
    track, and any thread attempts a swap. *)
Inductive busy_step : system -> system -> Prop :=
| b_write tb m field : busy_step (tb, m) (tb, <[write_ptr tb := field]> m)
| b_swap tb m : busy_step (tb, m) ((swap_buffers_for_amio tb).2, m).

Inductive sys_step : system -> system -> Prop :=
| s_busy s s' : busy_step s s' -> sys_step s s'
| s_release tb m : sys_step (tb, m) (release_io tb, m).

(** The tracks are the three blocks given to the constructor, in some order. *)
Definition tracks_ok (ps : list Z) (tb : TripleBuffer) : Prop :=
  [write_ptr tb; read_ptr tb; io_ptr tb] ≡ₚ ps.

Lemma triple_ok w r i n tb : triple_buffer w r i n = Ok tb -> NoDup [w; r; i] /\ tracks_ok [w; r; i] tb.
Proof.
  unfold triple_buffer, throw_if. repeat case_match; try done. simpl. intros [= <-].
  bsimpl. split; [|by unfold tracks_ok]. repeat constructor; set_solver.
Qed.

Lemma swap_tracks ps tb : tracks_ok ps tb -> tracks_ok ps (swap_buffers_for_amio tb).2.
Proof.
  unfold tracks_ok, swap_buffers_for_amio. intros <-. destruct (io_locked_ tb); [done|]. simpl.
  unfold write_ptr, read_ptr, io_ptr. simpl.
  change [buf_IO tb; buf_WRITE tb; buf_READ tb] with ([buf_IO tb] ++ [buf_WRITE tb; buf_READ tb]).
  by rewrite Permutation_app_comm.
Qed.

Lemma sys_tracks ps s s' : rtc sys_step s s' -> tracks_ok ps s.1 -> tracks_ok ps s'.1.
Proof.
  induction 1 as [|s1 s2 s3 H _ IH]; [done|]. intros Ht. apply IH.
  destruct H as [? ? [tb m f|tb m]|tb m]; simpl in *; [done|by apply swap_tracks|done].
Qed.

(** While the I/O track is locked only the write track changes. *)
Lemma busy_locked s s' : rtc busy_step s s' -> io_locked_ s.1 = true ->
  s'.1 = s.1 /\ forall p, p <> write_ptr s.1 -> s'.2 !! p = s.2 !! p.
Proof.
  induction 1 as [s|s1 s2 s3 H _ IH]; [done|]. intros Hl.
  destruct H as [tb m f|tb m]; simpl in *.
  - destruct (IH Hl) as [E Hm]. split; [done|]. intros p Hp. rewrite Hm by done.
    by rewrite lookup_insert_ne.
  - assert (Es : swap_buffers_for_amio tb = (false, tb)) by (unfold swap_buffers_for_amio; by rewrite Hl).
    rewrite Es in *. simpl in *. by apply IH.
Qed.
End Executions.

(** I/O isolation, for any interleaving of model writes, swaps and releases before
    and any interleaving of model writes and swap attempts during the streaming: the
    tracks are always the three distinct blocks; until the release every swap attempt
    is refused and the block being streamed keeps the contents that the read track had
    at the swap; the field completed before the swap stays in the read track and is
    what the next swap hands to the I/O thread. *)
Theorem io_isolation {A} w r i n tb0 (m0 : gmap Z (list A)) tb m tb1 tb2 m2 :
  triple_buffer w r i n = Ok tb0 -> rtc sys_step (tb0, m0) (tb, m) ->
  swap_buffers_for_amio tb = (true, tb1) -> rtc busy_step (tb1, m) (tb2, m2) ->
  [write_ptr tb2; read_ptr tb2; io_ptr tb2] ≡ₚ [w; r; i] /\ NoDup [write_ptr tb2; read_ptr tb2; io_ptr tb2] /\
  is_io_locked tb2 = true /\ swap_buffers_for_amio tb2 = (false, tb2) /\
  m2 !! io_ptr tb2 = m !! read_ptr tb /\
  m2 !! read_ptr tb2 = m !! write_ptr tb /\
  (exists tb3, swap_buffers_for_amio (release_io tb2) = (true, tb3) /\
     m2 !! io_ptr tb3 = m !! write_ptr tb).
Proof.
  intros Hc Hr Hs Hb. destruct (triple_ok _ _ _ _ _ Hc) as [Hnd Ht0].
  pose proof (sys_tracks _ _ _ Hr Ht0) as Ht. simpl in Ht.
  pose proof (swap_tracks _ _ Ht) as Ht1. rewrite Hs in Ht1. simpl in Ht1.
  unfold swap_buffers_for_amio in Hs. destruct (io_locked_ tb); [done|]. injection Hs as Hs.
  destruct (busy_locked _ _ Hb) as [E Hm]; [by rewrite <- Hs|]. simpl in *. subst tb2.
  assert (Hnd1 : NoDup [write_ptr tb1; read_ptr tb1; io_ptr tb1]) by (unfold tracks_ok in Ht1; by rewrite Ht1).
  assert (Hne : read_ptr tb1 <> write_ptr tb1 /\ io_ptr tb1 <> write_ptr tb1).
  { apply NoDup_cons in Hnd1 as [Hn _]. split; intros Heq; apply Hn; rewrite <- Heq; set_solver. }
  destruct Hne as [N1 N2].
  split; [done|]. split; [done|]. split; [by rewrite <- Hs|].
  split; [unfold swap_buffers_for_amio; by rewrite <- Hs|].
  split; [rewrite Hm by done; by rewrite <- Hs|]. split; [rewrite Hm by done; by rewrite <- Hs|].
  eexists. split; [by unfold swap_buffers_for_amio, release_io|]. simpl.
  change (m2 !! read_ptr tb1 = m !! write_ptr tb). rewrite Hm by done. by rewrite <- Hs.
Qed.

Definition demo_triple : TripleBuffer := mkTriple 8 16 24 2 false.

Example io_isolation_witness :
  let m : gmap Z (list Z) := {[8 := [1; 2]; 16 := [0; 0]]} in
  let tb1 := (swap_buffers_for_amio demo_triple).2 in
  let m2 := <[write_ptr tb1 := [5; 6]]> m in
  exists tb3, swap_buffers_for_amio (release_io tb1) = (true, tb3) /\ m2 !! io_ptr tb3 = Some [1; 2].
Proof.
  refine (proj2 (proj2 (proj2 (proj2 (proj2 (proj2 (io_isolation 8 16 24 2 demo_triple _ demo_triple
    {[8 := [1; 2]; 16 := [0; 0]]} (swap_buffers_for_amio demo_triple).2 _ _ eq_refl (rtc_refl _ _) eq_refl _))))))).
  apply rtc_once. apply b_write.
Defined.
