(* ===== verification/SpanCApi.v ===== *)
(** * SPAN: the C registration interface ([span/src/span_c_api.cpp], [span_constants.h])

    A function returns its status code, what it stored through its output pointers
    and the new registry.  The registry is any table of handles; [dims] is [None] for
    a null pointer and an access beyond its array is undefined, as is a store through
    a null output pointer.  The enabled GPU back ends are parameters of the build. *)
From stdpp Require Import base list numbers gmap.
From Stdlib Require Import ZArith Lia.
From S2P Require Import Prelude CInt HandleRegistry FieldView.
Local Open Scope Z_scope.

Definition HELM_SPAN_MEM_HOST : Z := 0.
Definition HELM_SPAN_MEM_CUDA_DEVICE : Z := 1.
Definition HELM_SPAN_MEM_HIP_DEVICE : Z := 2.
Definition HELM_SPAN_SUCCESS : Z := 0.
Definition HELM_SPAN_ERR_NULL_PTR : Z := -1.
Definition HELM_SPAN_ERR_INVALID_RANK : Z := -2.
Definition HELM_SPAN_ERR_INVALID_HANDLE : Z := -3.
Definition HELM_SPAN_ERR_INVALID_MEMORY_SPACE : Z := -4.
Definition HELM_SPAN_ERR_INTERNAL : Z := -99.
Definition HELM_SPAN_MAX_RANK : Z := 7.

Record RegisteredField : Type := mkField {
  field_view : FieldView;
  field_rank : Z;
  mem_space : MemorySpaceToken;
  field_dims : list Z;
  raw_ptr : Z
}.

Section Api.
Context (enable_cuda enable_hip : bool).
Context {R : Type} `{!HandleTable R RegisteredField}.

Definition is_memory_space_valid (token : Z) : bool :=
  if token =? HELM_SPAN_MEM_HOST then true
  else if token =? HELM_SPAN_MEM_CUDA_DEVICE then enable_cuda
  else if token =? HELM_SPAN_MEM_HIP_DEVICE then enable_hip
  else false.

(** [static_cast<MemorySpaceToken>] of a validated token. *)
Definition to_memory_space (token : Z) : MemorySpaceToken :=
  if token =? 0 then Host else if token =? 1 then CudaDevice else HipDevice.

Definition make_extents (dims : list Z) : list Z := to_u64 <$> dims.

Definition create_field_view (ptr : Z) (dims : list Z) (space : MemorySpaceToken) : result FieldView :=
  if bool_decide (space = Host) then host_view ptr (make_extents dims)
  else device_view enable_cuda enable_hip ptr (make_extents dims).

(** [for (i = i; i < rank; ++i) if (dims[i] <= 0) ...]: whether all are positive. *)
Fixpoint check_dims (count : nat) (dims : list Z) : result bool :=
  match count with
  | O => Ok true
  | S n =>
      match dims with
      | [] => Undef
      | d :: rest => if d <=? 0 then Ok false else check_dims n rest
      end
  end.

(** The exception barrier. *)
Definition helm_span_c_try {A} (body : result (Z * A)) (unchanged : A) : result (Z * A) :=
  match body with Throw _ => Ok (HELM_SPAN_ERR_INTERNAL, unchanged) | _ => body end.

Definition helm_span_register_legacy_ptr (r : R) (ptr : Z) (dims : option (list Z)) (rank token handle_out : Z)
  : result (Z * (option Z * R)) :=
  helm_span_c_try
    (if ptr =? 0 then Ok (HELM_SPAN_ERR_NULL_PTR, (None, r))
     else if (rank <? 1) || (HELM_SPAN_MAX_RANK <? rank) then Ok (HELM_SPAN_ERR_INVALID_RANK, (None, r))
     else if negb (is_memory_space_valid token) then Ok (HELM_SPAN_ERR_INVALID_MEMORY_SPACE, (None, r))
     else
       match dims with
       | None => Undef
       | Some ds =>
           let! positive := check_dims (Z.to_nat rank) ds in
           if negb positive then Ok (HELM_SPAN_ERR_NULL_PTR, (None, r))
           else
             let used := take (Z.to_nat rank) ds in
             let! fv := create_field_view ptr used (to_memory_space token) in
             let reg_field := mkField fv rank (to_memory_space token) used ptr in
             let! '(handle, r') := ht_register r reg_field in
             if handle =? HELM_SPAN_ERR_REGISTRY_FULL then Ok (HELM_SPAN_ERR_REGISTRY_FULL, (None, r'))
             else if handle_out =? 0 then Undef
             else Ok (HELM_SPAN_SUCCESS, (Some handle, r'))
       end)
    (None, r).

(** The stores of a successful call: pointer, dimensions, rank. *)
Definition helm_span_get_view (r : R) (handle ptr_out dims_out rank_out : Z)
  : result (Z * option (Z * list Z * Z)) :=
  helm_span_c_try
    (match ht_lookup r handle with
     | None => Ok (HELM_SPAN_ERR_INVALID_HANDLE, None)
     | Some reg =>
         if (ptr_out =? 0) || (dims_out =? 0) || (rank_out =? 0) then Undef
         else Ok (HELM_SPAN_SUCCESS, Some (raw_ptr reg, take (Z.to_nat (field_rank reg)) (field_dims reg), field_rank reg))
     end)
    None.

Definition helm_span_unregister (r : R) (handle : Z) : result (Z * R) :=
  helm_span_c_try
    (let g := ht_unregister r handle in
     if fst g then Ok (HELM_SPAN_SUCCESS, snd g) else Ok (HELM_SPAN_ERR_INVALID_HANDLE, snd g))
    r.

(** ** Lemmas *)

Lemma check_dims_spec n : forall ds, (n <= length ds)%nat ->
  check_dims n ds = Ok (forallb (fun d => 0 <? d) (take n ds)).
Proof.
  induction n as [|n IH]; intros ds Hl; [done|]. destruct ds as [|d ds]; [simpl in Hl; lia|].
  simpl in *. destruct (Z.leb_spec d 0), (Z.ltb_spec 0 d); try lia; simpl; [done|]. apply IH. lia.
Qed.

Lemma extents_id ds : Forall (fun d => 0 < d < 9223372036854775808) ds -> make_extents ds = ds.
Proof.
  unfold make_extents. induction 1 as [|d ds Hd _ IH]; [done|]. rewrite fmap_cons, IH.
  unfold to_u64. rewrite Z.mod_small by lia. done.
Qed.

Lemma positive_extents ds : Forall (fun d => 0 < d) ds -> validate_extents ds = Ok tt.
Proof. induction 1 as [|d ds Hd _ IH]; [done|]. simpl. unfold throw_if. destruct (Z.eqb_spec d 0); [lia|done]. Qed.

Lemma create_ok ptr ds space : ptr <> 0 -> Forall (fun d => 0 < d < 9223372036854775808) ds ->
  exists fv, create_field_view ptr ds space = Ok fv /\ valid fv = true /\ extents_ fv = ds /\
    (if bool_decide (space = Host) then host_ptr_ fv = ptr else device_ptr_ fv = ptr).
Proof.
  intros Hp Hd. unfold create_field_view. rewrite extents_id by done.
  assert (Hv : validate_extents ds = Ok tt)
    by (apply positive_extents; eapply Forall_impl; [exact Hd|simpl; lia]).
  unfold host_view, device_view, validate_host_construction, validate_device_construction, throw_if.
  case_bool_decide; (destruct (Z.eqb_spec ptr 0); [done|]; simpl; rewrite Hv; simpl; eexists; split; [done|]);
    unfold valid; simpl; (destruct (Z.eqb_spec ptr 0); [done|]); done.
Qed.
End Api.

(** The C interface on every input with readable dimensions and writable outputs:
    the status follows the documented priority (null pointer, rank, memory space,
    dimensions, registry full); a refused registration leaves the registry as it was;
    an accepted one returns a positive handle under which [helm_span_get_view] gives
    back pointer, dimensions and rank, until [helm_span_unregister], which restores
    the table, so that the handle is then invalid. *)
Theorem legacy_ptr_lifecycle (enable_cuda enable_hip : bool) {R} `{!HandleTable R RegisteredField}
    (r : R) ptr ds rank token handle_out : ht_ok r -> handle_out <> 0 ->
  (1 <= rank <= HELM_SPAN_MAX_RANK -> rank <= Z.of_nat (length ds)) ->
  Forall (fun d => -9223372036854775808 <= d < 9223372036854775808) ds ->
  let used := take (Z.to_nat rank) ds in
  let call := helm_span_register_legacy_ptr enable_cuda enable_hip r ptr (Some ds) rank token handle_out in
  if ptr =? 0 then call = Ok (HELM_SPAN_ERR_NULL_PTR, (None, r))
  else if (rank <? 1) || (HELM_SPAN_MAX_RANK <? rank) then call = Ok (HELM_SPAN_ERR_INVALID_RANK, (None, r))
  else if negb (is_memory_space_valid enable_cuda enable_hip token)
    then call = Ok (HELM_SPAN_ERR_INVALID_MEMORY_SPACE, (None, r))
  else if negb (forallb (fun d => 0 <? d) used) then call = Ok (HELM_SPAN_ERR_NULL_PTR, (None, r))
  else if decide (Z.of_nat (size (ht_map r)) < MAX_CAPACITY) then
    exists handle r', call = Ok (HELM_SPAN_SUCCESS, (Some handle, r')) /\ 0 < handle /\ ht_ok r' /\
      ht_map r !! handle = None /\
      (forall p d k, p <> 0 -> d <> 0 -> k <> 0 ->
         helm_span_get_view r' handle p d k = Ok (HELM_SPAN_SUCCESS, Some (ptr, used, rank))) /\
      exists r2, helm_span_unregister r' handle = Ok (HELM_SPAN_SUCCESS, r2) /\ ht_ok r2 /\
        ht_map r2 = ht_map r /\
        forall p d k, helm_span_get_view r2 handle p d k = Ok (HELM_SPAN_ERR_INVALID_HANDLE, None)
  else call = Ok (HELM_SPAN_ERR_REGISTRY_FULL, (None, r)).
Proof.
  intros Hok Hout Hlen Hr used call. unfold call, helm_span_register_legacy_ptr.
  destruct (Z.eqb_spec ptr 0); [done|]. destruct ((rank <? 1) || _) eqn:Erank; [done|].
  destruct (negb (is_memory_space_valid _ _ _)); [done|]. unfold HELM_SPAN_MAX_RANK in *. bsimpl.
  assert (Hl : (Z.to_nat rank <= length ds)%nat) by lia.
  rewrite check_dims_spec by done. simpl bind. fold used.
  destruct (forallb _ used) eqn:Epos; simpl negb; cbv iota; [|done].
  assert (Hpos : Forall (fun d => 0 < d < 9223372036854775808) used).
  { apply Forall_forall. intros d Hd.
    assert (0 <? d = true) by (apply (proj1 (forallb_forall _ _) Epos), list_elem_of_In; done).
    rewrite Forall_forall in Hr. specialize (Hr d). bsimpl. split; [done|].
    apply Hr. unfold used in Hd. apply (subseteq_take (Z.to_nat rank) ds) in Hd. done. }
  destruct (create_ok enable_cuda enable_hip ptr used (to_memory_space token)) as (fv & -> & _); [done|done|].
  simpl bind. set (reg := mkField _ _ _ _ _). pose proof (ht_register_ok r reg Hok) as Hreg.
  case_decide as Hroom; [|by rewrite Hreg].
  destruct Hreg as (h & r' & -> & Hok' & Hh & Hn & Hm). simpl.
  destruct (Z.eqb_spec h HELM_SPAN_ERR_REGISTRY_FULL) as [E|_]; [unfold HELM_SPAN_ERR_REGISTRY_FULL in E; lia|].
  destruct (Z.eqb_spec handle_out 0); [done|]. simpl. exists h, r'. split; [done|].
  split; [lia|]. split; [done|]. split; [done|]. split.
  - intros p d k Hp Hd Hk. unfold helm_span_get_view. rewrite ht_lookup_ok, Hm, lookup_insert_eq by done.
    destruct (Z.eqb_spec p 0), (Z.eqb_spec d 0), (Z.eqb_spec k 0); try done. simpl.
    unfold used. by rewrite take_take, Nat.min_id.
  - unfold helm_span_unregister. destruct (ht_unregister_ok r' h Hok') as (E1 & Hok2 & E2).
    rewrite E1, Hm, lookup_insert_eq. simpl. eexists. split; [done|]. split; [done|].
    rewrite E2, Hm, delete_insert_id by done. split; [done|]. intros p d k.
    unfold helm_span_get_view. rewrite ht_lookup_ok, E2, Hm, delete_insert_id, Hn by done. done.
Qed.

(** The registry of the library, two registrations and a stale handle. *)
Example legacy_ptr_lifecycle_witness :
  let r0 := @registry RegisteredField in
  exists handle r', helm_span_register_legacy_ptr false false r0 4096 (Some [3; 2]) 2 0 64 =
      Ok (HELM_SPAN_SUCCESS, (Some handle, r')) /\ 0 < handle /\ registry_ok r' /\
    handle_map r0 !! handle = None /\
    (forall p d k, p <> 0 -> d <> 0 -> k <> 0 ->
       helm_span_get_view r' handle p d k = Ok (HELM_SPAN_SUCCESS, Some (4096, [3; 2], 2))) /\
    exists r2, helm_span_unregister r' handle = Ok (HELM_SPAN_SUCCESS, r2) /\ registry_ok r2 /\
      handle_map r2 = handle_map r0 /\
      forall p d k, helm_span_get_view r2 handle p d k = Ok (HELM_SPAN_ERR_INVALID_HANDLE, None).
Proof.
  assert (Hd : Forall (fun d => -9223372036854775808 <= d < 9223372036854775808) [3; 2])
    by (repeat constructor; lia).
  pose proof (legacy_ptr_lifecycle false false (@registry RegisteredField) 4096 [3; 2] 2 0 64
    registry_init_ok ltac:(done) ltac:(done) Hd) as H.
  cbv zeta in H. rewrite decide_True in H by done. exact H.
Defined.
