(* ===== verification/Conf.v ===== *)
(** * CONF: configuration documents ([conf/config.hpp], [conf/value.hpp],
    [config.cpp], [value.cpp], [detail/yaml_tree.cpp], [conf/error.hpp])

    The YAML library and the file system are reached through the interface
    [YamlLib]; a node is an abstract type of that library.  A [Config] is [None]
    once moved from; a [Value] is [None] for a null view.  The message texts of the
    exceptions are left out.  [YAML::BadConversion] is a [std::runtime_error]. *)
From Stdlib Require Import ZArith Lia SpecFloat Ascii String.
From stdpp Require Import base list numbers sets strings.
From S2P Require Import Prelude CInt CType.

(** ** Error codes and node kinds *)

Definition Error_Success : Z := 0.
Definition Invalid_Arg : Z := 1.
Definition File_Not_Found : Z := 2.
Definition Parse_Error : Z := 3.
Definition Key_Not_Found : Z := 4.
Definition Type_Mismatch : Z := 5.
Definition Bad_Handle : Z := 6.
Definition Buffer_Too_Small : Z := 7.
Definition Error_Unknown : Z := 99.

Inductive Node_Kind : Type := Undefined | Null | Scalar | Sequence | Map.

#[export] Instance Node_Kind_eq_dec : EqDecision Node_Kind.
Proof. solve_decision. Defined.

(** The operations of yaml-cpp and of the file system that the code calls; a
    conversion is [None] when it throws [YAML::BadConversion], [load] is [None] when
    it throws [YAML::ParserException], [read_file] when the file cannot be opened. *)
Class YamlLib (Node : Type) := {
  node_type : Node -> Node_Kind;
  node_size : Node -> nat;
  node_at : Node -> nat -> Node;
  node_key : Node -> string -> Node;
  node_keys : Node -> list (option string);
  node_clone : Node -> Node;
  node_int : Node -> option Z;
  node_double : Node -> option spec_float;
  node_bool : Node -> option bool;
  node_string : Node -> option string;
  load : string -> option Node;
  read_file : string -> option string
}.

Section Conf.
Context {Node : Type} `{!YamlLib Node}.

Definition is_kind (n : Node) (k : Node_Kind) : bool := bool_decide (node_type n = k).

(** ** The tree *)

(** [YAML::ParserException] becomes [Parse_Error]. *)
Definition tree_from_string (text : string) : result Node :=
  match load text with Some root => Ok root | None => Throw (conf_error Parse_Error) end.

Definition tree_from_file (path : string) : result Node :=
  match read_file path with
  | None => Throw (conf_error File_Not_Found)
  | Some content => tree_from_string content
  end.

(** [dotted_path.find('.', start)] *)
Fixpoint find_dot (l : list ascii) (start : nat) : option nat :=
  match l, start with
  | [], _ => None
  | c :: rest, S k => S <$> find_dot rest k
  | c :: rest, O => if Ascii.eqb c "." then Some 0 else S <$> find_dot rest 0
  end.

(** [dotted_path.substr(start, count)] *)
Definition substr (l : list ascii) (start count : nat) : list ascii := take count (drop start l).

(** The splitting loop; each iteration moves [start] forward, so the length of the
    path bounds the iterations. *)
Fixpoint split_loop (fuel : nat) (path : list ascii) (start : nat) : list (list ascii) :=
  match fuel with
  | O => []
  | S f =>
      match find_dot path start with
      | None => [substr path start (length path - start)]
      | Some dot =>
          substr path start (dot - start) ::
          (if (dot + 1 =? length path)%nat then [[]] else split_loop f path (dot + 1))
      end
  end.

Definition split_path (path : list ascii) : list (list ascii) := split_loop (S (length path)) path 0.

(** [std::from_chars] into a [std::size_t] of a text of digits: [None] when the value
    does not fit. *)
Definition from_chars (l : list ascii) : option Z :=
  let v := fold_left (fun v c => v * 10 + digit_value c)%Z l 0%Z in
  if (v <? 18446744073709551616)%Z then Some v else None.

(** One step of the walk. *)
Definition descend (current : Node) (seg : list ascii) : result Node :=
  if is_kind current Map then
    let child := node_key current (string_of_list_ascii seg) in
    if is_kind child Undefined then Throw (conf_error Key_Not_Found) else Ok child
  else if is_kind current Sequence then
    if negb (forallb is_digit seg) then Throw (conf_error Key_Not_Found)
    else
      match from_chars seg with
      | None => Throw (conf_error Key_Not_Found)
      | Some index =>
          if (Z.of_nat (node_size current) <=? index)%Z then Throw (conf_error Key_Not_Found)
          else Ok (node_at current (Z.to_nat index))
      end
  else Throw (conf_error Key_Not_Found).

Fixpoint walk (current : Node) (segments : list (list ascii)) : result Node :=
  match segments with
  | [] => Ok current
  | seg :: rest => let! child := descend current seg in walk child rest
  end.

Definition resolve (root : Node) (dotted_path : string) : result Node :=
  let path := list_ascii_of_string dotted_path in
  do! throw_if (bool_decide (path = [])) (conf_error Invalid_Arg) then
  let segments := split_path path in
  do! throw_if (existsb (fun s => bool_decide (s = [])) segments) (conf_error Invalid_Arg) then
  walk (node_clone root) segments.

(** [convert<T>] *)
Definition convert {T} (as_T : Node -> option T) (node : Node) : result T :=
  if negb (is_kind node Scalar) then Throw (conf_error Type_Mismatch)
  else match as_T node with Some v => Ok v | None => Throw (conf_error Type_Mismatch) end.

(** ** Config *)

Definition Config : Type := option Node.

Definition from_file (path : string) : result Config := let! t := tree_from_file path in Ok (Some t).
Definition from_string (yaml_text : string) : result Config :=
  let! t := tree_from_string yaml_text in Ok (Some t).

(** A [noexcept] body that maps every exception to a default. *)
Definition catch_all {T} (m : result T) (d : T) : T := match m with Ok v => v | _ => d end.

Definition has (cfg : Config) (path : string) : bool :=
  match cfg with None => false | Some root => is_ok (resolve root path) end.

Definition is_map (cfg : Config) (path : string) : bool :=
  match cfg with None => false
  | Some root => catch_all (let! n := resolve root path in Ok (is_kind n Map)) false end.

Definition is_sequence (cfg : Config) (path : string) : bool :=
  match cfg with None => false
  | Some root => catch_all (let! n := resolve root path in Ok (is_kind n Sequence)) false end.

Definition conf_size (cfg : Config) (path : string) : nat :=
  match cfg with None => 0
  | Some root => catch_all (let! n := resolve root path in
      Ok (if is_kind n Map || is_kind n Sequence then node_size n else 0)) 0 end.

Definition get_scalar {T} (as_T : Node -> option T) (cfg : Config) (path : string) : result T :=
  match cfg with
  | None => Throw (conf_error Key_Not_Found)
  | Some root => let! n := resolve root path in convert as_T n
  end.

Definition get_int : Config -> string -> result Z := get_scalar node_int.
Definition get_double : Config -> string -> result spec_float := get_scalar node_double.
Definition get_bool : Config -> string -> result bool := get_scalar node_bool.
Definition get_string : Config -> string -> result string := get_scalar node_string.

(** The non-throwing flavour: [std::nullopt] on any exception. *)
Definition try_of {T} (m : result T) : option T := match m with Ok v => Some v | _ => None end.

Definition try_int (cfg : Config) (path : string) : option Z := try_of (get_int cfg path).
Definition try_double (cfg : Config) (path : string) : option spec_float := try_of (get_double cfg path).
Definition try_bool (cfg : Config) (path : string) : option bool := try_of (get_bool cfg path).
Definition try_string (cfg : Config) (path : string) : option string := try_of (get_string cfg path).

(** [get_or<T>] for the four supported types. *)
Definition get_or {T} (as_T : Node -> option T) (cfg : Config) (path : string) (fallback : T) : T :=
  catch_all (get_scalar as_T cfg path) fallback.

(** Convert all elements or throw. *)
Fixpoint convert_all {T} (as_T : Node -> option T) (node : Node) (idx : list nat) : result (list T) :=
  match idx with
  | [] => Ok []
  | i :: rest =>
      let! v := convert as_T (node_at node i) in
      let! l := convert_all as_T node rest in Ok (v :: l)
  end.

Definition get_list {T} (as_T : Node -> option T) (cfg : Config) (path : string) : result (list T) :=
  match cfg with
  | None => Throw (conf_error Key_Not_Found)
  | Some root =>
      let! node := resolve root path in
      do! throw_if (negb (is_kind node Sequence)) (conf_error Type_Mismatch) then
      convert_all as_T node (seq 0 (node_size node))
  end.

Definition get_int_list : Config -> string -> result (list Z) := get_list node_int.
Definition get_double_list : Config -> string -> result (list spec_float) := get_list node_double.
Definition get_string_list : Config -> string -> result (list string) := get_list node_string.

(** ** Value *)

Definition Value : Type := option Node.

Definition root (cfg : Config) : result Value :=
  match cfg with None => Throw (conf_error Key_Not_Found) | Some r => Ok (Some r) end.

Definition at_path (cfg : Config) (path : string) : result Value :=
  match cfg with
  | None => Throw (conf_error Key_Not_Found)
  | Some r => let! n := resolve r path in Ok (Some n)
  end.

Definition kind (v : Value) : Node_Kind := match v with None => Undefined | Some n => node_type n end.

Definition is_defined (v : Value) : bool := negb (bool_decide (kind v = Undefined)).

Definition value_size (v : Value) : nat :=
  match v with
  | None => 0
  | Some n => if is_kind n Map || is_kind n Sequence then node_size n else 0
  end.

Definition value_index (v : Value) (index : nat) : Value :=
  match v with
  | None => None
  | Some n => if negb (is_kind n Sequence) || (node_size n <=? index)%nat then None else Some (node_at n index)
  end.

Definition value_key (v : Value) (key : string) : Value :=
  match v with
  | None => None
  | Some n =>
      if negb (is_kind n Map) then None
      else let child := node_key n key in if is_kind child Undefined then None else Some child
  end.

(** An unguarded [as<T>()]: the library's exception leaves the function. *)
Definition as_or_throw {T} (o : option T) : result T :=
  match o with Some v => Ok v | None => Throw runtime_error end.

Fixpoint collect {T} (l : list (option T)) : result (list T) :=
  match l with
  | [] => Ok []
  | o :: rest => let! v := as_or_throw o in let! vs := collect rest in Ok (v :: vs)
  end.

Definition keys (v : Value) : result (list string) :=
  match v with
  | None => Ok []
  | Some n => if negb (is_kind n Map) then Ok [] else collect (node_keys n)
  end.

Definition as_list {T} (as_T : Node -> option T) (v : Value) : result (list T) :=
  match v with
  | None => Ok []
  | Some n =>
      if negb (is_kind n Sequence) then Ok []
      else collect ((fun i => as_T (node_at n i)) <$> seq 0 (node_size n))
  end.

Definition as_double_list : Value -> result (list spec_float) := as_list node_double.
Definition as_string_list : Value -> result (list string) := as_list node_string.

Definition as_scalar {T} (as_T : Node -> option T) (v : Value) : result T :=
  match v with
  | None => Throw (conf_error Type_Mismatch)
  | Some n =>
      if negb (is_kind n Scalar) then Throw (conf_error Type_Mismatch)
      else match as_T n with Some x => Ok x | None => Throw (conf_error Type_Mismatch) end
  end.

Definition as_int : Value -> result Z := as_scalar node_int.
Definition as_double : Value -> result spec_float := as_scalar node_double.
Definition as_bool : Value -> result bool := as_scalar node_bool.
Definition as_string : Value -> result string := as_scalar node_string.

Definition value_try_int (v : Value) : option Z := try_of (as_int v).
Definition value_try_double (v : Value) : option spec_float := try_of (as_double v).
Definition value_try_bool (v : Value) : option bool := try_of (as_bool v).
Definition value_try_string (v : Value) : option string := try_of (as_string v).

Definition int_or (v : Value) (fallback : Z) : Z := default fallback (value_try_int v).
Definition double_or (v : Value) (fallback : spec_float) : spec_float := default fallback (value_try_double v).
Definition bool_or (v : Value) (fallback : bool) : bool := default fallback (value_try_bool v).
Definition string_or (v : Value) (fallback : string) : string := default fallback (value_try_string v).

(** ** Splitting a path *)

(** The segments joined by dots. *)
Fixpoint join (segs : list (list ascii)) : list ascii :=
  match segs with
  | [] => []
  | [s] => s
  | s :: rest => s ++ "."%char :: join rest
  end.

Definition dot_free (s : list ascii) : Prop := "."%char ∉ s.

Lemma find_dot_spec l : forall start,
  match find_dot l start with
  | Some d => start <= d < length l /\ l !! d = Some "."%char /\ dot_free (substr l start (d - start))
  | None => dot_free (drop start l)
  end.
Proof.
  unfold dot_free, substr. induction l as [|c l IH]; intros start; simpl.
  - destruct start; apply not_elem_of_nil.
  - destruct start as [|k].
    + destruct (Ascii.eqb_spec c ".") as [->|Hc].
      * split; [lia|]. split; [done|]. apply not_elem_of_nil.
      * specialize (IH 0). destruct (find_dot l 0) as [d|]; simpl in *.
        -- destruct IH as (H1 & H2 & H3). split; [lia|]. split; [done|].
           rewrite Nat.sub_0_r in H3. apply not_elem_of_cons. split; [by intros <-|done].
        -- rewrite drop_0 in IH. apply not_elem_of_cons. split; [by intros <-|done].
    + specialize (IH k). destruct (find_dot l k) as [d|]; simpl in *; [|done].
      destruct IH as (H1 & H2 & H3). split; [lia|]. split; [done|]. exact H3.
Qed.

Lemma split_loop_spec fuel : forall l start, start <= length l -> length l < fuel + start ->
  join (split_loop fuel l start) = drop start l /\ Forall dot_free (split_loop fuel l start) /\
  split_loop fuel l start <> [].
Proof.
  induction fuel as [|f IH]; intros l start Hs Hf; [lia|]. simpl.
  pose proof (find_dot_spec l start) as Hd. destruct (find_dot l start) as [d|].
  - destruct Hd as (Hr & Hdot & Hfree).
    assert (Hdrop : drop start l = substr l start (d - start) ++ "."%char :: drop (d + 1) l).
    { unfold substr. rewrite <- (take_drop (d - start) (drop start l)) at 1. f_equal.
      rewrite drop_drop. replace (start + (d - start)) with d by lia.
      rewrite (drop_S _ _ _ Hdot). f_equal. f_equal. lia. }
    destruct (Nat.eqb_spec (d + 1) (length l)) as [E|E].
    + split; [|split; [|done]].
      * simpl. rewrite Hdrop. f_equal. by rewrite E, drop_all.
      * constructor; [done|]. constructor; [apply not_elem_of_nil|constructor].
    + destruct (IH l (d + 1)) as (Hj & Hff & Hne); [lia|lia|].
      split; [|split; [by constructor|done]].
      rewrite Hdrop, <- Hj. simpl. by destruct (split_loop f l (d + 1)).
  - split; [|split; [|done]]; unfold substr; simpl;
      rewrite take_ge by (rewrite length_drop; lia); [done|by constructor].
Qed.

Lemma split_unique segs1 : forall segs2, segs1 <> [] -> segs2 <> [] ->
  Forall dot_free segs1 -> Forall dot_free segs2 -> join segs1 = join segs2 -> segs1 = segs2.
Proof.
  assert (Happ : forall s1 s2 r1 r2, dot_free s1 -> dot_free s2 ->
    s1 ++ "."%char :: r1 = s2 ++ "."%char :: r2 -> s1 = s2 /\ r1 = r2).
  { induction s1 as [|c s1 IHs]; intros [|c' s2] r1 r2 H1 H2; simpl.
    - by intros [= ->].
    - intros [= <- _]. exfalso. apply H2. by left.
    - intros [= -> _]. exfalso. apply H1. by left.
    - intros [= <- E]. apply not_elem_of_cons in H1 as [_ H1], H2 as [_ H2].
      destruct (IHs _ _ _ H1 H2 E) as [-> ->]. done. }
  assert (Hno : forall s r s', dot_free s' -> s ++ "."%char :: r <> s').
  { intros s r s' Hs <-. apply Hs, elem_of_app. right. by left. }
  induction segs1 as [|s1 [|t1 r1] IH]; intros [|s2 [|t2 r2]] N1 N2 F1 F2 E; try done;
    apply Forall_cons in F1 as [H1 F1], F2 as [H2 F2].
  - simpl in E. by subst.
  - exfalso. symmetry in E. by eapply (Hno s2 _ s1).
  - exfalso. by eapply (Hno s1 _ s2).
  - change (s1 ++ "."%char :: join (t1 :: r1) = s2 ++ "."%char :: join (t2 :: r2)) in E.
    apply Happ in E as [-> E]; [|done|done]. f_equal. by apply IH.
Qed.

Lemma split_join segs : segs <> [] -> Forall dot_free segs -> split_path (join segs) = segs.
Proof.
  intros Hn Hf. destruct (split_loop_spec (S (length (join segs))) (join segs) 0) as (Hj & Hs & Hne); [lia|lia|].
  by apply split_unique.
Qed.

Lemma join_split path : join (split_path path) = path /\ Forall dot_free (split_path path) /\ split_path path <> [].
Proof. apply (split_loop_spec (S (length path)) path 0); lia. Qed.

(** ** Outcomes *)

Lemma descend_outcome n seg : (exists c, descend n seg = Ok c) \/ descend n seg = Throw (conf_error Key_Not_Found).
Proof.
  unfold descend. destruct (is_kind n Map); [destruct (is_kind _ Undefined); eauto|].
  destruct (is_kind n Sequence); [|by right].
  destruct (negb _); [by right|]. destruct (from_chars seg); [|by right].
  destruct (_ <=? _)%Z; eauto.
Qed.

Lemma walk_outcome segs : forall n, (exists c, walk n segs = Ok c) \/ walk n segs = Throw (conf_error Key_Not_Found).
Proof.
  induction segs as [|s segs IH]; intros n; simpl; [eauto|].
  destruct (descend_outcome n s) as [[c ->]| ->]; simpl; [apply IH|by right].
Qed.

Lemma walk_app n s1 s2 : walk n (s1 ++ s2) = let! c := walk n s1 in walk c s2.
Proof.
  revert n. induction s1 as [|s s1 IH]; intros n; simpl; [done|].
  destruct (descend n s); simpl; [apply IH|done|done].
Qed.

Definition segments_ok (segs : list (list ascii)) : Prop :=
  segs <> [] /\ Forall (fun s => s <> [] /\ dot_free s) segs.

Lemma segments_ok_split path : (exists segs, segments_ok segs /\ path = join segs) <->
  path <> [] /\ existsb (fun s => bool_decide (s = [])) (split_path path) = false.
Proof.
  split.
  - intros (segs & [Hn Hf] & ->). rewrite split_join;
      [|done|eapply Forall_impl; [exact Hf|by intros ? [_ ?]]].
    split.
    + destruct segs as [|s [|t r]]; [done|inversion Hf as [|? ? [? _]]; by subst|].
      simpl. intros E. by apply app_nil in E as [_ ?].
    + apply not_true_is_false. intros (s & Hs & He)%existsb_exists.
      apply bool_decide_eq_true in He. subst s. rewrite Forall_forall in Hf.
      apply list_elem_of_In in Hs. by destruct (Hf [] Hs).
  - intros [Hn He]. destruct (join_split path) as (Hj & Hf & Hne). exists (split_path path).
    split; [|done]. split; [done|]. apply Forall_forall. intros s Hs. split.
    + intros ->. rewrite (proj2 (existsb_exists _ _)) in He; [done|]. exists [].
      split; [by apply list_elem_of_In|done].
    + rewrite Forall_forall in Hf. by apply Hf.
Qed.

Lemma resolve_eq root path segs : segments_ok segs -> list_ascii_of_string path = join segs ->
  resolve root path = walk (node_clone root) segs.
Proof.
  intros Hok E. unfold resolve. rewrite E.
  destruct (proj1 (segments_ok_split (join segs)) (ex_intro _ segs (conj Hok eq_refl))) as [H1 H2].
  rewrite bool_decide_false by done. simpl. rewrite H2. simpl. f_equal.
  destruct Hok as [Hn Hf]. apply split_join; [done|]. eapply Forall_impl; [exact Hf|by intros ? [_ ?]].
Qed.

Lemma resolve_outcome root path :
  (exists n, resolve root path = Ok n) \/ resolve root path = Throw (conf_error Invalid_Arg) \/
  resolve root path = Throw (conf_error Key_Not_Found).
Proof.
  unfold resolve, throw_if. destruct (bool_decide _); simpl; [by right; left|].
  destruct (existsb _ _); simpl; [by right; left|].
  destruct (walk_outcome (split_path (list_ascii_of_string path)) (node_clone root)) as [[c ->]| ->]; eauto.
Qed.
End Conf.

(** C12. Path resolution: a path that is one or more non-empty dot-free segments joined
    by dots is resolved by walking the segments one by one from a clone of the root,
    and fails only with [Key_Not_Found]; every other path (empty, or with a leading,
    trailing or doubled dot) is refused with [Invalid_Arg].  In particular a path
    [p.q] resolves to what [q] reaches from what [p] resolves to. *)
Theorem resolve_correct {Node} `{!YamlLib Node} (root : Node) path :
  (exists segs, segments_ok segs /\ list_ascii_of_string path = join segs /\
     resolve root path = walk (node_clone root) segs /\
     ((exists n, resolve root path = Ok n) \/ resolve root path = Throw (conf_error Key_Not_Found)) /\
     (forall s1 s2 p1, segs = s1 ++ s2 -> segments_ok s1 -> list_ascii_of_string p1 = join s1 ->
        resolve root path = let! n := resolve root p1 in walk n s2)) \/
  (~ (exists segs, segments_ok segs /\ list_ascii_of_string path = join segs) /\
   resolve root path = Throw (conf_error Invalid_Arg)).
Proof.
  destruct (bool_decide (list_ascii_of_string path = [])) eqn:E1;
    [|destruct (existsb (fun s => bool_decide (s = [])) (split_path (list_ascii_of_string path))) eqn:E2].
  - right. split; [|unfold resolve; by rewrite E1]. apply bool_decide_eq_true in E1.
    intros Hs%segments_ok_split. by destruct Hs.
  - right. split; [|unfold resolve; rewrite E1, E2; done].
    intros Hs%segments_ok_split. destruct Hs. congruence.
  - left. apply bool_decide_eq_false in E1.
    destruct (proj2 (segments_ok_split _) (conj E1 E2)) as (segs & Hok & Ej).
    exists segs. pose proof (resolve_eq root path segs Hok Ej) as Er. split; [done|]. split; [done|].
    split; [done|]. split.
    + rewrite Er. apply walk_outcome.
    + intros s1 s2 p1 -> Hok1 Ep1. rewrite Er, walk_app. by rewrite (resolve_eq root p1 s1).
Qed.

(** The accessors agree with one another on every document and path: a throwing
    getter fails only with [Invalid_Arg], [Key_Not_Found] or [Type_Mismatch]; the
    optional and defaulted getters answer exactly when it succeeds; it succeeds only
    on a scalar that [has] reports; going through [at] gives the same value; a list
    getter converts every element of a sequence of the reported size or fails. *)
Theorem accessors_agree {Node} `{!YamlLib Node} {T} (as_T : Node -> option T) (cfg : Config) path fallback :
  ((exists v, get_scalar as_T cfg path = Ok v /\ try_of (get_scalar as_T cfg path) = Some v /\
     get_or as_T cfg path fallback = v /\ has cfg path = true /\ conf_size cfg path = 0 /\
     is_map cfg path = false /\ is_sequence cfg path = false) \/
   (exists c, get_scalar as_T cfg path = Throw (conf_error c) /\ c ∈ [Invalid_Arg; Key_Not_Found; Type_Mismatch] /\
     try_of (get_scalar as_T cfg path) = None /\ get_or as_T cfg path fallback = fallback /\
     (has cfg path = true -> c = Type_Mismatch))) /\
  (let! v := at_path cfg path in as_scalar as_T v) = get_scalar as_T cfg path /\
  match get_list as_T cfg path with
  | Ok l => is_sequence cfg path = true /\ length l = conf_size cfg path
  | Throw (conf_error c) => c ∈ [Invalid_Arg; Key_Not_Found; Type_Mismatch]
  | _ => False
  end.
Proof.
  destruct cfg as [root|].
  2:{ split; [right; exists Key_Not_Found|]; simpl; (split; [done|]); set_solver. }
  unfold get_or, get_scalar, at_path, get_list, has, conf_size, is_map, is_sequence.
  destruct (resolve_outcome root path) as [[n ->]|[->| ->]]; simpl.
  2,3: split; [right; eexists; split; [done|]; split; [set_solver|]; done|]; split; [done|]; set_solver.
  assert (Hlist : match (do! throw_if (negb (is_kind n Sequence)) (conf_error Type_Mismatch) then
      convert_all as_T n (seq 0 (node_size n))) with
    | Ok l => is_kind n Sequence = true /\
        length l = (if is_kind n Map || is_kind n Sequence then node_size n else 0)
    | Throw (conf_error c) => c ∈ [Invalid_Arg; Key_Not_Found; Type_Mismatch] | _ => False end).
  { destruct (is_kind n Sequence); simpl; [|set_solver]. rewrite orb_true_r.
    assert (Hc : forall idx, match convert_all as_T n idx with Ok l => length l = length idx
      | Throw (conf_error c) => c ∈ [Invalid_Arg; Key_Not_Found; Type_Mismatch] | _ => False end).
    { induction idx as [|i idx IH]; simpl; [done|]. unfold convert.
      destruct (negb _); simpl; [set_solver|]. destruct (as_T _); simpl; [|set_solver].
      destruct (convert_all as_T n idx) as [l|[]|]; simpl; try done. by rewrite IH. }
    specialize (Hc (seq 0 (node_size n))). rewrite length_seq in Hc.
    by destruct (convert_all as_T n _). }
  split; [|split; [done|exact Hlist]].
  unfold convert. destruct (is_kind n Scalar) eqn:Es; simpl.
  2:{ right. exists Type_Mismatch. split; [done|]. split; [set_solver|]. done. }
  unfold is_kind in Es. apply bool_decide_eq_true in Es.
  destruct (as_T n) as [v|] eqn:Ev; simpl.
  - left. exists v. unfold is_kind. rewrite Es. done.
  - right. exists Type_Mismatch. split; [done|]. split; [set_solver|]. done.
Qed.

(** ** A concrete library for examples: trees of nodes, one document *)

Inductive Yaml : Type :=
| YUndefined | YNull | YScalar (text : string) | YSequence (l : list Yaml) | YMap (l : list (string * Yaml)).

(** A non-negative decimal integer. *)
Definition yaml_int (text : string) : option Z :=
  let l := list_ascii_of_string text in
  if negb (bool_decide (l = [])) && forallb is_digit l then from_chars l else None.

Fixpoint yaml_key (l : list (string * Yaml)) (key : string) : Yaml :=
  match l with
  | [] => YUndefined
  | (k, v) :: rest => if String.eqb k key then v else yaml_key rest key
  end.

Definition yaml_text (n : Yaml) : option string := match n with YScalar t => Some t | _ => None end.

(** The library that parses every text to [doc]. *)
Definition yaml_lib (doc : Yaml) : YamlLib Yaml := {|
  node_type n := match n with YUndefined => Undefined | YNull => Null | YScalar _ => Scalar
    | YSequence _ => Sequence | YMap _ => Map end;
  node_size n := match n with YSequence l => length l | YMap l => length l | _ => 0 end;
  node_at n i := match n with YSequence l => nth i l YUndefined | _ => YUndefined end;
  node_key n k := match n with YMap l => yaml_key l k | _ => YUndefined end;
  node_keys n := match n with YMap l => (fun x => Some (fst x)) <$> l | _ => [] end;
  node_clone n := n;
  node_int n := match n with YScalar t => yaml_int t | _ => None end;
  node_double _ := None;
  node_bool n := match n with YScalar t => if String.eqb t "true" then Some true else
    if String.eqb t "false" then Some false else None | _ => None end;
  node_string := yaml_text;
  load _ := Some doc;
  read_file _ := Some ""%string
|}.

Definition demo_doc : Yaml :=
  YMap [("a"%string, YSequence [YScalar "7"; YMap [("b"%string, YScalar "12")]]); ("s"%string, YScalar "text")].

Example resolve_demo :
  let H := yaml_lib demo_doc in
  get_int (Some demo_doc) "a.1.b" = Ok 12%Z /\ get_int (Some demo_doc) "a.2" = Throw (conf_error Key_Not_Found) /\
  get_int (Some demo_doc) "a..b" = Throw (conf_error Invalid_Arg) /\
  get_int (Some demo_doc) "s" = Throw (conf_error Type_Mismatch) /\ get_int (Some demo_doc) "a.0" = Ok 7%Z.
Proof. vm_compute. done. Qed.
