(* ===== verification/ConfCApi.v ===== *)
(** * CONF: the C interface ([conf/src/fortran/conf_c_interop.cpp],
    [conf/src/fortran/handle_registry.hpp])

    A function returns its status, what it stored through its output pointer (if it
    stored anything) and the new registry.  A text argument is [None] for a null
    pointer; its length is an argument of its own.  Output pointers are addresses
    with 0 the null pointer. *)
From Stdlib Require Import ZArith Lia SpecFloat Ascii String.
From stdpp Require Import base list numbers gmap sets relations strings.
From S2P Require Import Prelude CInt CType Conf.
Local Open Scope Z_scope.

Definition CONF_HANDLE_INVALID : Z := 0.

Section Api.
Context {Node : Type} `{!YamlLib Node}.

(** ** The registry of configurations *)

Record Handle_Registry : Type := mkHandles { handles_ : gmap Z (@Config Node); next_token_ : Z }.

Definition empty_handles : Handle_Registry := mkHandles ∅ 1.

Definition register_handle (r : Handle_Registry) (ptr : @Config Node) : result (Z * Handle_Registry) :=
  let token := next_token_ r in
  let! next := arith I32 (token + 1) in
  Ok (token, mkHandles (<[token := ptr]> (handles_ r)) next).

Definition lookup_handle (r : Handle_Registry) (token : Z) : option (@Config Node) := handles_ r !! token.

Definition release_handle (r : Handle_Registry) (token : Z) : option (@Config Node) * Handle_Registry :=
  match handles_ r !! token with
  | None => (None, r)
  | Some ptr => (Some ptr, mkHandles (delete token (handles_ r)) (next_token_ r))
  end.

Definition handle_valid (r : Handle_Registry) (token : Z) : bool := bool_decide (is_Some (handles_ r !! token)).

Definition lookup_config (r : Handle_Registry) (handle : Z) : option (@Config Node) :=
  if handle =? CONF_HANDLE_INVALID then None else lookup_handle r handle.

(** ** The exception barrier *)

(** A successful body yields what it stored; the other outcomes store nothing. *)
Definition conf_c_try {S A} (body : result (Z * option A * S)) (s : S) : result (Z * option A * S) :=
  match body with
  | Throw (conf_error c) => Ok (c, None, s)
  | Throw invalid_argument => Ok (Invalid_Arg, None, s)
  | Throw _ => Ok (Error_Unknown, None, s)
  | _ => body
  end.

(** [std::string k(key, key_len)] *)
Definition c_string (key : string) (key_len : Z) : result string :=
  if Z.of_nat (String.length key) <? key_len then Undef else Ok (String.substring 0 (Z.to_nat key_len) key).

(** ** The functions *)

Definition load_with (loader : string -> result (@Config Node)) (r : Handle_Registry) (text : option string)
    (text_len handle_out : Z) : result (Z * option Z * Handle_Registry) :=
  match text with
  | None => Ok (Invalid_Arg, None, r)
  | Some t =>
      if (handle_out =? 0) || (text_len <? 1) then Ok (Invalid_Arg, None, r)
      else conf_c_try
        (let! p := c_string t text_len in
         let! cfg := loader p in
         let! '(token, r') := register_handle r cfg in
         Ok (Error_Success, Some token, r')) r
  end.

Definition conf_load_c : Handle_Registry -> option string -> Z -> Z -> result (Z * option Z * Handle_Registry) :=
  load_with from_file.
Definition conf_load_string_c : Handle_Registry -> option string -> Z -> Z -> result (Z * option Z * Handle_Registry) :=
  load_with from_string.

Definition conf_close_c (r : Handle_Registry) (handle : Z) : Z * Handle_Registry :=
  if handle =? CONF_HANDLE_INVALID then (Bad_Handle, r)
  else
    match release_handle r handle with
    | (None, r') => (Bad_Handle, r')
    | (Some _, r') => (Error_Success, r')
    end.

(** The checks shared by the getters, then the body under the barrier. *)
Definition getter {A} (body : @Config Node -> string -> result A) (r : Handle_Registry) (handle : Z)
    (key : option string) (key_len out : Z) : result (Z * option A) :=
  match key with
  | None => Ok (Invalid_Arg, None)
  | Some k =>
      if (out =? 0) || (key_len <? 1) then Ok (Invalid_Arg, None)
      else
        match lookup_config r handle with
        | None => Ok (Bad_Handle, None)
        | Some cfg =>
            let! '(rc, o, _) := conf_c_try
              (let! k := c_string k key_len in
               let! v := body cfg k in Ok (Error_Success, Some v, tt)) tt in
            Ok (rc, o)
        end
  end.

Definition conf_has_key_c := getter (fun cfg k => Ok (if has cfg k then 1 else 0)).
Definition conf_size_c := getter (fun cfg k => Ok (to_i32 (Z.of_nat (conf_size cfg k)))).
Definition conf_get_int_c := getter get_int.
Definition conf_get_double_c := getter get_double.
Definition conf_get_bool_c := getter (fun cfg k => let! b := get_bool cfg k in Ok (if b : bool then 1 else 0)).
Definition conf_get_string_len_c :=
  getter (fun cfg k => let! v := get_string cfg k in Ok (to_i32 (Z.of_nat (String.length v)))).

(** The stores: the bytes copied to the buffer and [*written_out]. *)
Definition conf_get_string_c (r : Handle_Registry) (handle : Z) (key : option string) (key_len buf buf_cap written_out : Z)
  : result (Z * option (string * Z)) :=
  match key with
  | None => Ok (Invalid_Arg, None)
  | Some k =>
      if (written_out =? 0) || (key_len <? 1) then Ok (Invalid_Arg, None)
      else if buf =? 0 then Ok (Invalid_Arg, None)
      else
        match lookup_config r handle with
        | None => Ok (Bad_Handle, None)
        | Some cfg =>
            let! '(rc, o, _) := conf_c_try
              (let! k := c_string k key_len in
               let! v := get_string cfg k in
               let need := to_i32 (Z.of_nat (String.length v)) in
               if buf_cap <? need then Ok (Buffer_Too_Small, None, tt)
               else Ok (Error_Success, Some (if 0 <? need then v else ""%string, need), tt)) tt in
            Ok (rc, o)
        end
  end.

(** ** Handles are never reused *)

Definition handles_ok (r : Handle_Registry) : Prop :=
  1 <= next_token_ r /\ forall t, is_Some (handles_ r !! t) -> 1 <= t < next_token_ r.

(** The calls that change the registry. *)
Inductive registry_call : Handle_Registry -> Handle_Registry -> Prop :=
| c_load text len out r rc o r' : conf_load_c r text len out = Ok (rc, o, r') -> registry_call r r'
| c_load_string text len out r rc o r' : conf_load_string_c r text len out = Ok (rc, o, r') -> registry_call r r'
| c_close handle r : registry_call r (conf_close_c r handle).2.

Lemma load_step loader r text len out rc o r' : handles_ok r -> load_with loader r text len out = Ok (rc, o, r') ->
  handles_ok r' /\ next_token_ r <= next_token_ r' /\
  match o with
  | Some t => rc = Error_Success /\ t = next_token_ r /\ exists cfg, handles_ r' = <[t := cfg]> (handles_ r)
  | None => r' = r
  end.
Proof.
  intros [Hn Ht]. unfold load_with. destruct text as [t|]; [|by intros [= <- <- <-]].
  destruct (_ || _); [by intros [= <- <- <-]|]. unfold conf_c_try.
  destruct (c_string t len) as [p|e|]; simpl; [|destruct e; by intros [= <- <- <-]|done].
  destruct (loader p) as [cfg|e|]; simpl; [|destruct e; by intros [= <- <- <-]|done].
  unfold register_handle, arith. destruct (in_range I32 (next_token_ r + 1)); simpl; [|done].
  intros [= <- <- <-]. split; [|split; [simpl; lia|by eauto]].
  split; simpl; [lia|]. intros x [c Hx].
  destruct (decide (x = next_token_ r)) as [->|Hne]; [lia|].
  rewrite lookup_insert_ne in Hx by done. specialize (Ht x ltac:(by eexists)). lia.
Qed.

Lemma call_ok r r' : registry_call r r' -> handles_ok r ->
  handles_ok r' /\ next_token_ r <= next_token_ r' /\
  forall t, 1 <= t < next_token_ r -> handles_ r !! t = None -> handles_ r' !! t = None.
Proof.
  assert (Hload : forall loader r text len out rc o r', handles_ok r ->
    load_with loader r text len out = Ok (rc, o, r') ->
    handles_ok r' /\ next_token_ r <= next_token_ r' /\
    forall t, 1 <= t < next_token_ r -> handles_ r !! t = None -> handles_ r' !! t = None).
  { intros loader r1 text len out rc o r2 Hok E.
    destruct (load_step _ _ _ _ _ _ _ _ Hok E) as (H1 & H2 & H3). split; [done|]. split; [done|].
    intros t Ht Hno. destruct o as [t'|]; [|by subst].
    destruct H3 as (_ & -> & cfg & ->). rewrite lookup_insert_ne by lia. done. }
  intros H Hok. destruct H as [text len out r rc o r' E|text len out r rc o r' E|handle r].
  - by eapply Hload.
  - by eapply Hload.
  - unfold conf_close_c, release_handle. destruct (_ =? _); [split; [done|split; [simpl; lia|done]]|].
    destruct (handles_ r !! handle) as [cfg|] eqn:E; simpl; [|split; [done|split; [lia|done]]].
    destruct Hok as [Hn Ht]. split; [|split; [lia|]].
    + split; simpl; [done|]. intros t [c Hc]. apply lookup_delete_Some in Hc as [_ Hc]. apply Ht. by eexists.
    + intros t _ Hno. apply lookup_delete_None. by right.
Qed.

Lemma calls_ok r r' : rtc registry_call r r' -> handles_ok r ->
  handles_ok r' /\ next_token_ r <= next_token_ r' /\
  forall t, 1 <= t < next_token_ r -> handles_ r !! t = None -> handles_ r' !! t = None.
Proof.
  induction 1 as [r|r1 r2 r3 H _ IH]; intros Hok; [split; [done|split; [lia|done]]|].
  destruct (call_ok _ _ H Hok) as (H1 & H2 & H3). destruct (IH H1) as (H4 & H5 & H6).
  split; [done|]. split; [lia|]. intros t Ht Hno. apply H6; [lia|by apply H3].
Qed.

Lemma closed_handle {A} (body : @Config Node -> string -> result A) r handle key key_len out :
  handles_ r !! handle = None -> key_len >= 1 -> out <> 0 ->
  getter body r handle (Some key) key_len out = Ok (Bad_Handle, None).
Proof.
  intros Hno Hk Ho. unfold getter. destruct (Z.eqb_spec out 0); [done|].
  destruct (Z.ltb_spec key_len 1); [lia|]. simpl. unfold lookup_config, lookup_handle.
  destruct (_ =? _); [done|]. by rewrite Hno.
Qed.
End Api.

(** A handle is dead for ever once closed: after [conf_close_c] succeeds and
    whatever loads and closes follow, every getter and a second close report
    [Bad_Handle], nothing is stored, and no later load returns that handle. *)
Theorem closed_handles_stay_closed {Node} `{!YamlLib Node} (r r1 r2 : @Handle_Registry Node) handle :
  rtc registry_call empty_handles r -> conf_close_c r handle = (Error_Success, r1) -> rtc registry_call r1 r2 ->
  (forall A (body : Config -> string -> result A) key key_len out, key_len >= 1 -> out <> 0 ->
     getter body r2 handle (Some key) key_len out = Ok (Bad_Handle, None)) /\
  conf_close_c r2 handle = (Bad_Handle, r2) /\
  (forall text len out rc o r3, conf_load_c r2 text len out = Ok (rc, o, r3) \/
     conf_load_string_c r2 text len out = Ok (rc, o, r3) -> o <> Some handle).
Proof.
  intros Hr Hc Hr2.
  assert (H0 : handles_ok (@empty_handles Node)) by (split; [done|intros t [c Hx]; done]).
  destruct (calls_ok _ _ Hr H0) as (Hok & _ & _).
  assert (Hold : 1 <= handle < next_token_ r1 /\ handles_ r1 !! handle = None /\ handles_ok r1).
  { pose proof (call_ok r _ (c_close handle r) Hok) as (Hok1 & _ & _). rewrite Hc in Hok1. simpl in Hok1.
    unfold conf_close_c, release_handle in Hc. destruct (_ =? _); [done|].
    destruct (handles_ r !! handle) as [cfg|] eqn:E; [|done]. injection Hc as <-. simpl.
    split; [apply (proj2 Hok); by eexists|]. split; [|done]. apply lookup_delete_None. by left. }
  destruct Hold as (Hrange & Hno & Hok1). destruct (calls_ok _ _ Hr2 Hok1) as (Hok2 & Hle & Hdead).
  pose proof (Hdead handle Hrange Hno) as Hno2. split; [|split].
  - intros A body key key_len out Hk Ho. by apply closed_handle.
  - unfold conf_close_c, release_handle. rewrite Hno2. by destruct (_ =? _).
  - intros text len out rc o r3 Hl ->.
    assert (Ht : handle = next_token_ r2); [|lia].
    destruct Hl as [Hl|Hl]; by destruct (load_step _ _ _ _ _ _ _ _ Hok2 Hl) as (_ & _ & _ & ? & _).
Qed.

(** The two-call string protocol on a live handle: the length call reports the
    length of the value; a buffer of at least that capacity then receives exactly the
    value and a smaller one is refused with [Buffer_Too_Small]; a missing key or a
    non-scalar value gives both calls the same error code; whenever a call does not
    return [Success] it stores nothing. *)
Theorem string_protocol {Node} `{!YamlLib Node} (r : @Handle_Registry Node) handle cfg key buf len_out written_out :
  lookup_config r handle = Some cfg -> buf <> 0 -> len_out <> 0 -> written_out <> 0 -> key <> ""%string ->
  let key_len := Z.of_nat (String.length key) in
  match get_string cfg key with
  | Ok v => Z.of_nat (String.length v) < 2147483648 ->
      let n := Z.of_nat (String.length v) in
      conf_get_string_len_c r handle (Some key) key_len len_out = Ok (Error_Success, Some n) /\
      (forall cap, n <= cap ->
         conf_get_string_c r handle (Some key) key_len buf cap written_out = Ok (Error_Success, Some (v, n))) /\
      (forall cap, cap < n ->
         conf_get_string_c r handle (Some key) key_len buf cap written_out = Ok (Buffer_Too_Small, None))
  | _ => exists c, c ∈ [Invalid_Arg; Key_Not_Found; Type_Mismatch] /\
      conf_get_string_len_c r handle (Some key) key_len len_out = Ok (c, None) /\
      (forall cap, conf_get_string_c r handle (Some key) key_len buf cap written_out = Ok (c, None))
  end.
Proof.
  intros Hl Hb Hlo Hw Hk key_len.
  assert (Hlen : 1 <= key_len) by (unfold key_len; destruct key; [done|simpl; lia]).
  assert (Hs : c_string key key_len = Ok key).
  { unfold c_string. rewrite Z.ltb_irrefl. f_equal. unfold key_len. rewrite Nat2Z.id. by apply substring_all. }
  unfold conf_get_string_len_c, conf_get_string_c, getter. rewrite Hl, Hs.
  destruct (Z.eqb_spec len_out 0), (Z.eqb_spec written_out 0), (Z.ltb_spec key_len 1), (Z.eqb_spec buf 0);
    try done; try lia. simpl.
  assert (Hout : (exists v, get_string cfg key = Ok v) \/
    exists c, get_string cfg key = Throw (conf_error c) /\ c ∈ [Invalid_Arg; Key_Not_Found; Type_Mismatch]).
  { unfold get_string, get_scalar. destruct cfg as [root|]; [|right; eexists; split; [done|set_solver]].
    destruct (resolve_outcome root key) as [[nd ->]|[->| ->]]; simpl; [|right; eexists; split; [done|set_solver]..].
    unfold convert. destruct (negb _); [right; eexists; split; [done|set_solver]|].
    destruct (node_string nd); [by left; eexists|right; eexists; split; [done|set_solver]]. }
  destruct Hout as [[v ->]|(c & -> & Hc)]; simpl.
  - intros Hv. assert (E : to_i32 (Z.of_nat (String.length v)) = Z.of_nat (String.length v)).
    { unfold to_i32. rewrite Z.mod_small by lia. lia. }
    rewrite E. split; [done|]. split.
    + intros cap Hcap. destruct (Z.ltb_spec cap (Z.of_nat (String.length v))); [lia|]. simpl.
      destruct (Z.ltb_spec 0 (Z.of_nat (String.length v))); [done|].
      destruct v; [done|simpl in *; lia].
    + intros cap Hcap. destruct (Z.ltb_spec cap (Z.of_nat (String.length v))); [done|lia].
  - exists c. done.
Qed.

#[local] Instance demo_yaml : YamlLib Yaml := yaml_lib demo_doc.

Definition demo_handles : @Handle_Registry Yaml :=
  match conf_load_string_c empty_handles (Some "a: 1"%string) 4 64 with Ok (_, _, r) => r | _ => empty_handles end.

Example closed_handles_stay_closed_witness :
  let r1 := (conf_close_c demo_handles 1).2 in
  conf_get_int_c r1 1 (Some "a.0"%string) 3 64 = Ok (Bad_Handle, None).
Proof.
  refine (proj1 (closed_handles_stay_closed demo_handles (conf_close_c demo_handles 1).2
    (conf_close_c demo_handles 1).2 1 _ _ (rtc_refl _ _)) Z get_int _ _ _ _ _).
  - apply rtc_once. eapply (c_load_string (Some "a: 1"%string) 4 64). reflexivity.
  - reflexivity.
  - lia.
  - done.
Defined.

Example string_protocol_witness :
  conf_get_string_len_c demo_handles 1 (Some "s"%string) 1 64 = Ok (Error_Success, Some 4) /\
  (forall cap, 4 <= cap -> conf_get_string_c demo_handles 1 (Some "s"%string) 1 32 cap 64 =
     Ok (Error_Success, Some ("text"%string, 4))) /\
  (forall cap, cap < 4 -> conf_get_string_c demo_handles 1 (Some "s"%string) 1 32 cap 64 = Ok (Buffer_Too_Small, None)).
Proof.
  exact (string_protocol demo_handles 1 (Some demo_doc) "s"%string 32 64 64 eq_refl
    ltac:(done) ltac:(done) ltac:(done) ltac:(done) eq_refl).
Defined.
