(* ===== verification/Pipeline.v ===== *)
(** * DAGR: the pipeline parser ([dagr/src/parse_pipeline.cpp])

    Log calls and the texts of exceptions are left out; [std::to_string] of an index is
    the decimal printer [pretty]. *)
From Stdlib Require Import ZArith Lia Ascii String.
From stdpp Require Import base list numbers gmap sets strings pretty relations.
From S2P Require Import Prelude CInt CType TimeCore Kahn PipelineConfig Conf.
Local Open Scope string_scope.

(** ** Field parsers *)

(** The digit loop; [None] at a character that is not a digit. *)
Fixpoint parse_seconds (value : Z) (l : list ascii) : result (option Z) :=
  match l with
  | [] => Ok (Some value)
  | c :: rest =>
      if negb (is_digit c) then Ok None
      else let! v := (value * 10%Z + digit_value c)%i64 in parse_seconds v rest
  end.

Definition strip_suffix (sv : list ascii) : list ascii :=
  match last sv with
  | Some c => if Ascii.eqb c "s" || Ascii.eqb c "S" then removelast sv else sv
  | None => sv
  end.

(** The sign and the digits after it. *)
Definition split_sign (sv : list ascii) : bool * list ascii :=
  match sv with
  | c :: rest => if Ascii.eqb c "-" then (true, rest) else if Ascii.eqb c "+" then (false, rest) else (false, sv)
  | [] => (false, sv)
  end.

Definition parse_snapshot_interval (raw : string) : result Duration :=
  let sv := strip_suffix (list_ascii_of_string raw) in
  let '(negative, body) := split_sign sv in
  if bool_decide (body = []) then Ok (mkDuration 0)
  else
    let! o := parse_seconds 0 body in
    match o with
    | None => Ok (mkDuration 0)
    | Some value => let! v := (if negative then (- value)%i64 else Ok value) in seconds v
    end.

Definition parse_temporal_profile (str : string) : option Temporal_Profile :=
  if String.eqb str "linear" then Some linear else if String.eqb str "step" then Some step else None.

Definition parse_oob_policy (str : string) : option OutOfBounds_Policy :=
  if String.eqb str "clamp" then Some clamp else if String.eqb str "cycle" then Some cycle else None.

(** ** The parser *)

Section Parser.
Context {Node : Type} `{!YamlLib Node}.

Definition require {A} (o : option A) (e : exn) : result A := match o with Some a => Ok a | None => Throw e end.

(** [static_cast<std::uint32_t>(cfg.get_int(path))] when the key is present. *)
Definition setting (cfg : @Config Node) (path : string) (value : Z) : result Z :=
  if has cfg path then let! z := get_int cfg path in Ok (to_u32 z) else Ok value.

(** The path of a field of the [i]-th element. *)
Definition field (key : string) (i : nat) (name : string) : string :=
  key ++ "." ++ pretty i ++ "." ++ name.

Definition require_field (cfg : @Config Node) (path : string) : result unit :=
  throw_if (negb (has cfg path)) invalid_argument.

(** One turn of the stream loop. *)
Definition parse_stream (cfg : @Config Node) (seen_names : gset string) (i : nat) : result Stream_Descriptor :=
  let f := field "streams" i in
  do! require_field cfg (f "name") then
  let! name := get_string cfg (f "name") in
  do! throw_if (bool_decide (name ∈ seen_names)) invalid_argument then
  do! require_field cfg (f "temporal_profile") then
  do! require_field cfg (f "out_of_bounds_policy") then
  do! require_field cfg (f "dataset_path") then
  do! require_field cfg (f "snapshot_interval") then
  let! tp_str := get_string cfg (f "temporal_profile") in
  let! tp := require (parse_temporal_profile tp_str) invalid_argument in
  let! oob_str := get_string cfg (f "out_of_bounds_policy") in
  let! oob := require (parse_oob_policy oob_str) invalid_argument in
  let! ds_path := get_string cfg (f "dataset_path") in
  do! throw_if (bool_decide (ds_path = "")) invalid_argument then
  let! interval_str := get_string cfg (f "snapshot_interval") in
  let! interval := parse_snapshot_interval interval_str in
  do! throw_if (dur_nanos interval <=? 0)%Z invalid_argument then
  Ok (mkStream name tp oob ds_path interval).

Fixpoint parse_streams (cfg : @Config Node) (idx : list nat) (seen_names : gset string)
    : result (list Stream_Descriptor) :=
  match idx with
  | [] => Ok []
  | i :: rest =>
      let! s := parse_stream cfg seen_names i in
      let! l := parse_streams cfg rest ({[stream_name s]} ∪ seen_names) in
      Ok (s :: l)
  end.

(** The index of a name and the names in order; an index is stored as 32 bits. *)
Fixpoint parse_tasks (cfg : @Config Node) (idx : list nat) (task_index : gmap string nat) (task_names : list string)
    : result (gmap string nat * list string) :=
  match idx with
  | [] => Ok (task_index, task_names)
  | i :: rest =>
      let! task_name := get_string cfg (field "tasks" i "name") in
      parse_tasks cfg rest (<[task_name := Z.to_nat (to_u32 (Z.of_nat i))]> task_index)
        (app task_names [task_name])
  end.

Definition parse_dependency (cfg : @Config Node) (task_index : gmap string nat) (i : nat) : result Dependency_Edge :=
  let! from_name := get_string cfg (field "dependencies" i "from") in
  let! to_name := get_string cfg (field "dependencies" i "to") in
  let! producer_id := require (task_index !! from_name) invalid_argument in
  let! consumer_id := require (task_index !! to_name) invalid_argument in
  Ok (mkEdge producer_id consumer_id).

(** The edges in order with the in-degrees and adjacency lists built on the way. *)
Fixpoint parse_dependencies (cfg : @Config Node) (task_index : gmap string nat) (idx : list nat)
    (edges : list Dependency_Edge) (g : list Z * list (list nat))
    : result (list Dependency_Edge * (list Z * list (list nat))) :=
  match idx with
  | [] => Ok (edges, g)
  | i :: rest =>
      let! edge := parse_dependency cfg task_index i in
      parse_dependencies cfg task_index rest (app edges [edge]) (add_edge g edge)
  end.

(** The topological sort; counts are 32-bit. *)
Definition check_cycles (task_count : nat) (g : list Z * list (list nat)) : result unit :=
  if (0 <? task_count)%nat then
    let count := Z.to_nat (to_u32 (Z.of_nat task_count)) in
    match kahn_loop task_count (snd g) (fst g) (initial_queue count (fst g)) 0 with
    | Some sorted_count => throw_if (negb (to_u32 (Z.of_nat sorted_count) =? Z.of_nat count)%Z) invalid_argument
    | None => Undef
    end
  else Ok tt.

Definition parse_config (cfg : @Config Node) : result Pipeline_Config :=
  let! max_concurrency := setting cfg "settings.max_concurrency" (max_concurrency default_config) in
  let! deadlock_timeout := setting cfg "settings.deadlock_timeout" (deadlock_timeout_s default_config) in
  let! shutdown_timeout := setting cfg "settings.shutdown_timeout" (shutdown_timeout_s default_config) in
  let! streams := parse_streams cfg (seq 0 (conf_size cfg "streams")) ∅ in
  let task_count := conf_size cfg "tasks" in
  let! '(task_index, task_names) := parse_tasks cfg (seq 0 task_count) ∅ [] in
  let! '(edges, g) := parse_dependencies cfg task_index (seq 0 (conf_size cfg "dependencies")) []
    (replicate task_count 0%Z, replicate task_count []) in
  do! check_cycles task_count g then
  Ok (mkPipeline streams task_names edges max_concurrency deadlock_timeout shutdown_timeout).

Definition parse_pipeline (yaml_path : string) : result Pipeline_Config :=
  let! cfg := from_file yaml_path in parse_config cfg.

(** ** What a document describes *)

Definition setting_is (cfg : @Config Node) (path : string) (value v : Z) : Prop :=
  if has cfg path then exists z, get_int cfg path = Ok z /\ v = to_u32 z else v = value.

Definition stream_is (cfg : @Config Node) (i : nat) (s : Stream_Descriptor) : Prop :=
  let f := field "streams" i in
  get_string cfg (f "name") = Ok (stream_name s) /\
  (exists t, get_string cfg (f "temporal_profile") = Ok t /\ parse_temporal_profile t = Some (temporal_profile s)) /\
  (exists t, get_string cfg (f "out_of_bounds_policy") = Ok t /\ parse_oob_policy t = Some (oob_policy s)) /\
  get_string cfg (f "dataset_path") = Ok (dataset_path s) /\ dataset_path s <> "" /\
  (exists t, get_string cfg (f "snapshot_interval") = Ok t /\
     parse_snapshot_interval t = Ok (snapshot_interval s) /\ (0 < dur_nanos (snapshot_interval s))%Z).

(** The last task of a name. *)
Definition last_index (names : list string) (name : string) (k : nat) : Prop :=
  names !! k = Some name /\ forall j, k < j -> names !! j <> Some name.

Definition edge_is (cfg : @Config Node) (names : list string) (i : nat) (e : Dependency_Edge) : Prop :=
  exists from_name to_name,
    get_string cfg (field "dependencies" i "from") = Ok from_name /\
    get_string cfg (field "dependencies" i "to") = Ok to_name /\
    last_index names from_name (producer_id e) /\ last_index names to_name (consumer_id e).

Record describes (cfg : @Config Node) (p : Pipeline_Config) : Prop := {
  d_concurrency : setting_is cfg "settings.max_concurrency" 64 (max_concurrency p);
  d_deadlock : setting_is cfg "settings.deadlock_timeout" 30 (deadlock_timeout_s p);
  d_shutdown : setting_is cfg "settings.shutdown_timeout" 30 (shutdown_timeout_s p);
  d_streams : Forall2 (stream_is cfg) (seq 0 (conf_size cfg "streams")) (streams p);
  d_distinct : NoDup (stream_name <$> streams p);
  d_tasks : Forall2 (fun i n => get_string cfg (field "tasks" i "name") = Ok n)
              (seq 0 (conf_size cfg "tasks")) (task_names p);
  d_edges : Forall2 (edge_is cfg (task_names p)) (seq 0 (conf_size cfg "dependencies")) (edges p);
  d_acyclic : acyclic (edges p)
}.

(** ** Outcomes: a value, a rejection, or [Undef] only if [U] *)

Definition refuses {A} (U : Prop) (m : result A) : Prop :=
  match m with
  | Ok _ | Throw invalid_argument | Throw (conf_error _) => True
  | Throw _ => False
  | Undef => U
  end.

Lemma refuses_bind {A B} U (m : result A) (k : A -> result B) :
  refuses U m -> (forall a, m = Ok a -> refuses U (k a)) -> refuses U (bind m k).
Proof. destruct m as [a|e|]; simpl; auto. Qed.

Lemma refuses_throw_if U b : refuses U (throw_if b invalid_argument).
Proof. by destruct b. Qed.

Lemma refuses_require {A} U (o : option A) : refuses U (require o invalid_argument).
Proof. by destruct o. Qed.

Lemma get_scalar_refuses {T} U (as_T : Node -> option T) cfg path : refuses U (get_scalar as_T cfg path).
Proof.
  destruct cfg as [root|]; [|done]. unfold get_scalar.
  destruct (resolve_outcome root path) as [[n ->]|[->| ->]]; simpl; try done.
  unfold convert. destruct (negb _); [done|]. by destruct (as_T n).
Qed.

Lemma get_scalar_has {T} (as_T : Node -> option T) cfg path v : get_scalar as_T cfg path = Ok v -> has cfg path = true.
Proof. destruct cfg as [root|]; [|done]. simpl. by destruct (resolve root path). Qed.

Lemma require_Ok {A} (o : option A) e a : require o e = Ok a <-> o = Some a.
Proof. destruct o; simpl; split; congruence. Qed.

(** ** Settings and streams *)

Lemma setting_ok cfg path value v : setting cfg path value = Ok v <-> setting_is cfg path value v.
Proof.
  unfold setting, setting_is. destruct (has cfg path); [|split; congruence].
  destruct (get_int cfg path) as [z| |]; simpl; split; try done; [|by intros (? & [= ->] & ->)|by intros (? & ? & _)..].
  intros [= <-]. eauto.
Qed.

Lemma setting_refuses U cfg path value : refuses U (setting cfg path value).
Proof. unfold setting. destruct (has _ _); [|done]. apply refuses_bind; [apply get_scalar_refuses|done]. Qed.

Lemma parse_stream_ok cfg seen i s :
  parse_stream cfg seen i = Ok s <-> stream_is cfg i s /\ stream_name s ∉ seen.
Proof.
  unfold parse_stream, stream_is, require_field. split.
  - intros H. inv_ok H. repeat match goal with
      | E : throw_if _ _ = Ok _ |- _ => apply throw_if_Ok in E
      | E : require _ _ = Ok _ |- _ => apply require_Ok in E end.
    subst s; simpl. match goal with E : (_ <=? _)%Z = false |- _ => apply Z.leb_gt in E end.
    repeat match goal with E : bool_decide _ = false |- _ => apply bool_decide_eq_false in E end.
    repeat split; eauto.
  - intros ((Hn & (t1 & Ht1 & E1) & (t2 & Ht2 & E2) & Hd & Hne & t3 & Ht3 & E3 & Hpos) & Hs).
    rewrite (get_scalar_has _ _ _ _ Hn), (get_scalar_has _ _ _ _ Ht1), (get_scalar_has _ _ _ _ Ht2),
      (get_scalar_has _ _ _ _ Hd), (get_scalar_has _ _ _ _ Ht3). simpl.
    rewrite Hn. simpl. rewrite bool_decide_false by done. simpl.
    rewrite Ht1. simpl. rewrite E1. simpl. rewrite Ht2. simpl. rewrite E2. simpl.
    rewrite Hd. simpl. rewrite bool_decide_false by done. simpl.
    rewrite Ht3. simpl. rewrite E3. simpl.
    destruct (Z.leb_spec (dur_nanos (snapshot_interval s)) 0); [lia|]. by destruct s.
Qed.

Lemma parse_stream_refuses cfg seen i :
  refuses (exists t, get_string cfg (field "streams" i "snapshot_interval") = Ok t /\
             parse_snapshot_interval t = Undef) (parse_stream cfg seen i).
Proof.
  unfold parse_stream, require_field. repeat match goal with
    | |- refuses _ (throw_if _ _) => apply refuses_throw_if
    | |- refuses _ (require _ _) => apply refuses_require
    | |- refuses _ (get_string _ _) => apply get_scalar_refuses
    | |- refuses _ (Ok _) => exact I
    | |- refuses _ (bind _ _) => apply refuses_bind; [|intros ? ?]
    end.
  match goal with |- refuses _ (parse_snapshot_interval ?t) =>
    destruct (parse_snapshot_interval t) as [d|e|] eqn:E end; simpl; [done| |by eauto].
  exfalso. revert E. unfold parse_snapshot_interval.
  destruct (split_sign _) as [neg body]. destruct (bool_decide (body = [])); [done|].
  assert (Hnt : forall l v e, parse_seconds v l <> Throw e).
  { induction l as [|c l IH]; intros v e'; cbn [parse_seconds]; [done|]. destruct (negb (is_digit c)); [done|].
    unfold cmul, cadd, cval, arith, bind. destruct (in_range I64 (v * 10)); [|congruence].
    destruct (in_range I64 _); [apply IH|congruence]. }
  specialize (Hnt body 0%Z). destruct (parse_seconds 0 body) as [[v|]|e'|]; cbn [bind]; [|done|by specialize (Hnt e')|done].
  unfold seconds, cmul, cneg, cval, arith, bind.
  destruct neg, (in_range I64 (- v)), (in_range I64 (v * 1000000000)), (in_range I64 (- v * 1000000000)); done.
Qed.

Lemma parse_streams_ok cfg idx : forall seen l,
  parse_streams cfg idx seen = Ok l <->
  Forall2 (stream_is cfg) idx l /\ NoDup (stream_name <$> l) /\ Forall (fun s => stream_name s ∉ seen) l.
Proof.
  induction idx as [|i idx IH]; intros seen l; simpl.
  - split; [intros [= <-]; by repeat constructor|]. by intros (->%Forall2_nil_inv_l & _).
  - split.
    + intros (s & Hs & (l' & Hl & [= <-])%bind_Ok_inv)%bind_Ok_inv.
      apply parse_stream_ok in Hs as [Hs Hn]. apply IH in Hl as (HF & Hnd & Hseen).
      split; [by constructor|]. rewrite Forall_forall in Hseen. split.
      * rewrite fmap_cons. constructor; [|done]. intros (s' & E & Hs')%list_elem_of_fmap.
        apply Hseen in Hs'. set_solver.
      * constructor; [done|]. apply Forall_forall. intros s' Hs'. apply Hseen in Hs'. set_solver.
    + intros (HF & Hnd & Hseen). apply Forall2_cons_inv_l in HF as (s & l' & Hs & HF & ->).
      rewrite fmap_cons in Hnd. apply NoDup_cons in Hnd as [Hn Hnd]. apply Forall_cons in Hseen as [Hns Hseen].
      rewrite (proj2 (parse_stream_ok cfg seen i s) (conj Hs Hns)). simpl.
      rewrite (proj2 (IH ({[stream_name s]} ∪ seen) l')); [done|]. split; [done|]. split; [done|].
      rewrite Forall_forall in Hseen |- *. intros s' Hs'. pose proof (Hseen s' Hs').
      assert (stream_name s' <> stream_name s); [|set_solver].
      intros E. apply Hn. apply list_elem_of_fmap. by exists s'.
Qed.

Lemma parse_streams_refuses cfg idx : forall seen,
  refuses (exists i t, get_string cfg (field "streams" i "snapshot_interval") = Ok t /\
             parse_snapshot_interval t = Undef) (parse_streams cfg idx seen).
Proof.
  induction idx as [|i idx IH]; intros seen; simpl; [done|]. apply refuses_bind.
  - pose proof (parse_stream_refuses cfg seen i) as H.
    destruct (parse_stream cfg seen i); [done|done|]. simpl in *. eauto.
  - intros s _. apply refuses_bind; [apply IH|done].
Qed.

(** ** Tasks and dependencies *)

Definition index_ok (index : gmap string nat) (names : list string) : Prop :=
  forall name k, index !! name = Some k <-> last_index names name k.

Lemma index_snoc index names name : index_ok index names ->
  index_ok (<[name := length names]> index) (app names [name]).
Proof.
  intros H n k. destruct (decide (n = name)) as [->|Hne].
  - rewrite lookup_insert_eq. split.
    + intros [= <-]. split; [by apply list_lookup_middle|].
      intros j Hj. rewrite lookup_ge_None_2; [done|]. rewrite length_app. simpl. lia.
    + intros [Hk Hlast]. f_equal. apply lookup_lt_Some in Hk as Hlt. rewrite length_app in Hlt. simpl in Hlt.
      destruct (decide (k = length names)); [done|]. exfalso.
      apply (Hlast (length names)); [lia|]. by apply list_lookup_middle.
  - rewrite lookup_insert_ne by done. rewrite (H n k). unfold last_index. split.
    + intros [Hk Hlast]. split; [by apply lookup_app_l_Some|]. intros j Hj E.
      destruct (decide (j < length names)) as [Hl|Hl].
      * rewrite lookup_app_l in E by done. by apply (Hlast j).
      * rewrite lookup_app_r in E by lia. destruct (j - length names) eqn:Ej; [by injection E|done].
    + intros [Hk Hlast]. destruct (decide (k < length names)) as [Hl|Hl].
      * rewrite lookup_app_l in Hk by done. split; [done|]. intros j Hj E.
        apply (Hlast j Hj). by apply lookup_app_l_Some.
      * rewrite lookup_app_r in Hk by lia. destruct (k - length names) eqn:Ek; [by injection Hk|done].
Qed.

Definition task_is (cfg : @Config Node) (i : nat) (name : string) : Prop :=
  get_string cfg (field "tasks" i "name") = Ok name.

Lemma parse_tasks_ok cfg n : forall index names index' names', index_ok index names ->
  (Z.of_nat (length names + n) <= 4294967296)%Z ->
  parse_tasks cfg (seq (length names) n) index names = Ok (index', names') ->
  index_ok index' names' /\ exists l, names' = app names l /\ Forall2 (task_is cfg) (seq (length names) n) l.
Proof.
  induction n as [|n IH]; intros index names index' names' Hi Hlen; simpl.
  - intros [= <- <-]. split; [done|]. exists []. by rewrite app_nil_r.
  - intros (name & Hname & H)%bind_Ok_inv. rewrite to_u32_id, Nat2Z.id in H by lia.
    pose proof (length_app names [name]) as El. simpl in El. rewrite Nat.add_1_r in El. rewrite <- El in H.
    apply IH in H as (Hi' & l & -> & HF); [|by apply index_snoc|lia].
    split; [done|]. exists (name :: l). split; [by rewrite <- app_assoc|]. rewrite El in HF. by constructor.
Qed.

Lemma parse_tasks_succeeds cfg idx l : Forall2 (task_is cfg) idx l -> forall index names,
  exists index', parse_tasks cfg idx index names = Ok (index', app names l).
Proof.
  induction 1 as [|i name idx l Hname _ IH]; intros index names; simpl; [rewrite app_nil_r; eauto|].
  unfold task_is in Hname. rewrite Hname. simpl.
  destruct (IH (<[name:=Z.to_nat (to_u32 (Z.of_nat i))]> index) (app names [name])) as [index' ->].
  exists index'. by rewrite <- app_assoc.
Qed.

Lemma parse_tasks_refuses U cfg idx : forall index names, refuses U (parse_tasks cfg idx index names).
Proof.
  induction idx as [|i idx IH]; intros index names; simpl; [done|].
  apply refuses_bind; [apply get_scalar_refuses|auto].
Qed.

Lemma parse_dependency_ok cfg index names i e : index_ok index names ->
  parse_dependency cfg index i = Ok e <-> edge_is cfg names i e.
Proof.
  intros Hi. unfold parse_dependency, edge_is. split.
  - intros (f & Hf & (t & Ht & (x & Hx%require_Ok & (y & Hy%require_Ok & [= <-])%bind_Ok_inv)%bind_Ok_inv)%bind_Ok_inv)%bind_Ok_inv.
    exists f, t. split; [done|]. split; [done|]. by rewrite <- !(Hi _ _).
  - intros (f & t & -> & -> & Hx & Hy). apply Hi in Hx, Hy. simpl. rewrite Hx, Hy. simpl. by destruct e.
Qed.

Lemma parse_dependencies_ok cfg index names num idx : index_ok index names -> forall edges edges' g',
  parse_dependencies cfg index idx edges (build_graph num edges) = Ok (edges', g') <->
  exists l, edges' = app edges l /\ Forall2 (edge_is cfg names) idx l /\ g' = build_graph num edges'.
Proof.
  intros Hi. induction idx as [|i idx IH]; intros edges edges' g'; simpl.
  - split.
    + intros [= <- <-]. exists []. by rewrite app_nil_r.
    + intros (l & -> & ->%Forall2_nil_inv_l & ->). by rewrite app_nil_r.
  - split.
    + intros (e & He & H)%bind_Ok_inv. rewrite <- build_graph_app in H.
      apply IH in H as (l & -> & HF & ->). exists (e :: l). rewrite <- app_assoc. split; [done|].
      split; [|done]. constructor; [|done]. by apply (parse_dependency_ok cfg index).
    + intros (l & -> & HF & ->). apply Forall2_cons_inv_l in HF as (e & l' & He & HF & ->).
      apply (parse_dependency_ok cfg index) in He; [|done]. rewrite He. simpl.
      rewrite <- build_graph_app. apply IH. exists l'. by rewrite <- app_assoc.
Qed.

Lemma parse_dependencies_refuses U cfg index idx : forall edges g,
  refuses U (parse_dependencies cfg index idx edges g).
Proof.
  induction idx as [|i idx IH]; intros edges g; simpl; [done|]. apply refuses_bind; [|auto].
  unfold parse_dependency. repeat (apply refuses_bind; [apply get_scalar_refuses || apply refuses_require|intros ? _]).
  done.
Qed.

Lemma edges_described cfg names idx l : Forall2 (edge_is cfg names) idx l -> edges_in_range (length names) l.
Proof.
  induction 1 as [|i e idx l (f & t & _ & _ & [Hp _] & [Hc _]) _ IH]; [constructor|].
  constructor; [|done]. split; by eapply lookup_lt_Some.
Qed.
End Parser.

(** ** The cycle check is the one of the orchestrator *)

Lemma kahn_loop_le fuel dn : forall deg q c r, kahn_loop fuel dn deg q c = Some r -> r <= c + fuel.
Proof.
  induction fuel as [|fuel IH]; intros deg [|x q] c r; simpl; try done; [intros [= <-]; lia..|].
  intros H%IH. lia.
Qed.

Lemma check_cycles_ok num es : edges_in_range num es -> (Z.of_nat num < 4294967296)%Z ->
  (Z.of_nat (length es) < 4294967296)%Z -> check_cycles num (build_graph num es) = validate_dag num es.
Proof.
  intros Hr Hn Hl. unfold validate_dag. destruct (check_edges_spec num es) as [[_ ->]|[? _]]; [|done]. simpl.
  unfold check_cycles. rewrite to_u32_id, Nat2Z.id by lia. destruct (Nat.ltb_spec 0 num).
  - unfold kahn. destruct (kahn_loop _ _ _ _ _) as [r|] eqn:E; [|done]. apply kahn_loop_le in E.
    rewrite to_u32_id by lia. f_equal. f_equal.
    destruct (Z.eqb_spec (Z.of_nat r) (Z.of_nat num)), (Nat.eqb_spec r num); lia.
  - replace num with 0 by lia. done.
Qed.

Section Correct.
Context {Node : Type} `{!YamlLib Node} (cfg : @Config Node).
Hypothesis Htasks : (Z.of_nat (conf_size cfg "tasks") < 4294967296)%Z.
Hypothesis Hdeps : (Z.of_nat (conf_size cfg "dependencies") < 4294967296)%Z.

(** Some stream's interval is a number too large for a count of nanoseconds. *)
Definition interval_overflow : Prop :=
  exists i t, get_string cfg (field "streams" i "snapshot_interval") = Ok t /\ parse_snapshot_interval t = Undef.

Lemma empty_index : index_ok ∅ [].
Proof. intros n k. rewrite lookup_empty. split; [done|]. by intros [? _]. Qed.

Lemma edges_count names l : Forall2 (edge_is cfg names) (seq 0 (conf_size cfg "dependencies")) l ->
  (Z.of_nat (length l) < 4294967296)%Z.
Proof. intros HF. apply Forall2_length in HF. rewrite length_seq in HF. lia. Qed.

Lemma check_described names l : length names = conf_size cfg "tasks" ->
  Forall2 (edge_is cfg names) (seq 0 (conf_size cfg "dependencies")) l ->
  let c := check_cycles (conf_size cfg "tasks") (build_graph (conf_size cfg "tasks") l) in
  c = validate_dag (conf_size cfg "tasks") l /\
  (acyclic l /\ c = Ok tt \/ ~ acyclic l /\ c = Throw invalid_argument).
Proof.
  intros Hl HF. pose proof (edges_count _ _ HF) as Hc. apply edges_described in HF. rewrite Hl in HF.
  rewrite (check_cycles_ok _ _ HF Htasks Hc). split; [reflexivity|].
  destruct (validate_dag_ok (conf_size cfg "tasks") l Hc) as [(_ & ? & ->)|[? ->]]; tauto.
Qed.

Lemma parse_config_ok p : parse_config cfg = Ok p <-> describes cfg p.
Proof.
  unfold parse_config. split.
  - intros H. apply bind_Ok_inv in H as (mc & Hmc%setting_ok & H). apply bind_Ok_inv in H as (dt & Hdt%setting_ok & H).
    apply bind_Ok_inv in H as (st & Hst%setting_ok & H).
    apply bind_Ok_inv in H as (ss & (Hs & Hnd & _)%parse_streams_ok & H).
    apply bind_Ok_inv in H as ([index names] & Ht & H). change (seq 0) with (seq (length (@nil string))) in Ht.
    apply parse_tasks_ok in Ht as (Hi & l & -> & HF); [|apply empty_index|simpl; lia].
    apply bind_Ok_inv in H as ([es g] & Hd & H).
    apply (parse_dependencies_ok cfg index _ (conf_size cfg "tasks") _ Hi [] es g) in Hd as (es' & -> & HE & ->).
    apply Forall2_length in HF as Hl. rewrite length_seq in Hl.
    destruct (check_described l es' (eq_sym Hl) HE) as [_ [[Hac Ec]|[_ Ec]]];
      simpl in H; rewrite Ec in H; [|done].
    injection H as <-. by constructor.
  - intros [Hmc Hdt Hst Hs Hnd Ht He Hac]. apply setting_ok in Hmc, Hdt, Hst. simpl. rewrite Hmc, Hdt, Hst. simpl.
    rewrite (proj2 (parse_streams_ok cfg _ ∅ (streams p))).
    2:{ split; [done|]. split; [done|]. apply Forall_forall. intros s _. set_solver. }
    simpl. destruct (parse_tasks_succeeds cfg _ _ Ht ∅ []) as [index Ei]. pose proof Ei as Hi.
    change (seq 0) with (seq (length (@nil string))) in Hi.
    apply parse_tasks_ok in Hi as (Hi & _); [|apply empty_index|simpl; lia]. rewrite Ei. simpl.
    pose proof (proj2 (parse_dependencies_ok cfg index (task_names p) (conf_size cfg "tasks") _ Hi [] (edges p)
      (build_graph (conf_size cfg "tasks") (edges p))) (ex_intro _ (edges p) (conj eq_refl (conj He eq_refl)))) as Ed.
    unfold build_graph at 1 in Ed. simpl in Ed. rewrite Ed.
    apply Forall2_length in Ht as Hl. rewrite length_seq in Hl.
    destruct (check_described _ _ (eq_sym Hl) He) as [_ [[_ Ec]|[? _]]]; [|done].
    simpl. rewrite Ec. simpl. by destruct p.
Qed.

Lemma parse_config_refuses : refuses interval_overflow (parse_config cfg).
Proof.
  unfold parse_config. do 3 (apply refuses_bind; [apply setting_refuses|intros ? _]).
  apply refuses_bind; [apply parse_streams_refuses|intros ss _].
  apply refuses_bind; [apply parse_tasks_refuses|intros [index names] Ht].
  change (seq 0 (conf_size cfg "tasks")) with (seq (length (@nil string)) (conf_size cfg "tasks")) in Ht.
  apply parse_tasks_ok in Ht as (Hi & l & -> & HF); [|apply empty_index|simpl; lia].
  apply refuses_bind; [apply parse_dependencies_refuses|intros [es g] Hd].
  apply (parse_dependencies_ok cfg index _ (conf_size cfg "tasks") _ Hi [] es g) in Hd as (es' & -> & HE & ->).
  apply Forall2_length in HF. rewrite length_seq in HF.
  destruct (check_described l es' (eq_sym HF) HE) as [_ [[_ Ec]|[_ Ec]]]; simpl; rewrite Ec; done.
Qed.
End Correct.

(** C13. The parser accepts a file exactly when its document describes a pipeline: the
    streams in order, with distinct names and valid fields, the tasks in order, the
    dependencies between known tasks without a cycle; and what it returns is what the
    document describes.  Otherwise it raises [std::invalid_argument] or a
    [Conf_Error], or multiplies an interval beyond 64 bits.  An accepted pipeline
    passes the validation of the orchestrator. *)
Theorem parse_pipeline_correct {Node} `{!YamlLib Node} path (cfg : @Config Node) :
  from_file path = Ok cfg ->
  (Z.of_nat (conf_size cfg "tasks") < 4294967296)%Z ->
  (Z.of_nat (conf_size cfg "dependencies") < 4294967296)%Z ->
  (forall p, parse_pipeline path = Ok p <-> describes cfg p) /\
  match parse_pipeline path with
  | Ok p => validate_dag (length (task_names p)) (edges p) = Ok tt
  | Throw invalid_argument | Throw (conf_error _) => True
  | Throw _ => False
  | Undef => interval_overflow cfg
  end.
Proof.
  intros Hf Ht Hd. unfold parse_pipeline. rewrite Hf. simpl.
  split; [exact (parse_config_ok cfg Ht Hd)|].
  pose proof (parse_config_refuses cfg Ht Hd) as Hr.
  destruct (parse_config cfg) as [p|e|] eqn:E; simpl in Hr |- *; [|by destruct e|done].
  apply (parse_config_ok cfg Ht Hd) in E as [_ _ _ _ _ Htn He Hac].
  apply Forall2_length in Htn. rewrite length_seq in Htn.
  destruct (check_described cfg Ht Hd _ _ (eq_sym Htn) He) as [Ec [[_ E]|[? _]]]; [|done].
  by rewrite <- Htn, <- Ec.
Qed.

Definition demo_pipeline : Yaml :=
  let task n := YMap [("name", YScalar n)] in
  YMap [("settings", YMap [("max_concurrency", YScalar "8")]);
        ("streams", YSequence [YMap [("name", YScalar "sst"); ("temporal_profile", YScalar "linear");
           ("out_of_bounds_policy", YScalar "cycle"); ("dataset_path", YScalar "/data/sst.nc");
           ("snapshot_interval", YScalar "86400s")]]);
        ("tasks", YSequence [task "read"; task "blend"]);
        ("dependencies", YSequence [YMap [("from", YScalar "read"); ("to", YScalar "blend")]])].

Example parse_pipeline_correct_witness :
  let H := yaml_lib demo_pipeline in
  describes (Some demo_pipeline) (mkPipeline
    [mkStream "sst" linear cycle "/data/sst.nc" (mkDuration 86400000000000)]
    ["read"; "blend"] [mkEdge 0 1] 8 30 30).
Proof.
  intros H.
  refine (proj1 (proj1 (@parse_pipeline_correct Yaml H "pipeline.yaml" (Some demo_pipeline) _ _ _) _) _);
    vm_compute; reflexivity.
Defined.
