(* ===== verification/Blend.v ===== *)
(** * BLEND: the array kernels ([blend/helm_math_blend.hpp])

    A view is an address and a number of elements; an address counts elements of one
    memory, so views may overlap.  Arithmetic is binary64 with every operation rounded
    to nearest, ties to even: a compiler that contracts the linear kernel's expression
    to a fused multiply-add computes another last bit.  [Kokkos::parallel_for] is the
    interface [ParallelFor]: it runs the body once per index, in an order of its own.
    Extents are counts of elements of an array that exists, so they are [nat]. *)
From Stdlib Require Import ZArith Lia SpecFloat.
From stdpp Require Import base list numbers gmap sets.
From S2P Require Import Prelude.
Local Open Scope Z_scope.

(** ** Data *)

(** [Kokkos::View<double *, Kokkos::MemoryUnmanaged>] *)
Record FieldView : Type := mkFieldView { data : Z; extent : nat }.

Abbreviation memory := (gmap Z spec_float).

(** [enum class BlendProfile]: a value of the underlying type may be neither. *)
Definition BlendProfile : Type := Z.
Definition Linear : BlendProfile := 0.
Definition Step : BlendProfile := 1.

Definition address (v : FieldView) (i : nat) : Z := data v + Z.of_nat i.

(** [v(i)] read and written; memory that is not allocated has no meaning. *)
Definition load (m : memory) (v : FieldView) (i : nat) : result spec_float :=
  match m !! address v i with Some x => Ok x | None => Undef end.

Definition store (m : memory) (v : FieldView) (i : nat) (x : spec_float) : result memory :=
  match m !! address v i with Some _ => Ok (<[address v i := x]> m) | None => Undef end.

(** [Kokkos::RangePolicy<>(0, n)]: each index once. *)
Class ParallelFor := {
  range_order : nat -> list nat;
  range_order_perm n : Permutation (range_order n) (seq 0 n)
}.

Fixpoint run_indices (order : list nat) (body : nat -> memory -> result memory) (m : memory) : result memory :=
  match order with
  | [] => Ok m
  | i :: rest => let! m' := body i m in run_indices rest body m'
  end.

(** ** The kernels *)

Definition one : spec_float := S754_finite false 4503599627370496 (-52).
Definition half : spec_float := S754_finite false 4503599627370496 (-53).

Section Kernels.
Context `{!ParallelFor}.

Definition parallel_for (n : nat) (body : nat -> memory -> result memory) (m : memory) : result memory :=
  run_indices (range_order n) body m.

Definition LinearBlendKernel_apply (left right target : FieldView) (alpha : spec_float) (m : memory) : result memory :=
  let n := extent left in
  do! throw_if (negb (extent right =? n)%nat || negb (extent target =? n)%nat) invalid_argument then
  let one_minus_alpha := SFsub 53 1024 one alpha in
  parallel_for n (fun i m =>
    let! l := load m left i in
    let! r := load m right i in
    store m target i (SFadd 53 1024 (SFmul 53 1024 l one_minus_alpha) (SFmul 53 1024 r alpha))) m.

Definition StepBlendKernel_apply (left right target : FieldView) (alpha : spec_float) (m : memory) : result memory :=
  let n := extent left in
  do! throw_if (negb (extent right =? n)%nat || negb (extent target =? n)%nat) invalid_argument then
  let snap_right := SFleb half alpha in
  parallel_for n (fun i m =>
    let! x := (if snap_right then load m right i else load m left i) in
    store m target i x) m.

Definition execute_blend (left right target : FieldView) (alpha : spec_float) (profile : BlendProfile) (m : memory)
    : result memory :=
  if profile =? Linear then LinearBlendKernel_apply left right target alpha m
  else if profile =? Step then StepBlendKernel_apply left right target alpha m
  else Throw invalid_argument.
End Kernels.

(** ** Specification *)

(** The formulas of the documentation. *)
Definition blended (profile : BlendProfile) (alpha l r : spec_float) : spec_float :=
  if profile =? Linear
  then SFadd 53 1024 (SFmul 53 1024 l (SFsub 53 1024 one alpha)) (SFmul 53 1024 r alpha)
  else if SFltb alpha half then l else r.

Definition allocated (m : memory) (v : FieldView) : Prop := forall i, (i < extent v)%nat -> is_Some (m !! address v i).

(** Equal or disjoint: an element is never another element of the other view. *)
Definition separate (v w : FieldView) : Prop :=
  data v = data w \/ data v + Z.of_nat (extent v) <= data w \/ data w + Z.of_nat (extent w) <= data v.

Definition in_view (v : FieldView) (a : Z) : Prop := data v <= a < data v + Z.of_nat (extent v).

(** ** An element-wise loop *)

Section Loop.
Context (left right target : FieldView) (f : spec_float -> spec_float -> spec_float) (body : nat -> memory -> result memory).
Hypothesis Hr : extent right = extent left.
Hypothesis Ht : extent target = extent left.
Hypothesis Hlt : separate left target.
Hypothesis Hrt : separate right target.
Hypothesis Hbody : forall i m l r, m !! address left i = Some l -> m !! address right i = Some r ->
  body i m = store m target i (f l r).

(** After the indices of [done], starting from [m0]. *)
Definition after (m0 : memory) (done : list nat) (m : memory) : Prop :=
  (forall i l r, i ∈ done -> m0 !! address left i = Some l -> m0 !! address right i = Some r ->
     m !! address target i = Some (f l r)) /\
  (forall a, (forall i, i ∈ done -> a <> address target i) -> m !! a = m0 !! a).

Lemma untouched v m0 done m i : separate v target -> extent v = extent left -> after m0 done m ->
  (i < extent left)%nat -> i ∉ done -> Forall (fun j => (j < extent left)%nat) done ->
  m !! address v i = m0 !! address v i.
Proof.
  intros Hs He [_ Hrest] Hi Hn Hd. apply Hrest. intros j Hj E. rewrite Forall_forall in Hd.
  specialize (Hd j Hj). unfold address, separate in *. assert (i <> j) by congruence. lia.
Qed.

Lemma loop_ok m0 rest : allocated m0 left -> allocated m0 right -> allocated m0 target ->
  forall done m, NoDup (done ++ rest) -> Forall (fun j => (j < extent left)%nat) (done ++ rest) -> after m0 done m ->
  exists m', run_indices rest body m = Ok m' /\ after m0 (done ++ rest) m'.
Proof.
  intros Hal Har Hat. induction rest as [|i rest IH]; intros done m Hnd Hrg Haf; [exists m; by rewrite app_nil_r|].
  assert (Hi : (i < extent left)%nat) by (rewrite Forall_forall in Hrg; apply Hrg; set_solver).
  assert (Hn : i ∉ done) by (apply NoDup_app in Hnd as (_ & Hd & _); intros Hin; apply (Hd i Hin); set_solver).
  assert (Hdr : Forall (fun j => (j < extent left)%nat) done) by (by apply Forall_app in Hrg as [? _]).
  destruct (Hal i Hi) as [l El], (Har i ltac:(lia)) as [r Er], (Hat i ltac:(lia)) as [t Et].
  pose proof (untouched left m0 done m i Hlt eq_refl Haf Hi Hn Hdr) as Ul.
  pose proof (untouched right m0 done m i Hrt Hr Haf Hi Hn Hdr) as Ur.
  assert (Ut : m !! address target i = m0 !! address target i).
  { apply (untouched target m0 done); try done. by left. }
  simpl. rewrite (Hbody i m l r) by congruence. unfold store. rewrite Ut, Et. simpl.
  replace (done ++ i :: rest) with ((done ++ [i]) ++ rest) in * by (by rewrite <- app_assoc).
  apply IH; [done|done|]. destruct Haf as [Hin Hout]. split.
  - intros j l' r' Hj El' Er'. destruct (decide (j = i)) as [->|Hne]; [rewrite lookup_insert_eq; congruence|].
    rewrite lookup_insert_ne by (unfold address; lia). apply Hin; [set_solver|done..].
  - intros a Ha. rewrite lookup_insert_ne by (specialize (Ha i); set_solver). apply Hout. set_solver.
Qed.
End Loop.

Lemma compare_flip x y : SFcompare y x = option_map CompOpp (SFcompare x y).
Proof.
  destruct x as [s|s| |s m e], y as [s'|s'| |s' m' e']; try destruct s; try destruct s'; try reflexivity;
    unfold SFcompare; rewrite (Z.compare_antisym e e');
    assert (E : Pos.compare_cont Eq m' m = CompOpp (Pos.compare_cont Eq m m'))
      by (symmetry; apply Pos.compare_cont_antisym);
    rewrite E; destruct (e ?= e'), (Pos.compare_cont Eq m m'); reflexivity.
Qed.

(** Comparing with the threshold from either side, unless the weight is not a number. *)
Lemma snap_alpha alpha : alpha <> S754_nan -> SFleb half alpha = negb (SFltb alpha half).
Proof.
  intros Hn. unfold SFleb, SFltb. rewrite (compare_flip half alpha).
  destruct (SFcompare half alpha) as [[]|] eqn:E; try reflexivity. by destruct alpha.
Qed.

Lemma parallel_ok `{!ParallelFor} left right target f body m : extent right = extent left -> extent target = extent left ->
  separate left target -> separate right target -> allocated m left -> allocated m right -> allocated m target ->
  (forall i m l r, m !! address left i = Some l -> m !! address right i = Some r -> body i m = store m target i (f l r)) ->
  exists m', parallel_for (extent left) body m = Ok m' /\
    (forall i l r, (i < extent left)%nat -> m !! address left i = Some l -> m !! address right i = Some r ->
       m' !! address target i = Some (f l r)) /\
    (forall a, ~ in_view target a -> m' !! a = m !! a).
Proof.
  intros Hr Ht Hlt Hrt Hal Har Hat Hb. pose proof (range_order_perm (extent left)) as Hp.
  destruct (loop_ok left right target f body Hr Ht Hlt Hrt Hb m (range_order (extent left)) Hal Har Hat [] m)
    as (m' & E & Hin & Hout).
  - rewrite Hp. apply NoDup_seq.
  - rewrite Hp. apply Forall_forall. intros j [_ Hj]%elem_of_seq. lia.
  - split; [|done]. intros i l r Hi. by apply not_elem_of_nil in Hi.
  - exists m'. split; [exact E|]. split.
    + intros i l r Hi. apply Hin. simpl. rewrite Hp. apply elem_of_seq. lia.
    + intros a Ha. apply Hout. intros i Hi ->. apply Ha. simpl in Hi. rewrite Hp in Hi.
      apply elem_of_seq in Hi as [_ Hi]. unfold in_view, address. lia.
Qed.

(** C14. [execute_blend] refuses views of different extents and unknown profiles with
    [std::invalid_argument].  Otherwise, in whatever order the elements are processed,
    each element of the target becomes the documented combination of the two source
    elements as they were, and nothing outside the target changes, also when the
    target is one of the sources; views that overlap in another way are excluded, and
    so is the step kernel with a weight that is not a number. *)
Theorem execute_blend_correct `{!ParallelFor} left right target alpha profile m :
  (extent right <> extent left \/ extent target <> extent left \/ (profile <> Linear /\ profile <> Step) ->
     execute_blend left right target alpha profile m = Throw invalid_argument) /\
  (extent right = extent left -> extent target = extent left -> profile = Linear \/ profile = Step ->
     allocated m left -> allocated m right -> allocated m target ->
     separate left target -> separate right target -> (profile = Step -> alpha <> S754_nan) ->
     exists m', execute_blend left right target alpha profile m = Ok m' /\
       (forall i l r, (i < extent left)%nat -> m !! address left i = Some l -> m !! address right i = Some r ->
          m' !! address target i = Some (blended profile alpha l r)) /\
       (forall a, ~ in_view target a -> m' !! a = m !! a)).
Proof.
  unfold execute_blend, LinearBlendKernel_apply, StepBlendKernel_apply. split.
  - intros Hor. destruct (Z.eqb_spec profile Linear), (Z.eqb_spec profile Step); try done;
      destruct (Nat.eqb_spec (extent right) (extent left)), (Nat.eqb_spec (extent target) (extent left)); simpl; try done;
      destruct Hor as [?|[?|[? ?]]]; done.
  - intros Hr Ht Hp Hal Har Hat Hlt Hrt Hn. rewrite Hr, Ht, Nat.eqb_refl. simpl.
    destruct Hp as [-> | ->]; simpl; unfold blended; simpl; apply parallel_ok; try done.
    + intros i m' l r El Er. unfold load. by rewrite El, Er.
    + intros i m' l r El Er. unfold load. rewrite (snap_alpha alpha (Hn eq_refl)). by destruct (SFltb alpha half); rewrite ?El, ?Er.
Qed.

#[local] Instance backwards : ParallelFor.
Proof.
  refine {| range_order n := reverse (seq 0 n) |}. intros n. by rewrite reverse_Permutation.
Defined.

Definition two : spec_float := S754_finite false 4503599627370496 (-51).
Definition quarter : spec_float := S754_finite false 4503599627370496 (-54).
Definition demo_field (x y : spec_float) (a : Z) : memory := {[a := x; a + 1 := y]}.

Example execute_blend_correct_witness :
  let m : memory := {[ 0 := S754_zero false; 1 := one; 10 := two; 11 := two ]} in
  exists m', execute_blend (mkFieldView 0 2) (mkFieldView 10 2) (mkFieldView 0 2) half Linear m = Ok m' /\
    m' !! 0 = Some one /\ m' !! 10 = Some two.
Proof.
  intros m.
  destruct (proj2 (execute_blend_correct (mkFieldView 0 2) (mkFieldView 10 2) (mkFieldView 0 2) half Linear m))
    as (m' & E & Hin & Hout); try reflexivity.
  1: by left.
  1,2,3: intros i Hi; simpl in Hi; destruct i as [|[|i]]; [by eexists|by eexists|lia].
  1: by left.
  1: right; right; simpl; lia.
  1: done.
  exists m'. split; [exact E|]. split.
  - apply (Hin 0%nat (S754_zero false) two); [simpl; lia|reflexivity|reflexivity].
  - rewrite Hout; [reflexivity|]. unfold in_view. simpl. lia.
Defined.

(** A weight that is not a number: the kernel copies the left field where the documented
    formula selects the right one. *)
Example step_not_a_number :
  let m : memory := {[ 0 := one; 10 := two; 20 := half ]} in
  execute_blend (mkFieldView 0 1) (mkFieldView 10 1) (mkFieldView 20 1) S754_nan Step m = Ok (<[20 := one]> m) /\
  blended Step S754_nan one two = two.
Proof. split; reflexivity. Qed.
