(* ===== verification/StagingPool.v ===== *)
(** * AMIO: the staging pool ([amio/src/staging/staging_pool.hpp], [staging_pool.cpp])

    Every method holds the mutex while it touches the pool, except while [acquire]
    waits: a call of [acquire] is a sequence of critical sections, [acquire_once]
    until a buffer is found, a wait, and [acquire_timeout] when the deadline passes.
    A buffer is denoted by its index.  Storage is an address, 0 the null pointer; the
    address of the next allocation is an argument.  The warning message is left out. *)
From Stdlib Require Import ZArith Lia Sorted.
From stdpp Require Import base list numbers sets relations.
From S2P Require Import Prelude CInt.
Local Open Scope Z_scope.

Record StagingBuffer : Type := mkBuffer {
  data : Z; capacity_bytes : Z; used_bytes : Z; ref_count : Z; seq : Z
}.

Inductive GrowMode : Type := Bounded | Grow.

#[export] Instance GrowMode_eq_dec : EqDecision GrowMode.
Proof. solve_decision. Defined.

Record StagingPool : Type := mkPool {
  buffers_ : list StagingBuffer;
  free_list_ : list nat;
  buffer_count_ : nat;
  max_buffer_count_ : nat;
  buffer_capacity_ : Z;
  grow_mode_ : GrowMode;
  grow_warned_ : bool
}.

Definition kMaxBufferCount : nat := 4096.
Definition kMaxBufferCapacity : Z := 1073741824.

Definition empty_buffer : StagingBuffer := mkBuffer 0 0 0 0 0.

Definition with_buffers (p : StagingPool) (b : list StagingBuffer) (f : list nat) : StagingPool :=
  mkPool b f (buffer_count_ p) (max_buffer_count_ p) (buffer_capacity_ p) (grow_mode_ p) (grow_warned_ p).

(** [order] is what [std::sort] leaves of the indices, whose keys are all equal. *)
Definition staging_pool (buffer_count : nat) (buffer_capacity : Z) (max_buffer_count : nat) (mode : GrowMode)
    (order : list nat) : StagingPool :=
  mkPool (replicate buffer_count empty_buffer) order buffer_count
    (if bool_decide (mode = Bounded) then buffer_count else max_buffer_count) buffer_capacity mode false.

(** ** Selection *)

Definition capacity_at (bs : list StagingBuffer) (i : nat) : Z := default 0 (capacity_bytes <$> bs !! i).
Definition data_at (bs : list StagingBuffer) (i : nat) : Z := default 0 (data <$> bs !! i).

(** The first position of [l] that satisfies [f]. *)
Fixpoint find_index (f : nat -> bool) (l : list nat) : option nat :=
  match l with
  | [] => None
  | x :: rest => if f x then Some O else S <$> find_index f rest
  end.

(** The sentinel [free_list_.size()] is [None]. *)
Definition find_best_fit (p : StagingPool) (required_bytes : Z) : option nat :=
  match find_index (fun b => negb (data_at (buffers_ p) b =? 0) && (required_bytes <=? capacity_at (buffers_ p) b))
          (free_list_ p) with
  | Some i => Some i
  | None =>
      match find_index (fun b => data_at (buffers_ p) b =? 0) (free_list_ p) with
      | Some i => Some i
      | None => match free_list_ p with [] => None | _ => Some (length (free_list_ p) - 1)%nat end
      end
  end.

(** [std::make_unique<std::byte[]>(target)] returns [fresh]. *)
Definition ensure_storage (p : StagingPool) (buf_idx : nat) (required_bytes fresh : Z) : StagingPool :=
  let target := if buffer_capacity_ p <? required_bytes then required_bytes else buffer_capacity_ p in
  let grow b :=
    if negb (data b =? 0) && (target <=? capacity_bytes b) then b
    else mkBuffer fresh target (used_bytes b) (ref_count b) (seq b) in
  with_buffers p (alter grow buf_idx (buffers_ p)) (free_list_ p).

Definition remove_from_free_list (p : StagingPool) (free_idx : nat) : option nat * StagingPool :=
  match free_list_ p !! free_idx with
  | None => (None, p)
  | Some buf_idx =>
      let take b := mkBuffer (data b) (capacity_bytes b) (used_bytes b) 1 (to_u64 (seq b + 1)) in
      (Some buf_idx, with_buffers p (alter take buf_idx (buffers_ p)) (delete free_idx (free_list_ p)))
  end.

Definition take_at (p : StagingPool) (i : nat) (required_bytes fresh : Z) : option nat * StagingPool :=
  match free_list_ p !! i with
  | None => (None, p)
  | Some b => remove_from_free_list (ensure_storage p b required_bytes fresh) i
  end.

(** Append a slot. *)
Definition grow_slot (p : StagingPool) : StagingPool :=
  let bs := app (buffers_ p) [empty_buffer] in
  mkPool bs (app (free_list_ p) [(length bs - 1)%nat]) (buffer_count_ p) (max_buffer_count_ p) (buffer_capacity_ p)
    (grow_mode_ p) (grow_warned_ p || (buffer_count_ p <? length bs)%nat).

(** The loop up to the wait: [Ok (None, _)] means that the caller has to wait. *)
Fixpoint acquire_loop (fuel : nat) (p : StagingPool) (required_bytes fresh : Z) : result (option nat * StagingPool) :=
  match fuel with
  | O => Undef
  | S f =>
      match find_best_fit p required_bytes with
      | Some i => Ok (take_at p i required_bytes fresh)
      | None =>
          if bool_decide (grow_mode_ p = Grow) && (length (buffers_ p) <? max_buffer_count_ p)%nat
          then acquire_loop f (grow_slot p) required_bytes fresh
          else Ok (None, p)
      end
  end.

Definition acquire_once (p : StagingPool) (required_bytes fresh : Z) : result (option nat * StagingPool) :=
  acquire_loop 2 p required_bytes fresh.

(** The final check after the deadline; [None] is the null pointer. *)
Definition acquire_timeout (p : StagingPool) (required_bytes fresh : Z) : option nat * StagingPool :=
  match find_best_fit p required_bytes with
  | Some i => take_at p i required_bytes fresh
  | None => (None, p)
  end.

(** ** Release *)

(** [std::lower_bound] over a list sorted by capacity, and the insertion. *)
Fixpoint insert_sorted (bs : list StagingBuffer) (l : list nat) (x : nat) : list nat :=
  match l with
  | [] => [x]
  | y :: rest => if capacity_at bs y <? capacity_at bs x then y :: insert_sorted bs rest x else x :: l
  end.

Definition release (p : StagingPool) (buf : nat) : result StagingPool :=
  match buffers_ p !! buf with
  | None => Undef
  | Some b =>
      let! n := (ref_count b - 1%Z)%i32 in
      if n =? 0 then
        let bs := <[buf := mkBuffer (data b) (capacity_bytes b) 0 n (seq b)]> (buffers_ p) in
        Ok (with_buffers p bs (insert_sorted bs (free_list_ p) buf))
      else Ok (with_buffers p (<[buf := mkBuffer (data b) (capacity_bytes b) (used_bytes b) n (seq b)]> (buffers_ p))
                 (free_list_ p))
  end.

Definition add_ref (p : StagingPool) (buf : nat) : result StagingPool :=
  match buffers_ p !! buf with
  | None => Undef
  | Some b =>
      let! n := (ref_count b + 1%Z)%i32 in
      Ok (with_buffers p (<[buf := mkBuffer (data b) (capacity_bytes b) (used_bytes b) n (seq b)]> (buffers_ p))
            (free_list_ p))
  end.

(** ** Queries *)

Definition total_buffer_count (p : StagingPool) : nat := length (buffers_ p).
Definition max_buffer_count (p : StagingPool) : nat := max_buffer_count_ p.
Definition initial_buffer_count (p : StagingPool) : nat := buffer_count_ p.
Definition free_buffer_count (p : StagingPool) : nat := length (free_list_ p).
Definition buffer_capacity (p : StagingPool) : Z := buffer_capacity_ p.
Definition committed_bytes (p : StagingPool) : Z :=
  fold_left (fun total b => to_u64 (total + capacity_bytes b)) (buffers_ p) 0.
Definition allocated_buffer_count (p : StagingPool) : nat := length (filter (fun b => data b <> 0) (buffers_ p)).

(** ** Invariant *)

Definition by_capacity (bs : list StagingBuffer) (x y : nat) : Prop := capacity_at bs x <= capacity_at bs y.

Record pool_ok (p : StagingPool) : Prop := {
  ok_nodup : NoDup (free_list_ p);
  ok_free i : i ∈ free_list_ p <-> exists b, buffers_ p !! i = Some b /\ ref_count b = 0;
  ok_sorted : StronglySorted (by_capacity (buffers_ p)) (free_list_ p);
  ok_committed i b : buffers_ p !! i = Some b ->
    (data b = 0 /\ capacity_bytes b = 0) \/ (data b <> 0 /\ buffer_capacity_ p <= capacity_bytes b);
  ok_storage i j b c : buffers_ p !! i = Some b -> buffers_ p !! j = Some c -> data b = data c -> data b <> 0 -> i = j;
  ok_refs i b : buffers_ p !! i = Some b -> 0 <= ref_count b;
  ok_count : (length (buffers_ p) <= max_buffer_count_ p)%nat
}.

(** The allocator returns an address that no live storage has. *)
Definition fresh_for (p : StagingPool) (a : Z) : Prop := a <> 0 /\ forall b, b ∈ buffers_ p -> data b <> a.

(** ** Searching and sorting *)

Lemma find_index_Some f l i : find_index f l = Some i ->
  exists x, l !! i = Some x /\ f x = true /\ forall j y, (j < i)%nat -> l !! j = Some y -> f y = false.
Proof.
  revert i. induction l as [|x l IH]; simpl; intros i; [done|]. destruct (f x) eqn:E.
  - intros [= <-]. exists x. split; [done|]. split; [done|]. lia.
  - destruct (find_index f l) as [k|]; [|done]. intros [= <-]. destruct (IH k eq_refl) as (y & Hy & Hf & Hlt).
    exists y. split; [done|]. split; [done|]. intros [|j] z Hj Hz; [by simplify_eq/=|]. apply (Hlt j); [lia|done].
Qed.

Lemma find_index_None f l : find_index f l = None -> forall x, x ∈ l -> f x = false.
Proof.
  induction l as [|x l IH]; simpl; intros H y Hy; [by apply not_elem_of_nil in Hy|].
  destruct (f x) eqn:E; [done|]. destruct (find_index f l); [done|].
  apply elem_of_cons in Hy as [->|Hy]; [done|by apply IH].
Qed.

Lemma sorted_lookup (R : nat -> nat -> Prop) l i j x y : StronglySorted R l -> (i < j)%nat ->
  l !! i = Some x -> l !! j = Some y -> R x y.
Proof.
  intros H. revert i j. induction H as [|z l Hl IH Hz]; intros i j Hij Hi Hj; [done|].
  destruct j as [|j]; [lia|]. destruct i as [|i]; simplify_eq/=; [|by apply (IH i j); [lia|..]].
  rewrite Forall_forall in Hz. apply Hz. by eapply list_elem_of_lookup_2.
Qed.

Lemma sorted_delete (R : nat -> nat -> Prop) l i : StronglySorted R l -> StronglySorted R (delete i l).
Proof.
  intros H. revert i. induction H as [|z l Hl IH Hz]; intros i; [by constructor|].
  destruct i as [|i]; simpl; [done|]. constructor; [apply IH|].
  rewrite Forall_forall in Hz |- *. intros y Hy. apply Hz.
  apply list_elem_of_lookup in Hy as [k Hk]. destruct (decide (k < i)%nat).
  - rewrite list_lookup_delete_lt in Hk by done. by eapply list_elem_of_lookup_2.
  - rewrite list_lookup_delete_ge in Hk by lia. by eapply list_elem_of_lookup_2.
Qed.

Lemma sorted_ext (R S : nat -> nat -> Prop) l : (forall x y, x ∈ l -> y ∈ l -> R x y -> S x y) ->
  StronglySorted R l -> StronglySorted S l.
Proof.
  intros Hs H. induction H as [|z l Hl IH Hz]; [constructor|]. constructor.
  - apply IH. intros x y Hx Hy. apply Hs; by right.
  - rewrite Forall_forall in Hz |- *. intros y Hy. apply Hs; [by left|by right|by apply Hz].
Qed.

Lemma insert_sorted_perm bs l x : Permutation (insert_sorted bs l x) (x :: l).
Proof.
  induction l as [|y l IH]; simpl; [done|]. destruct (_ <? _); [|done].
  rewrite IH. apply Permutation_swap.
Qed.

Lemma insert_sorted_ok bs l x : StronglySorted (by_capacity bs) l -> StronglySorted (by_capacity bs) (insert_sorted bs l x).
Proof.
  intros H. induction H as [|y l Hl IH Hy]; simpl; [by repeat constructor|].
  destruct (Z.ltb_spec (capacity_at bs y) (capacity_at bs x)).
  - constructor; [done|]. rewrite Forall_forall in Hy |- *. intros z Hz. rewrite insert_sorted_perm in Hz.
    apply elem_of_cons in Hz as [->|Hz]; [unfold by_capacity; lia|by apply Hy].
  - constructor; [by constructor|]. rewrite Forall_forall in Hy |- *. intros z Hz.
    apply elem_of_cons in Hz as [->|Hz]; [done|]. specialize (Hy z Hz). unfold by_capacity in *. lia.
Qed.

Lemma delete_elem (l : list nat) i x y : NoDup l -> l !! i = Some x -> (y ∈ delete i l <-> y ∈ l /\ y <> x).
Proof.
  intros Hnd Hi. pose proof (delete_Permutation l i x Hi) as Hp. rewrite Hp in Hnd.
  apply NoDup_cons in Hnd as [Hx _]. rewrite Hp at 2. set_solver.
Qed.

(** ** Replacing one buffer *)

Lemma capacity_insert bs i b j : (i < length bs)%nat ->
  capacity_at (<[i := b]> bs) j = if decide (i = j) then capacity_bytes b else capacity_at bs j.
Proof.
  intros Hi. unfold capacity_at. destruct (decide (i = j)) as [<-|Hne].
  - by rewrite list_lookup_insert_eq.
  - by rewrite list_lookup_insert_ne.
Qed.

Lemma alter_insert {A} (f : A -> A) (l : list A) i x : l !! i = Some x -> alter f i l = <[i := f x]> l.
Proof. revert i. induction l as [|y l IH]; intros [|i] H; simplify_eq/=; f_equal; by apply IH. Qed.

(** The buffer handed out for [b]. *)
Definition grown (p : StagingPool) (b : StagingBuffer) (required_bytes fresh : Z) : StagingBuffer :=
  let target := if buffer_capacity_ p <? required_bytes then required_bytes else buffer_capacity_ p in
  if negb (data b =? 0) && (target <=? capacity_bytes b) then b
  else mkBuffer fresh target (used_bytes b) (ref_count b) (seq b).

Definition taken (p : StagingPool) (b : StagingBuffer) (required_bytes fresh : Z) : StagingBuffer :=
  let g := grown p b required_bytes fresh in
  mkBuffer (data g) (capacity_bytes g) (used_bytes g) 1 (to_u64 (seq g + 1)).

Lemma grown_seq p b req fresh : seq (grown p b req fresh) = seq b.
Proof. unfold grown. by destruct (negb _ && _). Qed.

Lemma grown_facts p b req fresh : fresh <> 0 -> let g := grown p b req fresh in
  data g <> 0 /\ req <= capacity_bytes g /\ buffer_capacity_ p <= capacity_bytes g /\
  (data g = data b /\ capacity_bytes g = capacity_bytes b \/ data g = fresh) /\
  (data b <> 0 -> req <= capacity_bytes b -> buffer_capacity_ p <= capacity_bytes b -> g = b).
Proof.
  intros Hf. unfold grown. destruct (Z.ltb_spec (buffer_capacity_ p) req);
    destruct (Z.eqb_spec (data b) 0); simpl; try (destruct (Z.leb_spec req (capacity_bytes b)));
    try (destruct (Z.leb_spec (buffer_capacity_ p) (capacity_bytes b))); simpl;
    repeat split; intros; try done; try lia; tauto.
Qed.

Lemma take_at_eq p k i b req fresh : free_list_ p !! k = Some i -> buffers_ p !! i = Some b ->
  take_at p k req fresh =
    (Some i, with_buffers p (<[i := taken p b req fresh]> (buffers_ p)) (delete k (free_list_ p))).
Proof.
  intros Hk Hb. assert (Hi : (i < length (buffers_ p))%nat) by (by eapply lookup_lt_Some).
  unfold take_at. rewrite Hk. unfold remove_from_free_list, ensure_storage. simpl. rewrite Hk.
  rewrite (alter_insert _ (buffers_ p) i b Hb).
  rewrite (alter_insert _ _ i _ (list_lookup_insert_eq _ _ _ Hi)), list_insert_insert_eq. done.
Qed.

Lemma take_ok p k i b req fresh : pool_ok p -> fresh_for p fresh -> free_list_ p !! k = Some i ->
  buffers_ p !! i = Some b ->
  pool_ok (with_buffers p (<[i := taken p b req fresh]> (buffers_ p)) (delete k (free_list_ p))).
Proof.
  intros [Hnd Hfree Hs Hc Hst Hr Hn] [Hf0 Hff] Hk Hb.
  assert (Hi : (i < length (buffers_ p))%nat) by (by eapply lookup_lt_Some).
  destruct (grown_facts p b req fresh Hf0) as (Hg0 & Hgr & Hgc & Hgd & _).
  assert (Hl : forall j c, <[i := taken p b req fresh]> (buffers_ p) !! j = Some c ->
      (j = i /\ c = taken p b req fresh) \/ (j <> i /\ buffers_ p !! j = Some c)).
  { intros j c. rewrite list_lookup_insert_Some. naive_solver. }
  constructor; simpl.
  - clear - Hnd Hk. rewrite (delete_Permutation _ k i Hk) in Hnd. by apply NoDup_cons in Hnd as [_ ?].
  - intros j. rewrite (delete_elem _ k i j Hnd Hk), Hfree. split.
    + intros [(c & Hc1 & Hc2) Hji]. exists c. by rewrite list_lookup_insert_ne.
    + intros (c & Hc1 & Hc2). destruct (Hl j c Hc1) as [[-> ->]|[Hji Hc3]]; [done|eauto].
  - apply sorted_ext with (R := by_capacity (buffers_ p)); [|by apply sorted_delete].
    intros x y Hx Hy. apply (delete_elem _ k i x Hnd Hk) in Hx as [_ Hx]. apply (delete_elem _ k i y Hnd Hk) in Hy as [_ Hy].
    unfold by_capacity. rewrite !capacity_insert by done. by rewrite !decide_False by congruence.
  - intros j c Hj. destruct (Hl j c Hj) as [[-> ->]|[Hji Hc3]]; [right; done|by eapply Hc].
  - intros j1 j2 c1 c2 H1 H2 Hd Hn0. destruct (Hl _ _ H1) as [[-> ->]|[? H1']], (Hl _ _ H2) as [[-> ->]|[? H2']];
      [done| | |by eapply Hst].
    + simpl in Hd, Hn0. destruct Hgd as [[Hgd _]|Hgd]; rewrite Hgd in *; [by eapply Hst|].
      exfalso. apply (Hff c2); [by eapply list_elem_of_lookup_2|done].
    + simpl in Hd. destruct Hgd as [[Hgd _]|Hgd]; rewrite Hgd in *; [by eapply Hst|].
      exfalso. apply (Hff c1); [by eapply list_elem_of_lookup_2|done].
  - intros j c Hj. destruct (Hl j c Hj) as [[-> ->]|[Hji Hc3]]; [simpl; lia|by eapply Hr].
  - by rewrite length_insert.
Qed.

(** ** Acquisition *)

(** [i] was free, is now held once with enough storage, no other buffer changed, and
    if a free buffer already had enough storage then [i] had it too, nothing was
    allocated and no fitting buffer was smaller. *)
Record acquired (p p' : StagingPool) (required_bytes : Z) (i : nat) : Prop := {
  a_free b : buffers_ p !! i = Some b -> ref_count b = 0;
  a_held : exists b', buffers_ p' !! i = Some b' /\ ref_count b' = 1 /\ required_bytes <= capacity_bytes b' /\ data b' <> 0;
  a_seq b b' : buffers_ p !! i = Some b -> buffers_ p' !! i = Some b' -> seq b' = to_u64 (seq b + 1);
  a_others j b : j <> i -> buffers_ p !! j = Some b -> buffers_ p' !! j = Some b;
  a_new j : j <> i -> buffers_ p !! j = None -> buffers_ p' !! j = None;
  a_best j c : j ∈ free_list_ p -> buffers_ p !! j = Some c -> data c <> 0 -> required_bytes <= capacity_bytes c ->
    exists b b', buffers_ p !! i = Some b /\ buffers_ p' !! i = Some b' /\ data b' = data b /\
      capacity_bytes b' = capacity_bytes b /\ capacity_bytes b <= capacity_bytes c
}.

Lemma best_fit_Some p req k : pool_ok p -> find_best_fit p req = Some k ->
  exists i b, free_list_ p !! k = Some i /\ buffers_ p !! i = Some b /\ ref_count b = 0 /\
    ((data b <> 0 /\ req <= capacity_bytes b /\
      forall j c, j ∈ free_list_ p -> buffers_ p !! j = Some c -> data c <> 0 -> req <= capacity_bytes c ->
        capacity_bytes b <= capacity_bytes c) \/
     (forall j c, j ∈ free_list_ p -> buffers_ p !! j = Some c -> data c <> 0 -> capacity_bytes c < req)).
Proof.
  intros Hok. unfold find_best_fit.
  assert (Hin : forall k i, free_list_ p !! k = Some i ->
      exists b, buffers_ p !! i = Some b /\ ref_count b = 0 /\ data_at (buffers_ p) i = data b /\ capacity_at (buffers_ p) i = capacity_bytes b).
  { intros k' i Hk. apply list_elem_of_lookup_2, (ok_free p Hok) in Hk as (b & Hb & Hz).
    exists b. unfold data_at, capacity_at. by rewrite Hb. }
  destruct (find_index _ (free_list_ p)) as [k1|] eqn:E1.
  - intros [= <-]. apply find_index_Some in E1 as (i & Hi & Ht & Hlt).
    destruct (Hin _ _ Hi) as (b & Hb & Hz & Hd & Hcap). exists i, b. rewrite Hd, Hcap in Ht.
    apply andb_true_iff in Ht as [Hd0%negb_true_iff%Z.eqb_neq Hreq%Z.leb_le].
    split; [done|]. split; [done|]. split; [done|]. left. split; [done|]. split; [done|].
    intros j c Hj Hc Hdc Hrc. apply list_elem_of_lookup in Hj as [kj Hkj].
    destruct (Nat.lt_trichotomy kj k1) as [Hlk|[->|Hlk]].
    + specialize (Hlt kj j Hlk Hkj). unfold data_at, capacity_at in Hlt. rewrite Hc in Hlt. simpl in Hlt.
      apply andb_false_iff in Hlt as [H%negb_false_iff%Z.eqb_eq|H%Z.leb_gt]; lia.
    + simplify_eq. lia.
    + pose proof (sorted_lookup _ _ _ _ _ _ (ok_sorted p Hok) Hlk Hi Hkj) as Hs.
      unfold by_capacity, capacity_at in Hs. rewrite Hb, Hc in Hs. exact Hs.
  - intros H. pose proof (find_index_None _ _ E1) as Hno.
    assert (Hsmall : forall j c, j ∈ free_list_ p -> buffers_ p !! j = Some c -> data c <> 0 -> capacity_bytes c < req).
    { intros j c Hj Hc Hdc. specialize (Hno j Hj). unfold data_at, capacity_at in Hno. rewrite Hc in Hno. simpl in Hno.
      apply andb_false_iff in Hno as [H'%negb_false_iff%Z.eqb_eq|H'%Z.leb_gt]; lia. }
    assert (Hk : is_Some (free_list_ p !! k)).
    { destruct (find_index (fun b => data_at (buffers_ p) b =? 0) (free_list_ p)) as [k2|] eqn:E2.
      - injection H as <-. apply find_index_Some in E2 as (i & Hi & _). by eexists.
      - destruct (free_list_ p) as [|x l] eqn:Ef; [done|]. injection H as <-. apply lookup_lt_is_Some. simpl. lia. }
    destruct Hk as [i Hi]. destruct (Hin _ _ Hi) as (b & Hb & Hz & _). exists i, b. eauto 6.
Qed.

Lemma best_fit_None p req : find_best_fit p req = None -> free_list_ p = [].
Proof.
  unfold find_best_fit. destruct (find_index _ _); [done|]. destruct (find_index _ _); [done|].
  by destruct (free_list_ p).
Qed.

Lemma grow_ok p : pool_ok p -> free_list_ p = [] -> (length (buffers_ p) < max_buffer_count_ p)%nat -> pool_ok (grow_slot p).
Proof.
  intros [Hnd Hfree Hs Hc Hst Hr Hn] He Hlt.
  assert (Hl : forall j c, app (buffers_ p) [empty_buffer] !! j = Some c ->
      buffers_ p !! j = Some c \/ (j = length (buffers_ p) /\ c = empty_buffer)).
  { intros j c. rewrite lookup_app_Some. intros [?|[Hge Hj]]; [by left|]. right.
    destruct (j - length (buffers_ p))%nat eqn:Ej; [|done]. simplify_eq/=. split; [lia|done]. }
  constructor; simpl; rewrite ?He, ?length_app; simpl; rewrite ?Nat.add_1_r, ?Nat.sub_succ, ?Nat.sub_0_r.
  - repeat constructor. set_solver.
  - intros i. rewrite list_elem_of_singleton. split.
    + intros ->. exists empty_buffer. by rewrite list_lookup_middle.
    + intros (b & Hb & Hz). destruct (Hl _ _ Hb) as [Hb'|[-> _]]; [|done].
      exfalso. assert (i ∈ free_list_ p) by (apply Hfree; eauto). rewrite He in H. set_solver.
  - by repeat constructor.
  - intros i b Hb. destruct (Hl _ _ Hb) as [Hb'|[-> ->]]; [by eapply Hc|by left].
  - intros i j b c Hb Hc' Hd Hd0. destruct (Hl _ _ Hb) as [Hb'|[-> ->]]; [|done].
    destruct (Hl _ _ Hc') as [Hc''|[-> ->]]; [by eapply Hst|]. by rewrite Hd in Hd0.
  - intros i b Hb. destruct (Hl _ _ Hb) as [Hb'|[-> ->]]; [by eapply Hr|done].
  - lia.
Qed.

Lemma take_acquired p req fresh k : pool_ok p -> fresh_for p fresh -> find_best_fit p req = Some k ->
  exists i p', take_at p k req fresh = (Some i, p') /\ pool_ok p' /\ acquired p p' req i /\ i ∈ free_list_ p.
Proof.
  intros Hok Hf H. destruct (best_fit_Some p req k Hok H) as (i & b & Hk & Hb & Hz & Hcase).
  rewrite (take_at_eq p k i b req fresh Hk Hb). eexists i, _. split; [reflexivity|].
  split; [by apply take_ok|]. split; [|by eapply list_elem_of_lookup_2].
  assert (Hi : (i < length (buffers_ p))%nat) by (by eapply lookup_lt_Some).
  destruct (grown_facts p b req fresh (proj1 Hf)) as (Hg0 & Hgr & Hgc & Hgd & Hsame).
  constructor; simpl.
  - intros b' Hb'. by simplify_eq.
  - exists (taken p b req fresh). by rewrite list_lookup_insert_eq.
  - intros b0 b' Hb0. rewrite list_lookup_insert_eq by done. intros [= <-]. simplify_eq. simpl. by rewrite grown_seq.
  - intros j c Hj Hc. by rewrite list_lookup_insert_ne.
  - intros j Hj Hc. by rewrite list_lookup_insert_ne.
  - intros j c Hj Hc Hd Hreq. destruct Hcase as [(Hd0 & Hrb & Hmin)|Hsmall]; [|specialize (Hsmall j c Hj Hc Hd); lia].
    exists b, (taken p b req fresh). rewrite list_lookup_insert_eq by done.
    destruct (ok_committed p Hok i b Hb) as [[? _]|[_ Hcap]]; [done|]. simpl. rewrite (Hsame Hd0 Hrb Hcap).
    repeat split; try done. by eapply Hmin.
Qed.

(** Waiting is possible only with every buffer in use and no room for another. *)
Definition exhausted (p : StagingPool) : Prop :=
  free_list_ p = [] /\ (grow_mode_ p = Grow -> length (buffers_ p) = max_buffer_count_ p).

Lemma acquire_once_spec p req fresh : pool_ok p -> fresh_for p fresh ->
  exists o p', acquire_once p req fresh = Ok (o, p') /\ pool_ok p' /\
    match o with Some i => acquired p p' req i | None => p' = p /\ exhausted p end.
Proof.
  intros Hok Hf. unfold acquire_once. simpl. destruct (find_best_fit p req) as [k|] eqn:E.
  { destruct (take_acquired p req fresh k Hok Hf E) as (i & p' & -> & Hp & Ha & _). by exists (Some i), p'. }
  apply best_fit_None in E. destruct (bool_decide (grow_mode_ p = Grow)) eqn:Eg; simpl.
  2:{ exists None, p. split; [done|]. split; [done|]. split; [done|]. split; [done|].
      intros Hg. by rewrite Hg in Eg. }
  destruct (Nat.ltb_spec (length (buffers_ p)) (max_buffer_count_ p)) as [Hlt|Hge].
  2:{ exists None, p. split; [done|]. split; [done|]. split; [done|]. split; [done|].
      intros _. pose proof (ok_count p Hok). lia. }
  pose proof (grow_ok p Hok E Hlt) as Hok'.
  assert (Hf' : fresh_for (grow_slot p) fresh).
  { split; [apply Hf|]. intros b. simpl. rewrite elem_of_app, list_elem_of_singleton.
    intros [Hb| ->]; [by apply Hf|]. simpl. intros <-. by destruct Hf. }
  destruct (find_best_fit (grow_slot p) req) as [k|] eqn:E2.
  2:{ apply best_fit_None in E2. simpl in E2. by destruct (free_list_ p). }
  destruct (take_acquired _ req fresh k Hok' Hf' E2) as (i & p' & -> & Hp & Ha & Hi).
  exists (Some i), p'. split; [done|]. split; [done|]. simpl in Hi. rewrite E, length_app in Hi. simpl in Hi.
  apply list_elem_of_singleton in Hi as ->. rewrite Nat.add_sub in Ha. destruct Ha as [_ Hh _ Ho Hnw _].
  rewrite Nat.add_sub. constructor; simpl in *.
  - intros b Hb. apply lookup_lt_Some in Hb. lia.
  - done.
  - intros b b' Hb. apply lookup_lt_Some in Hb. lia.
  - intros j b Hj Hb. apply Ho; [done|]. by apply lookup_app_l_Some.
  - intros j Hj Hb. apply Hnw; [done|]. apply lookup_ge_None in Hb. rewrite lookup_ge_None, length_app. simpl. lia.
  - intros j c Hj. rewrite E in Hj. by apply not_elem_of_nil in Hj.
Qed.

(** ** Executions *)

(** One critical section of some thread, or the owner of a held buffer recording the
    size of its payload.  Holders release what they hold. *)
Inductive pool_step : StagingPool -> StagingPool -> Prop :=
| Acquire p req fresh o p' : fresh_for p fresh -> acquire_once p req fresh = Ok (o, p') -> pool_step p p'
| AcquireTimeout p req fresh o p' : fresh_for p fresh -> acquire_timeout p req fresh = (o, p') -> pool_step p p'
| Release p i b p' : buffers_ p !! i = Some b -> 0 < ref_count b -> release p i = Ok p' -> pool_step p p'
| AddRef p i b p' : buffers_ p !! i = Some b -> 0 < ref_count b -> add_ref p i = Ok p' -> pool_step p p'
| SetUsed p i b n : buffers_ p !! i = Some b -> 0 < ref_count b ->
    pool_step p (with_buffers p (<[i := mkBuffer (data b) (capacity_bytes b) n (ref_count b) (seq b)]> (buffers_ p))
                   (free_list_ p)).

Lemma staging_pool_ok count cap max mode order : Permutation order (List.seq 0 count) -> (count <= max)%nat ->
  pool_ok (staging_pool count cap max mode order).
Proof.
  intros Hp Hle.
  assert (Hb : forall i b, replicate count empty_buffer !! i = Some b -> b = empty_buffer /\ (i < count)%nat)
    by (intros i b; by rewrite lookup_replicate).
  constructor; simpl.
  - rewrite Hp. apply NoDup_seq.
  - intros i. rewrite Hp, elem_of_seq. split.
    + intros [_ Hi]. exists empty_buffer. by rewrite lookup_replicate_2.
    + intros (b & [_ Hi]%Hb & _). lia.
  - clear Hp. induction order as [|x l IH]; constructor; [done|]. apply Forall_forall. intros y _.
    unfold by_capacity, capacity_at.
    assert (H0 : forall i, default 0 (capacity_bytes <$> replicate count empty_buffer !! i) = 0).
    { intros i. destruct (replicate count empty_buffer !! i) eqn:E; [|done]. by apply Hb in E as [-> _]. }
    by rewrite !H0.
  - intros i b [-> _]%Hb. by left.
  - intros i j b c [-> _]%Hb _ _. done.
  - intros i b [-> _]%Hb. done.
  - rewrite length_replicate. by case_bool_decide.
Qed.

(** A held buffer changed in its counters only, and whether it is free now. *)
Lemma recount_ok p i b n used : pool_ok p -> buffers_ p !! i = Some b -> 0 < ref_count b -> 0 <= n ->
  let b' := mkBuffer (data b) (capacity_bytes b) used n (seq b) in
  let bs := <[i := b']> (buffers_ p) in
  pool_ok (with_buffers p bs (if n =? 0 then insert_sorted bs (free_list_ p) i else free_list_ p)).
Proof.
  intros [Hnd Hfree Hs Hc Hst Hr Hn] Hb Hpos Hn0 b' bs.
  assert (Hi : (i < length (buffers_ p))%nat) by (by eapply lookup_lt_Some).
  assert (Hl : forall j c, bs !! j = Some c -> (j = i /\ c = b') \/ (j <> i /\ buffers_ p !! j = Some c)).
  { intros j c. unfold bs. rewrite list_lookup_insert_Some. naive_solver. }
  assert (Hni : i ∉ free_list_ p).
  { intros (c & Hc1 & Hc2)%Hfree. simplify_eq. lia. }
  assert (Hcap : forall j, capacity_at bs j = capacity_at (buffers_ p) j).
  { intros j. unfold bs. rewrite capacity_insert by done. destruct (decide (i = j)) as [<-|]; [|done].
    unfold capacity_at. by rewrite Hb. }
  assert (Hs' : StronglySorted (by_capacity bs) (free_list_ p)).
  { revert Hs. apply sorted_ext. intros x y _ _. unfold by_capacity. by rewrite !Hcap. }
  assert (Hmem : forall j, j ∈ (if n =? 0 then insert_sorted bs (free_list_ p) i else free_list_ p) <->
      (j = i /\ n = 0) \/ j ∈ free_list_ p).
  { intros j. destruct (Z.eqb_spec n 0); [rewrite insert_sorted_perm|]; set_solver. }
  constructor; simpl.
  - destruct (n =? 0); [|done]. rewrite insert_sorted_perm. by constructor.
  - intros j. rewrite Hmem, Hfree. split.
    + intros [[-> ->]|(c & Hc1 & Hc2)].
      * exists b'. unfold bs. by rewrite list_lookup_insert_eq.
      * exists c. unfold bs. rewrite list_lookup_insert_ne; [done|]. intros <-. simplify_eq. lia.
    + intros (c & Hc1 & Hc2). destruct (Hl _ _ Hc1) as [[-> ->]|[? Hc3]]; [by left|right; eauto].
  - destruct (n =? 0); [by apply insert_sorted_ok|done].
  - intros j c Hj. destruct (Hl _ _ Hj) as [[-> ->]|[? Hj']]; [by apply (Hc i b)|by eapply Hc].
  - intros j1 j2 c1 c2 H1 H2.
    destruct (Hl _ _ H1) as [[-> ->]|[? H1']], (Hl _ _ H2) as [[-> ->]|[? H2']];
      [done|by apply (Hst i j2 b c2)|by apply (Hst j1 i c1 b)|by eapply Hst].
  - intros j c Hj. destruct (Hl _ _ Hj) as [[-> ->]|[? Hj']]; [done|by eapply Hr].
  - unfold bs. by rewrite length_insert.
Qed.

(** A buffer that is held keeps its storage. *)
Definition keeps (p p' : StagingPool) : Prop := forall i b, buffers_ p !! i = Some b -> 0 < ref_count b ->
  exists b', buffers_ p' !! i = Some b' /\ data b' = data b /\ capacity_bytes b' = capacity_bytes b /\ seq b' = seq b.

Lemma acquired_keeps p p' req i : acquired p p' req i -> keeps p p'.
Proof.
  intros [Hf _ _ Ho _ _] j b Hb Hpos. exists b. rewrite (Ho j b); [done| |done]. intros ->. rewrite (Hf b Hb) in Hpos. lia.
Qed.

Lemma recount_keeps p i b n used f : buffers_ p !! i = Some b ->
  keeps p (with_buffers p (<[i := mkBuffer (data b) (capacity_bytes b) used n (seq b)]> (buffers_ p)) f).
Proof.
  intros Hb j c Hc _. simpl. destruct (decide (i = j)) as [<-|].
  - rewrite list_lookup_insert_eq by (by eapply lookup_lt_Some). simplify_eq. by eexists.
  - rewrite list_lookup_insert_ne by done. by exists c.
Qed.

Lemma step_ok p p' : pool_step p p' -> pool_ok p -> pool_ok p' /\ keeps p p'.
Proof.
  intros H Hok. destruct H as [p req fresh o p' Hf E|p req fresh o p' Hf E|p i b p' Hb Hpos E|p i b p' Hb Hpos E|p i b n Hb Hpos].
  - destruct (acquire_once_spec p req fresh Hok Hf) as (o' & p'' & E' & Hp & Ho). rewrite E' in E. injection E as <- <-.
    split; [done|]. destruct o' as [i|]; [by eapply acquired_keeps|]. destruct Ho as [-> _]. intros i b Hb _. by exists b.
  - unfold acquire_timeout in E. destruct (find_best_fit p req) as [k|] eqn:Ek.
    + destruct (take_acquired p req fresh k Hok Hf Ek) as (i & p'' & E' & Hp & Ha & _). rewrite E' in E.
      injection E as <- <-. split; [done|]. by eapply acquired_keeps.
    + injection E as <- <-. split; [done|]. intros i b Hb _. by exists b.
  - unfold release in E. rewrite Hb in E. cbn [cval] in E. unfold csub, cval in E. cbn [bind] in E.
    apply bind_Ok_inv in E as (n & Hn%arith_inv & E). destruct Hn as [-> _].
    destruct (Z.eqb_spec (ref_count b - 1) 0) as [Hz|Hz]; injection E as <-.
    + pose proof (recount_ok p i b (ref_count b - 1) 0 Hok Hb Hpos ltac:(lia)) as Hr. simpl in Hr.
      rewrite (proj2 (Z.eqb_eq _ _) Hz) in Hr. split; [exact Hr|]. by apply recount_keeps.
    + pose proof (recount_ok p i b (ref_count b - 1) (used_bytes b) Hok Hb Hpos ltac:(lia)) as Hr. simpl in Hr.
      rewrite (proj2 (Z.eqb_neq _ _) Hz) in Hr. split; [exact Hr|]. by apply recount_keeps.
  - unfold add_ref in E. rewrite Hb in E. unfold cadd, cval in E. cbn [bind] in E.
    apply bind_Ok_inv in E as (n & Hn%arith_inv & E). destruct Hn as [-> _]. injection E as <-.
    pose proof (recount_ok p i b (ref_count b + 1) (used_bytes b) Hok Hb Hpos ltac:(lia)) as Hr. simpl in Hr.
    rewrite (proj2 (Z.eqb_neq _ _)) in Hr by lia. split; [exact Hr|]. by apply recount_keeps.
  - pose proof (recount_ok p i b (ref_count b) n Hok Hb Hpos ltac:(lia)) as Hr. simpl in Hr.
    rewrite (proj2 (Z.eqb_neq _ _)) in Hr by lia. split; [exact Hr|]. by apply recount_keeps.
Qed.

Lemma reachable_pool_ok p p' : rtc pool_step p p' -> pool_ok p -> pool_ok p'.
Proof. induction 1 as [|p q r Hs _ IH]; [done|]. intros Hok. apply IH. by apply (step_ok p q). Qed.

(** C15. The staging pool under any interleaving of its callers: a call of [acquire]
    that need not wait gets a buffer nobody held, with enough storage, reusing the
    smallest storage that fits; it waits, and gives up, only when every buffer is in
    use and the pool has no room for another; a held buffer keeps its storage and its
    generation whatever the others do, so that no view is ever reallocated under its
    reader; distinct buffers never share storage; and the pool never outgrows its
    ceiling. *)
Theorem pool_safe count cap max mode order p :
  Permutation order (List.seq 0 count) -> (count <= max)%nat ->
  rtc pool_step (staging_pool count cap max mode order) p ->
  (forall req fresh, fresh_for p fresh -> exists o p', acquire_once p req fresh = Ok (o, p') /\
     match o with Some i => acquired p p' req i | None => p' = p /\ exhausted p end) /\
  (forall req fresh, fresh_for p fresh -> match acquire_timeout p req fresh with
     | (Some i, p') => acquired p p' req i | (None, p') => p' = p /\ free_list_ p = [] end) /\
  (forall p', pool_step p p' -> keeps p p') /\
  (forall i j b c, buffers_ p !! i = Some b -> buffers_ p !! j = Some c -> data b = data c -> data b <> 0 -> i = j) /\
  (forall i, i ∈ free_list_ p <-> exists b, buffers_ p !! i = Some b /\ ref_count b = 0) /\
  (length (buffers_ p) <= max_buffer_count_ p)%nat.
Proof.
  intros Hp Hle Hr. pose proof (reachable_pool_ok _ _ Hr (staging_pool_ok _ cap _ mode _ Hp Hle)) as Hok.
  split; [|split; [|split; [|split; [|split]]]].
  - intros req fresh Hf. destruct (acquire_once_spec p req fresh Hok Hf) as (o & p' & E & _ & Ho). eauto.
  - intros req fresh Hf. unfold acquire_timeout. destruct (find_best_fit p req) as [k|] eqn:Ek.
    + destruct (take_acquired p req fresh k Hok Hf Ek) as (i & p' & -> & _ & Ha & _). done.
    + split; [done|]. by eapply best_fit_None.
  - intros p' Hs. by apply (step_ok p p').
  - apply (ok_storage p Hok).
  - apply (ok_free p Hok).
  - apply (ok_count p Hok).
Qed.

(** Two buffers of at least 100 bytes, the first one held; the second is free again and is
    reused for 150 bytes although a new slot could be added. *)
Definition demo_pool : StagingPool :=
  mkPool [mkBuffer 1000 100 80 1 1; mkBuffer 2000 200 0 0 1] [1%nat] 2 8 100 Grow false.

Example pool_safe_witness :
  rtc pool_step (staging_pool 2 100 8 Grow [0; 1]%nat) demo_pool /\
  match acquire_once demo_pool 150 3000 with
  | Ok (Some i, p') => i = 1%nat /\ acquired demo_pool p' 150 i
  | _ => False
  end.
Proof.
  assert (H : rtc pool_step (staging_pool 2 100 8 Grow [0; 1]%nat) demo_pool).
  { eapply rtc_l; [eapply (Acquire _ 80 1000); [|reflexivity]; split; [done|];
      intros b Hb; simpl in Hb; set_unfold in Hb; destruct Hb as [-> |[-> |[]]]; done|].
    eapply rtc_l; [eapply (SetUsed _ 0 _ 80); reflexivity|].
    eapply rtc_l; [eapply (Acquire _ 200 2000); [|reflexivity]; split; [done|];
      intros b Hb; simpl in Hb; set_unfold in Hb; destruct Hb as [-> |[-> |[]]]; done|].
    eapply rtc_l; [eapply (Release _ 1); reflexivity|]. apply rtc_refl. }
  split; [exact H|].
  destruct (pool_safe 2 100 8 Grow [0; 1]%nat demo_pool (reflexivity _) ltac:(lia) H) as [Ha _].
  destruct (Ha 150 3000) as (o & p' & E & Ho).
  { split; [done|]. intros b Hb; simpl in Hb; set_unfold in Hb; destruct Hb as [-> |[-> |[]]]; done. }
  rewrite E. assert (E2 : o = Some 1%nat) by (vm_compute in E; congruence). subst o. by split.
Defined.
