(* ===== verification/ListExtra.v ===== *)
(** * Lemmas on stdpp lists shared by the concurrent components *)
From Stdlib Require Import ZArith Lia.
From stdpp Require Import base list numbers.

Lemma omap_middle {A B} (f : A -> option B) l1 x l2 :
  omap f (l1 ++ x :: l2) = omap f l1 ++ (if f x is Some y then [y] else []) ++ omap f l2.
Proof. rewrite omap_app. simpl. by destruct (f x). Qed.

Lemma prefix_grow {A} (l1 l : list A) x : l1 `prefix_of` l -> l !! length l1 = Some x -> l1 ++ [x] `prefix_of` l.
Proof.
  intros [r ->]. rewrite lookup_app_r, Nat.sub_diag by done. destruct r as [|y r]; [done|]. intros [= ->].
  exists r. by rewrite <- app_assoc.
Qed.

Lemma NoDup_drop_middle {A} (l1 : list A) x l2 : NoDup (l1 ++ x :: l2) -> x ∉ l1 ++ l2 /\ NoDup (l1 ++ l2).
Proof. intros H. rewrite <- Permutation_middle in H. by apply list.NoDup_cons in H. Qed.

Lemma elem_of_middle {A} (l1 : list A) x l2 y : y ∈ l1 ++ x :: l2 <-> y = x \/ y ∈ l1 ++ l2.
Proof. rewrite !elem_of_app, elem_of_cons. tauto. Qed.

(** ** Sums over a list *)

Fixpoint total {A} (f : A -> Z) (l : list A) : Z := match l with [] => 0 | x :: l => f x + total f l end%Z.

Lemma total_concat {A} (f : A -> Z) l1 l2 : total f (l1 ++ l2) = (total f l1 + total f l2)%Z.
Proof. induction l1 as [|x l1 IH]; [done|]. cbn in *. rewrite IH. apply Z.add_assoc. Qed.

Lemma total_insert {A} (f : A -> Z) l i x y : l !! i = Some x -> total f (<[i := y]> l) = (total f l - f x + f y)%Z.
Proof.
  revert i. induction l as [|z l IH]; intros [|i] H; try done.
  - injection H as ->. cbn. lia.
  - change (<[S i := y]> (z :: l)) with (z :: <[i := y]> l). cbn [total]. rewrite (IH i H). lia.
Qed.

Lemma total_delete {A} (f : A -> Z) l i x : l !! i = Some x -> total f (delete i l) = (total f l - f x)%Z.
Proof.
  revert i. induction l as [|z l IH]; intros [|i] H; try done.
  - injection H as ->. cbn. lia.
  - change (delete (S i) (z :: l)) with (z :: delete i l). cbn [total]. rewrite (IH i H). lia.
Qed.

Lemma total_ext {A} (f g : A -> Z) l : Forall (fun x => f x = g x) l -> total f l = total g l.
Proof. induction 1 as [|x l Hx _ IH]; [done|]. cbn. by rewrite Hx, IH. Qed.

Lemma total_zero {A} (f : A -> Z) l : Forall (fun x => f x = 0%Z) l -> total f l = 0%Z.
Proof. induction 1 as [|x l Hx _ IH]; [done|]. cbn. by rewrite Hx, IH. Qed.

Lemma total_bounds {A} (f : A -> Z) l : Forall (fun x => 0 <= f x <= 1)%Z l -> (0 <= total f l <= Z.of_nat (length l))%Z.
Proof. induction 1 as [|x l Hx _ IH]; [done|]. cbn [total length]. lia. Qed.

Lemma total_elem {A} (f : A -> Z) l i x : Forall (fun x => 0 <= f x)%Z l -> l !! i = Some x -> (f x <= total f l)%Z.
Proof.
  intros H. revert i. induction H as [|y l Hy H IH]; intros [|i] Hi; cbn in *; try done.
  - injection Hi as ->. assert (0 <= total f l)%Z; [|lia]. clear -H. induction H as [|z l Hz _ IH]; cbn; lia.
  - specialize (IH i Hi). lia.
Qed.
