(* ===== verification/AmioErrors.v ===== *)
(** * AMIO: status codes, exception cordon and outcome registry
    ([amio/include/amio/amio_errors.h], [workers/exception_bridge.cpp], [workers/comm_split.cpp],
    [workers/mpi_threading.cpp])

    A callback ends normally or with an exception, [StdExn] when the exception derives
    from [std::exception].  Messages and the text of stack traces are left out; what is
    kept of a trace is that it was emitted, with which code and severity, and when. *)
From Stdlib Require Import ZArith Lia.
From stdpp Require Import base list gmap numbers strings pretty.
From S2P Require Import Prelude CInt CType.
Local Open Scope Z_scope.

(** ** Status codes *)

Definition AMIO_OK : Z := 0.
Definition AMIO_ERR_NULL_HANDLE : Z := 1.
Definition AMIO_ERR_INVALID_HANDLE : Z := 2.
Definition AMIO_ERR_MANIFEST_NOT_FOUND : Z := 3.
Definition AMIO_ERR_MANIFEST_INVALID : Z := 4.
Definition AMIO_ERR_FINALIZE_TIMEOUT : Z := 6.
Definition AMIO_ERR_STAGING_BACKPRESSURE : Z := 7.
Definition AMIO_ERR_COMM_SPLIT_FAILED : Z := 9.
Definition AMIO_ERR_THREADING_UNSUPPORTED : Z := 10.
Definition AMIO_ERR_UNKNOWN_BACKEND : Z := 11.
Definition AMIO_ERR_LOSSY_CODEC_FORBIDDEN : Z := 12.
Definition AMIO_ERR_QUEUE_FULL : Z := 14.
Definition AMIO_ERR_TIMEOUT : Z := 15.
Definition AMIO_ERR_BACKEND_FAILURE : Z := 16.
Definition AMIO_ERR_INVALID_INPUT : Z := 17.

(** ** Exception translation *)

Inductive thrown : Type := StdExn (e : exn) | NonStd.

(** [conf::Conf_Error] and [std::invalid_argument] are caught before [std::exception];
    the numbers are those of [conf::Error_Code]. *)
Definition translate_exception_to_error (t : thrown) : Z :=
  match t with
  | StdExn (conf_error code) =>
      if code =? 2 then AMIO_ERR_MANIFEST_NOT_FOUND
      else if (code =? 3) || (code =? 4) then AMIO_ERR_MANIFEST_INVALID
      else if (code =? 5) || (code =? 1) then AMIO_ERR_INVALID_INPUT
      else AMIO_ERR_BACKEND_FAILURE
  | StdExn invalid_argument => AMIO_ERR_INVALID_INPUT
  | StdExn _ => AMIO_ERR_BACKEND_FAILURE
  | NonStd => AMIO_ERR_BACKEND_FAILURE
  end.

Definition is_unrecoverable (error_code : Z) : bool :=
  (error_code =? AMIO_ERR_COMM_SPLIT_FAILED) || (error_code =? AMIO_ERR_THREADING_UNSUPPORTED)
  || (error_code =? AMIO_ERR_FINALIZE_TIMEOUT).

Inductive Severity_Level : Type := DEBUG | INFO | WARNING | ERROR | FATAL.

Definition trace_severity (error_code : Z) : Severity_Level := if is_unrecoverable error_code then FATAL else ERROR.

(** ** Outcome registry: handle identifiers to the outcomes recorded for them *)

Definition is_failure (outcome : Z) : bool := negb (outcome =? AMIO_OK).

Abbreviation OutcomeRegistry := (gmap Z (list Z)).

Definition record (r : OutcomeRegistry) (handle_id outcome : Z) : OutcomeRegistry :=
  <[handle_id := default [] (r !! handle_id) ++ [outcome]]> r.

Definition get_outcomes (r : OutcomeRegistry) (handle_id : Z) : list Z := default [] (r !! handle_id).

Definition has_failure (r : OutcomeRegistry) (handle_id : Z) : bool :=
  match r !! handle_id with None => false | Some l => existsb is_failure l end.

Fixpoint first_failure (l : list Z) : Z :=
  match l with [] => AMIO_OK | o :: rest => if is_failure o then o else first_failure rest end.

Definition get_first_failure (r : OutcomeRegistry) (handle_id : Z) : Z :=
  match r !! handle_id with None => AMIO_OK | Some l => first_failure l end.

Definition clear (r : OutcomeRegistry) (handle_id : Z) : OutcomeRegistry := delete handle_id r.

Definition clear_all (r : OutcomeRegistry) : OutcomeRegistry := ∅.

Definition failure_count (r : OutcomeRegistry) : nat :=
  map_fold (fun _ l count => if existsb is_failure l then S count else count) O r.

(** ** The cordon *)

Inductive diagnostic : Type :=
| Emitted (severity : Severity_Level) (error_code : Z)
| Recorded (handle_id error_code : Z).

(** [ran] is how the callback ended; an empty [std::function] ends normally. *)
Definition execute_with_exception_cordon (ran : option thrown) (handle_id : Z) (r : OutcomeRegistry)
    : Z * OutcomeRegistry * list diagnostic :=
  match ran with
  | None => (AMIO_OK, r, [])
  | Some t =>
      let error_code := translate_exception_to_error t in
      (error_code, record r handle_id error_code, [Emitted (trace_severity error_code) error_code; Recorded handle_id error_code])
  end.

(** ** Communicator split and threading level *)

Record CommConfig : Type := mkCommConfig { io_ranks : list Z; world_size : Z }.

Definition comm_is_default (c : CommConfig) : bool := bool_decide (io_ranks c = []).

Fixpoint check_ranks (ranks : list Z) (world : Z) (seen : gset Z) : Z :=
  match ranks with
  | [] => AMIO_OK
  | rank :: rest =>
      if (rank <? 0) || (world <=? rank) then AMIO_ERR_COMM_SPLIT_FAILED
      else if bool_decide (rank ∈ seen) then AMIO_ERR_COMM_SPLIT_FAILED
      else check_ranks rest world ({[rank]} ∪ seen)
  end.

Definition validate_comm_config (c : CommConfig) : Z :=
  if comm_is_default c then AMIO_OK
  else if world_size c <=? 0 then AMIO_ERR_COMM_SPLIT_FAILED
  else if world_size c <=? to_i32 (Z.of_nat (length (io_ranks c))) then AMIO_ERR_COMM_SPLIT_FAILED
  else check_ranks (io_ranks c) (world_size c) ∅.

(** [mpi_split color] is whether HALO's split succeeds for the color of this rank; the
    result is the status and, when it is [AMIO_OK], whether this rank does I/O and the
    color of the communicator it holds ([None]: the parent communicator). *)
Definition split_communicator (mpi_split : Z -> bool) (c : CommConfig) (my_rank : Z) : Z * option (bool * option Z) :=
  if comm_is_default c then (AMIO_OK, Some (true, None))
  else
    let validation := validate_comm_config c in
    if negb (validation =? AMIO_OK) then (validation, None)
    else if (my_rank <? 0) || (world_size c <=? my_rank) then (AMIO_ERR_COMM_SPLIT_FAILED, None)
    else
      let is_io := bool_decide (my_rank ∈ io_ranks c) in
      let color := if is_io then 0 else 1 in
      if mpi_split color then (AMIO_OK, Some (is_io, Some color)) else (AMIO_ERR_COMM_SPLIT_FAILED, None).

Definition kMpiThreadMultiple : Z := 3.

Definition validate_mpi_threading (requires_background_mpi_io : bool) (provided : Z) : Z :=
  if negb requires_background_mpi_io then AMIO_OK
  else if provided <? kMpiThreadMultiple then AMIO_ERR_THREADING_UNSUPPORTED
  else AMIO_OK.

(** ** Lemmas *)

Lemma check_ranks_spec ranks world : forall seen,
  check_ranks ranks world seen = AMIO_OK <->
  Forall (fun x => 0 <= x < world) ranks /\ NoDup ranks /\ (forall x, x ∈ ranks -> x ∉ seen).
Proof.
  induction ranks as [|x l IH]; intros seen; simpl.
  - split; [|done]. intros _. split; [constructor|]. split; [constructor|]. set_solver.
  - rewrite list.Forall_cons, list.NoDup_cons. destruct (Z.ltb_spec x 0), (Z.leb_spec world x); simpl; try (split; [done|lia]).
    destruct (bool_decide_reflect (x ∈ seen)); [split; [done|set_solver]|]. rewrite IH. set_solver by lia.
Qed.

Lemma check_ranks_code ranks world : forall seen,
  check_ranks ranks world seen = AMIO_OK \/ check_ranks ranks world seen = AMIO_ERR_COMM_SPLIT_FAILED.
Proof.
  induction ranks as [|x l IH]; intros seen; simpl; [by left|].
  destruct (_ || _); [by right|]. destruct (bool_decide _); [by right|]. apply IH.
Qed.

(** A requested split that is well formed. *)
Definition split_ok (c : CommConfig) : Prop :=
  Z.of_nat (length (io_ranks c)) < world_size c /\ Forall (fun x => 0 <= x < world_size c) (io_ranks c) /\ NoDup (io_ranks c).

Lemma validate_comm_config_spec c : world_size c < 2147483648 -> Z.of_nat (length (io_ranks c)) < 2147483648 ->
  (validate_comm_config c = AMIO_OK <-> io_ranks c = [] \/ split_ok c) /\
  (validate_comm_config c = AMIO_OK \/ validate_comm_config c = AMIO_ERR_COMM_SPLIT_FAILED).
Proof.
  intros Hw Hl. unfold validate_comm_config, comm_is_default, split_ok.
  destruct (bool_decide_reflect (io_ranks c = [])) as [He|He]; [split; [tauto|by left]|].
  rewrite to_i32_id by (simpl imin; simpl imax; lia). destruct (Z.leb_spec (world_size c) 0); [split; [split; [done|intros [?|(? & _)]; [done|lia]]|by right]|].
  destruct (Z.leb_spec (world_size c) (Z.of_nat (length (io_ranks c)))); [split; [split; [done|intros [?|(? & _)]; [done|lia]]|by right]|].
  split; [|apply check_ranks_code]. rewrite check_ranks_spec. split.
  - intros (? & ? & _). right. split; [lia|]. by split.
  - intros [?|(_ & ? & ?)]; [done|]. split; [done|]. split; [done|]. set_solver.
Qed.

Lemma translate_failure t : is_failure (translate_exception_to_error t) = true.
Proof. destruct t as [[| | | | |code]|]; simpl; try done. by destruct (code =? 2), (code =? 3), (code =? 4), (code =? 5), (code =? 1). Qed.

Lemma first_failure_spec l : first_failure l = default AMIO_OK (list_find (fun o => is_failure o = true) l ≫= fun p => Some p.2).
Proof.
  induction l as [|o l IH]; simpl; [done|]. destruct (is_failure o) eqn:E.
  - by rewrite decide_True.
  - rewrite decide_False by congruence. rewrite IH. by destruct (list_find _ l) as [[]|].
Qed.

Lemma failure_count_spec r :
  failure_count r = size (filter (fun kv : Z * list Z => existsb is_failure kv.2 = true) r).
Proof.
  unfold failure_count. apply (map_fold_weak_ind (fun n m =>
    n = size (filter (fun kv : Z * list Z => existsb is_failure kv.2 = true) m))); [done|].
  intros i l m n Hi IH. destruct (existsb is_failure l) eqn:E.
  - rewrite map_filter_insert_True by done. rewrite map_size_insert_None; [lia|].
    rewrite map_lookup_filter_None. by left.
  - rewrite map_filter_insert_False by (simpl; congruence). by rewrite delete_id.
Qed.

(** ** Properties *)

(** The cordon contains every exception: it reports success and records nothing
    when the callback returns; otherwise it reports a nonzero code and appends it to the
    outcomes of the handle, and of that handle only, after the trace was emitted.
    [has_failure], [get_first_failure] and [failure_count] agree with the recorded
    lists. *)
Theorem exception_cordon_correct ran handle_id (r : OutcomeRegistry) :
  let '(code, r', events) := execute_with_exception_cordon ran handle_id r in
  match ran with
  | None => code = AMIO_OK /\ r' = r /\ events = []
  | Some t =>
      code = translate_exception_to_error t /\ code <> AMIO_OK /\
      (exists severity, events = [Emitted severity code; Recorded handle_id code]) /\
      get_outcomes r' handle_id = get_outcomes r handle_id ++ [code] /\
      (forall h, h <> handle_id -> get_outcomes r' h = get_outcomes r h) /\
      has_failure r' handle_id = true /\
      get_first_failure r' handle_id = (if has_failure r handle_id then get_first_failure r handle_id else code)
  end /\
  (forall h, has_failure r' h = existsb is_failure (get_outcomes r' h)) /\
  failure_count r' = size (filter (fun kv : Z * list Z => existsb is_failure kv.2 = true) r').
Proof.
  unfold execute_with_exception_cordon. 
  assert (Hd : forall (q : OutcomeRegistry) h, has_failure q h = existsb is_failure (get_outcomes q h))
    by (intros q h; unfold has_failure, get_outcomes; by destruct (q !! h)).
  destruct ran as [t|]; (split; [|split; [apply Hd|apply failure_count_spec]]); [|done].
  pose proof (translate_failure t) as Ht. set (code := translate_exception_to_error t) in *.
  assert (Hg : get_outcomes (record r handle_id code) handle_id = get_outcomes r handle_id ++ [code])
    by (unfold get_outcomes, record; by rewrite lookup_insert_eq).
  split; [done|]. split; [intros E; by rewrite E in Ht|]. split; [by eexists|]. split; [done|]. split; [|split].
  - intros h Hh. unfold get_outcomes, record. by rewrite lookup_insert_ne.
  - by rewrite Hd, Hg, existsb_app; simpl; rewrite Ht, orb_true_r.
  - rewrite Hd. unfold get_first_failure, record. rewrite lookup_insert_eq. unfold get_outcomes.
    destruct (r !! handle_id) as [l|]; simpl; [|by rewrite Ht].
    induction l as [|o l IH]; simpl; [by rewrite Ht|]. by destruct (is_failure o).
Qed.

(** A communicator split is accepted exactly when no I/O ranks are requested or they
    are distinct ranks of the world that leave at least one compute rank; every rank then
    learns its role, and with a working MPI the I/O ranks share one color and the compute
    ranks the other.  Whatever fails, the status is [AMIO_ERR_COMM_SPLIT_FAILED]. *)
Theorem split_communicator_correct mpi_split c my_rank :
  world_size c < 2147483648 -> Z.of_nat (length (io_ranks c)) < 2147483648 ->
  match split_communicator mpi_split c my_rank with
  | (status, Some (is_io, color)) =>
      status = AMIO_OK /\
      ((io_ranks c = [] /\ is_io = true /\ color = None) \/
       (split_ok c /\ 0 <= my_rank < world_size c /\ (is_io = true <-> my_rank ∈ io_ranks c) /\
        color = Some (if is_io then 0 else 1) /\ mpi_split (if is_io then 0 else 1) = true))
  | (status, None) =>
      status = AMIO_ERR_COMM_SPLIT_FAILED /\ io_ranks c <> [] /\
      (split_ok c -> 0 <= my_rank < world_size c -> mpi_split (if bool_decide (my_rank ∈ io_ranks c) then 0 else 1) = false)
  end.
Proof.
  intros Hw Hl. destruct (validate_comm_config_spec c Hw Hl) as [Hv Hcode]. unfold split_communicator, comm_is_default.
  destruct (bool_decide_reflect (io_ranks c = [])) as [He|He]; [split; [done|by left]|].
  destruct (Z.eqb_spec (validate_comm_config c) AMIO_OK) as [Hok|Hbad]; simpl.
  - apply Hv in Hok as [?|Hs]; [done|].
    destruct (Z.ltb_spec my_rank 0); simpl; [split; [done|split; [done|lia]]|].
    destruct (Z.leb_spec (world_size c) my_rank); simpl; [split; [done|split; [done|lia]]|].
    destruct (mpi_split _) eqn:E; [|split; [done|split; [done|done]]].
    split; [done|]. right. split; [done|]. split; [lia|]. split; [apply bool_decide_eq_true|]. done.
  - destruct Hcode as [?|Hc]; [done|]. split; [done|]. split; [done|]. intros Hs. exfalso. apply Hbad, Hv. by right.
Qed.

Lemma split_communicator_correct_witness :
  split_communicator (fun _ => true) (mkCommConfig [0; 2] 4) 2 = (AMIO_OK, Some (true, Some 0)) /\
  (true = true <-> 2 ∈ io_ranks (mkCommConfig [0; 2] 4)).
Proof.
  pose proof (split_communicator_correct (fun _ => true) (mkCommConfig [0; 2] 4) 2 ltac:(reflexivity) ltac:(reflexivity)) as H.
  split; [vm_compute; reflexivity|].
  assert (E : split_communicator (fun _ => true) (mkCommConfig [0; 2] 4) 2 = (AMIO_OK, Some (true, Some 0))) by (vm_compute; reflexivity).
  rewrite E in H. destruct H as (_ & [(He & _)|(_ & _ & Hio & _)]); [discriminate He|exact Hio].
Defined.

(** ** Descriptions of status codes ([amio/src/c_boundary/amio_strerror.cpp])

    [%d] of [std::snprintf] is the decimal numeral; the thread-local buffer of 64 bytes
    keeps 63 characters.  Lifetime of the returned pointer: the text of an undefined code
    is overwritten by the next such call of the same thread. *)

Definition kAmioErrorTable : list string :=
  ["AMIO_OK: success";
   "AMIO_ERR_NULL_HANDLE: null opaque handle";
   "AMIO_ERR_INVALID_HANDLE: handle never initialized, finalized, released, or stale (generation mismatch)";
   "AMIO_ERR_MANIFEST_NOT_FOUND: manifest path missing or unreadable";
   "AMIO_ERR_MANIFEST_INVALID: manifest failed schema validation";
   "AMIO_ERR_ALREADY_INITIALIZED: amio_init invoked twice on the same handle";
   "AMIO_ERR_FINALIZE_TIMEOUT: finalize drain phase exceeded its 30-second bound";
   "AMIO_ERR_STAGING_BACKPRESSURE: no staging buffer became available within the configured staging timeout";
   "AMIO_ERR_INVALID_BINDING: requested CPU core or NUMA domain is not present or not permitted";
   "AMIO_ERR_COMM_SPLIT_FAILED: MPI communicator split failed or I/O rank set is not a subset of world";
   "AMIO_ERR_THREADING_UNSUPPORTED: host did not initialize MPI with at least MPI_THREAD_MULTIPLE";
   "AMIO_ERR_UNKNOWN_BACKEND: configuration backend key does not match any registered driver";
   "AMIO_ERR_LOSSY_CODEC_FORBIDDEN: requested codec is not on the lossless allow-list";
   "AMIO_ERR_VIEWS_OUTSTANDING: dataset close called while one or more Memory_Views are still outstanding";
   "AMIO_ERR_QUEUE_FULL: worker queue depth would exceed capacity and backpressure is not configured";
   "AMIO_ERR_TIMEOUT: synchronous wait, flush, or read exceeded its configured timeout";
   "AMIO_ERR_BACKEND_FAILURE: backend driver reported a serialization or deserialization failure";
   "AMIO_ERR_INVALID_INPUT: null host pointer, unsupported dtype, or invalid shape descriptor"]%string.

Definition kUnknownBufferBytes : nat := 64.

(** [std::snprintf] into a buffer of [n] bytes. *)
Definition snprintf (n : nat) (text : string) : string := String.substring 0 (n - 1) text.

Definition amio_strerror (err : Z) : string :=
  if (0 <=? err) && (Z.to_nat err <? length kAmioErrorTable)%nat then default ""%string (kAmioErrorTable !! Z.to_nat err)
  else snprintf kUnknownBufferBytes ("AMIO_ERR_UNKNOWN(" ++ pretty err ++ ")").

(** ** Numerals fit the buffer *)

Lemma pretty_N_go_length k (x : N) s : (x < 10 ^ N.of_nat k)%N -> (String.length (pretty_N_go x s) <= k + String.length s)%nat.
Proof.
  revert x s. induction k as [|k IH]; intros x s H.
  - cbn in H. replace x with 0%N by lia. rewrite pretty_N_go_0. lia.
  - destruct (decide (x = 0)%N) as [->|Hx]; [rewrite pretty_N_go_0; lia|]. rewrite pretty_N_go_step by lia.
    etrans; [apply IH|cbn; lia]. rewrite Nat2N.inj_succ, N.pow_succ_r' in H. apply N.Div0.div_lt_upper_bound. lia.
Qed.

(** A value of type [int] has at most 11 characters. *)
Lemma pretty_int_length (z : Z) : -2147483648 <= z < 2147483648 -> (String.length (pretty z) <= 11)%nat.
Proof.
  intros H. assert (Hp : forall p, Z.pos p <= 2147483648 -> (String.length (pretty (N.pos p)) <= 10)%nat).
  { intros p Hp. unfold pretty, pretty_N. rewrite decide_False by done. etrans; [apply (pretty_N_go_length 10)|cbn; lia].
    change (10 ^ N.of_nat 10)%N with 10000000000%N. lia. }
  destruct z as [|p|p]; unfold pretty, pretty_Z; [cbn; lia| |].
  - etrans; [apply Hp; lia|lia].
  - unfold pretty, pretty_positive. rewrite length_append. specialize (Hp p ltac:(lia)). cbn [String.length]. lia.
Qed.

Lemma append_tail_inj (a b : string) (c : Ascii.ascii) : (a ++ String c "")%string = (b ++ String c "")%string -> a = b.
Proof.
  revert b. induction a as [|x a IH]; intros [|y b] H; cbn in H; [done| | |].
  - injection H as _ H. by destruct b.
  - injection H as _ H. by destruct a.
  - injection H as -> H. f_equal. by apply IH.
Qed.

(** The description of an undefined code is not cut. *)
Lemma strerror_unknown err : -2147483648 <= err < 2147483648 -> err < 0 \/ 18 <= err ->
  amio_strerror err = ("AMIO_ERR_UNKNOWN(" ++ pretty err ++ ")")%string.
Proof.
  intros Hi Hr. unfold amio_strerror.
  replace ((0 <=? err) && (Z.to_nat err <? length kAmioErrorTable)%nat) with false.
  - apply substring_all. rewrite !length_append. pose proof (pretty_int_length err Hi). cbn [String.length]. unfold kUnknownBufferBytes. lia.
  - symmetry. apply andb_false_iff. destruct Hr; [left; lia|right]. apply Nat.ltb_ge. cbn. lia.
Qed.

Lemma strerror_known err : 0 <= err < 18 -> kAmioErrorTable !! Z.to_nat err = Some (amio_strerror err).
Proof.
  intros H. assert (E : Z.to_nat err ∈ seq 0 18) by (apply elem_of_seq; lia).
  replace err with (Z.of_nat (Z.to_nat err)) by lia. rewrite Nat2Z.id. revert E. generalize (Z.to_nat err). intros n E.
  repeat (apply elem_of_cons in E as [->|E]; [reflexivity|]). by apply elem_of_nil in E.
Qed.

Lemma table_distinct : NoDup kAmioErrorTable.
Proof. apply (bool_decide_unpack _). vm_compute. exact I. Qed.

Lemma prefix_append (a b : string) : String.prefix a (a ++ b) = true.
Proof.
  induction a as [|c a IH]; [by destruct b|]. change (String.prefix (String c a) (String c (a ++ b)) = true). cbn [String.prefix].
  destruct (Ascii.ascii_dec c c); [exact IH|done].
Qed.

Lemma table_not_unknown : Forall (fun s => String.prefix "AMIO_ERR_UNKNOWN(" s = false) kAmioErrorTable.
Proof. repeat constructor. Qed.

(** Two codes, defined or not, never have the same description: no number of an [int] is
    lost in the buffer and none of the table's texts looks like the text of an undefined code. *)
Theorem amio_strerror_injective a b : -2147483648 <= a < 2147483648 -> -2147483648 <= b < 2147483648 ->
  amio_strerror a = amio_strerror b -> a = b.
Proof.
  assert (Hmix : forall x y, -2147483648 <= y < 2147483648 -> 0 <= x < 18 -> y < 0 \/ 18 <= y -> amio_strerror x <> amio_strerror y).
  { intros x y Hy Hx Hyr E. pose proof (strerror_known x Hx) as Hk. rewrite E, (strerror_unknown y Hy Hyr) in Hk.
    pose proof table_not_unknown as Hf. rewrite Forall_lookup in Hf. specialize (Hf _ _ Hk). cbv beta in Hf.
    by rewrite prefix_append in Hf. }
  assert (Hcase : forall x, 0 <= x < 18 \/ (x < 0 \/ 18 <= x)) by lia. intros Ha Hb E.
  destruct (Hcase a) as [Ka|Ka], (Hcase b) as [Kb|Kb].
  - pose proof (strerror_known a Ka) as H1. pose proof (strerror_known b Kb) as H2. rewrite E in H1.
    pose proof (NoDup_lookup _ _ _ _ table_distinct H1 H2). lia.
  - by destruct (Hmix a b Hb Ka Kb).
  - by destruct (Hmix b a Ha Kb Ka).
  - rewrite !strerror_unknown in E by done. apply (inj (String.append _)), append_tail_inj in E. by apply (inj pretty) in E.
Qed.

Example strerror_lowest : amio_strerror (-2147483648) = "AMIO_ERR_UNKNOWN(-2147483648)"%string.
Proof. vm_compute. reflexivity. Qed.
