(* ===== verification/AmioHandleTable.v ===== *)
(** * AMIO: the handle table ([amio/src/c_boundary/handle_table.hpp], [handle_table.cpp])

    A token is a 64-bit integer, slot index above generation.  The table stores the
    payload pointer of its caller, a value of any type [V] here; [None] is the null
    pointer.  Every method holds the mutex for its whole body. *)
From Stdlib Require Import ZArith Lia.
From stdpp Require Import base list numbers sets relations.
From S2P Require Import Prelude CInt AmioErrors.
Local Open Scope Z_scope.

(** ** Tokens *)

Definition kMinGeneration : Z := 1.

Definition pack (slot generation : Z) : Z := Z.lor (Z.shiftl slot 32) generation.
Definition unpack_slot (t : Z) : Z := to_u32 (Z.shiftr t 32).
Definition unpack_generation (t : Z) : Z := Z.land t 4294967295.

(** ** The table *)

Inductive HandleKind : Type := Core | Dataset | Io | View.

#[export] Instance HandleKind_eq_dec : EqDecision HandleKind.
Proof. solve_decision. Defined.

Record Slot {V : Type} : Type := mkSlot { generation : Z; slot_live : bool; kind : HandleKind; payload : option V }.
Arguments Slot V : clear implicits.
Arguments mkSlot {V}.

Record HandleTable {V : Type} : Type := mkTable { slots_ : list (Slot V); free_list_ : list nat }.
Arguments HandleTable V : clear implicits.
Arguments mkTable {V}.

Section Table.
Context {V : Type}.

Definition empty_table : HandleTable V := mkTable [] [].

Definition fresh_slot : Slot V := mkSlot kMinGeneration false Core None.

(** The slot index and the table before the slot is filled; [None] when full. *)
Definition take_slot (t : HandleTable V) : option (nat * HandleTable V) :=
  match last (free_list_ t) with
  | Some i => Some (i, mkTable (slots_ t) (removelast (free_list_ t)))
  | None =>
      if 4294967295 <=? Z.of_nat (length (slots_ t)) then None
      else Some (length (slots_ t), mkTable (slots_ t ++ [fresh_slot]) (free_list_ t))
  end.

Definition insert (t : HandleTable V) (k : HandleKind) (p : option V) : result (Z * HandleTable V) :=
  match take_slot t with
  | None => Ok (0, t)
  | Some (i, t) =>
      match slots_ t !! i with
      | None => Undef
      | Some s =>
          Ok (pack (Z.of_nat i) (generation s), mkTable (<[i := mkSlot (generation s) true k p]> (slots_ t)) (free_list_ t))
      end
  end.

Definition lookup (t : HandleTable V) (token : Z) (expected : HandleKind) : Z * option V :=
  if token =? 0 then (AMIO_ERR_NULL_HANDLE, None)
  else
    match slots_ t !! Z.to_nat (unpack_slot token) with
    | None => (AMIO_ERR_INVALID_HANDLE, None)
    | Some s =>
        if negb (slot_live s) || negb (generation s =? unpack_generation token) then (AMIO_ERR_INVALID_HANDLE, None)
        else if negb (bool_decide (kind s = expected)) then (AMIO_ERR_INVALID_HANDLE, None)
        else (AMIO_OK, payload s)
    end.

(** [generation += 1], skipping zero. *)
Definition next_generation (g : Z) : Z :=
  let g' := to_u32 (g + 1) in if g' =? 0 then kMinGeneration else g'.

Definition release (t : HandleTable V) (token : Z) (expected : HandleKind) : Z * HandleTable V :=
  if token =? 0 then (AMIO_ERR_NULL_HANDLE, t)
  else
    let i := Z.to_nat (unpack_slot token) in
    match slots_ t !! i with
    | None => (AMIO_ERR_INVALID_HANDLE, t)
    | Some s =>
        if negb (slot_live s) || negb (generation s =? unpack_generation token) || negb (bool_decide (kind s = expected))
        then (AMIO_ERR_INVALID_HANDLE, t)
        else (AMIO_OK, mkTable (<[i := mkSlot (next_generation (generation s)) false (kind s) None]> (slots_ t))
                         (free_list_ t ++ [i]))
    end.

Definition size_for_test (t : HandleTable V) : nat := length (slots_ t) - length (free_list_ t).

(** ** Abstract view: which tokens are live, and what they stand for *)

Definition live (t : HandleTable V) (token : Z) : option (HandleKind * option V) :=
  match slots_ t !! Z.to_nat (unpack_slot token) with
  | Some s => if slot_live s && (generation s =? unpack_generation token) then Some (kind s, payload s) else None
  | None => None
  end.

Definition is_token (token : Z) : Prop := 0 <= token < 18446744073709551616.

Record table_ok (t : HandleTable V) : Prop := {
  ok_nodup : NoDup (free_list_ t);
  ok_free i : i ∈ free_list_ t <-> exists s, slots_ t !! i = Some s /\ slot_live s = false;
  ok_gen i s : slots_ t !! i = Some s -> 1 <= generation s < 4294967296;
  ok_length : Z.of_nat (length (slots_ t)) <= 4294967295
}.
End Table.

(** ** Packing *)

Lemma pack_add slot gen : 0 <= gen < 4294967296 -> pack slot gen = slot * 4294967296 + gen.
Proof.
  intros Hg. unfold pack. rewrite <- Z.add_lor_land, Z.shiftl_mul_pow2 by lia.
  change (2 ^ 32) with 4294967296. replace (Z.land (slot * 4294967296) gen) with 0; [lia|].
  symmetry. apply Z.bits_inj'. intros n Hn. rewrite Z.land_spec, Z.bits_0.
  change 4294967296 with (2 ^ 32). rewrite <- Z.shiftl_mul_pow2 by lia.
  destruct (Z.lt_ge_cases n 32); [by rewrite Z.shiftl_spec_low|].
  replace (Z.testbit gen n) with false; [by rewrite andb_false_r|]. symmetry.
  destruct (Z.eq_dec gen 0) as [->|]; [by rewrite Z.bits_0|]. apply Z.bits_above_log2; [lia|].
  assert (Z.log2 gen < 32) by (apply Z.log2_lt_pow2; lia). lia.
Qed.

Lemma unpack_pack slot gen : 0 <= slot < 4294967296 -> 0 <= gen < 4294967296 ->
  unpack_slot (pack slot gen) = slot /\ unpack_generation (pack slot gen) = gen /\ is_token (pack slot gen).
Proof.
  intros Hs Hg. unfold unpack_slot, unpack_generation, is_token. rewrite pack_add by done.
  rewrite Z.shiftr_div_pow2 by lia. change 4294967295 with (Z.ones 32). rewrite Z.land_ones by lia.
  change (2 ^ 32) with 4294967296. rewrite to_u32_id.
  - split; [|split; [|lia]]; Z.div_mod_to_equations; lia.
  - Z.div_mod_to_equations; lia.
Qed.

Lemma pack_unpack t : is_token t -> pack (unpack_slot t) (unpack_generation t) = t /\
  0 <= unpack_slot t < 4294967296 /\ 0 <= unpack_generation t < 4294967296.
Proof.
  intros Ht. unfold is_token in Ht. unfold unpack_slot, unpack_generation.
  change 4294967295 with (Z.ones 32). rewrite Z.land_ones, Z.shiftr_div_pow2 by lia.
  change (2 ^ 32) with 4294967296. rewrite to_u32_id by (Z.div_mod_to_equations; lia).
  assert (0 <= t mod 4294967296 < 4294967296) by (Z.div_mod_to_equations; lia).
  rewrite pack_add by done. Z.div_mod_to_equations. lia.
Qed.

Lemma next_generation_spec g : 1 <= g < 4294967296 ->
  next_generation g = (if g =? 4294967295 then 1 else g + 1) /\ 1 <= next_generation g < 4294967296.
Proof.
  intros Hg. unfold next_generation. destruct (Z.eqb_spec g 4294967295) as [->|]; [done|].
  rewrite to_u32_id by lia. destruct (Z.eqb_spec (g + 1) 0); lia.
Qed.

(** ** The operations against the abstract map of live tokens *)

Section TableLaws.
Context {V : Type}.
Implicit Types t : HandleTable V.

Definition full t : Prop := free_list_ t = [] /\ Z.of_nat (length (slots_ t)) = 4294967295.

(** What a lookup under [expected] answers for a token that stands for [o]. *)
Definition answer (token : Z) (o : option (HandleKind * option V)) (expected : HandleKind) : Z * option V :=
  if token =? 0 then (AMIO_ERR_NULL_HANDLE, None)
  else match o with
       | Some (k, p) => if bool_decide (k = expected) then (AMIO_OK, p) else (AMIO_ERR_INVALID_HANDLE, None)
       | None => (AMIO_ERR_INVALID_HANDLE, None)
       end.

Lemma slot_index_inj x y : is_token x -> is_token y ->
  Z.to_nat (unpack_slot x) = Z.to_nat (unpack_slot y) -> unpack_generation x = unpack_generation y -> x = y.
Proof.
  intros Hx Hy Hs Hg. destruct (pack_unpack x Hx) as (Ex & ? & _). destruct (pack_unpack y Hy) as (Ey & ? & _).
  rewrite <- Ex, <- Ey, Hg. f_equal. lia.
Qed.

Lemma lookup_live t token expected : lookup t token expected = answer token (live t token) expected.
Proof.
  unfold lookup, answer, live. destruct (token =? 0); [done|].
  destruct (slots_ t !! _) as [s|]; [|done].
  destruct (slot_live s), (generation s =? _); simpl; try done.
  by destruct (bool_decide _).
Qed.

Lemma empty_table_ok : table_ok (V := V) empty_table.
Proof.
  split; simpl; [apply NoDup_nil_2| |intros i s; by rewrite lookup_nil|lia].
  intros i. rewrite elem_of_nil. split; [done|]. intros (s & Hs & _). by rewrite lookup_nil in Hs.
Qed.

(** Filling slot [i], which was free with generation [g]. *)
Lemma fill_slot t fl i g b k0 p0 k p :
  table_ok (mkTable (slots_ t) (fl ++ [i])) -> slots_ t !! i = Some (mkSlot g b k0 p0) ->
  table_ok (mkTable (<[i := mkSlot g true k p]> (slots_ t)) fl).
Proof.
  intros [Hn Hf Hg Hl] Hi. simpl in *. split; simpl.
  - by apply NoDup_app in Hn as (? & _).
  - clear Hl Hg. intros j. apply NoDup_app in Hn as (_ & Hd & _). destruct (decide (j = i)) as [->|Hne].
    + split; [intros Hj; destruct (Hd i Hj); apply list_elem_of_singleton; done|].
      intros (s & Hs & Hb). rewrite list_lookup_insert_eq in Hs by (by eapply lookup_lt_Some).
      injection Hs as <-. discriminate Hb.
    + rewrite list_lookup_insert_ne by done. rewrite <- Hf, elem_of_app, list_elem_of_singleton. tauto.
  - intros j s. rewrite list_lookup_insert_Some. intros [(<- & <- & _)|(_ & Hs)]; [exact (Hg _ _ Hi)|exact (Hg _ _ Hs)].
  - by rewrite length_insert.
Qed.

Lemma live_fill t fl i g k p x : slots_ t !! i = Some (mkSlot g false k p) ->
  forall k' p', is_token x -> Z.of_nat i < 4294967296 -> 0 <= g < 4294967296 ->
  live (mkTable (<[i := mkSlot g true k' p']> (slots_ t)) fl) x =
  (if x =? pack (Z.of_nat i) g then Some (k', p') else live t x).
Proof.
  intros Hi k' p' Hx Hr Hg. unfold live. cbn [slots_].
  destruct (unpack_pack (Z.of_nat i) g) as (Hps & Hpg & Hpt); [lia|lia|]. clear Hg.
  assert (Hin : Z.of_nat i < 4294967296 -> Z.to_nat (unpack_slot (pack (Z.of_nat i) g)) = i) by (rewrite Hps; lia).
  specialize (Hin Hr). clear Hr.
  destruct (decide (i = Z.to_nat (unpack_slot x))) as [He|Hne].
  - rewrite <- He, list_lookup_insert_eq, Hi by (by eapply lookup_lt_Some). cbn [slot_live generation kind payload andb].
    destruct (Z.eqb_spec g (unpack_generation x)) as [Hgx|Hgx], (Z.eqb_spec x (pack (Z.of_nat i) g)) as [->|Hxp]; try done.
    destruct Hxp. apply slot_index_inj; [exact Hx|exact Hpt| |]; congruence.
  - rewrite list_lookup_insert_ne by done. destruct (Z.eqb_spec x (pack (Z.of_nat i) g)) as [->|]; [|done].
    congruence.
Qed.

Lemma last_split (l : list nat) i : last l = Some i -> l = removelast l ++ [i].
Proof.
  intros Hl. apply last_Some in Hl as (l' & ->). by rewrite removelast_last.
Qed.

Definition same_generations t t' : Prop :=
  forall j s, slots_ t !! j = Some s -> exists s', slots_ t' !! j = Some s' /\ generation s' = generation s.

Lemma insert_spec t k p : table_ok t ->
  exists token t', insert t k p = Ok (token, t') /\ table_ok t' /\ same_generations t t' /\
    ((token = 0 /\ t' = t /\ full t) \/
     (is_token token /\ token <> 0 /\ live t token = None /\ 
      forall x, is_token x -> live t' x = if x =? token then Some (k, p) else live t x)).
Proof.
  intros Hok. pose proof Hok as [Hn Hf Hg Hl]. unfold insert, take_slot.
  destruct (last (free_list_ t)) as [i|] eqn:Hlast.
  - apply last_split in Hlast. set (fl := removelast _) in *. simpl.
    destruct (proj1 (Hf i)) as ([g b k0 p0] & Hi & Hb); [rewrite Hlast; set_solver|]. simpl in Hb. subst b.
    rewrite Hi. simpl. pose proof (Hg _ _ Hi) as Hgi. simpl in Hgi. pose proof (lookup_lt_Some _ _ _ Hi).
    destruct (unpack_pack (Z.of_nat i) g) as (Hps & Hpg & Hpt); [lia|lia|].
    eexists _, _. split; [done|]. split; [|split].
    + eapply fill_slot; [|exact Hi]. rewrite <- Hlast. by destruct t.
    + intros j s Hj. simpl. destruct (decide (i = j)) as [<-|]; [|rewrite list_lookup_insert_ne by done; by exists s].
      rewrite list_lookup_insert_eq by done. rewrite Hi in Hj. injection Hj as <-. by eexists.
    + right. split; [exact Hpt|]. split; [rewrite pack_add by lia; lia|]. split.
      * unfold live. rewrite Hps, Nat2Z.id, Hi. done.
      * intros x Hx. apply (live_fill t fl i g k0 p0 x Hi k p Hx); lia.
  - destruct (Z.leb_spec 4294967295 (Z.of_nat (length (slots_ t)))) as [Hfull|Hroom].
    + eexists 0, t. split; [done|]. split; [done|]. split; [intros j s Hj; by exists s|]. left.
      split; [done|]. split; [done|]. split; [by apply last_None|lia].
    + simpl. rewrite list_lookup_middle by done. simpl.
      set (t1 := mkTable (slots_ t ++ [fresh_slot]) (free_list_ t)).
      apply last_None in Hlast.
      assert (Hi : slots_ t1 !! length (slots_ t) = Some fresh_slot) by (simpl; by rewrite list_lookup_middle).
      destruct (unpack_pack (Z.of_nat (length (slots_ t))) 1) as (Hps & Hpg & Hpt); [lia|lia|].
      assert (Hlive : forall x, live t1 x = live t x).
      { intros x. unfold live. change (slots_ t1) with (slots_ t ++ [fresh_slot]). destruct (slots_ t !! Z.to_nat (unpack_slot x)) as [s|] eqn:Hs.
        - by rewrite (lookup_app_l_Some _ _ _ _ Hs).
        - apply lookup_ge_None in Hs. rewrite lookup_app_r by done.
          by destruct (Z.to_nat (unpack_slot x) - length (slots_ t))%nat. }
      eexists _, _. split; [done|]. split; [|split].
      * apply (fill_slot t1 (free_list_ t) (length (slots_ t)) 1 false Core None k p); [|exact Hi].
        rewrite Hlast. split; simpl.
        -- apply NoDup_singleton.
        -- intros i. rewrite list_elem_of_singleton. split; [intros ->; eexists; split; [exact Hi|done]|].
           intros (s & Hs & Hb). apply lookup_app_Some in Hs as [Hs|(Hge & Hs)].
           ++ exfalso. assert (i ∈ free_list_ t) as Hin by (apply Hf; by exists s). rewrite Hlast in Hin. by apply not_elem_of_nil in Hin.
           ++ apply list_lookup_singleton_Some in Hs as (? & _). lia.
        -- intros i s Hs. apply lookup_app_Some in Hs as [Hs|(Hge & Hs)]; [exact (Hg _ _ Hs)|].
           apply list_lookup_singleton_Some in Hs as (_ & <-). simpl. unfold kMinGeneration. lia.
        -- rewrite length_app. simpl. lia.
      * intros j s Hj. simpl. pose proof (lookup_lt_Some _ _ _ Hj). rewrite list_lookup_insert_ne by lia.
        rewrite (lookup_app_l_Some _ _ _ _ Hj). by exists s.
      * right. split; [exact Hpt|]. split; [unfold kMinGeneration; rewrite pack_add by lia; lia|]. split.
        -- unfold live, kMinGeneration. rewrite Hps, Nat2Z.id, lookup_ge_None_2 by lia. done.
        -- intros x Hx. rewrite <- Hlive. apply (live_fill t1 (free_list_ t) _ 1 Core None x Hi k p Hx); lia.
Qed.
End TableLaws.

Section Release.
Context {V : Type}.
Implicit Types t : HandleTable V.

(** The generation of slot [i] moves by [n] places of the cycle 1, 2, ..., 2^32-1. *)
Definition rotate (n g : Z) : Z := (g - 1 + n) mod 4294967295 + 1.

Definition moved (n : Z) (i : nat) t t' : Prop :=
  forall g, generation <$> slots_ t !! i = Some g -> generation <$> slots_ t' !! i = Some (rotate n g).

Lemma next_generation_rotate g : 1 <= g < 4294967296 -> next_generation g = rotate 1 g.
Proof.
  intros Hg. destruct (next_generation_spec g Hg) as (-> & _). unfold rotate.
  destruct (Z.eqb_spec g 4294967295); Z.div_mod_to_equations; lia.
Qed.

Lemma rotate_rotate m n g : rotate m (rotate n g) = rotate (n + m) g.
Proof. unfold rotate. rewrite Z.add_simpl_r, Zplus_mod_idemp_l. f_equal. f_equal. lia. Qed.

Lemma rotate_0 g : 1 <= g < 4294967296 -> rotate 0 g = g.
Proof. intros Hg. unfold rotate. rewrite Z.mod_small; lia. Qed.

Lemma rotate_back n g : 1 <= g < 4294967296 -> 1 <= n < 4294967295 -> rotate n g <> g.
Proof. intros Hg Hn. unfold rotate. Z.div_mod_to_equations. lia. Qed.

Lemma release_status t token expected : fst (release t token expected) = fst (lookup t token expected).
Proof.
  unfold release, lookup. destruct (token =? 0); [done|]. cbv zeta. destruct (slots_ t !! _) as [s|]; [|done].
  destruct (slot_live s), (generation s =? _), (bool_decide (kind s = expected)); done.
Qed.

Lemma release_refused t token expected : fst (release t token expected) <> AMIO_OK -> snd (release t token expected) = t.
Proof.
  unfold release. destruct (token =? 0); [done|]. cbv zeta. destruct (slots_ t !! _) as [s|]; [|done].
  by destruct (negb (slot_live s) || _ || _).
Qed.

Lemma release_accepted t token expected : fst (release t token expected) = AMIO_OK ->
  let i := Z.to_nat (unpack_slot token) in
  exists s, slots_ t !! i = Some s /\ slot_live s = true /\ generation s = unpack_generation token /\ token <> 0 /\
    snd (release t token expected) =
    mkTable (<[i := mkSlot (next_generation (generation s)) false (kind s) None]> (slots_ t)) (free_list_ t ++ [i]).
Proof.
  unfold release. destruct (Z.eqb_spec token 0); [done|]. cbv zeta. destruct (slots_ t !! _) as [s|]; [|done].
  destruct (slot_live s) eqn:Hl; [|done]. destruct (Z.eqb_spec (generation s) (unpack_generation token)); [|done].
  destruct (bool_decide (kind s = expected)); [|done]. intros _. by exists s.
Qed.

Lemma empty_slot t i s k : table_ok t -> slots_ t !! i = Some s -> slot_live s = true ->
  table_ok (mkTable (<[i := mkSlot (next_generation (generation s)) false k None]> (slots_ t)) (free_list_ t ++ [i])).
Proof.
  intros [Hn Hf Hg Hl] Hi Hb. pose proof (lookup_lt_Some _ _ _ Hi) as Hlt. split; cbn [slots_ free_list_].
  - clear Hl Hg. apply NoDup_app. split; [done|]. split; [|apply NoDup_singleton]. intros j Hj ->%list_elem_of_singleton.
    apply Hf in Hj as (s' & Hs & Hb'). congruence.
  - clear Hl Hg. intros j. rewrite elem_of_app, list_elem_of_singleton. destruct (decide (j = i)) as [->|Hne].
    + rewrite list_lookup_insert_eq by done. split; [intros _; by eexists|tauto].
    + rewrite list_lookup_insert_ne, <- Hf by done. tauto.
  - intros j s'. rewrite list_lookup_insert_Some. intros [(<- & <- & _)|(_ & Hs)]; [|exact (Hg _ _ Hs)].
    apply next_generation_spec. exact (Hg _ _ Hi).
  - by rewrite length_insert.
Qed.

Lemma release_token_spec t token expected : table_ok t -> is_token token ->
  let t' := snd (release t token expected) in
  table_ok t' /\
  (fst (release t token expected) <> AMIO_OK -> t' = t) /\
  (fst (release t token expected) = AMIO_OK ->
   (forall x, is_token x -> live t' x = if x =? token then None else live t x) /\
   forall i, moved (if bool_decide (i = Z.to_nat (unpack_slot token)) then 1 else 0) i t t').
Proof.
  intros Hok Ht. cbv zeta. destruct (Z.eq_dec (fst (release t token expected)) AMIO_OK) as [Hr|Hr].
  2: { rewrite (release_refused _ _ _ Hr). done. }
  destruct (release_accepted _ _ _ Hr) as (s & Hi & Hb & Hgen & Hnz & ->).
  split; [exact (empty_slot _ _ _ _ Hok Hi Hb)|]. split; [done|]. intros _.
  pose proof (ok_gen _ Hok _ _ Hi) as Hg. pose proof (lookup_lt_Some _ _ _ Hi) as Hlt. split.
  - intros x Hx. unfold live. cbn [slots_]. destruct (decide (Z.to_nat (unpack_slot token) = Z.to_nat (unpack_slot x))) as [He|Hne].
    + rewrite <- He, list_lookup_insert_eq, Hi by exact Hlt. cbn [slot_live andb].
      destruct (Z.eqb_spec x token) as [->|Hxt]; [done|]. rewrite Hb.
      destruct (Z.eqb_spec (generation s) (unpack_generation x)) as [Hgx|]; [|done].
      destruct Hxt. apply slot_index_inj; [exact Hx|exact Ht|by symmetry|congruence].
    + rewrite list_lookup_insert_ne by exact Hne. destruct (Z.eqb_spec x token) as [->|]; [|done]. by destruct Hne.
  - intros i g Hgi. cbn [slots_]. destruct (bool_decide_reflect (i = Z.to_nat (unpack_slot token))) as [->|Hne].
    + rewrite list_lookup_insert_eq by exact Hlt. rewrite Hi in Hgi. injection Hgi as <-. cbn [fmap option_fmap option_map generation].
      f_equal. exact (next_generation_rotate _ Hg).
    + rewrite list_lookup_insert_ne by (intros Heq; by apply Hne). rewrite Hgi. f_equal. symmetry. apply rotate_0.
      destruct (slots_ t !! i) as [s'|] eqn:Hs; [|done]. injection Hgi as <-. exact (ok_gen _ Hok _ _ Hs).
Qed.

(** ** Runs *)

Inductive call : Type := CInsert (k : HandleKind) (p : option V) | CRelease (token : Z) (k : HandleKind).

Definition call_ok (c : call) : Prop := match c with CInsert _ _ => True | CRelease token _ => is_token token end.

Definition step t (c : call) : result (HandleTable V) :=
  match c with
  | CInsert k p => let! r := insert t k p in Ok (snd r)
  | CRelease token k => Ok (snd (release t token k))
  end.

Fixpoint run t (cs : list call) : result (HandleTable V) :=
  match cs with [] => Ok t | c :: rest => let! t' := step t c in run t' rest end.

(** How often the calls release slot [i]. *)
Definition releases_slot t (i : nat) (c : call) : Z :=
  match c with
  | CInsert _ _ => 0
  | CRelease token k =>
      if (fst (release t token k) =? AMIO_OK) && bool_decide (i = Z.to_nat (unpack_slot token)) then 1 else 0
  end.

Fixpoint recycled t (i : nat) (cs : list call) : Z :=
  match cs with
  | [] => 0
  | c :: rest => releases_slot t i c + match step t c with Ok t' => recycled t' i rest | _ => 0 end
  end.

Lemma moved_0 i t t' : table_ok t -> same_generations t t' -> moved 0 i t t'.
Proof.
  intros Hok Hs g Hg. destruct (slots_ t !! i) as [s|] eqn:Hi; [|done]. injection Hg as <-.
  destruct (Hs _ _ Hi) as (s' & -> & Hg'). cbn [fmap option_fmap option_map]. f_equal.
  rewrite rotate_0; [done|]. exact (ok_gen _ Hok _ _ Hi).
Qed.

Lemma table_step_ok t c : table_ok t -> call_ok c ->
  exists t', step t c = Ok t' /\ table_ok t' /\ forall i, moved (releases_slot t i c) i t t'.
Proof.
  intros Hok Hc. destruct c as [k p|token k]; simpl.
  - destruct (insert_spec t k p Hok) as (token & t' & -> & Hok' & Hs & _). exists t'. split; [done|]. split; [done|].
    intros i. by apply moved_0.
  - destruct (release_token_spec t token k Hok Hc) as (Hok' & Href & Hacc). exists (snd (release t token k)).
    split; [done|]. split; [done|]. intros i. destruct (Z.eqb_spec (fst (release t token k)) AMIO_OK) as [Hr|Hr].
    + apply Hacc, Hr.
    + rewrite (Href Hr). apply moved_0; [done|]. intros j s Hj. by exists s.
Qed.

Lemma table_run_ok cs : forall t, table_ok t -> Forall call_ok cs ->
  exists t', run t cs = Ok t' /\ table_ok t' /\ forall i, moved (recycled t i cs) i t t'.
Proof.
  induction cs as [|c cs IH]; intros t Hok Hcs.
  - exists t. split; [done|]. split; [done|]. intros i. apply moved_0; [done|]. intros j s Hj. by exists s.
  - apply Forall_cons in Hcs as (Hc & Hcs). destruct (table_step_ok t c Hok Hc) as (t1 & E1 & Hok1 & Hm1).
    destruct (IH t1 Hok1 Hcs) as (t2 & E2 & Hok2 & Hm2). exists t2. simpl. rewrite E1. simpl.
    split; [done|]. split; [done|]. intros i g Hg. rewrite <- rotate_rotate. by apply Hm2, Hm1.
Qed.

Lemma stale t token k cs t2 : table_ok t -> is_token token -> fst (release t token k) = AMIO_OK ->
  Forall call_ok cs -> run (snd (release t token k)) cs = Ok t2 ->
  0 <= recycled (snd (release t token k)) (Z.to_nat (unpack_slot token)) cs < 4294967294 ->
  live t2 token = None.
Proof.
  intros Hok Ht Hr Hcs Hrun Hn. destruct (release_token_spec t token k Hok Ht) as (Hok1 & _ & Hacc).
  destruct (Hacc Hr) as (_ & Hm). specialize (Hm (Z.to_nat (unpack_slot token))).
  rewrite bool_decide_true in Hm by done. destruct (table_run_ok cs _ Hok1 Hcs) as (t2' & Hrun' & _ & Hm2).
  rewrite Hrun in Hrun'. injection Hrun' as <-. destruct (release_accepted _ _ _ Hr) as (s & Hi & _ & Hgen & _).
  pose proof (Hm2 _ _ (Hm (generation s) (f_equal (fmap generation) Hi))) as Hfin.
  rewrite rotate_rotate in Hfin. unfold live. destruct (slots_ t2 !! _) as [s2|]; [|done]. injection Hfin as Hfin.
  destruct (Z.eqb_spec (generation s2) (unpack_generation token)) as [He|]; [|by rewrite andb_false_r].
  exfalso. apply (rotate_back (1 + recycled (snd (release t token k)) (Z.to_nat (unpack_slot token)) cs) (generation s)).
  - exact (ok_gen _ Hok _ _ Hi).
  - lia.
  - congruence.
Qed.

Lemma recycled_nonneg cs : forall t i, 0 <= recycled t i cs.
Proof.
  induction cs as [|c cs IH]; intros t i; simpl; [lia|].
  assert (0 <= releases_slot t i c) by (destruct c; simpl; [lia|]; destruct (_ && _); lia).
  destruct (step t c); [specialize (IH a i)| |]; lia.
Qed.
End Release.

(** ** The table implements a map from tokens to payloads *)

(** C16. After any calls the table stands for a finite map from live tokens to kind and
    payload: [insert] adds a binding under a nonzero token that was not live, or returns
    0 when all 2^32-1 slots are taken; [lookup] answers with the status the map
    prescribes; [release] removes the binding, with the same status, and changes
    nothing when it refuses.  A released token is not live again until its slot has been
    released 2^32-2 more times. *)
Theorem handle_table_refines {V} (cs : list (call (V := V))) : Forall call_ok cs ->
  exists t, run empty_table cs = Ok t /\
  (forall k p, exists token t', insert t k p = Ok (token, t') /\
     ((token = 0 /\ t' = t /\ full t) \/
      (is_token token /\ token <> 0 /\ live t token = None /\
       forall x, is_token x -> live t' x = if x =? token then Some (k, p) else live t x))) /\
  (forall token k, is_token token -> lookup t token k = answer token (live t token) k) /\
  (forall token k, is_token token ->
     fst (release t token k) = fst (lookup t token k) /\
     forall x, is_token x -> live (snd (release t token k)) x =
       if (fst (lookup t token k) =? AMIO_OK) && (x =? token) then None else live t x) /\
  (forall token k later t2, is_token token -> fst (release t token k) = AMIO_OK -> Forall call_ok later ->
     run (snd (release t token k)) later = Ok t2 ->
     recycled (snd (release t token k)) (Z.to_nat (unpack_slot token)) later < 4294967294 ->
     live t2 token = None).
Proof.
  intros Hcs. destruct (table_run_ok cs empty_table empty_table_ok Hcs) as (t & Hrun & Hok & _). exists t.
  split; [exact Hrun|]. split; [|split; [|split]].
  - intros k p. destruct (insert_spec t k p Hok) as (token & t' & Hi & _ & _ & Hcase). by exists token, t'.
  - intros token k _. apply lookup_live.
  - intros token k Ht. split; [apply release_status|]. rewrite <- release_status. intros x Hx.
    destruct (release_token_spec t token k Hok Ht) as (_ & Href & Hacc).
    destruct (Z.eqb_spec (fst (release t token k)) AMIO_OK) as [Hr|Hr]; simpl.
    + apply Hacc; [exact Hr|exact Hx].
    + by rewrite Href.
  - intros token k later t2 Ht Hr Hl Hrun2 Hn.
    apply (stale t token k later); try assumption. split; [apply recycled_nonneg|exact Hn].
Qed.

Lemma handle_table_refines_witness :
  exists t, run empty_table [CInsert Core (Some true); CRelease 1 Core; CInsert Io (Some false)] = Ok t /\
  live t 1 = None /\ live t 2 = Some (Io, Some false) /\ lookup t 1 Core = (AMIO_ERR_INVALID_HANDLE, None) /\
  lookup t 2 Io = (AMIO_OK, Some false).
Proof.
  destruct (handle_table_refines [CInsert Core (Some true); CRelease 1 Core; CInsert Io (Some false)]) as (t & Hrun & _ & Hlook & _).
  - repeat (apply Forall_cons; split); [exact I|split; [discriminate|reflexivity]|exact I|apply Forall_nil; exact I].
  - exists t. split; [exact Hrun|]. rewrite !Hlook by (split; [discriminate|reflexivity]).
    injection Hrun as <-. vm_compute. repeat split.
Defined.
