(* ===== verification/WorkerPool.v ===== *)
(** * AMIO: the worker pool ([amio/src/workers/worker_pool.hpp], [worker_pool.cpp])

    The pool is a transition system: [mu_] is held for a whole critical section, so a
    step is one critical section of a caller or a worker, one acquisition or release of
    an ordering mutex, or one callback.  [DvOrderState::exec_seq] is read under [mu_] and
    written under the ordering mutex; its accesses are taken as atomic.  A callback is a
    number, how it ends is up to the environment.  [accepted] and [started] are history:
    the writes taken by [submit_write] and those whose callback was begun, in order. *)
From Stdlib Require Import ZArith Lia.
From stdpp Require Import base list numbers gmap relations.
From S2P Require Import Prelude CInt ListExtra AmioErrors.
Local Open Scope Z_scope.

(** ** Tasks and configuration *)

Record DatasetVariableKey : Type := mkKey { dataset_id : Z; variable_id : Z }.

#[export] Instance key_eq_dec : EqDecision DatasetVariableKey.
Proof. solve_decision. Defined.
#[export] Instance key_countable : Countable DatasetVariableKey.
Proof.
  refine (inj_countable' (fun k => (dataset_id k, variable_id k)) (fun p => mkKey p.1 p.2) _). by intros [].
Defined.

Record WriteTask : Type := mkWrite { dv_key : DatasetVariableKey; dv_seq : Z; handle_id : Z; callback : nat }.

Record PrefetchTask : Type := mkPrefetch { timestep : Z; distance : Z; p_dataset_id : Z; p_handle_id : Z; p_callback : nat }.

Record BackpressureConfig : Type := mkBackpressure {
  enabled : bool; low_watermark : nat; high_watermark : nat; queue_capacity : nat
}.

Record DvOrderState : Type := mkDv { dv_locked : bool; next_seq : Z; exec_seq : Z }.

Definition new_dv_state : DvOrderState := mkDv false 0 0.

(** Where a worker thread is: [Idle] at the top of [worker_loop], [HoldsWrite] between
    taking a write and its ordering mutex, [RunsWrite] in the callback, [FinishedWrite]
    before the counters are updated. *)
Inductive worker : Type :=
| Idle
| HoldsWrite (t : WriteTask)
| RunsWrite (t : WriteTask)
| FinishedWrite
| RunsPrefetch (t : PrefetchTask)
| Exited.

(** A call of [submit_write] that has passed the first test of [shutdown_]. *)
Inductive caller : Type :=
| Entered (key : DatasetVariableKey) (handle : Z) (cb : nat)
| Waiting (key : DatasetVariableKey) (handle : Z) (cb : nat).

Record WorkerPool : Type := mkPool {
  write_queue_ : list WriteTask;
  prefetch_queue_ : list PrefetchTask;
  dv_states_ : gmap DatasetVariableKey DvOrderState;
  shutdown_ : bool;
  in_flight_ : Z;
  writes_completed_ : Z;
  prefetches_completed_ : Z;
  outcome_registry_ : gmap Z (list Z);
  backpressure_ : BackpressureConfig;
  workers_ : list worker;
  callers : list caller;
  accepted : list WriteTask;
  started : list WriteTask
}.

Definition worker_pool (thread_count : nat) (b : BackpressureConfig) : WorkerPool :=
  mkPool [] [] ∅ false 0 0 0 ∅ b (replicate thread_count Idle) [] [] [].

(** Assignments to members. *)
Definition set_workers (p : WorkerPool) (w : list worker) : WorkerPool :=
  mkPool (write_queue_ p) (prefetch_queue_ p) (dv_states_ p) (shutdown_ p) (in_flight_ p) (writes_completed_ p)
    (prefetches_completed_ p) (outcome_registry_ p) (backpressure_ p) w (callers p) (accepted p) (started p).
Definition set_callers (p : WorkerPool) (c : list caller) : WorkerPool :=
  mkPool (write_queue_ p) (prefetch_queue_ p) (dv_states_ p) (shutdown_ p) (in_flight_ p) (writes_completed_ p)
    (prefetches_completed_ p) (outcome_registry_ p) (backpressure_ p) (workers_ p) c (accepted p) (started p).
Definition set_queues (p : WorkerPool) (wq : list WriteTask) (pq : list PrefetchTask) (n : Z) : WorkerPool :=
  mkPool wq pq (dv_states_ p) (shutdown_ p) n (writes_completed_ p)
    (prefetches_completed_ p) (outcome_registry_ p) (backpressure_ p) (workers_ p) (callers p) (accepted p) (started p).
Definition set_dv (p : WorkerPool) (key : DatasetVariableKey) (s : DvOrderState) : WorkerPool :=
  mkPool (write_queue_ p) (prefetch_queue_ p) (<[key := s]> (dv_states_ p)) (shutdown_ p) (in_flight_ p)
    (writes_completed_ p) (prefetches_completed_ p) (outcome_registry_ p) (backpressure_ p) (workers_ p) (callers p)
    (accepted p) (started p).
Definition set_history (p : WorkerPool) (a s : list WriteTask) : WorkerPool :=
  mkPool (write_queue_ p) (prefetch_queue_ p) (dv_states_ p) (shutdown_ p) (in_flight_ p) (writes_completed_ p)
    (prefetches_completed_ p) (outcome_registry_ p) (backpressure_ p) (workers_ p) (callers p) a s.
Definition set_counters (p : WorkerPool) (n w f : Z) (r : gmap Z (list Z)) : WorkerPool :=
  mkPool (write_queue_ p) (prefetch_queue_ p) (dv_states_ p) (shutdown_ p) n w f r (backpressure_ p) (workers_ p)
    (callers p) (accepted p) (started p).

(** ** Submission *)

Definition get_dv_state (p : WorkerPool) (key : DatasetVariableKey) : DvOrderState :=
  default new_dv_state (dv_states_ p !! key).

Inductive submit_result : Type := Blocked | Returned (code seq : Z).

Definition enqueue (p : WorkerPool) (key : DatasetVariableKey) (handle : Z) (cb : nat) : submit_result * WorkerPool :=
  let s := get_dv_state p key in
  let seq := next_seq s in
  let task := mkWrite key seq handle cb in
  let p1 := set_dv p key (mkDv (dv_locked s) (to_u64 (seq + 1)) (exec_seq s)) in
  let p2 := set_queues p1 (write_queue_ p1 ++ [task]) (prefetch_queue_ p1) (in_flight_ p1) in
  (Returned AMIO_OK seq, set_history p2 (accepted p2 ++ [task]) (started p2)).

(** After the wait, whether it timed out or not. *)
Definition submit_resume (p : WorkerPool) (key : DatasetVariableKey) (handle : Z) (cb : nat) : submit_result * WorkerPool :=
  if shutdown_ p then (Returned AMIO_OK 0, p) else enqueue p key handle cb.

(** The critical section up to the wait. *)
Definition submit_write (p : WorkerPool) (key : DatasetVariableKey) (handle : Z) (cb : nat) : submit_result * WorkerPool :=
  let depth := length (write_queue_ p) in
  if enabled (backpressure_ p) then
    if (high_watermark (backpressure_ p) <=? depth)%nat then (Blocked, p) else submit_resume p key handle cb
  else if (queue_capacity (backpressure_ p) <=? depth)%nat then (Returned AMIO_ERR_QUEUE_FULL 0, p)
  else enqueue p key handle cb.

(** The overloads that return the sequence number only. *)
Definition legacy_result (r : submit_result) : Z :=
  match r with Returned code seq => if code =? AMIO_OK then seq else 0 | Blocked => 0 end.

Definition submit_prefetch (p : WorkerPool) (t : PrefetchTask) : WorkerPool :=
  set_queues p (write_queue_ p) (prefetch_queue_ p ++ [t]) (in_flight_ p).

(** ** Workers *)

(** [i] is the position of the entry on top of the heap, one of the nearest. *)
Definition is_top (q : list PrefetchTask) (i : nat) : bool :=
  match q !! i with Some t => forallb (fun u => distance t <=? distance u) q | None => bool_decide (q = []) end.

Definition try_prefetch (p : WorkerPool) (i : nat) : worker * WorkerPool :=
  match prefetch_queue_ p !! i with
  | Some t => (RunsPrefetch t, set_queues p (write_queue_ p) (delete i (prefetch_queue_ p)) (in_flight_ p + 1))
  | None => (Idle, p)
  end.

Definition try_execute_one (p : WorkerPool) (i : nat) : worker * WorkerPool :=
  match write_queue_ p with
  | task :: rest =>
      let s := get_dv_state p (dv_key task) in
      let p1 := set_dv p (dv_key task) s in
      if dv_seq task =? exec_seq s then (HoldsWrite task, set_queues p1 rest (prefetch_queue_ p1) (in_flight_ p1 + 1))
      else try_prefetch (set_queues p1 (rest ++ [task]) (prefetch_queue_ p1) (in_flight_ p1)) i
  | [] => try_prefetch p i
  end.

Definition may_exit (p : WorkerPool) : bool :=
  shutdown_ p && bool_decide (write_queue_ p = []) && bool_decide (prefetch_queue_ p = []).

(** Recording how a callback ended; a task without handle records nothing. *)
Definition cordon (ran : option thrown) (handle : Z) (r : gmap Z (list Z)) : gmap Z (list Z) :=
  if handle =? 0 then r else snd (fst (execute_with_exception_cordon ran handle r)).

(** The ordering mutex is acquired and the callback begins. *)
Definition begin_write (p : WorkerPool) (t : WriteTask) : WorkerPool :=
  let s := get_dv_state p (dv_key t) in
  let p1 := set_dv p (dv_key t) (mkDv true (next_seq s) (exec_seq s)) in
  set_history p1 (accepted p1) (started p1 ++ [t]).

(** The callback has ended; the sequence advances and the mutex is released. *)
Definition end_write (p : WorkerPool) (t : WriteTask) (ran : option thrown) : WorkerPool :=
  let s := get_dv_state p (dv_key t) in
  let p1 := set_dv p (dv_key t) (mkDv false (next_seq s) (to_u64 (exec_seq s + 1))) in
  set_counters p1 (in_flight_ p1) (writes_completed_ p1) (prefetches_completed_ p1) (cordon ran (handle_id t) (outcome_registry_ p1)).

Definition count_write (p : WorkerPool) : WorkerPool :=
  set_counters p (in_flight_ p - 1) (writes_completed_ p + 1) (prefetches_completed_ p) (outcome_registry_ p).

Definition end_prefetch (p : WorkerPool) (t : PrefetchTask) (ran : option thrown) : WorkerPool :=
  set_counters p (in_flight_ p - 1) (writes_completed_ p) (prefetches_completed_ p + 1) (cordon ran (p_handle_id t) (outcome_registry_ p)).

Definition shutdown (p : WorkerPool) : WorkerPool :=
  mkPool (write_queue_ p) (prefetch_queue_ p) (dv_states_ p) true (in_flight_ p) (writes_completed_ p)
    (prefetches_completed_ p) (outcome_registry_ p) (backpressure_ p) (workers_ p) (callers p) (accepted p) (started p).

(** The condition [drain] waits for. *)
Definition drained (p : WorkerPool) : bool :=
  bool_decide (write_queue_ p = []) && bool_decide (prefetch_queue_ p = []) && (in_flight_ p =? 0).

Definition write_queue_depth (p : WorkerPool) : nat := length (write_queue_ p).
Definition prefetch_queue_depth (p : WorkerPool) : nat := length (prefetch_queue_ p).

(** ** Executions *)

Inductive step : WorkerPool -> WorkerPool -> Prop :=
| SubmitEnter p key handle cb : shutdown_ p = false -> step p (set_callers p (callers p ++ [Entered key handle cb]))
| SubmitSection p c1 key handle cb c2 r p' :
    callers p = c1 ++ Entered key handle cb :: c2 -> submit_write p key handle cb = (r, p') ->
    step p (set_callers p' (c1 ++ (if r is Blocked then [Waiting key handle cb] else []) ++ c2))
| SubmitResume p c1 key handle cb c2 r p' :
    callers p = c1 ++ Waiting key handle cb :: c2 -> submit_resume p key handle cb = (r, p') ->
    step p (set_callers p' (c1 ++ c2))
| SubmitPrefetch p t : step p (submit_prefetch p t)
| TryExecute p w1 w2 i w p' :
    workers_ p = w1 ++ Idle :: w2 -> may_exit p = false -> is_top (prefetch_queue_ p) i = true ->
    try_execute_one p i = (w, p') -> step p (set_workers p' (w1 ++ w :: w2))
| Exit p w1 w2 : workers_ p = w1 ++ Idle :: w2 -> may_exit p = true -> step p (set_workers p (w1 ++ Exited :: w2))
| BeginWrite p w1 t w2 :
    workers_ p = w1 ++ HoldsWrite t :: w2 -> dv_locked (get_dv_state p (dv_key t)) = false ->
    step p (set_workers (begin_write p t) (w1 ++ RunsWrite t :: w2))
| EndWrite p w1 t w2 ran :
    workers_ p = w1 ++ RunsWrite t :: w2 -> step p (set_workers (end_write p t ran) (w1 ++ FinishedWrite :: w2))
| CountWrite p w1 w2 : workers_ p = w1 ++ FinishedWrite :: w2 -> step p (set_workers (count_write p) (w1 ++ Idle :: w2))
| EndPrefetch p w1 t w2 ran :
    workers_ p = w1 ++ RunsPrefetch t :: w2 -> step p (set_workers (end_prefetch p t ran) (w1 ++ Idle :: w2))
| Shutdown p : step p (shutdown p).

(** ** The order of the writes *)

Definition of_key (k : DatasetVariableKey) (l : list WriteTask) : list WriteTask := filter (fun t => dv_key t = k) l.

(** How sequence numbers, queue, workers and history fit together. *)
Record order_inv (get : DatasetVariableKey -> DvOrderState) (queue held running acc st : list WriteTask) : Prop := {
  oi_seq k n t : of_key k acc !! n = Some t -> dv_seq t = Z.of_nat n;
  oi_next k : next_seq (get k) = Z.of_nat (length (of_key k acc));
  oi_start k : of_key k st `prefix_of` of_key k acc;
  oi_exec k : exec_seq (get k) + (if dv_locked (get k) then 1 else 0) = Z.of_nat (length (of_key k st));
  oi_lock k : dv_locked (get k) = true <-> k ∈ dv_key <$> running;
  oi_perm : acc ≡ₚ st ++ queue ++ held;
  oi_nodup : NoDup acc;
  oi_run t : t ∈ running -> t ∈ st /\ dv_seq t = exec_seq (get (dv_key t));
  oi_held t : t ∈ held -> dv_seq t = exec_seq (get (dv_key t));
  oi_keys : NoDup (dv_key <$> held ++ running)
}.

Arguments oi_seq {_ _ _ _ _ _}.
Arguments oi_next {_ _ _ _ _ _}.
Arguments oi_start {_ _ _ _ _ _}.
Arguments oi_exec {_ _ _ _ _ _}.
Arguments oi_lock {_ _ _ _ _ _}.
Arguments oi_perm {_ _ _ _ _ _}.
Arguments oi_nodup {_ _ _ _ _ _}.
Arguments oi_run {_ _ _ _ _ _}.
Arguments oi_held {_ _ _ _ _ _}.
Arguments oi_keys {_ _ _ _ _ _}.

Section Order.
Context {get : DatasetVariableKey -> DvOrderState} {queue held running acc st : list WriteTask}.
Hypothesis inv : order_inv get queue held running acc st.

Lemma elem_of_key k (t : WriteTask) l : t ∈ of_key k l <-> dv_key t = k /\ t ∈ l.
Proof. unfold of_key. by rewrite list_elem_of_filter. Qed.

Lemma position t : t ∈ acc -> exists n, of_key (dv_key t) acc !! n = Some t /\ dv_seq t = Z.of_nat n.
Proof.
  intros Ht. assert (Hk : t ∈ of_key (dv_key t) acc) by (by apply elem_of_key).
  apply list_elem_of_lookup in Hk as (n & Hn). exists n. split; [done|]. by apply (oi_seq inv) in Hn.
Qed.

Lemma same_task t u : t ∈ acc -> u ∈ acc -> dv_key t = dv_key u -> dv_seq t = dv_seq u -> t = u.
Proof.
  intros Ht Hu Hk Hs. destruct (position t Ht) as (n & Hn & En), (position u Hu) as (m & Hm & Em).
  assert (n = m) as -> by lia. rewrite Hk in Hn. congruence.
Qed.

Lemma in_acc t : t ∈ st \/ t ∈ queue \/ t ∈ held -> t ∈ acc.
Proof. rewrite (oi_perm inv), !elem_of_app. tauto. Qed.

Lemma order_disjoint t : (t ∈ st -> t ∉ queue /\ t ∉ held) /\ (t ∈ queue -> t ∉ held).
Proof.
  pose proof (oi_nodup inv) as Hn. rewrite (oi_perm inv), !list.NoDup_app in Hn.
  destruct Hn as (_ & H1 & _ & H2 & _). split; [|apply H2]. intros Ht. specialize (H1 t Ht). set_solver.
Qed.

(** A ready write of the queue has a key no worker is busy with. *)
Lemma ready_key_free t : t ∈ queue -> dv_seq t = exec_seq (get (dv_key t)) -> dv_key t ∉ dv_key <$> held ++ running.
Proof.
  intros Ht Hs Hk. apply list_elem_of_fmap in Hk as (u & Hk & Hu). apply elem_of_app in Hu.
  assert (t = u) as <-.
  { apply same_task; [apply in_acc; by right; left| |done|].
    - destruct Hu as [Hu|Hu]; [apply in_acc; by right; right|]. apply in_acc. left. by apply (oi_run inv).
    - rewrite Hs, Hk. symmetry. destruct Hu as [Hu|Hu]; [by apply (oi_held inv)|by apply (oi_run inv)]. }
  destruct (order_disjoint t) as [H1 H2]. destruct Hu as [Hu|Hu]; [by apply H2|].
  apply (oi_run inv) in Hu as [Hu _]. by apply H1 in Hu as [Hu _].
Qed.

Lemma order_enqueue get' k h cb : Z.of_nat (length (of_key k acc)) + 1 < 18446744073709551616 ->
  (forall k', get' k' = if decide (k' = k) then mkDv (dv_locked (get k)) (to_u64 (next_seq (get k) + 1)) (exec_seq (get k)) else get k') ->
  order_inv get' (queue ++ [mkWrite k (next_seq (get k)) h cb]) held running (acc ++ [mkWrite k (next_seq (get k)) h cb]) st.
Proof.
  intros Hlen Hget. set (t := mkWrite k _ h cb).
  assert (Hx : forall k', exec_seq (get' k') = exec_seq (get k') /\ dv_locked (get' k') = dv_locked (get k')).
  { intros k'. rewrite Hget. by destruct (decide (k' = k)) as [->|]. }
  assert (Hof : forall k', of_key k' (acc ++ [t]) = of_key k' acc ++ (if decide (k = k') then [t] else [])).
  { intros k'. unfold of_key. rewrite filter_app, filter_cons. simpl. by destruct (decide (k = k')). }
  constructor.
  - intros k' n u. rewrite Hof. intros [Hl|(Hge & Hl)]%lookup_app_Some; [by eapply (oi_seq inv)|].
    destruct (decide (k = k')) as [<-|]; [|by rewrite lookup_nil in Hl].
    apply list_lookup_singleton_Some in Hl as (? & <-). simpl. rewrite (oi_next inv). lia.
  - intros k'. rewrite Hof, Hget, length_app. destruct (decide (k' = k)) as [->|Hne].
    + rewrite decide_True by done. simpl. rewrite (oi_next inv).
      unfold to_u64. rewrite Z.mod_small by lia. lia.
    + rewrite decide_False by done. simpl. rewrite (oi_next inv). lia.
  - intros k'. rewrite Hof. apply prefix_app_r, (oi_start inv).
  - intros k'. destruct (Hx k') as [-> ->]. apply (oi_exec inv).
  - intros k'. destruct (Hx k') as [_ ->]. apply (oi_lock inv).
  - rewrite (oi_perm inv). rewrite <- !app_assoc. do 2 apply Permutation_app_head. by rewrite Permutation_app_comm.
  - apply list.NoDup_app. split; [apply (oi_nodup inv)|]. split; [|apply NoDup_singleton].
    intros u Hu ->%list_elem_of_singleton. destruct (position t Hu) as (n & Hn & Es). simpl in Es.
    rewrite (oi_next inv) in Es. apply lookup_lt_Some in Hn. simpl in Hn. lia.
  - intros u Hu. destruct (Hx (dv_key u)) as [-> _]. by apply (oi_run inv).
  - intros u Hu. destruct (Hx (dv_key u)) as [-> _]. by apply (oi_held inv).
  - apply (oi_keys inv).
Qed.

Lemma order_ext get' queue' held' running' : (forall k, get' k = get k) -> queue' ++ held' ≡ₚ queue ++ held ->
  (forall t, t ∈ held' -> dv_seq t = exec_seq (get (dv_key t))) -> running' = running ->
  NoDup (dv_key <$> held' ++ running) -> order_inv get' queue' held' running' acc st.
Proof.
  intros Hg Hp Hh -> Hk. constructor.
  - apply (oi_seq inv).
  - intros k. rewrite Hg. apply (oi_next inv).
  - apply (oi_start inv).
  - intros k. rewrite Hg. apply (oi_exec inv).
  - intros k. rewrite Hg. apply (oi_lock inv).
  - rewrite Hp. apply (oi_perm inv).
  - apply (oi_nodup inv).
  - intros t Ht. rewrite Hg. by apply (oi_run inv).
  - intros t Ht. rewrite Hg. by apply Hh.
  - exact Hk.
Qed.
End Order.

Section OrderRun.
Context {get : DatasetVariableKey -> DvOrderState} {queue held running acc st : list WriteTask}.
Hypothesis inv : order_inv get queue held running acc st.

Lemma of_key_snoc k l t : of_key k (l ++ [t]) = of_key k l ++ (if decide (dv_key t = k) then [t] else []).
Proof. unfold of_key. rewrite filter_app, filter_cons. by destruct (decide (dv_key t = k)). Qed.

Lemma order_begin get' held' running' t : held ≡ₚ t :: held' -> running' ≡ₚ t :: running ->
  (forall k, get' k = if decide (k = dv_key t) then mkDv true (next_seq (get k)) (exec_seq (get k)) else get k) ->
  order_inv get' queue held' running' acc (st ++ [t]).
Proof.
  intros Hh Hr Hget.
  assert (Hx : forall k, exec_seq (get' k) = exec_seq (get k) /\ next_seq (get' k) = next_seq (get k))
    by (intros k; rewrite Hget; by destruct (decide (k = dv_key t))).
  assert (Hin : t ∈ held) by (rewrite Hh; apply list_elem_of_here).
  assert (Hfree : dv_locked (get (dv_key t)) = false).
  { apply not_true_is_false. rewrite (oi_lock inv). pose proof (oi_keys inv) as Hn. rewrite Hh in Hn. simpl in Hn.
    apply list.NoDup_cons in Hn as [Hn _]. rewrite fmap_app, elem_of_app in Hn. tauto. }
  constructor.
  - apply (oi_seq inv).
  - intros k. destruct (Hx k) as [_ ->]. apply (oi_next inv).
  - intros k. rewrite of_key_snoc. pose proof (oi_start inv k) as Hp. destruct (decide (dv_key t = k)) as [<-|]; [|by rewrite app_nil_r].
    apply prefix_grow; [done|]. destruct (position inv t) as (n & Hn & Es); [apply (in_acc inv); tauto|].
    pose proof (oi_held inv t Hin) as Ee. pose proof (oi_exec inv (dv_key t)) as El. rewrite Hfree in El.
    replace (length (of_key (dv_key t) st)) with n by lia. exact Hn.
  - intros k. rewrite of_key_snoc, Hget, length_app. pose proof (oi_exec inv k) as El. destruct (decide (k = dv_key t)) as [->|Hne].
    + rewrite decide_True by done. rewrite Hfree in El. simpl. lia.
    + rewrite decide_False by done. simpl. lia.
  - intros k. rewrite Hget, Hr, fmap_cons, elem_of_cons. destruct (decide (k = dv_key t)) as [->|Hne]; [simpl; tauto|].
    rewrite (oi_lock inv). tauto.
  - rewrite (oi_perm inv), Hh. rewrite <- app_assoc. apply Permutation_app_head. simpl. by rewrite Permutation_middle.
  - apply (oi_nodup inv).
  - intros u. rewrite Hr, elem_of_cons, elem_of_app. destruct (Hx (dv_key u)) as [-> _]. intros [->|Hu].
    + split; [right; by apply list_elem_of_singleton|]. by apply (oi_held inv).
    + apply (oi_run inv) in Hu as [? ?]. tauto.
  - intros u Hu. destruct (Hx (dv_key u)) as [-> _]. apply (oi_held inv). rewrite Hh. by apply list_elem_of_further.
  - pose proof (oi_keys inv) as Hn. rewrite Hh in Hn. rewrite Hr. by rewrite <- Permutation_middle.
Qed.

Lemma order_end get' running' t : Z.of_nat (length acc) < 18446744073709551616 -> running ≡ₚ t :: running' ->
  (forall k, get' k = if decide (k = dv_key t) then mkDv false (next_seq (get k)) (to_u64 (exec_seq (get k) + 1)) else get k) ->
  order_inv get' queue held running' acc st.
Proof.
  intros Hlen Hr Hget. pose proof (oi_keys inv) as Hn. rewrite Hr, <- Permutation_middle in Hn. simpl in Hn.
  apply list.NoDup_cons in Hn as [Hout Hn].
  assert (Hsame : forall u, u ∈ held ++ running' -> get' (dv_key u) = get (dv_key u)).
  { intros u Hu. rewrite Hget. rewrite decide_False; [done|]. intros E. apply Hout. rewrite <- E. by apply list_elem_of_fmap_2. }
  assert (Hlock : dv_locked (get (dv_key t)) = true) by (apply (oi_lock inv); rewrite Hr; apply list_elem_of_here).
  constructor.
  - apply (oi_seq inv).
  - intros k. rewrite Hget. destruct (decide _) as [->|]; apply (oi_next inv).
  - apply (oi_start inv).
  - intros k. rewrite Hget. pose proof (oi_exec inv k) as El. destruct (decide (k = dv_key t)) as [->|]; [|done].
    rewrite Hlock in El. simpl. assert (length (of_key (dv_key t) st) <= length acc)%nat.
    { pose proof (prefix_length _ _ (oi_start inv (dv_key t))). pose proof (length_filter (fun u => dv_key u = dv_key t) acc).
      unfold of_key in *. lia. }
    unfold to_u64. rewrite Z.mod_small; [lia|]. pose proof (oi_next inv (dv_key t)).
    destruct (position inv t) as (n & Hpos & Es); [apply (in_acc inv); left; apply (oi_run inv); rewrite Hr; apply list_elem_of_here|].
    assert (dv_seq t = exec_seq (get (dv_key t))) by (apply (oi_run inv); rewrite Hr; apply list_elem_of_here). lia.
  - intros k. rewrite Hget. destruct (decide (k = dv_key t)) as [->|Hne]; simpl.
    + split; [done|]. intros Hk. destruct Hout. rewrite fmap_app, elem_of_app. by right.
    + rewrite (oi_lock inv), Hr, fmap_cons, elem_of_cons. tauto.
  - apply (oi_perm inv).
  - apply (oi_nodup inv).
  - intros u Hu. rewrite Hsame by set_solver. apply (oi_run inv). rewrite Hr. by apply list_elem_of_further.
  - intros u Hu. rewrite Hsame by set_solver. by apply (oi_held inv).
  - exact Hn.
Qed.
End OrderRun.

(** ** The invariant of the pool *)

Definition held_task (w : worker) : option WriteTask := match w with HoldsWrite t => Some t | _ => None end.
Definition run_task (w : worker) : option WriteTask := match w with RunsWrite t => Some t | _ => None end.
Definition busy (w : worker) : Z := match w with Idle | Exited => 0 | _ => 1 end.
Definition finished (w : worker) : Z := match w with RunsWrite _ | FinishedWrite => 1 | _ => 0 end.

Definition held (p : WorkerPool) : list WriteTask := omap held_task (workers_ p).
Definition running (p : WorkerPool) : list WriteTask := omap run_task (workers_ p).
Definition total (f : worker -> Z) (l : list worker) : Z := foldr (fun w n => f w + n) 0 l.

Record pool_inv (p : WorkerPool) : Prop := {
  pi_order : order_inv (get_dv_state p) (write_queue_ p) (held p) (running p) (accepted p) (started p);
  pi_flight : in_flight_ p = total busy (workers_ p);
  pi_count : writes_completed_ p + total finished (workers_ p) = Z.of_nat (length (started p));
  pi_exit : enabled (backpressure_ p) = true -> Exited ∈ workers_ p -> shutdown_ p = true /\ write_queue_ p = [];
  pi_cap : enabled (backpressure_ p) = false -> (length (write_queue_ p) <= queue_capacity (backpressure_ p))%nat
}.

Lemma total_app f l1 l2 : total f (l1 ++ l2) = total f l1 + total f l2.
Proof. induction l1 as [|w l1 IH]; simpl; [done|]. rewrite IH. lia. Qed.

Lemma get_set p k s k' : get_dv_state (set_dv p k s) k' = if decide (k' = k) then s else get_dv_state p k'.
Proof.
  unfold get_dv_state. simpl. destruct (decide (k' = k)) as [->|]; [by rewrite lookup_insert_eq|by rewrite lookup_insert_ne].
Qed.

Lemma get_touch p k k' : get_dv_state (set_dv p k (get_dv_state p k)) k' = get_dv_state p k'.
Proof. rewrite get_set. by destruct (decide (k' = k)) as [->|]. Qed.

Lemma inv_callers p c : pool_inv p -> pool_inv (set_callers p c).
Proof. intros [? ? ? ? ?]. by constructor. Qed.

(** Replacing the one worker that takes the step. *)
Lemma elem_exited w1 w w' w2 : w' <> Exited -> Exited ∈ w1 ++ w' :: w2 -> Exited ∈ w1 ++ w :: w2.
Proof. rewrite !elem_of_app, !elem_of_cons. intuition congruence. Qed.

Lemma enqueue_inv p k h cb : pool_inv p -> Z.of_nat (length (accepted p)) + 1 < 18446744073709551616 ->
  (enabled (backpressure_ p) = true -> shutdown_ p = false) ->
  (enabled (backpressure_ p) = false -> (length (write_queue_ p) < queue_capacity (backpressure_ p))%nat) ->
  pool_inv (snd (enqueue p k h cb)).
Proof.
  intros [Ho Hf Hc He Hq] Hlen Hs Hcap. constructor; simpl.
  - apply (order_enqueue Ho).
    + pose proof (length_filter (fun u => dv_key u = k) (accepted p)). unfold of_key. lia.
    + intros k'. exact (get_set _ _ _ _).
  - exact Hf.
  - exact Hc.
  - intros E Hx. destruct (He E Hx) as [Hd _]. rewrite (Hs E) in Hd. discriminate Hd.
  - intros E. rewrite length_app. simpl. specialize (Hcap E). lia.
Qed.

Lemma try_prefetch_inv p w1 w2 i w p' : pool_inv p -> workers_ p = w1 ++ Idle :: w2 ->
  try_prefetch p i = (w, p') -> pool_inv (set_workers p' (w1 ++ w :: w2)).
Proof.
  intros [Ho Hf Hc He Hq] Hw. unfold try_prefetch. unfold held, running in Ho. rewrite Hw in *.
  rewrite !omap_middle in Ho. rewrite total_app in Hf, Hc. simpl in Hf, Hc.
  destruct (prefetch_queue_ p !! i) as [t|]; intros [= <- <-]; constructor; simpl; unfold held, running; simpl;
    rewrite ?omap_middle, ?total_app; simpl; [exact Ho|lia|lia|intros E Hx|exact Hq|exact Ho|lia|lia|intros E Hx|exact Hq];
    (apply He; [exact E|]); (eapply elem_exited; [|exact Hx]); discriminate.
Qed.

Lemma try_execute_inv p w1 w2 i w p' : pool_inv p -> workers_ p = w1 ++ Idle :: w2 ->
  try_execute_one p i = (w, p') -> pool_inv (set_workers p' (w1 ++ w :: w2)).
Proof.
  intros Hi Hw. unfold try_execute_one. destruct (write_queue_ p) as [|task rest] eqn:Eq; [by apply try_prefetch_inv|].
  pose proof Hi as [Ho Hf Hc He Hq].
  destruct (Z.eqb_spec (dv_seq task) (exec_seq (get_dv_state p (dv_key task)))) as [Hr|Hr].
  - intros [= <- <-].
    assert (Hfree : dv_key task ∉ dv_key <$> held p ++ running p) by (apply (ready_key_free Ho); [rewrite Eq; apply list_elem_of_here|done]).
    unfold held, running in *. rewrite Hw, Eq in *.
    rewrite !omap_middle in *. rewrite total_app in Hf, Hc. simpl in *. constructor; simpl; unfold held, running; simpl;
      rewrite ?omap_middle, ?total_app; simpl.
    + apply (order_ext Ho); [intros k; apply get_touch| | |done|].
      * simpl. by rewrite <- !Permutation_middle.
      * intros t. rewrite elem_of_app, elem_of_cons. intros [Ht|[->|Ht]]; [apply (oi_held Ho)|exact Hr|apply (oi_held Ho)]; apply elem_of_app; tauto.
      * rewrite <- app_assoc. simpl. rewrite <- Permutation_middle. simpl. apply list.NoDup_cons. rewrite app_assoc.
        split; [exact Hfree|]. apply (oi_keys Ho).
    + lia.
    + lia.
    + intros E Hx. destruct (He E) as [_ Hd]; [|discriminate Hd].
      eapply elem_exited; [|exact Hx]; discriminate.
    + intros E. specialize (Hq E). simpl in Hq. lia.
  - apply try_prefetch_inv; [|exact Hw]. constructor; simpl.
    + apply (order_ext Ho); [intros k; apply get_touch| |apply (oi_held Ho)|done|apply (oi_keys Ho)].
      rewrite Eq. unfold held. simpl. by rewrite <- Permutation_cons_append.
    + exact Hf.
    + exact Hc.
    + intros E Hx. destruct (He E Hx) as [_ Hd]. rewrite Eq in Hd. discriminate Hd.
    + intros E. specialize (Hq E). rewrite Eq in Hq. rewrite length_app. simpl in *. lia.
Qed.

Lemma worker_pool_inv n b : pool_inv (worker_pool n b).
Proof.
  assert (Hh : held (worker_pool n b) = []) by (unfold held; simpl; by induction n).
  assert (Hr : running (worker_pool n b) = []) by (clear Hh; unfold running; simpl; by induction n).
  constructor; rewrite ?Hh, ?Hr; simpl.
  - assert (Hn : forall k, get_dv_state (worker_pool n b) k = new_dv_state) by (intros k; unfold get_dv_state; simpl; by rewrite lookup_empty).
    constructor; try (intros t Ht; by apply not_elem_of_nil in Ht).
    + intros k m t Ht. by destruct m.
    + intros k. by rewrite Hn.
    + done.
    + intros k. by rewrite Hn.
    + intros k. rewrite Hn. simpl. split; [done|]. intros Hk. by apply not_elem_of_nil in Hk.
    + done.
    + apply NoDup_nil_2.
    + apply NoDup_nil_2.
  - clear Hh Hr. by induction n.
  - clear Hh Hr. induction n as [|n IH]; simpl; lia.
  - intros _ Hx. apply elem_of_replicate in Hx as [? _]. done.
  - lia.
Qed.

Lemma begin_inv p w1 t w2 : pool_inv p -> workers_ p = w1 ++ HoldsWrite t :: w2 ->
  pool_inv (set_workers (begin_write p t) (w1 ++ RunsWrite t :: w2)).
Proof.
  intros [Ho Hf Hc He Hq] Hw. unfold held, running in Ho. rewrite Hw, ?omap_middle in *. rewrite total_app in Hf, Hc.
  constructor; simpl in *; unfold held, running; simpl; rewrite ?omap_middle, ?total_app; simpl.
  - apply (order_begin Ho _ _ _ t); simpl.
    + by rewrite <- Permutation_middle.
    + by rewrite <- Permutation_middle.
    + intros k. refine (eq_trans (get_set _ _ _ _) _). by destruct (decide (k = dv_key t)) as [->|].
  - lia.
  - rewrite length_app. simpl. lia.
  - intros E Hx. apply He; [exact E|]. eapply elem_exited; [|exact Hx]. discriminate.
  - exact Hq.
Qed.

Lemma end_inv p w1 t w2 ran : pool_inv p -> Z.of_nat (length (accepted p)) < 18446744073709551616 ->
  workers_ p = w1 ++ RunsWrite t :: w2 -> pool_inv (set_workers (end_write p t ran) (w1 ++ FinishedWrite :: w2)).
Proof.
  intros [Ho Hf Hc He Hq] Hlen Hw. unfold held, running in Ho. rewrite Hw, ?omap_middle in *. rewrite total_app in Hf, Hc.
  constructor; simpl in *; unfold held, running; simpl; rewrite ?omap_middle, ?total_app; simpl.
  - apply (order_end Ho _ _ t Hlen).
    + simpl. by rewrite <- Permutation_middle.
    + intros k. refine (eq_trans (get_set _ _ _ _) _). by destruct (decide (k = dv_key t)) as [->|].
  - lia.
  - lia.
  - intros E Hx. apply He; [exact E|]. eapply elem_exited; [|exact Hx]. discriminate.
  - exact Hq.
Qed.

(** Back to [Idle] from a state that owns no write. *)
Lemma return_inv p w1 w w2 n c f r : pool_inv p -> workers_ p = w1 ++ w :: w2 -> w <> Exited ->
  held_task w = None -> run_task w = None -> n = in_flight_ p - busy w -> c = writes_completed_ p + finished w ->
  pool_inv (set_workers (set_counters p n c f r) (w1 ++ Idle :: w2)).
Proof.
  intros [Ho Hf Hc He Hq] Hw Hne Hh Hr -> ->. unfold held, running in Ho. rewrite Hw, ?omap_middle in *.
  rewrite Hh, Hr in Ho. rewrite total_app in Hf, Hc.
  constructor; simpl in *; unfold held, running; simpl; rewrite ?omap_middle, ?total_app; simpl.
  - exact Ho.
  - lia.
  - lia.
  - intros E Hx. apply He; [exact E|]. eapply elem_exited; [|exact Hx]. discriminate.
  - exact Hq.
Qed.

Lemma exit_inv p w1 w2 : pool_inv p -> workers_ p = w1 ++ Idle :: w2 -> may_exit p = true ->
  pool_inv (set_workers p (w1 ++ Exited :: w2)).
Proof.
  intros [Ho Hf Hc He Hq] Hw Hm. unfold held, running in Ho. rewrite Hw, ?omap_middle in *. rewrite total_app in Hf, Hc.
  constructor; simpl in *; unfold held, running; simpl; rewrite ?omap_middle, ?total_app; simpl; [exact Ho|lia|lia| |exact Hq].
  intros _ _. unfold may_exit in Hm. apply andb_true_iff in Hm as [[Hs Hd]%andb_true_iff _].
  split; [exact Hs|]. by apply bool_decide_eq_true in Hd.
Qed.

Lemma submit_resume_inv p k h cb r p' : pool_inv p -> Z.of_nat (length (accepted p')) < 18446744073709551616 ->
  (enabled (backpressure_ p) = true) -> submit_resume p k h cb = (r, p') -> pool_inv p'.
Proof.
  unfold submit_resume. intros Hi Hlen He. destruct (shutdown_ p) eqn:Es; [by intros [= <- <-]|]. intros [= <- <-].
  simpl in Hlen. rewrite length_app in Hlen. simpl in Hlen. apply (enqueue_inv p k h cb Hi); [lia|done|congruence].
Qed.

Lemma submit_write_inv p k h cb r p' : pool_inv p -> Z.of_nat (length (accepted p')) < 18446744073709551616 ->
  submit_write p k h cb = (r, p') -> pool_inv p' /\ (r = Blocked -> enabled (backpressure_ p) = true).
Proof.
  unfold submit_write. intros Hi Hlen. destruct (enabled (backpressure_ p)) eqn:Ee.
  - destruct (_ <=? _)%nat; [by intros [= <- <-]|]. intros Hr. split; [|done]. by eapply submit_resume_inv.
  - destruct (Nat.leb_spec (queue_capacity (backpressure_ p)) (length (write_queue_ p))); [by intros [= <- <-]|].
    intros [= <- <-]. split; [|done]. simpl in Hlen. rewrite length_app in Hlen. simpl in Hlen.
    apply (enqueue_inv p k h cb Hi); [lia|congruence|intros _; lia].
Qed.

(** Only a pool with backpressure makes callers wait. *)
Definition waiting_ok (p : WorkerPool) : Prop :=
  forall k h cb, Waiting k h cb ∈ callers p -> enabled (backpressure_ p) = true.

Lemma submit_frame p k h cb r p' : submit_write p k h cb = (r, p') \/ submit_resume p k h cb = (r, p') ->
  callers p' = callers p /\ backpressure_ p' = backpressure_ p /\ (length (accepted p) <= length (accepted p'))%nat.
Proof.
  assert (H : callers (snd (enqueue p k h cb)) = callers p /\ backpressure_ (snd (enqueue p k h cb)) = backpressure_ p /\
    (length (accepted p) <= length (accepted (snd (enqueue p k h cb))))%nat).
  { simpl. rewrite length_app. simpl. split; [done|]. split; [done|lia]. }
  destruct (enqueue p k h cb) as [r0 p0] eqn:Eq. simpl in H. unfold submit_write, submit_resume. rewrite Eq.
  intros [E|E]; repeat case_match; simplify_eq; done.
Qed.

Lemma try_frame p i w p' : try_execute_one p i = (w, p') ->
  callers p' = callers p /\ backpressure_ p' = backpressure_ p /\ accepted p' = accepted p.
Proof. unfold try_execute_one, try_prefetch. intros E. repeat case_match; simplify_eq; done. Qed.

Lemma pool_step_inv p p' : step p p' -> Z.of_nat (length (accepted p')) < 18446744073709551616 ->
  pool_inv p /\ waiting_ok p -> pool_inv p' /\ waiting_ok p'.
Proof.
  intros Hs Hlen [Hi Hw]. destruct Hs as [p k h cb Hn|p c1 k h cb c2 r p' Hc E|p c1 k h cb c2 r p' Hc E|p t|p w1 w2 i w p' Ew Hm Ht E
    |p w1 w2 Ew Hm|p w1 t w2 Ew Hl|p w1 t w2 ran Ew|p w1 w2 Ew|p w1 t w2 ran Ew|p].
  - split; [by apply inv_callers|]. intros k' h' cb' [Hx|Hx%list_elem_of_singleton]%elem_of_app; [by eapply Hw|done].
  - destruct (submit_write_inv p k h cb r p' Hi Hlen E) as [Hi' Hb]. destruct (submit_frame p k h cb r p' (or_introl E)) as (_ & Eb & _).
    split; [by apply inv_callers|]. intros k' h' cb'. simpl. rewrite Eb, !elem_of_app.
    intros [Hx|[Hx|Hx]]; [|destruct r; [by apply Hb|by apply not_elem_of_nil in Hx]|];
      eapply Hw; rewrite Hc, elem_of_app, elem_of_cons; [left|right; right]; exact Hx.
  - assert (Ee : enabled (backpressure_ p) = true) by (eapply Hw; rewrite Hc; apply elem_of_app; right; apply list_elem_of_here).
    destruct (submit_frame p k h cb r p' (or_intror E)) as (_ & Eb & _).
    split; [apply inv_callers; by eapply submit_resume_inv|]. intros k' h' cb' _. simpl. by rewrite Eb.
  - split; [destruct Hi; by constructor|exact Hw].
  - split; [by eapply try_execute_inv|]. destruct (try_frame p i w p' E) as (Ec & Eb & _). intros k h cb. simpl. rewrite Ec, Eb. apply Hw.
  - split; [by apply exit_inv|exact Hw].
  - split; [by apply begin_inv|exact Hw].
  - split; [by apply end_inv|exact Hw].
  - split; [|exact Hw]. by apply (return_inv p w1 FinishedWrite w2).
  - split; [|exact Hw]. apply (return_inv p w1 (RunsPrefetch t) w2); try done. simpl. lia.
  - split; [|exact Hw]. destruct Hi as [Ho Hf Hc He Hq]. constructor; try done. intros E Hx. split; [done|]. by apply He.
Qed.

Lemma accepted_grows p p' : step p p' -> (length (accepted p) <= length (accepted p'))%nat.
Proof.
  destruct 1 as [p k h cb Hn|p c1 k h cb c2 r p' Hc E|p c1 k h cb c2 r p' Hc E|p t|p w1 w2 i w p' Ew Hm Ht E| | | | | |]; simpl; try done.
  - by destruct (submit_frame p k h cb r p' (or_introl E)) as (_ & _ & ?).
  - by destruct (submit_frame p k h cb r p' (or_intror E)) as (_ & _ & ?).
  - destruct (try_frame p i w p' E) as (_ & _ & ->). done.
Qed.

Lemma reachable_pool_inv n b p : rtc step (worker_pool n b) p -> Z.of_nat (length (accepted p)) < 18446744073709551616 -> pool_inv p.
Proof.
  intros Hr. enough (H : Z.of_nat (length (accepted p)) < 18446744073709551616 -> pool_inv p /\ waiting_ok p) by tauto.
  pattern p. revert p Hr. apply rtc_ind_r; [intros _; split; [apply worker_pool_inv|by intros k h cb Hx%not_elem_of_nil]|].
  intros p p' _ Hs IH Hlen. apply (pool_step_inv p p' Hs Hlen). apply IH. pose proof (accepted_grows p p' Hs). lia.
Qed.

(** ** Progress *)

(** A write whose turn it is. *)
Definition ready (p : WorkerPool) (t : WriteTask) : Prop := dv_seq t = exec_seq (get_dv_state p (dv_key t)).

Lemma some_ready p t : pool_inv p -> t ∈ write_queue_ p -> dv_key t ∉ dv_key <$> held p ++ running p ->
  exists u, u ∈ write_queue_ p /\ dv_key u = dv_key t /\ ready p u.
Proof.
  intros Hi Ht Hfree. pose proof (pi_order p Hi) as Ho. set (k := dv_key t) in *.
  assert (Hl : dv_locked (get_dv_state p k) = false).
  { apply not_true_is_false. rewrite (oi_lock Ho). rewrite fmap_app, elem_of_app in Hfree. tauto. }
  pose proof (oi_exec Ho k) as He. rewrite Hl in He. destruct (oi_start Ho k) as [rest Hrest].
  destruct (position Ho t) as (n & Hn & En); [apply (in_acc Ho); tauto|]. fold k in Hn.
  destruct rest as [|u rest].
  - exfalso. rewrite app_nil_r in Hrest. rewrite Hrest in Hn. apply list_elem_of_lookup_2, elem_of_key in Hn as [_ Hst].
    by apply (order_disjoint Ho) in Hst as [? _].
  - assert (Hu : of_key k (accepted p) !! length (of_key k (started p)) = Some u).
    { rewrite Hrest, lookup_app_r, Nat.sub_diag by done. done. }
    pose proof (oi_seq Ho _ _ _ Hu) as Es. apply list_elem_of_lookup_2, elem_of_key in Hu as [Hk Hin].
    assert (Hr : ready p u) by (unfold ready; rewrite Hk; lia). exists u. split; [|by split].
    rewrite (oi_perm Ho), !elem_of_app in Hin. destruct Hin as [Hst|[Hq|Hh]]; [|done|].
    + exfalso. assert (Hst' : u ∈ of_key k (started p)) by (by apply elem_of_key).
      apply list_elem_of_lookup in Hst' as (m & Hm). pose proof (lookup_lt_Some _ _ _ Hm).
      assert (Hm' : of_key k (accepted p) !! m = Some u) by (rewrite Hrest; by apply lookup_app_l_Some).
      apply (oi_seq Ho) in Hm'. lia.
    + exfalso. apply Hfree. rewrite <- Hk. apply list_elem_of_fmap_2, elem_of_app. by left.
Qed.

(** The first ready write of the queue: as many polls as there are writes before it put
    it at the front. *)
Lemma first_ready p : pool_inv p -> held p ++ running p = [] -> write_queue_ p <> [] ->
  exists l1 t l2, write_queue_ p = l1 ++ t :: l2 /\ Forall (fun u => ~ ready p u) l1 /\ ready p t.
Proof.
  intros Hi Hn Hq. assert (Hex : exists t, t ∈ write_queue_ p /\ ready p t).
  { destruct (write_queue_ p) as [|t q] eqn:E; [done|]. destruct (some_ready p t Hi) as (u & Hu & _ & Hr).
    - rewrite E. apply list_elem_of_here.
    - rewrite Hn. apply not_elem_of_nil.
    - exists u. rewrite <- E. by split. }
  destruct Hex as (t & Ht & Hr). revert t Ht Hr. generalize (write_queue_ p) as q. clear. induction q as [|x q IH]; intros t Ht Hr.
  - by apply not_elem_of_nil in Ht.
  - destruct (decide (dv_seq x = exec_seq (get_dv_state p (dv_key x)))) as [Hx|Hx]; [by exists [], x, q|].
    apply elem_of_cons in Ht as [->|Ht]; [done|]. destruct (IH t Ht Hr) as (l1 & u & l2 & -> & Hl & Hu).
    exists (x :: l1), u, l2. split; [done|]. split; [by constructor|done].
Qed.

Lemma idle_in_flight l : total busy l = 0 -> omap held_task l = [] /\ omap run_task l = [] /\ total finished l = 0.
Proof.
  assert (H : forall l, 0 <= total busy l) by (induction l0 as [|w l0 IH]; simpl; [lia|destruct w; simpl; lia]).
  induction l as [|w l IH]; simpl; [done|]. specialize (H l). intros E.
  destruct w; simpl in *; try lia; apply IH; lia.
Qed.

Lemma all_exited l : Forall (fun w => w = Exited) l -> omap held_task l = [] /\ omap run_task l = [].
Proof. induction 1 as [|w l -> _ IH]; [done|]. exact IH. Qed.

(** ** Properties *)

(** C17. In every reachable state of the pool, for fewer than 2^64 writes: the writes begun
    for a (dataset, variable) pair are a prefix of those submitted for it, in order, and
    at most one of the pair is running; no write is lost or begun twice; while no worker
    is busy with a write, a queued write has its turn, so that polling the queue finds
    one; when the condition of [drain] holds every submitted write has been executed; with
    backpressure, when all workers have exited nothing is left behind; without it the
    queue never exceeds its capacity. *)
Theorem writes_in_order n b p : rtc step (worker_pool n b) p -> Z.of_nat (length (accepted p)) < 18446744073709551616 ->
  (forall k, of_key k (started p) `prefix_of` of_key k (accepted p)) /\
  NoDup (dv_key <$> held p ++ running p) /\
  accepted p ≡ₚ started p ++ write_queue_ p ++ held p /\
  (held p ++ running p = [] -> write_queue_ p <> [] ->
   exists l1 t l2, write_queue_ p = l1 ++ t :: l2 /\ Forall (fun u => ~ ready p u) l1 /\ ready p t) /\
  (drained p = true -> accepted p ≡ₚ started p /\ writes_completed_ p = Z.of_nat (length (accepted p))) /\
  (enabled (backpressure_ p) = true -> workers_ p <> [] -> Forall (fun w => w = Exited) (workers_ p) -> accepted p ≡ₚ started p) /\
  (enabled (backpressure_ p) = false -> (length (write_queue_ p) <= queue_capacity (backpressure_ p))%nat).
Proof.
  intros Hr Hlen. pose proof (reachable_pool_inv n b p Hr Hlen) as Hi. pose proof (pi_order p Hi) as Ho.
  split; [apply (oi_start Ho)|]. split; [apply (oi_keys Ho)|]. split; [apply (oi_perm Ho)|]. split; [by apply first_ready|].
  split; [|split; [|apply (pi_cap p Hi)]].
  - unfold drained. intros [[Hq%bool_decide_eq_true _]%andb_true_iff Hf%Z.eqb_eq]%andb_true_iff.
    rewrite (pi_flight p Hi) in Hf. destruct (idle_in_flight _ Hf) as (Hh & _ & Hfin).
    pose proof (oi_perm Ho) as Hp. unfold held in Hp. rewrite Hq, Hh, !app_nil_r in Hp. split; [exact Hp|].
    pose proof (pi_count p Hi) as Hc. rewrite Hp. lia.
  - intros He Hne Hall. destruct (all_exited _ Hall) as [Hh _]. destruct (pi_exit p Hi He) as [_ Hq].
    { destruct (workers_ p) as [|w l]; [done|]. apply Forall_inv in Hall as ->. apply list_elem_of_here. }
    pose proof (oi_perm Ho) as Hp. unfold held in Hp. by rewrite Hq, Hh, !app_nil_r in Hp.
Qed.

(** Two writes of one pair: the first is running, the second waits for its turn. *)
Definition demo_key : DatasetVariableKey := mkKey 1 1.
Definition demo0 : WorkerPool := Eval vm_compute in worker_pool 2 (mkBackpressure false 0 0 8).
Definition demo1 : WorkerPool := Eval vm_compute in set_callers demo0 [Entered demo_key 0 1].
Definition demo2 : WorkerPool := Eval vm_compute in set_callers (snd (submit_write demo1 demo_key 0 1)) [].
Definition demo3 : WorkerPool := Eval vm_compute in set_callers demo2 [Entered demo_key 0 2].
Definition demo4 : WorkerPool := Eval vm_compute in set_callers (snd (submit_write demo3 demo_key 0 2)) [].
Definition demo5 : WorkerPool := Eval vm_compute in
  set_workers (snd (try_execute_one demo4 0)) [fst (try_execute_one demo4 0); Idle].
Definition demo6 : WorkerPool := Eval vm_compute in
  set_workers (begin_write demo5 (mkWrite demo_key 0 0 1)) [RunsWrite (mkWrite demo_key 0 0 1); Idle].

Lemma demo_run : rtc step (worker_pool 2 (mkBackpressure false 0 0 8)) demo6.
Proof.
  eapply (rtc_l _ _ demo1); [exact (SubmitEnter demo0 demo_key 0 1%nat eq_refl)|].
  eapply (rtc_l _ _ demo2); [exact (SubmitSection demo1 [] demo_key 0 1%nat [] _ _ eq_refl eq_refl)|].
  eapply (rtc_l _ _ demo3); [exact (SubmitEnter demo2 demo_key 0 2%nat eq_refl)|].
  eapply (rtc_l _ _ demo4); [exact (SubmitSection demo3 [] demo_key 0 2%nat [] _ _ eq_refl eq_refl)|].
  eapply (rtc_l _ _ demo5); [exact (TryExecute demo4 [] [Idle] 0%nat _ _ eq_refl eq_refl eq_refl eq_refl)|].
  eapply (rtc_l _ _ demo6); [exact (BeginWrite demo5 [] _ [Idle] eq_refl eq_refl)|].
  apply rtc_refl.
Qed.

Lemma writes_in_order_witness :
  length (accepted demo6) = 2%nat /\ length (write_queue_ demo6) = 1%nat /\
  of_key demo_key (started demo6) `prefix_of` of_key demo_key (accepted demo6).
Proof.
  split; [reflexivity|]. split; [reflexivity|].
  exact (proj1 (writes_in_order 2 (mkBackpressure false 0 0 8) demo6 demo_run eq_refl) demo_key).
Defined.

(** Without backpressure a caller that passed the first test of [shutdown_] enqueues its
    write after the workers are gone: it is told [AMIO_OK] and the write is never run. *)
Example late_write_is_lost : exists p q,
  rtc step (worker_pool 1 (mkBackpressure false 0 0 8)) p /\ Forall (fun w => w = Exited) (workers_ p) /\
  submit_write p (mkKey 1 1) 0 7 = (Returned AMIO_OK 0, q) /\ write_queue_ q <> [] /\ started q = [].
Proof.
  eassert (H : rtc step (worker_pool 1 (mkBackpressure false 0 0 8)) _).
  { eapply rtc_l; [apply (SubmitEnter _ (mkKey 1 1) 0 7%nat); reflexivity|].
    eapply rtc_l; [apply Shutdown|].
    eapply rtc_l; [eapply (Exit _ [] []); reflexivity|]. apply rtc_refl. }
  eexists. eexists. split; [exact H|]. split; [repeat constructor|]. split; [reflexivity|]. split; [discriminate|reflexivity].
Qed.
