(* ===== verification/BufferPool.v ===== *)
(** * AMIO: what the read path relies on of a buffer pool

    The interface between the prefetch queue and the staging pool, in terms of
    reference counts, and the proof that the staging pool implements it. *)
From Stdlib Require Import ZArith Lia.
From stdpp Require Import base list numbers.
From S2P Require Import Prelude CInt.
From S2P Require StagingPool.
Local Open Scope Z_scope.

(** [refs p b] is the number of references to buffer [b], 0 when it is free or does not
    exist.  [pool_acquire p n o p']: a call of [acquire] for [n] bytes that does not have
    to wait, or whose wait is over, returns [o]. *)
Class BufferPool (P : Type) := {
  pool_valid : P -> Prop;
  refs : P -> nat -> Z;
  capacity_of : P -> nat -> Z;
  nominal_capacity : P -> Z;
  pool_acquire : P -> Z -> option nat -> P -> Prop;
  pool_release : P -> nat -> result P;
  pool_add_ref : P -> nat -> result P;
  refs_nonneg p b : pool_valid p -> 0 <= refs p b;
  acquire_law p n o p' : pool_valid p -> pool_acquire p n o p' ->
    pool_valid p' /\
    match o with
    | Some b => refs p b = 0 /\ refs p' b = 1 /\ n <= capacity_of p' b /\ forall c, c <> b -> refs p' c = refs p c
    | None => p' = p
    end;
  release_law p b : pool_valid p -> 0 < refs p b ->
    exists p', pool_release p b = Ok p' /\ pool_valid p' /\ refs p' b = refs p b - 1 /\ forall c, c <> b -> refs p' c = refs p c;
  add_ref_law p b p' : pool_valid p -> 0 < refs p b -> pool_add_ref p b = Ok p' ->
    pool_valid p' /\ refs p' b = refs p b + 1 /\ forall c, c <> b -> refs p' c = refs p c
}.

(** ** The staging pool *)

Definition staging_refs (p : StagingPool.StagingPool) (b : nat) : Z :=
  match StagingPool.buffers_ p !! b with Some x => StagingPool.ref_count x | None => 0 end.

Definition staging_valid (p : StagingPool.StagingPool) : Prop :=
  StagingPool.pool_ok p /\ forall i b, StagingPool.buffers_ p !! i = Some b -> StagingPool.ref_count b <= 2147483647.

(** The allocator provides fresh storage. *)
Definition staging_acquire (p : StagingPool.StagingPool) (n : Z) (o : option nat) (p' : StagingPool.StagingPool) : Prop :=
  exists fresh, StagingPool.fresh_for p fresh /\
    (StagingPool.acquire_once p n fresh = Ok (o, p') \/ StagingPool.acquire_timeout p n fresh = (o, p')).

Lemma staging_acquire_spec p n o p' : StagingPool.pool_ok p -> staging_acquire p n o p' ->
  StagingPool.pool_ok p' /\ match o with Some i => StagingPool.acquired p p' n i | None => p' = p end.
Proof.
  intros Hok (fresh & Hf & [E|E]).
  - destruct (StagingPool.acquire_once_spec p n fresh Hok Hf) as (o' & p'' & E' & Hp & Ho). rewrite E in E'.
    injection E' as <- <-. split; [exact Hp|]. destruct o as [i|]; [exact Ho|]. exact (proj1 Ho).
  - unfold StagingPool.acquire_timeout in E. destruct (StagingPool.find_best_fit p n) as [k|] eqn:Ek.
    + destruct (StagingPool.take_acquired p n fresh k Hok Hf Ek) as (i & p'' & E' & Hp & Ha & _). rewrite E' in E.
      injection E as <- <-. by split.
    + injection E as <- <-. by split.
Qed.

Lemma staging_acquired p p' n i : StagingPool.acquired p p' n i ->
  staging_refs p i = 0 /\ staging_refs p' i = 1 /\ n <= StagingPool.capacity_at (StagingPool.buffers_ p') i /\
  forall c, c <> i -> staging_refs p' c = staging_refs p c.
Proof.
  intros [Hfree (b' & Hb' & Hr & Hcap & _) _ Ho Hn _]. unfold staging_refs, StagingPool.capacity_at.
  split; [|split; [by rewrite Hb'|split; [by rewrite Hb'|]]].
  - destruct (StagingPool.buffers_ p !! i) eqn:E; [by apply Hfree|done].
  - intros c Hc. destruct (StagingPool.buffers_ p !! c) eqn:E; [by rewrite (Ho c _ Hc E)|by rewrite (Hn c Hc E)].
Qed.

Lemma staging_acquire_law p n o p' : staging_valid p -> staging_acquire p n o p' ->
  staging_valid p' /\
  match o with
  | Some b => staging_refs p b = 0 /\ staging_refs p' b = 1 /\ n <= StagingPool.capacity_at (StagingPool.buffers_ p') b /\
      forall c, c <> b -> staging_refs p' c = staging_refs p c
  | None => p' = p
  end.
Proof.
  intros [Hok Hmax] Ha. destruct (staging_acquire_spec p n o p' Hok Ha) as [Hok' Ho].
  destruct o as [i|]; [|subst; by split]. destruct (staging_acquired p p' n i Ho) as (H0 & H1 & H2 & H3).
  split; [|by split]. split; [done|]. intros j b Hb. destruct (decide (j = i)) as [->|Hne].
  - unfold staging_refs in H1. rewrite Hb in H1. lia.
  - specialize (H3 j Hne). unfold staging_refs in H3. rewrite Hb in H3. rewrite H3.
    destruct (StagingPool.buffers_ p !! j) eqn:E; [by eapply Hmax|lia].
Qed.

(** A change of the counters of one buffer. *)
Lemma staging_recount p i b n used f : staging_valid p -> StagingPool.buffers_ p !! i = Some b ->
  let p' := StagingPool.with_buffers p (<[i := StagingPool.mkBuffer (StagingPool.data b) (StagingPool.capacity_bytes b) used n (StagingPool.seq b)]> (StagingPool.buffers_ p)) f in
  StagingPool.pool_ok p' -> n <= 2147483647 ->
  staging_valid p' /\ staging_refs p' i = n /\ forall c, c <> i -> staging_refs p' c = staging_refs p c.
Proof.
  intros [Hok Hmax] Hb p' Hok' Hn. assert (Hi : (i < length (StagingPool.buffers_ p))%nat) by (by eapply lookup_lt_Some).
  split; [|split].
  - split; [done|]. intros j c Hc. unfold p' in Hc. simpl in Hc.
    apply list_lookup_insert_Some in Hc as [(_ & <- & _)|(_ & Hc)]; [done|by eapply Hmax].
  - unfold staging_refs, p'. simpl. by rewrite list_lookup_insert_eq.
  - intros c Hc. unfold staging_refs, p'. simpl. by rewrite list_lookup_insert_ne.
Qed.

Lemma staging_release_law p b : staging_valid p -> 0 < staging_refs p b ->
  exists p', StagingPool.release p b = Ok p' /\ staging_valid p' /\ staging_refs p' b = staging_refs p b - 1 /\
    forall c, c <> b -> staging_refs p' c = staging_refs p c.
Proof.
  intros Hv. unfold staging_refs at 1 3. destruct (StagingPool.buffers_ p !! b) as [x|] eqn:E; [|lia]. intros Hpos.
  pose proof Hv as [Hok Hmax]. specialize (Hmax _ _ E).
  destruct (StagingPool.release p b) as [p'|e|] eqn:Er.
  - exists p'. split; [done|]. destruct (StagingPool.step_ok p p' (StagingPool.Release p b x p' E Hpos Er) Hok) as [Hok' _].
    unfold StagingPool.release in Er. rewrite E in Er. unfold csub, cval in Er. cbn [bind] in Er.
    rewrite arith_ok in Er by (simpl imin; simpl imax; lia). cbn [bind] in Er.
    destruct (Z.eqb_spec (StagingPool.ref_count x - 1) 0); injection Er as <-; apply (staging_recount p b x _ _ _ Hv E Hok'); lia.
  - exfalso. revert Er. unfold StagingPool.release. rewrite E. unfold csub, cval. cbn [bind].
    rewrite arith_ok by (simpl imin; simpl imax; lia). cbn [bind]. by destruct (_ =? 0).
  - exfalso. revert Er. unfold StagingPool.release. rewrite E. unfold csub, cval. cbn [bind].
    rewrite arith_ok by (simpl imin; simpl imax; lia). cbn [bind]. by destruct (_ =? 0).
Qed.

Lemma staging_add_ref_law p b p' : staging_valid p -> 0 < staging_refs p b -> StagingPool.add_ref p b = Ok p' ->
  staging_valid p' /\ staging_refs p' b = staging_refs p b + 1 /\ forall c, c <> b -> staging_refs p' c = staging_refs p c.
Proof.
  intros Hv. unfold staging_refs at 1 3. destruct (StagingPool.buffers_ p !! b) as [x|] eqn:E; [|lia]. intros Hpos Er.
  pose proof Hv as [Hok _].
  destruct (StagingPool.step_ok p p' (StagingPool.AddRef p b x p' E Hpos Er) Hok) as [Hok' _].
  unfold StagingPool.add_ref in Er. rewrite E in Er. unfold cadd, cval in Er. cbn [bind] in Er.
  apply bind_Ok_inv in Er as (n & [-> Hr]%arith_inv & [= <-]). simpl in Hr. apply (staging_recount p b x _ _ _ Hv E Hok'). lia.
Qed.

#[export, refine] Instance StagingBufferPool : BufferPool StagingPool.StagingPool := {|
  pool_valid := staging_valid;
  refs := staging_refs;
  capacity_of p b := StagingPool.capacity_at (StagingPool.buffers_ p) b;
  nominal_capacity := StagingPool.buffer_capacity;
  pool_acquire := staging_acquire;
  pool_release := StagingPool.release;
  pool_add_ref := StagingPool.add_ref
|}.
Proof.
  - intros p b [Hok _]. unfold staging_refs. destruct (StagingPool.buffers_ p !! b) eqn:E; [by eapply StagingPool.ok_refs|done].
  - exact staging_acquire_law.
  - exact staging_release_law.
  - exact staging_add_ref_law.
Defined.
