(* ===== verification/PrefetchQueue.v ===== *)
(** * AMIO: the prefetch queue of the read path ([amio/src/prefetch/prefetch_queue.hpp], [.cpp])

    A system is one queue with the calls of [get_buffer] in progress, the fetches in
    progress and the buffer pool.  Every step is one critical section of [mu_] or one
    call of the pool or the driver; [get_buffer] releases the lock around
    [schedule_fetch].  A fetch in synchronous mode is the case in which nothing else
    happens before it ends.  The pool is any [BufferPool]; a buffer is its index.
    [others] holds the references of everybody else, [content] the record and selection
    a buffer was filled with. *)
From Stdlib Require Import ZArith Lia.
From stdpp Require Import base list numbers gmap relations.
From S2P Require Import Prelude CInt ListExtra AmioErrors BufferPool.
From S2P Require StagingPool.
Local Open Scope Z_scope.

(** ** Data *)

Definition AMIO_MAX_RANK : Z := 7.

Record amio_bbox_t : Type := mkBbox { b_rank : Z; offsets : list Z; extents : list Z; strides : list Z }.

Record VariableInfo : Type := mkInfo { dtype : Z; shape_rank : Z; shape_extents : list Z }.

(** 0 for an unknown tag. *)
Definition element_size (dtype : Z) : Z :=
  match dtype with
  | 0 => 4 | 1 => 8 | 2 => 1 | 3 => 2 | 4 => 4 | 5 => 8 | 6 => 1 | 7 => 2 | 8 => 4 | 9 => 8
  | _ => 0
  end.

Definition used_dims (rank : Z) : list nat := List.seq 0 (Z.to_nat (Z.min rank AMIO_MAX_RANK)).

Definition dim (l : list Z) (d : nat) : Z := default 0 (l !! d).

Definition bbox_same (a b : option amio_bbox_t) : bool :=
  match a, b with
  | None, None => true
  | Some x, Some y =>
      (b_rank x =? b_rank y) &&
      forallb (fun d => (dim (offsets x) d =? dim (offsets y) d) && (dim (extents x) d =? dim (extents y) d)
                        && (dim (strides x) d =? dim (strides y) d)) (used_dims (b_rank x))
  | _, _ => false
  end.

(** The product of the extents in [size_t]; [None] when one is not positive. *)
Fixpoint size_product (l : list Z) (acc : Z) : option Z :=
  match l with
  | [] => Some acc
  | e :: rest => if e <=? 0 then None else size_product rest (to_u64 (acc * e))
  end.

Definition payload_bytes (elem rank : Z) (ext : list Z) : option Z :=
  if (0 <? elem) && (0 <? rank) then
    match size_product (dim ext <$> used_dims rank) 1 with Some n => Some (to_u64 (elem * n)) | None => None end
  else None.

Definition acquire_bytes (info : VariableInfo) (bbox : option amio_bbox_t) (buffer_capacity : Z) : Z :=
  let elem := element_size (dtype info) in
  let full := default 0 (payload_bytes elem (shape_rank info) (shape_extents info)) in
  let payload := match bbox with
                 | Some b => default full (payload_bytes elem (b_rank b) (extents b))
                 | None => full
                 end in
  if 0 <? payload then payload else buffer_capacity.

Record PrefetchQueue : Type := mkQueue {
  depth_ : Z; read_timeout_s_ : Z; total_timesteps_ : Z; info_ : VariableInfo;
  completed_ : gmap Z nat; fetched_bbox_ : gmap Z amio_bbox_t; pending_ : gset Z; failed_ : gmap Z Z;
  latched_bbox_ : option amio_bbox_t; kicked_off_ : bool; cancelled_ : bool
}.

Definition clamp (lo hi x : Z) : Z := let y := if x <? lo then lo else x in if hi <? y then hi else y.

Definition prefetch_queue (depth read_timeout_s : Z) (info : VariableInfo) (total_timesteps : Z) : PrefetchQueue :=
  mkQueue (clamp 1 1024 depth) (clamp 1 3600 read_timeout_s) total_timesteps info ∅ ∅ ∅ ∅ None false false.

(** Assignments to members. *)
Definition set_tracking (q : PrefetchQueue) (c : gmap Z nat) (fb : gmap Z amio_bbox_t) (p : gset Z) (f : gmap Z Z) : PrefetchQueue :=
  mkQueue (depth_ q) (read_timeout_s_ q) (total_timesteps_ q) (info_ q) c fb p f (latched_bbox_ q) (kicked_off_ q) (cancelled_ q).
Definition latch (q : PrefetchQueue) (b : option amio_bbox_t) : PrefetchQueue :=
  mkQueue (depth_ q) (read_timeout_s_ q) (total_timesteps_ q) (info_ q) (completed_ q) (fetched_bbox_ q) (pending_ q) (failed_ q)
    b (kicked_off_ q) (cancelled_ q).
Definition kick_off (q : PrefetchQueue) : PrefetchQueue :=
  mkQueue (depth_ q) (read_timeout_s_ q) (total_timesteps_ q) (info_ q) (completed_ q) (fetched_bbox_ q) (pending_ q) (failed_ q)
    (latched_bbox_ q) true (cancelled_ q).
Definition set_cancelled (q : PrefetchQueue) : PrefetchQueue :=
  mkQueue (depth_ q) (read_timeout_s_ q) (total_timesteps_ q) (info_ q) (completed_ q) (fetched_bbox_ q) (pending_ q) (failed_ q)
    (latched_bbox_ q) (kicked_off_ q) true.

Definition mark_complete (q : PrefetchQueue) (ts : Z) (buf : nat) (bbox : option amio_bbox_t) : PrefetchQueue :=
  set_tracking q (<[ts := buf]> (completed_ q))
    (match bbox with Some b => <[ts := b]> (fetched_bbox_ q) | None => delete ts (fetched_bbox_ q) end)
    (pending_ q ∖ {[ts]}) (failed_ q).

Definition mark_failed (q : PrefetchQueue) (ts error : Z) : PrefetchQueue :=
  set_tracking q (completed_ q) (fetched_bbox_ q) (pending_ q ∖ {[ts]}) (<[ts := error]> (failed_ q)).

(** A fetch: dispatched, past the test for cancellation, with its buffer, after a failed
    read has given its buffer back. *)
Inductive fetch : Type :=
| Queued (ts : Z) (sel : option amio_bbox_t)
| Acquiring (ts : Z) (sel : option amio_bbox_t)
| Reading (ts : Z) (sel : option amio_bbox_t) (buf : nat)
| Failing (ts : Z).

(** A thread in [schedule_initial] or [get_buffer].  [Done] is a call that has returned:
    what it asked for, the status, the buffer with its content at that moment, and
    whether the deadline had passed. *)
Inductive reader : Type :=
| Initial (k count : Z)
| Kickoff (ts : Z) (req : option amio_bbox_t) (k count : Z)
| Scheduling (ts : Z) (req : option amio_bbox_t)
| AtLoop (ts : Z) (req : option amio_bbox_t)
| Refetch (ts : Z) (req : option amio_bbox_t)
| AtRest (ts : Z) (req : option amio_bbox_t)
| Blocked (ts : Z) (req : option amio_bbox_t)
| Done (ts : Z) (req : option amio_bbox_t) (status : Z) (out : option (nat * option (Z * option amio_bbox_t))) (late : bool).

Section Queue.
Context {P : Type} {pool_ops : BufferPool P}.

Record system : Type := mkSys {
  queue : PrefetchQueue; pool : P; fetches : list fetch; readers : list reader;
  others : list nat; content : gmap nat (Z * option amio_bbox_t)
}.

Definition with_queue (s : system) (q : PrefetchQueue) : system := mkSys q (pool s) (fetches s) (readers s) (others s) (content s).
Definition with_fetches (s : system) (f : list fetch) : system := mkSys (queue s) (pool s) f (readers s) (others s) (content s).
Definition with_readers (s : system) (r : list reader) : system := mkSys (queue s) (pool s) (fetches s) r (others s) (content s).
Definition with_pool (s : system) (p : P) : system := mkSys (queue s) p (fetches s) (readers s) (others s) (content s).

(** ** Dispatch *)

Definition schedule_fetch (s : system) (ts : Z) : system :=
  let q := queue s in
  if cancelled_ q then s
  else if bool_decide (ts ∈ pending_ q) || bool_decide (is_Some (completed_ q !! ts)) || bool_decide (is_Some (failed_ q !! ts)) then s
  else
    let q' := set_tracking q (completed_ q) (fetched_bbox_ q) ({[ts]} ∪ pending_ q) (failed_ q) in
    with_fetches (with_queue s q') (fetches s ++ [Queued ts (latched_bbox_ q)]).

Definition schedule_next (s : system) (current : Z) : result system :=
  let! next_t := (current + depth_ (queue s))%i64 in
  if total_timesteps_ (queue s) <=? next_t then Ok s else Ok (schedule_fetch s next_t).

Definition schedule_initial (s : system) : reader * system :=
  (Initial 0 (Z.min (depth_ (queue s)) (total_timesteps_ (queue s))), with_queue s (kick_off (queue s))).

(** ** [get_buffer], section by section *)

(** The buffer of [ts] goes to the caller; [keep] is the timeout path, which leaves the
    entry of [fetched_bbox_]. *)
Definition hand_out (s : system) (ts : Z) (req : option amio_bbox_t) (buf : nat) (late : bool) : reader * system :=
  let q := queue s in
  let fb := if late then fetched_bbox_ q else delete ts (fetched_bbox_ q) in
  (Done ts req AMIO_OK (Some (buf, content s !! buf)) late,
   mkSys (set_tracking q (delete ts (completed_ q)) fb (pending_ q) (failed_ q)) (pool s) (fetches s) (readers s)
     (buf :: others s) (content s)).

(** A buffer with another selection is given back. *)
Definition drop_stale (s : system) (ts : Z) (buf : nat) : result system :=
  let q := queue s in
  let! p := pool_release (pool s) buf in
  Ok (with_pool (with_queue s (set_tracking q (delete ts (completed_ q)) (delete ts (fetched_bbox_ q)) (pending_ q) (failed_ q))) p).

Definition take_error (s : system) (ts : Z) (req : option amio_bbox_t) (err : Z) (late : bool) : reader * system :=
  let q := queue s in
  (Done ts req err None late,
   with_queue s (set_tracking q (completed_ q) (fetched_bbox_ q) (pending_ q) (delete ts (failed_ q)))).

Definition loop_rest (s : system) (ts : Z) (req : option amio_bbox_t) : reader * system :=
  match failed_ (queue s) !! ts with
  | Some err => take_error s ts req err false
  | None => if cancelled_ (queue s) then (Done ts req AMIO_ERR_BACKEND_FAILURE None false, s) else (Blocked ts req, s)
  end.

Definition loop_section (s : system) (ts : Z) (req : option amio_bbox_t) : result (reader * system) :=
  match completed_ (queue s) !! ts with
  | Some buf =>
      if bbox_same (fetched_bbox_ (queue s) !! ts) req then Ok (hand_out s ts req buf false)
      else let! s' := drop_stale s ts buf in Ok (Refetch ts req, s')
  | None => Ok (loop_rest s ts req)
  end.

Definition pending_check (s : system) (ts : Z) (req : option amio_bbox_t) : result (reader * system) :=
  if bool_decide (ts ∈ pending_ (queue s)) then loop_section s ts req else Ok (Scheduling ts req, s).

Definition examine (s : system) (ts : Z) (req : option amio_bbox_t) : result (reader * system) :=
  match failed_ (queue s) !! ts with
  | Some err => Ok (take_error s ts req err false)
  | None =>
      match completed_ (queue s) !! ts with
      | Some buf =>
          if bbox_same (fetched_bbox_ (queue s) !! ts) req then Ok (hand_out s ts req buf false)
          else let! s' := drop_stale s ts buf in pending_check s' ts req
      | None => pending_check s ts req
      end
  end.

Definition get_buffer (s : system) (ts : Z) (req : option amio_bbox_t) : result (reader * system) :=
  let s := with_queue s (latch (queue s) req) in
  if kicked_off_ (queue s) then examine s ts req
  else
    let! left := (total_timesteps_ (queue s) - ts)%i64 in
    Ok (Kickoff ts req 0 (Z.min (depth_ (queue s)) left), with_queue s (kick_off (queue s))).

Definition timeout (s : system) (ts : Z) (req : option amio_bbox_t) : reader * system :=
  match completed_ (queue s) !! ts with
  | Some buf => hand_out s ts req buf true
  | None =>
      match failed_ (queue s) !! ts with
      | Some err => take_error s ts req err true
      | None => (Done ts req AMIO_ERR_TIMEOUT None true, s)
      end
  end.

(** The next step of a thread that is not blocked. *)
Definition advance (s : system) (r : reader) : result (option reader * system) :=
  let continue m := let! x := m in Ok (Some (fst x), snd x) in
  match r with
  | Initial k count => if k <? count then Ok (Some (Initial (k + 1) count), schedule_fetch s k) else Ok (None, s)
  | Kickoff ts req k count =>
      if k <? count then let! t := (ts + k)%i64 in Ok (Some (Kickoff ts req (k + 1) count), schedule_fetch s t)
      else continue (examine s ts req)
  | Scheduling ts req => Ok (Some (AtLoop ts req), schedule_fetch s ts)
  | AtLoop ts req => continue (loop_section s ts req)
  | Refetch ts req => Ok (Some (AtRest ts req), schedule_fetch s ts)
  | AtRest ts req => Ok (Some (fst (loop_rest s ts req)), snd (loop_rest s ts req))
  | Blocked ts req => continue (loop_section s ts req)
  | Done _ _ _ _ _ => Ok (None, s)
  end.

(** ** Fetches *)

(** How the driver's read ended. *)
Inductive read_result : Type := ReadOk (used_bytes : Z) | ReadThrows.

Definition start_fetch (s : system) (ts : Z) (sel : option amio_bbox_t) : option fetch * system :=
  let q := queue s in
  if cancelled_ q then (None, with_queue s (set_tracking q (completed_ q) (fetched_bbox_ q) (pending_ q ∖ {[ts]}) (failed_ q)))
  else (Some (Acquiring ts sel), s).

Definition got_buffer (s : system) (ts : Z) (sel : option amio_bbox_t) (o : option nat) : option fetch * system :=
  match o with
  | Some buf => (Some (Reading ts sel buf), s)
  | None => (None, with_queue s (mark_failed (queue s) ts AMIO_ERR_STAGING_BACKPRESSURE))
  end.

Definition finish_read (s : system) (ts : Z) (sel : option amio_bbox_t) (buf : nat) (r : read_result)
    : result (option fetch * system) :=
  let fail := let! p := pool_release (pool s) buf in Ok (Some (Failing ts), with_pool s p) in
  match r with
  | ReadThrows => fail
  | ReadOk used =>
      if capacity_of (pool s) buf <? used then fail
      else Ok (None, mkSys (mark_complete (queue s) ts buf sel) (pool s) (fetches s) (readers s) (others s)
                       (<[buf := (ts, sel)]> (content s)))
  end.

Fixpoint release_all (p : P) (bufs : list nat) : result P :=
  match bufs with [] => Ok p | b :: rest => let! p' := pool_release p b in release_all p' rest end.

Definition cancel_pending (s : system) : result system :=
  let! p := release_all (pool s) (map_to_list (completed_ (queue s))).*2 in
  Ok (with_pool (with_queue s (set_cancelled (set_tracking (queue s) ∅ ∅ ∅ ∅))) p).

Definition completed_count (q : PrefetchQueue) : nat := size (completed_ q).
Definition pending_count (q : PrefetchQueue) : nat := size (pending_ q).
Definition failed_count (q : PrefetchQueue) : nat := size (failed_ q).

(** ** Executions *)

Inductive step : system -> system -> Prop :=
| GetBuffer s ts req r s' : get_buffer s ts req = Ok (r, s') -> step s (with_readers s' (readers s' ++ [r]))
| ScheduleInitial s : step s (with_readers (snd (schedule_initial s)) (readers s ++ [fst (schedule_initial s)]))
| ScheduleNext s current s' : schedule_next s current = Ok s' -> step s s'
| Advance s r1 r r2 o s' : readers s = r1 ++ r :: r2 -> advance s r = Ok (o, s') ->
    step s (with_readers s' (r1 ++ option_list o ++ r2))
| Timeout s r1 ts req r2 : readers s = r1 ++ Blocked ts req :: r2 ->
    step s (with_readers (snd (timeout s ts req)) (r1 ++ fst (timeout s ts req) :: r2))
| StartFetch s f1 ts sel f2 : fetches s = f1 ++ Queued ts sel :: f2 ->
    step s (with_fetches (snd (start_fetch s ts sel)) (f1 ++ option_list (fst (start_fetch s ts sel)) ++ f2))
| Acquire s f1 ts sel f2 o p : fetches s = f1 ++ Acquiring ts sel :: f2 ->
    pool_acquire (pool s) (acquire_bytes (info_ (queue s)) sel (nominal_capacity (pool s))) o p ->
    step s (with_fetches (snd (got_buffer (with_pool s p) ts sel o)) (f1 ++ option_list (fst (got_buffer (with_pool s p) ts sel o)) ++ f2))
| FinishRead s f1 ts sel buf f2 r o s' : fetches s = f1 ++ Reading ts sel buf :: f2 -> finish_read s ts sel buf r = Ok (o, s') ->
    step s (with_fetches s' (f1 ++ option_list o ++ f2))
| FailFetch s f1 ts f2 : fetches s = f1 ++ Failing ts :: f2 ->
    step s (with_fetches (with_queue s (mark_failed (queue s) ts AMIO_ERR_BACKEND_FAILURE)) (f1 ++ f2))
| CancelPending s s' : cancel_pending s = Ok s' -> step s s'
(** The rest of the program shares the pool and may use the buffers it holds. *)
| OtherAcquires s n b p : pool_acquire (pool s) n (Some b) p ->
    step s (mkSys (queue s) p (fetches s) (readers s) (b :: others s) (content s))
| OtherReleases s l1 b l2 p : others s = l1 ++ b :: l2 -> pool_release (pool s) b = Ok p ->
    step s (mkSys (queue s) p (fetches s) (readers s) (l1 ++ l2) (content s))
| OtherAddsRef s b p : b ∈ others s -> pool_add_ref (pool s) b = Ok p ->
    step s (mkSys (queue s) p (fetches s) (readers s) (b :: others s) (content s))
| OtherWrites s b c : b ∈ others s -> step s (mkSys (queue s) (pool s) (fetches s) (readers s) (others s) (<[b := c]> (content s))).

(** ** The accounts of the pool *)

Definition count (b : nat) (l : list nat) : Z := Z.of_nat (length (filter (fun c => c = b) l)).

(** Every reference of the pool is accounted for, and what the queue owns is shared with
    nobody. *)
Record accounts (p : P) (own oth : list nat) : Prop := {
  ac_valid : pool_valid p;
  ac_refs b : refs p b = count b (own ++ oth);
  ac_one b : b ∈ own -> refs p b = 1
}.

Lemma count_perm b l l' : l ≡ₚ l' -> count b l = count b l'.
Proof. intros H. unfold count. by rewrite H. Qed.

Lemma count_cons b c l : count b (c :: l) = (if decide (c = b) then 1 else 0) + count b l.
Proof. unfold count. rewrite filter_cons. destruct (decide (c = b)); simpl; lia. Qed.

Lemma count_nonneg b l : 0 <= count b l.
Proof. unfold count. lia. Qed.

Lemma count_elem b l : b ∈ l -> 1 <= count b l.
Proof.
  intros Hb. unfold count. destruct (filter (fun c => c = b) l) as [|x k] eqn:E; [|simpl; lia].
  assert (Hx : b ∈ filter (fun c => c = b) l) by (by apply list_elem_of_filter). rewrite E in Hx. by apply not_elem_of_nil in Hx.
Qed.

Lemma ac_perm p own own' oth oth' : own ≡ₚ own' -> oth ≡ₚ oth' -> accounts p own oth -> accounts p own' oth'.
Proof.
  intros H1 H2 [Hv Hr Ho]. split; [done| |].
  - intros b. rewrite Hr. apply count_perm. by rewrite H1, H2.
  - intros b. rewrite <- H1. apply Ho.
Qed.

Lemma ac_fresh p b own oth : accounts p (b :: own) oth -> b ∉ own /\ b ∉ oth.
Proof.
  intros [_ Hr Ho]. assert (H1 : refs p b = 1) by (apply Ho, list_elem_of_here).
  rewrite Hr in H1. simpl in H1. rewrite count_cons, decide_True in H1 by done.
  split; intros Hb; assert (1 <= count b (own ++ oth)) by (apply count_elem, elem_of_app; tauto); lia.
Qed.

Lemma ac_apart p own oth b : accounts p own oth -> b ∈ own -> b ∉ oth.
Proof.
  intros Ha Hb. apply elem_of_Permutation in Hb as (k & Hk). apply (ac_perm _ _ _ _ oth Hk) in Ha; [|done].
  by apply ac_fresh in Ha as [_ ?].
Qed.

Lemma ac_give p b own oth : accounts p (b :: own) oth -> accounts p own (b :: oth).
Proof.
  intros [Hv Hr Ho]. split; [done| |].
  - intros c. rewrite Hr. apply count_perm. by rewrite <- Permutation_middle.
  - intros c Hc. apply Ho. by apply list_elem_of_further.
Qed.

Lemma ac_release p b own oth : accounts p (b :: own) oth -> exists p', pool_release p b = Ok p' /\ accounts p' own oth.
Proof.
  intros Ha. destruct (ac_fresh _ _ _ _ Ha) as [Hf _]. destruct Ha as [Hv Hr Ho].
  assert (H1 : refs p b = 1) by (apply Ho, list_elem_of_here).
  destruct (release_law p b Hv) as (p' & E & Hv' & Hb & Hc); [lia|]. exists p'. split; [done|]. split; [done| |].
  - intros c. pose proof (Hr c) as Hrc. simpl in Hrc. rewrite count_cons in Hrc. destruct (decide (b = c)) as [<-|Hne]; [lia|].
    rewrite Hc by done. lia.
  - intros c Hin. rewrite Hc by (intros ->; done). apply Ho. by apply list_elem_of_further.
Qed.

Lemma ac_release_all l p own oth : accounts p (l ++ own) oth -> exists p', release_all p l = Ok p' /\ accounts p' own oth.
Proof.
  revert p. induction l as [|b l IH]; intros p Ha; simpl; [by exists p|].
  destruct (ac_release p b _ _ Ha) as (p' & -> & Ha'). by apply IH.
Qed.

Lemma ac_acquire p n b p' own oth : accounts p own oth -> pool_acquire p n (Some b) p' ->
  accounts p' (b :: own) oth /\ accounts p' own (b :: oth).
Proof.
  intros [Hv Hr Ho] Hac. destruct (acquire_law p n (Some b) p' Hv Hac) as (Hv' & H0 & H1 & _ & Hc).
  assert (Hcnt : forall c, refs p' c = count c (b :: own ++ oth)).
  { intros c. rewrite count_cons, <- Hr. destruct (decide (b = c)) as [<-|Hne]; [lia|]. by rewrite Hc. }
  assert (Hone : forall c, c ∈ own -> refs p' c = 1).
  { intros c Hin. rewrite Hc; [by apply Ho|]. intros ->. specialize (Ho b Hin). lia. }
  split; split; try done.
  - intros c Hin. apply elem_of_cons in Hin as [->|Hin]; [done|by apply Hone].
  - intros c. rewrite Hcnt. apply count_perm. by rewrite <- Permutation_middle.
Qed.

Lemma ac_others p p' own oth oth' b : accounts p own oth -> b ∈ oth -> pool_valid p' ->
  (forall c, c <> b -> refs p' c = refs p c) -> (forall c, refs p' c = count c (own ++ oth')) -> accounts p' own oth'.
Proof.
  intros Ha Hb Hv Hc Hr. split; [done|done|]. intros c Hin. rewrite Hc; [by apply (ac_one _ _ _ Ha)|].
  intros ->. by apply (ac_apart _ _ _ _ Ha Hin).
Qed.

Lemma ac_release_other p b p' own oth : accounts p own (b :: oth) -> pool_release p b = Ok p' -> accounts p' own oth.
Proof.
  intros Ha E. pose proof Ha as [Hv Hr Ho].
  assert (Hp : forall c, count c (own ++ b :: oth) = count c (b :: own ++ oth)) by (intros c; apply count_perm; by rewrite <- Permutation_middle).
  assert (Hpos : 0 < refs p b).
  { rewrite Hr, Hp, count_cons, decide_True by done. pose proof (count_nonneg b (own ++ oth)). lia. }
  destruct (release_law p b Hv Hpos) as (p'' & E' & Hv' & Hb & Hc). rewrite E in E'. injection E' as <-.
  apply (ac_others p p' own (b :: oth) oth b Ha); [apply list_elem_of_here|done|done|].
  intros c. pose proof (Hr c) as Hrc. rewrite Hp, count_cons in Hrc. destruct (decide (b = c)) as [<-|Hne]; [lia|].
  rewrite Hc by done. lia.
Qed.

Lemma ac_add p b p' own oth : accounts p own oth -> b ∈ oth -> pool_add_ref p b = Ok p' -> accounts p' own (b :: oth).
Proof.
  intros Ha Hin E. pose proof Ha as [Hv Hr Ho].
  assert (Hpos : 0 < refs p b) by (rewrite Hr; assert (1 <= count b (own ++ oth)) by (apply count_elem, elem_of_app; by right); lia).
  destruct (add_ref_law p b p' Hv Hpos E) as (Hv' & Hb & Hc). apply (ac_others p p' own oth (b :: oth) b Ha Hin Hv' Hc).
  intros c. rewrite (count_perm c (own ++ b :: oth) (b :: own ++ oth)) by (by rewrite <- Permutation_middle).
  rewrite count_cons, <- Hr. destruct (decide (b = c)) as [<-|Hne]; [lia|]. by rewrite Hc.
Qed.

(** ** The invariant *)

Definition fetch_ts (f : fetch) : Z :=
  match f with Queued ts _ | Acquiring ts _ | Reading ts _ _ | Failing ts => ts end.
Definition fetch_buf (f : fetch) : option nat := match f with Reading _ _ b => Some b | _ => None end.

Definition values (m : gmap Z nat) : list nat := (map_to_list m).*2.

(** The buffers the queue is responsible for. *)
Definition owned (s : system) : list nat := omap fetch_buf (fetches s) ++ values (completed_ (queue s)).

(** A record is being fetched at most once, and not while it is completed or failed. *)
Record tracked (q : PrefetchQueue) (ts : list Z) : Prop := {
  tr_once : NoDup ts;
  tr_apart t : t ∈ ts -> completed_ q !! t = None /\ failed_ q !! t = None;
  tr_one t : is_Some (completed_ q !! t) -> failed_ q !! t = None;
  tr_pending : cancelled_ q = false -> forall t, t ∈ pending_ q <-> t ∈ ts
}.

Record inv (s : system) : Prop := {
  v_accounts : accounts (pool s) (owned s) (others s);
  v_tracked : tracked (queue s) (fetch_ts <$> fetches s);
  v_content t b : completed_ (queue s) !! t = Some b -> content s !! b = Some (t, fetched_bbox_ (queue s) !! t)
}.

(** What a call that has returned got. *)
Definition done_ok (r : reader) : Prop :=
  match r with
  | Done ts req status (Some (_, c)) late =>
      status = AMIO_OK /\ exists sel, c = Some (ts, sel) /\ (late = false -> bbox_same sel req = true)
  | _ => True
  end.

Lemma values_delete (m : gmap Z nat) t b : m !! t = Some b -> values m ≡ₚ b :: values (delete t m).
Proof. intros H. unfold values. by rewrite <- (fin_maps.map_to_list_delete m t b H). Qed.

Lemma values_insert (m : gmap Z nat) t b : m !! t = None -> values (<[t := b]> m) ≡ₚ b :: values m.
Proof. intros H. unfold values. by rewrite (fin_maps.map_to_list_insert m t b H). Qed.

Lemma elem_of_values (m : gmap Z nat) t b : m !! t = Some b -> b ∈ values m.
Proof. intros H. rewrite (values_delete m t b H). apply list_elem_of_here. Qed.

Lemma content_inj s t u b : inv s -> completed_ (queue s) !! t = Some b -> completed_ (queue s) !! u = Some b -> t = u.
Proof. intros Hi Ht Hu. apply (v_content s Hi) in Ht, Hu. congruence. Qed.

(** Two systems with the same queue, pool and fetches. *)
Lemma inv_readers s r : inv s -> inv (with_readers s r).
Proof. intros [Ha Ht Hc]. by constructor. Qed.

Lemma tracked_same q q' ts : completed_ q' = completed_ q -> failed_ q' = failed_ q -> pending_ q' = pending_ q ->
  cancelled_ q' = cancelled_ q -> tracked q ts -> tracked q' ts.
Proof. intros E1 E2 E3 E4 [H1 H2 H3 H4]. constructor; rewrite ?E1, ?E2, ?E3, ?E4; done. Qed.

Lemma inv_latch s b : inv s -> inv (with_queue s (latch (queue s) b)).
Proof. intros [Ha Ht Hc]. constructor; [exact Ha| |exact Hc]. by apply (tracked_same (queue s)). Qed.

Lemma inv_kick s : inv s -> inv (with_queue s (kick_off (queue s))).
Proof. intros [Ha Ht Hc]. constructor; [exact Ha| |exact Hc]. by apply (tracked_same (queue s)). Qed.

Lemma take_error_inv s ts req err late : inv s -> inv (snd (take_error s ts req err late)).
Proof.
  intros [Ha [H1 H2 H3 H4] Hc]. constructor; [exact Ha| |exact Hc]. simpl. constructor; simpl; try done.
  - intros t Ht. destruct (H2 t Ht). split; [done|]. rewrite lookup_delete_None. by right.
  - intros t Ht. rewrite lookup_delete_None. right. by apply H3.
Qed.

(** Removing a completed record. *)
Lemma tracked_delete q ts t fb : tracked q ts -> tracked (set_tracking q (delete t (completed_ q)) fb (pending_ q) (failed_ q)) ts.
Proof.
  intros [H1 H2 H3 H4]. constructor; simpl; try done.
  - intros u Hu. destruct (H2 u Hu). split; [|done]. rewrite lookup_delete_None. by right.
  - intros u [b Hb]. rewrite lookup_delete_Some in Hb. destruct Hb as [_ Hb]. apply H3. by exists b.
Qed.

Lemma content_delete s t (fb : gmap Z amio_bbox_t) : inv s -> (forall u, u <> t -> fb !! u = fetched_bbox_ (queue s) !! u) ->
  forall u b, delete t (completed_ (queue s)) !! u = Some b -> content s !! b = Some (u, fb !! u).
Proof.
  intros Hi Hfb u b Hb. rewrite lookup_delete_Some in Hb. destruct Hb as [Hne Hb]. rewrite Hfb by done. by apply (v_content s Hi).
Qed.

Lemma hand_out_inv s ts req buf late : inv s -> completed_ (queue s) !! ts = Some buf ->
  (late = false -> bbox_same (fetched_bbox_ (queue s) !! ts) req = true) ->
  inv (snd (hand_out s ts req buf late)) /\ done_ok (fst (hand_out s ts req buf late)).
Proof.
  intros Hi Hb Hs. pose proof Hi as [Ha Ht Hc]. split.
  - constructor; simpl.
    + apply ac_give. apply (ac_perm _ (owned s) _ (others s)); [|done|done]. unfold owned. simpl.
      by rewrite (values_delete _ ts buf Hb), <- Permutation_middle.
    + by apply tracked_delete.
    + apply (content_delete s ts); [done|]. intros u Hu. destruct late; [done|]. by rewrite lookup_delete_ne.
  - simpl. split; [done|]. eexists. split; [by apply Hc|done].
Qed.

Lemma drop_stale_inv s ts buf : inv s -> completed_ (queue s) !! ts = Some buf ->
  exists s', drop_stale s ts buf = Ok s' /\ inv s' /\ readers s' = readers s /\ completed_ (queue s') !! ts = None.
Proof.
  intros Hi Hb. pose proof Hi as [Ha Ht Hc]. unfold drop_stale.
  destruct (ac_release (pool s) buf (omap fetch_buf (fetches s) ++ values (delete ts (completed_ (queue s)))) (others s)) as (p & -> & Ha').
  { apply (ac_perm _ (owned s) _ (others s)); [|done|done]. unfold owned. by rewrite (values_delete _ ts buf Hb), <- Permutation_middle. }
  eexists. split; [reflexivity|]. split; [|split; [done|simpl; by rewrite lookup_delete_eq]]. constructor; simpl.
  - exact Ha'.
  - by apply tracked_delete.
  - apply (content_delete s ts); [done|]. intros u Hu. by rewrite lookup_delete_ne.
Qed.

Lemma schedule_fetch_inv s ts : inv s -> inv (schedule_fetch s ts) /\ readers (schedule_fetch s ts) = readers s.
Proof.
  intros Hi. unfold schedule_fetch. destruct (cancelled_ (queue s)) eqn:Ec; [done|].
  destruct (bool_decide_reflect (ts ∈ pending_ (queue s))) as [|Hp]; [done|].
  destruct (bool_decide_reflect (is_Some (completed_ (queue s) !! ts))) as [|Hc1]; [done|].
  destruct (bool_decide_reflect (is_Some (failed_ (queue s) !! ts))) as [|Hf1]; [done|]. simpl. split; [|done].
  pose proof Hi as [Ha [H1 H2 H3 H4] Hc]. apply eq_None_not_Some in Hc1, Hf1. constructor; simpl.
  - unfold owned. simpl. rewrite omap_app. simpl. by rewrite app_nil_r.
  - rewrite fmap_app. constructor; simpl.
    + apply list.NoDup_app. split; [done|]. split; [|apply NoDup_singleton].
      intros t Ht ->%list_elem_of_singleton. by apply Hp, (H4 Ec).
    + intros t. rewrite elem_of_app, list_elem_of_singleton. intros [Ht| ->]; [by apply H2|done].
    + done.
    + intros _ t. rewrite elem_of_app, list_elem_of_singleton, elem_of_union, elem_of_singleton, (H4 Ec). tauto.
  - done.
Qed.

(** ** Every section of a call keeps the invariant *)

Definition section_ok (s : system) (m : result (reader * system)) : Prop :=
  exists r s', m = Ok (r, s') /\ inv s' /\ readers s' = readers s /\ done_ok r.

Lemma loop_rest_ok s ts req : inv s -> inv (snd (loop_rest s ts req)) /\ readers (snd (loop_rest s ts req)) = readers s /\ done_ok (fst (loop_rest s ts req)).
Proof.
  intros Hi. unfold loop_rest. destruct (failed_ (queue s) !! ts) as [err|]; [split; [exact (take_error_inv s ts req err false Hi)|done]|].
  by destruct (cancelled_ (queue s)).
Qed.

Lemma loop_section_ok s ts req : inv s -> section_ok s (loop_section s ts req).
Proof.
  intros Hi. unfold loop_section. destruct (completed_ (queue s) !! ts) as [buf|] eqn:Eb.
  - destruct (bbox_same _ req) eqn:Es.
    + destruct (hand_out_inv s ts req buf false Hi Eb (fun _ => Es)). eexists _, _. by split.
    + destruct (drop_stale_inv s ts buf Hi Eb) as (s' & -> & Hi' & Hr & _). eexists _, _. by split.
  - destruct (loop_rest_ok s ts req Hi) as (H1 & H2 & H3). exists (fst (loop_rest s ts req)), (snd (loop_rest s ts req)).
    split; [by destruct (loop_rest s ts req)|done].
Qed.

Lemma pending_check_ok s ts req : inv s -> section_ok s (pending_check s ts req).
Proof.
  intros Hi. unfold pending_check. destruct (bool_decide _); [by apply loop_section_ok|]. eexists _, _. by split.
Qed.

Lemma examine_ok s ts req : inv s -> section_ok s (examine s ts req).
Proof.
  intros Hi. unfold examine. destruct (failed_ (queue s) !! ts) as [err|].
  { eexists _, _. split; [reflexivity|]. split; [exact (take_error_inv s ts req err false Hi)|done]. }
  destruct (completed_ (queue s) !! ts) as [buf|] eqn:Eb; [|by apply pending_check_ok].
  destruct (bbox_same _ req) eqn:Es.
  - destruct (hand_out_inv s ts req buf false Hi Eb (fun _ => Es)). eexists _, _. by split.
  - destruct (drop_stale_inv s ts buf Hi Eb) as (s' & -> & Hi' & Hr & _). simpl.
    destruct (pending_check_ok s' ts req Hi') as (r & s2 & E & H1 & H2 & H3). exists r, s2. split; [done|]. split; [done|]. split; [congruence|done].
Qed.

Lemma timeout_ok s ts req : inv s -> inv (snd (timeout s ts req)) /\ readers (snd (timeout s ts req)) = readers s /\ done_ok (fst (timeout s ts req)).
Proof.
  intros Hi. unfold timeout. destruct (completed_ (queue s) !! ts) as [buf|] eqn:Eb.
  - destruct (hand_out_inv s ts req buf true Hi Eb) as [? ?]; [done|]. done.
  - destruct (failed_ (queue s) !! ts) as [err|]; [split; [exact (take_error_inv s ts req err true Hi)|done]|done].
Qed.

(** ** Fetches and cancellation keep the invariant *)

Lemma tracked_finish q t1 t t2 q' : tracked q (t1 ++ t :: t2) -> pending_ q' = pending_ q ∖ {[t]} -> cancelled_ q' = cancelled_ q ->
  (forall u, u <> t -> completed_ q' !! u = completed_ q !! u /\ failed_ q' !! u = failed_ q !! u) ->
  (is_Some (completed_ q' !! t) -> failed_ q' !! t = None) -> tracked q' (t1 ++ t2).
Proof.
  intros [H1 H2 H3 H4] Ep Ec Ho Ht. apply NoDup_drop_middle in H1 as [Hn H1]. constructor.
  - exact H1.
  - intros u Hu. destruct (Ho u) as [-> ->]; [intros ->; done|]. apply H2. rewrite elem_of_middle. by right.
  - intros u. destruct (decide (u = t)) as [->|Hne]; [done|]. destruct (Ho u Hne) as [-> ->]. apply H3.
  - rewrite Ec. intros Hc u. rewrite Ep, elem_of_difference, elem_of_singleton, (H4 Hc), elem_of_middle.
    split; [tauto|]. intros Hu. split; [by right|]. intros ->. done.
Qed.

Lemma tracked_here q t1 t t2 : tracked q (t1 ++ t :: t2) -> completed_ q !! t = None /\ failed_ q !! t = None.
Proof. intros H. apply (tr_apart _ _ H), elem_of_middle. by left. Qed.

Lemma start_fetch_inv s f1 ts sel f2 : inv s -> fetches s = f1 ++ Queued ts sel :: f2 ->
  inv (with_fetches (snd (start_fetch s ts sel)) (f1 ++ option_list (fst (start_fetch s ts sel)) ++ f2)).
Proof.
  intros [Ha Ht Hc] Ef. unfold owned in Ha. rewrite Ef in Ha, Ht. rewrite omap_middle in Ha. rewrite fmap_app in Ht. simpl in Ha, Ht.
  unfold start_fetch. destruct (cancelled_ (queue s)) eqn:Ec; constructor; simpl; unfold owned; simpl.
  - by rewrite omap_app.
  - rewrite fmap_app. apply (tracked_finish (queue s) _ ts _ _ Ht); try done. intros Hs.
    destruct (tracked_here _ _ _ _ Ht) as [_ ?]. done.
  - exact Hc.
  - by rewrite omap_middle.
  - by rewrite fmap_app.
  - exact Hc.
Qed.

Lemma fail_inv s f1 f ts f2 e : inv s -> fetches s = f1 ++ f :: f2 -> fetch_ts f = ts -> fetch_buf f = None ->
  inv (with_fetches (with_queue s (mark_failed (queue s) ts e)) (f1 ++ f2)).
Proof.
  intros [Ha Ht Hc] Ef Et Eb. unfold owned in Ha. rewrite Ef in Ha, Ht. rewrite omap_middle, Eb in Ha. rewrite fmap_app in Ht.
  simpl in Ha, Ht. rewrite Et in Ht. constructor; simpl; unfold owned; simpl.
  - by rewrite omap_app.
  - rewrite fmap_app. apply (tracked_finish (queue s) _ ts _ _ Ht); try done; simpl.
    + intros u Hu. by rewrite lookup_insert_ne.
    + intros [b Hb]. destruct (tracked_here _ _ _ _ Ht) as [Hn _]. congruence.
  - exact Hc.
Qed.

Lemma inv_others s p' own' oth' f' c' : inv s -> accounts p' own' oth' ->
  own' ≡ₚ omap fetch_buf f' ++ values (completed_ (queue s)) -> fetch_ts <$> f' = fetch_ts <$> fetches s ->
  (forall t b, completed_ (queue s) !! t = Some b -> c' !! b = content s !! b) ->
  inv (mkSys (queue s) p' f' (readers s) oth' c').
Proof.
  intros [Ha Ht Hc] Ha' Hp Ef Hcc. constructor; simpl; [by apply (ac_perm _ own' _ oth')|by rewrite Ef|].
  intros t b Hb. rewrite (Hcc t b Hb). by apply Hc.
Qed.

Lemma acquire_inv s f1 ts sel f2 o p n : inv s -> fetches s = f1 ++ Acquiring ts sel :: f2 -> pool_acquire (pool s) n o p ->
  inv (with_fetches (snd (got_buffer (with_pool s p) ts sel o)) (f1 ++ option_list (fst (got_buffer (with_pool s p) ts sel o)) ++ f2)).
Proof.
  intros Hi Ef Hp. pose proof Hi as [Ha Ht Hc]. destruct o as [b|]; simpl.
  - destruct (ac_acquire _ _ _ _ _ _ Ha Hp) as [Ha' _].
    apply (inv_others s p _ (others s) _ (content s) Hi Ha'); [|by rewrite Ef, !fmap_app|done].
    unfold owned. rewrite Ef, !omap_middle. rewrite <- !app_assoc. simpl. by rewrite <- Permutation_middle.
  - destruct (acquire_law _ _ _ _ (ac_valid _ _ _ Ha) Hp) as [_ ->].
    apply (fail_inv s f1 (Acquiring ts sel) ts f2 AMIO_ERR_STAGING_BACKPRESSURE Hi Ef); done.
Qed.

Lemma finish_read_inv s f1 ts sel buf f2 r : inv s -> fetches s = f1 ++ Reading ts sel buf :: f2 ->
  exists o s', finish_read s ts sel buf r = Ok (o, s') /\ readers s' = readers s /\ inv (with_fetches s' (f1 ++ option_list o ++ f2)).
Proof.
  intros Hi Ef. pose proof Hi as [Ha Ht Hc].
  assert (Hown : owned s ≡ₚ buf :: (omap fetch_buf (f1 ++ f2) ++ values (completed_ (queue s)))).
  { unfold owned. rewrite Ef, omap_middle, omap_app. rewrite <- !app_assoc. simpl. by rewrite <- Permutation_middle. }
  apply (ac_perm _ _ _ _ (others s) Hown) in Ha; [|done].
  assert (Hfail : exists o s', (let! p := pool_release (pool s) buf in Ok (Some (Failing ts), with_pool s p)) = Ok (o, s') /\
      readers s' = readers s /\ inv (with_fetches s' (f1 ++ option_list o ++ f2))).
  { destruct (ac_release _ _ _ _ Ha) as (p & -> & Ha'). eexists _, _. split; [reflexivity|]. split; [done|].
    apply (inv_others s p _ (others s) _ (content s) Hi Ha'); [|by rewrite Ef, !fmap_app|done].
    simpl. by rewrite omap_app, omap_middle. }
  unfold finish_read. destruct r as [used|]; [|exact Hfail]. destruct (capacity_of (pool s) buf <? used); [exact Hfail|].
  eexists _, _. split; [reflexivity|]. split; [done|]. rewrite Ef, fmap_app in Ht. simpl in Ht.
  destruct (tracked_here _ _ _ _ Ht) as [Hn Hf]. destruct (ac_fresh _ _ _ _ Ha) as [Hfresh _]. constructor; simpl.
  - apply (ac_perm _ _ _ _ (others s)) with (3 := Ha); [|done]. unfold owned. simpl. rewrite (values_insert _ ts buf Hn).
    by rewrite <- Permutation_middle.
  - rewrite fmap_app. apply (tracked_finish (queue s) _ ts _ _ Ht); try done; simpl.
    intros u Hu. by rewrite lookup_insert_ne.
  - intros t b. rewrite lookup_insert_Some. intros [[<- <-]|[Hne Hb]].
    + rewrite lookup_insert_eq. destruct sel; [by rewrite lookup_insert_eq|by rewrite lookup_delete_eq].
    + rewrite lookup_insert_ne.
      * rewrite (Hc _ _ Hb). do 2 f_equal. destruct sel; [by rewrite lookup_insert_ne|by rewrite lookup_delete_ne].
      * intros ->. apply Hfresh, elem_of_app. right. by eapply elem_of_values.
Qed.

Lemma cancel_pending_inv s : inv s -> exists s', cancel_pending s = Ok s' /\ readers s' = readers s /\ inv s'.
Proof.
  intros [Ha [H1 H2 H3 H4] Hc]. unfold cancel_pending, owned in *.
  destruct (ac_release_all (map_to_list (completed_ (queue s))).*2 (pool s) (omap fetch_buf (fetches s)) (others s)) as (p & -> & Ha').
  { apply (ac_perm _ _ _ _ (others s)) with (3 := Ha); [|done]. by rewrite Permutation_app_comm. }
  eexists. split; [reflexivity|]. split; [done|]. constructor; simpl.
  - unfold owned. simpl. by rewrite app_nil_r.
  - constructor; simpl; done.
  - intros t b Hb. by rewrite lookup_empty in Hb.
Qed.

(** ** Executions *)

Definition done_readers (s : system) : Prop := Forall done_ok (readers s).

Lemma get_buffer_ok s ts req r s' : inv s -> get_buffer s ts req = Ok (r, s') -> inv s' /\ readers s' = readers s /\ done_ok r.
Proof.
  intros Hi. unfold get_buffer. pose proof (inv_latch s req Hi) as Hi'. set (s1 := with_queue s _) in *.
  destruct (kicked_off_ (queue s1)).
  - destruct (examine_ok s1 ts req Hi') as (r' & s2 & -> & H1 & H2 & H3). intros [= <- <-]. done.
  - intros (left & _ & [= <- <-])%bind_Ok_inv. split; [exact (inv_kick s1 Hi')|done].
Qed.

Lemma reader_advance_ok s r o s' : inv s -> advance s r = Ok (o, s') -> inv s' /\ readers s' = readers s /\ Forall done_ok (option_list o).
Proof.
  intros Hi. assert (Hsec : forall m, section_ok s m -> (let! x := m in Ok (Some (fst x), snd x)) = Ok (o, s') ->
    inv s' /\ readers s' = readers s /\ Forall done_ok (option_list o)).
  { intros m (r' & s2 & -> & H1 & H2 & H3) [= <- <-]. split; [done|]. split; [done|]. by apply Forall_singleton. }
  destruct r as [k n|ts req k n|ts req|ts req|ts req|ts req|ts req|ts req st out late]; simpl.
  - destruct (k <? n); intros [= <- <-]; [|done]. destruct (schedule_fetch_inv s k Hi). split; [done|]. split; [done|]. by apply Forall_singleton.
  - destruct (k <? n); [|apply Hsec; by apply examine_ok]. intros (t & _ & [= <- <-])%bind_Ok_inv.
    destruct (schedule_fetch_inv s t Hi). split; [done|]. split; [done|]. by apply Forall_singleton.
  - intros [= <- <-]. destruct (schedule_fetch_inv s ts Hi). split; [done|]. split; [done|]. by apply Forall_singleton.
  - apply Hsec. by apply loop_section_ok.
  - intros [= <- <-]. destruct (schedule_fetch_inv s ts Hi). split; [done|]. split; [done|]. by apply Forall_singleton.
  - intros [= <- <-]. destruct (loop_rest_ok s ts req Hi) as (? & ? & ?). split; [done|]. split; [done|]. by apply Forall_singleton.
  - apply Hsec. by apply loop_section_ok.
  - by intros [= <- <-].
Qed.

Lemma done_replace s r1 r r2 l : done_readers s -> readers s = r1 ++ r :: r2 -> Forall done_ok l -> Forall done_ok (r1 ++ l ++ r2).
Proof.
  unfold done_readers. intros Hd Hr Hl. rewrite Hr in Hd. apply Forall_app in Hd as [? Hd]. apply Forall_cons_iff in Hd as [_ ?].
  rewrite !Forall_app. done.
Qed.

Lemma queue_step_inv s s' : step s s' -> inv s -> done_readers s -> inv s' /\ done_readers s'.
Proof.
  intros Hs Hi Hd. destruct Hs as [s ts req r s' E|s|s cur s' E|s r1 r r2 o s' Er E|s r1 ts req r2 Er|s f1 ts sel f2 Ef
    |s f1 ts sel f2 o p Ef Hp|s f1 ts sel buf f2 r o s' Ef E|s f1 ts f2 Ef|s s' E|s n b p Hp|s l1 b l2 p Eo Hp|s b p Hb Hp|s b c Hb].
  - destruct (get_buffer_ok s ts req r s' Hi E) as (Hi' & Hr & Hk). split; [by apply inv_readers|].
    unfold done_readers. simpl. rewrite Hr. apply Forall_app. split; [done|by apply Forall_singleton].
  - split; [apply (inv_readers _ _ (inv_kick s Hi))|]. unfold done_readers. simpl. apply Forall_app. split; [done|by apply Forall_singleton].
  - unfold schedule_next in E. apply bind_Ok_inv in E as (t & _ & E).
    destruct (_ <=? _); injection E as <-; [done|]. destruct (schedule_fetch_inv s t Hi) as [? Hr]. split; [done|]. unfold done_readers. by rewrite Hr.
  - destruct (reader_advance_ok s r o s' Hi E) as (Hi' & Hr & Hk). split; [by apply inv_readers|]. by apply (done_replace s r1 r r2).
  - destruct (timeout_ok s ts req Hi) as (Hi' & Hr & Hk). split; [by apply inv_readers|].
    apply (done_replace s r1 _ r2 [_] Hd Er). by apply Forall_singleton.
  - split; [by apply start_fetch_inv|]. unfold start_fetch, done_readers. by destruct (cancelled_ (queue s)).
  - split; [by eapply acquire_inv|]. unfold got_buffer, done_readers. by destruct o.
  - destruct (finish_read_inv s f1 ts sel buf f2 r Hi Ef) as (o' & s2 & E' & Hr & Hi'). rewrite E in E'. injection E' as <- <-.
    split; [done|]. unfold done_readers. simpl. by rewrite Hr.
  - split; [by apply (fail_inv s f1 (Failing ts) ts f2)|done].
  - destruct (cancel_pending_inv s Hi) as (s2 & E' & Hr & Hi'). rewrite E in E'. injection E' as <-. split; [done|].
    unfold done_readers. by rewrite Hr.
  - split; [|done]. pose proof (v_accounts s Hi) as Ha. destruct (ac_acquire _ _ _ _ _ _ Ha Hp) as [_ Ha'].
    by apply (inv_others s p (owned s) (b :: others s) (fetches s) (content s) Hi).
  - split; [|done]. pose proof (v_accounts s Hi) as Ha. rewrite Eo in Ha.
    apply (ac_perm _ _ (owned s) _ (b :: l1 ++ l2)) in Ha; [|done|by rewrite <- Permutation_middle].
    apply (inv_others s p (owned s) _ (fetches s) (content s) Hi); [by apply (ac_release_other _ _ _ _ _ Ha)|done|done|done].
  - split; [|done]. pose proof (v_accounts s Hi) as Ha.
    by apply (inv_others s p (owned s) _ (fetches s) (content s) Hi (ac_add _ _ _ _ _ Ha Hb Hp)).
  - split; [|done]. pose proof (v_accounts s Hi) as Ha.
    apply (inv_others s (pool s) (owned s) _ (fetches s) _ Hi Ha); [done|done|]. intros t x Hx. apply lookup_insert_ne. intros <-.
    apply (ac_apart _ _ _ b Ha); [|done]. unfold owned. apply elem_of_app. right. by eapply elem_of_values.
Qed.

(** A new queue over a pool of which nothing is in use. *)
Definition initial_system (depth timeout_s : Z) (info : VariableInfo) (total : Z) (p : P) : system :=
  mkSys (prefetch_queue depth timeout_s info total) p [] [] [] ∅.

Lemma initial_inv depth timeout_s info total p : pool_valid p -> (forall b, refs p b = 0) ->
  inv (initial_system depth timeout_s info total p) /\ done_readers (initial_system depth timeout_s info total p).
Proof.
  intros Hv Hr. split; [|constructor]. constructor; simpl.
  - constructor; simpl; [done|exact Hr|]. intros b Hb. by apply not_elem_of_nil in Hb.
  - constructor; simpl; try done; [apply NoDup_nil_2|intros _ t; set_solver].
  - intros t b Hb. by rewrite lookup_empty in Hb.
Qed.

Lemma reachable_inv s s' : rtc step s s' -> inv s -> done_readers s -> inv s' /\ done_readers s'.
Proof.
  induction 1 as [|s1 s2 s3 Hs _ IH]; [done|]. intros Hi Hd. destruct (queue_step_inv s1 s2 Hs Hi Hd). by apply IH.
Qed.

(** ** Property *)

(** C18. Whatever the interleaving of readers, fetches, cancellation and the other users
    of the pool: a record is fetched at most once at a time, and never while it is
    completed or failed; every reference of the pool is accounted for, the buffers of the
    queue and of its fetches are distinct, referenced once and known to nobody else, so
    that none is leaked, released twice or overwritten by others; a call that returns a
    buffer before its deadline got the requested record with exactly the requested
    selection, and after its deadline the requested record; and no critical section gets
    stuck. *)
Theorem prefetch_safe depth timeout_s info total p s :
  pool_valid p -> (forall b, refs p b = 0) -> rtc step (initial_system depth timeout_s info total p) s ->
  (NoDup (fetch_ts <$> fetches s) /\
   (forall t, t ∈ fetch_ts <$> fetches s -> completed_ (queue s) !! t = None /\ failed_ (queue s) !! t = None) /\
   (cancelled_ (queue s) = false -> forall t, t ∈ pending_ (queue s) <-> t ∈ fetch_ts <$> fetches s)) /\
  (forall b, refs (pool s) b = count b (owned s ++ others s)) /\
  (forall b, b ∈ owned s -> refs (pool s) b = 1 /\ b ∉ others s) /\
  (forall ts req status b c late, Done ts req status (Some (b, c)) late ∈ readers s ->
     status = AMIO_OK /\ exists sel, c = Some (ts, sel) /\ (late = false -> bbox_same sel req = true)) /\
  ((forall ts req, is_ok (examine s ts req) = true /\ is_ok (loop_section s ts req) = true) /\
   (forall ts sel buf r, Reading ts sel buf ∈ fetches s -> is_ok (finish_read s ts sel buf r) = true) /\
   is_ok (cancel_pending s) = true).
Proof.
  intros Hv Hr Hs. destruct (initial_inv depth timeout_s info total p Hv Hr) as [Hi0 Hd0].
  destruct (reachable_inv _ _ Hs Hi0 Hd0) as [Hi Hd]. pose proof Hi as [Ha Ht Hc]. split; [|split; [|split; [|split; [|split; [|split]]]]].
  - split; [apply Ht|]. split; [apply Ht|apply Ht].
  - apply Ha.
  - intros b Hb. split; [by apply (ac_one _ _ _ Ha)|by apply (ac_apart _ _ _ _ Ha)].
  - intros ts req status b c late Hin. unfold done_readers in Hd. rewrite Forall_forall in Hd.
    by apply (Hd (Done ts req status (Some (b, c)) late)).
  - intros ts req. destruct (examine_ok s ts req Hi) as (? & ? & -> & _), (loop_section_ok s ts req Hi) as (? & ? & -> & _). done.
  - intros ts sel buf r Hin. apply list_elem_of_split in Hin as (f1 & f2 & Ef).
    destruct (finish_read_inv s f1 ts sel buf f2 r Hi Ef) as (? & ? & -> & _). done.
  - destruct (cancel_pending_inv s Hi) as (? & -> & _). done.
Qed.
End Queue.
Arguments system P : clear implicits.

(** ** An execution over the staging pool: one reader of record 0 of a variable of eight
    doubles *)

Abbreviation Pool := StagingPool.StagingPool.

Definition demo_info : VariableInfo := mkInfo 1 1 [8].
Definition demo_pool : Pool := StagingPool.staging_pool 1 64 4 StagingPool.Grow [0%nat].
Definition demo0 : system Pool := Eval vm_compute in initial_system 1 60 demo_info 3 demo_pool.
Definition demo1 : system Pool := Eval vm_compute in
  match get_buffer demo0 0 None with Ok (r, s) => with_readers s [r] | _ => demo0 end.
Definition demo_advance (s : system Pool) : system Pool :=
  match readers s with
  | [r] => match advance s r with Ok (o, s') => with_readers s' (option_list o) | _ => s end
  | _ => s
  end.
Definition demo2 : system Pool := Eval vm_compute in demo_advance demo1.
Definition demo3 : system Pool := Eval vm_compute in with_fetches (snd (start_fetch demo2 0 None)) [Acquiring 0 None].
Definition demo_taken : Pool := Eval vm_compute in
  match StagingPool.acquire_once demo_pool 64 5000 with Ok (_, p) => p | _ => demo_pool end.
Definition demo4 : system Pool := Eval vm_compute in with_fetches (with_pool demo3 demo_taken) [Reading 0 None 0].
Definition demo5 : system Pool := Eval vm_compute in
  match finish_read demo4 0 None 0 (ReadOk 64) with Ok (_, s) => with_fetches s [] | _ => demo4 end.
Definition demo6 : system Pool := Eval vm_compute in demo_advance demo5.

Lemma demo_pool_free : pool_valid demo_pool /\ forall b, refs demo_pool b = 0.
Proof.
  split.
  - split.
    + apply StagingPool.staging_pool_ok; [reflexivity|lia].
    + intros [|[|i]] b Hb; [by injection Hb as <-|done|done].
  - by intros [|[|b]].
Qed.

Lemma prefetch_demo_run : rtc step demo0 demo6.
Proof.
  eapply (rtc_l _ _ demo1); [exact (GetBuffer demo0 0 None _ _ eq_refl)|].
  eapply (rtc_l _ _ demo2); [exact (Advance demo1 [] _ [] _ _ eq_refl eq_refl)|].
  eapply (rtc_l _ _ demo3); [exact (StartFetch demo2 [] 0 None [] eq_refl)|].
  eapply (rtc_l _ _ demo4).
  { refine (Acquire demo3 [] 0 None [] (Some 0%nat) demo_taken eq_refl _). exists 5000. split; [|left; reflexivity].
    split; [discriminate|]. intros b Hb. apply list_elem_of_singleton in Hb as ->. discriminate. }
  eapply (rtc_l _ _ demo5); [exact (FinishRead demo4 [] 0 None 0%nat [] (ReadOk 64) _ _ eq_refl eq_refl)|].
  eapply (rtc_l _ _ demo6); [exact (Advance demo5 [] _ [] _ _ eq_refl eq_refl)|].
  apply rtc_refl.
Qed.

Lemma prefetch_safe_witness :
  readers demo6 = [Done 0 None AMIO_OK (Some (0%nat, Some (0, None))) false] /\ refs (pool demo6) 0%nat = 1 /\
  exists sel, Some (0, @None amio_bbox_t) = Some (0, sel) /\ (false = false -> bbox_same sel None = true).
Proof.
  split; [reflexivity|]. split; [reflexivity|].
  destruct (prefetch_safe 1 60 demo_info 3 demo_pool demo6 (proj1 demo_pool_free) (proj2 demo_pool_free) prefetch_demo_run)
    as (_ & _ & _ & Hd & _).
  exact (proj2 (Hd 0 None AMIO_OK 0%nat _ false (list_elem_of_here _ _))).
Defined.
