(* ===== verification/AmioConfig.v ===== *)
(** * AMIO: manifests and the driver registry ([amio/src/config/config_loader.hpp], [.cpp],
    [amio/src/factory/backend_factory.cpp])

    A manifest is read through the CONF accessors.  The texts of messages and the
    emission of YAML ([serialize]) are left out. *)
From Stdlib Require Import ZArith Lia Ascii String.
From stdpp Require Import base list numbers gmap sets strings.
From S2P Require Import Prelude CInt AmioErrors Conf.
Local Open Scope string_scope.
Local Open Scope Z_scope.

(** ** The configuration *)

Record StagingPoolConfig : Type := mkStaging { buffer_count : Z; buffer_capacity_bytes : Z; max_buffer_count : Z }.
Record WorkerPoolCfg : Type := mkWorkers { threads : Z; cpu_cores : list Z; numa_domain : option Z }.
Record PrefetchConfig : Type := mkPrefetch { depth : Z; read_timeout_s : Z }.
Record BackpressureCfg : Type := mkBackpressure { low_watermark : Z; high_watermark : Z; queue_capacity : Z }.
Record CodecConfig : Type := mkCodec { lossless_allow_list : list string; active_codec : string }.

Record AmioConfig : Type := mkConfig {
  staging_pool : StagingPoolConfig; worker_pool : WorkerPoolCfg; prefetch : PrefetchConfig;
  staging_timeout_ms : Z; backpressure : BackpressureCfg; backend : string; codec : CodecConfig; io_ranks : list Z
}.

Definition default_config : AmioConfig :=
  mkConfig (mkStaging 16 1048576 4096) (mkWorkers 1 [] None) (mkPrefetch 4 60) 5000 (mkBackpressure 0 0 1024)
    EmptyString (mkCodec [] EmptyString) [].

(** ** Validation *)

Definition valid_codecs : list string := ["blosc"; "zstandard"; "libaec"; "lossless_jpeg2000"].

Definition mem (x : string) (l : list string) : bool := existsb (String.eqb x) l.

Definition is_valid_codec (name : string) : bool := mem name valid_codecs.

(** The rules in the order of the code: the test that rejects, the status and the field. *)
Definition rules (c : AmioConfig) : list (bool * Z * string) :=
  let s := staging_pool c in let b := backpressure c in let l := lossless_allow_list (codec c) in let a := active_codec (codec c) in
  let outside lo hi x := (x <? lo) || (hi <? x) in
  [ (outside 1 4096 (buffer_count s), AMIO_ERR_MANIFEST_INVALID, "staging_pool.buffer_count");
    (outside 1 1073741824 (buffer_capacity_bytes s), AMIO_ERR_MANIFEST_INVALID, "staging_pool.buffer_capacity_bytes");
    (outside (buffer_count s) 4096 (max_buffer_count s), AMIO_ERR_MANIFEST_INVALID, "staging_pool.max_buffer_count");
    (outside 1 256 (threads (worker_pool c)), AMIO_ERR_MANIFEST_INVALID, "worker_pool.threads");
    (outside 1 1024 (depth (prefetch c)), AMIO_ERR_MANIFEST_INVALID, "prefetch.depth");
    (outside 1 3600 (read_timeout_s (prefetch c)), AMIO_ERR_MANIFEST_INVALID, "prefetch.read_timeout_s");
    (outside 1 60000 (staging_timeout_ms c), AMIO_ERR_MANIFEST_INVALID, "staging_timeout_ms");
    ((0 <? high_watermark b) && (high_watermark b <=? low_watermark b), AMIO_ERR_MANIFEST_INVALID, "backpressure.low_watermark");
    ((0 <? high_watermark b) && (queue_capacity b <? high_watermark b), AMIO_ERR_MANIFEST_INVALID, "backpressure.high_watermark");
    (existsb (fun x => negb (is_valid_codec x)) l, AMIO_ERR_LOSSY_CODEC_FORBIDDEN, "codec.lossless_allow_list");
    (negb (String.eqb a EmptyString) && negb (is_valid_codec a), AMIO_ERR_LOSSY_CODEC_FORBIDDEN, "codec.active_codec");
    (negb (String.eqb a EmptyString) && negb (bool_decide (l = [])) && negb (mem a l), AMIO_ERR_LOSSY_CODEC_FORBIDDEN, "codec.active_codec")
  ].

Fixpoint first_violation (l : list (bool * Z * string)) : Z * string :=
  match l with
  | [] => (AMIO_OK, EmptyString)
  | (bad, code, field) :: rest => if bad then (code, field) else first_violation rest
  end.

Definition validate (c : AmioConfig) : Z * string := first_violation (rules c).

(** ** Reading a manifest *)

Section Loader.
Context {Node : Type} `{!YamlLib Node}.

(** [if (manifest.has(key)) field = get(key);] *)
Definition read {A B} (m : @Config Node) (key : string) (get : @Config Node -> string -> result A) (conv : A -> B) (d : B) : result B :=
  if has m key then let! v := get m key in Ok (conv v) else Ok d.

Definition read_size (m : @Config Node) (key : string) (d : Z) : result Z := read m key get_int to_u64 d.

(** One assignment: the key and the field it sets. *)
Definition assignment : Type := (string * (AmioConfig -> result AmioConfig))%type.

Definition assignments (m : @Config Node) : list assignment :=
  let staging f c := mkConfig (f (staging_pool c)) (worker_pool c) (prefetch c) (staging_timeout_ms c) (backpressure c) (backend c) (codec c) (io_ranks c) in
  let workers f c := mkConfig (staging_pool c) (f (worker_pool c)) (prefetch c) (staging_timeout_ms c) (backpressure c) (backend c) (codec c) (io_ranks c) in
  let pre f c := mkConfig (staging_pool c) (worker_pool c) (f (prefetch c)) (staging_timeout_ms c) (backpressure c) (backend c) (codec c) (io_ranks c) in
  let timeout v c := mkConfig (staging_pool c) (worker_pool c) (prefetch c) v (backpressure c) (backend c) (codec c) (io_ranks c) in
  let back f c := mkConfig (staging_pool c) (worker_pool c) (prefetch c) (staging_timeout_ms c) (f (backpressure c)) (backend c) (codec c) (io_ranks c) in
  let bend v c := mkConfig (staging_pool c) (worker_pool c) (prefetch c) (staging_timeout_ms c) (backpressure c) v (codec c) (io_ranks c) in
  let cod f c := mkConfig (staging_pool c) (worker_pool c) (prefetch c) (staging_timeout_ms c) (backpressure c) (backend c) (f (codec c)) (io_ranks c) in
  let ranks v c := mkConfig (staging_pool c) (worker_pool c) (prefetch c) (staging_timeout_ms c) (backpressure c) (backend c) (codec c) v in
  [ ("staging_pool.buffer_count", fun c => let! v := read_size m "staging_pool.buffer_count" (buffer_count (staging_pool c)) in
       Ok (staging (fun s => mkStaging v (buffer_capacity_bytes s) (max_buffer_count s)) c));
    ("staging_pool.buffer_capacity_bytes", fun c => let! v := read_size m "staging_pool.buffer_capacity_bytes" (buffer_capacity_bytes (staging_pool c)) in
       Ok (staging (fun s => mkStaging (buffer_count s) v (max_buffer_count s)) c));
    ("staging_pool.max_buffer_count", fun c => let! v := read_size m "staging_pool.max_buffer_count" (max_buffer_count (staging_pool c)) in
       Ok (staging (fun s => mkStaging (buffer_count s) (buffer_capacity_bytes s) v) c));
    ("worker_pool.threads", fun c => let! v := read_size m "worker_pool.threads" (threads (worker_pool c)) in
       Ok (workers (fun w => mkWorkers v (cpu_cores w) (numa_domain w)) c));
    ("worker_pool.cpu_cores", fun c => let! v := read m "worker_pool.cpu_cores" get_int_list id (cpu_cores (worker_pool c)) in
       Ok (workers (fun w => mkWorkers (threads w) v (numa_domain w)) c));
    ("worker_pool.numa_domain", fun c => let! v := read m "worker_pool.numa_domain" get_int Some (numa_domain (worker_pool c)) in
       Ok (workers (fun w => mkWorkers (threads w) (cpu_cores w) v) c));
    ("prefetch.depth", fun c => let! v := read_size m "prefetch.depth" (depth (prefetch c)) in
       Ok (pre (fun p => mkPrefetch v (read_timeout_s p)) c));
    ("prefetch.read_timeout_s", fun c => let! v := read_size m "prefetch.read_timeout_s" (read_timeout_s (prefetch c)) in
       Ok (pre (fun p => mkPrefetch (depth p) v) c));
    ("staging_timeout_ms", fun c => let! v := read_size m "staging_timeout_ms" (staging_timeout_ms c) in Ok (timeout v c));
    ("backpressure.low_watermark", fun c => let! v := read_size m "backpressure.low_watermark" (low_watermark (backpressure c)) in
       Ok (back (fun b => mkBackpressure v (high_watermark b) (queue_capacity b)) c));
    ("backpressure.high_watermark", fun c => let! v := read_size m "backpressure.high_watermark" (high_watermark (backpressure c)) in
       Ok (back (fun b => mkBackpressure (low_watermark b) v (queue_capacity b)) c));
    ("backpressure.queue_capacity", fun c => let! v := read_size m "backpressure.queue_capacity" (queue_capacity (backpressure c)) in
       Ok (back (fun b => mkBackpressure (low_watermark b) (high_watermark b) v) c));
    ("backend", fun c => let! v := read m "backend" get_string id (backend c) in Ok (bend v c));
    ("codec.active_codec", fun c => let! v := read m "codec.active_codec" get_string id (active_codec (codec c)) in
       Ok (cod (fun d => mkCodec (lossless_allow_list d) v) c));
    ("codec.lossless_allow_list", fun c => let! v := read m "codec.lossless_allow_list" get_string_list id (lossless_allow_list (codec c)) in
       Ok (cod (fun d => mkCodec v (active_codec d)) c));
    ("io_ranks", fun c => let! v := read m "io_ranks" get_int_list id (io_ranks c) in Ok (ranks v c))
  ].

(** The body of the [try] block: the configuration when it ends, and the key being read
    if it ended with a [Conf_Error]. *)
Fixpoint run_assignments (l : list assignment) (c : AmioConfig) : result (option string * AmioConfig) :=
  match l with
  | [] => Ok (None, c)
  | (key, f) :: rest =>
      match f c with
      | Ok c' => run_assignments rest c'
      | Throw (conf_error _) => Ok (Some key, c)
      | Throw e => Throw e
      | Undef => Undef
      end
  end.

(** The status, [config_out] and [error_out.field_path]. *)
Definition populate_from_conf (m : @Config Node) : result (Z * AmioConfig * string) :=
  let! r := run_assignments (assignments m) default_config in
  match r with
  | (Some key, c) => Ok (AMIO_ERR_MANIFEST_INVALID, c, key)
  | (None, c) => Ok (fst (validate c), c, snd (validate c))
  end.

Definition load_status (code : Z) : Z := if code =? File_Not_Found then AMIO_ERR_MANIFEST_NOT_FOUND else AMIO_ERR_MANIFEST_INVALID.

Definition parse_with (m : result (@Config Node)) (config_out : AmioConfig) : result (Z * AmioConfig * string) :=
  match (let! cfg := m in populate_from_conf cfg) with
  | Throw (conf_error code) => Ok (load_status code, config_out, EmptyString)
  | r => r
  end.

Definition parse (path : string) (config_out : AmioConfig) : result (Z * AmioConfig * string) := parse_with (from_file path) config_out.
Definition parse_string (content : string) (config_out : AmioConfig) : result (Z * AmioConfig * string) :=
  parse_with (from_string content) config_out.

(** ** The driver registry: keys to builders *)

Definition register_driver {B} (r : gmap string B) (key : string) (b : B) : bool * gmap string B :=
  if String.eqb key EmptyString then (false, r) else (true, <[key := b]> r).

Definition build {B} (r : gmap string B) (key : string) : option B * Z :=
  if String.eqb key EmptyString then (None, AMIO_ERR_UNKNOWN_BACKEND)
  else match r !! key with None => (None, AMIO_ERR_UNKNOWN_BACKEND) | Some b => (Some b, AMIO_OK) end.

Definition has_driver {B} (r : gmap string B) (key : string) : bool :=
  if String.eqb key EmptyString then false else bool_decide (is_Some (r !! key)).

Definition clear_drivers {B} (r : gmap string B) : gmap string B := ∅.

(** ** Specification *)

(** The configuration a manifest describes: every field is what its key says, or the
    default. *)
Record described (m : @Config Node) (c : AmioConfig) : Prop := {
  d_count : read_size m "staging_pool.buffer_count" 16 = Ok (buffer_count (staging_pool c));
  d_capacity : read_size m "staging_pool.buffer_capacity_bytes" 1048576 = Ok (buffer_capacity_bytes (staging_pool c));
  d_max : read_size m "staging_pool.max_buffer_count" 4096 = Ok (max_buffer_count (staging_pool c));
  d_threads : read_size m "worker_pool.threads" 1 = Ok (threads (worker_pool c));
  d_cores : read m "worker_pool.cpu_cores" get_int_list id [] = Ok (cpu_cores (worker_pool c));
  d_numa : read m "worker_pool.numa_domain" get_int Some None = Ok (numa_domain (worker_pool c));
  d_depth : read_size m "prefetch.depth" 4 = Ok (depth (prefetch c));
  d_read_timeout : read_size m "prefetch.read_timeout_s" 60 = Ok (read_timeout_s (prefetch c));
  d_timeout : read_size m "staging_timeout_ms" 5000 = Ok (staging_timeout_ms c);
  d_low : read_size m "backpressure.low_watermark" 0 = Ok (low_watermark (backpressure c));
  d_high : read_size m "backpressure.high_watermark" 0 = Ok (high_watermark (backpressure c));
  d_queue : read_size m "backpressure.queue_capacity" 1024 = Ok (queue_capacity (backpressure c));
  d_backend : read m "backend" get_string id EmptyString = Ok (backend c);
  d_active : read m "codec.active_codec" get_string id EmptyString = Ok (active_codec (codec c));
  d_allow : read m "codec.lossless_allow_list" get_string_list id [] = Ok (lossless_allow_list (codec c));
  d_ranks : read m "io_ranks" get_int_list id [] = Ok (io_ranks c)
}.
End Loader.

(** The documented schema. *)
Record valid_config (c : AmioConfig) : Prop := {
  vc_count : 1 <= buffer_count (staging_pool c) <= 4096;
  vc_capacity : 1 <= buffer_capacity_bytes (staging_pool c) <= 1073741824;
  vc_max : buffer_count (staging_pool c) <= max_buffer_count (staging_pool c) <= 4096;
  vc_threads : 1 <= threads (worker_pool c) <= 256;
  vc_depth : 1 <= depth (prefetch c) <= 1024;
  vc_read_timeout : 1 <= read_timeout_s (prefetch c) <= 3600;
  vc_timeout : 1 <= staging_timeout_ms c <= 60000;
  vc_watermarks : 0 < high_watermark (backpressure c) ->
    low_watermark (backpressure c) < high_watermark (backpressure c) <= queue_capacity (backpressure c);
  vc_allow x : x ∈ lossless_allow_list (codec c) -> x ∈ valid_codecs;
  vc_active : active_codec (codec c) <> EmptyString -> active_codec (codec c) ∈ valid_codecs /\
    (lossless_allow_list (codec c) <> [] -> active_codec (codec c) ∈ lossless_allow_list (codec c))
}.

(** ** Lemmas *)

Lemma mem_spec x l : mem x l = true <-> x ∈ l.
Proof.
  unfold mem. rewrite existsb_exists. split.
  - intros (y & Hy & ->%String.eqb_eq). by apply list_elem_of_In.
  - intros Hx. exists x. split; [by apply list_elem_of_In|apply String.eqb_refl].
Qed.

(** The statuses of the rules are errors, so [AMIO_OK] means that no rule rejects. *)
Definition error_rules (l : list (bool * Z * string)) : Prop := Forall (fun r => snd (fst r) <> AMIO_OK) l.

Lemma first_violation_spec l : error_rules l ->
  (fst (first_violation l) = AMIO_OK <-> Forall (fun r => fst (fst r) = false) l).
Proof.
  induction 1 as [|[[b c] f] l Hr _ IH]; simpl; [by split|]. rewrite list.Forall_cons. simpl.
  destruct b; simpl; [|rewrite IH; tauto]. split; [intros E; by destruct Hr|]. by intros [E _].
Qed.

Lemma rules_errors c : error_rules (rules c).
Proof. repeat constructor; discriminate. Qed.

Lemma not_outside lo hi x : (x <? lo) || (hi <? x) = false <-> lo <= x <= hi.
Proof. rewrite orb_false_iff, !Z.ltb_ge. tauto. Qed.

Lemma validate_spec c : fst (validate c) = AMIO_OK <-> valid_config c.
Proof.
  unfold validate. rewrite (first_violation_spec _ (rules_errors c)). unfold rules. cbv beta zeta. rewrite !list.Forall_cons. cbn [fst snd]. rewrite !not_outside.
  rewrite !andb_false_iff, !Z.ltb_ge, !Z.leb_gt.
  assert (Hallow : existsb (fun x => negb (is_valid_codec x)) (lossless_allow_list (codec c)) = false <->
      forall x, x ∈ lossless_allow_list (codec c) -> x ∈ valid_codecs).
  { rewrite <- not_true_iff_false, existsb_exists. split.
    - intros H x Hx. apply mem_spec. destruct (mem x valid_codecs) eqn:E; [done|]. destruct H. exists x. split; [by apply list_elem_of_In|].
      unfold is_valid_codec. by rewrite E.
    - intros H (x & Hx & E). apply negb_true_iff in E. unfold is_valid_codec in E. apply list_elem_of_In, H, mem_spec in Hx. congruence. }
  rewrite Hallow. unfold is_valid_codec.
  assert (Hn : negb (String.eqb (active_codec (codec c)) EmptyString) = false <-> active_codec (codec c) = EmptyString)
    by (rewrite negb_false_iff; apply String.eqb_eq).
  rewrite Hn, !negb_false_iff, !mem_spec, bool_decide_eq_true. split.
  - intros (H1 & H2 & H3 & H4 & H5 & H6 & H7 & H8 & H9 & H10 & H11 & H12 & _). constructor; try done; [lia|].
    intros Ha. split; [tauto|]. tauto.
  - intros [H1 H2 H3 H4 H5 H6 H7 H8 H9 H10]. repeat (split; [done || lia|]). split; [|split; [|done]].
    + destruct (decide (active_codec (codec c) = EmptyString)); [by left|right; by apply H10].
    + destruct (decide (active_codec (codec c) = EmptyString)); [by left; left|].
      destruct (decide (lossless_allow_list (codec c) = [])); [left; by right|right; by apply H10].
Qed.

(** The first rule that rejects. *)
Lemma first_violation_first l : error_rules l -> fst (first_violation l) <> AMIO_OK ->
  exists l1 code field l2, l = app l1 ((true, code, field) :: l2) /\ Forall (fun r => fst (fst r) = false) l1 /\ first_violation l = (code, field).
Proof.
  induction 1 as [|[[b c] f] l Hr _ IH]; simpl; [by intros []|]. destruct b.
  - intros _. by exists [], c, f, l.
  - intros H. destruct (IH H) as (l1 & code & field & l2 & -> & H1 & H2). exists ((false, c, f) :: l1), code, field, l2.
    split; [done|]. split; [by constructor|done].
Qed.

Section LoaderSpec.
Context {Node : Type} `{!YamlLib Node}.
Implicit Types m : @Config Node.

(** Which keys can be read, in the order of the code. *)
Definition fields m : list (string * bool) :=
  [ ("staging_pool.buffer_count", is_ok (read_size m "staging_pool.buffer_count" 16));
    ("staging_pool.buffer_capacity_bytes", is_ok (read_size m "staging_pool.buffer_capacity_bytes" 1048576));
    ("staging_pool.max_buffer_count", is_ok (read_size m "staging_pool.max_buffer_count" 4096));
    ("worker_pool.threads", is_ok (read_size m "worker_pool.threads" 1));
    ("worker_pool.cpu_cores", is_ok (read m "worker_pool.cpu_cores" get_int_list id []));
    ("worker_pool.numa_domain", is_ok (read m "worker_pool.numa_domain" get_int Some None));
    ("prefetch.depth", is_ok (read_size m "prefetch.depth" 4));
    ("prefetch.read_timeout_s", is_ok (read_size m "prefetch.read_timeout_s" 60));
    ("staging_timeout_ms", is_ok (read_size m "staging_timeout_ms" 5000));
    ("backpressure.low_watermark", is_ok (read_size m "backpressure.low_watermark" 0));
    ("backpressure.high_watermark", is_ok (read_size m "backpressure.high_watermark" 0));
    ("backpressure.queue_capacity", is_ok (read_size m "backpressure.queue_capacity" 1024));
    ("backend", is_ok (read m "backend" get_string id EmptyString));
    ("codec.active_codec", is_ok (read m "codec.active_codec" get_string id EmptyString));
    ("codec.lossless_allow_list", is_ok (read m "codec.lossless_allow_list" get_string_list id []));
    ("io_ranks", is_ok (read m "io_ranks" get_int_list id [])) ].

Fixpoint first_unreadable (l : list (string * bool)) : option string :=
  match l with [] => None | (key, ok) :: rest => if ok then first_unreadable rest else Some key end.

(** A value or a [Conf_Error]. *)
Definition conf_only {A} (r : result A) : Prop := match r with Ok _ => True | Throw (conf_error _) => True | _ => False end.

Lemma conf_only_bind {A B} (r : result A) (k : A -> result B) : conf_only r -> (forall a, conf_only (k a)) -> conf_only (bind r k).
Proof. intros Hr Hk. destruct r; [apply Hk|exact Hr|destruct Hr]. Qed.

Lemma conf_only_resolve (n : Node) path : conf_only (resolve n path).
Proof. by destruct (resolve_outcome n path) as [[c ->]|[->| ->]]. Qed.

Lemma conf_only_convert {T} (as_T : Node -> option T) n : conf_only (convert as_T n).
Proof. unfold convert. destruct (negb _); [done|]. by destruct (as_T n). Qed.

Lemma conf_only_scalar {T} (as_T : Node -> option T) m key : conf_only (get_scalar as_T m key).
Proof. destruct m as [root|]; [|done]. apply conf_only_bind; [apply conf_only_resolve|intros n; apply conf_only_convert]. Qed.

Lemma conf_only_list {T} (as_T : Node -> option T) m key : conf_only (get_list as_T m key).
Proof.
  destruct m as [root|]; [|done]. apply conf_only_bind; [apply conf_only_resolve|]. intros n.
  apply conf_only_bind; [unfold throw_if; by destruct (negb _)|]. intros _. generalize (List.seq 0 (node_size n)) as l.
  induction l as [|i l IH]; simpl; [done|]. apply conf_only_bind; [apply conf_only_convert|]. intros v. by apply conf_only_bind.
Qed.

Lemma conf_only_read {A B} m key (get : @Config Node -> string -> result A) (conv : A -> B) d :
  conf_only (get m key) -> conf_only (read m key get conv d).
Proof. intros H. unfold read. destruct (has m key); [|done]. by apply conf_only_bind. Qed.

Lemma conf_only_size m key d : conf_only (read_size m key d).
Proof. apply conf_only_read, conf_only_scalar. Qed.

Lemma conf_only_cases {A} (r : result A) : conf_only r -> (exists a, r = Ok a) \/ exists code, r = Throw (conf_error code).
Proof. destruct r as [a|[]|]; simpl; try tauto; eauto. Qed.

(** The next key is read, or the loading ends here. *)
Ltac next_key :=
  let E := fresh "E" in let v := fresh "v" in let code := fresh "code" in let H := fresh in
  match goal with
  | |- context [match (let! _ := ?r in _) with _ => _ end] =>
      assert (H : conf_only r) by (first [apply conf_only_size | apply conf_only_read; first [apply conf_only_scalar | apply conf_only_list]]);
      apply conf_only_cases in H as [[v E]|[code E]]; rewrite E;
      cbn [bind is_ok staging_pool worker_pool prefetch staging_timeout_ms backpressure backend codec io_ranks
           buffer_count buffer_capacity_bytes max_buffer_count threads cpu_cores numa_domain depth read_timeout_s low_watermark
           high_watermark queue_capacity lossless_allow_list active_codec];
      [|eexists _, _, _; split; [reflexivity|]; split; [done|]; split; [done|]; intros c' []; congruence]
  end.

Lemma populate_spec m : exists status c field, populate_from_conf m = Ok (status, c, field) /\
  match first_unreadable (fields m) with
  | None => described m c /\ status = fst (validate c) /\ field = snd (validate c)
  | Some key => status = AMIO_ERR_MANIFEST_INVALID /\ field = key /\ forall c', ~ described m c'
  end.
Proof.
  unfold populate_from_conf, fields, assignments, default_config. cbv zeta.
  cbn [run_assignments first_unreadable staging_pool worker_pool prefetch staging_timeout_ms backpressure backend codec io_ranks
       buffer_count buffer_capacity_bytes max_buffer_count threads cpu_cores numa_domain depth read_timeout_s low_watermark
       high_watermark queue_capacity lossless_allow_list active_codec].
  do 16 next_key.
  eexists _, _, _. split; [reflexivity|]. split; [by constructor|done].
Qed.

(** What loading a document yields. *)
Definition loaded (r : result (@Config Node)) (status : Z) (c : AmioConfig) (field : string) : Prop :=
  (status = AMIO_OK <-> exists m, r = Ok m /\ described m c /\ valid_config c) /\
  (status = AMIO_ERR_MANIFEST_NOT_FOUND <-> r = Throw (conf_error File_Not_Found)) /\
  (forall m, r = Ok m -> match first_unreadable (fields m) with
     | Some key => status = AMIO_ERR_MANIFEST_INVALID /\ field = key
     | None => described m c /\ (status <> AMIO_OK -> exists l1 l2,
         rules c = app l1 ((true, status, field) :: l2) /\ Forall (fun x => fst (fst x) = false) l1)
     end) /\
  status ∈ [AMIO_OK; AMIO_ERR_MANIFEST_NOT_FOUND; AMIO_ERR_MANIFEST_INVALID; AMIO_ERR_LOSSY_CODEC_FORBIDDEN].

Lemma rule_codes c l1 code field l2 : rules c = app l1 ((true, code, field) :: l2) ->
  code ∈ [AMIO_ERR_MANIFEST_INVALID; AMIO_ERR_LOSSY_CODEC_FORBIDDEN].
Proof.
  intros E. assert (H : Forall (fun x => snd (fst x) ∈ [AMIO_ERR_MANIFEST_INVALID; AMIO_ERR_LOSSY_CODEC_FORBIDDEN]) (rules c)).
  { unfold rules. cbv zeta. repeat (apply Forall_cons_2; [cbn [fst snd]; set_solver|]). apply Forall_nil_2. }
  rewrite E in H. apply Forall_app in H as [_ H]. by apply list.Forall_cons in H as [H _].
Qed.

Lemma parse_with_spec (r : result (@Config Node)) out : conf_only r ->
  exists status c field, parse_with r out = Ok (status, c, field) /\ loaded r status c field.
Proof.
  intros Hr. unfold parse_with. destruct r as [m|e|]; [| |destruct Hr]; simpl.
  - destruct (populate_spec m) as (status & c & field & -> & Hcase). exists status, c, field. split; [done|].
    destruct (first_unreadable (fields m)) as [key|] eqn:Ef.
    + destruct Hcase as (-> & -> & Hno). split; [|split; [done|split; [|set_solver]]].
      * split; [done|]. intros (m' & [= <-] & Hd & _). by destruct (Hno c).
      * intros m' [= <-]. by rewrite Ef.
    + destruct Hcase as (Hd & -> & ->). assert (Hbad : fst (validate c) <> AMIO_OK -> exists l1 l2,
          rules c = app l1 ((true, fst (validate c), snd (validate c)) :: l2) /\ Forall (fun x => fst (fst x) = false) l1).
      { intros Hne. destruct (first_violation_first (rules c) (rules_errors c) Hne) as (l1 & code & field & l2 & E & H1 & H2).
        exists l1, l2. unfold validate. by rewrite H2. }
      split; [|split; [|split]].
      * rewrite validate_spec. split; [intros Hv; by exists m|]. by intros (m' & [= <-] & _ & Hv).
      * split; [|done]. intros E. exfalso. destruct (Hbad ltac:(by rewrite E)) as (l1 & l2 & Hl & _).
        apply rule_codes in Hl. rewrite E in Hl. set_solver.
      * intros m' [= <-]. by rewrite Ef.
      * destruct (decide (fst (validate c) = AMIO_OK)) as [->|Hne]; [set_solver|].
        destruct (Hbad Hne) as (l1 & l2 & Hl & _). apply rule_codes in Hl. set_solver.
  - destruct e as [| | | | |code]; try destruct Hr. exists (load_status code), out, EmptyString. split; [done|].
    unfold load_status. split; [|split; [|split; [done|destruct (code =? File_Not_Found); set_solver]]].
    + split; [by destruct (code =? File_Not_Found)|]. by intros (m & ? & _).
    + destruct (Z.eqb_spec code File_Not_Found) as [->|Hne]; [done|]. split; [done|]. intros [= ->]. done.
Qed.
End LoaderSpec.

(** Loading a manifest never lets an exception escape.  It succeeds exactly when the
    document loads, every key that is present has its type, and the configuration, which
    takes the documented defaults for absent keys, satisfies the documented schema; a
    missing file is reported as such; otherwise the field path names the first key, in
    the order of the schema, that cannot be read, or the first rule that is violated. *)
Theorem manifest_loading_correct {Node} `{!YamlLib Node} (path content : string) (out : AmioConfig) :
  (exists status c field, parse path out = Ok (status, c, field) /\ loaded (from_file path) status c field /\
     (status = AMIO_ERR_MANIFEST_NOT_FOUND <-> read_file path = None)) /\
  (exists status c field, parse_string content out = Ok (status, c, field) /\ loaded (from_string content) status c field /\
     status <> AMIO_ERR_MANIFEST_NOT_FOUND).
Proof.
  assert (Hs : forall text, conf_only (from_string text)) by (intros text; unfold from_string, tree_from_string; by destruct (load text)).
  assert (Hn : forall text, from_string text <> Throw (conf_error File_Not_Found))
    by (intros text; unfold from_string, tree_from_string; by destruct (load text)).
  assert (Hf : from_file path = match read_file path with None => Throw (conf_error File_Not_Found) | Some text => from_string text end)
    by (unfold from_file, tree_from_file; by destruct (read_file path)).
  split.
  - destruct (parse_with_spec (from_file path) out) as (status & c & field & E & Hl); [rewrite Hf; by destruct (read_file path)|].
    exists status, c, field. split; [exact E|]. split; [exact Hl|]. destruct Hl as (_ & -> & _). rewrite Hf.
    destruct (read_file path) as [text|]; [|done]. split; [intros Ht; by destruct (Hn text)|done].
  - destruct (parse_with_spec (from_string content) out (Hs content)) as (status & c & field & E & Hl).
    exists status, c, field. split; [exact E|]. split; [exact Hl|]. destruct Hl as (_ & -> & _). apply Hn.
Qed.

(** The registry builds exactly what was registered last under the exact key. *)
Lemma registry_build {B} (r : gmap string B) key key' b :
  let '(done, r') := register_driver r key b in
  build r' key' = (if done && String.eqb key key' then (Some b, AMIO_OK) else build r key') /\
  has_driver r' key' = bool_decide (snd (build r' key') = AMIO_OK).
Proof.
  unfold register_driver. destruct (String.eqb_spec key EmptyString) as [->|Hne]; simpl; (split; [unfold build|unfold has_driver, build]).
  - done.
  - destruct (String.eqb key' EmptyString); [done|]. by destruct (r !! key').
  - destruct (String.eqb_spec key key') as [<-|Hk]; [by rewrite (proj2 (String.eqb_neq _ _) Hne), lookup_insert_eq|by rewrite lookup_insert_ne].
  - destruct (String.eqb key' EmptyString); [done|]. by destruct (<[key:=b]> r !! key').
Qed.
