(* ===== verification/StructuredPlan.v ===== *)
(** HALO: the structured halo plan
    (src/libs/halo/include/halo/structured_halo_plan.hpp).

    [std::array]s of the static length [Rank] (or [2 * Rank]) are lists; the constructor
    gets the lengths from the types, so they are the hypothesis [sized] here.
    [std::size_t] is 64 bits and wraps.  The topology communicator, its cache and the
    communicator itself belong to MPI. *)
From Stdlib Require Import ZArith Lia.
From stdpp Require Import base list numbers.
From S2P Require Import Prelude CInt.
Local Open Scope Z_scope.

(** ** Data *)

(** [Kokkos::pair<std::size_t, std::size_t>]: the interval [first, second). *)
Record index_range : Type := mkRange { first : Z; second : Z }.

#[export] Instance index_range_eq_dec : EqDecision index_range.
Proof. solve_decision. Defined.
#[export] Instance index_range_inhabited : Inhabited index_range := populate (mkRange 0 0).

(** [Region::ranges] *)
Abbreviation Region := (list index_range).

Definition usub (x y : Z) : Z := to_u64 (x - y).
Definition umul (x y : Z) : Z := to_u64 (x * y).

Definition size (r : Region) : Z := fold_left (fun s g => umul s (usub (second g) (first g))) r 1.

Record Structured_Halo_Plan : Type := mkPlan {
  extents_ : list Z;
  neighbor_ranks_ : list Z;
  halo_widths_ : list Z;
  send_regions_ : list Region;
  recv_regions_ : list Region
}.

(** [Rank]: the length of the array of extents. *)
Definition rank_of (p : Structured_Halo_Plan) : nat := length (extents_ p).
Definition num_faces (p : Structured_Halo_Plan) : nat := 2 * rank_of p.

(** ** Construction *)

(** The loop of [validate_extents]. *)
Fixpoint validate_extents (extents halo_widths : list Z) : result unit :=
  match extents, halo_widths with
  | n :: extents', h :: halo_widths' =>
      do! throw_if (n <? umul 2 h) invalid_argument then validate_extents extents' halo_widths'
  | _, _ => Ok tt
  end.

(** The inner loop over [k]: the slice [g] in the face dimension [d], full extents elsewhere. *)
Definition face_region (extents : list Z) (d : nat) (g : index_range) : Region :=
  imap (fun k n => if (k =? d)%nat then g else mkRange 0 n) extents.

Definition set_send (f : nat) (r : Region) (p : Structured_Halo_Plan) : Structured_Halo_Plan :=
  mkPlan (extents_ p) (neighbor_ranks_ p) (halo_widths_ p) (<[f := r]> (send_regions_ p)) (recv_regions_ p).
Definition set_recv (f : nat) (r : Region) (p : Structured_Halo_Plan) : Structured_Halo_Plan :=
  mkPlan (extents_ p) (neighbor_ranks_ p) (halo_widths_ p) (send_regions_ p) (<[f := r]> (recv_regions_ p)).

(** The body of the outer loop, for one dimension. *)
Definition precompute_dim (d : nat) (p : Structured_Halo_Plan) : Structured_Halo_Plan :=
  let h := halo_widths_ p !!! d in
  let n := extents_ p !!! d in
  let region := face_region (extents_ p) d in
  let face_lo := (2 * d)%nat in
  let face_hi := (2 * d + 1)%nat in
  let p := set_send face_lo (region (mkRange h (umul 2 h))) p in
  let p := set_recv face_lo (region (mkRange 0 h)) p in
  let p := set_send face_hi (region (mkRange (usub n (umul 2 h)) (usub n h))) p in
  set_recv face_hi (region (mkRange (usub n h) n)) p.

Definition precompute_regions (p : Structured_Halo_Plan) : Structured_Halo_Plan :=
  fold_left (fun p d => precompute_dim d p) (seq 0 (rank_of p)) p.

Definition structured_halo_plan (global_extents neighbor_ranks halo_widths : list Z) : result Structured_Halo_Plan :=
  do! validate_extents global_extents halo_widths then
  let zero := replicate (2 * length global_extents) (replicate (length global_extents) (mkRange 0 0)) in
  Ok (precompute_regions (mkPlan global_extents neighbor_ranks halo_widths zero zero)).

(** ** Accessors *)

Definition check_face_idx (p : Structured_Halo_Plan) (face_idx : Z) : result unit :=
  throw_if ((face_idx <? 0) || (face_idx >=? Z.of_nat (num_faces p))) out_of_range.
Definition check_dim (p : Structured_Halo_Plan) (dim : Z) : result unit :=
  throw_if ((dim <? 0) || (dim >=? Z.of_nat (rank_of p))) out_of_range.

Definition send_region (p : Structured_Halo_Plan) (face_idx : Z) : result Region :=
  do! check_face_idx p face_idx then Ok (send_regions_ p !!! Z.to_nat face_idx).
Definition recv_region (p : Structured_Halo_Plan) (face_idx : Z) : result Region :=
  do! check_face_idx p face_idx then Ok (recv_regions_ p !!! Z.to_nat face_idx).
Definition neighbor_rank (p : Structured_Halo_Plan) (face_idx : Z) : result Z :=
  do! check_face_idx p face_idx then Ok (neighbor_ranks_ p !!! Z.to_nat face_idx).
Definition halo_width (p : Structured_Halo_Plan) (dim : Z) : result Z :=
  do! check_dim p dim then Ok (halo_widths_ p !!! Z.to_nat dim).
Definition extent (p : Structured_Halo_Plan) (dim : Z) : result Z :=
  do! check_dim p dim then Ok (extents_ p !!! Z.to_nat dim).
Definition has_neighbor (p : Structured_Halo_Plan) (face_idx : Z) : result bool :=
  do! check_face_idx p face_idx then Ok (0 <=? neighbor_ranks_ p !!! Z.to_nat face_idx).

(** The loop of [active_neighbor_count] over the faces. *)
Definition active_neighbor_count (p : Structured_Halo_Plan) : Z :=
  fold_left (fun count f => if 0 <=? neighbor_ranks_ p !!! f then count + 1 else count) (seq 0 (num_faces p)) 0.

(** The list built by [topology_comm]: one entry per active face. *)
Definition topology_neighbors (p : Structured_Halo_Plan) : list Z :=
  fold_left (fun l f => if 0 <=? neighbor_ranks_ p !!! f then l ++ [neighbor_ranks_ p !!! f] else l) (seq 0 (num_faces p)) [].

(** ** Specification *)

Definition sized (extents neighbors widths : list Z) : Prop :=
  length widths = length extents /\ length neighbors = (2 * length extents)%nat.

(** Extents and widths a machine can hold: [2 * halo_width] does not wrap. *)
Definition machine_sizes (extents widths : list Z) : Prop :=
  Forall (fun n => 0 <= n < 18446744073709551616) extents /\ Forall (fun h => 0 <= h < 9223372036854775808) widths.

Definition low_face (d : nat) : Z := 2 * Z.of_nat d.
Definition high_face (d : nat) : Z := 2 * Z.of_nat d + 1.

(** The cells of a region: index tuples within its ranges. *)
Definition in_region (r : Region) (idx : list Z) : Prop := Forall2 (fun g i => first g <= i < second g) r idx.

(** ** The constructor *)

Lemma validate_extents_spec extents widths : length widths = length extents -> machine_sizes extents widths ->
  (Forall2 (fun n h => 2 * h <= n) extents widths /\ validate_extents extents widths = Ok tt) \/
  (~ Forall2 (fun n h => 2 * h <= n) extents widths /\ validate_extents extents widths = Throw invalid_argument).
Proof.
  revert widths. induction extents as [|n ns IH]; intros [|h hs] Hl [Hn Hh]; try done; [left; by split|].
  apply Forall_cons_iff in Hn as [Hn Hns], Hh as [Hh Hhs]. simpl.
  unfold umul, to_u64. rewrite (Z.mod_small (2 * h)) by lia.
  destruct (Z.ltb_spec n (2 * h)) as [Hlt|Hge]; simpl.
  - right. split; [|done]. intros [? ?]%Forall2_cons_1. lia.
  - destruct (IH hs ltac:(simpl in Hl; lia) (conj Hns Hhs)) as [[Hf E]|[Hf E]]; [left|right]; (split; [|done]).
    + by constructor.
    + by intros [_ ?]%Forall2_cons_1.
Qed.

(** The fields the loop leaves alone, and the lengths of the two tables. *)
Lemma precompute_fields l p : let q := fold_left (fun p d => precompute_dim d p) l p in
  extents_ q = extents_ p /\ neighbor_ranks_ q = neighbor_ranks_ p /\ halo_widths_ q = halo_widths_ p /\
  length (send_regions_ q) = length (send_regions_ p) /\ length (recv_regions_ q) = length (recv_regions_ p).
Proof.
  revert p. induction l as [|d l IH]; intros p; simpl; [done|].
  destruct (IH (precompute_dim d p)) as (-> & -> & -> & -> & ->). cbn. by rewrite !length_insert.
Qed.

(** The four slices of dimension [d] in a plan with [n] cells and width [h] there. *)
Definition slices (extents widths : list Z) (d : nat) (p : Structured_Halo_Plan) : Prop :=
  let h := widths !!! d in
  let n := extents !!! d in
  send_regions_ p !! (2 * d)%nat = Some (face_region extents d (mkRange h (umul 2 h))) /\
  recv_regions_ p !! (2 * d)%nat = Some (face_region extents d (mkRange 0 h)) /\
  send_regions_ p !! (2 * d + 1)%nat = Some (face_region extents d (mkRange (usub n (umul 2 h)) (usub n h))) /\
  recv_regions_ p !! (2 * d + 1)%nat = Some (face_region extents d (mkRange (usub n h) n)).

Lemma precompute_dim_slices p d :
  length (send_regions_ p) = num_faces p -> length (recv_regions_ p) = num_faces p -> (d < rank_of p)%nat ->
  slices (extents_ p) (halo_widths_ p) d (precompute_dim d p) /\
  (forall e, e <> d -> slices (extents_ p) (halo_widths_ p) e p -> slices (extents_ p) (halo_widths_ p) e (precompute_dim d p)).
Proof.
  unfold num_faces. intros Hs Hr Hd. unfold slices, precompute_dim. cbn. split.
  - repeat split; first [rewrite list_lookup_insert_ne by lia|idtac]; apply list_lookup_insert_eq; rewrite ?length_insert; lia.
  - intros e He (H1 & H2 & H3 & H4).
    repeat split; rewrite !list_lookup_insert_ne by lia; assumption.
Qed.

Lemma precompute_slices p d :
  length (send_regions_ p) = num_faces p -> length (recv_regions_ p) = num_faces p -> (d < rank_of p)%nat ->
  slices (extents_ p) (halo_widths_ p) d (precompute_regions p).
Proof.
  intros Hs Hr Hd. unfold precompute_regions.
  cut (forall n, (n <= rank_of p)%nat -> forall d, (d < n)%nat ->
         slices (extents_ p) (halo_widths_ p) d (fold_left (fun p d => precompute_dim d p) (seq 0 n) p)).
  { intros H. by apply (H (rank_of p)). }
  clear d Hd. induction n as [|n IH]; intros Hn d Hd; [lia|].
  rewrite seq_S, fold_left_app. simpl.
  destruct (precompute_fields (seq 0 n) p) as (E1 & _ & E3 & E4 & E5).
  set (q := fold_left (fun p d => precompute_dim d p) (seq 0 n) p) in *.
  destruct (precompute_dim_slices q n) as [Hnew Hold]; [unfold num_faces, rank_of in *; rewrite ?E1; lia..|].
  rewrite E1, E3 in *. destruct (decide (d = n)) as [->|Hne]; [done|]. apply Hold; [done|]. apply IH; lia.
Qed.

Lemma length_face_region extents d g : length (face_region extents d g) = length extents.
Proof. apply length_imap. Qed.

Lemma face_region_lookup extents d g k n : extents !! k = Some n ->
  face_region extents d g !! k = Some (if (k =? d)%nat then g else mkRange 0 n).
Proof. intros H. unfold face_region. by rewrite list_lookup_imap, H. Qed.

(** The size of a region depends on the width of its face slice only. *)
Lemma size_face_region extents d g g' : usub (second g) (first g) = usub (second g') (first g') ->
  size (face_region extents d g) = size (face_region extents d g').
Proof.
  intros H. unfold size, face_region. generalize 1 as s. revert d.
  induction extents as [|n l IH]; intros d s; [done|]. simpl.
  destruct d as [|d]; simpl.
  - rewrite H. reflexivity.
  - exact (IH d (umul s (usub n 0))).
Qed.

(** What the constructor promises.  [plan_ok]: the arrays have the lengths of their types
    and every region has one range per dimension, within the grid. *)
Definition range_ok (n : Z) (g : index_range) : Prop := 0 <= first g <= second g /\ second g <= n.
Definition plan_ok (p : Structured_Halo_Plan) : Prop :=
  length (halo_widths_ p) = rank_of p /\ length (neighbor_ranks_ p) = num_faces p /\
  length (send_regions_ p) = num_faces p /\ length (recv_regions_ p) = num_faces p /\
  Forall (fun r => Forall2 range_ok (extents_ p) r) (send_regions_ p) /\
  Forall (fun r => Forall2 range_ok (extents_ p) r) (recv_regions_ p).

Lemma face_region_ok extents d g : Forall (fun n => 0 <= n) extents ->
  (forall n, extents !! d = Some n -> range_ok n g) -> Forall2 range_ok extents (face_region extents d g).
Proof.
  intros H0 Hg. apply Forall2_lookup. intros k. unfold face_region. rewrite list_lookup_imap.
  destruct (extents !! k) as [n|] eqn:E; simpl; constructor.
  pose proof (Forall_lookup_1 _ _ _ _ H0 E) as Hn. simpl in Hn.
  destruct (Nat.eqb_spec k d) as [->|_]; [by apply Hg|]. split; simpl; lia.
Qed.

(** The regions a plan holds, as exact intervals. *)
Definition lays_out (extents widths : list Z) (p : Structured_Halo_Plan) : Prop :=
  forall d n h, extents !! d = Some n -> widths !! d = Some h ->
    send_regions_ p !! (2 * d)%nat = Some (face_region extents d (mkRange h (2 * h))) /\
    recv_regions_ p !! (2 * d)%nat = Some (face_region extents d (mkRange 0 h)) /\
    send_regions_ p !! (2 * d + 1)%nat = Some (face_region extents d (mkRange (n - 2 * h) (n - h))) /\
    recv_regions_ p !! (2 * d + 1)%nat = Some (face_region extents d (mkRange (n - h) n)).

Lemma construct_spec extents neighbors widths :
  sized extents neighbors widths -> machine_sizes extents widths -> Forall2 (fun n h => 2 * h <= n) extents widths ->
  exists p, structured_halo_plan extents neighbors widths = Ok p /\
    extents_ p = extents /\ neighbor_ranks_ p = neighbors /\ halo_widths_ p = widths /\
    length (send_regions_ p) = num_faces p /\ length (recv_regions_ p) = num_faces p /\ lays_out extents widths p.
Proof.
  intros [Hw Hn] Hm Hf. unfold structured_halo_plan.
  destruct (validate_extents_spec _ _ Hw Hm) as [[_ ->]|[Hbad _]]; [|done].
  set (zero := replicate _ _). set (p0 := mkPlan extents neighbors widths zero zero). cbn.
  assert (Hz : length zero = num_faces p0) by apply length_replicate.
  destruct (precompute_fields (seq 0 (rank_of p0)) p0) as (E1 & E2 & E3 & E4 & E5).
  exists (precompute_regions p0). unfold num_faces, rank_of in *.
  change (fold_left _ _ p0) with (precompute_regions p0) in E1, E2, E3, E4, E5. rewrite E1, E4, E5.
  split_and!; try done.
  intros d n h Ed Eh. pose proof (lookup_lt_Some _ _ _ Ed) as Hd.
  pose proof (precompute_slices p0 d Hz Hz Hd) as Hs. unfold slices in Hs. cbn in Hs.
  rewrite (list_lookup_total_correct _ _ _ Ed), (list_lookup_total_correct _ _ _ Eh) in Hs.
  destruct Hm as [Hme Hmw].
  pose proof (Forall_lookup_1 _ _ _ _ Hme Ed) as Bn. pose proof (Forall_lookup_1 _ _ _ _ Hmw Eh) as Bh.
  pose proof (Forall2_lookup_lr _ _ _ _ _ _ Hf Ed Eh) as Bf. cbv beta in Bn, Bh, Bf.
  assert (E : umul 2 h = 2 * h) by (unfold umul, to_u64; apply Z.mod_small; lia).
  assert (F : usub n (umul 2 h) = n - 2 * h) by (rewrite E; unfold usub, to_u64; apply Z.mod_small; lia).
  assert (G : usub n h = n - h) by (unfold usub, to_u64; apply Z.mod_small; lia).
  rewrite F, G, E in Hs. exact Hs.
Qed.

Lemma face_number p f : 0 <= f < Z.of_nat (num_faces p) -> exists d, (d < rank_of p)%nat /\ (f = low_face d \/ f = high_face d).
Proof.
  unfold num_faces, low_face, high_face. intros Hf. exists (Z.to_nat (f / 2)).
  pose proof (Z.div_mod f 2 ltac:(lia)). pose proof (Z.mod_pos_bound f 2 ltac:(lia)). lia.
Qed.

Lemma all_faces {A} (P : A -> Prop) (l : list A) n : length l = (2 * n)%nat ->
  (forall d, (d < n)%nat -> exists x y, l !! (2 * d)%nat = Some x /\ l !! (2 * d + 1)%nat = Some y /\ P x /\ P y) -> Forall P l.
Proof.
  intros Hl H. apply Forall_lookup. intros f z Ef. pose proof (lookup_lt_Some _ _ _ Ef) as Hf.
  pose proof (Nat.div_mod_eq f 2) as Hd. pose proof (Nat.mod_upper_bound f 2 ltac:(lia)) as Hr.
  destruct (H (f / 2)%nat ltac:(lia)) as (x & y & Ex & Ey & Px & Py).
  destruct (f mod 2)%nat as [|[|]]; [| |lia].
  - replace (2 * (f / 2))%nat with f in Ex by lia. congruence.
  - replace (2 * (f / 2) + 1)%nat with f in Ey by lia. congruence.
Qed.

Lemma lays_out_ok extents neighbors widths p :
  sized extents neighbors widths -> machine_sizes extents widths -> Forall2 (fun n h => 2 * h <= n) extents widths ->
  extents_ p = extents -> neighbor_ranks_ p = neighbors -> halo_widths_ p = widths ->
  length (send_regions_ p) = num_faces p -> length (recv_regions_ p) = num_faces p -> lays_out extents widths p -> plan_ok p.
Proof.
  intros [Hw Hn] [Hme Hmw] Hf E1 E2 E3 Hs Hr Hlay. unfold plan_ok, num_faces, rank_of in *.
  rewrite E1, E2, E3 in *. repeat split; try done.
  all: apply (all_faces _ _ (length extents)); [done|]; intros d Hd.
  all: destruct (lookup_lt_is_Some_2 _ _ Hd) as [n Ed]; destruct (lookup_lt_is_Some_2 widths d ltac:(lia)) as [h Eh].
  all: destruct (Hlay d n h Ed Eh) as (S1 & R1 & S2 & R2); do 2 eexists; repeat split; try eassumption.
  all: pose proof (Forall_lookup_1 _ _ _ _ Hme Ed) as Bn; pose proof (Forall_lookup_1 _ _ _ _ Hmw Eh) as Bh.
  all: pose proof (Forall2_lookup_lr _ _ _ _ _ _ Hf Ed Eh) as Bf; cbv beta in Bn, Bh, Bf.
  all: apply face_region_ok; [eapply Forall_impl; [|exact Hme]; cbv beta; lia|].
  all: intros n' En'; replace n' with n by congruence; split; cbn; lia.
Qed.

Lemma face_index p d (s : bool) : (d < rank_of p)%nat -> check_face_idx p (low_face d + (if s then 1 else 0)) = Ok tt /\
  Z.to_nat (low_face d + (if s then 1 else 0)) = (2 * d + (if s then 1 else 0))%nat.
Proof.
  unfold check_face_idx, num_faces, low_face. intros Hd.
  destruct s, (Z.ltb_spec (2 * Z.of_nat d + 1) 0), (Z.ltb_spec (2 * Z.of_nat d + 0) 0); try lia; simpl.
  all: match goal with |- context [?x >=? ?y] => destruct (Z.geb_spec x y) end; try lia; (split; [done|lia]).
Qed.

Lemma in_face_region extents d g idx n : extents !! d = Some n -> in_region (face_region extents d g) idx ->
  exists i, idx !! d = Some i /\ first g <= i < second g.
Proof.
  intros Ed Hin. pose proof (face_region_lookup extents d g d n Ed) as Er. rewrite Nat.eqb_refl in Er.
  destruct (Forall2_lookup_l _ _ _ _ _ Hin Er) as (i & Ei & Hi). by exists i.
Qed.

(** C19. Construction of a structured plan.  Arrays of any rank, sizes a machine can hold.
    The constructor throws [invalid_argument] exactly when some extent is below twice its
    halo width; otherwise the plan keeps its arguments, all its regions lie within the
    grid, and for each dimension the low face sends the cells [h, 2h) and receives
    [0, h), the high face sends [n - 2h, n - h) and receives [n - h, n), with the same
    number of elements sent and received.  An extent of at least three widths makes the
    cells sent interior ones.  A face outside [0, 2 * Rank) is [out_of_range]. *)
Theorem structured_plan_correct extents neighbors widths :
  sized extents neighbors widths -> machine_sizes extents widths ->
  (~ Forall2 (fun n h => 2 * h <= n) extents widths ->
     structured_halo_plan extents neighbors widths = Throw invalid_argument) /\
  (Forall2 (fun n h => 2 * h <= n) extents widths ->
     exists p, structured_halo_plan extents neighbors widths = Ok p /\ plan_ok p /\
       extents_ p = extents /\ neighbor_ranks_ p = neighbors /\ halo_widths_ p = widths /\
       (forall d n h, extents !! d = Some n -> widths !! d = Some h ->
          exists s_lo r_lo s_hi r_hi,
            send_region p (low_face d) = Ok s_lo /\ s_lo = face_region extents d (mkRange h (2 * h)) /\
            recv_region p (low_face d) = Ok r_lo /\ r_lo = face_region extents d (mkRange 0 h) /\
            send_region p (high_face d) = Ok s_hi /\ s_hi = face_region extents d (mkRange (n - 2 * h) (n - h)) /\
            recv_region p (high_face d) = Ok r_hi /\ r_hi = face_region extents d (mkRange (n - h) n) /\
            size s_lo = size r_hi /\ size s_hi = size r_lo /\ size s_lo = size s_hi /\
            (3 * h <= n -> forall idx, in_region s_lo idx \/ in_region s_hi idx ->
               exists i, idx !! d = Some i /\ h <= i < n - h)) /\
       (forall f, ~ (0 <= f < Z.of_nat (2 * length extents)) ->
          send_region p f = Throw out_of_range /\ recv_region p f = Throw out_of_range /\ neighbor_rank p f = Throw out_of_range)).
Proof.
  intros Hz Hm. split.
  - intros Hbad. unfold structured_halo_plan.
    by destruct (validate_extents_spec _ _ (proj1 Hz) Hm) as [[? _]|[_ ->]].
  - intros Hf. destruct (construct_spec _ _ _ Hz Hm Hf) as (p & Ep & E1 & E2 & E3 & Hs & Hr & Hlay).
    exists p. split_and!; try done; [by apply (lays_out_ok extents neighbors widths)| |].
    + intros d n h Ed Eh. destruct (Hlay d n h Ed Eh) as (S1 & R1 & S2 & R2).
      assert (Hd : (d < rank_of p)%nat) by (unfold rank_of; rewrite E1; by eapply lookup_lt_Some).
      do 4 eexists. unfold send_region, recv_region.
      destruct (face_index p d false Hd) as [Cl Il], (face_index p d true Hd) as [Ch Ih].
      rewrite Z.add_0_r in Cl, Il. rewrite Nat.add_0_r in Il. unfold high_face. fold (low_face d).
      rewrite Cl, Ch, Il, Ih. cbn [bind].
      rewrite (list_lookup_total_correct _ _ _ S1), (list_lookup_total_correct _ _ _ R1),
        (list_lookup_total_correct _ _ _ S2), (list_lookup_total_correct _ _ _ R2).
      split_and!; try reflexivity; try (apply size_face_region; unfold usub; cbn [first second]; f_equal; lia).
      intros H3 idx [Hin|Hin]; destruct (in_face_region _ _ _ _ _ Ed Hin) as (i & Ei & Hi);
        exists i; cbn in Hi; (split; [done|lia]).
    + intros f Hfb. unfold send_region, recv_region, neighbor_rank, check_face_idx, num_faces, rank_of. rewrite E1.
      destruct (Z.ltb_spec f 0), (Z.geb_spec f (Z.of_nat (2 * length extents))); done || (exfalso; lia).
Qed.

Example structured_plan_correct_witness :
  exists p, structured_halo_plan [10; 8] [1; 1; -1; 2] [2; 1] = Ok p /\ plan_ok p /\
    send_region p 1 = Ok [mkRange 6 8; mkRange 0 8] /\ structured_halo_plan [3] [0; 0] [2] = Throw invalid_argument.
Proof.
  destruct (structured_plan_correct [10; 8] [1; 1; -1; 2] [2; 1]) as [_ H].
  - by split.
  - split; repeat constructor; lia.
  - destruct H as (p & Ep & Hok & _ & _ & _ & Hreg & _); [repeat constructor; lia|].
    exists p. split_and!; [exact Ep|exact Hok| |].
    + destruct (Hreg 0%nat 10 2 eq_refl eq_refl) as (? & ? & ? & ? & _ & _ & _ & _ & E & -> & _). exact E.
    + apply (structured_plan_correct [3] [0; 0] [2]); [by split|split; repeat constructor; lia|].
      intros H. apply Forall2_cons_1 in H as [H _]. lia.
Defined.

(** A width of 2^63 wraps to a doubled width of 0 and passes the validation. *)
Example wrapped_width_accepted : validate_extents [5] [9223372036854775808] = Ok tt.
Proof. reflexivity. Qed.

(** The validation accepts grids with fewer interior cells than the halo width: with an
    extent from two to below three widths, some cell the low face sends is a ghost cell
    of the high face. *)
Theorem thin_grid_sends_ghosts n h lo hi : 0 < h -> 2 * h <= n < 3 * h -> n < 18446744073709551616 ->
  exists p idx, structured_halo_plan [n] [lo; hi] [h] = Ok p /\
    (exists s r, send_region p 0 = Ok s /\ recv_region p 1 = Ok r /\ in_region s idx /\ in_region r idx).
Proof.
  intros Hh Hn Hb.
  destruct (construct_spec [n] [lo; hi] [h]) as (p & Ep & E1 & _ & _ & _ & _ & Hlay);
    [by split|split; repeat constructor; lia|repeat constructor; lia|].
  exists p, [2 * h - 1]. split; [exact Ep|].
  destruct (Hlay 0%nat n h eq_refl eq_refl) as (S & _ & _ & R).
  assert (Hd : (0 < rank_of p)%nat) by (unfold rank_of; rewrite E1; simpl; lia).
  destruct (face_index p 0 false Hd) as [Cl _], (face_index p 0 true Hd) as [Ch _].
  change (check_face_idx p 0 = Ok tt) in Cl. change (check_face_idx p 1 = Ok tt) in Ch.
  unfold send_region, recv_region. rewrite Cl, Ch. cbn [bind].
  change (Z.to_nat 0) with (2 * 0)%nat. change (Z.to_nat 1) with (2 * 0 + 1)%nat.
  rewrite (list_lookup_total_correct _ _ _ S), (list_lookup_total_correct _ _ _ R).
  do 2 eexists. split_and!; [reflexivity|reflexivity| |]; repeat constructor; cbn; lia.
Qed.

Example thin_grid_sends_ghosts_witness :
  exists p idx, structured_halo_plan [5] [1; 1] [2] = Ok p /\
    (exists s r, send_region p 0 = Ok s /\ recv_region p 1 = Ok r /\ in_region s idx /\ in_region r idx).
Proof. apply (thin_grid_sends_ghosts 5 2 1 1); lia. Defined.
