(* ===== verification/PackUnpack.v ===== *)
(** HALO: the pack and unpack kernels
    (src/libs/halo/include/halo/detail/pack_unpack.hpp).

    Every Kokkos allocation is a store of its own, a list of cells of which some may not
    be initialised; a view is an offset, its extents and its strides in one allocation.
    Extents and offsets count elements of memory that exists, so they are [nat].
    [Kokkos] is the interface to the library: the order in which a range policy visits
    its index tuples, and [View::span()], which covers the addresses of the elements.
    Fences order the kernels, which run here one after the other. *)
From Stdlib Require Import ZArith Lia.
From stdpp Require Import base list numbers.
From S2P Require Import Prelude.

(** ** Stores and views *)

Section Store.
Context {A : Type}.

Definition load (m : list (option A)) (a : nat) : result A :=
  match m !! a with Some (Some x) => Ok x | _ => Undef end.
Definition store (m : list (option A)) (a : nat) (x : A) : result (list (option A)) :=
  if (a <? length m)%nat then Ok (<[a := Some x]> m) else Undef.

(** A parallel loop, in the order the policy visits the indices. *)
Fixpoint run_kernel (order : list (list nat)) (body : list nat -> list (option A) -> result (list (option A)))
    (m : list (option A)) : result (list (option A)) :=
  match order with
  | [] => Ok m
  | i :: rest => let! m' := body i m in run_kernel rest body m'
  end.
End Store.

Record View : Type := mkView { offset : nat; extents : list nat; strides : list nat }.

Definition product (ns : list nat) : nat := foldr Nat.mul 1 ns.

(** The index tuples of a box, in row-major order. *)
Fixpoint indices (ns : list nat) : list (list nat) :=
  match ns with
  | [] => [[]]
  | n :: ns' => i ← seq 0 n; cons i <$> indices ns'
  end.

(** The position of an element relative to the view's first one. *)
Fixpoint displacement (idx ss : list nat) : nat :=
  match idx, ss with i :: idx', s :: ss' => i * s + displacement idx' ss' | _, _ => 0 end.

Definition address (v : View) (idx : list nat) : nat := offset v + displacement idx (strides v).
Definition view_size (v : View) : nat := product (extents v).

Class Kokkos := {
  policy_order : list nat -> list (list nat);
  policy_order_perm ns : policy_order ns ≡ₚ indices ns;
  span : list nat -> list nat -> nat;
  span_covers ns ss idx : length ss = length ns -> idx ∈ indices ns -> displacement idx ss < span ns ss
}.

(** ** The kernels *)

Section Kernels.
Context `{KK : !Kokkos} {A : Type}.
Implicit Types (src dst : View) (ms md : list (option A)).

Definition is_contiguous (v : View) : bool := span (extents v) (strides v) =? view_size v.

Definition load_at ms (v : View) (idx : list nat) : result A := load ms (address v idx).
Definition store_at md (v : View) (idx : list nat) (x : A) : result (list (option A)) := store md (address v idx) x.

Definition pack_contiguous src ms dst md : result (list (option A)) :=
  run_kernel (policy_order [view_size src]) (fun i md => match i with
    | [i] => let! x := load ms (offset src + i) in store_at md dst [i] x
    | _ => Undef end) md.

Definition unpack_contiguous src ms dst md : result (list (option A)) :=
  run_kernel (policy_order [view_size dst]) (fun i md => match i with
    | [i] => let! x := load_at ms src [i] in store md (offset dst + i) x
    | _ => Undef end) md.

Definition pack_strided_rank1 src ms dst md : result (list (option A)) :=
  run_kernel (policy_order (extents src)) (fun i md => match i with
    | [i0] => let! x := load_at ms src [i0] in store_at md dst [i0] x
    | _ => Undef end) md.

Definition pack_strided_rank2 src ms dst md : result (list (option A)) :=
  run_kernel (policy_order (extents src)) (fun i md => match extents src, i with
    | [n0; n1], [i0; i1] => let! x := load_at ms src [i0; i1] in store_at md dst [i0 * n1 + i1] x
    | _, _ => Undef end) md.

Definition pack_strided_rank3 src ms dst md : result (list (option A)) :=
  run_kernel (policy_order (extents src)) (fun i md => match extents src, i with
    | [n0; n1; n2], [i0; i1; i2] => let! x := load_at ms src [i0; i1; i2] in store_at md dst [(i0 * n1 + i1) * n2 + i2] x
    | _, _ => Undef end) md.

(** The index computation shared by the two rank-4 kernels. *)
Definition unlinear4 (n1 n2 n3 idx : nat) : list nat :=
  let i3 := idx mod n3 in
  let rem := idx / n3 in
  let i2 := rem mod n2 in
  let rem2 := rem / n2 in
  let i1 := rem2 mod n1 in
  let i0 := rem2 / n1 in
  [i0; i1; i2; i3].

Definition pack_strided_rank4 src ms dst md : result (list (option A)) :=
  match extents src with
  | [n0; n1; n2; n3] =>
      let total := n0 * n1 * n2 * n3 in
      run_kernel (policy_order [total]) (fun i md => match i with
        | [idx] => let! x := load_at ms src (unlinear4 n1 n2 n3 idx) in store_at md dst [idx] x
        | _ => Undef end) md
  | _ => Undef
  end.

Definition unpack_strided_rank1 src ms dst md : result (list (option A)) :=
  run_kernel (policy_order (extents dst)) (fun i md => match i with
    | [i0] => let! x := load_at ms src [i0] in store_at md dst [i0] x
    | _ => Undef end) md.

Definition unpack_strided_rank2 src ms dst md : result (list (option A)) :=
  run_kernel (policy_order (extents dst)) (fun i md => match extents dst, i with
    | [n0; n1], [i0; i1] => let! x := load_at ms src [i0 * n1 + i1] in store_at md dst [i0; i1] x
    | _, _ => Undef end) md.

Definition unpack_strided_rank3 src ms dst md : result (list (option A)) :=
  run_kernel (policy_order (extents dst)) (fun i md => match extents dst, i with
    | [n0; n1; n2], [i0; i1; i2] => let! x := load_at ms src [(i0 * n1 + i1) * n2 + i2] in store_at md dst [i0; i1; i2] x
    | _, _ => Undef end) md.

Definition unpack_strided_rank4 src ms dst md : result (list (option A)) :=
  match extents dst with
  | [n0; n1; n2; n3] =>
      let total := n0 * n1 * n2 * n3 in
      run_kernel (policy_order [total]) (fun i md => match i with
        | [idx] => let! x := load_at ms src [idx] in store_at md dst (unlinear4 n1 n2 n3 idx) x
        | _ => Undef end) md
  | _ => Undef
  end.

(** The dispatch; a rank outside 1 to 4 does not compile. *)
Definition pack src ms dst md : result (list (option A)) :=
  if is_contiguous src then pack_contiguous src ms dst md else
  match length (extents src) with
  | 1 => pack_strided_rank1 src ms dst md
  | 2 => pack_strided_rank2 src ms dst md
  | 3 => pack_strided_rank3 src ms dst md
  | 4 => pack_strided_rank4 src ms dst md
  | _ => Undef
  end.

Definition unpack src ms dst md : result (list (option A)) :=
  if is_contiguous dst then unpack_contiguous src ms dst md else
  match length (extents dst) with
  | 1 => unpack_strided_rank1 src ms dst md
  | 2 => unpack_strided_rank2 src ms dst md
  | 3 => unpack_strided_rank3 src ms dst md
  | 4 => unpack_strided_rank4 src ms dst md
  | _ => Undef
  end.
End Kernels.

(** ** Index arithmetic *)

Fixpoint linear (ns idx : list nat) : nat :=
  match ns, idx with _ :: ns', i :: idx' => i * product ns' + linear ns' idx' | _, _ => 0 end.

Lemma elem_of_indices ns idx : idx ∈ indices ns <-> Forall2 (fun i n => i < n) idx ns.
Proof.
  revert idx. induction ns as [|n ns IH]; intros idx; simpl.
  - rewrite list_elem_of_singleton. split; [by intros ->|by intros H; inversion H].
  - rewrite list_elem_of_bind. split.
    + intros (i & H & Hi%elem_of_seq). apply list_elem_of_fmap in H as (idx' & -> & H). constructor; [lia|by apply IH].
    + intros H. inversion H as [|i ? idx' ? Hi Hr]; subst. exists i. split; [|apply elem_of_seq; lia].
      by apply list_elem_of_fmap_2, IH.
Qed.

Lemma indices_length ns idx : idx ∈ indices ns -> length idx = length ns.
Proof. rewrite elem_of_indices. apply Forall2_length. Qed.

Lemma seq_blocks n p a : (i ← seq a n; seq (i * p) p) = seq (a * p) (n * p).
Proof.
  revert a. induction n as [|n IH]; intros a; [done|]. simpl. rewrite IH, seq_app. f_equal. f_equal; lia.
Qed.

(** The row-major enumeration numbers the tuples in order. *)
Lemma indices_linear ns : linear ns <$> indices ns = seq 0 (product ns).
Proof.
  induction ns as [|n ns IH]; [done|].
  change (linear (n :: ns) <$> (seq 0 n ≫= fun i => cons i <$> indices ns) = seq (0 * product ns) (n * product ns)).
  rewrite <- seq_blocks. generalize (seq 0 n) as l. induction l as [|i l IHl]; [done|].
  rewrite !bind_cons, fmap_app, IHl. f_equal. rewrite <- list_fmap_compose.
  transitivity (Nat.add (i * product ns) <$> (linear ns <$> indices ns)).
  - rewrite <- list_fmap_compose. by apply list_fmap_ext.
  - rewrite IH, fmap_add_seq. f_equal; lia.
Qed.

Lemma length_indices ns : length (indices ns) = product ns.
Proof. rewrite <- (length_fmap (linear ns)), indices_linear. apply length_seq. Qed.

Lemma linear_bound ns idx : idx ∈ indices ns -> linear ns idx < product ns.
Proof.
  intros H. apply (list_elem_of_fmap_2 (linear ns)) in H. rewrite indices_linear in H.
  apply elem_of_seq in H. lia.
Qed.

Lemma NoDup_fmap_inj {A B} (f : A -> B) (l : list A) x y : NoDup (f <$> l) -> x ∈ l -> y ∈ l -> f x = f y -> x = y.
Proof.
  induction l as [|a l IH]; simpl; [by intros _ ?%not_elem_of_nil|].
  rewrite list.NoDup_cons, !list.elem_of_cons. intros [Ha Hn] [->|Hx] [->|Hy] E; try done.
  - rewrite E in Ha. by apply (list_elem_of_fmap_2 f) in Hy.
  - rewrite <- E in Ha. by apply (list_elem_of_fmap_2 f) in Hx.
  - by apply IH.
Qed.

Lemma linear_inj ns idx jdx : idx ∈ indices ns -> jdx ∈ indices ns -> linear ns idx = linear ns jdx -> idx = jdx.
Proof. apply (NoDup_fmap_inj (linear ns)). rewrite indices_linear. apply NoDup_seq. Qed.

Lemma linear_surj ns k : k < product ns -> exists idx, idx ∈ indices ns /\ linear ns idx = k.
Proof.
  intros Hk. assert (H : k ∈ linear ns <$> indices ns) by (rewrite indices_linear; apply elem_of_seq; lia).
  apply list_elem_of_fmap in H as (idx & -> & H). by exists idx.
Qed.

(** ** Loops that copy cells *)

Section Copying.
Context {A : Type}.
Implicit Types ms md : list (option A).

Lemma copy_loop order (from to : list nat -> nat) ms md body :
  (forall i m, i ∈ order -> body i m = (let! x := load ms (from i) in store m (to i) x)) ->
  NoDup (to <$> order) -> (forall i, i ∈ order -> to i < length md) ->
  (forall i, i ∈ order -> exists x, ms !! from i = Some (Some x)) ->
  exists md', run_kernel order body md = Ok md' /\ length md' = length md /\
    (forall i, i ∈ order -> md' !! to i = ms !! from i) /\
    (forall a, a ∉ to <$> order -> md' !! a = md !! a).
Proof.
  revert md. induction order as [|i order IH]; intros md Hb Hn Hl Hr.
  - exists md. split_and!; try done. by intros i ?%not_elem_of_nil.
  - rewrite fmap_cons in Hn. apply list.NoDup_cons in Hn as [Hi Hn].
    destruct (Hr i) as [x Ex]; [by left|].
    destruct (IH (<[to i := Some x]> md)) as (md' & E & El & Hin & Hout).
    + intros j m Hj. apply Hb. by right.
    + exact Hn.
    + intros j Hj. rewrite length_insert. apply Hl. by right.
    + intros j Hj. apply Hr. by right.
    + exists md'. rewrite length_insert in El. pose proof (Hl i ltac:(by left)) as Hlt. split_and!; [|done| |].
      * simpl. rewrite Hb by (by left). unfold load, store. rewrite Ex. cbn [bind].
        by rewrite (proj2 (Nat.ltb_lt _ _) Hlt).
      * intros j [->|Hj]%list.elem_of_cons; [|by apply Hin].
        rewrite Hout by done. by rewrite list_lookup_insert_eq, Ex.
      * intros a Ha. rewrite fmap_cons, list.not_elem_of_cons in Ha. destruct Ha as [Hne Ha].
        rewrite Hout by done. by apply list_lookup_insert_ne.
Qed.
End Copying.

(** ** Views *)

Definition in_view (v : View) (idx : list nat) : Prop := idx ∈ indices (extents v).

(** Distinct elements have distinct addresses. *)
Definition view_ok (v : View) : Prop :=
  length (strides v) = length (extents v) /\ 1 <= length (extents v) <= 4 /\
  (forall idx jdx, in_view v idx -> in_view v jdx -> address v idx = address v jdx -> idx = jdx).

(** The view lies in the store; its elements are initialised. *)
Definition fits {A} (v : View) (m : list (option A)) : Prop := forall idx, in_view v idx -> address v idx < length m.
Definition readable {A} (v : View) (m : list (option A)) : Prop :=
  forall idx, in_view v idx -> exists x, m !! address v idx = Some (Some x).

(** A rank-1 buffer of [n] cells starting at [o]. *)
Definition buffer (o n : nat) : View := mkView o [n] [1].

Section Specs.
Context `{KK : !Kokkos}.

(** Where the element [idx] of a view stands in its packed buffer. *)
Definition slot (v : View) (idx : list nat) : nat :=
  if is_contiguous v then displacement idx (strides v) else linear (extents v) idx.

(** A loop over [ns] that visits every element of [v] once, at [vaddr] in the view and at
    [baddr] in the buffer. *)
Record enumerates (v : View) (ns : list nat) (vaddr baddr : list nat -> nat) : Prop := {
  enum_sound i : i ∈ indices ns -> exists idx, in_view v idx /\ vaddr i = address v idx /\ baddr i = slot v idx;
  enum_complete idx : in_view v idx -> exists i, i ∈ indices ns /\ vaddr i = address v idx /\ baddr i = slot v idx;
  enum_inj i j : i ∈ indices ns -> j ∈ indices ns -> baddr i = baddr j -> i = j
}.

Lemma single i n : [i] ∈ indices [n] <-> i < n.
Proof. rewrite elem_of_indices. split; [by intros H; inversion H|intros H; by repeat constructor]. Qed.

Lemma single_inv i n : i ∈ indices [n] -> exists k, i = [k] /\ k < n.
Proof.
  rewrite elem_of_indices. intros H. inversion H as [|k ? r ? Hk Hr]; subst. inversion Hr; subst. by exists k.
Qed.

(** The elements of a contiguous view fill its span. *)
Lemma contiguous_range v : view_ok v -> is_contiguous v = true ->
  (forall idx, in_view v idx -> displacement idx (strides v) < view_size v) /\
  (forall k, k < view_size v -> exists idx, in_view v idx /\ displacement idx (strides v) = k).
Proof.
  intros (Hl & _ & Hinj) Hc%Nat.eqb_eq. unfold in_view.
  assert (Hb : forall idx, in_view v idx -> displacement idx (strides v) < view_size v).
  { intros idx Hi. rewrite <- Hc. by apply span_covers. }
  split; [exact Hb|].
  set (f := fun idx => displacement idx (strides v)).
  assert (Hp : f <$> indices (extents v) ≡ₚ seq 0 (view_size v)).
  { apply Permutation_sym. apply Permutation_sym, NoDup_Permutation_bis.
    - apply NoDup_ListNoDup, NoDup_fmap_2_strong.
      + intros idx jdx Hi Hj E. apply Hinj; try done. unfold address. unfold f in E. lia.
      + apply (NoDup_fmap_1 (linear (extents v))). rewrite indices_linear. apply NoDup_seq.
    - rewrite length_fmap, length_seq, length_indices. unfold view_size. lia.
    - intros k Hk%list_elem_of_In. apply list_elem_of_In, elem_of_seq. apply list_elem_of_fmap in Hk as (idx & -> & Hi).
      pose proof (Hb idx Hi). unfold f. lia. }
  intros k Hk. assert (H : k ∈ f <$> indices (extents v)) by (rewrite Hp; apply elem_of_seq; lia).
  apply list_elem_of_fmap in H as (idx & -> & Hi). by exists idx.
Qed.

Lemma enumerates_contiguous v : view_ok v -> is_contiguous v = true ->
  enumerates v [view_size v] (fun i => offset v + nth 0 i 0) (fun i => nth 0 i 0).
Proof.
  intros Hv Hc. destruct (contiguous_range v Hv Hc) as [Hb Hs].
  assert (Es : forall idx, slot v idx = displacement idx (strides v)) by (intros idx; unfold slot; by rewrite Hc).
  split.
  - intros i (k & -> & Hk)%single_inv. destruct (Hs k Hk) as (idx & Hi & <-). exists idx. by rewrite Es.
  - intros idx Hi. exists [displacement idx (strides v)]. rewrite Es. split; [apply single; auto|done].
  - intros i j (k & -> & _)%single_inv (l & -> & _)%single_inv E. simpl in E. congruence.
Qed.

Lemma enumerates_strided v : is_contiguous v = false -> enumerates v (extents v) (address v) (linear (extents v)).
Proof.
  intros Hc. assert (Es : forall idx, slot v idx = linear (extents v) idx) by (intros idx; unfold slot; by rewrite Hc).
  split.
  - intros i Hi. exists i. by rewrite Es.
  - intros idx Hi. exists idx. by rewrite Es.
  - apply linear_inj.
Qed.

Lemma div_mod_step q n i : i < n -> (q * n + i) / n = q /\ (q * n + i) mod n = i.
Proof.
  intros Hi. rewrite Nat.div_add_l by lia. rewrite Nat.div_small by lia. split; [lia|].
  rewrite Nat.add_comm, Nat.Div0.mod_add. by apply Nat.mod_small.
Qed.

Lemma indices4_inv n0 n1 n2 n3 idx : idx ∈ indices [n0; n1; n2; n3] ->
  exists i0 i1 i2 i3, idx = [i0; i1; i2; i3] /\ i0 < n0 /\ i1 < n1 /\ i2 < n2 /\ i3 < n3.
Proof.
  rewrite elem_of_indices. intros H.
  inversion H as [|i0 ? r0 ? H0 R0]; subst. inversion R0 as [|i1 ? r1 ? H1 R1]; subst.
  inversion R1 as [|i2 ? r2 ? H2 R2]; subst. inversion R2 as [|i3 ? r3 ? H3 R3]; subst. inversion R3; subst.
  by exists i0, i1, i2, i3.
Qed.

Lemma unlinear4_linear n0 n1 n2 n3 idx : idx ∈ indices [n0; n1; n2; n3] ->
  unlinear4 n1 n2 n3 (linear [n0; n1; n2; n3] idx) = idx.
Proof.
  intros (i0 & i1 & i2 & i3 & -> & H0 & H1 & H2 & H3)%indices4_inv.
  assert (E : linear [n0; n1; n2; n3] [i0; i1; i2; i3] = ((i0 * n1 + i1) * n2 + i2) * n3 + i3) by (simpl; lia).
  unfold unlinear4. rewrite E.
  destruct (div_mod_step ((i0 * n1 + i1) * n2 + i2) n3 i3 H3) as [-> ->].
  destruct (div_mod_step (i0 * n1 + i1) n2 i2 H2) as [-> ->].
  by destruct (div_mod_step i0 n1 i1 H1) as [-> ->].
Qed.

Lemma enumerates_rank4 v n0 n1 n2 n3 : extents v = [n0; n1; n2; n3] -> is_contiguous v = false ->
  enumerates v [n0 * n1 * n2 * n3] (fun i => address v (unlinear4 n1 n2 n3 (nth 0 i 0))) (fun i => nth 0 i 0).
Proof.
  intros Ee Hc.
  assert (Es : forall idx, slot v idx = linear [n0; n1; n2; n3] idx) by (intros idx; unfold slot; by rewrite Hc, Ee).
  assert (Ep : product [n0; n1; n2; n3] = n0 * n1 * n2 * n3) by (simpl; lia).
  split; unfold in_view; rewrite ?Ee.
  - intros i (k & -> & Hk)%single_inv. destruct (linear_surj [n0; n1; n2; n3] k ltac:(lia)) as (idx & Hi & <-).
    exists idx. cbn [nth]. by rewrite Es, unlinear4_linear.
  - intros idx Hi. exists [linear [n0; n1; n2; n3] idx]. rewrite single, <- Ep. cbn [nth].
    rewrite Es, unlinear4_linear by done. split; [by apply linear_bound|done].
  - intros i j (k & -> & _)%single_inv (l & -> & _)%single_inv E. simpl in E. congruence.
Qed.

(** The slots of a view number its elements. *)
Lemma slot_bound v idx : view_ok v -> in_view v idx -> slot v idx < view_size v.
Proof.
  intros Hv Hi. unfold slot. destruct (is_contiguous v) eqn:Hc; [by apply contiguous_range|by apply linear_bound].
Qed.

Lemma slot_surj v k : view_ok v -> k < view_size v -> exists idx, in_view v idx /\ slot v idx = k.
Proof.
  intros Hv Hk. unfold slot.
  destruct (is_contiguous v) eqn:Hc; [by apply contiguous_range|by apply linear_surj].
Qed.

Lemma slot_inj v idx jdx : view_ok v -> in_view v idx -> in_view v jdx -> slot v idx = slot v jdx -> idx = jdx.
Proof.
  intros Hv Hi Hj. unfold slot. destruct (is_contiguous v) eqn:Hc; [|by apply linear_inj].
  intros E. apply Hv; try done. unfold address. by rewrite E.
Qed.

Lemma loop_to_buffer {A} v ns vaddr baddr o (ms md : list (option A)) body : view_ok v -> enumerates v ns vaddr baddr ->
  (forall i m, i ∈ indices ns -> body i m = (let! x := load ms (vaddr i) in store m (o + baddr i) x)) ->
  readable v ms -> o + view_size v <= length md ->
  exists md', run_kernel (policy_order ns) body md = Ok md' /\ length md' = length md /\
    (forall idx, in_view v idx -> md' !! (o + slot v idx) = ms !! address v idx) /\
    (forall a, ~ (o <= a < o + view_size v) -> md' !! a = md !! a).
Proof.
  intros Hv He Hb Hr Hl. pose proof (policy_order_perm ns) as Hp.
  destruct (copy_loop (policy_order ns) vaddr (fun i => o + baddr i) ms md body) as (md' & E & El & Hin & Hout).
  - intros i m Hi. apply Hb. by rewrite <- Hp.
  - rewrite Hp. apply NoDup_fmap_2_strong.
    + intros i j Hi Hj Eij. apply (enum_inj _ _ _ _ He); try done; lia.
    + apply (NoDup_fmap_1 (linear ns)). rewrite indices_linear. apply NoDup_seq.
  - intros i Hi. rewrite Hp in Hi. destruct (enum_sound _ _ _ _ He i Hi) as (idx & Hidx & _ & ->).
    pose proof (slot_bound v idx Hv Hidx). lia.
  - intros i Hi. rewrite Hp in Hi. destruct (enum_sound _ _ _ _ He i Hi) as (idx & Hidx & -> & _). by apply Hr.
  - exists md'. split_and!; try done.
    + intros idx Hidx. destruct (enum_complete _ _ _ _ He idx Hidx) as (i & Hi & Ev & Eb).
      rewrite <- Ev, <- Eb. apply Hin. by rewrite Hp.
    + intros a Ha. apply Hout. intros (i & -> & Hi)%list_elem_of_fmap. rewrite Hp in Hi.
      destruct (enum_sound _ _ _ _ He i Hi) as (idx & Hidx & _ & Eb). rewrite Eb in Ha.
      pose proof (slot_bound v idx Hv Hidx). lia.
Qed.

Lemma loop_from_buffer {A} v ns vaddr baddr o (ms md : list (option A)) body : view_ok v -> enumerates v ns vaddr baddr ->
  (forall i m, i ∈ indices ns -> body i m = (let! x := load ms (o + baddr i) in store m (vaddr i) x)) ->
  (forall k, k < view_size v -> exists x, ms !! (o + k) = Some (Some x)) -> fits v md ->
  exists md', run_kernel (policy_order ns) body md = Ok md' /\ length md' = length md /\
    (forall idx, in_view v idx -> md' !! address v idx = ms !! (o + slot v idx)) /\
    (forall a, (forall idx, in_view v idx -> address v idx <> a) -> md' !! a = md !! a).
Proof.
  intros Hv He Hb Hr Hl. pose proof (policy_order_perm ns) as Hp.
  destruct (copy_loop (policy_order ns) (fun i => o + baddr i) vaddr ms md body) as (md' & E & El & Hin & Hout).
  - intros i m Hi. apply Hb. by rewrite <- Hp.
  - rewrite Hp. apply NoDup_fmap_2_strong.
    + intros i j Hi Hj Eij. apply (enum_inj _ _ _ _ He); try done.
      destruct (enum_sound _ _ _ _ He i Hi) as (idx & Hidx & Ei & ->), (enum_sound _ _ _ _ He j Hj) as (jdx & Hjdx & Ej & ->).
      f_equal. apply Hv; try done. congruence.
    + apply (NoDup_fmap_1 (linear ns)). rewrite indices_linear. apply NoDup_seq.
  - intros i Hi. rewrite Hp in Hi. destruct (enum_sound _ _ _ _ He i Hi) as (idx & Hidx & -> & _). by apply Hl.
  - intros i Hi. rewrite Hp in Hi. destruct (enum_sound _ _ _ _ He i Hi) as (idx & Hidx & _ & ->).
    apply Hr. by apply slot_bound.
  - exists md'. split_and!; try done.
    + intros idx Hidx. destruct (enum_complete _ _ _ _ He idx Hidx) as (i & Hi & Ev & Eb).
      rewrite <- Ev, <- Eb. apply Hin. by rewrite Hp.
    + intros a Ha. apply Hout. intros (i & -> & Hi)%list_elem_of_fmap. rewrite Hp in Hi.
      destruct (enum_sound _ _ _ _ He i Hi) as (idx & Hidx & Ev & _). by apply (Ha idx Hidx).
Qed.

Lemma address_buffer o n k : address (buffer o n) [k] = o + k.
Proof. unfold address, buffer. simpl. lia. Qed.

(** A tuple of a box of known rank, as a list of that many indices. *)
Ltac tuple_of H :=
  apply elem_of_indices in H;
  repeat match type of H with
  | Forall2 _ ?i (_ :: _) => let R := fresh in inversion H as [|? ? ? ? _ R]; subst; clear H; rename R into H
  | Forall2 _ ?i [] => inversion H; subst; clear H
  end.

Lemma linear1 n0 i0 : linear [n0] [i0] = i0.
Proof. simpl. lia. Qed.
Lemma linear2 n0 n1 i0 i1 : linear [n0; n1] [i0; i1] = i0 * n1 + i1.
Proof. simpl. lia. Qed.
Lemma linear3 n0 n1 n2 i0 i1 i2 : linear [n0; n1; n2] [i0; i1; i2] = (i0 * n1 + i1) * n2 + i2.
Proof. simpl. lia. Qed.

Ltac same_body Ee H :=
  intros i m H; rewrite ?Ee in H; tuple_of H; rewrite ?Ee; unfold load_at, store_at;
  rewrite ?address_buffer, ?linear1, ?linear2, ?linear3; reflexivity.

Lemma rank_cases v : view_ok v ->
  (exists n0, extents v = [n0]) \/ (exists n0 n1, extents v = [n0; n1]) \/ (exists n0 n1 n2, extents v = [n0; n1; n2]) \/
  (exists n0 n1 n2 n3, extents v = [n0; n1; n2; n3]).
Proof.
  intros (_ & Hr & _). destruct (extents v) as [|n0 [|n1 [|n2 [|n3 [|n4 l]]]]]; simpl in Hr; try lia; eauto 10.
Qed.

(** What packing does: the elements of the view, each in its slot of the buffer. *)
Lemma pack_copies {A} v o n (ms md : list (option A)) :
  view_ok v -> readable v ms -> o + view_size v <= length md ->
  exists md', pack v ms (buffer o n) md = Ok md' /\ length md' = length md /\
    (forall idx, in_view v idx -> md' !! (o + slot v idx) = ms !! address v idx) /\
    (forall a, ~ (o <= a < o + view_size v) -> md' !! a = md !! a).
Proof.
  intros Hv Hr Hl. unfold pack. destruct (is_contiguous v) eqn:Hc.
  - apply (loop_to_buffer _ _ _ _ _ _ _ _ Hv (enumerates_contiguous v Hv Hc)); try done.
    intros i m (k & -> & _)%single_inv. cbn [nth]. unfold store_at. by rewrite address_buffer.
  - pose proof (enumerates_strided v Hc) as He.
    destruct (rank_cases v Hv) as [(n0 & Ee)|[(n0 & n1 & Ee)|[(n0 & n1 & n2 & Ee)|(n0 & n1 & n2 & n3 & Ee)]]]; rewrite Ee; cbn [length].
    + unfold pack_strided_rank1. apply (loop_to_buffer _ _ _ _ _ _ _ _ Hv He); try done. same_body Ee Hi.
    + unfold pack_strided_rank2. apply (loop_to_buffer _ _ _ _ _ _ _ _ Hv He); try done. same_body Ee Hi.
    + unfold pack_strided_rank3. apply (loop_to_buffer _ _ _ _ _ _ _ _ Hv He); try done. same_body Ee Hi.
    + unfold pack_strided_rank4. rewrite Ee. apply (loop_to_buffer _ _ _ _ _ _ _ _ Hv (enumerates_rank4 v _ _ _ _ Ee Hc)); try done.
      intros i m (k & -> & _)%single_inv. cbn [nth]. unfold load_at, store_at. by rewrite address_buffer.
Qed.

(** What unpacking does: each element gets its slot, and nothing else changes. *)
Lemma unpack_copies {A} v o n (ms md : list (option A)) :
  view_ok v -> fits v md -> (forall k, k < view_size v -> exists x, ms !! (o + k) = Some (Some x)) ->
  exists md', unpack (buffer o n) ms v md = Ok md' /\ length md' = length md /\
    (forall idx, in_view v idx -> md' !! address v idx = ms !! (o + slot v idx)) /\
    (forall a, (forall idx, in_view v idx -> address v idx <> a) -> md' !! a = md !! a).
Proof.
  intros Hv Hl Hr. unfold unpack. destruct (is_contiguous v) eqn:Hc.
  - apply (loop_from_buffer _ _ _ _ _ _ _ _ Hv (enumerates_contiguous v Hv Hc)); try done.
    intros i m (k & -> & _)%single_inv. cbn [nth]. unfold load_at. by rewrite address_buffer.
  - pose proof (enumerates_strided v Hc) as He.
    destruct (rank_cases v Hv) as [(n0 & Ee)|[(n0 & n1 & Ee)|[(n0 & n1 & n2 & Ee)|(n0 & n1 & n2 & n3 & Ee)]]]; rewrite Ee; cbn [length].
    + unfold unpack_strided_rank1. apply (loop_from_buffer _ _ _ _ _ _ _ _ Hv He); try done. same_body Ee Hi.
    + unfold unpack_strided_rank2. apply (loop_from_buffer _ _ _ _ _ _ _ _ Hv He); try done. same_body Ee Hi.
    + unfold unpack_strided_rank3. apply (loop_from_buffer _ _ _ _ _ _ _ _ Hv He); try done. same_body Ee Hi.
    + unfold unpack_strided_rank4. rewrite Ee. apply (loop_from_buffer _ _ _ _ _ _ _ _ Hv (enumerates_rank4 v _ _ _ _ Ee Hc)); try done.
      intros i m (k & -> & _)%single_inv. cbn [nth]. unfold load_at, store_at. by rewrite address_buffer.
Qed.
End Specs.

Lemma same_slots `{!Kokkos} v w idx : extents w = extents v ->
  strides w = strides v \/ (is_contiguous v = false /\ is_contiguous w = false) -> slot w idx = slot v idx.
Proof.
  intros Ee Hs. unfold slot, is_contiguous, view_size in *. rewrite Ee in *.
  destruct Hs as [->|[-> ->]]; done.
Qed.

(** Packing a view and unpacking the buffer into a view of the same extents.  For any
    order in which the library runs the loops, any rank from 1 to 4 and both kernels
    (the linear one for contiguous views, the strided one otherwise), with a source that
    is initialised and a buffer and target that are allocated, and with the same strides
    on both sides or no contiguous side: both calls succeed, every element of the target
    view becomes the element of the source view with the same indices, nothing outside
    the target view changes, and packing writes only the view's share of the buffer. *)
Theorem pack_unpack_correct `{!Kokkos} {A} v w o n (ms mb mw : list (option A)) :
  view_ok v -> view_ok w -> extents w = extents v ->
  strides w = strides v \/ (is_contiguous v = false /\ is_contiguous w = false) ->
  readable v ms -> o + view_size v <= length mb -> fits w mw ->
  exists mb' mw', pack v ms (buffer o n) mb = Ok mb' /\ unpack (buffer o n) mb' w mw = Ok mw' /\
    length mb' = length mb /\ length mw' = length mw /\
    (forall idx, in_view v idx -> mw' !! address w idx = ms !! address v idx) /\
    (forall a, (forall idx, in_view w idx -> address w idx <> a) -> mw' !! a = mw !! a) /\
    (forall a, ~ (o <= a < o + view_size v) -> mb' !! a = mb !! a).
Proof.
  intros Hv Hw Ee Hs Hr Hl Hf.
  destruct (pack_copies v o n ms mb Hv Hr Hl) as (mb' & Ep & Lp & Hp & Op).
  destruct (unpack_copies w o n mb' mw Hw Hf) as (mw' & Eu & Lu & Hu & Ou).
  - intros k Hk. unfold view_size in Hk. rewrite Ee in Hk.
    destruct (slot_surj v k Hv Hk) as (idx & Hi & <-). rewrite Hp by done. by apply Hr.
  - exists mb', mw'. split_and!; try done. intros idx Hi.
    rewrite Hu by (unfold in_view; by rewrite Ee). rewrite (same_slots v w) by done. by apply Hp.
Qed.

(** ** A concrete library *)

(** Loops run backwards; the span is exactly the distance from the first element to the
    last, as its documentation gives it. *)
Definition exact_span (ns ss : list nat) : nat := S (displacement (pred <$> ns) ss).

Lemma displacement_mono idx jdx ss : Forall2 le idx jdx -> displacement idx ss <= displacement jdx ss.
Proof.
  intros H. revert ss. induction H as [|i j idx jdx Hij H IH]; intros ss; [done|].
  destruct ss as [|s ss]; simpl; [lia|]. specialize (IH ss). nia.
Qed.

Definition backward_kokkos : Kokkos.
Proof.
  refine {| policy_order ns := reverse (indices ns); span := exact_span |}.
  - intros ns. apply reverse_Permutation.
  - intros ns ss idx _ Hi%elem_of_indices. unfold exact_span. apply Nat.lt_succ_r, displacement_mono.
    apply Forall2_fmap_r. eapply Forall2_impl; [|exact Hi]. simpl. lia.
Defined.

(** Decidable form of [view_ok], [readable] and [fits] for concrete views. *)
Lemma view_ok_check v : length (strides v) = length (extents v) -> 1 <= length (extents v) <= 4 ->
  NoDup (address v <$> indices (extents v)) -> view_ok v.
Proof. intros Hl Hr Hn. split_and!; try lia. intros idx jdx. by apply NoDup_fmap_inj. Qed.

Lemma readable_check {A} (m : list (option A)) v :
  Forall (fun idx => is_Some (mjoin (m !! address v idx))) (indices (extents v)) -> readable v m.
Proof.
  intros H idx Hi. rewrite list.Forall_forall in H. specialize (H idx Hi). cbn in H.
  destruct (m !! address v idx) as [[x|]|]; [by exists x|..]; by destruct H.
Qed.

Lemma fits_check {A} (m : list (option A)) v :
  Forall (fun idx => address v idx < length m) (indices (extents v)) -> fits v m.
Proof. intros H idx Hi. rewrite list.Forall_forall in H. by apply H. Qed.

(** Two columns of a row-major 2 by 4 grid, as strided views of two stores. *)
Definition demo_store : list (option nat) := Some <$> [0; 1; 2; 3; 4; 5; 6; 7].
Definition column (j : nat) : View := mkView j [2; 1] [4; 1].

Example pack_unpack_correct_witness : exists mb' mw',
  @pack backward_kokkos nat (column 1) demo_store (buffer 0 2) [None; None] = Ok mb' /\
  @unpack backward_kokkos nat (buffer 0 2) mb' (column 3) demo_store = Ok mw' /\
  mw' !! 3 = Some (Some 1) /\ mw' !! 7 = Some (Some 5) /\ mw' !! 4 = Some (Some 4).
Proof.
  destruct (@pack_unpack_correct backward_kokkos nat (column 1) (column 3) 0 2 demo_store [None; None] demo_store)
    as (mb' & mw' & Ep & Eu & _ & _ & Hin & Hout & _).
  1, 2: by apply view_ok_check; [|simpl; lia|apply (bool_decide_unpack _); vm_compute].
  - reflexivity.
  - by left.
  - apply readable_check. apply (bool_decide_unpack _). by vm_compute.
  - by apply Nat.leb_le.
  - apply fits_check. repeat constructor; simpl; lia.
  - exists mb', mw'. split_and!; [exact Ep|exact Eu| | |].
    + apply (Hin [0; 0]). apply elem_of_indices. repeat constructor.
    + apply (Hin [1; 0]). apply elem_of_indices. repeat constructor.
    + apply Hout. intros idx Hi. unfold in_view in Hi. simpl in Hi.
      apply list.elem_of_cons in Hi as [->|Hi]; [by vm_compute|]. apply list_elem_of_singleton in Hi as ->. by vm_compute.
Defined.
