(* ===== verification/StructuredExchange.v ===== *)
(** HALO: the structured halo exchange over MPI
    (src/libs/halo/include/halo/exchange_structured.hpp).

    A communicator is a list of processes, each with its plan, its view and the store of
    the view's allocation; the send and receive buffers are allocations of their own.
    MPI is the interface [MPI]: an upper bound for tags, and point-to-point messages that
    do not overtake each other, so that among the receives with one source and tag the
    k-th posted gets the k-th message sent.  A call with a negative count or a rank outside the
    communicator fails, and so does the completion of a receive whose message is longer
    than its buffer; HALO's error policy is the default one, which throws.
    Messages carry cells as they are, initialised or not: this is the exchange of the
    value types that have an MPI datatype of their own (for the others, sent as bytes,
    see HaloExchange.v).  Diagnostics are not modelled. *)
From Stdlib Require Import ZArith Lia.
From stdpp Require Import base list numbers.
From S2P Require Import Prelude CInt StructuredPlan PackUnpack.
Local Open Scope Z_scope.

(** ** Messages *)

Record send_op (A : Type) : Type := mkSend { destination : Z; send_tag : Z; message : list (option A) }.
Arguments mkSend {A}.
Arguments destination {A}.
Arguments send_tag {A}.
Arguments message {A}.
Record recv_op : Type := mkRecv { source : Z; recv_tag : Z; capacity : nat }.

Definition to_whom {A} (dst tag : Z) (s : send_op A) : bool := (destination s =? dst) && (send_tag s =? tag).
Definition from_whom (src tag : Z) (r : recv_op) : bool := (source r =? src) && (recv_tag r =? tag).

(** The message for the [j]-th receive posted by rank [r]: with [k] receives for the same
    source and tag posted before it, the [k]-th message of that source for [r] and the tag. *)
Definition in_order {A} (sends : Z -> list (send_op A)) (recvs : Z -> list recv_op) (r : Z) (j : nat) : option (list (option A)) :=
  op ← recvs r !! j;
  let k := length (filter (fun q => from_whom (source op) (recv_tag op) q) (take j (recvs r))) in
  message <$> filter (fun s => to_whom r (recv_tag op) s) (sends (source op)) !! k.

Class MPI := {
  tag_ub : Z;
  tag_ub_minimum : 32767 <= tag_ub;
  matched {A : Type} : (Z -> list (send_op A)) -> (Z -> list recv_op) -> Z -> nat -> option (list (option A));
  non_overtaking {A} (sends : Z -> list (send_op A)) recvs r j : matched sends recvs r j = in_order sends recvs r j
}.

Record Process (A : Type) : Type := mkProcess {
  plan : Structured_Halo_Plan;
  view : View;
  cells : list (option A)
}.
Arguments mkProcess {A}.
Arguments plan {A}.
Arguments view {A}.
Arguments cells {A}.

(** ** The exchange *)

Fixpoint collect {I B} (f : I -> result B) (l : list I) : result (list B) :=
  match l with
  | [] => Ok []
  | i :: l' => let! b := f i in let! bs := collect f l' in Ok (b :: bs)
  end.

Section Exchange.
Context `{KK : !Kokkos} `{MM : !MPI} {A : Type}.

Definition structured_compute_tag (sender receiver comm_size : Z) : Z :=
  Z.rem (sender * comm_size + receiver) tag_ub.

(** [Kokkos::subview] with the ranges of a region. *)
Definition make_subview (v : View) (r : Region) : result View :=
  if forallb (fun '(g, n) => (0 <=? first g) && (first g <=? second g) && (second g <=? Z.of_nat n)) (zip r (PackUnpack.extents v))
     && (length r =? length (PackUnpack.extents v))%nat
  then Ok (mkView (offset v + displacement ((fun g => Z.to_nat (first g)) <$> r) (strides v))
                  ((fun g => Z.to_nat (second g - first g)) <$> r) (strides v))
  else Undef.

Definition faces (p : Structured_Halo_Plan) : list Z := Z.of_nat <$> seq 0 (num_faces p).

(** The faces that pass [has_neighbor]. *)
Definition active_faces (p : Structured_Halo_Plan) : list Z :=
  filter (fun f => 0 <= neighbor_ranks_ p !!! Z.to_nat f) (faces p).

(** Phase 1 for a face: a fresh buffer with the packed send region. *)
Definition pack_face (pr : Process A) (f : Z) : result (list (option A)) :=
  let! r := send_region (plan pr) f in
  let count := Z.to_nat (size r) in
  let! sub := make_subview (view pr) r in
  pack sub (cells pr) (buffer 0 count) (replicate count None).

(** [MPI_Irecv] and [MPI_Isend] check their arguments. *)
Definition mpi_arguments (count : Z) (peer comm_size : Z) : result unit :=
  throw_if ((to_i32 count <? 0) || (peer <? 0) || (comm_size <=? peer)) runtime_error.

(** Phase 2 for a face. *)
Definition post_recv (comm_size my_rank : Z) (p : Structured_Halo_Plan) (f : Z) : result recv_op :=
  let! r := recv_region p f in
  let! neighbor := neighbor_rank p f in
  let tag := structured_compute_tag neighbor my_rank comm_size in
  do! mpi_arguments (size r) neighbor comm_size then
  Ok (mkRecv neighbor tag (Z.to_nat (to_i32 (size r)))).

(** Phase 3 for a face, with its send buffer. *)
Definition post_send (comm_size my_rank : Z) (p : Structured_Halo_Plan) (fb : Z * list (option A)) : result (send_op A) :=
  let '(f, buf) := fb in
  let! r := send_region p f in
  let! neighbor := neighbor_rank p f in
  let tag := structured_compute_tag my_rank neighbor comm_size in
  do! mpi_arguments (size r) neighbor comm_size then
  Ok (mkSend neighbor tag (take (Z.to_nat (to_i32 (size r))) buf)).

(** Phases 1 to 3: the receives and sends a process posts, in face order. *)
Definition post (comm_size my_rank : Z) (pr : Process A) : result (list recv_op * list (send_op A)) :=
  let fs := active_faces (plan pr) in
  let! bufs := collect (pack_face pr) fs in
  let! recvs := collect (post_recv comm_size my_rank (plan pr)) fs in
  let! sends := collect (post_send comm_size my_rank (plan pr)) (zip fs bufs) in
  Ok (recvs, sends).

(** Phase 5 for a face: the message arrives at the start of a fresh buffer and is unpacked. *)
Definition unpack_face (p : Structured_Halo_Plan) (v : View) (m : list (option A)) (f : Z) (msg : list (option A)) :
    result (list (option A)) :=
  let! r := recv_region p f in
  let count := Z.to_nat (size r) in
  let! sub := make_subview v r in
  unpack (buffer 0 count) (msg ++ drop (length msg) (replicate count None)) sub m.

Fixpoint unpack_faces (p : Structured_Halo_Plan) (v : View) (fs : list (Z * list (option A))) (m : list (option A)) :
    result (list (option A)) :=
  match fs with
  | [] => Ok m
  | (f, msg) :: fs' => let! m' := unpack_face p v m f msg in unpack_faces p v fs' m'
  end.

(** What the processes of a communicator have posted. *)
Definition comm_size (w : list (Process A)) : Z := Z.of_nat (length w).
Definition posted_by (w : list (Process A)) (r : Z) : list recv_op * list (send_op A) :=
  match w !! Z.to_nat r with
  | Some pr => match post (comm_size w) r pr with Ok ops => ops | _ => ([], []) end
  | None => ([], [])
  end.
Definition arrives (w : list (Process A)) (r : Z) (j : nat) : option (list (option A)) :=
  matched (fun s => snd (posted_by w s)) (fun s => fst (posted_by w s)) r j.

(** Phase 4, [MPI_Waitall], for the receives: [None] when one is never matched.  The send
    requests complete when their messages are received. *)
Fixpoint wait_all (recvs : list (recv_op * option (list (option A)))) : option (result (list (list (option A)))) :=
  match recvs with
  | [] => Some (Ok [])
  | (op, msg) :: recvs' =>
      data ← msg;
      rest ← wait_all recvs';
      Some (do! throw_if (capacity op <? length data)%nat runtime_error then let! l := rest in Ok (data :: l))
  end.

(** The call on process [r] of the communicator [w]: the store it leaves, or [None] when it
    never returns. *)
Definition exchange_structured_blocking (w : list (Process A)) (r : nat) (pr : Process A) : option (result (list (option A))) :=
  if active_neighbor_count (plan pr) =? 0 then Some (Ok (cells pr)) else
  match post (comm_size w) (Z.of_nat r) pr with
  | Ok (recvs, _) =>
      data ← wait_all (zip recvs (arrives w (Z.of_nat r) <$> seq 0 (length recvs)));
      Some (let! l := data in unpack_faces (plan pr) (view pr) (zip (active_faces (plan pr)) l) (cells pr))
  | Throw e => Some (Throw e)
  | Undef => Some Undef
  end.
End Exchange.

(** Messages taken strictly in order: an [MPI] that meets the rule. *)
Definition fifo_mpi : MPI.
Proof. refine {| tag_ub := 32767; matched A := in_order |}; [lia|done]. Defined.
