(* ===== verification/ExchangeProps.v ===== *)
(** HALO: correctness of the structured exchange. *)
From Stdlib Require Import ZArith Lia.
From stdpp Require Import base list numbers.
From S2P Require Import Prelude CInt StructuredPlan PackUnpack StructuredExchange.
Local Open Scope Z_scope.

(** ** Lists *)

Lemma collect_ok {I B} (f : I -> result B) (P : I -> B -> Prop) l :
  (forall i, i ∈ l -> exists b, f i = Ok b /\ P i b) -> exists bs, collect f l = Ok bs /\ Forall2 P l bs.
Proof.
  induction l as [|i l IH]; intros H; [by exists []|].
  destruct (H i ltac:(by left)) as (b & E & Hp), IH as (bs & Es & Hps); [intros j Hj; apply H; by right|].
  exists (b :: bs). simpl. rewrite E, Es. by repeat constructor.
Qed.

Lemma filter_none {B} (P : B -> Prop) `{D : !forall x, Decision (P x)} (l : list B) : (forall x, x ∈ l -> ~ P x) -> filter P l = [].
Proof.
  intros H. destruct (filter P l) as [|x l'] eqn:E; [done|]. exfalso.
  assert (Hx : x ∈ filter P l) by (rewrite E; by left).
  apply list_elem_of_filter in Hx as [Hp Hx]. by apply (H x).
Qed.

Lemma filter_unique {B} (P : B -> Prop) `{D : !forall x, Decision (P x)} (l : list B) i x :
  l !! i = Some x -> P x -> (forall j y, l !! j = Some y -> P y -> j = i) -> filter P l = [x].
Proof.
  revert i. induction l as [|z l IH]; intros i Ei Hx Hu; [done|].
  destruct i as [|i]; simpl in Ei.
  - injection Ei as ->. rewrite filter_cons_True by done. f_equal.
    apply filter_none. intros y (j & Ej)%list_elem_of_lookup Hy. by specialize (Hu (S j) y Ej Hy).
  - rewrite filter_cons_False by (intros Hz; by specialize (Hu 0%nat z eq_refl Hz)).
    apply (IH i Ei Hx). intros j y Ej Hy. specialize (Hu (S j) y Ej Hy). lia.
Qed.

Lemma sorted_filter_seq (P : Z -> Prop) `{D : !forall x, Decision (P x)} a n i j x y :
  filter P (Z.of_nat <$> seq a n) !! i = Some x -> filter P (Z.of_nat <$> seq a n) !! j = Some y -> (i < j)%nat -> x < y.
Proof.
  revert a i j. induction n as [|n IH]; intros a i j; [done|]. simpl.
  rewrite !filter_cons. destruct (decide (P (Z.of_nat a))); [|apply IH].
  intros Ei Ej Hij. destruct j as [|j]; [lia|]. simpl in Ej.
  destruct i as [|i]; simpl in Ei; [|apply (IH _ _ _ Ei Ej); lia].
  injection Ei as <-. apply (list_elem_of_lookup_2) in Ej. apply list_elem_of_filter in Ej as [_ Ej].
  apply list_elem_of_fmap in Ej as (k & -> & Hk%elem_of_seq). lia.
Qed.

Lemma lookup_alter_at (f : nat -> nat) (l : list nat) d k :
  alter f d l !! k = (if decide (k = d) then f <$> l !! k else l !! k).
Proof. destruct (decide (k = d)) as [->|]; [apply list_lookup_alter_eq|by apply list_lookup_alter_ne]. Qed.

(** ** Slabs: the sub-views of the face regions *)

Definition slab (v : View) (d a w : nat) : View :=
  mkView (offset v + a * (strides v !!! d)) (<[d := w]> (PackUnpack.extents v)) (strides v).

Lemma displacement_alter a d (j ss : list nat) : length j = length ss -> (d < length j)%nat ->
  displacement (alter (Nat.add a) d j) ss = (a * (ss !!! d) + displacement j ss)%nat.
Proof.
  revert d ss. induction j as [|i j IH]; intros d [|s ss] Hl Hd; simpl in Hl, Hd; try lia.
  destruct d as [|d].
  - change ((a + i) * s + displacement j ss = a * s + (i * s + displacement j ss))%nat. lia.
  - change (i * s + displacement (alter (Nat.add a) d j) ss = a * (ss !!! d) + (i * s + displacement j ss))%nat.
    rewrite IH by lia. lia.
Qed.

Lemma address_slab v d a w j : length (strides v) = length (PackUnpack.extents v) -> in_view (slab v d a w) j ->
  (d < length (PackUnpack.extents v))%nat -> address (slab v d a w) j = address v (alter (Nat.add a) d j).
Proof.
  intros Hl Hj Hd. apply indices_length in Hj. cbn in Hj. rewrite length_insert in Hj.
  unfold address. cbn [offset strides slab]. rewrite displacement_alter by lia. lia.
Qed.

Lemma in_slab v d a w n j : PackUnpack.extents v !! d = Some n -> (a + w <= n)%nat ->
  in_view (slab v d a w) j <-> (exists x, j !! d = Some x /\ (x < w)%nat) /\ in_view v (alter (Nat.add a) d j).
Proof.
  intros En Haw. unfold in_view. rewrite !elem_of_indices. cbn. split.
  - intros H. pose proof (Forall2_length H) as Hl. rewrite length_insert in Hl.
    pose proof (lookup_lt_Some _ _ _ En) as Hd.
    assert (Ew : <[d := w]> (PackUnpack.extents v) !! d = Some w) by (by apply list_lookup_insert_eq).
    destruct (Forall2_lookup_r _ _ _ _ _ H Ew) as (x & Ex & Hx). split; [by exists x|].
    apply Forall2_lookup. intros k. rewrite lookup_alter_at. destruct (decide (k = d)) as [->|Hk].
    + rewrite Ex, En. constructor. simpl. lia.
    + rewrite Forall2_lookup in H. specialize (H k). by rewrite list_lookup_insert_ne in H by done.
  - intros [(x & Ex & Hx) H]. apply Forall2_lookup. intros k. rewrite Forall2_lookup in H. specialize (H k).
    rewrite lookup_alter_at in H. destruct (decide (k = d)) as [->|Hk].
    + rewrite Ex. rewrite list_lookup_insert_eq by (by eapply lookup_lt_Some). by constructor.
    + by rewrite list_lookup_insert_ne by done.
Qed.

Lemma alter_add_inj a d (j j' : list nat) : alter (Nat.add a) d j = alter (Nat.add a) d j' -> j = j'.
Proof.
  intros E. apply list_eq. intros k. assert (Ek : alter (Nat.add a) d j !! k = alter (Nat.add a) d j' !! k) by (by rewrite E).
  rewrite !lookup_alter_at in Ek. destruct (decide (k = d)); [|done].
  destruct (j !! k), (j' !! k); simpl in Ek; try done. injection Ek as Ek. f_equal. lia.
Qed.

Lemma slab_ok v d a w n : view_ok v -> PackUnpack.extents v !! d = Some n -> (a + w <= n)%nat -> view_ok (slab v d a w).
Proof.
  intros (Hl & Hr & Hi) En Haw. pose proof (lookup_lt_Some _ _ _ En) as Hd. unfold view_ok. cbn [strides PackUnpack.extents slab].
  rewrite length_insert. split_and!; try done; try lia.
  intros j j' Hj Hj' E. rewrite !address_slab in E by done.
  apply (alter_add_inj a d). apply Hi; [..|done]; by eapply in_slab.
Qed.

Lemma displacement_region (ext ss : list nat) d a w : length ss = length ext -> (d < length ext)%nat ->
  displacement ((fun g => Z.to_nat (first g)) <$> face_region (Z.of_nat <$> ext) d (mkRange (Z.of_nat a) (Z.of_nat w))) ss
  = (a * (ss !!! d))%nat.
Proof.
  unfold face_region. revert d ss. induction ext as [|n ext IH]; intros d [|s ss] Hl Hd; simpl in Hl, Hd; try lia.
  destruct d as [|d]; simpl.
  - rewrite Nat2Z.id. clear. cut (forall l ss, displacement ((fun g => Z.to_nat (first g)) <$> imap (fun (k : nat) n => mkRange 0 n) l) ss = 0%nat).
    { intros H. rewrite H. lia. }
    intros l. induction l as [|x l IHl]; intros ss'; [done|]. destruct ss' as [|s' ss']; [done|]. simpl. apply (IHl ss').
  - apply (IH d ss); lia.
Qed.

(** ** Sizes *)

Lemma size_mod r : size r = to_u64 (fold_right Z.mul 1 ((fun g => second g - first g) <$> r)).
Proof.
  unfold size. cut (forall s, 0 <= s < 18446744073709551616 ->
    fold_left (fun s g => umul s (usub (second g) (first g))) r s = to_u64 (s * fold_right Z.mul 1 ((fun g => second g - first g) <$> r))).
  { intros H. rewrite H by lia. by rewrite Z.mul_1_l. }
  induction r as [|g r IH]; intros s Hs.
  - cbn. unfold to_u64. rewrite Z.mul_1_r. by rewrite Z.mod_small.
  - cbn [fold_left fmap list_fmap fold_right]. rewrite IH by (apply Z.mod_pos_bound; lia).
    unfold umul, usub, to_u64. rewrite Z.mul_mod_idemp_r, Z.mul_mod_idemp_l by lia. f_equal. ring.
Qed.

Lemma product_Z l : fold_right Z.mul 1 (Z.of_nat <$> l) = Z.of_nat (product l).
Proof. induction l as [|n l IH]; [done|]. unfold product in *. cbn. rewrite IH. lia. Qed.

Lemma product_insert_le l d w n : l !! d = Some n -> (w <= n)%nat -> (product (<[d := w]> l) <= product l)%nat.
Proof.
  unfold product. revert d. induction l as [|x l IH]; intros [|d] E Hw; simpl in *; try done.
  - injection E as ->. nia.
  - specialize (IH d E Hw). nia.
Qed.

Lemma region_widths (ext : list nat) d a w : (d < length ext)%nat ->
  (fun g => second g - first g) <$> face_region (Z.of_nat <$> ext) d (mkRange (Z.of_nat a) (Z.of_nat (a + w)))
  = Z.of_nat <$> <[d := w]> ext.
Proof.
  intros Hd. apply list_eq. intros k. unfold face_region. rewrite !list_lookup_fmap, list_lookup_imap, list_lookup_fmap.
  destruct (decide (k = d)) as [->|Hk].
  - rewrite list_lookup_insert_eq by done. destruct (lookup_lt_is_Some_2 _ _ Hd) as [n ->]. cbn.
    rewrite Nat.eqb_refl. cbn. f_equal. lia.
  - rewrite list_lookup_insert_ne by done. destruct (ext !! k); [|done]. cbn.
    rewrite (proj2 (Nat.eqb_neq _ _) Hk). cbn. f_equal. lia.
Qed.

Lemma size_slab (ext : list nat) d a w n : ext !! d = Some n -> (w <= n)%nat -> Z.of_nat (product ext) < 2147483648 ->
  size (face_region (Z.of_nat <$> ext) d (mkRange (Z.of_nat a) (Z.of_nat (a + w)))) = Z.of_nat (product (<[d := w]> ext)).
Proof.
  intros En Hw Hp. rewrite size_mod, region_widths, product_Z by (by eapply lookup_lt_Some).
  pose proof (product_insert_le _ _ _ _ En Hw). unfold to_u64. apply Z.mod_small. lia.
Qed.

Lemma to_nat_of_nat (l : list nat) : Z.to_nat <$> (Z.of_nat <$> l) = l.
Proof. induction l as [|n l IH]; [done|]. cbn. rewrite Nat2Z.id. f_equal. exact IH. Qed.

Lemma make_subview_slab v d a w n : length (strides v) = length (PackUnpack.extents v) ->
  PackUnpack.extents v !! d = Some n -> (a + w <= n)%nat ->
  make_subview v (face_region (Z.of_nat <$> PackUnpack.extents v) d (mkRange (Z.of_nat a) (Z.of_nat (a + w)))) = Ok (slab v d a w).
Proof.
  intros Hl En Haw. pose proof (lookup_lt_Some _ _ _ En) as Hd.
  unfold make_subview. rewrite length_face_region, length_fmap, Nat.eqb_refl, andb_true_r.
  replace (forallb _ _) with true; [|symmetry; apply forallb_forall].
  - f_equal. unfold slab. f_equal.
    + by rewrite displacement_region by done.
    + pose proof (region_widths (PackUnpack.extents v) d a w Hd) as Ew.
      apply (f_equal (fmap Z.to_nat)) in Ew. rewrite to_nat_of_nat, <- list_fmap_compose in Ew. exact Ew.
  - intros [g m] Hin%list_elem_of_In. apply list_elem_of_lookup in Hin as (k & Ek).
    unfold face_region in Ek. rewrite lookup_zip_with, list_lookup_imap, list_lookup_fmap in Ek.
    destruct (PackUnpack.extents v !! k) as [m'|] eqn:Em; [|done]. cbn in Ek.
    injection Ek as <- <-. destruct (Nat.eqb_spec k d) as [->|]; cbn.
    + replace m' with n by congruence. rewrite !(proj2 (Z.leb_le _ _)) by lia. done.
    + rewrite !(proj2 (Z.leb_le _ _)) by lia. done.
Qed.

(** ** The faces of a plan in element counts *)

Definition axis (k : nat) : nat := k / 2.
Definition opposite (k : nat) : nat := if Nat.even k then S k else pred k.
Definition send_start (n h k : nat) : nat := if Nat.even k then h else n - 2 * h.
Definition recv_start (n h k : nat) : nat := if Nat.even k then 0 else n - h.

(** The slab a face sends and the one it receives, of a view whose dimension [axis k] has
    [n] cells and halo width [h]. *)
Definition send_slab (v : View) (n h k : nat) : View := slab v (axis k) (send_start n h k) h.
Definition recv_slab (v : View) (n h k : nat) : View := slab v (axis k) (recv_start n h k) h.

Lemma face_parity k : (Nat.even k = true /\ k = 2 * axis k)%nat \/ (Nat.even k = false /\ k = 2 * axis k + 1)%nat.
Proof.
  unfold axis. pose proof (Nat.div_mod_eq k 2) as E. pose proof (Nat.mod_upper_bound k 2 ltac:(lia)) as B.
  destruct (Nat.even k) eqn:Ev; [left|right]; (split; [done|]).
  - apply Nat.even_spec in Ev as [m ->]. rewrite Nat.mul_comm, Nat.div_mul by lia. lia.
  - assert (Ho : Nat.odd k = true) by (unfold Nat.odd; by rewrite Ev). apply Nat.odd_spec in Ho as [m ->].
    rewrite (Nat.mul_comm 2 m), Nat.div_add_l by lia. simpl. lia.
Qed.

Lemma axis_even m : axis (2 * m) = m.
Proof. unfold axis. rewrite Nat.mul_comm. by apply Nat.div_mul. Qed.
Lemma axis_odd m : axis (2 * m + 1) = m.
Proof. unfold axis. rewrite (Nat.mul_comm 2 m), Nat.div_add_l by lia. simpl. lia. Qed.
Lemma even_even m : Nat.even (2 * m) = true.
Proof. apply Nat.even_spec. by exists m. Qed.
Lemma even_odd m : Nat.even (2 * m + 1) = false.
Proof. rewrite Nat.add_1_r, Nat.even_succ. unfold Nat.odd. by rewrite even_even. Qed.

Lemma opposite_axis k : axis (opposite k) = axis k /\ opposite (opposite k) = k /\ Nat.even (opposite k) = negb (Nat.even k).
Proof.
  unfold opposite. destruct (face_parity k) as [[Ev E]|[Ev E]]; rewrite Ev; cbn [negb]; revert E; generalize (axis k) as m; intros m ->.
  - replace (S (2 * m)) with (2 * m + 1)%nat by lia. rewrite axis_odd, even_odd. split_and!; try done; lia.
  - replace (pred (2 * m + 1)) with (2 * m)%nat by lia. rewrite axis_even, even_even. split_and!; try done; lia.
Qed.

(** ** Uniform communicators *)

(** All processes have plans built with the same extents and widths, views of those
    extents with the same strides, and initialised cells. *)
Definition uniform {A} (ext wid ss : list nat) (pr : Process A) : Prop :=
  length (neighbor_ranks_ (plan pr)) = (2 * length ext)%nat /\
  structured_halo_plan (Z.of_nat <$> ext) (neighbor_ranks_ (plan pr)) (Z.of_nat <$> wid) = Ok (plan pr) /\
  PackUnpack.extents (view pr) = ext /\ strides (view pr) = ss /\ view_ok (view pr) /\ readable (view pr) (cells pr).

(** Twice the width fits in each extent, and counts fit in an [int]. *)
Definition grid_ok (ext wid : list nat) : Prop :=
  length wid = length ext /\ Forall2 (fun n h => 2 * h <= n)%nat ext wid /\
  Forall (fun n => Z.of_nat n < 2147483648) ext /\ Z.of_nat (product ext) < 2147483648.

Section Uniform.
Context {A : Type} (ext wid ss : list nat).
Hypothesis Hgrid : grid_ok ext wid.

Lemma grid_bound k n h : ext !! k = Some n -> wid !! k = Some h -> (2 * h <= n)%nat.
Proof. destruct Hgrid as (_ & Hf & _). intros En Eh. by apply (Forall2_lookup_lr _ _ _ _ _ _ Hf En Eh). Qed.

Lemma axis_lookup k : (k < 2 * length ext)%nat -> exists n h, ext !! axis k = Some n /\ wid !! axis k = Some h.
Proof.
  intros Hk. destruct Hgrid as (Hl & _).
  assert (Ha : (axis k < length ext)%nat) by (destruct (face_parity k) as [[_ E]|[_ E]]; lia).
  destruct (lookup_lt_is_Some_2 _ _ Ha) as [n En].
  destruct (lookup_lt_is_Some_2 wid (axis k) ltac:(lia)) as [h Eh]. by exists n, h.
Qed.

Lemma plan_built (pr : Process A) : uniform ext wid ss pr ->
  extents_ (plan pr) = Z.of_nat <$> ext /\ lays_out (Z.of_nat <$> ext) (Z.of_nat <$> wid) (plan pr).
Proof.
  destruct Hgrid as (Hl & Hf & Hb & _). intros (Hn & Hp & _).
  destruct (construct_spec (Z.of_nat <$> ext) (neighbor_ranks_ (plan pr)) (Z.of_nat <$> wid)) as (p & Ep & E1 & _ & _ & _ & _ & Hlay).
  - split; rewrite !length_fmap; lia.
  - split; apply Forall_fmap; rewrite list.Forall_forall; unfold compose.
    + intros n Hin. rewrite list.Forall_forall in Hb. specialize (Hb n Hin). simpl in Hb. lia.
    + intros h (i & Eh)%list_elem_of_lookup. destruct (lookup_lt_is_Some_2 ext i) as [n En].
      { rewrite <- Hl. by eapply lookup_lt_Some. }
      pose proof (grid_bound i n h En Eh). pose proof (Forall_lookup_1 _ _ _ _ Hb En) as Bn. simpl in Bn. lia.
  - apply Forall2_fmap. eapply Forall2_impl; [|exact Hf]. simpl. lia.
  - rewrite Hp in Ep. injection Ep as <-. done.
Qed.

Lemma plan_face (pr : Process A) k n h : uniform ext wid ss pr -> (k < 2 * length ext)%nat ->
  ext !! axis k = Some n -> wid !! axis k = Some h ->
  send_region (plan pr) (Z.of_nat k) =
    Ok (face_region (Z.of_nat <$> ext) (axis k) (mkRange (Z.of_nat (send_start n h k)) (Z.of_nat (send_start n h k + h)))) /\
  recv_region (plan pr) (Z.of_nat k) =
    Ok (face_region (Z.of_nat <$> ext) (axis k) (mkRange (Z.of_nat (recv_start n h k)) (Z.of_nat (recv_start n h k + h)))) /\
  neighbor_rank (plan pr) (Z.of_nat k) = Ok (neighbor_ranks_ (plan pr) !!! k).
Proof.
  intros Hu Hk En Eh. destruct (plan_built pr Hu) as [Ee Hlay].
  assert (Ec : check_face_idx (plan pr) (Z.of_nat k) = Ok tt).
  { unfold check_face_idx, num_faces, rank_of. rewrite Ee, length_fmap.
    destruct (Z.ltb_spec (Z.of_nat k) 0), (Z.geb_spec (Z.of_nat k) (Z.of_nat (2 * length ext))); done || lia. }
  pose proof (grid_bound _ _ _ En Eh) as Hb.
  destruct (Hlay (axis k) (Z.of_nat n) (Z.of_nat h)) as (S1 & R1 & S2 & R2); [by rewrite list_lookup_fmap, ?En, ?Eh..|].
  unfold send_region, recv_region, neighbor_rank. rewrite Ec. cbn [bind]. rewrite Nat2Z.id.
  unfold send_start, recv_start.
  destruct (face_parity k) as [[Ev E]|[Ev E]]; rewrite Ev; rewrite <- E in *.
  - rewrite (list_lookup_total_correct _ _ _ S1), (list_lookup_total_correct _ _ _ R1).
    split_and!; try reflexivity; do 3 f_equal; lia.
  - rewrite (list_lookup_total_correct _ _ _ S2), (list_lookup_total_correct _ _ _ R2).
    split_and!; try reflexivity; do 3 f_equal; lia.
Qed.

Lemma start_bounds k n h : (2 * h <= n)%nat -> (send_start n h k + h <= n /\ recv_start n h k + h <= n)%nat.
Proof. unfold send_start, recv_start. destruct (Nat.even k); lia. Qed.
End Uniform.

(** ** What a process posts *)

Section Posting.
Context `{KK : !Kokkos} `{MM : !MPI} {A : Type} (ext wid ss : list nat).
Hypothesis Hgrid : grid_ok ext wid.

Definition neighbor (pr : Process A) (f : Z) : Z := neighbor_ranks_ (plan pr) !!! Z.to_nat f.

Lemma elem_of_active (pr : Process A) f : uniform ext wid ss pr ->
  f ∈ active_faces (plan pr) <-> exists k, f = Z.of_nat k /\ (k < 2 * length ext)%nat /\ 0 <= neighbor pr f.
Proof.
  intros Hu. unfold active_faces, faces, num_faces, rank_of. rewrite (proj1 (plan_built ext wid ss Hgrid pr Hu)), length_fmap.
  rewrite list_elem_of_filter, list_elem_of_fmap. unfold neighbor. split.
  - intros [Hn (k & -> & Hk%elem_of_seq)]. exists k. split_and!; [done|lia|done].
  - intros (k & -> & Hk & Hn). split; [done|]. exists k. rewrite elem_of_seq. split; [done|lia].
Qed.

(** The content of a send buffer: the cells of the slab, each in its slot. *)
Definition packed (pr : Process A) (n h k : nat) (buf : list (option A)) : Prop :=
  length buf = product (<[axis k := h]> ext) /\
  forall j, in_view (send_slab (view pr) n h k) j ->
    buf !! slot (send_slab (view pr) n h k) j = cells pr !! address (send_slab (view pr) n h k) j.

Lemma face_size k n h a : (k < 2 * length ext)%nat -> ext !! axis k = Some n -> wid !! axis k = Some h ->
  size (face_region (Z.of_nat <$> ext) (axis k) (mkRange (Z.of_nat a) (Z.of_nat (a + h)))) = Z.of_nat (product (<[axis k := h]> ext)) /\
  Z.of_nat (product (<[axis k := h]> ext)) < 2147483648.
Proof.
  intros Hk En Eh. pose proof (grid_bound _ _ Hgrid _ _ _ En Eh) as Hb. destruct Hgrid as (_ & _ & _ & Hp).
  pose proof (product_insert_le ext (axis k) h n En ltac:(lia)). split; [|lia]. apply (size_slab _ _ _ _ n); [done|lia|done].
Qed.

Lemma pack_face_spec (pr : Process A) k n h : uniform ext wid ss pr -> (k < 2 * length ext)%nat ->
  ext !! axis k = Some n -> wid !! axis k = Some h ->
  exists buf, pack_face pr (Z.of_nat k) = Ok buf /\ packed pr n h k buf.
Proof.
  intros Hu Hk En Eh. unfold pack_face.
  destruct (plan_face ext wid ss Hgrid pr k n h Hu Hk En Eh) as (-> & _ & _). cbn [bind].
  pose proof (start_bounds k n h (grid_bound _ _ Hgrid _ _ _ En Eh)) as [Hs _].
  destruct (face_size k n h (send_start n h k) Hk En Eh) as [-> _]. rewrite Nat2Z.id.
  destruct Hu as (_ & _ & Ee & Es & Hv & Hr).
  rewrite <- Ee in En |- *. rewrite (make_subview_slab _ _ _ _ n) by (try done; apply Hv). cbn [bind].
  fold (send_slab (view pr) n h k). set (sub := send_slab (view pr) n h k).
  set (count := product (<[axis k:=h]> (PackUnpack.extents (view pr)))).
  assert (Hsub : view_ok sub) by (by eapply slab_ok).
  destruct (pack_copies sub 0 count (cells pr) (replicate count None) Hsub) as (buf & E & El & Hin & _).
  - intros j Hj. unfold sub, send_slab in Hj |- *. rewrite address_slab; [|apply Hv|done|by eapply lookup_lt_Some].
    apply Hr. by eapply in_slab.
  - rewrite length_replicate. done.
  - exists buf. split; [exact E|]. split; [by rewrite El, length_replicate, <- Ee|]. exact Hin.
Qed.

(** The receive and the send of a face. *)
Definition expects (np r : Z) (pr : Process A) (f : Z) (op : recv_op) : Prop :=
  source op = neighbor pr f /\ recv_tag op = structured_compute_tag (neighbor pr f) r np /\
  capacity op = product (<[axis (Z.to_nat f) := wid !!! axis (Z.to_nat f)]> ext).
Definition ships (np r : Z) (pr : Process A) (f : Z) (s : send_op A) : Prop :=
  destination s = neighbor pr f /\ send_tag s = structured_compute_tag r (neighbor pr f) np /\
  forall n h, ext !! axis (Z.to_nat f) = Some n -> wid !! axis (Z.to_nat f) = Some h -> packed pr n h (Z.to_nat f) (message s).

Lemma int_id z : 0 <= z < 2147483648 -> to_i32 z = z.
Proof. intros Hz. apply to_i32_id. cbn. lia. Qed.

Lemma arguments_ok count peer np : 0 <= count < 2147483648 -> 0 <= peer < np -> mpi_arguments count peer np = Ok tt.
Proof.
  intros Hc Hp. unfold mpi_arguments. rewrite int_id by lia.
  destruct (Z.ltb_spec count 0), (Z.ltb_spec peer 0), (Z.leb_spec np peer); try reflexivity; lia.
Qed.

Lemma post_spec (np r : Z) (pr : Process A) : uniform ext wid ss pr ->
  (forall f, f ∈ active_faces (plan pr) -> neighbor pr f < np) ->
  exists recvs sends, post np r pr = Ok (recvs, sends) /\
    Forall2 (expects np r pr) (active_faces (plan pr)) recvs /\ Forall2 (ships np r pr) (active_faces (plan pr)) sends.
Proof.
  intros Hu Hnb. unfold post. set (fs := active_faces (plan pr)) in *.
  destruct (collect_ok (pack_face pr) (fun f buf => forall n h, ext !! axis (Z.to_nat f) = Some n -> wid !! axis (Z.to_nat f) = Some h ->
     packed pr n h (Z.to_nat f) buf) fs) as (bufs & -> & Hbufs).
  { intros f Hf. apply elem_of_active in Hf as (k & -> & Hk & _); [|done]. rewrite Nat2Z.id.
    destruct (axis_lookup ext wid Hgrid k Hk) as (n & h & En & Eh).
    destruct (pack_face_spec pr k n h Hu Hk En Eh) as (buf & E & Hp). exists buf. split; [done|].
    intros n' h' En' Eh'. congruence. }
  destruct (collect_ok (post_recv np r (plan pr)) (expects np r pr) fs) as (recvs & -> & Hrecvs).
  { intros f Hf. pose proof (Hnb f Hf) as Hlt. apply elem_of_active in Hf as (k & -> & Hk & Hn); [|done].
    destruct (axis_lookup ext wid Hgrid k Hk) as (n & h & En & Eh).
    destruct (plan_face ext wid ss Hgrid pr k n h Hu Hk En Eh) as (_ & Er & En').
    unfold post_recv. rewrite Er, En'. cbn [bind]. destruct (face_size k n h (recv_start n h k) Hk En Eh) as [-> Hb].
    unfold neighbor in Hlt, Hn. rewrite Nat2Z.id in Hlt, Hn.
    rewrite arguments_ok by lia. cbn [bind]. eexists. split; [reflexivity|].
    unfold expects, neighbor. rewrite Nat2Z.id. cbn [source recv_tag capacity]. split_and!; try done.
    rewrite int_id by lia. rewrite Nat2Z.id. by rewrite (list_lookup_total_correct _ _ _ Eh). }
  cbn [bind].
  destruct (collect_ok (post_send np r (plan pr)) (fun fb s => ships np r pr (fst fb) s) (zip fs bufs)) as (sends & -> & Hsends).
  { intros [f buf] Hin. apply list_elem_of_lookup in Hin as (i & Ei). rewrite lookup_zip_with in Ei.
    destruct (fs !! i) as [f'|] eqn:Ef, (bufs !! i) as [buf'|] eqn:Eb; cbn in Ei; try done. injection Ei as -> ->.
    pose proof (Forall2_lookup_lr _ _ _ _ _ _ Hbufs Ef Eb) as Hpk. cbv beta in Hpk.
    apply list_elem_of_lookup_2 in Ef as Hf. pose proof (Hnb f Hf) as Hlt. apply elem_of_active in Hf as (k & -> & Hk & Hn); [|done].
    destruct (axis_lookup ext wid Hgrid k Hk) as (n & h & En & Eh).
    destruct (plan_face ext wid ss Hgrid pr k n h Hu Hk En Eh) as (Er & _ & En').
    unfold post_send. rewrite Er, En'. cbn [bind]. destruct (face_size k n h (send_start n h k) Hk En Eh) as [-> Hb].
    unfold neighbor in Hlt, Hn. rewrite Nat2Z.id in Hlt, Hn, Hpk.
    rewrite arguments_ok by lia. cbn [bind]. eexists. split; [reflexivity|].
    unfold ships, neighbor. cbn [fst destination send_tag message]. rewrite Nat2Z.id. split_and!; try done.
    destruct (Hpk n h En Eh) as [El _]. rewrite int_id by lia. rewrite Nat2Z.id, <- El, firstn_all. exact Hpk. }
  exists recvs, sends. split_and!; [done|done|].
  pose proof (Forall2_length Hbufs) as L1. pose proof (Forall2_length Hsends) as L2. rewrite length_zip_with in L2.
  apply Forall2_same_length_lookup. split; [lia|]. intros i f s Ef Es.
  destruct (lookup_lt_is_Some_2 bufs i) as [b Eb]; [rewrite <- L1; by eapply lookup_lt_Some|].
  assert (Ez : zip fs bufs !! i = Some (f, b)) by (rewrite lookup_zip_with, Ef, Eb; done).
  exact (Forall2_lookup_lr _ _ _ _ _ _ Hsends Ez Es).
Qed.
End Posting.

(** ** What arrives *)

(** Neighbors point at each other across a face. *)
Definition linked {A} (ext : list nat) (w : list (Process A)) : Prop :=
  forall r pr k, w !! r = Some pr -> (k < 2 * length ext)%nat -> 0 <= neighbor_ranks_ (plan pr) !!! k ->
    exists s pr', neighbor_ranks_ (plan pr) !!! k = Z.of_nat s /\ w !! s = Some pr' /\
      neighbor_ranks_ (plan pr') !!! opposite k = Z.of_nat r.

(** No process has the same neighbor on two faces. *)
Definition distinct_neighbors {A} (ext : list nat) (w : list (Process A)) : Prop :=
  forall r pr k k', w !! r = Some pr -> (k < 2 * length ext)%nat -> (k' < 2 * length ext)%nat ->
    0 <= neighbor_ranks_ (plan pr) !!! k -> neighbor_ranks_ (plan pr) !!! k = neighbor_ranks_ (plan pr) !!! k' -> k = k'.

Section Arriving.
Context `{KK : !Kokkos} `{MM : !MPI} {A : Type} (ext wid ss : list nat) (w : list (Process A)).
Hypothesis Hgrid : grid_ok ext wid.
Hypothesis Huni : forall r pr, w !! r = Some pr -> uniform ext wid ss pr.
Hypothesis Hlink : linked ext w.
Hypothesis Hdist : distinct_neighbors ext w.

Lemma active_inv r (pr : Process A) i f : w !! r = Some pr -> active_faces (plan pr) !! i = Some f ->
  exists k, f = Z.of_nat k /\ (k < 2 * length ext)%nat /\ 0 <= neighbor_ranks_ (plan pr) !!! k.
Proof.
  intros Er Ef. apply list_elem_of_lookup_2 in Ef. apply (elem_of_active ext wid ss Hgrid pr f (Huni _ _ Er)) in Ef as (k & -> & Hk & Hn).
  exists k. unfold neighbor in Hn. rewrite Nat2Z.id in Hn. done.
Qed.

Lemma active_at r pr k : w !! r = Some pr -> (k < 2 * length ext)%nat -> 0 <= neighbor_ranks_ (plan pr) !!! k ->
  exists i, active_faces (plan pr) !! i = Some (Z.of_nat k).
Proof.
  intros Er Hk Hn. apply list_elem_of_lookup_1. apply (elem_of_active ext wid ss Hgrid pr _ (Huni _ _ Er)).
  exists k. unfold neighbor. by rewrite Nat2Z.id.
Qed.

Lemma active_order (pr : Process A) i j f g : active_faces (plan pr) !! i = Some f -> active_faces (plan pr) !! j = Some g -> (i < j)%nat -> f < g.
Proof. apply sorted_filter_seq. Qed.

Lemma posted_spec r pr : w !! r = Some pr ->
  exists recvs sends, post (comm_size w) (Z.of_nat r) pr = Ok (recvs, sends) /\ posted_by w (Z.of_nat r) = (recvs, sends) /\
    Forall2 (expects ext wid (comm_size w) (Z.of_nat r) pr) (active_faces (plan pr)) recvs /\
    Forall2 (ships ext wid (comm_size w) (Z.of_nat r) pr) (active_faces (plan pr)) sends.
Proof.
  intros Er. destruct (post_spec ext wid ss Hgrid (comm_size w) (Z.of_nat r) pr (Huni _ _ Er)) as (recvs & sends & E & H1 & H2).
  - intros f (i & Ef)%list_elem_of_lookup. destruct (active_inv r pr i f Er Ef) as (k & -> & Hk & Hn).
    destruct (Hlink r pr k Er Hk Hn) as (s & pr' & Es & Ew & _). unfold neighbor, comm_size. rewrite Nat2Z.id, Es.
    apply lookup_lt_Some in Ew. lia.
  - exists recvs, sends. split_and!; try done. unfold posted_by. by rewrite Nat2Z.id, Er, E.
Qed.

Lemma arrives_spec r pr i k s pr' n h : w !! r = Some pr -> active_faces (plan pr) !! i = Some (Z.of_nat k) ->
  neighbor_ranks_ (plan pr) !!! k = Z.of_nat s -> w !! s = Some pr' -> neighbor_ranks_ (plan pr') !!! opposite k = Z.of_nat r ->
  ext !! axis k = Some n -> wid !! axis k = Some h ->
  exists msg, arrives w (Z.of_nat r) i = Some msg /\ packed ext pr' n h (opposite k) msg.
Proof.
  intros Er Ef Es Ew Eo En Eh.
  destruct (posted_spec r pr Er) as (recvs & sends & _ & Ep & Hrecvs & _).
  destruct (posted_spec s pr' Ew) as (recvs' & sends' & _ & Ep' & _ & Hsends').
  destruct (active_inv r pr i _ Er Ef) as (k0 & <-%Nat2Z.inj & Hk & Hn).
  destruct (Forall2_lookup_l _ _ _ _ _ Hrecvs Ef) as (op & Eop & Hsrc & Htag & _).
  unfold neighbor in Hsrc, Htag. rewrite Nat2Z.id, Es in Hsrc, Htag.
  assert (Hko : (opposite k < 2 * length ext)%nat).
  { destruct (opposite_axis k) as (Ea & _). destruct (face_parity (opposite k)) as [[_ E]|[_ E]], (face_parity k) as [[_ F]|[_ F]]; lia. }
  destruct (active_at s pr' (opposite k) Ew Hko ltac:(lia)) as (i' & Ei').
  destruct (Forall2_lookup_l _ _ _ _ _ Hsends' Ei') as (snd' & Esnd & Hdst & Htag' & Hpk).
  unfold neighbor in Hdst, Htag'. rewrite Nat2Z.id, Eo in Hdst, Htag'. rewrite Nat2Z.id in Hpk.
  exists (message snd'). split; [|by apply Hpk; rewrite (proj1 (opposite_axis k))].
  unfold arrives. rewrite non_overtaking. unfold in_order. rewrite Ep. cbn [fst]. rewrite Eop. cbn [option_bind mbind].
  rewrite filter_none; cbn [length].
  - rewrite Hsrc, Ep'. cbn [snd].
    rewrite (filter_unique _ sends' i' snd' Esnd).
    + done.
    + unfold to_whom. rewrite Hdst, Htag', Htag, !Z.eqb_refl. done.
    + intros j y Ej Hy. unfold to_whom in Hy. apply andb_prop_elim in Hy as [Hy%Is_true_true _]. apply Z.eqb_eq in Hy.
      destruct (Forall2_lookup_r _ _ _ _ _ Hsends' Ej) as (g & Eg & Hg & _).
      destruct (active_inv s pr' j g Ew Eg) as (kg & -> & Hkg & Hng). unfold neighbor in Hg. rewrite Nat2Z.id in Hg.
      assert (Ek : kg = opposite k) by (apply (Hdist s pr' kg (opposite k) Ew Hkg Hko Hng); congruence). subst kg.
      destruct (lt_eq_lt_dec j i') as [[Hlt|]|Hlt]; [|done|]; [pose proof (active_order _ _ _ _ _ Eg Ei' Hlt)|pose proof (active_order _ _ _ _ _ Ei' Eg Hlt)]; lia.
  - intros q Hq Hf. unfold from_whom in Hf. apply andb_prop_elim in Hf as [Hf%Is_true_true _]. apply Z.eqb_eq in Hf.
    apply elem_of_take in Hq as (j & Ej & Hj).
    destruct (Forall2_lookup_r _ _ _ _ _ Hrecvs Ej) as (g & Eg & Hg & _).
    destruct (active_inv r pr j g Er Eg) as (kg & -> & Hkg & Hng). unfold neighbor in Hg. rewrite Nat2Z.id in Hg.
    assert (Ek : kg = k) by (apply (Hdist r pr kg k Er Hkg Hk Hng); congruence). subst kg.
    pose proof (active_order _ _ _ _ _ Eg Ef Hj). lia.
Qed.
End Arriving.

(** ** Unpacking *)

(** The cells a face receives: halo cells of its side, by index tuple. *)
Definition in_ghost (ext wid : list nat) (k : nat) (idx : list nat) : Prop :=
  exists n h i, ext !! axis k = Some n /\ wid !! axis k = Some h /\ idx !! axis k = Some i /\
    (recv_start n h k <= i < recv_start n h k + h)%nat.

(** The cell of the neighbor a halo cell mirrors. *)
Definition mirror (n h k : nat) (idx : list nat) : list nat :=
  alter (fun i => send_start n h (opposite k) + (i - recv_start n h k))%nat (axis k) idx.

Section Unpacking.
Context `{KK : !Kokkos} {A : Type} (ext wid ss : list nat).
Hypothesis Hgrid : grid_ok ext wid.

(** A message with one initialised cell per element of the face. *)
Definition complete (k : nat) (msg : list (option A)) : Prop :=
  forall h, wid !! axis k = Some h -> length msg = product (<[axis k := h]> ext) /\
    (forall i, (i < length msg)%nat -> exists x, msg !! i = Some (Some x)).

Lemma slab_index v d a b h n idx i : PackUnpack.extents v !! d = Some n -> (a + h <= n)%nat -> idx !! d = Some i -> (a <= i < a + h)%nat ->
  in_view v idx -> exists j, in_view (slab v d a h) j /\ alter (Nat.add a) d j = idx /\
    alter (Nat.add b) d j = alter (fun i => b + (i - a))%nat d idx.
Proof.
  intros En Hb Ei Hi Hv. exists (alter (fun x => x - a)%nat d idx).
  assert (E1 : alter (Nat.add a) d (alter (fun x => x - a)%nat d idx) = idx).
  { apply list_eq. intros k. rewrite !lookup_alter_at. destruct (decide (k = d)) as [->|]; [|done].
    rewrite Ei. cbn. f_equal. lia. }
  split_and!; [|done|].
  - eapply in_slab; [done|done|]. rewrite E1. split; [|done]. exists (i - a)%nat.
    rewrite lookup_alter_at, decide_True, Ei by done. split; [done|lia].
  - apply list_eq. intros k. rewrite !lookup_alter_at. destruct (decide (k = d)) as [->|]; [|done].
    rewrite Ei. done.
Qed.

Lemma slab_ghost (v : View) k n h j : PackUnpack.extents v = ext -> ext !! axis k = Some n -> wid !! axis k = Some h ->
  in_view (recv_slab v n h k) j -> in_view v (alter (Nat.add (recv_start n h k)) (axis k) j) /\
  in_ghost ext wid k (alter (Nat.add (recv_start n h k)) (axis k) j).
Proof.
  intros Ee En Eh Hj. pose proof (start_bounds k n h (grid_bound _ _ Hgrid _ _ _ En Eh)) as [_ Hb].
  unfold recv_slab in Hj. rewrite <- Ee in En.
  apply (in_slab _ _ _ _ n) in Hj as [(x & Ex & Hx) Hj]; [|done|done]. split; [done|].
  exists n, h, (recv_start n h k + x)%nat. rewrite <- Ee, lookup_alter_at, decide_True, Ex by done.
  split_and!; try done; cbn; lia.
Qed.

Lemma unpack_face_spec (pr : Process A) k n h m msg : uniform ext wid ss pr -> (k < 2 * length ext)%nat ->
  ext !! axis k = Some n -> wid !! axis k = Some h -> complete k msg -> length m = length (cells pr) ->
  exists m', unpack_face (plan pr) (view pr) m (Z.of_nat k) msg = Ok m' /\ length m' = length m /\
    (forall j, in_view (recv_slab (view pr) n h k) j ->
       m' !! address (recv_slab (view pr) n h k) j = msg !! slot (recv_slab (view pr) n h k) j) /\
    (forall a, (forall idx, in_view (view pr) idx -> in_ghost ext wid k idx -> address (view pr) idx <> a) -> m' !! a = m !! a).
Proof.
  intros Hu Hk En Eh Hc Hm. unfold unpack_face.
  destruct (plan_face ext wid ss Hgrid pr k n h Hu Hk En Eh) as (_ & -> & _). cbn [bind].
  pose proof (start_bounds k n h (grid_bound _ _ Hgrid _ _ _ En Eh)) as [_ Hs].
  destruct (face_size ext wid Hgrid k n h (recv_start n h k) Hk En Eh) as [-> _]. rewrite Nat2Z.id.
  destruct (Hc h Eh) as [El Hi]. rewrite El, drop_ge, app_nil_r by (rewrite length_replicate; lia).
  destruct Hu as (_ & _ & Ee & Es & Hv & Hr). assert (Ev : PackUnpack.extents (view pr) !! axis k = Some n) by (by rewrite Ee).
  replace (face_region (Z.of_nat <$> ext)) with (face_region (Z.of_nat <$> PackUnpack.extents (view pr))) by (by rewrite Ee).
  rewrite (make_subview_slab _ _ _ _ n) by (try done; apply Hv). cbn [bind].
  fold (recv_slab (view pr) n h k). set (sub := recv_slab (view pr) n h k).
  assert (Ha : forall j, in_view sub j -> address sub j = address (view pr) (alter (Nat.add (recv_start n h k)) (axis k) j)).
  { intros j Hj. apply address_slab; [apply Hv|done|by eapply lookup_lt_Some]. }
  destruct (unpack_copies sub 0 (product (<[axis k:=h]> ext)) msg m) as (m' & E & El' & Hin & Hout).
  - by eapply slab_ok.
  - intros j Hj. rewrite Ha by done. destruct (slab_ghost (view pr) k n h j Ee En Eh Hj) as [Hv' _].
    destruct (Hr _ Hv') as (x & Ex). rewrite Hm. by eapply lookup_lt_Some.
  - intros i Hlt. apply Hi. rewrite El. unfold view_size, sub in Hlt. cbn in Hlt. by rewrite <- Ee.
  - exists m'. split_and!; try done. intros a Hna. apply Hout. intros j Hj.
    rewrite Ha by done. by apply Hna; apply (slab_ghost (view pr) k n h j Ee En Eh Hj).
Qed.

(** The loop over the faces: the last face that receives a cell decides it. *)
Lemma unpack_faces_spec (pr : Process A) l m : uniform ext wid ss pr -> length m = length (cells pr) ->
  (forall f msg, (f, msg) ∈ l -> exists k, f = Z.of_nat k /\ (k < 2 * length ext)%nat /\ complete k msg) ->
  exists m', unpack_faces (plan pr) (view pr) l m = Ok m' /\ length m' = length (cells pr) /\
    (forall i k msg n h j, l !! i = Some (Z.of_nat k, msg) -> ext !! axis k = Some n -> wid !! axis k = Some h ->
       in_view (recv_slab (view pr) n h k) j ->
       (forall i' k' msg', (i < i')%nat -> l !! i' = Some (Z.of_nat k', msg') ->
          ~ in_ghost ext wid k' (alter (Nat.add (recv_start n h k)) (axis k) j)) ->
       m' !! address (recv_slab (view pr) n h k) j = msg !! slot (recv_slab (view pr) n h k) j) /\
    (forall a, (forall k msg idx, (Z.of_nat k, msg) ∈ l -> in_view (view pr) idx -> in_ghost ext wid k idx -> address (view pr) idx <> a) ->
       m' !! a = m !! a).
Proof.
  intros Hu. revert m. induction l as [|[f msg] l IH]; intros m Hm Hl.
  { exists m. by split_and!. }
  destruct (Hl f msg ltac:(by left)) as (k & -> & Hk & Hc).
  destruct (axis_lookup ext wid Hgrid k Hk) as (n & h & En & Eh).
  destruct (unpack_face_spec pr k n h m msg Hu Hk En Eh Hc Hm) as (m1 & E1 & L1 & In1 & Out1).
  destruct (IH m1 ltac:(lia)) as (m' & E & El & Hin & Hout); [intros f' msg' H; apply Hl; by right|].
  exists m'. simpl. rewrite E1. cbn [bind]. split_and!; [done|done| |].
  - intros [|i] k0 msg0 n0 h0 j Ei En0 Eh0 Hj Hlast.
    + injection Ei as Ek <-. apply Nat2Z.inj in Ek as ->. replace n0 with n in * by congruence. replace h0 with h in * by congruence.
      rewrite Hout; [by apply In1|]. intros k1 msg1 idx (i & Ei)%list_elem_of_lookup Hv Hg Ea.
      apply (Hlast (S i) k1 msg1 ltac:(lia) Ei). destruct Hu as (_ & _ & Ee & _ & Hview & _).
      destruct (slab_ghost (view pr) k0 n h j Ee En0 Eh0 Hj) as [Hv' _].
      unfold recv_slab in Ea. rewrite (address_slab (view pr)) in Ea; [|apply Hview|done|rewrite Ee; by eapply lookup_lt_Some].
      destruct Hview as (_ & _ & Hinj). by rewrite <- (Hinj _ _ Hv Hv' Ea).
    + apply (Hin i); try done. intros i' k' msg' Hi' El'. by apply (Hlast (S i') k' msg'); [lia|].
  - intros a Ha. rewrite Hout.
    + apply Out1. intros idx. apply (Ha k msg). by left.
    + intros k' msg' idx H. apply (Ha k' msg'). by right.
Qed.
End Unpacking.

(** ** The whole exchange *)

Section Whole.
Context `{KK : !Kokkos} `{MM : !MPI} {A : Type} (ext wid ss : list nat) (w : list (Process A)).
Hypothesis Hgrid : grid_ok ext wid.
Hypothesis Huni : forall r pr, w !! r = Some pr -> uniform ext wid ss pr.
Hypothesis Hlink : linked ext w.
Hypothesis Hdist : distinct_neighbors ext w.

Lemma wait_all_ok (recvs : list recv_op) (l : list (option (list (option A)))) :
  length recvs = length l ->
  (forall i op, recvs !! i = Some op -> exists msg, l !! i = Some (Some msg) /\ (length msg <= capacity op)%nat) ->
  exists msgs, wait_all (zip recvs l) = Some (Ok msgs) /\ l = Some <$> msgs.
Proof.
  revert l. induction recvs as [|op recvs IH]; intros [|o l] Hl H; simpl in Hl; try lia; [by exists []|].
  destruct (H 0%nat op eq_refl) as (msg & Eo & Hle). injection Eo as ->.
  destruct (IH l ltac:(lia)) as (msgs & E & ->); [intros i op' Eop; exact (H (S i) op' Eop)|].
  exists (msg :: msgs). split; [|done]. cbn [fmap list_fmap].
  change (zip (op :: recvs) (Some msg :: (Some <$> msgs))) with ((op, Some msg) :: zip recvs (Some <$> msgs)).
  cbn [wait_all]. rewrite E.
  unfold mbind, option_bind. rewrite (proj2 (Nat.ltb_ge _ _) Hle). done.
Qed.

Lemma packed_complete s pr' k n h msg : w !! s = Some pr' -> ext !! axis k = Some n -> wid !! axis k = Some h ->
  packed ext pr' n h (opposite k) msg -> complete ext wid k msg.
Proof.
  intros Ew En Eh [El Hp] h' Eh'. replace h' with h by congruence. clear h' Eh'.
  rewrite (proj1 (opposite_axis k)) in El. split; [done|]. intros i Hi.
  destruct (Huni _ _ Ew) as (_ & _ & Ee & _ & Hv & Hr).
  pose proof (start_bounds (opposite k) n h (grid_bound _ _ Hgrid _ _ _ En Eh)) as [Hb _].
  assert (Ev : PackUnpack.extents (view pr') !! axis (opposite k) = Some n) by (by rewrite (proj1 (opposite_axis k)), Ee).
  assert (Hsub : view_ok (send_slab (view pr') n h (opposite k))) by (eapply slab_ok; [apply Hv|exact Ev|exact Hb]).
  destruct (slot_surj _ i Hsub) as (j & Hj & <-).
  { unfold view_size, send_slab. cbn [PackUnpack.extents slab]. by rewrite (proj1 (opposite_axis k)), Ee, <- El. }
  rewrite Hp by done. unfold send_slab in *. rewrite address_slab; [|apply Hv|done|by eapply lookup_lt_Some].
  apply Hr. apply (in_slab _ _ _ _ n) in Hj; [apply Hj|done|done].
Qed.

Lemma slabs_agree r pr s pr' n h k j : w !! r = Some pr -> w !! s = Some pr' ->
  slot (recv_slab (view pr) n h k) j = slot (send_slab (view pr') n h (opposite k)) j.
Proof.
  intros Er Ew. destruct (Huni _ _ Er) as (_ & _ & Ee & Es & _), (Huni _ _ Ew) as (_ & _ & Ee' & Es' & _).
  symmetry. apply same_slots; [|left]; unfold send_slab, recv_slab; cbn [PackUnpack.extents strides slab]; rewrite ?(proj1 (opposite_axis k)); congruence.
Qed.

Lemma length_active (pr : Process A) : active_neighbor_count (plan pr) = Z.of_nat (length (active_faces (plan pr))).
Proof.
  unfold active_neighbor_count, active_faces, faces. set (nb := neighbor_ranks_ (plan pr)).
  cut (forall l c, fold_left (fun count f => if 0 <=? nb !!! f then count + 1 else count) l c =
         c + Z.of_nat (length (filter (fun f => 0 <= nb !!! Z.to_nat f) (Z.of_nat <$> l)))).
  { intros H. rewrite H. lia. }
  induction l as [|f l IH]; intros c; [simpl; lia|]. rewrite fmap_cons, filter_cons, Nat2Z.id. cbn [fold_left]. rewrite IH.
  destruct (Z.leb_spec 0 (nb !!! f)), (decide (0 <= nb !!! f)); cbn [length]; lia.
Qed.

(** A halo cell and its mirror cell, as elements of the slabs of their faces. *)
Lemma mirror_cell r pr s pr' k n h idx : w !! r = Some pr -> w !! s = Some pr' -> ext !! axis k = Some n -> wid !! axis k = Some h ->
  in_view (view pr) idx -> in_ghost ext wid k idx ->
  exists j, in_view (recv_slab (view pr) n h k) j /\ alter (Nat.add (recv_start n h k)) (axis k) j = idx /\
    address (recv_slab (view pr) n h k) j = address (view pr) idx /\
    in_view (send_slab (view pr') n h (opposite k)) j /\
    address (send_slab (view pr') n h (opposite k)) j = address (view pr') (mirror n h k idx).
Proof.
  intros Er Ew En Eh Hv (n' & h' & x & En' & Eh' & Ex & Hx). replace n' with n in * by congruence. replace h' with h in * by congruence.
  pose proof (start_bounds k n h (grid_bound _ _ Hgrid _ _ _ En Eh)) as [_ Hrb].
  destruct (Huni _ _ Er) as (_ & _ & Ee & _ & Hview & _), (Huni _ _ Ew) as (_ & _ & Ee2 & _ & Hview2 & _).
  assert (Ev : PackUnpack.extents (view pr) !! axis k = Some n) by (by rewrite Ee).
  assert (Hax : (axis k < length ext)%nat) by (by eapply lookup_lt_Some).
  destruct (slab_index (view pr) (axis k) (recv_start n h k) (send_start n h (opposite k)) h n idx x Ev Hrb Ex Hx Hv)
    as (j & Hj & Ea & Eb).
  assert (Hj2 : in_view (send_slab (view pr') n h (opposite k)) j).
  { unfold in_view, send_slab in *. cbn [PackUnpack.extents slab] in *. by rewrite (proj1 (opposite_axis k)), Ee2, <- Ee. }
  exists j. split_and!; try done.
  - unfold recv_slab. rewrite (address_slab _ _ _ _ _ (proj1 Hview) Hj ltac:(by rewrite Ee)). by rewrite Ea.
  - unfold send_slab in *. rewrite (address_slab _ _ _ _ _ (proj1 Hview2) Hj2 ltac:(by rewrite (proj1 (opposite_axis k)), Ee2)).
    rewrite (proj1 (opposite_axis k)), Eb. done.
Qed.

(** The messages of a call, one per active face. *)
Lemma messages_arrive r pr : w !! r = Some pr ->
  exists recvs sends msgs, post (comm_size w) (Z.of_nat r) pr = Ok (recvs, sends) /\
    wait_all (zip recvs (arrives w (Z.of_nat r) <$> seq 0 (length recvs))) = Some (Ok msgs) /\
    length msgs = length (active_faces (plan pr)) /\
    (forall i k msg n h s pr', active_faces (plan pr) !! i = Some (Z.of_nat k) -> msgs !! i = Some msg ->
       ext !! axis k = Some n -> wid !! axis k = Some h ->
       neighbor_ranks_ (plan pr) !!! k = Z.of_nat s -> w !! s = Some pr' -> packed ext pr' n h (opposite k) msg).
Proof.
  intros Er. destruct (posted_spec ext wid ss w Hgrid Huni Hlink r pr Er) as (recvs & sends & Ep & _ & Hrecvs & _).
  pose proof (Forall2_length Hrecvs) as Hl.
  assert (Harr : forall i k n h, active_faces (plan pr) !! i = Some (Z.of_nat k) -> ext !! axis k = Some n -> wid !! axis k = Some h ->
    exists s pr' msg, neighbor_ranks_ (plan pr) !!! k = Z.of_nat s /\ w !! s = Some pr' /\
      arrives w (Z.of_nat r) i = Some msg /\ packed ext pr' n h (opposite k) msg).
  { intros i k n h Ef En Eh. destruct (active_inv ext wid ss w Hgrid Huni r pr i _ Er Ef) as (k0 & <-%Nat2Z.inj & Hk & Hn).
    destruct (Hlink r pr k Er Hk Hn) as (s & pr' & Es & Ew & Eo).
    destruct (arrives_spec ext wid ss w Hgrid Huni Hlink Hdist r pr i k s pr' n h Er Ef Es Ew Eo En Eh) as (msg & Em & Hp).
    by exists s, pr', msg. }
  destruct (wait_all_ok recvs (arrives w (Z.of_nat r) <$> seq 0 (length recvs))) as (msgs & Ew & Emsgs).
  - by rewrite length_fmap, length_seq.
  - intros i op Eop. destruct (Forall2_lookup_r _ _ _ _ _ Hrecvs Eop) as (f & Ef & _ & _ & Hcap).
    destruct (active_inv ext wid ss w Hgrid Huni r pr i f Er Ef) as (k & -> & Hk & _). rewrite Nat2Z.id in Hcap.
    destruct (axis_lookup ext wid Hgrid k Hk) as (n & h & En & Eh).
    destruct (Harr i k n h Ef En Eh) as (s & pr' & msg & _ & _ & Em & [Elen _]). exists msg.
    rewrite list_lookup_fmap, lookup_seq_lt by (by eapply lookup_lt_Some). cbn. rewrite Em. split; [done|].
    rewrite Hcap, Elen, (proj1 (opposite_axis k)), (list_lookup_total_correct _ _ _ Eh). done.
  - exists recvs, sends, msgs. apply (f_equal length) in Emsgs as Elen. rewrite !length_fmap, length_seq in Elen.
    split_and!; [done|done|lia|]. intros i k msg n h s pr' Ef Em En Eh Es Ew'.
    destruct (Harr i k n h Ef En Eh) as (s0 & pr0 & msg0 & Es0 & Ew0 & Em0 & Hp).
    assert (s0 = s) as -> by lia. replace pr0 with pr' in Hp by congruence.
    assert (Emi : (arrives w (Z.of_nat r) <$> seq 0 (length recvs)) !! i = Some (Some msg)) by (rewrite Emsgs, list_lookup_fmap, Em; done).
    rewrite list_lookup_fmap, lookup_seq_lt in Emi by (rewrite <- Hl; by eapply lookup_lt_Some). cbn in Emi. congruence.
Qed.
End Whole.

(** C20. The structured exchange.  For any order of message arrival MPI's non-overtaking
    rule leaves open, any order in which Kokkos runs the loops, any number of processes and any rank
    from 1 to 4: when all processes use the same extents, widths and layout, neighbors
    point at each other, no process has one neighbor on two faces, and all of them call
    the exchange, the call returns on every process.  Each halo cell then holds the value
    its mirror cell had at the neighbor before the exchange, where a cell that lies in
    the halos of several faces takes the last of them; no other cell of the
    allocation changes. *)
Theorem exchange_fills_halos `{KK : !Kokkos} `{MM : !MPI} {A} ext wid ss (w : list (Process A)) :
  grid_ok ext wid -> (forall r pr, w !! r = Some pr -> uniform ext wid ss pr) -> linked ext w -> distinct_neighbors ext w ->
  forall r pr, w !! r = Some pr ->
  exists m, exchange_structured_blocking w r pr = Some (Ok m) /\ length m = length (cells pr) /\
    (forall k n h s pr' idx, (k < 2 * length ext)%nat -> ext !! axis k = Some n -> wid !! axis k = Some h ->
       neighbor_ranks_ (plan pr) !!! k = Z.of_nat s -> w !! s = Some pr' ->
       in_view (view pr) idx -> in_ghost ext wid k idx ->
       (forall k', (k < k' < 2 * length ext)%nat -> 0 <= neighbor_ranks_ (plan pr) !!! k' -> ~ in_ghost ext wid k' idx) ->
       m !! address (view pr) idx = cells pr' !! address (view pr') (mirror n h k idx)) /\
    (forall a, (forall k idx, (k < 2 * length ext)%nat -> 0 <= neighbor_ranks_ (plan pr) !!! k ->
        in_view (view pr) idx -> in_ghost ext wid k idx -> address (view pr) idx <> a) -> m !! a = cells pr !! a).
Proof.
  intros Hgrid Huni Hlink Hdist r pr Er. unfold exchange_structured_blocking. rewrite length_active.
  pose proof (Huni _ _ Er) as Hu.
  destruct (Z.eqb_spec (Z.of_nat (length (active_faces (plan pr)))) 0) as [E0|_].
  { exists (cells pr). split_and!; try done. intros k n h s pr' idx Hk En Eh Es.
    destruct (active_at ext wid ss w Hgrid Huni r pr k Er Hk ltac:(lia)) as (i & Ei). apply lookup_lt_Some in Ei. lia. }
  destruct (messages_arrive ext wid ss w Hgrid Huni Hlink Hdist r pr Er) as (recvs & sends & msgs & -> & -> & Elen & Hmsgs).
  cbn [mbind option_bind bind].
  destruct (unpack_faces_spec ext wid ss Hgrid pr (zip (active_faces (plan pr)) msgs) (cells pr) Hu eq_refl) as (m & E & El & Hin & Hout).
  - intros f msg (i & Ei)%list_elem_of_lookup. apply lookup_zip_Some in Ei as [Ef Em].
    destruct (active_inv ext wid ss w Hgrid Huni r pr i f Er Ef) as (k & -> & Hk & Hn). exists k. split_and!; [done|done|].
    destruct (axis_lookup ext wid Hgrid k Hk) as (n & h & En & Eh). destruct (Hlink r pr k Er Hk Hn) as (s & pr' & Es & Ew & _).
    apply (packed_complete ext wid ss w Hgrid Huni s pr' k n h msg Ew En Eh). by apply (Hmsgs i k msg n h s pr').
  - exists m. rewrite E. split_and!; [done|done| |].
    + intros k n h s pr' idx Hk En Eh Es Ew Hv Hg Hlast.
      destruct (active_at ext wid ss w Hgrid Huni r pr k Er Hk ltac:(lia)) as (i & Ei).
      destruct (lookup_lt_is_Some_2 msgs i) as [msg Em]; [rewrite Elen; by eapply lookup_lt_Some|].
      pose proof (Hmsgs i k msg n h s pr' Ei Em En Eh Es Ew) as [_ Hpk].
      destruct (mirror_cell ext wid ss w Hgrid Huni r pr s pr' k n h idx Er Ew En Eh Hv Hg) as (j & Hj & Ea & <- & Hj2 & <-).
      rewrite (Hin i k msg n h j); [|by rewrite lookup_zip_with, Ei, Em|done..|].
      * by rewrite (slabs_agree ext wid ss w Huni r pr s pr' n h k j Er Ew), (Hpk j Hj2).
      * intros i' k' msg' Hi' Ei'. rewrite Ea. apply lookup_zip_Some in Ei' as [Ef' _].
        destruct (active_inv ext wid ss w Hgrid Huni r pr i' _ Er Ef') as (k0 & <-%Nat2Z.inj & Hk0 & Hn0).
        pose proof (active_order pr i i' _ _ Ei Ef' Hi'). apply Hlast; [lia|done].
    + intros a Ha. apply Hout. intros k msg idx (i & Ei)%list_elem_of_lookup. apply lookup_zip_Some in Ei as [Ef _].
      destruct (active_inv ext wid ss w Hgrid Huni r pr i _ Er Ef) as (k0 & <-%Nat2Z.inj & Hk & Hn). by apply Ha.
Qed.

(** ** Witnesses *)

(** Three processes of a periodic line of five cells each, one halo cell on each side. *)
Definition line_process (lo hi : Z) (content : list nat) : Process nat :=
  mkProcess (mkPlan [5] [lo; hi] [1] [[mkRange 1 2]; [mkRange 3 4]] [[mkRange 0 1]; [mkRange 4 5]])
    (mkView 0 [5%nat] [1%nat]) (Some <$> content).
Definition ring3 : list (Process nat) :=
  [line_process 2 1 [0; 11; 12; 13; 0]%nat; line_process 0 2 [0; 21; 22; 23; 0]%nat; line_process 1 0 [0; 31; 32; 33; 0]%nat].

Lemma ring3_lookup r pr : ring3 !! r = Some pr ->
  (r = 0%nat /\ pr = line_process 2 1 [0; 11; 12; 13; 0]%nat) \/ (r = 1%nat /\ pr = line_process 0 2 [0; 21; 22; 23; 0]%nat) \/
  (r = 2%nat /\ pr = line_process 1 0 [0; 31; 32; 33; 0]%nat).
Proof. destruct r as [|[|[|r]]]; intros E; try discriminate E; injection E as <-; auto. Qed.

Lemma line_uniform lo hi l : length l = 5%nat -> uniform [5%nat] [1%nat] [1%nat] (line_process lo hi l).
Proof.
  intros Hl. split_and!; try reflexivity.
  - apply view_ok_check; [done|simpl; lia|apply (bool_decide_unpack _); by vm_compute].
  - intros idx Hi. destruct (single_inv idx 5 Hi) as (i & -> & Hlt).
    cbn [cells view line_process]. unfold address. simpl. rewrite list_lookup_fmap.
    destruct (lookup_lt_is_Some_2 l (i * 1 + 0)) as [x ->]; [lia|]. by exists x.
Qed.

Lemma ring3_uniform r pr : ring3 !! r = Some pr -> uniform [5%nat] [1%nat] [1%nat] pr.
Proof. intros E. apply ring3_lookup in E as [[_ ->]|[[_ ->]|[_ ->]]]; by apply line_uniform. Qed.

Lemma below_two k : (k < 2 * length [5%nat])%nat -> k = 0%nat \/ k = 1%nat.
Proof. simpl. lia. Qed.

Lemma ring3_linked : linked [5%nat] ring3.
Proof.
  intros r pr k E Hk _. apply below_two in Hk.
  apply ring3_lookup in E as [[-> ->]|[[-> ->]|[-> ->]]]; destruct Hk as [-> | ->].
  all: first [by exists 0%nat; eexists|by exists 1%nat; eexists|by exists 2%nat; eexists].
Qed.

Lemma ring3_distinct : distinct_neighbors [5%nat] ring3.
Proof.
  intros r pr k k' E Hk Hk' _ Ek. apply below_two in Hk, Hk'.
  apply ring3_lookup in E as [[-> ->]|[[-> ->]|[-> ->]]]; destruct Hk as [-> | ->], Hk' as [-> | ->]; done.
Qed.

Example exchange_fills_halos_witness : exists m,
  @exchange_structured_blocking backward_kokkos fifo_mpi nat ring3 0 (line_process 2 1 [0; 11; 12; 13; 0]%nat) = Some (Ok m) /\
  m !! 0%nat = Some (Some 33%nat) /\ m !! 1%nat = Some (Some 11%nat).
Proof.
  destruct (@exchange_fills_halos backward_kokkos fifo_mpi nat [5%nat] [1%nat] [1%nat] ring3) with (r := 0%nat)
    (pr := line_process 2 1 [0; 11; 12; 13; 0]%nat) as (m & E & _ & Hin & Hout).
  - split_and!; [done|repeat constructor; lia|repeat constructor; lia|done].
  - exact ring3_uniform.
  - exact ring3_linked.
  - exact ring3_distinct.
  - reflexivity.
  - exists m. split_and!; [exact E| |].
    + refine (Hin 0%nat 5%nat 1%nat 2%nat (line_process 1 0 [0; 31; 32; 33; 0]%nat) [0%nat] _ eq_refl eq_refl eq_refl eq_refl _ _ _).
      * simpl. lia.
      * apply elem_of_indices. repeat constructor; lia.
      * exists 5%nat, 1%nat, 0%nat. split_and!; try reflexivity; cbn; lia.
      * intros k' Hk' _ (n & h & i & En & Eh & Ei & Hi). assert (k' = 1%nat) as -> by (simpl in Hk'; lia).
        injection En as <-. injection Eh as <-. injection Ei as <-. cbn in Hi. lia.
    + apply (Hout 1%nat). intros k idx Hk _ Hv (n & h & i & En & Eh & Ei & Hi).
      destruct (single_inv idx 5 Hv) as (x & -> & Hx). apply below_two in Hk.
      destruct Hk as [-> | ->]; injection En as <-; injection Eh as <-; injection Ei as <-; cbn in Hi; unfold address; simpl; lia.
Defined.

(** With one process on both sides of a dimension the exchange goes wrong.  In a periodic line of two
    processes the tag does not tell the two messages between them apart, and the first
    sent, from the low face, meets the first receive posted, for the low face: the low
    halo gets the neighbor's low interior cell 21 where its high one, 23, belongs, and
    the high halo gets 23 where 21 belongs. *)
Example two_process_ring_swaps_halos :
  let a := line_process 1 1 [0; 11; 12; 13; 0]%nat in
  let b := line_process 0 0 [0; 21; 22; 23; 0]%nat in
  linked [5%nat] [a; b] /\ (forall r pr, [a; b] !! r = Some pr -> uniform [5%nat] [1%nat] [1%nat] pr) /\
  @exchange_structured_blocking backward_kokkos fifo_mpi nat [a; b] 0 a =
    Some (Ok [Some 21; Some 11; Some 12; Some 13; Some 23]%nat) /\
  cells b !! address (view b) (mirror 5 1 0 [0%nat]) = Some (Some 23%nat).
Proof.
  intros a b. split_and!.
  - intros [|[|r]] pr k E Hk _; try discriminate E; injection E as <-; apply below_two in Hk; destruct Hk as [-> | ->].
    all: first [by exists 1%nat; eexists|by exists 0%nat; eexists].
  - intros [|[|r]] pr E; try discriminate E; injection E as <-; by apply line_uniform.
  - by vm_compute.
  - by vm_compute.
Qed.
