(* ===== verification/HaloHandle.v ===== *)
(** HALO: pending requests and the asynchronous structured exchange
    (src/libs/halo/src/request_guard.cpp, src/halo_handle.cpp and
    [exchange_structured_async] of include/halo/exchange_structured.hpp).

    A request is null or the number of an operation MPI works on; [done] tells which
    operations have completed when a call is made.  A wait on an operation that has not
    completed blocks ([None]).  The callback of a handle acts on a store of any type. *)
From Stdlib Require Import ZArith Lia.
From stdpp Require Import base list numbers.
From S2P Require Import Prelude CInt StructuredPlan PackUnpack StructuredExchange ExchangeProps.
Local Open Scope nat_scope.

(** ** Request_Guard *)

Inductive request : Type := Null | Pending (id : nat).

(** [Request_Guard::test]: [MPI_Test] nulls a completed request. *)
Definition request_test (done : nat -> bool) (q : request) : bool * request :=
  match q with
  | Null => (true, Null)
  | Pending id => if done id then (true, Null) else (false, Pending id)
  end.

Definition request_wait (done : nat -> bool) (q : request) : option request :=
  match q with
  | Null => Some Null
  | Pending id => if done id then Some Null else None
  end.

(** What the destructor does with the operation it still holds. *)
Inductive disposal : Type := nothing | cancelled_and_freed (id : nat) | completed_by_wait (id : nat).
Definition request_destroy (unwinding : bool) (done : nat -> bool) (q : request) : option disposal :=
  match q with
  | Null => Some nothing
  | Pending id => if unwinding then Some (cancelled_and_freed id) else if done id then Some (completed_by_wait id) else None
  end.

(** ** Halo_Handle *)

(** [staged_recv_]: the flag [completed] of the staged state, if there is one. *)
Record Halo_Handle : Type := mkHandle { requests_ : list request; staged_recv_ : option bool }.

Definition empty_handle : Halo_Handle := mkHandle [] None.
Definition is_empty (h : Halo_Handle) : bool := match requests_ h with [] => true | _ => false end.

Section Handle.
Context {S : Type} (post_recv_copy : S -> S).

Definition finalize_staged_recv_ (h : Halo_Handle) (s : S) : Halo_Handle * S :=
  match staged_recv_ h with
  | Some false => (mkHandle (requests_ h) (Some true), post_recv_copy s)
  | _ => (h, s)
  end.

(** The loop of [test]: stops at the first request still pending. *)
Fixpoint test_requests (done : nat -> bool) (qs : list request) : bool * list request :=
  match qs with
  | [] => (true, [])
  | q :: qs' =>
      match request_test done q with
      | (false, q') => (false, q' :: qs')
      | (true, q') => let '(b, qs'') := test_requests done qs' in (b, q' :: qs'')
      end
  end.

Definition test (done : nat -> bool) (h : Halo_Handle) (s : S) : bool * Halo_Handle * S :=
  if is_empty h then (true, h, s) else
  match test_requests done (requests_ h) with
  | (false, qs) => (false, mkHandle qs (staged_recv_ h), s)
  | (true, qs) => let '(h', s') := finalize_staged_recv_ (mkHandle qs (staged_recv_ h)) s in (true, h', s')
  end.

Fixpoint wait_requests (done : nat -> bool) (qs : list request) : option (list request) :=
  match qs with
  | [] => Some []
  | q :: qs' => q' ← request_wait done q; qs'' ← wait_requests done qs'; Some (q' :: qs'')
  end.

Definition wait (done : nat -> bool) (h : Halo_Handle) (s : S) : option (Halo_Handle * S) :=
  if is_empty h then Some (h, s) else
  qs ← wait_requests done (requests_ h); Some (finalize_staged_recv_ (mkHandle qs (staged_recv_ h)) s).

(** The destructor waits. *)
Definition destroy (done : nat -> bool) (h : Halo_Handle) (s : S) : option S :=
  if is_empty h then Some s else snd <$> wait done h s.

(** Move construction: the new handle, and what is left in the source. *)
Definition move (h : Halo_Handle) : Halo_Handle * Halo_Handle := (h, mkHandle [] None).

(** Move assignment over the handle [h]: waits for the operations it replaces. *)
Definition move_assign (done : nat -> bool) (h other : Halo_Handle) (s : S) : option (Halo_Handle * Halo_Handle * S) :=
  s' ← (if is_empty h then Some s else snd <$> wait done h s);
  Some (other, mkHandle [] None, s').

(** ** Calls on a handle *)

Inductive call : Type := call_test | call_wait.

(** A sequence of calls with what MPI has completed at each; the answers of the tests. *)
Fixpoint run_calls (calls : list (call * (nat -> bool))) (h : Halo_Handle) (s : S) : option (list bool * Halo_Handle * S) :=
  match calls with
  | [] => Some ([], h, s)
  | (call_test, done) :: calls' =>
      let '(b, h', s') := test done h s in
      '(bs, h'', s'') ← run_calls calls' h' s'; Some (b :: bs, h'', s'')
  | (call_wait, done) :: calls' =>
      '(h', s') ← wait done h s;
      '(bs, h'', s'') ← run_calls calls' h' s'; Some (true :: bs, h'', s'')
  end.
End Handle.

(** ** exchange_structured_async *)

Record Face_Info : Type := mkFaceInfo { active : bool; info_region : Region }.

Section Async.
Context `{KK : !Kokkos} `{MM : !MPI} {A : Type}.

Definition face_info (p : Structured_Halo_Plan) (f : Z) : result Face_Info :=
  let! b := has_neighbor p f in
  if b then let! r := recv_region p f in Ok (mkFaceInfo true r) else Ok (mkFaceInfo false []).

(** The callback: the receive buffers, one per active face, unpacked in face order. *)
Fixpoint post_recv_copy (infos : list Face_Info) (v : View) (buffers : list (list (option A))) (m : list (option A)) :
    result (list (option A)) :=
  match infos with
  | [] => Ok m
  | fi :: infos' =>
      if active fi then
        match buffers with
        | msg :: buffers' =>
            let count := Z.to_nat (size (info_region fi)) in
            let! sub := make_subview v (info_region fi) in
            let! m' := unpack (buffer 0 count) (msg ++ drop (length msg) (replicate count None)) sub m in
            post_recv_copy infos' v buffers' m'
        | [] => Undef
        end
      else post_recv_copy infos' v buffers m
  end.

(** The handle, with one request for each receive and then each send, and the faces its
    callback captures. *)
Definition exchange_structured_async (np r : Z) (pr : Process A) : result (Halo_Handle * list Face_Info) :=
  if (active_neighbor_count (plan pr) =? 0)%Z then Ok (empty_handle, []) else
  let! '(recvs, sends) := post np r pr in
  let! infos := collect (face_info (plan pr)) (faces (plan pr)) in
  Ok (mkHandle (Pending <$> seq 0 (length recvs + length sends)) (Some false), infos).
End Async.

(** ** The life of a handle *)

Section Life.
Context {S : Type} (f : S -> S) (ids : list nat).
Hypothesis Hids : ids <> [].

Definition all_done (done : nat -> bool) : bool := forallb done ids.

(** The requests of a handle that has seen [done]: each one pending, or null and complete. *)
Definition tracks (done : nat -> bool) (qs : list request) : Prop :=
  Forall2 (fun id q => q = Pending id \/ (q = Null /\ done id = true)) ids qs.

Definition later (done done' : nat -> bool) : Prop := forall id, done id = true -> done' id = true.

Lemma test_requests_spec l done done' qs : later done done' ->
  Forall2 (fun id q => q = Pending id \/ (q = Null /\ done id = true)) l qs ->
  exists qs', test_requests done' qs = (forallb done' l, qs') /\
    Forall2 (fun id q => q = Pending id \/ (q = Null /\ done' id = true)) l qs'.
Proof.
  intros Hlater H. induction H as [|id q l qs Hq H IH]; [by exists []|].
  assert (Hkeep : Forall2 (fun id q => q = Pending id \/ (q = Null /\ done' id = true)) l qs).
  { eapply Forall2_impl; [|exact H]. cbn. intros x y [->|[-> Hx]]; [by left|right; split; [done|by apply Hlater]]. }
  destruct IH as (qs' & E & Hqs'). simpl.
  assert (Hnext : done' id = true -> request_test done' q = (true, Null)).
  { intros Hd. destruct Hq as [->|[-> _]]; simpl; by rewrite ?Hd. }
  destruct (done' id) eqn:Hd; simpl.
  - rewrite Hnext, E by done. eexists. split; [reflexivity|]. constructor; [by right|done].
  - destruct Hq as [->|[-> Hx]]; [|rewrite (Hlater id Hx) in Hd; discriminate]. simpl. rewrite Hd.
    eexists. split; [reflexivity|]. constructor; [by left|done].
Qed.

Lemma wait_requests_spec l done done' qs : later done done' ->
  Forall2 (fun id q => q = Pending id \/ (q = Null /\ done id = true)) l qs ->
  wait_requests done' qs = (if forallb done' l then Some ((fun _ => Null) <$> l) else None).
Proof.
  intros Hlater H. induction H as [|id q l qs Hq H IH]; [done|]. cbn [wait_requests].
  destruct (done' id) eqn:Hd; cbn [forallb]; rewrite Hd.
  - assert (E : request_wait done' q = Some Null) by (destruct Hq as [->|[-> _]]; simpl; by rewrite ?Hd).
    rewrite E, IH. cbn. by destruct (forallb done' l).
  - destruct Hq as [->|[-> Hx]]; [|rewrite (Hlater id Hx) in Hd; discriminate]. simpl. by rewrite Hd.
Qed.

Lemma nulls_track done : all_done done = true -> tracks done ((fun _ => Null) <$> ids).
Proof.
  unfold all_done, tracks. intros H. apply Forall2_fmap_r, Forall_Forall2_diag, list.Forall_forall.
  rewrite forallb_forall in H. intros id Hid%list_elem_of_In. right. split; [done|by apply H].
Qed.

Lemma tracks_nonempty done qs : tracks done qs -> qs <> [].
Proof. intros H ->. inversion H as [E|]. by destruct Hids. Qed.

(** Calls in order of time, starting after [done]; a wait only when everything completes. *)
Fixpoint timely (done : nat -> bool) (calls : list (call * (nat -> bool))) : Prop :=
  match calls with
  | [] => True
  | (c, d) :: calls' => later done d /\ (c = call_wait -> all_done d = true) /\ timely d calls'
  end.

Definition completes (calls : list (call * (nat -> bool))) : bool := existsb (fun c => all_done (snd c)) calls.

Lemma is_empty_tracks done qs fin : tracks done qs -> is_empty (mkHandle qs fin) = false.
Proof. intros H. apply tracks_nonempty in H. by destruct qs. Qed.

Lemma run_calls_spec calls done qs fin s : tracks done qs -> timely done calls ->
  exists h', run_calls f calls (mkHandle qs (Some fin)) s =
    Some ((fun c => all_done (snd c)) <$> calls, h', if fin then s else if completes calls then f s else s) /\
    staged_recv_ h' = Some (fin || completes calls).
Proof.
  revert done qs fin s. induction calls as [|[c d] calls IH]; intros done qs fin s Hq Ht.
  { exists (mkHandle qs (Some fin)). simpl. rewrite orb_false_r. by destruct fin. }
  destruct Ht as (Hl & Hw & Ht).
  assert (Hstep : forall qs', tracks d qs' -> exists h', 
    ('(bs, h'', s'') ← run_calls f calls (mkHandle qs' (Some (fin || all_done d))) (if fin then s else if all_done d then f s else s);
     Some (all_done d :: bs, h'', s'')) =
    Some ((fun c => all_done (snd c)) <$> ((c, d) :: calls), h',
          if fin then s else if completes ((c, d) :: calls) then f s else s) /\
    staged_recv_ h' = Some (fin || completes ((c, d) :: calls))).
  { intros qs' Hqs'. destruct (IH d qs' (fin || all_done d) (if fin then s else if all_done d then f s else s) Hqs' Ht) as (h' & E & Eh).
    exists h'. change (completes ((c, d) :: calls)) with (all_done d || completes calls).
    rewrite E, Eh, <- orb_assoc, fmap_cons. unfold mbind, option_bind. cbn [snd]. split; [|done].
    destruct fin, (all_done d), (completes calls); reflexivity. }
  destruct c; cbn [run_calls].
  - unfold test. rewrite (is_empty_tracks done) by done. cbn [requests_ staged_recv_].
    destruct (test_requests_spec ids done d qs Hl Hq) as (qs' & -> & Hqs').
    destruct (Hstep qs' Hqs') as (h' & E & Eh). exists h'. fold (all_done d).
    unfold finalize_staged_recv_.
    destruct (all_done d), fin; cbn [staged_recv_ requests_ orb] in E |- *; (split; [exact E|exact Eh]).
  - unfold wait. rewrite (is_empty_tracks done) by done. cbn [requests_ staged_recv_].
    rewrite (wait_requests_spec ids done d qs Hl Hq). fold (all_done d). rewrite (Hw eq_refl).
    destruct (Hstep _ (nulls_track d (Hw eq_refl))) as (h' & E & Eh). exists h'.
    unfold finalize_staged_recv_. rewrite (Hw eq_refl) in E.
    destruct fin; cbn [mbind option_bind staged_recv_ requests_ orb] in E |- *; (split; [exact E|exact Eh]).
Qed.
End Life.

(** The completion of a handle.  A handle with any positive number of pending requests
    and a staged callback, under any sequence of tests and waits made as MPI completes
    the operations: a test answers true exactly when all the operations have completed
    by then, and the callback runs once, at the first call after the completion of all of
    them, or not at all if there is no such call.  A wait before that blocks, and a call on an empty handle does nothing. *)
Theorem handle_completes_once {S} (f : S -> S) ids calls s :
  ids <> [] -> timely ids (fun _ => false) calls ->
  (exists h', run_calls f calls (mkHandle (Pending <$> ids) (Some false)) s =
     Some ((fun c => all_done ids (snd c)) <$> calls, h', if completes ids calls then f s else s) /\
     staged_recv_ h' = Some (completes ids calls)) /\
  (forall done, all_done ids done = false -> wait f done (mkHandle (Pending <$> ids) (Some false)) s = None) /\
  (forall done, wait f done empty_handle s = Some (empty_handle, s) /\ test f done empty_handle s = (true, empty_handle, s)).
Proof.
  intros Hids Ht.
  assert (Hp : forall done, tracks ids done (Pending <$> ids)).
  { intros done. apply Forall2_fmap_r, Forall_Forall2_diag, list.Forall_forall. intros id _. by left. }
  split_and!.
  - exact (run_calls_spec f ids Hids calls (fun _ => false) (Pending <$> ids) false s (Hp _) Ht).
  - intros done Hd. unfold wait. rewrite (is_empty_tracks ids Hids done) by apply Hp. cbn [requests_ staged_recv_].
    rewrite (wait_requests_spec ids (fun _ => false) done) by (done || apply Hp). fold (all_done ids done). by rewrite Hd.
  - done.
Qed.

Example handle_completes_once_witness :
  let at_1 := fun id => (id =? 0) in
  let at_2 := fun id => (id <=? 1) in
  exists h', run_calls Nat.succ [(call_test, at_1); (call_test, at_2); (call_wait, at_2)] (mkHandle (Pending <$> [0; 1]) (Some false)) 41 =
    Some ([false; true; true], h', 42) /\ staged_recv_ h' = Some true.
Proof.
  intros at_1 at_2.
  refine (proj1 (handle_completes_once Nat.succ [0; 1] [(call_test, at_1); (call_test, at_2); (call_wait, at_2)] 41 _ _)); [done|].
  cbn. unfold later, at_1, at_2. split_and!; try done.
  - intros id ->%Nat.eqb_eq. done.
Defined.

(** ** The asynchronous exchange against the blocking one *)

Section Agreement.
Context `{KK : !Kokkos} `{MM : !MPI} {A : Type}.

Lemma face_check p k : k < num_faces p -> check_face_idx p (Z.of_nat k) = Ok tt.
Proof.
  intros Hk. unfold check_face_idx. destruct (Z.ltb_spec (Z.of_nat k) 0), (Z.geb_spec (Z.of_nat k) (Z.of_nat (num_faces p))); done || lia.
Qed.

Lemma post_recv_copy_spec p v l : Forall (fun k => k < num_faces p) l ->
  exists infos, collect (face_info p) (Z.of_nat <$> l) = Ok infos /\
    forall (msgs : list (list (option A))) m,
      length msgs = length (filter (fun f => 0 <= neighbor_ranks_ p !!! Z.to_nat f)%Z (Z.of_nat <$> l)) ->
      post_recv_copy infos v msgs m =
      unpack_faces p v (zip (filter (fun f => 0 <= neighbor_ranks_ p !!! Z.to_nat f)%Z (Z.of_nat <$> l)) msgs) m.
Proof.
  induction l as [|k l IH]; intros Hl.
  { exists []. split; [done|]. intros [|msg msgs] m; done. }
  apply Forall_cons_iff in Hl as [Hk Hl]. destruct (IH Hl) as (infos & E & Hinfos).
  rewrite !fmap_cons. cbn [collect]. rewrite E. unfold face_info, has_neighbor, recv_region.
  rewrite face_check by done. cbn [bind]. rewrite Nat2Z.id. rewrite filter_cons. rewrite Nat2Z.id.
  destruct (Z.leb_spec 0 (neighbor_ranks_ p !!! k)) as [Hn|Hn].
  - rewrite decide_True by done. cbn [bind]. eexists. split; [reflexivity|].
    intros [|msg msgs] m Hlen; [done|]. cbn [post_recv_copy active info_region].
    change (zip (Z.of_nat k :: ?x) (msg :: msgs)) with ((Z.of_nat k, msg) :: zip x msgs). cbn [unpack_faces].
    unfold unpack_face, recv_region. rewrite face_check by done. cbn [bind]. rewrite Nat2Z.id.
    destruct (make_subview v (recv_regions_ p !!! k)) as [sub|e|]; [|done..]. cbn [bind].
    destruct (unpack _ _ sub m) as [m'|e|]; [|done..]. cbn [bind]. apply Hinfos. cbn in Hlen. lia.
  - rewrite decide_False by lia. cbn [bind]. eexists. split; [reflexivity|]. intros msgs m Hlen. cbn [post_recv_copy active].
    by apply Hinfos.
Qed.
Lemma collect_length {I B} (f : I -> result B) l bs : collect f l = Ok bs -> length bs = length l.
Proof.
  revert bs. induction l as [|i l IH]; intros bs; simpl; [by intros [= <-]|].
  destruct (f i) as [b|e|]; [|done..]. destruct (collect f l) as [bs'|e|]; [|done..].
  intros [= <-]. simpl. by rewrite (IH bs' eq_refl).
Qed.

Lemma wait_all_length (recvs : list (recv_op * option (list (option A)))) msgs :
  wait_all recvs = Some (Ok msgs) -> length msgs = length recvs.
Proof.
  revert msgs. induction recvs as [|[op [msg|]] recvs IH]; intros msgs; simpl; [by intros [= <-]|..|done].
  destruct (wait_all recvs) as [[l|e|]|]; simpl; [|by destruct (capacity op <? length msg)..|done].
  destruct (capacity op <? length msg); simpl; [done|]. intros [= <-]. simpl. by rewrite (IH l eq_refl).
Qed.
End Agreement.

(** The asynchronous exchange against the blocking one, for any plan and view: when it
    returns a handle, an empty handle means that the blocking call would leave the view alone;
    otherwise the handle has a request for every message the blocking call posts, and
    running its callback with the messages those requests wait for, on the view as it
    was, gives what the blocking call gives. *)
Theorem async_agrees_with_blocking `{KK : !Kokkos} `{MM : !MPI} {A} (w : list (Process A)) r pr h infos :
  exchange_structured_async (comm_size w) (Z.of_nat r) pr = Ok (h, infos) ->
  (is_empty h = true -> exchange_structured_blocking w r pr = Some (Ok (cells pr))) /\
  (is_empty h = false -> exists recvs sends, post (comm_size w) (Z.of_nat r) pr = Ok (recvs, sends) /\
     requests_ h = Pending <$> seq 0 (length recvs + length sends) /\ staged_recv_ h = Some false /\
     forall msgs, wait_all (zip recvs (arrives w (Z.of_nat r) <$> seq 0 (length recvs))) = Some (Ok msgs) ->
       exchange_structured_blocking w r pr = Some (post_recv_copy infos (view pr) msgs (cells pr))).
Proof.
  unfold exchange_structured_async, exchange_structured_blocking. rewrite length_active.
  destruct (Z.eqb_spec (Z.of_nat (length (active_faces (plan pr)))) 0) as [E0|E0]; [by intros [= <- <-]|].
  destruct (post (comm_size w) (Z.of_nat r) pr) as [[recvs sends]|e|] eqn:Ep; [|done..]. cbn [bind].
  destruct (post_recv_copy_spec (A := A) (plan pr) (view pr) (seq 0 (num_faces (plan pr)))) as (infos' & Ei & Hcopy).
  { apply list.Forall_forall. intros k Hk%elem_of_seq. lia. }
  unfold faces. rewrite Ei. cbn [bind]. intros [= <- <-].
  assert (Hl : length recvs = length (active_faces (plan pr))).
  { unfold post in Ep. apply bind_Ok_inv in Ep as (bufs & _ & Ep). apply bind_Ok_inv in Ep as (rs & Er & Ep).
    apply bind_Ok_inv in Ep as (ss & _ & Ep). injection Ep as <- _. by apply collect_length in Er. }
  split.
  - unfold is_empty. cbn [requests_]. destruct recvs; [simpl in Hl; lia|done].
  - intros _. exists recvs, sends. split_and!; try done. intros msgs Em. rewrite Em. cbn [mbind option_bind bind].
    f_equal. symmetry. apply Hcopy. apply wait_all_length in Em. rewrite length_zip_with, length_fmap, length_seq in Em.
    unfold active_faces, faces in Hl. lia.
Qed.

Example async_agrees_with_blocking_witness :
  let a := line_process 2 1 [0; 11; 12; 13; 0] in
  exists h infos, @exchange_structured_async backward_kokkos fifo_mpi nat (comm_size ring3) 0 a = Ok (h, infos) /\ is_empty h = false /\
    exists recvs sends, @post backward_kokkos fifo_mpi nat (comm_size ring3) 0 a = Ok (recvs, sends) /\
      requests_ h = Pending <$> seq 0 (length recvs + length sends).
Proof.
  intros a. do 2 eexists. split; [reflexivity|]. split; [reflexivity|].
  destruct (proj2 (@async_agrees_with_blocking backward_kokkos fifo_mpi nat ring3 0 a _ _ eq_refl) eq_refl) as (recvs & sends & E & H & _).
  exists recvs, sends. split; [exact E|exact H].
Defined.
