(* ===== verification/HaloExchange.v ===== *)
(** HALO: the plan of neighbor lists and its exchange
    (src/libs/halo/src/halo_plan.cpp, include/halo/exchange.hpp, detail/staging.hpp,
    detail/mpi_datatype.hpp, detail/compute_tag.hpp).

    The view is one-dimensional and contiguous: a store of bytes, of which some may not be
    initialised, with [value_size] of them per element.  The first [total_send_elements]
    elements are sent and the ones after them received, neighbor after neighbor.  MPI is
    the interface of StructuredExchange.v, with bytes as the cells of its messages.  An
    access outside the view has no meaning ([Undef]); [std::size_t] wraps. *)
From Stdlib Require Import ZArith Lia.
From stdpp Require Import base list numbers.
From S2P Require Import Prelude CInt StructuredExchange ExchangeProps.
Local Open Scope Z_scope.

(** ** Halo_Plan *)

Record Neighbor_Info : Type := mkNeighbor { rank : Z; count : Z }.

Fixpoint validate_loop (neighbors : list Neighbor_Info) (comm_size : Z) (seen : list Z) : result unit :=
  match neighbors with
  | [] => Ok tt
  | info :: neighbors' =>
      do! throw_if ((rank info <? 0) || (comm_size <=? rank info)) invalid_argument then
      do! throw_if (bool_decide (rank info ∈ seen)) invalid_argument then
      validate_loop neighbors' comm_size (rank info :: seen)
  end.
Definition validate_neighbors (neighbors : list Neighbor_Info) (comm_size : Z) : result unit := validate_loop neighbors comm_size [].

Definition sum_counts (neighbors : list Neighbor_Info) : Z := fold_left (fun acc info => to_u64 (acc + count info)) neighbors 0.

Record Halo_Plan : Type := mkHaloPlan {
  send_neighbors_ : list Neighbor_Info;
  recv_neighbors_ : list Neighbor_Info;
  total_send_ : Z;
  total_recv_ : Z
}.

Definition halo_plan (comm_size : Z) (send_neighbors recv_neighbors : list Neighbor_Info) : result Halo_Plan :=
  do! validate_neighbors send_neighbors comm_size then
  do! validate_neighbors recv_neighbors comm_size then
  Ok (mkHaloPlan send_neighbors recv_neighbors (sum_counts send_neighbors) (sum_counts recv_neighbors)).

Definition num_send_neighbors (p : Halo_Plan) : nat := length (send_neighbors_ p).
Definition num_recv_neighbors (p : Halo_Plan) : nat := length (recv_neighbors_ p).

(** ** Data types *)

(** [ViewType::value_type]; [other_type n] is any type of [n] bytes the code does not list. *)
Inductive value_type : Type :=
| double_type | float_type | int_type | long_type | long_long_type | unsigned_type | char_type | other_type (n : nat).

Definition value_size (t : value_type) : nat :=
  match t with
  | double_type => 8 | float_type => 4 | int_type => 4 | long_type => 8 | long_long_type => 8
  | unsigned_type => 4 | char_type => 1 | other_type n => n
  end.

Inductive MPI_Datatype : Type := MPI_DOUBLE | MPI_FLOAT | MPI_INT | MPI_LONG | MPI_LONG_LONG | MPI_UNSIGNED | MPI_CHAR | MPI_BYTE.

Definition mpi_datatype_for (t : value_type) : MPI_Datatype :=
  match t with
  | double_type => MPI_DOUBLE | float_type => MPI_FLOAT | int_type => MPI_INT | long_type => MPI_LONG
  | long_long_type => MPI_LONG_LONG | unsigned_type => MPI_UNSIGNED | char_type => MPI_CHAR | other_type _ => MPI_BYTE
  end.

(** [MPI_Type_size] of the predefined types. *)
Definition datatype_size (d : MPI_Datatype) : nat :=
  match d with
  | MPI_DOUBLE => 8 | MPI_FLOAT => 4 | MPI_INT => 4 | MPI_LONG => 8 | MPI_LONG_LONG => 8
  | MPI_UNSIGNED => 4 | MPI_CHAR => 1 | MPI_BYTE => 1
  end.

(** ** Byte ranges *)

Section Bytes.
Context {A : Type}.

Definition read_bytes (m : list (option A)) (a n : nat) : result (list (option A)) :=
  if (a + n <=? length m)%nat then Ok (take n (drop a m)) else Undef.
Definition write_bytes (m : list (option A)) (a : nat) (bs : list (option A)) : result (list (option A)) :=
  if (a + length bs <=? length m)%nat then Ok (take a m ++ bs ++ drop (a + length bs) m) else Undef.
End Bytes.

(** ** The exchange *)

Section Exchange.
Context `{MM : !MPI} {A : Type}.

Definition compute_tag (sender receiver comm_size : Z) : Z := Z.rem (sender * comm_size + receiver) tag_ub.

(** The running offsets of the neighbors, from [o]. *)
Fixpoint offsets (neighbors : list Neighbor_Info) (o : Z) : list Z :=
  match neighbors with
  | [] => []
  | info :: neighbors' => o :: offsets neighbors' (to_u64 (o + count info))
  end.

Definition elements (t : value_type) (n : Z) : nat := Z.to_nat n * value_size t.
(** The bytes an MPI call with this count transfers. *)
Definition transferred (t : value_type) (n : Z) : nat := Z.to_nat (to_i32 n) * datatype_size (mpi_datatype_for t).

(** One [MPI_Irecv]. *)
Definition post_recv (t : value_type) (comm_size my_rank : Z) (info : Neighbor_Info) : result recv_op :=
  let tag := compute_tag (rank info) my_rank comm_size in
  do! mpi_arguments (count info) (rank info) comm_size then
  Ok (mkRecv (rank info) tag (transferred t (count info))).

(** One [MPI_Isend], straight from the view or from the host buffer of [stage_send]. *)
Definition post_send (staged : bool) (t : value_type) (comm_size my_rank : Z) (m : list (option A)) (io : Neighbor_Info * Z) :
    result (send_op A) :=
  let '(info, send_offset) := io in
  let tag := compute_tag my_rank (rank info) comm_size in
  let! data :=
    (if staged then
       let! host_buf := read_bytes m (elements t send_offset) (elements t (count info)) in
       read_bytes host_buf 0 (transferred t (count info))
     else read_bytes m (elements t send_offset) (transferred t (count info))) in
  do! mpi_arguments (count info) (rank info) comm_size then
  Ok (mkSend (rank info) tag data).

(** The receives and sends of a process, in list order. *)
Definition post_exchange (staged : bool) (t : value_type) (comm_size my_rank : Z) (p : Halo_Plan) (m : list (option A)) :
    result (list recv_op * list (send_op A)) :=
  let! recvs := collect (post_recv t comm_size my_rank) (recv_neighbors_ p) in
  let! sends := collect (post_send staged t comm_size my_rank m) (zip (send_neighbors_ p) (offsets (send_neighbors_ p) 0)) in
  Ok (recvs, sends).

(** The arrival of a message at its offset of the view: directly, or through a host buffer
    that [stage_recv] copies as a whole. *)
Definition deliver (staged : bool) (t : value_type) (m : list (option A)) (info : Neighbor_Info) (recv_offset : Z)
    (msg : list (option A)) : result (list (option A)) :=
  if staged then
    let n := elements t (count info) in
    write_bytes m (elements t recv_offset) (take n (msg ++ drop (length msg) (replicate n None)))
  else write_bytes m (elements t recv_offset) msg.

Fixpoint deliver_all (staged : bool) (t : value_type) (l : list (Neighbor_Info * Z * list (option A))) (m : list (option A)) :
    result (list (option A)) :=
  match l with
  | [] => Ok m
  | (info, o, msg) :: l' => let! m' := deliver staged t m info o msg in deliver_all staged t l' m'
  end.

(** A process of the communicator: its plan and the bytes of its view. *)
Record Rank_State : Type := mkRank { halo : Halo_Plan; bytes : list (option A) }.

Definition ranks_posted (staged : bool) (t : value_type) (w : list Rank_State) (r : Z) : list recv_op * list (send_op A) :=
  match w !! Z.to_nat r with
  | Some st => match post_exchange staged t (Z.of_nat (length w)) r (halo st) (bytes st) with Ok ops => ops | _ => ([], []) end
  | None => ([], [])
  end.

(** The call on process [r]; [staged] is the path it takes, the same on all processes. *)
Definition exchange_blocking (staged : bool) (t : value_type) (w : list Rank_State) (r : nat) (st : Rank_State) :
    option (result (list (option A))) :=
  let p := halo st in
  if (num_send_neighbors p =? 0)%nat && (num_recv_neighbors p =? 0)%nat then Some (Ok (bytes st)) else
  match post_exchange staged t (Z.of_nat (length w)) (Z.of_nat r) p (bytes st) with
  | Ok (recvs, _) =>
      let arrive := matched (fun s => snd (ranks_posted staged t w s)) (fun s => fst (ranks_posted staged t w s)) (Z.of_nat r) in
      data ← wait_all (zip recvs (arrive <$> seq 0 (length recvs)));
      Some (let! msgs := data in
            deliver_all staged t (zip (zip (recv_neighbors_ p) (offsets (recv_neighbors_ p) (total_send_ p))) msgs) (bytes st))
  | Throw e => Some (Throw e)
  | Undef => Some Undef
  end.
End Exchange.
Arguments mkRank {A}.
Arguments halo {A}.
Arguments bytes {A}.
Arguments Rank_State A : clear implicits.

(** ** The plan *)

Definition sum_of (l : list Neighbor_Info) : Z := fold_right (fun info acc => count info + acc) 0 l.

Lemma validate_loop_spec l np seen :
  (Forall (fun info => 0 <= rank info < np) l /\ NoDup (rank <$> l) /\ (forall info, info ∈ l -> rank info ∉ seen) /\
     validate_loop l np seen = Ok tt) \/
  (~ (Forall (fun info => 0 <= rank info < np) l /\ NoDup (rank <$> l) /\ (forall info, info ∈ l -> rank info ∉ seen)) /\
     validate_loop l np seen = Throw invalid_argument).
Proof.
  revert seen. induction l as [|info l IH]; intros seen.
  { left. split_and!; try done; [constructor|]. by intros i ?%not_elem_of_nil. }
  cbn [validate_loop fmap list_fmap]. rewrite Forall_cons_iff, list.NoDup_cons.
  destruct (Z.ltb_spec (rank info) 0), (Z.leb_spec np (rank info)); cbn [orb throw_if bind];
    try (right; split; [|done]; intros ((? & _) & _); lia).
  case_bool_decide as Hseen; cbn [throw_if bind].
  { right. split; [|done]. intros (_ & _ & Hs). by apply (Hs info ltac:(by left)). }
  destruct (IH (rank info :: seen)) as [(Hf & Hn & Hs & E)|[Hbad E]]; [left|right].
  - split_and!; try done; try lia.
    + intros (j & Ej & Hj)%list_elem_of_fmap. apply (Hs j Hj). rewrite <- Ej. by left.
    + intros j [->|Hj]%list.elem_of_cons; [done|]. intros Hin. apply (Hs j Hj). by right.
  - split; [|done]. intros ((_ & Hf) & (Hi & Hn) & Hs). apply Hbad. split_and!; try done.
    intros j Hj [E2|Hin]%list.elem_of_cons; [|by apply (Hs j); [right|]].
    apply Hi. rewrite <- E2. by apply list_elem_of_fmap_2.
Qed.

Lemma sum_counts_spec l : sum_counts l = to_u64 (sum_of l).
Proof.
  unfold sum_counts. cut (forall a, 0 <= a < 18446744073709551616 ->
    fold_left (fun acc info => to_u64 (acc + count info)) l a = to_u64 (a + sum_of l)).
  { intros H. rewrite H by lia. done. }
  induction l as [|info l IH]; intros a Ha; simpl.
  - unfold to_u64. rewrite Z.add_0_r. symmetry. by apply Z.mod_small.
  - rewrite IH by (apply Z.mod_pos_bound; lia). unfold to_u64. rewrite Z.add_mod_idemp_l by lia. f_equal. lia.
Qed.

Definition neighbors_ok (np : Z) (l : list Neighbor_Info) : Prop :=
  Forall (fun info => 0 <= rank info < np) l /\ NoDup (rank <$> l).

Lemma validate_neighbors_spec l np :
  (neighbors_ok np l /\ validate_neighbors l np = Ok tt) \/ (~ neighbors_ok np l /\ validate_neighbors l np = Throw invalid_argument).
Proof.
  destruct (validate_loop_spec l np []) as [(Hf & Hn & _ & E)|[Hbad E]]; [by left|]. right. split; [|done].
  intros [Hf Hn]. apply Hbad. split_and!; try done. by intros info _ ?%not_elem_of_nil.
Qed.

Lemma halo_plan_inv np s l p : halo_plan np s l = Ok p ->
  neighbors_ok np s /\ neighbors_ok np l /\ p = mkHaloPlan s l (to_u64 (sum_of s)) (to_u64 (sum_of l)).
Proof.
  unfold halo_plan. destruct (validate_neighbors_spec s np) as [[Hs ->]|[_ ->]]; [|done].
  destruct (validate_neighbors_spec l np) as [[Hl ->]|[_ ->]]; [|done]. cbn [bind]. rewrite !sum_counts_spec. by intros [= <-].
Qed.

(** ** Offsets and transfers *)

Lemma sum_nonneg l : Forall (fun info => 0 <= count info) l -> 0 <= sum_of l.
Proof. induction 1; simpl; lia. Qed.

Definition listed (t : value_type) : Prop := forall n, t <> other_type n.

Lemma transferred_listed t n : listed t -> 0 <= n < 2147483648 -> transferred t n = elements t n.
Proof.
  intros Ht Hn. unfold transferred, elements. rewrite to_i32_id by (cbn; lia).
  destruct t; try reflexivity. by destruct (Ht n0).
Qed.

Lemma elements_add t a b : 0 <= a -> 0 <= b -> elements t (a + b) = (elements t a + elements t b)%nat.
Proof. intros Ha Hb. unfold elements. rewrite Z2Nat.inj_add by lia. lia. Qed.

Lemma elements_mono t a b : a <= b -> (elements t a <= elements t b)%nat.
Proof. intros H. unfold elements. apply Nat.mul_le_mono_r. lia. Qed.

(** Where the [i]-th neighbor starts. *)
Lemma offsets_bound l o i info oi : Forall (fun info => 0 <= count info) l -> 0 <= o -> o + sum_of l < 18446744073709551616 ->
  l !! i = Some info -> offsets l o !! i = Some oi -> o <= oi /\ oi + count info <= o + sum_of l.
Proof.
  revert o i. induction l as [|x l IH]; intros o i Hl Ho Hb Ei Eo; [done|].
  apply Forall_cons_iff in Hl as [Hx Hl]. pose proof (sum_nonneg l Hl). simpl in Hb.
  destruct i as [|i]; simpl in Ei, Eo.
  - injection Ei as ->. injection Eo as ->. simpl. lia.
  - unfold to_u64 in Eo. rewrite Z.mod_small in Eo by lia. destruct (IH (o + count x) i Hl ltac:(lia) ltac:(lia) Ei Eo). simpl. lia.
Qed.

Lemma length_offsets l o : length (offsets l o) = length l.
Proof. revert o. induction l as [|x l IH]; intros o; simpl; [done|]. by rewrite IH. Qed.

(** ** Writing the messages *)

Section Writing.
Context {A : Type}.
Implicit Types m bs : list (option A).

Lemma write_bytes_spec m a bs : (a + length bs <= length m)%nat -> exists m', write_bytes m a bs = Ok m' /\ length m' = length m /\
  (forall b, (b < length bs)%nat -> m' !! (a + b)%nat = bs !! b) /\
  (forall c, (c < a \/ a + length bs <= c)%nat -> m' !! c = m !! c).
Proof.
  intros Hl. unfold write_bytes. rewrite (proj2 (Nat.leb_le _ _) Hl). eexists. split; [reflexivity|].
  assert (Ht : length (take a m) = a) by (rewrite length_take; lia). split_and!.
  - rewrite !length_app, Ht, length_drop. lia.
  - intros b Hb. rewrite lookup_app_r by lia. rewrite Ht. rewrite lookup_app_l by lia. f_equal. lia.
  - intros c Hc. destruct (decide (c < a)%nat).
    + rewrite lookup_app_l by lia. by apply lookup_take_lt.
    + rewrite lookup_app_r by lia. rewrite lookup_app_r by lia. rewrite Ht, lookup_drop. f_equal. lia.
Qed.

Lemma read_bytes_spec m a n : (a + n <= length m)%nat -> exists bs, read_bytes m a n = Ok bs /\ length bs = n /\
  (forall b, (b < n)%nat -> bs !! b = m !! (a + b)%nat).
Proof.
  intros Hl. unfold read_bytes. rewrite (proj2 (Nat.leb_le _ _) Hl). eexists. split; [reflexivity|]. split.
  - rewrite length_take, length_drop. lia.
  - intros b Hb. rewrite lookup_take_lt by done. apply lookup_drop.
Qed.

(** A whole message arrives the same way on both paths. *)
Lemma deliver_whole staged t m info o msg : length msg = elements t (count info) ->
  deliver staged t m info o msg = write_bytes m (elements t o) msg.
Proof.
  intros Hl. unfold deliver. destruct staged; [|done].
  rewrite take_app_le by lia. by rewrite <- Hl, firstn_all.
Qed.

Lemma deliver_all_spec staged t l o msgs m :
  Forall2 (fun info msg => 0 <= count info /\ length msg = elements t (count info)) l msgs ->
  0 <= o -> o + sum_of l < 18446744073709551616 -> (elements t (o + sum_of l) <= length m)%nat ->
  exists m', deliver_all staged t (zip (zip l (offsets l o)) msgs) m = Ok m' /\ length m' = length m /\
    (forall i info oi msg, l !! i = Some info -> offsets l o !! i = Some oi -> msgs !! i = Some msg ->
       forall b, (b < length msg)%nat -> m' !! (elements t oi + b)%nat = msg !! b) /\
    (forall a, (a < elements t o \/ elements t (o + sum_of l) <= a)%nat -> m' !! a = m !! a).
Proof.
  intros Hf. revert o m. induction Hf as [|info msg l msgs [Hc Hlen] Hf IH]; intros o m Ho Hb Hm.
  { exists m. by split_and!. }
  assert (Hnn : 0 <= sum_of l).
  { apply sum_nonneg, Forall_lookup. intros i x Ex. destruct (Forall2_lookup_l _ _ _ _ _ Hf Ex) as (? & _ & ? & _). done. }
  simpl in Hb, Hm |- *. rewrite deliver_whole by done.
  rewrite !elements_add in Hm by lia.
  destruct (write_bytes_spec m (elements t o) msg ltac:(lia)) as (m1 & -> & L1 & In1 & Out1). cbn [bind].
  assert (Eo : to_u64 (o + count info) = o + count info) by (apply Z.mod_small; lia). rewrite Eo.
  destruct (IH (o + count info) m1 ltac:(lia) ltac:(lia)) as (m' & E & El & Hin & Hout).
  { rewrite !elements_add by lia. lia. }
  exists m'. split_and!; [exact E|lia| |].
  - intros [|i] info' oi msg' Ei Eoi Em b Hlt; simpl in Ei, Eoi, Em.
    + injection Ei as <-. injection Eoi as <-. injection Em as <-.
      rewrite Hout by (left; rewrite elements_add by lia; lia). by apply In1.
    + by apply (Hin i info').
  - intros a Ha. rewrite !elements_add in Ha by lia. rewrite Hout by (rewrite !elements_add by lia; lia). apply Out1. lia.
Qed.
End Writing.

(** ** Posting *)

Section Posting.
Context `{MM : !MPI} {A : Type} (staged : bool) (t : value_type).
Hypothesis Ht : listed t.

(** A plan the constructor built for [np] processes, with counts in an [int], and a view
    that holds all its elements. *)
Definition rank_ok (np : Z) (st : Rank_State A) : Prop :=
  exists s l, halo_plan np s l = Ok (halo st) /\
    Forall (fun info => 0 <= count info) s /\ Forall (fun info => 0 <= count info) l /\
    sum_of s + sum_of l < 2147483648 /\ (elements t (sum_of s + sum_of l) <= length (bytes st))%nat.

Lemma rank_ok_facts np st : rank_ok np st -> let p := halo st in
  neighbors_ok np (send_neighbors_ p) /\ neighbors_ok np (recv_neighbors_ p) /\
  Forall (fun info => 0 <= count info) (send_neighbors_ p) /\ Forall (fun info => 0 <= count info) (recv_neighbors_ p) /\
  total_send_ p = sum_of (send_neighbors_ p) /\ total_recv_ p = sum_of (recv_neighbors_ p) /\
  0 <= sum_of (send_neighbors_ p) /\ 0 <= sum_of (recv_neighbors_ p) /\
  sum_of (send_neighbors_ p) + sum_of (recv_neighbors_ p) < 2147483648 /\
  (elements t (sum_of (send_neighbors_ p) + sum_of (recv_neighbors_ p)) <= length (bytes st))%nat.
Proof.
  intros (s & l & Ep & Hs & Hl & Hb & Hm). apply halo_plan_inv in Ep as (H1 & H2 & ->). cbn [send_neighbors_ recv_neighbors_ total_send_ total_recv_].
  pose proof (sum_nonneg s Hs). pose proof (sum_nonneg l Hl).
  split_and!; try done; unfold to_u64; apply Z.mod_small; lia.
Qed.

Lemma count_bound l i info : Forall (fun info => 0 <= count info) l -> l !! i = Some info -> 0 <= count info <= sum_of l.
Proof.
  revert i. induction l as [|x l IH]; intros i Hl Ei; [done|]. apply Forall_cons_iff in Hl as [Hx Hl].
  pose proof (sum_nonneg l Hl). destruct i as [|i]; simpl in Ei |- *; [injection Ei as ->; lia|]. specialize (IH i Hl Ei). lia.
Qed.

(** The message for the [i]-th send neighbor: its elements of the view. *)
Definition carries (st : Rank_State A) (o : Z) (info : Neighbor_Info) (msg : list (option A)) : Prop :=
  length msg = elements t (count info) /\
  forall b, (b < elements t (count info))%nat -> msg !! b = bytes st !! (elements t o + b)%nat.

Lemma post_send_spec np r st i info o : rank_ok np st -> send_neighbors_ (halo st) !! i = Some info ->
  offsets (send_neighbors_ (halo st)) 0 !! i = Some o ->
  exists s, post_send staged t np r (bytes st) (info, o) = Ok s /\ destination s = rank info /\
    send_tag s = compute_tag r (rank info) np /\ carries st o info (message s).
Proof.
  intros Hok Ei Eo. destruct (rank_ok_facts np st Hok) as ((Hr & _) & _ & Hs & _ & _ & _ & Hn & Hn' & Hb & Hm).
  pose proof (count_bound _ _ _ Hs Ei) as Hc. pose proof (Forall_lookup_1 _ _ _ _ Hr Ei) as Hrank. simpl in Hrank.
  destruct (offsets_bound _ 0 i info o Hs ltac:(lia) ltac:(lia) Ei Eo) as [Ho1 Ho2].
  assert (Hfit : (elements t o + elements t (count info) <= length (bytes st))%nat).
  { rewrite <- elements_add by lia. etransitivity; [|exact Hm]. apply elements_mono. lia. }
  unfold post_send. rewrite transferred_listed by (done || lia).
  destruct (read_bytes_spec (bytes st) (elements t o) (elements t (count info)) Hfit) as (bs & -> & Lb & Hbs). cbn [bind].
  assert (E0 : (if staged then read_bytes bs 0 (elements t (count info)) else Ok bs) = Ok bs).
  { destruct staged; [|done]. unfold read_bytes. rewrite (proj2 (Nat.leb_le _ _)) by lia. rewrite drop_0, <- Lb, firstn_all. done. }
  rewrite E0. cbn [bind]. rewrite arguments_ok by lia. cbn [bind]. eexists. split; [reflexivity|]. by split_and!.
Qed.

Lemma post_recv_spec np r st i info : rank_ok np st -> recv_neighbors_ (halo st) !! i = Some info ->
  post_recv t np r info = Ok (mkRecv (rank info) (compute_tag (rank info) r np) (elements t (count info))).
Proof.
  intros Hok Ei. destruct (rank_ok_facts np st Hok) as (_ & (Hr & _) & _ & Hl & _ & _ & Hn & Hn' & Hb & _).
  pose proof (count_bound _ _ _ Hl Ei) as Hc. pose proof (Forall_lookup_1 _ _ _ _ Hr Ei) as Hrank. simpl in Hrank.
  unfold post_recv. rewrite arguments_ok, transferred_listed by (done || lia). done.
Qed.

Lemma post_exchange_spec np r st : rank_ok np st ->
  exists recvs sends, post_exchange staged t np r (halo st) (bytes st) = Ok (recvs, sends) /\
    Forall2 (fun info op => op = mkRecv (rank info) (compute_tag (rank info) r np) (elements t (count info)))
      (recv_neighbors_ (halo st)) recvs /\
    Forall2 (fun io s => destination s = rank (fst io) /\ send_tag s = compute_tag r (rank (fst io)) np /\ carries st (snd io) (fst io) (message s))
      (zip (send_neighbors_ (halo st)) (offsets (send_neighbors_ (halo st)) 0)) sends.
Proof.
  intros Hok. unfold post_exchange.
  destruct (collect_ok (post_recv t np r) (fun info op => op = mkRecv (rank info) (compute_tag (rank info) r np) (elements t (count info)))
    (recv_neighbors_ (halo st))) as (recvs & -> & Hrecvs).
  { intros info (i & Ei)%list_elem_of_lookup. eexists. split; [by eapply post_recv_spec|done]. }
  destruct (collect_ok (post_send staged t np r (bytes st)) (fun io s => destination s = rank (fst io) /\
    send_tag s = compute_tag r (rank (fst io)) np /\ carries st (snd io) (fst io) (message s))
    (zip (send_neighbors_ (halo st)) (offsets (send_neighbors_ (halo st)) 0))) as (sends & -> & Hsends).
  { intros [info o] (i & Ei)%list_elem_of_lookup. apply lookup_zip_Some in Ei as [Ei Eo].
    destruct (post_send_spec np r st i info o Hok Ei Eo) as (s & E & H). by exists s. }
  exists recvs, sends. by split_and!.
Qed.
End Posting.

(** Construction of a halo plan, for any communicator size and neighbor lists:
    [invalid_argument] exactly when some rank is outside [0, comm_size) or appears twice
    in one list; otherwise the plan keeps the lists and its totals are the sums of the
    counts, modulo 2^64. *)
Theorem halo_plan_correct np s l :
  (~ (neighbors_ok np s /\ neighbors_ok np l) -> halo_plan np s l = Throw invalid_argument) /\
  (neighbors_ok np s /\ neighbors_ok np l ->
     halo_plan np s l = Ok (mkHaloPlan s l (to_u64 (sum_of s)) (to_u64 (sum_of l)))).
Proof.
  unfold halo_plan. split; intros H.
  - destruct (validate_neighbors_spec s np) as [[Hs ->]|[_ ->]]; [|done].
    destruct (validate_neighbors_spec l np) as [[Hl ->]|[_ ->]]; [|done]. by destruct H.
  - destruct H as [Hs Hl]. destruct (validate_neighbors_spec s np) as [[_ ->]|[? _]]; [|done].
    destruct (validate_neighbors_spec l np) as [[_ ->]|[? _]]; [|done]. cbn [bind]. by rewrite !sum_counts_spec.
Qed.

Example halo_plan_correct_witness :
  halo_plan 3 [mkNeighbor 1 4; mkNeighbor 2 5] [] = Ok (mkHaloPlan [mkNeighbor 1 4; mkNeighbor 2 5] [] 9 0) /\
  halo_plan 3 [mkNeighbor 3 1] [] = Throw invalid_argument.
Proof.
  split.
  - apply (halo_plan_correct 3 [mkNeighbor 1 4; mkNeighbor 2 5] []).
    split; (split; [repeat (constructor; [cbn; lia|]); constructor|apply (bool_decide_unpack _); by vm_compute]).
  - apply (halo_plan_correct 3 [mkNeighbor 3 1] []). intros [[H _] _]. apply Forall_cons_iff in H as [H _]. cbn in H. lia.
Defined.

Section Delivery.
Context `{MM : !MPI} {A : Type} (staged : bool) (t : value_type) (w : list (Rank_State A)).
Hypothesis Ht : listed t.
Hypothesis Hok : forall r st, w !! r = Some st -> rank_ok t (Z.of_nat (length w)) st.

(** What one process receives from another is what the other sends to it. *)
Definition paired : Prop :=
  forall r s st st' c, w !! r = Some st -> w !! s = Some st' ->
    mkNeighbor (Z.of_nat s) c ∈ recv_neighbors_ (halo st) <-> mkNeighbor (Z.of_nat r) c ∈ send_neighbors_ (halo st').

Hypothesis Hpair : paired.

Lemma ranks_posted_spec r st : w !! r = Some st ->
  exists recvs sends, post_exchange staged t (Z.of_nat (length w)) (Z.of_nat r) (halo st) (bytes st) = Ok (recvs, sends) /\
    ranks_posted staged t w (Z.of_nat r) = (recvs, sends) /\
    Forall2 (fun info op => op = mkRecv (rank info) (compute_tag (rank info) (Z.of_nat r) (Z.of_nat (length w))) (elements t (count info)))
      (recv_neighbors_ (halo st)) recvs /\
    Forall2 (fun io s => destination s = rank (fst io) /\ send_tag s = compute_tag (Z.of_nat r) (rank (fst io)) (Z.of_nat (length w)) /\
      carries t st (snd io) (fst io) (message s))
      (zip (send_neighbors_ (halo st)) (offsets (send_neighbors_ (halo st)) 0)) sends.
Proof.
  intros Er. destruct (post_exchange_spec staged t Ht (Z.of_nat (length w)) (Z.of_nat r) st (Hok _ _ Er)) as (recvs & sends & E & H1 & H2).
  exists recvs, sends. split_and!; try done. unfold ranks_posted. by rewrite Nat2Z.id, Er, E.
Qed.

Lemma nodup_rank (l : list Neighbor_Info) i j a b : NoDup (rank <$> l) -> l !! i = Some a -> l !! j = Some b -> rank a = rank b -> i = j.
Proof.
  intros Hn Ei Ej E. apply (NoDup_lookup (rank <$> l) i j (rank a) Hn); rewrite list_lookup_fmap; [by rewrite Ei|by rewrite Ej, E].
Qed.

(** The sender's entry for a receive, and the message that arrives. *)
Lemma message_arrives r st i s c : w !! r = Some st -> recv_neighbors_ (halo st) !! i = Some (mkNeighbor (Z.of_nat s) c) ->
  exists st' i' o' msg, w !! s = Some st' /\ send_neighbors_ (halo st') !! i' = Some (mkNeighbor (Z.of_nat r) c) /\
    offsets (send_neighbors_ (halo st')) 0 !! i' = Some o' /\
    matched (fun s => snd (ranks_posted staged t w s)) (fun s => fst (ranks_posted staged t w s)) (Z.of_nat r) i = Some msg /\
    carries t st' o' (mkNeighbor (Z.of_nat r) c) msg.
Proof.
  intros Er Ei. destruct (rank_ok_facts t _ _ (Hok _ _ Er)) as (_ & (Hrange & Hnd) & _).
  pose proof (Forall_lookup_1 _ _ _ _ Hrange Ei) as Hs. simpl in Hs.
  destruct (lookup_lt_is_Some_2 w s ltac:(lia)) as [st' Es].
  destruct (rank_ok_facts t _ _ (Hok _ _ Es)) as ((_ & Hnd') & _).
  destruct (ranks_posted_spec r st Er) as (recvs & sends & _ & Ep & Hrecvs & _).
  destruct (ranks_posted_spec s st' Es) as (recvs' & sends' & _ & Ep' & _ & Hsends').
  assert (Hin : mkNeighbor (Z.of_nat r) c ∈ send_neighbors_ (halo st')).
  { apply (Hpair r s st st' c Er Es). by eapply list_elem_of_lookup_2. }
  apply list_elem_of_lookup in Hin as (i' & Ei').
  destruct (lookup_lt_is_Some_2 (offsets (send_neighbors_ (halo st')) 0) i') as [o' Eo'].
  { rewrite length_offsets. by eapply lookup_lt_Some. }
  assert (Ez : zip (send_neighbors_ (halo st')) (offsets (send_neighbors_ (halo st')) 0) !! i' = Some (mkNeighbor (Z.of_nat r) c, o'))
    by (rewrite lookup_zip_with, Ei', Eo'; done).
  destruct (Forall2_lookup_l _ _ _ _ _ Hsends' Ez) as (sd & Esd & Hdst & Htag & Hcar). cbn [fst snd rank] in Hdst, Htag, Hcar.
  destruct (Forall2_lookup_l _ _ _ _ _ Hrecvs Ei) as (op & Eop & ->). cbn [rank count] in Eop.
  exists st', i', o', (message sd). split_and!; try done.
  rewrite non_overtaking. unfold in_order. rewrite Ep. cbn [fst]. rewrite Eop. cbn [option_bind mbind source recv_tag].
  rewrite filter_none; cbn [length].
  - rewrite Ep'. cbn [snd]. rewrite (filter_unique _ sends' i' sd Esd); [done| |].
    + unfold to_whom. rewrite Hdst, Htag, !Z.eqb_refl. done.
    + intros j y Ej Hy. unfold to_whom in Hy. apply andb_prop_elim in Hy as [Hy%Is_true_true _]. apply Z.eqb_eq in Hy.
      destruct (Forall2_lookup_r _ _ _ _ _ Hsends' Ej) as ([info o] & Eio & Hd & _). apply lookup_zip_Some in Eio as [Einfo _].
      apply (nodup_rank _ _ _ _ _ Hnd' Einfo Ei'). cbn [rank fst] in *. congruence.
  - intros q Hq Hf. unfold from_whom in Hf. apply andb_prop_elim in Hf as [Hf%Is_true_true _]. apply Z.eqb_eq in Hf.
    apply elem_of_take in Hq as (j & Ej & Hj). destruct (Forall2_lookup_r _ _ _ _ _ Hrecvs Ej) as (info & Einfo & ->).
    cbn [source] in Hf. pose proof (nodup_rank _ _ _ _ _ Hnd Einfo Ei Hf). lia.
Qed.

(** All the messages of a call arrive, one for each entry of the receive list. *)
Lemma messages_complete r st recvs : w !! r = Some st ->
  Forall2 (fun info op => op = mkRecv (rank info) (compute_tag (rank info) (Z.of_nat r) (Z.of_nat (length w))) (elements t (count info)))
    (recv_neighbors_ (halo st)) recvs ->
  exists msgs, wait_all (zip recvs (matched (fun s => snd (ranks_posted staged t w s)) (fun s => fst (ranks_posted staged t w s))
      (Z.of_nat r) <$> seq 0 (length recvs))) = Some (Ok msgs) /\ length msgs = length recvs /\
    (forall i s c, recv_neighbors_ (halo st) !! i = Some (mkNeighbor (Z.of_nat s) c) -> exists st' i' o' msg,
      w !! s = Some st' /\ send_neighbors_ (halo st') !! i' = Some (mkNeighbor (Z.of_nat r) c) /\
      offsets (send_neighbors_ (halo st')) 0 !! i' = Some o' /\ msgs !! i = Some msg /\ carries t st' o' (mkNeighbor (Z.of_nat r) c) msg).
Proof.
  intros Er Hrecvs. destruct (rank_ok_facts t _ _ (Hok _ _ Er)) as (_ & (Hrange & _) & _).
  pose proof (Forall2_length Hrecvs) as Hlen.
  destruct (wait_all_ok recvs (matched (fun s => snd (ranks_posted staged t w s)) (fun s => fst (ranks_posted staged t w s))
    (Z.of_nat r) <$> seq 0 (length recvs))) as (msgs & -> & Emsgs).
  - by rewrite length_fmap, length_seq.
  - intros i op Eop. destruct (Forall2_lookup_r _ _ _ _ _ Hrecvs Eop) as ([k c] & Ei & ->).
    pose proof (Forall_lookup_1 _ _ _ _ Hrange Ei) as Hk. cbn [rank] in Hk. rewrite <- (Z2Nat.id k) in Ei by lia.
    destruct (message_arrives r st i _ c Er Ei) as (st' & i' & o' & msg & _ & _ & _ & Em & Hc & _). exists msg.
    rewrite list_lookup_fmap, lookup_seq_lt by (by eapply lookup_lt_Some). cbn. rewrite Em. split; [done|].
    cbn [count] in Hc. lia.
  - exists msgs. split_and!; [done|apply (f_equal length) in Emsgs; rewrite !length_fmap, length_seq in Emsgs; lia|].
    intros i s c Ei. destruct (message_arrives r st i s c Er Ei) as (st' & i' & o' & msg & H1 & H2 & H3 & Em & Hc).
    exists st', i', o', msg. split_and!; try done; try apply Hc. apply (f_equal (fun l => l !! i)) in Emsgs.
    rewrite !list_lookup_fmap, lookup_seq_lt in Emsgs by (rewrite <- Hlen; by eapply lookup_lt_Some). cbn in Emsgs. rewrite Em in Emsgs.
    destruct (msgs !! i); cbn in Emsgs; congruence.
Qed.
End Delivery.

(** The exchange of neighbor lists.  For any arrival order MPI's non-overtaking rule leaves open, on the direct
    and on the staged path, for every value type with an MPI datatype: when all processes
    have plans built for the communicator, views that hold all their elements, and pairwise
    matching send and receive entries, and all of them call the exchange, the call
    returns on every process.  Each received element then equals the element its sender
    had in the matching send range before the exchange, and nothing outside the receive
    range changes. *)
Theorem exchange_delivers `{MM : !MPI} {A} staged t (w : list (Rank_State A)) :
  listed t -> (forall r st, w !! r = Some st -> rank_ok t (Z.of_nat (length w)) st) -> paired w ->
  forall r st, w !! r = Some st ->
  exists m, exchange_blocking staged t w r st = Some (Ok m) /\ length m = length (bytes st) /\
    (forall i o s c, recv_neighbors_ (halo st) !! i = Some (mkNeighbor (Z.of_nat s) c) ->
       offsets (recv_neighbors_ (halo st)) (total_send_ (halo st)) !! i = Some o ->
       exists st' i' o', w !! s = Some st' /\ send_neighbors_ (halo st') !! i' = Some (mkNeighbor (Z.of_nat r) c) /\
         offsets (send_neighbors_ (halo st')) 0 !! i' = Some o' /\
         forall b, (b < elements t c)%nat -> m !! (elements t o + b)%nat = bytes st' !! (elements t o' + b)%nat) /\
    (forall a, (a < elements t (total_send_ (halo st)) \/ elements t (total_send_ (halo st) + total_recv_ (halo st)) <= a)%nat ->
       m !! a = bytes st !! a).
Proof.
  intros Ht Hok Hpair r st Er. unfold exchange_blocking.
  destruct (rank_ok_facts t _ _ (Hok _ _ Er)) as (_ & (Hrange & _) & _ & Hl & Es & El & Hs0 & Hl0 & Hb & Hm).
  destruct (ranks_posted_spec staged t w Ht Hok r st Er) as (recvs & sends & -> & _ & Hrecvs & _).
  pose proof (Forall2_length Hrecvs) as Hlen. set (p := halo st) in *.
  destruct (_ && _) eqn:Ez.
  { apply andb_prop in Ez as [_ Ez%Nat.eqb_eq]. exists (bytes st). split_and!; try done.
    intros i o s c Ei. apply lookup_lt_Some in Ei. unfold num_recv_neighbors in Ez. lia. }
  destruct (messages_complete staged t w Ht Hok Hpair r st recvs Er Hrecvs) as (msgs & -> & Lmsgs & Hcar). fold p in Hcar.
  cbn [mbind option_bind bind].
  destruct (deliver_all_spec staged t (recv_neighbors_ p) (total_send_ p) msgs (bytes st)) as (m & E & Elm & Hin & Hout).
  - apply Forall2_same_length_lookup. split.
    { lia. }
    intros i [k c] msg Ei Em. pose proof (Forall_lookup_1 _ _ _ _ Hrange Ei) as Hk. cbn [rank] in Hk.
    pose proof (Forall_lookup_1 _ _ _ _ Hl Ei) as Hc. cbn [count] in Hc |- *. rewrite <- (Z2Nat.id k) in Ei by lia.
    destruct (Hcar i _ c Ei) as (? & ? & ? & msg' & _ & _ & _ & Em' & [Hlm _]). cbn [count] in Hlm. split; [done|]. congruence.
  - rewrite Es. lia.
  - rewrite Es. lia.
  - by rewrite Es.
  - exists m. rewrite E. split_and!; try done.
    + intros i o s c Ei Eo. destruct (Hcar i s c Ei) as (st' & i' & o' & msg & H1 & H2 & H3 & Em & [Hlm Hc]).
      exists st', i', o'. split_and!; try done. intros b Hlt. rewrite (Hin i _ o msg Ei Eo Em b) by (cbn in Hlm; lia). by apply Hc.
    + rewrite El. exact Hout.
Qed.

(** Three doubles' worth of bytes on two processes: one element sent, one received. *)
Definition demo_rank (peer : Z) (content : list nat) : Rank_State nat :=
  mkRank (mkHaloPlan [mkNeighbor peer 2] [mkNeighbor peer 2] 2 2) (Some <$> content).
Definition demo_pair : list (Rank_State nat) := [demo_rank 1 [1; 2; 0; 0]%nat; demo_rank 0 [3; 4; 0; 0]%nat].

Lemma demo_pair_lookup r st : demo_pair !! r = Some st -> exists peer l, st = demo_rank (Z.of_nat peer) l /\ length l = 4%nat /\
  ((r = 0 /\ peer = 1)%nat \/ (r = 1 /\ peer = 0)%nat).
Proof.
  destruct r as [|[|r]]; intros E; try discriminate E; injection E as <-.
  - exists 1%nat, [1; 2; 0; 0]%nat. split_and!; [done|done|by left].
  - exists 0%nat, [3; 4; 0; 0]%nat. split_and!; [done|done|by right].
Qed.

Example exchange_delivers_witness : exists m,
  @exchange_blocking fifo_mpi nat true char_type demo_pair 0 (demo_rank 1 [1; 2; 0; 0]%nat) = Some (Ok m) /\ m !! 3%nat = Some (Some 4%nat).
Proof.
  destruct (@exchange_delivers fifo_mpi nat true char_type demo_pair) with (r := 0%nat) (st := demo_rank 1 [1; 2; 0; 0]%nat)
    as (m & E & _ & Hin & _).
  - by intros n.
  - intros r st Er. destruct (demo_pair_lookup r st Er) as (peer & l & -> & Hl & Hp).
    exists [mkNeighbor (Z.of_nat peer) 2], [mkNeighbor (Z.of_nat peer) 2]. split_and!.
    + by destruct Hp as [[_ ->]|[_ ->]].
    + repeat constructor. cbn. lia.
    + repeat constructor. cbn. lia.
    + done.
    + cbn [demo_rank bytes]. rewrite length_fmap, Hl. apply Nat.leb_le. reflexivity.
  - intros r s st st' c Er Es. destruct (demo_pair_lookup r st Er) as (peer & l & -> & _ & Hp).
    destruct (demo_pair_lookup s st' Es) as (peer' & l' & -> & _ & Hp'). cbn. rewrite !list_elem_of_singleton.
    split; intros [= E ->]; f_equal; lia.
  - reflexivity.
  - exists m. split; [exact E|].
    destruct (Hin 0%nat 2 1%nat 2 eq_refl eq_refl) as (st' & i' & o' & Es & Ei & Eo & Hb).
    injection Es as <-. destruct i' as [|i']; [|discriminate Ei]. injection Eo as <-.
    exact (Hb 1%nat (le_n 2)).
Defined.

(** A value type without an MPI datatype is sent as [count] bytes instead of [count]
    elements: with two-byte elements, two of them to exchange, only the first element
    arrives. *)
Example other_types_truncated :
  let rank peer content := mkRank (mkHaloPlan [mkNeighbor peer 2] [mkNeighbor peer 2] 2 2) (Some <$> content) in
  let a := rank 1 [1; 2; 3; 4; 0; 0; 0; 0]%nat in
  let b := rank 0 [5; 6; 7; 8; 0; 0; 0; 0]%nat in
  @exchange_blocking fifo_mpi nat false (other_type 2) [a; b] 0 a = Some (Ok (Some <$> [1; 2; 3; 4; 5; 6; 0; 0]%nat)).
Proof. by vm_compute. Qed.
