(* ===== verification/Consolidation.v ===== *)
(** LOGS: consolidation of log records across processes
    (src/libs/logs/src/detail/consolidation.cpp).

    A record's key is its severity, an [int] (a [Severity_Level] has [int] as its
    underlying type), and its message.  [std::map] with [KeyCompare] is a list of entries in key
    order; strings compare byte by byte.  An [int] travels as its four bytes, lowest
    first, the order of the machines the code runs on.  [MPI_Gather] and [MPI_Gatherv]
    give the root the blocks of all processes in rank order; the sum of the block sizes
    is an [int] and must not overflow. *)
From Stdlib Require Import ZArith Lia String Ascii OrderedTypeEx.
From stdpp Require Import base list numbers sorting strings.
From S2P Require Import Prelude CInt.
Local Open Scope Z_scope.

(** ** Rank ranges *)

Record Rank_Range : Type := mkRankRange { first : Z; last : Z }.

(** [std::unique]: drops the repetitions of adjacent elements. *)
Fixpoint unique (l : list Z) : list Z :=
  match l with
  | x :: ((y :: _) as l') => if x =? y then unique l' else x :: unique l'
  | _ => l
  end.

(** The loop of [compact_ranges] with its three variables. *)
Fixpoint compact_loop (ranks : list Z) (out : list Rank_Range) (fst lst : Z) : list Rank_Range :=
  match ranks with
  | [] => app out [mkRankRange fst lst]
  | r :: ranks' =>
      if r =? lst + 1 then compact_loop ranks' out fst r
      else compact_loop ranks' (app out [mkRankRange fst lst]) r r
  end.

Definition compact_ranges (ranks : list Z) : list Rank_Range :=
  match unique (merge_sort Z.le ranks) with
  | [] => []
  | r :: ranks' => compact_loop ranks' [] r r
  end.

(** ** Keys and records *)

Record Consolidation_Key : Type := mkKey { severity : Z; message : string }.

#[export] Instance key_eq_dec : EqDecision Consolidation_Key.
Proof. solve_decision. Defined.

(** [KeyCompare] *)
Definition key_less (a b : Consolidation_Key) : bool :=
  if negb (severity a =? severity b) then severity a <? severity b
  else match String_as_OT.cmp (message a) (message b) with Lt => true | _ => false end.

Record Consolidated_Record : Type := mkConsolidated { key : Consolidation_Key; rank_count : Z; ranges : list Rank_Range }.

(** ** The wire format *)

Definition byte_at (n : Z) (i : Z) : ascii := ascii_of_N (Z.to_N (Z.shiftr (to_u32 n) (8 * i) mod 256)).
Definition int_bytes (n : Z) : list ascii := [byte_at n 0; byte_at n 1; byte_at n 2; byte_at n 3].
Definition byte_value (c : ascii) : Z := Z.of_N (N_of_ascii c).
Definition int_of_bytes (l : list ascii) : Z :=
  match l with
  | [a; b; c; d] => to_i32 (byte_value a + 256 * byte_value b + 65536 * byte_value c + 16777216 * byte_value d)
  | _ => 0
  end.

Definition chars (s : string) : list ascii := list_ascii_of_string s.

Definition serialize_record (k : Consolidation_Key) (rank : Z) (buffer : list ascii) : list ascii :=
  let msg_len := to_i32 (Z.of_nat (String.length (message k))) in
  app buffer (app (int_bytes (severity k)) (app (int_bytes msg_len) (app (chars (message k)) (int_bytes rank)))).

(** [groups[key].push_back(rank)] *)
Fixpoint push_rank (k : Consolidation_Key) (rank : Z) (groups : list (Consolidation_Key * list Z)) : list (Consolidation_Key * list Z) :=
  match groups with
  | [] => [(k, [rank])]
  | (k', ranks) :: groups' =>
      if key_less k k' then (k, [rank]) :: groups
      else if key_less k' k then (k', ranks) :: push_rank k rank groups'
      else (k', app ranks [rank]) :: groups'
  end.

(** The loop of [deserialize_records]; each iteration consumes at least twelve bytes, so the
    length of the buffer is enough fuel. *)
Fixpoint deserialize_loop (fuel : nat) (buffer : list ascii) (offset : nat) (groups : list (Consolidation_Key * list Z)) :
    list (Consolidation_Key * list Z) :=
  match fuel with
  | O => groups
  | S fuel' =>
      if (offset + 12 <=? length buffer)%nat then
        let sev := int_of_bytes (take 4 (drop offset buffer)) in
        let msg_len := int_of_bytes (take 4 (drop (offset + 4) buffer)) in
        let offset := (offset + 8)%nat in
        if (msg_len <? 0) || (length buffer <? offset + Z.to_nat msg_len + 4)%nat then groups
        else
          let msg := string_of_list_ascii (take (Z.to_nat msg_len) (drop offset buffer)) in
          let offset := (offset + Z.to_nat msg_len)%nat in
          let rank := int_of_bytes (take 4 (drop offset buffer)) in
          deserialize_loop fuel' buffer (offset + 4) (push_rank (mkKey sev msg) rank groups)
      else groups
  end.

Definition deserialize_records (buffer : list ascii) (groups : list (Consolidation_Key * list Z)) : list (Consolidation_Key * list Z) :=
  deserialize_loop (length buffer) buffer 0 groups.

(** ** The engine *)

(** The bytes a process contributes: its buffered keys with its rank. *)
Definition local_data (rank : Z) (buffered : list Consolidation_Key) : list ascii :=
  fold_left (fun buffer k => serialize_record k rank buffer) buffered [].

(** The record built for one group. *)
Definition consolidated (g : Consolidation_Key * list Z) : Consolidated_Record :=
  let ranges := compact_ranges (snd g) in
  mkConsolidated (fst g) (fold_left (fun count r => count + (last r - first r + 1)) ranges 0) ranges.

(** [consolidate_collective] on process [my_rank] when every process calls it, process [i]
    with the [i]-th buffer. *)
Definition consolidate_collective (my_rank : nat) (buffers : list (list Consolidation_Key)) : result (list Consolidated_Record) :=
  let blocks := imap (fun i buffered => local_data (Z.of_nat i) buffered) buffers in
  let all_data := mjoin blocks in
  if (my_rank =? 0)%nat then
    do! (if 2147483647 <? Z.of_nat (length all_data) then Undef else Ok tt) then
    Ok (consolidated <$> deserialize_records all_data [])
  else Ok [].

(** [seen[key] = true] *)
Fixpoint insert_key (k : Consolidation_Key) (seen : list Consolidation_Key) : list Consolidation_Key :=
  match seen with
  | [] => [k]
  | k' :: seen' => if key_less k k' then k :: seen else if key_less k' k then k' :: insert_key k seen' else seen
  end.

Definition consolidate_local (buffered : list Consolidation_Key) : list Consolidated_Record :=
  let seen := fold_left (fun seen k => insert_key k seen) buffered [] in
  (fun k => mkConsolidated k (Z.of_nat (length (filter (fun k' => k' = k) buffered))) [mkRankRange (-1) (-1)]) <$> seen.

(** ** Ranges *)

Definition within (r : Z) (g : Rank_Range) : Prop := first g <= r <= last g.
Definition covered (r : Z) (l : list Rank_Range) : Prop := exists g, g ∈ l /\ within r g.

(** Ranges in order, each apart from the next by at least one rank. *)
Definition apart (g g' : Rank_Range) : Prop := last g + 1 < first g'.
Definition compact (l : list Rank_Range) : Prop := StronglySorted apart l /\ Forall (fun g => first g <= last g) l.
Definition members (l : list Rank_Range) : Z := fold_right (fun g n => (last g - first g + 1) + n) 0 l.

Lemma unique_spec l : StronglySorted Z.le l -> StronglySorted Z.lt (unique l) /\ (forall x, x ∈ unique l <-> x ∈ l).
Proof.
  induction l as [|x l IH]; intros Hs; [split; [constructor|done]|].
  inversion Hs as [|? ? Hl Hx]; subst. destruct (IH Hl) as [Hu He].
  destruct l as [|y l]; [split; [repeat constructor|done]|].
  change (unique (x :: y :: l)) with (if x =? y then unique (y :: l) else x :: unique (y :: l)).
  destruct (Z.eqb_spec x y) as [->|Hne].
  - split; [done|]. intros z. rewrite He, !list.elem_of_cons. tauto.
  - split.
    + constructor; [done|]. apply list.Forall_forall. intros z Hz%He.
      assert (Hy : x <= y) by (rewrite list.Forall_forall in Hx; apply Hx; by left).
      inversion Hl as [|? ? _ Hyl]; subst. apply list.elem_of_cons in Hz as [->|Hz]; [lia|].
      rewrite list.Forall_forall in Hyl. specialize (Hyl z Hz). lia.
    + intros z. rewrite !(list.elem_of_cons _ z x), He. done.
Qed.

Lemma covered_cons r g l : covered r (g :: l) <-> within r g \/ covered r l.
Proof.
  unfold covered. setoid_rewrite list.elem_of_cons. split.
  - intros (g' & [->|Hg] & Hw); [by left|right; by exists g'].
  - intros [Hw|(g' & Hg & Hw)]; [exists g; auto|exists g'; auto].
Qed.

Lemma compact_loop_app ranks out a b : compact_loop ranks out a b = app out (compact_loop ranks [] a b).
Proof.
  revert out a b. induction ranks as [|r ranks IH]; intros out a b; [done|]. cbn [compact_loop].
  destruct (r =? b + 1); [apply IH|]. rewrite (IH (app out _)), (IH (app [] _)), <- app_assoc. done.
Qed.

Lemma compact_loop_spec ranks a b : a <= b -> StronglySorted Z.lt (b :: ranks) ->
  let l := compact_loop ranks [] a b in
  compact l /\ (forall r, covered r l <-> a <= r <= b \/ r ∈ ranks) /\ members l = b - a + 1 + Z.of_nat (length ranks) /\
  Forall (fun g => a <= first g) l.
Proof.
  cbv zeta. revert a b. induction ranks as [|r ranks IH]; intros a b Hab Hs; simpl.
  - split_and!; [split; repeat constructor; simpl; lia| |simpl; lia|repeat constructor; simpl; lia].
    intros r. rewrite covered_cons. unfold covered, within. simpl. split.
    + intros [H|(g & Hg & _)]; [by left|by apply not_elem_of_nil in Hg].
    + intros [H|H]; [by left|by apply not_elem_of_nil in H].
  - inversion Hs as [|? ? Hs' Hb]; subst. assert (Hbr : b < r) by (rewrite list.Forall_forall in Hb; apply Hb; by left).
    destruct (Z.eqb_spec r (b + 1)) as [->|Hne].
    + destruct (IH a (b + 1) ltac:(lia) Hs') as (Hc & Hm & Hn & Hf). split_and!; [done| |lia|done].
      intros x. rewrite Hm, list.elem_of_cons. split.
      * intros [H|H]; [|auto]. destruct (decide (x = b + 1)); [auto|left; lia].
      * intros [H|[->|H]]; [left; lia|left; lia|auto].
    + rewrite compact_loop_app. destruct (IH r r ltac:(lia) Hs') as ((Hc & Hw) & Hm & Hn & Hf). cbn [app].
      split_and!.
      * split; [|constructor; [done|done]]. constructor; [done|]. apply list.Forall_forall. intros g Hg.
        rewrite list.Forall_forall in Hf. specialize (Hf g Hg). unfold apart. simpl. lia.
      * intros x. rewrite covered_cons, Hm, list.elem_of_cons. unfold within. simpl. split.
        -- intros [H|[H|H]]; [auto|right; left; lia|auto].
        -- intros [H|[->|H]]; [auto|right; left; lia|auto].
      * simpl. simpl in Hn. lia.
      * constructor; [simpl; lia|]. apply list.Forall_forall. intros g Hg. rewrite list.Forall_forall in Hf. specialize (Hf g Hg). lia.
Qed.

Lemma strictly_sorted_NoDup l : StronglySorted Z.lt l -> NoDup l.
Proof.
  induction 1 as [|x l Hs IH Hx]; constructor; [|done]. intros Hin. rewrite list.Forall_forall in Hx. specialize (Hx x Hin). lia.
Qed.

Lemma compact_ranges_spec ranks : let l := compact_ranges ranks in
  compact l /\ (forall r, covered r l <-> r ∈ ranks) /\ members l = Z.of_nat (length (remove_dups ranks)).
Proof.
  cbv zeta. unfold compact_ranges.
  destruct (unique_spec (merge_sort Z.le ranks)) as [Hu He]; [apply (StronglySorted_merge_sort Z.le); apply _|].
  assert (Hin : forall x, x ∈ unique (merge_sort Z.le ranks) <-> x ∈ ranks) by (intros x; rewrite He; by rewrite merge_sort_Permutation).
  assert (Hlen : length (unique (merge_sort Z.le ranks)) = length (remove_dups ranks)).
  { apply Permutation_length, NoDup_Permutation; [by apply strictly_sorted_NoDup|apply NoDup_remove_dups|].
    intros x. rewrite Hin. symmetry. apply elem_of_remove_dups. }
  destruct (unique (merge_sort Z.le ranks)) as [|r l].
  - split_and!; [split; constructor| |by rewrite <- Hlen]. intros x. rewrite <- Hin. unfold covered.
    split; [intros (g & Hg & _)|intros Hg]; by apply not_elem_of_nil in Hg.
  - destruct (compact_loop_spec l r r ltac:(lia) Hu) as (Hc & Hm & Hn & _). split_and!; [done| |].
    + intros x. rewrite Hm, <- Hin, list.elem_of_cons. split; (intros [H|H]; [left; lia|auto]).
    + rewrite Hn, <- Hlen. simpl. lia.
Qed.

(** Everything a compact list covers after its first range lies beyond a gap. *)
Lemma compact_tail g l r : compact (g :: l) -> covered r l -> last g + 1 < r.
Proof.
  intros [Hs _] (g' & Hg & Hw). inversion Hs as [|? ? _ Ha]; subst. rewrite list.Forall_forall in Ha.
  specialize (Ha g' Hg). unfold apart, within in *. lia.
Qed.

Lemma compact_head g l : compact (g :: l) -> covered (first g) (g :: l) /\ covered (last g) (g :: l) /\
  forall r, covered r (g :: l) -> first g <= r.
Proof.
  intros Hc. pose proof Hc as [_ Hf]. apply Forall_cons_iff in Hf as [Hg _]. rewrite !covered_cons. unfold within.
  split_and!; [left; lia|left; lia|]. intros r Hr. apply covered_cons in Hr as [Hr|Hr]; [unfold within in Hr; lia|].
  pose proof (compact_tail g l r Hc Hr). lia.
Qed.

Lemma compact_last_le g l g' l' : compact (g :: l) -> compact (g' :: l') -> first g = first g' ->
  (forall r, covered r (g :: l) <-> covered r (g' :: l')) -> last g' <= last g.
Proof.
  intros Hc Hc' E He. pose proof (compact_head _ _ Hc) as (_ & Hl & _). pose proof (compact_head _ _ Hc') as (_ & Hl' & _).
  destruct (decide (last g' <= last g)) as [|Hgt]; [done|].
  assert (H : covered (last g + 1) (g :: l)).
  { apply He, covered_cons. left. unfold within. destruct Hc as [_ Hf]. apply Forall_cons_iff in Hf as [Hf _]. lia. }
  apply covered_cons in H as [H|H]; [unfold within in H; lia|]. pose proof (compact_tail g l _ Hc H). lia.
Qed.

Lemma compact_unique l l' : compact l -> compact l' -> (forall r, covered r l <-> covered r l') -> l = l'.
Proof.
  revert l'. induction l as [|g l IH]; intros [|g' l'] Hc Hc' He; [done| | |].
  - destruct (compact_head _ _ Hc') as (H & _). apply He in H as (? & H & _). by apply not_elem_of_nil in H.
  - destruct (compact_head _ _ Hc) as (H & _). apply He in H as (? & H & _). by apply not_elem_of_nil in H.
  - pose proof (compact_head _ _ Hc) as (Hf & Hl & Hm). pose proof (compact_head _ _ Hc') as (Hf' & Hl' & Hm').
    assert (Ef : first g = first g') by (apply Z.le_antisymm; [apply Hm, He|apply Hm', He]; done).
    assert (El : last g = last g').
    { apply Z.le_antisymm; [|by apply (compact_last_le g l g' l')].
      apply (compact_last_le g' l' g l); try done. }
    assert (Eg : g = g') by (destruct g, g'; simpl in *; congruence). subst g'. f_equal. apply IH.
    + destruct Hc as [Hs Hg]. inversion Hs. by apply Forall_cons_iff in Hg as [_ Hg].
    + destruct Hc' as [Hs Hg]. inversion Hs. by apply Forall_cons_iff in Hg as [_ Hg].
    + assert (Hsub : forall a b r, compact (g :: a) -> (forall x, covered x (g :: a) -> covered x (g :: b)) -> covered r a -> covered r b).
      { intros a b r Ha Hab Hr. pose proof (compact_tail g a r Ha Hr) as Hgt.
        assert (H : covered r (g :: b)) by (apply Hab, covered_cons; by right).
        apply covered_cons in H as [H|H]; [unfold within in H; lia|done]. }
      intros r. split; [apply (Hsub l l' r Hc)|apply (Hsub l' l r Hc')]; intros x; by rewrite He.
Qed.

(** Range compaction, for any list of ranks: the ranges are in order, none touches the
    next, they cover exactly the ranks of the list, and together hold as many ranks as
    the list has distinct ones; and they are the only such list of ranges. *)
Theorem compact_ranges_correct ranks :
  compact (compact_ranges ranks) /\ (forall r, covered r (compact_ranges ranks) <-> r ∈ ranks) /\
  members (compact_ranges ranks) = Z.of_nat (length (remove_dups ranks)) /\
  (forall l, compact l -> (forall r, covered r l <-> r ∈ ranks) -> l = compact_ranges ranks).
Proof.
  destruct (compact_ranges_spec ranks) as (Hc & He & Hn). split_and!; try done.
  intros l Hl Hcov. apply compact_unique; try done. intros r. by rewrite Hcov, He.
Qed.

(** ** The wire format *)

Lemma byte_value_byte n i : 0 <= i -> byte_value (byte_at n i) = (to_u32 n / 2 ^ (8 * i)) mod 256.
Proof.
  intros Hi. unfold byte_value, byte_at. pose proof (Z.mod_pos_bound (Z.shiftr (to_u32 n) (8 * i)) 256 ltac:(lia)).
  rewrite N_ascii_embedding by lia. rewrite Z2N.id by lia. by rewrite Z.shiftr_div_pow2 by lia.
Qed.

Lemma int_bytes_roundtrip n : imin I32 <= n <= imax I32 -> int_of_bytes (int_bytes n) = n.
Proof.
  intros Hn. unfold int_of_bytes, int_bytes. rewrite !byte_value_byte by lia.
  assert (E : forall u, 0 <= u < 4294967296 -> (u / 2 ^ (8 * 0)) mod 256 + 256 * ((u / 2 ^ (8 * 1)) mod 256) +
    65536 * ((u / 2 ^ (8 * 2)) mod 256) + 16777216 * ((u / 2 ^ (8 * 3)) mod 256) = u).
  { intros u Hu. change (2 ^ (8 * 0)) with 1. change (2 ^ (8 * 1)) with 256. change (2 ^ (8 * 2)) with 65536. change (2 ^ (8 * 3)) with 16777216.
    Z.to_euclidean_division_equations. lia. }
  rewrite E by (apply Z.mod_pos_bound; lia). unfold to_i32, to_u32. rewrite Z.add_mod_idemp_l by lia.
  cbn in Hn. rewrite Z.mod_small by lia. lia.
Qed.

Lemma length_int_bytes n : length (int_bytes n) = 4%nat.
Proof. reflexivity. Qed.

Definition record_bytes (kr : Consolidation_Key * Z) : list ascii :=
  app (int_bytes (severity (fst kr))) (app (int_bytes (Z.of_nat (String.length (message (fst kr)))))
    (app (chars (message (fst kr))) (int_bytes (snd kr)))).

(** A record the format can carry. *)
Definition wire_ok (kr : Consolidation_Key * Z) : Prop :=
  imin I32 <= severity (fst kr) <= imax I32 /\ Z.of_nat (String.length (message (fst kr))) < 2147483648 /\
  imin I32 <= snd kr <= imax I32.

Lemma length_chars s : length (chars s) = String.length s.
Proof. induction s as [|c s IH]; [done|]. simpl. by rewrite <- IH. Qed.

Lemma slice_at (pre x post : list ascii) o n : o = length pre -> n = length x -> take n (drop o (app pre (app x post))) = x.
Proof. intros -> ->. by rewrite drop_app_length, take_app_length. Qed.

Lemma deserialize_step fuel pre kr post groups : wire_ok kr ->
  deserialize_loop (S fuel) (app pre (app (record_bytes kr) post)) (length pre) groups =
  deserialize_loop fuel (app pre (app (record_bytes kr) post)) (length pre + length (record_bytes kr)) (push_rank (fst kr) (snd kr) groups).
Proof.
  intros (Hs & Hm & Hr). destruct kr as [[sev msg] rank]. cbn [fst snd severity message] in *.
  set (len := String.length msg) in *.
  assert (Hlb : length (record_bytes (mkKey sev msg, rank)) = (12 + len)%nat).
  { unfold record_bytes. cbn [fst snd severity message]. rewrite !length_app, !length_int_bytes, length_chars. unfold len. lia. }
  set (buf := app pre (app (record_bytes (mkKey sev msg, rank)) post)).
  assert (Hbuf : length buf = (length pre + (12 + len) + length post)%nat) by (unfold buf; rewrite !length_app, Hlb; lia).
  assert (E1 : take 4 (drop (length pre) buf) = int_bytes sev).
  { unfold buf, record_bytes. cbn [fst snd severity message]. rewrite <- !app_assoc. by apply slice_at. }
  assert (E2 : take 4 (drop (length pre + 4) buf) = int_bytes (Z.of_nat len)).
  { unfold buf, record_bytes. cbn [fst snd severity message]. rewrite <- !app_assoc. rewrite (app_assoc pre). apply slice_at; [|done].
    rewrite length_app, length_int_bytes. lia. }
  assert (E3 : take len (drop (length pre + 4 + 4) buf) = chars msg).
  { unfold buf, record_bytes. cbn [fst snd severity message]. rewrite <- !app_assoc. rewrite (app_assoc pre), (app_assoc (app pre _)).
    apply slice_at; [|by rewrite length_chars]. rewrite !length_app, !length_int_bytes. lia. }
  assert (E4 : take 4 (drop (length pre + 4 + 4 + len) buf) = int_bytes rank).
  { unfold buf, record_bytes. cbn [fst snd severity message]. rewrite <- !app_assoc.
    rewrite (app_assoc pre), (app_assoc (app pre _)), (app_assoc (app (app pre _) _)).
    apply slice_at; [|done]. rewrite !length_app, !length_int_bytes, length_chars. unfold len. lia. }
  cbn [deserialize_loop]. rewrite (proj2 (Nat.leb_le (length pre + 12) (length buf))) by lia.
  rewrite E1, E2, !int_bytes_roundtrip by (done || (cbn; lia)).
  rewrite (proj2 (Z.ltb_ge (Z.of_nat len) 0)) by lia. rewrite Nat2Z.id.
  rewrite (proj2 (Nat.ltb_ge (length buf) (length pre + 8 + len + 4))) by lia. cbn [orb].
  replace (length pre + 8)%nat with (length pre + 4 + 4)%nat by lia. rewrite E3, E4, int_bytes_roundtrip by done.
  unfold chars. rewrite string_of_list_ascii_of_string. f_equal. lia.
Qed.

Definition push_all (l : list (Consolidation_Key * Z)) (groups : list (Consolidation_Key * list Z)) : list (Consolidation_Key * list Z) :=
  fold_left (fun groups kr => push_rank (fst kr) (snd kr) groups) l groups.

Lemma deserialize_all l fuel pre groups : Forall wire_ok l -> (length l <= fuel)%nat ->
  deserialize_loop fuel (app pre (mjoin (record_bytes <$> l))) (length pre) groups = push_all l groups.
Proof.
  revert fuel pre groups. induction l as [|kr l IH]; intros fuel pre groups Hw Hf.
  - cbn. rewrite app_nil_r. destruct fuel as [|fuel]; [done|]. cbn [deserialize_loop].
    by rewrite (proj2 (Nat.leb_gt (length pre + 12) (length pre))) by lia.
  - apply Forall_cons_iff in Hw as [Hk Hw]. destruct fuel as [|fuel]; [simpl in Hf; lia|].
    change (mjoin (record_bytes <$> kr :: l)) with (app (record_bytes kr) (mjoin (record_bytes <$> l))).
    rewrite deserialize_step by done. rewrite app_assoc, <- length_app. simpl in Hf. apply IH; [done|lia].
Qed.

Lemma records_longer l : (length l <= length (mjoin (record_bytes <$> l)))%nat.
Proof.
  induction l as [|kr l IH]; [done|]. change (mjoin (record_bytes <$> kr :: l)) with (app (record_bytes kr) (mjoin (record_bytes <$> l))).
  rewrite length_app. unfold record_bytes at 1. rewrite !length_app, !length_int_bytes. simpl. lia.
Qed.

Lemma local_data_spec rank buffered : Forall (fun k => wire_ok (k, rank)) buffered ->
  local_data rank buffered = mjoin (record_bytes <$> ((fun k => (k, rank)) <$> buffered)).
Proof.
  unfold local_data. cut (forall buffer, Forall (fun k => wire_ok (k, rank)) buffered ->
    fold_left (fun buffer k => serialize_record k rank buffer) buffered buffer =
    app buffer (mjoin (record_bytes <$> ((fun k => (k, rank)) <$> buffered)))).
  { intros H Hw. by rewrite H. }
  induction buffered as [|k l IH]; intros buffer Hw; [simpl; by rewrite app_nil_r|].
  apply Forall_cons_iff in Hw as [(_ & Hm & _) Hw]. cbn [fold_left]. rewrite IH by done. rewrite !fmap_cons.
  change (mjoin (?x :: ?y)) with (app x (mjoin y)). unfold serialize_record, record_bytes at 2. cbn [fst snd].
  cbn [fst] in Hm. rewrite to_i32_id by (cbn; lia). by rewrite <- !app_assoc.
Qed.

(** ** The order of keys and the map *)

Lemma key_less_spec a b : key_less a b = true <->
  severity a < severity b \/ (severity a = severity b /\ String_as_OT.lt (message a) (message b)).
Proof.
  unfold key_less. rewrite <- String_as_OT.cmp_lt.
  destruct (Z.eqb_spec (severity a) (severity b)) as [E|E]; simpl.
  - destruct (String_as_OT.cmp _ _); split; try done; try (intros [?|[_ ?]]; [lia|done]); auto.
  - rewrite Z.ltb_lt. split; [auto|]. intros [?|[? _]]; [done|lia].
Qed.

Lemma key_less_trans a b c : key_less a b = true -> key_less b c = true -> key_less a c = true.
Proof.
  rewrite !key_less_spec. intros [?|[E1 L1]] [?|[E2 L2]]; [left; lia..|right].
  split; [lia|]. by apply (String_as_OT.lt_trans _ (message b)).
Qed.

Lemma key_less_irrefl a : key_less a a = false.
Proof.
  unfold key_less. rewrite Z.eqb_refl. simpl. by rewrite (proj2 (String_as_OT.cmp_eq (message a) (message a)) eq_refl).
Qed.

Lemma key_less_total a b : key_less a b = false -> key_less b a = false -> a = b.
Proof.
  unfold key_less. rewrite (Z.eqb_sym (severity b)). destruct (Z.eqb_spec (severity a) (severity b)) as [E|E]; simpl.
  - rewrite (String_as_OT.cmp_antisym (message b)). destruct (String_as_OT.cmp (message a) (message b)) eqn:C; try done.
    intros _ _. apply String_as_OT.cmp_eq in C. destruct a, b. simpl in *. congruence.
  - rewrite !Z.ltb_ge. lia.
Qed.

Definition in_key_order (l : list Consolidation_Key) : Prop := StronglySorted (fun a b => key_less a b = true) l.

Fixpoint ranks_of (k : Consolidation_Key) (groups : list (Consolidation_Key * list Z)) : list Z :=
  match groups with [] => [] | (k', rs) :: groups' => if decide (k' = k) then rs else ranks_of k groups' end.

Lemma ranks_of_absent k groups : k ∉ groups.*1 -> ranks_of k groups = [].
Proof.
  induction groups as [|[k' rs] groups IH]; [done|]. simpl. rewrite list.not_elem_of_cons. intros [Hne Hk].
  rewrite decide_False by congruence. by apply IH.
Qed.

Lemma in_order_absent k l : in_key_order l -> Forall (fun k' => key_less k k' = true) l -> k ∉ l.
Proof. intros _ Hf Hin. rewrite list.Forall_forall in Hf. specialize (Hf k Hin). by rewrite key_less_irrefl in Hf. Qed.

Lemma push_rank_spec k r groups : in_key_order groups.*1 ->
  in_key_order (push_rank k r groups).*1 /\
  (forall k', k' ∈ (push_rank k r groups).*1 <-> k' = k \/ k' ∈ groups.*1) /\
  (forall k', ranks_of k' (push_rank k r groups) = if decide (k' = k) then app (ranks_of k groups) [r] else ranks_of k' groups).
Proof.
  induction groups as [|[k0 rs] groups IH]; intros Hs.
  - simpl. split_and!; [repeat constructor| |].
    + intros k'. rewrite list_elem_of_singleton. split; [auto|by intros [?|?%not_elem_of_nil]].
    + intros k'. destruct (decide (k = k')), (decide (k' = k)); congruence.
  - rewrite fmap_cons in Hs. inversion Hs as [|? ? Hs' Hf]; subst. cbn [fst] in Hf. cbn [push_rank].
    destruct (key_less k k0) eqn:L1; [|destruct (key_less k0 k) eqn:L2].
    + assert (Hall : Forall (fun k' => key_less k k' = true) (k0 :: groups.*1)).
      { constructor; [done|]. eapply Forall_impl; [exact Hf|]. cbn. intros k' H. by apply (key_less_trans k k0 k'). }
      rewrite !fmap_cons. cbn [fst]. split_and!.
      * by constructor.
      * intros k'. by rewrite (list.elem_of_cons _ k' k).
      * intros k'. cbn [ranks_of]. destruct (decide (k = k')), (decide (k' = k)); try congruence.
        pose proof (ranks_of_absent k ((k0, rs) :: groups)) as Ha. cbn [ranks_of] in Ha. rewrite Ha; [done|].
        rewrite fmap_cons. by apply in_order_absent.
    + destruct (IH Hs') as (I1 & I2 & I3). rewrite !fmap_cons. cbn [fst]. split_and!.
      * constructor; [done|]. apply list.Forall_forall. intros k' Hk'%I2. destruct Hk' as [->|Hk']; [done|].
        rewrite list.Forall_forall in Hf. by apply Hf.
      * intros k'. rewrite !list.elem_of_cons, I2. tauto.
      * intros k'. cbn [ranks_of]. rewrite I3. assert (k0 <> k) by (intros ->; by rewrite key_less_irrefl in L2).
        rewrite (decide_False (P := k0 = k)) by done. destruct (decide (k0 = k')), (decide (k' = k)); congruence.
    + pose proof (key_less_total _ _ L1 L2) as ->. rewrite !fmap_cons. cbn [fst]. split_and!; [done| |].
      * intros k'. rewrite list.elem_of_cons. tauto.
      * intros k'. cbn [ranks_of]. rewrite (decide_True (P := k0 = k0)) by done.
        destruct (decide (k0 = k')), (decide (k' = k0)); congruence.
Qed.

Lemma push_all_spec l : 
  in_key_order (push_all l []).*1 /\ (forall k, k ∈ (push_all l []).*1 <-> k ∈ l.*1) /\
  (forall k, ranks_of k (push_all l []) = (filter (fun kr => fst kr = k) l).*2).
Proof.
  induction l as [|[k r] l IH] using rev_ind.
  { split_and!; [constructor|done|done]. }
  destruct IH as (I1 & I2 & I3). unfold push_all. rewrite fold_left_app. fold (push_all l []). cbn [fold_left fst snd].
  destruct (push_rank_spec k r (push_all l []) I1) as (P1 & P2 & P3). split_and!; [done| |].
  - intros k'. rewrite P2, I2, fmap_app, elem_of_app. cbn. rewrite list_elem_of_singleton. tauto.
  - intros k'. rewrite P3, filter_app, fmap_app. rewrite !I3, filter_cons. cbn [fst].
    destruct (decide (k' = k)) as [->|Hne]; [by rewrite decide_True|]. rewrite decide_False by congruence. by rewrite app_nil_r.
Qed.

Lemma group_ranks k rs groups : in_key_order groups.*1 -> (k, rs) ∈ groups -> rs = ranks_of k groups.
Proof.
  induction groups as [|[k' rs'] groups IH]; intros Hs Hin; [by apply not_elem_of_nil in Hin|].
  rewrite fmap_cons in Hs. inversion Hs as [|? ? Hs' Hf]; subst. cbn [fst ranks_of] in *.
  apply list.elem_of_cons in Hin as [E|Hin]; [injection E as <- <-; by rewrite decide_True|].
  rewrite decide_False; [by apply IH|]. intros ->. apply (in_order_absent k groups.*1 Hs' Hf).
  by apply (list_elem_of_fmap_2 fst) in Hin.
Qed.

(** ** The engine *)

(** The records that reach the root, in order. *)
Definition gathered (buffers : list (list Consolidation_Key)) : list (Consolidation_Key * Z) :=
  mjoin (imap (fun i buffered => (fun k => (k, Z.of_nat i)) <$> buffered) buffers).

Lemma elem_of_gathered buffers k r : (k, r) ∈ gathered buffers <-> exists i b, r = Z.of_nat i /\ buffers !! i = Some b /\ k ∈ b.
Proof.
  unfold gathered. rewrite list_elem_of_join. split.
  - intros (l & Hin & Hl). apply list_elem_of_lookup in Hl as (i & Ei). rewrite list_lookup_imap in Ei.
    destruct (buffers !! i) as [b|] eqn:Eb; [|done]. injection Ei as <-.
    apply list_elem_of_fmap in Hin as (k' & [= -> ->] & Hk). by exists i, b.
  - intros (i & b & -> & Eb & Hk). exists ((fun k => (k, Z.of_nat i)) <$> b). split; [by apply (list_elem_of_fmap_2 (fun k => (k, Z.of_nat i)))|].
    apply (list_elem_of_lookup_2 _ i). by rewrite list_lookup_imap, Eb.
Qed.

(** What every process may send. *)
Definition sendable (buffers : list (list Consolidation_Key)) : Prop :=
  forall i b k, buffers !! i = Some b -> k ∈ b -> wire_ok (k, Z.of_nat i).

Lemma join_blocks (f : nat -> Consolidation_Key -> Consolidation_Key * Z) buffers :
  mjoin (imap (fun i b => mjoin (record_bytes <$> (f i <$> b))) buffers) =
  mjoin (record_bytes <$> mjoin (imap (fun i b => f i <$> b) buffers)).
Proof.
  revert f. induction buffers as [|b l IH]; intros f; [done|]. rewrite !imap_cons.
  change (mjoin ((f 0%nat <$> b) :: ?y)) with (app (f 0%nat <$> b) (mjoin y)).
  rewrite fmap_app, join_app. change (mjoin (?x :: ?y)) with (app x (mjoin y)). f_equal. exact (IH (fun i => f (S i))).
Qed.

Lemma blocks_spec buffers : sendable buffers ->
  mjoin (imap (fun i buffered => local_data (Z.of_nat i) buffered) buffers) = mjoin (record_bytes <$> gathered buffers).
Proof.
  unfold gathered. intros Hs.
  transitivity (mjoin (imap (fun i b => mjoin (record_bytes <$> ((fun k => (k, Z.of_nat i)) <$> b))) buffers)).
  - f_equal. apply imap_ext. intros i b Eb. apply local_data_spec. apply list.Forall_forall. intros k Hk. by apply (Hs i b k).
  - exact (join_blocks (fun i k => (k, Z.of_nat i)) buffers).
Qed.

Lemma total_count l : fold_left (fun count r => count + (last r - first r + 1)) l 0 = members l.
Proof.
  cut (forall n, fold_left (fun count r => count + (last r - first r + 1)) l n = n + members l); [intros H; by rewrite H|].
  induction l as [|g l IH]; intros n; simpl; [lia|]. rewrite IH. lia.
Qed.

(** The processes that buffered a key. *)
Definition holders (k : Consolidation_Key) (buffers : list (list Consolidation_Key)) : list nat :=
  filter (fun i => k ∈ buffers !!! i) (seq 0 (length buffers)).

Lemma elem_of_holders k buffers i : i ∈ holders k buffers <-> exists b, buffers !! i = Some b /\ k ∈ b.
Proof.
  unfold holders. rewrite list_elem_of_filter, elem_of_seq. split.
  - intros [Hk Hi]. destruct (lookup_lt_is_Some_2 buffers i ltac:(lia)) as [b Eb]. exists b.
    by rewrite (list_lookup_total_correct _ _ _ Eb) in Hk.
  - intros (b & Eb & Hk). rewrite (list_lookup_total_correct _ _ _ Eb). split; [done|]. apply lookup_lt_Some in Eb. lia.
Qed.

Lemma holder_ranks k buffers x : x ∈ (filter (fun kr => fst kr = k) (gathered buffers)).*2 <-> x ∈ Z.of_nat <$> holders k buffers.
Proof.
  rewrite !list_elem_of_fmap. split.
  - intros ([k' r] & -> & [Ek Hin]%list_elem_of_filter). cbn in *. subst k'. apply elem_of_gathered in Hin as (i & b & -> & Eb & Hk).
    exists i. split; [done|]. apply elem_of_holders. by exists b.
  - intros (i & -> & (b & Eb & Hk)%elem_of_holders). exists (k, Z.of_nat i). split; [done|].
    apply list_elem_of_filter. split; [done|]. apply elem_of_gathered. by exists i, b.
Qed.

(** C21. Collective consolidation.  Any number of processes that all call it, with any
    buffered records whose severities are [int]s and whose messages have fewer than 2^31
    bytes, as long as the data gathered fits in an [int]: a process other than the root
    gets nothing; the root gets one record for each distinct key, in key order; the
    record's ranges are the compact ranges of the processes that buffered the key, and
    its count is their number. *)
Theorem consolidate_collective_correct my_rank buffers :
  sendable buffers -> Z.of_nat (length (mjoin (record_bytes <$> gathered buffers))) <= 2147483647 ->
  exists recs, consolidate_collective my_rank buffers = Ok recs /\
    (my_rank <> 0%nat -> recs = []) /\
    (my_rank = 0%nat ->
       in_key_order (key <$> recs) /\
       (forall k, k ∈ (key <$> recs) <-> exists i b, buffers !! i = Some b /\ k ∈ b) /\
       (forall rec, rec ∈ recs ->
          compact (ranges rec) /\ (forall r, covered r (ranges rec) <-> r ∈ Z.of_nat <$> holders (key rec) buffers) /\
          rank_count rec = Z.of_nat (length (holders (key rec) buffers)))).
Proof.
  intros Hs Hlen. unfold consolidate_collective. rewrite blocks_spec by done.
  destruct (Nat.eqb_spec my_rank 0) as [->|Hne]; [|by exists []].
  rewrite (proj2 (Z.ltb_ge _ _) Hlen). cbn [bind].
  assert (Ed : deserialize_records (mjoin (record_bytes <$> gathered buffers)) [] = push_all (gathered buffers) []).
  { apply (deserialize_all (gathered buffers) _ [] []); [|apply records_longer]. apply list.Forall_forall. intros [k r] Hin.
    apply elem_of_gathered in Hin as (i & b & -> & Eb & Hk). by apply (Hs i b k). }
  rewrite Ed. destruct (push_all_spec (gathered buffers)) as (P1 & P2 & P3). eexists. split; [reflexivity|]. split; [done|]. intros _.
  assert (Ek : key <$> (consolidated <$> push_all (gathered buffers) []) = (push_all (gathered buffers) []).*1)
    by (rewrite <- list_fmap_compose; by apply list_fmap_ext).
  rewrite Ek. split_and!; [done| |].
  - intros k. rewrite P2, list_elem_of_fmap. split.
    + intros ([k' r] & -> & (i & b & -> & Eb & Hk)%elem_of_gathered). by exists i, b.
    + intros (i & b & Eb & Hk). exists (k, Z.of_nat i). split; [done|]. apply elem_of_gathered. by exists i, b.
  - intros rec ([k rs] & -> & Hg)%list_elem_of_fmap. unfold consolidated. cbn [key ranges rank_count fst snd].
    rewrite total_count. pose proof (group_ranks k rs _ P1 Hg) as ->. rewrite P3.
    destruct (compact_ranges_spec (filter (fun kr => fst kr = k) (gathered buffers)).*2) as (Hc & Hm & Hn). split_and!; [done| |].
    + intros r. by rewrite Hm, holder_ranks.
    + rewrite Hn, <- (length_fmap Z.of_nat (holders k buffers)). f_equal. apply Permutation_length, NoDup_Permutation.
      * apply NoDup_remove_dups.
      * apply NoDup_fmap_2; [apply _|]. apply NoDup_filter, NoDup_seq.
      * intros x. by rewrite elem_of_remove_dups, holder_ranks.
Qed.

Definition demo_buffers : list (list Consolidation_Key) :=
  [[mkKey 2 "low flux"; mkKey 1 "start"; mkKey 2 "low flux"]; [mkKey 1 "start"]; []; [mkKey 1 "start"]].

Example consolidate_collective_correct_witness : exists recs, consolidate_collective 0 demo_buffers = Ok recs /\
  in_key_order (key <$> recs) /\
  recs = [mkConsolidated (mkKey 1 "start") 3 [mkRankRange 0 1; mkRankRange 3 3]; mkConsolidated (mkKey 2 "low flux") 1 [mkRankRange 0 0]].
Proof.
  destruct (consolidate_collective_correct 0 demo_buffers) as (recs & E & _ & H).
  - intros i b k Eb Hk. destruct i as [|[|[|[|i]]]]; try discriminate Eb; injection Eb as <-.
    all: repeat (apply list.elem_of_cons in Hk as [->|Hk]; [split_and!; cbn; lia|]); by apply not_elem_of_nil in Hk.
  - apply Z.leb_le. by vm_compute.
  - exists recs. split_and!; [exact E|exact (proj1 (H eq_refl))|]. revert E. vm_compute. by intros [= <-].
Defined.

(** *** The local path *)

Lemma insert_key_spec k seen : in_key_order seen ->
  in_key_order (insert_key k seen) /\ (forall k', k' ∈ insert_key k seen <-> k' = k \/ k' ∈ seen).
Proof.
  induction seen as [|k0 seen IH]; intros Hs.
  - split; [repeat constructor|]. intros k'. simpl. rewrite list_elem_of_singleton. split; [auto|by intros [?|?%not_elem_of_nil]].
  - pose proof Hs as Hs0. inversion Hs as [|? ? Hs' Hf]; subst. cbn [insert_key]. destruct (key_less k k0) eqn:L1; [|destruct (key_less k0 k) eqn:L2].
    + split; [|intros k'; by rewrite (list.elem_of_cons _ k' k)]. constructor; [done|]. constructor; [done|].
      eapply Forall_impl; [exact Hf|]. cbn. intros k' H. by apply (key_less_trans k k0 k').
    + destruct (IH Hs') as (I1 & I2). split.
      * constructor; [done|]. apply list.Forall_forall. intros k' Hk'%I2. destruct Hk' as [->|Hk']; [done|].
        rewrite list.Forall_forall in Hf. by apply Hf.
      * intros k'. rewrite !list.elem_of_cons, I2. tauto.
    + pose proof (key_less_total _ _ L1 L2) as ->. split; [done|]. intros k'. rewrite list.elem_of_cons. tauto.
Qed.

(** Local consolidation: one record for each distinct key, in key order, with the number of
    records of that key and the sentinel range. *)
Theorem consolidate_local_correct buffered : let recs := consolidate_local buffered in
  in_key_order (key <$> recs) /\ (forall k, k ∈ (key <$> recs) <-> k ∈ buffered) /\
  (forall rec, rec ∈ recs -> rank_count rec = Z.of_nat (length (filter (fun k => k = key rec) buffered)) /\
     ranges rec = [mkRankRange (-1) (-1)]).
Proof.
  cbv zeta. unfold consolidate_local.
  assert (H : forall l, in_key_order (fold_left (fun seen k => insert_key k seen) l []) /\
    (forall k, k ∈ fold_left (fun seen k => insert_key k seen) l [] <-> k ∈ l)).
  { intros l. induction l as [|k l [I1 I2]] using rev_ind; [by split; [constructor|]|]. rewrite fold_left_app. cbn [fold_left].
    destruct (insert_key_spec k _ I1) as [P1 P2]. split; [done|]. intros k'. rewrite P2, I2, elem_of_app, list_elem_of_singleton. tauto. }
  destruct (H buffered) as [H1 H2]. set (seen := fold_left _ buffered []) in *.
  set (mk := fun k => _). assert (Ek : key <$> (mk <$> seen) = seen).
  { rewrite <- list_fmap_compose. rewrite <- (list_fmap_id seen) at 2. by apply list_fmap_ext. }
  rewrite Ek. split_and!; [done|done|]. intros rec (k & -> & _)%list_elem_of_fmap. done.
Qed.
