(* ===== verification/Logger.v ===== *)
(** LOGS: records, contexts and the logger
    (src/libs/logs/src/logger.cpp, severity.cpp, sink.cpp, scoped_context.cpp,
    detail/context_stack.cpp, stack_trace.cpp, log_record.cpp).

    The threads of a process share one logger.  A call runs as a sequence of steps, one
    per atomic load or critical section, and the threads' steps interleave freely.  A
    sink is a stream, given by the texts it has been asked to write: whether the stream
    accepts them is not the logger's business, since it ignores the answer.  Allocation
    failures, which the logger absorbs, are not modelled; nor are the source location
    and the stack trace of a record, which no output shows.  The records a collective
    consolidation yields are those of Consolidation.v; here they are any list. *)
From Stdlib Require Import ZArith Lia String Ascii.
From stdpp Require Import base list numbers strings pretty sorting relations.
From S2P Require Import Prelude ListExtra Consolidation.
Local Open Scope string_scope.
Local Open Scope Z_scope.

(** ** Severities *)

Inductive Severity_Level : Type := DEBUG | INFO | WARNING | ERROR | FATAL.
Definition level_value (l : Severity_Level) : Z := match l with DEBUG => 0 | INFO => 1 | WARNING => 2 | ERROR => 3 | FATAL => 4 end.
Definition severity_label (l : Severity_Level) : string :=
  match l with DEBUG => "DEBUG" | INFO => "INFO" | WARNING => "WARNING" | ERROR => "ERROR" | FATAL => "FATAL" end.

(** [to_string] of a level read from an [int]. *)
Definition to_string (n : Z) : string :=
  if n =? 0 then "DEBUG" else if n =? 1 then "INFO" else if n =? 2 then "WARNING"
  else if n =? 3 then "ERROR" else if n =? 4 then "FATAL" else "UNKNOWN".

#[export] Instance level_eq_dec : EqDecision Severity_Level.
Proof. solve_decision. Defined.

(** ** Records and their text *)

Record Log_Record : Type := mkRecord { level : Severity_Level; text : string; mpi_rank : Z; context_labels : list string }.

Definition triggers_abort (r : Log_Record) : bool := bool_decide (level r = FATAL).

Fixpoint join (sep : string) (l : list string) : string :=
  match l with [] => "" | [x] => x | x :: l' => x +:+ sep +:+ join sep l' end.

(** [std::setw(4) << std::setfill('0')] *)
Definition zero_padded (n : Z) : string :=
  let digits := pretty n in string_of_list_ascii (replicate (4 - String.length digits) "0"%char) +:+ digits.

Definition newline : string := String (Ascii.ascii_of_nat 10) EmptyString.

Definition format_record (r : Log_Record) : string :=
  (if mpi_rank r <? 0 then "[RANK:----]" else "[RANK:" +:+ zero_padded (mpi_rank r) +:+ "]") +:+
  " [" +:+ severity_label (level r) +:+ "]" +:+
  (if bool_decide (context_labels r = []) then "" else " [" +:+ join " > " (context_labels r) +:+ "]") +:+
  " " +:+ text r +:+ newline.

Definition range_text (g : Rank_Range) : string := pretty (first g) +:+ "-" +:+ pretty (last g).
Definition format_consolidated (rep : Consolidated_Record) : string :=
  "[CONSOLIDATED] [" +:+ to_string (severity (key rep)) +:+ "] (" +:+ pretty (rank_count rep) +:+ " ranks: " +:+
  join ", " (range_text <$> ranges rep) +:+ ") " +:+ message (key rep) +:+ newline.

(** The key a record consolidates under. *)
Definition key_of (r : Log_Record) : Consolidation_Key := mkKey (level_value (level r)) (text r).

(** ** Contexts of a thread *)

Definition MAX_LABEL_LENGTH : nat := 256.
Definition push_context (label : string) (stack : list string) : list string := app stack [label].
Definition pop_context (stack : list string) : list string := match stack with [] => [] | _ => take (length stack - 1) stack end.
Definition scoped_context (label : string) (stack : list string) : list string :=
  push_context (if bool_decide (label = "") then "<unnamed>"
                else if (MAX_LABEL_LENGTH <? String.length label)%nat then substring 0 MAX_LABEL_LENGTH label
                else label) stack.

(** ** The logger and the threads of its process *)

Definition MAX_SINKS : nat := 64.
Definition ABORT_EXIT_CODE : Z := 70.

Record Logger : Type := mkLogger {
  rank_ : Z;
  has_comm_ : bool;
  threshold_ : Severity_Level;
  sinks_ : list (list string);
  consolidation_buffer_ : list Log_Record;
  latched_ : bool
}.

Definition new_logger : Logger := mkLogger (-1) false INFO [] [] false.

(** Where a thread stands in a call. *)
Inductive thread_pc : Type :=
| outside
| accepted (r : Log_Record)
| buffered (r : Log_Record)
| must_flush
| must_latch
| spinning
| ended (by_mpi : bool) (code : Z)
| emitting (reps : list string).

Record Thread : Type := mkThread { pc : thread_pc; stack : list string }.

(** The process: its logger, its threads and what reached standard error. *)
Record Process_State : Type := mkState { logger : Logger; threads : list Thread; stderr : list string }.

Definition at_pc (st : Process_State) (t : nat) (p : thread_pc) : Prop := pc <$> threads st !! t = Some p.
Definition goto (t : nat) (p : thread_pc) (st : Process_State) : Process_State :=
  mkState (logger st) (alter (fun th => mkThread p (stack th)) t (threads st)) (stderr st).
Definition with_logger (f : Logger -> Logger) (st : Process_State) : Process_State := mkState (f (logger st)) (threads st) (stderr st).

(** The filter of [log]. *)
Definition suppressed (severity threshold : Severity_Level) : bool :=
  negb (bool_decide (severity = FATAL)) && (level_value severity <? level_value threshold).

(** First step of [log]: the filter, the rank and the context. *)
Definition log_begin (t : nat) (severity : Severity_Level) (msg : string) (st : Process_State) : Process_State :=
  if suppressed severity (threshold_ (logger st)) then st else
  let labels := from_option stack [] (threads st !! t) in
  goto t (accepted (mkRecord severity msg (rank_ (logger st)) labels)) st.

Definition buffer_record (r : Log_Record) (l : Logger) : Logger :=
  mkLogger (rank_ l) (has_comm_ l) (threshold_ l) (sinks_ l) (app (consolidation_buffer_ l) [r]) (latched_ l).

(** [dispatch_to_sinks] *)
Definition dispatch_to_sinks (formatted : string) (st : Process_State) : Process_State :=
  let l := logger st in
  match sinks_ l with
  | [] => mkState l (threads st) (app (stderr st) [formatted])
  | sinks => mkState (mkLogger (rank_ l) (has_comm_ l) (threshold_ l) ((fun s => app s [formatted]) <$> sinks)
                      (consolidation_buffer_ l) (latched_ l)) (threads st) (stderr st)
  end.

Definition log_buffer (t : nat) (r : Log_Record) (st : Process_State) : Process_State :=
  goto t (buffered r) (with_logger (buffer_record r) st).
Definition log_dispatch (t : nat) (r : Log_Record) (st : Process_State) : Process_State :=
  goto t (if triggers_abort r then must_flush else outside) (dispatch_to_sinks (format_record r) st).

(** [Abort_Latch::try_acquire] and the end of a fatal log. *)
Definition set_latch (l : Logger) : Logger :=
  mkLogger (rank_ l) (has_comm_ l) (threshold_ l) (sinks_ l) (consolidation_buffer_ l) true.
Definition log_latch (t : nat) (st : Process_State) : Process_State :=
  if latched_ (logger st) then goto t spinning st
  else goto t (ended (has_comm_ (logger st)) ABORT_EXIT_CODE) (with_logger set_latch st).

Definition configure_communicator (rank : Z) (l : Logger) : Logger :=
  mkLogger rank true (threshold_ l) (sinks_ l) (consolidation_buffer_ l) (latched_ l).
Definition set_threshold (lvl : Severity_Level) (l : Logger) : Logger :=
  mkLogger (rank_ l) (has_comm_ l) lvl (sinks_ l) (consolidation_buffer_ l) (latched_ l).
Definition add_sink (l : Logger) : Logger :=
  if (MAX_SINKS <=? length (sinks_ l))%nat then l
  else mkLogger (rank_ l) (has_comm_ l) (threshold_ l) (app (sinks_ l) [[]]) (consolidation_buffer_ l) (latched_ l).

(** First step of [consolidate]: the swap, and the representatives of what it took. *)
Definition clear_buffer (l : Logger) : Logger :=
  mkLogger (rank_ l) (has_comm_ l) (threshold_ l) (sinks_ l) [] (latched_ l).
Definition consolidate_take (t : nat) (collective : list Consolidated_Record) (st : Process_State) : Process_State :=
  let taken := consolidation_buffer_ (logger st) in
  let st' := with_logger clear_buffer st in
  match taken with
  | [] => st'
  | _ => let reps := if has_comm_ (logger st) then collective else consolidate_local (key_of <$> taken) in
         goto t (emitting (format_consolidated <$> reps)) st'
  end.

(** What a step does that is worth remembering. *)
Inductive event : Type :=
| ev_accept (r : Log_Record)
| ev_take (rs : list Log_Record)
| ev_record (r : Log_Record)
| ev_representative (formatted : string)
| ev_sink.

Inductive step : Process_State -> list event -> Process_State -> Prop :=
| step_configure st rank : step st [] (with_logger (configure_communicator rank) st)
| step_threshold st lvl : step st [] (with_logger (set_threshold lvl) st)
| step_add_sink st :
    step st (if (MAX_SINKS <=? length (sinks_ (logger st)))%nat then [] else [ev_sink]) (with_logger add_sink st)
| step_enter st t label : at_pc st t outside ->
    step st [] (mkState (logger st) (alter (fun th => mkThread (pc th) (scoped_context label (stack th))) t (threads st)) (stderr st))
| step_leave st t : at_pc st t outside ->
    step st [] (mkState (logger st) (alter (fun th => mkThread (pc th) (pop_context (stack th))) t (threads st)) (stderr st))
| step_suppress st t severity msg : at_pc st t outside -> suppressed severity (threshold_ (logger st)) = true ->
    step st [] (log_begin t severity msg st)
| step_accept st t severity msg : at_pc st t outside -> suppressed severity (threshold_ (logger st)) = false ->
    step st [ev_accept (mkRecord severity msg (rank_ (logger st)) (from_option stack [] (threads st !! t)))] (log_begin t severity msg st)
| step_buffer st t r : at_pc st t (accepted r) -> step st [] (log_buffer t r st)
| step_dispatch st t r : at_pc st t (buffered r) -> step st [ev_record r] (log_dispatch t r st)
| step_flush st t : at_pc st t must_flush -> step st [] (goto t must_latch st)
| step_latch st t : at_pc st t must_latch -> step st [] (log_latch t st)
| step_consolidate st t collective : at_pc st t outside ->
    step st [ev_take (consolidation_buffer_ (logger st))] (consolidate_take t collective st)
| step_emit st t formatted reps : at_pc st t (emitting (formatted :: reps)) ->
    step st [ev_representative formatted] (goto t (emitting reps) (dispatch_to_sinks formatted st))
| step_emitted st t : at_pc st t (emitting []) -> step st [] (goto t outside st).

(** A process with [n] threads. *)
Definition start (n : nat) : Process_State := mkState new_logger (replicate n (mkThread outside [])) [].

Inductive reaches (n : nat) : list event -> Process_State -> Prop :=
| reaches_start : reaches n [] (start n)
| reaches_step tr st ev st' : reaches n tr st -> step st ev st' -> reaches n (app tr ev) st'.

(** ** Consolidation across processes *)

(** [consolidate] on the root of a communicator, with what each process has buffered: it
    returns at once when the root has nothing; otherwise it enters the gather, which ends
    only when every process has entered it, and a process with an empty buffer does not. *)
Definition consolidate_root (w : list (list Consolidation_Key)) : option (result (list Consolidated_Record)) :=
  match w with
  | [] | [] :: _ => Some (Ok [])
  | _ => if forallb (fun b => negb (bool_decide (b = []))) w then Some (consolidate_collective 0 w) else None
  end.

(** ** Specification *)

Definition accepts (tr : list event) : list Log_Record := omap (fun e => match e with ev_accept r => Some r | _ => None end) tr.
Definition takes (tr : list event) : list Log_Record := mjoin (omap (fun e => match e with ev_take rs => Some rs | _ => None end) tr).
Definition records_out (tr : list event) : list Log_Record := omap (fun e => match e with ev_record r => Some r | _ => None end) tr.
Definition texts (tr : list event) : list string :=
  omap (fun e => match e with ev_record r => Some (format_record r) | ev_representative s => Some s | _ => None end) tr.

(** How many texts had been dispatched when each sink was added. *)
Fixpoint sink_starts (n : nat) (tr : list event) : list nat :=
  match tr with
  | [] => []
  | ev_sink :: tr' => n :: sink_starts n tr'
  | (ev_record _ | ev_representative _) :: tr' => sink_starts (S n) tr'
  | _ :: tr' => sink_starts n tr'
  end.

(** The records a thread has accepted and not yet buffered, or not yet dispatched. *)
Definition unbuffered (p : thread_pc) : option Log_Record := match p with accepted r => Some r | _ => None end.
Definition undispatched (p : thread_pc) : option Log_Record := match p with accepted r | buffered r => Some r | _ => None end.
Definition in_flight {B} (f : thread_pc -> option B) (st : Process_State) : list B := omap (fun th => f (pc th)) (threads st).

(** How the threads that aborted or exited did so. *)
Definition exit_of (p : thread_pc) : option (bool * Z) := match p with ended by_mpi code => Some (by_mpi, code) | _ => None end.

(** ** Threads and texts *)

Lemma alter_middle (ths : list Thread) t th : ths !! t = Some th ->
  exists l1 l2, ths = app l1 (th :: l2) /\ forall f : Thread -> Thread, alter f t ths = app l1 (f th :: l2).
Proof.
  intros E. exists (take t ths), (drop (S t) ths). pose proof (take_drop_middle ths t th E) as Em. split; [done|].
  assert (Hl : length (take t ths) = t) by (rewrite length_take; apply lookup_lt_Some in E; lia).
  intros f. rewrite <- Em at 1. rewrite alter_app_r_alt by lia. by rewrite Hl, Nat.sub_diag.
Qed.

Lemma at_pc_lookup st t p : at_pc st t p -> exists th, threads st !! t = Some th /\ pc th = p.
Proof. unfold at_pc. destruct (threads st !! t) as [th|]; [|done]. intros [= <-]. by exists th. Qed.

(** What one thread contributes, apart from the others. *)
Lemma in_flight_move {B} (f : thread_pc -> option B) st t p : at_pc st t p -> exists rest, in_flight f st ≡ₚ app (option_list (f p)) rest /\
  forall l e q, in_flight f (mkState l (alter (fun th => mkThread q (stack th)) t (threads st)) e) ≡ₚ app (option_list (f q)) rest.
Proof.
  intros (th & Et & <-)%at_pc_lookup. destruct (alter_middle _ _ _ Et) as (l1 & l2 & E & Ea).
  exists (app (omap (fun th => f (pc th)) l1) (omap (fun th => f (pc th)) l2)). split.
  - unfold in_flight. rewrite E, omap_middle. destruct (f (pc th)); simpl; [by rewrite Permutation_middle|done].
  - intros l e q. unfold in_flight. cbn [threads]. rewrite Ea, omap_middle. cbn [pc].
    destruct (f q); simpl; [by rewrite Permutation_middle|done].
Qed.

Lemma in_flight_stack {B} (f : thread_pc -> option B) l e g t st : (forall th, pc (g th) = pc th) ->
  in_flight f (mkState l (alter g t (threads st)) e) = in_flight f st.
Proof.
  intros Hg. unfold in_flight. cbn [threads]. destruct (threads st !! t) as [th|] eqn:Et.
  - destruct (alter_middle _ _ _ Et) as (l1 & l2 & E & ->). by rewrite E, !omap_middle, Hg.
  - f_equal. by apply list_alter_id_None || (apply list_eq; intros i; destruct (decide (i = t)) as [->|];
      [rewrite list_lookup_alter_eq, Et|rewrite list_lookup_alter_ne by done]).
Qed.

Lemma threads_dispatch s st : threads (dispatch_to_sinks s st) = threads st.
Proof. unfold dispatch_to_sinks. by destruct (sinks_ (logger st)). Qed.

Lemma in_flight_threads {B} (f : thread_pc -> option B) st st' : threads st' = threads st -> in_flight f st' = in_flight f st.
Proof. unfold in_flight. by intros ->. Qed.

Lemma texts_app a b : texts (app a b) = app (texts a) (texts b).
Proof. apply omap_app. Qed.

Lemma sink_starts_app n a b : sink_starts n (app a b) = app (sink_starts n a) (sink_starts (n + length (texts a)) b).
Proof.
  revert n. induction a as [|e a IH]; intros n; simpl; [by rewrite Nat.add_0_r|].
  destruct e; simpl; rewrite ?IH; try done; do 2 f_equal; simpl; lia.
Qed.

Lemma sink_starts_bound n tr : Forall (fun k => k <= n + length (texts tr))%nat (sink_starts n tr).
Proof.
  revert n. induction tr as [|e tr IH]; intros n; simpl; [constructor|].
  destruct e; simpl; try apply IH.
  - eapply Forall_impl; [apply IH|]. simpl. intros. lia.
  - eapply Forall_impl; [apply IH|]. simpl. intros. lia.
  - constructor; [lia|apply IH].
Qed.

(** The sinks and standard error hold what was dispatched to them. *)
Definition written (tr : list event) (st : Process_State) : Prop :=
  sinks_ (logger st) = (fun n => drop n (texts tr)) <$> sink_starts 0 tr /\
  stderr st = take (default (length (texts tr)) (head (sink_starts 0 tr))) (texts tr).

Lemma written_same tr ev st st' : texts ev = [] -> (forall n, sink_starts n ev = []) ->
  sinks_ (logger st') = sinks_ (logger st) -> stderr st' = stderr st -> written tr st -> written (app tr ev) st'.
Proof.
  intros Ht Hs E1 E2 [W1 W2]. unfold written. rewrite texts_app, sink_starts_app, Ht, Hs, !app_nil_r, E1, E2. done.
Qed.

Lemma written_dispatch tr ev st s : texts ev = [s] -> (forall n, sink_starts n ev = []) ->
  written tr st -> written (app tr ev) (dispatch_to_sinks s st).
Proof.
  intros Ht Hs [W1 W2]. unfold written. rewrite texts_app, sink_starts_app, Ht, Hs, app_nil_r.
  pose proof (sink_starts_bound 0 tr) as Hb. unfold dispatch_to_sinks.
  destruct (sink_starts 0 tr) as [|n ns] eqn:E; rewrite W1; simpl in W2 |- *.
  - split; [done|]. by rewrite W2, !firstn_all.
  - apply Forall_cons_iff in Hb as [Hn Hb]. simpl in Hn. split.
    + f_equal; [by rewrite drop_app_le by lia|]. rewrite <- list_fmap_compose. apply list_fmap_ext. intros i k Ek.
      apply (Forall_lookup_1 _ _ _ _ Hb) in Ek. simpl in *. by rewrite drop_app_le by lia.
    + rewrite W2. by rewrite take_app_le by lia.
Qed.

(** ** The invariant *)

Record inv (tr : list event) (st : Process_State) : Prop := {
  inv_buffered : accepts tr ≡ₚ app (takes tr) (app (consolidation_buffer_ (logger st)) (in_flight unbuffered st));
  inv_dispatched : accepts tr ≡ₚ app (records_out tr) (in_flight undispatched st);
  inv_written : written tr st;
  inv_sinks : (length (sinks_ (logger st)) <= MAX_SINKS)%nat;
  inv_exit : length (in_flight exit_of st) = if latched_ (logger st) then 1%nat else 0%nat
}.

Lemma accepts_app a b : accepts (app a b) = app (accepts a) (accepts b).
Proof. apply omap_app. Qed.
Lemma records_out_app a b : records_out (app a b) = app (records_out a) (records_out b).
Proof. apply omap_app. Qed.
Lemma takes_app a b : takes (app a b) = app (takes a) (takes b).
Proof. unfold takes. by rewrite omap_app, join_app. Qed.

(** A step of one thread from [p] to [q] keeps the invariant if it balances the books. *)
Lemma inv_move tr ev st st' t p q : inv tr st -> at_pc st t p ->
  threads st' = alter (fun th => mkThread q (stack th)) t (threads st) ->
  app (accepts ev) (app (consolidation_buffer_ (logger st)) (option_list (unbuffered p))) ≡ₚ
    app (takes ev) (app (consolidation_buffer_ (logger st')) (option_list (unbuffered q))) ->
  app (accepts ev) (option_list (undispatched p)) ≡ₚ app (records_out ev) (option_list (undispatched q)) ->
  (length (option_list (exit_of p)) + (if latched_ (logger st') then 1 else 0) =
   length (option_list (exit_of q)) + (if latched_ (logger st) then 1 else 0))%nat ->
  written (app tr ev) st' -> (length (sinks_ (logger st')) <= MAX_SINKS)%nat -> inv (app tr ev) st'.
Proof.
  intros [I1 I2 I3 I4 I5] Hp Hth B1 B2 B3 Hw Hl.
  assert (Hfl : forall (B : Type) (f : thread_pc -> option B),
    in_flight f st' = in_flight f (mkState (logger st') (alter (fun th => mkThread q (stack th)) t (threads st)) (stderr st')))
    by (intros B f; unfold in_flight; by rewrite Hth).
  destruct (in_flight_move unbuffered st t p Hp) as (r1 & U1 & U2).
  destruct (in_flight_move undispatched st t p Hp) as (r2 & V1 & V2).
  destruct (in_flight_move exit_of st t p Hp) as (r3 & W1 & W2).
  split; [..|done|done|].
  - rewrite accepts_app, takes_app, I1, U1, Hfl, U2.
    transitivity (app (takes tr) (app (app (accepts ev) (app (consolidation_buffer_ (logger st)) (option_list (unbuffered p)))) r1)).
    + solve_Permutation.
    + rewrite B1. solve_Permutation.
  - rewrite accepts_app, records_out_app, I2, V1, Hfl, V2.
    transitivity (app (records_out tr) (app (app (accepts ev) (option_list (undispatched p))) r2)).
    + solve_Permutation.
    + rewrite B2. solve_Permutation.
  - rewrite Hfl. rewrite (Permutation_length (W2 _ _ _)), length_app.
    rewrite (Permutation_length W1), length_app in I5. lia.
Qed.

(** A step outside the calls. *)
Lemma inv_still tr ev st st' : inv tr st -> (forall (B : Type) (f : thread_pc -> option B), in_flight f st' = in_flight f st) ->
  accepts ev = [] -> takes ev = [] -> records_out ev = [] ->
  consolidation_buffer_ (logger st') = consolidation_buffer_ (logger st) -> latched_ (logger st') = latched_ (logger st) ->
  written (app tr ev) st' -> (length (sinks_ (logger st')) <= MAX_SINKS)%nat -> inv (app tr ev) st'.
Proof.
  intros [I1 I2 I3 I4 I5] Hf E1 E2 E3 E4 E5 Hw Hl.
  split; rewrite ?accepts_app, ?takes_app, ?records_out_app, ?E1, ?E2, ?E3, ?E4, ?E5, ?app_nil_r, ?Hf; done.
Qed.

Lemma goto_same t p st : at_pc st t p -> threads (goto t p st) = threads st.
Proof.
  intros (th & Et & <-)%at_pc_lookup. unfold goto. cbn [threads]. apply list_eq. intros i.
  destruct (decide (i = t)) as [->|]; [|by rewrite list_lookup_alter_ne by done].
  rewrite list_lookup_alter_eq, Et. by destruct th.
Qed.

Lemma length_sinks_dispatch s st : length (sinks_ (logger (dispatch_to_sinks s st))) = length (sinks_ (logger st)).
Proof. unfold dispatch_to_sinks. destruct (sinks_ (logger st)) eqn:E; cbn; rewrite ?E; [done|]. by rewrite length_fmap. Qed.

Lemma dispatch_frame s st : consolidation_buffer_ (logger (dispatch_to_sinks s st)) = consolidation_buffer_ (logger st) /\
  latched_ (logger (dispatch_to_sinks s st)) = latched_ (logger st).
Proof. unfold dispatch_to_sinks. by destruct (sinks_ (logger st)). Qed.

Lemma logger_start_inv n : inv [] (start n).
Proof.
  assert (Hf : forall (B : Type) (f : thread_pc -> option B), f outside = None -> in_flight f (start n) = []).
  { intros B f Hf. unfold in_flight, start. cbn [threads]. induction n as [|n IH]; [done|]. simpl. by rewrite Hf. }
  split; rewrite ?Hf by done; try done. cbn. lia.
Qed.

(** The steps that move a thread without touching the logger. *)
Lemma inv_goto tr st t p q : inv tr st -> at_pc st t p -> unbuffered p = unbuffered q -> undispatched p = undispatched q ->
  exit_of p = exit_of q -> inv (app tr []) (goto t q st).
Proof.
  intros Hi Hp E1 E2 E3. apply (inv_move tr [] st (goto t q st) t p q Hi Hp); try done; cbn [logger goto].
  - by rewrite E1.
  - by rewrite E2.
  - by rewrite E3.
  - apply (written_same tr [] st); try done. apply (inv_written _ _ Hi).
  - apply (inv_sinks _ _ Hi).
Qed.

Lemma inv_dispatch tr ev st t s p q : inv tr st -> at_pc st t p -> texts ev = [s] -> (forall n, sink_starts n ev = []) ->
  accepts ev = [] -> takes ev = [] -> unbuffered p = unbuffered q -> exit_of p = exit_of q ->
  option_list (undispatched p) ≡ₚ app (records_out ev) (option_list (undispatched q)) ->
  inv (app tr ev) (goto t q (dispatch_to_sinks s st)).
Proof.
  intros Hi Hp Et Es E1 E2 E3 E4 E5. destruct (dispatch_frame s st) as [F1 F2].
  apply (inv_move tr ev st _ t p q Hi Hp).
  - unfold goto. cbn [threads]. by rewrite threads_dispatch.
  - rewrite E1, E2. cbn [logger goto]. by rewrite F1, E3.
  - by rewrite E1.
  - cbn [logger goto]. by rewrite F2, E4.
  - pose proof (written_dispatch tr ev st s Et Es (inv_written _ _ Hi)) as [W1 W2]. split; cbn [logger stderr goto]; done.
  - cbn [logger goto]. rewrite length_sinks_dispatch. apply (inv_sinks _ _ Hi).
Qed.

Lemma log_step_inv tr st ev st' : inv tr st -> step st ev st' -> inv (app tr ev) st'.
Proof.
  intros Hi Hs. pose proof (inv_written _ _ Hi) as Hw. pose proof (inv_sinks _ _ Hi) as Hl.
  inversion Hs as [? rank|? lvl|?|? t label Hp|? t Hp|? t severity msg Hp Hsup|? t severity msg Hp Hsup|? t r Hp|? t r Hp|? t Hp|? t Hp
    |? t collective Hp|? t formatted reps Hp|? t Hp]; subst.
  - apply (inv_still tr [] st); try done. by apply (written_same tr [] st).
  - apply (inv_still tr [] st); try done. by apply (written_same tr [] st).
  - unfold with_logger, add_sink. destruct (Nat.leb_spec MAX_SINKS (length (sinks_ (logger st)))) as [Hge|Hlt].
    + apply (inv_still tr [] st); try done. by apply (written_same tr [] st).
    + apply (inv_still tr [ev_sink] st); try done; [|cbn; rewrite length_app; cbn; lia].
      destruct Hw as [W1 W2]. split; cbn [logger sinks_ stderr]; rewrite texts_app, sink_starts_app; cbn [texts omap list_omap sink_starts]; rewrite app_nil_r.
      * rewrite W1, fmap_app. f_equal. cbn. by rewrite drop_all.
      * rewrite W2. destruct (sink_starts 0 tr); simpl; [|done]. by rewrite firstn_all.
  - apply (inv_still tr [] st); try done; [|by apply (written_same tr [] st)]. intros B f. by apply in_flight_stack.
  - apply (inv_still tr [] st); try done; [|by apply (written_same tr [] st)]. intros B f. by apply in_flight_stack.
  - unfold log_begin. rewrite Hsup. by rewrite app_nil_r.
  - unfold log_begin. rewrite Hsup. set (r := mkRecord _ _ _ _).
    apply (inv_move tr [ev_accept r] st _ t outside (accepted r) Hi Hp); try done.
    + cbn. solve_Permutation.
    + by apply (written_same tr [ev_accept r] st).
  - unfold log_buffer. apply (inv_move tr [] st _ t (accepted r) (buffered r) Hi Hp); try done.
    + cbn. by rewrite app_nil_r.
    + by apply (written_same tr [] st).
  - unfold log_dispatch. apply (inv_dispatch tr [ev_record r] st t _ (buffered r)); try done; by destruct (triggers_abort r).
  - by apply (inv_goto tr st t must_flush must_latch).
  - unfold log_latch. destruct (latched_ (logger st)) eqn:El; [by apply (inv_goto tr st t must_latch spinning)|].
    apply (inv_move tr [] st _ t must_latch (ended (has_comm_ (logger st)) ABORT_EXIT_CODE) Hi Hp); try done.
    + cbn. by rewrite El.
    + by apply (written_same tr [] st).
  - unfold consolidate_take. destruct (consolidation_buffer_ (logger st)) as [|r0 rs] eqn:Eb.
    + apply (inv_still tr [ev_take []] st); try done. by apply (written_same tr [ev_take []] st).
    + eapply (inv_move tr [ev_take (r0 :: rs)] st _ t outside); [done|done|reflexivity|..]; try done.
      * rewrite Eb. cbn. by rewrite !app_nil_r.
      * by apply (written_same tr [ev_take (r0 :: rs)] st).
  - by apply (inv_dispatch tr [ev_representative formatted] st t formatted (emitting (formatted :: reps))).
  - by apply (inv_goto tr st t (emitting []) outside).
Qed.

Lemma reaches_inv n tr st : reaches n tr st -> inv tr st.
Proof. induction 1; [apply logger_start_inv|by eapply log_step_inv]. Qed.

(** C22. What the logger guarantees, for any number of threads and any interleaving of their
    calls, of sink registrations, threshold and communicator changes and consolidations.
    Every record accepted is put in the consolidation buffer once, and stays there until a
    consolidation takes it; it is dispatched once, by the thread that logged it.  Each of the at most 64
    sinks has been given every text dispatched since it was added, in one order common to all sinks,
    and standard error the texts from before the first sink.  No level of threshold
    suppresses a fatal record, and at most one fatal log aborts or exits the process. *)
Theorem logger_reliable n tr st : reaches n tr st ->
  accepts tr ≡ₚ app (takes tr) (app (consolidation_buffer_ (logger st)) (in_flight unbuffered st)) /\
  accepts tr ≡ₚ app (records_out tr) (in_flight undispatched st) /\
  sinks_ (logger st) = (fun k => drop k (texts tr)) <$> sink_starts 0 tr /\ (length (sinks_ (logger st)) <= MAX_SINKS)%nat /\
  stderr st = take (default (length (texts tr)) (head (sink_starts 0 tr))) (texts tr) /\
  (forall threshold, suppressed FATAL threshold = false) /\
  (length (in_flight exit_of st) <= 1)%nat.
Proof.
  intros [I1 I2 [W1 W2] I4 I5]%reaches_inv. split_and!; try done. rewrite I5. destruct (latched_ (logger st)); lia.
Qed.

Lemma reaches_by n tr st ev st' tr' : reaches n tr st -> step st ev st' -> tr' = app tr ev -> reaches n tr' st'.
Proof. intros H Hs ->. by eapply reaches_step. Qed.

Definition demo_record : Log_Record := mkRecord WARNING "low flux" (-1) [].
Definition demo1 : Process_State := Eval vm_compute in with_logger add_sink (start 1).
Definition demo2 : Process_State := Eval vm_compute in log_begin 0 WARNING "low flux" demo1.
Definition demo3 : Process_State := Eval vm_compute in log_buffer 0 demo_record demo2.
Definition demo4 : Process_State := Eval vm_compute in log_dispatch 0 demo_record demo3.

Lemma log_demo_run : reaches 1 [ev_sink; ev_accept demo_record; ev_record demo_record] demo4.
Proof.
  assert (H1 : reaches 1 [ev_sink] demo1) by exact (reaches_by 1 [] (start 1) [ev_sink] demo1 _ (reaches_start 1) (step_add_sink (start 1)) eq_refl).
  assert (H2 : reaches 1 [ev_sink; ev_accept demo_record] demo2)
    by exact (reaches_by 1 _ _ _ _ _ H1 (step_accept demo1 0 WARNING "low flux" eq_refl eq_refl) eq_refl).
  assert (H3 : reaches 1 [ev_sink; ev_accept demo_record] demo3)
    by exact (reaches_by 1 _ _ _ _ _ H2 (step_buffer demo2 0 demo_record eq_refl) eq_refl).
  exact (reaches_by 1 _ _ _ _ _ H3 (step_dispatch demo3 0 demo_record eq_refl) eq_refl).
Qed.

Example logger_reliable_witness :
  sinks_ (logger demo4) = [["[RANK:----] [WARNING] low flux" +:+ newline]] /\ consolidation_buffer_ (logger demo4) = [demo_record].
Proof.
  destruct (logger_reliable 1 _ demo4 log_demo_run) as (_ & _ & W & _). split; [rewrite W; reflexivity|reflexivity].
Defined.

(** Consolidation needs every process to have something to report: if the root has records
    and some process has none, that process does not enter the gather and the root never
    returns; if all have records the root gets what the engine computes. *)
Theorem consolidate_blocks k root others :
  let w := (k :: root) :: others in
  ([] ∈ others -> consolidate_root w = None) /\
  ([] ∉ others -> consolidate_root w = Some (consolidate_collective 0 w)) /\
  (forall others', consolidate_root ([] :: others') = Some (Ok [])).
Proof.
  cbv zeta. unfold consolidate_root. cbn [forallb]. rewrite bool_decide_false by done. cbn [negb andb]. split_and!; [| |done].
  - intros Hin. destruct (forallb _ others) eqn:E; [|done]. rewrite forallb_forall in E.
    apply list_elem_of_In in Hin. specialize (E [] Hin). discriminate E.
  - intros Hin. rewrite (proj2 (forallb_forall _ others)); [done|]. intros b Hb%list_elem_of_In.
    by rewrite bool_decide_false by (by intros ->).
Qed.

Example consolidate_blocks_witness : consolidate_root [[mkKey 1 "start"]; []] = None.
Proof. apply (consolidate_blocks (mkKey 1 "start") [] [[]]). by left. Defined.
