(* ===== verification/KokkosArrays.v ===== *)
(** * AXIS: arrays of doubles under Kokkos

    A [View] of rank 1 is the list of its elements: the kernels of AXIS read some views
    and write others, and no two views they are given overlap.  Doubles are binary64,
    every operation rounded to nearest, ties to even; a compiler that contracts a
    multiplication and an addition computes another last bit.  The interfaces to the
    library are the order of a range policy ([Blend.ParallelFor]) and the value of a sum
    reduction ([KokkosReduce]), which is a [summation] of its terms: some bracketing of
    some order of them. *)
From Stdlib Require Import ZArith Lia SpecFloat.
From stdpp Require Import base list numbers.
From S2P Require Import Prelude Blend.
Local Open Scope Z_scope.

(** ** Doubles *)

Abbreviation double := spec_float.
Definition dzero : double := S754_zero false.
Definition dnan : double := S754_nan.
Definition dadd : double -> double -> double := SFadd 53 1024.
Definition dsub : double -> double -> double := SFsub 53 1024.
Definition dmul : double -> double -> double := SFmul 53 1024.
Definition ddiv : double -> double -> double := SFdiv 53 1024.
Definition isnan (x : double) : bool := match x with S754_nan => true | _ => false end.

(** [static_cast<int>] of a 64-bit size. *)
Definition cast_int (n : Z) : Z := (n + 2 ^ 31) mod 2 ^ 32 - 2 ^ 31.

(** ** Elements of a view *)

Definition read {A} (l : list A) (i : Z) : result A :=
  if i <? 0 then Undef else match l !! Z.to_nat i with Some x => Ok x | None => Undef end.

Definition write {A} (l : list A) (i : Z) (x : A) : result (list A) :=
  if (i <? 0) || (Z.of_nat (length l) <=? i) then Undef else Ok (<[Z.to_nat i := x]> l).

(** [v(i) += x] *)
Definition update {A} (f : A -> A) (l : list A) (i : Z) : result (list A) :=
  let! x := read l i in write l i (f x).

Definition atomic_add (l : list double) (i : Z) (x : double) : result (list double) := update (fun y => dadd y x) l i.

(** The iterations of a loop, over a state of their own. *)
Fixpoint for_each {S} (order : list nat) (body : nat -> S -> result S) (s : S) : result S :=
  match order with
  | [] => Ok s
  | i :: rest => let! s' := body i s in for_each rest body s'
  end.

(** A rank-2 view: the first extent counts cells, the second variables. *)
Record View2 : Type := mkView2 { extent0 : nat; extent1 : nat; cells : list double }.

Definition address2 (v : View2) (j : Z) (k : nat) : Z := j + Z.of_nat (k * extent0 v).
Definition with_cells (v : View2) (l : list double) : View2 := mkView2 (extent0 v) (extent1 v) l.

(** A team policy takes its league size as an [int]. *)
Definition parallel_teams `{!ParallelFor} {S} (n : nat) (body : nat -> S -> result S) (s : S) : result S :=
  let league := cast_int (Z.of_nat n) in
  if league <? 0 then Undef else for_each (range_order (Z.to_nat league)) body s.

(** ** Sums of doubles *)

(** The values a sum of the terms of a list may have, whatever the order and the
    bracketing of the additions, and however often the sum starts from zero. *)
Inductive summation : list double -> double -> Prop :=
| sum_zero : summation [] dzero
| sum_one x : summation [x] x
| sum_join l1 l2 a b : summation l1 a -> summation l2 b -> summation (l1 ++ l2) (dadd a b)
| sum_perm l l' a : l ≡ₚ l' -> summation l a -> summation l' a.

Class KokkosReduce := {
  sum_reduce : list double -> double;
  sum_reduce_spec l : summation l (sum_reduce l)
}.

(** * Lemmas *)

Lemma read_lookup {A} (l : list A) i x : read l i = Ok x <-> 0 <= i /\ l !! Z.to_nat i = Some x.
Proof.
  unfold read. destruct (Z.ltb_spec i 0); [split; [done|lia]|]. destruct (l !! Z.to_nat i) eqn:E; split.
  - intros [= ->]. done.
  - intros [_ [= ->]]. done.
  - done.
  - intros [_ [=]].
Qed.

Lemma read_nat {A} (l : list A) (i : nat) x : l !! i = Some x -> read l (Z.of_nat i) = Ok x.
Proof. intros H. apply read_lookup. split; [lia|]. by rewrite Nat2Z.id. Qed.

Lemma read_in_bounds {A} (l : list A) i : 0 <= i < Z.of_nat (length l) -> exists x, read l i = Ok x /\ l !! Z.to_nat i = Some x.
Proof.
  intros H. destruct (lookup_lt_is_Some_2 l (Z.to_nat i)) as [x Hx]; [lia|]. exists x. split; [|done].
  apply read_lookup. split; [lia|done].
Qed.

Lemma read_out_of_bounds {A} (l : list A) i : i < 0 \/ Z.of_nat (length l) <= i -> read l i = Undef.
Proof.
  intros H. unfold read. destruct (Z.ltb_spec i 0); [done|]. rewrite lookup_ge_None_2; [done|lia].
Qed.

Lemma write_in_bounds {A} (l : list A) i x : 0 <= i < Z.of_nat (length l) -> write l i x = Ok (<[Z.to_nat i := x]> l).
Proof. intros H. unfold write. case_if; [bsimpl; lia|done]. Qed.

Lemma write_out_of_bounds {A} (l : list A) i x : i < 0 \/ Z.of_nat (length l) <= i -> write l i x = Undef.
Proof. intros H. unfold write. case_if; [done|bsimpl; lia]. Qed.

Lemma update_in_bounds {A} (f : A -> A) l i : 0 <= i < Z.of_nat (length l) -> update f l i = Ok (alter f (Z.to_nat i) l).
Proof.
  intros H. destruct (read_in_bounds l i H) as (x & Hr & Hl). unfold update. rewrite Hr. cbn [bind].
  rewrite write_in_bounds by done. f_equal. apply list_eq. intros j. destruct (decide (j = Z.to_nat i)) as [->|Hne].
  - rewrite list_lookup_insert_eq by lia. by rewrite list_lookup_alter_eq, Hl.
  - rewrite list_lookup_insert_ne by done. by rewrite list_lookup_alter_ne.
Qed.

Lemma for_each_app {S} (o1 o2 : list nat) body (s : S) :
  for_each (o1 ++ o2) body s = (let! s' := for_each o1 body s in for_each o2 body s').
Proof. revert s. induction o1 as [|i o1 IH]; intros s; [done|]. cbn [for_each app]. rewrite bind_assoc. by destruct (body i s); cbn [bind]. Qed.

Lemma for_each_ext {S} (order : list nat) (b1 b2 : nat -> S -> result S) s :
  (forall i t, i ∈ order -> b1 i t = b2 i t) -> for_each order b1 s = for_each order b2 s.
Proof.
  revert s. induction order as [|i order IH]; intros s Hb; [done|]. cbn [for_each]. rewrite Hb by left.
  destruct (b2 i s); cbn [bind]; [|done..]. apply IH. intros j t Hj. apply Hb. by right.
Qed.

Lemma for_each_shift {S} (k z n : nat) (b1 b2 : nat -> S -> result S) s :
  (forall i t, i ∈ seq z n -> b1 (k + i)%nat t = b2 i t) -> for_each (seq (k + z) n) b1 s = for_each (seq z n) b2 s.
Proof.
  revert z s. induction n as [|n IH]; intros z s Hb; [done|]. cbn [seq for_each].
  rewrite Hb by (apply elem_of_seq; lia). destruct (b2 z s); cbn [bind]; [|done..].
  rewrite <- Nat.add_succ_r. apply IH. intros i t Hi. apply Hb. apply elem_of_seq in Hi. apply elem_of_seq. lia.
Qed.

(** A loop whose iterations succeed is a fold. *)
Lemma for_each_ok {S} (P : S -> Prop) (f : S -> nat -> S) order body s :
  (forall i t, i ∈ order -> P t -> body i t = Ok (f t i) /\ P (f t i)) -> P s ->
  for_each order body s = Ok (foldl f s order) /\ P (foldl f s order).
Proof.
  revert s. induction order as [|i order IH]; intros s H Hs; [done|]. cbn [for_each foldl].
  destruct (H i s) as [E HP]; [by left|done|]. rewrite E. cbn [bind]. apply IH; [|done]. intros j t Hj. apply H. by right.
Qed.

(** A counting loop with an invariant. *)
Lemma for_each_inv {S} (I : nat -> S -> Prop) n body s :
  (forall i t, (i < n)%nat -> I i t -> exists t', body i t = Ok t' /\ I (1 + i)%nat t') -> I 0%nat s ->
  exists t', for_each (seq 0 n) body s = Ok t' /\ I n t'.
Proof.
  intros Hb Hs. induction n as [|n IH]; [by exists s|]. destruct IH as (t & E & Ht); [intros i t Hi; apply Hb; lia|].
  destruct (Hb n t) as (t' & E' & Ht'); [lia|done|]. exists t'. split; [|done].
  rewrite seq_S, for_each_app, E. cbn [bind for_each Nat.add]. by rewrite E'.
Qed.

(** Each iteration establishes its own fact and keeps the others'. *)
Lemma for_each_establish {S} (P : S -> Prop) (Q : nat -> S -> Prop) order body s :
  (forall i t, i ∈ order -> P t -> exists t', body i t = Ok t' /\ P t' /\ Q i t' /\ forall i', Q i' t -> Q i' t') -> P s ->
  exists t', for_each order body s = Ok t' /\ P t' /\ (forall i, i ∈ order -> Q i t') /\ (forall i, Q i s -> Q i t').
Proof.
  revert s. induction order as [|i order IH]; intros s H Hs.
  - exists s. do 2 (split; [done|]). split; [|done]. intros i Hi. by apply elem_of_nil in Hi.
  - destruct (H i s) as (t & E & Ht & Hi & Hk); [by left|done|]. destruct (IH t) as (t' & E' & Ht' & Ho & Hk'); [intros j u Hj; apply H; by right|done|].
    exists t'. cbn [for_each]. rewrite E. cbn [bind]. split; [done|]. split; [done|]. split; [|intros j Hj; by apply Hk', Hk].
    intros j [->|Hj]%elem_of_cons; [by apply Hk'|by apply Ho].
Qed.

(** The same with facts of another kind: iteration [i] establishes those [R i] names. *)
Lemma for_each_keys {S T} (P : S -> Prop) (K : T -> S -> Prop) (R : nat -> T -> Prop) order body s :
  (forall i t, i ∈ order -> P t -> exists t', body i t = Ok t' /\ P t' /\ (forall k, R i k -> K k t') /\ forall k, K k t -> K k t') -> P s ->
  exists t', for_each order body s = Ok t' /\ P t' /\ (forall i k, i ∈ order -> R i k -> K k t') /\ (forall k, K k s -> K k t').
Proof.
  revert s. induction order as [|i order IH]; intros s H Hs.
  - exists s. do 2 (split; [done|]). split; [|done]. intros i k Hi. by apply elem_of_nil in Hi.
  - destruct (H i s) as (t & E & Ht & Hi & Hk); [by left|done|]. destruct (IH t) as (t' & E' & Ht' & Ho & Hk'); [intros j u Hj; apply H; by right|done|].
    exists t'. cbn [for_each]. rewrite E. cbn [bind]. split; [done|]. split; [done|]. split; [|intros k Hq; by apply Hk', Hk].
    intros j k [->|Hj]%elem_of_cons Hr; [by apply Hk', Hi|by eapply Ho].
Qed.

(** A loop one iteration of which has no meaning has none. *)
Lemma for_each_undef {S} (P : S -> Prop) order body (s : S) i :
  i ∈ order -> (forall t, P t -> body i t = Undef) ->
  (forall j t, P t -> body j t = Undef \/ exists t', body j t = Ok t' /\ P t') -> P s -> for_each order body s = Undef.
Proof.
  intros Hi Hu Hc. revert s. induction order as [|j order IH]; intros s Hs; [by apply elem_of_nil in Hi|].
  cbn [for_each]. destruct (decide (j = i)) as [->|Hne]; [by rewrite Hu|].
  destruct (Hc j s Hs) as [->|(t & -> & Ht)]; [done|]. cbn [bind]. apply IH; [|done]. by apply elem_of_cons in Hi as [->|Hi].
Qed.

(** A loop whose iterations either continue or throw the same exception, one of which throws. *)
Lemma for_each_throw {S} e order body (s : S) i :
  i ∈ order -> (forall t, body i t = Throw e) -> (forall j t, j ∈ order -> body j t = Throw e \/ exists t', body j t = Ok t') ->
  for_each order body s = Throw e.
Proof.
  intros Hi Hu. revert s. induction order as [|j order IH]; intros s Hc; [by apply elem_of_nil in Hi|].
  cbn [for_each]. destruct (decide (j = i)) as [->|Hne]; [by rewrite Hu|].
  destruct (Hc j s) as [->|(t & ->)]; [by left|done|]. cbn [bind]. apply IH; [by apply elem_of_cons in Hi as [->|Hi]|].
  intros j' t' Hj'. apply Hc. by right.
Qed.

Lemma cast_int_id n : (Z.of_nat n < 2 ^ 31) -> cast_int (Z.of_nat n) = Z.of_nat n.
Proof. intros H. unfold cast_int. rewrite Z.mod_small; lia. Qed.

Lemma parallel_teams_order `{!ParallelFor} {S} n body (s : S) : Z.of_nat n < 2 ^ 31 -> parallel_teams n body s = for_each (range_order n) body s.
Proof. intros Hn. unfold parallel_teams. rewrite cast_int_id by done. rewrite Nat2Z.id. case_if; [bsimpl; lia|done]. Qed.

Lemma foldl_alter_length {A B} (g : B -> nat) (f : B -> A -> A) (order : list B) (l : list A) :
  length (foldl (fun l i => alter (f i) (g i) l) l order) = length l.
Proof. revert l. induction order as [|i o IH]; intros l; [done|]. cbn [foldl]. by rewrite IH, length_alter. Qed.

Lemma foldl_alter_lookup {A B} (g : B -> nat) (f : B -> A -> A) (order : list B) (l : list A) j :
  foldl (fun l i => alter (f i) (g i) l) l order !! j
  = (fun x => foldl (fun x i => f i x) x (filter (fun i => g i = j) order)) <$> l !! j.
Proof.
  revert l. induction order as [|i o IH]; intros l; [cbn; by destruct (l !! j)|]. cbn [foldl]. rewrite IH, filter_cons.
  destruct (decide (g i = j)) as [<-|Hne].
  - rewrite list_lookup_alter_eq. by destruct (l !! g i).
  - by rewrite list_lookup_alter_ne.
Qed.

Lemma filter_empty {A} (P : A -> Prop) `{HP : !forall x, Decision (P x)} (l : list A) : (forall x, x ∈ l -> ~ P x) -> filter P l = [].
Proof.
  induction l as [|x l IH]; intros Hn; [done|]. rewrite filter_cons, decide_False by (apply Hn; by left).
  apply IH. intros y Hy. apply Hn. by right.
Qed.

Lemma filter_eq_seq j n : (j < n)%nat -> filter (fun i => i = j) (seq 0 n) = [j].
Proof.
  intros H. replace n with (j + (1 + (n - j - 1)))%nat by lia. rewrite !seq_app, !list.filter_app. cbn [seq].
  rewrite filter_cons, decide_True, filter_nil by lia.
  rewrite !filter_empty; [done| |]; intros y Hy%elem_of_seq; lia.
Qed.

(** Each iteration updates a cell of its own. *)
Lemma for_each_own {A} (f : nat -> A -> A) n order body (l : list A) :
  order ≡ₚ seq 0 n -> length l = n -> (forall j d, (j < n)%nat -> length d = n -> body j d = Ok (alter (f j) j d)) ->
  for_each order body l = Ok (imap f l).
Proof.
  intros Hp Hl Hb. destruct (for_each_ok (fun d => length d = n) (fun d j => alter (f j) j d) order body l) as [E _].
  { intros i t Hi Ht. rewrite length_alter. split; [|done]. apply Hb; [|done]. rewrite Hp in Hi. apply elem_of_seq in Hi. lia. }
  { done. }
  rewrite E. f_equal. apply list_eq. intros j. rewrite (foldl_alter_lookup (fun i => i)), list_lookup_imap.
  destruct (l !! j) as [x|] eqn:Hx; [|done]. cbn. f_equal.
  assert (filter (fun i => i = j) order = [j]) as ->; [|done]. apply Permutation_singleton_r. rewrite Hp.
  apply lookup_lt_Some in Hx. rewrite Hl in Hx. by rewrite filter_eq_seq.
Qed.

(** ** Sums *)

Lemma summation_foldl l0 a l : summation l0 a -> summation (l0 ++ l) (foldl dadd a l).
Proof.
  revert l0 a. induction l as [|x l IH]; intros l0 a H; [by rewrite app_nil_r|]. cbn [foldl].
  rewrite (assoc_L _ l0 [x] l : l0 ++ x :: l = _). apply IH. apply sum_join; [done|apply sum_one].
Qed.

Lemma summation_from_zero l : summation l (foldl dadd dzero l).
Proof. apply (summation_foldl [] dzero). apply sum_zero. Qed.

Lemma alter_same {A} (f : A -> A) i (l : list A) : (forall x, f x = x) -> alter f i l = l.
Proof. intros H. apply list_eq. intros j. rewrite list_lookup_alter. case_decide as E; [subst|done]. by destruct (l !! j) as [x|]; cbn; rewrite ?H. Qed.

(** Scattered additions: a live cell ends with a sum of the terms sent to it, the others
    are left alone. *)
Lemma for_each_scatter (g : nat -> nat) (live : nat -> bool) (p : nat -> double) n order k body (l : list double) :
  order ≡ₚ seq 0 k -> length l = n ->
  (forall i d, (i < k)%nat -> length d = n -> body i d = Ok (alter (fun y => if live (g i) then dadd y (p i) else y) (g i) d)) ->
  exists l', for_each order body l = Ok l' /\ length l' = n /\
    forall j, l' !! j = (fun x => if live j then foldl dadd x (p <$> filter (fun i => g i = j) order) else x) <$> l !! j.
Proof.
  intros Hp Hl Hb. pose (f := fun i y => if live (g i) then dadd y (p i) else y).
  destruct (for_each_ok (fun d => length d = n) (fun d i => alter (f i) (g i) d) order body l) as [E HL].
  { intros i t Hi Ht. rewrite length_alter. split; [|done]. apply Hb; [|done]. rewrite Hp in Hi. apply elem_of_seq in Hi. lia. }
  { done. }
  eexists. split; [exact E|]. split; [done|]. intros j. rewrite (foldl_alter_lookup g f).
  destruct (l !! j) as [x|]; [|done]. cbn. f_equal. clear E HL Hb Hp. revert x. induction order as [|i q IH]; intros x.
  - cbn. by destruct (live j).
  - rewrite filter_cons. case_decide as Ei; [|apply IH]. cbn. rewrite IH. unfold f. rewrite Ei. by destruct (live j).
Qed.

Lemma dadd_nan_l x : dadd dnan x = dnan.
Proof. reflexivity. Qed.
Lemma dadd_nan_r x : dadd x dnan = dnan.
Proof. by destruct x. Qed.
Lemma dmul_nan_r x : dmul x dnan = dnan.
Proof. by destruct x. Qed.

(** A missing value reaches every sum it is a term of. *)
Lemma summation_nan l a : summation l a -> dnan ∈ l -> a = dnan.
Proof.
  induction 1 as [|x|l1 l2 a b _ IH1 _ IH2|l l' a Hp _ IH]; intros Hin.
  - by apply elem_of_nil in Hin.
  - apply list_elem_of_singleton in Hin. done.
  - apply elem_of_app in Hin as [H|H]; [rewrite IH1 by done; apply dadd_nan_l|rewrite IH2 by done; apply dadd_nan_r].
  - apply IH. by rewrite Hp.
Qed.
