(* ===== verification/InterpolationMatrix.v ===== *)
(** * AXIS: the interpolation matrix
    (src/libs/axis/include/axis/solver/interpolation_matrix.hpp)

    The weights in coordinate form, [to_csr] with its sort, count, prefix sum and fill
    loops, and the operator cached for the sparse kernels.  Extents are counts of elements
    of arrays that exist, so they are [nat]; the indices stored in the arrays are [index_t]
    and are not checked by the code: an access they take out of an array is [Undef].
    [std::sort] is the interface [StdSort]. *)
From Stdlib Require Import ZArith Lia Sorted SpecFloat.
From stdpp Require Import base list numbers sorting.
From S2P Require Import Prelude Blend KokkosArrays.
Local Open Scope Z_scope.

(** ** [std::sort] *)

Record strict_weak {A} (lt : A -> A -> bool) : Prop := {
  lt_irrefl a : lt a a = false;
  lt_trans a b c : lt a b = true -> lt b c = true -> lt a c = true;
  incomparable_trans a b c : lt a b = false -> lt b c = false -> lt a c = false
}.

(** Elements that the order does not distinguish may come in any order. *)
Class StdSort := {
  std_sort : (Z -> Z -> bool) -> list Z -> list Z;
  std_sort_perm lt l : strict_weak lt -> std_sort lt l ≡ₚ l;
  std_sort_sorted lt l : strict_weak lt -> StronglySorted (fun a b => lt b a = false) (std_sort lt l)
}.

(** ** Data *)

Record CrsMatrix : Type := mkCrsMatrix { numCols : Z; row_map : list Z; entries : list Z; values : list double }.

Record InterpolationMatrix : Type := mkInterpolationMatrix {
  factor_list : list double;
  factor_row : list Z;
  factor_col : list Z;
  frac_a : list double;
  frac_b : list double;
  area_a : list double;
  area_b : list double;
  n_src : nat;
  n_dst : nat;
  row_ptr : list Z;
  col_idx : list Z;
  csr_values : list double;
  is_csr : bool;
  kk_cache : option CrsMatrix
}.

(** The adopting constructor. *)
Definition new_matrix (fl : list double) (fr fc : list Z) (fa fb aa ab : list double) (ns nd : nat) : InterpolationMatrix :=
  mkInterpolationMatrix fl fr fc fa fb aa ab ns nd [] [] [] false None.

Definition nnz (m : InterpolationMatrix) : nat := length (factor_list m).

Definition factor_index (m : InterpolationMatrix) (k : Z) : result (Z * Z) :=
  let! r := read (factor_row m) k in
  let! c := read (factor_col m) k in
  Ok (r, c).

Definition with_csr (m : InterpolationMatrix) (rp ci : list Z) (vs : list double) : InterpolationMatrix :=
  mkInterpolationMatrix (factor_list m) (factor_row m) (factor_col m) (frac_a m) (frac_b m) (area_a m) (area_b m)
    (n_src m) (n_dst m) rp ci vs true (kk_cache m).

(** ** [to_csr] *)

(** The comparison given to the sort.  A row or a column it reads past the end of its
    array is read again by the loops below, where it is [Undef]. *)
Definition less (rows cols : list Z) (a b : Z) : bool :=
  let at_ l i := default 0 (l !! Z.to_nat i) in
  if at_ rows a =? at_ rows b then at_ cols a <? at_ cols b else at_ rows a <? at_ rows b.

Definition count_rows (rows perm : list Z) (rp : list Z) : result (list Z) :=
  for_each (seq 0 (length perm)) (fun k rp =>
    let! p := read perm (Z.of_nat k) in
    let! row_idx := read rows p in
    update (fun x => x + 1) rp (row_idx + 1)) rp.

Definition prefix_sum (n_rows : nat) (rp : list Z) : result (list Z) :=
  for_each (seq 0 n_rows) (fun i rp =>
    let! x := read rp (Z.of_nat i) in
    update (fun y => y + x) rp (Z.of_nat i + 1)) rp.

Definition fill (cols : list Z) (vals : list double) (perm : list Z) : result (list Z * list double) :=
  for_each (seq 0 (length perm)) (fun k st =>
    let! orig_idx := read perm (Z.of_nat k) in
    let! c := read cols orig_idx in
    let! ci := write (fst st) (Z.of_nat k) c in
    let! v := read vals orig_idx in
    let! vs := write (snd st) (Z.of_nat k) v in
    Ok (ci, vs)) (replicate (length perm) 0, replicate (length perm) dzero).

Definition to_csr `{SS : !StdSort} (m : InterpolationMatrix) : result InterpolationMatrix :=
  if is_csr m then Ok m else
  let n_nz := nnz m in
  let n_rows := n_dst m in
  if (n_nz =? 0)%nat then Ok (with_csr m (replicate (n_rows + 1) 0) [] []) else
  let h_perm := std_sort (less (factor_row m) (factor_col m)) (Z.of_nat <$> seq 0 n_nz) in
  let! counts := count_rows (factor_row m) h_perm (replicate (n_rows + 1) 0) in
  let! rp := prefix_sum n_rows counts in
  let! '(ci, vs) := fill (factor_col m) (factor_list m) h_perm in
  Ok (with_csr m rp ci vs).

(** The operator of the sparse kernels, built at the first call and kept. *)
Definition kk_crs_matrix (m : InterpolationMatrix) : CrsMatrix * InterpolationMatrix :=
  match kk_cache m with
  | Some a => (a, m)
  | None =>
      let a := mkCrsMatrix (Z.of_nat (n_src m)) (row_ptr m) (col_idx m) (csr_values m) in
      (a, mkInterpolationMatrix (factor_list m) (factor_row m) (factor_col m) (frac_a m) (frac_b m) (area_a m) (area_b m)
            (n_src m) (n_dst m) (row_ptr m) (col_idx m) (csr_values m) (is_csr m) (Some a))
  end.

(** ** Specification *)

(** The entries in coordinate form. *)
Definition coo (m : InterpolationMatrix) : list (Z * (Z * double)) := zip (factor_row m) (zip (factor_col m) (factor_list m)).

Definition row_entries (j : nat) (es : list (Z * (Z * double))) : list (Z * double) :=
  snd <$> filter (fun e => fst e = Z.of_nat j) es.

(** As many rows and columns as weights, and every index names a cell. *)
Definition well_formed (m : InterpolationMatrix) : Prop :=
  length (factor_row m) = nnz m /\ length (factor_col m) = nnz m /\
  Forall (fun r => 0 <= r < Z.of_nat (n_dst m)) (factor_row m) /\
  Forall (fun c => 0 <= c < Z.of_nat (n_src m)) (factor_col m).

Definition slice {A} (l : list A) (a b : Z) : list A := take (Z.to_nat b - Z.to_nat a) (drop (Z.to_nat a) l).

(** The arrays [rp], [ci], [vs] are the matrix [es] of [n] rows by rows, each row in the
    order of its columns. *)
Record csr_of (n : nat) (es : list (Z * (Z * double))) (rp ci : list Z) (vs : list double) : Prop := {
  csr_rows : length rp = S n;
  csr_first : rp !! 0%nat = Some 0;
  csr_last : rp !! n = Some (Z.of_nat (length es));
  csr_cols : length ci = length es;
  csr_vals : length vs = length es;
  csr_row j : (j < n)%nat -> exists a b, rp !! j = Some a /\ rp !! S j = Some b /\ 0 <= a /\ a <= b <= Z.of_nat (length es) /\
    slice (zip ci vs) a b ≡ₚ row_entries j es /\ StronglySorted Z.le (fst <$> slice (zip ci vs) a b)
}.

(** The state of a matrix as the operations leave it. *)
Definition coherent (m : InterpolationMatrix) : Prop :=
  (is_csr m = true -> csr_of (n_dst m) (coo m) (row_ptr m) (col_idx m) (csr_values m)) /\
  (forall a, kk_cache m = Some a -> a = mkCrsMatrix (Z.of_nat (n_src m)) (row_ptr m) (col_idx m) (csr_values m)) /\
  (is_csr m = false -> kk_cache m = None).

(** * Lemmas *)

(** ** Lists sorted by a key *)

Lemma filter_all {A} (P : A -> Prop) `{HP : !forall x, Decision (P x)} (l : list A) : Forall P l -> filter P l = l.
Proof. induction 1 as [|x l Hx _ IH]; [done|]. by rewrite filter_cons, decide_True, IH. Qed.

Lemma sorted_split {A} (key : A -> Z) (l : list A) j : StronglySorted (fun x y => key x <= key y) l ->
  l = filter (fun x => key x < j) l ++ filter (fun x => key x = j) l ++ filter (fun x => j < key x) l.
Proof.
  induction 1 as [|x l _ IH Hx]; [done|]. rewrite !filter_cons. rewrite list.Forall_forall in Hx.
  destruct (Z.lt_trichotomy (key x) j) as [Hlt|[Heq|Hgt]].
  - rewrite decide_True, !decide_False by lia. cbn. by rewrite <- IH.
  - rewrite decide_False, decide_True, decide_False by lia.
    assert (filter (fun x => key x < j) l = []) as E by (apply filter_empty; intros y Hy; specialize (Hx y Hy); lia).
    rewrite E in IH |- *. cbn. f_equal. exact IH.
  - rewrite decide_False, decide_False, decide_True by lia.
    rewrite (filter_empty (fun x => key x < j)), (filter_empty (fun x => key x = j)), (filter_all (fun x => j < key x)); [done| | |].
    + apply list.Forall_forall. intros y Hy. specialize (Hx y Hy). lia.
    + intros y Hy. specialize (Hx y Hy). lia.
    + intros y Hy. specialize (Hx y Hy). lia.
Qed.

Definition below (l : list Z) (j : Z) : nat := length (filter (fun r => r < j) l).
Definition equal (l : list Z) (j : Z) : nat := length (filter (fun r => r = j) l).

Lemma below_succ l j : below l (j + 1) = (below l j + equal l j)%nat.
Proof.
  unfold below, equal. induction l as [|x l IH]; [done|]. rewrite !filter_cons.
  repeat case_decide; cbn [length]; lia.
Qed.

Lemma below_zero l : Forall (fun r => 0 <= r) l -> below l 0 = 0%nat.
Proof. intros H. unfold below. rewrite filter_empty; [done|]. intros x Hx. rewrite list.Forall_forall in H. specialize (H x Hx). lia. Qed.

Lemma below_all l n : Forall (fun r => r < n) l -> below l n = length l.
Proof. intros H. unfold below. by rewrite filter_all. Qed.

Lemma below_length l j : (below l j <= length l)%nat.
Proof. apply length_filter. Qed.

#[global] Instance below_perm : Proper ((≡ₚ) ==> eq ==> eq) below.
Proof. intros l l' H j ? <-. unfold below. by rewrite H. Qed.

Lemma length_filter_key {A} (key : A -> Z) (P : Z -> Prop) `{HP : !forall x, Decision (P x)} (l : list A) :
  length (filter (fun x => P (key x)) l) = length (filter P (key <$> l)).
Proof. induction l as [|x l IH]; [done|]. cbn [fmap list_fmap]. rewrite !filter_cons. case_decide; cbn [length]; by rewrite IH. Qed.

(** The slice between two prefix sums is the elements of one key. *)
Lemma slice_sorted {A} (key : A -> Z) (l : list A) j : StronglySorted (fun x y => key x <= key y) l ->
  slice l (Z.of_nat (below (key <$> l) j)) (Z.of_nat (below (key <$> l) (j + 1))) = filter (fun x => key x = j) l.
Proof.
  intros Hs. unfold slice. rewrite !Nat2Z.id, below_succ.
  replace (below (key <$> l) j + equal (key <$> l) j - below (key <$> l) j)%nat with (equal (key <$> l) j) by lia.
  pose proof (sorted_split key l j Hs) as E. rewrite E at 3. unfold below, equal.
  rewrite <- (length_filter_key key (fun r => r < j)), <- (length_filter_key key (fun r => r = j)).
  by rewrite drop_app_length, take_app_length.
Qed.

(** ** The sort *)

Lemma less_strict_weak rows cols : strict_weak (less rows cols).
Proof.
  split; unfold less; intros a; [rewrite Z.eqb_refl; apply Z.ltb_irrefl| |]; intros b c;
    repeat match goal with |- context [if ?x =? ?y then _ else _] => destruct (Z.eqb_spec x y) end;
    rewrite ?Z.ltb_lt, ?Z.ltb_ge; lia.
Qed.

Lemma StronglySorted_fmap {A B} (f : A -> B) (R : B -> B -> Prop) l : StronglySorted (fun a b => R (f a) (f b)) l -> StronglySorted R (f <$> l).
Proof. induction 1 as [|x l _ IH Hx]; [constructor|]. cbn. constructor; [done|]. by apply Forall_fmap. Qed.

Lemma StronglySorted_weaken {A} (R Q : A -> A -> Prop) l : (forall a b, R a b -> Q a b) -> StronglySorted R l -> StronglySorted Q l.
Proof. intros H. induction 1 as [|x l _ IH Hx]; constructor; [done|]. eapply Forall_impl; [exact Hx|]. intros y. apply H. Qed.

Lemma StronglySorted_filter {A} (R : A -> A -> Prop) (P : A -> Prop) `{HP : !forall x, Decision (P x)} l :
  StronglySorted R l -> StronglySorted R (filter P l).
Proof.
  induction 1 as [|x l _ IH Hx]; [constructor|]. rewrite filter_cons. case_decide; [|done]. constructor; [done|].
  rewrite list.Forall_forall in Hx |- *. intros y [_ Hy]%list_elem_of_filter. by apply Hx.
Qed.

(** ** The loops of [to_csr] *)

Section Loops.
Context (rows perm : list Z) (sorted : list Z) (n : nat).
Hypothesis Hread : forall k p, perm !! k = Some p -> exists r, sorted !! k = Some r /\ read rows p = Ok r.
Hypothesis Hlen : length sorted = length perm.
Hypothesis Hrange : Forall (fun r => 0 <= r < Z.of_nat n) sorted.

Lemma sorted_at k : (k < length perm)%nat ->
  exists p r, read perm (Z.of_nat k) = Ok p /\ sorted !! k = Some r /\ read rows p = Ok r /\ 0 <= r < Z.of_nat n.
Proof.
  intros Hk. destruct (lookup_lt_is_Some_2 perm k Hk) as [p Hp]. destruct (Hread k p Hp) as (r & Hs & Hr).
  exists p, r. split; [by apply read_nat|]. split; [done|]. split; [done|]. rewrite Forall_lookup in Hrange. by apply (Hrange k).
Qed.

Lemma count_rows_spec : exists rp, count_rows rows perm (replicate (n + 1) 0) = Ok rp /\ length rp = (n + 1)%nat /\
  forall j, (j <= n)%nat -> rp !! j = Some (Z.of_nat (equal sorted (Z.of_nat j - 1))).
Proof.
  destruct (for_each_inv (fun k rp => length rp = (n + 1)%nat /\
      forall j, (j <= n)%nat -> rp !! j = Some (Z.of_nat (equal (take k sorted) (Z.of_nat j - 1)))) (length perm) (fun k rp =>
    let! p := read perm (Z.of_nat k) in
    let! row_idx := read rows p in
    update (fun x => x + 1) rp (row_idx + 1)) (replicate (n + 1) 0)) as (rp & E & HL & HI).
  - intros k rp Hk [HL HI]. destruct (sorted_at k Hk) as (p & r & Ep & Hs & Er & Hr). rewrite Ep. cbn [bind]. rewrite Er. cbn [bind].
    rewrite update_in_bounds by lia. eexists. split; [done|]. split; [by rewrite length_alter|]. intros j Hj.
    replace (1 + k)%nat with (S k) by lia. rewrite (take_S_r _ _ _ Hs). unfold equal. rewrite list.filter_app, length_app.
    rewrite filter_cons. destruct (decide (r = Z.of_nat j - 1)) as [->|Hne].
    + replace (Z.to_nat (Z.of_nat j - 1 + 1)) with j by lia. rewrite list_lookup_alter_eq, HI by done. cbn. f_equal. unfold equal. lia.
    + rewrite list_lookup_alter_ne, HI by lia. cbn. f_equal. unfold equal. lia.
  - split; [apply length_replicate|]. intros j Hj. rewrite lookup_replicate_2 by lia. done.
  - exists rp. split; [exact E|]. split; [done|]. intros j Hj. rewrite HI by done. by rewrite take_ge by lia.
Qed.

Lemma prefix_sum_spec counts : length counts = (n + 1)%nat ->
  (forall j, (j <= n)%nat -> counts !! j = Some (Z.of_nat (equal sorted (Z.of_nat j - 1)))) ->
  exists rp, prefix_sum n counts = Ok rp /\ length rp = (n + 1)%nat /\
    forall j, (j <= n)%nat -> rp !! j = Some (Z.of_nat (below sorted (Z.of_nat j))).
Proof using Hrange.
  clear Hread Hlen. intros HL0 H0.
  assert (Hnn : Forall (fun r => 0 <= r) sorted) by (eapply Forall_impl; [exact Hrange|]; cbv beta; intros x Hx; lia).
  destruct (for_each_inv (fun i rp => length rp = (n + 1)%nat /\ forall j, (j <= n)%nat ->
      rp !! j = Some (Z.of_nat (if decide (j <= i)%nat then below sorted (Z.of_nat j) else equal sorted (Z.of_nat j - 1)))) n (fun i rp =>
    let! x := read rp (Z.of_nat i) in
    update (fun y => y + x) rp (Z.of_nat i + 1)) counts) as (rp & E & HL & HI).
  - intros i rp Hi [HL HI]. rewrite (read_nat rp i _ (HI i ltac:(lia))). cbn [bind]. rewrite decide_True by lia.
    rewrite update_in_bounds by lia. eexists. split; [done|]. split; [by rewrite length_alter|]. intros j Hj.
    destruct (decide (j = 1 + i)%nat) as [->|Hne].
    + replace (Z.to_nat (Z.of_nat i + 1)) with (1 + i)%nat by lia. rewrite list_lookup_alter_eq, HI by lia. cbn. f_equal.
      rewrite decide_False, decide_True by lia. replace (Z.of_nat (S i)) with (Z.of_nat i + 1) by lia. rewrite below_succ.
      replace (Z.of_nat i + 1 - 1) with (Z.of_nat i) by lia. lia.
    + rewrite list_lookup_alter_ne, HI by lia. do 2 f_equal. repeat case_decide; try lia; done.
  - split; [done|]. intros j Hj. rewrite H0 by done. case_decide; [|done]. assert (j = 0%nat) as -> by lia.
    rewrite below_zero by done. do 2 f_equal. unfold equal. rewrite filter_empty; [done|]. intros x Hx.
    rewrite list.Forall_forall in Hnn. specialize (Hnn x Hx). lia.
  - exists rp. split; [exact E|]. split; [done|]. intros j Hj. rewrite HI by done. by rewrite decide_True.
Qed.
End Loops.

Lemma fill_spec cols vals perm cs vs : length cs = length perm -> length vs = length perm ->
  (forall k p, perm !! k = Some p -> exists c v, cs !! k = Some c /\ vs !! k = Some v /\ read cols p = Ok c /\ read vals p = Ok v) ->
  fill cols vals perm = Ok (cs, vs).
Proof.
  intros Hc Hv H.
  destruct (for_each_inv (fun k st => fst st = take k cs ++ replicate (length perm - k) 0 /\ snd st = take k vs ++ replicate (length perm - k) dzero)
    (length perm) (fun k st =>
    let! orig_idx := read perm (Z.of_nat k) in
    let! c := read cols orig_idx in
    let! ci := write (fst st) (Z.of_nat k) c in
    let! v := read vals orig_idx in
    let! vs := write (snd st) (Z.of_nat k) v in
    Ok (ci, vs)) (replicate (length perm) 0, replicate (length perm) dzero)) as ([ci ws] & E & H1 & H2).
  - intros k [ci ws] Hk [H1 H2]. cbn [fst snd] in *. destruct (lookup_lt_is_Some_2 perm k Hk) as [p Hp].
    destruct (H k p Hp) as (c & v & Ec & Ev & Rc & Rv). rewrite (read_nat perm k p Hp). cbn [bind]. rewrite Rc. cbn [bind].
    assert (HL : length ci = length perm /\ length ws = length perm).
    { subst. rewrite !length_app, !length_take, !length_replicate. lia. }
    rewrite write_in_bounds by lia. cbn [bind]. rewrite Rv. cbn [bind]. rewrite write_in_bounds by lia. cbn [bind].
    eexists. split; [done|]. cbn [fst snd]. rewrite Nat2Z.id. subst ci ws. replace (1 + k)%nat with (S k) by lia.
    rewrite (take_S_r cs k c Ec), (take_S_r vs k v Ev).
    replace (length perm - k)%nat with (S (length perm - S k)) by lia. cbn [replicate]. rewrite <- !app_assoc. cbn [app].
    split; (rewrite insert_app_r_alt by (rewrite length_take; lia)); rewrite length_take, Nat.min_l, Nat.sub_diag by lia; done.
  - rewrite !take_0, Nat.sub_0_r. done.
  - unfold fill. rewrite E. cbn [fst snd] in *. rewrite H1, H2, Nat.sub_diag. cbn [replicate]. rewrite !app_nil_r, !take_ge by lia. done.
Qed.

(** ** [to_csr] *)

Lemma StronglySorted_weaken_in {A} (R Q : A -> A -> Prop) l :
  (forall a b, a ∈ l -> b ∈ l -> R a b -> Q a b) -> StronglySorted R l -> StronglySorted Q l.
Proof.
  intros H. induction 1 as [|x l _ IH Hx]; constructor.
  - apply IH. intros a b Ha Hb. apply H; by right.
  - rewrite list.Forall_forall in Hx |- *. intros y Hy. apply H; [by left|by right|by apply Hx].
Qed.

Lemma slice_fmap {A B} (f : A -> B) l a b : slice (f <$> l) a b = f <$> slice l a b.
Proof. unfold slice. by rewrite fmap_take, fmap_drop. Qed.

Lemma length_coo m : well_formed m -> length (coo m) = nnz m.
Proof. intros (Hr & Hc & _). unfold coo. rewrite !length_zip_with. fold (nnz m). lia. Qed.

Definition entry (m : InterpolationMatrix) (p : Z) : Z * (Z * double) :=
  (default 0 (factor_row m !! Z.to_nat p), (default 0 (factor_col m !! Z.to_nat p), default dzero (factor_list m !! Z.to_nat p))).

Definition entry_less (e f : Z * (Z * double)) : bool :=
  if fst e =? fst f then fst (snd e) <? fst (snd f) else fst e <? fst f.

Lemma read_default l i d : 0 <= i < Z.of_nat (length l) -> @read Z l i = Ok (default d (l !! Z.to_nat i)).
Proof. intros H. destruct (read_in_bounds l i H) as (x & E & Hx). by rewrite E, Hx. Qed.

Lemma read_default_double l i d : 0 <= i < Z.of_nat (length l) -> @read double l i = Ok (default d (l !! Z.to_nat i)).
Proof. intros H. destruct (read_in_bounds l i H) as (x & E & Hx). by rewrite E, Hx. Qed.

Lemma entries_in_order m : well_formed m -> entry m <$> (Z.of_nat <$> seq 0 (nnz m)) = coo m.
Proof.
  intros Hwf. destruct (Hwf) as (Hr & Hc & _). apply list_eq. intros k. destruct (decide (k < nnz m)%nat) as [Hk|Hk].
  - rewrite <- list_fmap_compose, list_lookup_fmap, lookup_seq_lt by done. cbn.
    destruct (lookup_lt_is_Some_2 (factor_row m) k) as [r Er]; [lia|].
    destruct (lookup_lt_is_Some_2 (factor_col m) k) as [c Ec]; [lia|].
    destruct (lookup_lt_is_Some_2 (factor_list m) k Hk) as [v Ev].
    unfold entry, coo. rewrite Nat2Z.id, Er, Ec, Ev. cbn. symmetry. apply lookup_zip_with_Some. exists r, (c, v). split; [done|].
    split; [done|]. apply lookup_zip_with_Some. by exists c, v.
  - rewrite !lookup_ge_None_2; [done| |]; [rewrite length_coo by done|rewrite !length_fmap, length_seq]; lia.
Qed.

Section ToCsr.
Context `{SS : !StdSort} (m : InterpolationMatrix).
Hypothesis Hwf : well_formed m.

Definition csr_perm : list Z := std_sort (less (factor_row m) (factor_col m)) (Z.of_nat <$> seq 0 (nnz m)).
Definition csr_entries : list (Z * (Z * double)) := entry m <$> csr_perm.

Lemma csr_perm_spec : csr_perm ≡ₚ Z.of_nat <$> seq 0 (nnz m).
Proof. apply std_sort_perm, less_strict_weak. Qed.

Lemma csr_perm_length : length csr_perm = nnz m.
Proof. rewrite csr_perm_spec. by rewrite length_fmap, length_seq. Qed.

Lemma csr_perm_range k p : csr_perm !! k = Some p -> 0 <= p < Z.of_nat (nnz m).
Proof.
  intros H%list_elem_of_lookup_2. rewrite csr_perm_spec in H. apply list_elem_of_fmap in H as (i & -> & Hi%elem_of_seq). lia.
Qed.

Lemma csr_entries_perm : csr_entries ≡ₚ coo m.
Proof. unfold csr_entries. rewrite csr_perm_spec. by rewrite entries_in_order. Qed.

Lemma csr_entries_sorted : StronglySorted (fun a b => entry_less b a = false) csr_entries.
Proof. apply (StronglySorted_fmap (entry m) (fun a b => entry_less b a = false)). apply std_sort_sorted, less_strict_weak. Qed.

Lemma csr_rows_perm : fst <$> csr_entries ≡ₚ factor_row m.
Proof.
  rewrite csr_entries_perm. unfold coo. destruct Hwf as (Hr & Hc & _).
  rewrite fst_zip; [done|]. rewrite length_zip_with. fold (nnz m). lia.
Qed.

Lemma csr_rows_range : Forall (fun r => 0 <= r < Z.of_nat (n_dst m)) (fst <$> csr_entries).
Proof. rewrite csr_rows_perm. apply Hwf. Qed.

Lemma csr_reads k p : csr_perm !! k = Some p ->
  read (factor_row m) p = Ok (fst (entry m p)) /\ read (factor_col m) p = Ok (fst (snd (entry m p))) /\
  read (factor_list m) p = Ok (snd (snd (entry m p))).
Proof.
  intros Hp%csr_perm_range. destruct Hwf as (Hr & Hc & _). unfold entry. cbn [fst snd]. unfold nnz in *.
  split; [|split]; [apply read_default|apply read_default|apply read_default_double]; lia.
Qed.

Lemma csr_loops : exists counts rp,
  count_rows (factor_row m) csr_perm (replicate (n_dst m + 1) 0) = Ok counts /\
  prefix_sum (n_dst m) counts = Ok rp /\ length rp = (n_dst m + 1)%nat /\
  (forall j, (j <= n_dst m)%nat -> rp !! j = Some (Z.of_nat (below (fst <$> csr_entries) (Z.of_nat j)))) /\
  fill (factor_col m) (factor_list m) csr_perm = Ok (fst ∘ snd <$> csr_entries, snd ∘ snd <$> csr_entries).
Proof.
  assert (Hread : forall k p, csr_perm !! k = Some p ->
    exists r, (fst <$> csr_entries) !! k = Some r /\ read (factor_row m) p = Ok r).
  { intros k p Hp. exists (fst (entry m p)). split; [|by apply (csr_reads k)].
    unfold csr_entries. rewrite !list_lookup_fmap, Hp. done. }
  assert (HL : length (fst <$> csr_entries) = length csr_perm) by (unfold csr_entries; by rewrite !length_fmap).
  destruct (count_rows_spec _ _ _ _ Hread HL csr_rows_range) as (counts & E1 & L1 & H1).
  destruct (prefix_sum_spec (fst <$> csr_entries) (n_dst m) csr_rows_range counts L1 H1) as (rp & E2 & L2 & H2).
  exists counts, rp. do 4 (split; [done|]). apply fill_spec; [unfold csr_entries; by rewrite !length_fmap..|].
  intros k p Hp. exists (fst (snd (entry m p))), (snd (snd (entry m p))). unfold csr_entries. rewrite !list_lookup_fmap, Hp.
  split; [done|]. split; [done|]. by apply (csr_reads k).
Qed.

Lemma csr_entries_slice j : slice csr_entries (Z.of_nat (below (fst <$> csr_entries) j)) (Z.of_nat (below (fst <$> csr_entries) (j + 1)))
  = filter (fun e => fst e = j) csr_entries.
Proof.
  apply slice_sorted. eapply StronglySorted_weaken; [|exact csr_entries_sorted]. intros a b. unfold entry_less.
  destruct (Z.eqb_spec (fst b) (fst a)); rewrite Z.ltb_ge; lia.
Qed.

Lemma csr_of_loops rp : length rp = (n_dst m + 1)%nat ->
  (forall j, (j <= n_dst m)%nat -> rp !! j = Some (Z.of_nat (below (fst <$> csr_entries) (Z.of_nat j)))) ->
  csr_of (n_dst m) (coo m) rp (fst ∘ snd <$> csr_entries) (snd ∘ snd <$> csr_entries).
Proof.
  intros HL H. pose proof csr_rows_range as Hrange.
  assert (Hzip : zip (fst ∘ snd <$> csr_entries) (snd ∘ snd <$> csr_entries) = snd <$> csr_entries).
  { generalize csr_entries. induction l as [|[r [c v]] l IH]; [done|]. cbn. by rewrite IH. }
  split.
  - lia.
  - rewrite H by lia. do 2 f_equal. rewrite below_zero; [done|]. eapply Forall_impl; [exact Hrange|]. cbv beta. intros x Hx. lia.
  - rewrite H by lia. do 2 f_equal. rewrite below_all; [by rewrite length_fmap, csr_entries_perm|].
    eapply Forall_impl; [exact Hrange|]. cbv beta. intros x Hx. lia.
  - by rewrite length_fmap, csr_entries_perm.
  - by rewrite length_fmap, csr_entries_perm.
  - intros j Hj. do 2 eexists. split; [apply H; lia|]. split; [apply H; lia|].
    pose proof (below_length (fst <$> csr_entries) (Z.of_nat (S j))) as HB.
    rewrite length_fmap, (Permutation_length csr_entries_perm) in HB.
    split; [lia|]. replace (Z.of_nat (S j)) with (Z.of_nat j + 1) in * by lia.
    split; [rewrite below_succ in *; lia|]. rewrite Hzip, slice_fmap, csr_entries_slice. split.
    + unfold row_entries. by rewrite csr_entries_perm.
    + rewrite <- list_fmap_compose. apply (StronglySorted_fmap (fst ∘ snd) Z.le).
      eapply StronglySorted_weaken_in; [|apply StronglySorted_filter; exact csr_entries_sorted].
      intros a b [Ea _]%list_elem_of_filter [Eb _]%list_elem_of_filter. unfold entry_less. rewrite Ea, Eb, Z.eqb_refl, Z.ltb_ge. done.
Qed.
End ToCsr.

Lemma csr_of_empty n : csr_of n [] (replicate (n + 1) 0) [] [].
Proof.
  split; [rewrite length_replicate; lia|rewrite lookup_replicate_2 by lia; done..|done|done|].
  intros j Hj. exists 0, 0. rewrite !lookup_replicate_2 by lia. do 2 (split; [done|]). split; [lia|]. split; [lia|].
  unfold slice. cbn. split; [done|constructor].
Qed.

Lemma to_csr_spec `{SS : !StdSort} m : well_formed m -> is_csr m = false -> exists rp ci vs,
  to_csr m = Ok (with_csr m rp ci vs) /\ csr_of (n_dst m) (coo m) rp ci vs.
Proof.
  intros Hwf Hc. unfold to_csr. rewrite Hc. destruct (Nat.eqb_spec (nnz m) 0) as [H0|H0].
  - do 3 eexists. split; [done|]. assert (coo m = []) as -> by (apply length_zero_iff_nil; by rewrite length_coo).
    apply csr_of_empty.
  - destruct (csr_loops m Hwf) as (counts & rp & E1 & E2 & HL & H & E3). fold (csr_perm m).
    rewrite E1. cbn [bind]. rewrite E2. cbn [bind]. rewrite E3. cbn [bind]. do 3 eexists. split; [done|]. by apply csr_of_loops.
Qed.

(** A merge sort satisfies the interface. *)
Section MergeSort.
Context (lt : Z -> Z -> bool).
Definition not_greater (a b : Z) : Prop := lt b a = false.

#[global] Instance not_greater_dec : RelDecision not_greater.
Proof. intros a b. unfold not_greater. apply _. Defined.

Definition sort_by (l : list Z) : list Z := merge_sort not_greater l.

Hypothesis Hlt : strict_weak lt.

Lemma sort_by_sorted l : StronglySorted not_greater (sort_by l).
Proof.
  assert (Transitive not_greater) by (intros a b c Hab Hbc; exact (incomparable_trans lt Hlt c b a Hbc Hab)).
  assert (Total not_greater).
  { intros a b. unfold not_greater. destruct (lt b a) eqn:E; [right|by left]. destruct (lt a b) eqn:E'; [|done].
    pose proof (lt_trans lt Hlt a b a E' E) as F. by rewrite (lt_irrefl lt Hlt) in F. }
  apply (StronglySorted_merge_sort not_greater).
Qed.
End MergeSort.

#[export, program] Instance merge_std_sort : StdSort := {| std_sort := sort_by |}.
Next Obligation. intros lt l _. apply merge_sort_Permutation. Qed.
Next Obligation. intros lt l Hlt. by apply sort_by_sorted. Qed.

(** * Properties *)

(** C23. [to_csr] on a well-formed matrix gives the compressed form of the same matrix: the
    row pointers start at 0, end at the number of weights and delimit, for every row, the
    entries of that row in the order of their columns; nothing else changes, and a second
    call changes nothing. *)
Theorem to_csr_correct `{SS : !StdSort} m : well_formed m -> is_csr m = false -> exists m',
  to_csr m = Ok m' /\ is_csr m' = true /\
  csr_of (n_dst m) (coo m) (row_ptr m') (col_idx m') (csr_values m') /\
  coo m' = coo m /\ n_src m' = n_src m /\ n_dst m' = n_dst m /\ kk_cache m' = kk_cache m /\
  to_csr m' = Ok m'.
Proof.
  intros Hwf Hc. destruct (to_csr_spec m Hwf Hc) as (rp & ci & vs & E & H).
  exists (with_csr m rp ci vs). do 7 (split; [done|]). done.
Qed.

Definition d (k : Z) : double := SFmul 53 1024 (S754_finite false 4503599627370496 (-52)) (binary_normalize 53 1024 k 0 false).

Definition demo_matrix : InterpolationMatrix :=
  new_matrix [d 5; d 2; d 7; d 3] [2; 0; 2; 0] [1; 2; 0; 1] [] [] [] [] 3 3.

Example demo_matrix_to_csr : (let! m := to_csr demo_matrix in Ok (row_ptr m, col_idx m, csr_values m)) =
  Ok ([0; 2; 2; 4], [1; 2; 0; 1], [d 3; d 2; d 7; d 5]).
Proof. vm_compute. reflexivity. Qed.

Lemma to_csr_correct_witness : well_formed demo_matrix /\ exists m', to_csr demo_matrix = Ok m' /\ is_csr m' = true.
Proof.
  assert (Hwf : well_formed demo_matrix) by (split; [done|]; split; [done|]; split; repeat constructor; cbn; lia).
  split; [exact Hwf|]. destruct (to_csr_correct demo_matrix Hwf eq_refl) as (m' & E & H & _). by exists m'.
Defined.

(** A row index equal to the number of rows, which nothing rejects before, writes past the
    row pointers; a row index of -1 is counted in the first row pointer. *)
Example to_csr_row_too_large : to_csr (new_matrix [d 1] [1] [0] [] [] [] [] 1 1) = Undef.
Proof. vm_compute. reflexivity. Qed.

Example to_csr_row_negative : (let! m := to_csr (new_matrix [d 1] [-1] [0] [] [] [] [] 1 1) in Ok (row_ptr m)) = Ok [1; 1].
Proof. vm_compute. reflexivity. Qed.
