(* ===== verification/SparseApply.v ===== *)
(** * AXIS: applying the interpolation matrix
    (src/libs/axis/include/axis/solver/apply.hpp, halo_pattern.hpp)

    The local, distributed, callback, batch, missing-value and masked forms.  Every form
    reads its sources and writes its destination, which do not overlap, and a rank-2 view
    is column-major: its columns one after the other.  [KokkosSparse::spmv] is the
    interface [KokkosSparse]; a team policy runs the teams in the order of a range policy,
    and the reduction of a team is [sum_reduce]. *)
From Stdlib Require Import ZArith Lia Sorted SpecFloat.
From stdpp Require Import base list numbers.
From S2P Require Import Prelude Blend KokkosArrays InterpolationMatrix.
Local Open Scope Z_scope.

(** ** Data *)

Record HaloPattern : Type := mkHaloPattern {
  source_ranks : list Z;
  rank_offsets : list Z;
  needed_global_src_ids : list Z;
  gather_slot : list Z
}.

Definition num_remote (p : HaloPattern) : nat := length (needed_global_src_ids p).
Definition num_ranks (p : HaloPattern) : nat := length (source_ranks p).

(** The source value of a column. *)
Definition value (x : list double) (c : Z) : double := default dzero (x !! Z.to_nat c).

(** The products of the entries of a row with a source. *)
Definition products (x : list double) (row : list (Z * double)) : list double :=
  (fun e => dmul (snd e) (value x (fst e))) <$> row.

(** [y = A x] for a rank-1 and a rank-2 [x]: what [y] held is not read. *)
Class KokkosSparse := {
  spmv : CrsMatrix -> list double -> list double -> list double;
  spmv_mv : CrsMatrix -> View2 -> View2 -> View2;
  spmv_spec a n es x y : csr_of n es (row_map a) (entries a) (values a) -> numCols a = Z.of_nat (length x) ->
    Forall (fun e => 0 <= fst (snd e) < numCols a) es -> length y = n ->
    length (spmv a x y) = n /\
    forall j, (j < n)%nat -> exists s, spmv a x y !! j = Some s /\ summation (products x (row_entries j es)) s;
  spmv_mv_spec a n es x y : csr_of n es (row_map a) (entries a) (values a) -> numCols a = Z.of_nat (extent0 x) ->
    Forall (fun e => 0 <= fst (snd e) < numCols a) es -> extent0 y = n -> extent1 x = extent1 y ->
    length (cells x) = (extent0 x * extent1 x)%nat -> length (cells y) = (extent0 y * extent1 y)%nat ->
    exists l, spmv_mv a x y = with_cells y l /\ length l = length (cells y) /\
    forall j v, (j < n)%nat -> (v < extent1 y)%nat -> exists s, l !! (j + v * n)%nat = Some s /\
      summation (products (drop (v * extent0 x) (cells x)) (row_entries j es)) s
}.

(** ** The kernels *)

Section Apply.
Context `{!ParallelFor, !KokkosReduce, !KokkosSparse}.

Definition vector_range {S} (n : nat) (body : nat -> S -> result S) (s : S) : result S :=
  for_each (range_order (Z.to_nat (cast_int (Z.of_nat n)))) body s.

(** The values of a loop from [a] to [b]. *)
Definition read_range {A} (a b : Z) (f : Z -> result A) : result (list A) :=
  foldr (fun i rest => let! x := f (a + Z.of_nat i) in let! xs := rest in Ok (x :: xs)) (Ok []) (seq 0 (Z.to_nat (b - a))).

(** The loop over the weights, [dst(row_k) += S(k) * src(col_k)]. *)
Definition scatter_add (m : InterpolationMatrix) (active : Z -> result bool) (src_at : Z -> result double)
    (dst : list double) : result (list double) :=
  for_each (range_order (nnz m)) (fun k dst =>
    let! r := read (factor_row m) (Z.of_nat k) in
    let! b := active r in
    if b then
      let! c := read (factor_col m) (Z.of_nat k) in
      let! s := read (factor_list m) (Z.of_nat k) in
      let! x := src_at c in
      atomic_add dst r (dmul s x)
    else Ok dst) dst.

Definition zero_dst (n : nat) (active : Z -> result bool) (dst : list double) : result (list double) :=
  for_each (range_order n) (fun j dst =>
    let! b := active (Z.of_nat j) in
    if b then write dst (Z.of_nat j) dzero else Ok dst) dst.

Definition all_active (_ : Z) : result bool := Ok true.

(** 1. Local. *)
Definition apply (m : InterpolationMatrix) (src dst : list double) : result (list double * InterpolationMatrix) :=
  do! throw_if (negb (length src =? n_src m)%nat) invalid_argument then
  do! throw_if (negb (length dst =? n_dst m)%nat) invalid_argument then
  if is_csr m then
    let '(a, m') := kk_crs_matrix m in
    Ok (spmv a src dst, m')
  else
    let! dst := zero_dst (n_dst m) all_active dst in
    let! dst := scatter_add m all_active (read src) dst in
    Ok (dst, m).

(** 2. Distributed. *)
Definition apply_distributed (m : InterpolationMatrix) (pattern : HaloPattern) (local_src gathered_halo_src dst : list double)
    : result (list double) :=
  do! throw_if (negb (length dst =? n_dst m)%nat) invalid_argument then
  do! throw_if (negb (length gathered_halo_src =? num_remote pattern)%nat) invalid_argument then
  do! throw_if (negb (length local_src + num_remote pattern =? n_src m)%nat) invalid_argument then
  let n_local := Z.of_nat (length local_src) in
  let! dst := zero_dst (n_dst m) all_active dst in
  scatter_add m all_active (fun c => if c <? n_local then read local_src c else read gathered_halo_src (c - n_local)) dst.

(** 3. With a callback that gathers. *)
Definition apply_callback (m : InterpolationMatrix) (pattern : HaloPattern) (local_src : list double)
    (gather : HaloPattern -> result (list double)) (dst : list double) : result (list double) :=
  let! halo_buffer := gather pattern in
  do! throw_if (negb (length halo_buffer =? num_remote pattern)%nat) invalid_argument then
  apply_distributed m pattern local_src halo_buffer dst.

(** 4. Several variables. *)
Definition batch_apply (m : InterpolationMatrix) (src dst : View2) : result (View2 * InterpolationMatrix) :=
  do! throw_if (negb (extent0 src =? n_src m)%nat) invalid_argument then
  do! throw_if (negb (extent0 dst =? n_dst m)%nat) invalid_argument then
  do! throw_if (negb (extent1 src =? extent1 dst)%nat) invalid_argument then
  let n_vars := extent1 src in
  if is_csr m then
    let '(a, m') := kk_crs_matrix m in
    Ok (spmv_mv a src dst, m')
  else
    let! l := for_each (range_order (n_dst m * n_vars)) (fun idx l =>
      let j := (idx mod n_dst m)%nat in
      let v := (idx / n_dst m)%nat in
      write l (address2 dst (Z.of_nat j) v) dzero) (cells dst) in
    let! l := for_each (range_order (nnz m * n_vars)) (fun idx l =>
      let k := (idx mod nnz m)%nat in
      let v := (idx / nnz m)%nat in
      let! r := read (factor_row m) (Z.of_nat k) in
      let! c := read (factor_col m) (Z.of_nat k) in
      let! s := read (factor_list m) (Z.of_nat k) in
      let! x := read (cells src) (address2 src c v) in
      atomic_add l (address2 dst r v) (dmul s x)) l in
    Ok (with_cells dst l, m).

(** 5. Missing values. *)
Definition tolerance : double := S754_finite false 4722366482869645 (-72).

(** The cell of one row and one variable, from the row's weights and source values. *)
Definition nan_cell (total_row_weight na_thres : double) (row : list (double * double)) : double :=
  let '(weighted_sum_val, sum_valid_weights) :=
    foldl (fun acc e => let '(s, val) := e in
      if isnan val then acc else (dadd (fst acc) (dmul s val), dadd (snd acc) s)) (dzero, dzero) row in
  if SFeqb sum_valid_weights dzero || SFeqb total_row_weight dzero then dnan
  else
    let fraction_valid := ddiv sum_valid_weights total_row_weight in
    if SFltb fraction_valid (dsub (dsub one na_thres) tolerance) then dnan
    else ddiv weighted_sum_val sum_valid_weights.

Definition nan_batch_apply (m : InterpolationMatrix) (src dst : View2) (na_thres : double) : result View2 :=
  do! throw_if (negb (extent0 src =? n_src m)%nat) invalid_argument then
  do! throw_if (negb (extent0 dst =? n_dst m)%nat) invalid_argument then
  do! throw_if (negb (extent1 src =? extent1 dst)%nat) invalid_argument then
  do! throw_if (negb (is_csr m)) runtime_error then
  let n_vars := extent1 src in
  let! l := parallel_teams (n_dst m) (fun j l =>
    let! start := read (row_ptr m) (Z.of_nat j) in
    let! end_ := read (row_ptr m) (Z.of_nat j + 1) in
    let! weights := read_range start end_ (read (csr_values m)) in
    let total_row_weight := foldl dadd dzero weights in
    vector_range n_vars (fun v l =>
      let! row := read_range start end_ (fun k =>
        let! c := read (col_idx m) k in
        let! val := read (cells src) (address2 src c v) in
        let! s := read (csr_values m) k in
        Ok (s, val)) in
      write l (address2 dst (Z.of_nat j) v) (nan_cell total_row_weight na_thres row)) l) (cells dst) in
  Ok (with_cells dst l).

(** 6. With a mask. *)
Definition apply_masked (m : InterpolationMatrix) (src dst : list double) (dst_mask : list Z) : result (list double) :=
  do! throw_if (negb (length src =? n_src m)%nat) invalid_argument then
  do! throw_if (negb (length dst =? n_dst m)%nat) invalid_argument then
  let has_mask := (length dst_mask =? n_dst m)%nat in
  let active j := if has_mask then (let! x := read dst_mask j in Ok (negb (x =? 0))) else Ok true in
  if is_csr m then
    parallel_teams (n_dst m) (fun j dst =>
      let! b := active (Z.of_nat j) in
      if b then
        let! start := read (row_ptr m) (Z.of_nat j) in
        let! end_ := read (row_ptr m) (Z.of_nat j + 1) in
        let! terms := read_range start end_ (fun k =>
          let! s := read (csr_values m) k in
          let! c := read (col_idx m) k in
          let! x := read src c in
          Ok (dmul s x)) in
        write dst (Z.of_nat j) (sum_reduce terms)
      else Ok dst) dst
  else
    let! dst := zero_dst (n_dst m) active dst in
    scatter_add m active (read src) dst.
End Apply.

(** ** Specification *)

(** [y] is the matrix applied to [x], up to the order of the additions in each cell. *)
Definition applied (m : InterpolationMatrix) (x y : list double) : Prop :=
  length y = n_dst m /\
  forall j, (j < n_dst m)%nat -> exists s, y !! j = Some s /\ summation (products x (row_entries j (coo m))) s.

(** ... in the live cells; the others keep what they held. *)
Definition applied_where (live : nat -> bool) (m : InterpolationMatrix) (x y0 y : list double) : Prop :=
  length y = n_dst m /\
  forall j, (j < n_dst m)%nat ->
    if live j then exists s, y !! j = Some s /\ summation (products x (row_entries j (coo m))) s else y !! j = y0 !! j.

(** ** Entries *)

Definition target (m : InterpolationMatrix) (k : nat) : nat := Z.to_nat (fst (entry m (Z.of_nat k))).
Definition term (m : InterpolationMatrix) (x : list double) (k : nat) : double :=
  dmul (snd (snd (entry m (Z.of_nat k)))) (value x (fst (snd (entry m (Z.of_nat k))))).

Lemma entry_range m k : well_formed m -> (k < nnz m)%nat ->
  0 <= fst (entry m (Z.of_nat k)) < Z.of_nat (n_dst m) /\ 0 <= fst (snd (entry m (Z.of_nat k))) < Z.of_nat (n_src m) /\
  read (factor_row m) (Z.of_nat k) = Ok (fst (entry m (Z.of_nat k))) /\
  read (factor_col m) (Z.of_nat k) = Ok (fst (snd (entry m (Z.of_nat k)))) /\
  read (factor_list m) (Z.of_nat k) = Ok (snd (snd (entry m (Z.of_nat k)))).
Proof.
  intros (Hr & Hc & Fr & Fc) Hk. rewrite Forall_lookup in Fr, Fc. unfold entry. cbn [fst snd]. rewrite Nat2Z.id.
  destruct (lookup_lt_is_Some_2 (factor_row m) k) as [r Er]; [lia|].
  destruct (lookup_lt_is_Some_2 (factor_col m) k) as [c Ec]; [lia|].
  destruct (lookup_lt_is_Some_2 (factor_list m) k Hk) as [v Ev].
  rewrite (read_nat _ _ _ Er), (read_nat _ _ _ Ec), (read_nat _ _ _ Ev), Er, Ec, Ev. cbn.
  split; [by apply (Fr k)|]. split; [by apply (Fc k)|]. done.
Qed.

Lemma coo_cols m : well_formed m -> Forall (fun e => 0 <= fst (snd e) < Z.of_nat (n_src m)) (coo m).
Proof.
  intros Hwf. rewrite <- entries_in_order by done. apply list.Forall_forall. intros e He.
  apply list_elem_of_fmap in He as (z & -> & Hz). apply list_elem_of_fmap in Hz as (k & -> & Hk%elem_of_seq).
  apply entry_range; [done|lia].
Qed.

(** The terms of a row are the terms of the loop that go to its cell. *)
Lemma row_terms m x j l : well_formed m -> Forall (fun k => k < nnz m)%nat l ->
  products x (row_entries j (entry m <$> (Z.of_nat <$> l))) = term m x <$> filter (fun k => target m k = j) l.
Proof.
  intros Hwf. induction 1 as [|k l Hk _ IH]; [done|]. cbn [fmap list_fmap]. unfold row_entries in *.
  rewrite !filter_cons. destruct (entry_range m k Hwf Hk) as (Hr & _).
  case_decide as E; case_decide as E'; unfold target in *; try lia; [|exact IH]. cbn. f_equal. exact IH.
Qed.

Lemma row_products m x j : well_formed m ->
  products x (row_entries j (coo m)) = term m x <$> filter (fun k => target m k = j) (seq 0 (nnz m)).
Proof.
  intros Hwf. rewrite <- entries_in_order by done. apply row_terms; [done|]. apply list.Forall_forall.
  intros k Hk%elem_of_seq. lia.
Qed.

Section Proofs.
Context `{PF : !ParallelFor, KR : !KokkosReduce, KS : !KokkosSparse}.

(** ** The loops *)

Lemma zero_dst_spec n active live dst : length dst = n -> (forall j, (j < n)%nat -> active (Z.of_nat j) = Ok (live j)) ->
  zero_dst n active dst = Ok (imap (fun j y => if live j : bool then dzero else y) dst).
Proof.
  intros HL Ha. apply (for_each_own (fun j y => if live j then dzero else y) n); [apply range_order_perm|done|].
  intros j d Hj Hd. rewrite Ha by done. cbn [bind]. destruct (live j) eqn:E.
  - rewrite write_in_bounds by lia. f_equal. rewrite Nat2Z.id. apply list_eq. intros i.
    rewrite list_lookup_alter. case_decide; [subst|by rewrite list_lookup_insert_ne].
    destruct (lookup_lt_is_Some_2 d i) as [y Hy]; [lia|]. by rewrite list_lookup_insert_eq, Hy by lia.
  - f_equal. symmetry. by apply alter_same.
Qed.

Lemma scatter_add_spec m active live src_at x dst : well_formed m -> length dst = n_dst m ->
  (forall j, (j < n_dst m)%nat -> active (Z.of_nat j) = Ok (live j)) ->
  (forall c, 0 <= c < Z.of_nat (n_src m) -> src_at c = Ok (value x c)) ->
  exists y, scatter_add m active src_at dst = Ok y /\ length y = n_dst m /\
    forall j, y !! j = (fun s => if live j : bool then foldl dadd s (term m x <$> filter (fun k => target m k = j) (range_order (nnz m))) else s) <$> dst !! j.
Proof.
  intros Hwf HL Ha Hs. unfold scatter_add.
  apply (for_each_scatter (target m) live (term m x) (n_dst m) _ (nnz m)); [apply range_order_perm|done|].
  intros k d Hk Hd. destruct (entry_range m k Hwf Hk) as (Hr & Hc & -> & -> & ->). cbn [bind].
  unfold target. set (r := fst (entry m (Z.of_nat k))) in *.
  replace r with (Z.of_nat (Z.to_nat r)) at 1 by lia. rewrite Ha by lia. cbn [bind].
  destruct (live (Z.to_nat r)).
  - rewrite Hs by done. cbn [bind]. unfold atomic_add. by rewrite update_in_bounds by lia.
  - f_equal. symmetry. by apply alter_same.
Qed.

Lemma zero_scatter_spec m active live src_at x dst : well_formed m -> length dst = n_dst m ->
  (forall j, (j < n_dst m)%nat -> active (Z.of_nat j) = Ok (live j)) ->
  (forall c, 0 <= c < Z.of_nat (n_src m) -> src_at c = Ok (value x c)) ->
  exists y, (let! d := zero_dst (n_dst m) active dst in scatter_add m active src_at d) = Ok y /\ applied_where live m x dst y.
Proof.
  intros Hwf HL Ha Hs. rewrite (zero_dst_spec _ _ _ _ HL Ha). cbn [bind].
  destruct (scatter_add_spec m active live src_at x (imap (fun j y => if live j : bool then dzero else y) dst))
    as (y & E & HLy & Hy); [done|by rewrite length_imap|done|done|]. exists y. split; [done|]. split; [done|].
  intros j Hj. rewrite Hy, list_lookup_imap. destruct (lookup_lt_is_Some_2 dst j) as [s Hs']; [lia|]. rewrite Hs'. cbn.
  destruct (live j); [|done]. eexists. split; [done|]. rewrite row_products by done.
  eapply sum_perm; [|apply summation_from_zero]. by rewrite (range_order_perm (nnz m)).
Qed.

Lemma read_value x c n : length x = n -> 0 <= c < Z.of_nat n -> read x c = Ok (value x c).
Proof. intros <- H. by apply read_default_double. Qed.

(** ** Rows in compressed form *)

Lemma read_range_spec {A B} (l : list A) (h : A -> B) a b f : length l = Z.to_nat (b - a) ->
  (forall i x, l !! i = Some x -> f (a + Z.of_nat i) = Ok (h x)) -> read_range a b f = Ok (h <$> l).
Proof.
  unfold read_range. intros <-.
  enough (forall s, (forall i x, l !! i = Some x -> f (a + Z.of_nat (s + i)) = Ok (h x)) ->
    foldr (fun i rest => let! x := f (a + Z.of_nat i) in let! xs := rest in Ok (x :: xs)) (Ok []) (seq s (length l)) = Ok (h <$> l)) as G
    by (intros H; by apply (G 0%nat)).
  induction l as [|y l IH]; intros s H; [done|]. cbn [length seq foldr]. rewrite (IH (S s)).
  - specialize (H 0%nat y eq_refl). rewrite Nat.add_0_r in H. by rewrite H.
  - intros i x Hi. replace (S s + i)%nat with (s + S i)%nat by lia. by apply H.
Qed.

Lemma slice_lookup {A} (l : list A) a b i x : slice l a b !! i = Some x -> l !! (Z.to_nat a + i)%nat = Some x.
Proof. unfold slice. intros H. apply lookup_take_Some in H as [H _]. by rewrite lookup_drop in H. Qed.

Lemma slice_length {A} (l : list A) a b : 0 <= a -> a <= b <= Z.of_nat (length l) -> length (slice l a b) = Z.to_nat (b - a).
Proof. intros Ha Hb. unfold slice. rewrite length_take, length_drop. lia. Qed.

(** What the kernels read of a row. *)
Lemma csr_row_reads n es rp ci vs j : csr_of n es rp ci vs -> (j < n)%nat -> exists a b,
  read rp (Z.of_nat j) = Ok a /\ read rp (Z.of_nat j + 1) = Ok b /\
  length (slice (zip ci vs) a b) = Z.to_nat (b - a) /\
  (forall i e, slice (zip ci vs) a b !! i = Some e -> read ci (a + Z.of_nat i) = Ok (fst e) /\ read vs (a + Z.of_nat i) = Ok (snd e)) /\
  slice (zip ci vs) a b ≡ₚ row_entries j es.
Proof.
  intros H Hj. destruct (csr_row _ _ _ _ _ H j Hj) as (a & b & Ea & Eb & H0 & Hab & Hp & _). exists a, b.
  split; [by apply read_nat|]. split; [replace (Z.of_nat j + 1) with (Z.of_nat (S j)) by lia; by apply read_nat|].
  pose proof (csr_cols _ _ _ _ _ H). pose proof (csr_vals _ _ _ _ _ H).
  split; [apply slice_length; [done|rewrite length_zip_with; lia]|]. split; [|done].
  intros i [c v] Hi%slice_lookup. apply lookup_zip_with_Some in Hi as (c' & v' & [= <- <-] & Hc & Hv). cbn [fst snd].
  replace (a + Z.of_nat i) with (Z.of_nat (Z.to_nat a + i)) by lia. split; by apply read_nat.
Qed.

Lemma row_entries_cols m j e : well_formed m -> e ∈ row_entries j (coo m) -> 0 <= fst e < Z.of_nat (n_src m).
Proof.
  intros Hwf He. apply list_elem_of_fmap in He as (x & -> & Hx). apply list_elem_of_filter in Hx as [_ Hx].
  pose proof (coo_cols m Hwf) as F. rewrite list.Forall_forall in F. by apply F.
Qed.

(** ** The cached operator *)

Lemma kk_crs_matrix_spec m : coherent m -> is_csr m = true -> exists m',
  kk_crs_matrix m = (mkCrsMatrix (Z.of_nat (n_src m)) (row_ptr m) (col_idx m) (csr_values m), m') /\ coherent m' /\
  coo m' = coo m /\ n_src m' = n_src m /\ n_dst m' = n_dst m.
Proof.
  intros (H1 & H2 & H3) Hc. unfold kk_crs_matrix. destruct (kk_cache m) as [a|] eqn:E.
  - exists m. rewrite (H2 a eq_refl). split; [done|]. split; [|done]. split; [done|]. split; [intros b; rewrite E; apply H2|by rewrite Hc].
  - eexists. split; [done|]. split; [|done]. split; [done|]. split; [by intros a [= <-]|]. cbn. by rewrite Hc.
Qed.

(** ** The forms of apply *)

Lemma apply_spec m src dst : well_formed m -> coherent m -> length src = n_src m -> length dst = n_dst m ->
  exists y m', apply m src dst = Ok (y, m') /\ applied m src y /\ coherent m' /\ coo m' = coo m.
Proof.
  intros Hwf Hco Hs Hd. unfold apply. rewrite Hs, Hd, !Nat.eqb_refl. cbn [negb throw_if bind]. destruct (is_csr m) eqn:Hc.
  - destruct (kk_crs_matrix_spec m Hco Hc) as (m' & E & Hm' & Hcoo & _). rewrite E. do 2 eexists. split; [done|]. split; [|done].
    destruct (spmv_spec (mkCrsMatrix (Z.of_nat (n_src m)) (row_ptr m) (col_idx m) (csr_values m)) (n_dst m) (coo m) src dst) as [HL H].
    + by apply Hco.
    + by rewrite Hs.
    + by apply coo_cols.
    + done.
    + by split.
  - destruct (zero_scatter_spec m all_active (fun _ => true) (read src) src dst) as (y & E & H); [exact Hwf|exact Hd|intros j Hj; reflexivity| |].
    { intros c Hr. by apply (read_value src c (n_src m)). }
    rewrite <- (bind_assoc (zero_dst (n_dst m) all_active dst) (fun d => scatter_add m all_active (read src) d)). rewrite E. cbn [bind].
    do 2 eexists. split; [done|]. split; [|done]. exact H.
Qed.

Lemma apply_distributed_spec m pattern local_src halo dst : well_formed m ->
  length dst = n_dst m -> length halo = num_remote pattern -> (length local_src + num_remote pattern = n_src m)%nat ->
  exists y, apply_distributed m pattern local_src halo dst = Ok y /\ applied m (local_src ++ halo) y.
Proof.
  intros Hwf Hd Hh Hl. unfold apply_distributed. rewrite Hd, Hh, Hl, !Nat.eqb_refl. cbn [negb throw_if bind].
  destruct (zero_scatter_spec m all_active (fun _ => true)
    (fun c => if c <? Z.of_nat (length local_src) then read local_src c else read halo (c - Z.of_nat (length local_src)))
    (local_src ++ halo) dst) as (y & E & H); [done..|intros j Hj; reflexivity| |].
  - intros c Hr. unfold value. destruct (Z.ltb_spec c (Z.of_nat (length local_src))).
    + rewrite lookup_app_l by lia. apply read_default_double. lia.
    + rewrite lookup_app_r by lia. rewrite (read_default_double _ _ dzero) by lia. do 3 f_equal. lia.
  - exists y. split; [exact E|]. exact H.
Qed.

Lemma apply_masked_spec m src dst mask : well_formed m -> coherent m -> length src = n_src m -> length dst = n_dst m ->
  (is_csr m = true -> Z.of_nat (n_dst m) < 2 ^ 31) ->
  exists y, apply_masked m src dst mask = Ok y /\
    applied_where (fun j => if (length mask =? n_dst m)%nat then negb (default 0 (mask !! j) =? 0) else true) m src dst y.
Proof.
  intros Hwf Hco Hs Hd Hn. unfold apply_masked. rewrite Hs, Hd, !Nat.eqb_refl. cbn [negb throw_if bind].
  set (live := fun j => if (length mask =? n_dst m)%nat then negb (default 0 (mask !! j) =? 0) else true).
  set (active := fun j => if (length mask =? n_dst m)%nat then (let! x := read mask j in Ok (negb (x =? 0))) else Ok true).
  cbv zeta. fold active.
  assert (Ha : forall j, (j < n_dst m)%nat -> active (Z.of_nat j) = Ok (live j)).
  { intros j Hj. unfold active, live. destruct (Nat.eqb_spec (length mask) (n_dst m)) as [E|]; [|done].
    destruct (lookup_lt_is_Some_2 mask j) as [x Hx]; [lia|]. by rewrite (read_nat _ _ _ Hx), Hx. }
  destruct (is_csr m) eqn:Hc.
  2:{ apply zero_scatter_spec; [done..|]. intros c Hr. by apply (read_value src c (n_src m)). }
  rewrite parallel_teams_order by auto. destruct Hco as (Hcsr & _). specialize (Hcsr Hc).
  pose (terms := fun j => match row_ptr m !! j, row_ptr m !! S j with
    | Some a, Some b => products src (slice (zip (col_idx m) (csr_values m)) a b) | _, _ => [] end).
  exists (imap (fun j y => if live j then sum_reduce (terms j) else y) dst). split.
  - apply (for_each_own (fun j y => if live j then sum_reduce (terms j) else y) (n_dst m)); [apply range_order_perm|done|].
    intros j d Hj Hdl. fold (active (Z.of_nat j)). rewrite (Ha j Hj). cbn [bind]. destruct (live j); [|f_equal; symmetry; by apply alter_same].
    destruct (csr_row_reads _ _ _ _ _ j Hcsr Hj) as (a & b & Ea & Eb & HL & HR & Hp). rewrite Ea. cbn [bind]. rewrite Eb. cbn [bind].
    rewrite (read_range_spec (slice (zip (col_idx m) (csr_values m)) a b) (fun e => dmul (snd e) (value src (fst e)))); [|done|].
    + cbn [bind]. rewrite write_in_bounds by lia. f_equal. rewrite Nat2Z.id.
      assert (terms j = products src (slice (zip (col_idx m) (csr_values m)) a b)) as Et.
      { unfold terms. apply read_lookup in Ea as [_ Ea]. apply read_lookup in Eb as [_ Eb]. rewrite Nat2Z.id in Ea.
        replace (Z.to_nat (Z.of_nat j + 1)) with (S j) in Eb by lia. by rewrite Ea, Eb. }
      apply list_eq. intros i. rewrite list_lookup_alter. case_decide; [subst|by rewrite list_lookup_insert_ne].
      destruct (lookup_lt_is_Some_2 d i) as [y Hy]; [lia|]. rewrite list_lookup_insert_eq, Hy by lia. cbn. by rewrite Et.
    + intros i e Hi. destruct (HR i e Hi) as [Rc Rv]. rewrite Rv. cbn [bind]. rewrite Rc. cbn [bind].
      rewrite (read_value src (fst e) (n_src m)); [done|done|]. apply (row_entries_cols m j); [done|]. rewrite <- Hp.
      by apply list_elem_of_lookup_2 in Hi.
  - split; [by rewrite length_imap|]. intros j Hj. rewrite list_lookup_imap.
    destruct (lookup_lt_is_Some_2 dst j) as [y Hy]; [lia|]. rewrite Hy. cbn. destruct (live j); [|done].
    eexists. split; [done|]. eapply sum_perm; [|apply sum_reduce_spec].
    destruct (csr_row_reads _ _ _ _ _ j Hcsr Hj) as (a & b & Ea & Eb & _ & _ & Hp).
    apply read_lookup in Ea as [_ Ea]. apply read_lookup in Eb as [_ Eb]. rewrite Nat2Z.id in Ea.
    replace (Z.to_nat (Z.of_nat j + 1)) with (S j) in Eb by lia. unfold terms. rewrite Ea, Eb. unfold products. by rewrite Hp.
Qed.

(** ** Several variables *)

Lemma value_column x v c : 0 <= c < Z.of_nat (extent0 x) -> (v < extent1 x)%nat -> length (cells x) = (extent0 x * extent1 x)%nat ->
  read (cells x) (address2 x c v) = Ok (value (drop (v * extent0 x) (cells x)) c).
Proof.
  intros Hc Hv HL. unfold value, address2. rewrite lookup_drop, (read_default_double _ _ dzero) by nia. do 3 f_equal. nia.
Qed.

(** The iterations of one variable and one cell among those of all. *)
Lemma batch_terms (g : nat -> nat) (n k nv v j : nat) : (forall i, (i < k)%nat -> (g i < n)%nat) -> (v < nv)%nat -> (j < n)%nat ->
  filter (fun idx => g (idx mod k) + idx / k * n = j + v * n)%nat (seq 0 (k * nv))
  = (fun i => v * k + i)%nat <$> filter (fun i => g i = j) (seq 0 k).
Proof.
  intros Hg Hv Hj. destruct (Nat.eq_0_gt_0_cases k) as [->|Hk]; [done|].
  assert (Hout : forall w i, (i < k)%nat -> (g ((w * k + i) mod k) + (w * k + i) / k * n = g i + w * n)%nat).
  { intros w i Hi. replace (w * k + i)%nat with (i + w * k)%nat by lia. rewrite Nat.Div0.mod_add, Nat.mod_small, Nat.div_add, Nat.div_small by lia. lia. }
  assert (Hne : forall idx, (idx / k <> v)%nat -> ~ (g (idx mod k) + idx / k * n = j + v * n)%nat).
  { intros idx Hne E. assert (g (idx mod k) < n)%nat by (apply Hg, Nat.mod_upper_bound; lia). apply Hne.
    assert ((g (idx mod k) + idx / k * n) / n = (j + v * n) / n)%nat as F by (by rewrite E).
    rewrite !Nat.div_add in F by lia. rewrite (Nat.div_small (g (idx mod k)%nat)), (Nat.div_small j) in F by lia. lia. }
  replace (k * nv)%nat with (v * k + (k + (nv - v - 1) * k))%nat by nia. rewrite !seq_app, !list.filter_app.
  rewrite (filter_empty _ (seq 0 (v * k))), (filter_empty _ (seq (0 + v * k + k) _)), app_nil_r.
  - cbn [app]. replace (seq (0 + v * k) k) with (Nat.add (v * k) <$> seq 0 k) by (rewrite fmap_add_seq; f_equal; lia).
    assert (Hall : Forall (fun i => i < k)%nat (seq 0 k)) by (apply list.Forall_forall; intros i Hi%elem_of_seq; lia).
    induction Hall as [|i l Hi _ IH]; [done|]. cbn [fmap list_fmap]. rewrite !filter_cons. rewrite (Hout v i Hi).
    case_decide; case_decide; try lia; cbn; by rewrite IH.
  - intros x Hx%elem_of_seq. apply Hne. assert ((v + 1) <= x / k)%nat by (apply Nat.div_le_lower_bound; nia). lia.
  - intros x Hx%elem_of_seq. apply Hne. assert (x / k < v)%nat by (apply Nat.Div0.div_lt_upper_bound; nia). lia.
Qed.

(** Column [v] of [l] is the matrix applied to column [v] of [x]. *)
Definition batch_applied (m : InterpolationMatrix) (x : View2) (l : list double) : Prop :=
  length l = (n_dst m * extent1 x)%nat /\
  forall j v, (j < n_dst m)%nat -> (v < extent1 x)%nat -> exists s, l !! (j + v * n_dst m)%nat = Some s /\
    summation (products (drop (v * extent0 x) (cells x)) (row_entries j (coo m))) s.

Lemma batch_zero (n nv : nat) dst l : extent0 dst = n -> length l = (n * nv)%nat ->
  for_each (range_order (n * nv)) (fun idx l =>
      let j := (idx mod n)%nat in
      let v := (idx / n)%nat in
      write l (address2 dst (Z.of_nat j) v) dzero) l = Ok (replicate (n * nv) dzero).
Proof.
  intros Hn HL. rewrite (for_each_own (fun _ _ => dzero) (n * nv)); [| |done|].
  - f_equal. apply list_eq. intros i. rewrite list_lookup_imap. destruct (decide (i < n * nv)%nat) as [Hi|Hi].
    + rewrite lookup_replicate_2 by done. destruct (lookup_lt_is_Some_2 l i) as [y ->]; [lia|done].
    + rewrite !lookup_ge_None_2; [done|rewrite length_replicate; lia|lia].
  - apply range_order_perm.
  - intros j d Hj Hd. cbv zeta. unfold address2. rewrite Hn.
    replace (Z.of_nat (j mod n) + Z.of_nat (j / n * n)) with (Z.of_nat j) by (pose proof (Nat.div_mod_eq j n); lia).
    rewrite write_in_bounds by lia. f_equal. rewrite Nat2Z.id. apply list_eq. intros i.
    rewrite list_lookup_alter. case_decide; [subst|by rewrite list_lookup_insert_ne].
    destruct (lookup_lt_is_Some_2 d i) as [y Hy]; [lia|]. by rewrite list_lookup_insert_eq, Hy by lia.
Qed.

Lemma batch_scatter m src dst (nv : nat) : well_formed m -> extent0 src = n_src m -> extent0 dst = n_dst m -> extent1 src = nv ->
  length (cells src) = (extent0 src * extent1 src)%nat -> exists l,
  for_each (range_order (nnz m * nv)) (fun idx l =>
      let k := (idx mod nnz m)%nat in
      let v := (idx / nnz m)%nat in
      let! r := read (factor_row m) (Z.of_nat k) in
      let! c := read (factor_col m) (Z.of_nat k) in
      let! s := read (factor_list m) (Z.of_nat k) in
      let! x := read (cells src) (address2 src c v) in
      atomic_add l (address2 dst r v) (dmul s x)) (replicate (n_dst m * nv) dzero) = Ok l /\ batch_applied m src l.
Proof.
  intros Hwf Hs Hd Hv HLs.
  destruct (for_each_scatter (fun idx => target m (idx mod nnz m) + idx / nnz m * n_dst m)%nat (fun _ => true)
    (fun idx => term m (drop (idx / nnz m * extent0 src) (cells src)) (idx mod nnz m)) (n_dst m * nv) (range_order (nnz m * nv)) (nnz m * nv)
    (fun idx l =>
      let k := (idx mod nnz m)%nat in
      let v := (idx / nnz m)%nat in
      let! r := read (factor_row m) (Z.of_nat k) in
      let! c := read (factor_col m) (Z.of_nat k) in
      let! s := read (factor_list m) (Z.of_nat k) in
      let! x := read (cells src) (address2 src c v) in
      atomic_add l (address2 dst r v) (dmul s x)) (replicate (n_dst m * nv) dzero)) as (l & E & HL & Hl).
  - apply range_order_perm.
  - apply length_replicate.
  - intros idx d Hidx Hdl. cbv zeta. set (k := (idx mod nnz m)%nat). set (v := (idx / nnz m)%nat).
    assert (Hk : (k < nnz m)%nat) by (apply Nat.mod_upper_bound; lia).
    assert (Hvv : (v < nv)%nat) by (apply Nat.Div0.div_lt_upper_bound; lia).
    destruct (entry_range m k Hwf Hk) as (Hr & Hc & -> & -> & ->). cbn [bind].
    rewrite value_column by (first [exact HLs | rewrite ?Hs, ?Hv; done]). cbn [bind]. unfold atomic_add, target, address2. rewrite Hd.
    rewrite update_in_bounds by nia. do 2 f_equal. lia.
  - exists l. split; [exact E|]. split; [by rewrite Hv|]. rewrite Hv. intros j v Hj Hvv. rewrite Hl, lookup_replicate_2 by nia. cbn.
    eexists. split; [done|]. rewrite row_products by done. eapply sum_perm; [|apply summation_from_zero].
    rewrite (range_order_perm (nnz m * nv)), (batch_terms (target m)); [|intros i Hi; destruct (entry_range m i Hwf Hi); unfold target; lia|done..].
    rewrite <- list_fmap_compose. apply Permutation_refl'. apply list_fmap_ext. intros _ i [_ Hi]%list_elem_of_lookup_2%list_elem_of_filter.
    apply elem_of_seq in Hi. cbn. replace (v * nnz m + i)%nat with (i + v * nnz m)%nat by lia. rewrite Nat.Div0.mod_add, Nat.mod_small, Nat.div_add, Nat.div_small by lia. done.
Qed.

Lemma batch_apply_spec m src dst : well_formed m -> coherent m -> extent0 src = n_src m -> extent0 dst = n_dst m -> extent1 src = extent1 dst ->
  length (cells src) = (extent0 src * extent1 src)%nat -> length (cells dst) = (extent0 dst * extent1 dst)%nat ->
  exists l m', batch_apply m src dst = Ok (with_cells dst l, m') /\ batch_applied m src l /\ coherent m'.
Proof.
  intros Hwf Hco Hs Hd Hv HLs HLd. unfold batch_apply. rewrite Hs, Hd, Hv, !Nat.eqb_refl. cbn [negb throw_if bind]. destruct (is_csr m) eqn:Hc.
  - destruct (kk_crs_matrix_spec m Hco Hc) as (m' & E & Hm' & _). rewrite E.
    destruct (spmv_mv_spec (mkCrsMatrix (Z.of_nat (n_src m)) (row_ptr m) (col_idx m) (csr_values m)) (n_dst m) (coo m) src dst)
      as (l & E' & HL & H); [by apply Hco|by rewrite Hs|by apply coo_cols|done..|].
    rewrite E'. do 2 eexists. split; [done|]. split; [|done]. split; [rewrite HL, HLd, Hd, Hv; done|]. by rewrite Hv.
  - rewrite batch_zero by (rewrite ?HLd, ?Hd; done). cbn [bind].
    destruct (batch_scatter m src dst (extent1 dst)) as (l & E & H); [done..|]. cbv zeta in E |- *. rewrite E. cbn [bind]. by do 2 eexists.
Qed.

(** ** Missing values *)

Lemma column_major_inj (n j v j' v' : nat) : (j < n)%nat -> (j' < n)%nat -> (j + v * n = j' + v' * n)%nat -> j = j' /\ v = v'.
Proof.
  intros H H' E. assert (v = v'); [|subst; lia]. destruct (Nat.lt_trichotomy v v') as [L|[->|L]]; [|done|]; exfalso.
  - assert ((v + 1) * n <= v' * n)%nat by (apply Nat.mul_le_mono_r; lia). lia.
  - assert ((v' + 1) * n <= v * n)%nat by (apply Nat.mul_le_mono_r; lia). lia.
Qed.

(** The row [j] of the compressed form. *)
Definition csr_row_of (m : InterpolationMatrix) (j : nat) : list (Z * double) :=
  match row_ptr m !! j, row_ptr m !! S j with
  | Some a, Some b => slice (zip (col_idx m) (csr_values m)) a b
  | _, _ => []
  end.

Definition nan_value (m : InterpolationMatrix) (na_thres : double) (src : View2) (j v : nat) : double :=
  nan_cell (foldl dadd dzero (snd <$> csr_row_of m j)) na_thres
    ((fun e => (snd e, value (drop (v * extent0 src) (cells src)) (fst e))) <$> csr_row_of m j).

Lemma csr_row_of_reads m j : well_formed m -> coherent m -> is_csr m = true -> (j < n_dst m)%nat -> exists a b,
  read (row_ptr m) (Z.of_nat j) = Ok a /\ read (row_ptr m) (Z.of_nat j + 1) = Ok b /\
  length (csr_row_of m j) = Z.to_nat (b - a) /\
  (forall i e, csr_row_of m j !! i = Some e -> read (col_idx m) (a + Z.of_nat i) = Ok (fst e) /\
    read (csr_values m) (a + Z.of_nat i) = Ok (snd e) /\ 0 <= fst e < Z.of_nat (n_src m)).
Proof.
  intros Hwf (Hcsr & _) Hc Hj. destruct (csr_row_reads _ _ _ _ _ j (Hcsr Hc) Hj) as (a & b & Ea & Eb & HL & HR & Hp).
  assert (csr_row_of m j = slice (zip (col_idx m) (csr_values m)) a b) as ->.
  { unfold csr_row_of. apply read_lookup in Ea as [_ Ea]. apply read_lookup in Eb as [_ Eb]. rewrite Nat2Z.id in Ea.
    replace (Z.to_nat (Z.of_nat j + 1)) with (S j) in Eb by lia. by rewrite Ea, Eb. }
  exists a, b. do 3 (split; [done|]). intros i e Hi. destruct (HR i e Hi) as [R1 R2]. split; [done|]. split; [done|].
  apply (row_entries_cols m j); [done|]. rewrite <- Hp. by apply list_elem_of_lookup_2 in Hi.
Qed.

Lemma csr_row_of_perm m j : coherent m -> is_csr m = true -> (j < n_dst m)%nat ->
  csr_row_of m j ≡ₚ row_entries j (coo m) /\ StronglySorted Z.le (fst <$> csr_row_of m j).
Proof.
  intros (Hcsr & _) Hc Hj. destruct (csr_row _ _ _ _ _ (Hcsr Hc) j Hj) as (a & b & Ea & Eb & _ & _ & Hp & Hs).
  unfold csr_row_of. by rewrite Ea, Eb.
Qed.

#[global] Instance missing_dec (x : double) : Decision (x <> dnan).
Proof. unfold dnan. destruct x; [left|left|right|left]; first [discriminate | intros H; by apply H]. Defined.

(** The accumulation skips the entries whose source is missing. *)
Lemma nan_cell_valid total na_thres x row :
  let valid := filter (fun e => value x (fst e) <> dnan) row in
  let valid_weights := foldl dadd dzero (snd <$> valid) in
  nan_cell total na_thres ((fun e => (snd e, value x (fst e))) <$> row) =
  if SFeqb valid_weights dzero || SFeqb total dzero || SFltb (ddiv valid_weights total) (dsub (dsub one na_thres) tolerance)
  then dnan else ddiv (foldl dadd dzero (products x valid)) valid_weights.
Proof.
  cbv zeta. unfold nan_cell.
  assert (G : forall a b, foldl (fun acc e => let '(s, val) := e in
      if isnan val then acc else (dadd (fst acc) (dmul s val), dadd (snd acc) s)) (a, b) ((fun e => (snd e, value x (fst e))) <$> row)
    = (foldl dadd a (products x (filter (fun e => value x (fst e) <> dnan) row)),
       foldl dadd b (snd <$> filter (fun e => value x (fst e) <> dnan) row))).
  { induction row as [|[c s] row IH]; intros a b; [done|]. cbn [fmap list_fmap foldl fst snd]. rewrite filter_cons.
    cbn [fst]. case_decide as Hd.
    - destruct (isnan (value x c)) eqn:En; [by destruct (value x c)|]. apply IH.
    - assert (value x c = dnan) as -> by (by destruct (value x c); try (exfalso; by apply Hd)). apply IH. }
  rewrite G. by repeat match goal with |- context [SFeqb ?a ?b] => destruct (SFeqb a b) end.
Qed.

Lemma nan_batch_apply_spec m src dst na_thres : well_formed m -> coherent m -> is_csr m = true ->
  extent0 src = n_src m -> extent0 dst = n_dst m -> extent1 src = extent1 dst ->
  length (cells src) = (extent0 src * extent1 src)%nat -> length (cells dst) = (extent0 dst * extent1 dst)%nat ->
  Z.of_nat (n_dst m) < 2 ^ 31 -> Z.of_nat (extent1 dst) < 2 ^ 31 ->
  exists l, nan_batch_apply m src dst na_thres = Ok (with_cells dst l) /\ length l = length (cells dst) /\
    forall j v, (j < n_dst m)%nat -> (v < extent1 dst)%nat -> l !! (j + v * n_dst m)%nat = Some (nan_value m na_thres src j v).
Proof.
  intros Hwf Hco Hc Hs Hd Hv HLs HLd Hn Hnv. unfold nan_batch_apply. rewrite Hs, Hd, Hv, Hc, !Nat.eqb_refl. cbn [negb throw_if bind].
  pose (Q := fun j v (l : list double) => l !! (j + v * n_dst m)%nat = Some (nan_value m na_thres src j v)).
  pose (Keep := fun l l' => forall j v, (j < n_dst m)%nat -> Q j v l -> Q j v l').
  rewrite parallel_teams_order by done.
  destruct (for_each_establish (fun l => length l = length (cells dst))
    (fun j l => (j < n_dst m)%nat -> forall v, (v < extent1 dst)%nat -> Q j v l)
    (range_order (n_dst m)) (fun j l =>
    let! start := read (row_ptr m) (Z.of_nat j) in
    let! end_ := read (row_ptr m) (Z.of_nat j + 1) in
    let! weights := read_range start end_ (read (csr_values m)) in
    let total_row_weight := foldl dadd dzero weights in
    vector_range (extent1 dst) (fun v l =>
      let! row := read_range start end_ (fun k =>
        let! c := read (col_idx m) k in
        let! val := read (cells src) (address2 src c v) in
        let! s := read (csr_values m) k in
        Ok (s, val)) in
      write l (address2 dst (Z.of_nat j) v) (nan_cell total_row_weight na_thres row)) l) (cells dst)) as (l & E & HL & HQ & _).
  - intros j l Hj Hl. rewrite (range_order_perm (n_dst m)) in Hj. apply elem_of_seq in Hj.
    destruct (csr_row_of_reads m j Hwf Hco Hc) as (a & b & Ea & Eb & HLr & HR); [lia|]. rewrite Ea. cbn [bind]. rewrite Eb. cbn [bind].
    rewrite (read_range_spec (csr_row_of m j) snd) by (first [done | intros i e Hi; by apply HR]). cbn [bind]. unfold vector_range.
    rewrite cast_int_id, Nat2Z.id by done.
    edestruct (for_each_establish (fun t => length t = length (cells dst) /\ Keep l t) (fun v t => (v < extent1 dst)%nat -> Q j v t)
      (range_order (extent1 dst))) as (t & E & [HLt HK] & HQ & _); cycle 2.
    + exists t. split; [exact E|]. split; [done|]. split.
      * intros _ v Hvv. apply HQ; [|done]. rewrite (range_order_perm (extent1 dst)). apply elem_of_seq. lia.
      * intros j' Hj' Hlt v Hvv. by apply HK, Hj'.
    + intros v t Hvv [HLt HK]. rewrite (range_order_perm (extent1 dst)) in Hvv. apply elem_of_seq in Hvv.
      rewrite (read_range_spec (csr_row_of m j) (fun e => (snd e, value (drop (v * extent0 src) (cells src)) (fst e)))); [|done|].
      * cbn [bind]. unfold address2. rewrite Hd. rewrite write_in_bounds by nia. eexists. split; [done|].
        replace (Z.to_nat (Z.of_nat j + Z.of_nat (v * n_dst m))) with (j + v * n_dst m)%nat by lia.
        fold (nan_value m na_thres src j v).
        assert (HQ : Keep t (<[(j + v * n_dst m)%nat:=nan_value m na_thres src j v]> t)).
        { intros j' v' Hj' HQ'. unfold Q. destruct (decide (j + v * n_dst m = j' + v' * n_dst m)%nat) as [Eq|Ne].
          - destruct (column_major_inj _ _ _ _ _ (proj2 Hj) Hj' Eq) as [<- <-]. apply list_lookup_insert_eq. nia.
          - by rewrite list_lookup_insert_ne. }
        split; [split; [by rewrite length_insert|intros j' v' Hj' H'; by apply HQ, HK]|].
        split; [intros _; apply list_lookup_insert_eq; nia|]. intros v' HQ' Hv'. apply HQ; [lia|by apply HQ'].
      * intros i e Hi. destruct (HR i e Hi) as (R1 & R2 & R3). rewrite R1. cbn [bind].
        rewrite value_column by (first [exact HLs | rewrite ?Hs, ?Hv; lia]). cbn [bind]. by rewrite R2.
    + split; [done|]. intros j' v' _ H'. exact H'.
  - done.
  - exists l. cbv zeta in E |- *. rewrite E. cbn [bind]. split; [done|]. split; [done|]. intros j v Hj Hvv. apply HQ; [|done..].
    rewrite (range_order_perm (n_dst m)). apply elem_of_seq. lia.
Qed.
End Proofs.

(** ** Instances *)

#[export] Instance sequential_reduce : KokkosReduce := {| sum_reduce := foldl dadd dzero; sum_reduce_spec := summation_from_zero |}.

Definition row_sum (a : CrsMatrix) (x : list double) (j : nat) : double :=
  match row_map a !! j, row_map a !! S j with
  | Some s, Some e => foldl dadd dzero (products x (slice (zip (entries a) (values a)) s e))
  | _, _ => dzero
  end.

Lemma row_sum_spec a n es x j : csr_of n es (row_map a) (entries a) (values a) -> (j < n)%nat ->
  summation (products x (row_entries j es)) (row_sum a x j).
Proof.
  intros H Hj. destruct (csr_row _ _ _ _ _ H j Hj) as (s & e & Es & Ee & _ & _ & Hp & _). unfold row_sum. rewrite Es, Ee.
  eapply sum_perm; [|apply summation_from_zero]. unfold products. by rewrite Hp.
Qed.

#[export, program] Instance row_by_row : KokkosSparse := {|
  spmv a x y := imap (fun j _ => row_sum a x j) y;
  spmv_mv a x y := with_cells y (imap (fun i _ =>
    row_sum a (drop (i / extent0 y * extent0 x) (cells x)) (i mod extent0 y)%nat) (cells y)) |}.
Next Obligation.
  intros a n es x y H _ _ HL. split; [by rewrite length_imap|]. intros j Hj. rewrite list_lookup_imap.
  destruct (lookup_lt_is_Some_2 y j) as [z ->]; [lia|]. eexists. split; [done|]. by apply (row_sum_spec a n).
Qed.
Next Obligation.
  intros a n es x y H _ _ Hn Hv _ HL. eexists. split; [done|]. split; [by rewrite length_imap|]. intros j v Hj Hvv.
  rewrite list_lookup_imap. destruct (lookup_lt_is_Some_2 (cells y) (j + v * n)) as [z ->]; [nia|]. eexists. split; [done|].
  cbn. rewrite Hn, Nat.Div0.mod_add, Nat.mod_small, Nat.div_add, Nat.div_small by lia. by apply (row_sum_spec a n).
Qed.

(** * Properties *)

Section Properties.
Context `{PF : !ParallelFor, KR : !KokkosReduce, KS : !KokkosSparse, SS : !StdSort}.

(** C24. Applying a well-formed matrix gives, in every destination cell, a sum of the
    products of the cell's entries with their source values, from the coordinate form and
    from the compressed one alike: only the order of the additions may differ.  A missing
    source value that a cell uses makes the cell missing.  Extents that do not match are
    refused. *)
Theorem apply_correct m src dst : well_formed m -> is_csr m = false -> kk_cache m = None ->
  (length src = n_src m -> length dst = n_dst m -> exists y m1 m2 y' m3,
    apply m src dst = Ok (y, m1) /\ to_csr m = Ok m2 /\ apply m2 src dst = Ok (y', m3) /\
    applied m src y /\ applied m src y' /\
    forall j c s, (j < n_dst m)%nat -> (Z.of_nat j, (c, s)) ∈ coo m -> value src c = dnan -> y !! j = Some dnan /\ y' !! j = Some dnan) /\
  (length src <> n_src m \/ length dst <> n_dst m -> apply m src dst = Throw invalid_argument).
Proof.
  intros Hwf Hc Hk. split.
  - intros Hs Hd. assert (Hco : coherent m) by (split; [by rewrite Hc|split; [by rewrite Hk|done]]).
    destruct (apply_spec m src dst Hwf Hco Hs Hd) as (y & m1 & E1 & [L1 H1] & _).
    destruct (to_csr_spec m Hwf Hc) as (rp & ci & vs & E2 & Hcsr).
    assert (Hco2 : coherent (with_csr m rp ci vs)) by (split; [done|split; [cbn; by rewrite Hk|done]]).
    destruct (apply_spec (with_csr m rp ci vs) src dst Hwf Hco2 Hs Hd) as (y' & m3 & E3 & [L3 H3] & _).
    exists y, m1, (with_csr m rp ci vs), y', m3. do 5 (split; [done|]). intros j c s Hj Hin Hx.
    assert (Hp : dnan ∈ products src (row_entries j (coo m))).
    { apply list_elem_of_fmap. exists (c, s). cbn. rewrite Hx, dmul_nan_r. split; [done|]. apply list_elem_of_fmap.
      exists (Z.of_nat j, (c, s)). split; [done|]. by apply list_elem_of_filter. }
    split; [destruct (H1 j Hj) as (z & -> & Hz)|destruct (H3 j Hj) as (z & -> & Hz)]; f_equal; by apply (summation_nan _ _ Hz).
  - intros H. unfold apply. destruct (Nat.eqb_spec (length src) (n_src m)); [|done].
    destruct (Nat.eqb_spec (length dst) (n_dst m)); [|done]. exfalso. tauto.
Qed.

(** The distributed apply is the apply to the local source values followed by the
    gathered ones, and the callback form is the same on what its callback returns: an
    exception of the callback passes through, and extents that do not match are refused
    after the callback ran. *)
Theorem apply_distributed_correct m pattern local_src dst halo : well_formed m ->
  (length dst = n_dst m -> length halo = num_remote pattern -> (length local_src + num_remote pattern = n_src m)%nat ->
    exists y, apply_distributed m pattern local_src halo dst = Ok y /\ applied m (local_src ++ halo) y /\
    forall gather, gather pattern = Ok halo -> apply_callback m pattern local_src gather dst = Ok y) /\
  (length dst <> n_dst m \/ length halo <> num_remote pattern \/ (length local_src + num_remote pattern <> n_src m)%nat ->
    apply_distributed m pattern local_src halo dst = Throw invalid_argument /\
    forall gather, gather pattern = Ok halo -> apply_callback m pattern local_src gather dst = Throw invalid_argument) /\
  (forall gather e, gather pattern = Throw e -> apply_callback m pattern local_src gather dst = Throw e).
Proof.
  intros Hwf. split; [|split].
  - intros Hd Hh Hl. destruct (apply_distributed_spec m pattern local_src halo dst Hwf Hd Hh Hl) as (y & E & H).
    exists y. do 2 (split; [done|]). intros gather Hg. unfold apply_callback. rewrite Hg. cbn [bind].
    by rewrite Hh, Nat.eqb_refl.
  - intros H. assert (E : apply_distributed m pattern local_src halo dst = Throw invalid_argument).
    { unfold apply_distributed. destruct (Nat.eqb_spec (length dst) (n_dst m)); [|done].
      destruct (Nat.eqb_spec (length halo) (num_remote pattern)); [|done].
      destruct (Nat.eqb_spec (length local_src + num_remote pattern) (n_src m)); [|done]. exfalso. lia. }
    split; [exact E|]. intros gather Hg. unfold apply_callback. rewrite Hg. cbn [bind].
    destruct (Nat.eqb_spec (length halo) (num_remote pattern)); [exact E|done].
  - intros gather e Hg. unfold apply_callback. by rewrite Hg.
Qed.

(** With a mask of one value per cell, a cell whose mask is 0 keeps what it held and
    every other cell is written as without a mask, in both forms; a mask of another length
    is ignored.  The compressed form needs fewer than 2^31 cells. *)
Theorem apply_masked_correct m src dst mask : well_formed m -> coherent m -> length src = n_src m -> length dst = n_dst m ->
  (is_csr m = true -> Z.of_nat (n_dst m) < 2 ^ 31) -> exists y,
  apply_masked m src dst mask = Ok y /\ length y = length dst /\
  forall j, (j < n_dst m)%nat ->
    (length mask = n_dst m -> mask !! j = Some 0 -> y !! j = dst !! j) /\
    (length mask <> n_dst m \/ mask !! j <> Some 0 -> exists s, y !! j = Some s /\ summation (products src (row_entries j (coo m))) s).
Proof.
  intros Hwf Hco Hs Hd Hn. destruct (apply_masked_spec m src dst mask Hwf Hco Hs Hd Hn) as (y & E & HL & H).
  exists y. split; [done|]. split; [congruence|]. intros j Hj. specialize (H j Hj). split.
  - intros Hm H0. by rewrite Hm, Nat.eqb_refl, H0 in H.
  - intros Hm. destruct (Nat.eqb_spec (length mask) (n_dst m)) as [E'|]; [|exact H].
    destruct Hm as [Hm|Hm]; [done|]. destruct (lookup_lt_is_Some_2 mask j) as [x Hx]; [lia|]. rewrite Hx in H, Hm. cbn in H.
    destruct (Z.eqb_spec x 0) as [Ex|Ex]; [by rewrite Ex in Hm|exact H].
Qed.

(** The form for several variables applies the matrix to each column. *)
Theorem batch_apply_correct m src dst : well_formed m -> coherent m -> extent0 src = n_src m -> extent0 dst = n_dst m ->
  extent1 src = extent1 dst -> length (cells src) = (extent0 src * extent1 src)%nat -> length (cells dst) = (extent0 dst * extent1 dst)%nat ->
  exists l m', batch_apply m src dst = Ok (with_cells dst l, m') /\ batch_applied m src l /\ coherent m'.
Proof. apply batch_apply_spec. Qed.

(** The missing-value form writes in every cell the weighted mean of the valid source
    values of the cell's row: the products and the weights of the entries whose source is
    not missing are added in the order of the columns, and the cell is missing when the
    valid weights or all weights add to zero, or when the valid share is below
    [1 - na_thres - 1e-6].  It asks for the compressed form. *)
Theorem nan_batch_apply_correct m src dst na_thres : well_formed m -> coherent m ->
  extent0 src = n_src m -> extent0 dst = n_dst m -> extent1 src = extent1 dst ->
  length (cells src) = (extent0 src * extent1 src)%nat -> length (cells dst) = (extent0 dst * extent1 dst)%nat ->
  Z.of_nat (n_dst m) < 2 ^ 31 -> Z.of_nat (extent1 dst) < 2 ^ 31 ->
  (is_csr m = false -> nan_batch_apply m src dst na_thres = Throw runtime_error) /\
  (is_csr m = true -> exists l, nan_batch_apply m src dst na_thres = Ok (with_cells dst l) /\ length l = length (cells dst) /\
    forall j v, (j < n_dst m)%nat -> (v < extent1 dst)%nat ->
      let row := csr_row_of m j in
      let x := drop (v * extent0 src) (cells src) in
      let valid := filter (fun e => value x (fst e) <> dnan) row in
      let all_weights := foldl dadd dzero (snd <$> row) in
      let valid_weights := foldl dadd dzero (snd <$> valid) in
      row ≡ₚ row_entries j (coo m) /\ StronglySorted Z.le (fst <$> row) /\
      l !! (j + v * n_dst m)%nat = Some
        (if SFeqb valid_weights dzero || SFeqb all_weights dzero || SFltb (ddiv valid_weights all_weights) (dsub (dsub one na_thres) tolerance)
         then dnan else ddiv (foldl dadd dzero (products x valid)) valid_weights)).
Proof.
  intros Hwf Hco Hs Hd Hv HLs HLd Hn Hnv. split.
  - intros Hc. unfold nan_batch_apply. by rewrite Hs, Hd, Hv, Hc, !Nat.eqb_refl.
  - intros Hc. destruct (nan_batch_apply_spec m src dst na_thres) as (l & E & HL & H); [done..|].
    exists l. do 2 (split; [done|]). intros j v Hj Hvv. cbv zeta. destruct (csr_row_of_perm m j Hco Hc Hj) as [Hp Hsorted].
    do 2 (split; [done|]). rewrite H by done. unfold nan_value. by rewrite nan_cell_valid.
Qed.
End Properties.

(** ** Concrete runs *)

#[local] Instance last_first : ParallelFor.
Proof. refine {| range_order n := reverse (seq 0 n) |}. intros n. by rewrite reverse_Permutation. Defined.

Definition demo_source : list double := [d 1; d 2; d 4].
Definition demo_gap : View2 := mkView2 3 1 [d 1; dnan; d 4].

Lemma demo_matrix_well_formed : well_formed demo_matrix.
Proof. split; [done|]. split; [done|]. split; repeat constructor; cbn; lia. Qed.

Definition demo_csr : InterpolationMatrix :=
  Eval vm_compute in (match to_csr demo_matrix with Ok m => m | _ => demo_matrix end).

Lemma demo_csr_coherent : well_formed demo_csr /\ coherent demo_csr.
Proof.
  destruct (to_csr_spec demo_matrix demo_matrix_well_formed eq_refl) as (rp & ci & vs & E & H).
  assert (demo_csr = with_csr demo_matrix rp ci vs) as -> by (vm_compute in E; injection E as <- <- <-; reflexivity).
  split; [exact demo_matrix_well_formed|]. split; [intros _; exact H|]. by split.
Qed.

Example demo_apply : (let! r := apply demo_matrix demo_source [dnan; dnan; dnan] in Ok (fst r)) = Ok [d 14; d 0; d 17].
Proof. vm_compute. reflexivity. Qed.

Lemma apply_correct_witness : (let! r := apply demo_matrix demo_source [dnan; dnan; dnan] in Ok (fst r)) = Ok [d 14; d 0; d 17] /\
  exists y m1 m2 y' m3, apply demo_matrix demo_source [dnan; dnan; dnan] = Ok (y, m1) /\ to_csr demo_matrix = Ok m2 /\
    apply m2 demo_source [dnan; dnan; dnan] = Ok (y', m3).
Proof.
  split; [vm_compute; reflexivity|].
  destruct (proj1 (apply_correct demo_matrix demo_source [dnan; dnan; dnan] demo_matrix_well_formed eq_refl eq_refl) eq_refl eq_refl)
    as (y & m1 & m2 & y' & m3 & E1 & E2 & E3 & _).
  exists y, m1, m2, y', m3. repeat split; assumption.
Defined.

Lemma apply_distributed_correct_witness :
  exists y, apply_distributed demo_matrix (mkHaloPattern [3] [0; 1] [17] [0]) [d 1; d 2] [d 4] [d 0; d 0; d 0] = Ok y /\
    applied demo_matrix demo_source y.
Proof.
  destruct (proj1 (apply_distributed_correct demo_matrix (mkHaloPattern [3] [0; 1] [17] [0]) [d 1; d 2] [d 0; d 0; d 0] [d 4]
    demo_matrix_well_formed) eq_refl eq_refl eq_refl) as (y & E & H & _). exists y. split; [exact E|exact H].
Defined.

Lemma apply_masked_correct_witness : exists y, apply_masked demo_csr demo_source [dnan; dnan; d 9] [1; 1; 0] = Ok y /\
  y !! 2%nat = Some (d 9).
Proof.
  destruct (apply_masked_correct demo_csr demo_source [dnan; dnan; d 9] [1; 1; 0] (proj1 demo_csr_coherent) (proj2 demo_csr_coherent)
    eq_refl eq_refl ltac:(intros _; reflexivity)) as (y & E & _ & H).
  exists y. split; [exact E|]. destruct (H 2%nat) as [H2 _]; [cbn; lia|]. rewrite H2; reflexivity.
Defined.

(** The missing value is left out: the first cell is the value of its other source, the
    second has no entry, the third is 7 * 1 / 7. *)
Example demo_nan_batch_apply : nan_batch_apply demo_csr demo_gap (mkView2 3 1 [d 0; d 0; d 0]) one =
  Ok (mkView2 3 1 [d 4; dnan; d 1]).
Proof. vm_compute. reflexivity. Qed.

Lemma nan_batch_apply_correct_witness : exists l,
  nan_batch_apply demo_csr demo_gap (mkView2 3 1 [d 0; d 0; d 0]) one = Ok (mkView2 3 1 l) /\ length l = 3%nat.
Proof.
  destruct (proj2 (nan_batch_apply_correct demo_csr demo_gap (mkView2 3 1 [d 0; d 0; d 0]) one (proj1 demo_csr_coherent)
    (proj2 demo_csr_coherent) eq_refl eq_refl eq_refl eq_refl eq_refl ltac:(reflexivity) ltac:(reflexivity)) eq_refl) as (l & E & HL & _).
  exists l. split; [exact E|exact HL].
Defined.
