(* ===== verification/AxisMesh.v ===== *)
(** * AXIS: the unstructured mesh
    (src/libs/axis/include/axis/topology/unstructured_mesh.hpp, src/topology/unstructured_mesh.cpp)

    Nodes with coordinates, cells as lists of nodes in compressed form, and the kernel that
    computes the areas of the cells.  [sin], [cos], [asin] and [atan2] are those of the C
    library, which are functions of their arguments and nothing else here ([Libm]); [sqrt]
    is the correctly rounded one.  The second half has what the generators of meshes share:
    quadrilateral cells and the loops that fill their connectivity. *)
From Stdlib Require Import ZArith Lia SpecFloat.
From stdpp Require Import base list numbers.
From S2P Require Import Prelude CInt Blend KokkosArrays.
(** ** Rings of cells

    The generators of Gaussian grids number the points ring by ring, and rings differ in
    length.  [ring_of] finds the ring and the place of a number; a loop over the rings and
    the points of each visits the numbers in order. *)

Fixpoint ring_of (sizes : list nat) (k : nat) : nat * nat :=
  match sizes with
  | [] => (0, k)
  | n :: rest => if k <? n then (0, k) else let '(j, i) := ring_of rest (k - n) in (S j, i)
  end.

(** The number of the first point of a ring. *)
Definition ring_start (sizes : list nat) (j : nat) : nat := sum_list (take j sizes).

Lemma ring_start_S sizes j n : sizes !! j = Some n -> ring_start sizes (S j) = ring_start sizes j + n.
Proof.
  intros Hj. unfold ring_start. rewrite (take_S_r _ _ _ Hj), sum_list_with_app. cbn. lia.
Qed.

Lemma ring_start_length sizes : ring_start sizes (length sizes) = sum_list sizes.
Proof. unfold ring_start. by rewrite firstn_all. Qed.

Lemma ring_start_cons m sizes j : ring_start (m :: sizes) (S j) = m + ring_start sizes j.
Proof. reflexivity. Qed.

Lemma ring_of_start sizes j i n : sizes !! j = Some n -> i < n -> ring_of sizes (ring_start sizes j + i) = (j, i).
Proof.
  revert j. induction sizes as [|m sizes IH]; intros j Hj Hi; [done|]. destruct j as [|j]; cbn [lookup list_lookup] in Hj.
  - injection Hj as ->. change (ring_start (n :: sizes) 0 + i) with i. cbn [ring_of]. by rewrite (proj2 (Nat.ltb_lt _ _)).
  - rewrite ring_start_cons. cbn [ring_of]. rewrite (proj2 (Nat.ltb_ge _ _)) by lia.
    replace (m + ring_start sizes j + i - m) with (ring_start sizes j + i) by lia. by rewrite IH.
Qed.

Lemma ring_of_inv sizes k : k < sum_list sizes -> exists j i n,
  ring_of sizes k = (j, i) /\ sizes !! j = Some n /\ i < n /\ k = ring_start sizes j + i.
Proof.
  revert k. induction sizes as [|m sizes IH]; intros k Hk; [cbn in Hk; lia|]. cbn [ring_of]. destruct (Nat.ltb_spec k m).
  - exists 0, k, m. by repeat split.
  - destruct (IH (k - m)) as (j & i & n & E & Hj & Hi & Ek); [cbn in Hk; lia|]. rewrite E.
    exists (S j), i, n. repeat split; try done. rewrite ring_start_cons. lia.
Qed.

Lemma ring_start_bound sizes j n i : sizes !! j = Some n -> i < n -> ring_start sizes j + i < sum_list sizes.
Proof.
  revert j. induction sizes as [|m sizes IH]; intros j Hj Hi; [done|]. destruct j as [|j]; cbn [lookup list_lookup] in Hj.
  - injection Hj as ->. cbn. lia.
  - rewrite ring_start_cons. specialize (IH j Hj Hi). cbn. unfold sum_list_with in *. lia.
Qed.

(** A ring of a whole grid of equal rings. *)
Lemma ring_of_equal a b k : 0 < b -> k < a * b -> ring_of (replicate a b) k = (k / b, k mod b).
Proof.
  revert k. induction a as [|a IH]; intros k Hb Hk; [lia|]. cbn [replicate ring_of]. destruct (Nat.ltb_spec k b).
  - by rewrite Nat.div_small, Nat.mod_small.
  - rewrite IH by lia. f_equal.
    + replace (k / b) with ((k - b + 1 * b) / b) by (f_equal; lia). rewrite Nat.div_add by lia. lia.
    + replace (k mod b) with ((k - b + 1 * b) mod b) by (f_equal; lia). by rewrite Nat.Div0.mod_add.
Qed.

(** The nested loops are one loop over the numbers. *)
Lemma for_each_rings {S} (sizes : list nat) (outer : nat -> S -> result S) (body : nat -> nat -> S -> result S) s :
  (forall j n t, sizes !! j = Some n -> outer j t = for_each (seq 0 n) (body j) t) ->
  for_each (seq 0 (length sizes)) outer s
  = for_each (seq 0 (sum_list sizes)) (fun k => let '(j, i) := ring_of sizes k in body j i) s.
Proof.
  induction sizes as [|m sizes IH] using rev_ind; intros Ho; [done|].
  rewrite length_app, Nat.add_1_r, seq_S, for_each_app, IH.
  2:{ intros j n t Hj. apply Ho. by apply lookup_app_l_Some. }
  rewrite sum_list_with_app. replace (sum_list [m]) with m by (cbn; lia). rewrite seq_app, for_each_app.
  assert (Hlast : forall j t, j < m -> (let '(j, i) := ring_of (sizes ++ [m]) (sum_list sizes + j) in body j i) t = body (length sizes) j t).
  { intros j t Hj. rewrite <- ring_start_length.
    assert (E : ring_start (sizes ++ [m]) (length sizes) = ring_start sizes (length sizes)) by (unfold ring_start; by rewrite take_app_le by lia).
    rewrite <- E, (ring_of_start _ _ _ m); [done|by apply list_lookup_middle|done]. }
  rewrite (for_each_ext (seq 0 (sum_list sizes)) _ (fun k => let '(j, i) := ring_of (sizes ++ [m]) k in body j i)).
  2:{ intros k t Hk%elem_of_seq. destruct (ring_of_inv sizes k) as (j & i & n & E & Hj & Hi & Ek); [lia|]. rewrite E.
      assert (Hj' : (sizes ++ [m]) !! j = Some n) by by apply lookup_app_l_Some.
      assert (E' : ring_start (sizes ++ [m]) j = ring_start sizes j).
      { unfold ring_start. rewrite take_app_le; [done|]. apply lookup_lt_Some in Hj. lia. }
      by rewrite Ek, <- E', (ring_of_start _ _ _ n). }
  apply bind_ext. intros t. cbn [for_each Nat.add].
  rewrite (Ho (length sizes) m) by by apply list_lookup_middle.
  transitivity (for_each (seq 0 m) (body (length sizes)) t); [apply bind_Ok_r|].
  symmetry. rewrite <- (Nat.add_0_r (sum_list sizes)) at 1. apply for_each_shift. intros i u Hi%elem_of_seq. apply Hlast. lia.
Qed.

Local Open Scope Z_scope.

(** ** Doubles *)

Class Libm := {
  m_cos : double -> double;
  m_sin : double -> double;
  m_asin : double -> double;
  m_atan2 : double -> double -> double
}.

(** [static_cast<double>] of an integer. *)
Definition of_int (z : Z) : double := binary_normalize 53 1024 z 0 false.

Definition PI : double := S754_finite false 7074237752028440 (-51).
Definition DEG_TO_RAD : double := ddiv PI (of_int 180).

(** ** Data *)

Inductive CoordinateSystem : Type := SphericalDeg | SphericalRad | Cartesian3D.

#[global] Instance CoordinateSystem_eq_dec : EqDecision CoordinateSystem.
Proof. solve_decision. Defined.

Record UnstructuredMesh : Type := mkMesh {
  node_coords : View2;
  conn_offsets : list Z;
  conn_indices : list Z;
  coord_sys : CoordinateSystem;
  cell_areas : list double;
  cell_mask : list Z
}.

(** The constructor without areas and mask. *)
Definition new_mesh (coords : View2) (offsets indices : list Z) (cs : CoordinateSystem) : UnstructuredMesh :=
  mkMesh coords offsets indices cs [] [].

Definition n_nodes (m : UnstructuredMesh) : nat := extent0 (node_coords m).
Definition n_cells (m : UnstructuredMesh) : nat :=
  if (0 <? length (conn_offsets m))%nat then (length (conn_offsets m) - 1)%nat else 0%nat.

(** [coords(i, k)] *)
Definition inside2 (v : View2) (i : Z) (k : nat) : bool := (0 <=? i) && (i <? Z.of_nat (extent0 v)) && (k <? extent1 v)%nat.
Definition read2 (v : View2) (i : Z) (k : nat) : result double :=
  if inside2 v i k then read (cells v) (address2 v i k) else Undef.
Definition write2 (v : View2) (i : Z) (k : nat) (x : double) : result View2 :=
  if inside2 v i k then let! l := write (cells v) (address2 v i k) x in Ok (with_cells v l) else Undef.

(** [static_cast<index_t>] of a size. *)
Definition to_index (z : Z) : Z := (z + 2 ^ 63) mod 2 ^ 64 - 2 ^ 63.

(** ** Areas *)

Abbreviation point := (double * double * double)%type.

Section Areas.
Context `{!ParallelFor, !Libm}.

Definition lonlat_to_xyz (lon lat : double) : point :=
  let cos_lat := m_cos lat in
  (dmul cos_lat (m_cos lon), dmul cos_lat (m_sin lon), m_sin lat).

Definition cross3 (a b : point) : point :=
  let '(ax, ay, az) := a in
  let '(bx, by_, bz) := b in
  (dsub (dmul ay bz) (dmul az by_), dsub (dmul az bx) (dmul ax bz), dsub (dmul ax by_) (dmul ay bx)).

Definition dot3 (a b : point) : double :=
  let '(ax, ay, az) := a in
  let '(bx, by_, bz) := b in
  dadd (dadd (dmul ax bx) (dmul ay by_)) (dmul az bz).

Definition mag3 (a : point) : double :=
  let '(x, y, z) := a in SFsqrt 53 1024 (dadd (dadd (dmul x x) (dmul y y)) (dmul z z)).

Definition spherical_excess_triangle (a b c : point) : double :=
  let num := SFabs (dot3 a (cross3 b c)) in
  let ab := dot3 a b in
  let ac := dot3 a c in
  let bc := dot3 b c in
  let den := dadd (dadd (dadd one ab) ac) bc in
  if SFleb den dzero then PI else dmul (of_int 2) (m_atan2 num den).

Definition add3 (a b : point) : point :=
  let '(ax, ay, az) := a in
  let '(bx, by_, bz) := b in
  (dadd ax bx, dadd ay by_, dadd az bz).

Definition node_xyz (coords : View2) (v : Z) : result point :=
  let! x := read2 coords v 0 in
  let! y := read2 coords v 1 in
  let! z := read2 coords v 2 in
  Ok (x, y, z).

Definition node_on_sphere (coords : View2) (scale : double) (v : Z) : result point :=
  let! lon := read2 coords v 0 in
  let! lat := read2 coords v 1 in
  Ok (lonlat_to_xyz (dmul lon scale) (dmul lat scale)).

(** [(nx, ny, nz)] after the loop over the edges. *)
Definition cartesian_area (coords : View2) (indices : list Z) (start nv : Z) : result double :=
  let! n := for_each (seq 0 (Z.to_nat nv)) (fun i acc =>
    let i := Z.of_nat i in
    let j := Z.rem (i + 1) nv in
    let! vi := read indices (start + i) in
    let! vj := read indices (start + j) in
    let! a := node_xyz coords vi in
    let! b := node_xyz coords vj in
    Ok (add3 acc (cross3 a b))) (dzero, dzero, dzero) in
  Ok (dmul half (mag3 n)).

Definition spherical_area (coords : View2) (indices : list Z) (scale : double) (start nv : Z) : result double :=
  let! idx0 := read indices start in
  let! v0 := node_on_sphere coords scale idx0 in
  for_each (seq 1 (Z.to_nat (nv - 2))) (fun i total_excess =>
    let i := Z.of_nat i in
    let! idx1 := read indices (start + i) in
    let! idx2 := read indices (start + i + 1) in
    let! v1 := node_on_sphere coords scale idx1 in
    let! v2 := node_on_sphere coords scale idx2 in
    Ok (dadd total_excess (spherical_excess_triangle v0 v1 v2))) dzero.

Definition sphere_scale (csys : CoordinateSystem) : double := if decide (csys = SphericalDeg) then DEG_TO_RAD else one.

Definition cell_area (m : UnstructuredMesh) (cell : Z) : result double :=
  let! start := read (conn_offsets m) cell in
  let! end_ := read (conn_offsets m) (cell + 1) in
  let! width := arith I64 (end_ - start) in
  let nv := cast_int width in
  if nv <? 3 then Ok dzero
  else if decide (coord_sys m = Cartesian3D) then cartesian_area (node_coords m) (conn_indices m) start nv
  else spherical_area (node_coords m) (conn_indices m) (sphere_scale (coord_sys m)) start nv.

Definition compute_areas (m : UnstructuredMesh) : result UnstructuredMesh :=
  let nc := n_cells m in
  if (nc =? 0)%nat then Ok m
  else
    let! areas := for_each (range_order (Z.to_nat (cast_int (Z.of_nat nc)))) (fun cell areas =>
      let! a := cell_area m (Z.of_nat cell) in
      write areas (Z.of_nat cell) a) (replicate nc dzero) in
    Ok (mkMesh (node_coords m) (conn_offsets m) (conn_indices m) (coord_sys m) areas (cell_mask m)).
End Areas.

(** ** Quadrilateral cells *)

(** The four stores of a cell, [indices(base + 0) = n0] and so on. *)
Definition put_quad (indices : list Z) (base n0 n1 n2 n3 : Z) : result (list Z) :=
  let! a := write indices (base + 0) n0 in
  let! b := write a (base + 1) n1 in
  let! c := write b (base + 2) n2 in
  write c (base + 3) n3.

(** Views as they are allocated. *)
Definition zeros (n : Z) : list double := replicate (Z.to_nat n) dzero.

Definition zero_indices (n : Z) : list Z := replicate (Z.to_nat n) 0.

(** * Specification *)

(** The nodes of a cell. *)
Definition offset (m : UnstructuredMesh) (c : nat) : Z := default 0 (conn_offsets m !! c).
Definition cell_nodes (m : UnstructuredMesh) (c : nat) : list Z :=
  take (Z.to_nat (offset m (c + 1) - offset m c)) (drop (Z.to_nat (offset m c)) (conn_indices m)).

Definition view_ok (v : View2) : Prop := length (cells v) = (extent0 v * extent1 v)%nat.

(** What the consumers of a mesh rely on. *)
Record mesh_ok (m : UnstructuredMesh) : Prop := {
  mesh_coords : view_ok (node_coords m) /\ (2 <= extent1 (node_coords m))%nat;
  mesh_first : conn_offsets m !! 0%nat = Some 0;
  mesh_ascending c : (c < n_cells m)%nat -> offset m c <= offset m (c + 1) < offset m c + 2 ^ 31;
  mesh_last : offset m (n_cells m) = Z.of_nat (length (conn_indices m));
  mesh_indices : Forall (fun v => 0 <= v < Z.of_nat (n_nodes m)) (conn_indices m)
}.

(** A coordinate of a node. *)
Definition coord (v : View2) (i : Z) (k : nat) : double := default dzero (cells v !! Z.to_nat (address2 v i k)).

Section Reference.
Context `{!Libm}.

(** Areas of a polygon given by its corners: a fan of spherical triangles, and half the
    length of the sum of the cross products of its edges. *)
Definition fan_area (vs : list point) : double :=
  match vs with
  | [] => dzero
  | v0 :: rest => foldl (fun a '(v, w) => dadd a (spherical_excess_triangle v0 v w)) dzero (zip rest (tail rest))
  end.

Definition planar_area (vs : list point) : double :=
  dmul half (mag3 (foldl (fun a '(v, w) => add3 a (cross3 v w)) (dzero, dzero, dzero) (zip vs (tail vs ++ take 1 vs)))).

Definition polygon_area (csys : CoordinateSystem) (coords : View2) (nodes : list Z) : double :=
  if (length nodes <? 3)%nat then dzero
  else if decide (csys = Cartesian3D) then planar_area ((fun v => (coord coords v 0, coord coords v 1, coord coords v 2)) <$> nodes)
  else fan_area ((fun v => lonlat_to_xyz (dmul (coord coords v 0) (sphere_scale csys)) (dmul (coord coords v 1) (sphere_scale csys))) <$> nodes).
End Reference.

(** The connectivity of [n] quadrilaterals. *)
Definition quad_offsets (n : nat) : list Z := (fun c => 4 * Z.of_nat c) <$> seq 0 (S n).
Definition quad_indices (f : nat -> list Z) (n : nat) : list Z := concat (f <$> seq 0 n).

(** The corners of cell [c] of a logical grid of [ni] columns, whose nodes are numbered
    row by row. *)
Definition grid_quad (ni c : nat) : list Z :=
  let i := Z.of_nat (c mod ni) in
  let j := Z.of_nat (c / ni) in
  let stride := Z.of_nat ni + 1 in
  [j * stride + i; j * stride + (i + 1); (j + 1) * stride + (i + 1); (j + 1) * stride + i].

(** * Lemmas *)

(** ** Rank-2 views *)

Lemma to_index_id z : 0 <= z < 2 ^ 63 -> to_index z = z.
Proof. intros H. unfold to_index. rewrite Z.mod_small; lia. Qed.

Lemma inside2_true v i k : 0 <= i < Z.of_nat (extent0 v) -> (k < extent1 v)%nat -> inside2 v i k = true.
Proof. intros Hi Hk. unfold inside2. bsimpl. rewrite Nat.ltb_lt. lia. Qed.

Lemma address2_bounds v i k : view_ok v -> 0 <= i < Z.of_nat (extent0 v) -> (k < extent1 v)%nat ->
  0 <= address2 v i k < Z.of_nat (length (cells v)).
Proof. intros Hv Hi Hk. rewrite Hv. unfold address2. nia. Qed.

Lemma address2_inj v i k i' k' : 0 <= i < Z.of_nat (extent0 v) -> 0 <= i' < Z.of_nat (extent0 v) ->
  address2 v i k = address2 v i' k' -> i = i' /\ k = k'.
Proof.
  unfold address2. intros Hi Hi' He. assert (k = k') as -> by nia. split; [nia|done].
Qed.

Lemma read2_ok v i k : view_ok v -> 0 <= i < Z.of_nat (extent0 v) -> (k < extent1 v)%nat -> read2 v i k = Ok (coord v i k).
Proof.
  intros Hv Hi Hk. unfold read2. rewrite inside2_true by done. destruct (read_in_bounds (cells v) (address2 v i k)) as (x & E & Hx).
  { by apply address2_bounds. }
  rewrite E. unfold coord. by rewrite Hx.
Qed.

Lemma write2_ok v i k x : view_ok v -> 0 <= i < Z.of_nat (extent0 v) -> (k < extent1 v)%nat -> exists v',
  write2 v i k x = Ok v' /\ view_ok v' /\ extent0 v' = extent0 v /\ extent1 v' = extent1 v /\ coord v' i k = x /\
  forall i' k', 0 <= i' < Z.of_nat (extent0 v) -> (i', k') <> (i, k) -> coord v' i' k' = coord v i' k'.
Proof.
  intros Hv Hi Hk. pose proof (address2_bounds v i k Hv Hi Hk) as Hb. unfold write2. rewrite inside2_true by done.
  rewrite write_in_bounds by done. cbn [bind]. eexists. split; [done|]. unfold view_ok, coord, address2. cbn [with_cells cells extent0 extent1].
  unfold address2 in Hb. split; [by rewrite length_insert|]. do 2 (split; [done|]). split.
  - rewrite list_lookup_insert_eq by lia. done.
  - intros i' k' Hi' Hne. rewrite list_lookup_insert_ne; [done|]. intros E. apply Hne.
    destruct (address2_inj v i k i' k') as [-> ->]; [done|done|unfold address2; lia|done].
Qed.

(** ** Loops over a list *)

#[global] Instance double_inhabited : Inhabited double := populate dzero.

Lemma foldl_ext_in {A B} (f g : A -> B -> A) (l : list B) a :
  (forall b x, x ∈ l -> f b x = g b x) -> foldl f a l = foldl g a l.
Proof.
  revert a. induction l as [|x l IH]; intros a H; [done|]. cbn [foldl]. rewrite H by left. apply IH.
  intros b y Hy. apply H. by right.
Qed.

Lemma foldl_indices {A B} `{!Inhabited B} (g : A -> B -> A) (l : list B) s a :
  foldl (fun a i => g a (l !!! (i - s)%nat)) a (seq s (length l)) = foldl g a l.
Proof.
  revert a s. induction l as [|x l IH]; intros a s; [done|]. cbn [foldl length seq]. rewrite Nat.sub_diag. cbn.
  rewrite <- (IH (g a x) (S s)). apply foldl_ext_in. intros b i Hi. f_equal. apply elem_of_seq in Hi.
  replace (i - s)%nat with (S (i - S s)) by lia. done.
Qed.

(** A loop with a value as its state that visits the elements of a list. *)
Lemma for_each_list {S B} `{!Inhabited B} (g : S -> B -> S) (l : list B) k n body (a : S) :
  n = length l -> (forall i t, (i < length l)%nat -> body (k + i)%nat t = Ok (g t (l !!! i))) ->
  for_each (seq k n) body a = Ok (foldl g a l).
Proof.
  intros -> Hb. destruct (for_each_ok (fun _ => True) (fun t i => g t (l !!! (i - k)%nat)) (seq k (length l)) body a) as [E _].
  - intros i t Hi _. apply elem_of_seq in Hi. split; [|done]. rewrite <- Hb by lia. f_equal. lia.
  - done.
  - by rewrite E, foldl_indices.
Qed.

Section Area_lemmas.
Context `{!ParallelFor, !Libm}.

(** The indices of a cell, read from [start] on. *)
Definition reads_nodes (indices : list Z) (start : Z) (ns : list Z) : Prop :=
  forall i v, ns !! i = Some v -> read indices (start + Z.of_nat i) = Ok v.

Lemma node_xyz_ok coords v : view_ok coords -> (3 <= extent1 coords)%nat -> 0 <= v < Z.of_nat (extent0 coords) ->
  node_xyz coords v = Ok (coord coords v 0, coord coords v 1, coord coords v 2).
Proof. intros Hv H3 Hr. unfold node_xyz. rewrite !read2_ok by (done || lia). done. Qed.

Lemma node_on_sphere_ok coords scale v : view_ok coords -> (2 <= extent1 coords)%nat -> 0 <= v < Z.of_nat (extent0 coords) ->
  node_on_sphere coords scale v = Ok (lonlat_to_xyz (dmul (coord coords v 0) scale) (dmul (coord coords v 1) scale)).
Proof. intros Hv H3 Hr. unfold node_on_sphere. rewrite !read2_ok by (done || lia). done. Qed.

Lemma lookup_total_Some {A} `{!Inhabited A} (l : list A) i x : l !! i = Some x -> l !!! i = x.
Proof. intros Hl. by rewrite list_lookup_total_alt, Hl. Qed.

Lemma rotated_lookup {A} (l : list A) i x y : l !! i = Some x -> l !! ((i + 1) mod length l)%nat = Some y ->
  zip l (tail l ++ take 1 l) !! i = Some (x, y).
Proof.
  intros Hx Hy. apply lookup_zip_Some. split; [done|]. pose proof (lookup_lt_Some _ _ _ Hx) as Hi.
  destruct l as [|z l]; [done|]. cbn [tail take]. cbn [length] in *. destruct (decide (i = length l)) as [->|Hne].
  - rewrite Nat.add_1_r, Nat.Div0.mod_same in Hy. rewrite lookup_app_r, Nat.sub_diag by lia. exact Hy.
  - rewrite Nat.mod_small in Hy by lia. rewrite lookup_app_l by lia. by rewrite Nat.add_1_r in Hy.
Qed.

Lemma cartesian_area_spec coords indices start ns : view_ok coords -> (3 <= extent1 coords)%nat -> ns <> [] ->
  Forall (fun v => 0 <= v < Z.of_nat (extent0 coords)) ns -> reads_nodes indices start ns ->
  cartesian_area coords indices start (Z.of_nat (length ns))
  = Ok (planar_area ((fun v => (coord coords v 0, coord coords v 1, coord coords v 2)) <$> ns)).
Proof.
  intros Hv H3 Hne Hr Hread. unfold cartesian_area, planar_area. set (pt := fun v => (coord coords v 0, coord coords v 1, coord coords v 2)).
  assert (Hn : (0 < length ns)%nat) by (destruct ns; [done|cbn; lia]).
  set (l := zip (pt <$> ns) (tail (pt <$> ns) ++ take 1 (pt <$> ns))).
  assert (Hl : length l = length ns).
  { unfold l. rewrite length_zip_with, length_app, length_tl, length_take, !length_fmap. lia. }
  rewrite (for_each_list (fun a '(v, w) => add3 a (cross3 v w)) l 0); [done|by rewrite Hl, Nat2Z.id|].
  intros i t Hi. rewrite Hl in Hi. destruct (lookup_lt_is_Some_2 ns i Hi) as [v Ev].
  destruct (lookup_lt_is_Some_2 ns ((i + 1) mod length ns)) as [w Ew]; [apply Nat.mod_upper_bound; lia|].
  rewrite (lookup_total_Some l i (pt v, pt w)).
  2:{ apply rotated_lookup; rewrite ?length_fmap, list_lookup_fmap, ?Ev, ?Ew; done. }
  assert (Z.rem (Z.of_nat (0 + i) + 1) (Z.of_nat (length ns)) = Z.of_nat ((i + 1) mod length ns)) as ->.
  { rewrite Z.rem_mod_nonneg by lia. rewrite Nat2Z.inj_mod. f_equal. lia. }
  cbn [Nat.add]. rewrite (Hread _ _ Ev), (Hread _ _ Ew). cbn [bind]. rewrite list.Forall_forall in Hr.
  rewrite !node_xyz_ok by (done || (apply Hr; by eapply list_elem_of_lookup_2)). done.
Qed.

Lemma spherical_area_spec coords indices scale start ns : view_ok coords -> (2 <= extent1 coords)%nat -> (3 <= length ns)%nat ->
  Forall (fun v => 0 <= v < Z.of_nat (extent0 coords)) ns -> reads_nodes indices start ns ->
  spherical_area coords indices scale start (Z.of_nat (length ns))
  = Ok (fan_area ((fun v => lonlat_to_xyz (dmul (coord coords v 0) scale) (dmul (coord coords v 1) scale)) <$> ns)).
Proof.
  intros Hv H2 H3 Hr Hread. unfold spherical_area. set (pt := fun v => lonlat_to_xyz _ _). destruct ns as [|n0 ns]; [cbn in H3; lia|].
  rewrite list.Forall_forall in Hr. pose proof (Hread 0%nat n0 eq_refl) as R0. rewrite Z.add_0_r in R0. rewrite R0. cbn [bind].
  rewrite node_on_sphere_ok by (done || apply Hr; by left). cbn [bind]. fold (pt n0).
  set (l := zip (pt <$> ns) (tail (pt <$> ns))). cbn [length] in *.
  assert (Hl : length l = (length ns - 1)%nat) by (unfold l; rewrite length_zip_with, length_tl, !length_fmap; lia).
  rewrite (for_each_list (fun a '(v, w) => dadd a (spherical_excess_triangle (pt n0) v w)) l 1).
  - destruct ns as [|n1 ns]; [cbn in H3; lia|]. done.
  - rewrite Hl. lia.
  - intros i t Hi. rewrite Hl in Hi. destruct (lookup_lt_is_Some_2 ns i) as [v Ev]; [lia|].
    destruct (lookup_lt_is_Some_2 ns (i + 1)) as [w Ew]; [lia|].
    rewrite (lookup_total_Some l i (pt v, pt w)).
    2:{ apply lookup_zip_Some. split; [by rewrite list_lookup_fmap, Ev|]. rewrite lookup_tail, list_lookup_fmap, <- Nat.add_1_r, Ew. done. }
    pose proof (Hread (S i) v Ev) as R1. pose proof (Hread (S (i + 1)) w Ew) as R2.
    replace (start + Z.of_nat (1 + i)) with (start + Z.of_nat (S i)) by lia. rewrite R1.
    replace (start + Z.of_nat (S i) + 1) with (start + Z.of_nat (S (i + 1))) by lia. rewrite R2. cbn [bind].
    rewrite !node_on_sphere_ok; try done; apply Hr; right; by eapply list_elem_of_lookup_2.
Qed.

(** ** Offsets of a well-formed mesh *)

Lemma offsets_length m : mesh_ok m -> length (conn_offsets m) = S (n_cells m).
Proof.
  intros Hm. pose proof (lookup_lt_Some _ _ _ (mesh_first m Hm)) as Hp. unfold n_cells. case_match; [lia|].
  rewrite Nat.ltb_ge in *. lia.
Qed.

Lemma read_offset m c : mesh_ok m -> (c <= n_cells m)%nat -> read (conn_offsets m) (Z.of_nat c) = Ok (offset m c).
Proof.
  intros Hm Hc. pose proof (offsets_length m Hm) as Hl. destruct (lookup_lt_is_Some_2 (conn_offsets m) c) as [o Ho]; [lia|].
  rewrite (read_nat _ _ _ Ho). unfold offset. by rewrite Ho.
Qed.

Lemma offset_mono m c d : mesh_ok m -> (c <= d)%nat -> (d <= n_cells m)%nat -> offset m c <= offset m d.
Proof.
  intros Hm Hcd. induction Hcd as [|d Hcd IH]; intros Hd; [lia|]. etrans; [apply IH; lia|].
  rewrite <- Nat.add_1_r. apply (mesh_ascending m Hm). lia.
Qed.

Lemma offset_bounds m c : mesh_ok m -> (c <= n_cells m)%nat -> 0 <= offset m c <= Z.of_nat (length (conn_indices m)).
Proof.
  intros Hm Hc. rewrite <- (mesh_last m Hm). split; [|by apply offset_mono].
  pose proof (offset_mono m 0 c Hm ltac:(lia) Hc) as Hz. unfold offset in Hz at 1. by rewrite (mesh_first m Hm) in Hz.
Qed.

Lemma cell_nodes_length m c : mesh_ok m -> (c < n_cells m)%nat -> Z.of_nat (length (cell_nodes m c)) = offset m (c + 1) - offset m c.
Proof.
  intros Hm Hc. pose proof (offset_bounds m c Hm ltac:(lia)) as B0. pose proof (offset_bounds m (c + 1) Hm ltac:(lia)) as B1.
  pose proof (mesh_ascending m Hm c Hc) as Ha. unfold cell_nodes. rewrite length_take, length_drop. lia.
Qed.

Lemma cell_nodes_read m c : mesh_ok m -> (c < n_cells m)%nat -> reads_nodes (conn_indices m) (offset m c) (cell_nodes m c).
Proof.
  intros Hm Hc i v Hv. pose proof (offset_bounds m c Hm ltac:(lia)) as B0. unfold cell_nodes in Hv.
  apply lookup_take_Some in Hv as [Hv _]. rewrite lookup_drop in Hv. apply read_lookup. split; [lia|].
  rewrite <- Hv. f_equal. lia.
Qed.

Lemma cell_nodes_range m c : mesh_ok m -> Forall (fun v => 0 <= v < Z.of_nat (n_nodes m)) (cell_nodes m c).
Proof. intros Hm. unfold cell_nodes. apply list.Forall_take, list.Forall_drop, mesh_indices, Hm. Qed.

Lemma cell_area_spec m c : mesh_ok m -> (coord_sys m = Cartesian3D -> (3 <= extent1 (node_coords m))%nat) -> (c < n_cells m)%nat ->
  cell_area m (Z.of_nat c) = Ok (polygon_area (coord_sys m) (node_coords m) (cell_nodes m c)).
Proof.
  intros Hm H3 Hc. destruct (mesh_coords m Hm) as [Hv H2]. pose proof (mesh_ascending m Hm c Hc) as Hs.
  pose proof (cell_nodes_length m c Hm Hc) as Hl. pose proof (offset_bounds m c Hm ltac:(lia)) as B0.
  pose proof (offset_bounds m (c + 1) Hm ltac:(lia)) as B1. pose proof (cell_nodes_read m c Hm Hc) as Hr.
  pose proof (cell_nodes_range m c Hm) as Hi. unfold cell_area, polygon_area. rewrite read_offset by (done || lia). cbn [bind].
  replace (Z.of_nat c + 1) with (Z.of_nat (c + 1)) by lia. rewrite read_offset by (done || lia). cbn [bind].
  rewrite arith_ok, <- Hl by (cbn [imin imax]; lia). cbn [bind]. rewrite cast_int_id by lia.
  destruct (Z.ltb_spec (Z.of_nat (length (cell_nodes m c))) 3); destruct (Nat.ltb_spec (length (cell_nodes m c)) 3); try lia; [done|].
  case_decide as E.
  - apply cartesian_area_spec; auto. intros En. rewrite En in *. cbn in *. lia.
  - apply spherical_area_spec; auto.
Qed.

(** The areas of all cells, in whatever order the loop takes them. *)
Lemma compute_areas_spec m : mesh_ok m -> (coord_sys m = Cartesian3D -> (3 <= extent1 (node_coords m))%nat) ->
  Z.of_nat (n_cells m) < 2 ^ 31 -> (0 < n_cells m)%nat ->
  compute_areas m = Ok (mkMesh (node_coords m) (conn_offsets m) (conn_indices m) (coord_sys m)
    ((fun c => polygon_area (coord_sys m) (node_coords m) (cell_nodes m c)) <$> seq 0 (n_cells m)) (cell_mask m)).
Proof.
  intros Hm H3 Hn Hpos. unfold compute_areas. destruct (Nat.eqb_spec (n_cells m) 0); [lia|]. rewrite cast_int_id, Nat2Z.id by done.
  set (f := fun c => polygon_area (coord_sys m) (node_coords m) (cell_nodes m c)).
  rewrite (for_each_own (fun c _ => f c) (n_cells m)).
  - cbn [bind]. do 2 f_equal. apply list_eq. intros i. rewrite list_lookup_imap, list_lookup_fmap.
    destruct (decide (i < n_cells m)%nat).
    + rewrite lookup_seq_lt by done. rewrite lookup_replicate_2 by done. done.
    + rewrite !lookup_ge_None_2; rewrite ?length_replicate, ?length_seq; done || lia.
  - apply range_order_perm.
  - apply length_replicate.
  - intros j d Hj Hd. rewrite cell_area_spec by done. cbn [bind]. rewrite write_in_bounds by lia. rewrite Nat2Z.id. f_equal.
    apply list_eq. intros k. rewrite list_lookup_alter. case_decide as Ek; [subst|by rewrite list_lookup_insert_ne].
    rewrite list_lookup_insert_eq by lia. destruct (lookup_lt_is_Some_2 d k) as [x ->]; [lia|done].
Qed.
End Area_lemmas.

(** ** Quadrilaterals *)

Lemma put_quad_spec indices base n0 n1 n2 n3 : 0 <= base -> base + 4 <= Z.of_nat (length indices) -> exists indices',
  put_quad indices base n0 n1 n2 n3 = Ok indices' /\ length indices' = length indices /\
  (forall k, (k < 4)%nat -> indices' !! (Z.to_nat base + k)%nat = [n0; n1; n2; n3] !! k) /\
  (forall i, (i < Z.to_nat base \/ Z.to_nat base + 4 <= i)%nat -> indices' !! i = indices !! i).
Proof.
  intros H0 H4. unfold put_quad. rewrite !write_in_bounds by (cbn [bind]; rewrite ?length_insert; lia). cbn [bind].
  rewrite !write_in_bounds by (rewrite ?length_insert; lia). cbn [bind].
  rewrite !write_in_bounds by (rewrite ?length_insert; lia). cbn [bind].
  rewrite !write_in_bounds by (rewrite ?length_insert; lia). eexists. split; [done|].
  rewrite !length_insert. split; [done|]. split.
  - intros k Hk. replace (Z.to_nat (base + 0)) with (Z.to_nat base) by lia. replace (Z.to_nat (base + 1)) with (Z.to_nat base + 1)%nat by lia.
    replace (Z.to_nat (base + 2)) with (Z.to_nat base + 2)%nat by lia. replace (Z.to_nat (base + 3)) with (Z.to_nat base + 3)%nat by lia.
    rewrite !list_lookup_insert, !length_insert. destruct k as [|[|[|[|k]]]]; [..|lia]; cbn [lookup list_lookup];
      repeat (case_decide; try lia); done.
  - intros i Hi. rewrite !list_lookup_insert_ne by lia. done.
Qed.

Lemma quad_indices_S f n : quad_indices f (S n) = quad_indices f n ++ f n.
Proof. unfold quad_indices. rewrite seq_S, fmap_app, concat_app. cbn. by rewrite app_nil_r. Qed.

Lemma quad_indices_length f n : (forall c, (c < n)%nat -> length (f c) = 4%nat) -> length (quad_indices f n) = (4 * n)%nat.
Proof.
  induction n as [|n IH]; intros Hf; [done|]. rewrite quad_indices_S, length_app, Hf, IH by (lia || (intros; apply Hf; lia)). lia.
Qed.

Lemma quad_indices_lookup f n c k : (forall c, (c < n)%nat -> length (f c) = 4%nat) -> (c < n)%nat -> (k < 4)%nat ->
  quad_indices f n !! (4 * c + k)%nat = f c !! k.
Proof.
  intros Hf. induction n as [|n IH]; intros Hc Hk; [lia|]. rewrite quad_indices_S.
  pose proof (quad_indices_length f n ltac:(intros; apply Hf; lia)) as Hl.
  destruct (decide (c = n)) as [->|Hne].
  - rewrite lookup_app_r by lia. f_equal. lia.
  - rewrite lookup_app_l by lia. apply IH; [|lia|done]. intros; apply Hf; lia.
Qed.

Lemma quad_offsets_lookup n c : (c <= n)%nat -> quad_offsets n !! c = Some (4 * Z.of_nat c).
Proof. intros Hc. unfold quad_offsets. by rewrite list_lookup_fmap, lookup_seq_lt by lia. Qed.

Lemma quad_offsets_length n : length (quad_offsets n) = S n.
Proof. unfold quad_offsets. by rewrite length_fmap, length_seq. Qed.

(** The state of a loop that fills quadrilaterals: lengths, and the cells done. *)
Definition quad_done (f : nat -> list Z) (c : nat) (s : list Z * list Z) : Prop :=
  fst s !! c = Some (4 * Z.of_nat c) /\ forall k, (k < 4)%nat -> snd s !! (4 * c + k)%nat = f c !! k.

Lemma quads_filled f n offsets indices : (forall c, (c < n)%nat -> length (f c) = 4%nat) ->
  length offsets = S n -> length indices = (4 * n)%nat -> (forall c, (c < n)%nat -> quad_done f c (offsets, indices)) ->
  offsets !! n = Some (4 * Z.of_nat n) -> offsets = quad_offsets n /\ indices = quad_indices f n.
Proof.
  intros Hf Ho Hi Hq Hn. split; apply list_eq; intros i.
  - destruct (decide (i <= n)%nat) as [Hle|Hgt]; [|rewrite !lookup_ge_None_2; rewrite ?quad_offsets_length; lia || done].
    rewrite quad_offsets_lookup by done. destruct (decide (i = n)) as [->|]; [done|]. apply Hq. lia.
  - destruct (decide (i < 4 * n)%nat) as [Hlt|Hge]; [|rewrite !lookup_ge_None_2; rewrite ?quad_indices_length by done; lia || done].
    pose proof (Nat.div_mod_eq i 4) as E. pose proof (Nat.mod_upper_bound i 4 ltac:(lia)) as Hk. rewrite E.
    rewrite quad_indices_lookup by (done || lia). apply Hq; lia.
Qed.

Lemma quad_mesh_ok coords f n cs : view_ok coords -> (2 <= extent1 coords)%nat ->
  (forall c, (c < n)%nat -> length (f c) = 4%nat /\ Forall (fun v => 0 <= v < Z.of_nat (extent0 coords)) (f c)) ->
  let m := new_mesh coords (quad_offsets n) (quad_indices f n) cs in
  mesh_ok m /\ n_cells m = n /\ forall c, (c < n)%nat -> cell_nodes m c = f c.
Proof.
  intros Hv H2 Hf m. assert (Hf4 : forall c, (c < n)%nat -> length (f c) = 4%nat) by (intros c Hc; by apply Hf).
  assert (Hn : n_cells m = n). { unfold n_cells, m. cbn [conn_offsets new_mesh]. rewrite quad_offsets_length. cbn. lia. }
  assert (Ho : forall c, (c <= n)%nat -> offset m c = 4 * Z.of_nat c).
  { intros c Hc. unfold offset, m. cbn [conn_offsets new_mesh]. by rewrite quad_offsets_lookup. }
  pose proof (quad_indices_length f n Hf4) as Hql.
  split; [|split; [done|]].
  - split; rewrite ?Hn; cbn [m node_coords conn_offsets conn_indices new_mesh]; [done| | | |].
    + by rewrite quad_offsets_lookup by lia.
    + intros c Hc. rewrite !Ho by lia. lia.
    + rewrite Ho by lia. lia.
    + apply Forall_concat, Forall_fmap, list.Forall_forall. intros c Hc%elem_of_seq. apply Hf. lia.
  - intros c Hc. unfold cell_nodes. rewrite !Ho by lia. unfold m. cbn [conn_indices new_mesh]. apply list_eq. intros k.
    destruct (decide (k < 4)%nat) as [Hk|Hk].
    + rewrite lookup_take_lt by lia. rewrite lookup_drop. rewrite <- (quad_indices_lookup f n c k) by done. f_equal. lia.
    + rewrite !lookup_ge_None_2; [done| |]; rewrite ?length_take, ?Hf4 by done; lia.
Qed.

(** Cells of a logical grid: the corners are nodes, and the node of row [j] and column [i]
    has number [j * (ni + 1) + i]. *)
Lemma grid_quad_range ni nj c : (0 < ni)%nat -> (c < ni * nj)%nat ->
  length (grid_quad ni c) = 4%nat /\ Forall (fun v => 0 <= v < (Z.of_nat ni + 1) * (Z.of_nat nj + 1)) (grid_quad ni c).
Proof.
  intros H0 Hc. split; [done|]. pose proof (Nat.mod_upper_bound c ni ltac:(lia)) as Hi.
  assert (Hj : (c / ni < nj)%nat) by (apply Nat.Div0.div_lt_upper_bound; lia).
  unfold grid_quad. repeat (constructor; [nia|]). constructor.
Qed.

Lemma cast_int_small z : 0 <= z < 2 ^ 31 -> cast_int z = z.
Proof. intros Hz. unfold cast_int. rewrite Z.mod_small; lia. Qed.

Definition shaped (n : nat) (v : View2) : Prop := view_ok v /\ extent0 v = n /\ extent1 v = 2%nat.

Lemma shaped_ext n v v' : shaped n v -> shaped n v' ->
  (forall k, (k < n)%nat -> coord v (Z.of_nat k) 0 = coord v' (Z.of_nat k) 0 /\ coord v (Z.of_nat k) 1 = coord v' (Z.of_nat k) 1) -> v = v'.
Proof.
  destruct v as [e0 e1 l], v' as [e0' e1' l']. intros (Hv & E0 & E1) (Hv' & E0' & E1') Hx. unfold view_ok in *. cbn [cells extent0 extent1] in *. subst. f_equal.
  assert (Hk : forall i (b : list double), length b = (n * 2)%nat -> (i < n * 2)%nat -> b !! i = Some (default dzero (b !! i))).
  { intros i b Hb Hi. by destruct (lookup_lt_is_Some_2 b i) as [x ->]; [lia|]. }
  apply list_eq. intros i. destruct (decide (i < n * 2)%nat) as [Hi|Hi]; [|rewrite !lookup_ge_None_2 by lia; done].
  rewrite (Hk i l), (Hk i l') by done. f_equal. unfold coord, address2 in Hx. cbn [cells extent0] in Hx.
  destruct (decide (i < n)%nat) as [Hn|Hn].
  - destruct (Hx i Hn) as [E _]. by replace (Z.to_nat (Z.of_nat i + Z.of_nat (0 * n))) with i in E by lia.
  - destruct (Hx (i - n)%nat ltac:(lia)) as [_ E]. by replace (Z.to_nat (Z.of_nat (i - n) + Z.of_nat (1 * n))) with i in E by lia.
Qed.

(** What the loop over the cells keeps. *)
Definition conn_sized (n : nat) (s : list Z * list Z) : Prop :=
  length (fst s) = S n /\ length (snd s) = (4 * n)%nat.

Lemma quad_done_other (f : nat -> list Z) c c' offsets indices offsets' indices' :
  c <> c' -> (forall k, k <> c -> offsets' !! k = offsets !! k) ->
  (forall i, (i < 4 * c \/ 4 * c + 4 <= i)%nat -> indices' !! i = indices !! i) ->
  quad_done f c' (offsets, indices) -> quad_done f c' (offsets', indices').
Proof.
  intros Hne Ho Hi [H1 H2]. split; cbn [fst snd] in *.
  - rewrite Ho; [done|lia].
  - intros k Hk. rewrite Hi; [by apply H2|lia].
Qed.

(** A cell stored at its place. *)
Lemma put_cell_spec f n c offsets indices o n0 n1 n2 n3 : (c < n)%nat -> conn_sized n (offsets, indices) -> f c = [n0; n1; n2; n3] ->
  o = 4 * Z.of_nat c ->
  exists indices', put_quad indices o n0 n1 n2 n3 = Ok indices' /\ let s := (<[c := o]> offsets, indices') in
    conn_sized n s /\ quad_done f c s /\ forall c', quad_done f c' (offsets, indices) -> quad_done f c' s.
Proof.
  intros Hc [L1 L2] Hf ->. cbn [fst snd] in L1, L2. destruct (put_quad_spec indices (4 * Z.of_nat c) n0 n1 n2 n3) as (ix & E & Hl & Hn & Hk); [lia|lia|].
  replace (Z.to_nat (4 * Z.of_nat c)) with (4 * c)%nat in Hn, Hk by lia. exists ix. split; [done|]. intros s.
  assert (Hd : quad_done f c s).
  { split; unfold s; cbn [fst snd]; [by rewrite list_lookup_insert_eq by lia|]. intros k Hk4. rewrite Hf. by apply Hn. }
  split; [|split; [done|]].
  - split; unfold s; cbn [fst snd]; [by rewrite length_insert|by rewrite Hl].
  - intros c' Hc'. destruct (decide (c = c')) as [<-|Hne]; [done|]. eapply quad_done_other; [done| |exact Hk|done].
    intros k Hkc. by rewrite list_lookup_insert_ne.
Qed.

Lemma zero_conn_sized n : 0 <= n -> conn_sized (Z.to_nat n) (zero_indices (n + 1), zero_indices (n * 4)) /\
  fst (zero_indices (n + 1), zero_indices (n * 4)) !! Z.to_nat n = Some 0.
Proof.
  intros Hn. unfold conn_sized, zero_indices. cbn [fst snd]. rewrite !length_replicate.
  split; [lia|]. apply lookup_replicate_2. lia.
Qed.


(** ** Filling a mesh *)

(** Two columns given by a function of the node. *)
Definition coords_view (n : nat) (f : nat -> double * double) : View2 :=
  mkView2 n 2 (((fun k => fst (f k)) <$> seq 0 n) ++ ((fun k => snd (f k)) <$> seq 0 n)).

Lemma coords_view_shaped n f : shaped n (coords_view n f).
Proof. split; [|done]. unfold view_ok. cbn [coords_view cells extent0 extent1]. rewrite length_app, !length_fmap, length_seq. lia. Qed.

Lemma coords_view_coord n f k : (k < n)%nat -> coord (coords_view n f) (Z.of_nat k) 0 = fst (f k) /\ coord (coords_view n f) (Z.of_nat k) 1 = snd (f k).
Proof.
  intros Hk. unfold coord, address2. cbn [coords_view cells extent0]. split.
  - replace (Z.to_nat (Z.of_nat k + Z.of_nat (0 * n))) with k by lia. rewrite lookup_app_l by (rewrite length_fmap, length_seq; lia).
    by rewrite list_lookup_fmap, lookup_seq_lt.
  - replace (Z.to_nat (Z.of_nat k + Z.of_nat (1 * n))) with (n + k)%nat by lia.
    rewrite lookup_app_r by (rewrite length_fmap, length_seq; lia). rewrite length_fmap, length_seq.
    replace (n + k - n)%nat with k by lia. by rewrite list_lookup_fmap, lookup_seq_lt.
Qed.

Definition put_node (k : nat) (x y : double) (v : View2) : result View2 :=
  let! v := write2 v (Z.of_nat k) 0 x in write2 v (Z.of_nat k) 1 y.

Lemma put_node_spec n k x y v : (k < n)%nat -> shaped n v -> exists v', put_node k x y v = Ok v' /\ shaped n v' /\
  coord v' (Z.of_nat k) 0 = x /\ coord v' (Z.of_nat k) 1 = y /\
  forall k', (k' < n)%nat -> k' <> k -> coord v' (Z.of_nat k') 0 = coord v (Z.of_nat k') 0 /\ coord v' (Z.of_nat k') 1 = coord v (Z.of_nat k') 1.
Proof.
  intros Hk (Hv & He0 & He1). unfold put_node.
  destruct (write2_ok v (Z.of_nat k) 0 x) as (v1 & E1 & Hv1 & X0 & X1 & C1 & K1); [done|lia|lia|]. rewrite E1. cbn [bind].
  destruct (write2_ok v1 (Z.of_nat k) 1 y) as (v2 & E2 & Hv2 & Y0 & Y1 & C2 & K2); [done|lia|lia|].
  exists v2. split; [done|]. split; [by unfold shaped; rewrite Y0, Y1, X0, X1|]. split; [rewrite K2; [done|lia|intros [=]]|]. split; [done|].
  intros k' Hk' Hne. split; (rewrite K2; [rewrite K1; [done|lia|]|lia|]); intros [=]; lia.
Qed.

Lemma coords_filled n f order body v0 : order ≡ₚ seq 0 n -> shaped n v0 ->
  (forall k v, (k < n)%nat -> shaped n v -> body k v = put_node k (fst (f k)) (snd (f k)) v) ->
  for_each order body v0 = Ok (coords_view n f).
Proof.
  intros Hp Hv0 Hb.
  destruct (for_each_keys (shaped n) (fun k v => (k < n)%nat -> coord v (Z.of_nat k) 0 = fst (f k) /\ coord v (Z.of_nat k) 1 = snd (f k))
    (fun k k' => k = k') order body v0) as (v & E & HP & Hd & _); [|exact Hv0|].
  - intros k v Hk Hv. rewrite Hp in Hk. apply elem_of_seq in Hk. rewrite Hb by (done || lia).
    destruct (put_node_spec n k (fst (f k)) (snd (f k)) v) as (v' & E & S & C0 & C1 & K); [lia|done|].
    exists v'. split; [done|]. split; [done|]. split; [intros k' <- _; done|]. intros k' Hq Hk'.
    destruct (decide (k' = k)) as [->|Hne]; [done|]. destruct (K k' Hk' Hne) as [-> ->]. by apply Hq.
  - transitivity (Ok v); [exact E|]. f_equal. apply (shaped_ext n); [done|apply coords_view_shaped|]. intros k Hk.
    destruct (coords_view_coord n f k Hk) as [-> ->]. apply (Hd k k); [|done|done]. rewrite Hp. apply elem_of_seq. lia.
Qed.

(** A cell with its offset and its corners. *)
Definition put_cell (c : nat) (q : list Z) (s : list Z * list Z) : result (list Z * list Z) :=
  match q with
  | [n0; n1; n2; n3] =>
      let! offsets := write (fst s) (Z.of_nat c) (4 * Z.of_nat c) in
      let! indices := put_quad (snd s) (4 * Z.of_nat c) n0 n1 n2 n3 in
      Ok (offsets, indices)
  | _ => Undef
  end.

Lemma cells_filled n f order body s0 : order ≡ₚ seq 0 n -> conn_sized n s0 -> (forall c, (c < n)%nat -> length (f c) = 4%nat) ->
  (forall c s, (c < n)%nat -> conn_sized n s -> body c s = put_cell c (f c) s) ->
  exists offsets, for_each order body s0 = Ok (offsets, quad_indices f n) /\ length offsets = S n /\
    <[n := 4 * Z.of_nat n]> offsets = quad_offsets n.
Proof.
  intros Hp Hs0 Hf Hb. destruct (for_each_keys (conn_sized n) (quad_done f) (fun k k' => k = k') order body s0) as (s & E & [P1 P2] & Hd & _); [|exact Hs0|].
  - intros c [offsets indices] Hc Hs. rewrite Hp in Hc. apply elem_of_seq in Hc. rewrite Hb by (done || lia).
    specialize (Hf c ltac:(lia)). destruct (f c) as [|n0 [|n1 [|n2 [|n3 [|? ?]]]]] eqn:Ef; try done. unfold put_cell. cbn [fst snd].
    pose proof Hs as [L1 L2]. cbn [fst snd] in L1, L2. rewrite write_in_bounds by lia. cbn [bind]. rewrite Nat2Z.id.
    destruct (put_cell_spec f n c offsets indices (4 * Z.of_nat c) n0 n1 n2 n3) as (ix & E & Hz & Hd & Hk); [lia|done|done|done|].
    rewrite E. cbn [bind]. eexists. split; [done|]. split; [done|]. split; [intros c' <-; done|done].
  - destruct s as [offsets indices]. cbn [fst snd] in *.
    assert (Hq : <[n := 4 * Z.of_nat n]> offsets = quad_offsets n /\ indices = quad_indices f n).
    { apply quads_filled; [done|by rewrite length_insert|done| |by rewrite list_lookup_insert_eq by lia].
      intros c Hc. destruct (Hd c c) as [D1 D2]; [rewrite Hp; apply elem_of_seq; lia|done|].
      split; [cbn [fst]; by rewrite list_lookup_insert_ne by lia|exact D2]. }
    destruct Hq as [Hq1 Hq2]. exists offsets. split; [|done]. transitivity (Ok (offsets, indices)); [exact E|by rewrite Hq2].
Qed.
