(* ===== verification/StructuredGrid.v ===== *)
(** * AXIS: the logically rectangular grid
    (src/libs/axis/src/topology/structured_grid.cpp)

    Cell centers, optional corners, the synthesis of corners from centers for a whole grid
    and for a band of its rows, and the conversion to a mesh of quadrilaterals.  Sizes are
    [size_t] values; the kernels take their bounds and their cell numbers as [int]. *)
From Stdlib Require Import ZArith Lia SpecFloat.
From stdpp Require Import base list numbers.
From S2P Require Import Prelude CInt Blend KokkosArrays AxisMesh.
Local Open Scope Z_scope.

(** ** Data *)

Record StructuredGrid : Type := mkGrid {
  ni : Z;
  nj : Z;
  center_lon : list double;
  center_lat : list double;
  corner_lon : list double;
  corner_lat : list double;
  grid_coord_sys : CoordinateSystem
}.

Definition has_extent (l : list double) (n : Z) : bool := Z.of_nat (length l) =? n.

Definition new_structured_grid (ni nj : Z) (clon clat : list double) (cs : CoordinateSystem) : result StructuredGrid :=
  do! throw_if ((ni =? 0) || (nj =? 0)) invalid_argument then
  do! throw_if (negb (has_extent clon (to_u64 (ni * nj)))) invalid_argument then
  do! throw_if (negb (has_extent clat (to_u64 (ni * nj)))) invalid_argument then
  Ok (mkGrid ni nj clon clat [] [] cs).

Definition with_corners (g : StructuredGrid) (lon lat : list double) : StructuredGrid :=
  mkGrid (ni g) (nj g) (center_lon g) (center_lat g) lon lat (grid_coord_sys g).

Definition set_corners (g : StructuredGrid) (lon lat : list double) : result StructuredGrid :=
  let expected := to_u64 ((ni g + 1) * (nj g + 1)) in
  do! throw_if (negb (has_extent lon expected)) invalid_argument then
  do! throw_if (negb (has_extent lat expected)) invalid_argument then
  Ok (with_corners g lon lat).

(** ** Corner synthesis *)

Definition c350 : double := of_int 350.
Definition c360 : double := of_int 360.
Definition c370 : double := of_int 370.

Definition detect_periodic_lon (ni : Z) (clon : list double) : result bool :=
  if ni <=? 1 then Ok false
  else
    let! c1 := read clon 1 in
    let! c0 := read clon 0 in
    let full_span := dmul (of_int ni) (SFabs (dsub c1 c0)) in
    Ok (SFltb c350 full_span && SFltb full_span c370).

(** One of the four cells around a corner: the sums and the count after it. *)
Definition corner_term (ni nj : Z) (clon clat : list double) (is_periodic : bool) (ci cj dj di : Z)
    (acc : double * double * Z) : result (double * double * Z) :=
  let '(sum_lon, sum_lat, count) := acc in
  let cell_i := ci + di in
  let cell_j := cj + dj in
  let '(cell_i, cell_lon, valid_i) :=
    if is_periodic then
      if cell_i <? 0 then (ni - 1, SFopp c360, true) else if ni <=? cell_i then (0, c360, true) else (cell_i, dzero, true)
    else (cell_i, dzero, (0 <=? cell_i) && (cell_i <? ni)) in
  if valid_i && (0 <=? cell_j) && (cell_j <? nj) then
    let cell_idx := cell_i + cell_j * ni in
    let! x := read clon cell_idx in
    let! y := read clat cell_idx in
    Ok (dadd sum_lon (dadd x cell_lon), dadd sum_lat y, count + 1)
  else Ok acc.

Definition corner_at (ni nj : Z) (clon clat : list double) (is_periodic : bool) (ci cj : Z) : result (double * double) :=
  let term := corner_term ni nj clon clat is_periodic ci cj in
  let! s := term (-1) (-1) (dzero, dzero, 0) in
  let! s := term (-1) 0 s in
  let! s := term 0 (-1) s in
  let! s := term 0 0 s in
  let '(sum_lon, sum_lat, count) := s in
  Ok (ddiv sum_lon (of_int count), ddiv sum_lat (of_int count)).

Section Kernels.
Context `{!ParallelFor}.

Definition synthesize_corner_rows (ni nj : Z) (clon clat : list double) (cj_lo nrows : Z) (is_periodic : bool)
    (corners : list double * list double) : result (list double * list double) :=
  let nip1 := ni + 1 in
  parallel_teams (Z.to_nat nrows) (fun row corners =>
    let cj := cj_lo + Z.of_nat row in
    for_each (range_order (Z.to_nat nip1)) (fun ci '(lon, lat) =>
      let idx := Z.of_nat ci + (cj - cj_lo) * nip1 in
      let! '(x, y) := corner_at ni nj clon clat is_periodic (Z.of_nat ci) cj in
      let! lon := write lon idx x in
      let! lat := write lat idx y in
      Ok (lon, lat)) corners) corners.

Definition synthesize_corners (g : StructuredGrid) : result StructuredGrid :=
  let nip1 := ni g + 1 in
  let njp1 := nj g + 1 in
  let n_corners := to_u64 (nip1 * njp1) in
  let! is_periodic := detect_periodic_lon (ni g) (center_lon g) in
  let! '(lon, lat) := synthesize_corner_rows (ni g) (nj g) (center_lon g) (center_lat g) 0 njp1 is_periodic (zeros n_corners, zeros n_corners) in
  Ok (with_corners g lon lat).

(** The corner rows [j0] to [j1] of a band. *)
Definition synthesize_band_corners (ni nj_global : Z) (clon clat : list double) (j0 j1 : Z) : result (list double * list double) :=
  let nip1 := ni + 1 in
  do! throw_if (ni =? 0) invalid_argument then
  do! throw_if (j1 <? j0) invalid_argument then
  do! throw_if (nj_global <? j1) invalid_argument then
  let n := to_u64 (ni * nj_global) in
  do! throw_if (negb (has_extent clon n) || negb (has_extent clat n)) invalid_argument then
  let nrows := j1 - j0 + 1 in
  let n_corners := to_u64 (nip1 * nrows) in
  let! is_periodic := detect_periodic_lon ni clon in
  synthesize_corner_rows ni nj_global clon clat j0 nrows is_periodic (zeros n_corners, zeros n_corners).

(** ** Conversion *)

(** [MDRangePolicy] over two ranges from 0 to an [int]: each pair once. *)
Definition parallel_md {S} (n0 n1 : Z) (body : Z -> Z -> S -> result S) (s : S) : result S :=
  let m0 := cast_int n0 in
  let m1 := cast_int n1 in
  if (m0 <? 0) || (m1 <? 0) then Undef
  else for_each (range_order (Z.to_nat (m0 * m1))) (fun k => body (Z.of_nat k mod m0) (Z.of_nat k / m0)) s.

Definition fill_node (nip1 : Z) (lon lat : list double) (ci cj : Z) (coords : View2) : result View2 :=
  let node_idx := cast_int (ci + cj * nip1) in
  let! x := read lon node_idx in
  let! coords := write2 coords node_idx 0 x in
  let! y := read lat node_idx in
  write2 coords node_idx 1 y.

Definition fill_cell (ni nip1 : Z) (i j : Z) (conn : list Z * list Z) : result (list Z * list Z) :=
  let '(offsets, indices) := conn in
  let cell_idx := cast_int (i + j * ni) in
  let! four := arith I32 (cell_idx * 4) in
  let! offsets := write offsets cell_idx four in
  let base := to_u64 four in
  let! indices := put_quad indices base (to_index (i + j * nip1)) (to_index ((i + 1) + j * nip1))
    (to_index ((i + 1) + (j + 1) * nip1)) (to_index (i + (j + 1) * nip1)) in
  Ok (offsets, indices).

(** The mesh, and the grid with the corners it now has. *)
Definition to_unstructured (g : StructuredGrid) : result (UnstructuredMesh * StructuredGrid) :=
  let! g := if (length (corner_lon g) =? 0)%nat then synthesize_corners g else Ok g in
  let nip1 := ni g + 1 in
  let njp1 := nj g + 1 in
  let n_cells := to_u64 (ni g * nj g) in
  let n_nodes := to_u64 (nip1 * njp1) in
  let coords := mkView2 (Z.to_nat n_nodes) 2 (zeros (n_nodes * 2)) in
  let! coords := parallel_md nip1 njp1 (fill_node nip1 (corner_lon g) (corner_lat g)) coords in
  let! '(offsets, indices) := parallel_md (ni g) (nj g) (fill_cell (ni g) nip1)
    (zero_indices (n_cells + 1), zero_indices (n_cells * 4)) in
  let! offsets := write offsets n_cells (to_index (n_cells * 4)) in
  Ok (new_mesh coords offsets indices (grid_coord_sys g), g).
End Kernels.

(** * Specification *)

(** The centers around corner [(ci, cj)], from the south-west: their numbers, and what a
    longitude taken across the seam is shifted by. *)
Definition columns (ni : Z) (is_periodic : bool) (ci : Z) : list (Z * double) :=
  if is_periodic then
    [if ci =? 0 then (ni - 1, SFopp c360) else (ci - 1, dzero); if ci =? ni then (0, c360) else (ci, dzero)]
  else (fun i => (i, dzero)) <$> filter (fun i => 0 <= i < ni) [ci - 1; ci].

Definition corner_rows (nj cj : Z) : list Z := filter (fun j => 0 <= j < nj) [cj - 1; cj].

Definition around (ni nj : Z) (is_periodic : bool) (ci cj : Z) : list (Z * double) :=
  j ← corner_rows nj cj; (fun '(i, s) => (i + j * ni, s)) <$> columns ni is_periodic ci.

Definition mean (l : list double) : double := ddiv (foldl dadd dzero l) (of_int (Z.of_nat (length l))).

Definition value_at (l : list double) (k : Z) : double := default dzero (l !! Z.to_nat k).

(** A corner is the mean of the centers around it. *)
Definition mean_corner (ni nj : Z) (clon clat : list double) (is_periodic : bool) (ci cj : Z) : double * double :=
  let l := around ni nj is_periodic ci cj in
  (mean ((fun '(k, s) => dadd (value_at clon k) s) <$> l), mean ((fun '(k, _) => value_at clat k) <$> l)).

(** Whether the longitudes of the first row go around the globe. *)
Definition periodic (ni : Z) (clon : list double) : bool :=
  if ni <=? 1 then false
  else let full_span := dmul (of_int ni) (SFabs (dsub (value_at clon 1) (value_at clon 0))) in
    SFltb c350 full_span && SFltb full_span c370.

(** [rows] rows of corners from [cj_lo] on. *)
Definition mean_corners (ni nj : Z) (clon clat : list double) (cj_lo rows : Z) : list (double * double) :=
  (fun k => mean_corner ni nj clon clat (periodic ni clon) (Z.of_nat k mod (ni + 1)) (cj_lo + Z.of_nat k / (ni + 1)))
    <$> seq 0 (Z.to_nat ((ni + 1) * rows)).

Definition centers_ok (ni nj : Z) (clon clat : list double) : Prop :=
  0 < ni /\ 0 <= nj /\ Z.of_nat (length clon) = ni * nj /\ Z.of_nat (length clat) = ni * nj.

Definition grid_ok (g : StructuredGrid) : Prop :=
  centers_ok (ni g) (nj g) (center_lon g) (center_lat g) /\ 0 < nj g /\
  (corner_lon g = [] \/ Z.of_nat (length (corner_lon g)) = (ni g + 1) * (nj g + 1) /\
    Z.of_nat (length (corner_lat g)) = (ni g + 1) * (nj g + 1)).

(** The corners the mesh of a grid is made of. *)
Definition corners_of (g : StructuredGrid) : list double * list double :=
  if decide (corner_lon g = []) then
    let l := mean_corners (ni g) (nj g) (center_lon g) (center_lat g) 0 (nj g + 1) in (l.*1, l.*2)
  else (corner_lon g, corner_lat g).

(** * Lemmas *)

(** ** Corners *)

(** The cell a term of a corner is about, if there is one. *)
Definition entry (ni nj : Z) (is_periodic : bool) (ci cj dj di : Z) : option (Z * double) :=
  let cell_i := ci + di in
  let cell_j := cj + dj in
  let '(i, s, valid) :=
    if is_periodic then
      if cell_i <? 0 then (ni - 1, SFopp c360, true) else if ni <=? cell_i then (0, c360, true) else (cell_i, dzero, true)
    else (cell_i, dzero, (0 <=? cell_i) && (cell_i <? ni)) in
  if valid && (0 <=? cell_j) && (cell_j <? nj) then Some (i + cell_j * ni, s) else None.

Definition add_entry (clon clat : list double) (acc : double * double * Z) (e : option (Z * double)) : double * double * Z :=
  match e with
  | None => acc
  | Some (k, s) => let '(sum_lon, sum_lat, count) := acc in
      (dadd sum_lon (dadd (value_at clon k) s), dadd sum_lat (value_at clat k), count + 1)
  end.

Lemma read_value_at l k : 0 <= k < Z.of_nat (length l) -> read l k = Ok (value_at l k).
Proof. intros H. destruct (read_in_bounds l k H) as (x & E & Hx). rewrite E. unfold value_at. by rewrite Hx. Qed.

Lemma filter_pair (P : Z -> Prop) `{!forall x, Decision (P x)} a b :
  filter P [a; b] = (if bool_decide (P a) then [a] else []) ++ (if bool_decide (P b) then [b] else []).
Proof. rewrite !filter_cons, filter_nil. by repeat case_decide; repeat case_bool_decide. Qed.

Section Corner.
Context (ni nj : Z) (clon clat : list double).
Hypothesis Hc : centers_ok ni nj clon clat.

Lemma corner_term_entry per ci cj dj di acc : -1 <= dj <= 0 -> -1 <= di <= 0 -> 0 <= ci <= ni ->
  corner_term ni nj clon clat per ci cj dj di acc = Ok (add_entry clon clat acc (entry ni nj per ci cj dj di)).
Proof.
  intros Hdj Hdi Hi. destruct Hc as (H0 & Hj0 & Hl1 & Hl2). destruct acc as [[sl sa] n]. unfold corner_term, entry.
  assert (Hr : forall i j, 0 <= i < ni -> 0 <= j < nj -> 0 <= i + j * ni < ni * nj) by (intros; nia).
  destruct per; [destruct (Z.ltb_spec (ci + di) 0); [|destruct (Z.leb_spec ni (ci + di))]|];
    (destruct (_ && _ && _) eqn:E; [|done]); bsimpl; rewrite !read_value_at; try (rewrite ?Hl1, ?Hl2; apply Hr; lia); done.
Qed.

Lemma around_entries per ci cj : 0 <= ci <= ni ->
  around ni nj per ci cj = omap (fun e => e) [entry ni nj per ci cj (-1) (-1); entry ni nj per ci cj (-1) 0;
    entry ni nj per ci cj 0 (-1); entry ni nj per ci cj 0 0].
Proof.
  intros Hi. destruct Hc as (H0 & _). unfold around, corner_rows, columns, entry.
  replace (ci + -1) with (ci - 1) by lia. replace (cj + -1) with (cj - 1) by lia. rewrite !Z.add_0_r.
  assert (Hin : forall x n, (0 <=? x) && (x <? n) = bool_decide (0 <= x < n)) by (intros; case_bool_decide; bsimpl; lia).
  destruct per; [|rewrite <- !andb_assoc].
  - assert ((ni <=? ci - 1) = false) as -> by (bsimpl; lia). assert ((ci <? 0) = false) as -> by (bsimpl; lia).
    destruct (Z.ltb_spec (ci - 1) 0), (Z.eqb_spec ci 0); try lia; destruct (Z.leb_spec ni ci), (Z.eqb_spec ci ni); try lia;
      cbn [andb]; rewrite !Hin, filter_pair; do 2 case_bool_decide; reflexivity.
  - rewrite !Hin, !andb_assoc, !Hin, !filter_pair.
    destruct (bool_decide (0 <= ci - 1 < ni)), (bool_decide (0 <= ci < ni)), (bool_decide (0 <= cj - 1 < nj)), (bool_decide (0 <= cj < nj)); reflexivity.
Qed.

Lemma corner_at_spec per ci cj : 0 <= ci <= ni -> corner_at ni nj clon clat per ci cj = Ok (mean_corner ni nj clon clat per ci cj).
Proof.
  intros Hi. unfold corner_at, mean_corner. rewrite around_entries by done.
  do 4 (rewrite corner_term_entry by (done || lia); cbn [bind]).
  destruct (entry ni nj per ci cj (-1) (-1)) as [[k1 s1]|], (entry ni nj per ci cj (-1) 0) as [[k2 s2]|],
    (entry ni nj per ci cj 0 (-1)) as [[k3 s3]|], (entry ni nj per ci cj 0 0) as [[k4 s4]|]; reflexivity.
Qed.

Lemma detect_periodic_spec : 0 < nj -> detect_periodic_lon ni clon = Ok (periodic ni clon).
Proof.
  intros Hj. destruct Hc as (H0 & _ & Hl & _). unfold detect_periodic_lon, periodic. case_match; [done|].
  rewrite !read_value_at by (bsimpl; nia). done.
Qed.
End Corner.

Lemma mean_corners_length ni nj clon clat lo rows : length (mean_corners ni nj clon clat lo rows) = Z.to_nat ((ni + 1) * rows).
Proof. unfold mean_corners. by rewrite length_fmap, length_seq. Qed.

(** [corner_done lo k]: the corner [k] of the rows from [lo] on is in place. *)
Definition corner_done ni nj clon clat (lo : Z) (k : nat) (s : list double * list double) : Prop :=
  let c := mean_corner ni nj clon clat (periodic ni clon) (Z.of_nat k mod (ni + 1)) (lo + Z.of_nat k / (ni + 1)) in
  fst s !! k = Some (fst c) /\ snd s !! k = Some (snd c).

Section Rows.
Context `{!ParallelFor}.

Lemma lookup_insert_done {A} (l : list A) i k x y : l !! k = Some y -> (i = k -> x = y) -> <[i := x]> l !! k = Some y.
Proof.
  intros Hk Hx. destruct (decide (i = k)) as [->|Hne]; [|by rewrite list_lookup_insert_ne].
  rewrite list_lookup_insert_eq; [by rewrite Hx|]. by eapply lookup_lt_Some.
Qed.

Lemma row_body_spec ni nj clon clat lo rows row ci s : centers_ok ni nj clon clat -> 0 <= rows ->
  (row < Z.to_nat rows)%nat -> (ci < Z.to_nat (ni + 1))%nat ->
  length (fst s) = Z.to_nat ((ni + 1) * rows) -> length (snd s) = Z.to_nat ((ni + 1) * rows) ->
  let k := (ci + row * Z.to_nat (ni + 1))%nat in
  exists s', (let '(lon, lat) := s in
      let idx := Z.of_nat ci + (lo + Z.of_nat row - lo) * (ni + 1) in
      let! '(x, y) := corner_at ni nj clon clat (periodic ni clon) (Z.of_nat ci) (lo + Z.of_nat row) in
      let! lon := write lon idx x in
      let! lat := write lat idx y in
      Ok (lon, lat)) = Ok s' /\
    length (fst s') = Z.to_nat ((ni + 1) * rows) /\ length (snd s') = Z.to_nat ((ni + 1) * rows) /\
    corner_done ni nj clon clat lo k s' /\ forall k', corner_done ni nj clon clat lo k' s -> corner_done ni nj clon clat lo k' s'.
Proof.
  intros Hc Hr0 Hrow Hci Hl1 Hl2 k. destruct s as [lon lat]. cbn [fst snd] in *. pose proof Hc as (Hn & _).
  assert (Hk : Z.of_nat ci + (lo + Z.of_nat row - lo) * (ni + 1) = Z.of_nat k) by (unfold k; nia).
  assert (Hkn : (k < Z.to_nat ((ni + 1) * rows))%nat) by (unfold k; nia).
  destruct (div_mod_unique (ni + 1) (Z.of_nat row) (Z.of_nat ci)) as [Hd Hm]; [lia|lia|].
  assert (Hk' : Z.of_nat k = (ni + 1) * Z.of_nat row + Z.of_nat ci) by (unfold k; nia).
  cbn zeta. rewrite Hk, corner_at_spec by (done || lia). cbn [bind].
  destruct (mean_corner ni nj clon clat (periodic ni clon) (Z.of_nat ci) (lo + Z.of_nat row)) as [x y] eqn:Exy.
  rewrite !write_in_bounds by lia. cbn [bind]. rewrite Nat2Z.id.
  eexists. split; [done|]. cbn [fst snd]. rewrite !length_insert. do 2 (split; [done|]).
  unfold corner_done. cbn [fst snd]. split.
  - rewrite Hk', Hd, Hm, Exy. rewrite !list_lookup_insert_eq by lia. done.
  - intros k' [H1 H2]. split; apply lookup_insert_done; try done; intros <-; rewrite Hk', Hd, Hm, Exy; done.
Qed.

Definition sized (n : nat) (s : list double * list double) : Prop := length (fst s) = n /\ length (snd s) = n.

Lemma row_loop_spec ni nj clon clat lo rows row s : centers_ok ni nj clon clat -> 0 <= rows -> (row < Z.to_nat rows)%nat ->
  sized (Z.to_nat ((ni + 1) * rows)) s -> let W := Z.to_nat (ni + 1) in
  exists s', for_each (range_order W) (fun ci '(lon, lat) =>
      let idx := Z.of_nat ci + (lo + Z.of_nat row - lo) * (ni + 1) in
      let! '(x, y) := corner_at ni nj clon clat (periodic ni clon) (Z.of_nat ci) (lo + Z.of_nat row) in
      let! lon := write lon idx x in
      let! lat := write lat idx y in
      Ok (lon, lat)) s = Ok s' /\ sized (Z.to_nat ((ni + 1) * rows)) s' /\
    (forall k, (row * W <= k < (row + 1) * W)%nat -> corner_done ni nj clon clat lo k s') /\
    forall k, corner_done ni nj clon clat lo k s -> corner_done ni nj clon clat lo k s'.
Proof.
  intros Hc Hr Hrow Hs W. edestruct (for_each_keys (sized (Z.to_nat ((ni + 1) * rows))) (corner_done ni nj clon clat lo)
    (fun ci k => k = (ci + row * W)%nat) (range_order W)) as (s' & E & HP & Hd & Hk); [|exact Hs|].
  - intros ci t Hci [Ht1 Ht2]. rewrite range_order_perm in Hci. apply elem_of_seq in Hci.
    destruct (row_body_spec ni nj clon clat lo rows row ci t) as (t' & E & L1 & L2 & D & Kp); [done|lia..|done|done|].
    exists t'. split; [exact E|]. split; [done|]. split; [|done]. intros k ->. exact D.
  - exists s'. split; [exact E|]. split; [done|]. split; [|done]. intros k Hkr. apply (Hd (k - row * W)%nat).
    + rewrite range_order_perm. apply elem_of_seq. lia.
    + lia.
Qed.

Lemma corners_done ni nj clon clat lo rows s : sized (Z.to_nat ((ni + 1) * rows)) s ->
  (forall k, (k < Z.to_nat ((ni + 1) * rows))%nat -> corner_done ni nj clon clat lo k s) ->
  s = ((mean_corners ni nj clon clat lo rows).*1, (mean_corners ni nj clon clat lo rows).*2).
Proof.
  destruct s as [lon lat]. intros [Hl1 Hl2] Hall. cbn [fst snd] in *.
  f_equal; apply list_eq; intros k; rewrite !list_lookup_fmap; unfold mean_corners; rewrite list_lookup_fmap;
    (destruct (decide (k < Z.to_nat ((ni + 1) * rows))%nat) as [Hk|Hk]; [|rewrite !lookup_ge_None_2; rewrite ?length_seq; done || lia]);
    rewrite lookup_seq_lt by done; apply Hall in Hk as [K1 K2]; done.
Qed.

Lemma synthesize_rows_spec ni nj clon clat lo rows s : centers_ok ni nj clon clat -> 0 <= rows < 2 ^ 31 ->
  sized (Z.to_nat ((ni + 1) * rows)) s ->
  synthesize_corner_rows ni nj clon clat lo rows (periodic ni clon) s
  = Ok ((mean_corners ni nj clon clat lo rows).*1, (mean_corners ni nj clon clat lo rows).*2).
Proof.
  intros Hc Hr Hs. unfold synthesize_corner_rows. rewrite parallel_teams_order by lia. pose proof Hc as (Hn & _).
  set (W := Z.to_nat (ni + 1)).
  edestruct (for_each_keys (sized (Z.to_nat ((ni + 1) * rows))) (corner_done ni nj clon clat lo)
    (fun row k => row * W <= k < (row + 1) * W)%nat (range_order (Z.to_nat rows))) as (s' & E & HP & Hd & _); [|exact Hs|].
  - intros row t Hrow Ht. rewrite range_order_perm in Hrow. apply elem_of_seq in Hrow. apply row_loop_spec; [done|lia..|done].
  - transitivity (Ok s'); [exact E|]. f_equal. apply corners_done; [done|]. intros k Hk.
    pose proof (Nat.div_mod_eq k W). pose proof (Nat.mod_upper_bound k W ltac:(unfold W; lia)).
    apply (Hd (k / W)%nat); [|nia]. rewrite range_order_perm. apply elem_of_seq. split; [lia|].
    apply Nat.Div0.div_lt_upper_bound. unfold W. lia.
Qed.

Lemma zeros_sized n : sized (Z.to_nat n) (zeros n, zeros n).
Proof. unfold sized, zeros. cbn. by rewrite length_replicate. Qed.

Lemma synthesize_corners_spec g : centers_ok (ni g) (nj g) (center_lon g) (center_lat g) -> 0 < nj g -> (ni g + 1) * (nj g + 1) < 2 ^ 63 ->
  nj g + 1 < 2 ^ 31 -> let l := mean_corners (ni g) (nj g) (center_lon g) (center_lat g) 0 (nj g + 1) in
  synthesize_corners g = Ok (with_corners g l.*1 l.*2).
Proof.
  intros Hc Hj Hs Hn l. unfold synthesize_corners. rewrite (detect_periodic_spec _ (nj g) _ _ Hc Hj). cbn [bind].
  pose proof Hc as (Hi & _). rewrite to_u64_id by nia. rewrite synthesize_rows_spec; [done|done|lia|apply zeros_sized].
Qed.

(** ** Filling the mesh *)

Lemma parallel_md_order {S} n0 n1 body (s : S) : 0 <= n0 < 2 ^ 31 -> 0 <= n1 < 2 ^ 31 ->
  parallel_md n0 n1 body s = for_each (range_order (Z.to_nat (n0 * n1))) (fun k => body (Z.of_nat k mod n0) (Z.of_nat k / n0)) s.
Proof. intros H0 H1. unfold parallel_md. rewrite !cast_int_small by done. case_if; [bsimpl; lia|done]. Qed.

Lemma flat_index k n0 : 0 < n0 -> Z.of_nat k mod n0 + Z.of_nat k / n0 * n0 = Z.of_nat k.
Proof. intros Hn. pose proof (Z.div_mod (Z.of_nat k) n0 ltac:(lia)). lia. Qed.

Definition corner_coords (n : nat) (lon lat : list double) : View2 :=
  coords_view n (fun k => (value_at lon (Z.of_nat k), value_at lat (Z.of_nat k))).

Lemma fill_nodes_spec nip1 njp1 lon lat : 0 < nip1 -> 0 < njp1 -> nip1 * njp1 <= 2 ^ 31 -> nip1 < 2 ^ 31 -> njp1 < 2 ^ 31 ->
  Z.of_nat (length lon) = nip1 * njp1 -> Z.of_nat (length lat) = nip1 * njp1 ->
  let n := Z.to_nat (nip1 * njp1) in
  parallel_md nip1 njp1 (fill_node nip1 lon lat) (mkView2 n 2 (zeros (nip1 * njp1 * 2))) = Ok (corner_coords n lon lat).
Proof.
  intros H0 H1 Hs Hi Hj Hl1 Hl2 n. rewrite parallel_md_order by lia. fold n. apply coords_filled; [apply range_order_perm| |].
  - split; [|done]. unfold view_ok, zeros. cbn [cells extent0 extent1]. rewrite length_replicate. lia.
  - intros k v Hk _. unfold fill_node, put_node. rewrite flat_index, cast_int_small, !read_value_at by lia. done.
Qed.

Lemma to_nat_cell ni k : 0 < ni -> Z.of_nat (k mod Z.to_nat ni) = Z.of_nat k mod ni /\ Z.of_nat (k / Z.to_nat ni) = Z.of_nat k / ni.
Proof. intros Hn. rewrite Nat2Z.inj_mod, Nat2Z.inj_div, Z2Nat.id by lia. done. Qed.

Lemma fill_cell_eq ni nj k s : 0 < ni -> 0 < nj -> ni * nj <= 2 ^ 29 -> (k < Z.to_nat (ni * nj))%nat -> conn_sized (Z.to_nat (ni * nj)) s ->
  fill_cell ni (ni + 1) (Z.of_nat k mod ni) (Z.of_nat k / ni) s = put_cell k (grid_quad (Z.to_nat ni) k) s.
Proof.
  intros Hi Hj Hs Hk. destruct s as [offsets indices]. intros [L1 L2]. cbn [fst snd] in L1, L2.
  pose proof (Z.mod_pos_bound (Z.of_nat k) ni Hi) as Bi. pose proof (Z.div_pos (Z.of_nat k) ni ltac:(lia) Hi) as Bj.
  assert (Bj' : Z.of_nat k / ni < nj) by (apply Z.div_lt_upper_bound; lia).
  unfold fill_cell, put_cell, grid_quad. destruct (to_nat_cell ni k Hi) as [-> ->]. rewrite Z2Nat.id by lia. cbn [fst snd].
  rewrite flat_index, cast_int_small by lia. rewrite arith_ok by (cbn [imin imax]; lia). cbn [bind].
  rewrite to_u64_id by lia. rewrite !to_index_id by nia. rewrite (Z.mul_comm (Z.of_nat k) 4).
  set (i := Z.of_nat k mod ni). set (j := Z.of_nat k / ni).
  replace (i + j * (ni + 1)) with (j * (ni + 1) + i) by lia. replace (i + 1 + j * (ni + 1)) with (j * (ni + 1) + (i + 1)) by lia.
  replace (i + 1 + (j + 1) * (ni + 1)) with ((j + 1) * (ni + 1) + (i + 1)) by lia.
  by replace (i + (j + 1) * (ni + 1)) with ((j + 1) * (ni + 1) + i) by lia.
Qed.

Lemma fill_cells_spec ni nj : 0 < ni -> 0 < nj -> ni * nj <= 2 ^ 29 -> let n := Z.to_nat (ni * nj) in
  exists offsets, parallel_md ni nj (fill_cell ni (ni + 1)) (zero_indices (ni * nj + 1), zero_indices (ni * nj * 4))
    = Ok (offsets, quad_indices (grid_quad (Z.to_nat ni)) n) /\ length offsets = S n /\ <[n := 4 * Z.of_nat n]> offsets = quad_offsets n.
Proof.
  intros Hi Hj Hs n. assert (Hi' : ni < 2 ^ 31) by nia. assert (Hj' : nj < 2 ^ 31) by nia.
  rewrite parallel_md_order by lia. apply cells_filled; [apply range_order_perm|apply zero_conn_sized; lia|done|].
  intros c s Hc Hsz. by apply (fill_cell_eq ni nj).
Qed.

Lemma corners_of_length g : grid_ok g -> let '(lon, lat) := corners_of g in
  Z.of_nat (length lon) = (ni g + 1) * (nj g + 1) /\ Z.of_nat (length lat) = (ni g + 1) * (nj g + 1).
Proof.
  intros ((H0 & _) & Hj & Hc). unfold corners_of. case_decide as E.
  - rewrite !length_fmap, mean_corners_length. nia.
  - destruct Hc as [Hc|Hc]; [done|exact Hc].
Qed.

(** The sizes of a grid of at most [2^29] cells. *)
Lemma node_count_bound ni nj : 0 < ni -> 0 < nj -> ni * nj <= 2 ^ 29 -> (ni + 1) * (nj + 1) <= 2 ^ 31 /\ ni + 1 < 2 ^ 31 /\ nj + 1 < 2 ^ 31.
Proof. intros. nia. Qed.

Lemma corners_ready g : grid_ok g -> (ni g + 1) * (nj g + 1) <= 2 ^ 31 -> nj g + 1 < 2 ^ 31 ->
  (if (length (corner_lon g) =? 0)%nat then synthesize_corners g else Ok g) = Ok (with_corners g (fst (corners_of g)) (snd (corners_of g))).
Proof.
  intros (Hc & Hj & Hk) Hs Hn. unfold corners_of. destruct (corner_lon g) as [|x l] eqn:El; cbn [length Nat.eqb].
  - rewrite decide_True by done. rewrite synthesize_corners_spec by (done || lia). done.
  - rewrite decide_False by done. destruct g. cbn in *. by rewrite El.
Qed.

(** The mesh of a grid. *)
Definition grid_mesh (g : StructuredGrid) : UnstructuredMesh :=
  let n := Z.to_nat (ni g * nj g) in
  new_mesh (corner_coords (Z.to_nat ((ni g + 1) * (nj g + 1))) (fst (corners_of g)) (snd (corners_of g)))
    (quad_offsets n) (quad_indices (grid_quad (Z.to_nat (ni g))) n) (grid_coord_sys g).

Lemma to_unstructured_eval g : grid_ok g -> ni g * nj g <= 2 ^ 29 ->
  to_unstructured g = Ok (grid_mesh g, with_corners g (fst (corners_of g)) (snd (corners_of g))).
Proof.
  intros Hg Hs. pose proof Hg as ((Hi & _) & Hj & _). destruct (node_count_bound _ _ Hi Hj Hs) as (Hn & Hi' & Hj').
  pose proof (corners_of_length g Hg) as Hl. unfold to_unstructured, grid_mesh. rewrite corners_ready by done. cbn [bind].
  destruct (corners_of g) as [lon lat]. destruct Hl as [Hl1 Hl2]. cbn [fst snd with_corners ni nj corner_lon corner_lat grid_coord_sys].
  rewrite !to_u64_id by nia. rewrite fill_nodes_spec by (done || lia). cbn [bind].
  destruct (fill_cells_spec (ni g) (nj g) Hi Hj Hs) as (offsets & E' & Ho & Hw). rewrite E'. cbn [bind].
  rewrite write_in_bounds by lia. cbn [bind]. rewrite to_index_id by nia.
  replace (ni g * nj g * 4) with (4 * Z.of_nat (Z.to_nat (ni g * nj g))) by lia. by rewrite Hw.
Qed.

Lemma grid_mesh_ok g : grid_ok g -> mesh_ok (grid_mesh g) /\ n_cells (grid_mesh g) = Z.to_nat (ni g * nj g) /\
  forall c, (c < Z.to_nat (ni g * nj g))%nat -> cell_nodes (grid_mesh g) c = grid_quad (Z.to_nat (ni g)) c.
Proof.
  intros ((Hi & _) & Hj & _). apply quad_mesh_ok; [apply coords_view_shaped|done|]. intros c Hc. cbn [corner_coords coords_view extent0].
  destruct (grid_quad_range (Z.to_nat (ni g)) (Z.to_nat (nj g)) c) as [Hq1 Hq2]; [lia|nia|].
  split; [done|]. eapply list.Forall_impl; [exact Hq2|]. cbn. intros v. rewrite !Z2Nat.id by lia. lia.
Qed.

(** Corners once set are the corners of the grid. *)
Lemma corners_of_kept g : grid_ok g -> let g' := with_corners g (fst (corners_of g)) (snd (corners_of g)) in
  grid_ok g' /\ corners_of g' = corners_of g.
Proof.
  intros Hg g'. pose proof Hg as (Hc & Hj & _). pose proof Hc as (Hi & _). pose proof (corners_of_length g Hg) as Hl. unfold g'.
  destruct (corners_of g) as [lon lat]. destruct Hl as [Hl1 Hl2]. cbn [fst snd].
  split; [split; [done|split; [done|by right]]|]. unfold corners_of. cbn [with_corners corner_lon corner_lat].
  rewrite decide_False; [done|]. intros ->. cbn in Hl1. nia.
Qed.

(** Rows of the corners of the whole grid. *)
Definition slice_rows (ni j0 j1 : Z) (l : list double) : list double :=
  take (Z.to_nat ((ni + 1) * (j1 - j0 + 1))) (drop (Z.to_nat ((ni + 1) * j0)) l).

Lemma mean_corners_slice ni nj clon clat lo rows total : 0 < ni -> 0 <= lo -> 0 <= rows -> lo + rows <= total ->
  mean_corners ni nj clon clat lo rows
  = take (Z.to_nat ((ni + 1) * rows)) (drop (Z.to_nat ((ni + 1) * lo)) (mean_corners ni nj clon clat 0 total)).
Proof.
  intros Hi Hl Hr Ht. apply list_eq. intros k. destruct (decide (k < Z.to_nat ((ni + 1) * rows))%nat) as [Hk|Hk].
  - rewrite lookup_take_lt, lookup_drop by done. unfold mean_corners. rewrite !list_lookup_fmap, !lookup_seq_lt by nia.
    cbn [fmap option_fmap option_map]. do 2 f_equal.
    + cbn [Nat.add]. replace (Z.of_nat (Z.to_nat ((ni + 1) * lo) + k)) with (Z.of_nat k + lo * (ni + 1)) by lia. by rewrite Z.mod_add by lia.
    + cbn [Nat.add]. replace (Z.of_nat (Z.to_nat ((ni + 1) * lo) + k)) with (Z.of_nat k + lo * (ni + 1)) by lia. rewrite Z.div_add by lia. lia.
  - rewrite !lookup_ge_None_2; [done| |]; rewrite ?length_take, ?mean_corners_length; lia.
Qed.

Lemma fill_cell_calm ni nip1 i j s : fill_cell ni nip1 i j s = Undef \/ exists s', fill_cell ni nip1 i j s = Ok s'.
Proof.
  assert (Hw : forall l k x, write l k x = Undef \/ exists l', @write Z l k x = Ok l').
  { intros l k x. unfold write. case_match; [by left|right; eauto]. }
  destruct s as [offsets indices]. unfold fill_cell, arith. case_match; [|by left]. cbn [bind].
  destruct (Hw offsets (cast_int (i + j * ni)) (cast_int (i + j * ni) * 4)) as [->|[o ->]]; [by left|]. cbn [bind].
  unfold put_quad. set (base := to_u64 _).
  destruct (Hw indices (base + 0) (to_index (i + j * nip1))) as [->|[a ->]]; [by left|]. cbn [bind].
  destruct (Hw a (base + 1) (to_index (i + 1 + j * nip1))) as [->|[b ->]]; [by left|]. cbn [bind].
  destruct (Hw b (base + 2) (to_index (i + 1 + (j + 1) * nip1))) as [->|[c ->]]; [by left|]. cbn [bind].
  destruct (Hw c (base + 3) (to_index (i + (j + 1) * nip1))) as [->|[e ->]]; [by left|]. right. by eexists.
Qed.

Lemma fill_cells_undef ni nj s : 0 < ni -> 0 < nj -> 2 ^ 29 < ni * nj -> (ni + 1) * (nj + 1) <= 2 ^ 31 ->
  parallel_md ni nj (fill_cell ni (ni + 1)) s = Undef.
Proof.
  intros Hi Hj Hn Hs. destruct (Z_of_nat_complete (2 ^ 29)) as [big Hb]; [lia|]. rewrite parallel_md_order by nia.
  apply (for_each_undef (fun _ => True) _ _ _ big); [| | |done].
  - rewrite range_order_perm. apply elem_of_seq. lia.
  - intros t _. destruct t as [offsets indices]. unfold fill_cell. rewrite flat_index, cast_int_small, <- Hb by lia.
    rewrite arith_undef by (cbn [imin imax]; lia). done.
  - intros k t _. destruct (fill_cell_calm ni (ni + 1) (Z.of_nat k mod ni) (Z.of_nat k / ni) t) as [E|[t' E]]; [by left|right; by exists t'].
Qed.
End Rows.

(** * Properties *)

Section Properties.
Context `{!ParallelFor}.

(** C28. A grid of at most [2^29] cells becomes a well-formed mesh: one node per corner with
    its coordinates, one quadrilateral per cell whose nodes are the four corners of the cell,
    the first cell's at the south-west; corners that were not given are the means of the
    centers around them.  The grid keeps its corners and its next conversion is the same mesh. *)
Theorem to_unstructured_correct (g : StructuredGrid) : grid_ok g -> ni g * nj g <= 2 ^ 29 ->
  exists m, let g' := with_corners g (fst (corners_of g)) (snd (corners_of g)) in
    to_unstructured g = Ok (m, g') /\ to_unstructured g' = Ok (m, g') /\
    mesh_ok m /\ Z.of_nat (n_cells m) = ni g * nj g /\ Z.of_nat (n_nodes m) = (ni g + 1) * (nj g + 1) /\ coord_sys m = grid_coord_sys g /\
    (forall c, (c < n_cells m)%nat -> cell_nodes m c = grid_quad (Z.to_nat (ni g)) c) /\
    (forall k, (k < n_nodes m)%nat -> coord (node_coords m) (Z.of_nat k) 0 = value_at (fst (corners_of g)) (Z.of_nat k) /\
      coord (node_coords m) (Z.of_nat k) 1 = value_at (snd (corners_of g)) (Z.of_nat k)).
Proof.
  intros Hg Hs. pose proof Hg as ((Hi & _) & Hj & _). destruct (corners_of_kept g Hg) as [Hg' Ec]. destruct (grid_mesh_ok g Hg) as (M & N & Q).
  exists (grid_mesh g). cbn zeta. set (g' := with_corners _ _ _) in *. split; [by apply to_unstructured_eval|].
  split; [rewrite to_unstructured_eval by done; unfold grid_mesh; by rewrite Ec|]. split; [done|].
  split; [rewrite N; nia|]. split; [cbn; nia|]. split; [done|]. split; [by rewrite N|].
  intros k Hk. exact (coords_view_coord _ _ k Hk).
Qed.

(** The conversion computes four times the number of a cell as an [int]: beyond [2^29]
    cells it has no meaning, although the nodes still have [int] numbers. *)
Theorem to_unstructured_limit (g : StructuredGrid) : grid_ok g -> 2 ^ 29 < ni g * nj g -> (ni g + 1) * (nj g + 1) <= 2 ^ 31 ->
  to_unstructured g = Undef.
Proof.
  intros Hg Hn Hs. pose proof Hg as ((Hi & _) & Hj & _). unfold to_unstructured. rewrite corners_ready by (done || nia). cbn [bind].
  pose proof (corners_of_length g Hg) as Hl. destruct (corners_of g) as [lon lat]. destruct Hl as [Hl1 Hl2].
  cbn [fst snd with_corners ni nj corner_lon corner_lat].
  rewrite !to_u64_id by nia. rewrite fill_nodes_spec by (done || lia || nia). cbn [bind]. by rewrite fill_cells_undef.
Qed.

(** The corners of a band of rows are those rows of the corners of the whole grid, so two
    bands agree on the row they share. *)
Theorem band_corners_agree (g : StructuredGrid) (j0 j1 : Z) :
  centers_ok (ni g) (nj g) (center_lon g) (center_lat g) -> 0 < nj g -> (ni g + 1) * (nj g + 1) < 2 ^ 31 -> 0 <= j0 <= j1 -> j1 <= nj g ->
  exists g', synthesize_corners g = Ok g' /\
    synthesize_band_corners (ni g) (nj g) (center_lon g) (center_lat g) j0 j1
    = Ok (slice_rows (ni g) j0 j1 (corner_lon g'), slice_rows (ni g) j0 j1 (corner_lat g')).
Proof.
  intros Hc Hj Hs H0 H1. pose proof Hc as (Hi & _ & Hl1 & Hl2). eexists. split; [apply synthesize_corners_spec; (done || nia)|].
  cbn [with_corners corner_lon corner_lat]. unfold synthesize_band_corners, has_extent.
  rewrite (proj2 (Z.eqb_neq _ _)), (proj2 (Z.ltb_ge j1 j0)), (proj2 (Z.ltb_ge (nj g) j1)) by lia. cbn [throw_if bind].
  rewrite (to_u64_id (ni g * nj g)), Hl1, Hl2, Z.eqb_refl by nia. cbn [negb orb throw_if bind].
  rewrite (detect_periodic_spec _ (nj g) _ _ Hc Hj). cbn [bind]. rewrite to_u64_id by nia.
  rewrite synthesize_rows_spec; [|done|nia|apply zeros_sized].
  rewrite (mean_corners_slice _ _ _ _ j0 (j1 - j0 + 1) (nj g + 1)) by lia.
  unfold slice_rows. by rewrite !fmap_take, !fmap_drop.
Qed.
End Properties.

(** * Examples *)

#[local] Instance descending : ParallelFor.
Proof. refine {| range_order n := reverse (seq 0 n) |}. intros n. by rewrite reverse_Permutation. Defined.

(** Four columns around the equator: the seam is closed on both sides. *)
Definition ring : StructuredGrid :=
  mkGrid 4 2 (of_int <$> [0; 90; 180; 270; 0; 90; 180; 270]) (of_int <$> [-30; -30; -30; -30; 30; 30; 30; 30]) [] [] SphericalDeg.

Lemma ring_ok : grid_ok ring.
Proof. split; [by split; [|split]|]. split; [done|by left]. Qed.

Example ring_corners :
  (let! '(m, _) := to_unstructured ring in Ok ((coord (node_coords m) 0 0, coord (node_coords m) 4 0), (cell_nodes m 3, cell_nodes m 4)))
  = Ok ((of_int (-45), of_int 315), ([3; 4; 9; 8], [5; 6; 11; 10])).
Proof. vm_compute. reflexivity. Qed.

Lemma to_unstructured_correct_witness :
  exists m, to_unstructured ring = Ok (m, with_corners ring (fst (corners_of ring)) (snd (corners_of ring))) /\ mesh_ok m /\
    cell_nodes m 7 = [8; 9; 14; 13].
Proof.
  destruct (to_unstructured_correct ring ring_ok ltac:(cbn; lia)) as (m & E & _ & M & N & _ & _ & Q & _).
  exists m. split; [exact E|]. split; [exact M|]. rewrite Q; [reflexivity|]. cbn in N. lia.
Defined.

(** The outer corners lie on the outermost centers: the cells at the edge of a grid are cut
    to half, and a grid of one cell becomes a point. *)
Definition lone : StructuredGrid := mkGrid 1 1 [of_int 10] [of_int 20] [] [] SphericalDeg.

Example lone_cell_is_a_point :
  (let! '(m, _) := to_unstructured lone in Ok (cells (node_coords m))) = Ok (of_int <$> [10; 10; 10; 10; 20; 20; 20; 20]).
Proof. vm_compute. reflexivity. Qed.

(** A grid of [32768] by [16385] cells. *)
Definition fine : StructuredGrid :=
  mkGrid 32768 16385 (zeros (32768 * 16385)) (zeros (32768 * 16385)) [] [] SphericalDeg.

Lemma fine_ok : grid_ok fine.
Proof.
  assert (Hz : forall n, 0 <= n -> Z.of_nat (length (zeros n)) = n) by (intros n Hn; unfold zeros; rewrite length_replicate; lia).
  split; [split; [done|split; [done|split; apply Hz; unfold fine; cbn [ni nj]; lia]]|]. split; [done|by left].
Qed.

Lemma to_unstructured_limit_witness : grid_ok fine /\ to_unstructured fine = Undef.
Proof. split; [exact fine_ok|]. apply (to_unstructured_limit fine fine_ok); unfold fine; cbn [ni nj]; lia. Defined.

Lemma band_corners_agree_witness : exists g', synthesize_corners ring = Ok g' /\
  synthesize_band_corners 4 2 (center_lon ring) (center_lat ring) 1 2 = Ok (slice_rows 4 1 2 (corner_lon g'), slice_rows 4 1 2 (corner_lat g')).
Proof. apply (band_corners_agree ring 1 2); [apply ring_ok|done|cbn; lia|lia|done]. Defined.
