(* ===== verification/ProjectionBuilder.v ===== *)
(** * AXIS: descriptors of grids and projected grids
    (src/libs/axis/include/axis/ingest/grid_descriptor.hpp, src/topology/projection_builder.cpp)

    The plain data through which grids enter AXIS, and the builder that asks PROJ for the
    geographic coordinates of the centers of a projected grid.  PROJ is an interface, its
    objects are numbered, and the builder runs in a state that holds the live ones: an object
    that is used or destroyed when it is not live has no meaning.  AXIS is built with PROJ or
    without it ([AxisBuild]). *)
From Stdlib Require Import ZArith Lia SpecFloat.
From stdpp Require Import base list numbers strings.
From S2P Require Import Prelude CInt Blend KokkosArrays AxisMesh StructuredGrid.
Local Open Scope Z_scope.

(** ** Descriptors *)

Inductive ConventionKind : Type := CF | UGRID | GRIB | Projected | NamedGrid | GridRules.

(** A non-owning view of rank 1: an address, which may be null, and an extent.  The elements
    are those of the array the address points to. *)
Record field_view A := mkSpan { handle : option (list A); extent : nat }.
Arguments mkSpan {A} _ _.
Arguments handle {A} _.
Arguments extent {A} _.

(** One of rank 2, column by column. *)
Record field_view2 : Type := mkSpan2 { handle2 : option (list double); extent_0 : nat; extent_1 : nat }.

Definition no_view {A} : field_view A := mkSpan None 0.
Definition no_view2 : field_view2 := mkSpan2 None 0 0.

Record GribParams : Type := mkGribParams { grid_type : string; grib_ni : Z; grib_nj : Z; grib_gaussian_n : Z }.

Record GridRulesParams : Type := mkRules {
  rule_kind : string;
  min_x : double;
  max_x : double;
  min_y : double;
  max_y : double;
  r_x : double;
  r_y : double;
  gaussian_n : Z;
  rule_proj_string : string
}.

Record BufferViews : Type := mkBuffers {
  center_x : field_view double;
  center_y : field_view double;
  corner_x : field_view double;
  corner_y : field_view double;
  buf_node_coords : field_view2;
  buf_conn_offsets : field_view Z;
  buf_conn_indices : field_view Z;
  buf_cell_areas : field_view double;
  buf_cell_mask : field_view Z;
  buf_ni : Z;
  buf_nj : Z
}.

Definition no_buffers : BufferViews :=
  mkBuffers no_view no_view no_view no_view no_view2 no_view no_view no_view no_view 0 0.

(** [std::string::empty] *)
Definition is_empty (s : string) : bool := match s with EmptyString => true | _ => false end.

(** The element of a view. *)
Definition at_view {A} (v : field_view A) (i : Z) : result A :=
  match handle v with Some l => read l i | None => Undef end.

(** ** PROJ *)

Class ProjLib := {
  context_works : bool;
  crs_exists : string -> bool;
  can_normalize : string -> bool;
  (** The forward transformation from a system to [EPSG:4326], in the authority's order of
      axes or in the order longitude, latitude. *)
  proj_forward : string -> bool -> double * double -> double * double
}.

Class AxisBuild := { axis_proj : option ProjLib }.

(** Live objects, and the number of the next one. *)
Record pj_state : Type := mkPj { live : list nat; next : nat }.

Definition PJ (A : Type) : Type := pj_state -> result A * pj_state.
Definition pj_ret {A} (a : A) : PJ A := fun s => (Ok a, s).
Definition pj_throw {A} (e : exn) : PJ A := fun s => (Throw e, s).
Definition pj_bind {A B} (m : PJ A) (k : A -> PJ B) : PJ B := fun s =>
  match m s with
  | (Ok a, s') => k a s'
  | (Throw e, s') => (Throw e, s')
  | (Undef, s') => (Undef, s')
  end.
Definition pj_lift {A} (r : result A) : PJ A := fun s => (r, s).

(** A function of PROJ that makes an object or returns null. *)
Definition pj_create (works : bool) : PJ (option nat) := fun s =>
  if works then (Ok (Some (next s)), mkPj (next s :: live s) (S (next s))) else (Ok None, s).

Definition pj_destroy (o : nat) : PJ unit := fun s =>
  if decide (o ∈ live s) then (Ok tt, mkPj (filter (fun x => x <> o) (live s)) (next s)) else (Undef, s).

Definition pj_use {A} (o : nat) (a : A) : PJ A := fun s => if decide (o ∈ live s) then (Ok a, s) else (Undef, s).

Notation "'let*' x ':=' m 'in' k" := (pj_bind m (fun x => k)) (at level 10, x name, m at level 200, k at level 200) : helm_scope.
Notation "'do*' m 'then' k" := (pj_bind m (fun _ => k)) (at level 10, m at level 200, k at level 200) : helm_scope.

Section Build.
Context `{!ProjLib}.

(** The loop over the points. *)
Fixpoint transform_points (proj_string : string) (normalized ctx : nat) (visual : bool) (buffers : BufferViews) (points : list nat)
    : PJ (list (double * double)) :=
  match points with
  | [] => pj_ret []
  | i :: rest =>
      let* x := pj_lift (at_view (center_x buffers) (Z.of_nat i)) in
      let* y := pj_lift (at_view (center_y buffers) (Z.of_nat i)) in
      let* out := pj_use normalized (proj_forward proj_string visual (x, y)) in
      if SFeqb (fst out) (S754_infinity false) || SFeqb (snd out) (S754_infinity false) then
        do* pj_destroy normalized then do* pj_destroy ctx then pj_throw runtime_error
      else
        let* more := transform_points proj_string normalized ctx visual buffers rest in
        pj_ret (out :: more)
  end.

Definition build_with_proj (proj_string : string) (buffers : BufferViews) : PJ StructuredGrid :=
  do* pj_lift (throw_if (is_empty proj_string) invalid_argument) then
  do* pj_lift (throw_if ((buf_ni buffers =? 0) || (buf_nj buffers =? 0)) invalid_argument) then
  let n_points := to_u64 (buf_ni buffers * buf_nj buffers) in
  do* pj_lift (throw_if (negb (Z.of_nat (extent (center_x buffers)) =? n_points)) invalid_argument) then
  do* pj_lift (throw_if (negb (Z.of_nat (extent (center_y buffers)) =? n_points)) invalid_argument) then
  let* ctx := pj_create context_works in
  match ctx with
  | None => pj_throw runtime_error
  | Some ctx =>
      let* transform := pj_create (crs_exists proj_string) in
      match transform with
      | None => do* pj_destroy ctx then pj_throw runtime_error
      | Some transform =>
          let* visual := pj_create (can_normalize proj_string) in
          let* normalized := match visual with
            | None => pj_ret transform
            | Some n => do* pj_destroy transform then pj_ret n
            end in
          let* points := transform_points proj_string normalized ctx (match visual with Some _ => true | None => false end) buffers (seq 0 (Z.to_nat n_points)) in
          do* pj_destroy normalized then
          do* pj_destroy ctx then
          pj_lift (new_structured_grid (buf_ni buffers) (buf_nj buffers) points.*1 points.*2 SphericalDeg)
      end
  end.
End Build.

(** Built without PROJ, the builder throws. *)
Definition build_projected `{!AxisBuild} (proj_string : string) (buffers : BufferViews) : PJ StructuredGrid :=
  match axis_proj with
  | Some proj => build_with_proj proj_string buffers
  | None => pj_throw runtime_error
  end.

(** * Specification *)

(** The array behind a view, as far as the view goes. *)
Definition contents {A} (v : field_view A) : list A := match handle v with Some l => take (extent v) l | None => [] end.
Definition backed {A} (v : field_view A) : Prop := length (contents v) = extent v.

(** Buffers of a structured grid of [ni] by [nj] cells. *)
Definition centers_backed (b : BufferViews) (ni nj : Z) : Prop :=
  0 < ni /\ 0 < nj /\ ni * nj < 2 ^ 63 /\ backed (center_x b) /\ backed (center_y b) /\
  Z.of_nat (extent (center_x b)) = ni * nj /\ Z.of_nat (extent (center_y b)) = ni * nj.

Section Projection.
Context `{!ProjLib}.

Definition out_of_range_point (p : double * double) : bool :=
  SFeqb (fst p) (S754_infinity false) || SFeqb (snd p) (S754_infinity false).

(** The geographic centers. *)
Definition projected_centers (ps : string) (b : BufferViews) : list (double * double) :=
  proj_forward ps (can_normalize ps) <$> zip (contents (center_x b)) (contents (center_y b)).

(** What the builder answers. *)
Definition projection (ps : string) (b : BufferViews) : result StructuredGrid :=
  let centers := projected_centers ps b in
  if is_empty ps then Throw invalid_argument
  else if negb context_works || negb (crs_exists ps) || existsb out_of_range_point centers then Throw runtime_error
  else Ok (mkGrid (buf_ni b) (buf_nj b) centers.*1 centers.*2 [] [] SphericalDeg).

(** * Lemmas *)

Lemma at_view_contents {A} (v : field_view A) i x : contents v !! i = Some x -> at_view v (Z.of_nat i) = Ok x.
Proof.
  unfold contents, at_view. destruct (handle v) as [l|]; [|done]. intros [Hx _]%lookup_take_Some. by apply read_nat.
Qed.

Definition pj_without (o : nat) (s : pj_state) : pj_state := mkPj (filter (fun x => x <> o) (live s)) (next s).
Definition pj_fresh (s : pj_state) : pj_state := mkPj (next s :: live s) (S (next s)).

Lemma bind_ret {A B} (a : A) (k : A -> PJ B) s : pj_bind (pj_ret a) k s = k a s.
Proof. reflexivity. Qed.
Lemma bind_lift {A B} (a : A) (k : A -> PJ B) s : pj_bind (pj_lift (Ok a)) k s = k a s.
Proof. reflexivity. Qed.
Lemma bind_lift_throw {A B} e (k : A -> PJ B) s : pj_bind (pj_lift (Throw e)) k s = (Throw e, s).
Proof. reflexivity. Qed.
Lemma bind_create {B} (k : option nat -> PJ B) s : pj_bind (pj_create true) k s = k (Some (next s)) (pj_fresh s).
Proof. reflexivity. Qed.
Lemma bind_create_null {B} (k : option nat -> PJ B) s : pj_bind (pj_create false) k s = k None s.
Proof. reflexivity. Qed.
Lemma bind_destroy {B} o (k : unit -> PJ B) s : o ∈ live s -> pj_bind (pj_destroy o) k s = k tt (pj_without o s).
Proof. intros Hl. unfold pj_bind, pj_destroy. by rewrite decide_True. Qed.
Lemma bind_use {A B} o (a : A) (k : A -> PJ B) s : o ∈ live s -> pj_bind (pj_use o a) k s = k a s.
Proof. intros Hl. unfold pj_bind, pj_use. by rewrite decide_True. Qed.

(** What the rest of a computation does after one that ended. *)
Lemma bind_run {A B} (m : PJ A) (k : A -> PJ B) s r s' : m s = (r, s') ->
  pj_bind m k s = match r with Ok a => k a s' | Throw e => (Throw e, s') | Undef => (Undef, s') end.
Proof. intros E. unfold pj_bind. rewrite E. by destruct r. Qed.

Lemma live_without o o' s : o' ∈ live s -> o' <> o -> o' ∈ live (pj_without o s).
Proof. intros H1 H2. apply list_elem_of_filter. by split. Qed.

Lemma transform_points_spec ps normalized ctx visual b points s : normalized ∈ live s -> ctx ∈ live s -> ctx <> normalized ->
  (forall i, i ∈ points -> exists x y, contents (center_x b) !! i = Some x /\ contents (center_y b) !! i = Some y) ->
  let out := (fun i => proj_forward ps visual (contents (center_x b) !!! i, contents (center_y b) !!! i)) <$> points in
  transform_points ps normalized ctx visual b points s
  = if existsb out_of_range_point out then (Throw runtime_error, pj_without ctx (pj_without normalized s)) else (Ok out, s).
Proof.
  intros Hn Hc Hne. induction points as [|i points IH]; intros Hp; [done|]. cbn zeta in *.
  destruct (Hp i) as (x & y & Hx & Hy); [by left|]. cbn [fmap list_fmap existsb transform_points].
  rewrite (list_lookup_total_correct _ _ _ Hx), (list_lookup_total_correct _ _ _ Hy).
  rewrite (at_view_contents _ _ _ Hx), bind_lift, (at_view_contents _ _ _ Hy), bind_lift, bind_use by done. set (p := proj_forward _ _ _).
  change (SFeqb p.1 (S754_infinity false) || SFeqb p.2 (S754_infinity false)) with (out_of_range_point p).
  destruct (out_of_range_point p); cbn [orb].
  - rewrite bind_destroy by done. by rewrite bind_destroy by by apply live_without.
  - rewrite (bind_run _ _ _ _ _ (surjective_pairing _)). rewrite IH by (intros j Hj; apply Hp; by right). by destruct (existsb _ _).
Qed.

(** Objects made after [n] and gone again. *)
Lemma filter_fresh n (l : list nat) : Forall (fun x => x < n)%nat l -> forall o, (n <= o)%nat -> filter (fun x => x <> o) l = l.
Proof.
  induction 1 as [|x l Hx _ IH]; intros o Ho; [done|]. rewrite filter_cons, decide_True by lia. by rewrite IH.
Qed.

Lemma indices_zip {A B} `{!Inhabited A, !Inhabited B} (l1 : list A) (l2 : list B) n : length l1 = n -> length l2 = n ->
  (fun i => (l1 !!! i, l2 !!! i)) <$> seq 0 n = zip l1 l2.
Proof.
  intros H1 H2. apply list_eq. intros i. rewrite list_lookup_fmap. destruct (decide (i < n)%nat) as [Hi|Hi].
  - rewrite lookup_seq_lt by done. cbn. destruct (lookup_lt_is_Some_2 l1 i) as [x Hx]; [lia|]. destruct (lookup_lt_is_Some_2 l2 i) as [y Hy]; [lia|].
    rewrite !list_lookup_total_alt, Hx, Hy. symmetry. by apply lookup_zip_Some.
  - rewrite !lookup_ge_None_2; [done| |]; rewrite ?length_zip_with, ?length_seq; lia.
Qed.

Lemma loop_centers ps b ni nj : centers_backed b ni nj ->
  (fun i => proj_forward ps (can_normalize ps) (contents (center_x b) !!! i, contents (center_y b) !!! i)) <$> seq 0 (Z.to_nat (ni * nj))
  = projected_centers ps b.
Proof.
  intros (Hi & Hj & _ & Bx & By & Ex & Ey). unfold projected_centers. rewrite <- (indices_zip _ _ (Z.to_nat (ni * nj))) by (rewrite ?Bx, ?By; lia).
  by rewrite <- list_fmap_compose.
Qed.

Lemma projected_centers_length ps b ni nj : centers_backed b ni nj -> Z.of_nat (length (projected_centers ps b)) = ni * nj.
Proof.
  intros (Hi & Hj & _ & Bx & By & Ex & Ey). unfold projected_centers. rewrite length_fmap, length_zip_with, Bx, By. lia.
Qed.

Lemma new_grid_ok ni nj lon lat cs : 0 < ni -> 0 < nj -> ni * nj < 2 ^ 63 -> Z.of_nat (length lon) = ni * nj -> Z.of_nat (length lat) = ni * nj ->
  new_structured_grid ni nj lon lat cs = Ok (mkGrid ni nj lon lat [] [] cs).
Proof.
  intros Hi Hj Hs E1 E2. unfold new_structured_grid, has_extent. rewrite (proj2 (Z.eqb_neq ni 0)), (proj2 (Z.eqb_neq nj 0)) by lia.
  cbn [orb throw_if bind]. by rewrite to_u64_id, E1, E2, Z.eqb_refl by nia.
Qed.

(** The loop and what follows it: both objects are gone in the end. *)
Lemma finish_spec ps b normalized ctx s : centers_backed b (buf_ni b) (buf_nj b) -> normalized ∈ live s -> ctx ∈ live s -> ctx <> normalized ->
  let centers := projected_centers ps b in
  pj_bind (transform_points ps normalized ctx (can_normalize ps) b (seq 0 (Z.to_nat (buf_ni b * buf_nj b)))) (fun points =>
    do* pj_destroy normalized then
    do* pj_destroy ctx then
    pj_lift (new_structured_grid (buf_ni b) (buf_nj b) points.*1 points.*2 SphericalDeg)) s
  = (if existsb out_of_range_point centers then Throw runtime_error
     else Ok (mkGrid (buf_ni b) (buf_nj b) centers.*1 centers.*2 [] [] SphericalDeg), pj_without ctx (pj_without normalized s)).
Proof.
  intros Hb Hn Hc Hne centers. pose proof (projected_centers_length ps b _ _ Hb) as Hl. pose proof Hb as (Hi & Hj & H63 & Bx & By & Ex & Ey).
  unfold backed in *. unfold pj_bind at 1. rewrite transform_points_spec by (done || (intros i Hin%elem_of_seq;
    destruct (lookup_lt_is_Some_2 (contents (center_x b)) i) as [x Hx]; [lia|]; destruct (lookup_lt_is_Some_2 (contents (center_y b)) i) as [y Hy]; [lia|];
    by exists x, y)).
  rewrite (loop_centers _ _ _ _ Hb). fold centers. destruct (existsb _ _); [done|].
  rewrite bind_destroy by done. rewrite bind_destroy by by apply live_without.
  unfold pj_lift. by rewrite new_grid_ok by (rewrite ?length_fmap; done).
Qed.

Local Ltac is_live :=
  try apply live_without; cbn [pj_fresh live next]; rewrite ?elem_of_cons; first [lia|auto].

Local Ltac fresh_gone Hf :=
  cbn [pj_without pj_fresh live next]; rewrite !filter_cons; repeat (case_decide; try lia; rewrite ?filter_cons);
  rewrite !Hf by lia; split; [done|lia].

(** The builder with PROJ. *)
Lemma build_with_proj_spec (ps : string) (b : BufferViews) (s : pj_state) :
  centers_backed b (buf_ni b) (buf_nj b) -> Forall (fun o => o < next s)%nat (live s) ->
  exists s', build_with_proj ps b s = (projection ps b, s') /\ live s' = live s /\ (next s <= next s')%nat.
Proof.
  intros Hb Hs. pose proof Hb as (Hi & Hj & H63 & Bx & By & Ex & Ey). pose proof (filter_fresh _ _ Hs) as Hf. unfold build_with_proj, projection.
  destruct (is_empty ps); cbn [throw_if]; [by exists s|]. rewrite bind_lift.
  rewrite (proj2 (Z.eqb_neq _ _)), (proj2 (Z.eqb_neq (buf_nj b) 0)) by lia. cbn [orb throw_if]. rewrite bind_lift.
  rewrite to_u64_id, Ex, Ey, Z.eqb_refl by lia. cbn [negb throw_if]. rewrite !bind_lift.
  destruct context_works; cbn [negb orb]; [rewrite bind_create|by exists s].
  destruct (crs_exists ps) eqn:Ecrs; cbn [negb orb]; [rewrite bind_create|rewrite bind_create_null].
  2:{ rewrite bind_destroy by by left. eexists. split; [done|]. fresh_gone Hf. }
  destruct (can_normalize ps) eqn:En; [rewrite bind_create|rewrite bind_create_null].
  - rewrite (bind_run _ _ _ (Ok (S (S (next s)))) (pj_without (S (next s)) (pj_fresh (pj_fresh (pj_fresh s)))))
      by (rewrite bind_destroy; [done|is_live]).
    rewrite <- En, finish_spec by (done || is_live).
    eexists. split; [done|]. fresh_gone Hf.
  - rewrite bind_ret. rewrite <- En, finish_spec by (done || is_live).
    eexists. split; [done|]. fresh_gone Hf.
Qed.
End Projection.

(** * The builder in either build *)

Section Builds.
Context `{!AxisBuild}.

Definition projected_grid (ps : string) (b : BufferViews) : result StructuredGrid :=
  match axis_proj with Some proj => projection ps b | None => Throw runtime_error end.

Lemma build_projected_spec ps b s : centers_backed b (buf_ni b) (buf_nj b) -> Forall (fun o => o < next s)%nat (live s) ->
  exists s', build_projected ps b s = (projected_grid ps b, s') /\ live s' = live s /\ (next s <= next s')%nat.
Proof.
  intros Hb Hs. unfold build_projected, projected_grid. destruct axis_proj; [by apply build_with_proj_spec|]. by exists s.
Qed.

Lemma projected_grid_ok ps b g : centers_backed b (buf_ni b) (buf_nj b) -> projected_grid ps b = Ok g ->
  grid_ok g /\ ni g = buf_ni b /\ nj g = buf_nj b.
Proof.
  intros Hb. unfold projected_grid, projection. destruct axis_proj as [proj|]; [|done]. case_match; [done|]. case_match; [done|]. intros [= <-].
  pose proof (projected_centers_length ps b _ _ Hb) as Hl. destruct Hb as (Hi & Hj & _).
  split; [|done]. unfold grid_ok, centers_ok. cbn. rewrite !length_fmap. repeat split; (done || lia || by left).
Qed.

(** The mesh of a projected grid: from the builder through [to_unstructured]. *)
Lemma projected_mesh_spec `{!ParallelFor} ps b s : centers_backed b (buf_ni b) (buf_nj b) -> buf_ni b * buf_nj b <= 2 ^ 29 ->
  Forall (fun o => o < next s)%nat (live s) ->
  exists s', pj_bind (build_projected ps b) (fun grid => pj_lift (let! '(m, _) := to_unstructured grid in Ok m)) s
    = (let! g := projected_grid ps b in Ok (grid_mesh g), s') /\ live s' = live s /\ (next s <= next s')%nat.
Proof.
  intros Hb Hn Hs. destruct (build_projected_spec ps b s Hb Hs) as (s' & E & Hl). exists s'. split; [|done].
  rewrite (bind_run _ _ _ _ _ E). destruct (projected_grid ps b) as [g|e|] eqn:Eg; [|done..]. destruct (projected_grid_ok _ _ _ Hb Eg) as (Hg & En & Em).
  unfold pj_lift. cbn [bind]. by rewrite to_unstructured_eval by (rewrite ?En, ?Em; done).
Qed.

(** C29. A projected grid has the centers PROJ gives and is well-formed; every failure of PROJ,
    and a build without it, is an exception; and whatever the outcome the objects of PROJ that
    the call made are destroyed, once each. *)
Theorem build_projected_correct (ps : string) (b : BufferViews) (s : pj_state) :
  centers_backed b (buf_ni b) (buf_nj b) -> Forall (fun o => o < next s)%nat (live s) ->
  exists s', build_projected ps b s = (match axis_proj with Some proj => projection ps b | None => Throw runtime_error end, s') /\
    live s' = live s /\ forall g, fst (build_projected ps b s) = Ok g -> grid_ok g /\ ni g = buf_ni b /\ nj g = buf_nj b.
Proof.
  intros Hb Hs. destruct (build_projected_spec ps b s Hb Hs) as (s' & E & Hl & _). exists s'. split; [exact E|]. split; [done|].
  intros g. rewrite E. cbn [fst]. by apply projected_grid_ok.
Qed.
End Builds.

(** * Examples *)

(** A library with one system, which cannot project the origin. *)
Definition demo_proj : ProjLib := {|
  context_works := true;
  crs_exists ps := String.eqb ps "+proj=lcc";
  can_normalize _ := true;
  proj_forward _ _ p := if SFeqb (fst p) dzero then (S754_infinity false, S754_infinity false) else p
|}.

Definition demo_buffers (x : double) : BufferViews :=
  mkBuffers (mkSpan (Some [x; of_int 2]) 2) (mkSpan (Some [one; one]) 2) no_view no_view no_view2 no_view no_view no_view no_view 2 1.

Lemma demo_backed x : centers_backed (demo_buffers x) 2 1.
Proof. by repeat split. Qed.

Lemma build_projected_correct_witness : let _ := Build_AxisBuild (Some demo_proj) in
  exists s', fst (build_projected "+proj=lcc" (demo_buffers dzero) (mkPj [] 0)) = Throw runtime_error /\ live s' = [] /\
    snd (build_projected "+proj=lcc" (demo_buffers dzero) (mkPj [] 0)) = s'.
Proof.
  intros B. destruct (build_projected_correct "+proj=lcc" (demo_buffers dzero) (mkPj [] 0) (demo_backed dzero) (Forall_nil_2 _)) as (s' & E & Hl & _).
  exists s'. rewrite E. split; [by vm_compute|]. by split.
Defined.
