(* ===== verification/Magnitude.v ===== *)
(** * Magnitudes of doubles

    A positive double with mantissa [m] and exponent [e] is below [2 ^ k], where [k], its
    magnitude, is [e] plus the number of binary digits of [m].  Rounding adds at most one,
    so magnitudes bound what a few operations give.  This is what the code that turns
    doubles into indices needs. *)
From Stdlib Require Import ZArith Lia SpecFloat.
From stdpp Require Import base list numbers.
From S2P Require Import Prelude CInt Blend KokkosArrays AxisMesh.
Local Open Scope Z_scope.

(** [std::floor] as an integer. *)
Definition floorZ (x : double) : option Z :=
  match x with
  | S754_zero _ => Some 0
  | S754_finite s m e =>
      let z := if s then Zneg m else Zpos m in
      Some (if 0 <=? e then z * 2 ^ e else z / 2 ^ (- e))
  | _ => None
  end.

(** [std::floor] *)
Definition dfloor (x : double) : double :=
  match x with S754_finite _ _ _ => match floorZ x with Some z => of_int z | None => x end | _ => x end.

(** [static_cast<int>(std::floor(x))]: no meaning unless the floor is an [int]. *)
Definition floor_int (x : double) : result Z := match floorZ x with Some z => arith I32 z | None => Undef end.

(** [std::round]: to the nearest integer, halves away from zero. *)
Definition roundZ (x : double) : option Z :=
  match x with
  | S754_zero _ => Some 0
  | S754_finite s m e =>
      let a := if 0 <=? e then Zpos m * 2 ^ e else (2 * Zpos m + 2 ^ (- e)) / 2 ^ (1 - e) in
      Some (if s then - a else a)
  | _ => None
  end.

Definition dround (x : double) : double :=
  match x with
  | S754_finite s _ _ => match roundZ x with Some z => if z =? 0 then S754_zero s else of_int z | None => x end
  | _ => x
  end.

(** [static_cast<std::int64_t>(std::round(x))] *)
Definition round_index (x : double) : result Z := match roundZ x with Some z => arith I64 z | None => Undef end.

(** ** Digits *)

Lemma digits2_log2 p : Zpos (digits2_pos p) = Z.log2 (Zpos p) + 1.
Proof.
  induction p as [p IH|p IH|]; cbn [digits2_pos]; [| |done].
  - rewrite Pos2Z.inj_succ, IH, Pos2Z.inj_xI, Z.log2_succ_double by lia. lia.
  - rewrite Pos2Z.inj_succ, IH, Pos2Z.inj_xO, Z.log2_double by lia. lia.
Qed.

Lemma Zdigits2_log2 m : 0 < m -> Zdigits2 m = Z.log2 m + 1.
Proof. destruct m as [|p|p]; [lia| |lia]. intros _. apply digits2_log2. Qed.

Lemma Zdigits2_bounds m : 0 < m -> 0 < Zdigits2 m /\ 2 ^ (Zdigits2 m - 1) <= m < 2 ^ Zdigits2 m.
Proof.
  intros Hm. rewrite Zdigits2_log2 by done. pose proof (Z.log2_nonneg m). pose proof (Z.log2_spec m Hm) as [H1 H2].
  split; [lia|]. replace (Z.log2 m + 1 - 1) with (Z.log2 m) by lia. rewrite <- Z.add_1_r in H2. done.
Qed.

Lemma Zdigits2_unique m d : 0 < d -> 2 ^ (d - 1) <= m < 2 ^ d -> Zdigits2 m = d.
Proof.
  intros Hd Hm. assert (0 < m) by (pose proof (Z.pow_pos_nonneg 2 (d - 1)); lia). rewrite Zdigits2_log2 by done.
  rewrite (Z.log2_unique m (d - 1)); [lia|lia|]. replace (Z.succ (d - 1)) with d by lia. done.
Qed.

Lemma Zdigits2_succ m : 0 < m -> Zdigits2 m <= Zdigits2 (m + 1) <= Zdigits2 m + 1.
Proof.
  intros Hm. rewrite !Zdigits2_log2 by lia. pose proof (Z.log2_le_mono m (m + 1)). pose proof (Z.log2_succ_le m). unfold Z.succ in *. lia.
Qed.

Lemma iter_xO p q : Zpos (Pos.iter xO p q) = Zpos p * 2 ^ Zpos q.
Proof.
  rewrite <- Z.shiftl_mul_pow2 by lia. unfold Z.shiftl. revert p. induction q using Pos.peano_ind; intros p; [done|].
  rewrite !Pos.iter_succ. specialize (IHq p). rewrite Pos2Z.inj_xO, IHq. done.
Qed.

(** ** Rounding *)

Lemma shr_1_half mrs : 0 <= shr_m mrs -> shr_m (shr_1 mrs) = shr_m mrs / 2.
Proof.
  destruct mrs as [[|[p|p|]|p] r s]; cbn [shr_m shr_1]; intros Hm; [done| | |done|lia].
  - rewrite Pos2Z.inj_xI. apply (Z.div_unique _ _ _ 1); lia.
  - rewrite Pos2Z.inj_xO. apply (Z.div_unique _ _ _ 0); lia.
Qed.

Lemma iter_shr p mrs : 0 <= shr_m mrs -> shr_m (SpecFloat.iter_pos shr_1 p mrs) = shr_m mrs / 2 ^ Zpos p.
Proof.
  revert mrs. induction p as [p IH|p IH|]; intros mrs Hm; cbn [SpecFloat.iter_pos].
  - assert (Hm1 : 0 <= shr_m (shr_1 mrs)) by (rewrite shr_1_half by done; apply Z.div_pos; lia).
    assert (Hm2 : 0 <= shr_m (SpecFloat.iter_pos shr_1 p (shr_1 mrs))) by (rewrite IH by done; apply Z.div_pos; lia).
    rewrite IH, IH, shr_1_half by done. rewrite !Z.div_div by lia. f_equal.
    replace (Z.pos p~1) with (1 + (Z.pos p + Z.pos p)) by lia. rewrite !Z.pow_add_r by lia. ring.
  - assert (Hm2 : 0 <= shr_m (SpecFloat.iter_pos shr_1 p mrs)) by (rewrite IH by done; apply Z.div_pos; lia).
    rewrite IH, IH by done. rewrite Z.div_div by lia. f_equal.
    replace (Z.pos p~0) with (Z.pos p + Z.pos p) by lia. rewrite Z.pow_add_r by lia. lia.
  - by apply shr_1_half.
Qed.

Lemma shr_fexp_digits m e l : 0 < m -> -1074 < Zdigits2 m + e ->
  let '(mrs, e') := shr_fexp 53 1024 m e l in 0 < shr_m mrs /\ Zdigits2 (shr_m mrs) + e' = Zdigits2 m + e.
Proof.
  intros Hm He. destruct (Zdigits2_bounds m Hm) as [Hd Hb]. set (d := Zdigits2 m) in *.
  assert (Hr : shr_m (shr_record_of_loc m l) = m) by by destruct l as [|[]].
  unfold shr_fexp, shr. fold d. unfold fexp. change (emin 53 1024) with (-1074). destruct (Z.max (d + e - 53) (-1074) - e) as [|p|p] eqn:En;
    [by rewrite Hr| |by rewrite Hr].
  rewrite iter_shr, Hr by lia. assert (Hp : Zpos p < d) by lia.
  assert (Hq : 2 ^ (d - Zpos p - 1) <= m / 2 ^ Zpos p < 2 ^ (d - Zpos p)).
  { split; [apply Z.div_le_lower_bound; [lia|]|apply Z.div_lt_upper_bound; [lia|]]; rewrite <- Z.pow_add_r by lia.
    - replace (Z.pos p + (d - Z.pos p - 1)) with (d - 1) by lia. lia.
    - replace (Z.pos p + (d - Z.pos p)) with d by lia. lia. }
  split; [pose proof (Z.pow_pos_nonneg 2 (d - Zpos p - 1)); lia|]. rewrite (Zdigits2_unique _ (d - Zpos p)) by lia. lia.
Qed.

(** A positive double of a magnitude. *)
Definition has_mag (x : double) (k : Z) : Prop := exists m e, x = S754_finite false m e /\ Zdigits2 (Zpos m) + e = k.

Lemma round_mag m e l : 0 < m -> -1074 < Zdigits2 m + e <= 970 ->
  exists k, has_mag (binary_round_aux 53 1024 false m e l) k /\ Zdigits2 m + e <= k <= Zdigits2 m + e + 1.
Proof.
  intros Hm He. unfold binary_round_aux. pose proof (shr_fexp_digits m e l Hm ltac:(lia)) as H1.
  destruct (shr_fexp 53 1024 m e l) as [r1 e1]. destruct H1 as [P1 D1]. set (m1 := round_nearest_even (shr_m r1) (loc_of_shr_record r1)).
  assert (Hm1 : m1 = shr_m r1 \/ m1 = shr_m r1 + 1).
  { unfold m1, round_nearest_even. destruct (loc_of_shr_record r1) as [|[]]; auto. destruct (Z.even _); auto. }
  assert (Hd1 : 0 < m1 /\ Zdigits2 m + e <= Zdigits2 m1 + e1 <= Zdigits2 m + e + 1).
  { pose proof (Zdigits2_succ (shr_m r1) P1). destruct Hm1 as [->| ->]; lia. }
  pose proof (shr_fexp_digits m1 e1 loc_Exact ltac:(lia) ltac:(lia)) as H2. destruct (shr_fexp 53 1024 m1 e1 loc_Exact) as [r2 e2].
  destruct H2 as [P2 D2]. destruct (Zdigits2_bounds _ P2) as [Hd2 _]. destruct (shr_m r2) as [|p|p]; [lia| |lia].
  rewrite (proj2 (Z.leb_le _ _)) by lia. exists (Zdigits2 m1 + e1). split; [by exists p, e2|lia].
Qed.

(** ** Operations *)

Lemma of_int_mag z : 0 < z < 2 ^ 900 -> exists k, has_mag (of_int z) k /\ Zdigits2 z <= k <= Zdigits2 z + 1.
Proof.
  intros Hz. destruct z as [|p|p]; [lia| |lia]. unfold of_int, binary_normalize, binary_round.
  assert (Hd : Zdigits2 (Zpos p) <= 900).
  { destruct (Zdigits2_bounds (Zpos p) ltac:(lia)) as [H0 [H1 _]]. apply Z.nlt_ge. intros Hlt.
    pose proof (Z.pow_le_mono_r 2 900 (Zdigits2 (Zpos p) - 1)). lia. }
  change (Z.pos (digits2_pos p)) with (Zdigits2 (Zpos p)). unfold shl_align.
  destruct (fexp 53 1024 (Zdigits2 (Z.pos p) + 0) - 0) as [|q|q] eqn:Eq.
  - destruct (round_mag (Zpos p) 0 loc_Exact) as (k & Hk & B); [lia|cbn [Zdigits2] in *; lia|]. exists k. split; [done|]. lia.
  - destruct (round_mag (Zpos p) 0 loc_Exact) as (k & Hk & B); [lia|cbn [Zdigits2] in *; lia|]. exists k. split; [done|]. lia.
  - set (e' := fexp 53 1024 _) in *. pose proof (iter_xO p q) as Hm.
    assert (Hdd : Zdigits2 (Zpos (Pos.iter xO p q)) = Zdigits2 (Zpos p) + Zpos q).
    { destruct (Zdigits2_bounds (Zpos p) ltac:(lia)) as [H0 H1]. apply Zdigits2_unique; [lia|]. rewrite Hm.
      replace (Zdigits2 (Z.pos p) + Z.pos q - 1) with (Zdigits2 (Z.pos p) - 1 + Z.pos q) by lia. rewrite !Z.pow_add_r by lia. nia. }
    assert (He' : e' = - Zpos q) by lia.
    destruct (round_mag (Zpos (Pos.iter xO p q)) e' loc_Exact) as (k & Hk & B); [lia|rewrite Hdd, He'; pose proof (Zdigits2_bounds (Zpos p) ltac:(lia)); lia|].
    exists k. split; [done|]. rewrite Hdd, He' in B. lia.
Qed.

Lemma mul_mag x y k1 k2 : has_mag x k1 -> has_mag y k2 -> -1000 < k1 + k2 <= 970 ->
  exists k, has_mag (dmul x y) k /\ k1 + k2 - 1 <= k <= k1 + k2 + 1.
Proof.
  intros (m1 & e1 & -> & H1) (m2 & e2 & -> & H2) Hk. unfold dmul, SFmul. cbn [xorb].
  destruct (Zdigits2_bounds (Zpos m1) ltac:(lia)) as [P1 B1]. destruct (Zdigits2_bounds (Zpos m2) ltac:(lia)) as [P2 B2].
  set (d1 := Zdigits2 (Zpos m1)) in *. set (d2 := Zdigits2 (Zpos m2)) in *.
  assert (Hd : d1 + d2 - 1 <= Zdigits2 (Zpos (m1 * m2)) <= d1 + d2).
  { destruct (Zdigits2_bounds (Zpos (m1 * m2)) ltac:(lia)) as [P B]. rewrite Pos2Z.inj_mul in B |- *.
    assert (L1 : 2 ^ (d1 + d2 - 2) <= Zpos m1 * Zpos m2).
    { replace (d1 + d2 - 2) with (d1 - 1 + (d2 - 1)) by lia. rewrite Z.pow_add_r by lia. apply Z.mul_le_mono_nonneg; lia. }
    assert (L2 : Zpos m1 * Zpos m2 < 2 ^ (d1 + d2)) by (rewrite Z.pow_add_r by lia; apply Z.mul_lt_mono_nonneg; lia).
    split; apply Z.nlt_ge; intros Hlt; [pose proof (Z.pow_le_mono_r 2 (Zdigits2 (Z.pos m1 * Z.pos m2)) (d1 + d2 - 2)); lia|].
    pose proof (Z.pow_le_mono_r 2 (d1 + d2) (Zdigits2 (Z.pos m1 * Z.pos m2) - 1)). lia. }
  destruct (round_mag (Zpos (m1 * m2)) (e1 + e2) loc_Exact) as (k & Hk' & B); [lia|lia|]. exists k. split; [done|lia].
Qed.

Lemma div_mag x y k1 k2 : has_mag x k1 -> has_mag y k2 -> -1000 < k1 - k2 <= 900 ->
  exists k, has_mag (ddiv x y) k /\ k1 - k2 <= k <= k1 - k2 + 2.
Proof.
  intros (m1 & e1 & -> & H1) (m2 & e2 & -> & H2) Hk. unfold ddiv, SFdiv, SFdiv_core_binary. cbn [xorb].
  destruct (Zdigits2_bounds (Zpos m1) ltac:(lia)) as [P1 B1]. destruct (Zdigits2_bounds (Zpos m2) ltac:(lia)) as [P2 B2].
  set (d1 := Zdigits2 (Zpos m1)) in *. set (d2 := Zdigits2 (Zpos m2)) in *.
  set (e' := Z.min (fexp 53 1024 (d1 + e1 - (d2 + e2))) (e1 - e2)). set (s := e1 - e2 - e').
  assert (Hs : 0 <= s /\ d2 - d1 + 53 <= s).
  { unfold s, e', fexp. change (emin 53 1024) with (-1074). lia. }
  assert (Hm' : (match s with Zpos _ => Z.shiftl (Zpos m1) s | Z0 => Zpos m1 | Zneg _ => 0 end) = Zpos m1 * 2 ^ s).
  { destruct s as [|p|p]; [lia|by rewrite Z.shiftl_mul_pow2 by lia|lia]. }
  rewrite Hm'. pose proof (Z.div_eucl_eq (Zpos m1 * 2 ^ s) (Zpos m2) ltac:(lia)) as Eq.
  pose proof (Z.mod_pos_bound (Zpos m1 * 2 ^ s) (Zpos m2) ltac:(lia)) as Hr. unfold Z.modulo in Hr.
  destruct (Z.div_eucl (Zpos m1 * 2 ^ s) (Zpos m2)) as [q r].
  assert (Hq : 2 ^ (d1 + s - d2 - 1) <= q < 2 ^ (d1 + s - d2 + 1)).
  { assert (N1 : 2 ^ (d1 - 1 + s) <= Zpos m1 * 2 ^ s < 2 ^ (d1 + s)) by (rewrite !Z.pow_add_r by lia; nia).
    split.
    - assert (Hx : 2 ^ (d1 - 1 + s) = 2 ^ (d1 + s - d2 - 1) * 2 ^ d2) by (rewrite <- Z.pow_add_r by lia; f_equal; lia).
      apply Z.lt_succ_r. apply (Z.mul_lt_mono_pos_l (Zpos m2)); [lia|]. pose proof (Z.pow_pos_nonneg 2 (d1 + s - d2 - 1)). nia.
    - assert (Hx : 2 ^ (d1 + s) = 2 ^ (d1 + s - d2 + 1) * 2 ^ (d2 - 1)) by (rewrite <- Z.pow_add_r by lia; f_equal; lia).
      apply (Z.mul_lt_mono_pos_l (Zpos m2)); [lia|]. pose proof (Z.pow_pos_nonneg 2 (d1 + s - d2 + 1)). nia. }
  assert (Hq0 : 0 < q) by (pose proof (Z.pow_pos_nonneg 2 (d1 + s - d2 - 1)); lia).
  assert (Hd : d1 + s - d2 <= Zdigits2 q <= d1 + s - d2 + 1).
  { destruct (Zdigits2_bounds q Hq0) as [P B]. split; apply Z.nlt_ge; intros Hlt.
    - pose proof (Z.pow_le_mono_r 2 (Zdigits2 q) (d1 + s - d2 - 1)). lia.
    - pose proof (Z.pow_le_mono_r 2 (d1 + s - d2 + 1) (Zdigits2 q - 1)). lia. }
  destruct (round_mag q e' (new_location (Zpos m2) r)) as (k & Hk' & B); [done|unfold s in *; lia|].
  exists k. split; [done|]. unfold s in *. lia.
Qed.

(** The floor of a double of magnitude [k]. *)
Lemma floor_mag x k : has_mag x k -> exists z, floorZ x = Some z /\ 0 <= z < 2 ^ Z.max k 0.
Proof.
  intros (m & e & -> & <-). destruct (Zdigits2_bounds (Zpos m) ltac:(lia)) as [Hd [_ Hm]]. set (d := Zdigits2 (Zpos m)) in *.
  eexists. split; [reflexivity|]. destruct (Z.leb_spec 0 e) as [He|He].
  - rewrite Z.max_l, Z.pow_add_r by lia. nia.
  - split; [apply Z.div_pos; lia|]. apply Z.div_lt_upper_bound; [lia|]. rewrite <- Z.pow_add_r by lia.
    eapply Z.lt_le_trans; [exact Hm|]. apply Z.pow_le_mono_r; lia.
Qed.

(** ** Normal numbers *)

(** A positive number with a mantissa of 53 digits, below [2 ^ k] and at least half of it. *)
Definition normal (x : double) (k : Z) : Prop := exists m, x = S754_finite false m (k - 53) /\ Zdigits2 (Zpos m) = 53.

Lemma shr_fexp_normal m e l : 0 < m -> -1000 < Zdigits2 m + e -> 53 <= Zdigits2 m ->
  let '(r, f) := shr_fexp 53 1024 m e l in 0 < shr_m r /\ Zdigits2 (shr_m r) = 53 /\ f = Zdigits2 m + e - 53.
Proof.
  intros Hm He Hd. pose proof (shr_fexp_digits m e l Hm ltac:(lia)) as H. revert H. unfold shr_fexp, shr, fexp. change (emin 53 1024) with (-1074).
  replace (Z.max (Zdigits2 m + e - 53) (-1074)) with (Zdigits2 m + e - 53) by lia.
  assert (Hr : shr_m (shr_record_of_loc m l) = m) by by destruct l as [|[]].
  destruct (Zdigits2 m + e - 53 - e) as [|p|p] eqn:Ep; rewrite ?Hr; intros [H1 H2]; [lia| |lia]. cbn [shr_m] in *. lia.
Qed.

(** A positive number is rounded to a normal one. *)
Lemma normalize_normal z e b : 0 < z -> -1000 < Zdigits2 z + e <= 900 ->
  exists k, normal (binary_normalize 53 1024 z e b) k /\ Zdigits2 z + e <= k <= Zdigits2 z + e + 1.
Proof.
  intros Hz He. destruct z as [|p|p]; [lia| |lia]. cbn [binary_normalize]. unfold binary_round. set (d := Zdigits2 (Zpos p)) in *.
  assert (Ha : exists m f, shl_align p e (fexp 53 1024 (Z.pos (digits2_pos p) + e)) = (m, f) /\ Zdigits2 (Zpos m) + f = d + e /\ 53 <= Zdigits2 (Zpos m)).
  { change (Zpos (digits2_pos p)) with d. unfold shl_align, fexp. change (emin 53 1024) with (-1074).
    replace (Z.max (d + e - 53) (-1074)) with (d + e - 53) by lia. destruct (d + e - 53 - e) as [|q|q] eqn:Eq; [exists p, e; split; [done|fold d; lia]|exists p, e; split; [done|fold d; lia]|].
    exists (Pos.iter xO p q), (d + e - 53). split; [done|]. assert (Hd : Zdigits2 (Zpos (Pos.iter xO p q)) = d + Zpos q); [|lia].
    destruct (Zdigits2_bounds (Zpos p) ltac:(lia)) as [H0 H1]. fold d in H0, H1. apply Zdigits2_unique; [lia|]. rewrite iter_xO.
    replace (d + Z.pos q - 1) with (d - 1 + Z.pos q) by lia. rewrite !Z.pow_add_r by lia. nia. }
  destruct Ha as (m & f & -> & Hs & Hd). unfold binary_round_aux. pose proof (shr_fexp_normal (Zpos m) f loc_Exact ltac:(lia) ltac:(lia) Hd) as H1.
  destruct (shr_fexp 53 1024 (Zpos m) f loc_Exact) as [r1 e1]. destruct H1 as (P1 & D1 & E1). set (m1 := round_nearest_even _ _).
  assert (Hm1 : m1 = shr_m r1 \/ m1 = shr_m r1 + 1).
  { unfold m1, round_nearest_even. destruct (loc_of_shr_record r1) as [|[]]; auto. destruct (Z.even _); auto. }
  assert (Hd1 : 0 < m1 /\ 53 <= Zdigits2 m1 <= 54) by (pose proof (Zdigits2_succ (shr_m r1) P1); destruct Hm1 as [->| ->]; lia).
  pose proof (shr_fexp_normal m1 e1 loc_Exact ltac:(lia) ltac:(lia) ltac:(lia)) as H2. destruct (shr_fexp 53 1024 m1 e1 loc_Exact) as [r2 e2].
  destruct H2 as (P2 & D2 & E2). destruct (shr_m r2) as [|q|q]; [lia| |lia]. rewrite (proj2 (Z.leb_le _ _)) by lia.
  exists (e2 + 53). split; [|lia]. exists q. split; [f_equal; lia|done].
Qed.

(** ** Exact operations *)

Lemma iter_shr_exact p m : 0 <= m ->
  SpecFloat.iter_pos shr_1 p (Build_shr_record (m * 2 ^ Zpos p) false false) = Build_shr_record m false false.
Proof.
  assert (H1 : forall k, 0 <= k -> shr_1 (Build_shr_record (k * 2) false false) = Build_shr_record k false false).
  { intros k Hk. destruct k as [|q|q]; [done| |lia]. replace (Zpos q * 2) with (Zpos q~0) by lia. done. }
  revert m. induction p as [p IH|p IH|]; intros m Hm; cbn [SpecFloat.iter_pos].
  - replace (m * 2 ^ Z.pos p~1) with (m * 2 ^ Zpos p * 2 ^ Zpos p * 2).
    + rewrite H1 by (pose proof (Z.pow_pos_nonneg 2 (Zpos p)); nia). rewrite IH by (pose proof (Z.pow_pos_nonneg 2 (Zpos p)); nia). by apply IH.
    + replace (Z.pos p~1) with (Z.pos p + Z.pos p + 1) by lia. rewrite !Z.pow_add_r by lia. ring.
  - replace (m * 2 ^ Z.pos p~0) with (m * 2 ^ Zpos p * 2 ^ Zpos p).
    + rewrite IH by (pose proof (Z.pow_pos_nonneg 2 (Zpos p)); nia). by apply IH.
    + replace (Z.pos p~0) with (Z.pos p + Z.pos p) by lia. rewrite !Z.pow_add_r by lia. ring.
  - rewrite Z.pow_1_r. by apply H1.
Qed.

(** A mantissa of 53 digits followed by zeros is not rounded. *)
Lemma round_exact_signed s m p e : Zdigits2 (Zpos m) = 53 -> 0 <= p -> -1074 <= e + p <= 971 ->
  binary_round_aux 53 1024 s (Zpos m * 2 ^ p) e loc_Exact = S754_finite s m (e + p).
Proof.
  intros Hm Hp He. destruct (Zdigits2_bounds (Zpos m) ltac:(lia)) as [_ Hb]. rewrite Hm in Hb.
  assert (Hd : Zdigits2 (Zpos m * 2 ^ p) = 53 + p).
  { apply Zdigits2_unique; [lia|]. replace (53 + p - 1) with (53 - 1 + p) by lia. rewrite !Z.pow_add_r by lia. nia. }
  assert (H1 : shr_fexp 53 1024 (Zpos m * 2 ^ p) e loc_Exact = (Build_shr_record (Zpos m) false false, e + p)).
  { unfold shr_fexp, shr. rewrite Hd. unfold fexp. change (emin 53 1024) with (-1074).
    replace (Z.max (53 + p + e - 53) (-1074) - e) with p by lia. destruct p as [|q|q]; [by rewrite Z.add_0_r, Z.mul_1_r| |lia].
    cbn [shr_record_of_loc]. by rewrite iter_shr_exact by lia. }
  unfold binary_round_aux. rewrite H1. cbn [loc_of_shr_record shr_m]. cbn [round_nearest_even].
  assert (H2 : shr_fexp 53 1024 (Zpos m) (e + p) loc_Exact = (Build_shr_record (Zpos m) false false, e + p)).
  { unfold shr_fexp, shr. rewrite Hm. unfold fexp. change (emin 53 1024) with (-1074).
    replace (Z.max (53 + (e + p) - 53) (-1074) - (e + p)) with 0 by lia. done. }
  rewrite H2. cbn [shr_m]. by rewrite (proj2 (Z.leb_le _ _)) by lia.
Qed.

Lemma round_exact m p e : Zdigits2 (Zpos m) = 53 -> 0 <= p -> -1074 <= e + p <= 971 ->
  binary_round_aux 53 1024 false (Zpos m * 2 ^ p) e loc_Exact = S754_finite false m (e + p).
Proof. apply round_exact_signed. Qed.

(** An integer of at most 53 digits. *)
Lemma of_int_exact z : 0 < z < 2 ^ 53 -> exists m e, of_int z = S754_finite false m e /\ Zdigits2 (Zpos m) = 53 /\
  -53 < e <= 0 /\ Zpos m = z * 2 ^ (- e).
Proof.
  intros Hz. destruct z as [|p|p]; [lia| |lia]. destruct (Zdigits2_bounds (Zpos p) ltac:(lia)) as [Hd Hb].
  set (d := Zdigits2 (Zpos p)) in *. assert (Hd53 : d <= 53).
  { apply Z.nlt_ge. intros Hlt. pose proof (Z.pow_le_mono_r 2 53 (d - 1)). lia. }
  set (m := Z.to_pos (Zpos p * 2 ^ (53 - d))). assert (Hm : Zpos m = Zpos p * 2 ^ (53 - d)) by (unfold m; rewrite Z2Pos.id; [done|]; pose proof (Z.pow_pos_nonneg 2 (53 - d)); nia).
  assert (Hdm : Zdigits2 (Zpos m) = 53).
  { apply Zdigits2_unique; [lia|]. rewrite Hm.
    assert (E1 : 2 ^ 53 = 2 ^ d * 2 ^ (53 - d)) by (rewrite <- Z.pow_add_r by lia; f_equal; lia).
    assert (E2 : 2 ^ (53 - 1) = 2 ^ (d - 1) * 2 ^ (53 - d)) by (rewrite <- Z.pow_add_r by lia; f_equal; lia).
    rewrite E1, E2. pose proof (Z.pow_pos_nonneg 2 (53 - d)). nia. }
  exists m, (d - 53). split; [|split; [done|split; [lia|rewrite Hm; do 2 f_equal; lia]]].
  unfold of_int, binary_normalize, binary_round. change (Z.pos (digits2_pos p)) with d. unfold shl_align, fexp. change (emin 53 1024) with (-1074).
  replace (Z.max (d + 0 - 53) (-1074)) with (d - 53) by lia. rewrite Z.sub_0_r.
  destruct (d - 53) as [|q|q] eqn:Eq; [|lia|].
  - pose proof (round_exact m 0 0 Hdm ltac:(lia) ltac:(lia)) as E. cbn in E. rewrite Z.mul_1_r in E. rewrite Hm in E.
    replace (53 - d) with 0 in E by lia. by rewrite Z.mul_1_r in E.
  - assert (Hs : Zpos (Pos.iter xO p q) = Zpos m).
    { rewrite Hm, iter_xO. do 2 f_equal. lia. }
    pose proof (round_exact m 0 (Zneg q) Hdm ltac:(lia) ltac:(lia)) as E. rewrite Z.mul_1_r, Z.add_0_r in E. by rewrite <- Hs in E at 1.
Qed.

Lemma of_int_floor z : 0 <= z < 2 ^ 53 -> floorZ (of_int z) = Some z.
Proof.
  intros Hz. destruct (decide (z = 0)) as [->|Hne]; [done|]. destruct (of_int_exact z) as (m & e & -> & _ & He & Hm); [lia|]. cbn [floorZ].
  destruct (Z.leb_spec 0 e); f_equal.
  - replace e with 0 in * by lia. rewrite Z.mul_1_r in *. done.
  - rewrite Hm. apply Z.div_mul. pose proof (Z.pow_pos_nonneg 2 (- e)). lia.
Qed.

Lemma div_eucl_exact m K : Z.div_eucl (Zpos m * K) (Zpos m) = (K, 0).
Proof.
  pose proof (Z.div_eucl_eq (Zpos m * K) (Zpos m) ltac:(lia)) as Eq. pose proof (Z.mod_pos_bound (Zpos m * K) (Zpos m) ltac:(lia)) as Hr.
  unfold Z.modulo in Hr. destruct (Z.div_eucl (Zpos m * K) (Zpos m)) as [q r]. assert (K = q) by nia. subst. f_equal. lia.
Qed.

Lemma div_self m e : ddiv (S754_finite false m e) (S754_finite false m e) = one.
Proof.
  unfold ddiv, SFdiv, SFdiv_core_binary. cbn [xorb]. set (d := Zdigits2 (Zpos m)). rewrite !Z.sub_diag.
  change (Z.min (fexp 53 1024 0) 0) with (-53). replace (0 - -53) with 53 by lia. cbv iota. rewrite Z.shiftl_mul_pow2 by lia.
  rewrite div_eucl_exact. unfold new_location, new_location_even, new_location_odd. by destruct (Z.even (Zpos m)).
Qed.

Lemma mul_one z : 0 < z < 2 ^ 53 -> dmul one (of_int z) = of_int z.
Proof.
  intros Hz. destruct (of_int_exact z Hz) as (m & e & -> & Hd & He & _). unfold dmul, SFmul, one. cbn [xorb].
  rewrite Pos2Z.inj_mul. change 4503599627370496%positive with (Z.to_pos (2 ^ 52)). rewrite Z2Pos.id by lia. rewrite Z.mul_comm.
  rewrite round_exact by lia. f_equal. lia.
Qed.

(** Dividing a number of 53 digits by one. *)
Lemma div_one s m e : Zdigits2 (Zpos m) = 53 -> -1073 <= e <= 971 -> ddiv (S754_finite s m e) one = S754_finite s m e.
Proof.
  intros Hd He. unfold ddiv, SFdiv, SFdiv_core_binary, one. rewrite Hd. change (Zdigits2 4503599627370496) with 53.
  replace (Z.min (fexp 53 1024 (53 + e - (53 + -52))) (e - -52)) with (e - 1) by (unfold fexp; change (emin 53 1024) with (-1074); lia).
  replace (e - -52 - (e - 1)) with 53 by lia. cbv iota. rewrite Z.shiftl_mul_pow2 by lia. replace (Zpos m * 2 ^ 53) with (4503599627370496 * (Zpos m * 2)) by lia.
  change 4503599627370496 with (Zpos 4503599627370496) at 1. rewrite div_eucl_exact. cbn [xorb]. rewrite xorb_false_r.
  change (new_location 4503599627370496 0) with loc_Exact. replace (Zpos m * 2) with (Zpos m * 2 ^ 1) by lia. rewrite round_exact_signed by lia. f_equal. lia.
Qed.
