(* ===== verification/UnitInterval.v ===== *)
(** * Doubles between zero and one

    Interpolation weights are products of numbers [t] and [1 - t] with [t] clamped to the
    interval from 0 to 1.  The rounded operations stay in that interval: a number that is at most
    1 is rounded to one that is at most 1. *)
From Stdlib Require Import ZArith Lia SpecFloat.
From stdpp Require Import base list numbers.
From S2P Require Import Prelude Blend KokkosArrays AxisMesh Magnitude.
Local Open Scope Z_scope.

(** [if (t < 0.0) t = 0.0; if (t > 1.0) t = 1.0;] *)
Definition clamp01 (t : double) : double :=
  let t := if SFltb t dzero then dzero else t in
  if SFltb one t then one else t.

(** A number [m * 2 ^ e] that is not negative and at most 1, or a zero of either sign. *)
Definition unit_interval (x : double) : Prop :=
  match x with
  | S754_zero _ => True
  | S754_finite false m e => Zpos m <= 2 ^ (- e)
  | _ => False
  end.

(** A mantissa of at most 53 digits. *)
Definition short (x : double) : Prop :=
  match x with S754_finite _ m _ => Zpos m < 2 ^ 53 | _ => True end.

(** ** Rounding *)

Lemma shr_fexp_nonneg m e l : 0 <= m -> 0 <= shr_m (fst (shr_fexp 53 1024 m e l)) < 2 ^ 53.
Proof.
  intros Hm. assert (Hr : shr_m (shr_record_of_loc m l) = m) by by destruct l as [|[]].
  assert (Hd : m < 2 ^ Zdigits2 m /\ 0 <= Zdigits2 m).
  { destruct (decide (m = 0)) as [->|Hne]; [done|]. destruct (Zdigits2_bounds m); [lia|]. lia. }
  unfold shr_fexp, shr, fexp. change (emin 53 1024) with (-1074). set (n := Z.max _ _ - e).
  assert (Hn : Zdigits2 m - 53 <= n) by (unfold n; lia).
  destruct n as [|p|p] eqn:En; cbn [fst]; rewrite ?iter_shr, Hr by lia.
  - split; [lia|]. pose proof (Z.pow_le_mono_r 2 (Zdigits2 m) 53). lia.
  - split; [apply Z.div_pos; lia|]. apply Z.div_lt_upper_bound; [lia|]. rewrite <- Z.pow_add_r by lia.
    eapply Z.lt_le_trans; [apply Hd|]. apply Z.pow_le_mono_r; lia.
  - split; [lia|]. pose proof (Z.pow_le_mono_r 2 (Zdigits2 m) 53). lia.
Qed.

Lemma round_even_bounds m l : 0 <= m -> m <= round_nearest_even m l <= m + 1.
Proof. intros Hm. unfold round_nearest_even. destruct l as [|[]]; [| destruct (Z.even m)| |]; lia. Qed.

Lemma round_short s m e l : 0 <= m -> short (binary_round_aux 53 1024 s m e l).
Proof.
  intros Hm. unfold binary_round_aux. pose proof (shr_fexp_nonneg m e l Hm) as H1.
  destruct (shr_fexp 53 1024 m e l) as [r1 e1]. cbn [fst] in H1. set (m1 := round_nearest_even _ _).
  assert (Hm1 : 0 <= m1) by (pose proof (round_even_bounds (shr_m r1) (loc_of_shr_record r1)); unfold m1; lia).
  pose proof (shr_fexp_nonneg m1 e1 loc_Exact Hm1) as H2. destruct (shr_fexp 53 1024 m1 e1 loc_Exact) as [r2 e2]. cbn [fst] in H2.
  destruct (shr_m r2); [done| |done]. destruct (_ <=? _); [cbn [short]; lia|done].
Qed.

(** The rounding of a nonnegative number never has the other sign and is a number. *)
Lemma round_sign s m e l : 0 <= m -> let x := binary_round_aux 53 1024 s m e l in
  x = S754_zero s \/ x = S754_infinity s \/ exists p f, x = S754_finite s p f.
Proof.
  intros Hm. unfold binary_round_aux. pose proof (shr_fexp_nonneg m e l Hm) as H1.
  destruct (shr_fexp 53 1024 m e l) as [r1 e1]. cbn [fst] in H1. set (m1 := round_nearest_even _ _).
  assert (Hm1 : 0 <= m1) by (pose proof (round_even_bounds (shr_m r1) (loc_of_shr_record r1)); unfold m1; lia).
  pose proof (shr_fexp_nonneg m1 e1 loc_Exact Hm1) as H2. destruct (shr_fexp 53 1024 m1 e1 loc_Exact) as [r2 e2]. cbn [fst] in H2.
  destruct (shr_m r2); [by left| |lia]. destruct (_ <=? _); [right; right; by do 2 eexists|right; by left].
Qed.

Lemma shl_align_value m e e' : let '(m', f) := shl_align m e e' in f <= e /\ Zpos m' = Zpos m * 2 ^ (e - f).
Proof.
  unfold shl_align. destruct (e' - e) as [|q|q] eqn:Eq; rewrite ?Z.sub_diag, ?Z.mul_1_r; [done|done|].
  split; [lia|]. replace (e - e') with (Zpos q) by lia. by rewrite iter_xO.
Qed.

Lemma align_min m e ez : ez <= e -> Zpos (fst (shl_align m e ez)) = Zpos m * 2 ^ (e - ez).
Proof.
  intros He. unfold shl_align. destruct (ez - e) as [|q|q] eqn:Eq; cbn [fst].
  - replace (e - ez) with 0 by lia. by rewrite Z.mul_1_r.
  - lia.
  - replace (e - ez) with (Zpos q) by lia. by rewrite iter_xO.
Qed.

Lemma normalize_short z e b : short (binary_normalize 53 1024 z e b).
Proof.
  destruct z as [|p|p]; [done|..]; cbn [binary_normalize]; unfold binary_round; destruct (shl_align p e _) as [m f]; apply round_short; lia.
Qed.

(** Below 1, the shift keeps the number below 1; at 1, it loses no digit. *)
Lemma shr_unit m e : 0 <= m <= 2 ^ (- e) -> e <= 0 -> let '(r, f) := shr_fexp 53 1024 m e loc_Exact in
  f <= 0 /\ 0 <= shr_m r <= 2 ^ (- f) /\ (shr_m r < 2 ^ (- f) \/ loc_of_shr_record r = loc_Exact).
Proof.
  intros Hm He. unfold shr_fexp, shr, fexp. change (emin 53 1024) with (-1074). cbn [shr_record_of_loc].
  destruct (Z.max (Zdigits2 m + e - 53) (-1074) - e) as [|p|p] eqn:En; cbn [shr_m loc_of_shr_record]; [by auto| |by auto].
  destruct (decide (m = 0)) as [->|Hm0]; [|destruct (decide (m = 2 ^ (- e))) as [->|Hm1]].
  - assert (Hz : shr_m (SpecFloat.iter_pos shr_1 p (Build_shr_record 0 false false)) = 0) by (rewrite iter_shr by done; apply Z.div_0_l; lia).
    rewrite Hz. cbn in En. assert (e + Zpos p <= 0) by lia. split; [done|]. pose proof (Z.pow_pos_nonneg 2 (- (e + Zpos p))). lia.
  - assert (Hd : Zdigits2 (2 ^ (- e)) = 1 - e) by (apply Zdigits2_unique; [lia|]; split; [apply Z.pow_le_mono_r|apply Z.pow_lt_mono_r]; lia).
    rewrite Hd in En. replace (2 ^ (- e)) with (2 ^ 52 * 2 ^ Zpos p) by (rewrite <- Z.pow_add_r by lia; f_equal; lia).
    rewrite iter_shr_exact by done. cbn [shr_m loc_of_shr_record]. replace (e + Zpos p) with (-52) by lia. split; [lia|]. split; [done|by right].
  - destruct (Zdigits2_bounds m ltac:(lia)) as [Hd0 [Hb _]]. assert (Hd : Zdigits2 m <= - e).
    { apply Z.nlt_ge. intros Hlt. pose proof (Z.pow_le_mono_r 2 (- e) (Zdigits2 m - 1)). lia. }
    assert (Hlt : m / 2 ^ Zpos p < 2 ^ (- (e + Zpos p))).
    { apply Z.div_lt_upper_bound; [lia|]. rewrite <- Z.pow_add_r by lia. replace (Z.pos p + - (e + Z.pos p)) with (- e) by lia. lia. }
    rewrite iter_shr by (cbn [shr_m]; lia). cbn [shr_m]. split; [lia|]. split; [|by left]. split; [apply Z.div_pos|]; lia.
Qed.

Lemma round_unit m e : 0 <= m <= 2 ^ (- e) -> e <= 0 -> unit_interval (binary_round_aux 53 1024 false m e loc_Exact).
Proof.
  intros Hm He. unfold binary_round_aux. pose proof (shr_unit m e Hm He) as H1. destruct (shr_fexp 53 1024 m e loc_Exact) as [r1 e1].
  destruct H1 as (He1 & Hb1 & Hx). set (m1 := round_nearest_even _ _).
  assert (Hm1 : 0 <= m1 <= 2 ^ (- e1)).
  { pose proof (round_even_bounds (shr_m r1) (loc_of_shr_record r1)) as B. unfold m1. destruct Hx as [Hx|Hx]; [lia|]. rewrite Hx in B |- *. cbn in *. lia. }
  pose proof (shr_unit m1 e1 Hm1 He1) as H2. destruct (shr_fexp 53 1024 m1 e1 loc_Exact) as [r2 e2]. destruct H2 as (He2 & Hb2 & _).
  destruct (shr_m r2) as [|p|p]; [done| |lia]. rewrite (proj2 (Z.leb_le _ _)) by lia. cbn. lia.
Qed.

Lemma normalize_unit z e b : 0 <= z <= 2 ^ (- e) -> e <= 0 -> unit_interval (binary_normalize 53 1024 z e b).
Proof.
  intros Hz He. destruct z as [|p|p]; [done| |lia]. cbn [binary_normalize]. unfold binary_round.
  pose proof (shl_align_value p e (fexp 53 1024 (Z.pos (digits2_pos p) + e))) as Hs. destruct (shl_align p e _) as [m f]. destruct Hs as [Hf Hs].
  apply round_unit; [|lia]. rewrite Hs. replace (- f) with (- e + (e - f)) by lia. rewrite Z.pow_add_r by lia.
  pose proof (Z.pow_pos_nonneg 2 (e - f)). nia.
Qed.

(** ** Operations *)

Lemma unit_exponent (m : positive) e : Zpos m <= 2 ^ (- e) -> e <= 0.
Proof. intros H. apply Z.nlt_ge. intros Hlt. rewrite Z.pow_neg_r in H by lia. lia. Qed.

Lemma unit_one : unit_interval one.
Proof. vm_compute. discriminate. Qed.

Lemma unit_zero : unit_interval dzero.
Proof. done. Qed.

Lemma clamp_unit t : isnan t = false -> short t -> unit_interval (clamp01 t).
Proof.
  intros Hn Hs. unfold clamp01. destruct (SFltb t dzero) eqn:E0; [done|]. destruct (SFltb one t) eqn:E1; [apply unit_one|].
  destruct t as [s|[]| |[] m e]; try done. cbn [unit_interval short] in *. unfold SFltb, SFcompare, one in E1.
  destruct (Z.compare_spec (-52) e) as [<-|Hlt|Hgt]; [|discriminate E1|].
  - apply Z.nlt_ge. intros Hlt. change (Pos.compare_cont Eq 4503599627370496 m) with (Pos.compare 4503599627370496 m) in E1.
    assert (Hc : Pos.compare 4503599627370496 m = Lt) by (apply Pos.compare_lt_iff; exact Hlt). rewrite Hc in E1. discriminate E1.
  - eapply Z.le_trans; [apply Z.lt_le_incl; exact Hs|]. apply Z.pow_le_mono_r; lia.
Qed.

Lemma complement_unit t : unit_interval t -> unit_interval (dsub one t).
Proof.
  intros Ht. destruct t as [s|s| |[] m e]; cbn [unit_interval] in Ht; [apply unit_one|done|done|done|].
  pose proof (unit_exponent m e Ht) as He. unfold dsub, SFsub, one. cbv zeta. set (ez := Z.min (-52) e).
  cbn [cond_Zopp]. rewrite !align_min by lia. change (Zpos 4503599627370496) with (2 ^ 52). rewrite <- Z.pow_add_r by lia.
  replace (52 + (-52 - ez)) with (- ez) by lia. assert (Hz : - ez = - e + (e - ez)) by lia. assert (P : 0 < 2 ^ (e - ez)) by (apply Z.pow_pos_nonneg; lia).
  apply normalize_unit; [|lia]. rewrite Hz, Z.pow_add_r by lia. nia.
Qed.

Lemma product_unit x y : unit_interval x -> unit_interval y -> unit_interval (dmul x y).
Proof.
  intros Hx Hy. destruct x as [sx|sx| |[] m e], y as [sy|sy| |[] n f]; cbn [unit_interval] in Hx, Hy; try done.
  pose proof (unit_exponent m e Hx). pose proof (unit_exponent n f Hy). unfold dmul, SFmul. cbn [xorb].
  apply round_unit; [|lia]. replace (- (e + f)) with (- e + - f) by lia. rewrite Z.pow_add_r by lia. nia.
Qed.

Definition finite (x : double) : bool := match x with S754_zero _ | S754_finite _ _ _ => true | _ => false end.

Lemma finite_sub_number x y : finite x = true -> finite y = true -> isnan (dsub x y) = false.
Proof.
  intros Hx Hy. assert (N : forall z e b, isnan (binary_normalize 53 1024 z e b) = false).
  { intros z e b. destruct z as [|p|p]; [done|..]; cbn [binary_normalize]; unfold binary_round; destruct (shl_align p e _) as [m f].
    - destruct (round_sign false (Zpos m) f loc_Exact) as [-> |[-> |(q & g & ->)]]; [lia|done..].
    - destruct (round_sign true (Zpos m) f loc_Exact) as [-> |[-> |(q & g & ->)]]; [lia|done..]. }
  destruct x as [[]| | |], y as [[]| | |]; try done. apply N.
Qed.

Lemma sub_short x y : short x -> short y -> short (dsub x y).
Proof. intros Hx Hy. destruct x as [[]|[]| |], y as [[]|[]| |]; try done. apply normalize_short. Qed.

Lemma of_int_short z : short (of_int z).
Proof. apply normalize_short. Qed.
