(* ===== verification/DoubleOrder.v ===== *)
(** * The order of doubles

    Comparing two numbers is comparing their [key]s, triples of integers, so the comparisons
    of code that sorts, takes minima and maxima or looks for a place in a sorted array are
    those of a linear order.  A value that is not a number compares with nothing; sorting a range
    that holds one has no meaning. *)
From Stdlib Require Import ZArith Lia Sorted SpecFloat.
From stdpp Require Import base list numbers.
From S2P Require Import Prelude Blend KokkosArrays.
Local Open Scope Z_scope.

(** ** [std::sort], [std::min], [std::max], [std::upper_bound] *)

(** [std::sort(first, last)] on numbers. *)
Class AscendingSort := {
  sort_ascending : list double -> list double;
  sort_ascending_perm l : sort_ascending l ≡ₚ l;
  sort_ascending_sorted l : Forall (fun x => isnan x = false) l -> StronglySorted (fun a b => SFltb b a = false) (sort_ascending l)
}.

Definition all_numbers (l : list double) : bool := forallb (fun x => negb (isnan x)) l.

Definition std_sort_up `{!AscendingSort} (l : list double) : result (list double) :=
  if all_numbers l then Ok (sort_ascending l) else Undef.

(** [std::min(a, b)] and [std::max(a, b)] *)
Definition std_min (a b : double) : double := if SFltb b a then b else a.
Definition std_max (a b : double) : double := if SFltb a b then b else a.

(** [std::upper_bound] on a sorted array, as the index of the first element above [x]; the
    array being sorted, halving finds the same element. *)
Fixpoint upper_bound (l : list double) (x : double) : nat :=
  match l with
  | [] => 0
  | y :: l => if SFltb x y then 0 else S (upper_bound l x)
  end.

(** [std::lower_bound] on a sorted array, as the index of the first element not below [x]. *)
Fixpoint std_lower_bound (l : list double) (x : double) : nat :=
  match l with
  | [] => 0
  | y :: l => if SFltb y x then S (std_lower_bound l x) else 0
  end.

(** ** Keys *)

Definition key (x : double) : Z * Z * Z :=
  match x with
  | S754_infinity true => (-2, 0, 0)
  | S754_finite true m e => (-1, - e, Zneg m)
  | S754_finite false m e => (1, e, Zpos m)
  | S754_infinity false => (2, 0, 0)
  | _ => (0, 0, 0)
  end.

Definition lex (a b : Z * Z * Z) : Prop :=
  let '(r, e, m) := a in let '(r', e', m') := b in r < r' \/ r = r' /\ (e < e' \/ e = e' /\ m < m').

Lemma SFltb_key x y : isnan x = false -> isnan y = false -> SFltb x y = true <-> lex (key x) (key y).
Proof.
  intros Hx Hy.
  assert (P : forall m m', Pos.compare_cont Eq m m' = Pos.compare m m') by done.
  destruct x as [|[]| |[] m e], y as [|[]| |[] m' e']; try discriminate; cbn [key lex];
    try (split; intros HH; first [done | lia | (exfalso; cbn in HH; discriminate HH)]).
  - unfold SFltb, SFcompare. rewrite P. destruct (Z.compare_spec e e'); [|split; [done|lia]|split; [lia|done]].
    destruct (Pos.compare_spec m m'); cbn; split; intros HH; first [done | lia | discriminate HH].
  - unfold SFltb, SFcompare. rewrite P. destruct (Z.compare_spec e e'); [|split; [lia|done]|split; [done|lia]].
    destruct (Pos.compare_spec m m'); split; intros HH; first [done | lia | discriminate HH].
Qed.

Lemma not_SFltb_key x y : isnan x = false -> isnan y = false -> SFltb x y = false <-> ~ lex (key x) (key y).
Proof. intros Hx Hy. rewrite <- SFltb_key by done. by destruct (SFltb x y). Qed.

Lemma lex_trans a b c : lex a b -> lex b c -> lex a c.
Proof. destruct a as [[]], b as [[]], c as [[]]. cbn. lia. Qed.

Lemma lex_not_trans a b c : lex a b -> ~ lex c b -> lex a c.
Proof. destruct a as [[]], b as [[]], c as [[]]. cbn. lia. Qed.

Lemma lex_trichotomy a b : lex a b \/ a = b \/ lex b a.
Proof.
  destruct a as [[r e] m], b as [[r' e'] m']. cbn. destruct (Z.lt_trichotomy r r') as [|[->|]], (Z.lt_trichotomy e e') as [|[->|]], (Z.lt_trichotomy m m') as [|[->|]]; auto 7.
Qed.

(** Equal keys are equal numbers, up to the sign of zero. *)
Lemma key_inj x y : isnan x = false -> isnan y = false -> key x = key y -> x = y \/ exists s s', x = S754_zero s /\ y = S754_zero s'.
Proof.
  intros Hx Hy. destruct x as [s|[]| |[] m e], y as [s'|[]| |[] m' e']; try discriminate; cbn [key]; intros E; simplify_eq; eauto 6.
  left. f_equal. lia.
Qed.

Lemma ltb_number x y : SFltb x y = true -> isnan x = false /\ isnan y = false.
Proof. by destruct x, y. Qed.

Lemma SFltb_irrefl x : SFltb x x = false.
Proof. destruct (SFltb x x) eqn:E; [|done]. destruct (ltb_number _ _ E) as [Hx _]. apply SFltb_key in E; [|done..]. destruct (key x) as [[]]. cbn in E. lia. Qed.

Lemma SFltb_asym a b : SFltb a b = true -> SFltb b a = false.
Proof.
  intros E. destruct (ltb_number _ _ E) as [Ha Hb]. destruct (SFltb b a) eqn:E'; [|done]. apply SFltb_key in E; [|done..]. apply SFltb_key in E'; [|done..].
  destruct (key a) as [[]], (key b) as [[]]. cbn in *. lia.
Qed.

(** ** Minima and maxima *)

Lemma std_min_cases a b : std_min a b = a \/ std_min a b = b.
Proof. unfold std_min. destruct (SFltb b a); auto. Qed.

Lemma std_max_cases a b : std_max a b = a \/ std_max a b = b.
Proof. unfold std_max. destruct (SFltb a b); auto. Qed.

(** [not_above x y]: [x] is at most [y]. *)
Definition not_above (x y : double) : Prop := SFltb y x = false.

Lemma not_above_trans x y z : isnan x = false -> isnan y = false -> isnan z = false -> not_above x y -> not_above y z -> not_above x z.
Proof.
  unfold not_above. intros Hx Hy Hz. rewrite !not_SFltb_key by done. intros H1 H2 H3. apply H2.
  destruct (lex_trichotomy (key x) (key y)) as [Hl|[<-|Hl]]; [by eapply lex_trans|done|done].
Qed.

Lemma std_min_below a b : isnan a = false -> isnan b = false -> not_above (std_min a b) a /\ not_above (std_min a b) b.
Proof.
  intros Ha Hb. unfold not_above, std_min. destruct (SFltb b a) eqn:E; rewrite ?SFltb_irrefl, ?E; [|done].
  split; [|done]. apply SFltb_key in E; [|done..]. apply not_SFltb_key; [done..|]. intros E'.
  pose proof (lex_trans _ _ _ E E') as C. destruct (key b) as [[]]. cbn in C. lia.
Qed.

Lemma std_max_above a b : isnan a = false -> isnan b = false -> not_above a (std_max a b) /\ not_above b (std_max a b).
Proof.
  intros Ha Hb. unfold not_above, std_max. destruct (SFltb a b) eqn:E; rewrite ?SFltb_irrefl, ?E; [|done].
  split; [|done]. apply SFltb_key in E; [|done..]. apply not_SFltb_key; [done..|]. intros E'.
  pose proof (lex_trans _ _ _ E E') as C. destruct (key a) as [[]]. cbn in C. lia.
Qed.

Lemma leb_ltb x y : isnan x = false -> isnan y = false -> SFleb x y = negb (SFltb y x).
Proof.
  intros Hx Hy. unfold SFleb, SFltb. rewrite (compare_flip x y). destruct (SFcompare x y) as [[]|] eqn:E; try done.
  by destruct x, y.
Qed.

Lemma ltb_trans x y z : SFltb x y = true -> SFltb y z = true -> SFltb x z = true.
Proof.
  intros H1 H2. destruct (ltb_number _ _ H1), (ltb_number _ _ H2). apply SFltb_key; [done..|].
  apply SFltb_key in H1, H2; [|done..]. by eapply lex_trans.
Qed.

Lemma ltb_above x y z : isnan z = false -> SFltb x y = true -> not_above y z -> SFltb x z = true.
Proof.
  intros Hz H1 H2. destruct (ltb_number _ _ H1). apply SFltb_key; [done..|]. apply SFltb_key in H1; [|done..].
  apply not_SFltb_key in H2; [|done..]. by eapply lex_not_trans.
Qed.

Lemma above_ltb x y z : isnan x = false -> not_above x y -> SFltb y z = true -> SFltb x z = true.
Proof.
  intros Hx H1 H2. destruct (ltb_number _ _ H2). apply SFltb_key; [done..|]. apply SFltb_key in H2; [|done..].
  apply not_SFltb_key in H1; [|done..]. destruct (lex_trichotomy (key x) (key y)) as [Hk|[->|Hk]]; [by eapply lex_trans|done|done].
Qed.

(** ** Places in a sorted array *)

Lemma std_lower_bound_le l x : (std_lower_bound l x <= length l)%nat.
Proof. induction l as [|y l IH]; [done|]. cbn. destruct (SFltb y x); lia. Qed.

Lemma below_lower_bound l x i y : (i < std_lower_bound l x)%nat -> l !! i = Some y -> SFltb y x = true.
Proof.
  revert i. induction l as [|z l IH]; intros i Hi Hy; [done|]. cbn in Hi. destruct (SFltb z x) eqn:E; [|lia].
  destruct i as [|i]; [by injection Hy as <-|]. apply (IH i); [lia|done].
Qed.

Lemma above_upper_bound l x i y : StronglySorted (fun a b => SFltb a b = true) l -> (upper_bound l x <= i)%nat -> l !! i = Some y -> SFltb x y = true.
Proof.
  revert i. induction l as [|z l IH]; intros i Hs Hi Hy; [done|]. apply StronglySorted_inv in Hs as [Hs Hz]. cbn in Hi. destruct (SFltb x z) eqn:E.
  - destruct i as [|i]; [by injection Hy as <-|]. eapply ltb_trans; [exact E|]. by apply (Forall_lookup_1 _ _ _ _ Hz Hy).
  - destruct i as [|i]; [lia|]. apply (IH i); [done|lia|done].
Qed.

Lemma not_above_antisym x y : isnan x = false -> isnan y = false -> not_above x y -> not_above y x -> key x = key y.
Proof. unfold not_above. intros Hx Hy. rewrite !not_SFltb_key by done. by destruct (lex_trichotomy (key x) (key y)) as [|[|]]. Qed.

(** The running minimum or maximum of a list that starts at [d]. *)
Lemma foldl_min_spec l d : isnan d = false -> Forall (fun x => isnan x = false) l ->
  let x := foldl std_min d l in x ∈ d :: l /\ isnan x = false /\ Forall (not_above x) (d :: l).
Proof.
  revert d. induction l as [|y l IH]; intros d Hd Hl; cbn [foldl].
  - split; [by left|]. split; [done|]. constructor; [apply SFltb_irrefl|constructor].
  - inversion Hl as [|? ? Hy Hl']; subst. assert (Hm : isnan (std_min d y) = false) by (by destruct (std_min_cases d y) as [-> | ->]).
    destruct (IH (std_min d y) Hm Hl') as (Hin & Hn & Hf). inversion Hf as [|? ? Hx Hf']; subst. destruct (std_min_below d y Hd Hy) as [H1 H2].
    split; [|split; [done|]].
    + apply elem_of_cons in Hin as [->|Hin]; [|by right; right]. destruct (std_min_cases d y) as [-> | ->]; [by left|right; by left].
    + constructor; [|constructor; [|done]]; by apply (not_above_trans _ (std_min d y)).
Qed.

Lemma foldl_max_spec l d : isnan d = false -> Forall (fun x => isnan x = false) l ->
  let x := foldl std_max d l in x ∈ d :: l /\ isnan x = false /\ Forall (fun y => not_above y x) (d :: l).
Proof.
  revert d. induction l as [|y l IH]; intros d Hd Hl; cbn [foldl].
  - split; [by left|]. split; [done|]. constructor; [apply SFltb_irrefl|constructor].
  - inversion Hl as [|? ? Hy Hl']; subst. assert (Hm : isnan (std_max d y) = false) by (by destruct (std_max_cases d y) as [-> | ->]).
    destruct (IH (std_max d y) Hm Hl') as (Hin & Hn & Hf). inversion Hf as [|? ? Hx Hf']; subst. destruct (std_max_above d y Hd Hy) as [H1 H2].
    split; [|split; [done|]].
    + apply elem_of_cons in Hin as [->|Hin]; [|by right; right]. destruct (std_max_cases d y) as [-> | ->]; [by left|right; by left].
    + constructor; [|constructor; [|done]]; by apply (not_above_trans _ (std_max d y)).
Qed.

(** ** A witness for the interface *)

Fixpoint insert_ascending (x : double) (l : list double) : list double :=
  match l with [] => [x] | y :: l' => if SFltb y x then y :: insert_ascending x l' else x :: l end.

Definition insertion_up (l : list double) : list double := foldr insert_ascending [] l.

Lemma insert_ascending_perm x l : insert_ascending x l ≡ₚ x :: l.
Proof. induction l as [|y l IH]; [done|]. cbn. destruct (SFltb y x); [|done]. rewrite IH. apply perm_swap. Qed.

Lemma insertion_up_perm l : insertion_up l ≡ₚ l.
Proof. induction l as [|x l IH]; [done|]. cbn [insertion_up foldr]. rewrite insert_ascending_perm. by constructor. Qed.

Lemma insert_ascending_sorted x l : isnan x = false -> Forall (fun x => isnan x = false) l ->
  StronglySorted (fun a b => SFltb b a = false) l -> StronglySorted (fun a b => SFltb b a = false) (insert_ascending x l).
Proof.
  intros Hx Hn Hs. induction Hs as [|y l Hs IH Hy]; cbn [insert_ascending]; [by repeat constructor|].
  inversion Hn as [|? ? Hny Hnl]; subst. destruct (SFltb y x) eqn:E.
  - constructor; [by apply IH|]. rewrite insert_ascending_perm. constructor; [|done].
    apply SFltb_key in E; [|done..]. apply not_SFltb_key; [done..|]. intros E'. pose proof (lex_trans _ _ _ E E') as C. destruct (key y) as [[]]. cbn in C. lia.
  - constructor; [by constructor|]. constructor; [done|]. rewrite list.Forall_forall in Hy, Hnl |- *. intros z Hz.
    apply (not_above_trans x y z); [done|done|by apply Hnl|exact E|by apply Hy].
Qed.

#[global] Instance insertion_ascending : AscendingSort.
Proof.
  refine {| sort_ascending := insertion_up |}; [apply insertion_up_perm|].
  induction 1 as [|x l Hx Hl IH]; [constructor|]. cbn. apply insert_ascending_sorted; [done| |done]. by rewrite insertion_up_perm.
Defined.
