(* ===== verification/RegularGrid.v ===== *)
(** * AXIS: detection of regular grids
    (src/libs/axis/include/axis/detail/regular_grid_detector.hpp)

    A mesh of quadrilaterals whose longitudes and latitudes are, up to a tolerance, those of a
    rectangle of cells is rectilinear; it is regular when they are equally spaced besides.  The
    fast paths of weight generation take their indices from what is detected here.  The
    detection looks at the coordinates of the nodes and at the number of nodes of each cell;
    it does not look at which nodes a cell has. *)
From Stdlib Require Import ZArith Lia Sorted SpecFloat.
From stdpp Require Import base list numbers.
From S2P Require Import Prelude CInt Blend KokkosArrays AxisMesh UnitInterval DoubleOrder.
Local Open Scope Z_scope.

(** ** Data *)

Record RegularGridInfo : Type := mkRegularInfo {
  is_regular : bool;
  lon_min : double;
  lon_max : double;
  delta_lon : double;
  lat_min : double;
  lat_max : double;
  delta_lat : double;
  info_ni : nat;
  info_nj : nat
}.

Definition no_regular_grid : RegularGridInfo := mkRegularInfo false dzero dzero dzero dzero dzero dzero 0 0.

Record RectilinearGridInfo : Type := mkRectilinearInfo {
  is_rectilinear : bool;
  rect_ni : nat;
  rect_nj : nat;
  unique_lons : list double;
  unique_lats : list double
}.

Definition no_rectilinear_grid : RectilinearGridInfo := mkRectilinearInfo false 0 0 [] [].

Record TripolarGridInfo : Type := mkTripolarInfo {
  is_tripolar : bool;
  tripolar_ni : Z;
  tripolar_nj : Z;
  seam_lat : double;
  seam_lon_center : double
}.

Definition no_tripolar_grid : TripolarGridInfo := mkTripolarInfo false 0 0 dzero dzero.

(** ** Operations *)

Definition unique_tol : double := S754_finite false 4951760157141521 (-92).
Definition uniform_tol : double := S754_finite false 7737125245533627 (-86).
Definition seam_tol : double := S754_finite false 4835703278458517 (-82).

(** [unique_vals], given its last element. *)
Fixpoint unique_from (back : double) (sorted : list double) : list double :=
  match sorted with
  | [] => []
  | x :: sorted => if SFltb unique_tol (SFabs (dsub x back)) then x :: unique_from x sorted else unique_from back sorted
  end.

Definition unique_filter (sorted : list double) : list double :=
  match sorted with [] => [] | x :: rest => x :: unique_from x rest end.

(** The loop that returns at the first cell without four nodes. *)
Fixpoint all_quads (offsets : list Z) (cells : list nat) : result bool :=
  match cells with
  | [] => Ok true
  | c :: cells =>
      let! start := read offsets (Z.of_nat c) in
      let! end_ := read offsets (Z.of_nat c + 1) in
      let! width := arith I64 (end_ - start) in
      if width =? 4 then all_quads offsets cells else Ok false
  end.

(** [all_lons] and [all_lats] *)
Definition node_column (m : UnstructuredMesh) (k : nat) : result (list double) :=
  for_each (seq 0 (n_nodes m)) (fun i l => let! x := read2 (node_coords m) (Z.of_nat i) k in Ok (l ++ [x])) [].

Definition deltas (u : list double) : list double := zip_with (fun a b => dsub b a) u (tail u).

Definition sum_of (l : list double) : double := foldl dadd dzero l.

Definition check_uniform (ds : list double) : bool :=
  match ds with
  | [] => false
  | d0 :: _ =>
      let min_d := foldl std_min d0 ds in
      let max_d := foldl std_max d0 ds in
      if SFleb min_d dzero then false
      else
        let mean_d := ddiv (sum_of ds) (of_int (Z.of_nat (length ds))) in
        SFltb (dsub max_d min_d) (dmul uniform_tol mean_d)
  end.

Definition front (l : list double) : double := default dzero (head l).
Definition back (l : list double) : double := default dzero (head (reverse l)).

Section Detection.
Context `{!AscendingSort}.

(** What both detections begin with: the distinct longitudes and latitudes of a mesh of
    quadrilaterals that are as many as a rectangle of cells needs. *)
Definition grid_lines (m : UnstructuredMesh) : result (option (list double * list double)) :=
  if (n_cells m =? 0)%nat then Ok None
  else
    let! quads := all_quads (conn_offsets m) (seq 0 (n_cells m)) in
    if negb quads then Ok None
    else
      let! all_lons := node_column m 0 in
      let! all_lats := node_column m 1 in
      let! all_lons := std_sort_up all_lons in
      let! all_lats := std_sort_up all_lats in
      let lons := unique_filter all_lons in
      let lats := unique_filter all_lats in
      if (length lons <? 2)%nat || (length lats <? 2)%nat then Ok None
      else
        let ni := (length lons - 1)%nat in
        let nj := (length lats - 1)%nat in
        if to_u64 (Z.of_nat ni * Z.of_nat nj) =? Z.of_nat (n_cells m) then Ok (Some (lons, lats)) else Ok None.

Definition detect_rectilinear_grid (m : UnstructuredMesh) : result RectilinearGridInfo :=
  let! lines := grid_lines m in
  match lines with
  | None => Ok no_rectilinear_grid
  | Some (lons, lats) => Ok (mkRectilinearInfo true (length lons - 1) (length lats - 1) lons lats)
  end.

Definition detect_regular_grid (m : UnstructuredMesh) : result RegularGridInfo :=
  let! lines := grid_lines m in
  match lines with
  | None => Ok no_regular_grid
  | Some (lons, lats) =>
      let lon_deltas := deltas lons in
      let lat_deltas := deltas lats in
      if negb (check_uniform lon_deltas) || negb (check_uniform lat_deltas) then Ok no_regular_grid
      else
        let ni := (length lons - 1)%nat in
        let nj := (length lats - 1)%nat in
        Ok (mkRegularInfo true (front lons) (back lons) (ddiv (sum_of lon_deltas) (of_int (Z.of_nat ni)))
              (front lats) (back lats) (ddiv (sum_of lat_deltas) (of_int (Z.of_nat nj))) ni nj)
  end.
End Detection.

(** The loop that leaves with [folded = false]. *)
Fixpoint folded_row (coords : View2) (top ni : Z) (half_row : list nat) : result bool :=
  match half_row with
  | [] => Ok true
  | i :: half_row =>
      let idx1 := to_u64 (top + Z.of_nat i) in
      let idx2 := to_u64 (top + to_u64 (ni - Z.of_nat i)) in
      let! lat1 := read2 coords idx1 1 in
      let! lat2 := read2 coords idx2 1 in
      if SFltb seam_tol (SFabs (dsub lat1 lat2)) then Ok false else folded_row coords top ni half_row
  end.

Definition detect_tripolar_grid (m : UnstructuredMesh) (ni nj : Z) : result TripolarGridInfo :=
  if (n_nodes m =? 0)%nat || (ni =? 0) || (nj =? 0) then Ok no_tripolar_grid
  else
    let n_nodes_x := to_u64 (ni + 1) in
    let top_row_start := to_u64 (nj * n_nodes_x) in
    if Z.of_nat (n_nodes m) <=? to_u64 (top_row_start + ni) then Ok no_tripolar_grid
    else
      let! folded := folded_row (node_coords m) top_row_start ni (seq 0 (S (Z.to_nat (ni / 2)))) in
      if folded then
        let! lat := read2 (node_coords m) top_row_start 1 in
        let! lon := read2 (node_coords m) (to_u64 (top_row_start + ni / 2)) 0 in
        Ok (mkTripolarInfo true ni nj lat lon)
      else Ok no_tripolar_grid.

(** * Specification *)

(** [u] has one representative of every cluster of [l], in ascending order and apart. *)
Record lines_of (l u : list double) : Prop := {
  lines_taken : Forall (fun x => x ∈ l) u;
  lines_cover x : x ∈ l -> exists y, y ∈ u /\ SFltb unique_tol (SFabs (dsub x y)) = false;
  lines_apart i x y : u !! i = Some x -> u !! S i = Some y -> SFltb unique_tol (SFabs (dsub y x)) = true;
  lines_ascend : StronglySorted (fun x y => SFltb x y = true) u
}.

Definition column (m : UnstructuredMesh) (k : nat) : list double := (fun i => coord (node_coords m) (Z.of_nat i) k) <$> seq 0 (n_nodes m).

(** A rectangle of quadrilaterals between the lines [lons] and [lats]. *)
Definition rectangle (m : UnstructuredMesh) (lons lats : list double) : Prop :=
  (0 < n_cells m)%nat /\ (forall c, (c < n_cells m)%nat -> length (cell_nodes m c) = 4%nat) /\
  (2 <= length lons)%nat /\ (2 <= length lats)%nat /\ ((length lons - 1) * (length lats - 1) = n_cells m)%nat.

(** The spacings are positive and differ by less than a part in ten billion of their mean. *)
Definition uniform (ds : list double) : Prop :=
  exists lo hi, lo ∈ ds /\ hi ∈ ds /\ Forall (fun d => not_above lo d /\ not_above d hi) ds /\ SFltb dzero lo = true /\
    SFltb (dsub hi lo) (dmul uniform_tol (ddiv (sum_of ds) (of_int (Z.of_nat (length ds))))) = true.

(** The spacing and the number of cells of equally spaced lines. *)
Definition mean_spacing (u : list double) : double := ddiv (sum_of (deltas u)) (of_int (Z.of_nat (length u - 1))).

Definition regular_info (lons lats : list double) : RegularGridInfo :=
  mkRegularInfo true (front lons) (back lons) (mean_spacing lons) (front lats) (back lats) (mean_spacing lats) (length lons - 1) (length lats - 1).

(** * Lemmas *)

(** ** Distinct values *)

Lemma dsub_self x : SFltb unique_tol (SFabs (dsub x x)) = false.
Proof. destruct x as [[]|[]| |[] m e]; try done; unfold dsub, SFsub; by rewrite Z.sub_diag. Qed.

Lemma unique_from_cover b l x : x ∈ b :: l ->
  exists y, y ∈ b :: unique_from b l /\ SFltb unique_tol (SFabs (dsub x y)) = false.
Proof.
  revert b. induction l as [|z l IH]; intros b Hx.
  - apply elem_of_cons in Hx as [->|Hx]; [|by apply elem_of_nil in Hx]. exists b. split; [by left|apply dsub_self].
  - apply elem_of_cons in Hx as [->|Hx]; [exists b; split; [by left|apply dsub_self]|].
    cbn [unique_from]. destruct (SFltb unique_tol (SFabs (dsub z b))) eqn:E.
    + destruct (IH z Hx) as (y & Hy & Hc). exists y. split; [by right|done].
    + apply elem_of_cons in Hx as [->|Hx]; [exists b; split; [by left|done]|]. apply IH. by right.
Qed.

(** Two numbers that differ by more than the tolerance are not equal. *)
Lemma apart_not_equal x y : isnan x = false -> isnan y = false -> SFltb x y = false -> SFltb unique_tol (SFabs (dsub x y)) = true -> SFltb y x = true.
Proof.
  intros Hx Hy Hn Ha. apply SFltb_key; [done..|]. apply not_SFltb_key in Hn; [|done..].
  destruct (lex_trichotomy (key y) (key x)) as [|[Hk|]]; [done| |done].
  apply key_inj in Hk as [->|(s & s' & -> & ->)]; [by rewrite dsub_self in Ha| |done..]. by destruct s, s'.
Qed.

Lemma unique_from_spec b l : isnan b = false -> Forall (fun x => isnan x = false) l -> StronglySorted (fun x y => SFltb y x = false) (b :: l) ->
  Forall (fun x => x ∈ l) (unique_from b l) /\
  StronglySorted (fun x y => SFltb x y = true) (b :: unique_from b l) /\
  forall i x y, (b :: unique_from b l) !! i = Some x -> unique_from b l !! i = Some y -> SFltb unique_tol (SFabs (dsub y x)) = true.
Proof.
  revert b. induction l as [|z l IH]; intros b Hb Hl Hs; [repeat split; [constructor|repeat constructor|done]|].
  inversion Hl as [|? ? Hz Hl']; subst. apply StronglySorted_inv in Hs as [Hs Hbz]. inversion Hbz as [|? ? Hbz1 Hbl]; subst.
  cbn [unique_from]. destruct (SFltb unique_tol (SFabs (dsub z b))) eqn:E.
  - destruct (IH z Hz Hl' Hs) as (H1 & H2 & H3). assert (Hlt : SFltb b z = true) by (by apply apart_not_equal).
    split; [constructor; [by left|]; eapply list.Forall_impl; [exact H1|]; intros x Hx; by right|]. split.
    + constructor; [done|]. constructor; [done|]. apply StronglySorted_inv in H2 as [_ H2]. eapply list.Forall_impl; [exact H2|]. intros x Hzx.
      destruct (ltb_number _ _ Hzx) as [_ Hx]. apply SFltb_key; [done..|]. apply SFltb_key in Hlt, Hzx; [|done..]. by eapply lex_trans.
    + intros [|i] x y Hx Hy; [|by apply (H3 i)]. cbn in Hx, Hy. by simplify_eq.
  - destruct (IH b Hb Hl') as (H1 & H2 & H3); [constructor; [by apply StronglySorted_inv in Hs as [Hs _]|done]|].
    split; [|by split]. eapply list.Forall_impl; [exact H1|]. intros x Hx. by right.
Qed.

Lemma unique_filter_lines l : Forall (fun x => isnan x = false) l -> StronglySorted (fun x y => SFltb y x = false) l -> lines_of l (unique_filter l).
Proof.
  intros Hn Hs. destruct l as [|b l]; [repeat split; [constructor|intros x Hx; by apply elem_of_nil in Hx|done|constructor]|].
  inversion Hn as [|? ? Hb Hl]; subst. destruct (unique_from_spec b l Hb Hl Hs) as (H1 & H2 & H3). cbn [unique_filter]. split.
  - constructor; [by left|]. eapply list.Forall_impl; [exact H1|]. intros x Hx. by right.
  - intros x Hx. by apply unique_from_cover.
  - intros i x y Hx Hy. by apply (H3 i).
  - done.
Qed.

Lemma unique_from_length b l : (length (unique_from b l) <= length l)%nat.
Proof.
  revert b. induction l as [|x l IH]; intros b; [done|]. cbn [unique_from]. destruct (SFltb _ _); cbn [length]; [pose proof (IH x)|pose proof (IH b)]; lia.
Qed.

Lemma unique_filter_length l : (length (unique_filter l) <= length l)%nat.
Proof. destruct l as [|x l]; [done|]. cbn. pose proof (unique_from_length x l). lia. Qed.

(** ** Spacing *)

Lemma positive_key x y : isnan y = false -> SFltb dzero x = true -> key x = key y -> x = y.
Proof.
  intros Hy Hx Hk. destruct (ltb_number _ _ Hx) as [_ Hn]. apply key_inj in Hk as [->|(s & s' & -> & ->)]; [done| |done..]. done.
Qed.

Lemma check_uniform_spec ds : Forall (fun d => isnan d = false) ds -> check_uniform ds = true <-> uniform ds.
Proof.
  intros Hn. destruct ds as [|d ds]; [split; [done|]; intros (lo & _ & Hlo & _); by apply elem_of_nil in Hlo|].
  pose proof (Forall_inv Hn) as Hd. destruct (foldl_min_spec (d :: ds) d Hd Hn) as (Hlo & Hlon & Hlow). destruct (foldl_max_spec (d :: ds) d Hd Hn) as (Hhi & Hhin & Hhiw).
  unfold check_uniform. set (lo := foldl std_min d (d :: ds)) in *. set (hi := foldl std_max d (d :: ds)) in *.
  assert (Hin : forall x, x ∈ d :: d :: ds -> x ∈ d :: ds) by (intros x [->|Hx]%elem_of_cons; [by left|done]).
  rewrite leb_ltb by done. split.
  - destruct (SFltb dzero lo) eqn:El; [|done]. cbn [negb]. intros Hr. exists lo, hi. apply Hin in Hlo, Hhi. do 2 (split; [done|]). split; [|done].
    apply Forall_inv_tail in Hlow, Hhiw. apply list.Forall_forall. intros x Hx. rewrite list.Forall_forall in Hlow, Hhiw. auto.
  - intros (lo' & hi' & Hlo' & Hhi' & Hb & Hpos & Hr). rewrite list.Forall_forall in Hlow, Hhiw, Hb, Hn.
    assert (E1 : lo' = lo).
    { apply positive_key; [done|done|]. apply not_above_antisym; [by apply Hn|done|apply Hb; by apply Hin|apply Hlow; by right]. }
    assert (Hph : SFltb dzero hi' = true).
    { apply SFltb_key; [done|by apply Hn|]. apply SFltb_key in Hpos; [|done|by apply Hn]. eapply lex_not_trans; [exact Hpos|].
      apply not_SFltb_key; [by apply Hn..|]. by apply Hb. }
    assert (E2 : hi' = hi).
    { apply positive_key; [done|done|]. apply not_above_antisym; [by apply Hn|done|apply Hhiw; by right|apply Hb; by apply Hin]. }
    subst lo' hi'. by rewrite Hpos.
Qed.

Lemma deltas_finite u : Forall (fun x => finite x = true) u -> Forall (fun d => isnan d = false) (deltas u).
Proof.
  intros Hu. unfold deltas. apply list.Forall_forall. intros d Hd. apply list_elem_of_lookup in Hd as [i Hi].
  apply lookup_zip_with_Some in Hi as (a & b & -> & Ha & Hb). rewrite list.Forall_forall in Hu.
  apply finite_sub_number; apply Hu; [|by eapply list_elem_of_lookup_2].
  destruct u as [|x u]; [done|]. right. by eapply list_elem_of_lookup_2.
Qed.

(** ** What the detection reads *)

Lemma node_column_ok m k : view_ok (node_coords m) -> (k < extent1 (node_coords m))%nat -> node_column m k = Ok (column m k).
Proof.
  intros Hv Hk. unfold node_column, column. destruct (for_each_inv (fun i l => l = (fun i => coord (node_coords m) (Z.of_nat i) k) <$> seq 0 i) (n_nodes m)
    (fun i l => let! x := read2 (node_coords m) (Z.of_nat i) k in Ok (l ++ [x])) []) as (l & E & ->); [|done|exact E].
  intros i t Hi ->. unfold n_nodes in Hi. rewrite read2_ok by (done || lia). eexists. split; [done|]. rewrite seq_S, fmap_app. done.
Qed.

Lemma all_quads_ok m cells : mesh_ok m -> Forall (fun c => c < n_cells m)%nat cells ->
  all_quads (conn_offsets m) cells = Ok (forallb (fun c => (length (cell_nodes m c) =? 4)%nat) cells).
Proof.
  intros Hm. induction 1 as [|c cells Hc _ IH]; [done|]. cbn [all_quads forallb]. rewrite read_offset by (done || lia). cbn [bind].
  replace (Z.of_nat c + 1) with (Z.of_nat (c + 1)) by lia. rewrite read_offset by (done || lia). cbn [bind].
  pose proof (cell_nodes_length m c Hm Hc) as Hl. pose proof (mesh_ascending m Hm c Hc). rewrite arith_ok by (cbn; lia). cbn [bind].
  destruct (Nat.eqb_spec (length (cell_nodes m c)) 4); case_if; bsimpl; [exact IH|lia|lia|done].
Qed.

Lemma all_numbers_true l : Forall (fun x => isnan x = false) l -> all_numbers l = true.
Proof. intros Hl. apply forallb_forall. intros x Hx. rewrite list.Forall_forall in Hl. rewrite Hl; [done|]. by apply list_elem_of_In. Qed.

Lemma finite_number x : finite x = true -> isnan x = false.
Proof. by destruct x. Qed.

Section Detection_lemmas.
Context `{!AscendingSort}.

(** The lines of a mesh. *)
Definition mesh_lines (m : UnstructuredMesh) (k : nat) : list double := unique_filter (sort_ascending (column m k)).

Lemma sorted_finite l : Forall (fun x => finite x = true) l ->
  std_sort_up l = Ok (sort_ascending l) /\ Forall (fun x => finite x = true) (sort_ascending l) /\ Forall (fun x => isnan x = false) (sort_ascending l).
Proof.
  intros Hl. assert (Hn : Forall (fun x => isnan x = false) l) by (eapply list.Forall_impl; [exact Hl|apply finite_number]).
  split; [unfold std_sort_up; by rewrite all_numbers_true|]. by rewrite !sort_ascending_perm.
Qed.

Lemma mesh_lines_spec m k : Forall (fun x => finite x = true) (column m k) ->
  lines_of (column m k) (mesh_lines m k) /\ Forall (fun x => finite x = true) (mesh_lines m k) /\ (length (mesh_lines m k) <= n_nodes m)%nat.
Proof.
  intros Hf. destruct (sorted_finite (column m k) Hf) as (_ & Hsf & Hsn). pose proof (sort_ascending_perm (column m k)) as Hp.
  assert (Hs : StronglySorted (fun a b => SFltb b a = false) (sort_ascending (column m k))).
  { apply sort_ascending_sorted. eapply list.Forall_impl; [exact Hf|apply finite_number]. }
  destruct (unique_filter_lines _ Hsn Hs) as [H1 H2 H3 H4]. split; [|split].
  - split; [|intros x Hx; apply H2; by rewrite Hp|exact H3|exact H4]. eapply list.Forall_impl; [exact H1|]. cbn. intros x Hx. by rewrite Hp in Hx.
  - rewrite list.Forall_forall in H1, Hsf. apply list.Forall_forall. intros x Hx. by apply Hsf, H1.
  - etransitivity; [apply unique_filter_length|]. rewrite Hp. unfold column. by rewrite length_fmap, length_seq.
Qed.

Lemma grid_lines_spec m : mesh_ok m -> Forall (fun x => finite x = true) (column m 0) -> Forall (fun x => finite x = true) (column m 1) ->
  Z.of_nat (n_nodes m) <= 2 ^ 32 ->
  exists o, grid_lines m = Ok o /\ (rectangle m (mesh_lines m 0) (mesh_lines m 1) /\ o = Some (mesh_lines m 0, mesh_lines m 1) \/
    ~ rectangle m (mesh_lines m 0) (mesh_lines m 1) /\ o = None).
Proof.
  intros Hm H0 H1 Hn. destruct (mesh_coords m Hm) as [Hv He]. unfold grid_lines, rectangle.
  destruct (Nat.eqb_spec (n_cells m) 0) as [Hz|Hz]; [eexists; split; [done|]; right; split; [lia|done]|].
  rewrite all_quads_ok by (try done; apply list.Forall_forall; intros c Hc%elem_of_seq; lia). cbn [bind].
  destruct (forallb _ (seq 0 (n_cells m))) eqn:Eq; cbn [negb].
  2: { eexists. split; [done|]. right. split; [|done]. intros (_ & Hq & _). apply (Bool.eq_true_false_abs _) in Eq; [done|]. apply forallb_forall.
       intros c Hc%list_elem_of_In%elem_of_seq. apply Nat.eqb_eq, Hq. lia. }
  rewrite !node_column_ok by (done || lia). cbn [bind]. destruct (sorted_finite _ H0) as (-> & _). destruct (sorted_finite _ H1) as (-> & _). cbn [bind].
  fold (mesh_lines m 0) (mesh_lines m 1). destruct (mesh_lines_spec m 0 H0) as (_ & _ & L0). destruct (mesh_lines_spec m 1 H1) as (_ & _ & L1).
  assert (Hq : forall c, (c < n_cells m)%nat -> length (cell_nodes m c) = 4%nat).
  { intros c Hc. apply Nat.eqb_eq. rewrite forallb_forall in Eq. apply Eq, list_elem_of_In, elem_of_seq. lia. }
  destruct (Nat.ltb_spec (length (mesh_lines m 0)) 2); cbn [orb]; [eexists; split; [done|right; split; [lia|done]]|].
  destruct (Nat.ltb_spec (length (mesh_lines m 1)) 2); [eexists; split; [done|right; split; [lia|done]]|].
  rewrite to_u64_id by nia. case_if; bsimpl; eexists; (split; [done|]); [left|right]; split; try done; [|nia]. repeat split; try done; nia.
Qed.
End Detection_lemmas.

(** ** Lattices *)

(** The mesh of a logical grid of [ni] by [nj] cells whose node in column [i] and row [j] is
    at [lon i] and [lat j]. *)
Definition lattice (ni nj : nat) (lon lat : nat -> double) : UnstructuredMesh :=
  new_mesh (coords_view ((ni + 1) * (nj + 1)) (fun k => (lon (k mod (ni + 1)), lat (k / (ni + 1)))%nat))
    (quad_offsets (ni * nj)) (quad_indices (grid_quad ni) (ni * nj)) SphericalDeg.

Lemma lattice_ok ni nj lon lat : (0 < ni)%nat -> mesh_ok (lattice ni nj lon lat) /\ n_cells (lattice ni nj lon lat) = (ni * nj)%nat /\
  forall c, (c < ni * nj)%nat -> cell_nodes (lattice ni nj lon lat) c = grid_quad ni c.
Proof.
  intros Hi. apply quad_mesh_ok; [apply coords_view_shaped|done|]. intros c Hc. cbn [coords_view extent0].
  destruct (grid_quad_range ni nj c) as [Hq1 Hq2]; [done|done|]. split; [done|]. eapply list.Forall_impl; [exact Hq2|]. cbn. intros v. lia.
Qed.

Lemma lattice_coord ni nj lon lat i j : (i <= ni)%nat -> (j <= nj)%nat ->
  coord (node_coords (lattice ni nj lon lat)) (Z.of_nat (j * (ni + 1) + i)) 0 = lon i /\
  coord (node_coords (lattice ni nj lon lat)) (Z.of_nat (j * (ni + 1) + i)) 1 = lat j.
Proof.
  intros Hi Hj. cbn [lattice new_mesh node_coords].
  destruct (coords_view_coord ((ni + 1) * (nj + 1)) (fun k => (lon (k mod (ni + 1)), lat (k / (ni + 1)))%nat) (j * (ni + 1) + i)) as [-> ->]; [nia|].
  cbn [fst snd]. rewrite Nat.add_comm, Nat.Div0.mod_add, Nat.mod_small, Nat.div_add, Nat.div_small by lia. done.
Qed.

Lemma folded_row_true coords top ni cols : Forall (fun i => exists x,
    read2 coords (to_u64 (top + Z.of_nat i)) 1 = Ok x /\ read2 coords (to_u64 (top + to_u64 (ni - Z.of_nat i))) 1 = Ok x) cols ->
  folded_row coords top ni cols = Ok true.
Proof.
  induction 1 as [|i cols (x & E1 & E2) _ IH]; [done|]. cbn [folded_row]. rewrite E1, E2. cbn [bind].
  assert (Hs : SFltb seam_tol (SFabs (dsub x x)) = false).
  { destruct x as [[]|[]| |[] m e]; try done; unfold dsub, SFsub; by rewrite Z.sub_diag. }
  by rewrite Hs.
Qed.

(** * Properties *)

Section Detection_properties.
Context `{!AscendingSort}.

(** C32. What the detections of regular_grid_detector.hpp find, on any mesh of at most [2 ^ 32]
    nodes at finite coordinates: neither leaves its arrays; the lines they compute are one
    representative of every cluster of coordinates, in strictly ascending order and farther
    apart than the tolerance; a mesh is reported rectilinear exactly if all its cells have four
    nodes and there are as many cells as the lines have rectangles, and regular exactly if,
    besides, the spacings are positive and differ by less than a part in ten billion of their
    mean; and what is reported is the first and last line, the mean spacing and the number
    of intervals of each axis. *)
Theorem detect_regular_correct m : mesh_ok m -> Forall (fun x => finite x = true) (column m 0) -> Forall (fun x => finite x = true) (column m 1) ->
  Z.of_nat (n_nodes m) <= 2 ^ 32 ->
  exists lons lats regular rectilinear, lines_of (column m 0) lons /\ lines_of (column m 1) lats /\
    detect_regular_grid m = Ok regular /\ detect_rectilinear_grid m = Ok rectilinear /\
    (is_rectilinear rectilinear = true <-> rectangle m lons lats) /\
    (is_rectilinear rectilinear = true -> rectilinear = mkRectilinearInfo true (length lons - 1) (length lats - 1) lons lats) /\
    (is_regular regular = true <-> rectangle m lons lats /\ uniform (deltas lons) /\ uniform (deltas lats)) /\
    (is_regular regular = true -> regular = regular_info lons lats).
Proof.
  intros Hm H0 H1 Hn. destruct (mesh_lines_spec m 0 H0) as (L0 & F0 & _). destruct (mesh_lines_spec m 1 H1) as (L1 & F1 & _).
  destruct (grid_lines_spec m Hm H0 H1 Hn) as (o & E & Ho). exists (mesh_lines m 0), (mesh_lines m 1).
  unfold detect_regular_grid, detect_rectilinear_grid. rewrite E. cbn [bind]. destruct Ho as [[Hr ->]|[Hr ->]].
  - pose proof (check_uniform_spec _ (deltas_finite _ F0)) as U0. pose proof (check_uniform_spec _ (deltas_finite _ F1)) as U1.
    destruct (check_uniform (deltas (mesh_lines m 0))), (check_uniform (deltas (mesh_lines m 1))); cbn [negb orb]; do 2 eexists;
      (do 4 (split; [done|])); cbn [is_rectilinear is_regular]; (split; [by split|]); (split; [done|]); (split; [|done]); intuition congruence.
  - do 2 eexists. do 4 (split; [done|]). cbn [is_rectilinear is_regular]. split; [by split|]. split; [done|]. split; [|done]. split; [done|]. by intros (C & _).
Qed.
End Detection_properties.

(** [detect_tripolar_grid] of regular_grid_detector.hpp compares nothing but the latitudes of the
    northernmost row, although what makes a grid folded is that the nodes of the row coincide
    in pairs: it reports every latitude-longitude grid, whatever its size and its longitudes, as a
    folded tripolar one, with the latitude of its last row as that of the seam. *)
Theorem lattice_is_tripolar ni nj lon lat : (0 < ni)%nat -> (0 < nj)%nat -> Z.of_nat ((ni + 1) * (nj + 1)) < 2 ^ 63 ->
  detect_tripolar_grid (lattice ni nj lon lat) (Z.of_nat ni) (Z.of_nat nj)
  = Ok (mkTripolarInfo true (Z.of_nat ni) (Z.of_nat nj) (lat nj) (lon (ni / 2)%nat)).
Proof.
  intros Hi Hj Hn. pose proof (lattice_ok ni nj lon lat Hi) as (Hm & _ & _). destruct (mesh_coords _ Hm) as [Hv _].
  assert (N : n_nodes (lattice ni nj lon lat) = ((ni + 1) * (nj + 1))%nat) by done.
  assert (U : forall z, 0 <= z <= Z.of_nat ((ni + 1) * (nj + 1)) -> to_u64 z = z) by (intros z Hz; apply to_u64_id; lia).
  assert (T : to_u64 (Z.of_nat nj * to_u64 (Z.of_nat ni + 1)) = Z.of_nat (nj * (ni + 1))).
  { rewrite (U (Z.of_nat ni + 1)) by nia. replace (Z.of_nat nj * (Z.of_nat ni + 1)) with (Z.of_nat (nj * (ni + 1))) by lia. apply U. nia. }
  assert (R : forall i, (i <= ni)%nat -> read2 (node_coords (lattice ni nj lon lat)) (Z.of_nat (nj * (ni + 1)) + Z.of_nat i) 1 = Ok (lat nj) /\
    read2 (node_coords (lattice ni nj lon lat)) (Z.of_nat (nj * (ni + 1)) + Z.of_nat i) 0 = Ok (lon i)).
  { intros i Hi'. destruct (lattice_coord ni nj lon lat i nj Hi' ltac:(lia)) as [E0 E1]. rewrite <- Nat2Z.inj_add.
    rewrite !read2_ok, E0, E1 by (try done; unfold lattice; cbn; nia). done. }
  unfold detect_tripolar_grid. rewrite N, T. destruct (Nat.eqb_spec ((ni + 1) * (nj + 1)) 0); [nia|]. cbn [orb].
  rewrite !(proj2 (Z.eqb_neq _ _)) by lia. cbn [orb]. rewrite U by nia. rewrite (proj2 (Z.leb_gt _ _)) by nia.
  rewrite folded_row_true.
  - cbn [bind]. destruct (R 0%nat ltac:(lia)) as [E _]. rewrite Z.add_0_r in E. rewrite E. cbn [bind].
    replace (Z.of_nat ni / 2) with (Z.of_nat (ni / 2)) by (rewrite Nat2Z.inj_div; done).
    assert (Hh : (ni / 2 <= ni)%nat) by (apply Nat.Div0.div_le_upper_bound; lia). rewrite U by nia.
    by destruct (R (ni / 2)%nat Hh) as [_ ->].
  - apply list.Forall_forall. intros i Hi'%elem_of_seq. assert (Hle : (i <= ni)%nat).
    { assert (Z.of_nat ni / 2 <= Z.of_nat ni) by (apply Z.div_le_upper_bound; lia). lia. }
    exists (lat nj). replace (Z.of_nat ni - Z.of_nat i) with (Z.of_nat (ni - i)) by lia.
    rewrite (U (Z.of_nat (ni - i))), !(U (Z.of_nat (nj * (ni + 1)) + _)) by nia. split; apply R; lia.
Qed.

(** ** Witnesses *)

(** Eight cells of 90 degrees, from south to north and from north to south. *)
Definition east (i : nat) : double := of_int (90 * Z.of_nat i).
Definition north (j : nat) : double := of_int (90 * Z.of_nat j - 90).
Definition south (j : nat) : double := of_int (90 - 90 * Z.of_nat j).
Definition globe : UnstructuredMesh := lattice 4 2 east north.
Definition globe_southward : UnstructuredMesh := lattice 4 2 east south.

Lemma globe_columns : Forall (fun x => finite x = true) (column globe 0) /\ Forall (fun x => finite x = true) (column globe 1).
Proof. split; apply list.Forall_forall; intros x Hx%list_elem_of_In; revert x Hx; apply forallb_forall; vm_compute; reflexivity. Qed.

Lemma detect_regular_correct_witness : exists lons lats, lines_of (column globe 0) lons /\ lines_of (column globe 1) lats /\ rectangle globe lons lats.
Proof.
  destruct (detect_regular_correct globe) as (lons & lats & regular & rectilinear & L0 & L1 & _ & E2 & H & _);
    [exact (proj1 (lattice_ok 4 2 east north ltac:(lia)))|apply globe_columns|apply globe_columns|vm_compute; discriminate|].
  exists lons, lats. split; [exact L0|]. split; [exact L1|]. apply H.
  assert (E : detect_rectilinear_grid globe = Ok (mkRectilinearInfo true 4 2 (of_int <$> [0; 90; 180; 270; 360]) (of_int <$> [-90; 0; 90]))) by (vm_compute; reflexivity).
  rewrite E in E2. by injection E2 as <-.
Defined.

Lemma lattice_is_tripolar_witness : exists info, detect_tripolar_grid globe 4 2 = Ok info /\ is_tripolar info = true.
Proof. eexists. split; [apply (lattice_is_tripolar 4 2 east north); [lia|lia|cbn; lia]|done]. Defined.

(** The order in which the rows are stored is not seen. *)
Example direction_is_not_seen : detect_regular_grid globe_southward = detect_regular_grid globe /\
  detect_regular_grid globe = Ok (mkRegularInfo true (of_int 0) (of_int 360) (of_int 90) (of_int (-90)) (of_int 90) (of_int 90) 4 2).
Proof. vm_compute. done. Qed.
