(* ===== verification/BilinearRect.v ===== *)
(** * AXIS: bilinear weights on rectangular grids
    (src/libs/axis/src/solver/weight_generator_bilinear_rect.cpp,
    weight_generator_bilinear_rect_nonuniform.cpp)

    The fast paths of bilinear interpolation: the four source cells around the center of a
    destination cell are found by arithmetic on a regular grid ([BilinearRectKernel]) and by
    bisection on a rectilinear one.  The specification is the [stencil] of a position. *)
From Stdlib Require Import ZArith Lia SpecFloat.
From stdpp Require Import base list numbers.
From S2P Require Import Prelude CInt Blend KokkosArrays InterpolationMatrix AxisMesh StructuredGrid Magnitude UnitInterval DoubleOrder RegularGrid.
Local Open Scope Z_scope.

(** ** The configuration of a regridding (src/libs/axis/include/axis/solver/regrid_config.hpp) *)

Inductive InterpolationMethod : Type := Bilinear | NearestNeighbor | Bicubic | Patch | Conservative1stOrder | Conservative2ndOrder.
Inductive NormType : Type := DstArea | FracArea.
Inductive LineType : Type := Cartesian | GreatCircle.
Inductive UnmappedAction : Type := Error | Ignore.
Inductive ExtrapolationAction : Type := NoExtrapolation | NearestWet.

#[global] Instance InterpolationMethod_eq_dec : EqDecision InterpolationMethod.
Proof. solve_decision. Defined.
#[global] Instance NormType_eq_dec : EqDecision NormType.
Proof. solve_decision. Defined.
#[global] Instance UnmappedAction_eq_dec : EqDecision UnmappedAction.
Proof. solve_decision. Defined.
#[global] Instance ExtrapolationAction_eq_dec : EqDecision ExtrapolationAction.
Proof. solve_decision. Defined.

Record RegridConfig : Type := mkRegridConfig {
  method : InterpolationMethod;
  norm_type : NormType;
  line_type : LineType;
  unmapped : UnmappedAction;
  use_limiter : bool;
  extrap_method : ExtrapolationAction
}.

Definition default_config : RegridConfig := mkRegridConfig Bilinear DstArea GreatCircle Ignore false NearestWet.

(** ** Accumulating entries *)

(** [weights_vec], [rows_vec] and [cols_vec] *)
Record Entries : Type := mkEntries { weights_vec : list double; rows_vec : list Z; cols_vec : list Z }.

Definition no_entries : Entries := mkEntries [] [] [].

Definition push_entry (es : Entries) (w : double) (row col : Z) : Entries :=
  mkEntries (weights_vec es ++ [w]) (rows_vec es ++ [row]) (cols_vec es ++ [col]).

(** The loop that emits the four entries of a destination cell. *)
Definition emit (c : nat) (idx : list Z) (wts : list double) (es : Entries) : Entries :=
  foldl (fun es '(k, w) => push_entry es w (to_index (Z.of_nat c)) (to_index k)) es (zip idx wts).

Definition empty_matrix : InterpolationMatrix := new_matrix [] [] [] [] [] [] [] 0 0.

(** The arithmetic mean of the nodes of a cell. *)
Definition centroid (m : UnstructuredMesh) (c : nat) : result (double * double) :=
  let! start := read (conn_offsets m) (Z.of_nat c) in
  let! end_ := read (conn_offsets m) (Z.of_nat c + 1) in
  let start := to_u64 start in
  let end_ := to_u64 end_ in
  let n_verts := to_u64 (end_ - start) in
  let! '(lon_sum, lat_sum) := for_each (seq 0 (Z.to_nat (end_ - start))) (fun v '(lon_sum, lat_sum) =>
    let! i := read (conn_indices m) (start + Z.of_nat v) in
    let node_idx := to_u64 i in
    let! lon := read2 (node_coords m) node_idx 0 in
    let! lat := read2 (node_coords m) node_idx 1 in
    Ok (dadd lon_sum lon, dadd lat_sum lat)) (dzero, dzero) in
  Ok (ddiv lon_sum (of_int n_verts), ddiv lat_sum (of_int n_verts)).

(** [static_cast<std::size_t>(j) * ni + static_cast<std::size_t>(i)] *)
Definition flat_index (ni : nat) (i j : Z) : Z := to_u64 (to_u64 j * Z.of_nat ni + to_u64 i).

(** The four indices and weights of a stencil. *)
Definition stencil_indices (ni : nat) (i i1 j j1 : Z) : list Z := [flat_index ni i j; flat_index ni i1 j; flat_index ni i j1; flat_index ni i1 j1].
Definition stencil_weights (tx ty : double) : list double :=
  [dmul (dsub one tx) (dsub one ty); dmul tx (dsub one ty); dmul (dsub one tx) ty; dmul tx ty].

(** [if (i < 0) i = 0; if (i >= static_cast<int>(n) - 1) i = static_cast<int>(n) - 2; if (i < 0) i = 0;] *)
Definition clamp_index (n : nat) (i : Z) : result Z :=
  let i := if i <? 0 then 0 else i in
  let! top := arith I32 (cast_int (Z.of_nat n) - 1) in
  let! i := if top <=? i then arith I32 (cast_int (Z.of_nat n) - 2) else Ok i in
  Ok (if i <? 0 then 0 else i).

(** [((i % n) + n) % n] *)
Definition wrap_index (n : nat) (i : Z) : result Z :=
  let n := cast_int (Z.of_nat n) in
  let! r := crem I32 (Ok i) (Ok n) in
  let! s := arith I32 (r + n) in
  crem I32 (Ok s) (Ok n).

(** ** The kernel on a regular grid *)

Record BilinearRectKernel : Type := mkKernel {
  k_lon_min : double;
  k_lat_min : double;
  k_delta_lon : double;
  k_delta_lat : double;
  k_ni : nat;
  k_nj : nat;
  k_periodic : bool
}.

Definition bound_tol : double := S754_finite false 4835703278458517 (-82).
Definition lower_bound : double := dsub (SFopp half) bound_tol.
Definition upper_limit (n : nat) : double := dadd (dsub (of_int (Z.of_nat n)) half) bound_tol.

Definition normalized_lon (k : BilinearRectKernel) (lon_d : double) : double :=
  if k_periodic k then
    let offset := dsub lon_d (k_lon_min k) in
    let offset := dsub offset (dmul (dfloor (ddiv offset c360)) c360) in
    dadd (k_lon_min k) offset
  else lon_d.

(** [fi] and [fj] *)
Definition fractional_i (k : BilinearRectKernel) (lon_d : double) : double :=
  dsub (ddiv (dsub (normalized_lon k lon_d) (k_lon_min k)) (k_delta_lon k)) half.
Definition fractional_j (k : BilinearRectKernel) (lat_d : double) : double :=
  dsub (ddiv (dsub lat_d (k_lat_min k)) (k_delta_lat k)) half.

Definition beyond (n : nat) (f : double) : bool := SFltb f lower_bound || SFltb (upper_limit n) f.

Definition outside (k : BilinearRectKernel) (fi fj : double) : bool :=
  if k_periodic k then beyond (k_nj k) fj else beyond (k_ni k) fi || beyond (k_nj k) fj.

(** The indices and the weights, or nothing for a point outside. *)
Definition compute_weights (k : BilinearRectKernel) (lon_d lat_d : double) : result (option (list Z * list double)) :=
  let fi := fractional_i k lon_d in
  let fj := fractional_j k lat_d in
  if outside k fi fj then Ok None
  else
    let! i := floor_int fi in
    let! j := floor_int fj in
    let! j := clamp_index (k_nj k) j in
    let! i := if k_periodic k then wrap_index (k_ni k) i else clamp_index (k_ni k) i in
    let tx := clamp01 (dsub fi (of_int i)) in
    let ty := clamp01 (dsub fj (of_int j)) in
    let! i1 := arith I32 (i + 1) in
    let! i1 := if cast_int (Z.of_nat (k_ni k)) <=? i1 then (if k_periodic k then Ok 0 else arith I32 (cast_int (Z.of_nat (k_ni k)) - 1)) else Ok i1 in
    let! j1 := arith I32 (j + 1) in
    let! j1 := if cast_int (Z.of_nat (k_nj k)) <=? j1 then arith I32 (cast_int (Z.of_nat (k_nj k)) - 1) else Ok j1 in
    Ok (Some (stencil_indices (k_ni k) i i1 j j1, stencil_weights tx ty)).

(** [lon_span] within a small part of a cell of 360 degrees *)
Definition spans_circle (info : RegularGridInfo) : bool :=
  SFltb (SFabs (dsub (dsub (lon_max info) (lon_min info)) c360)) (dmul uniform_tol (delta_lon info)).

Definition kernel_of (info : RegularGridInfo) : BilinearRectKernel :=
  mkKernel (lon_min info) (lat_min info) (delta_lon info) (delta_lat info) (info_ni info) (info_nj info) (spans_circle info).

(** [frac_b] is 1 where the matrix has an entry. *)
Definition mapped_fractions (n_dst : nat) (rows : list Z) : result (list double) :=
  for_each (seq 0 (length rows)) (fun k frac_b =>
    let! r := read rows (Z.of_nat k) in
    write frac_b (to_u64 r) one) (replicate n_dst dzero).

Definition generate_bilinear_rect (src_mesh dst_mesh : UnstructuredMesh) (config : RegridConfig) (src_grid_info : RegularGridInfo)
  : result InterpolationMatrix :=
  let n_src := n_cells src_mesh in
  let n_dst := n_cells dst_mesh in
  if (info_ni src_grid_info =? 0)%nat || (info_nj src_grid_info =? 0)%nat then Ok empty_matrix
  else
    let kernel := kernel_of src_grid_info in
    let! es := for_each (seq 0 n_dst) (fun c es =>
      let! '(lon_d, lat_d) := centroid dst_mesh c in
      let! mapped := compute_weights kernel lon_d lat_d in
      match mapped with
      | None => if decide (unmapped config = Error) then Throw runtime_error else Ok es
      | Some (src_idx, wts) => Ok (emit c src_idx wts es)
      end) no_entries in
    let! frac_b := mapped_fractions n_dst (rows_vec es) in
    Ok (new_matrix (weights_vec es) (rows_vec es) (cols_vec es) (replicate n_src one) frac_b
          (replicate n_src dzero) (replicate n_dst dzero) n_src n_dst).

(** ** Rectilinear grids *)

(** The centers of the intervals between consecutive lines. *)
Definition interval_centers (n : nat) (lines : list double) : result (list double) :=
  for_each (seq 0 n) (fun i centers =>
    let! a := read lines (Z.of_nat i) in
    let! b := read lines (Z.of_nat i + 1) in
    Ok (centers ++ [dmul half (dadd a b)])) [].

(** [std::max(0.0, std::min(1.0, t))] *)
Definition clamp_minmax (t : double) : double := std_max dzero (std_min one t).

(** The left center of an axis, clamped, with the relative position. *)
Definition locate (n : nat) (centers : list double) (x : double) : result (Z * double) :=
  let! i := arith I32 (cast_int (Z.of_nat (upper_bound centers x)) - 1) in
  let! i := clamp_index n i in
  let! x0 := read centers i in
  let! i1 := arith I32 (i + 1) in
  let! x1 := read centers i1 in
  Ok (i, clamp_minmax (ddiv (dsub x x0) (dsub x1 x0))).

Definition generate_bilinear_rect_nonuniform (src_mesh dst_mesh : UnstructuredMesh) (src_rect_info : RectilinearGridInfo) : result InterpolationMatrix :=
  let n_src := n_cells src_mesh in
  let n_dst := n_cells dst_mesh in
  let ni := rect_ni src_rect_info in
  let nj := rect_nj src_rect_info in
  let! unique_center_lons := interval_centers ni (unique_lons src_rect_info) in
  let! unique_center_lats := interval_centers nj (unique_lats src_rect_info) in
  let! es := for_each (seq 0 n_dst) (fun c es =>
    let! '(lon_d, lat_d) := centroid dst_mesh c in
    let! '(i, tx) := locate ni unique_center_lons lon_d in
    let! '(j, ty) := locate nj unique_center_lats lat_d in
    Ok (emit c (stencil_indices ni i (i + 1) j (j + 1)) (stencil_weights tx ty) es)) no_entries in
  Ok (new_matrix (weights_vec es) (rows_vec es) (cols_vec es) (replicate n_src one) (replicate n_dst one)
        (replicate n_src dzero) (replicate n_dst dzero) n_src n_dst).

(** * Specification *)

(** A column or row in range, and its right neighbor, on a circle ([wrap]) or a segment. *)
Definition left_cell (wrap : bool) (n z : Z) : Z := if wrap then z mod n else Z.max 0 (Z.min z (n - 2)).
Definition right_cell (wrap : bool) (n i : Z) : Z := if wrap then (i + 1) mod n else Z.min (i + 1) (n - 1).

(** The source cells around a place between columns [i], [i1] and rows [j], [j1]. *)
Definition stencil (ni : nat) (i i1 j j1 : Z) (tx ty : double) : list (Z * double) :=
  let ni := Z.of_nat ni in
  zip [j * ni + i; j * ni + i1; j1 * ni + i; j1 * ni + i1] (stencil_weights tx ty).

(** The stencil of a position on a regular grid whose floor is [(zi, zj)]. *)
Definition regular_stencil (k : BilinearRectKernel) (fi fj : double) (zi zj : Z) : list (Z * double) :=
  let ni := Z.of_nat (k_ni k) in
  let nj := Z.of_nat (k_nj k) in
  let i := left_cell (k_periodic k) ni zi in
  let j := left_cell false nj zj in
  stencil (k_ni k) i (right_cell (k_periodic k) ni i) j (right_cell false nj j)
    (clamp01 (dsub fi (of_int i))) (clamp01 (dsub fj (of_int j))).

Definition cell_center (m : UnstructuredMesh) (c : nat) : double * double :=
  let ns := cell_nodes m c in
  let n := of_int (Z.of_nat (length ns)) in
  (ddiv (sum_of ((fun v => coord (node_coords m) v 0) <$> ns)) n, ddiv (sum_of ((fun v => coord (node_coords m) v 1) <$> ns)) n).

(** Fewer nodes, cells and corners than a signed integer counts. *)
Definition mesh_sized (m : UnstructuredMesh) : Prop :=
  Z.of_nat (n_nodes m) < 2 ^ 63 /\ Z.of_nat (length (conn_indices m)) < 2 ^ 63 /\ Z.of_nat (n_cells m) < 2 ^ 63.

(** The stencils of the destination cells, and what they make of a matrix. *)
Definition stencil_entries {A} (f : nat -> list A) (n : nat) : list (Z * A) :=
  concat ((fun c => (fun e => (Z.of_nat c, e)) <$> f c) <$> seq 0 n).

(** A matrix of bilinear weights: the entries are those of the stencils, cell by cell; every
    index names a cell and every weight lies between zero and one; source fractions are one,
    destination fractions [frac], areas zero. *)
Record bilinear_matrix (m : InterpolationMatrix) (ns nd : nat) (f : nat -> list (Z * double)) (frac : nat -> double) : Prop := {
  bm_entries : coo m = stencil_entries f nd;
  bm_well_formed : well_formed m;
  bm_weights : Forall unit_interval (factor_list m);
  bm_extents : n_src m = ns /\ n_dst m = nd;
  bm_frac_a : frac_a m = replicate ns one;
  bm_frac_b : frac_b m = frac <$> seq 0 nd;
  bm_areas : area_a m = replicate ns dzero /\ area_b m = replicate nd dzero;
  bm_state : is_csr m = false /\ kk_cache m = None
}.

(** * Lemmas *)

(** ** Indices *)

Lemma clamp_index_ok n z : (0 < n)%nat -> Z.of_nat n < 2 ^ 31 -> clamp_index n z = Ok (left_cell false (Z.of_nat n) z).
Proof.
  intros Hn H31. unfold clamp_index, left_cell. rewrite cast_int_id by done. rewrite arith_ok by (cbn; lia). cbn [bind].
  destruct (Z.ltb_spec z 0), (Z.leb_spec (Z.of_nat n - 1) 0), (Z.leb_spec (Z.of_nat n - 1) z); try lia;
    rewrite ?arith_ok by (cbn; lia); cbn [bind]; f_equal; case_if; bsimpl; lia.
Qed.

Lemma wrap_index_ok n z : (0 < n)%nat -> Z.of_nat n < 2 ^ 30 -> imin I32 <= z <= imax I32 -> wrap_index n z = Ok (left_cell true (Z.of_nat n) z).
Proof.
  intros Hn H30 Hz. unfold wrap_index, left_cell. rewrite cast_int_id by lia. pose proof (Z.rem_bound_abs z (Z.of_nat n)) as Hb.
  pose proof (crem_pos I32 z (Z.of_nat n) Hz ltac:(lia)) as E1. unfold cval in E1. rewrite E1. cbn [bind]. rewrite arith_ok by (cbn; lia). cbn [bind].
  pose proof (crem_pos I32 (Z.rem z (Z.of_nat n) + Z.of_nat n) (Z.of_nat n) ltac:(cbn; lia) ltac:(lia)) as E2. unfold cval in E2. rewrite E2. f_equal.
  rewrite Z.rem_mod_nonneg by lia. rewrite <- Z.add_mod_idemp_r, Z.mod_same, Z.add_0_r by lia.
  pose proof (Z.quot_rem' z (Z.of_nat n)) as Eq. rewrite Eq at 2. rewrite Z.add_comm, Z.mul_comm. by rewrite Z.mod_add by lia.
Qed.

Lemma left_cell_range w n z : 0 < n -> 0 <= left_cell w n z < n.
Proof. intros Hn. unfold left_cell. destruct w; [by apply Z.mod_pos_bound|lia]. Qed.

Lemma right_cell_range w n i : 0 < n -> 0 <= i -> 0 <= right_cell w n i < n.
Proof. intros Hn Hi. unfold right_cell. destruct w; [by apply Z.mod_pos_bound|lia]. Qed.

(** ** The bounds of a position *)

Lemma upper_limit_normal n : (0 < n)%nat -> Z.of_nat n < 2 ^ 28 -> exists k, normal (upper_limit n) k /\ 0 <= k <= 31.
Proof.
  intros Hn H28. destruct (of_int_exact (Z.of_nat n) ltac:(lia)) as (m & e & Eo & Hd & He & Hm). unfold upper_limit. rewrite Eo.
  assert (E1 : dsub (S754_finite false m e) half = binary_normalize 53 1024 (Z.of_nat n * 2 ^ 53 - 2 ^ 52) (-53) false).
  { unfold dsub, SFsub, half. cbv zeta. replace (Z.min e (-53)) with (-53) by lia. cbn [cond_Zopp]. rewrite !align_min by lia. f_equal.
    rewrite Hm. replace (2 ^ 53) with (2 ^ (- e) * 2 ^ (e - -53)) by (rewrite <- Z.pow_add_r by lia; f_equal; lia). change (Z.pos 4503599627370496 * 2 ^ (-53 - -53)) with (2 ^ 52). ring. }
  rewrite E1. set (z := Z.of_nat n * 2 ^ 53 - 2 ^ 52). assert (Hz : 2 ^ 52 <= z < 2 ^ 81) by (unfold z; lia).
  assert (Hdz : 53 <= Zdigits2 z <= 81).
  { destruct (Zdigits2_bounds z) as [P B]; [lia|]. split; apply Z.nlt_ge; intros Hlt.
    - pose proof (Z.pow_le_mono_r 2 (Zdigits2 z) 52). lia.
    - pose proof (Z.pow_le_mono_r 2 81 (Zdigits2 z - 1)). lia. }
  destruct (normalize_normal z (-53) false) as (k1 & (m1 & -> & D1) & B1); [lia|lia|]. unfold dadd, SFadd, bound_tol. cbv zeta.
  replace (Z.min (k1 - 53) (-82)) with (-82) by lia. cbn [cond_Zopp]. rewrite !align_min by lia.
  set (z2 := Z.pos m1 * 2 ^ (k1 - 53 - -82) + Z.pos 4835703278458517 * 2 ^ (-82 - -82)).
  destruct (Zdigits2_bounds (Zpos m1) ltac:(lia)) as [_ M1]. rewrite D1 in M1.
  assert (Hz2 : 2 ^ (81 + k1) <= z2 < 2 ^ (83 + k1)).
  { unfold z2. assert (X : 2 ^ (81 + k1) = 2 ^ 52 * 2 ^ (k1 - 53 - -82)) by (rewrite <- Z.pow_add_r by lia; f_equal; lia).
    assert (Y : 2 ^ (83 + k1) = 2 ^ 54 * 2 ^ (k1 - 53 - -82)) by (rewrite <- Z.pow_add_r by lia; f_equal; lia).
    rewrite X, Y. assert (1 <= 2 ^ (k1 - 53 - -82)) by (pose proof (Z.pow_pos_nonneg 2 (k1 - 53 - -82)); lia). change (2 ^ (-82 - -82)) with 1. nia. }
  assert (Hd2 : 82 + k1 <= Zdigits2 z2 <= 83 + k1).
  { destruct (Zdigits2_bounds z2) as [P B]; [pose proof (Z.pow_pos_nonneg 2 (81 + k1)); lia|]. split; apply Z.nlt_ge; intros Hlt.
    - pose proof (Z.pow_le_mono_r 2 (Zdigits2 z2) (81 + k1)). lia.
    - pose proof (Z.pow_le_mono_r 2 (83 + k1) (Zdigits2 z2 - 1)). lia. }
  destruct (normalize_normal z2 (-82) false) as (k2 & Hk2 & B2); [pose proof (Z.pow_pos_nonneg 2 (81 + k1)); lia|lia|].
  exists k2. split; [done|lia].
Qed.

(** A position that is not beyond the bounds has an [int] for its floor. *)
Lemma inside_floor n f : (0 < n)%nat -> Z.of_nat n < 2 ^ 28 -> short f -> isnan f = false -> beyond n f = false ->
  finite f = true /\ exists z, floorZ f = Some z /\ -1 <= z < 2 ^ 31.
Proof.
  intros Hn H28 Hs Hf Hb. unfold beyond in Hb. apply orb_false_iff in Hb as [Hlo Hhi].
  destruct (upper_limit_normal n Hn H28) as (k & (m & Hu & Hd) & Hk). rewrite Hu in Hhi.
  assert (Hl : lower_bound = S754_finite true 4503599636377695 (-53)) by (vm_compute; reflexivity). rewrite Hl in Hlo.
  apply not_SFltb_key in Hlo; [|done|done]. apply not_SFltb_key in Hhi; [|done|done].
  destruct f as [s|[]| |[] p e]; cbn [key lex] in Hlo, Hhi; try (exfalso; lia); try done; (split; [done|]).
  - exists 0. split; [done|lia].
  - cbn [short] in Hs. exists (-1). split; [|lia]. cbn [floorZ]. rewrite (proj2 (Z.leb_gt _ _)) by lia. f_equal.
    symmetry. apply (Z.div_unique_pos _ _ _ (2 ^ (- e) - Zpos p)); [|lia]. pose proof (Z.pow_le_mono_r 2 53 (- e)). lia.
  - cbn [short] in Hs. destruct (Zdigits2_bounds (Zpos m) ltac:(lia)) as [_ M]. rewrite Hd in M. destruct (Z.leb_spec 0 e); cbn [floorZ].
    + exfalso. lia.
    + rewrite (proj2 (Z.leb_gt _ _)) by lia. eexists. split; [done|]. split; [assert (0 <= Zpos p / 2 ^ (- e)); [apply Z.div_pos; lia|lia]|].
      apply Z.div_lt_upper_bound; [lia|]. rewrite <- Z.pow_add_r by lia. pose proof (Z.pow_le_mono_r 2 53 (- e + 31)). lia.
Qed.

(** ** Stencils *)

Lemma sub_half_short x : short (dsub x half).
Proof. destruct x as [[]|[]| |[] m e]; try done; apply normalize_short. Qed.

Lemma finite_of_int z : 0 <= z < 2 ^ 53 -> finite (of_int z) = true.
Proof. intros Hz. destruct (decide (z = 0)) as [->|Hne]; [done|]. by destruct (of_int_exact z) as (m & e & -> & _); [lia|]. Qed.

Lemma floor_finite x z : floorZ x = Some z -> finite x = true.
Proof. by destruct x. Qed.

Lemma stencil_weights_unit tx ty : unit_interval tx -> unit_interval ty -> Forall unit_interval (stencil_weights tx ty).
Proof. intros Hx Hy. repeat constructor; apply product_unit; auto using complement_unit. Qed.

Lemma clamped_unit f i : short f -> finite f = true -> 0 <= i < 2 ^ 53 -> unit_interval (clamp01 (dsub f (of_int i))).
Proof. intros Hs Hf Hi. apply clamp_unit; [by apply finite_sub_number, finite_of_int|by apply sub_short, of_int_short]. Qed.

Definition cell_ok (n : nat) (e : Z * double) : Prop := 0 <= fst e < Z.of_nat n /\ unit_interval (snd e).

Lemma flat_range ni nj i j : 0 <= i < Z.of_nat ni -> 0 <= j < Z.of_nat nj -> 0 <= j * Z.of_nat ni + i < Z.of_nat (ni * nj).
Proof. intros Hi Hj. rewrite Nat2Z.inj_mul. assert ((j + 1) * Z.of_nat ni <= Z.of_nat nj * Z.of_nat ni) by (apply Z.mul_le_mono_nonneg_r; lia). nia. Qed.

Lemma stencil_cells_ok ni nj i i1 j j1 tx ty : 0 <= i < Z.of_nat ni -> 0 <= i1 < Z.of_nat ni -> 0 <= j < Z.of_nat nj -> 0 <= j1 < Z.of_nat nj ->
  unit_interval tx -> unit_interval ty -> length (stencil ni i i1 j j1 tx ty) = 4%nat /\ Forall (cell_ok (ni * nj)) (stencil ni i i1 j j1 tx ty).
Proof.
  intros Hi Hi1 Hj Hj1 Hx Hy. pose proof (stencil_weights_unit tx ty Hx Hy) as Hw. inversion_clear Hw as [|? ? W0 Hw1]. inversion_clear Hw1 as [|? ? W1 Hw2].
  inversion_clear Hw2 as [|? ? W2 Hw3]. inversion_clear Hw3 as [|? ? W3 _]. split; [done|].
  unfold stencil, cell_ok. cbn [zip_with stencil_weights]. repeat (constructor; [split; [by apply flat_range|done]|]). constructor.
Qed.

Lemma flat_index_id ni nj i j : Z.of_nat ni < 2 ^ 30 -> Z.of_nat nj < 2 ^ 30 -> 0 <= i < Z.of_nat ni -> 0 <= j < Z.of_nat nj -> flat_index ni i j = j * Z.of_nat ni + i.
Proof.
  intros Hi30 Hj30 Hi Hj. assert (0 <= j * Z.of_nat ni < 2 ^ 30 * 2 ^ 30).
  { split; [apply Z.mul_nonneg_nonneg; lia|]. apply Z.mul_lt_mono_nonneg; lia. }
  unfold flat_index. rewrite (to_u64_id j), (to_u64_id i) by lia. apply to_u64_id. lia.
Qed.

Lemma stencil_unzip ni nj i i1 j j1 tx ty : Z.of_nat ni < 2 ^ 30 -> Z.of_nat nj < 2 ^ 30 ->
  0 <= i < Z.of_nat ni -> 0 <= i1 < Z.of_nat ni -> 0 <= j < Z.of_nat nj -> 0 <= j1 < Z.of_nat nj ->
  stencil_indices ni i i1 j j1 = fst <$> stencil ni i i1 j j1 tx ty /\ stencil_weights tx ty = snd <$> stencil ni i i1 j j1 tx ty.
Proof. intros. unfold stencil_indices. rewrite !(flat_index_id ni nj) by done. done. Qed.

Section Kernel.
Context (k : BilinearRectKernel).
Context (Hni : (0 < k_ni k)%nat /\ Z.of_nat (k_ni k) < 2 ^ 28).
Context (Hnj : (0 < k_nj k)%nat /\ Z.of_nat (k_nj k) < 2 ^ 28).

(** A position the kernel can give cells to: its coordinates are numbers, and on a circle the
    number of columns from the first one is an [int]. *)
Definition placeable (fi fj : double) : Prop :=
  isnan fj = false /\ if k_periodic k then exists z, floorZ fi = Some z /\ imin I32 <= z <= imax I32 else isnan fi = false.

Lemma placed_floors lon lat : let fi := fractional_i k lon in let fj := fractional_j k lat in
  outside k fi fj = false -> placeable fi fj ->
  finite fi = true /\ finite fj = true /\ exists zi zj, floorZ fi = Some zi /\ floorZ fj = Some zj /\ imin I32 <= zi <= imax I32 /\ -1 <= zj <= imax I32.
Proof.
  intros fi fj Ho [Hj Hi]. destruct Hni as [Hni0 Hni1], Hnj as [Hnj0 Hnj1]. unfold outside in Ho.
  destruct (k_periodic k).
  - destruct Hi as (zi & Ei & Bi). destruct (inside_floor (k_nj k) fj) as (Fj & zj & Ej & Bj); [done|done|apply sub_half_short|done|done|].
    split; [by eapply floor_finite|]. split; [done|]. exists zi, zj. split; [done|]. split; [done|]. cbn in *. lia.
  - apply orb_false_iff in Ho as [Ho1 Ho2].
    destruct (inside_floor (k_ni k) fi) as (Fi & zi & Ei & Bi); [done|done|apply sub_half_short|done|done|].
    destruct (inside_floor (k_nj k) fj) as (Fj & zj & Ej & Bj); [done|done|apply sub_half_short|done|done|].
    split; [done|]. split; [done|]. exists zi, zj. split; [done|]. split; [done|]. cbn in *. lia.
Qed.

Lemma regular_stencil_ok fi fj zi zj : short fi -> short fj -> finite fi = true -> finite fj = true ->
  length (regular_stencil k fi fj zi zj) = 4%nat /\ Forall (cell_ok (k_ni k * k_nj k)) (regular_stencil k fi fj zi zj).
Proof.
  intros Si Sj Fi Fj. destruct Hni, Hnj. unfold regular_stencil.
  pose proof (left_cell_range (k_periodic k) (Z.of_nat (k_ni k)) zi ltac:(lia)). pose proof (left_cell_range false (Z.of_nat (k_nj k)) zj ltac:(lia)).
  apply stencil_cells_ok; try done; try (apply right_cell_range; lia); apply clamped_unit; try done; lia.
Qed.

(** The cell to the right, as the kernel computes it. *)
Lemma right_index n w i : (0 < n)%nat -> Z.of_nat n < 2 ^ 30 -> 0 <= i < Z.of_nat n ->
  (let! i1 := arith I32 (i + 1) in
   if cast_int (Z.of_nat n) <=? i1 then (if w : bool then Ok 0 else arith I32 (cast_int (Z.of_nat n) - 1)) else Ok i1)
  = Ok (right_cell w (Z.of_nat n) i).
Proof.
  intros Hn H30 Hi. rewrite cast_int_id by lia. rewrite arith_ok by (cbn; lia). cbn [bind]. unfold right_cell.
  destruct (Z.leb_spec (Z.of_nat n) (i + 1)).
  - replace (i + 1) with (Z.of_nat n) by lia. destruct w; [by rewrite Z.mod_same by lia|]. rewrite arith_ok by (cbn; lia). f_equal. lia.
  - destruct w; [by rewrite Z.mod_small by lia|f_equal; lia].
Qed.

Lemma compute_weights_ok lon lat : let fi := fractional_i k lon in let fj := fractional_j k lat in
  outside k fi fj = false -> placeable fi fj ->
  exists zi zj, floorZ fi = Some zi /\ floorZ fj = Some zj /\
    compute_weights k lon lat = Ok (Some (fst <$> regular_stencil k fi fj zi zj, snd <$> regular_stencil k fi fj zi zj)) /\
    length (regular_stencil k fi fj zi zj) = 4%nat /\ Forall (cell_ok (k_ni k * k_nj k)) (regular_stencil k fi fj zi zj).
Proof.
  intros fi fj Ho Hp. destruct (placed_floors lon lat Ho Hp) as (Fi & Fj & zi & zj & Ei & Ej & Bi & Bj). fold fi in Fi, Ei. fold fj in Fj, Ej.
  exists zi, zj. split; [done|]. split; [done|]. split; [|apply regular_stencil_ok; [apply sub_half_short..|done|done]].
  destruct Hni as [Hni0 Hni1], Hnj as [Hnj0 Hnj1]. unfold compute_weights. fold fi fj. rewrite Ho. unfold floor_int. rewrite Ei, Ej.
  rewrite !arith_ok by (cbn in *; lia). cbn [bind]. rewrite clamp_index_ok by lia. cbn [bind].
  assert (Ec : (if k_periodic k then wrap_index (k_ni k) zi else clamp_index (k_ni k) zi) = Ok (left_cell (k_periodic k) (Z.of_nat (k_ni k)) zi)).
  { destruct (k_periodic k); [apply wrap_index_ok; [done|lia|done]|apply clamp_index_ok; [done|lia]]. }
  rewrite Ec. cbn [bind].
  pose proof (left_cell_range (k_periodic k) (Z.of_nat (k_ni k)) zi ltac:(lia)) as Li. pose proof (left_cell_range false (Z.of_nat (k_nj k)) zj ltac:(lia)) as Lj.
  set (i := left_cell (k_periodic k) _ zi) in *. set (j := left_cell false _ zj) in *.
  pose proof (right_index (k_ni k) (k_periodic k) i Hni0 ltac:(lia) Li) as Ri. pose proof (right_index (k_nj k) false j Hnj0 ltac:(lia) Lj) as Rj.
  rewrite arith_ok in Ri |- * by (cbn; lia). cbn [bind] in Ri |- *. rewrite Ri. cbn [bind].
  rewrite arith_ok in Rj |- * by (cbn; lia). cbn [bind] in Rj |- *. rewrite Rj. cbn [bind].
  destruct (stencil_unzip (k_ni k) (k_nj k) i (right_cell (k_periodic k) (Z.of_nat (k_ni k)) i) j (right_cell false (Z.of_nat (k_nj k)) j)
    (clamp01 (dsub fi (of_int i))) (clamp01 (dsub fj (of_int j)))) as [E1 E2]; [lia|lia|done|apply right_cell_range; lia|done|apply right_cell_range; lia|].
  rewrite E1, E2 at 1. done.
Qed.
End Kernel.

(** ** Centers *)

Lemma centroid_ok m c : mesh_ok m -> mesh_sized m -> (c < n_cells m)%nat -> centroid m c = Ok (cell_center m c).
Proof.
  intros Hm (Hn & Hi & _) Hc. destruct (mesh_coords m Hm) as [Hv H2]. unfold centroid. rewrite read_offset by (done || lia). cbn [bind].
  replace (Z.of_nat c + 1) with (Z.of_nat (c + 1)) by lia. rewrite read_offset by (done || lia). cbn [bind].
  pose proof (offset_bounds m c Hm ltac:(lia)) as B0. pose proof (offset_bounds m (c + 1) Hm ltac:(lia)) as B1. pose proof (cell_nodes_length m c Hm Hc) as Hl.
  rewrite !to_u64_id by lia. rewrite <- Hl, Nat2Z.id.
  rewrite (for_each_list (fun '(a, b) v => (dadd a (coord (node_coords m) v 0), dadd b (coord (node_coords m) v 1))) (cell_nodes m c) 0).
  - cbn [bind]. unfold cell_center, sum_of.
    assert (E : forall l a b, foldl (fun '(a, b) v => (dadd a (coord (node_coords m) v 0), dadd b (coord (node_coords m) v 1))) (a, b) l
      = (foldl dadd a ((fun v => coord (node_coords m) v 0) <$> l), foldl dadd b ((fun v => coord (node_coords m) v 1) <$> l))).
    { induction l as [|v l IH]; intros a b; [done|]. cbn. by rewrite IH. }
    by rewrite E.
  - done.
  - intros i [a b] Hi'. destruct (lookup_lt_is_Some_2 (cell_nodes m c) i Hi') as [v Hv']. pose proof (cell_nodes_read m c Hm Hc i v Hv') as Er.
    cbn [Nat.add]. rewrite Er. cbn [bind]. pose proof (cell_nodes_range m c Hm) as Hr. rewrite list.Forall_forall in Hr.
    specialize (Hr v (list_elem_of_lookup_2 _ _ _ Hv')). unfold n_nodes in *. rewrite to_u64_id by lia. rewrite !read2_ok by (done || lia). cbn [bind].
    by rewrite (lookup_total_Some _ _ _ Hv').
Qed.

(** ** Building a matrix *)

Definition entries_of (l : list (Z * (Z * double))) : Entries := mkEntries ((fun e => snd (snd e)) <$> l) (fst <$> l) ((fun e => fst (snd e)) <$> l).

Lemma push_entries_of l w r c : push_entry (entries_of l) w r c = entries_of (l ++ [(r, (c, w))]).
Proof. unfold push_entry, entries_of. by rewrite !fmap_app. Qed.

Lemma emit_entries c ns st l : Z.of_nat c < 2 ^ 63 -> Z.of_nat ns < 2 ^ 63 -> Forall (cell_ok ns) st ->
  emit c (fst <$> st) (snd <$> st) (entries_of l) = entries_of (l ++ ((fun e => (Z.of_nat c, e)) <$> st)).
Proof.
  intros Hc Hn Hs. unfold emit. revert l. induction Hs as [|[k w] st [Hk _] _ IH]; intros l; [cbn; by rewrite app_nil_r|].
  rewrite !fmap_cons. cbn [zip_with foldl fst snd]. cbn [fst] in Hk. rewrite !to_index_id in * by lia. rewrite push_entries_of, IH.
  f_equal. by rewrite <- (assoc_L app).
Qed.

Lemma stencil_entries_S {A} (f : nat -> list A) n : stencil_entries f (S n) = stencil_entries f n ++ ((fun e => (Z.of_nat n, e)) <$> f n).
Proof. unfold stencil_entries. rewrite seq_S, fmap_app, concat_app. cbn. by rewrite app_nil_r. Qed.

Lemma emit_loop n ns (f : nat -> list (Z * double)) body : Z.of_nat n < 2 ^ 63 -> Z.of_nat ns < 2 ^ 63 ->
  (forall c, (c < n)%nat -> Forall (cell_ok ns) (f c)) ->
  (forall c es, (c < n)%nat -> body c es = Ok (emit c (fst <$> f c) (snd <$> f c) es)) ->
  for_each (seq 0 n) body no_entries = Ok (entries_of (stencil_entries f n)).
Proof.
  intros Hn Hs Hf Hb. destruct (for_each_inv (fun i es => es = entries_of (stencil_entries f i)) n body no_entries) as (es & E & ->); [|done|done].
  intros i t Hi ->. rewrite Hb by done. eexists. split; [done|]. rewrite (emit_entries i ns) by (lia || by apply Hf). by rewrite stencil_entries_S.
Qed.

Lemma stencil_entries_elem {A} (f : nat -> list A) n e : e ∈ stencil_entries f n <-> exists c x, (c < n)%nat /\ x ∈ f c /\ e = (Z.of_nat c, x).
Proof.
  unfold stencil_entries. rewrite list_elem_of_In, in_concat. split.
  - intros (l & Hl%list_elem_of_In & He%list_elem_of_In). apply list_elem_of_fmap in Hl as (c & -> & Hc%elem_of_seq).
    apply list_elem_of_fmap in He as (x & -> & Hx). exists c, x. split; [lia|done].
  - intros (c & x & Hc & Hx & ->). exists ((fun e => (Z.of_nat c, e)) <$> f c). split; apply list_elem_of_In.
    + apply list_elem_of_fmap. exists c. split; [done|]. apply elem_of_seq. lia.
    + apply list_elem_of_fmap. by exists x.
Qed.

Lemma zip_entries (l : list (Z * (Z * double))) : zip (fst <$> l) (zip ((fun e => fst (snd e)) <$> l) ((fun e => snd (snd e)) <$> l)) = l.
Proof. induction l as [|[a [b c]] l IH]; [done|]. cbn. by rewrite IH. Qed.

Lemma bilinear_matrix_intro ns nd f frac : (forall c, (c < nd)%nat -> Forall (cell_ok ns) (f c)) ->
  let es := entries_of (stencil_entries f nd) in
  bilinear_matrix (new_matrix (weights_vec es) (rows_vec es) (cols_vec es) (replicate ns one) (frac <$> seq 0 nd)
    (replicate ns dzero) (replicate nd dzero) ns nd) ns nd f frac.
Proof.
  intros Hf es.
  assert (Hx : forall e, e ∈ stencil_entries f nd -> 0 <= fst e < Z.of_nat nd /\ cell_ok ns (snd e)).
  { intros e (c & x & Hc & He & ->)%stencil_entries_elem. specialize (Hf c Hc). rewrite list.Forall_forall in Hf. split; [cbn; lia|by apply Hf]. }
  split; try done.
  - unfold coo. cbn. apply zip_entries.
  - unfold well_formed, nnz. cbn. rewrite !length_fmap. do 2 (split; [done|]). split; apply Forall_fmap, list.Forall_forall; intros e He; by apply Hx.
  - cbn. apply Forall_fmap, list.Forall_forall. intros e He. by apply Hx.
Qed.

(** One more term in the sum of one key. *)
Lemma update_sums {E} (key : E -> Z) (term : nat -> E -> double) n (l : list E) e : 0 <= key e < Z.of_nat n ->
  update (fun f => dadd f (term (Z.to_nat (key e)) e)) ((fun c => sum_of (term c <$> filter (fun e => key e = Z.of_nat c) l)) <$> seq 0 n) (key e)
  = Ok ((fun c => sum_of (term c <$> filter (fun e => key e = Z.of_nat c) (l ++ [e]))) <$> seq 0 n).
Proof.
  intros Hk. rewrite update_in_bounds by (rewrite length_fmap, length_seq; lia). f_equal. apply list_eq. intros c.
  destruct (decide (c < n)%nat) as [Hc|Hc].
  2: { rewrite !lookup_ge_None_2; [done|..]; rewrite ?length_alter, ?length_fmap, ?length_seq; lia. }
  rewrite (list_lookup_fmap _ (seq 0 n)), lookup_seq_lt by done. cbn [fmap option_fmap option_map Nat.add]. rewrite list.filter_app, filter_cons, filter_nil.
  destruct (decide (c = Z.to_nat (key e))) as [->|Hne].
  - rewrite list_lookup_alter_eq, list_lookup_fmap, lookup_seq_lt by lia. cbn [fmap option_fmap option_map Nat.add]. rewrite decide_True by lia.
    unfold sum_of. by rewrite fmap_app, foldl_app.
  - rewrite list_lookup_alter_ne, list_lookup_fmap, lookup_seq_lt by done. cbn [fmap option_fmap option_map Nat.add]. rewrite decide_False by lia. by rewrite app_nil_r.
Qed.

(** The rows that are named are marked. *)
Lemma mark_rows {A} (on off : A) nd rows : Z.of_nat nd < 2 ^ 63 -> Forall (fun r => 0 <= r < Z.of_nat nd) rows ->
  for_each (seq 0 (length rows)) (fun k l => let! r := read rows (Z.of_nat k) in write l (to_u64 r) on) (replicate nd off)
  = Ok ((fun j => if decide (Z.of_nat j ∈ rows) then on else off) <$> seq 0 nd).
Proof.
  intros Hn Hr. rewrite list.Forall_forall in Hr. 
  destruct (for_each_inv (fun i l => l = (fun j => if decide (Z.of_nat j ∈ take i rows) then on else off) <$> seq 0 nd) (length rows)
    (fun k l => let! r := read rows (Z.of_nat k) in write l (to_u64 r) on) (replicate nd off)) as (l & E & ->).
  - intros i t Hi ->. destruct (lookup_lt_is_Some_2 rows i Hi) as [r Er]. rewrite (read_nat _ _ _ Er). cbn [bind].
    specialize (Hr r (list_elem_of_lookup_2 _ _ _ Er)). rewrite to_u64_id by lia. rewrite write_in_bounds by (rewrite length_fmap, length_seq; lia).
    eexists. split; [done|]. apply list_eq. intros j. replace (1 + i)%nat with (S i) by lia. rewrite (take_S_r _ _ _ Er).
    destruct (decide (j < nd)%nat) as [Hj|Hj].
    2: { rewrite !lookup_ge_None_2; [done|..]; rewrite ?length_insert, ?length_fmap, ?length_seq; lia. }
    rewrite (list_lookup_fmap _ (seq 0 nd) j), lookup_seq_lt by done. cbn [fmap option_fmap option_map Nat.add].
    destruct (decide (j = Z.to_nat r)) as [->|Hne].
    + rewrite list_lookup_insert_eq by (rewrite length_fmap, length_seq; lia). rewrite decide_True; [done|]. rewrite Z2Nat.id by lia.
      apply elem_of_app. right. by left.
    + rewrite list_lookup_insert_ne by done. rewrite list_lookup_fmap, lookup_seq_lt by done. cbn. f_equal. apply decide_ext.
      rewrite elem_of_app, elem_of_cons. split; [by left|]. intros [|[Hx|Hx]]; [done|lia|by apply elem_of_nil in Hx].
  - apply list_eq. intros j. destruct (decide (j < nd)%nat) as [Hj|Hj].
    + rewrite lookup_replicate_2 by done. rewrite list_lookup_fmap, lookup_seq_lt by done. cbn. rewrite decide_False; [done|]. apply not_elem_of_nil.
    + rewrite !lookup_ge_None_2; [done|..]; rewrite ?length_fmap, ?length_seq, ?length_replicate; lia.
  - rewrite E, firstn_all. done.
Qed.

Lemma mapped_fractions_ok nd rows : Z.of_nat nd < 2 ^ 63 -> Forall (fun r => 0 <= r < Z.of_nat nd) rows ->
  mapped_fractions nd rows = Ok ((fun j => if decide (Z.of_nat j ∈ rows) then one else dzero) <$> seq 0 nd).
Proof. apply mark_rows. Qed.

(** ** Positions on rectilinear grids *)

Lemma div_short x y : short (ddiv x y).
Proof.
  destruct x as [s|s| |s m e], y as [s'|s'| |s' m' e']; try done. unfold ddiv, SFdiv, SFdiv_core_binary.
  set (a := match _ with Z0 => _ | _ => _ end). assert (Ha : 0 <= a).
  { unfold a. destruct (e - e' - _); [lia| |lia]. apply Z.shiftl_nonneg. lia. }
  pose proof (Z.div_pos a (Zpos m') Ha ltac:(lia)) as Hq. unfold Z.div in Hq. destruct (Z.div_eucl a (Z.pos m')) as [q r]. by apply round_short.
Qed.

Lemma clamp_minmax_unit t : short t -> unit_interval (clamp_minmax t).
Proof.
  intros Hs. unfold clamp_minmax, std_max, std_min. destruct (SFltb t one) eqn:E1.
  - destruct (SFltb dzero t) eqn:E0; [|done]. assert (E : clamp01 t = t).
    { destruct (ltb_number _ _ E0) as [_ Hn]. unfold clamp01.
      assert (A : SFltb t dzero = false) by (apply SFltb_key in E0; [|done..]; apply not_SFltb_key; [done..|]; intros C; pose proof (lex_trans _ _ _ E0 C) as F; cbn in F; lia).
      rewrite A. assert (B : SFltb one t = false); [|by rewrite B]. apply SFltb_key in E1; [|done..]. apply not_SFltb_key; [done..|]. intros C.
      pose proof (lex_trans _ _ _ C E1) as F. destruct (key one) as [[]]. cbn in F. lia. }
    rewrite <- E. apply clamp_unit; [apply (ltb_number _ _ E0)|done].
  - change (SFltb dzero one) with true. apply unit_one.
Qed.

(** The centers of [n] intervals between [n + 1] lines. *)
Definition centers_of (lines : list double) : list double := zip_with (fun a b => dmul half (dadd a b)) lines (tail lines).

Lemma interval_centers_ok n lines : length lines = S n -> interval_centers n lines = Ok (centers_of lines).
Proof.
  intros Hl. assert (Hc : length (centers_of lines) = n) by (unfold centers_of; rewrite length_zip_with, length_tl; lia).
  unfold interval_centers. destruct (for_each_inv (fun i l => l = take i (centers_of lines)) n (fun i centers =>
    let! a := read lines (Z.of_nat i) in let! b := read lines (Z.of_nat i + 1) in Ok (centers ++ [dmul half (dadd a b)])) []) as (l & E & ->); [|done|rewrite E; f_equal; by apply take_ge; lia].
  intros i t Hi ->. destruct (lookup_lt_is_Some_2 lines i) as [a Ha]; [lia|]. destruct (lookup_lt_is_Some_2 lines (S i)) as [b Hb]; [lia|].
  rewrite (read_nat _ _ _ Ha). cbn [bind]. replace (Z.of_nat i + 1) with (Z.of_nat (S i)) by lia. rewrite (read_nat _ _ _ Hb). cbn [bind].
  eexists. split; [done|]. symmetry. apply take_S_r. unfold centers_of. apply lookup_zip_with_Some. exists a, b.
  split; [done|]. split; [done|]. by destruct lines.
Qed.

Lemma upper_bound_le l x : (upper_bound l x <= length l)%nat.
Proof. induction l as [|y l IH]; [done|]. cbn. destruct (SFltb x y); lia. Qed.

(** Column and relative position of a coordinate between the centers of an axis. *)
Definition rect_left (centers : list double) (x : double) : Z := left_cell false (Z.of_nat (length centers)) (Z.of_nat (upper_bound centers x) - 1).
Definition rect_fraction (centers : list double) (x : double) : double :=
  let i := Z.to_nat (rect_left centers x) in
  let x0 := default dzero (centers !! i) in
  clamp_minmax (ddiv (dsub x x0) (dsub (default dzero (centers !! S i)) x0)).

Lemma locate_ok centers x : (2 <= length centers)%nat -> Z.of_nat (length centers) < 2 ^ 31 ->
  locate (length centers) centers x = Ok (rect_left centers x, rect_fraction centers x) /\
  0 <= rect_left centers x /\ rect_left centers x + 1 < Z.of_nat (length centers) /\ unit_interval (rect_fraction centers x).
Proof.
  intros H2 H31. pose proof (upper_bound_le centers x) as Hu. unfold locate. rewrite cast_int_id by lia. rewrite arith_ok by (cbn; lia). cbn [bind].
  rewrite clamp_index_ok by lia. cbn [bind]. fold (rect_left centers x). assert (Hb : 0 <= rect_left centers x /\ rect_left centers x + 1 < Z.of_nat (length centers)) by (unfold rect_left, left_cell; lia).
  destruct (read_in_bounds centers (rect_left centers x)) as (x0 & -> & E0); [lia|]. cbn [bind]. rewrite arith_ok by (cbn; lia). cbn [bind].
  destruct (read_in_bounds centers (rect_left centers x + 1)) as (x1 & -> & E1); [lia|]. cbn [bind].
  replace (Z.to_nat (rect_left centers x + 1)) with (S (Z.to_nat (rect_left centers x))) in E1 by lia.
  split; [unfold rect_fraction; by rewrite E0, E1|]. split; [lia|]. split; [lia|]. apply clamp_minmax_unit, div_short.
Qed.

(** ** The cells of a destination *)

(** The entries a destination cell centered at [p] gets from a regular grid. *)
Definition off_grid (k : BilinearRectKernel) (p : double * double) : bool := outside k (fractional_i k (fst p)) (fractional_j k (snd p)).

Definition cell_stencil (k : BilinearRectKernel) (p : double * double) : list (Z * double) :=
  let fi := fractional_i k (fst p) in
  let fj := fractional_j k (snd p) in
  if off_grid k p then [] else regular_stencil k fi fj (default 0 (floorZ fi)) (default 0 (floorZ fj)).

(** A regular grid of as many cells as the source mesh has. *)
Definition grid_fits (src : UnstructuredMesh) (ni nj : nat) : Prop :=
  (0 < ni)%nat /\ Z.of_nat ni < 2 ^ 28 /\ (0 < nj)%nat /\ Z.of_nat nj < 2 ^ 28 /\ n_cells src = (ni * nj)%nat.

Lemma compute_weights_stencil k p : (0 < k_ni k)%nat /\ Z.of_nat (k_ni k) < 2 ^ 28 -> (0 < k_nj k)%nat /\ Z.of_nat (k_nj k) < 2 ^ 28 ->
  (off_grid k p = false -> placeable k (fractional_i k (fst p)) (fractional_j k (snd p))) ->
  compute_weights k (fst p) (snd p) = Ok (if off_grid k p then None else Some (fst <$> cell_stencil k p, snd <$> cell_stencil k p)) /\
  Forall (cell_ok (k_ni k * k_nj k)) (cell_stencil k p) /\ (off_grid k p = false -> cell_stencil k p <> []).
Proof.
  intros Hi Hj Hp. unfold cell_stencil. destruct (off_grid k p) eqn:Eo.
  - split; [|by split]. unfold compute_weights. unfold off_grid in Eo. by rewrite Eo.
  - destruct (compute_weights_ok k Hi Hj (fst p) (snd p) Eo (Hp eq_refl)) as (zi & zj & Ei & Ej & E & L & F). rewrite Ei, Ej. cbn [default from_option id].
    split; [exact E|]. split; [done|]. intros _ C. by rewrite C in L.
Qed.

Lemma stencil_fractions n f (dead : nat -> bool) : Z.of_nat n < 2 ^ 63 ->
  (forall c, (c < n)%nat -> if dead c then f c = [] else f c <> []) ->
  mapped_fractions n (rows_vec (entries_of (stencil_entries f n))) = Ok ((fun c => if dead c then dzero else one) <$> seq 0 n).
Proof.
  intros Hn Hd. rewrite mapped_fractions_ok; [|done|].
  2: { cbn. apply Forall_fmap, list.Forall_forall. intros e (c & x & Hlt & _ & ->)%stencil_entries_elem. cbn. lia. }
  f_equal. apply list_fmap_ext. intros _ c Hc%list_elem_of_lookup_2%elem_of_seq. specialize (Hd c ltac:(lia)). cbn [rows_vec entries_of].
  destruct (dead c).
  - rewrite decide_False; [done|]. intros (e & Ee & (c' & x & _ & Hx & ->)%stencil_entries_elem)%list_elem_of_fmap. cbn in Ee.
    replace c' with c in Hx by lia. rewrite Hd in Hx. by apply elem_of_nil in Hx.
  - rewrite decide_True; [done|]. apply list_elem_of_fmap. destruct (f c) as [|x st] eqn:Es; [done|].
    exists (Z.of_nat c, x). split; [done|]. apply stencil_entries_elem. exists c, x. rewrite Es. split; [lia|]. split; [by left|done].
Qed.
