(* ===== verification/BilinearRectProps.v ===== *)
(** * AXIS: what the bilinear fast paths compute *)
From Stdlib Require Import ZArith Lia SpecFloat.
From stdpp Require Import base list numbers.
From S2P Require Import Prelude CInt Blend KokkosArrays InterpolationMatrix AxisMesh Magnitude UnitInterval DoubleOrder RegularGrid BilinearRect.
Local Open Scope Z_scope.

(** C33. [generate_bilinear_rect] of weight_generator_bilinear_rect.cpp, from a regular source grid of fewer than
    [2 ^ 28] columns and rows to any well-formed mesh whose centers can be placed (their
    coordinates are numbers): if the policy for unmapped cells is an error and some center
    lies beyond the bounds of the source, the call throws; otherwise it returns the matrix
    whose entries are, cell by cell, the four cells around the center with the bilinear
    weights of its position, none for a cell outside.  No access leaves an array, every index
    names a cell, every weight is between zero and one, and the destination fractions are
    one exactly where a cell is mapped. *)
Theorem generate_bilinear_rect_correct src dst config info : let k := kernel_of info in
  grid_fits src (info_ni info) (info_nj info) -> mesh_ok dst -> mesh_sized dst ->
  (forall c, (c < n_cells dst)%nat -> off_grid k (cell_center dst c) = false ->
     placeable k (fractional_i k (fst (cell_center dst c))) (fractional_j k (snd (cell_center dst c)))) ->
  (unmapped config = Error /\ (exists c, (c < n_cells dst)%nat /\ off_grid k (cell_center dst c) = true) ->
     generate_bilinear_rect src dst config info = Throw runtime_error) /\
  (unmapped config = Ignore \/ (forall c, (c < n_cells dst)%nat -> off_grid k (cell_center dst c) = false) ->
     exists m, generate_bilinear_rect src dst config info = Ok m /\
       bilinear_matrix m (n_cells src) (n_cells dst) (fun c => cell_stencil k (cell_center dst c))
         (fun c => if off_grid k (cell_center dst c) then dzero else one)).
Proof.
  intros k (Hi0 & Hi & Hj0 & Hj & Hsrc) Hm Hs Hp. pose proof Hs as (_ & _ & Hnd).
  assert (Hsz : Z.of_nat (n_cells src) < 2 ^ 63) by (rewrite Hsrc; nia).
  assert (Hc : forall c, (c < n_cells dst)%nat -> centroid dst c = Ok (cell_center dst c)) by (intros c Hc; by apply centroid_ok).
  assert (Hw : forall c, (c < n_cells dst)%nat -> _) by (intros c Hlt; exact (compute_weights_stencil k (cell_center dst c) (conj Hi0 Hi) (conj Hj0 Hj) (Hp c Hlt))).
  unfold generate_bilinear_rect. rewrite !(proj2 (Nat.eqb_neq _ 0)) by lia. cbn [orb]. fold k. split.
  - intros [He (c & Hlt & Ho)]. rewrite (for_each_throw runtime_error _ _ _ c); [done|apply elem_of_seq; lia| |].
    + intros t. rewrite Hc by done. cbn [bind]. destruct (cell_center dst c) as [lon lat] eqn:Ec. specialize (Hw c Hlt). rewrite Ec, Ho in Hw.
      destruct Hw as (E & _). cbn [fst snd] in E. rewrite E. cbn [bind]. by rewrite decide_True.
    + intros j t Hj'%elem_of_seq. rewrite Hc by lia. cbn [bind]. specialize (Hw j ltac:(lia)). destruct (cell_center dst j) as [lon lat] eqn:Ec.
      destruct Hw as (E & _). cbn [fst snd] in E. rewrite E. cbn [bind]. destruct (off_grid k (lon, lat)); [left; by rewrite decide_True|right; by eexists].
  - intros Hig. rewrite (emit_loop _ (n_cells src) (fun c => cell_stencil k (cell_center dst c))); [|done|done| |].
    + cbn [bind]. rewrite (stencil_fractions _ _ (fun c => off_grid k (cell_center dst c))); [|done|].
      * cbn [bind]. eexists. split; [done|]. apply bilinear_matrix_intro. intros c Hlt. rewrite Hsrc. by apply Hw.
      * intros c Hlt. destruct (Hw c Hlt) as (_ & _ & Hne). destruct (off_grid k (cell_center dst c)) eqn:Eo; [|by apply Hne].
        unfold cell_stencil. by rewrite Eo.
    + intros c Hlt. rewrite Hsrc. by apply Hw.
    + intros c es Hlt. rewrite Hc by done. cbn [bind]. specialize (Hw c Hlt). destruct (cell_center dst c) as [lon lat] eqn:Ec.
      destruct Hw as (E & _). cbn [fst snd] in E. rewrite E. cbn [bind]. destruct (off_grid k (lon, lat)) eqn:Eo; [|done].
      destruct Hig as [Hig|Hig]; [|specialize (Hig c Hlt); rewrite Ec in Hig; congruence]. rewrite decide_False by congruence.
      unfold cell_stencil. by rewrite Eo.
Qed.

(** ** Rectilinear grids *)

(** The entries a destination cell centered at [p] gets from a rectilinear grid. *)
Definition rect_stencil (info : RectilinearGridInfo) (p : double * double) : list (Z * double) :=
  let lons := centers_of (unique_lons info) in
  let lats := centers_of (unique_lats info) in
  let i := rect_left lons (fst p) in
  let j := rect_left lats (snd p) in
  stencil (rect_ni info) i (i + 1) j (j + 1) (rect_fraction lons (fst p)) (rect_fraction lats (snd p)).

(** What the detection reports of a rectilinear grid. *)
Definition rect_fits (src : UnstructuredMesh) (info : RectilinearGridInfo) : Prop :=
  grid_fits src (rect_ni info) (rect_nj info) /\ length (unique_lons info) = S (rect_ni info) /\ length (unique_lats info) = S (rect_nj info).

Lemma centers_length lines n : length lines = S n -> length (centers_of lines) = n.
Proof. intros H. unfold centers_of. rewrite length_zip_with, length_tl. lia. Qed.

(** [generate_bilinear_rect_nonuniform] of weight_generator_bilinear_rect_nonuniform.cpp, from a rectilinear
    grid of at least two columns and two rows to any well-formed mesh: the matrix has the
    four source cells found by bisection for every destination cell, with weights between
    zero and one, also for a center far from the source grid or that is not a number: there is no
    unmapped cell, whatever the configured policy, and every destination fraction is one. *)
Theorem generate_bilinear_nonuniform_correct src dst info : rect_fits src info -> (2 <= rect_ni info)%nat -> (2 <= rect_nj info)%nat ->
  mesh_ok dst -> mesh_sized dst ->
  exists m, generate_bilinear_rect_nonuniform src dst info = Ok m /\
    bilinear_matrix m (n_cells src) (n_cells dst) (fun c => rect_stencil info (cell_center dst c)) (fun _ => one).
Proof.
  intros ((Hi0 & Hi & Hj0 & Hj & Hsrc) & Hlon & Hlat) H2i H2j Hm Hs. pose proof Hs as (_ & _ & Hnd).
  pose proof (centers_length _ _ Hlon) as Clon. pose proof (centers_length _ _ Hlat) as Clat.
  assert (Hst : forall p, length (rect_stencil info p) = 4%nat /\ Forall (cell_ok (rect_ni info * rect_nj info)) (rect_stencil info p)).
  { intros p. unfold rect_stencil. destruct (locate_ok (centers_of (unique_lons info)) (fst p)) as (_ & A1 & A2 & A3); [lia|lia|].
    destruct (locate_ok (centers_of (unique_lats info)) (snd p)) as (_ & B1 & B2 & B3); [lia|lia|]. apply stencil_cells_ok; try done; lia. }
  unfold generate_bilinear_rect_nonuniform. rewrite !interval_centers_ok by done. cbn [bind].
  rewrite (emit_loop _ (n_cells src) (fun c => rect_stencil info (cell_center dst c))); [|done|rewrite Hsrc; nia| |].
  - cbn [bind]. eexists. split; [done|].
    pose proof (bilinear_matrix_intro (n_cells src) (n_cells dst) (fun c => rect_stencil info (cell_center dst c)) (fun _ => one)) as Hb.
    assert (E : (fun _ => one) <$> seq 0 (n_cells dst) = replicate (n_cells dst) one).
    { apply list_eq. intros c. rewrite list_lookup_fmap. destruct (decide (c < n_cells dst)%nat).
      - by rewrite lookup_seq_lt, lookup_replicate_2 by done.
      - rewrite !lookup_ge_None_2; [done|..]; rewrite ?length_seq, ?length_replicate; lia. }
    cbv zeta in Hb. rewrite E in Hb. apply Hb. intros c _. rewrite Hsrc. by apply Hst.
  - intros c _. rewrite Hsrc. by apply Hst.
  - intros c es Hlt. rewrite centroid_ok by done. cbn [bind]. destruct (cell_center dst c) as [lon lat]. unfold rect_stencil. cbn [fst snd].
    destruct (locate_ok (centers_of (unique_lons info)) lon) as (E1 & A1 & A2 & A3); [lia|lia|].
    destruct (locate_ok (centers_of (unique_lats info)) lat) as (E2 & B1 & B2 & B3); [lia|lia|].
    rewrite Clon in E1, A2. rewrite Clat in E2, B2. rewrite E1. cbn [bind]. rewrite E2. cbn [bind].
    destruct (stencil_unzip (rect_ni info) (rect_nj info) (rect_left (centers_of (unique_lons info)) lon) (rect_left (centers_of (unique_lons info)) lon + 1)
      (rect_left (centers_of (unique_lats info)) lat) (rect_left (centers_of (unique_lats info)) lat + 1)
      (rect_fraction (centers_of (unique_lons info)) lon) (rect_fraction (centers_of (unique_lats info)) lat)) as [E3 E4]; [lia..|].
    by rewrite <- E3, <- E4.
Qed.

(** The same call for a source grid of one column has no meaning as soon as there is a
    destination cell: the index kept safe for one column by the comment [Safety for ni == 1]
    is followed by a read of the second center, past the end of the array. *)
Theorem one_column_undefined src dst info : rect_fits src info -> rect_ni info = 1%nat -> mesh_ok dst -> mesh_sized dst -> (0 < n_cells dst)%nat ->
  generate_bilinear_rect_nonuniform src dst info = Undef.
Proof.
  intros ((Hi0 & Hi & Hj0 & Hj & Hsrc) & Hlon & Hlat) H1 Hm Hs Hd. pose proof (centers_length _ _ Hlon) as Clon.
  unfold generate_bilinear_rect_nonuniform. rewrite !interval_centers_ok by done. cbn [bind]. destruct (n_cells dst) as [|n] eqn:En; [lia|].
  cbn [seq for_each]. rewrite centroid_ok by (done || lia). cbn [bind]. destruct (cell_center dst 0) as [lon lat]. unfold locate at 1. rewrite H1 in *.
  pose proof (upper_bound_le (centers_of (unique_lons info)) lon). rewrite cast_int_id by lia. rewrite arith_ok by (cbn; lia). cbn [bind].
  rewrite clamp_index_ok by (done || lia). cbn [bind]. replace (left_cell false (Z.of_nat 1) _) with 0 by (unfold left_cell; lia).
  destruct (read_in_bounds (centers_of (unique_lons info)) 0) as (x0 & -> & _); [lia|]. cbn [bind]. rewrite arith_ok by (cbn; lia). cbn [bind]. by rewrite read_out_of_bounds by lia.
Qed.

(** ** The seam of a circle *)

Definition is_zero (x : double) : bool := match x with S754_zero _ => true | _ => false end.

Lemma zero_product x y : is_zero x = true -> unit_interval y -> is_zero (dmul x y) = true.
Proof. intros Hx Hy. destruct x; try done. destruct y as [|[]| |[]]; done. Qed.

(** A negative position less a column index that is not negative is clamped to zero. *)
Lemma clamp_negative f i : floorZ f = Some (-1) -> 0 <= i < 2 ^ 53 -> is_zero (clamp01 (dsub f (of_int i))) = true.
Proof.
  intros Hf Hi. assert (Ef : exists m e, f = S754_finite true m e).
  { destruct f as [| | |[] m e]; try discriminate Hf; [by exists m, e|]. cbn in Hf. injection Hf as Hf. exfalso. destruct (Z.leb_spec 0 e).
    - pose proof (Z.pow_pos_nonneg 2 e). nia.
    - pose proof (Z.div_pos (Zpos m) (2 ^ (- e))). lia. }
  destruct Ef as (m & e & ->). destruct (decide (i = 0)) as [->|Hne]; [done|]. destruct (of_int_exact i ltac:(lia)) as (m' & e' & -> & _).
  unfold dsub, SFsub. cbv zeta. cbn [cond_Zopp]. set (a := fst (shl_align m e _)). set (b := fst (shl_align m' e' _)).
  change (- Zpos a - Zpos b) with (Zneg (a + b)). cbn [binary_normalize]. unfold binary_round. destruct (shl_align (a + b) _ _) as [p g].
  by destruct (round_sign true (Zpos p) g loc_Exact) as [-> |[-> |(q & h & ->)]].
Qed.

(** On a circle of longitudes, a point in the first half of the first column, from its western edge
    up to the center, gets nothing of that column: its position has floor -1, which is wrapped to the
    last column, and the relative position, computed from the wrapped index, is clamped to zero.
    The whole weight goes to the last column, and the interpolated field jumps at the
    center of the first one. *)
Theorem first_half_column k lon lat : k_periodic k = true -> (0 < k_ni k)%nat /\ Z.of_nat (k_ni k) < 2 ^ 28 -> (0 < k_nj k)%nat /\ Z.of_nat (k_nj k) < 2 ^ 28 ->
  outside k (fractional_i k lon) (fractional_j k lat) = false -> isnan (fractional_j k lat) = false -> floorZ (fractional_i k lon) = Some (-1) ->
  exists j j1 w w' z z', 0 <= j < Z.of_nat (k_nj k) /\ 0 <= j1 < Z.of_nat (k_nj k) /\
    compute_weights k lon lat = Ok (Some ([j * Z.of_nat (k_ni k) + (Z.of_nat (k_ni k) - 1); j * Z.of_nat (k_ni k) + 0;
      j1 * Z.of_nat (k_ni k) + (Z.of_nat (k_ni k) - 1); j1 * Z.of_nat (k_ni k) + 0], [w; z; w'; z'])) /\ is_zero z = true /\ is_zero z' = true.
Proof.
  intros Hk Hi Hj Ho Hn Hf. destruct (compute_weights_ok k Hi Hj lon lat Ho) as (zi & zj & Ei & Ej & E & _ & F).
  { split; [done|]. rewrite Hk. exists (-1). split; [done|]. cbn. lia. }
  rewrite Hf in Ei. injection Ei as <-. unfold regular_stencil in E, F. rewrite Hk in E, F.
  assert (L : left_cell true (Z.of_nat (k_ni k)) (-1) = Z.of_nat (k_ni k) - 1).
  { unfold left_cell. symmetry. apply (Z.mod_unique_pos _ _ (-1)); lia. }
  assert (R : right_cell true (Z.of_nat (k_ni k)) (Z.of_nat (k_ni k) - 1) = 0).
  { unfold right_cell. rewrite Z.sub_add. apply Z.mod_same. lia. }
  rewrite L, R in E. rewrite L in F. pose proof (left_cell_range false (Z.of_nat (k_nj k)) zj ltac:(lia)) as Lj. set (j := left_cell false _ zj) in *.
  set (tx := clamp01 (dsub (fractional_i k lon) _)) in *. set (ty := clamp01 (dsub (fractional_j k lat) _)) in *.
  assert (Hx : is_zero tx = true) by (apply clamp_negative; [done|lia]). assert (Uy : unit_interval ty).
  { apply clamped_unit; [apply sub_half_short|by eapply floor_finite|lia]. }
  exists j, (right_cell false (Z.of_nat (k_nj k)) j), (dmul (dsub one tx) (dsub one ty)), (dmul (dsub one tx) ty), (dmul tx (dsub one ty)), (dmul tx ty).
  split; [done|]. split; [apply right_cell_range; lia|]. split; [exact E|]. split; apply zero_product; auto using complement_unit.
Qed.

(** ** Witnesses *)

(** Half of the globe, in four cells, and the grids that are detected on it and on the globe. *)
Definition half_globe : UnstructuredMesh := lattice 2 2 east north.
Definition half_info : RegularGridInfo := regular_info (of_int <$> [0; 90; 180]) (of_int <$> [-90; 0; 90]).
Definition globe_info : RegularGridInfo := regular_info (of_int <$> [0; 90; 180; 270; 360]) (of_int <$> [-90; 0; 90]).
Definition half_rect : RectilinearGridInfo := mkRectilinearInfo true 2 2 (of_int <$> [0; 90; 180]) (of_int <$> [-90; 0; 90]).
Definition strip_rect : RectilinearGridInfo := mkRectilinearInfo true 1 2 (of_int <$> [0; 90]) (of_int <$> [-90; 0; 90]).

Lemma half_fits : grid_fits half_globe 2 2.
Proof. repeat split; lia || done. Qed.

Lemma globe_sized : mesh_ok globe /\ mesh_sized globe.
Proof. split; [exact (proj1 (lattice_ok 4 2 east north ltac:(lia)))|]. split; [|split]; vm_compute; reflexivity. Qed.

(** The columns of the globe east of 180 degrees lie beyond the half. *)
Lemma half_off_grid c : (c < 8)%nat -> off_grid (kernel_of half_info) (cell_center globe c) = (2 <=? c mod 4)%nat.
Proof. intros Hc. do 8 (destruct c as [|c]; [vm_compute; reflexivity|]). lia. Qed.

Lemma half_placeable c : (c < n_cells globe)%nat -> off_grid (kernel_of half_info) (cell_center globe c) = false ->
  placeable (kernel_of half_info) (fractional_i (kernel_of half_info) (fst (cell_center globe c))) (fractional_j (kernel_of half_info) (snd (cell_center globe c))).
Proof. change (n_cells globe) with 8%nat. intros Hc _. do 8 (destruct c as [|c]; [vm_compute; done|]). lia. Qed.

Lemma half_nnz : (let! m := generate_bilinear_rect half_globe globe default_config half_info in Ok (nnz m)) = Ok 16%nat.
Proof. vm_compute. reflexivity. Qed.

Lemma generate_bilinear_rect_correct_witness : exists m, generate_bilinear_rect half_globe globe default_config half_info = Ok m /\
  well_formed m /\ Forall unit_interval (factor_list m) /\ nnz m = 16%nat /\ frac_b m !! 2%nat = Some dzero.
Proof.
  destruct (generate_bilinear_rect_correct half_globe globe default_config half_info half_fits (proj1 globe_sized) (proj2 globe_sized) half_placeable) as [_ H].
  destruct (H (or_introl eq_refl)) as (m & E & B). exists m. split; [exact E|]. split; [apply (bm_well_formed _ _ _ _ _ B)|].
  split; [apply (bm_weights _ _ _ _ _ B)|]. split.
  - pose proof half_nnz as N. rewrite E in N. cbn [bind] in N. by injection N.
  - rewrite (bm_frac_b _ _ _ _ _ B). change (n_cells globe) with 8%nat. cbn [seq fmap list_fmap lookup list_lookup].
    by rewrite (half_off_grid 2 ltac:(lia)).
Defined.

Lemma half_rect_fits : rect_fits half_globe half_rect.
Proof. split; [exact half_fits|]. by split. Qed.

Lemma generate_bilinear_nonuniform_correct_witness : exists m, generate_bilinear_rect_nonuniform half_globe globe half_rect = Ok m /\
  well_formed m /\ frac_b m = replicate 8 one.
Proof.
  destruct (generate_bilinear_nonuniform_correct half_globe globe half_rect half_rect_fits ltac:(cbn; lia) ltac:(cbn; lia) (proj1 globe_sized) (proj2 globe_sized))
    as (m & E & B).
  exists m. split; [exact E|]. split; [apply (bm_well_formed _ _ _ _ _ B)|]. by rewrite (bm_frac_b _ _ _ _ _ B).
Defined.

Lemma one_column_undefined_witness : generate_bilinear_rect_nonuniform (lattice 1 2 east north) globe strip_rect = Undef.
Proof.
  apply one_column_undefined; [|done|apply globe_sized|apply globe_sized|vm_compute; lia].
  split; [|by split]. split; [cbn; lia|]. split; [cbn; lia|]. split; [cbn; lia|]. split; [cbn; lia|]. reflexivity.
Defined.

(** A point at 20 degrees east gets the values of the column around 315 degrees. *)
Lemma first_half_column_witness : exists j j1 w w' z z',
  compute_weights (kernel_of globe_info) (of_int 20) (of_int 45) = Ok (Some ([j * 4 + 3; j * 4 + 0; j1 * 4 + 3; j1 * 4 + 0], [w; z; w'; z'])) /\
  is_zero z = true /\ is_zero z' = true.
Proof.
  destruct (first_half_column (kernel_of globe_info) (of_int 20) (of_int 45)) as (j & j1 & w & w' & z & z' & _ & _ & E & Z1 & Z2);
    [vm_compute; reflexivity|cbn; lia|cbn; lia|vm_compute; reflexivity|vm_compute; reflexivity|vm_compute; reflexivity|].
  exists j, j1, w, w', z, z'. split; [exact E|split; [exact Z1|exact Z2]].
Defined.

(** On either side of the center of the first column: all of the last column, all of the first. *)
Example jump_at_the_first_center :
  (let! a := compute_weights (kernel_of globe_info) (of_int 44) (of_int 45) in
   let! b := compute_weights (kernel_of globe_info) (of_int 45) (of_int 45) in Ok (a, b))
  = Ok (Some ([3; 0; 7; 4], [dzero; dzero; one; dzero]), Some ([0; 1; 4; 5], [dzero; dzero; one; dzero])).
Proof. vm_compute. reflexivity. Qed.

(** A mesh stored from north to south, interpolated to itself with the grid detected on it:
    the first cell, in the north, takes its value from the fifth, in the south. *)
Example rows_are_mirrored :
  (let! info := detect_regular_grid globe_southward in
   let! m := generate_bilinear_rect globe_southward globe_southward default_config info in
   Ok (snd (cell_center globe_southward 0), filter (fun e => is_zero (snd e) = false) (row_entries 0 (coo m))))
  = Ok (of_int 45, [(4, one)]).
Proof. vm_compute. reflexivity. Qed.

(** A center beyond the source grid: unmapped on the regular path, clamped on the other. *)
Example unmapped_only_on_the_regular_path :
  (generate_bilinear_rect half_globe globe (mkRegridConfig Bilinear DstArea GreatCircle Error false NearestWet) half_info,
   let! m := generate_bilinear_rect_nonuniform half_globe globe half_rect in Ok (frac_b m !! 3%nat))
  = (Throw runtime_error, Ok (Some one)).
Proof. vm_compute. reflexivity. Qed.

(** A cell without nodes has no center: its index has no meaning. *)
Example cell_without_nodes :
  generate_bilinear_rect half_globe (new_mesh (node_coords globe) [0; 0] [] SphericalDeg) default_config half_info = Undef.
Proof. vm_compute. reflexivity. Qed.
