(* ===== verification/ConservativeRect.v ===== *)
(** * AXIS: conservative weights on regular grids
    (src/libs/axis/src/solver/weight_generator_conservative_rect.cpp)

    The fast path of first-order conservative regridding between two regular grids: the source
    cells under a destination cell are a range of columns and rows, and a weight is the area
    of an intersection of rectangles over the area of the destination cell.  The
    specification is the list of the [overlaps] within these ranges, which are those of the code; the matrix and its fractions are sums over it. *)
From Stdlib Require Import ZArith Lia SpecFloat.
From stdpp Require Import base list numbers.
From S2P Require Import Prelude CInt Blend KokkosArrays InterpolationMatrix AxisMesh StructuredGrid Magnitude UnitInterval DoubleOrder RegularGrid BilinearRect.
Local Open Scope Z_scope.

(** ** Rectangles *)

(** [fmin] and [fmax] of the C library: a value that is not a number is ignored. *)
Definition fmin (a b : double) : double := if isnan a then b else if isnan b then a else if SFltb b a then b else a.
Definition fmax (a b : double) : double := if isnan a then b else if isnan b then a else if SFltb a b then b else a.

(** The bounds of a rectangle along one axis. *)
Record Interval : Type := mkInterval { lo : double; hi : double }.

Definition rect_overlap (sx sy dx dy : Interval) : double :=
  let x := fmax dzero (dsub (fmin (hi sx) (hi dx)) (fmax (lo sx) (lo dx))) in
  let y := fmax dzero (dsub (fmin (hi sy) (hi dy)) (fmax (lo sy) (lo dy))) in
  dmul x y.

Definition rect_overlap_spherical `{!Libm} (sx sy dx dy : Interval) (is_degrees : bool) : double :=
  let x := fmax dzero (dsub (fmin (hi sx) (hi dx)) (fmax (lo sx) (lo dx))) in
  let lo_y := fmax (lo sy) (lo dy) in
  let hi_y := fmin (hi sy) (hi dy) in
  if SFleb hi_y lo_y || SFleb x dzero then dzero
  else
    let '(x, lo_y, hi_y) := if is_degrees then (dmul x DEG_TO_RAD, dmul lo_y DEG_TO_RAD, dmul hi_y DEG_TO_RAD) else (x, lo_y, hi_y) in
    dmul x (dsub (m_sin hi_y) (m_sin lo_y)).

(** ** Cells of a regular grid *)

Definition degrees (cs : CoordinateSystem) : bool := bool_decide (cs = SphericalDeg).
Definition spherical (cs : CoordinateSystem) : bool := bool_decide (cs = SphericalDeg \/ cs = SphericalRad).

Definition cell_lon (info : RegularGridInfo) (i : Z) : Interval :=
  let lo := dadd (lon_min info) (dmul (of_int i) (delta_lon info)) in mkInterval lo (dadd lo (delta_lon info)).
Definition cell_lat (info : RegularGridInfo) (j : Z) : Interval :=
  let lo := dadd (lat_min info) (dmul (of_int j) (delta_lat info)) in mkInterval lo (dadd lo (delta_lat info)).

Definition wrap_threshold (cs : CoordinateSystem) : double := if degrees cs then of_int 350 else of_int 6.

Definition is_global (cs : CoordinateSystem) (info : RegularGridInfo) : bool :=
  SFltb (wrap_threshold cs) (dmul (of_int (Z.of_nat (info_ni info))) (delta_lon info)).

(** The destination extends beyond the source by more than half a cell. *)
Definition leaves_source (src dst : RegularGridInfo) : bool :=
  SFltb (lon_min dst) (dsub (lon_min src) (dmul (delta_lon src) half)) ||
  SFltb (dadd (lon_max src) (dmul (delta_lon src) half)) (lon_max dst).

(** The area of a cell of row [j] that the mesh does not give. *)
Definition row_area `{!Libm} (cs : CoordinateSystem) (info : RegularGridInfo) (j : Z) : double :=
  if spherical cs then
    let lat := cell_lat info j in
    let '(dlon, lo_y, hi_y) := if degrees cs then (dmul (delta_lon info) DEG_TO_RAD, dmul (lo lat) DEG_TO_RAD, dmul (hi lat) DEG_TO_RAD)
      else (delta_lon info, lo lat, hi lat) in
    dmul dlon (dsub (m_sin hi_y) (m_sin lo_y))
  else dmul (delta_lon info) (delta_lat info).

Definition grid_areas `{!Libm} (cs : CoordinateSystem) (m : UnstructuredMesh) (info : RegularGridInfo) : result (list double) :=
  let has_areas := (length (cell_areas m) =? n_cells m)%nat in
  for_each (seq 0 (n_cells m)) (fun c areas =>
    if has_areas then let! a := read (cell_areas m) (Z.of_nat c) in Ok (areas ++ [a])
    else if spherical cs && (info_ni info =? 0)%nat then Undef
    else Ok (areas ++ [row_area cs info (Z.of_nat (c / info_ni info))])) [].

(** [has_mask && mask[k] == 0] *)
Definition masked (m : UnstructuredMesh) (k : Z) : result bool :=
  if (length (cell_mask m) =? n_cells m)%nat then let! v := read (cell_mask m) k in Ok (v =? 0) else Ok false.

(** [static_cast<std::size_t>(std::ceil(a / b)) + 2] *)
Definition estimated_overlap (a b : double) : result Z :=
  match floorZ (SFopp (ddiv a b)) with
  | Some z => if (0 <=? - z) && (- z <? 2 ^ 64) then Ok (to_u64 (- z + 2)) else Undef
  | None => Undef
  end.

(** [reserve]: more elements than a vector can have are refused. *)
Definition reserve (n : Z) : result unit := throw_if (2 ^ 60 <=? n) length_error.

(** The values of [for (int k = lo; k <= hi; ++k)]. *)
Definition int_range (lo hi : Z) : result (list Z) :=
  if (lo <=? hi) && (hi =? imax I32) then Undef else Ok ((fun k => lo + Z.of_nat k) <$> seq 0 (Z.to_nat (hi - lo + 1))).

Fixpoint for_ints {S} (l : list Z) (body : Z -> S -> result S) (s : S) : result S :=
  match l with [] => Ok s | k :: l => let! s := body k s in for_ints l body s end.

(** ** The generator *)

(** The entries with [frac_a_acc] and [frac_b_acc]. *)
Record Accumulated : Type := mkAcc { acc_entries : Entries; frac_a_acc : list double; frac_b_acc : list double }.

Section Generator.
Context `{!Libm}.
Context (src_mesh dst_mesh : UnstructuredMesh) (src_info dst_info : RegularGridInfo).

Definition csys : CoordinateSystem := coord_sys src_mesh.
Definition src_is_global : bool := is_global csys src_info.

Definition overlap_area (sx sy dx dy : Interval) : double :=
  if spherical csys then rect_overlap_spherical sx sy dx dy (degrees csys) else rect_overlap sx sy dx dy.

(** [d_lo_x_norm] and [d_hi_x_norm] *)
Definition normalized (x : Interval) : Interval :=
  if src_is_global then
    let shift := dmul c360 (dfloor (ddiv (dsub (lo x) (lon_min src_info)) c360)) in
    mkInterval (dsub (lo x) shift) (dsub (hi x) shift)
  else x.

Definition column_of (x : double) : result Z := floor_int (ddiv (dsub x (lon_min src_info)) (delta_lon src_info)).
Definition row_of (y : double) : result Z := floor_int (ddiv (dsub y (lat_min src_info)) (delta_lat src_info)).

(** The body of the inner loops. *)
Definition add_overlap (src_areas : list double) (dst_cell_idx : Z) (area_dst : double) (dx dy : Interval) (js i : Z) (s : Accumulated) : result Accumulated :=
  let! is_actual := if src_is_global then wrap_index (info_ni src_info) i else Ok i in
  let src_cell_idx := flat_index (info_ni src_info) is_actual js in
  if Z.of_nat (n_cells src_mesh) <=? src_cell_idx then Ok s
  else
    let! m := masked src_mesh src_cell_idx in
    if m then Ok s
    else
      let! area_src := read src_areas src_cell_idx in
      if SFleb area_src dzero then Ok s
      else
        let overlap := overlap_area (cell_lon src_info i) (cell_lat src_info js) dx dy in
        if SFleb overlap dzero then Ok s
        else
          let w := std_max (ddiv overlap area_dst) dzero in
          let es := push_entry (acc_entries s) w (to_index dst_cell_idx) (to_index src_cell_idx) in
          let! fa := update (fun f => dadd f (ddiv overlap area_src)) (frac_a_acc s) src_cell_idx in
          let! fb := update (fun f => dadd f (ddiv overlap area_dst)) (frac_b_acc s) dst_cell_idx in
          Ok (mkAcc es fa fb).

(** The body of the outer loops. *)
Definition add_cell (src_areas dst_areas : list double) (jd id : nat) (s : Accumulated) : result Accumulated :=
  let dst_cell_idx := to_u64 (Z.of_nat jd * Z.of_nat (info_ni dst_info) + Z.of_nat id) in
  let! m := masked dst_mesh dst_cell_idx in
  if m then Ok s
  else
    let dx := normalized (cell_lon dst_info (Z.of_nat id)) in
    let dy := cell_lat dst_info (Z.of_nat jd) in
    let! area_dst := read dst_areas dst_cell_idx in
    if SFleb area_dst dzero then Ok s
    else
      let! is_lo := column_of (lo dx) in
      let! is_hi := column_of (hi dx) in
      let! js_lo := row_of (lo dy) in
      let! js_hi := row_of (hi dy) in
      let is_lo := if src_is_global then is_lo else Z.max 0 is_lo in
      let! is_hi := if src_is_global then Ok is_hi
        else let! last_i := arith I32 (cast_int (Z.of_nat (info_ni src_info)) - 1) in Ok (Z.min last_i is_hi) in
      let js_lo := Z.max 0 js_lo in
      let! last_j := arith I32 (cast_int (Z.of_nat (info_nj src_info)) - 1) in
      let js_hi := Z.min last_j js_hi in
      let lon_wraps := src_is_global && (is_hi <? is_lo) in
      if negb lon_wraps && (is_hi <? is_lo) then Ok s
      else if js_hi <? js_lo then Ok s
      else
        let! rows := int_range js_lo js_hi in
        for_ints rows (fun js s =>
          let! columns := int_range is_lo is_hi in
          for_ints columns (fun i s => add_overlap src_areas dst_cell_idx area_dst dx dy js i s) s) s.

(** The loop that divides the weights of a row by its fraction. *)
Definition normalize_weights (config : RegridConfig) (es : Entries) (frac_b : list double) : result Entries :=
  if decide (norm_type config = FracArea) then
    let! ws := for_each (seq 0 (length (weights_vec es))) (fun k ws =>
      let! j := read (rows_vec es) (Z.of_nat k) in
      let! f := read frac_b (to_u64 j) in
      if SFltb dzero f then update (fun w => ddiv w f) ws (Z.of_nat k) else Ok ws) (weights_vec es) in
    Ok (mkEntries ws (rows_vec es) (cols_vec es))
  else Ok es.

Definition generate_conservative_rect (config : RegridConfig) : result InterpolationMatrix :=
  let n_src := n_cells src_mesh in
  let n_dst := n_cells dst_mesh in
  if negb src_is_global && negb (is_global csys dst_info) && leaves_source src_info dst_info then Ok empty_matrix
  else
    let! est_lon := estimated_overlap (delta_lon dst_info) (delta_lon src_info) in
    let! est_lat := estimated_overlap (delta_lat dst_info) (delta_lat src_info) in
    let est_nnz := to_u64 (Z.of_nat n_dst * est_lon * est_lat) in
    do! reserve (Z.min est_nnz (to_u64 (Z.of_nat n_src * Z.of_nat n_dst))) then
    let! src_areas := grid_areas csys src_mesh src_info in
    let! dst_areas := grid_areas csys dst_mesh dst_info in
    let! acc := for_each (seq 0 (info_nj dst_info)) (fun jd s =>
      for_each (seq 0 (info_ni dst_info)) (add_cell src_areas dst_areas jd) s)
      (mkAcc no_entries (replicate n_src dzero) (replicate n_dst dzero)) in
    let! es := normalize_weights config (acc_entries acc) (frac_b_acc acc) in
    Ok (new_matrix (weights_vec es) (rows_vec es) (cols_vec es)
          ((fun f => std_min f one) <$> frac_a_acc acc) ((fun f => std_min f one) <$> frac_b_acc acc) src_areas dst_areas n_src n_dst).

(** * Specification *)

(** The weight of an entry of a row of which the fraction [f] is covered. *)
Definition normalized_weight (config : RegridConfig) (f w : double) : double :=
  if bool_decide (norm_type config = FracArea) && SFltb dzero f then ddiv w f else w.

Definition is_masked (m : UnstructuredMesh) (k : Z) : bool :=
  (length (cell_mask m) =? n_cells m)%nat && (default 1 (cell_mask m !! Z.to_nat k) =? 0).

(** The areas of the mesh, or those of the grid. *)
Definition areas_of (m : UnstructuredMesh) (info : RegularGridInfo) : list double :=
  if (length (cell_areas m) =? n_cells m)%nat then cell_areas m
  else (fun c => row_area csys info (Z.of_nat (c / info_ni info))) <$> seq 0 (n_cells m).

Definition src_area (c : Z) : double := default dzero (areas_of src_mesh src_info !! Z.to_nat c).
Definition dst_area (r : nat) : double := default dzero (areas_of dst_mesh dst_info !! r).

(** The rectangle of a destination cell. *)
Definition dst_x (r : nat) : Interval := normalized (cell_lon dst_info (Z.of_nat (r mod info_ni dst_info))).
Definition dst_y (r : nat) : Interval := cell_lat dst_info (Z.of_nat (r / info_ni dst_info)).

Definition floor_of (x : double) : Z := default 0 (floorZ x).
Definition column_at (x : double) : Z := floor_of (ddiv (dsub x (lon_min src_info)) (delta_lon src_info)).
Definition row_at (y : double) : Z := floor_of (ddiv (dsub y (lat_min src_info)) (delta_lat src_info)).

(** The columns and rows of the source that a destination cell touches. *)
Definition first_column (r : nat) : Z := let c := column_at (lo (dst_x r)) in if src_is_global then c else Z.max 0 c.
Definition last_column (r : nat) : Z := let c := column_at (hi (dst_x r)) in if src_is_global then c else Z.min (Z.of_nat (info_ni src_info) - 1) c.
Definition first_row (r : nat) : Z := Z.max 0 (row_at (lo (dst_y r))).
Definition last_row (r : nat) : Z := Z.min (Z.of_nat (info_nj src_info) - 1) (row_at (hi (dst_y r))).

Definition ints (a b : Z) : list Z := (fun k => a + Z.of_nat k) <$> seq 0 (Z.to_nat (b - a + 1)).

(** The source cell of a column and a row, and its overlap with a destination cell. *)
Definition source_cell (j i : Z) : Z := j * Z.of_nat (info_ni src_info) + (if src_is_global then i mod Z.of_nat (info_ni src_info) else i).

Definition candidate (r : nat) (j i : Z) : option (Z * double) :=
  let c := source_cell j i in
  let overlap := overlap_area (cell_lon src_info i) (cell_lat src_info j) (dst_x r) (dst_y r) in
  if is_masked src_mesh c || SFleb (src_area c) dzero || SFleb overlap dzero then None else Some (c, overlap).

(** A destination cell that is passed over: masked, or without a positive area. *)
Definition skipped (r : nat) : bool := is_masked dst_mesh (Z.of_nat r) || SFleb (dst_area r) dzero.

(** The source cells that overlap a destination cell, with the areas of the intersections. *)
Definition overlaps (r : nat) : list (Z * double) :=
  if skipped r then [] else concat ((fun j => omap (candidate r j) (ints (first_column r) (last_column r))) <$> ints (first_row r) (last_row r)).

(** The fraction of a destination cell that is covered, and of a source cell that is used. *)
Definition covered (r : nat) : double := sum_of ((fun e => ddiv (snd e) (dst_area r)) <$> overlaps r).
Definition used (c : nat) : double :=
  sum_of ((fun e => ddiv (snd (snd e)) (src_area (Z.of_nat c))) <$> filter (fun e => fst (snd e) = Z.of_nat c) (stencil_entries overlaps (n_cells dst_mesh))).

Definition weight (config : RegridConfig) (r : nat) (overlap : double) : double := normalized_weight config (covered r) (ddiv overlap (dst_area r)).

(** The matrix of these overlaps. *)
Definition conservative_matrix (config : RegridConfig) : InterpolationMatrix :=
  let es := entries_of (stencil_entries (fun r => (fun e => (fst e, weight config r (snd e))) <$> overlaps r) (n_cells dst_mesh)) in
  new_matrix (weights_vec es) (rows_vec es) (cols_vec es)
    ((fun c => std_min (used c) one) <$> seq 0 (n_cells src_mesh)) ((fun r => std_min (covered r) one) <$> seq 0 (n_cells dst_mesh))
    (areas_of src_mesh src_info) (areas_of dst_mesh dst_info) (n_cells src_mesh) (n_cells dst_mesh).

(** The floors of a destination cell that is not passed over are [int]s. *)
Definition has_int (x : double) : Prop := exists z, floorZ x = Some z /\ imin I32 <= z < imax I32.
Definition locatable (r : nat) : Prop :=
  has_int (ddiv (dsub (lo (dst_x r)) (lon_min src_info)) (delta_lon src_info)) /\
  has_int (ddiv (dsub (hi (dst_x r)) (lon_min src_info)) (delta_lon src_info)) /\
  has_int (ddiv (dsub (lo (dst_y r)) (lat_min src_info)) (delta_lat src_info)) /\
  has_int (ddiv (dsub (hi (dst_y r)) (lat_min src_info)) (delta_lat src_info)).


(** * Lemmas *)

(** ** Sums over the entries *)

(** What has been accumulated when the overlaps [l] have been found. *)
Definition acc_of (l : list (Z * (Z * double))) : Accumulated :=
  mkAcc (entries_of ((fun e => (fst e, (fst (snd e), ddiv (snd (snd e)) (dst_area (Z.to_nat (fst e)))))) <$> l))
    ((fun c => sum_of ((fun e => ddiv (snd (snd e)) (src_area (Z.of_nat c))) <$> filter (fun e => fst (snd e) = Z.of_nat c) l)) <$> seq 0 (n_cells src_mesh))
    ((fun r => sum_of ((fun e => ddiv (snd (snd e)) (dst_area r)) <$> filter (fun e => fst e = Z.of_nat r) l)) <$> seq 0 (n_cells dst_mesh)).

Lemma filter_stencil_entries {A} (f : nat -> list A) n r : (r < n)%nat ->
  filter (fun e => fst e = Z.of_nat r) (stencil_entries f n) = (fun e => (Z.of_nat r, e)) <$> f r.
Proof.
  intros Hr. assert (Hf : forall c, filter (fun e : Z * A => fst e = Z.of_nat r) ((fun e => (Z.of_nat c, e)) <$> f c)
    = if decide (c = r) then (fun e => (Z.of_nat r, e)) <$> f r else []).
  { intros c. destruct (decide (c = r)) as [->|Hne]; [apply filter_all|apply filter_empty].
    - apply Forall_fmap, list.Forall_forall. done.
    - intros e (x & -> & _)%list_elem_of_fmap. cbn. lia. }
  induction n as [|n IH]; [lia|]. rewrite stencil_entries_S, list.filter_app, Hf. destruct (decide (n = r)) as [->|Hne].
  - rewrite filter_empty; [done|]. intros e (c & x & Hc & _ & ->)%stencil_entries_elem. cbn. lia.
  - rewrite IH by lia. by rewrite app_nil_r.
Qed.

Lemma no_sums n : replicate n dzero = (fun _ => sum_of []) <$> seq 0 n.
Proof.
  apply list_eq. intros k. rewrite list_lookup_fmap. destruct (decide (k < n)%nat); [by rewrite lookup_seq_lt, lookup_replicate_2|].
  rewrite !lookup_ge_None_2; [done|..]; rewrite ?length_seq, ?length_replicate; lia.
Qed.

(** ** Signs *)

Lemma quotient_not_negative x y : SFltb x dzero = false -> SFleb y dzero = false -> SFltb (ddiv x y) dzero = false.
Proof.
  intros Hx Hy. destruct x as [s|[]| |[] m e], y as [s'|[]| |[] m' e']; try done; unfold ddiv, SFdiv; try done.
  unfold SFdiv_core_binary. set (a := match _ with Z0 => _ | _ => _ end). assert (Ha : 0 <= a).
  { unfold a. destruct (e - e' - _); [lia| |lia]. apply Z.shiftl_nonneg. lia. }
  pose proof (Z.div_pos a (Zpos m') Ha ltac:(lia)) as Hq. unfold Z.div in Hq. destruct (Z.div_eucl a (Z.pos m')) as [q r]. cbn [xorb].
  by destruct (round_sign false q (Z.min (fexp 53 1024 (Zdigits2 (Z.pos m) + e - (Zdigits2 (Z.pos m') + e'))) (e - e')) (new_location (Z.pos m') r) Hq) as [-> |[-> |(p & g & ->)]].
Qed.

Lemma positive_not_negative x : SFleb x dzero = false -> SFltb x dzero = false.
Proof. by destruct x as [[]|[]| |[]]. Qed.

Lemma std_max_zero x : SFltb x dzero = false -> std_max x dzero = x.
Proof. intros Hx. unfold std_max. by rewrite Hx. Qed.

Lemma normalized_not_negative config f w : SFltb w dzero = false -> SFltb (normalized_weight config f w) dzero = false.
Proof.
  intros Hw. unfold normalized_weight. destruct (bool_decide _ && SFltb dzero f) eqn:E; [|done]. apply andb_true_iff in E as [_ E].
  apply quotient_not_negative; [done|]. destruct (ltb_number _ _ E) as [_ Hn]. rewrite leb_ltb by done. by rewrite E.
Qed.

(** ** Masks and areas *)

Lemma masked_ok m k : 0 <= k < Z.of_nat (n_cells m) -> masked m k = Ok (is_masked m k).
Proof.
  intros Hk. unfold masked, is_masked. destruct (Nat.eqb_spec (length (cell_mask m)) (n_cells m)) as [E|]; [|done].
  destruct (read_in_bounds (cell_mask m) k) as (v & -> & Ev); [lia|]. cbn [bind]. by rewrite Ev.
Qed.

Lemma areas_length m info : length (areas_of m info) = n_cells m.
Proof. unfold areas_of. destruct (Nat.eqb_spec (length (cell_areas m)) (n_cells m)) as [E|]; [done|]. by rewrite length_fmap, length_seq. Qed.

Lemma grid_areas_ok m info nj : n_cells m = (info_ni info * nj)%nat -> grid_areas csys m info = Ok (areas_of m info).
Proof.
  intros Hn. unfold grid_areas. destruct (for_each_inv (fun i l => l = take i (areas_of m info)) (n_cells m)
    (fun c areas => if (length (cell_areas m) =? n_cells m)%nat then let! a := read (cell_areas m) (Z.of_nat c) in Ok (areas ++ [a])
      else if spherical csys && (info_ni info =? 0)%nat then Undef else Ok (areas ++ [row_area csys info (Z.of_nat (c / info_ni info))])) [])
    as (l & E & ->); [|done|rewrite E; f_equal; apply take_ge; by rewrite areas_length].
  intros c t Hc ->. destruct (lookup_lt_is_Some_2 (areas_of m info) c) as [a Ha]; [by rewrite areas_length|].
  change (1 + c)%nat with (S c). rewrite (take_S_r _ _ _ Ha). unfold areas_of in Ha. destruct (Nat.eqb_spec (length (cell_areas m)) (n_cells m)) as [El|El].
  - rewrite (read_nat _ _ _ Ha). by eexists.
  - rewrite list_lookup_fmap, lookup_seq_lt in Ha by done. injection Ha as <-. rewrite (proj2 (Nat.eqb_neq (info_ni info) 0)) by lia.
    rewrite andb_false_r. by eexists.
Qed.

Lemma read_src_area c : 0 <= c < Z.of_nat (n_cells src_mesh) -> read (areas_of src_mesh src_info) c = Ok (src_area c).
Proof. intros Hc. destruct (read_in_bounds (areas_of src_mesh src_info) c) as (a & -> & Ea); [by rewrite areas_length|]. unfold src_area. by rewrite Ea. Qed.

Lemma read_dst_area r : (r < n_cells dst_mesh)%nat -> read (areas_of dst_mesh dst_info) (Z.of_nat r) = Ok (dst_area r).
Proof.
  intros Hr. destruct (lookup_lt_is_Some_2 (areas_of dst_mesh dst_info) r) as [a Ha]; [by rewrite areas_length|].
  rewrite (read_nat _ _ _ Ha). unfold dst_area. by rewrite Ha.
Qed.

(** ** The loops *)

(** Loops that append to what has been found, of which the state is a function. *)
Lemma for_ints_acc {E S} (found : list E -> S) (g : Z -> list E) body l acc0 :
  (forall k l0, k ∈ l -> body k (found l0) = Ok (found (l0 ++ g k))) -> for_ints l body (found acc0) = Ok (found (acc0 ++ concat (g <$> l))).
Proof.
  revert acc0. induction l as [|k l IH]; intros acc0 Hb; [cbn; by rewrite app_nil_r|]. cbn [for_ints]. rewrite Hb by left. cbn [bind].
  rewrite IH by (intros k' l0 Hk; apply Hb; by right). cbn [fmap list_fmap concat]. by rewrite (assoc_L app).
Qed.

Lemma for_cells {E S} (found : list (Z * E) -> S) (f : nat -> list E) body ni nj :
  (forall jd id l, (jd < nj)%nat -> (id < ni)%nat ->
     body jd id (found l) = Ok (found (l ++ ((fun e => (Z.of_nat (jd * ni + id), e)) <$> f (jd * ni + id)%nat)))) ->
  for_each (seq 0 nj) (fun jd s => for_each (seq 0 ni) (body jd) s) (found []) = Ok (found (stencil_entries f (ni * nj))).
Proof.
  intros Hb. destruct (for_each_inv (fun jd s => s = found (stencil_entries f (jd * ni))) nj
    (fun jd s => for_each (seq 0 ni) (body jd) s) (found [])) as (s & E0 & ->); [|done|rewrite E0; do 3 f_equal; lia].
  intros jd s Hjd ->. destruct (for_each_inv (fun id s => s = found (stencil_entries f (jd * ni + id))) ni
    (body jd) (found (stencil_entries f (jd * ni)))) as (s & E0 & ->).
  - intros id t Hid ->. rewrite Hb by done. eexists. split; [done|]. by rewrite Nat.add_succ_r, stencil_entries_S.
  - by rewrite Nat.add_0_r.
  - eexists. split; [exact E0|]. f_equal. f_equal. cbn. lia.
Qed.

Lemma elem_of_ints k a b : k ∈ ints a b <-> a <= k <= b.
Proof.
  unfold ints. rewrite list_elem_of_fmap. split.
  - intros (n & -> & Hn%elem_of_seq). lia.
  - intros Hk. exists (Z.to_nat (k - a)). split; [lia|]. apply elem_of_seq. lia.
Qed.

Lemma int_range_ok a b : b < imax I32 -> int_range a b = Ok (ints a b).
Proof. intros Hb. unfold int_range. rewrite (proj2 (Z.eqb_neq b (imax I32))) by lia. by rewrite andb_false_r. Qed.

(** The entries of row [r] that an optional overlap gives. *)
Definition tagged {A} (r : nat) (o : option A) : list (Z * A) := match o with Some e => [(Z.of_nat r, e)] | None => [] end.

Lemma concat_tagged {A} r (f : Z -> option A) l : concat ((fun k => tagged r (f k)) <$> l) = (fun e => (Z.of_nat r, e)) <$> omap f l.
Proof. induction l as [|k l IH]; [done|]. cbn. rewrite IH. by destruct (f k). Qed.

Lemma concat_fmap_fmap {A B} (h : A -> B) (f : Z -> list A) l : concat ((fun k => h <$> f k) <$> l) = h <$> concat (f <$> l).
Proof. induction l as [|k l IH]; [done|]. cbn. by rewrite IH, fmap_app. Qed.

Lemma source_cell_range j i : grid_fits src_mesh (info_ni src_info) (info_nj src_info) ->
  0 <= j < Z.of_nat (info_nj src_info) -> (src_is_global = false -> 0 <= i < Z.of_nat (info_ni src_info)) ->
  0 <= source_cell j i < Z.of_nat (n_cells src_mesh).
Proof.
  intros (Hi0 & _ & _ & _ & ->) Hj Hi. unfold source_cell. apply flat_range; [|done].
  destruct src_is_global; [apply Z.mod_pos_bound; lia|by apply Hi].
Qed.

Section Loops.
Context (Hsrc : grid_fits src_mesh (info_ni src_info) (info_nj src_info)).
Context (Hdst : n_cells dst_mesh = (info_ni dst_info * info_nj dst_info)%nat /\ Z.of_nat (n_cells dst_mesh) < 2 ^ 60).

Lemma add_overlap_ok r j i l : (r < n_cells dst_mesh)%nat -> SFleb (dst_area r) dzero = false -> 0 <= j < Z.of_nat (info_nj src_info) ->
  imin I32 <= i <= imax I32 -> (src_is_global = false -> 0 <= i < Z.of_nat (info_ni src_info)) ->
  add_overlap (areas_of src_mesh src_info) (Z.of_nat r) (dst_area r) (dst_x r) (dst_y r) j i (acc_of l) = Ok (acc_of (l ++ tagged r (candidate r j i))).
Proof.
  intros Hr Ha Hj Hi32 Hi. pose proof (source_cell_range j i Hsrc Hj Hi) as Hc. destruct Hsrc as (Hi0 & Hi28 & Hj0 & Hj28 & Hns). destruct Hdst as [_ Hnd].
  unfold add_overlap, candidate.
  assert (Ew : (if src_is_global then wrap_index (info_ni src_info) i else Ok i) = Ok (if src_is_global then i mod Z.of_nat (info_ni src_info) else i)).
  { destruct src_is_global; [|done]. apply (wrap_index_ok (info_ni src_info) i); [done|lia|done]. }
  rewrite Ew. cbn [bind].
  assert (Ef : flat_index (info_ni src_info) (if src_is_global then i mod Z.of_nat (info_ni src_info) else i) j = source_cell j i).
  { apply (flat_index_id _ (info_nj src_info)); [lia|lia| |done]. destruct src_is_global; [apply Z.mod_pos_bound; lia|by apply Hi]. }
  rewrite Ef. set (c := source_cell j i) in *. rewrite (proj2 (Z.leb_gt _ _)) by lia. rewrite masked_ok by done. cbn [bind].
  destruct (is_masked src_mesh c); cbn [orb]; [by rewrite app_nil_r|]. rewrite read_src_area by done. cbn [bind].
  destruct (SFleb (src_area c) dzero); cbn [orb]; [by rewrite app_nil_r|].
  set (ov := overlap_area _ _ _ _). destruct (SFleb ov dzero) eqn:Eo; [by rewrite app_nil_r|]. cbn [tagged].
  rewrite std_max_zero by (apply quotient_not_negative; [by apply positive_not_negative|done]).
  unfold acc_of at 1 2 3. cbn [acc_entries frac_a_acc frac_b_acc]. rewrite push_entries_of, !to_index_id by (rewrite Hns in Hc; nia || lia).
  pose proof (update_sums (fun e : Z * (Z * double) => fst (snd e)) (fun c e => ddiv (snd (snd e)) (src_area (Z.of_nat c))) (n_cells src_mesh) l (Z.of_nat r, (c, ov)) Hc) as Ea.
  cbn [fst snd] in Ea. rewrite Z2Nat.id in Ea by lia. rewrite Ea. cbn [bind].
  pose proof (update_sums (fun e : Z * (Z * double) => fst e) (fun r e => ddiv (snd (snd e)) (dst_area r)) (n_cells dst_mesh) l (Z.of_nat r, (c, ov)) ltac:(cbn; lia)) as Eb.
  cbn [fst snd] in Eb. rewrite Nat2Z.id in Eb. rewrite Eb. cbn [bind]. unfold acc_of. rewrite fmap_app. cbn [fmap list_fmap fst snd]. by rewrite Nat2Z.id.
Qed.

Lemma floor_has_int x : has_int x -> floor_int x = Ok (floor_of x) /\ imin I32 <= floor_of x < imax I32.
Proof. intros (z & Ez & Hz). unfold floor_int, floor_of. rewrite Ez. cbn [default from_option id]. split; [apply arith_ok; lia|done]. Qed.

Lemma add_cell_ok jd id l : (jd < info_nj dst_info)%nat -> (id < info_ni dst_info)%nat -> let r := (jd * info_ni dst_info + id)%nat in
  (skipped r = false -> locatable r) ->
  add_cell (areas_of src_mesh src_info) (areas_of dst_mesh dst_info) jd id (acc_of l) = Ok (acc_of (l ++ ((fun e => (Z.of_nat r, e)) <$> overlaps r))).
Proof.
  intros Hjd Hid r Hloc. destruct Hdst as [Hn H60]. destruct Hsrc as (Hi0 & Hi28 & Hj0 & Hj28 & _).
  assert (Hr : (r < n_cells dst_mesh)%nat) by (rewrite Hn; unfold r; nia).
  assert (Er : to_u64 (Z.of_nat jd * Z.of_nat (info_ni dst_info) + Z.of_nat id) = Z.of_nat r) by (unfold r; rewrite to_u64_id; lia).
  assert (Ed : (r / info_ni dst_info)%nat = jd /\ (r mod info_ni dst_info)%nat = id).
  { unfold r. rewrite Nat.add_comm. rewrite Nat.div_add, Nat.Div0.mod_add by lia. rewrite Nat.div_small, Nat.mod_small by done. done. }
  destruct Ed as [Ed Em]. unfold add_cell, overlaps, skipped in *. rewrite Er, masked_ok by lia. cbn [bind].
  assert (Ex : normalized (cell_lon dst_info (Z.of_nat id)) = dst_x r) by (unfold dst_x; by rewrite Em).
  assert (Ey : cell_lat dst_info (Z.of_nat jd) = dst_y r) by (unfold dst_y; by rewrite Ed). rewrite Ex, Ey, read_dst_area by done.
  destruct (is_masked dst_mesh (Z.of_nat r)); cbn [orb]; [by rewrite app_nil_r|]. cbn [bind].
  destruct (SFleb (dst_area r) dzero) eqn:Ea; [by rewrite app_nil_r|]. destruct (Hloc eq_refl) as (L1 & L2 & L3 & L4).
  unfold column_of, row_of. destruct (floor_has_int _ L1) as [-> B1]. destruct (floor_has_int _ L2) as [-> B2]. destruct (floor_has_int _ L3) as [-> B3]. destruct (floor_has_int _ L4) as [-> B4].
  cbn [bind]. rewrite !cast_int_id by lia. rewrite !arith_ok by (cbn; lia). cbn [bind].
  assert (Eh : (if src_is_global then Ok (floor_of (ddiv (dsub (hi (dst_x r)) (lon_min src_info)) (delta_lon src_info)))
      else Ok (Z.min (Z.of_nat (info_ni src_info) - 1) (floor_of (ddiv (dsub (hi (dst_x r)) (lon_min src_info)) (delta_lon src_info))))) = Ok (last_column r)).
  { unfold last_column, column_at. by destruct src_is_global. }
  rewrite Eh. cbn [bind]. fold (column_at (lo (dst_x r))) (row_at (lo (dst_y r))) (row_at (hi (dst_y r))).
  fold (first_column r) (first_row r) (last_row r).
  assert (Bc : last_column r < imax I32 /\ (src_is_global = true -> imin I32 <= first_column r) /\
    (src_is_global = false -> 0 <= first_column r /\ last_column r < Z.of_nat (info_ni src_info))).
  { unfold first_column, last_column, column_at in *. cbn in *. destruct src_is_global; split; try split; intros; try done; lia. }
  assert (Bj : 0 <= first_row r /\ last_row r < Z.of_nat (info_nj src_info)) by (unfold first_row, last_row; lia).
  assert (Hempty : forall a b, b < a -> ints a b = []) by (intros a b Hab; unfold ints; by replace (Z.to_nat (b - a + 1)) with 0%nat by lia).
  destruct (negb (src_is_global && (last_column r <? first_column r)) && (last_column r <? first_column r)) eqn:Ec.
  { bsimpl. destruct Ec as [_ Ec]. rewrite (Hempty (first_column r)) by done. cbn [omap list_omap].
    assert (Z0 : forall rows : list Z, concat ((fun _ => [] : list (Z * double)) <$> rows) = []) by (induction rows; done).
    rewrite Z0. cbn. by rewrite app_nil_r. }
  destruct (Z.ltb_spec (last_row r) (first_row r)); [rewrite (Hempty (first_row r)) by done; cbn; by rewrite app_nil_r|].
  rewrite int_range_ok by (cbn; lia). cbn [bind].
  rewrite (for_ints_acc acc_of (fun j => (fun e => (Z.of_nat r, e)) <$> omap (candidate r j) (ints (first_column r) (last_column r)))).
  - by rewrite concat_fmap_fmap.
  - intros j l0 Hj%elem_of_ints. rewrite int_range_ok by lia. cbn [bind]. rewrite (for_ints_acc acc_of (fun i => tagged r (candidate r j i))); [by rewrite concat_tagged|].
    intros i l1 Hi%elem_of_ints. apply add_overlap_ok; [done|done|lia| |].
    + destruct src_is_global; cbn in *; [split; [|lia]; destruct Bc as (_ & B & _); specialize (B eq_refl); lia|].
      destruct Bc as (_ & _ & B). specialize (B eq_refl). lia.
    + intros Hg. destruct Bc as (_ & _ & B). specialize (B Hg). lia.
Qed.

Lemma all_cells_ok : (forall r, (r < n_cells dst_mesh)%nat -> skipped r = false -> locatable r) ->
  for_each (seq 0 (info_nj dst_info)) (fun jd s => for_each (seq 0 (info_ni dst_info)) (add_cell (areas_of src_mesh src_info) (areas_of dst_mesh dst_info) jd) s) (acc_of [])
  = Ok (acc_of (stencil_entries overlaps (n_cells dst_mesh))).
Proof.
  intros Hloc. destruct Hdst as [Hn _]. rewrite Hn. apply (for_cells acc_of). intros jd id l Hjd Hid.
  apply add_cell_ok; [done|done|]. intros Hs. apply Hloc; [rewrite Hn; nia|done].
Qed.
End Loops.

(** ** Fractions and weights *)

Lemma acc_fractions l : l = stencil_entries overlaps (n_cells dst_mesh) ->
  frac_a_acc (acc_of l) = used <$> seq 0 (n_cells src_mesh) /\ frac_b_acc (acc_of l) = covered <$> seq 0 (n_cells dst_mesh).
Proof.
  intros ->. split; [done|]. cbn [acc_of frac_b_acc]. apply list_fmap_ext. intros _ r Hr%list_elem_of_lookup_2%elem_of_seq.
  rewrite filter_stencil_entries by lia. unfold covered. by rewrite <- list_fmap_compose.
Qed.

(** The entries of the overlaps as they are found, and with the weights of the configuration. *)
Lemma stencil_entries_fmap {A B} (f : nat -> list A) (g : nat -> A -> B) n :
  stencil_entries (fun r => g r <$> f r) n = (fun e => (fst e, g (Z.to_nat (fst e)) (snd e))) <$> stencil_entries f n.
Proof.
  induction n as [|n IH]; [done|]. rewrite !stencil_entries_S, fmap_app, IH. f_equal. rewrite <- !list_fmap_compose.
  apply list_fmap_ext. intros _ e _. cbn. by rewrite Nat2Z.id.
Qed.

Lemma normalize_weights_entries config nd (frac : nat -> double) (l : list (Z * (Z * double))) : Z.of_nat nd < 2 ^ 60 ->
  Forall (fun e => 0 <= fst e < Z.of_nat nd) l ->
  normalize_weights config (entries_of l) (frac <$> seq 0 nd)
  = Ok (entries_of ((fun e => (fst e, (fst (snd e), normalized_weight config (frac (Z.to_nat (fst e))) (snd (snd e))))) <$> l)).
Proof.
  intros H60 Hl. unfold normalize_weights, normalized_weight. cbn [entries_of weights_vec rows_vec cols_vec].
  destruct (decide (norm_type config = FracArea)) as [Hf|Hf].
  - rewrite bool_decide_true by done. cbn [andb]. rewrite (for_each_own (fun k w => match l !! k with
        | Some e => if SFltb dzero (frac (Z.to_nat (fst e))) then ddiv w (frac (Z.to_nat (fst e))) else w | None => w end) (length l)).
    + cbn [bind]. f_equal. unfold entries_of. f_equal; [|rewrite <- !list_fmap_compose; done..].
      apply list_eq. intros k. rewrite list_lookup_imap, !list_lookup_fmap. destruct (l !! k) as [e|] eqn:Ek; done.
    + by rewrite !length_fmap.
    + by rewrite !length_fmap.
    + intros k d Hk Hd. destruct (lookup_lt_is_Some_2 l k Hk) as [e Ek]. rewrite Ek.
      rewrite (read_nat _ k (fst e)) by (rewrite !list_lookup_fmap, Ek; done). cbn [bind].
      apply (Forall_lookup_1 _ _ _ _ Hl) in Ek. rewrite to_u64_id by lia. rewrite <- (Z2Nat.id (fst e)) by lia.
      rewrite (read_nat _ _ (frac (Z.to_nat (fst e)))) by (rewrite list_lookup_fmap, lookup_seq_lt by lia; done). cbn [bind]. rewrite !Nat2Z.id.
      destruct (SFltb dzero _); [by rewrite update_in_bounds, Nat2Z.id by lia|by rewrite alter_same].
  - rewrite bool_decide_false by done. cbn [andb]. unfold entries_of. by rewrite <- !list_fmap_compose.
Qed.

Lemma normalize_weights_ok config : Z.of_nat (n_cells dst_mesh) < 2 ^ 60 -> let l := stencil_entries overlaps (n_cells dst_mesh) in
  normalize_weights config (acc_entries (acc_of l)) (frac_b_acc (acc_of l))
  = Ok (entries_of (stencil_entries (fun r => (fun e => (fst e, weight config r (snd e))) <$> overlaps r) (n_cells dst_mesh))).
Proof.
  intros H60 l. destruct (acc_fractions l eq_refl) as [_ Eb]. rewrite Eb, (stencil_entries_fmap overlaps (fun r e => (fst e, weight config r (snd e)))).
  fold l. unfold acc_of. cbn [acc_entries]. rewrite normalize_weights_entries; [by rewrite <- list_fmap_compose|done|].
  apply Forall_fmap, list.Forall_forall. intros e (c & x & Hc & _ & ->)%stencil_entries_elem. cbn. lia.
Qed.

Lemma candidate_ok r j i e : grid_fits src_mesh (info_ni src_info) (info_nj src_info) -> candidate r j i = Some e ->
  0 <= j < Z.of_nat (info_nj src_info) -> (src_is_global = false -> 0 <= i < Z.of_nat (info_ni src_info)) ->
  0 <= fst e < Z.of_nat (n_cells src_mesh) /\ is_masked src_mesh (fst e) = false /\ SFleb (src_area (fst e)) dzero = false /\ SFleb (snd e) dzero = false.
Proof.
  intros Hf Hc Hj Hi. pose proof (source_cell_range j i Hf Hj Hi) as Hr. unfold candidate in Hc.
  destruct (is_masked src_mesh (source_cell j i)) eqn:E1; cbn [orb] in Hc; [done|].
  destruct (SFleb (src_area (source_cell j i)) dzero) eqn:E2; cbn [orb] in Hc; [done|]. destruct (SFleb (overlap_area _ _ _ _) dzero) eqn:E3; [done|].
  by injection Hc as <-.
Qed.

Lemma overlaps_ok r e : grid_fits src_mesh (info_ni src_info) (info_nj src_info) -> e ∈ overlaps r ->
  skipped r = false /\ 0 <= fst e < Z.of_nat (n_cells src_mesh) /\ is_masked src_mesh (fst e) = false /\ SFleb (src_area (fst e)) dzero = false /\ SFleb (snd e) dzero = false.
Proof.
  intros Hf He. unfold overlaps in He. destruct (skipped r); [by apply elem_of_nil in He|]. split; [done|].
  apply list_elem_of_In, in_concat in He as (l & Hl%list_elem_of_In & He%list_elem_of_In).
  apply list_elem_of_fmap in Hl as (j & -> & Hj%elem_of_ints). apply list_elem_of_omap in He as (i & Hi%elem_of_ints & Hc).
  apply (candidate_ok r j i e Hf Hc).
  - unfold first_row, last_row in Hj. lia.
  - intros Hg. unfold first_column, last_column in Hi. rewrite Hg in Hi. lia.
Qed.

Lemma weight_not_negative config r e : grid_fits src_mesh (info_ni src_info) (info_nj src_info) -> e ∈ overlaps r -> SFltb (weight config r (snd e)) dzero = false.
Proof.
  intros Hf He. destruct (overlaps_ok r e Hf He) as (Hs & _ & _ & _ & Ho). unfold skipped in Hs. apply orb_false_iff in Hs as [_ Ha].
  assert (Hw : SFltb (ddiv (snd e) (dst_area r)) dzero = false) by (apply quotient_not_negative; [by apply positive_not_negative|done]).
  by apply normalized_not_negative.
Qed.

(** * Properties *)

(** [generate_conservative_rect] of weight_generator_conservative_rect.cpp, from a regular grid of fewer than
    [2 ^ 28] columns and rows to a regular grid with as many cells as its mesh, when the columns and rows
    under a destination cell are [int]s: grids that neither go round the globe nor overlap give
    the empty matrix that asks for another method; otherwise the call returns, without leaving
    an array, the matrix of the overlaps.  Its entries are, destination cell by cell, the
    unmasked source cells of positive area in the ranges of columns and rows that the floors give, whose rectangle
    meets that of an unmasked cell of positive area, weighted by the area of the intersection over that of the destination
    cell, and divided by the covered fraction when the normalization asks for it.  The fractions are the
    sums of those areas over the area of each cell, cut at one.  Every index names a cell
    and no weight is negative. *)
Theorem generate_conservative_rect_correct config :
  grid_fits src_mesh (info_ni src_info) (info_nj src_info) ->
  n_cells dst_mesh = (info_ni dst_info * info_nj dst_info)%nat -> Z.of_nat (n_cells src_mesh) * Z.of_nat (n_cells dst_mesh) < 2 ^ 60 ->
  (forall r, (r < n_cells dst_mesh)%nat -> skipped r = false -> locatable r) ->
  is_ok (estimated_overlap (delta_lon dst_info) (delta_lon src_info)) = true -> is_ok (estimated_overlap (delta_lat dst_info) (delta_lat src_info)) = true ->
  (src_is_global = false /\ is_global csys dst_info = false /\ leaves_source src_info dst_info = true -> generate_conservative_rect config = Ok empty_matrix) /\
  (src_is_global = true \/ is_global csys dst_info = true \/ leaves_source src_info dst_info = false ->
     generate_conservative_rect config = Ok (conservative_matrix config)) /\
  coo (conservative_matrix config) = stencil_entries (fun r => (fun e => (fst e, weight config r (snd e))) <$> overlaps r) (n_cells dst_mesh) /\
  well_formed (conservative_matrix config) /\
  Forall (fun w => SFltb w dzero = false) (factor_list (conservative_matrix config)) /\
  (forall r e, e ∈ overlaps r -> is_masked dst_mesh (Z.of_nat r) = false /\ is_masked src_mesh (fst e) = false).
Proof.
  intros Hf Hn H60 Hloc E1 E2. pose proof Hf as (Hi0 & Hi & Hj0 & Hj & Hns).
  assert (Hd : Z.of_nat (n_cells dst_mesh) < 2 ^ 60) by (rewrite Hns in H60; nia).
  assert (Hentry : forall e, e ∈ stencil_entries (fun r => (fun e => (fst e, weight config r (snd e))) <$> overlaps r) (n_cells dst_mesh) ->
    0 <= fst e < Z.of_nat (n_cells dst_mesh) /\ 0 <= fst (snd e) < Z.of_nat (n_cells src_mesh) /\ SFltb (snd (snd e)) dzero = false).
  { intros e (r & x & Hr & (y & -> & Hy)%list_elem_of_fmap & ->)%stencil_entries_elem. cbn. split; [lia|]. split; [by apply (overlaps_ok r y Hf)|by apply weight_not_negative]. }
  split; [|split; [|split; [|split; [|split]]]].
  - intros (G1 & G2 & G3). unfold generate_conservative_rect. by rewrite G1, G2, G3.
  - intros Hg. unfold generate_conservative_rect.
    assert (Eg : negb src_is_global && negb (is_global csys dst_info) && leaves_source src_info dst_info = false).
    { destruct src_is_global, (is_global csys dst_info), (leaves_source src_info dst_info); try done. by destruct Hg as [|[|]]. }
    rewrite Eg. destruct (estimated_overlap (delta_lon dst_info) _) as [a| |]; [|done..]. destruct (estimated_overlap (delta_lat dst_info) _) as [b| |]; [|done..].
    cbn [bind]. unfold reserve. rewrite (to_u64_id (Z.of_nat (n_cells src_mesh) * _)) by lia. rewrite (proj2 (Z.leb_gt _ _)) by lia. cbn [throw_if bind].
    rewrite (grid_areas_ok _ _ (info_nj src_info)) by done. cbn [bind]. rewrite (grid_areas_ok _ _ (info_nj dst_info)) by done. cbn [bind].
    assert (E0 : mkAcc no_entries (replicate (n_cells src_mesh) dzero) (replicate (n_cells dst_mesh) dzero) = acc_of []).
    { unfold acc_of. cbn [fmap list_fmap]. by rewrite !no_sums. }
    rewrite E0, (all_cells_ok Hf (conj Hn Hd) Hloc). cbn [bind]. rewrite normalize_weights_ok by done. cbn [bind].
    destruct (acc_fractions _ eq_refl) as [-> ->]. unfold conservative_matrix. by rewrite <- !list_fmap_compose.
  - unfold coo. cbn. apply zip_entries.
  - unfold well_formed, nnz. cbn. rewrite !length_fmap. do 2 (split; [done|]). split; apply Forall_fmap, list.Forall_forall; intros e He; by apply Hentry.
  - cbn. apply Forall_fmap, list.Forall_forall. intros e He. by apply Hentry.
  - intros r e He. destruct (overlaps_ok r e Hf He) as (Hs & _ & Hm & _). unfold skipped in Hs. by apply orb_false_iff in Hs as [-> _].
Qed.
End Generator.

(** * Examples *)

#[local] Instance flat_libm : Libm := {| m_cos x := x; m_sin x := x; m_asin x := x; m_atan2 y x := ddiv y x |}.

Definition in_system (cs : CoordinateSystem) (m : UnstructuredMesh) : UnstructuredMesh :=
  mkMesh (node_coords m) (conn_offsets m) (conn_indices m) cs (cell_areas m) (cell_mask m).

(** Quarters of the globe, and two cells across the seams between them. *)
Definition quarters : RegularGridInfo := regular_info (of_int <$> [0; 90; 180; 270; 360]) (of_int <$> [-90; 0; 90]).
Definition across : RegularGridInfo := regular_info (of_int <$> [45; 135; 225]) (of_int <$> [-90; 90]).
Definition across_mesh : UnstructuredMesh := lattice 2 1 (fun i => of_int (90 * Z.of_nat i + 45)) (fun j => of_int (180 * Z.of_nat j - 90)).
Definition fractions : RegridConfig := mkRegridConfig Conservative1stOrder FracArea GreatCircle Ignore false NearestWet.

Lemma across_locatable r : (r < 2)%nat -> skipped globe across_mesh across r = false -> locatable globe quarters across r.
Proof.
  intros Hr _. destruct r as [|[|r]]; [..|lia];
    (split; [|split; [|split]]); (eexists; split; [vm_compute; reflexivity|vm_compute; split; [intros C; discriminate C|reflexivity]]).
Qed.

Lemma quarters_fit : grid_fits globe (info_ni quarters) (info_nj quarters).
Proof. do 4 (split; [cbn; lia|]). reflexivity. Qed.

Lemma across_overlaps : fst <$> overlaps globe across_mesh quarters across 0 = [0; 1; 4; 5].
Proof. vm_compute. reflexivity. Qed.

Lemma generate_conservative_rect_correct_witness :
  generate_conservative_rect globe across_mesh quarters across fractions = Ok (conservative_matrix globe across_mesh quarters across fractions) /\
  well_formed (conservative_matrix globe across_mesh quarters across fractions).
Proof.
  destruct (generate_conservative_rect_correct globe across_mesh quarters across fractions) as (_ & E & _ & W & _);
    [exact quarters_fit|vm_compute; reflexivity|vm_compute; reflexivity|exact across_locatable|vm_compute; reflexivity|vm_compute; reflexivity|].
  split; [apply E; left; vm_compute; reflexivity|exact W].
Defined.

(** In radians, the shift of whole turns is made in steps of 360: a cell from [-pi] to [-pi / 2] is moved
    by 360 radians, and the two source columns it meets there are not the third, which has it. *)
Definition turn (q : Z) : double := dmul (of_int q) (ddiv PI (of_int 2)).
Definition turns : RegularGridInfo := regular_info (turn <$> [0; 1; 2; 3; 4]) (turn <$> [-1; 0; 1]).
Definition turns_west : RegularGridInfo := regular_info (turn <$> [-2; -1; 0; 1; 2]) (turn <$> [-1; 0; 1]).

Example radians_are_shifted_by_360 :
  let m := in_system SphericalRad globe in
  (src_is_global m turns, fst <$> overlaps m globe turns turns_west 0) = (true, [3; 0]).
Proof. vm_compute. reflexivity. Qed.

(** A source of 352 degrees counts as global: a cell beyond its eastern end is given to its
    first column, which lies at the other end. *)
Definition gap_source : RegularGridInfo := regular_info ((fun k => of_int (32 * Z.of_nat k)) <$> seq 0 12) (of_int <$> [-90; 90]).
Definition gap_cell : RegularGridInfo := regular_info (of_int <$> [352; 358]) (of_int <$> [-90; 90]).

Example gap_is_filled :
  let src := lattice 11 1 (fun i => of_int (32 * Z.of_nat i)) (fun j => of_int (180 * Z.of_nat j - 90)) in
  let dst := lattice 1 1 (fun i => of_int (352 + 6 * Z.of_nat i)) (fun j => of_int (180 * Z.of_nat j - 90)) in
  (let! m := generate_conservative_rect src dst gap_source gap_cell default_config in Ok (factor_col m, frac_b m)) = Ok ([0], [one]).
Proof. vm_compute. reflexivity. Qed.
