(* ===== verification/ConservativeRectilinear.v ===== *)
(** * AXIS: conservative weights on rectilinear grids
    (src/libs/axis/src/solver/weight_generator_conservative_rect_nonuniform.cpp)

    The fast path of first-order conservative regridding between two grids whose lines need not
    be equally spaced.  The source columns and rows under a destination cell are found by
    bisection among the lines; the specification asks every column and row of the source and, when it goes
    round the globe, every column of its next turn, so that the theorem says the bisection misses nothing. *)
From Stdlib Require Import ZArith Lia Sorted SpecFloat.
From stdpp Require Import base list numbers.
From S2P Require Import Prelude CInt Blend KokkosArrays InterpolationMatrix AxisMesh StructuredGrid Magnitude UnitInterval DoubleOrder RegularGrid BilinearRect BilinearRectProps ConservativeRect.
Local Open Scope Z_scope.

(** ** Rectangles *)

Definition overlap_tol : double := S754_finite false 4951760157141521 (-92).

Definition rect_overlap_nonuniform (sx sy dx dy : Interval) : double :=
  let x := fmax dzero (dsub (fmin (hi sx) (hi dx)) (fmax (lo sx) (lo dx))) in
  let y := fmax dzero (dsub (fmin (hi sy) (hi dy)) (fmax (lo sy) (lo dy))) in
  dmul x y.

Definition rect_overlap_spherical_nonuniform `{!Libm} (sx sy dx dy : Interval) (is_degrees : bool) : double :=
  let x := fmax dzero (dsub (fmin (hi sx) (hi dx)) (fmax (lo sx) (lo dx))) in
  let lo_y := fmax (lo sy) (lo dy) in
  let hi_y := fmin (hi sy) (hi dy) in
  if SFleb hi_y lo_y || SFleb x dzero then dzero
  else
    let '(x, lo_y, hi_y) := if is_degrees then (dmul x DEG_TO_RAD, dmul lo_y DEG_TO_RAD, dmul hi_y DEG_TO_RAD) else (x, lo_y, hi_y) in
    dmul x (dsub (m_sin hi_y) (m_sin lo_y)).

(** The area of a rectangle of longitudes and latitudes. *)
Definition patch_area `{!Libm} (cs : CoordinateSystem) (x y : Interval) : double :=
  if spherical cs then
    let dlon := dsub (hi x) (lo x) in
    let '(dlon, lo_y, hi_y) := if degrees cs then (dmul dlon DEG_TO_RAD, dmul (lo y) DEG_TO_RAD, dmul (hi y) DEG_TO_RAD) else (dlon, lo y, hi y) in
    dmul dlon (dsub (m_sin hi_y) (m_sin lo_y))
  else dmul (dsub (hi x) (lo x)) (dsub (hi y) (lo y)).

(** The bounds between line [i] and the next one. *)
Definition between (lines : list double) (i : Z) : result Interval :=
  let! a := read lines i in
  let! b := read lines (i + 1) in
  Ok (mkInterval a b).

(** [mesh_areas(c)] if the mesh has areas, otherwise that of the rectangle. *)
Definition cell_area `{!Libm} (cs : CoordinateSystem) (m : UnstructuredMesh) (c : Z) (x y : Interval) : result double :=
  if (length (cell_areas m) =? n_cells m)%nat then read (cell_areas m) c else Ok (patch_area cs x y).

(** ** The generator *)

Section Generator.
Context `{!Libm}.
Context (src_mesh dst_mesh : UnstructuredMesh) (src_rect_info dst_rect_info : RectilinearGridInfo).

Definition csys : CoordinateSystem := coord_sys src_mesh.
Definition src_ni : nat := rect_ni src_rect_info.
Definition src_nj : nat := rect_nj src_rect_info.
Definition dst_ni : nat := rect_ni dst_rect_info.
Definition dst_nj : nat := rect_nj dst_rect_info.
Definition src_lons : list double := unique_lons src_rect_info.
Definition src_lats : list double := unique_lats src_rect_info.
Definition dst_lons : list double := unique_lons dst_rect_info.
Definition dst_lats : list double := unique_lats dst_rect_info.

(** [src_full_range > wrap_threshold] *)
Definition covers_circle (src_lon_min src_lon_max : double) : bool := SFltb (wrap_threshold csys) (dsub src_lon_max src_lon_min).

Definition overlap_area (sx sy dx dy : Interval) : double :=
  if spherical csys then rect_overlap_spherical_nonuniform sx sy dx dy (degrees csys) else rect_overlap_nonuniform sx sy dx dy.

Definition move (d : double) (x : Interval) : Interval := mkInterval (dadd (lo x) d) (dadd (hi x) d).

Section Loops.
Context (src_lon_min src_lon_max : double) (src_is_global : bool).

(** [d_lo_x_norm] and [d_hi_x_norm] *)
Definition normalized (x : Interval) : Interval :=
  if src_is_global then
    let shift := dmul c360 (dfloor (ddiv (dsub (lo x) src_lon_min) c360)) in
    mkInterval (dsub (lo x) shift) (dsub (hi x) shift)
  else x.

(** [is_start] and [is_end] *)
Definition column_range (dx : Interval) : result (Z * Z) :=
  let is_start := Z.max 0 (cast_int (Z.of_nat (std_lower_bound src_lons (lo dx)) - 1)) in
  let is_end := cast_int (Z.of_nat (upper_bound src_lons (hi dx))) in
  if negb src_is_global || SFleb (hi dx) src_lon_max then
    let! last := arith I32 (cast_int (Z.of_nat src_ni) - 1) in
    Ok (is_start, Z.min last is_end)
  else Ok (is_start, is_end).

(** [js_start] and [js_end] *)
Definition row_range (dy : Interval) : result (Z * Z) :=
  let js_start := Z.max 0 (cast_int (Z.of_nat (std_lower_bound src_lats (lo dy)) - 1)) in
  let! last := arith I32 (cast_int (Z.of_nat src_nj) - 1) in
  Ok (js_start, Z.min last (cast_int (Z.of_nat (upper_bound src_lats (hi dy))))).

(** The body of the inner loops. *)
Definition add_source (c_dst : Z) (area_dst : double) (dx dy : Interval) (js i : Z) (s : Accumulated) : result Accumulated :=
  let! is_actual := if src_is_global then wrap_index src_ni i else Ok i in
  let c_src := flat_index src_ni is_actual js in
  let! m := masked src_mesh c_src in
  if m then Ok s
  else
    let! sx := between src_lons is_actual in
    let sx := if src_is_global && (cast_int (Z.of_nat src_ni) <=? i) then move c360 sx else sx in
    let! sy := between src_lats js in
    let overlap := overlap_area sx sy dx dy in
    if SFltb overlap_tol overlap then
      let! area_src := cell_area csys src_mesh c_src sx sy in
      if SFleb area_src dzero then Ok s
      else
        let es := push_entry (acc_entries s) (ddiv overlap area_dst) (to_index c_dst) (to_index c_src) in
        let! fa := update (fun f => dadd f (ddiv overlap area_src)) (frac_a_acc s) c_src in
        let! fb := update (fun f => dadd f (ddiv overlap area_dst)) (frac_b_acc s) c_dst in
        Ok (mkAcc es fa fb)
    else Ok s.

(** The body of the outer loops. *)
Definition add_destination (jd id : nat) (s : Accumulated) : result Accumulated :=
  let c_dst := to_u64 (Z.of_nat id + Z.of_nat jd * Z.of_nat dst_ni) in
  let! m := masked dst_mesh c_dst in
  if m then Ok s
  else
    let! dx := between dst_lons (Z.of_nat id) in
    let! dy := between dst_lats (Z.of_nat jd) in
    let dx := normalized dx in
    let! area_dst := cell_area csys dst_mesh c_dst dx dy in
    if SFleb area_dst dzero then Ok s
    else
      let! columns := column_range dx in
      let! rows := row_range dy in
      let! rows := int_range (fst rows) (snd rows) in
      for_ints rows (fun js s =>
        let! columns := int_range (fst columns) (snd columns) in
        for_ints columns (fun i s => add_source c_dst area_dst dx dy js i s) s) s.
End Loops.

(** [h_area_a] and [h_area_b] *)
Definition output_areas (m : UnstructuredMesh) (info : RectilinearGridInfo) : result (list double) :=
  for_each (seq 0 (n_cells m)) (fun c areas =>
    if (rect_ni info =? 0)%nat then Undef
    else
      let! x := between (unique_lons info) (Z.of_nat (c mod rect_ni info)) in
      let! y := between (unique_lats info) (Z.of_nat (c / rect_ni info)) in
      let! a := cell_area csys m (Z.of_nat c) x y in
      Ok (areas ++ [a])) [].

Definition generate_conservative_rect_nonuniform (config : RegridConfig) : result InterpolationMatrix :=
  let n_src := n_cells src_mesh in
  let n_dst := n_cells dst_mesh in
  let! src_lon_min := read src_lons 0 in
  let! src_lon_max := read src_lons (Z.of_nat src_ni) in
  let src_is_global := covers_circle src_lon_min src_lon_max in
  let! acc := for_each (seq 0 dst_nj) (fun jd s =>
    for_each (seq 0 dst_ni) (add_destination src_lon_min src_lon_max src_is_global jd) s)
    (mkAcc no_entries (replicate n_src dzero) (replicate n_dst dzero)) in
  let! es := normalize_weights config (acc_entries acc) (frac_b_acc acc) in
  let! area_a := output_areas src_mesh src_rect_info in
  let! area_b := output_areas dst_mesh dst_rect_info in
  Ok (new_matrix (weights_vec es) (rows_vec es) (cols_vec es)
        ((fun f => std_min f one) <$> frac_a_acc acc) ((fun f => std_min f one) <$> frac_b_acc acc) area_a area_b n_src n_dst).

(** * Specification *)

Definition line (lines : list double) (i : Z) : double := default dzero (lines !! Z.to_nat i).
Definition cell_of (lines : list double) (i : Z) : Interval := mkInterval (line lines i) (line lines (i + 1)).

Definition lon_first : double := line src_lons 0.
Definition lon_last : double := line src_lons (Z.of_nat src_ni).
Definition global : bool := covers_circle lon_first lon_last.

Definition area_of (m : UnstructuredMesh) (c : Z) (x y : Interval) : double :=
  if (length (cell_areas m) =? n_cells m)%nat then default dzero (cell_areas m !! Z.to_nat c) else patch_area csys x y.

(** The rectangle of a destination cell, brought to the turn of the source, and its area. *)
Definition dst_x (r : nat) : Interval := normalized lon_first global (cell_of dst_lons (Z.of_nat (r mod dst_ni))).
Definition dst_y (r : nat) : Interval := cell_of dst_lats (Z.of_nat (r / dst_ni)).
Definition dst_area (r : nat) : double := area_of dst_mesh (Z.of_nat r) (dst_x r) (dst_y r).

(** A destination cell that is passed over: masked, or without a positive area. *)
Definition skipped (r : nat) : bool := is_masked dst_mesh (Z.of_nat r) || SFleb (dst_area r) dzero.

(** The columns that are asked: all of the source, and for a global one all of its next turn. *)
Definition columns : Z := if global then 2 * Z.of_nat src_ni else Z.of_nat src_ni.

Definition column_index (i : Z) : Z := if global then i mod Z.of_nat src_ni else i.
Definition column_x (i : Z) : Interval :=
  if global && (Z.of_nat src_ni <=? i) then move c360 (cell_of src_lons (column_index i)) else cell_of src_lons (column_index i).

(** The source cell of a column and a row, with its overlap with a destination cell and its
    area, unless it is masked, the overlap is negligible or the area not positive. *)
Definition candidate (r : nat) (j i : Z) : option (Z * (double * double)) :=
  let c := j * Z.of_nat src_ni + column_index i in
  let x := column_x i in
  let y := cell_of src_lats j in
  let overlap := overlap_area x y (dst_x r) (dst_y r) in
  let area := area_of src_mesh c x y in
  if is_masked src_mesh c || negb (SFltb overlap_tol overlap) || SFleb area dzero then None else Some (c, (overlap, area)).

(** The overlaps of a destination cell, asking every row and column. *)
Definition overlaps (r : nat) : list (Z * (double * double)) :=
  if skipped r then []
  else concat ((fun j => omap (candidate r j) (ints 0 (columns - 1))) <$> ints 0 (Z.of_nat src_nj - 1)).

(** The fraction of a destination cell that is covered, and of a source cell that is used. *)
Definition covered (r : nat) : double := sum_of ((fun e => ddiv (fst (snd e)) (dst_area r)) <$> overlaps r).
Definition used (c : nat) : double :=
  sum_of ((fun e => ddiv (fst (snd (snd e))) (snd (snd (snd e)))) <$> filter (fun e => fst (snd e) = Z.of_nat c) (stencil_entries overlaps (n_cells dst_mesh))).

Definition weighted (config : RegridConfig) (r : nat) (e : Z * (double * double)) : Z * double :=
  (fst e, normalized_weight config (covered r) (ddiv (fst (snd e)) (dst_area r))).

Definition grid_area (m : UnstructuredMesh) (info : RectilinearGridInfo) (c : nat) : double :=
  area_of m (Z.of_nat c) (cell_of (unique_lons info) (Z.of_nat (c mod rect_ni info))) (cell_of (unique_lats info) (Z.of_nat (c / rect_ni info))).

(** The matrix of these overlaps. *)
Definition rectilinear_matrix (config : RegridConfig) : InterpolationMatrix :=
  let es := entries_of (stencil_entries (fun r => weighted config r <$> overlaps r) (n_cells dst_mesh)) in
  new_matrix (weights_vec es) (rows_vec es) (cols_vec es)
    ((fun c => std_min (used c) one) <$> seq 0 (n_cells src_mesh)) ((fun r => std_min (covered r) one) <$> seq 0 (n_cells dst_mesh))
    (grid_area src_mesh src_rect_info <$> seq 0 (n_cells src_mesh)) (grid_area dst_mesh dst_rect_info <$> seq 0 (n_cells dst_mesh))
    (n_cells src_mesh) (n_cells dst_mesh).

(** The lines of an axis: doubles in strictly ascending order. *)
Definition is_double (x : double) : bool := valid_binary 53 1024 x.
Definition axis_lines (l : list double) : Prop := StronglySorted (fun a b => SFltb a b = true) l /\ Forall (fun x => is_double x = true) l.
Definition double_bounds (x : Interval) : Prop := is_double (lo x) = true /\ is_double (hi x) = true.

(** * Lemmas *)

(** ** Differences and widths *)
Lemma double_mantissa s m e : is_double (S754_finite s m e) = true -> -1074 <= e /\ Zpos m < 2 ^ 53 /\ (-1074 < e -> 2 ^ 52 <= Zpos m).
Proof.
  unfold is_double, valid_binary, bounded, canonical_mantissa. intros [Hv%Z.eqb_eq _]%andb_true_iff. rewrite digits2_log2 in Hv.
  unfold fexp in Hv. change (emin 53 1024) with (-1074) in Hv. pose proof (Z.log2_spec (Zpos m) ltac:(lia)) as [L U].
  pose proof (Z.log2_nonneg (Zpos m)). split; [lia|]. split.
  - eapply Z.lt_le_trans; [exact U|]. apply Z.pow_le_mono_r; lia.
  - intros He. etransitivity; [|exact L]. apply Z.pow_le_mono_r; lia.
Qed.

(** Of two positive doubles, the one with the larger exponent is larger. *)
Lemma aligned_lt s1 m1 e1 s2 m2 e2 ez : is_double (S754_finite s1 m1 e1) = true -> is_double (S754_finite s2 m2 e2) = true -> ez <= e1 ->
  e1 < e2 \/ e1 = e2 /\ Zpos m1 < Zpos m2 -> Zpos m1 * 2 ^ (e1 - ez) < Zpos m2 * 2 ^ (e2 - ez).
Proof.
  intros H1 H2 He [Hlt|[-> Hlt]]; [|apply Z.mul_lt_mono_pos_r; [by apply Z.pow_pos_nonneg; lia|done]].
  destruct (double_mantissa _ _ _ H1) as (L1 & U1 & _). destruct (double_mantissa _ _ _ H2) as (_ & _ & U2). specialize (U2 ltac:(lia)).
  replace (e2 - ez) with ((e2 - e1) + (e1 - ez)) by lia. rewrite Z.pow_add_r, Z.mul_assoc by lia.
  apply Z.mul_lt_mono_pos_r; [by apply Z.pow_pos_nonneg; lia|]. assert (2 ^ 1 <= 2 ^ (e2 - e1)) by (apply Z.pow_le_mono_r; lia). nia.
Qed.

Lemma normalize_negative z e b : z < 0 -> isnan (binary_normalize 53 1024 z e b) = false /\ SFltb dzero (binary_normalize 53 1024 z e b) = false.
Proof.
  intros Hz. destruct z as [|p|p]; [lia..|]. cbn [binary_normalize]. unfold binary_round. destruct (shl_align p e _) as [m f].
  by destruct (round_sign true (Zpos m) f loc_Exact ltac:(lia)) as [-> |[-> |(q & g & ->)]].
Qed.

Lemma difference_of_lesser a b : is_double a = true -> is_double b = true -> SFltb a b = true -> isnan (dsub a b) = false /\ SFltb dzero (dsub a b) = false.
Proof.
  intros Ha Hb Hlt. destruct a as [s1|s1| |s1 m1 e1], b as [s2|s2| |s2 m2 e2]; try done; try (by destruct s1); try (by destruct s2); try (by destruct s1, s2).
  apply SFltb_key in Hlt; [|done..]. unfold dsub, SFsub. rewrite !align_min by lia. apply normalize_negative. unfold lex in Hlt. cbn [key] in Hlt.
  pose proof (Z.pow_pos_nonneg 2 (e1 - Z.min e1 e2) ltac:(lia) ltac:(lia)). pose proof (Z.pow_pos_nonneg 2 (e2 - Z.min e1 e2) ltac:(lia) ltac:(lia)).
  destruct s1, s2; cbn [cond_Zopp] in *; [|nia|nia|].
  - pose proof (aligned_lt _ _ _ _ _ _ (Z.min e1 e2) Hb Ha ltac:(lia)). nia.
  - pose proof (aligned_lt _ _ _ _ _ _ (Z.min e1 e2) Ha Hb ltac:(lia)). nia.
Qed.

Lemma fmin_cases a b : fmin a b = a \/ fmin a b = b.
Proof. unfold fmin. destruct (isnan a); [by right|]. destruct (isnan b); [by left|]. destruct (SFltb b a); [by right|by left]. Qed.

Lemma fmax_cases a b : fmax a b = a \/ fmax a b = b.
Proof. unfold fmax. destruct (isnan a); [by right|]. destruct (isnan b); [by left|]. destruct (SFltb a b); [by right|by left]. Qed.

Lemma ltb_leb x y : SFltb x y = true -> SFleb x y = true.
Proof. unfold SFltb, SFleb. by destruct (SFcompare x y) as [[]|]. Qed.

Lemma leb_number x y : SFleb x y = true -> isnan x = false /\ isnan y = false.
Proof. by destruct x, y. Qed.

Lemma leb_trans x y z : SFleb x y = true -> SFleb y z = true -> SFleb x z = true.
Proof.
  intros H1 H2. destruct (leb_number _ _ H1) as [Hx Hy], (leb_number _ _ H2) as [_ Hz].
  rewrite leb_ltb in H1, H2 by done. rewrite leb_ltb by done. apply negb_true_iff in H1, H2. apply negb_true_iff. exact (not_above_trans x y z Hx Hy Hz H1 H2).
Qed.

(** A difference of doubles of which the first is not above the second is not positive. *)
Lemma difference_not_positive a b : is_double a = true -> is_double b = true -> SFleb a b = true -> SFltb dzero (dsub a b) = false.
Proof.
  intros Ha Hb Hle. destruct (leb_number _ _ Hle) as [Na Nb]. destruct (SFltb a b) eqn:E; [by apply difference_of_lesser|].
  rewrite leb_ltb in Hle by done. apply negb_true_iff in Hle. destruct (key_inj a b Na Nb) as [->|(s & s' & -> & ->)].
  - apply not_above_antisym; [done|done|exact Hle|exact E].
  - destruct b as [s|s| |s m e]; [by destruct s|by destruct s|done|]. unfold dsub, SFsub. rewrite !align_min by lia. by rewrite Z.sub_diag.
  - by destruct s, s'.
Qed.

(** The smaller of two numbers is not above what either is not above, the larger not below what either is not below. *)
Lemma fmin_leb a b c : SFleb a c = true \/ SFleb b c = true -> SFleb (fmin a b) c = true.
Proof.
  intros Hv. unfold fmin. destruct (isnan a) eqn:Na; [destruct Hv as [Hv|]; [destruct (leb_number _ _ Hv); congruence|done]|].
  destruct (isnan b) eqn:Nb; [destruct Hv as [|Hv]; [done|destruct (leb_number _ _ Hv); congruence]|].
  destruct (SFltb b a) eqn:E; destruct Hv as [Hv|Hv]; try done; eapply leb_trans; try exact Hv; [by apply ltb_leb|].
  rewrite leb_ltb by done. by rewrite E.
Qed.

Lemma fmax_leb a b c : SFleb c a = true \/ SFleb c b = true -> SFleb c (fmax a b) = true.
Proof.
  intros Hv. unfold fmax. destruct (isnan a) eqn:Na; [destruct Hv as [Hv|]; [destruct (leb_number _ _ Hv); congruence|done]|].
  destruct (isnan b) eqn:Nb; [destruct Hv as [|Hv]; [done|destruct (leb_number _ _ Hv); congruence]|].
  destruct (SFltb a b) eqn:E; destruct Hv as [Hv|Hv]; try done; eapply leb_trans; try exact Hv; [by apply ltb_leb|].
  rewrite leb_ltb by done. by rewrite E.
Qed.

(** Two intervals of which one ends before the other begins, or where it does. *)
Definition apart (s d : Interval) : Prop := SFleb (hi s) (lo d) = true \/ SFleb (hi d) (lo s) = true.

Lemma apart_bounds s d : apart s d -> SFleb (fmin (hi s) (hi d)) (fmax (lo s) (lo d)) = true.
Proof.
  intros [Hv|Hv]; apply fmin_leb; [left|right]; apply fmax_leb; [by right|by left].
Qed.

Lemma apart_width s d : double_bounds s -> double_bounds d -> apart s d -> fmax dzero (dsub (fmin (hi s) (hi d)) (fmax (lo s) (lo d))) = dzero.
Proof.
  intros [S1 S2] [D1 D2] Hv%apart_bounds. assert (Hs : SFltb dzero (dsub (fmin (hi s) (hi d)) (fmax (lo s) (lo d))) = false).
  { apply difference_not_positive; [..|done].
    - by destruct (fmin_cases (hi s) (hi d)) as [-> | ->].
    - by destruct (fmax_cases (lo s) (lo d)) as [-> | ->]. }
  set (x := dsub _ _) in *. unfold fmax. rewrite Hs. by destruct (isnan x).
Qed.

Lemma zero_area_negligible x y : x = dzero \/ y = dzero -> SFltb overlap_tol (dmul x y) = false.
Proof. intros [->| ->]; [by destruct y as [[]|[]| |[]]|by destruct x as [[]|[]| |[]]]. Qed.

(** Rectangles that are apart along an axis have no overlap worth an entry. *)
Definition clear_of (s d : Interval) : Prop := double_bounds s /\ double_bounds d /\ apart s d.

Lemma apart_overlap sx sy dx dy : clear_of sx dx \/ clear_of sy dy ->
  SFltb overlap_tol (overlap_area sx sy dx dy) = false.
Proof.
  intros Ha. unfold overlap_area. destruct (spherical csys).
  - unfold rect_overlap_spherical_nonuniform. destruct Ha as [(B1 & B2 & Hx)|(_ & _ & Hy)].
    + rewrite (apart_width sx dx) by done. by rewrite orb_true_r.
    + by rewrite (apart_bounds _ _ Hy).
  - unfold rect_overlap_nonuniform. apply zero_area_negligible. destruct Ha as [(B1 & B2 & Ha)|(B1 & B2 & Ha)]; [left|right]; by apply apart_width.
Qed.

(** ** Lines *)

Lemma line_lookup lines i : 0 <= i < Z.of_nat (length lines) -> lines !! Z.to_nat i = Some (line lines i).
Proof. intros Hi. destruct (lookup_lt_is_Some_2 lines (Z.to_nat i)) as [x Hx]; [lia|]. unfold line. by rewrite Hx. Qed.

Lemma read_line lines i : 0 <= i < Z.of_nat (length lines) -> read lines i = Ok (line lines i).
Proof. intros Hi. destruct (read_in_bounds lines i Hi) as (x & -> & Ex). unfold line. by rewrite Ex. Qed.

Lemma between_ok lines i : 0 <= i -> i + 1 < Z.of_nat (length lines) -> between lines i = Ok (cell_of lines i).
Proof. intros H1 H2. unfold between. by rewrite !read_line by lia. Qed.

Lemma cell_area_in_bounds m c x y : 0 <= c < Z.of_nat (n_cells m) -> cell_area csys m c x y = Ok (area_of m c x y).
Proof.
  intros Hc. unfold cell_area, area_of. destruct (Nat.eqb_spec (length (cell_areas m)) (n_cells m)) as [El|]; [|done].
  destruct (read_in_bounds (cell_areas m) c) as (a & -> & Ea); [lia|]. by rewrite Ea.
Qed.

Lemma axis_cell lines i : axis_lines lines -> 0 <= i -> i + 1 < Z.of_nat (length lines) -> double_bounds (cell_of lines i).
Proof.
  intros [_ Hd] H1 H2. rewrite Forall_lookup in Hd. split; cbn [cell_of lo hi]; eapply Hd; apply line_lookup; lia.
Qed.

(** The cells of an axis before the one that [lower_bound] finds and after the one that
    [upper_bound] finds are apart from the interval. *)
Lemma before_lower_bound lines d i : 0 <= i -> i + 1 < Z.of_nat (std_lower_bound lines (lo d)) -> apart (cell_of lines i) d.
Proof.
  intros H1 H2. left. apply ltb_leb. cbn [cell_of hi]. pose proof (std_lower_bound_le lines (lo d)).
  apply (below_lower_bound lines _ (Z.to_nat (i + 1))); [lia|]. apply line_lookup. lia.
Qed.

Lemma after_upper_bound lines d i : axis_lines lines -> Z.of_nat (upper_bound lines (hi d)) <= i < Z.of_nat (length lines) -> apart (cell_of lines i) d.
Proof.
  intros [Hs _] Hi. right. apply ltb_leb. cbn [cell_of lo]. apply (above_upper_bound lines _ (Z.to_nat i)); [done|lia|]. apply line_lookup. lia.
Qed.

Lemma upper_bound_end lines x n : axis_lines lines -> length lines = S n -> SFleb x (line lines (Z.of_nat n)) = false -> upper_bound lines x = S n.
Proof.
  intros [Hs _] Hl Hx. pose proof (upper_bound_le lines x) as Hu. destruct (decide (upper_bound lines x = S n)) as [|Hne]; [done|]. exfalso.
  assert (Hlt : SFltb x (line lines (Z.of_nat n)) = true).
  { apply (above_upper_bound lines x n); [done|lia|]. pose proof (line_lookup lines (Z.of_nat n) ltac:(lia)) as El. by rewrite Nat2Z.id in El. }
  by rewrite (ltb_leb _ _ Hlt) in Hx.
Qed.

Lemma cast_small z : - 2 ^ 31 <= z < 2 ^ 31 -> cast_int z = z.
Proof. intros Hz. unfold cast_int. rewrite Z.mod_small; lia. Qed.

(** ** Ranges *)

Lemma ints_split a b c : a <= c + 1 <= b + 1 -> ints a b = ints a c ++ ints (c + 1) b.
Proof.
  intros Hc. unfold ints. replace (Z.to_nat (b - a + 1)) with (Z.to_nat (c - a + 1) + Z.to_nat (b - (c + 1) + 1))%nat by lia.
  rewrite seq_app, fmap_app. f_equal. set (k := Z.to_nat (c - a + 1)). set (n := Z.to_nat (b - (c + 1) + 1)).
  replace (seq (0 + k) n) with (Nat.add k <$> seq 0 n) by (rewrite fmap_add_seq; f_equal; lia). rewrite <- list_fmap_compose.
  apply list_fmap_ext. intros _ i _. unfold k. cbn. lia.
Qed.

Lemma concat_nothing {A} (g : Z -> list A) l : (forall k, k ∈ l -> g k = []) -> concat (g <$> l) = [].
Proof.
  induction l as [|k l IH]; intros Hg; [done|]. cbn. rewrite Hg by left. apply IH. intros k' Hk. apply Hg. by right.
Qed.

(** Integers that contribute nothing may be left out. *)
Lemma concat_trim {A} (g : Z -> list A) a b n : 0 <= a -> b <= n - 1 -> (forall k, 0 <= k < n -> k < a \/ b < k -> g k = []) ->
  concat (g <$> ints a b) = concat (g <$> ints 0 (n - 1)).
Proof.
  intros Ha Hb Hg. destruct (decide (a <= b)) as [Hab|Hab].
  - rewrite (ints_split 0 (n - 1) (a - 1)) by lia. replace (a - 1 + 1) with a by lia. rewrite (ints_split a (n - 1) b) by lia.
    rewrite !fmap_app, !concat_app. rewrite (concat_nothing g (ints 0 (a - 1))), (concat_nothing g (ints (b + 1) (n - 1))); [by rewrite app_nil_r|..];
      intros k Hk%elem_of_ints; apply Hg; lia.
  - rewrite !concat_nothing; [done|..]; intros k Hk%elem_of_ints; [apply Hg|]; lia.
Qed.

Lemma omap_concat {A} (f : Z -> option A) l : omap f l = concat ((fun k => option_list (f k)) <$> l).
Proof. induction l as [|k l IH]; [done|]. cbn. rewrite <- IH. by destruct (f k). Qed.

Lemma omap_trim {A} (f : Z -> option A) a b n : 0 <= a -> b <= n - 1 -> (forall k, 0 <= k < n -> k < a \/ b < k -> f k = None) ->
  omap f (ints a b) = omap f (ints 0 (n - 1)).
Proof. intros Ha Hb Hf. rewrite !omap_concat. apply concat_trim; [done..|]. intros k H1 H2. by rewrite Hf. Qed.

(** ** The loops *)

(** What has been accumulated when the overlaps [l] have been found. *)
Definition acc_of (l : list (Z * (Z * (double * double)))) : Accumulated :=
  mkAcc (entries_of ((fun e => (fst e, (fst (snd e), ddiv (fst (snd (snd e))) (dst_area (Z.to_nat (fst e)))))) <$> l))
    ((fun c => sum_of ((fun e => ddiv (fst (snd (snd e))) (snd (snd (snd e)))) <$> filter (fun e => fst (snd e) = Z.of_nat c) l)) <$> seq 0 (n_cells src_mesh))
    ((fun r => sum_of ((fun e => ddiv (fst (snd (snd e))) (dst_area r)) <$> filter (fun e => fst e = Z.of_nat r) l)) <$> seq 0 (n_cells dst_mesh)).

Section Correctness.
Context (Hsrc : rect_fits src_mesh src_rect_info) (Hdst : rect_fits dst_mesh dst_rect_info).

Lemma column_index_range i : 0 <= i -> (global = false -> i < Z.of_nat src_ni) -> 0 <= column_index i < Z.of_nat src_ni.
Proof.
  intros H0 Hi. destruct Hsrc as ((Hi0 & _) & _). unfold column_index. destruct global; [apply Z.mod_pos_bound; unfold src_ni; lia|by split; [|apply Hi]].
Qed.

Lemma add_source_ok r j i l : (r < n_cells dst_mesh)%nat -> 0 <= j < Z.of_nat src_nj -> 0 <= i < 2 ^ 30 -> (global = false -> i < Z.of_nat src_ni) ->
  add_source global (Z.of_nat r) (dst_area r) (dst_x r) (dst_y r) j i (acc_of l) = Ok (acc_of (l ++ tagged r (candidate r j i))).
Proof.
  intros Hr Hj Hi Hg. pose proof (column_index_range i ltac:(lia) Hg) as Hc. destruct Hsrc as ((Hi0 & Hi28 & Hj0 & Hj28 & Hns) & Llon & Llat).
  destruct Hdst as ((_ & Di & _ & Dj & Hnd) & _). fold src_ni src_nj src_lons src_lats in *.
  assert (Hcr : 0 <= j * Z.of_nat src_ni + column_index i < Z.of_nat (n_cells src_mesh)) by (rewrite Hns; by apply flat_range).
  unfold add_source, candidate.
  assert (Ew : (if global then wrap_index src_ni i else Ok i) = Ok (column_index i)).
  { unfold column_index. destruct global; [|done]. apply (wrap_index_ok src_ni i); [done|lia|cbn; lia]. }
  rewrite Ew. cbn [bind]. rewrite (flat_index_id _ src_nj) by lia. set (c := j * Z.of_nat src_ni + column_index i) in *.
  rewrite masked_ok by done. cbn [bind]. destruct (is_masked src_mesh c); cbn [orb]; [by rewrite app_nil_r|].
  rewrite between_ok by lia. cbn [bind]. rewrite cast_int_id by lia. fold (column_x i). rewrite between_ok by lia. cbn [bind].
  set (ov := overlap_area _ _ _ _). destruct (SFltb overlap_tol ov); cbn [negb orb]; [|by rewrite app_nil_r].
  rewrite cell_area_in_bounds by done. cbn [bind]. set (area := area_of _ _ _ _). destruct (SFleb area dzero); [by rewrite app_nil_r|]. cbn [tagged].
  unfold acc_of at 1 2 3. cbn [acc_entries frac_a_acc frac_b_acc]. rewrite push_entries_of, !to_index_id by (rewrite Hns in Hcr; nia || lia).
  pose proof (update_sums (fun e : Z * (Z * (double * double)) => fst (snd e)) (fun _ e => ddiv (fst (snd (snd e))) (snd (snd (snd e)))) (n_cells src_mesh) l (Z.of_nat r, (c, (ov, area))) Hcr) as Ea.
  cbn [fst snd] in Ea. rewrite Ea. cbn [bind].
  pose proof (update_sums (fun e : Z * (Z * (double * double)) => fst e) (fun r e => ddiv (fst (snd (snd e))) (dst_area r)) (n_cells dst_mesh) l (Z.of_nat r, (c, (ov, area))) ltac:(cbn; lia)) as Eb.
  cbn [fst snd] in Eb. rewrite Nat2Z.id in Eb. rewrite Eb. cbn [bind]. unfold acc_of. rewrite fmap_app. cbn [fmap list_fmap fst snd]. by rewrite Nat2Z.id.
Qed.

Context (Hlons : axis_lines src_lons) (Hlats : axis_lines src_lats).

(** A global source has two columns or more and is of one turn at most: its next turn begins where it ends, or later. *)
Definition one_turn : Prop := global = true -> 2 <= Z.of_nat src_ni /\
  forall k, Z.of_nat src_ni <= k < 2 * Z.of_nat src_ni -> double_bounds (column_x k) /\ SFleb lon_last (lo (column_x k)) = true.

(** A destination cell ends within a global source, or before the third column of its next turn and within that turn. *)
Definition within_reach (r : nat) : Prop := global = true -> SFleb (hi (dst_x r)) lon_last = true \/
  SFleb (hi (dst_x r)) (hi (column_x (2 * Z.of_nat src_ni - 1))) = true /\
  forall k, Z.of_nat src_ni + 2 <= k < 2 * Z.of_nat src_ni -> SFleb (hi (dst_x r)) (lo (column_x k)) = true.

Context (Hturn : one_turn).

(** A range of columns that leaves out only columns without an overlap. *)
Lemma column_range_ok r : within_reach r -> exists a b, column_range lon_last global (dst_x r) = Ok (a, b) /\ 0 <= a /\ b <= columns - 1 /\ b < 2 ^ 30 /\
  forall k, 0 <= k < columns -> k < a \/ b < k -> double_bounds (column_x k) /\ apart (column_x k) (dst_x r).
Proof.
  intros Hr. destruct Hsrc as ((Hi0 & Hi28 & _) & Llon & _). fold src_ni src_lons in *.
  pose proof (std_lower_bound_le src_lons (lo (dst_x r))) as Hlb. pose proof (upper_bound_le src_lons (hi (dst_x r))) as Hub.
  unfold column_range. rewrite !cast_small by lia.
  exists (Z.max 0 (Z.of_nat (std_lower_bound src_lons (lo (dst_x r))) - 1)).
  assert (Hx : forall k, 0 <= k < Z.of_nat src_ni -> column_x k = cell_of src_lons k).
  { intros k Hk. unfold column_x, column_index. rewrite (proj2 (Z.leb_gt _ _)), andb_false_r by lia. destruct global; [by rewrite Z.mod_small|done]. }
  assert (Hown : forall k, 0 <= k < Z.of_nat src_ni -> k + 1 < Z.of_nat (std_lower_bound src_lons (lo (dst_x r))) \/ Z.of_nat (upper_bound src_lons (hi (dst_x r))) <= k ->
    double_bounds (column_x k) /\ apart (column_x k) (dst_x r)).
  { intros k Hk Hout. rewrite Hx by lia. split; [apply axis_cell; [done|lia..]|]. destruct Hout; [apply before_lower_bound; lia|apply after_upper_bound; [done|lia]]. }
  unfold columns. unfold one_turn, within_reach in *. destruct global; cbn [negb orb].
  - destruct (Hturn eq_refl) as [H2 Hnext]. destruct (SFleb (hi (dst_x r)) lon_last) eqn:El.
    + rewrite arith_ok by (cbn; lia). cbn [bind]. eexists. split; [done|]. split; [lia|]. split; [lia|]. split; [lia|]. intros k Hk Hout.
      destruct (decide (k < Z.of_nat src_ni)); [apply Hown; lia|]. destruct (Hnext k ltac:(lia)) as [Hd Hl]. split; [done|]. right. by eapply leb_trans.
    + eexists. split; [done|]. rewrite (upper_bound_end src_lons _ src_ni) by done. split; [lia|]. split; [lia|]. split; [lia|]. intros k Hk Hout.
      destruct (decide (k < Z.of_nat src_ni)); [apply Hown; lia|]. destruct (Hnext k ltac:(lia)) as [Hd _]. split; [done|]. right.
      destruct (Hr eq_refl) as [|[_ Hr']]; [done|]. apply Hr'. lia.
  - rewrite arith_ok by (cbn; lia). cbn [bind]. eexists. split; [done|]. split; [lia|]. split; [lia|]. split; [lia|]. intros k Hk Hout. apply Hown; lia.
Qed.

Lemma row_range_ok r : exists a b, row_range (dst_y r) = Ok (a, b) /\ 0 <= a /\ b <= Z.of_nat src_nj - 1 /\
  forall k, 0 <= k < Z.of_nat src_nj -> k < a \/ b < k -> apart (cell_of src_lats k) (dst_y r).
Proof.
  destruct Hsrc as ((_ & _ & Hj0 & Hj28 & _) & _ & Llat). fold src_nj src_lats in *.
  pose proof (std_lower_bound_le src_lats (lo (dst_y r))) as Hlb. pose proof (upper_bound_le src_lats (hi (dst_y r))) as Hub.
  unfold row_range. cbv zeta. rewrite (cast_small (Z.of_nat src_nj)) by lia. rewrite arith_ok by (cbn; lia). cbn [bind]. rewrite !cast_small by lia.
  do 2 eexists. split; [done|]. split; [lia|]. split; [lia|]. intros k Hk Hout.
  destruct Hout; [apply before_lower_bound; lia|apply after_upper_bound; [done|lia]].
Qed.

Lemma candidate_clear r j i : clear_of (column_x i) (dst_x r) \/ clear_of (cell_of src_lats j) (dst_y r) -> candidate r j i = None.
Proof. intros Ha. unfold candidate. rewrite apart_overlap by done. cbn [negb]. by rewrite orb_true_r. Qed.

(** The bounds of a destination cell that is not passed over are doubles. *)
Definition bounded (r : nat) : Prop := double_bounds (dst_x r) /\ double_bounds (dst_y r).

Lemma add_destination_ok jd id l : (jd < dst_nj)%nat -> (id < dst_ni)%nat -> let r := (jd * dst_ni + id)%nat in (skipped r = false -> bounded r /\ within_reach r) ->
  add_destination lon_first lon_last global jd id (acc_of l) = Ok (acc_of (l ++ ((fun e => (Z.of_nat r, e)) <$> overlaps r))).
Proof.
  intros Hjd Hid r Hb. destruct Hdst as ((_ & Di & _ & Dj & Hnd) & Ldon & Ldat). fold dst_ni dst_nj dst_lons dst_lats in *.
  pose proof Hsrc as ((Hi0 & Hi28 & Hj0 & Hj28 & Hns) & Llon & Llat). fold src_ni src_nj src_lons src_lats in *.
  assert (Hr : (r < n_cells dst_mesh)%nat) by (rewrite Hnd; unfold r; nia).
  assert (Er : to_u64 (Z.of_nat id + Z.of_nat jd * Z.of_nat dst_ni) = Z.of_nat r) by (unfold r; rewrite to_u64_id; nia).
  assert (Ed : (r / dst_ni)%nat = jd /\ (r mod dst_ni)%nat = id).
  { unfold r. rewrite Nat.add_comm, Nat.div_add, Nat.Div0.mod_add, Nat.div_small, Nat.mod_small by lia. done. }
  destruct Ed as [Ed Em]. unfold add_destination, overlaps, skipped in *. rewrite Er, masked_ok by lia. cbn [bind].
  destruct (is_masked dst_mesh (Z.of_nat r)); cbn [orb] in *; [by rewrite app_nil_r|]. rewrite !between_ok by lia. cbn [bind].
  assert (Ex : normalized lon_first global (cell_of dst_lons (Z.of_nat id)) = dst_x r) by (unfold dst_x; by rewrite Em).
  assert (Ey : cell_of dst_lats (Z.of_nat jd) = dst_y r) by (unfold dst_y; by rewrite Ed). rewrite Ex, Ey, cell_area_in_bounds by lia. cbn [bind].
  fold (dst_area r). destruct (SFleb (dst_area r) dzero); [by rewrite app_nil_r|]. destruct (Hb eq_refl) as [[Bx By] Hreach].
  destruct (column_range_ok r Hreach) as (a & b & -> & Ha & Hbr & Hb30 & Hc). destruct (row_range_ok r) as (a' & b' & -> & Ha' & Hb' & Hc'). cbn [bind fst snd].
  rewrite int_range_ok by (cbn; lia). cbn [bind]. rewrite (for_ints_acc acc_of (fun j => (fun e => (Z.of_nat r, e)) <$> omap (candidate r j) (ints a b))).
  - rewrite concat_fmap_fmap. do 3 f_equal. f_equal. rewrite (concat_trim _ a' b' (Z.of_nat src_nj)); [|done|done|].
    + f_equal. apply list_fmap_ext. intros _ j _. apply omap_trim; [done..|]. intros k Hk Hout.
      destruct (Hc k Hk Hout). apply candidate_clear. by left.
    + intros j Hj Hout. rewrite omap_concat. apply concat_nothing. intros k _. rewrite candidate_clear; [done|]. right.
      split; [apply axis_cell; [done|lia..]|]. split; [done|by apply Hc'].
  - intros j l0 Hj%elem_of_ints. rewrite int_range_ok by (cbn; lia). cbn [bind].
    rewrite (for_ints_acc acc_of (fun i => tagged r (candidate r j i))); [by rewrite concat_tagged|].
    intros i l1 Hi%elem_of_ints. apply add_source_ok; [done|lia|lia|]. intros Hg. unfold columns in Hbr. rewrite Hg in Hbr. lia.
Qed.

Lemma output_areas_ok m info : rect_fits m info -> output_areas m info = Ok (grid_area m info <$> seq 0 (n_cells m)).
Proof.
  intros ((Hi0 & Hi & Hj0 & Hj & Hn) & Llon & Llat). unfold output_areas.
  destruct (for_each_inv (fun i l => l = grid_area m info <$> seq 0 i) (n_cells m) (fun c areas =>
    if (rect_ni info =? 0)%nat then Undef
    else
      let! x := between (unique_lons info) (Z.of_nat (c mod rect_ni info)) in
      let! y := between (unique_lats info) (Z.of_nat (c / rect_ni info)) in
      let! a := cell_area csys m (Z.of_nat c) x y in
      Ok (areas ++ [a])) []) as (l & -> & ->); [|done|done].
  intros c t Hc ->. rewrite (proj2 (Nat.eqb_neq _ 0)) by lia. pose proof (Nat.mod_upper_bound c (rect_ni info) ltac:(lia)).
  assert (c / rect_ni info < rect_nj info)%nat by (apply Nat.Div0.div_lt_upper_bound; lia).
  rewrite !between_ok by lia. cbn [bind]. rewrite cell_area_in_bounds by lia. cbn [bind]. eexists. split; [done|].
  change (1 + c)%nat with (S c). by rewrite seq_S, fmap_app.
Qed.

(** ** Entries *)

Lemma overlap_properties r e : e ∈ overlaps r -> skipped r = false /\ 0 <= fst e < Z.of_nat (n_cells src_mesh) /\ is_masked src_mesh (fst e) = false /\
  SFltb overlap_tol (fst (snd e)) = true.
Proof.
  intros He. unfold overlaps in He. destruct (skipped r); [by apply elem_of_nil in He|]. split; [done|].
  apply list_elem_of_In, in_concat in He as (l & Hl%list_elem_of_In & He%list_elem_of_In).
  apply list_elem_of_fmap in Hl as (j & -> & Hj%elem_of_ints). apply list_elem_of_omap in He as (i & Hi%elem_of_ints & Hc).
  unfold candidate in Hc. destruct (is_masked src_mesh _) eqn:Em; [done|]. cbn [orb] in Hc. destruct (SFltb overlap_tol _) eqn:Eo; [|done]. cbn [negb orb] in Hc.
  destruct (SFleb _ dzero); [done|]. injection Hc as <-. cbn [fst snd]. split; [|done].
  destruct Hsrc as ((Hi0 & _ & _ & _ & ->) & _). fold src_ni src_nj in *. apply flat_range; [|lia].
  apply column_index_range; [lia|]. intros Hg. unfold columns in Hi. rewrite Hg in Hi. lia.
Qed.

Lemma above_tolerance x : SFltb overlap_tol x = true -> SFltb x dzero = false.
Proof. by destruct x as [[]|[]| |[]]. Qed.

Lemma weighted_not_negative config r e : e ∈ overlaps r -> SFltb (snd (weighted config r e)) dzero = false.
Proof.
  intros He. destruct (overlap_properties r e He) as (Hs & _ & _ & Ho). unfold skipped in Hs. apply orb_false_iff in Hs as [_ Ha].
  assert (Hw : SFltb (ddiv (fst (snd e)) (dst_area r)) dzero = false) by (apply quotient_not_negative; [by apply above_tolerance|done]).
  by apply normalized_not_negative.
Qed.

Lemma found_fractions l : l = stencil_entries overlaps (n_cells dst_mesh) ->
  frac_a_acc (acc_of l) = used <$> seq 0 (n_cells src_mesh) /\ frac_b_acc (acc_of l) = covered <$> seq 0 (n_cells dst_mesh).
Proof.
  intros ->. split; [done|]. cbn [acc_of frac_b_acc]. apply list_fmap_ext. intros _ r Hr%list_elem_of_lookup_2%elem_of_seq.
  rewrite filter_stencil_entries by lia. unfold covered. by rewrite <- list_fmap_compose.
Qed.
End Correctness.

Lemma acc_of_nothing : mkAcc no_entries (replicate (n_cells src_mesh) dzero) (replicate (n_cells dst_mesh) dzero) = acc_of [].
Proof. unfold acc_of. cbn [fmap list_fmap]. by rewrite !no_sums. Qed.

(** * Properties *)

End Generator.

(** * Examples *)

#[local] Instance flat_libm : Libm := {| m_cos x := x; m_sin x := x; m_asin x := x; m_atan2 y x := ddiv y x |}.

(** The mesh of the cells between the given lines. *)
Definition mesh_between (cs : CoordinateSystem) (lons lats : list Z) : UnstructuredMesh :=
  in_system cs (lattice (length lons - 1) (length lats - 1) (fun i => of_int (default 0 (lons !! i))) (fun j => of_int (default 0 (lats !! j)))).
Definition rect_between (lons lats : list Z) : RectilinearGridInfo :=
  mkRectilinearInfo true (length lons - 1) (length lats - 1) (of_int <$> lons) (of_int <$> lats).

(** A globe of uneven columns, and three cells of which the last crosses its seam. *)
Definition uneven_lons : list Z := [0; 60; 180; 270; 360].
Definition belt_lons : list Z := [30; 90; 330; 390].
Definition uneven : UnstructuredMesh := mesh_between SphericalDeg uneven_lons [-90; 0; 90].
Definition uneven_rect : RectilinearGridInfo := rect_between uneven_lons [-90; 0; 90].
Definition belt : UnstructuredMesh := mesh_between SphericalDeg belt_lons [-45; 45].
Definition belt_rect : RectilinearGridInfo := rect_between belt_lons [-45; 45].

Lemma between_fits cs lons lats : let m := mesh_between cs lons lats in let info := rect_between lons lats in
  (2 <= length lons)%nat -> Z.of_nat (length lons) < 2 ^ 28 -> (2 <= length lats)%nat -> Z.of_nat (length lats) < 2 ^ 28 -> rect_fits m info.
Proof.
  intros m info L1 L2 L3 L4. split; [|cbn; rewrite !length_fmap; lia]. cbn [info rect_between rect_ni rect_nj].
  do 4 (split; [lia|]). apply (lattice_ok (length lons - 1) (length lats - 1) (fun i => of_int (default 0 (lons !! i))) (fun j => of_int (default 0 (lats !! j)))). lia.
Qed.

Lemma belt_bounded r : (r < n_cells belt)%nat -> bounded uneven uneven_rect belt_rect r /\ within_reach uneven uneven_rect belt_rect r.
Proof.
  intros Hr. destruct r as [|[|[|r]]]; [..|cbn in Hr; lia]; (split; [vm_compute; repeat split|intros _]).
  - left. vm_compute. reflexivity.
  - left. vm_compute. reflexivity.
  - right. split; [vm_compute; reflexivity|]. intros k Hk. cbn in Hk. assert (k = 6 \/ k = 7) as [->| ->] by lia; vm_compute; reflexivity.
Qed.

Lemma uneven_one_turn : one_turn uneven uneven_rect.
Proof.
  intros _. split; [cbn; lia|]. intros k Hk. cbn in Hk. assert (k = 4 \/ k = 5 \/ k = 6 \/ k = 7) as [->|[->|[->| ->]]] by lia; vm_compute; repeat split.
Qed.

Lemma belt_overlaps : (fun r => fst <$> overlaps uneven belt uneven_rect belt_rect r) <$> [0; 1; 2]%nat = [[0; 1; 4; 5]; [1; 2; 3; 5; 6; 7]; [3; 0; 7; 4]].
Proof. vm_compute. reflexivity. Qed.


(** The loops over the columns of a global source end with the second one of its next turn: what a wide
    destination cell has of the third is lost. *)
Example third_column_is_lost :
  let lons := (fun k => 30 * Z.of_nat k) <$> seq 0 13 in
  let src := mesh_between SphericalDeg lons [-90; 90] in
  let dst := mesh_between SphericalDeg [350; 450] [-90; 90] in
  let s := rect_between lons [-90; 90] in
  let d := rect_between [350; 450] [-90; 90] in
  (fst <$> overlaps src dst s d 0, let! m := generate_conservative_rect_nonuniform src dst s d default_config in Ok (factor_col m)) = ([11; 0; 1; 2], Ok [11; 0; 1]).
Proof. vm_compute. reflexivity. Qed.

(** The two columns of the next turn are the same one when the source has a single column,
    which is then counted twice. *)
Example single_column_counts_twice :
  let src := mesh_between SphericalDeg [0; 360] [-90; 90] in
  let dst := mesh_between SphericalDeg [180; 540] [-90; 90] in
  let s := rect_between [0; 360] [-90; 90] in
  let d := rect_between [180; 540] [-90; 90] in
  (fst <$> overlaps src dst s d 0, let! m := generate_conservative_rect_nonuniform src dst s d default_config in Ok (factor_col m, frac_b m)) = ([0; 0], Ok ([0; 0; 0], [one])).
Proof. vm_compute. reflexivity. Qed.

(** Plane coordinates are taken for longitudes: a source wider than six is one that goes round
    the globe, and a cell from 700 to 800 gets the columns from 300 to 500. *)
Example planes_are_turned :
  let lons := (fun k => 100 * Z.of_nat k) <$> seq 0 11 in
  let src := mesh_between Cartesian3D lons [0; 100] in
  let dst := mesh_between Cartesian3D [700; 800] [0; 100] in
  (let! m := generate_conservative_rect_nonuniform src dst (rect_between lons [0; 100]) (rect_between [700; 800] [0; 100]) default_config in Ok (factor_col m)) = Ok [3; 4].
Proof. vm_compute. reflexivity. Qed.

(** In radians, a cell west of the first line is moved by 360 radians, away from every column. *)
Example radians_are_moved_away :
  let src := in_system SphericalRad globe in
  let s := mkRectilinearInfo true 4 2 (turn <$> [0; 1; 2; 3; 4]) (turn <$> [-1; 0; 1]) in
  let d := mkRectilinearInfo true 4 2 (turn <$> [-2; -1; 0; 1; 2]) (turn <$> [-1; 0; 1]) in
  (let! m := generate_conservative_rect_nonuniform src globe s d default_config in Ok (zip (factor_row m) (factor_col m))) = Ok [(2, 0); (3, 1); (6, 4); (7, 5)].
Proof. vm_compute. reflexivity. Qed.
