(* ===== verification/Conservation.v ===== *)
(** * AXIS: accounts of conservation
    (src/libs/axis/src/solver/conservation.cpp, include/axis/solver/conservation.hpp)

    The integrals of a field over its cells are sum reductions, so their values are those of some
    bracketing of some order of the terms ([KokkosArrays.summation]); the report of a
    regridding compares two of them.  [adjust_by_fraction] recovers the values of partly covered
    cells. *)
From Stdlib Require Import ZArith Lia SpecFloat.
From stdpp Require Import base list numbers.
From S2P Require Import Prelude Blend KokkosArrays InterpolationMatrix SparseApply AxisMesh Magnitude UnitInterval DoubleOrder BilinearRect.
Local Open Scope Z_scope.

Record ConservationReport : Type := mkReport {
  src_integral : double;
  dst_integral : double;
  absolute_error : double;
  relative_error : double
}.

Definition epsilon : double := S754_finite false 4503599627370496 (-104).

(** The extent of a field as an [int]; a policy does not run backwards. *)
Definition int_extent (l : list double) : result Z :=
  let n := cast_int (Z.of_nat (length l)) in if n <? 0 then Undef else Ok n.

Section Conservation.
Context `{!ParallelFor, !KokkosReduce}.

(** The terms of [sum += src_ptr[i] * area_ptr[i] * frac_ptr[i]]. *)
Definition weighted_terms (field area frac : list double) (n : Z) : result (list double) :=
  read_range 0 n (fun i =>
    let! x := read field i in
    let! a := read area i in
    let! f := read frac i in
    Ok (dmul (dmul x a) f)).

Definition source_integral (src_field area_a frac_a : list double) : result double :=
  let! n := int_extent src_field in
  let! terms := weighted_terms src_field area_a frac_a n in
  Ok (sum_reduce terms).

(** The terms of the cells that are covered. *)
Definition covered_terms (field area frac : list double) (n : Z) : result (list double) :=
  let! terms := read_range 0 n (fun j =>
    let! f := read frac j in
    if negb (SFeqb f dzero) then
      let! x := read field j in
      let! a := read area j in
      Ok [dmul x a]
    else Ok []) in
  Ok (concat terms).

Definition destination_integral (dst_field area_b frac_b : list double) (norm : NormType) : result double :=
  let! n := int_extent dst_field in
  let! terms := if decide (norm = DstArea) then covered_terms dst_field area_b frac_b n else weighted_terms dst_field area_b frac_b n in
  Ok (sum_reduce terms).

Definition check_conservation (src_field dst_field : list double) (m : InterpolationMatrix) (norm : NormType) : result ConservationReport :=
  let! s := source_integral src_field (area_a m) (frac_a m) in
  let! d := destination_integral dst_field (area_b m) (frac_b m) norm in
  let error := SFabs (dsub s d) in
  let denom := std_max (std_max (SFabs s) (SFabs d)) epsilon in
  Ok (mkReport s d error (ddiv error denom)).

Definition adjust_by_fraction (dst_field frac_b : list double) : result (list double) :=
  let! n := int_extent dst_field in
  for_each (range_order (Z.to_nat n)) (fun j dst =>
    let! f := read frac_b (Z.of_nat j) in
    if negb (SFeqb f dzero) then update (fun x => ddiv x f) dst (Z.of_nat j) else Ok dst) dst_field.
End Conservation.

(** * Specification *)

Definition entry_of (l : list double) (i : nat) : double := default dzero (l !! i).

(** The terms of the integrals. *)
Definition integrand (field area frac : list double) : list double :=
  (fun i => dmul (dmul (entry_of field i) (entry_of area i)) (entry_of frac i)) <$> seq 0 (length field).

Definition covered_cell (frac : list double) (i : nat) : bool := negb (SFeqb (entry_of frac i) dzero).

Definition covered_integrand (field area frac : list double) : list double :=
  (fun i => dmul (entry_of field i) (entry_of area i)) <$> filter (fun i => covered_cell frac i = true) (seq 0 (length field)).

Definition destination_integrand (norm : NormType) (field area frac : list double) : list double :=
  if decide (norm = DstArea) then covered_integrand field area frac else integrand field area frac.

(** * Lemmas *)

Lemma int_extent_ok l : Z.of_nat (length l) < 2 ^ 31 -> int_extent l = Ok (Z.of_nat (length l)).
Proof. intros Hl. unfold int_extent. rewrite cast_int_id by done. case_if; [bsimpl; lia|done]. Qed.

Lemma read_entry l i : (i < length l)%nat -> read l (Z.of_nat i) = Ok (entry_of l i).
Proof. intros Hi. destruct (lookup_lt_is_Some_2 l i Hi) as [x Hx]. rewrite (read_nat _ _ _ Hx). unfold entry_of. by rewrite Hx. Qed.

Lemma read_range_seq {A} (h : nat -> A) n f : (forall i, (i < n)%nat -> f (Z.of_nat i) = Ok (h i)) -> read_range 0 (Z.of_nat n) f = Ok (h <$> seq 0 n).
Proof.
  intros Hf. apply (read_range_spec (seq 0 n) h); [rewrite length_seq; lia|]. intros i x Hx.
  apply lookup_seq in Hx as [-> Hi]. rewrite Z.add_0_l. by apply Hf.
Qed.

Lemma weighted_terms_ok field area frac : length area = length field -> length frac = length field ->
  weighted_terms field area frac (Z.of_nat (length field)) = Ok (integrand field area frac).
Proof. intros Ha Hf. apply read_range_seq. intros i Hi. by rewrite !read_entry by congruence. Qed.

Lemma concat_optional {A} (g : nat -> A) (P : nat -> bool) l :
  concat ((fun i => if P i then [g i] else []) <$> l) = g <$> filter (fun i => P i = true) l.
Proof. induction l as [|i l IH]; [done|]. rewrite fmap_cons, filter_cons. cbn [concat]. rewrite IH. by destruct (P i). Qed.

Lemma covered_terms_ok field area frac : length area = length field -> length frac = length field ->
  covered_terms field area frac (Z.of_nat (length field)) = Ok (covered_integrand field area frac).
Proof.
  intros Ha Hf. unfold covered_terms.
  rewrite (read_range_seq (fun i => if covered_cell frac i then [dmul (entry_of field i) (entry_of area i)] else [])).
  - cbn [bind]. by rewrite (concat_optional (fun i => dmul (entry_of field i) (entry_of area i))).
  - intros i Hi. rewrite (read_entry frac) by congruence. cbn [bind]. unfold covered_cell. destruct (negb _); [|done]. by rewrite !read_entry by congruence.
Qed.

(** * Properties *)

Section Properties.
Context `{!ParallelFor, !KokkosReduce}.

(** [check_conservation] of conservation.cpp, for fields and a matrix of matching extents below
    [2 ^ 31]: no access leaves an array; the integrals are sums, in some order, of value times
    area times fraction over the source cells and, by the normalization, of the same over the
    destination cells or of value times area over the covered ones only; the absolute error is
    that of the two integrals, and the relative error is taken against the largest of their
    magnitudes and the machine epsilon, so that its denominator is never zero. *)
Theorem check_conservation_correct src_field dst_field m norm : Z.of_nat (length src_field) < 2 ^ 31 -> Z.of_nat (length dst_field) < 2 ^ 31 ->
  length (area_a m) = length src_field -> length (frac_a m) = length src_field ->
  length (area_b m) = length dst_field -> length (frac_b m) = length dst_field ->
  exists s d denom, check_conservation src_field dst_field m norm = Ok (mkReport s d (SFabs (dsub s d)) (ddiv (SFabs (dsub s d)) denom)) /\
    summation (integrand src_field (area_a m) (frac_a m)) s /\
    summation (destination_integrand norm dst_field (area_b m) (frac_b m)) d /\
    (isnan s = false -> isnan d = false -> SFltb dzero denom = true /\ not_above (SFabs s) denom /\ not_above (SFabs d) denom).
Proof.
  intros Hs Hd Haa Hfa Hab Hfb. unfold check_conservation, source_integral, destination_integral.
  rewrite !int_extent_ok by done. cbn [bind]. rewrite weighted_terms_ok by done. cbn [bind].
  assert (Et : (if decide (norm = DstArea) then covered_terms dst_field (area_b m) (frac_b m) (Z.of_nat (length dst_field))
      else weighted_terms dst_field (area_b m) (frac_b m) (Z.of_nat (length dst_field))) = Ok (destination_integrand norm dst_field (area_b m) (frac_b m))).
  { unfold destination_integrand. destruct (decide (norm = DstArea)); [by apply covered_terms_ok|by apply weighted_terms_ok]. }
  rewrite Et. cbn [bind]. do 3 eexists. split; [done|]. split; [apply sum_reduce_spec|]. split; [apply sum_reduce_spec|].
  set (s := sum_reduce _). set (d := sum_reduce _). intros Ns Nd.
  assert (Na : isnan (SFabs s) = false /\ isnan (SFabs d) = false) by (by destruct s, d). destruct Na as [Na Nb].
  assert (Nm : isnan (std_max (SFabs s) (SFabs d)) = false) by (by destruct (std_max_cases (SFabs s) (SFabs d)) as [-> | ->]).
  destruct (std_max_above (SFabs s) (SFabs d) Na Nb) as [A1 A2]. destruct (std_max_above _ epsilon Nm eq_refl) as [B1 B2].
  assert (Nt : isnan (std_max (std_max (SFabs s) (SFabs d)) epsilon) = false) by (by destruct (std_max_cases (std_max (SFabs s) (SFabs d)) epsilon) as [-> | ->]).
  split; [|split; by apply (not_above_trans _ (std_max (SFabs s) (SFabs d)))].
  apply SFltb_key; [done..|]. apply (lex_not_trans _ (key epsilon)); [cbn; lia|]. apply not_SFltb_key; [exact Nt|done|exact B2].
Qed.

(** [adjust_by_fraction] of conservation.cpp: whatever the order of the iterations, every covered
    cell is divided by its fraction, the others keep their value, and so do the fully covered
    ones, as the header says: dividing by one changes no number whose mantissa is normalized. *)
Theorem adjust_by_fraction_correct dst_field frac_b : Z.of_nat (length dst_field) < 2 ^ 31 -> length frac_b = length dst_field ->
  exists dst', adjust_by_fraction dst_field frac_b = Ok dst' /\ length dst' = length dst_field /\
    forall j x, dst_field !! j = Some x ->
      (covered_cell frac_b j = true -> dst' !! j = Some (ddiv x (entry_of frac_b j))) /\
      (covered_cell frac_b j = false -> dst' !! j = Some x) /\
      (entry_of frac_b j = one -> (forall s m e, x = S754_finite s m e -> Zdigits2 (Zpos m) = 53 /\ -1073 <= e <= 971) -> dst' !! j = Some x).
Proof.
  intros Hn Hf. unfold adjust_by_fraction. rewrite int_extent_ok by done. cbn [bind]. rewrite Nat2Z.id.
  rewrite (for_each_own (fun j x => if covered_cell frac_b j then ddiv x (entry_of frac_b j) else x) (length dst_field)).
  - eexists. split; [done|]. split; [by rewrite length_imap|]. intros j x Hx. rewrite list_lookup_imap, Hx. cbn.
    split; [by intros ->|]. split; [by intros ->|]. intros Eo Hm. destruct (covered_cell frac_b j); [|done]. rewrite Eo. f_equal.
    destruct x as [s|s| |s m e]; try (by destruct s); [done|]. destruct (Hm s m e eq_refl). by apply div_one.
  - apply range_order_perm.
  - done.
  - intros j d Hj Hd. rewrite read_entry by congruence. cbn [bind]. unfold covered_cell. destruct (negb _); [|by rewrite alter_same].
    rewrite update_in_bounds by lia. by rewrite Nat2Z.id.
Qed.
End Properties.

(** ** Witnesses *)

#[local] Instance forwards : ParallelFor.
Proof. refine {| range_order n := seq 0 n |}. done. Defined.

(** Two cells of areas 2 and 1 onto three, the last of which is not covered. *)
Definition account : InterpolationMatrix :=
  new_matrix [one; one] [0; 1] [0; 1] [one; one] [one; half; dzero] [of_int 2; one] [of_int 2; of_int 2; of_int 4] 2 3.

Lemma check_conservation_correct_witness : exists s d r, check_conservation (of_int <$> [3; 5]) (of_int <$> [3; 5; 7]) account FracArea
  = Ok (mkReport s d (SFabs (dsub s d)) r) /\ summation [of_int 6; of_int 5] s.
Proof.
  destruct (check_conservation_correct (of_int <$> [3; 5]) (of_int <$> [3; 5; 7]) account FracArea ltac:(done) ltac:(done) eq_refl eq_refl eq_refl eq_refl)
    as (s & d & denom & E & S & _).
  exists s, d, (ddiv (SFabs (dsub s d)) denom). split; [exact E|]. exact S.
Defined.

Lemma adjust_by_fraction_correct_witness : exists dst', adjust_by_fraction (of_int <$> [3; 5; 7]) (frac_b account) = Ok dst' /\
  dst' !! 1%nat = Some (of_int 10) /\ dst' !! 2%nat = Some (of_int 7).
Proof.
  destruct (adjust_by_fraction_correct (of_int <$> [3; 5; 7]) (frac_b account) ltac:(done) eq_refl) as (dst' & E & _ & H).
  exists dst'. split; [exact E|]. split; [exact (proj1 (H 1%nat (of_int 5) eq_refl) eq_refl)|exact (proj1 (proj2 (H 2%nat (of_int 7) eq_refl)) eq_refl)].
Defined.

Example account_is_balanced : check_conservation (of_int <$> [3; 5]) (of_int <$> [3; 5; 7]) account FracArea = Ok (mkReport (of_int 11) (of_int 11) dzero dzero).
Proof. vm_compute. reflexivity. Qed.
