(* ===== verification/CoastalMask.v ===== *)
(** * AXIS: renormalization at coasts
    (src/libs/axis/src/solver/weight_generator.cpp: compute_cell_centroids_xy, coastal_renormalize_and_extrapolate)

    After any method has made its weights, those that refer to masked source cells are taken
    out, the rest of a row that had lost a part is scaled back, and destination cells left
    without weights are given the nearest unmasked source cell.  The search tree is that of
    ArborX, an interface here ([NearestTree]). *)
From Stdlib Require Import ZArith Lia SpecFloat.
From stdpp Require Import base list numbers.
From S2P Require Import Prelude CInt Blend KokkosArrays InterpolationMatrix AxisMesh DoubleOrder RegularGrid BilinearRect.
Local Open Scope Z_scope.

(** [static_cast<float>] *)
Definition to_float (x : double) : spec_float :=
  match x with S754_finite s m e => binary_normalize 24 128 (cond_Zopp s (Zpos m)) e s | _ => x end.

(** The distance of two points, in the [float]s of their coordinates. *)
Definition square_sum (p q : list spec_float) : spec_float :=
  foldl (fun s d => SFadd 24 128 s (SFmul 24 128 d d)) (S754_zero false) (zip_with (SFsub 24 128) q p).
Definition distance (p q : list spec_float) : spec_float := SFsqrt 24 128 (square_sum p q).

Definition is_finite (x : spec_float) : bool := match x with S754_zero _ | S754_finite _ _ _ => true | _ => false end.
Definition finite_point (p : list spec_float) : Prop := Forall (fun x => is_finite x = true) p.

(** A query for the nearest of some points, given by their coordinates, has the number of one
    of them, an [unsigned int]; without points it has no result.  When the coordinates are finite, no
    other point is nearer than the one it answers with. *)
Class NearestTree := {
  nearest : list (list spec_float) -> list spec_float -> option nat;
  nearest_nothing q : nearest [] q = None;
  nearest_found points q : points <> [] -> Z.of_nat (length points) <= 2 ^ 32 -> exists k, nearest points q = Some k /\ (k < length points)%nat;
  nearest_least points q k p p' : Forall finite_point (q :: points) -> nearest points q = Some k -> points !! k = Some p -> p' ∈ points ->
    SFltb (distance p' q) (distance p q) = false
}.

(** ** Centroids *)

Section Centroids.
Context `{!Libm}.

Definition deg_to_rad (x : double) : double := ddiv (dmul x PI) (of_int 180).
Definition rad_to_deg (x : double) : double := ddiv (dmul x (of_int 180)) PI.

(** One node in the sums of a cell on the sphere. *)
Definition add_direction (cs : CoordinateSystem) (lon lat : double) (s : point) : point :=
  let '(lon, lat) := if decide (cs = SphericalDeg) then (deg_to_rad lon, deg_to_rad lat) else (lon, lat) in
  let '(x, y, z) := s in
  (dadd x (dmul (m_cos lat) (m_cos lon)), dadd y (dmul (m_cos lat) (m_sin lon)), dadd z (m_sin lat)).

Definition sphere_centroid (cs : CoordinateSystem) (n_verts : Z) (s : point) : double * double :=
  let inv := if 0 <? n_verts then ddiv one (of_int n_verts) else dzero in
  let '(x, y, z) := s in
  let lat_avg := m_asin (dmul z inv) in
  let lon_avg := m_atan2 (dmul y inv) (dmul x inv) in
  let lon_avg := if SFltb lon_avg dzero then dadd lon_avg (dmul (of_int 2) PI) else lon_avg in
  if decide (cs = SphericalDeg) then (rad_to_deg lon_avg, rad_to_deg lat_avg) else (lon_avg, lat_avg).

Definition cell_centroid_xy (m : UnstructuredMesh) (c : nat) : result (double * double) :=
  let! start := read (conn_offsets m) (Z.of_nat c) in
  let! end_ := read (conn_offsets m) (Z.of_nat c + 1) in
  let start := to_u64 start in
  let end_ := to_u64 end_ in
  let n_verts := to_u64 (end_ - start) in
  if decide (coord_sys m = Cartesian3D) then
    let! '(sx, sy) := for_each (seq 0 (Z.to_nat (end_ - start))) (fun v '(sx, sy) =>
      let! i := read (conn_indices m) (start + Z.of_nat v) in
      let! x := read2 (node_coords m) (to_u64 i) 0 in
      let! y := read2 (node_coords m) (to_u64 i) 1 in
      Ok (dadd sx x, dadd sy y)) (dzero, dzero) in
    let inv := if 0 <? n_verts then ddiv one (of_int n_verts) else dzero in
    Ok (dmul sx inv, dmul sy inv)
  else
    let! s := for_each (seq 0 (Z.to_nat (end_ - start))) (fun v s =>
      let! i := read (conn_indices m) (start + Z.of_nat v) in
      let! lon := read2 (node_coords m) (to_u64 i) 0 in
      let! lat := read2 (node_coords m) (to_u64 i) 1 in
      Ok (add_direction (coord_sys m) lon lat s)) (dzero, dzero, dzero) in
    Ok (sphere_centroid (coord_sys m) n_verts s).

Definition compute_cell_centroids_xy (m : UnstructuredMesh) : result (list (double * double)) :=
  for_each (seq 0 (n_cells m)) (fun c l => let! p := cell_centroid_xy m c in Ok (l ++ [p])) [].
End Centroids.

(** ** Renormalization *)

(** An entry of a matrix, [h_rows(k)], [h_cols(k)] and [h_vals(k)]. *)
Definition matrix_entry (m : InterpolationMatrix) (k : nat) : result (Z * Z * double) :=
  let! j := read (factor_row m) (Z.of_nat k) in
  let! i := read (factor_col m) (Z.of_nat k) in
  let! w := read (factor_list m) (Z.of_nat k) in
  Ok (j, i, w).

Definition wet_row_sums (m : InterpolationMatrix) (mask : list Z) : result (list double) :=
  for_each (seq 0 (nnz m)) (fun k row_sums =>
    let! '(j, i, w) := matrix_entry m k in
    let! v := read mask i in
    if 0 <? v then update (fun s => dadd s w) row_sums j else Ok row_sums) (replicate (n_dst m) dzero).

Definition rescaled (s w : double) : double := if SFltb dzero s && SFltb s one then ddiv w s else w.

Definition keep_wet (m : InterpolationMatrix) (mask : list Z) (row_sums : list double) : result Entries :=
  for_each (seq 0 (nnz m)) (fun k es =>
    let! '(j, i, w) := matrix_entry m k in
    let! v := read mask i in
    if 0 <? v then
      let! s := read row_sums j in
      Ok (push_entry es (rescaled s w) j i)
    else Ok es) no_entries.

(** [row_has_weights] *)
Definition rows_with_weights (n_dst : nat) (rows : list Z) : result (list bool) :=
  for_each (seq 0 (length rows)) (fun k has =>
    let! r := read rows (Z.of_nat k) in write has (to_u64 r) true) (replicate n_dst false).

(** [wet_indices] *)
Definition wet_cells (n_src : nat) (mask : list Z) : result (list nat) :=
  for_each (seq 0 n_src) (fun i l => let! v := read mask (Z.of_nat i) in Ok (if v =? 0 then l else l ++ [i])) [].

Definition dry_rows (has : list bool) (n_dst : nat) : result (list nat) :=
  for_each (seq 0 n_dst) (fun j l => let! b := read has (Z.of_nat j) in Ok (if b : bool then l else l ++ [j])) [].

Definition to_point2 (p : double * double) : list spec_float := [to_float (fst p); to_float (snd p)].

Section Coast.
Context `{!Libm, !NearestTree}.

Definition extrapolate (src_mesh dst_mesh : UnstructuredMesh) (n_src n_dst : nat) (mask : list Z) (has : list bool) (es : Entries) : result Entries :=
  let! src_c := compute_cell_centroids_xy src_mesh in
  let! wet := wet_cells n_src mask in
  let! wet_points := for_each (seq 0 (length wet)) (fun q l =>
    let! i := read wet (Z.of_nat q) in let! p := read src_c (Z.of_nat i) in Ok (l ++ [to_point2 p])) [] in
  if (length wet =? 0)%nat then Ok es
  else
    let! dst_c := compute_cell_centroids_xy dst_mesh in
    let! dry := dry_rows has n_dst in
    for_each (seq 0 (length dry)) (fun q es =>
      let! j := read dry (Z.of_nat q) in
      let! p := read dst_c (Z.of_nat j) in
      match nearest wet_points (to_point2 p) with
      | None => Ok es
      | Some local_idx =>
          let! src_idx := read wet (Z.of_nat local_idx) in
          Ok (push_entry es one (to_index (Z.of_nat j)) (to_index (Z.of_nat src_idx)))
      end) es.

Definition coastal_renormalize_and_extrapolate (src_mesh dst_mesh : UnstructuredMesh) (m : InterpolationMatrix) (config : RegridConfig)
  : result InterpolationMatrix :=
  let mask := cell_mask src_mesh in
  if (length mask =? 0)%nat then Ok m
  else
    let! row_sums := wet_row_sums m mask in
    let! es := keep_wet m mask row_sums in
    let! has := rows_with_weights (n_dst m) (rows_vec es) in
    let! es := if decide (extrap_method config = NearestWet) then extrapolate src_mesh dst_mesh (n_src m) (n_dst m) mask has es else Ok es in
    Ok (new_matrix (weights_vec es) (rows_vec es) (cols_vec es) (frac_a m) (frac_b m) (area_a m) (area_b m) (n_src m) (n_dst m)).
End Coast.

(** * Specification *)

Definition mask_at (mask : list Z) (i : Z) : Z := default 0 (mask !! Z.to_nat i).

(** The sum of the weights of a row that refer to wet cells. *)
Definition wet_sum (mask : list Z) (es : list (Z * (Z * double))) (j : Z) : double :=
  sum_of ((fun e => snd (snd e)) <$> filter (fun e => fst e = j) (filter (fun e => 0 < mask_at mask (fst (snd e))) es)).

(** The wet entries, with the rows that had lost a part scaled back. *)
Definition renormalized (mask : list Z) (es : list (Z * (Z * double))) : list (Z * (Z * double)) :=
  (fun e => (fst e, (fst (snd e), rescaled (wet_sum mask es (fst e)) (snd (snd e))))) <$> filter (fun e => 0 < mask_at mask (fst (snd e))) es.

(** The destination cells without an entry. *)
Definition bare_rows (n_dst : nat) (es : list (Z * (Z * double))) : list nat :=
  filter (fun j => Z.of_nat j ∉ fst <$> es) (seq 0 n_dst).

(** The cells that a tree is built over. *)
Definition nonzero_cells (n_src : nat) (mask : list Z) : list nat := filter (fun i => mask_at mask (Z.of_nat i) <> 0) (seq 0 n_src).

Definition point_of (centers : list (double * double)) (i : nat) : list spec_float := to_point2 (default (dzero, dzero) (centers !! i)).

(** The cell [i] that the tree finds for the destination cell [j]: when all centers are finite, none of
    [cells] has a center nearer to that of [j]. *)
Definition nearest_wet `{!NearestTree} (src_c dst_c : list (double * double)) (cells : list nat) (j i : nat) : Prop :=
  (exists k, nearest (point_of src_c <$> cells) (point_of dst_c j) = Some k /\ cells !! k = Some i) /\
  (finite_point (point_of dst_c j) -> Forall (fun c => finite_point (point_of src_c c)) cells ->
     forall i', i' ∈ cells -> SFltb (distance (point_of src_c i') (point_of dst_c j)) (distance (point_of src_c i) (point_of dst_c j)) = false).

Lemma nearest_wet_intro `{!NearestTree} src_c dst_c cells j i k :
  nearest (point_of src_c <$> cells) (point_of dst_c j) = Some k -> cells !! k = Some i -> nearest_wet src_c dst_c cells j i.
Proof.
  intros Ek Ei. split; [by exists k|]. intros Hj Hc i' Hi'. apply (nearest_least (point_of src_c <$> cells) (point_of dst_c j) k); [|done|..].
  - constructor; [done|]. by apply Forall_fmap.
  - by rewrite list_lookup_fmap, Ei.
  - by apply list_elem_of_fmap_2.
Qed.

(** * Lemmas *)

Lemma matrix_entry_ok m k e : well_formed m -> coo m !! k = Some e -> matrix_entry m k = Ok (fst e, fst (snd e), snd (snd e)).
Proof.
  destruct e as [r [c w]]. intros (Hr & Hc & _) He. unfold coo in He. apply lookup_zip_Some in He as [Er He]. apply lookup_zip_Some in He as [Ec Ew].
  unfold matrix_entry. by rewrite (read_nat _ _ _ Er), (read_nat _ _ _ Ec), (read_nat _ _ _ Ew).
Qed.

Lemma coo_range m e : well_formed m -> e ∈ coo m -> 0 <= fst e < Z.of_nat (n_dst m) /\ 0 <= fst (snd e) < Z.of_nat (n_src m).
Proof.
  destruct e as [r [c w]]. intros (_ & _ & Hr & Hc) He. apply list_elem_of_lookup in He as [k Hk]. unfold coo in Hk. apply lookup_zip_Some in Hk as [Er Hk].
  apply lookup_zip_Some in Hk as [Ec _]. rewrite list.Forall_forall in Hr, Hc. split; [apply Hr|apply Hc]; cbn; by eapply list_elem_of_lookup_2.
Qed.

Lemma read_mask mask i : 0 <= i < Z.of_nat (length mask) -> read mask i = Ok (mask_at mask i).
Proof. intros Hi. destruct (read_in_bounds mask i Hi) as (v & -> & Ev). unfold mask_at. by rewrite Ev. Qed.

(** A loop that appends the values of some elements. *)
Lemma for_each_collect {A} (f : nat -> option A) n body : (forall i l, (i < n)%nat -> body i l = Ok (l ++ option_list (f i))) ->
  for_each (seq 0 n) body [] = Ok (omap f (seq 0 n)).
Proof.
  intros Hb. destruct (for_each_inv (fun i l => l = omap f (seq 0 i)) n body []) as (l & E & ->); [|done|done].
  intros i l Hi ->. rewrite Hb by done. eexists. split; [done|]. change (1 + i)%nat with (S i). rewrite seq_S, omap_app. f_equal.
Qed.

Lemma omap_filter {A} (P : A -> Prop) `{!forall x, Decision (P x)} (l : list A) : omap (fun x => if decide (P x) then Some x else None) l = filter P l.
Proof. induction l as [|x l IH]; [done|]. rewrite filter_cons. cbn. destruct (decide (P x)); by rewrite IH. Qed.

Lemma omap_Some_fmap {A B} (f : A -> B) (l : list A) : omap (fun x => Some (f x)) l = f <$> l.
Proof. induction l as [|x l IH]; [done|]. cbn. by rewrite IH. Qed.

Section Renormalize.
Context (m : InterpolationMatrix) (mask : list Z).
Context (Hm : well_formed m) (Hmask : length mask = n_src m).
Context (Hsize : Z.of_nat (n_src m) < 2 ^ 63 /\ Z.of_nat (n_dst m) < 2 ^ 63).

Definition wet_entry (e : Z * (Z * double)) : Prop := 0 < mask_at mask (fst (snd e)).
#[local] Instance wet_entry_dec e : Decision (wet_entry e) := decide (0 < mask_at mask (fst (snd e))).

Lemma read_entry_mask e k : coo m !! k = Some e -> read mask (fst (snd e)) = Ok (mask_at mask (fst (snd e))).
Proof. intros He. destruct (coo_range m e Hm (list_elem_of_lookup_2 _ _ _ He)). apply read_mask. lia. Qed.

Lemma take_S_filter k e : coo m !! k = Some e -> filter wet_entry (take (S k) (coo m)) = filter wet_entry (take k (coo m)) ++ (if decide (wet_entry e) then [e] else []).
Proof. intros He. rewrite (take_S_r _ _ _ He), list.filter_app, filter_cons, filter_nil. done. Qed.

Lemma wet_row_sums_ok : wet_row_sums m mask = Ok ((fun j => wet_sum mask (coo m) (Z.of_nat j)) <$> seq 0 (n_dst m)).
Proof.
  pose proof (length_coo m Hm) as Hl. unfold wet_row_sums. destruct (for_each_inv (fun k s =>
      s = (fun j => sum_of ((fun e => snd (snd e)) <$> filter (fun e => fst e = Z.of_nat j) (filter wet_entry (take k (coo m))))) <$> seq 0 (n_dst m)) (nnz m)
    (fun k row_sums => let! '(j, i, w) := matrix_entry m k in let! v := read mask i in if 0 <? v then update (fun s => dadd s w) row_sums j else Ok row_sums)
    (replicate (n_dst m) dzero)) as (s & E & ->).
  - intros k s Hk ->. destruct (lookup_lt_is_Some_2 (coo m) k) as [e He]; [lia|]. rewrite (matrix_entry_ok m k e Hm He). cbn [bind].
    rewrite (read_entry_mask e k He). cbn [bind]. change (1 + k)%nat with (S k). rewrite (take_S_filter k e He).
    destruct (coo_range m e Hm (list_elem_of_lookup_2 _ _ _ He)) as [Hr _].
    destruct (Z.ltb_spec 0 (mask_at mask (fst (snd e)))).
    + rewrite decide_True by done. eexists. split; [|done].
      apply (update_sums (fun e : Z * (Z * double) => fst e) (fun _ e => snd (snd e)) (n_dst m) (filter wet_entry (take k (coo m))) e Hr).
    + rewrite decide_False by (unfold wet_entry; lia). rewrite app_nil_r. by eexists.
  - apply list_eq. intros j. rewrite list_lookup_fmap. destruct (decide (j < n_dst m)%nat); [by rewrite lookup_seq_lt, lookup_replicate_2|].
    rewrite !lookup_ge_None_2; [done|..]; rewrite ?length_seq, ?length_replicate; lia.
  - rewrite E, take_ge by lia. done.
Qed.

Lemma keep_wet_ok : keep_wet m mask ((fun j => wet_sum mask (coo m) (Z.of_nat j)) <$> seq 0 (n_dst m)) = Ok (entries_of (renormalized mask (coo m))).
Proof.
  pose proof (length_coo m Hm) as Hl. unfold keep_wet.
  set (g := fun e : Z * (Z * double) => (fst e, (fst (snd e), rescaled (wet_sum mask (coo m) (fst e)) (snd (snd e))))).
  set (sums := _ <$> seq 0 (n_dst m)). destruct (for_each_inv (fun k es => es = entries_of (g <$> filter wet_entry (take k (coo m)))) (nnz m)
    (fun k es => let! '(j, i, w) := matrix_entry m k in let! v := read mask i in
       if 0 <? v then let! s := read sums j in Ok (push_entry es (rescaled s w) j i) else Ok es) no_entries) as (es & E & ->); [|done|].
  - intros k es Hk ->. destruct (lookup_lt_is_Some_2 (coo m) k) as [e He]; [lia|]. rewrite (matrix_entry_ok m k e Hm He). cbn [bind].
    rewrite (read_entry_mask e k He). cbn [bind]. change (1 + k)%nat with (S k). rewrite (take_S_filter k e He).
    destruct (coo_range m e Hm (list_elem_of_lookup_2 _ _ _ He)) as [Hr _].
    destruct (Z.ltb_spec 0 (mask_at mask (fst (snd e)))).
    + rewrite decide_True by done. assert (Es : read sums (fst e) = Ok (wet_sum mask (coo m) (fst e))).
      { unfold sums. apply read_lookup. split; [lia|]. rewrite list_lookup_fmap, lookup_seq_lt by lia. cbn. do 2 f_equal. lia. }
      rewrite Es. cbn [bind]. eexists. split; [done|]. rewrite push_entries_of, fmap_app. done.
    + rewrite decide_False by (unfold wet_entry; lia). rewrite app_nil_r. by eexists.
  - rewrite E, take_ge by lia. done.
Qed.

Lemma renormalized_range e : e ∈ renormalized mask (coo m) -> 0 <= fst e < Z.of_nat (n_dst m) /\ 0 <= fst (snd e) < Z.of_nat (n_src m) /\ 0 < mask_at mask (fst (snd e)).
Proof. intros (e' & -> & [Hw He]%list_elem_of_filter)%list_elem_of_fmap. cbn. destruct (coo_range m e' Hm He). done. Qed.

Lemma rows_with_weights_ok : rows_with_weights (n_dst m) (rows_vec (entries_of (renormalized mask (coo m))))
  = Ok ((fun j => if decide (Z.of_nat j ∈ fst <$> renormalized mask (coo m)) then true else false) <$> seq 0 (n_dst m)).
Proof. apply mark_rows; [apply Hsize|]. apply Forall_fmap, list.Forall_forall. intros e He. by apply renormalized_range. Qed.

Lemma wet_cells_ok : wet_cells (n_src m) mask = Ok (nonzero_cells (n_src m) mask).
Proof.
  unfold wet_cells, nonzero_cells. rewrite (for_each_collect (fun i => if decide (mask_at mask (Z.of_nat i) <> 0) then Some i else None)); [by rewrite omap_filter|].
  intros i l Hi. rewrite read_mask by lia. cbn [bind]. destruct (Z.eqb_spec (mask_at mask (Z.of_nat i)) 0).
  - rewrite decide_False by congruence. by rewrite app_nil_r.
  - by rewrite decide_True.
Qed.
End Renormalize.

Lemma dry_rows_ok n (P : nat -> bool) : dry_rows (P <$> seq 0 n) n = Ok (filter (fun j => P j = false) (seq 0 n)).
Proof.
  unfold dry_rows. rewrite (for_each_collect (fun j => if decide (P j = false) then Some j else None)); [by rewrite omap_filter|].
  intros j l Hj. rewrite (read_nat _ j (P j)) by (rewrite list_lookup_fmap, lookup_seq_lt by done; done). cbn [bind]. destruct (P j); [by rewrite app_nil_r|done].
Qed.

Section Centers.
Context `{!Libm}.

Lemma cell_centroid_total m c : mesh_ok m -> mesh_sized m -> (c < n_cells m)%nat -> exists p, cell_centroid_xy m c = Ok p.
Proof.
  intros Hm (Hn & Hi & _) Hc. destruct (mesh_coords m Hm) as [Hv H2]. unfold cell_centroid_xy. rewrite read_offset by (done || lia). cbn [bind].
  replace (Z.of_nat c + 1) with (Z.of_nat (c + 1)) by lia. rewrite read_offset by (done || lia). cbn [bind].
  pose proof (offset_bounds m c Hm ltac:(lia)) as B0. pose proof (offset_bounds m (c + 1) Hm ltac:(lia)) as B1. pose proof (cell_nodes_length m c Hm Hc) as Hl.
  rewrite !to_u64_id by lia. rewrite <- Hl, Nat2Z.id.
  assert (R : forall i, (i < length (cell_nodes m c))%nat -> exists v, read (conn_indices m) (offset m c + Z.of_nat i) = Ok v /\
    read2 (node_coords m) (to_u64 v) 0 = Ok (coord (node_coords m) v 0) /\ read2 (node_coords m) (to_u64 v) 1 = Ok (coord (node_coords m) v 1)).
  { intros i Hi'. destruct (lookup_lt_is_Some_2 (cell_nodes m c) i Hi') as [v Hv']. exists v. split; [by apply cell_nodes_read|].
    pose proof (cell_nodes_range m c Hm) as Hr. rewrite list.Forall_forall in Hr. specialize (Hr v (list_elem_of_lookup_2 _ _ _ Hv')).
    unfold n_nodes in *. rewrite to_u64_id by lia. by rewrite !read2_ok by (done || lia). }
  destruct (decide (coord_sys m = Cartesian3D)).
  - destruct (for_each_inv (fun _ _ => True) (length (cell_nodes m c)) (fun v '(sx, sy) =>
      let! i := read (conn_indices m) (offset m c + Z.of_nat v) in let! x := read2 (node_coords m) (to_u64 i) 0 in
      let! y := read2 (node_coords m) (to_u64 i) 1 in Ok (dadd sx x, dadd sy y)) (dzero, dzero)) as ([sx sy] & -> & _); [|done|by eexists].
    intros i [sx sy] Hi' _. destruct (R i Hi') as (v & -> & E0 & E1). cbn [bind]. rewrite E0. cbn [bind]. rewrite E1. by eexists.
  - destruct (for_each_inv (fun _ _ => True) (length (cell_nodes m c)) (fun v s =>
      let! i := read (conn_indices m) (offset m c + Z.of_nat v) in let! lon := read2 (node_coords m) (to_u64 i) 0 in
      let! lat := read2 (node_coords m) (to_u64 i) 1 in Ok (add_direction (coord_sys m) lon lat s)) (dzero, dzero, dzero)) as (s & -> & _); [|done|by eexists].
    intros i s Hi' _. destruct (R i Hi') as (v & -> & E0 & E1). cbn [bind]. rewrite E0. cbn [bind]. rewrite E1. by eexists.
Qed.

Lemma centroids_total m : mesh_ok m -> mesh_sized m -> exists l, compute_cell_centroids_xy m = Ok l /\ length l = n_cells m.
Proof.
  intros Hm Hs. unfold compute_cell_centroids_xy. destruct (for_each_inv (fun i l => length l = i) (n_cells m)
    (fun c l => let! p := cell_centroid_xy m c in Ok (l ++ [p])) []) as (l & E & Hl); [|done|by exists l].
  intros c l Hc Hl. destruct (cell_centroid_total m c Hm Hs Hc) as [p ->]. eexists. split; [done|]. rewrite length_app. cbn. lia.
Qed.
End Centers.

Section Extrapolate.
Context `{!Libm, !NearestTree}.
Context (src_mesh dst_mesh : UnstructuredMesh) (m : InterpolationMatrix) (mask : list Z).
Context (Hs : mesh_ok src_mesh /\ mesh_sized src_mesh) (Hd : mesh_ok dst_mesh /\ mesh_sized dst_mesh).
Context (Hns : n_src m = n_cells src_mesh) (Hnd : n_dst m = n_cells dst_mesh) (Hmask : length mask = n_src m).
Context (Hunsigned : Z.of_nat (n_src m) <= 2 ^ 32).

Lemma nonzero_range i : i ∈ nonzero_cells (n_src m) mask -> (i < n_src m)%nat.
Proof. intros [_ Hi%elem_of_seq]%list_elem_of_filter. lia. Qed.

Lemma nonzero_length : (length (nonzero_cells (n_src m) mask) <= n_src m)%nat.
Proof. unfold nonzero_cells. etransitivity; [apply length_filter|]. by rewrite length_seq. Qed.

(** The centers of the wet cells, in the order of the cells. *)
Lemma wet_points_ok src_c (cells : list nat) : Forall (fun i => i < length src_c)%nat cells ->
  for_each (seq 0 (length cells)) (fun q l => let! i := read cells (Z.of_nat q) in let! p := read src_c (Z.of_nat i) in Ok (l ++ [to_point2 p])) []
  = Ok (point_of src_c <$> cells).
Proof.
  intros Hc. rewrite list.Forall_forall in Hc.
  rewrite (for_each_collect (fun q => Some (point_of src_c (default 0%nat (cells !! q))))).
  - f_equal. rewrite omap_Some_fmap. apply list_eq. intros q. rewrite !list_lookup_fmap. destruct (decide (q < length cells)%nat) as [Hq|Hq].
    + destruct (lookup_lt_is_Some_2 cells q Hq) as [i Ei]. rewrite lookup_seq_lt by done. cbn. by rewrite Ei.
    + rewrite !lookup_ge_None_2; [done|..]; rewrite ?length_seq; lia.
  - intros q l Hq. destruct (lookup_lt_is_Some_2 cells q Hq) as [i Ei]. rewrite (read_nat _ _ _ Ei). cbn [bind].
    destruct (lookup_lt_is_Some_2 src_c i) as [p Ep]; [apply Hc; by eapply list_elem_of_lookup_2|].
    rewrite (read_nat _ _ _ Ep). cbn [bind]. unfold point_of. rewrite Ei. cbn. by rewrite Ep.
Qed.

(** What extrapolation adds: for each row without weights, the wet cell that the tree finds. *)
Definition extrapolated (src_c dst_c : list (double * double)) (rows : list nat) (extra : list (Z * (Z * double))) : Prop :=
  Forall2 (fun j e => exists i, e = (Z.of_nat j, (Z.of_nat i, one)) /\ nearest_wet src_c dst_c (nonzero_cells (n_src m) mask) j i) rows extra.

Lemma nearest_loop src_c dst_c rows l : length dst_c = n_dst m -> nonzero_cells (n_src m) mask <> [] -> Forall (fun j => j < n_dst m)%nat rows -> exists extra,
  for_each (seq 0 (length rows)) (fun q es =>
      let! j := read rows (Z.of_nat q) in let! p := read dst_c (Z.of_nat j) in
      match nearest (point_of src_c <$> nonzero_cells (n_src m) mask) (to_point2 p) with
      | None => Ok es
      | Some local_idx =>
          let! src_idx := read (nonzero_cells (n_src m) mask) (Z.of_nat local_idx) in
          Ok (push_entry es one (to_index (Z.of_nat j)) (to_index (Z.of_nat src_idx)))
      end) (entries_of l) = Ok (entries_of (l ++ extra)) /\ extrapolated src_c dst_c rows extra.
Proof.
  intros Hl Hne Hr. rewrite list.Forall_forall in Hr. destruct Hs as [_ (_ & _ & Bs)], Hd as [_ (_ & _ & Bd)].
  destruct (for_each_inv (fun q es => exists extra, es = entries_of (l ++ extra) /\ extrapolated src_c dst_c (take q rows) extra) (length rows)
    (fun q es => let! j := read rows (Z.of_nat q) in let! p := read dst_c (Z.of_nat j) in
      match nearest (point_of src_c <$> nonzero_cells (n_src m) mask) (to_point2 p) with
      | None => Ok es
      | Some local_idx => let! src_idx := read (nonzero_cells (n_src m) mask) (Z.of_nat local_idx) in
          Ok (push_entry es one (to_index (Z.of_nat j)) (to_index (Z.of_nat src_idx)))
      end) (entries_of l)) as (es & E & extra & -> & Hx).
  - intros q es Hq (extra & -> & Hx). destruct (lookup_lt_is_Some_2 rows q Hq) as [j Ej]. rewrite (read_nat _ _ _ Ej). cbn [bind].
    pose proof (Hr j (list_elem_of_lookup_2 _ _ _ Ej)) as Hj. destruct (lookup_lt_is_Some_2 dst_c j) as [p Ep]; [lia|]. rewrite (read_nat _ _ _ Ep). cbn [bind].
    destruct (nearest_found (point_of src_c <$> nonzero_cells (n_src m) mask) (to_point2 p)) as (k & Ek & Hk); [by destruct (nonzero_cells (n_src m) mask)|rewrite length_fmap; pose proof (nonzero_length); lia|].
    rewrite Ek. rewrite length_fmap in Hk. destruct (lookup_lt_is_Some_2 _ _ Hk) as [i Ei]. rewrite (read_nat _ _ _ Ei). cbn [bind].
    pose proof (nonzero_range i (list_elem_of_lookup_2 _ _ _ Ei)). rewrite !to_index_id by lia. rewrite push_entries_of, <- app_assoc.
    eexists. split; [done|]. eexists. split; [done|]. change (1 + q)%nat with (S q). rewrite (take_S_r _ _ _ Ej). apply Forall2_app; [done|].
    constructor; [|constructor]. exists i. split; [done|]. apply (nearest_wet_intro _ _ _ _ _ k); [|done]. unfold point_of at 2. by rewrite Ep.
  - exists []. rewrite app_nil_r. split; [done|constructor].
  - exists extra. rewrite take_ge in Hx by lia. done.
Qed.

Lemma extrapolate_ok (P : nat -> bool) l : exists src_c dst_c extra,
  compute_cell_centroids_xy src_mesh = Ok src_c /\ compute_cell_centroids_xy dst_mesh = Ok dst_c /\
  extrapolate src_mesh dst_mesh (n_src m) (n_dst m) mask (P <$> seq 0 (n_dst m)) (entries_of l) = Ok (entries_of (l ++ extra)) /\
  (if decide (nonzero_cells (n_src m) mask = []) then extra = []
   else extrapolated src_c dst_c (filter (fun j => P j = false) (seq 0 (n_dst m))) extra).
Proof.
  destruct (centroids_total src_mesh) as (src_c & Es & Ls); [apply Hs..|]. destruct (centroids_total dst_mesh) as (dst_c & Ed & Ld); [apply Hd..|].
  exists src_c, dst_c. unfold extrapolate. rewrite Es. cbn [bind]. rewrite (wet_cells_ok m mask Hmask). cbn [bind].
  rewrite wet_points_ok by (apply list.Forall_forall; intros i Hi%nonzero_range; lia). cbn [bind].
  destruct (decide (nonzero_cells (n_src m) mask = [])) as [->|Hne].
  - exists []. cbn. by rewrite app_nil_r.
  - destruct (Nat.eqb_spec (length (nonzero_cells (n_src m) mask)) 0) as [C%length_zero_iff_nil|_]; [done|]. rewrite Ed. cbn [bind]. rewrite dry_rows_ok. cbn [bind].
    destruct (nearest_loop src_c dst_c (filter (fun j => P j = false) (seq 0 (n_dst m))) l) as (extra & E & Hx); [lia|done| |by exists extra].
    apply list.Forall_forall. intros j [_ Hj%elem_of_seq]%list_elem_of_filter. lia.
Qed.
End Extrapolate.

Lemma bare_rows_spec n (es : list (Z * (Z * double))) :
  filter (fun j => (if decide (Z.of_nat j ∈ fst <$> es) then true else false) = false) (seq 0 n) = bare_rows n es.
Proof. unfold bare_rows. apply list_filter_iff. intros j. by destruct (decide (Z.of_nat j ∈ fst <$> es)). Qed.

(** The matrix with these entries. *)
Definition matrix_of (m : InterpolationMatrix) (es : list (Z * (Z * double))) : InterpolationMatrix :=
  new_matrix (weights_vec (entries_of es)) (rows_vec (entries_of es)) (cols_vec (entries_of es)) (frac_a m) (frac_b m) (area_a m) (area_b m) (n_src m) (n_dst m).

Lemma coo_matrix_of m es : coo (matrix_of m es) = es.
Proof. unfold coo. cbn. apply zip_entries. Qed.

Lemma matrix_of_well_formed m es : (forall e, e ∈ es -> 0 <= fst e < Z.of_nat (n_dst m) /\ 0 <= fst (snd e) < Z.of_nat (n_src m)) -> well_formed (matrix_of m es).
Proof.
  intros He. unfold well_formed, nnz. cbn. rewrite !length_fmap. do 2 (split; [done|]). split; apply Forall_fmap, list.Forall_forall; intros e H; by apply He.
Qed.

Section Extrapolated.
Context `{!NearestTree} (m : InterpolationMatrix) (mask : list Z) (src_c dst_c : list (double * double)).

Lemma extrapolated_range rows extra : extrapolated m mask src_c dst_c rows extra -> (forall j, j ∈ rows -> (j < n_dst m)%nat) ->
  forall e, e ∈ extra -> 0 <= fst e < Z.of_nat (n_dst m) /\ 0 <= fst (snd e) < Z.of_nat (n_src m) /\ mask_at mask (fst (snd e)) <> 0.
Proof.
  intros Hx Hr e He. apply list_elem_of_lookup in He as [q Eq]. destruct (Forall2_lookup_r _ _ _ _ _ Hx Eq) as (j & Ej & i & -> & (k & _ & Ei) & _). cbn.
  apply list_elem_of_lookup_2 in Ei. pose proof Ei as [Hm Hi%elem_of_seq]%list_elem_of_filter. specialize (Hr j (list_elem_of_lookup_2 _ _ _ Ej)). split; [lia|]. split; [lia|done].
Qed.

Lemma rows_covered kept extra : extrapolated m mask src_c dst_c (bare_rows (n_dst m) kept) extra ->
  forall j, (j < n_dst m)%nat -> Z.of_nat j ∈ fst <$> kept ++ extra.
Proof.
  intros Hx j Hj. rewrite fmap_app, elem_of_app. destruct (decide (Z.of_nat j ∈ fst <$> kept)) as [|Hn]; [by left|right].
  assert (Hb : j ∈ bare_rows (n_dst m) kept) by (apply list_elem_of_filter; split; [done|apply elem_of_seq; lia]).
  apply list_elem_of_lookup in Hb as [q Eq]. destruct (Forall2_lookup_l _ _ _ _ _ Hx Eq) as (e & Ee & i & -> & _).
  apply list_elem_of_fmap. eexists. split; [|by eapply list_elem_of_lookup_2]. done.
Qed.
End Extrapolated.

Section Coasts.
Context `{!Libm, !NearestTree}.

End Coasts.

(** * Examples *)

(** A tree that compares all distances. *)
Definition closer (points : list (list spec_float)) (q : list spec_float) (best k : nat) : nat :=
  let d i := distance (default [] (points !! i)) q in if SFltb (d k) (d best) then k else best.

Definition scan_all (points : list (list spec_float)) (q : list spec_float) : option nat :=
  match points with [] => None | _ => Some (foldl (closer points q) 0%nat (seq 0 (length points))) end.

Lemma closer_stays points q l b : isnan (distance (default [] (points !! b)) q) = true -> foldl (closer points q) b l = b.
Proof.
  intros Hb. induction l as [|i l IH]; [done|]. cbn [foldl]. unfold closer at 2.
  destruct (SFltb _ _) eqn:E; [|done]. destruct (ltb_number _ _ E). congruence.
Qed.

Lemma closer_least points q l b : let d i := distance (default [] (points !! i)) q in let k := foldl (closer points q) b l in
  (k = b \/ k ∈ l) /\ SFltb (d b) (d k) = false /\ forall i, i ∈ l -> SFltb (d i) (d k) = false.
Proof.
  intros d. revert b. induction l as [|i l IH]; intros b; cbn [foldl].
  - split; [by left|]. split; [apply SFltb_irrefl|]. intros i Hi. by apply elem_of_nil in Hi.
  - assert (Ec : closer points q b i = if SFltb (d i) (d b) then i else b) by done. rewrite Ec.
    pose proof (closer_stays points q l b) as Hs. fold (d b) in Hs. clear Ec. destruct (SFltb (d i) (d b)) eqn:E; [destruct (IH i) as (Hk & Hb & Hl)|destruct (IH b) as (Hk & Hb & Hl)].
    + set (k := foldl _ i l) in *. split; [right; destruct Hk as [-> |]; [by left|by right]|]. split.
      * destruct (SFltb (d b) (d k)) eqn:E'; [|done]. by rewrite (ltb_trans _ _ _ E E') in Hb.
      * intros i' [->|Hi']%elem_of_cons; [done|by apply Hl].
    + set (k := foldl _ b l) in *. split; [destruct Hk as [-> |]; [by left|right; by right]|]. split; [done|]. intros i' [->|Hi']%elem_of_cons; [|by apply Hl].
      destruct (SFltb (d i) (d k)) eqn:E'; [|done]. destruct (isnan (d b)) eqn:Nb; [rewrite Hs in E' by done; congruence|].
      by rewrite (above_ltb (d b) (d i) (d k)) in Hb.
Qed.

#[export] Instance full_scan : NearestTree.
Proof.
  refine {| nearest := scan_all |}; [done|..].
  - intros points q Hne _. unfold scan_all. destruct points as [|p points]; [done|]. eexists. split; [done|].
    destruct (closer_least (p :: points) q (seq 0 (length (p :: points))) 0) as [[->|Hk%elem_of_seq] _]; [cbn; lia|lia].
  - intros points q k p p' _ Ek Ep Hp'. unfold scan_all in Ek. destruct points as [|p0 points]; [done|].
    assert (E : foldl (closer (p0 :: points) q) 0%nat (seq 0 (length (p0 :: points))) = k) by (by injection Ek).
    destruct (closer_least (p0 :: points) q (seq 0 (length (p0 :: points))) 0) as (_ & _ & Hl). rewrite E in Hl.
    apply list_elem_of_lookup in Hp' as [i Ei]. specialize (Hl i ltac:(apply elem_of_seq; pose proof (lookup_lt_Some _ _ _ Ei); lia)).
    by rewrite Ei, Ep in Hl.
Defined.

#[local] Instance linear_libm : Libm := {| m_cos x := x; m_sin x := x; m_asin x := x; m_atan2 y x := ddiv y x |}.

Definition masked_as (mask : list Z) (m : UnstructuredMesh) : UnstructuredMesh :=
  mkMesh (node_coords m) (conn_offsets m) (conn_indices m) (coord_sys m) (cell_areas m) mask.

Definition pair_mesh : UnstructuredMesh := lattice 2 1 east north.

(** Two source cells and two destination cells: the first has a half of either source cell,
    the second all of the second. *)
Definition shore : InterpolationMatrix := new_matrix [half; half; one] [0; 0; 1] [0; 1; 1] [one; one] [one; one] [] [] 2 2.

Lemma shore_well_formed : well_formed shore.
Proof. split; [done|]. split; [done|]. split; repeat constructor; cbn; lia. Qed.

Lemma pair_ok mask : mesh_ok (masked_as mask pair_mesh) /\ mesh_sized (masked_as mask pair_mesh).
Proof. split; [destruct (lattice_ok 2 1 east north ltac:(lia)) as [[H1 H2 H3 H4 H5] _]; by constructor|done]. Qed.


(** The first row is scaled back and the second gets the wet cell. *)
Example shore_is_filled :
  (let! m := coastal_renormalize_and_extrapolate (masked_as [1; 0] pair_mesh) (masked_as [] pair_mesh) shore default_config in Ok (coo m)) = Ok [(0, (0, one)); (1, (0, one))].
Proof. vm_compute. reflexivity. Qed.

Definition without_extrapolation : RegridConfig := mkRegridConfig Bilinear DstArea GreatCircle Ignore false NoExtrapolation.

(** Rows that only meet a part of the source grid are scaled as well, although no cell is masked. *)
Example partial_rows_are_scaled :
  (let! m := coastal_renormalize_and_extrapolate (masked_as [1; 1] pair_mesh) (masked_as [] pair_mesh) (new_matrix [half] [0] [0] [] [half; dzero] [] [] 2 2) without_extrapolation in
   Ok (coo m, frac_b m)) = Ok ([(0, (0, one))], [half; dzero]).
Proof. vm_compute. reflexivity. Qed.

(** A negative mask is not wet where weights are kept, and is where they are added. *)
Example negative_mask_is_both :
  (let! m := coastal_renormalize_and_extrapolate (masked_as [-1; 0] pair_mesh) (masked_as [] pair_mesh) shore default_config in Ok (coo m)) = Ok [(0, (0, one)); (1, (0, one))].
Proof. vm_compute. reflexivity. Qed.
