(* ===== verification/NearestWeights.v ===== *)
(** * AXIS: nearest neighbors
    (src/libs/axis/src/solver/weight_generator.cpp: compute_single_cell_area, get_cell_areas,
    generate_nearest_rect, generate_nearest_impl, generate_nearest)

    Between regular grids the nearest cell is found by rounding, between other meshes by a
    search tree over the centers of the source cells, as points of the plane or of the
    sphere. *)
From Stdlib Require Import ZArith Lia SpecFloat.
From stdpp Require Import base list numbers.
From S2P Require Import Prelude CInt Blend KokkosArrays InterpolationMatrix AxisMesh StructuredGrid Magnitude DoubleOrder RegularGrid BilinearRect ConservativeRect CoastalMask.
Local Open Scope Z_scope.

(** ** Areas of cells *)

Definition compute_single_cell_area (m : UnstructuredMesh) (cell_idx : nat) : result double :=
  let! start := read (conn_offsets m) (Z.of_nat cell_idx) in
  let! end_ := read (conn_offsets m) (Z.of_nat cell_idx + 1) in
  let start := to_u64 start in
  let n_nodes := to_u64 (to_u64 end_ - start) in
  if n_nodes <? 3 then Ok dzero
  else
    let! area := for_each (seq 0 (Z.to_nat n_nodes)) (fun i area =>
      let! curr := read (conn_indices m) (to_u64 (start + Z.of_nat i)) in
      let! next := read (conn_indices m) (to_u64 (start + (Z.of_nat i + 1) mod n_nodes)) in
      let! x0 := read2 (node_coords m) (to_u64 curr) 0 in
      let! y0 := read2 (node_coords m) (to_u64 curr) 1 in
      let! x1 := read2 (node_coords m) (to_u64 next) 0 in
      let! y1 := read2 (node_coords m) (to_u64 next) 1 in
      Ok (dadd area (dsub (dmul x0 y1) (dmul x1 y0)))) dzero in
    Ok (dmul (SFabs area) half).

Definition get_cell_areas (m : UnstructuredMesh) : result (list double) :=
  if (length (cell_areas m) =? n_cells m)%nat then
    for_each (seq 0 (n_cells m)) (fun i areas => let! a := read (cell_areas m) (Z.of_nat i) in Ok (areas ++ [a])) []
  else for_each (seq 0 (n_cells m)) (fun i areas => let! a := compute_single_cell_area m i in Ok (areas ++ [a])) [].

(** ** Regular grids *)

(** [while (x < 0.0) x += 360.0;] and [while (x >= 360.0) x -= 360.0;]: a loop that goes on
    without an effect forever has no meaning. *)
Fixpoint add_turns (fuel : nat) (x : double) : result double :=
  if SFltb x dzero then match fuel with O => Undef | S fuel => add_turns fuel (dadd x c360) end else Ok x.
Fixpoint sub_turns (fuel : nat) (x : double) : result double :=
  if SFleb c360 x then match fuel with O => Undef | S fuel => sub_turns fuel (dsub x c360) end else Ok x.

(** More turns than a number that the loops can bring into the circle takes. *)
Definition turns_of (x : double) : nat := match floorZ x with Some z => S (S (Z.to_nat (Z.abs z / 180))) | None => O end.

(** The column of a longitude, the row of a latitude. *)
Definition nearest_column (src_reg : RegularGridInfo) (lon : double) : result Z :=
  let src_ni := Z.of_nat (info_ni src_reg) in
  let! s_i := round_index (ddiv (dsub lon (lon_min src_reg)) (delta_lon src_reg)) in
  let! s_i := crem I64 (Ok s_i) (Ok src_ni) in
  if s_i <? 0 then arith I64 (s_i + src_ni) else Ok s_i.

Definition nearest_row (src_reg : RegularGridInfo) (lat : double) : result Z :=
  let src_nj := Z.of_nat (info_nj src_reg) in
  let! s_j := round_index (ddiv (dsub lat (lat_min src_reg)) (delta_lat src_reg)) in
  let s_j := if s_j <? 0 then 0 else s_j in
  if src_nj <=? s_j then arith I64 (src_nj - 1) else Ok s_j.

(** The kernel: the source cell of destination cell [j]. *)
Definition nearest_source (src_reg dst_reg : RegularGridInfo) (j : nat) : result Z :=
  if (info_ni dst_reg =? 0)%nat then Undef
  else
    let d_i := Z.of_nat (j mod info_ni dst_reg) in
    let d_j := Z.of_nat (j / info_ni dst_reg) in
    let lon := dadd (lon_min dst_reg) (dmul (of_int d_i) (delta_lon dst_reg)) in
    let lat := dadd (lat_min dst_reg) (dmul (of_int d_j) (delta_lat dst_reg)) in
    let relative_lon := dsub lon (lon_min src_reg) in
    let! relative_lon := add_turns (turns_of relative_lon) relative_lon in
    let! _ := sub_turns (turns_of relative_lon) relative_lon in
    let! s_i := nearest_column src_reg lon in
    let! s_j := nearest_row src_reg lat in
    let! row := arith I64 (s_j * Z.of_nat (info_ni src_reg)) in
    arith I64 (row + s_i).

Definition generate_nearest_rect `{!ParallelFor} (src_mesh dst_mesh : UnstructuredMesh) (src_reg dst_reg : RegularGridInfo) : result InterpolationMatrix :=
  let n_dst := n_cells dst_mesh in
  let! '(fl, (fr, fc)) := for_each (range_order n_dst) (fun j '(fl, (fr, fc)) =>
    let! src_idx := nearest_source src_reg dst_reg j in
    let! fl := write fl (Z.of_nat j) one in
    let! fr := write fr (Z.of_nat j) (to_index (Z.of_nat j)) in
    let! fc := write fc (Z.of_nat j) src_idx in
    Ok (fl, (fr, fc))) (replicate n_dst dzero, (replicate n_dst 0, replicate n_dst 0)) in
  Ok (new_matrix fl fr fc (replicate (n_cells src_mesh) dzero) (replicate n_dst dzero)
        (replicate (n_cells src_mesh) dzero) (replicate n_dst dzero) (n_cells src_mesh) n_dst).

(** ** Other meshes *)

Section Nearest.
Context `{!Libm, !NearestTree}.

(** The point of the unit sphere, or of the plane. *)
Definition search_point (cs : CoordinateSystem) (three : bool) (p : double * double) : list spec_float :=
  if three then
    let '(lon, lat) := if decide (cs = SphericalDeg) then (deg_to_rad (fst p), deg_to_rad (snd p)) else p in
    [to_float (dmul (m_cos lat) (m_cos lon)); to_float (dmul (m_cos lat) (m_sin lon)); to_float (m_sin lat)]
  else to_point2 p.

Definition generate_nearest_impl (three : bool) (src_mesh dst_mesh : UnstructuredMesh) (config : RegridConfig) : result InterpolationMatrix :=
  let n_src := n_cells src_mesh in
  let n_dst := n_cells dst_mesh in
  let! src_c := compute_cell_centroids_xy src_mesh in
  let! dst_c := compute_cell_centroids_xy dst_mesh in
  let cs := coord_sys src_mesh in
  let src_points := search_point cs three <$> src_c in
  let! es := for_each (seq 0 n_dst) (fun j es =>
    let! p := read dst_c (Z.of_nat j) in
    match nearest src_points (search_point cs three p) with
    | None => if decide (unmapped config = Error) then Throw runtime_error else Ok es
    | Some src_idx => Ok (push_entry es one (to_index (Z.of_nat j)) (to_index (Z.of_nat src_idx)))
    end) no_entries in
  let! src_areas := get_cell_areas src_mesh in
  let! dst_areas := get_cell_areas dst_mesh in
  Ok (new_matrix (weights_vec es) (rows_vec es) (cols_vec es) (replicate n_src one) (replicate n_dst one) src_areas dst_areas n_src n_dst).

Definition generate_nearest `{!AscendingSort, !ParallelFor} (src_mesh dst_mesh : UnstructuredMesh) (config : RegridConfig) : result InterpolationMatrix :=
  let! src_reg := detect_regular_grid src_mesh in
  let! dst_reg := detect_regular_grid dst_mesh in
  if is_regular src_reg && is_regular dst_reg then generate_nearest_rect src_mesh dst_mesh src_reg dst_reg
  else generate_nearest_impl (spherical (coord_sys src_mesh)) src_mesh dst_mesh config.
End Nearest.

(** * Specification *)

(** Half the magnitude of the sum of the cross products of consecutive corners. *)
Definition corner (m : UnstructuredMesh) (nodes : list Z) (i : nat) (k : nat) : double := coord (node_coords m) (default 0 (nodes !! i)) k.

Definition cross_term (m : UnstructuredMesh) (nodes : list Z) (i : nat) : double :=
  let next := ((i + 1) mod length nodes)%nat in
  dsub (dmul (corner m nodes i 0) (corner m nodes next 1)) (dmul (corner m nodes next 0) (corner m nodes i 1)).

Definition shoelace (m : UnstructuredMesh) (nodes : list Z) : double :=
  if (length nodes <? 3)%nat then dzero else dmul (SFabs (sum_of (cross_term m nodes <$> seq 0 (length nodes)))) half.

Definition areas_given (m : UnstructuredMesh) : list double :=
  if (length (cell_areas m) =? n_cells m)%nat then cell_areas m else (fun c => shoelace m (cell_nodes m c)) <$> seq 0 (n_cells m).

(** * Lemmas *)

Lemma sum_of_snoc l x : sum_of (l ++ [x]) = dadd (sum_of l) x.
Proof. unfold sum_of. by rewrite foldl_app. Qed.

Lemma node_read2 m c i k : mesh_ok m -> mesh_sized m -> (c < n_cells m)%nat -> (i < length (cell_nodes m c))%nat -> (k < 2)%nat ->
  exists v, read (conn_indices m) (offset m c + Z.of_nat i) = Ok v /\ cell_nodes m c !! i = Some v /\
    read2 (node_coords m) (to_u64 v) k = Ok (corner m (cell_nodes m c) i k).
Proof.
  intros Hm (Hn & _ & _) Hc Hi Hk. destruct (mesh_coords m Hm) as [Hv H2]. destruct (lookup_lt_is_Some_2 (cell_nodes m c) i Hi) as [v Ev].
  exists v. split; [by apply cell_nodes_read|]. split; [done|].
  pose proof (cell_nodes_range m c Hm) as Hr. rewrite list.Forall_forall in Hr. specialize (Hr v (list_elem_of_lookup_2 _ _ _ Ev)).
  unfold n_nodes in *. rewrite to_u64_id by lia. rewrite read2_ok by (done || lia). unfold corner. by rewrite Ev.
Qed.

Lemma cell_area_ok m c : mesh_ok m -> mesh_sized m -> (c < n_cells m)%nat -> compute_single_cell_area m c = Ok (shoelace m (cell_nodes m c)).
Proof.
  intros Hm Hs Hc. pose proof Hs as (Hn & Hi & _). unfold compute_single_cell_area, shoelace. rewrite read_offset by (done || lia). cbn [bind].
  replace (Z.of_nat c + 1) with (Z.of_nat (c + 1)) by lia. rewrite read_offset by (done || lia). cbn [bind].
  pose proof (offset_bounds m c Hm ltac:(lia)) as B0. pose proof (offset_bounds m (c + 1) Hm ltac:(lia)) as B1. pose proof (cell_nodes_length m c Hm Hc) as Hl.
  rewrite (to_u64_id (offset m c)), (to_u64_id (offset m (c + 1))) by lia. rewrite <- Hl. rewrite to_u64_id by lia. rewrite Nat2Z.id.
  set (nodes := cell_nodes m c) in *. destruct (Z.ltb_spec (Z.of_nat (length nodes)) 3), (Nat.ltb_spec (length nodes) 3); try lia; [done|].
  destruct (for_each_inv (fun i s => s = sum_of (cross_term m nodes <$> seq 0 i)) (length nodes) (fun i area =>
      let! curr := read (conn_indices m) (to_u64 (offset m c + Z.of_nat i)) in
      let! next := read (conn_indices m) (to_u64 (offset m c + (Z.of_nat i + 1) mod Z.of_nat (length nodes))) in
      let! x0 := read2 (node_coords m) (to_u64 curr) 0 in let! y0 := read2 (node_coords m) (to_u64 curr) 1 in
      let! x1 := read2 (node_coords m) (to_u64 next) 0 in let! y1 := read2 (node_coords m) (to_u64 next) 1 in
      Ok (dadd area (dsub (dmul x0 y1) (dmul x1 y0)))) dzero) as (s & -> & ->); [|done|done].
  intros i s Hlt ->. change (1 + i)%nat with (S i). rewrite seq_S, fmap_app. cbn [fmap list_fmap Nat.add]. rewrite sum_of_snoc.
  pose proof (Nat.mod_upper_bound (i + 1) (length nodes) ltac:(lia)) as Hnext.
  replace ((Z.of_nat i + 1) mod Z.of_nat (length nodes)) with (Z.of_nat ((i + 1) mod length nodes)) by (rewrite Nat2Z.inj_mod; f_equal; lia).
  rewrite !to_u64_id by lia.
  destruct (node_read2 m c i 0 Hm Hs Hc Hlt ltac:(lia)) as (v & -> & Ev & E0). destruct (node_read2 m c i 1 Hm Hs Hc Hlt ltac:(lia)) as (v' & _ & Ev' & E1).
  destruct (node_read2 m c _ 0 Hm Hs Hc Hnext ltac:(lia)) as (w & -> & Ew & F0). destruct (node_read2 m c _ 1 Hm Hs Hc Hnext ltac:(lia)) as (w' & _ & Ew' & F1).
  rewrite Ev in Ev'. injection Ev' as <-. rewrite Ew in Ew'. injection Ew' as <-. cbn [bind]. rewrite E0. cbn [bind]. rewrite E1. cbn [bind].
  rewrite F0. cbn [bind]. rewrite F1. cbn [bind]. eexists. split; [done|]. done.
Qed.

(** A loop that appends one value per turn. *)
Lemma for_each_tabulate {A} (f : nat -> A) n body : (forall i l, (i < n)%nat -> body i l = Ok (l ++ [f i])) -> for_each (seq 0 n) body [] = Ok (f <$> seq 0 n).
Proof.
  intros Hb. rewrite (for_each_collect (fun i => Some (f i))) by done. by rewrite omap_Some_fmap.
Qed.

Lemma get_cell_areas_ok m : mesh_ok m -> mesh_sized m -> get_cell_areas m = Ok (areas_given m) /\ length (areas_given m) = n_cells m.
Proof.
  intros Hm Hs. unfold get_cell_areas, areas_given. destruct (Nat.eqb_spec (length (cell_areas m)) (n_cells m)) as [E|E].
  - split; [|done]. rewrite (for_each_tabulate (fun i => default dzero (cell_areas m !! i))).
    + f_equal. apply list_eq. intros i. rewrite list_lookup_fmap. destruct (decide (i < n_cells m)%nat) as [Hi|Hi].
      * rewrite lookup_seq_lt by done. cbn. destruct (lookup_lt_is_Some_2 (cell_areas m) i) as [x ->]; [lia|done].
      * rewrite !lookup_ge_None_2; [done|..]; rewrite ?length_seq; lia.
    + intros i l Hi. destruct (lookup_lt_is_Some_2 (cell_areas m) i) as [x Ex]; [lia|]. rewrite (read_nat _ _ _ Ex). cbn [bind]. by rewrite Ex.
  - split; [|by rewrite length_fmap, length_seq]. apply for_each_tabulate. intros i l Hi. by rewrite cell_area_ok.
Qed.

(** ** Regular grids *)

(** The longitude and latitude a destination cell is looked up with: the south-west corner. *)
Definition lookup_lon (reg : RegularGridInfo) (j : nat) : double := dadd (lon_min reg) (dmul (of_int (Z.of_nat (j mod info_ni reg))) (delta_lon reg)).
Definition lookup_lat (reg : RegularGridInfo) (j : nat) : double := dadd (lat_min reg) (dmul (of_int (Z.of_nat (j / info_ni reg))) (delta_lat reg)).

Definition column_index (src : RegularGridInfo) (lon : double) : Z := default 0 (roundZ (ddiv (dsub lon (lon_min src)) (delta_lon src))).
Definition row_index (src : RegularGridInfo) (lat : double) : Z := default 0 (roundZ (ddiv (dsub lat (lat_min src)) (delta_lat src))).

(** The source cell: the rounded column modulo the columns, the rounded row clamped. *)
Definition rounded_source (src dst : RegularGridInfo) (j : nat) : Z :=
  Z.max 0 (Z.min (row_index src (lookup_lat dst j)) (Z.of_nat (info_nj src) - 1)) * Z.of_nat (info_ni src)
  + column_index src (lookup_lon dst j) mod Z.of_nat (info_ni src).

Definition has_index (x : double) : Prop := exists z, roundZ x = Some z /\ imin I64 <= z <= imax I64.

(** The loops over whole turns end. *)
Definition turns_end (x : double) : Prop := exists y z, add_turns (turns_of x) x = Ok y /\ sub_turns (turns_of y) y = Ok z.

(** A destination cell whose place on the source grid is a number of the index type. *)
Definition roundable (src dst : RegularGridInfo) (j : nat) : Prop :=
  turns_end (dsub (lookup_lon dst j) (lon_min src)) /\
  has_index (ddiv (dsub (lookup_lon dst j) (lon_min src)) (delta_lon src)) /\
  has_index (ddiv (dsub (lookup_lat dst j) (lat_min src)) (delta_lat src)).

(** Within the circle there is no turn to make. *)
Lemma within_circle_ends x : SFltb x dzero = false -> SFleb c360 x = false -> turns_end x.
Proof.
  intros H1 H2. exists x, x. destruct (turns_of x); cbn [add_turns sub_turns]; by rewrite H1, H2.
Qed.

(** The rounded value is an integer nearest to the number: the distance of [m * 2 ^ e] is at
    most a half. *)
Lemma roundZ_nearest s m e z : roundZ (S754_finite s m e) = Some z -> e <= 0 -> Z.abs (2 * z * 2 ^ (- e) - 2 * cond_Zopp s (Zpos m)) <= 2 ^ (- e).
Proof.
  unfold roundZ. intros [= <-] He. pose proof (Z.pow_pos_nonneg 2 (- e) ltac:(lia) ltac:(lia)) as Hp. destruct (Z.leb_spec 0 e) as [H0|H0].
  - replace e with 0 by lia. destruct s; cbn [cond_Zopp Z.opp Z.pow]; lia.
  - replace (1 - e) with (- e + 1) by lia. rewrite Z.pow_add_r by lia. change (2 ^ 1) with 2. set (p := 2 ^ (- e)) in *.
    pose proof (Z.div_mod (2 * Zpos m + p) (p * 2) ltac:(lia)) as Hd. pose proof (Z.mod_pos_bound (2 * Zpos m + p) (p * 2) ltac:(lia)) as Hb.
    set (q := (2 * Zpos m + p) / (p * 2)) in *. destruct s; cbn [cond_Zopp]; lia.
Qed.

Section Rounding.
Context (src_mesh dst_mesh : UnstructuredMesh) (src dst : RegularGridInfo).
Context (Hsrc : (0 < info_ni src)%nat /\ (0 < info_nj src)%nat /\ n_cells src_mesh = (info_ni src * info_nj src)%nat).
Context (Hdst : (0 < info_ni dst)%nat) (Hsize : Z.of_nat (n_cells src_mesh) < 2 ^ 63 /\ Z.of_nat (n_cells dst_mesh) < 2 ^ 63).

Lemma rounded_range j : 0 <= rounded_source src dst j < Z.of_nat (n_cells src_mesh).
Proof.
  destruct Hsrc as (Hi & Hj & ->). unfold rounded_source. pose proof (Z.mod_pos_bound (column_index src (lookup_lon dst j)) (Z.of_nat (info_ni src)) ltac:(lia)).
  set (c := _ mod _) in *. set (r := Z.max 0 _). assert (0 <= r <= Z.of_nat (info_nj src) - 1) by lia. nia.
Qed.

Lemma nearest_column_ok lon : has_index (ddiv (dsub lon (lon_min src)) (delta_lon src)) ->
  nearest_column src lon = Ok (column_index src lon mod Z.of_nat (info_ni src)).
Proof.
  intros (z & Ez & Hz). destruct Hsrc as (Hi & Hj & En). assert (Hn : Z.of_nat (info_ni src) < 2 ^ 63) by nia.
  unfold nearest_column, round_index, column_index. rewrite Ez. rewrite arith_ok by done. cbn [bind default from_option id].
  pose proof (crem_pos I64 z (Z.of_nat (info_ni src)) Hz ltac:(lia)) as E. unfold cval in E. rewrite E. cbn [bind].
  pose proof (Z.quot_rem' z (Z.of_nat (info_ni src))) as Hq. pose proof (Z.rem_bound_abs z (Z.of_nat (info_ni src)) ltac:(lia)) as Hr.
  destruct (Z.ltb_spec (Z.rem z (Z.of_nat (info_ni src))) 0).
  - rewrite arith_ok by (cbn; lia). f_equal. apply (Z.mod_unique_pos _ _ (Z.quot z (Z.of_nat (info_ni src)) - 1)); lia.
  - f_equal. apply (Z.mod_unique_pos _ _ (Z.quot z (Z.of_nat (info_ni src)))); lia.
Qed.

Lemma nearest_row_ok lat : has_index (ddiv (dsub lat (lat_min src)) (delta_lat src)) ->
  nearest_row src lat = Ok (Z.max 0 (Z.min (row_index src lat) (Z.of_nat (info_nj src) - 1))).
Proof.
  intros (z & Ez & Hz). destruct Hsrc as (Hi & Hj & En). assert (Hn : Z.of_nat (info_nj src) < 2 ^ 63) by nia.
  unfold nearest_row, round_index, row_index. rewrite Ez. rewrite arith_ok by done. cbn [bind default from_option id].
  destruct (Z.ltb_spec z 0).
  - destruct (Z.leb_spec (Z.of_nat (info_nj src)) 0); [lia|]. f_equal. lia.
  - destruct (Z.leb_spec (Z.of_nat (info_nj src)) z); [rewrite arith_ok by (cbn; lia)|]; f_equal; lia.
Qed.

Lemma nearest_source_ok j : roundable src dst j -> nearest_source src dst j = Ok (rounded_source src dst j).
Proof.
  intros ((y & z & E1 & E2) & Hx & Hy). pose proof (rounded_range j) as Hr. unfold nearest_source. destruct (Nat.eqb_spec (info_ni dst) 0); [lia|].
  fold (lookup_lon dst j) (lookup_lat dst j). rewrite E1. cbn [bind].
  rewrite E2. cbn [bind]. rewrite nearest_column_ok, nearest_row_ok by done. cbn [bind].
  unfold rounded_source in *. destruct Hsrc as (Hi & Hj & En). pose proof (Z.mod_pos_bound (column_index src (lookup_lon dst j)) (Z.of_nat (info_ni src)) ltac:(lia)).
  rewrite arith_ok by (cbn; lia). cbn [bind]. apply arith_ok. cbn. lia.
Qed.

(** The three arrays after the loop. *)
Lemma nearest_loop_ok `{!ParallelFor} : (forall j, (j < n_cells dst_mesh)%nat -> roundable src dst j) -> let n := n_cells dst_mesh in
  generate_nearest_rect src_mesh dst_mesh src dst =
  Ok (new_matrix (replicate n one) (Z.of_nat <$> seq 0 n) (rounded_source src dst <$> seq 0 n) (replicate (n_cells src_mesh) dzero) (replicate n dzero)
        (replicate (n_cells src_mesh) dzero) (replicate n dzero) (n_cells src_mesh) n).
Proof.
  intros Hr n. unfold generate_nearest_rect. fold n.
  destruct (for_each_establish (fun '(fl, (fr, fc)) => length fl = n /\ length fr = n /\ length fc = n)
    (fun j '(fl, (fr, fc)) => fl !! j = Some one /\ fr !! j = Some (Z.of_nat j) /\ fc !! j = Some (rounded_source src dst j)) (range_order n)
    (fun j '(fl, (fr, fc)) => let! src_idx := nearest_source src dst j in let! fl := write fl (Z.of_nat j) one in
       let! fr := write fr (Z.of_nat j) (to_index (Z.of_nat j)) in let! fc := write fc (Z.of_nat j) src_idx in Ok (fl, (fr, fc)))
    (replicate n dzero, (replicate n 0, replicate n 0))) as ([fl [fr fc]] & E & (L1 & L2 & L3) & Q & _).
  - intros j [fl [fr fc]] Hj (L1 & L2 & L3). rewrite range_order_perm in Hj. apply elem_of_seq in Hj.
    rewrite nearest_source_ok by (apply Hr; lia). cbn [bind]. rewrite !write_in_bounds by lia. cbn [bind]. eexists. split; [done|]. cbv beta iota. rewrite !length_insert, !Nat2Z.id. split; [done|]. rewrite to_index_id by lia.
    split; [by rewrite !list_lookup_insert_eq by lia|]. intros i (Q1 & Q2 & Q3). destruct (decide (i = j)) as [->|Hne].
    + by rewrite !list_lookup_insert_eq by lia.
    + by rewrite !list_lookup_insert_ne by done.
  - by rewrite !length_replicate.
  - rewrite E. cbn [bind]. assert (Hq : forall j, (j < n)%nat -> fl !! j = Some one /\ fr !! j = Some (Z.of_nat j) /\ fc !! j = Some (rounded_source src dst j)).
    { intros j Hj. apply (Q j). rewrite range_order_perm. apply elem_of_seq. lia. }
    assert (Et : forall {A} (l : list A) (f : nat -> A), length l = n -> (forall j, (j < n)%nat -> l !! j = Some (f j)) -> l = f <$> seq 0 n).
    { intros A l f Hl Hf. apply list_eq. intros j. rewrite list_lookup_fmap. destruct (decide (j < n)%nat); [by rewrite lookup_seq_lt, Hf|].
      rewrite !lookup_ge_None_2; [done|..]; rewrite ?length_seq; lia. }
    rewrite (Et _ fl (fun _ => one)), (Et _ fr Z.of_nat), (Et _ fc (rounded_source src dst)); [|try done; intros j Hj; apply (Hq j Hj)..].
    rewrite (Et _ (replicate n one) (fun _ => one)); [done|by rewrite length_replicate|]. intros j Hj. by apply lookup_replicate_2.
Qed.
End Rounding.

Lemma zip_tabulated (f : nat -> Z) fa fb aa ab ns nd n :
  coo (new_matrix (replicate n one) (Z.of_nat <$> seq 0 n) (f <$> seq 0 n) fa fb aa ab ns nd) = (fun j => (Z.of_nat j, (f j, one))) <$> seq 0 n.
Proof.
  unfold coo. cbn. generalize 0%nat. induction n as [|n IH]; intros k; [done|]. cbn. by rewrite IH.
Qed.

Lemma tabulated_well_formed (f : nat -> Z) fa fb aa ab ns n : (forall j, (j < n)%nat -> 0 <= f j < Z.of_nat ns) ->
  well_formed (new_matrix (replicate n one) (Z.of_nat <$> seq 0 n) (f <$> seq 0 n) fa fb aa ab ns n).
Proof.
  intros Hf. unfold well_formed, nnz. cbn. rewrite !length_fmap, length_seq, length_replicate. do 2 (split; [done|]).
  split; apply Forall_fmap, list.Forall_forall; intros j Hj%elem_of_seq; cbn; [lia|apply Hf; lia].
Qed.

(** ** The search *)

Section Search.
Context `{!Libm, !NearestTree}.

(** The source cell that the tree finds for a destination cell. *)
Definition found (cs : CoordinateSystem) (three : bool) (src_c dst_c : list (double * double)) (j i : nat) : Prop :=
  nearest (search_point cs three <$> src_c) (search_point cs three (default (dzero, dzero) (dst_c !! j))) = Some i.

Lemma search_loop cs three config src_c dst_c n : src_c <> [] -> Z.of_nat (length src_c) <= 2 ^ 32 -> length dst_c = n -> Z.of_nat n < 2 ^ 63 -> exists es,
  for_each (seq 0 n) (fun j es =>
    let! p := read dst_c (Z.of_nat j) in
    match nearest (search_point cs three <$> src_c) (search_point cs three p) with
    | None => if decide (unmapped config = Error) then Throw runtime_error else Ok es
    | Some src_idx => Ok (push_entry es one (to_index (Z.of_nat j)) (to_index (Z.of_nat src_idx)))
    end) no_entries = Ok (entries_of es) /\
  Forall2 (fun j e => exists i, e = (Z.of_nat j, (Z.of_nat i, one)) /\ found cs three src_c dst_c j i /\ (i < length src_c)%nat) (seq 0 n) es.
Proof.
  intros Hne Hu Hl Hn. destruct (for_each_inv (fun q es => exists l, es = entries_of l /\
      Forall2 (fun j e => exists i, e = (Z.of_nat j, (Z.of_nat i, one)) /\ found cs three src_c dst_c j i /\ (i < length src_c)%nat) (seq 0 q) l) n (fun j es =>
    let! p := read dst_c (Z.of_nat j) in
    match nearest (search_point cs three <$> src_c) (search_point cs three p) with
    | None => if decide (unmapped config = Error) then Throw runtime_error else Ok es
    | Some src_idx => Ok (push_entry es one (to_index (Z.of_nat j)) (to_index (Z.of_nat src_idx)))
    end) no_entries) as (es & E & l & -> & Hl'); [| |by exists l].
  - intros j es Hj (l & -> & Hl'). destruct (lookup_lt_is_Some_2 dst_c j) as [p Ep]; [lia|]. rewrite (read_nat _ _ _ Ep). cbn [bind].
    destruct (nearest_found (search_point cs three <$> src_c) (search_point cs three p)) as (i & Ei & Hi); [by destruct src_c|by rewrite length_fmap|].
    rewrite Ei. rewrite length_fmap in Hi. rewrite !to_index_id by lia. rewrite push_entries_of. eexists. split; [done|]. eexists. split; [done|].
    change (1 + j)%nat with (S j). rewrite seq_S. cbn [Nat.add]. apply Forall2_app; [done|]. constructor; [|constructor]. exists i. split; [done|]. split; [|done].
    unfold found. by rewrite Ep.
  - exists []. split; [done|constructor].
Qed.

Lemma search_loop_empty cs three config dst_c n : length dst_c = n ->
  for_each (seq 0 n) (fun j es =>
    let! p := read dst_c (Z.of_nat j) in
    match nearest (search_point cs three <$> []) (search_point cs three p) with
    | None => if decide (unmapped config = Error) then Throw runtime_error else Ok es
    | Some src_idx => Ok (push_entry es one (to_index (Z.of_nat j)) (to_index (Z.of_nat src_idx)))
    end) no_entries = if decide (unmapped config = Error /\ n <> 0%nat) then Throw runtime_error else Ok no_entries.
Proof.
  intros Hl. destruct n as [|n]; [by rewrite decide_False by (intros [_ C]; done)|].
  destruct (decide (unmapped config = Error)) as [He|He].
  - rewrite decide_True by done. destruct (lookup_lt_is_Some_2 dst_c 0) as [p Ep]; [lia|]. cbn [seq for_each]. rewrite (read_nat _ _ _ Ep). cbn [bind fmap list_fmap].
    by rewrite nearest_nothing.
  - rewrite decide_False by (intros [C _]; done).
    destruct (for_each_inv (fun _ es => es = no_entries) (S n) (fun j es => let! p := read dst_c (Z.of_nat j) in
      match nearest (search_point cs three <$> []) (search_point cs three p) with
      | None => Ok es | Some src_idx => Ok (push_entry es one (to_index (Z.of_nat j)) (to_index (Z.of_nat src_idx))) end) no_entries) as (es & -> & ->); [|done|done].
    intros j es Hj ->. destruct (lookup_lt_is_Some_2 dst_c j) as [p Ep]; [lia|]. rewrite (read_nat _ _ _ Ep). cbn [bind fmap list_fmap]. rewrite nearest_nothing. by eexists.
Qed.

(** The matrix of a search. *)
Definition search_matrix (src_mesh dst_mesh : UnstructuredMesh) (es : list (Z * (Z * double))) : InterpolationMatrix :=
  matrix_of (new_matrix [] [] [] (replicate (n_cells src_mesh) one) (replicate (n_cells dst_mesh) one) (areas_given src_mesh) (areas_given dst_mesh)
    (n_cells src_mesh) (n_cells dst_mesh)) es.

(** C38. [generate_nearest] of weight_generator.cpp on the host.  When both meshes are detected as regular
    grids and every place of a destination cell on the source grid is a number of the index
    type, every destination cell has one entry of weight one, for the source cell whose column
    and row are the rounded place of its south-west corner, the column taken around the
    circle and the row clamped.  Otherwise every destination cell has one entry of weight one,
    for the source cell that the tree over the centers finds; without source cells the
    destination cells have none, or the first is an exception, by configuration.  The matrices
    are well formed; those of a search have fractions one and the areas of the meshes or of the
    shoelace formula. *)
Theorem generate_nearest_correct `{!AscendingSort, !ParallelFor} src_mesh dst_mesh config rs rd :
  mesh_ok src_mesh /\ mesh_sized src_mesh -> mesh_ok dst_mesh /\ mesh_sized dst_mesh -> Z.of_nat (n_cells src_mesh) <= 2 ^ 32 ->
  detect_regular_grid src_mesh = Ok rs -> detect_regular_grid dst_mesh = Ok rd ->
  (is_regular rs && is_regular rd = true -> grid_fits src_mesh (info_ni rs) (info_nj rs) -> (0 < info_ni rd)%nat ->
     (forall j, (j < n_cells dst_mesh)%nat -> roundable rs rd j) ->
     exists m, generate_nearest src_mesh dst_mesh config = Ok m /\ well_formed m /\
       coo m = (fun j => (Z.of_nat j, (rounded_source rs rd j, one))) <$> seq 0 (n_cells dst_mesh)) /\
  (is_regular rs && is_regular rd = false -> n_cells src_mesh <> 0%nat -> exists src_c dst_c es,
     compute_cell_centroids_xy src_mesh = Ok src_c /\ compute_cell_centroids_xy dst_mesh = Ok dst_c /\
     generate_nearest src_mesh dst_mesh config = Ok (search_matrix src_mesh dst_mesh es) /\ well_formed (search_matrix src_mesh dst_mesh es) /\
     Forall2 (fun j e => exists i, e = (Z.of_nat j, (Z.of_nat i, one)) /\
       found (coord_sys src_mesh) (spherical (coord_sys src_mesh)) src_c dst_c j i /\ (i < length src_c)%nat) (seq 0 (n_cells dst_mesh)) es) /\
  (is_regular rs && is_regular rd = false -> n_cells src_mesh = 0%nat ->
     generate_nearest src_mesh dst_mesh config =
       if decide (unmapped config = Error /\ n_cells dst_mesh <> 0%nat) then Throw runtime_error else Ok (search_matrix src_mesh dst_mesh [])).
Proof.
  intros [Hs Ss] [Hd Sd] Hu Es Ed. unfold generate_nearest. rewrite Es. cbn [bind]. rewrite Ed. cbn [bind]. split; [|split].
  - intros -> (Hi & _ & Hj & _ & En) Hni Hr.
    assert (Hz : Z.of_nat (n_cells src_mesh) < 2 ^ 63 /\ Z.of_nat (n_cells dst_mesh) < 2 ^ 63) by (split; [apply Ss|apply Sd]).
    rewrite (nearest_loop_ok src_mesh dst_mesh rs rd) by done.
    eexists. split; [done|]. split; [|apply zip_tabulated]. apply tabulated_well_formed. intros j _. by apply (rounded_range src_mesh dst_mesh).
  - intros -> Hne. destruct (centroids_total src_mesh Hs Ss) as (src_c & Cs & Ls). destruct (centroids_total dst_mesh Hd Sd) as (dst_c & Cd & Ld).
    destruct (search_loop (coord_sys src_mesh) (spherical (coord_sys src_mesh)) config src_c dst_c (n_cells dst_mesh)) as (es & E & Hes); [by destruct src_c|lia|done|apply Sd|].
    exists src_c, dst_c, es. split; [done|]. split; [done|]. unfold generate_nearest_impl. rewrite Cs. cbn [bind]. rewrite Cd. cbn [bind]. rewrite E. cbn [bind].
    rewrite (proj1 (get_cell_areas_ok src_mesh Hs Ss)), (proj1 (get_cell_areas_ok dst_mesh Hd Sd)). split; [done|]. split; [|done].
    apply matrix_of_well_formed. intros e He. apply list_elem_of_lookup in He as [q Eq]. destruct (Forall2_lookup_r _ _ _ _ _ Hes Eq) as (j & Ej%lookup_seq & i & -> & _ & Hi).
    cbn. lia.
  - intros -> Hz. destruct (centroids_total src_mesh Hs Ss) as (src_c & Cs & Ls). destruct (centroids_total dst_mesh Hd Sd) as (dst_c & Cd & Ld).
    rewrite Hz in Ls. apply length_zero_iff_nil in Ls as ->. unfold generate_nearest_impl. rewrite Cs. cbn [bind]. rewrite Cd. cbn [bind].
    rewrite (search_loop_empty _ _ config dst_c (n_cells dst_mesh)) by done. destruct (decide _); [done|]. cbn [bind].
    rewrite (proj1 (get_cell_areas_ok src_mesh Hs Ss)), (proj1 (get_cell_areas_ok dst_mesh Hd Sd)). done.
Qed.
End Search.

(** * Examples *)

#[local] Instance plain_functions : Libm := {| m_cos x := x; m_sin x := x; m_asin x := x; m_atan2 y x := ddiv y x |}.
#[local] Instance upwards : ParallelFor.
Proof. refine {| range_order n := seq 0 n |}. done. Defined.

(** The globe in quarters, and a row of cells of 30 degrees. *)
Definition quarter_globe : UnstructuredMesh := lattice 4 1 (fun i => of_int (90 * Z.of_nat i)) (fun j => of_int (180 * Z.of_nat j - 90)).
Definition fine_row : UnstructuredMesh := lattice 3 1 (fun i => of_int (30 * Z.of_nat i + 60)) (fun j => of_int (180 * Z.of_nat j - 90)).
Definition quarter_info : RegularGridInfo := regular_info (of_int <$> [0; 90; 180; 270; 360]) (of_int <$> [-90; 90]).
Definition fine_info : RegularGridInfo := regular_info (of_int <$> [60; 90; 120; 150]) (of_int <$> [-90; 90]).

Lemma quarters_detected : detect_regular_grid quarter_globe = Ok quarter_info /\ detect_regular_grid fine_row = Ok fine_info.
Proof. split; vm_compute; reflexivity. Qed.

Lemma quarters_sized : (mesh_ok quarter_globe /\ mesh_sized quarter_globe) /\ mesh_ok fine_row /\ mesh_sized fine_row.
Proof. split; (split; [apply lattice_ok; lia|done]). Qed.

Lemma fine_roundable j : (j < 3)%nat -> roundable quarter_info fine_info j.
Proof.
  intros Hj. destruct j as [|[|[|j]]]; [..|lia]; (split; [do 2 eexists; split; vm_compute; reflexivity|]);
    (split; (eexists; split; [vm_compute; reflexivity|cbn; lia])).
Qed.

Lemma generate_nearest_correct_witness : exists m, generate_nearest quarter_globe fine_row default_config = Ok m /\ well_formed m /\
  coo m = (fun j => (Z.of_nat j, (rounded_source quarter_info fine_info j, one))) <$> seq 0 3.
Proof.
  destruct quarters_sized as [S1 S2]. destruct quarters_detected as [D1 D2].
  destruct (generate_nearest_correct quarter_globe fine_row default_config quarter_info fine_info S1 S2 ltac:(done) D1 D2) as (H & _).
  apply H; [reflexivity| |cbn; lia|exact fine_roundable]. repeat (split; [cbn; lia|]). reflexivity.
Defined.

(** The first cell is centered at 75 degrees, nearest to the center of the first quarter at 45,
    but its corner at 60 is nearer to the corner of the second; and nothing is filled in of the
    fractions, which the search sets to one. *)
Example corner_is_not_center :
  (let! m := generate_nearest quarter_globe fine_row default_config in Ok (factor_col m, frac_b m)) = Ok ([1; 1; 1], [dzero; dzero; dzero]).
Proof. vm_compute. reflexivity. Qed.

(** A regional source is wrapped like a circle: a cell at 270 degrees gets a cell of a source that ends at 180. *)
Example regional_source_wraps :
  let half_info := regular_info (of_int <$> [0; 90; 180]) (of_int <$> [-90; 90]) in
  nearest_source half_info (regular_info (of_int <$> [270; 360]) (of_int <$> [-90; 90])) 0 = Ok 1.
Proof. vm_compute. reflexivity. Qed.

(** The loops that bring a negative longitude into the circle. *)
Example turns_from_the_west : (add_turns (turns_of (of_int (-800))) (of_int (-800)), sub_turns (turns_of (of_int 800)) (of_int 800)) = (Ok (of_int 280), Ok (of_int 80)).
Proof. vm_compute. reflexivity. Qed.
