(* ===== verification/PolygonClip.v ===== *)
(** * AXIS: clipping of polygons
    (src/libs/axis/include/axis/detail/planar_clipper.hpp, spherical_clipper.hpp)

    A polygon in memory of fixed capacity is clipped against every edge of another, in the plane
    and on the sphere, by the algorithm of Sutherland and Hodgman.  The two clippers
    have the loops in common and differ in the distance of a vertex from an edge and in the point
    where an edge is crossed.  A polygon is the list of the vertices that have been pushed:
    what the arrays hold beyond them is not read. *)
From Stdlib Require Import ZArith Lia SpecFloat.
From stdpp Require Import base list numbers.
From S2P Require Import Prelude CInt Blend KokkosArrays AxisMesh Magnitude UnitInterval RegularGrid BilinearRect.
Local Open Scope Z_scope.

(** ** Polygons *)

Definition MaxVerts : nat := 32.

(** [push]: at full capacity, a vertex is dropped. *)
Definition push {V} (p : list V) (v : V) : list V := if (length p <? MaxVerts)%nat then p ++ [v] else p.
Definition empty {V} (p : list V) : bool := (length p <? 3)%nat.

(** [constexpr double eps = -1.0e-14] and the threshold [1.0e-30] of degenerate edges *)
Definition clip_eps : double := S754_finite true 6338253001141147 (-99).
Definition edge_tol : double := S754_finite false 5708990770823839 (-152).

(** ** The loops of both clippers *)

Section Edge.
Context {V : Type} (signed_distance : V -> double) (compute_intersection : V -> V -> V).

Definition inside (v : V) : bool := SFleb clip_eps (signed_distance v).

(** The body of [clip_against_edge]. *)
Definition clip_vertex (input : list V) (i : nat) (output : list V) : result (list V) :=
  let n := Z.of_nat (length input) in
  let prev_idx := Z.rem (Z.of_nat i + n - 1) n in
  let! curr := read input (Z.of_nat i) in
  let! prev := read input prev_idx in
  let curr_inside := inside curr in
  let prev_inside := inside prev in
  if curr_inside then
    let output := if negb prev_inside then push output (compute_intersection prev curr) else output in
    Ok (push output curr)
  else if prev_inside then Ok (push output (compute_intersection prev curr))
  else Ok output.

Definition clip_against_edge (input : list V) : result (list V) := for_each (seq 0 (length input)) (clip_vertex input) [].
End Edge.

Section Polygon.
Context {V : Type} (degenerate : V -> V -> bool) (signed_distance : V -> V -> V -> double) (compute_intersection : V -> V -> V -> V -> V).

(** The loop over the edges of the clip polygon, from edge [ci] on; what is left of fewer than
    three vertices is nothing. *)
Fixpoint clip_edges (clip_poly : list V) (edges : list nat) (buf_a : list V) : result (list V) :=
  match edges with
  | [] => Ok buf_a
  | ci :: edges =>
      let n := Z.of_nat (length clip_poly) in
      let! edge_a := read clip_poly (Z.of_nat ci) in
      let! edge_b := read clip_poly (Z.rem (Z.of_nat ci + 1) n) in
      if degenerate edge_a edge_b then clip_edges clip_poly edges buf_a
      else
        let! buf_b := clip_against_edge (signed_distance edge_a edge_b) (compute_intersection edge_a edge_b) buf_a in
        if empty buf_b then Ok [] else clip_edges clip_poly edges buf_b
  end.

Definition clip_polygon (subject clip_poly : list V) : result (list V) :=
  if empty subject || empty clip_poly then Ok [] else clip_edges clip_poly (seq 0 (length clip_poly)) subject.
End Polygon.

(** ** The plane *)

Definition planar_vertex : Type := double * double.

(** [area] of PlanarPolygon *)
Definition planar_area (p : list planar_vertex) : result double :=
  if (length p <? 3)%nat then Ok dzero
  else
    let! v0 := read p 0 in
    let! a := for_each (seq 1 (length p - 2)) (fun i a =>
      let! v1 := read p (Z.of_nat i) in
      let! v2 := read p (Z.of_nat i + 1) in
      let dx0 := dsub (fst v1) (fst v0) in
      let dy0 := dsub (snd v1) (snd v0) in
      let dx1 := dsub (fst v2) (fst v0) in
      let dy1 := dsub (snd v2) (snd v0) in
      Ok (dadd a (dsub (dmul dx0 dy1) (dmul dx1 dy0)))) dzero in
    Ok (dmul (SFabs a) half).

Definition planar_edge_direction (a b : planar_vertex) : planar_vertex := (dsub (fst b) (fst a), dsub (snd b) (snd a)).

Definition planar_degenerate (a b : planar_vertex) : bool :=
  let '(edx, edy) := planar_edge_direction a b in SFltb (dadd (dmul edx edx) (dmul edy edy)) edge_tol.

Definition planar_signed_distance (a b p : planar_vertex) : double :=
  let '(edx, edy) := planar_edge_direction a b in dsub (dmul edx (dsub (snd p) (snd a))) (dmul edy (dsub (fst p) (fst a))).

Definition planar_compute_intersection (a b p0 p1 : planar_vertex) : planar_vertex :=
  let d0 := planar_signed_distance a b p0 in
  let d1 := planar_signed_distance a b p1 in
  let t := ddiv d0 (dsub d0 d1) in
  (dadd (fst p0) (dmul t (dsub (fst p1) (fst p0))), dadd (snd p0) (dmul t (dsub (snd p1) (snd p0)))).

Definition planar_overlap_area (subject clip : list planar_vertex) : result double :=
  let! p := clip_polygon planar_degenerate planar_signed_distance planar_compute_intersection subject clip in planar_area p.

(** ** The sphere *)

Definition spherical_length_sq (v : point) : double := let '(x, y, z) := v in dadd (dadd (dmul x x) (dmul y y)) (dmul z z).
Definition length_of (v : point) : double := SFsqrt 53 1024 (spherical_length_sq v).

(** [1.0e-300] *)
Definition tiny_length : double := S754_finite false 6032057205060441 (-1049).

Definition spherical_scale (v : point) (s : double) : point := let '(x, y, z) := v in (dmul x s, dmul y s, dmul z s).
Definition spherical_negate (v : point) : point := let '(x, y, z) := v in (SFopp x, SFopp y, SFopp z).

Definition spherical_normalize (v : point) : point :=
  let len := length_of v in
  if SFltb len tiny_length then (dzero, dzero, dzero) else spherical_scale v (ddiv one len).

Section Area.
Context `{!Libm}.

(** [area] of SphericalPolygon *)
Definition spherical_area (p : list point) : result double :=
  if (length p <? 3)%nat then Ok dzero
  else
    let! a := read p 0 in
    let! total := for_each (seq 1 (length p - 2)) (fun i total =>
      let! b := read p (Z.of_nat i) in
      let! c := read p (Z.of_nat i + 1) in
      let numerator := dot3 a (cross3 b c) in
      let denominator := dadd (dadd (dadd one (dot3 a b)) (dot3 a c)) (dot3 b c) in
      Ok (dadd total (dmul (of_int 2) (m_atan2 numerator denominator)))) dzero in
    Ok (SFabs total).
End Area.

Definition spherical_degenerate (a b : point) : bool := SFltb (spherical_length_sq (cross3 a b)) edge_tol.
Definition spherical_signed_distance (a b p : point) : double := dot3 (cross3 a b) p.

Definition spherical_compute_intersection (edge_a edge_b v1 v2 : point) : point :=
  let n1 := cross3 edge_a edge_b in
  let n2 := cross3 v1 v2 in
  let d := cross3 n1 n2 in
  if SFltb (spherical_length_sq d) edge_tol then spherical_normalize (add3 v1 v2)
  else
    let candidate := spherical_normalize d in
    let mid_dir := spherical_normalize (add3 v1 v2) in
    if SFltb (dot3 candidate mid_dir) dzero then spherical_negate candidate else candidate.

Definition spherical_clip (subject clip_poly : list point) : result (list point) :=
  clip_polygon spherical_degenerate spherical_signed_distance spherical_compute_intersection subject clip_poly.

Definition spherical_overlap_area `{!Libm} (a b : list point) : result double := let! p := spherical_clip a b in spherical_area p.

(** * Specification *)

(** The vertex before and after each vertex of a ring. *)
Definition before {V} (l : list V) : list V := drop (length l - 1) l ++ take (length l - 1) l.
Definition after {V} (l : list V) : list V := drop 1 l ++ take 1 l.

(** The edges of a ring. *)
Definition ring_edges {V} (l : list V) : list (V * V) := zip l (after l).

Section Stage.
Context {V : Type} (inside : V -> bool) (crossing : V -> V -> V).

(** What the edge from [prev] to [curr] adds. *)
Definition emitted (prev curr : V) : list V :=
  if inside curr then (if inside prev then [curr] else [crossing prev curr; curr])
  else if inside prev then [crossing prev curr] else [].

(** The polygon cut along a line. *)
Definition cut (l : list V) : list V := concat (zip_with emitted (before l) l).
End Stage.

Section Clipped.
Context {V : Type} (degenerate : V -> V -> bool) (signed_distance : V -> V -> V -> double) (compute_intersection : V -> V -> V -> V -> V).

(** Cut along every edge that is not degenerate, keeping [cap] vertices at most, until fewer than three are left. *)
Fixpoint cut_along (cap : nat -> nat) (edges : list (V * V)) (l : list V) : list V :=
  match edges with
  | [] => l
  | (a, b) :: edges =>
      if degenerate a b then cut_along cap edges l
      else
        let l' := cut (inside (signed_distance a b)) (compute_intersection a b) l in
        let l' := take (cap (length l')) l' in
        if (length l' <? 3)%nat then [] else cut_along cap edges l'
  end.

Definition clipped (cap : nat -> nat) (subject clip_poly : list V) : list V :=
  if (length subject <? 3)%nat || (length clip_poly <? 3)%nat then [] else cut_along cap (ring_edges clip_poly) subject.

(** A polygon that lies within, or beyond, an edge. *)
Definition within (l : list V) (e : V * V) : Prop := degenerate (fst e) (snd e) = true \/ Forall (fun v => inside (signed_distance (fst e) (snd e)) v = true) l.
Definition beyond_edge (l : list V) (e : V * V) : Prop :=
  degenerate (fst e) (snd e) = false /\ Forall (fun v => inside (signed_distance (fst e) (snd e)) v = false) l.
End Clipped.

(** The capacity of the polygons, and none. *)
Definition capacity (n : nat) : nat := MaxVerts.
Definition unbounded (n : nat) : nat := n.

(** * Lemmas *)

(** ** Rings *)

Lemma before_length {V} (l : list V) : length (before l) = length l.
Proof. unfold before. rewrite length_app, length_drop, length_take. lia. Qed.

Lemma after_length {V} (l : list V) : length (after l) = length l.
Proof. unfold after. rewrite length_app, length_drop, length_take. lia. Qed.

Lemma before_lookup {V} (l : list V) i : (i < length l)%nat -> before l !! i = l !! ((i + length l - 1) mod length l)%nat.
Proof.
  intros Hi. unfold before. destruct (decide (i = 0)%nat) as [->|Hne].
  - rewrite lookup_app_l by (rewrite length_drop; lia). rewrite lookup_drop. rewrite Nat.mod_small by lia. f_equal. lia.
  - rewrite lookup_app_r by (rewrite length_drop; lia). rewrite length_drop, lookup_take_lt by lia.
    replace (i + length l - 1)%nat with (i - 1 + 1 * length l)%nat by lia. rewrite Nat.Div0.mod_add, Nat.mod_small by lia. f_equal. lia.
Qed.

Lemma after_lookup {V} (l : list V) i : (i < length l)%nat -> after l !! i = l !! ((i + 1) mod length l)%nat.
Proof.
  intros Hi. unfold after. destruct (decide (i + 1 < length l)%nat) as [Hlt|Hge].
  - rewrite lookup_app_l by (rewrite length_drop; lia). rewrite lookup_drop, Nat.mod_small by lia. f_equal. lia.
  - rewrite lookup_app_r by (rewrite length_drop; lia). rewrite length_drop, lookup_take_lt by lia.
    replace (i + 1)%nat with (length l) by lia. rewrite Nat.Div0.mod_same. f_equal. lia.
Qed.

Lemma read_before {V} (l : list V) i : (i < length l)%nat -> exists v, read l (Z.rem (Z.of_nat i + Z.of_nat (length l) - 1) (Z.of_nat (length l))) = Ok v /\ before l !! i = Some v.
Proof.
  intros Hi. destruct (lookup_lt_is_Some_2 (before l) i) as [v Hv]; [by rewrite before_length|]. exists v. split; [|done].
  rewrite before_lookup in Hv by done. rewrite Z.rem_mod_nonneg by lia.
  replace (Z.of_nat i + Z.of_nat (length l) - 1) with (Z.of_nat (i + length l - 1)) by lia. rewrite <- Nat2Z.inj_mod. by apply read_nat.
Qed.

Lemma read_after {V} (l : list V) i : (i < length l)%nat -> exists v, read l (Z.rem (Z.of_nat i + 1) (Z.of_nat (length l))) = Ok v /\ after l !! i = Some v.
Proof.
  intros Hi. destruct (lookup_lt_is_Some_2 (after l) i) as [v Hv]; [by rewrite after_length|]. exists v. split; [|done].
  rewrite after_lookup in Hv by done. rewrite Z.rem_mod_nonneg by lia.
  replace (Z.of_nat i + 1) with (Z.of_nat (i + 1)) by lia. rewrite <- Nat2Z.inj_mod. by apply read_nat.
Qed.

(** ** Pushing *)

Lemma push_take {V} (l : list V) v : push (take MaxVerts l) v = take MaxVerts (l ++ [v]).
Proof.
  unfold push. rewrite length_take. destruct (Nat.ltb_spec (MaxVerts `min` length l) MaxVerts) as [Hlt|Hge].
  - rewrite (take_ge l) by lia. by rewrite take_ge by (rewrite length_app; cbn [length]; lia).
  - by rewrite take_app_le by lia.
Qed.

Section Edge_lemmas.
Context {V : Type} (signed_distance : V -> double) (compute_intersection : V -> V -> V).

Lemma clip_vertex_ok l i prev curr out : l !! i = Some curr -> before l !! i = Some prev ->
  clip_vertex signed_distance compute_intersection l i (take MaxVerts out)
  = Ok (take MaxVerts (out ++ emitted (inside signed_distance) compute_intersection prev curr)).
Proof.
  intros Hc Hp. pose proof (lookup_lt_Some _ _ _ Hc) as Hi. unfold clip_vertex, emitted. destruct (read_before l i Hi) as (v & -> & Ev). simplify_eq.
  rewrite (read_nat _ _ _ Hc). cbn [bind]. destruct (inside signed_distance curr), (inside signed_distance prev); cbn [negb]; rewrite ?push_take; try done.
  - by rewrite <- (assoc_L app).
  - by rewrite app_nil_r.
Qed.

Lemma clip_against_edge_ok l : clip_against_edge signed_distance compute_intersection l
  = Ok (take MaxVerts (cut (inside signed_distance) compute_intersection l)).
Proof.
  unfold clip_against_edge, cut. set (em := emitted (inside signed_distance) compute_intersection).
  destruct (for_each_inv (fun i t => t = take MaxVerts (concat (take i (zip_with em (before l) l)))) (length l)
    (clip_vertex signed_distance compute_intersection l) []) as (t & -> & ->); [|done|].
  - intros i t Hi ->. destruct (lookup_lt_is_Some_2 l i Hi) as [curr Hc]. destruct (lookup_lt_is_Some_2 (before l) i) as [prev Hp]; [by rewrite before_length|].
    rewrite (clip_vertex_ok _ _ prev curr) by done. eexists. split; [done|]. change (1 + i)%nat with (S i).
    rewrite (take_S_r _ i (em prev curr)), concat_app by (apply lookup_zip_with_Some; by exists prev, curr). cbn [concat]. by rewrite app_nil_r.
  - f_equal. f_equal. f_equal. apply take_ge. rewrite length_zip_with. lia.
Qed.
End Edge_lemmas.

Section Polygon_lemmas.
Context {V : Type} (degenerate : V -> V -> bool) (signed_distance : V -> V -> V -> double) (compute_intersection : V -> V -> V -> V -> V).

Lemma clip_edges_ok poly k l : (k <= length poly)%nat ->
  clip_edges degenerate signed_distance compute_intersection poly (seq k (length poly - k)) l
  = Ok (cut_along degenerate signed_distance compute_intersection capacity (drop k (ring_edges poly)) l).
Proof.
  remember (length poly - k)%nat as m eqn:Em. revert k l Em. induction m as [|m IH]; intros k l Em Hk.
  - rewrite drop_ge; [done|]. unfold ring_edges. rewrite length_zip_with. lia.
  - destruct (lookup_lt_is_Some_2 poly k) as [a Ha]; [lia|]. destruct (read_after poly k) as (b & Eb & Hb); [lia|].
    rewrite (drop_S _ (a, b)) by (apply lookup_zip_with_Some; by exists a, b). cbn [seq clip_edges cut_along].
    rewrite (read_nat _ _ _ Ha), Eb. cbn [bind]. destruct (degenerate a b); [apply IH; lia|]. rewrite clip_against_edge_ok. cbn [bind]. unfold empty, capacity.
    destruct (length (take MaxVerts _) <? 3)%nat; [done|]. apply IH; lia.
Qed.

Lemma clip_polygon_ok s c : clip_polygon degenerate signed_distance compute_intersection s c
  = Ok (clipped degenerate signed_distance compute_intersection capacity s c).
Proof.
  unfold clip_polygon, clipped, empty. destruct (_ || _); [done|]. pose proof (clip_edges_ok c 0 s ltac:(lia)) as E. by rewrite Nat.sub_0_r in E.
Qed.
End Polygon_lemmas.

(** ** Cuts *)

Lemma before_perm {V} (l : list V) : before l ≡ₚ l.
Proof. unfold before. by rewrite (comm app), take_drop. Qed.

Section Cut_lemmas.
Context {V : Type} (inside : V -> bool) (crossing : V -> V -> V).

Definition count (l : list V) : nat := length (filter (fun v => inside v = true) l).

Lemma emitted_length prev curr : (2 * length (emitted inside crossing prev curr) + count [prev] <= 3 + count [curr])%nat.
Proof. unfold emitted, count. rewrite !filter_cons, !filter_nil. repeat case_decide; destruct (inside curr), (inside prev); cbn; done || lia. Qed.

(** A cut has at most half again as many vertices, since it is entered as often as it is left. *)
Lemma cut_length l : (2 * length (cut inside crossing l) <= 3 * length l)%nat.
Proof.
  assert (Hz : forall p q : list V, length p = length q ->
    (2 * length (concat (zip_with (emitted inside crossing) p q)) + count p <= 3 * length q + count q)%nat).
  { induction p as [|x p IH]; intros [|y q] Hl; try done. injection Hl as Hl. specialize (IH q Hl). cbn [zip_with concat length]. rewrite length_app.
    pose proof (emitted_length x y) as He. unfold count in *. change (x :: p) with ([x] ++ p). change (y :: q) with ([y] ++ q).
    rewrite !list.filter_app, !length_app. lia. }
  specialize (Hz (before l) l (before_length l)). assert (Hc : count (before l) = count l) by (unfold count; by rewrite before_perm). unfold cut. lia.
Qed.

Lemma cut_within l : Forall (fun v => inside v = true) l -> cut inside crossing l = l.
Proof.
  intros Hl. assert (Hb : Forall (fun v => inside v = true) (before l)) by (by rewrite before_perm).
  unfold cut. pose proof (before_length l) as Hn. revert Hb Hn. generalize (before l). intros p. revert l Hl. induction p as [|x p IH]; intros [|y q] Hl Hb Hn; try done.
  inversion Hl as [|? ? Hy Hq]; inversion Hb as [|? ? Hx Hp]; subst. cbn [zip_with concat]. unfold emitted at 1. rewrite Hx, Hy. cbn [app]. f_equal. apply IH; [done..|]. by injection Hn.
Qed.

Lemma cut_beyond l : Forall (fun v => inside v = false) l -> cut inside crossing l = [].
Proof.
  intros Hl. assert (Hb : Forall (fun v => inside v = false) (before l)) by (by rewrite before_perm).
  unfold cut. pose proof (before_length l) as Hn. revert Hb Hn. generalize (before l). intros p. revert l Hl. induction p as [|x p IH]; intros [|y q] Hl Hb Hn; try done.
  inversion Hl as [|? ? Hy Hq]; inversion Hb as [|? ? Hx Hp]; subst. cbn [zip_with concat]. unfold emitted at 1. rewrite Hx, Hy. cbn [app]. apply IH; [done..|]. by injection Hn.
Qed.
End Cut_lemmas.

Section Clipped_lemmas.
Context {V : Type} (degenerate : V -> V -> bool) (signed_distance : V -> V -> V -> double) (compute_intersection : V -> V -> V -> V -> V).

(** What [k] cuts can make of [n] vertices. *)
Definition half_more (n : nat) : nat := (n + n / 2)%nat.
Definition grown (k n : nat) : nat := Nat.iter k half_more n.

Lemma half_more_mono n m : (n <= m)%nat -> (half_more n <= half_more m)%nat.
Proof. intros Hn. unfold half_more. apply Nat.add_le_mono; [done|]. by apply Nat.Div0.div_le_mono. Qed.

Lemma grown_mono k n m : (n <= m)%nat -> (grown k n <= grown k m)%nat.
Proof. intros Hn. induction k as [|k IH]; [done|]. by apply half_more_mono. Qed.

Lemma grown_ge k n : (n <= grown k n)%nat.
Proof. induction k as [|k IH]; [done|]. etransitivity; [exact IH|]. apply Nat.le_add_r. Qed.

Lemma grown_S k n : grown (S k) n = grown k (half_more n).
Proof. unfold grown. by rewrite Nat.iter_succ_r. Qed.

Lemma cut_along_unbounded edges l : (grown (length edges) (length l) <= MaxVerts)%nat ->
  cut_along degenerate signed_distance compute_intersection capacity edges l = cut_along degenerate signed_distance compute_intersection unbounded edges l.
Proof.
  revert l. induction edges as [|[a b] edges IH]; intros l Hg; [done|]. cbn [length] in Hg. rewrite grown_S in Hg. cbn [cut_along].
  destruct (degenerate a b); [apply IH; etransitivity; [apply grown_mono, Nat.le_add_r|exact Hg]|].
  set (l' := cut _ _ l). pose proof (cut_length (inside (signed_distance a b)) (compute_intersection a b) l) as Hl. fold l' in Hl.
  assert (Hle : (length l' <= half_more (length l))%nat).
  { unfold half_more. pose proof (Nat.div_mod (length l) 2 ltac:(lia)). pose proof (Nat.mod_upper_bound (length l) 2 ltac:(lia)). lia. }
  pose proof (grown_ge (length edges) (half_more (length l))) as Hge. unfold capacity, unbounded. rewrite !take_ge by lia.
  destruct (length l' <? 3)%nat; [done|]. apply IH. etransitivity; [apply grown_mono; exact Hle|exact Hg].
Qed.

Lemma cut_along_within edges rest l : (3 <= length l <= MaxVerts)%nat -> Forall (within degenerate signed_distance l) edges ->
  cut_along degenerate signed_distance compute_intersection capacity (edges ++ rest) l = cut_along degenerate signed_distance compute_intersection capacity rest l.
Proof.
  intros Hl. induction 1 as [|[a b] edges [Hd|Hi] _ IH]; [done|..]; cbn [app cut_along fst snd] in *; [by rewrite Hd|].
  destruct (degenerate a b); [exact IH|]. rewrite cut_within by done.
  assert (Et : take (capacity (length l)) l = l) by (apply take_ge; unfold capacity; lia). rewrite Et.
  rewrite (proj2 (Nat.ltb_ge _ _)) by lia. exact IH.
Qed.

Lemma cut_along_beyond e rest l : beyond_edge degenerate signed_distance l e ->
  cut_along degenerate signed_distance compute_intersection capacity (e :: rest) l = [].
Proof. destruct e as [a b]. intros [Hd Hi]. cbn [cut_along fst snd] in *. rewrite Hd, cut_beyond by done. by rewrite take_nil. Qed.

Lemma clipped_within s c : (3 <= length s <= MaxVerts)%nat -> (3 <= length c)%nat -> Forall (within degenerate signed_distance s) (ring_edges c) ->
  clipped degenerate signed_distance compute_intersection capacity s c = s.
Proof.
  intros Hs Hc Hw. unfold clipped. rewrite !(proj2 (Nat.ltb_ge _ 3)) by lia. cbn [orb].
  pose proof (cut_along_within (ring_edges c) [] s Hs Hw) as E. by rewrite app_nil_r in E.
Qed.

Lemma clipped_beyond s c es e es' : (length s <= MaxVerts)%nat -> ring_edges c = es ++ e :: es' -> Forall (within degenerate signed_distance s) es ->
  beyond_edge degenerate signed_distance s e -> clipped degenerate signed_distance compute_intersection capacity s c = [].
Proof.
  intros Hs Ec Hw Hb. unfold clipped. destruct (Nat.ltb_spec (length s) 3); [done|]. cbn [orb]. destruct (length c <? 3)%nat; [done|].
  rewrite Ec, cut_along_within by (done || lia). by apply cut_along_beyond.
Qed.

Lemma clipped_unbounded s c : (length s <= 4)%nat -> (length c <= 4)%nat ->
  clipped degenerate signed_distance compute_intersection capacity s c = clipped degenerate signed_distance compute_intersection unbounded s c.
Proof.
  intros Hs Hc. unfold clipped. destruct (_ || _); [done|]. apply cut_along_unbounded.
  assert (Hr : (length (ring_edges c) <= 4)%nat) by (unfold ring_edges; rewrite length_zip_with, after_length; lia).
  etransitivity; [apply grown_mono; exact Hs|]. revert Hr. generalize (length (ring_edges c)). intros k Hk.
  destruct k as [|[|[|[|[|k]]]]]; [apply Nat.leb_le; reflexivity..|lia].
Qed.
End Clipped_lemmas.

(** ** Areas *)

(** The loop over the triangles of a fan. *)
Lemma fan_loop {V S} (f : S -> V -> V -> S) p (s : S) : (3 <= length p)%nat ->
  for_each (seq 1 (length p - 2)) (fun i t => let! b := read p (Z.of_nat i) in let! c := read p (Z.of_nat i + 1) in Ok (f t b c)) s
  = Ok (foldl (fun t e => f t (fst e) (snd e)) s (zip (tail p) (tail (tail p)))).
Proof.
  intros Hp. rewrite (for_each_shift 1 0 (length p - 2) _ (fun i t => let! b := read (tail p) (Z.of_nat i) in let! c := read (tail (tail p)) (Z.of_nat i) in Ok (f t b c))).
  - destruct (for_each_inv (fun i t => t = foldl (fun t e => f t (fst e) (snd e)) s (take i (zip (tail p) (tail (tail p))))) (length p - 2)
      (fun i t => let! b := read (tail p) (Z.of_nat i) in let! c := read (tail (tail p)) (Z.of_nat i) in Ok (f t b c)) s) as (t & -> & ->); [|done|].
    + intros i t Hi ->. destruct (lookup_lt_is_Some_2 (tail p) i) as [b Hb]; [rewrite length_tl; lia|].
      destruct (lookup_lt_is_Some_2 (tail (tail p)) i) as [c Hc]; [rewrite !length_tl; lia|].
      rewrite (read_nat _ _ _ Hb), (read_nat _ _ _ Hc). cbn [bind]. eexists. split; [done|]. change (1 + i)%nat with (Datatypes.S i).
      rewrite (take_S_r _ i (b, c)) by (apply lookup_zip_with_Some; by exists b, c). by rewrite foldl_app.
    + f_equal. f_equal. apply take_ge. rewrite length_zip_with, !length_tl. lia.
  - intros i t Hi%elem_of_seq. destruct p as [|a [|b p]]; cbn [length] in *; [lia..|].
    destruct (lookup_lt_is_Some_2 (b :: p) i) as [x Hx]; [cbn; lia|]. destruct (lookup_lt_is_Some_2 p i) as [y Hy]; [lia|]. cbn [tail].
    rewrite (read_nat (b :: p) i x), (read_nat p i y) by done. rewrite (read_nat (a :: b :: p) (1 + i) x) by done. cbn [bind].
    replace (Z.of_nat (1 + i) + 1) with (Z.of_nat (2 + i)) by lia. by rewrite (read_nat (a :: b :: p) (2 + i) y).
Qed.

(** The areas of a list of vertices: a fan of triangles from the first one. *)
Definition planar_triangle (v0 : planar_vertex) (a : double) (v1 v2 : planar_vertex) : double :=
  dadd a (dsub (dmul (dsub (fst v1) (fst v0)) (dsub (snd v2) (snd v0))) (dmul (dsub (fst v2) (fst v0)) (dsub (snd v1) (snd v0)))).

Definition planar_fan (p : list planar_vertex) : double :=
  match p with
  | v0 :: rest =>
      if (length p <? 3)%nat then dzero
      else dmul (SFabs (foldl (fun a e => planar_triangle v0 a (fst e) (snd e)) dzero (zip rest (tail rest)))) half
  | [] => dzero
  end.

Definition spherical_triangle `{!Libm} (a : point) (total : double) (b c : point) : double :=
  dadd total (dmul (of_int 2) (m_atan2 (dot3 a (cross3 b c)) (dadd (dadd (dadd one (dot3 a b)) (dot3 a c)) (dot3 b c)))).

Definition spherical_fan `{!Libm} (p : list point) : double :=
  match p with
  | a :: rest =>
      if (length p <? 3)%nat then dzero
      else SFabs (foldl (fun total e => spherical_triangle a total (fst e) (snd e)) dzero (zip rest (tail rest)))
  | [] => dzero
  end.

Lemma planar_area_ok p : planar_area p = Ok (planar_fan p).
Proof.
  unfold planar_area, planar_fan. destruct p as [|v0 rest]; [done|]. destruct (Nat.ltb_spec (length (v0 :: rest)) 3); [done|].
  change (read (v0 :: rest) 0) with (Ok v0). cbn [bind]. by rewrite (fan_loop (planar_triangle v0) (v0 :: rest)) by done.
Qed.

Lemma spherical_area_ok `{!Libm} p : spherical_area p = Ok (spherical_fan p).
Proof.
  unfold spherical_area, spherical_fan. destruct p as [|a rest]; [done|]. destruct (Nat.ltb_spec (length (a :: rest)) 3); [done|].
  change (read (a :: rest) 0) with (Ok a). cbn [bind]. pose proof (fan_loop (spherical_triangle a) (a :: rest) dzero ltac:(done)) as El.
  unfold spherical_triangle at 1 in El. by rewrite El.
Qed.

Lemma abs_not_negative x : SFltb (SFabs x) dzero = false.
Proof. by destruct x as [[]|[]| |[]]. Qed.

Lemma half_not_negative x : SFltb (dmul (SFabs x) half) dzero = false.
Proof.
  destruct x as [[]|[]| |s m e]; try done. unfold half, dmul. cbn [SFabs SFmul xorb].
  by destruct (round_sign false (Zpos (m * 4503599627370496)) (e + -53) loc_Exact ltac:(lia)) as [-> |[-> |(q & g & ->)]].
Qed.

Lemma planar_fan_sign p : SFltb (planar_fan p) dzero = false.
Proof. destruct p as [|v p]; [done|]. unfold planar_fan. destruct (_ <? 3)%nat; [done|apply half_not_negative]. Qed.

Lemma spherical_fan_sign `{!Libm} p : SFltb (spherical_fan p) dzero = false.
Proof. destruct p as [|v p]; [done|]. unfold spherical_fan. destruct (_ <? 3)%nat; [done|apply abs_not_negative]. Qed.

Lemma planar_overlap_ok s c : planar_overlap_area s c
  = Ok (planar_fan (clipped planar_degenerate planar_signed_distance planar_compute_intersection capacity s c)).
Proof. unfold planar_overlap_area. rewrite clip_polygon_ok. apply planar_area_ok. Qed.

Lemma spherical_overlap_ok `{!Libm} s c : spherical_overlap_area s c
  = Ok (spherical_fan (clipped spherical_degenerate spherical_signed_distance spherical_compute_intersection capacity s c)).
Proof. unfold spherical_overlap_area, spherical_clip. rewrite clip_polygon_ok. apply spherical_area_ok. Qed.

(** * Properties *)

(** What a clipper promises, given the distance of a vertex from an edge, the crossing of an
    edge and the area of a polygon.  The overlap is the area of the polygon that is left when the
    subject is cut along every edge in turn, with 32 vertices at most; between polygons of
    four vertices the limit is never met.  A polygon that lies within every edge is kept
    whole; one that is beyond an edge, and within the edges before it, is lost.  The
    overlap is never negative. *)
Definition clips {V} (degenerate : V -> V -> bool) (distance : V -> V -> V -> double) (crossing : V -> V -> V -> V -> V)
  (overlap : list V -> list V -> result double) (area : list V -> double) : Prop := forall s c,
  overlap s c = Ok (area (clipped degenerate distance crossing capacity s c)) /\
  ((length s <= 4)%nat -> (length c <= 4)%nat ->
     clipped degenerate distance crossing capacity s c = clipped degenerate distance crossing unbounded s c) /\
  ((3 <= length s <= MaxVerts)%nat -> (3 <= length c)%nat -> Forall (within degenerate distance s) (ring_edges c) -> overlap s c = Ok (area s)) /\
  (forall es e es', (length s <= MaxVerts)%nat -> ring_edges c = es ++ e :: es' -> Forall (within degenerate distance s) es ->
     beyond_edge degenerate distance s e -> overlap s c = Ok dzero) /\
  SFltb (area (clipped degenerate distance crossing capacity s c)) dzero = false.

Lemma clips_intro {V} degenerate distance crossing overlap area :
  (forall s c : list V, overlap s c = Ok (area (clipped degenerate distance crossing capacity s c))) ->
  area [] = dzero -> (forall p, SFltb (area p) dzero = false) -> clips degenerate distance crossing overlap area.
Proof.
  intros Ho H0 Hp s c. split; [done|]. split; [apply clipped_unbounded|]. split; [|split; [|done]].
  - intros Hs Hc Hw. rewrite Ho. by rewrite clipped_within.
  - intros es e es' Hs Ec Hw Hb. rewrite Ho. by rewrite (clipped_beyond _ _ _ s c es e es'), H0.
Qed.

(** C36. [PlanarClipper] and [SphericalClipper] of planar_clipper.hpp and spherical_clipper.hpp, on any two
    polygons, however they wind and whatever their coordinates: no array is left, and the
    overlap is what the algorithm of Sutherland and Hodgman gives on lists.  See [clips] for what
    that comprises. *)
Theorem overlap_area_correct `{!Libm} :
  clips planar_degenerate planar_signed_distance planar_compute_intersection planar_overlap_area planar_fan /\
  clips spherical_degenerate spherical_signed_distance spherical_compute_intersection spherical_overlap_area spherical_fan.
Proof.
  split; apply clips_intro; [apply planar_overlap_ok|done|apply planar_fan_sign|apply spherical_overlap_ok|done|apply spherical_fan_sign].
Qed.

(** * Examples *)

Definition square (x y side : Z) : list planar_vertex :=
  [(of_int x, of_int y); (of_int (x + side), of_int y); (of_int (x + side), of_int (y + side)); (of_int x, of_int (y + side))].

(** A square cut by another one that is shifted. *)
Example quarter : planar_overlap_area (square 0 0 2) (square 1 1 2) = Ok one.
Proof. vm_compute. reflexivity. Qed.

(** A clip polygon that winds the other way has its inside without: nothing is left. *)
Example clockwise_clips_all : planar_overlap_area (square 0 0 2) (reverse (square 0 0 2)) = Ok dzero.
Proof. vm_compute. reflexivity. Qed.

(** A polygon that reaches the capacity loses vertices: a comb of 15 teeth has 47 vertices above
    a line that cuts the teeth. *)
Definition comb (n : nat) : list planar_vertex :=
  concat ((fun k => let x := 4 * Z.of_nat k in [(of_int x, of_int (-1)); (of_int (x + 1), of_int 1)]) <$> seq 0 n) ++ [(of_int 100, of_int 2); (of_int (-100), of_int 2)].

Example teeth_are_lost :
  let upper := planar_signed_distance (of_int (-200), dzero) (of_int 200, dzero) in
  (length (comb 15), length (cut (inside upper) (planar_compute_intersection (of_int (-200), dzero) (of_int 200, dzero)) (comb 15)),
   (let! p := clip_against_edge upper (planar_compute_intersection (of_int (-200), dzero) (of_int 200, dzero)) (comb 15) in Ok (length p))) = (32, 47, Ok 32)%nat.
Proof. vm_compute. reflexivity. Qed.
