(* ===== verification/ConservativeSearch.v ===== *)
(** * AXIS: conservative weights in the plane, by search
    (src/libs/axis/include/axis/detail/dateline_handler.hpp, degenerate_cell_handler.hpp,
    src/libs/axis/src/solver/weight_generator.cpp: compute_cell_aabbs, generate_conservative_impl<2>)

    Between any two meshes, a tree of bounding boxes gives the candidates for each destination
    cell, and polygon clipping their overlaps.  The threads of a parallel loop take the slots of
    the result from an atomic counter, so that the entries of different rows interleave in
    whatever way; what is shown holds for every interleaving. *)
From Stdlib Require Import ZArith Lia SpecFloat.
From stdpp Require Import base list numbers.
From S2P Require Import Prelude CInt Blend KokkosArrays InterpolationMatrix AxisMesh StructuredGrid Magnitude UnitInterval DoubleOrder RegularGrid BilinearRect ConservativeRect CoastalMask NearestWeights PolygonClip.
Local Open Scope Z_scope.

(** ** Cells across the date line *)

Definition two_pi : double := dmul (of_int 2) PI.

(** The loop that returns at the first wide gap; the gap that is brought into [-pi, pi] first is
    not used. *)
Fixpoint crosses_from (lons : list double) (order : list nat) : result bool :=
  match order with
  | [] => Ok false
  | i :: order =>
      let! a := read lons (Z.of_nat i) in
      let! b := read lons (Z.rem (Z.of_nat i + 1) (Z.of_nat (length lons))) in
      let raw_diff := dsub b a in
      if SFltb PI raw_diff || SFltb raw_diff (SFopp PI) then Ok true else crosses_from lons order
  end.

Definition crosses_dateline (lons : list double) : result bool :=
  if (length lons <? 2)%nat then Ok false else crosses_from lons (seq 0 (length lons)).

(** [while (x < 0.0) x += two_pi;] and [while (x >= two_pi) x -= two_pi;]: a loop that goes on
    without an effect forever has no meaning. *)
Fixpoint add_two_pi (fuel : nat) (x : double) : result double :=
  if SFltb x dzero then match fuel with O => Undef | S fuel => add_two_pi fuel (dadd x two_pi) end else Ok x.
Fixpoint sub_two_pi (fuel : nat) (x : double) : result double :=
  if SFleb two_pi x then match fuel with O => Undef | S fuel => sub_two_pi fuel (dsub x two_pi) end else Ok x.

(** More turns than a number that the loops can bring into the circle takes. *)
Definition turns_bound (x : double) : nat := match floorZ x with Some z => S (S (Z.to_nat (Z.abs z / 3))) | None => O end.

Definition into_circle (x : double) : result double :=
  let! x := add_two_pi (turns_bound x) x in
  sub_two_pi (turns_bound x) x.

(** [while (j >= 0 && sorted[j] > key)], from [j - 1] down; the place where it stops. *)
Fixpoint shift_up (sorted : list double) (j : nat) (key : double) : result (list double * nat) :=
  match j with
  | O => Ok (sorted, O)
  | S j' =>
      let! x := read sorted (Z.of_nat j') in
      if SFltb key x then let! sorted := write sorted (Z.of_nat j' + 1) x in shift_up sorted j' key else Ok (sorted, j)
  end.

Definition insertion_sort (sorted : list double) : result (list double) :=
  for_each (seq 1 (length sorted - 1)) (fun i sorted =>
    let! key := read sorted (Z.of_nat i) in
    let! '(sorted, place) := shift_up sorted i key in
    write sorted (Z.of_nat place) key) sorted.

(** [max_gap] and [gap_start] *)
Definition largest_gap (sorted : list double) : result (double * double) :=
  let count := length sorted in
  let! gap := for_each (seq 0 (count - 1)) (fun i gap =>
    let! a := read sorted (Z.of_nat i) in
    let! b := read sorted (Z.of_nat i + 1) in
    Ok (if SFltb (fst gap) (dsub b a) then (dsub b a, b) else gap)) (dzero, dzero) in
  let! first := read sorted 0 in
  let! last := read sorted (Z.of_nat count - 1) in
  let wrap_gap := dsub (dadd first two_pi) last in
  Ok (if SFltb (fst gap) wrap_gap then (wrap_gap, dadd first two_pi) else gap).

Definition dateline_normalize (lons : list double) : result (list double) :=
  if (length lons <? 2)%nat then Ok lons
  else
    let! lons := for_each (seq 0 (length lons)) (fun i lons =>
      let! x := read lons (Z.of_nat i) in
      let! x := into_circle x in
      write lons (Z.of_nat i) x) lons in
    let! sorted := insertion_sort (take MaxVerts lons) in
    let! gap := largest_gap sorted in
    let ref := snd gap in
    for_each (seq 0 (length lons)) (fun i lons =>
      let! x := read lons (Z.of_nat i) in
      let! shifted := into_circle (dsub x ref) in
      write lons (Z.of_nat i) (dadd shifted ref)) lons.

(** ** Degenerate cells *)

Inductive DegenerateType : Type := None_ | ZeroArea | CollapsedEdge | SelfIntersecting.

#[global] Instance DegenerateType_eq_dec : EqDecision DegenerateType.
Proof. solve_decision. Defined.

Definition DEFAULT_AREA_THRESHOLD : double := S754_finite false 8711228593176025 (-136).
Definition DEFAULT_EDGE_THRESHOLD : double := S754_finite false 5070602400912918 (-102).

Record DegenerateCellReport : Type := mkReport {
  excluded_indices : list Z;
  excluded_types : list DegenerateType;
  total_cells : nat;
  degenerate_count : nat
}.

(** [cell.verts[i]]: the bounds of the loops keep [i] below [cell.n]. *)
Definition vert (cell : list point) (i : nat) : point := default (dzero, dzero, dzero) (cell !! i).

Definition vertex_difference (a b : point) : point :=
  let '(ax, ay, az) := a in let '(bx, by_, bz) := b in (dsub ax bx, dsub ay by_, dsub az bz).

Definition count_unique_vertices (cell : list point) (threshold : double) : nat :=
  if (length cell <? 1)%nat then 0%nat
  else
    let thresh_sq := dmul threshold threshold in
    foldl (fun unique i =>
      let duplicate := existsb (fun j => SFltb (spherical_length_sq (vertex_difference (vert cell i) (vert cell j))) thresh_sq) (seq 0 i) in
      if duplicate then unique else S unique) 1%nat (seq 1 (length cell - 1)).

Definition edges_intersect (a b c d : point) : bool :=
  let n_ab := cross3 a b in
  let dc := dot3 n_ab c in
  let dd := dot3 n_ab d in
  if SFleb dzero (dmul dc dd) then false
  else
    let n_cd := cross3 c d in
    let da := dot3 n_cd a in
    let db := dot3 n_cd b in
    if SFleb dzero (dmul da db) then false else true.

Definition is_self_intersecting (cell : list point) : bool :=
  let n := length cell in
  if (n <? 4)%nat then false
  else
    existsb (fun i =>
      existsb (fun j =>
        let j_next := ((j + 1) mod n)%nat in
        if (j_next =? i)%nat then false
        else edges_intersect (vert cell i) (vert cell ((i + 1) mod n)) (vert cell j) (vert cell j_next)) (seq (i + 2) (n - (i + 2)))) (seq 0 n).

Section Scan.
Context `{!Libm}.

Definition classify (cell : list point) (area_threshold edge_threshold : double) : result DegenerateType :=
  if (length cell <? 3)%nat then Ok ZeroArea
  else
    let! a := spherical_area cell in
    Ok (if SFltb a area_threshold then ZeroArea
        else if (count_unique_vertices cell edge_threshold <? 3)%nat then CollapsedEdge
        else if is_self_intersecting cell then SelfIntersecting
        else None_).

(** The polygon of a cell: coordinates of three dimensions are taken as they are, others as
    degrees, whatever the coordinate system. *)
Definition scan_vertex (m : UnstructuredMesh) (node_idx : Z) : result point :=
  if (3 <=? extent1 (node_coords m))%nat then node_xyz (node_coords m) node_idx
  else node_on_sphere (node_coords m) DEG_TO_RAD node_idx.

Definition scan_polygon (m : UnstructuredMesh) (ci : nat) : result (list point) :=
  let! start := read (conn_offsets m) (Z.of_nat ci) in
  let! end_ := read (conn_offsets m) (Z.of_nat ci + 1) in
  let! width := arith I64 (end_ - start) in
  let n_verts := cast_int width in
  for_each (seq 0 (Z.to_nat n_verts `min` MaxVerts)) (fun vi poly =>
    let! node_idx := read (conn_indices m) (start + Z.of_nat vi) in
    let! v := scan_vertex m node_idx in
    Ok (push poly v)) [].

(** [scan] with the default thresholds and without a callback *)
Definition scan_cells (m : UnstructuredMesh) : result DegenerateCellReport :=
  for_each (seq 0 (n_cells m)) (fun ci report =>
    let! poly := scan_polygon m ci in
    let! dtype := classify poly DEFAULT_AREA_THRESHOLD DEFAULT_EDGE_THRESHOLD in
    if decide (dtype = None_) then Ok report
    else Ok (mkReport (excluded_indices report ++ [to_index (Z.of_nat ci)]) (excluded_types report ++ [dtype]) (total_cells report) (S (degenerate_count report))))
    (mkReport [] [] (n_cells m) 0).

(** [src_degenerate] and [dst_degenerate] *)
Definition degenerate_flags (m : UnstructuredMesh) : result (list bool) :=
  let! report := scan_cells m in
  for_each (seq 0 (length (excluded_indices report))) (fun k marks =>
    let! idx := read (excluded_indices report) (Z.of_nat k) in
    write marks (to_u64 idx) true) (replicate (n_cells m) false).
End Scan.

(** ** Bounding boxes *)

(** [ArborX::Box<2>]: the corners are [float]s. *)
Record Box2 : Type := mkBox { min_x : spec_float; min_y : spec_float; max_x : spec_float; max_y : spec_float }.

Definition box_of_numbers (b : Box2) : bool := forallb (fun x => negb (isnan x)) [min_x b; min_y b; max_x b; max_y b].

(** Boxes that have a point in common. *)
Definition meet (a b : Box2) : bool :=
  negb (SFltb (max_x b) (min_x a) || SFltb (max_x a) (min_x b) || SFltb (max_y b) (min_y a) || SFltb (max_y a) (min_y b)).

(** A query of a tree of boxes has the numbers of boxes of the tree; those that meet the
    box that is asked for, in any order, when the corners are numbers. *)
Class BoxTree := {
  query : list Box2 -> Box2 -> list nat;
  query_boxes boxes q : Forall (fun i => i < length boxes)%nat (query boxes q);
  query_meets boxes q : Forall (fun b => box_of_numbers b = true) (q :: boxes) ->
    query boxes q ≡ₚ filter (fun i => match boxes !! i with Some b => meet b q | None => false end = true) (seq 0 (length boxes))
}.

(** [std::numeric_limits<double>::max()] *)
Definition double_max : double := S754_finite false 9007199254740991 971.

Definition widen_box (m : UnstructuredMesh) (i : Z) (b : (double * double) * (double * double)) : result ((double * double) * (double * double)) :=
  let '((min_x, min_y), (max_x, max_y)) := b in
  let! ni := read (conn_indices m) i in
  let! x := read2 (node_coords m) (to_u64 ni) 0 in
  let! y := read2 (node_coords m) (to_u64 ni) 1 in
  Ok ((std_min min_x x, std_min min_y y), (std_max max_x x, std_max max_y y)).

Definition cell_aabb (m : UnstructuredMesh) (c : nat) : result Box2 :=
  let! start := read (conn_offsets m) (Z.of_nat c) in
  let! end_ := read (conn_offsets m) (Z.of_nat c + 1) in
  let start := to_u64 start in
  let! b := for_each (seq 0 (Z.to_nat (to_u64 end_ - start))) (fun k b => widen_box m (start + Z.of_nat k) b)
    ((double_max, double_max), (SFopp double_max, SFopp double_max)) in
  let '((min_x, min_y), (max_x, max_y)) := b in
  Ok (mkBox (to_float min_x) (to_float min_y) (to_float max_x) (to_float max_y)).

(** [compute_cell_aabbs] without a tripolar grid *)
Definition compute_cell_aabbs (m : UnstructuredMesh) : result (list Box2) :=
  for_each (seq 0 (n_cells m)) (fun c boxes => let! b := cell_aabb m c in Ok (boxes ++ [b])) [].

(** ** The atomic counter *)

(** The sequences of the threads, merged: every step takes the next element of some thread. *)
Inductive interleaving {A} : list (list A) -> list A -> Prop :=
| interleaving_done ls : Forall (fun l => l = []) ls -> interleaving ls []
| interleaving_step ls i x l rest : ls !! i = Some (x :: l) -> interleaving (<[i := l]> ls) rest -> interleaving ls (x :: rest).

(** An entry in the buffers: row, column, weight and area of the overlap. *)
Definition CooEntry : Type := Z * (Z * (double * double)).

(** The order in which the threads of a parallel loop get their slots from the counter. *)
Class AtomicCounter := {
  merge : list (list CooEntry) -> list CooEntry;
  merge_interleaves ls : interleaving ls (merge ls)
}.

(** ** The generator *)

Section Generator.
Context `{!Libm, !AscendingSort, !BoxTree, !AtomicCounter}.

(** [dst_poly] and [src_poly] *)
Definition cell_polygon (m : UnstructuredMesh) (c : nat) : result (list planar_vertex) :=
  let! start := read (conn_offsets m) (Z.of_nat c) in
  let! end_ := read (conn_offsets m) (Z.of_nat c + 1) in
  let start := to_u64 start in
  let n_verts := cast_int (to_u64 (to_u64 end_ - start)) in
  let count := Z.to_nat (Z.min n_verts (Z.of_nat MaxVerts)) in
  let node (vi : nat) (k : nat) :=
    let! ni := read (conn_indices m) (to_u64 (start + Z.of_nat vi)) in
    read2 (node_coords m) (to_u64 ni) k in
  let! lons := for_each (seq 0 count) (fun vi lons => let! x := node vi 0%nat in Ok (lons ++ [x])) [] in
  let! crosses := if (2 <=? count)%nat then crosses_dateline lons else Ok false in
  let! lons := if crosses : bool then dateline_normalize lons else Ok lons in
  for_each (seq 0 count) (fun vi poly =>
    let! x := read lons (Z.of_nat vi) in
    let! y := node vi 1%nat in
    Ok (push poly (x, y))) [].

Section Loops.
Context (src_mesh dst_mesh : UnstructuredMesh).
Context (src_areas dst_areas : list double) (src_degenerate dst_degenerate : list bool) (src_boxes dst_boxes : list Box2).

(** A candidate [src_i] of destination cell [j]: the entry it adds. *)
Definition add_candidate (j : nat) (area_dst_j : double) (dst_poly : list planar_vertex) (src_i : nat) (entries : list CooEntry) : result (list CooEntry) :=
  let! m := masked src_mesh (Z.of_nat src_i) in
  if m : bool then Ok entries
  else
    let! d := read src_degenerate (Z.of_nat src_i) in
    if d : bool then Ok entries
    else
      let! area_src_i := read src_areas (Z.of_nat src_i) in
      if SFleb area_src_i dzero then Ok entries
      else
        let! src_poly := cell_polygon src_mesh src_i in
        let! overlap_area := planar_overlap_area src_poly dst_poly in
        if SFleb overlap_area dzero then Ok entries
        else
          let w_ij := ddiv overlap_area area_dst_j in
          let w_ij := if SFltb w_ij dzero then dzero else w_ij in
          Ok (entries ++ [(to_index (Z.of_nat j), (to_index (Z.of_nat src_i), (w_ij, overlap_area)))]).

(** The kernel for destination cell [j]: the entries it adds, in its own order. *)
Definition thread_entries (j : nat) : result (list CooEntry) :=
  let! m := masked dst_mesh (Z.of_nat j) in
  if m : bool then Ok []
  else
    let! d := read dst_degenerate (Z.of_nat j) in
    if d : bool then Ok []
    else
      let! area_dst_j := read dst_areas (Z.of_nat j) in
      if SFleb area_dst_j dzero then Ok []
      else
        let! dst_poly := cell_polygon dst_mesh j in
        let! box := read dst_boxes (Z.of_nat j) in
        for_each (query src_boxes box) (add_candidate j area_dst_j dst_poly) [].

(** [cartesian_overlap]: the buffers have a place for every candidate; the tree counts the
    candidates with an [int]. *)
Definition coo_entries : result (list CooEntry) :=
  let! threads := for_each (seq 0 (n_cells dst_mesh)) (fun j threads => let! l := thread_entries j in Ok (threads ++ [l])) [] in
  let! max_candidates := for_each (seq 0 (n_cells dst_mesh)) (fun j n => let! box := read dst_boxes (Z.of_nat j) in Ok (n + length (query src_boxes box))%nat) 0%nat in
  let coo := merge threads in
  if 2 ^ 31 <=? Z.of_nat max_candidates then Undef else if (length coo <=? max_candidates)%nat then Ok coo else Undef.

(** The loop that gathers the buffers. *)
Definition gather_entry (e : CooEntry) (s : Accumulated) : result Accumulated :=
  let '(row, (col, (w, overlap_a))) := e in
  let es := push_entry (acc_entries s) w row col in
  let! area_src_i := read src_areas (to_u64 col) in
  let! area_dst_j := read dst_areas (to_u64 row) in
  let! fa := update (fun f => dadd f (ddiv overlap_a area_src_i)) (frac_a_acc s) (to_u64 col) in
  let! fb := update (fun f => dadd f (ddiv overlap_a area_dst_j)) (frac_b_acc s) (to_u64 row) in
  Ok (mkAcc es fa fb).

Definition gather (coo : list CooEntry) : result Accumulated :=
  for_each (seq 0 (length coo)) (fun k s => let! e := read coo (Z.of_nat k) in gather_entry e s) (mkAcc no_entries (replicate (n_cells src_mesh) dzero) (replicate (n_cells dst_mesh) dzero)).

(** The check for destination cells without an entry. *)
Definition check_mapped (config : RegridConfig) (rows : list Z) : result unit :=
  if decide (unmapped config = Error) then
    let! dst_has_entry := rows_with_weights (n_cells dst_mesh) rows in
    for_each (seq 0 (n_cells dst_mesh)) (fun j _ =>
      let! m := masked dst_mesh (Z.of_nat j) in
      if m : bool then Ok tt
      else
        let! d := read dst_degenerate (Z.of_nat j) in
        if d : bool then Ok tt
        else
          let! a := read dst_areas (Z.of_nat j) in
          if SFleb a dzero then Ok tt
          else
            let! has := read dst_has_entry (Z.of_nat j) in
            throw_if (negb has) runtime_error) tt
  else Ok tt.
End Loops.

(** What the host computes besides and does not use here, the permutation along a space-filling
    curve, is left out. *)
Definition generate_conservative_planar (src_mesh dst_mesh : UnstructuredMesh) (config : RegridConfig) : result InterpolationMatrix :=
  let! _ := detect_regular_grid src_mesh in
  let! _ := detect_regular_grid dst_mesh in
  let! src_degenerate := degenerate_flags src_mesh in
  let! dst_degenerate := degenerate_flags dst_mesh in
  let! src_boxes := compute_cell_aabbs src_mesh in
  let! dst_boxes := compute_cell_aabbs dst_mesh in
  let! src_areas := get_cell_areas src_mesh in
  let! dst_areas := get_cell_areas dst_mesh in
  let! _ := compute_cell_centroids_xy dst_mesh in
  let! coo := coo_entries src_mesh dst_mesh src_areas dst_areas src_degenerate dst_degenerate src_boxes dst_boxes in
  let! acc := gather src_mesh dst_mesh src_areas dst_areas coo in
  let! _ := check_mapped dst_mesh dst_areas dst_degenerate config (rows_vec (acc_entries acc)) in
  let! es := normalize_weights config (acc_entries acc) (frac_b_acc acc) in
  Ok (new_matrix (weights_vec es) (rows_vec es) (cols_vec es)
        ((fun f => std_min f one) <$> frac_a_acc acc) ((fun f => std_min f one) <$> frac_b_acc acc) src_areas dst_areas
        (n_cells src_mesh) (n_cells dst_mesh)).
End Generator.

(** * Specification *)

Section Specification.
Context `{!Libm, !BoxTree}.

(** The kind of a polygon and of a cell. *)
Definition kind_of (cell : list point) : DegenerateType :=
  if (length cell <? 3)%nat then ZeroArea
  else if SFltb (spherical_fan cell) DEFAULT_AREA_THRESHOLD then ZeroArea
  else if (count_unique_vertices cell DEFAULT_EDGE_THRESHOLD <? 3)%nat then CollapsedEdge
  else if is_self_intersecting cell then SelfIntersecting
  else None_.

Definition scanned_vertex (m : UnstructuredMesh) (v : Z) : point :=
  if (3 <=? extent1 (node_coords m))%nat then (coord (node_coords m) v 0, coord (node_coords m) v 1, coord (node_coords m) v 2)
  else lonlat_to_xyz (dmul (coord (node_coords m) v 0) DEG_TO_RAD) (dmul (coord (node_coords m) v 1) DEG_TO_RAD).

Definition degenerate (m : UnstructuredMesh) (c : nat) : bool :=
  bool_decide (kind_of (take MaxVerts (scanned_vertex m <$> cell_nodes m c)) <> None_).

(** The coordinates of the corners of a cell, and the box around them. *)
Definition corners (m : UnstructuredMesh) (c : nat) (k : nat) : list double := (fun v => coord (node_coords m) v k) <$> cell_nodes m c.

Definition box_of (m : UnstructuredMesh) (c : nat) : Box2 :=
  mkBox (to_float (foldl std_min double_max (corners m c 0))) (to_float (foldl std_min double_max (corners m c 1)))
    (to_float (foldl std_max (SFopp double_max) (corners m c 0))) (to_float (foldl std_max (SFopp double_max) (corners m c 1))).

Definition boxes (m : UnstructuredMesh) : list Box2 := box_of m <$> seq 0 (n_cells m).

Definition polygon (m : UnstructuredMesh) (c : nat) : list planar_vertex := match cell_polygon m c with Ok p => p | _ => [] end.

(** A cell that takes part: not masked, not degenerate and of positive area. *)
Definition usable (m : UnstructuredMesh) (c : nat) : bool :=
  negb (is_masked m (Z.of_nat c)) && negb (degenerate m c) && negb (SFleb (default dzero (areas_given m !! c)) dzero).

Context (src_mesh dst_mesh : UnstructuredMesh).

Definition src_area (i : nat) : double := default dzero (areas_given src_mesh !! i).
Definition dst_area (j : nat) : double := default dzero (areas_given dst_mesh !! j).

(** The cells whose boxes the tree finds for a destination cell. *)
Definition candidates (j : nat) : list nat := query (boxes src_mesh) (box_of dst_mesh j).

(** The area that a source and a destination cell have in common. *)
Definition overlap (j i : nat) : double :=
  planar_fan (clipped planar_degenerate planar_signed_distance planar_compute_intersection capacity (polygon src_mesh i) (polygon dst_mesh j)).

Definition entry (j i : nat) : option CooEntry :=
  if usable src_mesh i && negb (SFleb (overlap j i) dzero)
  then Some (Z.of_nat j, (Z.of_nat i, (ddiv (overlap j i) (dst_area j), overlap j i))) else None.

(** The entries of a row. *)
Definition row_entries (j : nat) : list CooEntry := if usable dst_mesh j then omap (entry j) (candidates j) else [].
Definition all_rows : list (list CooEntry) := row_entries <$> seq 0 (n_cells dst_mesh).

(** The entries of a row, when every source cell whose box meets that of the destination cell is tried. *)
Definition touching (j : nat) : list nat := filter (fun i => meet (box_of src_mesh i) (box_of dst_mesh j) = true) (seq 0 (n_cells src_mesh)).
Definition exhaustive_row (j : nat) : list CooEntry := if usable dst_mesh j then omap (entry j) (touching j) else [].

(** The covered fraction of a destination cell. *)
Definition covered (j : nat) : double := sum_of ((fun e => ddiv (snd (snd (snd e))) (dst_area j)) <$> row_entries j).

(** The used fraction of a source cell, summed in the order of the entries. *)
Definition used (l : list CooEntry) (i : nat) : double :=
  sum_of ((fun e => ddiv (snd (snd (snd e))) (src_area i)) <$> filter (fun e => fst (snd e) = Z.of_nat i) l).

Definition weighted (config : RegridConfig) (e : CooEntry) : Z * (Z * double) :=
  (fst e, (fst (snd e), normalized_weight config (covered (Z.to_nat (fst e))) (fst (snd (snd e))))).

(** The matrix when the entries have come in the order [l]. *)
Definition search_matrix (config : RegridConfig) (l : list CooEntry) : InterpolationMatrix :=
  let es := entries_of (weighted config <$> l) in
  new_matrix (weights_vec es) (rows_vec es) (cols_vec es)
    ((fun i => std_min (used l i) one) <$> seq 0 (n_cells src_mesh)) ((fun j => std_min (covered j) one) <$> seq 0 (n_cells dst_mesh))
    (areas_given src_mesh) (areas_given dst_mesh) (n_cells src_mesh) (n_cells dst_mesh).
End Specification.

(** * Lemmas *)

(** ** Interleavings *)

Lemma concat_nil {A} (ls : list (list A)) : Forall (fun l => l = []) ls -> concat ls = [].
Proof. induction 1 as [|l ls -> _ IH]; [done|]. exact IH. Qed.

Lemma interleaving_perm {A} (ls : list (list A)) l : interleaving ls l -> l ≡ₚ concat ls.
Proof.
  induction 1 as [ls Hls|ls i x l rest Hi _ IH]; [by rewrite concat_nil|].
  rewrite IH. rewrite <- (take_drop_middle ls i (x :: l)) at 2 by done. rewrite insert_take_drop by (by eapply lookup_lt_Some).
  rewrite !concat_app. cbn [concat]. rewrite <- app_comm_cons. apply Permutation_middle.
Qed.

(** The elements of a thread keep their order. *)
Lemma interleaving_own {A} (key : A -> Z) (ls : list (list A)) l : interleaving ls l ->
  (forall i t, ls !! i = Some t -> Forall (fun e => key e = Z.of_nat i) t) ->
  forall i, (i < length ls)%nat -> filter (fun e => key e = Z.of_nat i) l = default [] (ls !! i).
Proof.
  induction 1 as [ls Hls|ls i0 x l rest Hi _ IH]; intros Hk i Hlt.
  - destruct (lookup_lt_is_Some_2 ls i Hlt) as [t Ht]. rewrite Ht. cbn. by rewrite (Forall_lookup_1 _ _ _ _ Hls Ht).
  - pose proof (Hk _ _ Hi) as Hx. inversion Hx as [|? ? Hx0 Hxl]; subst.
    assert (Hk' : forall i t, <[i0:=l]> ls !! i = Some t -> Forall (fun e => key e = Z.of_nat i) t).
    { intros i' t Ht. destruct (decide (i' = i0)) as [->|Hne].
      - rewrite list_lookup_insert_eq in Ht by (by eapply lookup_lt_Some). by injection Ht as <-.
      - rewrite list_lookup_insert_ne in Ht by done. by apply Hk. }
    specialize (IH Hk' i ltac:(by rewrite length_insert)). rewrite filter_cons. destruct (decide (i = i0)) as [->|Hne].
    + rewrite decide_True by done. rewrite IH, list_lookup_insert_eq by (by eapply lookup_lt_Some). by rewrite Hi.
    + rewrite decide_False by lia. rewrite IH, list_lookup_insert_ne by done. done.
Qed.

Lemma interleaving_concat {A} (ls : list (list A)) : interleaving ls (concat ls).
Proof.
  assert (Hg : forall pre (ls : list (list A)), Forall (fun l => l = []) pre -> interleaving (pre ++ ls) (concat ls)).
  { intros pre l. revert pre. induction l as [|t l IH]; intros pre Hpre; [rewrite app_nil_r; by constructor|]. cbn [concat].
    induction t as [|x t IHt]; cbn [app].
    - rewrite cons_middle, (assoc_L app). apply IH. apply Forall_app. split; [done|]. by repeat constructor.
    - econstructor; [by apply list_lookup_middle|]. rewrite insert_app_r_alt by lia. rewrite Nat.sub_diag. exact IHt. }
  exact (Hg [] ls (List.Forall_nil _)).
Qed.

(** ** Degenerate cells *)

Section Search_lemmas.
Context `{!Libm, !BoxTree}.

Lemma classify_ok cell : classify cell DEFAULT_AREA_THRESHOLD DEFAULT_EDGE_THRESHOLD = Ok (kind_of cell).
Proof. unfold classify, kind_of. rewrite spherical_area_ok. cbn [bind]. by destruct (length cell <? 3)%nat. Qed.

(** A loop that pushes a vertex per turn. *)
Lemma push_loop {V} (f : nat -> V) n body : (forall i p, (i < n)%nat -> body i p = Ok (push p (f i))) ->
  for_each (seq 0 n) body [] = Ok (take MaxVerts (f <$> seq 0 n)).
Proof.
  intros Hb. destruct (for_each_inv (fun i p => p = take MaxVerts (f <$> seq 0 i)) n body []) as (p & -> & ->); [|done|done].
  intros i p Hi ->. rewrite Hb by done. eexists. split; [done|]. by rewrite push_take, seq_S, fmap_app.
Qed.

Lemma take_seq k n : (k <= n)%nat -> take k (seq 0 n) = seq 0 k.
Proof. intros Hk. rewrite <- (Nat.sub_add k n) by done. rewrite Nat.add_comm, seq_app, take_app_le by (by rewrite length_seq). apply take_ge. by rewrite length_seq. Qed.

Lemma tabulated {A} (l : list A) (f : nat -> A) : (forall i x, l !! i = Some x -> f i = x) -> f <$> seq 0 (length l) = l.
Proof.
  intros Hf. apply list_eq. intros i. rewrite list_lookup_fmap. destruct (decide (i < length l)%nat) as [Hi|Hi].
  - rewrite lookup_seq_lt by done. destruct (lookup_lt_is_Some_2 l i Hi) as [x Hx]. rewrite Hx. cbn. f_equal. by apply Hf.
  - rewrite !lookup_ge_None_2; [done|..]; rewrite ?length_seq; lia.
Qed.

Lemma tabulated_take {A} (l : list A) (f : nat -> A) k : (k <= length l)%nat -> (forall i x, l !! i = Some x -> f i = x) -> f <$> seq 0 k = take k l.
Proof. intros Hk Hf. by rewrite <- (take_seq k (length l)), fmap_take, tabulated by done. Qed.

Lemma take_min {A} (l : list A) k : take k l = take (length l `min` k) l.
Proof. destruct (decide (length l <= k)%nat); [rewrite !take_ge by lia; done|f_equal; lia]. Qed.

Section Mesh.
Context (m : UnstructuredMesh) (Hm : mesh_ok m) (Hs : mesh_sized m).

Lemma scan_vertex_ok v : 0 <= v < Z.of_nat (n_nodes m) -> scan_vertex m v = Ok (scanned_vertex m v).
Proof.
  intros Hv. destruct (mesh_coords m Hm) as [Hview H2]. unfold scan_vertex, scanned_vertex.
  destruct (Nat.leb_spec 3 (extent1 (node_coords m))); [by apply node_xyz_ok|by apply node_on_sphere_ok].
Qed.

Lemma scan_polygon_ok c : (c < n_cells m)%nat -> scan_polygon m c = Ok (take MaxVerts (scanned_vertex m <$> cell_nodes m c)).
Proof.
  intros Hc. pose proof (mesh_ascending m Hm c Hc) as Ha. pose proof (cell_nodes_length m c Hm Hc) as Hl.
  pose proof (offset_bounds m c Hm ltac:(lia)) as B0. pose proof (offset_bounds m (c + 1) Hm ltac:(lia)) as B1. destruct Hs as (_ & Hi & _).
  unfold scan_polygon. rewrite read_offset by (done || lia). cbn [bind].
  replace (Z.of_nat c + 1) with (Z.of_nat (c + 1)) by lia. rewrite read_offset by (done || lia). cbn [bind].
  rewrite arith_ok by (cbn [imin imax]; lia). cbn [bind]. rewrite <- Hl, cast_int_id, Nat2Z.id by lia.
  set (n := length (cell_nodes m c)) in *. rewrite (push_loop (fun i => scanned_vertex m (default 0 (cell_nodes m c !! i)))).
  - rewrite (tabulated_take (scanned_vertex m <$> cell_nodes m c)).
    + by rewrite take_take, (take_min _ MaxVerts), length_fmap, Nat.min_r by lia.
    + rewrite length_fmap. unfold n. lia.
    + intros i x Hx. rewrite list_lookup_fmap in Hx. by destruct (cell_nodes m c !! i); simplify_eq/=.
  - intros i p Hi'. destruct (lookup_lt_is_Some_2 (cell_nodes m c) i) as [v Hv]; [lia|].
    rewrite (cell_nodes_read m c Hm Hc i v Hv). cbn [bind]. pose proof (cell_nodes_range m c Hm) as Hr. rewrite list.Forall_forall in Hr.
    rewrite scan_vertex_ok by (apply Hr; by eapply list_elem_of_lookup_2). cbn [bind]. by rewrite Hv.
Qed.
Lemma flags_ok : degenerate_flags m = Ok (degenerate m <$> seq 0 (n_cells m)).
Proof.
  pose proof Hs as (_ & _ & Hn). set (dead := fun c => if degenerate m c then Some (Z.of_nat c) else None).
  unfold degenerate_flags. destruct (for_each_inv (fun i report => excluded_indices report = omap dead (seq 0 i)) (n_cells m)
    (fun ci report => let! poly := scan_polygon m ci in
      let! dtype := classify poly DEFAULT_AREA_THRESHOLD DEFAULT_EDGE_THRESHOLD in
      if decide (dtype = None_) then Ok report
      else Ok (mkReport (excluded_indices report ++ [to_index (Z.of_nat ci)]) (excluded_types report ++ [dtype])
        (total_cells report) (S (degenerate_count report)))) (mkReport [] [] (n_cells m) 0)) as (report & Er & Hr).
  - intros i report Hi Hr. rewrite scan_polygon_ok by done. cbn [bind]. rewrite classify_ok. cbn [bind]. rewrite seq_S, omap_app. cbn [omap list_omap].
    unfold dead at 2, degenerate. destruct (decide _) as [E|E].
    + rewrite bool_decide_false by (intros C; by apply C). eexists. split; [done|]. by rewrite Hr, app_nil_r.
    + rewrite bool_decide_true by done. eexists. split; [done|]. cbn. by rewrite Hr, to_index_id by lia.
  - done.
  - unfold scan_cells. rewrite Er. cbn [bind]. rewrite (mark_rows true false); [|done|].
    + f_equal. apply list_fmap_ext. intros _ c Hc%list_elem_of_lookup_2%elem_of_seq. rewrite Hr. case_decide as Hin.
      * apply list_elem_of_omap in Hin as (c' & _ & Hc'). unfold dead in Hc'. destruct (degenerate m c') eqn:Ed; [|done]. injection Hc' as Hc'. by replace c with c' by lia.
      * destruct (degenerate m c) eqn:Ed; [|done]. destruct Hin. apply list_elem_of_omap. exists c. split; [by apply elem_of_seq|]. unfold dead. by rewrite Ed.
    + rewrite Hr. apply list.Forall_forall. intros r (c & Hc%elem_of_seq & Ed)%list_elem_of_omap. unfold dead in Ed. destruct (degenerate m c); [|done]. injection Ed as <-. lia.
Qed.

(** ** Boxes *)

Lemma cell_aabb_ok c : (c < n_cells m)%nat -> cell_aabb m c = Ok (box_of m c).
Proof.
  intros Hc. pose proof (cell_nodes_length m c Hm Hc) as Hl.
  pose proof (offset_bounds m c Hm ltac:(lia)) as B0. pose proof (offset_bounds m (c + 1) Hm ltac:(lia)) as B1. pose proof Hs as (Hn & Hi & _).
  destruct (mesh_coords m Hm) as [Hview H2]. unfold cell_aabb. rewrite read_offset by (done || lia). cbn [bind].
  replace (Z.of_nat c + 1) with (Z.of_nat (c + 1)) by lia. rewrite read_offset by (done || lia). cbn [bind].
  rewrite (to_u64_id (offset m c)), (to_u64_id (offset m (c + 1))) by lia. rewrite <- Hl, Nat2Z.id. set (ns := cell_nodes m c).
  set (box := fun l => ((foldl std_min double_max ((fun v => coord (node_coords m) v 0) <$> l), foldl std_min double_max ((fun v => coord (node_coords m) v 1) <$> l)),
    (foldl std_max (SFopp double_max) ((fun v => coord (node_coords m) v 0) <$> l), foldl std_max (SFopp double_max) ((fun v => coord (node_coords m) v 1) <$> l)))).
  destruct (for_each_inv (fun i b => b = box (take i ns)) (length ns) (fun k b => widen_box m (offset m c + Z.of_nat k) b)
    ((double_max, double_max), (SFopp double_max, SFopp double_max))) as (b & -> & ->); [|done|].
  - intros i b Hi' ->. destruct (lookup_lt_is_Some_2 ns i Hi') as [v Hv]. change (1 + i)%nat with (S i). rewrite (take_S_r _ _ _ Hv).
    pose proof (cell_nodes_range m c Hm) as Hr. rewrite list.Forall_forall in Hr. specialize (Hr v ltac:(by eapply list_elem_of_lookup_2)). unfold n_nodes in *.
    unfold widen_box, box at 1. rewrite (cell_nodes_read m c Hm Hc i v Hv). cbn [bind]. rewrite to_u64_id by lia. rewrite !read2_ok by (done || lia). cbn [bind].
    eexists. split; [done|]. unfold box. by rewrite !fmap_app, !foldl_app.
  - rewrite take_ge by done. done.
Qed.

Lemma boxes_ok : compute_cell_aabbs m = Ok (boxes m).
Proof. apply for_each_tabulate. intros c l Hc. by rewrite cell_aabb_ok. Qed.

(** ** Polygons *)

(** The polygon of a cell that does not cross the date line is that of its corners, 32 at most. *)
Lemma cell_polygon_plain c : (c < n_cells m)%nat -> crosses_dateline (take MaxVerts (corners m c 0)) = Ok false ->
  cell_polygon m c = Ok (take MaxVerts (zip (corners m c 0) (corners m c 1))).
Proof.
  intros Hc Hx. pose proof (mesh_ascending m Hm c Hc) as Ha. pose proof (cell_nodes_length m c Hm Hc) as Hl.
  pose proof (offset_bounds m c Hm ltac:(lia)) as B0. pose proof (offset_bounds m (c + 1) Hm ltac:(lia)) as B1. pose proof Hs as (Hn & Hi & _).
  unfold cell_polygon. rewrite read_offset by (done || lia). cbn [bind].
  replace (Z.of_nat c + 1) with (Z.of_nat (c + 1)) by lia. rewrite read_offset by (done || lia). cbn [bind].
  rewrite (to_u64_id (offset m c)), (to_u64_id (offset m (c + 1))) by lia. rewrite <- Hl, to_u64_id, cast_int_id by lia. set (n := length (cell_nodes m c)) in *.
  replace (Z.to_nat (Z.min (Z.of_nat n) (Z.of_nat MaxVerts))) with (n `min` MaxVerts)%nat by lia.
  assert (Hnode : forall i k, (i < n)%nat -> (k < 2)%nat -> (let! ni := read (conn_indices m) (to_u64 (offset m c + Z.of_nat i)) in read2 (node_coords m) (to_u64 ni) k) = Ok (default dzero (corners m c k !! i))).
  { intros i k Hlt Hk. destruct (node_read2 m c i k Hm Hs Hc Hlt Hk) as (v & Ev & Ev' & E2). rewrite to_u64_id by lia. rewrite Ev. cbn [bind]. rewrite E2.
    unfold corners, corner. by rewrite list_lookup_fmap, Ev'. }
  rewrite (for_each_tabulate (fun i => default dzero (corners m c 0 !! i))) by (intros i l Hlt; rewrite Hnode by lia; done). cbn [bind].
  assert (Hcl : forall k, length (corners m c k) = n) by (intros k; unfold corners; by rewrite length_fmap).
  rewrite (tabulated_take (corners m c 0)) by (rewrite ?Hcl; try lia; intros i x ->; done). rewrite <- Hcl with 0%nat, <- take_min, Hcl.
  assert (Ec : (if (2 <=? n `min` MaxVerts)%nat then crosses_dateline (take MaxVerts (corners m c 0)) else Ok false) = Ok false) by (rewrite Hx; by case_match).
  rewrite Ec. cbn [bind]. rewrite (push_loop (fun i => (default dzero (corners m c 0 !! i), default dzero (corners m c 1 !! i)))).
  - rewrite (tabulated_take (zip (corners m c 0) (corners m c 1))).
    + rewrite take_take, (take_min _ MaxVerts), length_zip_with, !Hcl. f_equal. f_equal. lia.
    + rewrite length_zip_with, !Hcl. lia.
    + intros i x Hx'. apply lookup_zip_with_Some in Hx' as (a & b & -> & -> & ->). done.
  - intros i p Hlt. destruct (lookup_lt_is_Some_2 (corners m c 0) i) as [x Ex]; [rewrite Hcl; lia|].
    rewrite (read_nat _ i x) by (rewrite lookup_take_lt by lia; done). cbn [bind]. rewrite Hnode by lia. cbn [bind]. by rewrite Ex.
Qed.
End Mesh.

(** ** The entries *)

Section Matrix.
Context `{!AscendingSort, !AtomicCounter}.
Context (src_mesh dst_mesh : UnstructuredMesh).
Context (Hsrc : mesh_ok src_mesh) (Ssrc : mesh_sized src_mesh) (Hdst : mesh_ok dst_mesh) (Sdst : mesh_sized dst_mesh).
Context (Psrc : forall i, (i < n_cells src_mesh)%nat -> usable src_mesh i = true -> is_ok (cell_polygon src_mesh i) = true).
Context (Pdst : forall j, (j < n_cells dst_mesh)%nat -> usable dst_mesh j = true -> is_ok (cell_polygon dst_mesh j) = true).

Lemma polygon_ok m c : is_ok (cell_polygon m c) = true -> cell_polygon m c = Ok (polygon m c).
Proof. unfold polygon. by destruct (cell_polygon m c). Qed.

Lemma flag_read m c : (c < n_cells m)%nat -> read (degenerate m <$> seq 0 (n_cells m)) (Z.of_nat c) = Ok (degenerate m c).
Proof. intros Hc. apply read_nat. by rewrite list_lookup_fmap, lookup_seq_lt. Qed.

Lemma area_read m c : mesh_ok m -> mesh_sized m -> (c < n_cells m)%nat -> read (areas_given m) (Z.of_nat c) = Ok (default dzero (areas_given m !! c)).
Proof.
  intros Hm Hs Hc. destruct (lookup_lt_is_Some_2 (areas_given m) c) as [a Ha]; [by rewrite (proj2 (get_cell_areas_ok m Hm Hs))|].
  rewrite (read_nat _ _ _ Ha). by rewrite Ha.
Qed.

Lemma box_read m c : (c < n_cells m)%nat -> read (boxes m) (Z.of_nat c) = Ok (box_of m c).
Proof. intros Hc. apply read_nat. unfold boxes. by rewrite list_lookup_fmap, lookup_seq_lt. Qed.

Lemma candidates_range j i : i ∈ candidates src_mesh dst_mesh j -> (i < n_cells src_mesh)%nat.
Proof.
  intros Hi. pose proof (query_boxes (boxes src_mesh) (box_of dst_mesh j)) as Hq. rewrite list.Forall_forall in Hq. specialize (Hq i Hi).
  unfold boxes in Hq. by rewrite length_fmap, length_seq in Hq.
Qed.

Lemma add_candidate_ok j i l : (j < n_cells dst_mesh)%nat -> (i < n_cells src_mesh)%nat -> usable dst_mesh j = true ->
  add_candidate src_mesh (areas_given src_mesh) (degenerate src_mesh <$> seq 0 (n_cells src_mesh)) j (dst_area dst_mesh j) (polygon dst_mesh j) i l
  = Ok (l ++ option_list (entry src_mesh dst_mesh j i)).
Proof.
  intros Hj Hi Hu. pose proof Ssrc as (_ & _ & Hns). pose proof Sdst as (_ & _ & Hnd). pose proof (Psrc i Hi) as Hp. unfold add_candidate, entry, usable in *.
  rewrite masked_ok by lia. cbn [bind]. destruct (is_masked src_mesh (Z.of_nat i)); cbn [negb andb] in *; [cbn; by rewrite app_nil_r|].
  rewrite flag_read by done. cbn [bind]. destruct (degenerate src_mesh i); cbn [negb andb] in *; [cbn; by rewrite app_nil_r|].
  rewrite area_read by done. cbn [bind]. destruct (SFleb (default dzero (areas_given src_mesh !! i)) dzero); cbn [negb andb] in *; [cbn; by rewrite app_nil_r|].
  rewrite polygon_ok by (by apply Hp). cbn [bind]. rewrite planar_overlap_ok. cbn [bind]. fold (overlap src_mesh dst_mesh j i).
  destruct (SFleb (overlap src_mesh dst_mesh j i) dzero); cbn [negb]; [cbn; by rewrite app_nil_r|].
  assert (Hw : SFltb (ddiv (overlap src_mesh dst_mesh j i) (dst_area dst_mesh j)) dzero = false).
  { apply quotient_not_negative; [apply planar_fan_sign|]. unfold dst_area. apply andb_true_iff in Hu as [_ Hu]. by apply negb_true_iff in Hu. }
  rewrite Hw, !to_index_id by lia. done.
Qed.

(** A loop that appends the values of some elements of a list. *)
Lemma for_each_omap {A} (f : nat -> option A) order body l : (forall i l, i ∈ order -> body i l = Ok (l ++ option_list (f i))) ->
  for_each order body l = Ok (l ++ omap f order).
Proof.
  revert l. induction order as [|i order IH]; intros l Hb; [by rewrite app_nil_r|]. cbn [for_each]. rewrite Hb by left. cbn [bind].
  rewrite IH by (intros k t Hk; apply Hb; by right). f_equal. rewrite <- (assoc_L app). f_equal. cbn. by destruct (f i).
Qed.

Lemma thread_entries_ok j : (j < n_cells dst_mesh)%nat ->
  thread_entries src_mesh dst_mesh (areas_given src_mesh) (areas_given dst_mesh) (degenerate src_mesh <$> seq 0 (n_cells src_mesh))
    (degenerate dst_mesh <$> seq 0 (n_cells dst_mesh)) (boxes src_mesh) (boxes dst_mesh) j = Ok (row_entries src_mesh dst_mesh j).
Proof.
  intros Hj. pose proof (Pdst j Hj) as Hp. unfold thread_entries, row_entries. destruct (usable dst_mesh j) eqn:Hu.
  - pose proof Hu as Hu'. unfold usable in Hu'. apply andb_true_iff in Hu' as [[Hm%negb_true_iff Hd%negb_true_iff]%andb_true_iff Ha%negb_true_iff].
    rewrite masked_ok by lia. rewrite Hm. cbn [bind]. rewrite flag_read by done. rewrite Hd. cbn [bind]. rewrite area_read by done. cbn [bind]. rewrite Ha.
    rewrite polygon_ok by (by apply Hp). cbn [bind]. rewrite box_read by done. cbn [bind]. fold (candidates src_mesh dst_mesh j). fold (dst_area dst_mesh j).
    rewrite (for_each_omap (entry src_mesh dst_mesh j)); [done|]. intros i l Hi%candidates_range. by apply add_candidate_ok.
  - unfold usable in Hu. rewrite masked_ok by lia. cbn [bind]. destruct (is_masked dst_mesh (Z.of_nat j)); cbn [negb andb] in *; [done|].
    rewrite flag_read by done. cbn [bind]. destruct (degenerate dst_mesh j); cbn [negb andb] in *; [done|].
    rewrite area_read by done. cbn [bind]. apply negb_false_iff in Hu. by rewrite Hu.
Qed.

(** The entries in the order of the counter. *)
Definition merged : list CooEntry := merge (all_rows src_mesh dst_mesh).
Definition candidate_count : nat := sum_list ((fun j => length (candidates src_mesh dst_mesh j)) <$> seq 0 (n_cells dst_mesh)).

Lemma row_length j : (length (row_entries src_mesh dst_mesh j) <= length (candidates src_mesh dst_mesh j))%nat.
Proof.
  unfold row_entries. destruct (usable dst_mesh j); [|cbn; lia]. generalize (candidates src_mesh dst_mesh j). intros l.
  induction l as [|i l IH]; [done|]. cbn. destruct (entry src_mesh dst_mesh j i); cbn; lia.
Qed.

Lemma merged_length : (length merged <= candidate_count)%nat.
Proof.
  unfold merged. rewrite (interleaving_perm _ _ (merge_interleaves (all_rows src_mesh dst_mesh))). unfold all_rows, candidate_count.
  generalize (seq 0 (n_cells dst_mesh)). intros l. induction l as [|j l IH]; [done|]. cbn. rewrite length_app. pose proof (row_length j). lia.
Qed.

Lemma coo_entries_ok : Z.of_nat candidate_count < 2 ^ 31 ->
  coo_entries src_mesh dst_mesh (areas_given src_mesh) (areas_given dst_mesh) (degenerate src_mesh <$> seq 0 (n_cells src_mesh))
    (degenerate dst_mesh <$> seq 0 (n_cells dst_mesh)) (boxes src_mesh) (boxes dst_mesh) = Ok merged.
Proof.
  intros H31. unfold coo_entries. rewrite (for_each_tabulate (row_entries src_mesh dst_mesh)) by (intros j l Hj; by rewrite thread_entries_ok). cbn [bind].
  destruct (for_each_inv (fun i n => n = sum_list ((fun j => length (candidates src_mesh dst_mesh j)) <$> seq 0 i)) (n_cells dst_mesh)
    (fun j n => let! box := read (boxes dst_mesh) (Z.of_nat j) in Ok (n + length (query (boxes src_mesh) box))%nat) 0%nat) as (n & -> & ->).
  - intros j n Hj ->. rewrite box_read by done. eexists. split; [done|]. change (1 + j)%nat with (S j). rewrite seq_S, fmap_app, sum_list_with_app. cbn.
    unfold candidates. lia.
  - done.
  - cbn [bind]. fold candidate_count. rewrite (proj2 (Z.leb_gt _ _)) by lia. fold (all_rows src_mesh dst_mesh) merged.
    by rewrite (proj2 (Nat.leb_le _ _)) by apply merged_length.
Qed.

Lemma row_entry j e : e ∈ row_entries src_mesh dst_mesh j -> usable dst_mesh j = true /\ exists i, (i < n_cells src_mesh)%nat /\ usable src_mesh i = true /\
  SFleb (overlap src_mesh dst_mesh j i) dzero = false /\ e = (Z.of_nat j, (Z.of_nat i, (ddiv (overlap src_mesh dst_mesh j i) (dst_area dst_mesh j), overlap src_mesh dst_mesh j i))).
Proof.
  unfold row_entries. destruct (usable dst_mesh j); [|by intros He%elem_of_nil]. intros (i & Hi%candidates_range & He)%list_elem_of_omap. split; [done|].
  unfold entry in He. destruct (usable src_mesh i) eqn:Hu; [|done]. destruct (SFleb (overlap src_mesh dst_mesh j i) dzero) eqn:Ho; [done|]. injection He as <-. by exists i.
Qed.

Lemma merged_entry e : e ∈ merged -> exists j, (j < n_cells dst_mesh)%nat /\ e ∈ row_entries src_mesh dst_mesh j.
Proof.
  unfold merged. rewrite (interleaving_perm _ _ (merge_interleaves (all_rows src_mesh dst_mesh))).
  intros (l & Hl%list_elem_of_In & He%list_elem_of_In)%list_elem_of_In%in_concat.
  apply list_elem_of_fmap in Hl as (j & -> & Hj%elem_of_seq). exists j. split; [lia|done].
Qed.

(** The entries of a row keep the order of its thread. *)
Lemma merged_row j : (j < n_cells dst_mesh)%nat -> filter (fun e => fst e = Z.of_nat j) merged = row_entries src_mesh dst_mesh j.
Proof.
  intros Hj. unfold merged. rewrite (interleaving_own fst _ _ (merge_interleaves (all_rows src_mesh dst_mesh))).
  - unfold all_rows. by rewrite list_lookup_fmap, lookup_seq_lt.
  - intros i t Ht. unfold all_rows in Ht. rewrite list_lookup_fmap in Ht. destruct (seq 0 (n_cells dst_mesh) !! i) as [i'|] eqn:Ei; [|done].
    apply lookup_seq in Ei as [-> _]. injection Ht as <-. apply list.Forall_forall. by intros e (_ & k & _ & _ & _ & ->)%row_entry.
  - unfold all_rows. by rewrite length_fmap, length_seq.
Qed.

Lemma filter_agree {A} (P Q : A -> Prop) `{!forall x, Decision (P x), !forall x, Decision (Q x)} (l : list A) :
  (forall x, x ∈ l -> P x <-> Q x) -> filter P l = filter Q l.
Proof.
  induction l as [|x l IH]; intros Hx; [done|]. rewrite !filter_cons, IH by (intros y Hy; apply Hx; by right).
  assert (P x <-> Q x) by (apply Hx; by left). repeat case_decide; tauto.
Qed.

(** The tree finds what trying every cell would. *)
Lemma candidates_touching j : (j < n_cells dst_mesh)%nat -> Forall (fun b => box_of_numbers b = true) (boxes src_mesh ++ boxes dst_mesh) ->
  candidates src_mesh dst_mesh j ≡ₚ touching src_mesh dst_mesh j.
Proof.
  intros Hj [Hs Hd]%Forall_app. unfold candidates, touching. rewrite query_meets.
  - unfold boxes. rewrite length_fmap, length_seq. rewrite (filter_agree _ (fun i => meet (box_of src_mesh i) (box_of dst_mesh j) = true)); [done|]. intros i Hi%elem_of_seq.
    by rewrite list_lookup_fmap, lookup_seq_lt by lia.
  - constructor; [|done]. apply (Forall_lookup_1 _ _ j _ Hd). unfold boxes. by rewrite list_lookup_fmap, lookup_seq_lt.
Qed.

Lemma concat_perm {A} (f g : nat -> list A) order : (forall j, j ∈ order -> f j ≡ₚ g j) -> concat (f <$> order) ≡ₚ concat (g <$> order).
Proof.
  induction order as [|j order IH]; intros Hf; [done|]. cbn. rewrite (Hf j) by left. f_equiv. apply IH. intros k Hk. apply Hf. by right.
Qed.

Lemma merged_exhaustive : Forall (fun b => box_of_numbers b = true) (boxes src_mesh ++ boxes dst_mesh) ->
  merged ≡ₚ concat (exhaustive_row src_mesh dst_mesh <$> seq 0 (n_cells dst_mesh)).
Proof.
  intros Hb. unfold merged. rewrite (interleaving_perm _ _ (merge_interleaves (all_rows src_mesh dst_mesh))). apply concat_perm.
  intros j Hj%elem_of_seq. unfold row_entries, exhaustive_row. destruct (usable dst_mesh j); [|done]. by rewrite candidates_touching by (done || lia).
Qed.

(** ** Fractions *)

(** What has been gathered of the entries [l]. *)
Definition gathered (l : list CooEntry) : Accumulated :=
  mkAcc (entries_of ((fun e => (fst e, (fst (snd e), fst (snd (snd e))))) <$> l))
    ((fun i => used src_mesh l i) <$> seq 0 (n_cells src_mesh))
    ((fun j => sum_of ((fun e => ddiv (snd (snd (snd e))) (dst_area dst_mesh j)) <$> filter (fun e => fst e = Z.of_nat j) l)) <$> seq 0 (n_cells dst_mesh)).

Lemma gather_ok : gather src_mesh dst_mesh (areas_given src_mesh) (areas_given dst_mesh) merged = Ok (gathered merged).
Proof.
  pose proof Ssrc as (_ & _ & Hns). pose proof Sdst as (_ & _ & Hnd). unfold gather.
  destruct (for_each_inv (fun k s => s = gathered (take k merged)) (length merged) (fun k s =>
    let! e := read merged (Z.of_nat k) in gather_entry (areas_given src_mesh) (areas_given dst_mesh) e s) (mkAcc no_entries (replicate (n_cells src_mesh) dzero) (replicate (n_cells dst_mesh) dzero))) as (s & -> & ->).
  - intros k s Hk ->. destruct (lookup_lt_is_Some_2 merged k Hk) as [e Ee]. change (1 + k)%nat with (S k). rewrite (take_S_r _ _ _ Ee), (read_nat _ _ _ Ee). cbn [bind].
    destruct (merged_entry e) as (j & Hj & He); [by eapply list_elem_of_lookup_2|]. apply row_entry in He as (_ & i & Hi & _ & _ & ->). unfold gather_entry.
    set (ov := overlap src_mesh dst_mesh j i). set (w := ddiv ov (dst_area dst_mesh j)). rewrite !to_u64_id by lia. rewrite !area_read by done. cbn [bind].
    set (l := take k merged). fold (src_area src_mesh i) (dst_area dst_mesh j). unfold gathered at 1 2 3. cbn [acc_entries frac_a_acc frac_b_acc]. rewrite push_entries_of.
    pose proof (update_sums (fun e : CooEntry => fst (snd e)) (fun i e => ddiv (snd (snd (snd e))) (src_area src_mesh i)) (n_cells src_mesh) l (Z.of_nat j, (Z.of_nat i, (w, ov))) ltac:(cbn; lia)) as Ea.
    cbn [fst snd] in Ea. rewrite Nat2Z.id in Ea. lazymatch goal with |- context [update ?f ?fs (Z.of_nat i)] => rewrite (Ea : update f fs (Z.of_nat i) = _) end. cbn [bind].
    pose proof (update_sums (fun e : CooEntry => fst e) (fun j e => ddiv (snd (snd (snd e))) (dst_area dst_mesh j)) (n_cells dst_mesh) l (Z.of_nat j, (Z.of_nat i, (w, ov))) ltac:(cbn; lia)) as Eb.
    cbn [fst snd] in Eb. rewrite Nat2Z.id in Eb. lazymatch goal with |- context [update ?f ?fs (Z.of_nat j)] => rewrite (Eb : update f fs (Z.of_nat j) = _) end. cbn [bind]. eexists. split; [done|]. unfold gathered, used. rewrite fmap_app. done.
  - rewrite take_0. unfold gathered, used. cbn [fmap list_fmap]. by rewrite !no_sums.
  - by rewrite take_ge.
Qed.

Lemma gathered_covered : frac_b_acc (gathered merged) = covered src_mesh dst_mesh <$> seq 0 (n_cells dst_mesh).
Proof. cbn [gathered frac_b_acc]. apply list_fmap_ext. intros _ j Hj%list_elem_of_lookup_2%elem_of_seq. rewrite merged_row by lia. done. Qed.

(** A destination cell that takes part and has no entry. *)
Definition unmapped_cell (j : nat) : Prop := usable dst_mesh j = true /\ row_entries src_mesh dst_mesh j = [].

Lemma row_named j : (j < n_cells dst_mesh)%nat -> Z.of_nat j ∈ fst <$> merged <-> row_entries src_mesh dst_mesh j <> [].
Proof.
  intros Hj. rewrite <- merged_row by done. split.
  - intros (e & He & Hin)%list_elem_of_fmap C. assert (Hf : e ∈ filter (fun e => fst e = Z.of_nat j) merged) by (by apply list_elem_of_filter). rewrite C in Hf. by apply elem_of_nil in Hf.
  - intros C. destruct (filter _ merged) as [|e l] eqn:Ef; [done|]. assert (Hf : e ∈ filter (fun e => fst e = Z.of_nat j) merged) by (rewrite Ef; by left).
    apply list_elem_of_filter in Hf as [He Hin]. apply list_elem_of_fmap. by exists e.
Qed.

(** One cell in the check. *)
Definition has_entry (j : nat) : bool := bool_decide (row_entries src_mesh dst_mesh j <> []).

Lemma check_mapped_ok config : let rows := fst <$> merged in
  check_mapped dst_mesh (areas_given dst_mesh) (degenerate dst_mesh <$> seq 0 (n_cells dst_mesh)) config rows
  = if decide (unmapped config = Error) then for_each (seq 0 (n_cells dst_mesh)) (fun j _ => throw_if (usable dst_mesh j && negb (has_entry j)) runtime_error) tt else Ok tt.
Proof.
  intros rows. pose proof Sdst as (_ & _ & Hnd). unfold check_mapped. destruct (decide _) as [Herr|Herr]; [|done]. unfold rows_with_weights. rewrite (mark_rows true false); [|done|].
  - cbn [bind]. apply for_each_ext. intros j t Hj%elem_of_seq. unfold usable. rewrite masked_ok by lia. cbn [bind].
    destruct (is_masked dst_mesh (Z.of_nat j)); cbn [negb andb]; [done|]. rewrite flag_read by lia. cbn [bind]. destruct (degenerate dst_mesh j); cbn [negb andb]; [done|].
    rewrite area_read by (done || lia). cbn [bind]. destruct (SFleb _ dzero); cbn [negb andb]; [done|].
    rewrite (read_nat _ j (has_entry j)); [done|]. rewrite list_lookup_fmap, lookup_seq_lt by lia. cbn. unfold has_entry, rows. f_equal. case_decide as Hd.
    + by rewrite bool_decide_true by (apply row_named; [lia|done]).
    + symmetry. apply bool_decide_false. intros C. by apply Hd, row_named; [lia|].
  - apply Forall_fmap, list.Forall_forall. intros e (j & Hj & He)%merged_entry. apply row_entry in He as (_ & i & _ & _ & _ & ->). cbn. lia.
Qed.

Lemma check_passes : (forall j, (j < n_cells dst_mesh)%nat -> ~ unmapped_cell j) ->
  for_each (seq 0 (n_cells dst_mesh)) (fun j _ => throw_if (usable dst_mesh j && negb (has_entry j)) runtime_error) tt = Ok tt.
Proof.
  intros Hu. destruct (for_each_inv (fun _ _ => True) (n_cells dst_mesh) (fun j _ => throw_if (usable dst_mesh j && negb (has_entry j)) runtime_error) tt) as ([] & E & _); [|done|exact E].
  intros j t Hj _. exists tt. split; [|done]. specialize (Hu j Hj). unfold unmapped_cell, has_entry in *. destruct (usable dst_mesh j); [|done].
  by rewrite bool_decide_true by (intros C; by apply Hu).
Qed.

Lemma check_throws j : (j < n_cells dst_mesh)%nat -> unmapped_cell j ->
  for_each (seq 0 (n_cells dst_mesh)) (fun j _ => throw_if (usable dst_mesh j && negb (has_entry j)) runtime_error) tt = Throw runtime_error.
Proof.
  intros Hj [Hu Hr]. apply (for_each_throw _ _ _ _ j); [apply elem_of_seq; lia|..].
  - intros t. unfold has_entry. rewrite Hu, bool_decide_false by (intros C; by apply C). done.
  - intros k t _. destruct (usable dst_mesh k && negb (has_entry k)); [by left|right; by exists tt].
Qed.
End Matrix.
End Search_lemmas.

(** * Properties *)

Section Properties.
Context `{!Libm, !AscendingSort, !BoxTree, !AtomicCounter}.

(** C35. [generate_conservative_impl<2>] of weight_generator.cpp, between two well-formed meshes the grid detection can
    read and whose cells have polygons (the loops of the date line handler end), with fewer than
    [2 ^ 31] candidates: whatever the tree's order and however the threads interleave, no
    array is left.  An unmapped destination cell that is neither masked nor degenerate nor of
    area zero is reported if the configuration asks for it.  Otherwise the entries are
    exactly those of the rows, in an order in which every row keeps its own: the candidates that
    are neither masked nor degenerate and have an overlap that is not zero or less, weighted by
    the overlap over the destination area; when the corners of all boxes are numbers, the
    rows are those that trying every source cell whose box meets that of the destination cell gives.  The weights after normalization and the destination
    fractions do not depend on the interleaving; the source fractions are sums in the order of the entries.
    Every index names a cell and no weight is negative. *)
Theorem generate_conservative_planar_correct src_mesh dst_mesh config :
  mesh_ok src_mesh -> mesh_sized src_mesh -> mesh_ok dst_mesh -> mesh_sized dst_mesh ->
  Z.of_nat (n_cells dst_mesh) < 2 ^ 60 -> Z.of_nat (candidate_count src_mesh dst_mesh) < 2 ^ 31 ->
  is_ok (detect_regular_grid src_mesh) = true -> is_ok (detect_regular_grid dst_mesh) = true ->
  (forall i, (i < n_cells src_mesh)%nat -> usable src_mesh i = true -> is_ok (cell_polygon src_mesh i) = true) ->
  (forall j, (j < n_cells dst_mesh)%nat -> usable dst_mesh j = true -> is_ok (cell_polygon dst_mesh j) = true) ->
  let rows := all_rows src_mesh dst_mesh in
  let matrix := search_matrix src_mesh dst_mesh config (merge rows) in
  (unmapped config = Error -> forall j, (j < n_cells dst_mesh)%nat -> unmapped_cell src_mesh dst_mesh j ->
     generate_conservative_planar src_mesh dst_mesh config = Throw runtime_error) /\
  (unmapped config = Ignore \/ (forall j, (j < n_cells dst_mesh)%nat -> ~ unmapped_cell src_mesh dst_mesh j) ->
     generate_conservative_planar src_mesh dst_mesh config = Ok matrix) /\
  coo matrix = weighted src_mesh dst_mesh config <$> merge rows /\ merge rows ≡ₚ concat rows /\
  (Forall (fun b => box_of_numbers b = true) (boxes src_mesh ++ boxes dst_mesh) ->
     merge rows ≡ₚ concat (exhaustive_row src_mesh dst_mesh <$> seq 0 (n_cells dst_mesh))) /\
  (forall j, (j < n_cells dst_mesh)%nat -> filter (fun e => fst e = Z.of_nat j) (merge rows) = row_entries src_mesh dst_mesh j) /\
  frac_b matrix = (fun j => std_min (covered src_mesh dst_mesh j) one) <$> seq 0 (n_cells dst_mesh) /\
  well_formed matrix /\ Forall (fun w => SFltb w dzero = false) (factor_list matrix).
Proof.
  intros Hsrc Ssrc Hdst Sdst H60 H31 D1 D2 Psrc Pdst rows matrix. pose proof Ssrc as (_ & _ & Hns).
  set (l := merge rows) in *. assert (Hl : l = merged src_mesh dst_mesh) by done.
  assert (Hentry : forall e, e ∈ l -> exists j i, (j < n_cells dst_mesh)%nat /\ (i < n_cells src_mesh)%nat /\ usable dst_mesh j = true /\
    e = (Z.of_nat j, (Z.of_nat i, (ddiv (overlap src_mesh dst_mesh j i) (dst_area dst_mesh j), overlap src_mesh dst_mesh j i)))).
  { intros e (j & Hj & He)%merged_entry. apply row_entry in He as (Hu & i & Hi & _ & _ & ->). by exists j, i. }
  assert (Hrun : generate_conservative_planar src_mesh dst_mesh config = (let! _ := (if decide (unmapped config = Error)
    then for_each (seq 0 (n_cells dst_mesh)) (fun j _ => throw_if (usable dst_mesh j && negb (has_entry src_mesh dst_mesh j)) runtime_error) tt else Ok tt) in Ok matrix)).
  { unfold generate_conservative_planar. destruct (detect_regular_grid src_mesh) as [?| |]; [|done..]. destruct (detect_regular_grid dst_mesh) as [?| |]; [|done..]. cbn [bind].
    rewrite !flags_ok by done. cbn [bind]. rewrite !boxes_ok by done. cbn [bind]. rewrite (proj1 (get_cell_areas_ok src_mesh Hsrc Ssrc)), (proj1 (get_cell_areas_ok dst_mesh Hdst Sdst)). cbn [bind].
    destruct (centroids_total dst_mesh Hdst Sdst) as (cs & -> & _). cbn [bind]. rewrite coo_entries_ok by done. cbn [bind]. rewrite gather_ok by done. cbn [bind].
    assert (Er : rows_vec (acc_entries (gathered src_mesh dst_mesh (merged src_mesh dst_mesh))) = fst <$> merged src_mesh dst_mesh) by (cbn; by rewrite <- list_fmap_compose).
    rewrite Er, check_mapped_ok by done. apply bind_ext. intros []. rewrite gathered_covered. unfold gathered at 1. cbn [acc_entries].
    rewrite normalize_weights_entries; [|done|].
    - cbn [bind]. unfold matrix, search_matrix, gathered. cbn [frac_a_acc]. rewrite <- !list_fmap_compose. done.
    - apply Forall_fmap, list.Forall_forall. intros e (j & i & Hj & _ & _ & ->)%Hentry. cbn. lia. }
  split; [|split; [|split; [|split; [|split; [|split; [|split; [|split]]]]]]].
  - intros He j Hj Hu. rewrite Hrun, decide_True by done. by rewrite (check_throws _ _ j).
  - intros Hc. rewrite Hrun. destruct (decide (unmapped config = Error)) as [He|He]; [|done]. destruct Hc as [Hc|Hc]; [by rewrite Hc in He|].
    by rewrite check_passes.
  - unfold coo. cbn. apply zip_entries.
  - apply interleaving_perm, merge_interleaves.
  - by apply merged_exhaustive.
  - intros j Hj. by apply merged_row.
  - done.
  - unfold well_formed, nnz. cbn. rewrite !length_fmap. do 2 (split; [done|]).
    split; apply Forall_fmap, Forall_fmap, list.Forall_forall; intros e (j & i & Hj & Hi & _ & ->)%Hentry; cbn; lia.
  - cbn. apply Forall_fmap, Forall_fmap, list.Forall_forall. intros e (j & i & Hj & Hi & Hu & ->)%Hentry. cbn. apply normalized_not_negative.
    apply quotient_not_negative; [apply planar_fan_sign|]. unfold usable in Hu. apply andb_true_iff in Hu as [_ Hu]. by apply negb_true_iff in Hu.
Qed.
End Properties.

(** * Examples *)

#[local] Instance straight_libm : Libm := {| m_cos x := dsub one (dmul half (dmul x x)); m_sin x := x; m_asin x := x; m_atan2 y x := ddiv y x |}.

(** A tree that is a list, and threads that run one after the other. *)
#[local] Instance list_of_boxes : BoxTree.
Proof.
  refine {| query boxes q := filter (fun i => match boxes !! i with Some b => meet b q | None => false end = true) (seq 0 (length boxes)) |}; [|done].
  intros boxes q. apply list.Forall_forall. intros i [_ Hi%elem_of_seq]%list_elem_of_filter. lia.
Defined.

#[local] Instance in_turn : AtomicCounter := {| merge := @concat CooEntry; merge_interleaves := interleaving_concat |}.

(** A row of cells, and the cells halfway between. *)
Definition row_of (west width : double) (n : nat) : UnstructuredMesh := lattice n 1 (fun i => dadd west (dmul width (of_int (Z.of_nat i)))) (fun j => of_int (Z.of_nat j)).
Definition straight_lines (u : UnmappedAction) : RegridConfig := mkRegridConfig Conservative1stOrder DstArea Cartesian u false NoExtrapolation.

Lemma row_ok west width n : (0 < n)%nat -> mesh_sized (row_of west width n) -> mesh_ok (row_of west width n) /\ mesh_sized (row_of west width n).
Proof. intros Hn Hs. split; [by apply lattice_ok|done]. Qed.

Lemma generate_conservative_planar_correct_witness :
  generate_conservative_planar (row_of dzero one 2) (row_of half one 2) (straight_lines Ignore)
  = Ok (search_matrix (row_of dzero one 2) (row_of half one 2) (straight_lines Ignore) (merge (all_rows (row_of dzero one 2) (row_of half one 2)))).
Proof.
  destruct (row_ok dzero one 2) as [Hs Ss]; [lia|done|]. destruct (row_ok half one 2) as [Hd Sd]; [lia|done|].
  refine (proj1 (proj2 (generate_conservative_planar_correct (row_of dzero one 2) (row_of half one 2) (straight_lines Ignore) Hs Ss Hd Sd _ _ _ _ _ _)) _);
    [done|vm_compute; reflexivity|vm_compute; reflexivity|vm_compute; reflexivity| | |by left].
  - intros [|[|i]] Hi _; [vm_compute; reflexivity..|]. cbn in Hi. lia.
  - intros [|[|i]] Hi _; [vm_compute; reflexivity..|]. cbn in Hi. lia.
Defined.

(** Each of the destination cells covers the halves of two cells; the last one half of one. *)
Example halves : (let! m := generate_conservative_planar (row_of dzero one 2) (row_of half one 2) (straight_lines Ignore) in Ok (coo m, frac_a m, frac_b m))
  = Ok ([(0, (0, half)); (0, (1, half)); (1, (1, half))], [half; one], [one; half]).
Proof. vm_compute. reflexivity. Qed.

(** A destination cell that no source cell reaches. *)
Example far_cells_are_reported :
  (let! m := generate_conservative_planar (row_of dzero one 2) (row_of (of_int 3) one 1) (straight_lines Error) in Ok (coo m)) = Throw runtime_error.
Proof. vm_compute. reflexivity. Qed.

(** A cell that crosses the date line, in radians: its longitudes become neighbours. *)
Example across_the_date_line :
  let lons := [of_int 3; of_int (-3); of_int (-3); of_int 3] in
  let east := dadd (of_int 3) two_pi in
  let west := dadd (dadd (of_int (-3)) two_pi) two_pi in
  (crosses_dateline lons, dateline_normalize lons) = (Ok true, Ok [east; west; west; east]).
Proof. vm_compute. reflexivity. Qed.

(** The handler takes longitudes for radians: cells ten degrees wide seem to cross the date
    line, are moved by turns of two pi, and no longer meet. *)
Example wide_cells_are_lost : let src := row_of dzero (of_int 10) 3 in let dst := row_of (of_int 5) (of_int 10) 2 in
  (crosses_dateline (corners src 0 0), (let! m := generate_conservative_planar src dst (straight_lines Ignore) in Ok (coo m, frac_b m))) = (Ok true, Ok ([], [dzero; dzero])).
Proof. vm_compute. reflexivity. Qed.

(** A cell that does cross it, in radians, is moved away from its neighbours, which are not: what
    it shares with a cell this side of the date line is lost, though their boxes meet. *)
Definition near_seam : UnstructuredMesh := in_system SphericalRad (row_of (of_int 2) (ddiv (of_int 9) (of_int 8)) 1).
Definition over_seam : UnstructuredMesh := in_system SphericalRad (row_of (of_int 3) (of_int (-6)) 1).

Example seam_neighbours_are_lost :
  (candidates near_seam over_seam 0, usable near_seam 0, usable over_seam 0,
   (let! m := generate_conservative_planar near_seam over_seam (straight_lines Ignore) in Ok (coo m, frac_b m))) = ([0%nat], true, true, Ok ([], [dzero])).
Proof. vm_compute. reflexivity. Qed.
