(* ===== verification/VectorWeights.v ===== *)
(** * AXIS: weights for vector fields
    (src/libs/axis/src/solver/vector_regridder.cpp)

    The components of a vector on a grid are relative to the directions of the grid, which
    differ from cell to cell.  From the weights of a scalar field come two matrices over the
    stacked components of the source, one for each component of the destination, that
    rotate on the way. *)
From Stdlib Require Import ZArith Lia SpecFloat.
From stdpp Require Import base list numbers.
From S2P Require Import Prelude CInt Blend KokkosArrays InterpolationMatrix AxisMesh UnitInterval BilinearRect CoastalMask.
Local Open Scope Z_scope.

(** ** The assembly *)

(** A pair of entries of one of the matrices: [i + n_src] is unsigned, converted back. *)
Definition push_coupled (es : Entries) (j i : Z) (n_src : nat) (wu wv : double) : Entries :=
  push_entry (push_entry es wu j i) wv j (to_index (to_u64 (i + Z.of_nat n_src))).

Section Assembly.
Context `{!ParallelFor, !Libm}.

(** The angle between the grids at a pair of cells, as cosine and sine. *)
Definition rotation_of (src_alpha dst_alpha : list double) (j i : Z) : result (double * double) :=
  let! a_src := read src_alpha i in
  let! a_dst := read dst_alpha j in
  let diff_alpha := dsub a_dst a_src in
  Ok (m_cos diff_alpha, m_sin diff_alpha).

Definition coupled_entries (W : InterpolationMatrix) (src_alpha dst_alpha : list double) : result (Entries * Entries) :=
  for_each (seq 0 (nnz W)) (fun k '(u, v) =>
    let! '(j, i, w) := matrix_entry W k in
    let! '(cos_d, sin_d) := rotation_of src_alpha dst_alpha j i in
    Ok (push_coupled u j i (n_src W) (dmul w cos_d) (dmul w sin_d), push_coupled v j i (n_src W) (dmul (SFopp w) sin_d) (dmul w cos_d))) (no_entries, no_entries).

(** Fractions and areas for both components. *)
Definition stacked (orig : list double) (n_src : nat) : result (list double) :=
  for_each (range_order n_src) (fun i dev =>
    let! x := read orig (Z.of_nat i) in
    let! dev := write dev (Z.of_nat i) x in
    write dev (Z.of_nat (i + n_src)) x) (replicate (2 * n_src) dzero).

(** What follows the generation of the scalar weights [W]. *)
Definition couple (W : InterpolationMatrix) (src_alpha dst_alpha : list double) : result (InterpolationMatrix * InterpolationMatrix) :=
  let! '(u, v) := coupled_entries W src_alpha dst_alpha in
  let! dev_frac_a := stacked (frac_a W) (n_src W) in
  let! dev_area_a := stacked (area_a W) (n_src W) in
  Ok (new_matrix (weights_vec u) (rows_vec u) (cols_vec u) dev_frac_a (frac_b W) dev_area_a (area_b W) (2 * n_src W) (n_dst W),
      new_matrix (weights_vec v) (rows_vec v) (cols_vec v) dev_frac_a (frac_b W) dev_area_a (area_b W) (2 * n_src W) (n_dst W)).

(** * Specification *)

Definition angle (src_alpha dst_alpha : list double) (e : Z * (Z * double)) : double :=
  dsub (default dzero (dst_alpha !! Z.to_nat (fst e))) (default dzero (src_alpha !! Z.to_nat (fst (snd e)))).

(** The two entries an entry of the scalar matrix becomes: of the first component and, stacked
    after all of those, of the second. *)
Definition pair_entries (n_src : nat) (e : Z * (Z * double)) (wu wv : double) : list (Z * (Z * double)) :=
  [(fst e, (fst (snd e), wu)); (fst e, (fst (snd e) + Z.of_nat n_src, wv))].

Definition u_entries (n_src : nat) (src_alpha dst_alpha : list double) (e : Z * (Z * double)) : list (Z * (Z * double)) :=
  let a := angle src_alpha dst_alpha e in pair_entries n_src e (dmul (snd (snd e)) (m_cos a)) (dmul (snd (snd e)) (m_sin a)).

Definition v_entries (n_src : nat) (src_alpha dst_alpha : list double) (e : Z * (Z * double)) : list (Z * (Z * double)) :=
  let a := angle src_alpha dst_alpha e in pair_entries n_src e (dmul (SFopp (snd (snd e))) (m_sin a)) (dmul (snd (snd e)) (m_cos a)).

(** * Lemmas *)

Lemma push_coupled_of l j i n wu wv : 0 <= i < Z.of_nat n -> 2 * Z.of_nat n < 2 ^ 63 ->
  push_coupled (entries_of l) j i n wu wv = entries_of (l ++ [(j, (i, wu)); (j, (i + Z.of_nat n, wv))]).
Proof.
  intros Hi Hn. unfold push_coupled. rewrite !push_entries_of. rewrite to_u64_id by lia. rewrite to_index_id by lia. by rewrite <- app_assoc.
Qed.

Lemma rotation_ok src_alpha dst_alpha e : 0 <= fst e < Z.of_nat (length dst_alpha) -> 0 <= fst (snd e) < Z.of_nat (length src_alpha) ->
  rotation_of src_alpha dst_alpha (fst e) (fst (snd e)) = Ok (m_cos (angle src_alpha dst_alpha e), m_sin (angle src_alpha dst_alpha e)).
Proof.
  intros Hj Hi. unfold rotation_of, angle. destruct (read_in_bounds src_alpha _ Hi) as (a & -> & ->). cbn [bind].
  destruct (read_in_bounds dst_alpha _ Hj) as (b & -> & ->). done.
Qed.

Lemma coupled_ok W src_alpha dst_alpha : well_formed W -> length src_alpha = n_src W -> length dst_alpha = n_dst W -> 2 * Z.of_nat (n_src W) < 2 ^ 63 ->
  coupled_entries W src_alpha dst_alpha = Ok (entries_of (coo W ≫= u_entries (n_src W) src_alpha dst_alpha), entries_of (coo W ≫= v_entries (n_src W) src_alpha dst_alpha)).
Proof.
  intros Hw Hs Hd Hn. pose proof (length_coo W Hw) as Hl. unfold coupled_entries.
  destruct (for_each_inv (fun k uv => uv = (entries_of (take k (coo W) ≫= u_entries (n_src W) src_alpha dst_alpha), entries_of (take k (coo W) ≫= v_entries (n_src W) src_alpha dst_alpha)))
    (nnz W) (fun k '(u, v) => let! '(j, i, w) := matrix_entry W k in let! '(cos_d, sin_d) := rotation_of src_alpha dst_alpha j i in
      Ok (push_coupled u j i (n_src W) (dmul w cos_d) (dmul w sin_d), push_coupled v j i (n_src W) (dmul (SFopp w) sin_d) (dmul w cos_d)))
    (no_entries, no_entries)) as (uv & E & ->); [|done|rewrite E, take_ge by lia; done].
  intros k uv Hk ->. destruct (lookup_lt_is_Some_2 (coo W) k) as [e He]; [lia|]. rewrite (matrix_entry_ok W k e Hw He). cbn [bind].
  destruct (coo_range W e Hw (list_elem_of_lookup_2 _ _ _ He)) as [Hj Hi]. rewrite rotation_ok by lia. cbn [bind].
  rewrite !push_coupled_of by done. eexists. split; [done|]. change (1 + k)%nat with (S k). rewrite (take_S_r _ _ _ He), !bind_app. cbn [mbind list_bind].
  by rewrite !app_nil_r.
Qed.

Lemma stacked_ok orig n : length orig = n -> stacked orig n = Ok (orig ++ orig).
Proof.
  intros Hl. unfold stacked.
  destruct (for_each_establish (fun d => length d = (2 * n)%nat) (fun i d => (i < n)%nat -> d !! i = orig !! i /\ d !! (i + n)%nat = orig !! i) (range_order n)
    (fun i dev => let! x := read orig (Z.of_nat i) in let! dev := write dev (Z.of_nat i) x in write dev (Z.of_nat (i + n)) x) (replicate (2 * n) dzero))
    as (d & E & L & Q & _); [|by rewrite length_replicate|].
  - intros i d Hi L. rewrite range_order_perm in Hi. apply elem_of_seq in Hi. destruct (lookup_lt_is_Some_2 orig i) as [x Ex]; [lia|]. rewrite (read_nat _ _ _ Ex). cbn [bind].
    rewrite write_in_bounds by lia. cbn [bind]. rewrite write_in_bounds by (rewrite length_insert; lia). rewrite !Nat2Z.id.
    exists (<[(i + n)%nat := x]> (<[i := x]> d)). split; [done|]. split; [by rewrite !length_insert|]. split.
    + intros _. rewrite list_lookup_insert_ne by lia. rewrite !list_lookup_insert_eq by (rewrite ?length_insert; lia). by rewrite Ex.
    + intros k Hk Hlt. destruct (Hk Hlt) as [K1 K2]. destruct (decide (k = i)) as [->|Hne].
      * rewrite list_lookup_insert_ne by lia. rewrite !list_lookup_insert_eq by (rewrite ?length_insert; lia). by rewrite Ex.
      * rewrite !list_lookup_insert_ne by lia. done.
  - rewrite E. f_equal. apply list_eq. intros k.
    assert (Hq : forall i, (i < n)%nat -> d !! i = orig !! i /\ d !! (i + n)%nat = orig !! i) by (intros i Hi; apply Q; [rewrite range_order_perm; apply elem_of_seq; lia|done]).
    destruct (decide (k < n)%nat) as [Hk|Hk]; [rewrite lookup_app_l by lia; by apply Hq|]. rewrite lookup_app_r, Hl by lia.
    destruct (decide (k < 2 * n)%nat) as [H2|H2]; [|by rewrite !lookup_ge_None_2 by lia]. destruct (Hq (k - n)%nat ltac:(lia)) as [_ <-]. f_equal. lia.
Qed.
End Assembly.

(** * Properties *)

Section Properties.
Context `{!ParallelFor, !Libm}.

Lemma coupled_range W src_alpha dst_alpha (es : Z * (Z * double) -> list (Z * (Z * double))) :
  (es = u_entries (n_src W) src_alpha dst_alpha \/ es = v_entries (n_src W) src_alpha dst_alpha) -> well_formed W ->
  forall e, e ∈ coo W ≫= es -> 0 <= fst e < Z.of_nat (n_dst W) /\ 0 <= fst (snd e) < Z.of_nat (2 * n_src W).
Proof.
  intros Hes Hw e (e0 & He & He0)%list_elem_of_bind. destruct (coo_range W e0 Hw He0) as [Hj Hi].
  destruct Hes as [-> | ->]; unfold u_entries, v_entries, pair_entries in He; apply elem_of_cons in He as [->|[->|He%not_elem_of_nil]%elem_of_cons]; cbn; done || lia.
Qed.

(** C39. The coupling of vector_regridder.cpp, for a well-formed scalar matrix, an angle for every cell and
    fractions and areas for every source cell.  Each weight [w] for source [i] and destination [j] becomes
    [w cos d] for the first and [w sin d] for the second component of [i] in the row [j] of the first
    matrix, [- w sin d] and [w cos d] in that of the second, [d] the angle of [j] less that of
    [i]; the second component of cell [i] has the column [i + n_src].  Both matrices are well formed over twice
    the source cells, with the fractions and areas of the source repeated. *)
Theorem couple_correct W src_alpha dst_alpha : well_formed W -> length src_alpha = n_src W -> length dst_alpha = n_dst W ->
  length (frac_a W) = n_src W -> length (area_a W) = n_src W -> 2 * Z.of_nat (n_src W) < 2 ^ 63 ->
  exists W_u W_v, couple W src_alpha dst_alpha = Ok (W_u, W_v) /\ well_formed W_u /\ well_formed W_v /\
    coo W_u = coo W ≫= u_entries (n_src W) src_alpha dst_alpha /\ coo W_v = coo W ≫= v_entries (n_src W) src_alpha dst_alpha /\
    (n_src W_u, n_dst W_u, frac_a W_u, area_a W_u, frac_b W_u, area_b W_u)
      = ((2 * n_src W)%nat, n_dst W, frac_a W ++ frac_a W, area_a W ++ area_a W, frac_b W, area_b W) /\
    (n_src W_v, n_dst W_v, frac_a W_v, area_a W_v, frac_b W_v, area_b W_v) = (n_src W_u, n_dst W_u, frac_a W_u, area_a W_u, frac_b W_u, area_b W_u).
Proof.
  intros Hw Hs Hd Hf Ha Hn. unfold couple. rewrite coupled_ok by done. cbn [bind]. rewrite !stacked_ok by done. cbn [bind].
  set (base := new_matrix [] [] [] (frac_a W ++ frac_a W) (frac_b W) (area_a W ++ area_a W) (area_b W) (2 * n_src W) (n_dst W)).
  exists (matrix_of base (coo W ≫= u_entries (n_src W) src_alpha dst_alpha)), (matrix_of base (coo W ≫= v_entries (n_src W) src_alpha dst_alpha)).
  split; [done|]. split; [apply matrix_of_well_formed, (coupled_range W src_alpha dst_alpha); [by left|done]|].
  split; [apply matrix_of_well_formed, (coupled_range W src_alpha dst_alpha); [by right|done]|]. rewrite !coo_matrix_of. done.
Qed.

(** Between grids of the same direction nothing turns: with a cosine of one and a sine of zero at zero, the angle is zero
    and the weights are [w] and zeros. *)
Lemma same_direction src_alpha dst_alpha e a : m_cos dzero = one -> m_sin dzero = dzero -> (exists s m ex, a = S754_finite s m ex) ->
  src_alpha !! Z.to_nat (fst (snd e)) = Some a -> dst_alpha !! Z.to_nat (fst e) = Some a ->
  u_entries (length src_alpha) src_alpha dst_alpha e = pair_entries (length src_alpha) e (dmul (snd (snd e)) one) (dmul (snd (snd e)) dzero).
Proof.
  intros Hc Hsin (s & m & ex & ->) Es Ed. unfold u_entries, angle. rewrite Es, Ed. cbn [default from_option id].
  assert (E : dsub (S754_finite s m ex) (S754_finite s m ex) = dzero) by (unfold dsub, SFsub; by rewrite Z.sub_diag). by rewrite E, Hc, Hsin.
Qed.
End Properties.

(** * Examples *)

#[local] Instance right_angles : Libm := {| m_cos x := if SFeqb x dzero then one else dzero; m_sin x := if SFeqb x dzero then dzero else one; m_asin x := x; m_atan2 y x := ddiv y x |}.
#[local] Instance upward_range : ParallelFor.
Proof. refine {| range_order n := seq 0 n |}. done. Defined.

Definition both_areas : InterpolationMatrix := new_matrix [half; half; one] [0; 0; 1] [0; 1; 1] [one; one] [one; one] [one; one] [one; one] 2 2.

Lemma couple_correct_witness : exists W_u W_v, couple both_areas [dzero; dzero] [dzero; one] = Ok (W_u, W_v) /\ well_formed W_u /\ well_formed W_v.
Proof.
  assert (Hw : well_formed both_areas) by (split; [done|]; split; [done|]; split; repeat constructor; cbn; lia).
  destruct (couple_correct both_areas [dzero; dzero] [dzero; one] Hw eq_refl eq_refl eq_refl eq_refl ltac:(done)) as (u & v & E & Hu & Hv & _).
  exists u, v. split; [exact E|]. split; [exact Hu|exact Hv].
Defined.

(** A destination cell at a right angle has the second component of the source as its first. *)
Example quarter_turn :
  (let! '(u, v) := couple both_areas [dzero; dzero] [dzero; one] in Ok (row_entries 1 (coo u), row_entries 1 (coo v)))
  = Ok ([(1, dzero); (3, one)], [(1, SFopp one); (3, dzero)]).
Proof. vm_compute. reflexivity. Qed.
