(* ===== verification/WeightGenerator.v ===== *)
(** * AXIS: the weight generator
    (src/libs/axis/src/solver/weight_generator.cpp: generate, generate_bilinear, generate_conservative)

    The entry point refuses meshes that cannot be compared, chooses a method and post-processes
    its matrix.  The methods that are not modelled, which search with trees, are an interface
    ([SearchMethods]): what is shown here holds for any of them. *)
From Stdlib Require Import ZArith Lia SpecFloat.
From stdpp Require Import base list numbers.
From S2P Require Import Prelude CInt Blend KokkosArrays InterpolationMatrix AxisMesh StructuredGrid Magnitude DoubleOrder RegularGrid BilinearRect ConservativeRectilinear ConservativeRect CoastalMask NearestWeights ConservativeSearch VectorWeights.
Local Open Scope Z_scope.

(** ** The methods *)

Class SearchMethods := {
  search_bilinear : UnstructuredMesh -> UnstructuredMesh -> RegridConfig -> result InterpolationMatrix;
  generate_bicubic : UnstructuredMesh -> UnstructuredMesh -> RegridConfig -> result InterpolationMatrix;
  generate_patch : UnstructuredMesh -> UnstructuredMesh -> RegridConfig -> result InterpolationMatrix;
  generate_conservative_sphere : UnstructuredMesh -> UnstructuredMesh -> RegridConfig -> result InterpolationMatrix;
  generate_conservative_2nd_order : UnstructuredMesh -> UnstructuredMesh -> RegridConfig -> result InterpolationMatrix
}.

#[global] Instance LineType_eq_dec : EqDecision LineType.
Proof. solve_decision. Defined.

Section Generator.
Context `{!Libm, !NearestTree, !AscendingSort, !ParallelFor, !BoxTree, !AtomicCounter, !SearchMethods}.

(** The analytic paths first, in order; an empty matrix declines. *)
Definition generate_bilinear (src_mesh dst_mesh : UnstructuredMesh) (config : RegridConfig) : result InterpolationMatrix :=
  let! src_grid_info := detect_regular_grid src_mesh in
  let! dst_grid_info := detect_regular_grid dst_mesh in
  let! fast := if is_regular src_grid_info && is_regular dst_grid_info then
      let! m := generate_bilinear_rect src_mesh dst_mesh config src_grid_info in Ok (if (0 <? n_dst m)%nat then Some m else None)
    else Ok None in
  match fast with
  | Some m => Ok m
  | None =>
      let! src_rect_info := detect_rectilinear_grid src_mesh in
      let! fast := if is_rectilinear src_rect_info then
          let! m := generate_bilinear_rect_nonuniform src_mesh dst_mesh src_rect_info in Ok (if (0 <? n_dst m)%nat then Some m else None)
        else Ok None in
      match fast with Some m => Ok m | None => search_bilinear src_mesh dst_mesh config end
  end.

(** [result.n_dst() > 0 && (config.unmapped != UnmappedAction::Error || result.nnz() > 0)] *)
Definition accepted (config : RegridConfig) (m : InterpolationMatrix) : bool :=
  (0 <? n_dst m)%nat && (negb (bool_decide (unmapped config = Error)) || (0 <? nnz m)%nat).

Definition generate_conservative (src_mesh dst_mesh : UnstructuredMesh) (config : RegridConfig) : result InterpolationMatrix :=
  let! src_grid_info := detect_regular_grid src_mesh in
  let! dst_grid_info := detect_regular_grid dst_mesh in
  let! fast := if is_regular src_grid_info && is_regular dst_grid_info then
      let! m := generate_conservative_rect src_mesh dst_mesh src_grid_info dst_grid_info config in Ok (if accepted config m then Some m else None)
    else Ok None in
  match fast with
  | Some m => Ok m
  | None =>
      let! src_rect_info := detect_rectilinear_grid src_mesh in
      let! dst_rect_info := detect_rectilinear_grid dst_mesh in
      let! fast := if is_rectilinear src_rect_info && is_rectilinear dst_rect_info then
          let! m := generate_conservative_rect_nonuniform src_mesh dst_mesh src_rect_info dst_rect_info config in Ok (if accepted config m then Some m else None)
        else Ok None in
      match fast with
      | Some m => Ok m
      | None => if decide (line_type config = GreatCircle) then generate_conservative_sphere src_mesh dst_mesh config else generate_conservative_planar src_mesh dst_mesh config
      end
  end.

Definition raw_matrix (src_mesh dst_mesh : UnstructuredMesh) (config : RegridConfig) : result InterpolationMatrix :=
  match method config with
  | Bilinear => generate_bilinear src_mesh dst_mesh config
  | NearestNeighbor => generate_nearest src_mesh dst_mesh config
  | Bicubic => generate_bicubic src_mesh dst_mesh config
  | Patch => generate_patch src_mesh dst_mesh config
  | Conservative1stOrder => generate_conservative src_mesh dst_mesh config
  | Conservative2ndOrder => generate_conservative_2nd_order src_mesh dst_mesh config
  end.

(** ** The guards *)

(** One cell in the smallest and largest longitude of a center; a cell without nodes is left out. *)
Definition widen_range (m : UnstructuredMesh) (c : nat) (range : double * double) : result (double * double) :=
  let! start := read (conn_offsets m) (Z.of_nat c) in
  let! end_ := read (conn_offsets m) (Z.of_nat c + 1) in
  let n_verts := to_u64 (to_u64 end_ - to_u64 start) in
  if n_verts =? 0 then Ok range
  else
    let! sx := for_each (seq 0 (Z.to_nat (to_u64 end_ - to_u64 start))) (fun v sx =>
      let! i := read (conn_indices m) (to_u64 start + Z.of_nat v) in
      let! lon := read2 (node_coords m) (to_u64 i) 0 in
      Ok (dadd sx lon)) dzero in
    let cx := ddiv sx (of_int n_verts) in
    Ok (std_min (fst range) cx, std_max (snd range) cx).

Definition longitude_range (m : UnstructuredMesh) : result (double * double) :=
  for_each (seq 0 (n_cells m)) (widen_range m) (double_max, SFopp double_max).

Definition disjoint (s d : double * double) : bool := SFltb (snd s) (fst d) || SFltb (snd d) (fst s).

Definition period_of (cs : CoordinateSystem) : double := if degrees cs then c360 else dmul (of_int 2) PI.

(** The whole periods between the middles of the ranges. *)
Definition shift_of (cs : CoordinateSystem) (s d : double * double) : double :=
  let src_centroid := dmul half (dadd (fst s) (snd s)) in
  let dst_centroid := dmul half (dadd (fst d) (snd d)) in
  dmul (dround (ddiv (dsub src_centroid dst_centroid) (period_of cs))) (period_of cs).

Definition overlaps_after_shift (cs : CoordinateSystem) (s d : double * double) : bool :=
  let shift := shift_of cs s d in
  negb (disjoint s (dadd (fst d) shift, dadd (snd d) shift)).

Definition is_structured_fast_path (src_mesh : UnstructuredMesh) (config : RegridConfig) : result bool :=
  if decide (method config = Bilinear \/ method config = Bicubic \/ method config = Patch) then
    let! src_reg := detect_regular_grid src_mesh in
    let! src_rect := detect_rectilinear_grid src_mesh in
    Ok (is_regular src_reg || is_rectilinear src_rect)
  else Ok false.

Definition check_longitudes (src_mesh dst_mesh : UnstructuredMesh) (config : RegridConfig) : result unit :=
  let cs := coord_sys src_mesh in
  if spherical cs then
    let! s := longitude_range src_mesh in
    let! d := longitude_range dst_mesh in
    if disjoint s d then
      let! fast := is_structured_fast_path src_mesh config in
      throw_if (overlaps_after_shift cs s d && negb fast) invalid_argument
    else Ok tt
  else Ok tt.

Definition generate (src_mesh dst_mesh : UnstructuredMesh) (config : RegridConfig) : result InterpolationMatrix :=
  if decide (coord_sys src_mesh = coord_sys dst_mesh) then
    do! check_longitudes src_mesh dst_mesh config then
    let! raw := raw_matrix src_mesh dst_mesh config in
    coastal_renormalize_and_extrapolate src_mesh dst_mesh raw config
  else Throw invalid_argument.

(** [VectorWeightGenerator::generate] of vector_regridder.cpp *)
Definition vector_generate (src_mesh dst_mesh : UnstructuredMesh) (src_alpha dst_alpha : list double) (config : RegridConfig)
  : result (InterpolationMatrix * InterpolationMatrix) :=
  let! W_scalar := generate src_mesh dst_mesh config in
  couple W_scalar src_alpha dst_alpha.
End Generator.

(** * Specification *)

(** The longitudes of the centers of the cells that have nodes. *)
Definition center_longitudes (m : UnstructuredMesh) : list double :=
  (fun c => fst (cell_center m c)) <$> filter (fun c => cell_nodes m c <> []) (seq 0 (n_cells m)).

Definition range_of (m : UnstructuredMesh) : double * double :=
  (foldl std_min double_max (center_longitudes m), foldl std_max (SFopp double_max) (center_longitudes m)).

(** The longitudes have nothing in common, but would after a shift of whole periods. *)
Definition misplaced (src_mesh dst_mesh : UnstructuredMesh) : bool :=
  spherical (coord_sys src_mesh) && disjoint (range_of src_mesh) (range_of dst_mesh) &&
  overlaps_after_shift (coord_sys src_mesh) (range_of src_mesh) (range_of dst_mesh).

(** * Lemmas *)

Lemma longitude_range_ok m : mesh_ok m -> mesh_sized m -> longitude_range m = Ok (range_of m).
Proof.
  intros Hm Hs. pose proof Hs as (Hn & Hi & _). destruct (mesh_coords m Hm) as [Hv H2]. unfold longitude_range, range_of, center_longitudes.
  destruct (for_each_inv (fun c r => let l := (fun c => fst (cell_center m c)) <$> filter (fun c => cell_nodes m c <> []) (seq 0 c) in
      r = (foldl std_min double_max l, foldl std_max (SFopp double_max) l)) (n_cells m) (widen_range m) (double_max, SFopp double_max)) as (r & -> & ->); [|done|done].
  intros c r Hc ->. unfold widen_range. rewrite read_offset by (done || lia). cbn [bind]. replace (Z.of_nat c + 1) with (Z.of_nat (c + 1)) by lia. rewrite read_offset by (done || lia). cbn [bind].
  pose proof (offset_bounds m c Hm ltac:(lia)) as B0. pose proof (offset_bounds m (c + 1) Hm ltac:(lia)) as B1. pose proof (cell_nodes_length m c Hm Hc) as Hl.
  rewrite (to_u64_id (offset m c)), (to_u64_id (offset m (c + 1))) by lia. rewrite <- Hl. rewrite to_u64_id by lia. rewrite Nat2Z.id.
  change (1 + c)%nat with (S c). rewrite seq_S, list.filter_app, filter_cons, filter_nil. cbn [Nat.add].
  destruct (Z.eqb_spec (Z.of_nat (length (cell_nodes m c))) 0) as [E|E].
  - rewrite decide_False by (intros C; apply C, length_zero_iff_nil; lia). rewrite app_nil_r. by eexists.
  - rewrite decide_True by (intros C; rewrite C in E; done). cbv zeta. rewrite fmap_app, !foldl_app. cbn [fmap list_fmap foldl].
    destruct (for_each_inv (fun i s => s = sum_of ((fun v => coord (node_coords m) v 0) <$> take i (cell_nodes m c))) (length (cell_nodes m c)) (fun v sx =>
        let! i := read (conn_indices m) (offset m c + Z.of_nat v) in let! lon := read2 (node_coords m) (to_u64 i) 0 in Ok (dadd sx lon)) dzero) as (s & -> & ->); [|done|].
    + intros i s Hlt ->. destruct (lookup_lt_is_Some_2 (cell_nodes m c) i Hlt) as [v Ev]. rewrite (cell_nodes_read m c Hm Hc i v Ev). cbn [bind].
      pose proof (cell_nodes_range m c Hm) as Hr. rewrite list.Forall_forall in Hr. specialize (Hr v (list_elem_of_lookup_2 _ _ _ Ev)). unfold n_nodes in *.
      rewrite to_u64_id by lia. rewrite read2_ok by (done || lia). cbn [bind]. eexists. split; [done|]. change (1 + i)%nat with (S i).
      rewrite (take_S_r _ _ _ Ev), fmap_app. cbn [fmap list_fmap]. by rewrite sum_of_snoc.
    + cbn [bind]. rewrite take_ge by lia. eexists. split; [done|]. done.
Qed.

(** * Properties *)

Section Properties.
Context `{!Libm, !NearestTree, !AscendingSort, !ParallelFor, !BoxTree, !AtomicCounter, !SearchMethods}.

(** What the guards decide for meshes of one coordinate system. *)
Lemma check_longitudes_ok src_mesh dst_mesh config fast : mesh_ok src_mesh /\ mesh_sized src_mesh -> mesh_ok dst_mesh /\ mesh_sized dst_mesh ->
  is_structured_fast_path src_mesh config = Ok fast ->
  check_longitudes src_mesh dst_mesh config = if misplaced src_mesh dst_mesh && negb fast then Throw invalid_argument else Ok tt.
Proof.
  intros [Hs Ss] [Hd Sd] Hf. unfold check_longitudes, misplaced. destruct (spherical (coord_sys src_mesh)); [|done]. cbn [andb].
  rewrite !longitude_range_ok by done. cbn [bind]. destruct (disjoint (range_of src_mesh) (range_of dst_mesh)); [|done]. rewrite Hf. cbn [bind andb].
  by destruct (overlaps_after_shift _ _ _ && negb fast).
Qed.

(** [WeightGenerator::generate], for well-formed meshes.  Meshes of different coordinate systems are refused with
    [invalid_argument], whatever the method; so are meshes on the sphere whose centers have no
    longitude in common but would after a shift of whole periods, unless the method has an analytic
    path for the source grid.  In all other cases the matrix of the chosen
    method is made and post-processed for coasts, and what that does is what the call gives,
    exceptions included; nothing is generated for meshes that are refused. *)
Theorem weight_generator_correct src_mesh dst_mesh config fast : mesh_ok src_mesh /\ mesh_sized src_mesh -> mesh_ok dst_mesh /\ mesh_sized dst_mesh ->
  is_structured_fast_path src_mesh config = Ok fast ->
  generate src_mesh dst_mesh config =
    if decide (coord_sys src_mesh <> coord_sys dst_mesh) then Throw invalid_argument
    else if misplaced src_mesh dst_mesh && negb fast then Throw invalid_argument
    else let! raw := raw_matrix src_mesh dst_mesh config in coastal_renormalize_and_extrapolate src_mesh dst_mesh raw config.
Proof.
  intros Hs Hd Hf. unfold generate. destruct (decide (coord_sys src_mesh = coord_sys dst_mesh)) as [E|E].
  - rewrite decide_False by (intros C; done). rewrite (check_longitudes_ok _ _ _ fast) by done. by destruct (misplaced src_mesh dst_mesh && negb fast).
  - by rewrite decide_True.
Qed.

(** The range of the centers: for centers that are numbers not beyond the largest one, its ends are
    attained and nothing lies outside. *)
Lemma range_spec m : Forall (fun x => isnan x = false) (center_longitudes m) ->
  Forall (fun x => not_above (fst (range_of m)) x /\ not_above x (snd (range_of m))) (center_longitudes m) /\
  fst (range_of m) ∈ double_max :: center_longitudes m /\ snd (range_of m) ∈ SFopp double_max :: center_longitudes m.
Proof.
  intros Hn. destruct (foldl_min_spec (center_longitudes m) double_max eq_refl Hn) as (M1 & _ & M2).
  destruct (foldl_max_spec (center_longitudes m) (SFopp double_max) eq_refl Hn) as (X1 & _ & X2).
  split; [|by split]. rewrite list.Forall_forall in M2, X2. apply list.Forall_forall. intros x Hx. split; [apply M2|apply X2]; by right.
Qed.
End Properties.

(** * Examples *)

#[local] Instance straight_libm : Libm := {| m_cos x := x; m_sin x := x; m_asin x := x; m_atan2 y x := ddiv y x |}.
#[local] Instance in_sequence : ParallelFor.
Proof. refine {| range_order n := seq 0 n |}. done. Defined.
#[local] Existing Instance list_of_boxes.
#[local] Existing Instance in_turn.
#[local] Instance no_search : SearchMethods :=
  {| search_bilinear _ _ _ := Throw runtime_error; generate_bicubic _ _ _ := Throw runtime_error; generate_patch _ _ _ := Throw runtime_error;
     generate_conservative_sphere _ _ _ := Throw runtime_error;
     generate_conservative_2nd_order _ _ _ := Throw runtime_error |}.

(** Cells of the eastern hemisphere, and the same cells a turn further west. *)
Definition strip (west : Z) : UnstructuredMesh := lattice 2 1 (fun i => of_int (west + 60 * Z.of_nat i)) (fun j => of_int (90 * Z.of_nat j - 45)).
Definition by_nearest : RegridConfig := mkRegridConfig NearestNeighbor DstArea GreatCircle Ignore false NoExtrapolation.

Lemma strip_ok west : mesh_ok (strip west) /\ mesh_sized (strip west).
Proof. split; [apply lattice_ok; lia|done]. Qed.

Lemma strips_misplaced : misplaced (strip 30) (strip (-330)) = true.
Proof. vm_compute. reflexivity. Qed.

Lemma weight_generator_correct_witness : generate (strip 30) (strip (-330)) by_nearest = Throw invalid_argument.
Proof.
  pose proof (weight_generator_correct (strip 30) (strip (-330)) by_nearest false (strip_ok 30) (strip_ok (-330)) eq_refl) as E.
  rewrite strips_misplaced in E. exact E.
Defined.

(** Within reach of each other the strips are regridded.  The analytic path excuses the others from the
    guard, but a regional source does not wrap around: no destination cell is mapped. *)
Example strips_in_place :
  ((let! m := generate (strip 30) (strip 30) by_nearest in Ok (coo m)),
   (let! m := generate (strip 30) (strip (-330)) default_config in Ok (length (coo m), frac_b m))) = (Ok [(0, (0, one)); (1, (1, one))], Ok (0%nat, [dzero; dzero])).
Proof. vm_compute. reflexivity. Qed.
