(* ===== verification/VerticalRegridder.v ===== *)
(** * AXIS: interpolation between vertical levels
    (src/libs/axis/src/detail/tspack.cpp, src/libs/axis/src/solver/vertical_regridder.cpp)

    Each column is a team with scratch memory of its own: the levels and values of the source
    in ascending order, the slopes and a work array.  One thread solves for the slopes, then
    each destination level is evaluated.  The result is that of a pure function of the column,
    whatever the order of the teams and of their threads. *)
From Stdlib Require Import ZArith Lia SpecFloat.
From stdpp Require Import base list numbers.
From S2P Require Import Prelude CInt Blend KokkosArrays AxisMesh Magnitude UnitInterval DoubleOrder.
Local Open Scope Z_scope.

(** The hyperbolic functions of the mathematical library. *)
Class Hyperbolic := { m_sinh : double -> double; m_cosh : double -> double }.

(** The memory of a team, [None] where nothing has been written: [src_x], [src_y], [d] and
    [scratch_arr] of [n] numbers each. *)
Abbreviation scratch := (list (option double)).

Definition two : double := of_int 2.
Definition three : double := of_int 3.
Definition tiny : double := S754_finite false 5070602400912918 (-102).

(** ** Splines under tension *)

Section Splines.
Context `{!Hyperbolic}.

(** The basis functions [h00] of the branch under tension are not used. *)
Definition evaluate_spline (x x1 x2 y1 y2 d1 d2 sigma : double) : double :=
  let dx := dsub x2 x1 in
  if SFleb dx dzero then y1
  else
    let t := ddiv (dsub x x1) dx in
    if SFleb sigma dzero then
      let h00 := dmul (dmul (dadd one (dmul two t)) (dsub one t)) (dsub one t) in
      let h10 := dmul (dmul t (dsub one t)) (dsub one t) in
      let h01 := dmul (dmul t t) (dsub three (dmul two t)) in
      let h11 := dmul (dmul t t) (dsub t one) in
      dadd (dadd (dadd (dmul y1 h00) (dmul (dmul d1 dx) h10)) (dmul y2 h01)) (dmul (dmul d2 dx) h11)
    else
      let sig_t := dmul sigma t in
      let sig_1_t := dmul sigma (dsub one t) in
      let denom := m_sinh sigma in
      if SFeqb denom dzero then y1
      else
        let mt := dsub one t in
        let s_sig := m_sinh sigma in
        let d_term := dsub (dmul sigma (m_cosh sigma)) s_sig in
        let d_term := if SFeqb d_term dzero then tiny else d_term in
        let e1 := dsub (m_sinh sig_1_t) (dmul mt s_sig) in
        let e2 := dsub (m_sinh sig_t) (dmul t s_sig) in
        dadd (dadd (dadd (dmul y1 mt) (dmul y2 t)) (ddiv (dmul (dsub (dmul d1 dx) (dsub y2 y1)) e1) d_term))
          (ddiv (dmul (dsub (dmul d2 dx) (dsub y2 y1)) e2) d_term).

(** ** Scratch memory *)

Definition at_x (n i : nat) : nat := i.
Definition at_y (n i : nat) : nat := (n + i)%nat.
Definition at_d (n i : nat) : nat := (2 * n + i)%nat.
Definition at_t (n i : nat) : nat := (3 * n + i)%nat.

Definition sread (s : scratch) (a : nat) : result double := match s !! a with Some (Some x) => Ok x | _ => Undef end.
Definition swrite (s : scratch) (a : nat) (x : double) : result scratch := if (a <? length s)%nat then Ok (<[a := Some x]> s) else Undef.

(** [if (dx <= 0.0) dx = 1e-15;] *)
Definition positive_gap (dx : double) : double := if SFleb dx dzero then tiny else dx.

(** A step of the elimination. *)
Definition eliminate (n i : nat) (s : scratch) : result scratch :=
  let! x0 := sread s (at_x n (i - 1)) in
  let! x1 := sread s (at_x n i) in
  let! x2 := sread s (at_x n (i + 1)) in
  let! y0 := sread s (at_y n (i - 1)) in
  let! y1 := sread s (at_y n i) in
  let! y2 := sread s (at_y n (i + 1)) in
  let dx1 := positive_gap (dsub x1 x0) in
  let dx2 := positive_gap (dsub x2 x1) in
  let dy1 := ddiv (dsub y1 y0) dx1 in
  let dy2 := ddiv (dsub y2 y1) dx2 in
  let! t := sread s (at_t n (i - 1)) in
  let denom := dsub (dmul two (dadd dx1 dx2)) (dmul dx1 t) in
  let denom := if SFeqb denom dzero then tiny else denom in
  let! s := swrite s (at_t n i) (ddiv dx2 denom) in
  let! d := sread s (at_d n (i - 1)) in
  swrite s (at_d n i) (ddiv (dsub (dmul three (dsub dy2 dy1)) (dmul dx1 d)) denom).

(** A step of the back substitution. *)
Definition substitute (n i : nat) (s : scratch) : result scratch :=
  let! d := sread s (at_d n i) in
  let! t := sread s (at_t n i) in
  let! d' := sread s (at_d n (i + 1)) in
  swrite s (at_d n i) (dsub d (dmul t d')).

Definition solve_column_spline (n : nat) (s : scratch) : result scratch :=
  if (n <? 2)%nat then Ok s
  else if (n =? 2)%nat then
    let! y1 := sread s (at_y n 1) in
    let! y0 := sread s (at_y n 0) in
    let! x1 := sread s (at_x n 1) in
    let! x0 := sread s (at_x n 0) in
    let! s := swrite s (at_d n 0) (ddiv (dsub y1 y0) (dsub x1 x0)) in
    let! d := sread s (at_d n 0) in
    swrite s (at_d n 1) d
  else
    let! s := swrite s (at_d n 0) dzero in
    let! s := swrite s (at_t n 0) dzero in
    let! s := for_each (seq 1 (n - 2)) (eliminate n) s in
    let! s := swrite s (at_d n (n - 1)) dzero in
    for_each (seq 0 (n - 1)) (fun q => substitute n (n - 2 - q)) s.

(** [while (idx < n_src - 2 && src_x[idx + 1] < target) idx++;]  The bound wraps for fewer
    than two levels; no turn goes beyond the scratch memory. *)
Fixpoint find_interval (fuel : nat) (s : scratch) (n_src : nat) (target : double) (idx : nat) : result nat :=
  if Z.of_nat idx <? to_u64 (Z.of_nat n_src - 2) then
    let! x := sread s (at_x n_src (idx + 1)) in
    if SFltb x target then match fuel with O => Undef | S fuel => find_interval fuel s n_src target (S idx) end else Ok idx
  else Ok idx.

Definition evaluate_column_spline_target (s : scratch) (n_src : nat) (tension target : double) : result double :=
  let! idx := find_interval (length s) s n_src target 0 in
  let! x1 := sread s (at_x n_src idx) in
  let! x2 := sread s (at_x n_src (idx + 1)) in
  let! y1 := sread s (at_y n_src idx) in
  let! y2 := sread s (at_y n_src (idx + 1)) in
  let! d1 := sread s (at_d n_src idx) in
  let! d2 := sread s (at_d n_src (idx + 1)) in
  Ok (evaluate_spline target x1 x2 y1 y2 d1 d2 tension).

(** ** Columns *)

(** The first level above the last; one level is not descending. *)
Definition descending (level : nat -> result double) (n : nat) : result bool :=
  if (1 <? n)%nat then let! a := level 0%nat in let! b := level (n - 1)%nat in Ok (SFltb b a) else Ok false.

Definition raw_index (desc : bool) (n i : nat) : nat := if desc then (n - 1 - i)%nat else i.

Context `{!ParallelFor}.

(** The body of the kernels for column [c]. *)
Definition interpolate_column (src_field : View2) (src_level dst_level : nat -> result double) (n_src n_dst : nat) (tension : double)
    (c : nat) (dst_field : View2) : result View2 :=
  let! is_descending := descending src_level n_src in
  let! s := for_each (range_order n_src) (fun i s =>
    let raw_i := raw_index is_descending n_src i in
    let! y := read2 src_field (Z.of_nat c) raw_i in
    let! s := swrite s (at_y n_src i) y in
    let! x := src_level raw_i in
    swrite s (at_x n_src i) x) (replicate (4 * n_src) None) in
  let! s := solve_column_spline n_src s in
  let! dst_descending := descending dst_level n_dst in
  for_each (range_order n_dst) (fun j dst_field =>
    let raw_j := raw_index dst_descending n_dst j in
    let! target := dst_level raw_j in
    let! v := evaluate_column_spline_target s n_src tension target in
    write2 dst_field (Z.of_nat c) raw_j v) dst_field.

Definition validate_vertical_regrid_params (n_src n_dst : nat) (tension : double) : result unit :=
  do! throw_if (SFltb tension dzero) invalid_argument then
  throw_if ((256 <? n_src)%nat || (256 <? n_dst)%nat) invalid_argument.

(** The overload for levels that are the same in all columns. *)
Definition interpolate (src_field dst_field : View2) (src_levels dst_levels : list double) (tension : double) : result View2 :=
  let n_col := extent0 src_field in
  let n_src := length src_levels in
  let n_dst := length dst_levels in
  do! throw_if (negb (n_col =? extent0 dst_field)%nat) invalid_argument then
  do! throw_if (negb (extent1 src_field =? n_src)%nat) invalid_argument then
  do! throw_if (negb (extent1 dst_field =? n_dst)%nat) invalid_argument then
  do! validate_vertical_regrid_params n_src n_dst tension then
  parallel_teams n_col (interpolate_column src_field (fun i => read src_levels (Z.of_nat i)) (fun j => read dst_levels (Z.of_nat j)) n_src n_dst tension) dst_field.

(** The overload for levels that vary between columns. *)
Definition interpolate_varying (src_field dst_field src_levels dst_levels : View2) (tension : double) : result View2 :=
  let n_col := extent0 src_field in
  let n_src := extent1 src_levels in
  let n_dst := extent1 dst_levels in
  do! throw_if (negb (n_col =? extent0 dst_field)%nat || negb (n_col =? extent0 src_levels)%nat || negb (n_col =? extent0 dst_levels)%nat) invalid_argument then
  do! throw_if (negb (extent1 src_field =? n_src)%nat) invalid_argument then
  do! throw_if (negb (extent1 dst_field =? n_dst)%nat) invalid_argument then
  do! validate_vertical_regrid_params n_src n_dst tension then
  parallel_teams n_col (fun c => interpolate_column src_field (read2 src_levels (Z.of_nat c)) (read2 dst_levels (Z.of_nat c)) n_src n_dst tension c) dst_field.

(** * Specification *)

(** A step of the elimination on the levels [x] and the values [y]: the right-hand side and the
    factor of the row. *)
Fixpoint eliminated (x y : nat -> double) (i : nat) : double * double :=
  match i with
  | O => (dzero, dzero)
  | S p =>
      let '(d, t) := eliminated x y p in
      let dx1 := positive_gap (dsub (x i) (x p)) in
      let dx2 := positive_gap (dsub (x (S i)) (x i)) in
      let dy1 := ddiv (dsub (y i) (y p)) dx1 in
      let dy2 := ddiv (dsub (y (S i)) (y i)) dx2 in
      let denom := dsub (dmul two (dadd dx1 dx2)) (dmul dx1 t) in
      let denom := if SFeqb denom dzero then tiny else denom in
      (ddiv (dsub (dmul three (dsub dy2 dy1)) (dmul dx1 d)) denom, ddiv dx2 denom)
  end.

(** The back substitution, [q] rows from the last. *)
Fixpoint substituted (x y : nat -> double) (n q : nat) : double :=
  match q with
  | O => dzero
  | S p => let '(d, t) := eliminated x y (n - 1 - q) in dsub d (dmul t (substituted x y n p))
  end.

Definition slope (x y : nat -> double) (n i : nat) : double :=
  if (n =? 2)%nat then ddiv (dsub (y 1%nat) (y 0%nat)) (dsub (x 1%nat) (x 0%nat)) else substituted x y n (n - 1 - i).

(** The interval of a target among [k] more ones after [idx]. *)
Fixpoint interval (x : nat -> double) (target : double) (k idx : nat) : nat :=
  match k with
  | O => idx
  | S k => if SFltb (x (idx + 1)%nat) target then interval x target k (S idx) else idx
  end.

Definition spline_value (x y : nat -> double) (n : nat) (tension target : double) : double :=
  let i := interval x target (n - 2) 0 in
  evaluate_spline target (x i) (x (i + 1)%nat) (y i) (y (i + 1)%nat) (slope x y n i) (slope x y n (i + 1)) tension.

(** A column in the order of ascending levels. *)
Definition turned (level : nat -> double) (n : nat) : bool := (1 <? n)%nat && SFltb (level (n - 1)%nat) (level 0%nat).
Definition ascending (level f : nat -> double) (n i : nat) : double := f (raw_index (turned level n) n i).

(** What the interpolation of a column gives at destination level [j]. *)
Definition column_value (level f : nat -> double) (n : nat) (tension : double) (target : double) : double :=
  spline_value (ascending level level n) (ascending level f n) n tension target.
End Splines.

(** * Lemmas *)

Lemma sread_ok s a x : s !! a = Some (Some x) -> sread s a = Ok x.
Proof. intros E. unfold sread. by rewrite E. Qed.

Lemma swrite_ok s a x : (a < length s)%nat -> exists s', swrite s a x = Ok s' /\ length s' = length s /\ s' !! a = Some (Some x) /\ forall b, b <> a -> s' !! b = s !! b.
Proof.
  intros Ha. unfold swrite. rewrite (proj2 (Nat.ltb_lt _ _) Ha). exists (<[a := Some x]> s). split; [done|]. split; [by rewrite length_insert|].
  split; [by apply list_lookup_insert_eq|]. intros b Hb. by apply list_lookup_insert_ne.
Qed.

Ltac addresses := unfold at_x, at_y, at_d, at_t in *; lia.

Section Column.
Context `{!Hyperbolic} (n : nat) (x y : nat -> double).

(** The levels and values are in their places. *)
Record filled (s : scratch) : Prop := {
  filled_length : length s = (4 * n)%nat;
  filled_x i : (i < n)%nat -> s !! at_x n i = Some (Some (x i));
  filled_y i : (i < n)%nat -> s !! at_y n i = Some (Some (y i))
}.

Lemma read_x s i : filled s -> (i < n)%nat -> sread s (at_x n i) = Ok (x i).
Proof. intros [_ Hx _] Hi. by apply sread_ok, Hx. Qed.

Lemma read_y s i : filled s -> (i < n)%nat -> sread s (at_y n i) = Ok (y i).
Proof. intros [_ _ Hy] Hi. by apply sread_ok, Hy. Qed.

Lemma filled_write s s' a : (forall b, b <> a -> s' !! b = s !! b) -> length s' = length s -> (2 * n <= a)%nat -> filled s -> filled s'.
Proof.
  intros Hs Hl' Ha [Hl Hx Hy]. split; [congruence|..]; intros i Hi; rewrite Hs by addresses; auto.
Qed.

(** The slopes and factors of the first [i] rows. *)
Definition eliminated_to (i : nat) (s : scratch) : Prop :=
  filled s /\ forall k, (k < i)%nat -> s !! at_d n k = Some (Some (fst (eliminated x y k))) /\ s !! at_t n k = Some (Some (snd (eliminated x y k))).

Lemma eliminate_ok i s : (0 < i)%nat -> (i < n - 1)%nat -> eliminated_to i s -> exists s', eliminate n i s = Ok s' /\ eliminated_to (S i) s'.
Proof.
  intros H0 Hi [Hf Hk]. pose proof Hf as [Hl Hx Hy]. unfold eliminate.
  rewrite !(read_x s), !(read_y s) by (done || lia). cbn [bind].
  destruct i as [|p]; [lia|]. replace (S p - 1)%nat with p by lia. replace (S p + 1)%nat with (S (S p)) by lia.
  destruct (Hk p ltac:(lia)) as [Kd Kt]. rewrite (sread_ok _ _ _ Kt). cbn [bind]. destruct (eliminated x y p) as [d t] eqn:Ep. cbn [fst snd] in *.
  set (denom := if SFeqb _ dzero then tiny else _).
  destruct (swrite_ok s (at_t n (S p)) (ddiv (positive_gap (dsub (x (S (S p))) (x (S p)))) denom)) as (s1 & -> & L1 & W1 & O1); [addresses|]. cbn [bind].
  rewrite (sread_ok s1 (at_d n p) d) by (rewrite O1 by addresses; done). cbn [bind].
  match goal with |- context [swrite s1 ?a ?v] => destruct (swrite_ok s1 a v) as (s2 & -> & L2 & W2 & O2); [addresses|] end.
  exists s2. split; [done|]. split.
  - apply (filled_write _ _ _ O2 L2); [addresses|]; apply (filled_write _ _ _ O1 L1); [addresses|done].
  - intros k Hlt. destruct (decide (k = S p)) as [->|Hne].
    + rewrite W2. rewrite (O2 (at_t n (S p))) by addresses. rewrite W1. cbn [eliminated]. rewrite Ep. done.
    + destruct (Hk k ltac:(lia)) as [Kd' Kt']. rewrite (O2 (at_d n k)), (O2 (at_t n k)), (O1 (at_d n k)), (O1 (at_t n k)) by addresses. done.
Qed.

(** The slopes of the last [q + 1] rows. *)
Definition substituted_to (q : nat) (s : scratch) : Prop :=
  filled s /\ (forall k, (k < n - 1)%nat -> s !! at_t n k = Some (Some (snd (eliminated x y k)))) /\
  (forall k, (k < n - 1 - q)%nat -> s !! at_d n k = Some (Some (fst (eliminated x y k)))) /\
  (forall k, (n - 1 - q <= k < n)%nat -> s !! at_d n k = Some (Some (substituted x y n (n - 1 - k)))).

Lemma substitute_ok q s : (q < n - 1)%nat -> substituted_to q s -> exists s', substitute n (n - 2 - q) s = Ok s' /\ substituted_to (S q) s'.
Proof.
  intros Hq (Hf & Ht & Hd & Hs). unfold substitute. set (i := (n - 2 - q)%nat). pose proof Hf as [Hl _ _].
  rewrite (sread_ok _ _ _ (Hd i ltac:(lia))), (sread_ok _ _ _ (Ht i ltac:(lia))), (sread_ok _ _ _ (Hs (i + 1)%nat ltac:(lia))). cbn [bind].
  match goal with |- context [swrite s ?a ?v] => destruct (swrite_ok s a v) as (s1 & -> & L1 & W1 & O1); [addresses|] end.
  exists s1. split; [done|]. split; [apply (filled_write _ _ _ O1 L1); [addresses|done]|]. split; [|split].
  - intros k Hk. rewrite O1 by addresses. auto.
  - intros k Hk. rewrite O1 by addresses. apply Hd. lia.
  - intros k Hk. destruct (decide (k = i)) as [->|Hne]; [|rewrite O1 by addresses; apply Hs; lia].
    rewrite W1. do 2 f_equal. replace (n - 1 - i)%nat with (S q) by lia. cbn [substituted]. replace (n - 1 - S q)%nat with i by lia.
    replace (n - 1 - (i + 1))%nat with q by lia. by destruct (eliminated x y i).
Qed.

Definition solved (s : scratch) : Prop := filled s /\ forall i, (i < n)%nat -> s !! at_d n i = Some (Some (slope x y n i)).

Lemma solve_ok s : (2 <= n)%nat -> filled s -> exists s', solve_column_spline n s = Ok s' /\ solved s'.
Proof.
  intros H2 Hf. pose proof Hf as [Hl Hx Hy]. unfold solve_column_spline, solved, slope. destruct (Nat.ltb_spec n 2); [lia|]. destruct (Nat.eqb_spec n 2) as [En|Hn].
  - rewrite !(read_x s), !(read_y s) by (done || lia). cbn [bind].
    match goal with |- context [swrite s ?a ?v] => destruct (swrite_ok s a v) as (s1 & -> & L1 & W1 & O1); [addresses|] end. cbn [bind].
    rewrite (sread_ok _ _ _ W1). cbn [bind].
    match goal with |- context [swrite s1 ?a ?v] => destruct (swrite_ok s1 a v) as (s2 & -> & L2 & W2 & O2); [addresses|] end.
    exists s2. split; [done|]. split; [apply (filled_write _ _ _ O2 L2); [addresses|]; apply (filled_write _ _ _ O1 L1); [addresses|done]|].
    intros i Hi. destruct (decide (i = 1%nat)) as [->|]; [done|]. assert (i = 0%nat) as -> by lia. by rewrite O2 by addresses.
  - destruct (swrite_ok s (at_d n 0) dzero) as (s1 & -> & L1 & W1 & O1); [addresses|]. cbn [bind].
    destruct (swrite_ok s1 (at_t n 0) dzero) as (s2 & -> & L2 & W2 & O2); [addresses|]. cbn [bind].
    assert (I1 : eliminated_to 1 s2).
    { split; [apply (filled_write _ _ _ O2 L2); [addresses|]; apply (filled_write _ _ _ O1 L1); [addresses|done]|]. intros k Hk. assert (k = 0%nat) as -> by lia. by rewrite O2 by addresses. }
    destruct (for_each_inv (fun q s => eliminated_to (1 + q) s) (n - 2) (fun i => eliminate n (1 + i)) s2) as (s3 & E3 & Hf3 & Hk3); [|done|].
    { intros q t Hq Ht. apply eliminate_ok; [lia|lia|done]. }
    rewrite <- (for_each_shift 1 0 (n - 2) (eliminate n)) in E3 by done. cbn [Nat.add] in E3. rewrite E3. cbn [bind].
    pose proof Hf3 as [Hl3 _ _]. destruct (swrite_ok s3 (at_d n (n - 1)) dzero) as (s4 & -> & L4 & W4 & O4); [addresses|]. cbn [bind].
    destruct (for_each_inv substituted_to (n - 1) (fun q => substitute n (n - 2 - q)) s4)
      as (s5 & -> & Hf5 & _ & _ & Hs5); [intros q t Hq Ht; by apply substitute_ok| |].
    { split; [apply (filled_write _ _ _ O4 L4); [addresses|done]|]. split; [|split].
      - intros k Hk. rewrite O4 by addresses. apply Hk3. lia.
      - intros k Hk. rewrite O4 by addresses. apply Hk3. lia.
      - intros k Hk. assert (k = n - 1)%nat as -> by lia. rewrite W4. by replace (n - 1 - (n - 1))%nat with 0%nat by lia. }
    exists s5. split; [done|]. split; [done|]. intros i Hi. apply Hs5. lia.
Qed.

Lemma find_interval_ok s target idx k fuel : filled s -> (2 <= n)%nat -> Z.of_nat n < 2 ^ 63 -> (idx + k = n - 2)%nat -> (k <= fuel)%nat ->
  find_interval fuel s n target idx = Ok (interval x target k idx).
Proof.
  intros [Hl Hx Hy] H2 Hn. revert idx fuel. induction k as [|k IH]; intros idx fuel Hk Hfuel.
  - destruct fuel; cbn [find_interval interval]; rewrite to_u64_id by lia; destruct (Z.ltb_spec (Z.of_nat idx) (Z.of_nat n - 2)); done || lia.
  - destruct fuel as [|fuel]; [lia|]. cbn [find_interval interval]. rewrite to_u64_id by lia. rewrite (proj2 (Z.ltb_lt _ _)) by lia.
    rewrite (sread_ok s _ (x (idx + 1)%nat)) by (apply Hx; lia). cbn [bind]. destruct (SFltb _ target); [|done]. apply IH; lia.
Qed.

Lemma interval_range target k idx : (idx <= interval x target k idx <= idx + k)%nat.
Proof. revert idx. induction k as [|k IH]; intros idx; cbn [interval]; [lia|]. destruct (SFltb _ target); [specialize (IH (S idx))|]; lia. Qed.

Lemma evaluate_ok s tension target : solved s -> (2 <= n)%nat -> Z.of_nat n < 2 ^ 63 ->
  evaluate_column_spline_target s n tension target = Ok (spline_value x y n tension target).
Proof.
  intros [Hf Hd] H2 Hn. pose proof Hf as [Hl Hx Hy]. unfold evaluate_column_spline_target, spline_value.
  rewrite (find_interval_ok s target 0 (n - 2)) by (done || lia). cbn [bind]. pose proof (interval_range target (n - 2) 0).
  rewrite !(read_x s), !(read_y s) by (done || lia). cbn [bind]. by rewrite !(fun i Hi => sread_ok s _ _ (Hd i Hi)) by lia.
Qed.
End Column.

Lemma raw_index_lt b n i : (i < n)%nat -> (raw_index b n i < n)%nat.
Proof. unfold raw_index. destruct b; lia. Qed.

Lemma raw_index_twice b n i : (i < n)%nat -> raw_index b n (raw_index b n i) = i.
Proof. unfold raw_index. destruct b; lia. Qed.

Section Columns.
Context `{!Hyperbolic, !ParallelFor}.
Context (src_field : View2) (n_src n_dst : nat) (tension : double) (c : nat).
Context (src_level dst_level : nat -> result double) (lev dlev : nat -> double).
Context (Hsrc : view_ok src_field /\ extent1 src_field = n_src /\ (c < extent0 src_field)%nat).
Context (Hlev : forall i, (i < n_src)%nat -> src_level i = Ok (lev i)) (Hdlev : forall j, (j < n_dst)%nat -> dst_level j = Ok (dlev j)).
Context (H2 : (2 <= n_src)%nat) (H63 : Z.of_nat n_src < 2 ^ 63).

Lemma descending_ok level l n : (forall i, (i < n)%nat -> level i = Ok (l i)) -> descending level n = Ok (turned l n).
Proof.
  intros Hl. unfold descending, turned. destruct (Nat.ltb_spec 1 n); [|done]. rewrite !Hl by lia. done.
Qed.

Definition column_of_field (i : nat) : double := coord src_field (Z.of_nat c) i.

Lemma fill_ok : exists s, for_each (range_order n_src) (fun i s =>
    let raw_i := raw_index (turned lev n_src) n_src i in
    let! y := read2 src_field (Z.of_nat c) raw_i in
    let! s := swrite s (at_y n_src i) y in
    let! x := src_level raw_i in
    swrite s (at_x n_src i) x) (replicate (4 * n_src) None) = Ok s /\
  filled n_src (ascending lev lev n_src) (ascending lev column_of_field n_src) s.
Proof.
  destruct Hsrc as (Hv & H1 & Hc).
  destruct (for_each_establish (fun s : scratch => length s = (4 * n_src)%nat)
    (fun i s => (i < n_src)%nat -> s !! at_x n_src i = Some (Some (ascending lev lev n_src i)) /\ s !! at_y n_src i = Some (Some (ascending lev column_of_field n_src i)))
    (range_order n_src) (fun i s =>
      let raw_i := raw_index (turned lev n_src) n_src i in let! y := read2 src_field (Z.of_nat c) raw_i in
      let! s := swrite s (at_y n_src i) y in let! x := src_level raw_i in swrite s (at_x n_src i) x) (replicate (4 * n_src) None)) as (s & E & Hl & Hq & _).
  - intros i t Hi Hl. rewrite range_order_perm in Hi. apply elem_of_seq in Hi. cbv zeta. pose proof (raw_index_lt (turned lev n_src) n_src i ltac:(lia)) as Hraw.
    rewrite read2_ok by (done || lia). cbn [bind].
    destruct (swrite_ok t (at_y n_src i) (coord src_field (Z.of_nat c) (raw_index (turned lev n_src) n_src i))) as (s1 & -> & L1 & W1 & O1); [addresses|]. cbn [bind].
    rewrite Hlev by done. cbn [bind]. destruct (swrite_ok s1 (at_x n_src i) (lev (raw_index (turned lev n_src) n_src i))) as (s2 & -> & L2 & W2 & O2); [addresses|].
    exists s2. split; [done|]. split; [lia|]. split.
    + intros _. split; [done|]. rewrite O2 by addresses. done.
    + intros k Hk Hlt. destruct (Hk Hlt) as [Kx Ky]. destruct (decide (k = i)) as [->|Hne].
      * split; [done|]. rewrite O2 by addresses. done.
      * rewrite !O2, !O1 by addresses. done.
  - by rewrite length_replicate.
  - exists s. split; [done|]. assert (Hall : forall i, (i < n_src)%nat -> i ∈ range_order n_src) by (intros i Hi; rewrite range_order_perm; apply elem_of_seq; lia).
    split; [done|..]; intros i Hi; by apply Hq; [apply Hall|].
Qed.

Lemma interpolate_column_ok dst : view_ok dst -> (c < extent0 dst)%nat -> extent1 dst = n_dst -> exists dst',
  interpolate_column src_field src_level dst_level n_src n_dst tension c dst = Ok dst' /\ view_ok dst' /\ extent0 dst' = extent0 dst /\ extent1 dst' = n_dst /\
  (forall j, (j < n_dst)%nat -> coord dst' (Z.of_nat c) j = column_value lev column_of_field n_src tension (dlev j)) /\
  (forall c' j, 0 <= c' < Z.of_nat (extent0 dst) -> c' <> Z.of_nat c -> coord dst' c' j = coord dst c' j).
Proof.
  intros Hv Hc H1. unfold interpolate_column. rewrite (descending_ok src_level lev) by done. cbn [bind].
  destruct fill_ok as (s & E & Hf). cbv zeta in E |- *. rewrite E. cbn [bind].
  destruct (solve_ok n_src _ _ s H2 Hf) as (s' & -> & Hsolved). cbn [bind]. rewrite (descending_ok dst_level dlev) by done. cbn [bind].
  destruct (for_each_establish (fun d => view_ok d /\ extent0 d = extent0 dst /\ extent1 d = n_dst /\
      forall c' j, 0 <= c' < Z.of_nat (extent0 dst) -> c' <> Z.of_nat c -> coord d c' j = coord dst c' j)
    (fun j d => (j < n_dst)%nat -> coord d (Z.of_nat c) (raw_index (turned dlev n_dst) n_dst j)
       = column_value lev column_of_field n_src tension (dlev (raw_index (turned dlev n_dst) n_dst j)))
    (range_order n_dst) (fun j d => let! target := dst_level (raw_index (turned dlev n_dst) n_dst j) in
      let! v := evaluate_column_spline_target s' n_src tension target in write2 d (Z.of_nat c) (raw_index (turned dlev n_dst) n_dst j) v) dst)
    as (d' & -> & (V & X0 & X1 & K) & Q & _).
  - intros j d Hj (V & X0 & X1 & K). rewrite range_order_perm in Hj. apply elem_of_seq in Hj.
    pose proof (raw_index_lt (turned dlev n_dst) n_dst j ltac:(lia)) as Hraw. rewrite Hdlev by done. cbn [bind].
    rewrite (evaluate_ok n_src _ _ s' tension _ Hsolved H2 H63). cbn [bind].
    destruct (write2_ok d (Z.of_nat c) (raw_index (turned dlev n_dst) n_dst j)
      (spline_value (ascending lev lev n_src) (ascending lev column_of_field n_src) n_src tension (dlev (raw_index (turned dlev n_dst) n_dst j))))
      as (d' & -> & V' & Y0 & Y1 & W & O); [done|lia|lia|].
    exists d'. split; [done|]. split; [|split].
    + split; [done|]. split; [lia|]. split; [lia|]. intros c' j' Hc' Hne. rewrite O by (lia || (intros [= C _]; lia)). by apply K.
    + intros _. exact W.
    + intros k Hk Hlt. destruct (decide (k = j)) as [->|Hne]; [exact W|]. rewrite O; [by apply Hk|lia|].
      intros [= C]. apply Hne. rewrite <- (raw_index_twice (turned dlev n_dst) n_dst k Hlt), <- (raw_index_twice (turned dlev n_dst) n_dst j) by lia. by rewrite C.
  - done.
  - exists d'. split; [done|]. split; [done|]. split; [done|]. split; [done|]. split; [|done]. intros j Hj.
    pose proof (raw_index_lt (turned dlev n_dst) n_dst j Hj) as Hraw. rewrite <- (raw_index_twice (turned dlev n_dst) n_dst j Hj) at 1 2.
    apply Q; [rewrite range_order_perm; apply elem_of_seq; lia|done].
Qed.
End Columns.

(** ** At the levels of the source *)

(** A number that is not subnormal. *)
Definition normalized (x : double) : Prop := exists s m e, x = S754_finite s m e /\ Zdigits2 (Zpos m) = 53 /\ -1000 <= e <= 900.

Lemma mul_one_right x : normalized x -> dmul x one = x.
Proof.
  intros (s & m & e & -> & Hd & He). unfold dmul, SFmul, one. rewrite xorb_false_r.
  change (Zpos (m * 4503599627370496)) with (Zpos m * 2 ^ 52). rewrite round_exact_signed by lia. f_equal. lia.
Qed.

Definition is_zero (x : double) : bool := match x with S754_zero _ => true | _ => false end.

Lemma times_zero x z : finite x = true -> is_zero z = true -> is_zero (dmul x z) = true.
Proof. by destruct x, z. Qed.

Lemma zero_plus z x : is_zero z = true -> finite x = true -> is_zero x = false -> dadd z x = x /\ dadd x z = x.
Proof. destruct z; try done. by destruct x. Qed.

Lemma zero_plus_zero z z' : is_zero z = true -> is_zero z' = true -> is_zero (dadd z z') = true.
Proof. by destruct z as [[]| | |], z' as [[]| | |]. Qed.

Lemma zero_plus_normalized z x : is_zero z = true -> normalized x -> dadd z x = x /\ dadd x z = x.
Proof. intros Hz (s & m & e & -> & _). by apply zero_plus. Qed.

Section Knots.
Context `{!Hyperbolic}.

(** Without tension the spline has the values of the source at both ends of an interval. *)
Lemma spline_at_right x1 x2 y1 y2 d1 d2 sigma : SFleb sigma dzero = true -> (exists m e, dsub x2 x1 = S754_finite false m e) ->
  finite y1 = true -> normalized y2 -> finite (dmul d1 (dsub x2 x1)) = true -> finite (dmul d2 (dsub x2 x1)) = true ->
  evaluate_spline x2 x1 x2 y1 y2 d1 d2 sigma = y2.
Proof.
  intros Hs (m & e & Hdx) Hy1 Hy2 Hd1 Hd2. unfold evaluate_spline. rewrite Hdx in *. rewrite div_self, Hs. change (SFleb (S754_finite false m e) dzero) with false. cbv iota zeta.
  change (dmul (dmul one one) (dsub three (dmul two one))) with one. rewrite (mul_one_right y2) by done.
  change (dmul (dmul (dadd one (dmul two one)) (dsub one one)) (dsub one one)) with dzero.
  change (dmul (dmul one (dsub one one)) (dsub one one)) with dzero. change (dmul (dmul one one) (dsub one one)) with dzero.
  pose proof (times_zero y1 dzero Hy1 eq_refl) as Z1. pose proof (times_zero _ dzero Hd1 eq_refl) as Z2. pose proof (times_zero _ dzero Hd2 eq_refl) as Z3.
  rewrite (proj1 (zero_plus_normalized _ y2 (zero_plus_zero _ _ Z1 Z2) Hy2)). by apply zero_plus_normalized.
Qed.

Lemma spline_at_left x1 x2 y1 y2 d1 d2 sigma : SFleb sigma dzero = true -> (exists m e, dsub x2 x1 = S754_finite false m e) -> dsub x1 x1 = dzero ->
  normalized y1 -> finite y2 = true -> finite (dmul d1 (dsub x2 x1)) = true -> finite (dmul d2 (dsub x2 x1)) = true ->
  evaluate_spline x1 x1 x2 y1 y2 d1 d2 sigma = y1.
Proof.
  intros Hs (m & e & Hdx) Hx Hy1 Hy2 Hd1 Hd2. unfold evaluate_spline. rewrite Hdx in *. rewrite Hx, Hs. change (SFleb (S754_finite false m e) dzero) with false.
  change (ddiv dzero (S754_finite false m e)) with dzero. cbv iota zeta.
  change (dmul (dmul (dadd one (dmul two dzero)) (dsub one dzero)) (dsub one dzero)) with one. rewrite (mul_one_right y1) by done.
  change (dmul (dmul dzero (dsub one dzero)) (dsub one dzero)) with dzero. change (dmul (dmul dzero dzero) (dsub three (dmul two dzero))) with dzero.
  assert (Z0 : is_zero (dmul (dmul dzero dzero) (dsub dzero one)) = true) by done.
  pose proof (times_zero _ dzero Hd1 eq_refl) as Z2. pose proof (times_zero y2 dzero Hy2 eq_refl) as Z1. pose proof (times_zero _ _ Hd2 Z0) as Z3.
  rewrite (proj2 (zero_plus_normalized _ y1 Z2 Hy1)). rewrite (proj2 (zero_plus_normalized _ y1 Z1 Hy1)). by apply zero_plus_normalized.
Qed.

(** The levels of a column ascend, by gaps that are positive numbers. *)
Definition ascends (x : nat -> double) (n : nat) : Prop :=
  (forall i, (i < n)%nat -> finite (x i) = true) /\ (forall i j, (i < j < n)%nat -> SFltb (x i) (x j) = true) /\ (forall i, (S i < n)%nat -> exists m e, dsub (x (S i)) (x i) = S754_finite false m e).

Lemma interval_of_level x n i k idx : ascends x n -> (i < n)%nat -> (idx + k = n - 2)%nat -> (2 <= n)%nat -> (idx <= i - 1)%nat ->
  interval x (x i) k idx = Nat.max idx (i - 1).
Proof.
  intros (Hf & Hx & _) Hi Hk H2. revert idx Hk. induction k as [|k IH]; intros idx Hk Hidx; cbn [interval]; [lia|].
  destruct (decide (idx + 1 < i)%nat) as [Hlt|Hge].
  - rewrite Hx by lia. rewrite IH by lia. lia.
  - assert (SFltb (x (idx + 1)%nat) (x i) = false) as ->; [|lia]. destruct (decide (i = idx + 1)%nat) as [->|]; [apply SFltb_irrefl|].
    apply SFltb_asym. apply Hx. lia.
Qed.
End Knots.

(** * Properties *)

Section Properties.
Context `{!Hyperbolic, !ParallelFor}.

(** Every value of the destination is that of the spline through its source column. *)
Definition interpolated (src_field dst dst' : View2) (level dst_level : nat -> nat -> double) (n_src n_dst : nat) (tension : double) : Prop :=
  view_ok dst' /\ extent0 dst' = extent0 dst /\ extent1 dst' = extent1 dst /\
  forall c j, (c < extent0 src_field)%nat -> (j < n_dst)%nat ->
    coord dst' (Z.of_nat c) j = column_value (level c) (fun i => coord src_field (Z.of_nat c) i) n_src tension (dst_level c j).

Definition sizes_accepted (n_src n_dst : nat) (tension : double) : Prop := SFltb tension dzero = false /\ (n_src <= 256)%nat /\ (n_dst <= 256)%nat.
#[global] Instance sizes_accepted_dec n_src n_dst tension : Decision (sizes_accepted n_src n_dst tension).
Proof. unfold sizes_accepted. apply _. Defined.

Lemma validate_ok n_src n_dst tension : validate_vertical_regrid_params n_src n_dst tension = if decide (sizes_accepted n_src n_dst tension) then Ok tt else Throw invalid_argument.
Proof.
  unfold validate_vertical_regrid_params. destruct (decide (sizes_accepted n_src n_dst tension)) as [(-> & H1 & H2)|Hn].
  - cbn [throw_if bind]. by rewrite !(proj2 (Nat.ltb_ge _ _)) by done.
  - unfold sizes_accepted in Hn. destruct (SFltb tension dzero); [done|]. cbn [throw_if bind].
    destruct (Nat.ltb_spec 256 n_src), (Nat.ltb_spec 256 n_dst); cbn [orb throw_if]; try done. destruct Hn. done.
Qed.

Lemma team_columns_ok src_field dst n_src n_dst tension (src_level dst_level : nat -> nat -> result double) (lev dlev : nat -> nat -> double) :
  view_ok src_field -> view_ok dst -> Z.of_nat (extent0 src_field) < 2 ^ 31 -> extent0 dst = extent0 src_field -> extent1 src_field = n_src -> extent1 dst = n_dst ->
  (2 <= n_src)%nat -> Z.of_nat n_src < 2 ^ 63 ->
  (forall c i, (c < extent0 src_field)%nat -> (i < n_src)%nat -> src_level c i = Ok (lev c i)) ->
  (forall c j, (c < extent0 src_field)%nat -> (j < n_dst)%nat -> dst_level c j = Ok (dlev c j)) ->
  exists dst', parallel_teams (extent0 src_field) (fun c => interpolate_column src_field (src_level c) (dst_level c) n_src n_dst tension c) dst = Ok dst' /\
    interpolated src_field dst dst' lev dlev n_src n_dst tension.
Proof.
  intros Hv Hd H31 X0 X1 Y1 H2 H63 Hl Hdl. rewrite parallel_teams_order by done.
  destruct (for_each_establish (fun d => view_ok d /\ extent0 d = extent0 dst /\ extent1 d = n_dst)
    (fun c d => (c < extent0 src_field)%nat -> forall j, (j < n_dst)%nat -> coord d (Z.of_nat c) j = column_value (lev c) (fun i => coord src_field (Z.of_nat c) i) n_src tension (dlev c j))
    (range_order (extent0 src_field)) (fun c => interpolate_column src_field (src_level c) (dst_level c) n_src n_dst tension c) dst)
    as (d & E & (V & Z0 & Z1) & Q & _); [|done|].
  - intros c d Hc (V & Z0 & Z1). rewrite range_order_perm in Hc. apply elem_of_seq in Hc.
    destruct (interpolate_column_ok src_field n_src n_dst tension c (src_level c) (dst_level c) (lev c) (dlev c)) with (dst := d)
      as (d' & E & V' & W0 & W1 & Hval & Hkeep); [split; [done|split; [done|lia]]|intros; apply Hl; lia|intros; apply Hdl; lia|done|done|done|lia|done|].
    exists d'. split; [done|]. split; [split; [done|split; [congruence|done]]|]. split; [intros _; exact Hval|].
    intros k Hk Hlt j Hj. destruct (decide (k = c)) as [->|Hne]; [by apply Hval|]. rewrite Hkeep by lia. by apply Hk.
  - exists d. split; [exact E|]. split; [done|]. split; [congruence|]. split; [congruence|]. intros c j Hc Hj. apply Q; [|done|done].
    rewrite range_order_perm. apply elem_of_seq. lia.
Qed.

(** A level of a list. *)
Definition level_of (levels : list double) (i : nat) : double := default dzero (levels !! i).

Lemma read_level levels i : (i < length levels)%nat -> read levels (Z.of_nat i) = Ok (level_of levels i).
Proof. intros Hi. destruct (lookup_lt_is_Some_2 levels i Hi) as [x Ex]. rewrite (read_nat _ _ _ Ex). unfold level_of. by rewrite Ex. Qed.

(** Both [interpolate] overloads of vertical_regridder.cpp, for fewer than 2^31 columns.  Extents that do not
    agree, a negative tension and more than 256 levels are refused with [invalid_argument]
    before anything is written.  Otherwise, from at least two source levels (a single one has no meaning), every destination
    value becomes what the pure function [spline] makes of its source column and the destination
    level: the recurrences of the code, without its scratch memory; with columns given in descending order turned around, whatever the
    order in which the teams and their threads run; no access leaves a field, the scratch
    memory, or reads a part of it that has not been written. *)
Theorem interpolate_correct src_field dst tension : view_ok src_field -> view_ok dst -> Z.of_nat (extent0 src_field) < 2 ^ 31 ->
  (forall src_levels dst_levels, let n_src := length src_levels in let n_dst := length dst_levels in
    if decide (extent0 dst = extent0 src_field /\ extent1 src_field = n_src /\ extent1 dst = n_dst /\ sizes_accepted n_src n_dst tension)
    then (2 <= n_src)%nat -> exists dst', interpolate src_field dst src_levels dst_levels tension = Ok dst' /\
           interpolated src_field dst dst' (fun _ => level_of src_levels) (fun _ => level_of dst_levels) n_src n_dst tension
    else interpolate src_field dst src_levels dst_levels tension = Throw invalid_argument) /\
  (forall src_levels dst_levels, view_ok src_levels -> view_ok dst_levels -> let n_src := extent1 src_levels in let n_dst := extent1 dst_levels in
    if decide (extent0 dst = extent0 src_field /\ extent0 src_levels = extent0 src_field /\ extent0 dst_levels = extent0 src_field /\
        extent1 src_field = n_src /\ extent1 dst = n_dst /\ sizes_accepted n_src n_dst tension)
    then (2 <= n_src)%nat -> exists dst', interpolate_varying src_field dst src_levels dst_levels tension = Ok dst' /\
           interpolated src_field dst dst' (fun c i => coord src_levels (Z.of_nat c) i) (fun c j => coord dst_levels (Z.of_nat c) j) n_src n_dst tension
    else interpolate_varying src_field dst src_levels dst_levels tension = Throw invalid_argument).
Proof.
  intros Hv Hd H31. split.
  - intros src_levels dst_levels n_src n_dst. unfold interpolate. fold n_src n_dst. rewrite validate_ok.
    destruct (Nat.eqb_spec (extent0 src_field) (extent0 dst)); [|cbn; rewrite decide_False; [done|by intros (C & _)]].
    destruct (Nat.eqb_spec (extent1 src_field) n_src); [|cbn; rewrite decide_False; [done|by intros (_ & C & _)]].
    destruct (Nat.eqb_spec (extent1 dst) n_dst); [|cbn; rewrite decide_False; [done|by intros (_ & _ & C & _)]]. cbn [negb throw_if bind].
    destruct (decide (sizes_accepted n_src n_dst tension)) as [Ha|Ha]; [|rewrite decide_False; [done|by intros (_ & _ & _ & C)]].
    rewrite decide_True by done. intros H2. cbn [bind]. destruct Ha as (_ & Ha & _).
    apply (team_columns_ok src_field dst n_src n_dst tension (fun _ i => read src_levels (Z.of_nat i)) (fun _ j => read dst_levels (Z.of_nat j))); try done; [lia|..];
      intros _ i _ Hi; by apply read_level.
  - intros src_levels dst_levels Hvs Hvd n_src n_dst. unfold interpolate_varying. fold n_src n_dst. rewrite validate_ok.
    destruct (Nat.eqb_spec (extent0 src_field) (extent0 dst)); [|cbn; rewrite decide_False; [done|by intros (C & _)]].
    destruct (Nat.eqb_spec (extent0 src_field) (extent0 src_levels)); [|cbn; rewrite decide_False; [done|by intros (_ & C & _)]].
    destruct (Nat.eqb_spec (extent0 src_field) (extent0 dst_levels)); [|cbn; rewrite decide_False; [done|by intros (_ & _ & C & _)]].
    destruct (Nat.eqb_spec (extent1 src_field) n_src); [|cbn; rewrite decide_False; [done|by intros (_ & _ & _ & C & _)]].
    destruct (Nat.eqb_spec (extent1 dst) n_dst); [|cbn; rewrite decide_False; [done|by intros (_ & _ & _ & _ & C & _)]]. cbn [negb orb throw_if bind].
    destruct (decide (sizes_accepted n_src n_dst tension)) as [Ha|Ha]; [|rewrite decide_False; [done|by intros (_ & _ & _ & _ & _ & C)]].
    rewrite decide_True by done. intros H2. cbn [bind]. destruct Ha as (_ & Ha & _).
    apply (team_columns_ok src_field dst n_src n_dst tension (fun c => read2 src_levels (Z.of_nat c)) (fun c => read2 dst_levels (Z.of_nat c))); try done; [lia|..];
      intros c i Hc Hi; apply read2_ok; try done; lia.
Qed.
End Properties.

(** ** The shape of the spline *)

Section Shape.
Context `{!Hyperbolic}.

Lemma minus_itself a : finite a = true -> dsub a a = dzero.
Proof. destruct a as [[]| | |s m e]; try done. intros _. unfold dsub, SFsub. rewrite Z.sub_diag. done. Qed.

(** C40. Without tension the spline of a column with ascending levels keeps the values of the
    source: evaluated at a source level it is the value there, to the last bit, when the values
    are not subnormal and the slopes do not overflow. *)
Theorem source_levels_kept (x y : nat -> double) n tension i : (2 <= n)%nat -> ascends x n -> SFleb tension dzero = true ->
  (forall k, (k < n)%nat -> normalized (y k)) ->
  (forall k l, (S k < n)%nat -> l = k \/ l = S k -> finite (dmul (slope x y n l) (dsub (x (S k)) (x k))) = true) ->
  (i < n)%nat -> spline_value x y n tension (x i) = y i.
Proof.
  intros H2 Ha Ht Hy Hs Hi. unfold spline_value. rewrite (interval_of_level x n i) by (done || lia). rewrite Nat.max_0_l.
  pose proof Ha as (Hf & _ & Hg). assert (Hy' : forall k, (k < n)%nat -> finite (y k) = true) by (intros k Hk; destruct (Hy k Hk) as (s & m & e & -> & _); done).
  destruct i as [|k]; cbn [Nat.sub]; [|rewrite Nat.sub_0_r]; rewrite Nat.add_1_r.
  - apply spline_at_left; [done|apply Hg; lia|apply minus_itself, Hf; lia|apply Hy; lia|apply Hy'; lia|apply Hs; [lia|by left]|apply Hs; [lia|by right]].
  - apply spline_at_right; [done|apply Hg; lia|apply Hy'; lia|apply Hy; lia|apply Hs; [lia|by left]|apply Hs; [lia|by right]].
Qed.

Lemma zero_minus_zero z z' : is_zero z = true -> is_zero z' = true -> is_zero (dsub z z') = true.
Proof. by destruct z as [[]| | |], z' as [[]| | |]. Qed.

Lemma finite_quotient a b : finite (ddiv a b) = true -> forall z, is_zero z = true -> is_zero (ddiv z b) = true.
Proof. intros Hq z Hz. destruct z; try done. destruct b; try done; by destruct a. Qed.

(** The right-hand sides of a straight line are zeros. *)
Lemma straight_eliminated (x y : nat -> double) n : (forall i, (S i < n)%nat -> finite (positive_gap (dsub (x (S i)) (x i))) = true) ->
  (forall i, (S i < n)%nat -> finite (snd (eliminated x y i)) = true) ->
  (forall p, (S (S p) < n)%nat -> is_zero (dsub (ddiv (dsub (y (S (S p))) (y (S p))) (positive_gap (dsub (x (S (S p))) (x (S p)))))
     (ddiv (dsub (y (S p)) (y p)) (positive_gap (dsub (x (S p)) (x p))))) = true) ->
  forall i, (S i < n)%nat -> is_zero (fst (eliminated x y i)) = true.
Proof.
  intros Hg Ht Hl i. induction i as [|p IH]; intros Hi; [done|]. specialize (IH ltac:(lia)). specialize (Ht (S p) Hi). specialize (Hl p Hi).
  specialize (Hg p ltac:(lia)). cbn [eliminated] in *. destruct (eliminated x y p) as [d t]. cbn [fst snd] in *. eapply finite_quotient; [exact Ht|].
  assert (Z3 : forall z, is_zero z = true -> is_zero (dmul three z) = true) by (intros z; by apply times_zero).
  apply zero_minus_zero; [by apply Z3|by apply times_zero].
Qed.

(** On a straight line through three levels or more every slope is zero: what the solver finds
    are second derivatives, which vanish there, but the evaluation takes them for first ones, so
    that a straight line becomes a staircase of flat steps. *)
Theorem straight_lines_are_flattened (x y : nat -> double) n i : (3 <= n)%nat -> (forall i, (S i < n)%nat -> finite (positive_gap (dsub (x (S i)) (x i))) = true) ->
  (forall i, (S i < n)%nat -> finite (snd (eliminated x y i)) = true) ->
  (forall p, (S (S p) < n)%nat -> is_zero (dsub (ddiv (dsub (y (S (S p))) (y (S p))) (positive_gap (dsub (x (S (S p))) (x (S p)))))
     (ddiv (dsub (y (S p)) (y p)) (positive_gap (dsub (x (S p)) (x p))))) = true) ->
  (i < n)%nat -> is_zero (slope x y n i) = true.
Proof.
  intros H3 Hg Ht Hl Hi. unfold slope. destruct (Nat.eqb_spec n 2); [lia|].
  assert (Hs : forall q, (q < n)%nat -> is_zero (substituted x y n q) = true); [|apply Hs; lia].
  induction q as [|p IH]; intros Hq; [done|]. cbn [substituted].
  pose proof (straight_eliminated x y n Hg Ht Hl (n - 1 - S p) ltac:(lia)) as He. pose proof (Ht (n - 1 - S p)%nat ltac:(lia)) as Hf.
  destruct (eliminated x y (n - 1 - S p)) as [d t]. cbn [fst snd] in *. apply zero_minus_zero; [done|]. apply times_zero; [done|]. apply IH. lia.
Qed.
End Shape.

(** * Examples *)

#[local] Instance odd_functions : Hyperbolic := {| m_sinh x := x; m_cosh x := one |}.
#[local] Instance downwards : ParallelFor.
Proof. refine {| range_order n := rev (seq 0 n) |}. intros n. symmetry. apply Permutation_rev. Defined.

(** Two columns of four levels, and what becomes of them at three. *)
Definition heights : list double := of_int <$> [0; 1; 2; 3].
Definition two_columns : View2 := mkView2 2 4 (of_int <$> [5; 1; 7; 2; 6; 4; 9; 8]).
Definition blank : View2 := mkView2 2 3 (replicate 6 dzero).

Lemma interpolate_correct_witness : exists dst', interpolate two_columns blank (reverse heights) (of_int <$> [2; 0; 1]) dzero = Ok dst' /\
  interpolated two_columns blank dst' (fun _ => level_of (reverse heights)) (fun _ => level_of (of_int <$> [2; 0; 1])) 4 3 dzero.
Proof.
  destruct (interpolate_correct two_columns blank dzero eq_refl eq_refl ltac:(done)) as [H _].
  specialize (H (reverse heights) (of_int <$> [2; 0; 1])). cbv zeta in H. rewrite decide_True in H; [apply H; cbn; lia|].
  split; [reflexivity|]. split; [reflexivity|]. split; [reflexivity|]. split; [reflexivity|]. cbn. lia.
Defined.

(** At the source levels the values are those of the source, its first level being the highest. *)
Example values_at_the_levels :
  (let! d := interpolate two_columns blank (reverse heights) (of_int <$> [2; 0; 1]) dzero in Ok ((fun j => coord d 0 j) <$> [0; 1; 2]%nat))
  = Ok (of_int <$> [7; 9; 6]).
Proof. vm_compute. reflexivity. Qed.

Definition numbers (k : nat) : double := of_int (Z.of_nat k + 1).

Lemma numbers_ascend : ascends numbers 4.
Proof.
  split; [|split].
  - intros i Hi. do 4 (destruct i as [|i]; [reflexivity|]). lia.
  - intros i j Hij. do 4 (destruct i as [|i]; [do 4 (destruct j as [|j]; [try lia; vm_compute; reflexivity|]); lia|]). lia.
  - intros i Hi. do 3 (destruct i as [|i]; [do 2 eexists; vm_compute; reflexivity|]). lia.
Qed.

Lemma numbers_normalized k : (k < 4)%nat -> normalized (numbers k).
Proof. intros Hk. do 4 (destruct k as [|k]; [do 3 eexists; split; [vm_compute; reflexivity|]; split; [reflexivity|lia]|]). lia. Qed.

Lemma numbers_slopes k l : (S k < 4)%nat -> l = k \/ l = S k -> finite (dmul (slope numbers numbers 4 l) (dsub (numbers (S k)) (numbers k))) = true.
Proof. intros Hk [->| ->]; (do 3 (destruct k as [|k]; [vm_compute; reflexivity|])); lia. Qed.

Lemma source_levels_kept_witness : spline_value numbers numbers 4 dzero (numbers 2) = numbers 2.
Proof. exact (source_levels_kept numbers numbers 4 dzero 2 ltac:(lia) numbers_ascend eq_refl numbers_normalized numbers_slopes ltac:(lia)). Defined.

(** A straight line through four levels, a quarter of the way up: 5 / 32 instead of 1 / 4. *)
Example staircase :
  let x k := of_int (Z.of_nat k) in
  (slope x x 4 <$> [0; 1; 2; 3]%nat, spline_value x x 4 dzero (ddiv one (of_int 4)), ddiv (of_int 5) (of_int 32))
  = (replicate 4 dzero, ddiv (of_int 5) (of_int 32), ddiv (of_int 5) (of_int 32)).
Proof. vm_compute. reflexivity. Qed.

(** One source level: the number of intervals wraps, and slopes are read that nobody has written. *)
Example one_level_has_no_meaning : interpolate (mkView2 1 1 [one]) (mkView2 1 1 [dzero]) [one] [one] dzero = Undef.
Proof. vm_compute. reflexivity. Qed.

(** A tension that is not a number passes the validation. *)
Example nan_tension : validate_vertical_regrid_params 4 4 dnan = Ok tt.
Proof. reflexivity. Qed.
