(* ===== verification/RuleGenerator.v ===== *)
(** * AXIS: meshes from rules
    (src/libs/axis/src/topology/rule_generator.cpp)

    Regular grids of longitude and latitude, regular and reduced Gaussian grids, and regular
    grids of a projection.  Doubles are converted to sizes through [std::floor]; a value that
    does not fit the size has no meaning.  A vector that is asked for more elements than it
    can have throws [std::length_error]; that memory may run out is left aside. *)
From Stdlib Require Import ZArith Lia SpecFloat.
From stdpp Require Import base list numbers strings.
From S2P Require Import Prelude CInt Blend KokkosArrays AxisMesh StructuredGrid ProjectionBuilder Magnitude.
Local Open Scope Z_scope.

(** ** Conversions *)

(** [static_cast<std::size_t>(std::floor(x))] *)
Definition floor_size (x : double) : result Z :=
  match floorZ x with
  | Some z => if (0 <=? z) && (z <? 2 ^ 64) then Ok z else Undef
  | None => Undef
  end.

(** [std::vector<T> v(n)] for elements of eight bytes. *)
Definition new_vector {A} (n : Z) (x : A) : result (list A) :=
  if 2 ^ 60 <=? n then Throw length_error else Ok (replicate (Z.to_nat n) x).

(** ** Validation *)

Definition validate_bbox (rules : GridRulesParams) : result unit :=
  do! throw_if (SFleb (max_x rules) (min_x rules)) invalid_argument then
  throw_if (SFleb (max_y rules) (min_y rules)) invalid_argument.

Definition validate_resolution (rules : GridRulesParams) : result unit :=
  do! throw_if (SFleb (r_x rules) dzero) invalid_argument then
  throw_if (SFleb (r_y rules) dzero) invalid_argument.

Definition validate_gaussian_n (rules : GridRulesParams) : result unit :=
  throw_if (gaussian_n rules <=? 0) invalid_argument.

Section Generators.
Context `{!ParallelFor, !Libm}.

(** ** Gaussian latitudes *)

Definition legendre_step (x : double) (p : double * double) (k : nat) : double * double :=
  let '(p0, p1) := p in
  let kd := of_int (Z.of_nat k) in
  let pk := ddiv (dsub (dmul (dmul (dsub (dmul (of_int 2) kd) one) x) p1) (dmul (dsub kd one) p0)) kd in
  (p1, pk).

(** [(P_(n-1)(x), P_n(x))] *)
Definition legendre (n : nat) (x : double) : double * double := foldl (legendre_step x) (one, x) (seq 2 (n - 1)).

Definition newton_eps : double := S754_finite false 5070602400912918 (-102).

Fixpoint newton (fuel n_total : nat) (x : double) : double :=
  match fuel with
  | O => x
  | S fuel =>
      let '(p0, p1) := legendre n_total x in
      let dp := ddiv (dmul (of_int (Z.of_nat n_total)) (dsub (dmul x p1) p0)) (dsub (dmul x x) one) in
      let dx := ddiv p1 dp in
      let x := dsub x dx in
      if SFltb (SFabs dx) newton_eps then x else newton fuel n_total x
  end.

Definition northern_latitude (n_total i : nat) : double :=
  let theta := ddiv (dmul PI (dsub (dmul (of_int 4) (of_int (Z.of_nat i + 1))) one)) (dadd (dmul (of_int 4) (of_int (Z.of_nat n_total))) (of_int 2)) in
  let x := newton 100 n_total (m_cos theta) in
  dmul (m_asin x) (ddiv (of_int 180) PI).

Definition compute_gaussian_latitudes (N : Z) : result (list double) :=
  let! n_total := arith I32 (2 * N) in
  let! lats := new_vector (to_u64 n_total) dzero in
  for_each (seq 0 (Z.to_nat N)) (fun i lats =>
    let lat_deg := northern_latitude (Z.to_nat n_total) i in
    let! lats := write lats (Z.of_nat i) lat_deg in
    write lats (n_total - 1 - Z.of_nat i) (SFopp lat_deg)) lats.

Definition pole : double := of_int 90.

Definition latitude_bounds (gauss_lats : list double) (n_lat : Z) : result (list double) :=
  let! b := new_vector (to_u64 (n_lat + 1)) dzero in
  let! b := write b 0 pole in
  let! b := for_each (seq 1 (Z.to_nat n_lat - 1)) (fun j b =>
    let! x := read gauss_lats (Z.of_nat j - 1) in
    let! y := read gauss_lats (Z.of_nat j) in
    write b (Z.of_nat j) (dmul half (dadd x y))) b in
  write b n_lat (SFopp pole).

(** ** Regular grids *)

(** The cell kernel. *)
Definition rule_cell (ni : Z) (c : nat) (conn : list Z * list Z) : result (list Z * list Z) :=
  let '(offsets, indices) := conn in
  let i := Z.of_nat c mod ni in
  let j := Z.of_nat c / ni in
  let stride := ni + 1 in
  let! offsets := write offsets (Z.of_nat c) (to_index (Z.of_nat c * 4)) in
  let base := to_u64 (Z.of_nat c * 4) in
  let! indices := put_quad indices base (to_index (j * stride + i)) (to_index (j * stride + (i + 1)))
    (to_index ((j + 1) * stride + (i + 1))) (to_index ((j + 1) * stride + i)) in
  Ok (offsets, indices).

(** The two kernels and the last offset, for nodes given by their column and row. *)
Definition fill_regular (ni nj : Z) (node : Z -> Z -> result (double * double)) : result UnstructuredMesh :=
  let n_nodes := to_u64 ((ni + 1) * (nj + 1)) in
  let n_cells := to_u64 (ni * nj) in
  let coords := mkView2 (Z.to_nat n_nodes) 2 (zeros (n_nodes * 2)) in
  let! coords := for_each (range_order (Z.to_nat n_nodes)) (fun idx coords =>
    let! '(x, y) := node (Z.of_nat idx mod (ni + 1)) (Z.of_nat idx / (ni + 1)) in
    let! coords := write2 coords (Z.of_nat idx) 0 x in
    write2 coords (Z.of_nat idx) 1 y) coords in
  let! '(offsets, indices) := for_each (range_order (Z.to_nat n_cells)) (rule_cell ni) (zero_indices (n_cells + 1), zero_indices (n_cells * 4)) in
  let! offsets := write offsets n_cells (to_index (n_cells * 4)) in
  Ok (new_mesh coords offsets indices SphericalDeg).

Definition latlon_node (rules : GridRulesParams) (i j : Z) : double * double :=
  (dadd (min_x rules) (dmul (of_int i) (r_x rules)), dadd (min_y rules) (dmul (of_int j) (r_y rules))).

Definition generate_regular_latlon (rules : GridRulesParams) : result UnstructuredMesh :=
  do! validate_bbox rules then
  do! validate_resolution rules then
  let! ni := floor_size (ddiv (dsub (max_x rules) (min_x rules)) (r_x rules)) in
  let! nj := floor_size (ddiv (dsub (max_y rules) (min_y rules)) (r_y rules)) in
  do! throw_if ((ni =? 0) || (nj =? 0)) invalid_argument then
  fill_regular ni nj (fun i j => Ok (latlon_node rules i j)).

Definition generate_gaussian_regular (rules : GridRulesParams) : result UnstructuredMesh :=
  do! validate_gaussian_n rules then
  let N := to_i32 (gaussian_n rules) in
  let! n_lat := arith I32 (2 * N) in
  let! n_lon := arith I32 (4 * N) in
  let n_lat := to_u64 n_lat in
  let n_lon := to_u64 n_lon in
  let! gauss_lats := compute_gaussian_latitudes N in
  let! lat_bounds := latitude_bounds gauss_lats n_lat in
  let dlon := ddiv c360 (of_int n_lon) in
  fill_regular n_lon n_lat (fun i j =>
    let! lat := read lat_bounds j in
    Ok (dmul (of_int i) dlon, lat)).

(** ** Reduced grids *)

Definition octahedral_nlon_per_lat (N : Z) : result (list Z) :=
  let! n := arith I32 (2 * N) in
  let n_lat := to_u64 n in
  let! nlons := new_vector n_lat 0 in
  for_each (seq 0 (Z.to_nat N)) (fun j nlons =>
    let! nlon := arith I32 (20 + 4 * Z.of_nat j) in
    let! nlons := write nlons (Z.of_nat j) nlon in
    write nlons (2 * N - 1 - Z.of_nat j) nlon) nlons.

(** The linear scan: the circle of a cell and its place there. *)
Fixpoint find_circle (fuel : nat) (nlons : list Z) (j remaining : Z) : result (Z * Z) :=
  match fuel with
  | O => Ok (j, remaining)
  | S fuel =>
      let! n := read nlons j in
      if to_u64 n <=? remaining then find_circle fuel nlons (j + 1) (remaining - to_u64 n) else Ok (j, remaining)
  end.

Definition reduced_cell (nlons : list Z) (lat_bounds : list double) (n_lat : Z) (c : nat) (s : View2 * (list Z * list Z))
    : result (View2 * (list Z * list Z)) :=
  let '(coords, (offsets, indices)) := s in
  let! '(j, i) := find_circle (Z.to_nat n_lat) nlons 0 (Z.of_nat c) in
  let! nlon_j := read nlons j in
  let dlon := ddiv c360 (of_int (to_u64 nlon_j)) in
  let lon_lo := dmul (of_int i) dlon in
  let lon_hi := dmul (of_int (i + 1)) dlon in
  let! lat_hi := read lat_bounds j in
  let! lat_lo := read lat_bounds (j + 1) in
  let node_base := to_u64 (Z.of_nat c * 4) in
  let! coords := write2 coords (node_base + 0) 0 lon_lo in
  let! coords := write2 coords (node_base + 0) 1 lat_hi in
  let! coords := write2 coords (node_base + 1) 0 lon_hi in
  let! coords := write2 coords (node_base + 1) 1 lat_hi in
  let! coords := write2 coords (node_base + 2) 0 lon_hi in
  let! coords := write2 coords (node_base + 2) 1 lat_lo in
  let! coords := write2 coords (node_base + 3) 0 lon_lo in
  let! coords := write2 coords (node_base + 3) 1 lat_lo in
  let! offsets := write offsets (Z.of_nat c) (to_index (Z.of_nat c * 4)) in
  let! indices := put_quad indices (to_u64 (Z.of_nat c * 4)) (to_index (node_base + 0)) (to_index (node_base + 1))
    (to_index (node_base + 2)) (to_index (node_base + 3)) in
  Ok (coords, (offsets, indices)).

Definition generate_gaussian_reduced (rules : GridRulesParams) : result UnstructuredMesh :=
  do! validate_gaussian_n rules then
  let N := to_i32 (gaussian_n rules) in
  let! n := arith I32 (2 * N) in
  let n_lat := to_u64 n in
  let! gauss_lats := compute_gaussian_latitudes N in
  let! nlons := octahedral_nlon_per_lat N in
  let! total_nodes := for_each (seq 0 (Z.to_nat n_lat)) (fun j total => let! n := read nlons (Z.of_nat j) in Ok (to_u64 (total + to_u64 n))) 0 in
  let n_cells := total_nodes in
  let n_mesh_nodes := to_u64 (n_cells * 4) in
  let! lat_bounds := latitude_bounds gauss_lats n_lat in
  let coords := mkView2 (Z.to_nat n_mesh_nodes) 2 (zeros (n_mesh_nodes * 2)) in
  let! '(coords, (offsets, indices)) := for_each (range_order (Z.to_nat n_cells)) (reduced_cell nlons lat_bounds n_lat)
    (coords, (zero_indices (n_cells + 1), zero_indices (n_cells * 4))) in
  let! offsets := write offsets n_cells (to_index (n_cells * 4)) in
  Ok (new_mesh coords offsets indices SphericalDeg).

(** ** Projected grids *)

(** The centers in the space of the projection, row by row. *)
Definition projected_buffers (rules : GridRulesParams) (ni nj : Z) : BufferViews :=
  let points := (fun k => (Z.of_nat k mod ni, Z.of_nat k / ni)) <$> seq 0 (Z.to_nat (ni * nj)) in
  let xs := (fun '(i, _) => dadd (min_x rules) (dmul (dadd (of_int i) half) (r_x rules))) <$> points in
  let ys := (fun '(_, j) => dadd (min_y rules) (dmul (dadd (of_int j) half) (r_y rules))) <$> points in
  mkBuffers (mkSpan (Some xs) (length xs)) (mkSpan (Some ys) (length ys)) no_view no_view no_view2 no_view no_view no_view no_view ni nj.

Definition generate_projected `{!AxisBuild} (rules : GridRulesParams) : PJ UnstructuredMesh :=
  do* pj_lift (validate_bbox rules) then
  do* pj_lift (validate_resolution rules) then
  do* pj_lift (throw_if (is_empty (rule_proj_string rules)) invalid_argument) then
  match axis_proj with
  | None => pj_throw invalid_argument
  | Some proj =>
      let* ni := pj_lift (floor_size (ddiv (dsub (max_x rules) (min_x rules)) (r_x rules))) in
      let* nj := pj_lift (floor_size (ddiv (dsub (max_y rules) (min_y rules)) (r_y rules))) in
      do* pj_lift (throw_if ((ni =? 0) || (nj =? 0)) invalid_argument) then
      let* grid := build_with_proj (rule_proj_string rules) (projected_buffers rules ni nj) in
      pj_lift (let! '(m, _) := to_unstructured grid in Ok m)
  end.

Definition generate `{!AxisBuild} (rules : GridRulesParams) : PJ UnstructuredMesh :=
  let kind := rule_kind rules in
  if String.eqb kind "RegularLatLon" then pj_lift (generate_regular_latlon rules)
  else if String.eqb kind "GaussianRegular" then pj_lift (generate_gaussian_regular rules)
  else if String.eqb kind "GaussianReduced" then pj_lift (generate_gaussian_reduced rules)
  else if String.eqb kind "Projected" then generate_projected rules
  else pj_throw invalid_argument.
End Generators.

(** * Specification *)

Section Reference.
Context `{!Libm}.

(** North to south, the southern half the mirror image of the northern. *)
Definition rule_latitudes (N : nat) : list double :=
  let north := northern_latitude (2 * N) <$> seq 0 N in north ++ reverse (SFopp <$> north).

(** Halfway between the circles, and the poles. *)
Definition circle_bounds (lats : list double) : list double :=
  pole :: ((fun j => dmul half (dadd (lats !!! (j - 1)%nat) (lats !!! j))) <$> seq 1 (length lats - 1)) ++ [SFopp pole].
End Reference.

(** A grid of [ni] by [nj] quadrilaterals with nodes given by column and row. *)
Definition regular_mesh (ni nj : Z) (node : Z -> Z -> double * double) : UnstructuredMesh :=
  let n := Z.to_nat (ni * nj) in
  new_mesh (coords_view (Z.to_nat ((ni + 1) * (nj + 1))) (fun k => node (Z.of_nat k mod (ni + 1)) (Z.of_nat k / (ni + 1))))
    (quad_offsets n) (quad_indices (grid_quad (Z.to_nat ni)) n) SphericalDeg.

(** Circle [j] from the pole has [20 + 4 j] points. *)
Definition octahedral (N : nat) : list nat :=
  let north := (fun j => 20 + 4 * j)%nat <$> seq 0 N in north ++ reverse north.

(** The corners of a point of a reduced grid: its share of the circle, between the bounds. *)
Definition reduced_corner (bounds : list double) (nlon j i k : nat) : double * double :=
  let dlon := ddiv c360 (of_int (Z.of_nat nlon)) in
  let lon_lo := dmul (of_int (Z.of_nat i)) dlon in
  let lon_hi := dmul (of_int (Z.of_nat i + 1)) dlon in
  let lat_hi := bounds !!! j in
  let lat_lo := bounds !!! S j in
  match k with
  | 0%nat => (lon_lo, lat_hi)
  | 1%nat => (lon_hi, lat_hi)
  | 2%nat => (lon_hi, lat_lo)
  | _ => (lon_lo, lat_lo)
  end.

Definition reduced_node (sizes : list nat) (bounds : list double) (k : nat) : double * double :=
  let '(j, i) := ring_of sizes (k / 4)%nat in reduced_corner bounds (sizes !!! j) j i (k mod 4).

Definition own_quad (c : nat) : list Z := let b := 4 * Z.of_nat c in [b; b + 1; b + 2; b + 3].

Definition reduced_mesh (sizes : list nat) (bounds : list double) : UnstructuredMesh :=
  let n := sum_list sizes in
  new_mesh (coords_view (4 * n) (reduced_node sizes bounds)) (quad_offsets n) (quad_indices own_quad n) SphericalDeg.

(** * Lemmas *)

(** ** Vectors *)

Lemma new_vector_ok {A} n (x : A) : n < 2 ^ 60 -> new_vector n x = Ok (replicate (Z.to_nat n) x).
Proof. intros Hn. unfold new_vector. by rewrite (proj2 (Z.leb_gt _ _)). Qed.

(** A loop that fills a vector from both ends. *)
Lemma mirror_filled {A} (g h : nat -> A) N body (l0 : list A) : length l0 = (2 * N)%nat ->
  (forall i l, (i < N)%nat -> length l = (2 * N)%nat ->
    body i l = (let! l := write l (Z.of_nat i) (g i) in write l (2 * Z.of_nat N - 1 - Z.of_nat i) (h i))) ->
  for_each (seq 0 N) body l0 = Ok ((g <$> seq 0 N) ++ reverse (h <$> seq 0 N)).
Proof.
  intros Hl Hb. set (target := (g <$> seq 0 N) ++ reverse (h <$> seq 0 N)).
  assert (Ht : length target = (2 * N)%nat) by (unfold target; rewrite length_app, length_reverse, !length_fmap, length_seq; lia).
  assert (T1 : forall i, (i < N)%nat -> target !! i = Some (g i)).
  { intros i Hi. unfold target. rewrite lookup_app_l by (rewrite length_fmap, length_seq; lia). by rewrite list_lookup_fmap, lookup_seq_lt. }
  assert (T2 : forall i, (i < N)%nat -> target !! (2 * N - 1 - i)%nat = Some (h i)).
  { intros i Hi. unfold target. rewrite lookup_app_r by (rewrite length_fmap, length_seq; lia). rewrite length_fmap, length_seq.
    rewrite reverse_lookup by (rewrite length_fmap, length_seq; lia). rewrite list_lookup_fmap, length_fmap, length_seq, lookup_seq_lt by lia.
    cbn. do 2 f_equal. lia. }
  destruct (for_each_keys (fun l : list A => length l = (2 * N)%nat) (fun k l => l !! k = target !! k)
    (fun i k => k = i \/ k = (2 * N - 1 - i)%nat) (seq 0 N) body l0) as (l & E & HP & Hd & _); [|done|].
  - intros i l Hi Hl'. apply elem_of_seq in Hi. rewrite Hb by (done || lia).
    rewrite !write_in_bounds by lia. cbn [bind]. rewrite write_in_bounds by (rewrite length_insert; lia).
    rewrite Nat2Z.id. replace (Z.to_nat (2 * Z.of_nat N - 1 - Z.of_nat i)) with (2 * N - 1 - i)%nat by lia.
    eexists. split; [done|]. split; [by rewrite !length_insert|]. split.
    + intros k [->| ->].
      * rewrite list_lookup_insert_ne by lia. by rewrite list_lookup_insert_eq, T1 by lia.
      * by rewrite list_lookup_insert_eq, T2 by (rewrite ?length_insert; lia).
    + intros k Hk. destruct (decide (k = (2 * N - 1 - i)%nat)) as [->|N1]; [by rewrite list_lookup_insert_eq, T2 by (rewrite ?length_insert; lia)|].
      rewrite list_lookup_insert_ne by done. destruct (decide (k = i)) as [->|N2]; [by rewrite list_lookup_insert_eq, T1 by lia|].
      by rewrite list_lookup_insert_ne.
  - rewrite E. f_equal. apply list_eq. intros k. destruct (decide (k < 2 * N)%nat) as [Hk|Hk].
    + destruct (decide (k < N)%nat); [apply (Hd k); [apply elem_of_seq; lia|by left]|].
      apply (Hd (2 * N - 1 - k)%nat); [apply elem_of_seq; lia|right; lia].
    + rewrite !lookup_ge_None_2; [done| |]; lia.
Qed.

Section Lemmas.
Context `{!ParallelFor, !Libm}.

Lemma latitudes_spec N : 0 < N < 2 ^ 28 -> compute_gaussian_latitudes N = Ok (rule_latitudes (Z.to_nat N)).
Proof.
  intros Hn. unfold compute_gaussian_latitudes. rewrite arith_ok by (cbn [imin imax]; lia). cbn [bind].
  rewrite to_u64_id, new_vector_ok by lia. cbn [bind]. unfold rule_latitudes. rewrite <- list_fmap_compose.
  replace (Z.to_nat (2 * N)) with (2 * Z.to_nat N)%nat by lia.
  apply (mirror_filled (northern_latitude (2 * Z.to_nat N)) (SFopp ∘ northern_latitude (2 * Z.to_nat N))); [by rewrite length_replicate|].
  intros i l Hi Hl. by rewrite Z2Nat.id by lia.
Qed.

Lemma rule_latitudes_length N : length (rule_latitudes N) = (2 * N)%nat.
Proof. unfold rule_latitudes. rewrite length_app, length_reverse, !length_fmap, length_seq. lia. Qed.

Lemma circle_bounds_length lats : (0 < length lats)%nat -> length (circle_bounds lats) = S (length lats).
Proof. intros Hl. unfold circle_bounds. cbn [length]. rewrite length_app, length_fmap, length_seq. cbn. lia. Qed.

Lemma latitude_bounds_spec lats : (0 < length lats)%nat -> Z.of_nat (length lats) < 2 ^ 59 ->
  latitude_bounds lats (Z.of_nat (length lats)) = Ok (circle_bounds lats).
Proof.
  intros Hp Hs. set (n := length lats) in *. unfold latitude_bounds. rewrite to_u64_id, new_vector_ok by lia. cbn [bind].
  rewrite write_in_bounds by (rewrite length_replicate; lia). cbn [bind]. rewrite Nat2Z.id.
  set (mid := fun j => dmul half (dadd (lats !!! (j - 1)%nat) (lats !!! j))).
  match goal with |- context [for_each _ ?body _] => set (b := body) end.
  destruct (for_each_keys (fun l : list double => length l = S n) (fun k l => l !! k = Some (if decide (k = 0%nat) then pole else mid k))
    (fun i k => k = i) (seq 1 (n - 1)) b (<[Z.to_nat 0 := pole]> (replicate (Z.to_nat (Z.of_nat n + 1)) dzero))) as (l & E & HP & Hd & Hk).
  - intros i l Hi Hl. apply elem_of_seq in Hi. unfold b. destruct (lookup_lt_is_Some_2 lats (i - 1)) as [x Hx]; [lia|].
    destruct (lookup_lt_is_Some_2 lats i) as [y Hy]; [lia|]. replace (Z.of_nat i - 1) with (Z.of_nat (i - 1)) by lia.
    rewrite (read_nat _ _ _ Hx), (read_nat _ _ _ Hy). cbn [bind]. rewrite write_in_bounds, Nat2Z.id by lia.
    eexists. split; [done|]. split; [by rewrite length_insert|].
    assert (Hm : dmul half (dadd x y) = mid i) by (unfold mid; by rewrite (list_lookup_total_correct _ _ _ Hx), (list_lookup_total_correct _ _ _ Hy)).
    split.
    + intros k ->. rewrite decide_False by lia. by rewrite list_lookup_insert_eq, Hm by lia.
    + intros k Hk. destruct (decide (i = k)) as [<-|Hne]; [|by rewrite list_lookup_insert_ne].
      rewrite decide_False by lia. by rewrite list_lookup_insert_eq, Hm by lia.
  - rewrite length_insert, length_replicate. lia.
  - rewrite E. cbn [bind]. rewrite write_in_bounds, Nat2Z.id by lia. f_equal. apply list_eq. intros k.
    destruct (decide (k = n)) as [->|Hne].
    + rewrite list_lookup_insert_eq by lia. unfold circle_bounds. fold n. rewrite lookup_cons_ne_0 by lia.
      rewrite lookup_app_r by (rewrite length_fmap, length_seq; lia).
      rewrite length_fmap, length_seq. by replace (pred n - (n - 1))%nat with 0%nat by lia.
    + rewrite list_lookup_insert_ne by done. destruct (decide (k < n)%nat) as [Hlt|Hge].
      * destruct k as [|k].
        { rewrite (Hk 0%nat); [done|]. rewrite list_lookup_insert_eq; [done|]. rewrite length_replicate. lia. }
        rewrite (Hd (S k) (S k)); [|apply elem_of_seq; lia|done]. rewrite decide_False by done. unfold circle_bounds. fold n. rewrite lookup_cons_ne_0 by lia. cbn [Nat.pred].
        rewrite lookup_app_l by (rewrite length_fmap, length_seq; lia). rewrite list_lookup_fmap, lookup_seq_lt by lia. done.
      * rewrite !lookup_ge_None_2; [done| |]; rewrite ?circle_bounds_length; lia.
Qed.

(** ** Regular grids *)

Lemma rule_cell_eq ni nj c s : 0 < ni -> 0 < nj -> (ni + 1) * (nj + 1) < 2 ^ 61 -> (c < Z.to_nat (ni * nj))%nat ->
  rule_cell ni c s = put_cell c (grid_quad (Z.to_nat ni) c) s.
Proof.
  intros Hi Hj Hs Hc. destruct s as [offsets indices]. pose proof (Z.mod_pos_bound (Z.of_nat c) ni Hi) as Bi.
  pose proof (Z.div_pos (Z.of_nat c) ni ltac:(lia) Hi) as Bj. assert (Bj' : Z.of_nat c / ni < nj) by (apply Z.div_lt_upper_bound; lia).
  unfold rule_cell, put_cell, grid_quad. destruct (to_nat_cell ni c Hi) as [-> ->]. rewrite Z2Nat.id by lia. cbn [fst snd].
  rewrite to_u64_id by lia. rewrite !to_index_id by nia. by rewrite (Z.mul_comm (Z.of_nat c) 4).
Qed.

Lemma fill_regular_spec ni nj node (f : Z -> Z -> double * double) : 0 < ni -> 0 < nj -> (ni + 1) * (nj + 1) < 2 ^ 61 ->
  (forall i j, 0 <= i <= ni -> 0 <= j <= nj -> node i j = Ok (f i j)) -> fill_regular ni nj node = Ok (regular_mesh ni nj f).
Proof.
  intros Hi Hj Hs Hnode. unfold fill_regular, regular_mesh. rewrite !to_u64_id by nia. set (n := Z.to_nat ((ni + 1) * (nj + 1))).
  rewrite (coords_filled n (fun k => f (Z.of_nat k mod (ni + 1)) (Z.of_nat k / (ni + 1)))).
  - cbn [bind]. destruct (cells_filled (Z.to_nat (ni * nj)) (grid_quad (Z.to_nat ni)) (range_order (Z.to_nat (ni * nj))) (rule_cell ni)
      (zero_indices (ni * nj + 1), zero_indices (ni * nj * 4))) as (offsets & E & Hl & Hw); [apply range_order_perm|apply zero_conn_sized; nia|done| |].
    { intros c s Hc _. by apply (rule_cell_eq ni nj). }
    rewrite E. cbn [bind]. rewrite write_in_bounds by lia. cbn [bind]. rewrite to_index_id by nia.
    replace (ni * nj * 4) with (4 * Z.of_nat (Z.to_nat (ni * nj))) by lia. by rewrite Hw.
  - apply range_order_perm.
  - split; [|done]. unfold view_ok, zeros. cbn [cells extent0 extent1]. rewrite length_replicate. lia.
  - intros k v Hk _. pose proof (Z.mod_pos_bound (Z.of_nat k) (ni + 1) ltac:(lia)) as Bi. pose proof (Z.div_pos (Z.of_nat k) (ni + 1) ltac:(lia) ltac:(lia)) as Bj.
    assert (Z.of_nat k / (ni + 1) < nj + 1) by (apply Z.div_lt_upper_bound; lia). rewrite Hnode by lia. cbn [bind].
    by destruct (f _ _).
Qed.

Lemma regular_mesh_ok ni nj f : 0 < ni -> 0 < nj -> let m := regular_mesh ni nj f in
  mesh_ok m /\ n_cells m = Z.to_nat (ni * nj) /\ n_nodes m = Z.to_nat ((ni + 1) * (nj + 1)) /\
  (forall c, (c < n_cells m)%nat -> cell_nodes m c = grid_quad (Z.to_nat ni) c) /\
  (forall i j, 0 <= i <= ni -> 0 <= j <= nj -> let k := j * (ni + 1) + i in
    (coord (node_coords m) k 0, coord (node_coords m) k 1) = f i j).
Proof.
  intros Hi Hj m. destruct (quad_mesh_ok (node_coords m) (grid_quad (Z.to_nat ni)) (Z.to_nat (ni * nj)) SphericalDeg) as (M & N & Q);
    [apply coords_view_shaped|done| |].
  { intros c Hc. destruct (grid_quad_range (Z.to_nat ni) (Z.to_nat nj) c) as [Hq1 Hq2]; [lia|nia|]. split; [done|].
    eapply list.Forall_impl; [exact Hq2|]. cbn. intros v. rewrite !Z2Nat.id by lia. lia. }
  assert (HN : n_cells m = Z.to_nat (ni * nj)) by exact N. split; [exact M|]. split; [done|]. split; [done|].
  split; [rewrite HN; exact Q|]. intros i j Bi Bj k.
  unfold m. cbn [regular_mesh new_mesh node_coords]. unfold k. replace (j * (ni + 1) + i) with (Z.of_nat (Z.to_nat (j * (ni + 1) + i))) by nia.
  destruct (coords_view_coord (Z.to_nat ((ni + 1) * (nj + 1))) (fun k => f (Z.of_nat k mod (ni + 1)) (Z.of_nat k / (ni + 1))) (Z.to_nat (j * (ni + 1) + i)))
    as [-> ->]; [nia|]. rewrite Z2Nat.id by nia. destruct (div_mod_unique (ni + 1) j i) as [Hd Hm]; [lia|lia|].
  rewrite (Z.mul_comm j), Hd, Hm. by destruct (f i j).
Qed.

(** ** Reduced grids *)

Lemma nlons_spec N : 0 < N < 2 ^ 28 -> octahedral_nlon_per_lat N = Ok (Z.of_nat <$> octahedral (Z.to_nat N)).
Proof.
  intros Hn. unfold octahedral_nlon_per_lat. rewrite arith_ok by (cbn [imin imax]; lia). cbn [bind].
  rewrite to_u64_id, new_vector_ok by lia. cbn [bind]. pose (g := fun j => Z.of_nat (20 + 4 * j)).
  rewrite (mirror_filled g g (Z.to_nat N)); [|rewrite length_replicate; lia|].
  - unfold octahedral. by rewrite fmap_app, fmap_reverse, <- !list_fmap_compose.
  - intros i l Hi Hl. rewrite arith_ok by (cbn [imin imax]; lia). cbn [bind]. unfold g.
    replace (Z.of_nat (20 + 4 * i)) with (20 + 4 * Z.of_nat i) by lia. by rewrite Z2Nat.id by lia.
Qed.

Lemma octahedral_length N : length (octahedral N) = (2 * N)%nat.
Proof. unfold octahedral. rewrite length_app, length_reverse, !length_fmap, length_seq. lia. Qed.

Lemma octahedral_total N : sum_list (octahedral N) = (4 * N * (N + 9))%nat.
Proof.
  assert (Hh : sum_list ((fun j => 20 + 4 * j)%nat <$> seq 0 N) = (2 * N * (N + 9))%nat).
  { induction N as [|N IH]; [done|]. rewrite seq_S, fmap_app, sum_list_with_app, IH. cbn. lia. }
  unfold octahedral. rewrite sum_list_with_app, sum_list_with_reverse, Hh. lia.
Qed.

Lemma octahedral_lookup N j n : octahedral N !! j = Some n -> (20 <= n < 4 * N + 20)%nat.
Proof.
  intros Hj. apply list_elem_of_lookup_2 in Hj. unfold octahedral in Hj.
  apply elem_of_app in Hj as [Hj|Hj]; [|rewrite elem_of_reverse in Hj]; apply list_elem_of_fmap in Hj as (k & -> & Hk%elem_of_seq); lia.
Qed.

Lemma find_circle_from pre sizes k : Forall (fun n => Z.of_nat n < 2 ^ 63) sizes -> (k < sum_list sizes)%nat ->
  find_circle (length sizes) (Z.of_nat <$> pre ++ sizes) (Z.of_nat (length pre)) (Z.of_nat k)
  = let '(j, i) := ring_of sizes k in Ok (Z.of_nat (length pre + j), Z.of_nat i).
Proof.
  intros Hs. revert pre k. induction Hs as [|n sizes Hn _ IH]; intros pre k Hk; [cbn in Hk; lia|]. cbn [length find_circle].
  rewrite (read_nat _ _ (Z.of_nat n)) by (rewrite list_lookup_fmap; by rewrite list_lookup_middle). cbn [bind]. rewrite to_u64_id by lia.
  cbn [ring_of]. destruct (Nat.ltb_spec k n) as [Hlt|Hge].
  - rewrite (proj2 (Z.leb_gt _ _)) by lia. by rewrite Nat.add_0_r.
  - rewrite (proj2 (Z.leb_le _ _)) by lia. cbn in Hk. specialize (IH (pre ++ [n]) (k - n)%nat ltac:(cbn; lia)).
    rewrite length_app, <- app_assoc in IH. cbn [app length] in IH.
    replace (Z.of_nat (length pre) + 1) with (Z.of_nat (length pre + 1)) by lia. replace (Z.of_nat k - Z.of_nat n) with (Z.of_nat (k - n)) by lia.
    rewrite IH. destruct (ring_of sizes (k - n)) as [j i]. do 2 f_equal. lia.
Qed.

Lemma total_spec sizes : Forall (fun n => Z.of_nat n < 2 ^ 63) sizes -> Z.of_nat (sum_list sizes) < 2 ^ 63 ->
  for_each (seq 0 (length sizes)) (fun j total => let! n := read (Z.of_nat <$> sizes) (Z.of_nat j) in Ok (to_u64 (total + to_u64 n))) 0
  = Ok (Z.of_nat (sum_list sizes)).
Proof.
  intros Hs. induction sizes as [|n sizes IH] using rev_ind; intros Ht; [done|]. apply Forall_app in Hs as [Hs Hn].
  rewrite sum_list_with_app in Ht. cbn in Ht. rewrite length_app, Nat.add_1_r, seq_S, for_each_app.
  rewrite (for_each_ext _ _ (fun j total => let! n := read (Z.of_nat <$> sizes) (Z.of_nat j) in Ok (to_u64 (total + to_u64 n)))).
  2:{ intros i t Hi%elem_of_seq. destruct (lookup_lt_is_Some_2 sizes i) as [x Hx]; [lia|].
      rewrite !(read_nat _ _ (Z.of_nat x)); [done|by rewrite list_lookup_fmap, Hx|].
      rewrite list_lookup_fmap. by rewrite lookup_app_l, Hx by lia. }
  rewrite IH by (done || lia). cbn [bind for_each]. apply Forall_singleton in Hn.
  rewrite (read_nat _ _ (Z.of_nat n)) by (rewrite list_lookup_fmap; by rewrite list_lookup_middle). cbn [bind].
  rewrite (to_u64_id (Z.of_nat n)), to_u64_id by lia. f_equal. rewrite sum_list_with_app. cbn. lia.
Qed.
End Lemmas.

(** Two loops in one. *)
Lemma for_each_pair {S T} order (b1 : nat -> S -> result S) (b2 : nat -> T -> result T) body s t s' t' :
  (forall i u v, i ∈ order -> body i (u, v) = (let! u' := b1 i u in let! v' := b2 i v in Ok (u', v'))) ->
  for_each order b1 s = Ok s' -> for_each order b2 t = Ok t' -> for_each order body (s, t) = Ok (s', t').
Proof.
  revert s t. induction order as [|i order IH]; intros s t Hb; [by intros [= ->] [= ->]|]. cbn [for_each]. intros H1 H2.
  rewrite Hb by left. destruct (b1 i s); cbn [bind] in *; try done. destruct (b2 i t); cbn [bind] in *; try done.
  apply IH; [|done|done]. intros j u v Hj. apply Hb. by right.
Qed.

Definition put_nodes4 (f : nat -> double * double) (c : nat) (v : View2) : result View2 :=
  let put k v := put_node (4 * c + k) (fst (f (4 * c + k)%nat)) (snd (f (4 * c + k)%nat)) v in
  let! v := put 0%nat v in let! v := put 1%nat v in let! v := put 2%nat v in put 3%nat v.

Lemma nodes4_filled n f order v0 : order ≡ₚ seq 0 n -> shaped (4 * n) v0 -> for_each order (put_nodes4 f) v0 = Ok (coords_view (4 * n) f).
Proof.
  intros Hp Hv0. pose (K := fun k v => (k < 4 * n)%nat -> coord v (Z.of_nat k) 0 = fst (f k) /\ coord v (Z.of_nat k) 1 = snd (f k)).
  assert (Hput : forall k v, (k < 4 * n)%nat -> shaped (4 * n) v -> exists v', put_node k (fst (f k)) (snd (f k)) v = Ok v' /\
    shaped (4 * n) v' /\ K k v' /\ forall k', K k' v -> K k' v').
  { intros k v Hk Hv. destruct (put_node_spec (4 * n) k (fst (f k)) (snd (f k)) v) as (v' & E & S & C0 & C1 & Hkeep); [done|done|].
    exists v'. split; [done|]. split; [done|]. split; [by intros _|]. intros k' Hk' Hlt. destruct (decide (k' = k)) as [->|Hne]; [done|].
    destruct (Hkeep k' Hlt Hne) as [-> ->]. by apply Hk'. }
  destruct (for_each_keys (shaped (4 * n)) K (fun c k => (4 * c <= k < 4 * c + 4)%nat) order (put_nodes4 f) v0) as (v & E & HP & Hd & _); [|done|].
  - intros c v Hc Hv. rewrite Hp in Hc. apply elem_of_seq in Hc. unfold put_nodes4.
    destruct (Hput (4 * c + 0)%nat v) as (v1 & -> & S1 & D1 & K1); [lia|done|]. cbn [bind].
    destruct (Hput (4 * c + 1)%nat v1) as (v2 & -> & S2 & D2 & K2); [lia|done|]. cbn [bind].
    destruct (Hput (4 * c + 2)%nat v2) as (v3 & -> & S3 & D3 & K3); [lia|done|]. cbn [bind].
    destruct (Hput (4 * c + 3)%nat v3) as (v4 & -> & S4 & D4 & K4); [lia|done|].
    exists v4. split; [done|]. split; [done|]. split; [|by auto]. intros k Hk.
    assert (k = 4 * c + 0 \/ k = 4 * c + 1 \/ k = 4 * c + 2 \/ k = 4 * c + 3)%nat as [->|[->|[->| ->]]] by lia; auto.
  - rewrite E. f_equal. apply (shaped_ext (4 * n)); [done|apply coords_view_shaped|]. intros k Hk.
    destruct (coords_view_coord (4 * n) f k Hk) as [-> ->]. apply (Hd (k / 4)%nat k); [|split|done].
    + rewrite Hp. apply elem_of_seq. split; [lia|]. apply Nat.Div0.div_lt_upper_bound. lia.
    + pose proof (Nat.div_mod_eq k 4). lia.
    + pose proof (Nat.div_mod_eq k 4). pose proof (Nat.mod_upper_bound k 4 ltac:(lia)). lia.
Qed.

Lemma reduced_node_at sizes bounds c q j i n : ring_of sizes c = (j, i) -> sizes !! j = Some n -> (q < 4)%nat ->
  reduced_node sizes bounds (4 * c + q) = reduced_corner bounds n j i q.
Proof.
  intros Hr Hj Hq. unfold reduced_node. pose proof (Nat.div_mod_eq (4 * c + q) 4). pose proof (Nat.mod_upper_bound (4 * c + q) 4 ltac:(lia)).
  assert ((4 * c + q) / 4 = c)%nat as -> by lia. assert ((4 * c + q) mod 4 = q)%nat as -> by lia. by rewrite Hr, (list_lookup_total_correct _ _ _ Hj).
Qed.

Lemma reduced_cell_eq sizes bounds c coords conn : Forall (fun n => Z.of_nat n < 2 ^ 63) sizes -> Z.of_nat (sum_list sizes) < 2 ^ 60 ->
  length bounds = S (length sizes) -> (c < sum_list sizes)%nat ->
  reduced_cell (Z.of_nat <$> sizes) bounds (Z.of_nat (length sizes)) c (coords, conn)
  = (let! v := put_nodes4 (reduced_node sizes bounds) c coords in let! s := put_cell c (own_quad c) conn in Ok (v, s)).
Proof.
  intros Hs Ht Hb Hc. destruct conn as [offsets indices]. unfold reduced_cell. rewrite Nat2Z.id.
  pose proof (find_circle_from [] sizes c Hs Hc) as Hf. cbn [app length] in Hf. rewrite Nat2Z.inj_0 in Hf. rewrite Hf.
  destruct (ring_of_inv sizes c Hc) as (j & i & n & E & Hj & Hi & Ek). rewrite E. cbn [bind Nat.add].
  pose proof (lookup_lt_Some _ _ _ Hj) as Hjl. rewrite list.Forall_forall in Hs. pose proof (Hs n (list_elem_of_lookup_2 _ _ _ Hj)) as Hn.
  rewrite (read_nat _ j (Z.of_nat n)) by by rewrite list_lookup_fmap, Hj. cbn [bind]. rewrite to_u64_id by lia.
  destruct (lookup_lt_is_Some_2 bounds j) as [x Hx]; [lia|]. destruct (lookup_lt_is_Some_2 bounds (S j)) as [y Hy]; [lia|].
  replace (Z.of_nat j + 1) with (Z.of_nat (S j)) by lia. rewrite (read_nat _ _ _ Hx), (read_nat _ _ _ Hy). cbn [bind].
  rewrite to_u64_id, !to_index_id by lia. unfold put_nodes4, put_node.
  rewrite !(reduced_node_at sizes bounds c _ j i n) by (done || lia). unfold reduced_corner. cbn [fst snd].
  rewrite (list_lookup_total_correct _ _ _ Hx), (list_lookup_total_correct _ _ _ Hy).
  replace (Z.of_nat (4 * c + 0)) with (Z.of_nat c * 4 + 0) by lia. replace (Z.of_nat (4 * c + 1)) with (Z.of_nat c * 4 + 1) by lia.
  replace (Z.of_nat (4 * c + 2)) with (Z.of_nat c * 4 + 2) by lia. replace (Z.of_nat (4 * c + 3)) with (Z.of_nat c * 4 + 3) by lia.
  rewrite !bind_assoc. repeat (apply bind_ext; intros ?; rewrite ?bind_assoc).
  unfold put_cell, own_quad. cbn [fst snd bind]. rewrite Z.add_0_r, (Z.mul_comm (Z.of_nat c) 4). rewrite bind_assoc. apply bind_ext. intros o.
  rewrite bind_assoc. by apply bind_ext.
Qed.

Lemma own_quad_range n c : (c < n)%nat -> length (own_quad c) = 4%nat /\ Forall (fun v => 0 <= v < Z.of_nat (4 * n)) (own_quad c).
Proof. intros Hc. split; [done|]. unfold own_quad. repeat (constructor; [lia|]). constructor. Qed.

Lemma reduced_mesh_ok sizes bounds : let m := reduced_mesh sizes bounds in
  mesh_ok m /\ n_cells m = sum_list sizes /\ n_nodes m = (4 * sum_list sizes)%nat /\
  forall j n i q, sizes !! j = Some n -> (i < n)%nat -> (q < 4)%nat -> let c := (ring_start sizes j + i)%nat in
    cell_nodes m c = own_quad c /\
    (coord (node_coords m) (Z.of_nat (4 * c + q)) 0, coord (node_coords m) (Z.of_nat (4 * c + q)) 1) = reduced_corner bounds n j i q.
Proof.
  intros m. destruct (quad_mesh_ok (node_coords m) own_quad (sum_list sizes) SphericalDeg) as (M & N & Q);
    [apply coords_view_shaped|done|by apply own_quad_range|].
  split; [exact M|]. split; [exact N|]. split; [done|]. intros j n i q Hj Hi Hq c.
  pose proof (ring_start_bound sizes j n i Hj Hi) as Hc. split; [by apply Q|].
  destruct (coords_view_coord (4 * sum_list sizes) (reduced_node sizes bounds) (4 * c + q)) as [E0 E1]; [unfold c; lia|].
  unfold m, reduced_mesh. cbn [new_mesh node_coords]. rewrite E0, E1.
  rewrite (reduced_node_at sizes bounds c q j i n) by (by apply (ring_of_start _ _ _ n) || done). by destruct (reduced_corner _ _ _ _ _).
Qed.

(** * Properties *)

Section Properties.
Context `{!ParallelFor, !Libm}.

(** What a regular grid of longitude and latitude answers. *)
Definition latlon_outcome (rules : GridRulesParams) : result UnstructuredMesh :=
  if SFleb (max_x rules) (min_x rules) || SFleb (max_y rules) (min_y rules) || SFleb (r_x rules) dzero || SFleb (r_y rules) dzero
  then Throw invalid_argument
  else
    match floor_size (ddiv (dsub (max_x rules) (min_x rules)) (r_x rules)), floor_size (ddiv (dsub (max_y rules) (min_y rules)) (r_y rules)) with
    | Ok ni, Ok nj => if (ni =? 0) || (nj =? 0) then Throw invalid_argument else Ok (regular_mesh ni nj (latlon_node rules))
    | _, _ => Undef
    end.

Lemma floor_size_calm x : floor_size x = Undef \/ exists n, floor_size x = Ok n /\ 0 <= n.
Proof.
  unfold floor_size. destruct (floorZ x) as [z|]; [|by left]. case_match eqn:E; [|by left]. right. exists z. bsimpl. split; [done|lia].
Qed.

(** The rule of a regular grid is refused when a side or a step is not positive or no cell
    fits; else the mesh has one node per corner at [min + i * r] and one quadrilateral per
    cell, and is well-formed. *)
Theorem regular_latlon_correct (rules : GridRulesParams) :
  (forall ni nj, floor_size (ddiv (dsub (max_x rules) (min_x rules)) (r_x rules)) = Ok ni ->
    floor_size (ddiv (dsub (max_y rules) (min_y rules)) (r_y rules)) = Ok nj -> (ni + 1) * (nj + 1) < 2 ^ 61) ->
  generate_regular_latlon rules = latlon_outcome rules /\
  forall m, generate_regular_latlon rules = Ok m -> exists ni nj, 0 < ni /\ 0 < nj /\ mesh_ok m /\ Z.of_nat (n_cells m) = ni * nj /\
    (forall c, (c < n_cells m)%nat -> cell_nodes m c = grid_quad (Z.to_nat ni) c) /\
    (forall i j, 0 <= i <= ni -> 0 <= j <= nj -> let k := j * (ni + 1) + i in
      (coord (node_coords m) k 0, coord (node_coords m) k 1) = latlon_node rules i j).
Proof.
  intros Hs. assert (E : generate_regular_latlon rules = latlon_outcome rules).
  { unfold generate_regular_latlon, latlon_outcome, validate_bbox, validate_resolution, throw_if.
    destruct (SFleb (max_x rules) (min_x rules)), (SFleb (max_y rules) (min_y rules)), (SFleb (r_x rules) dzero), (SFleb (r_y rules) dzero);
      cbn [bind orb]; try done.
    destruct (floor_size_calm (ddiv (dsub (max_x rules) (min_x rules)) (r_x rules))) as [->|(ni & Ei & Bi)]; [done|].
    destruct (floor_size_calm (ddiv (dsub (max_y rules) (min_y rules)) (r_y rules))) as [->|(nj & Ej & Bj)]; [by rewrite Ei|].
    specialize (Hs ni nj Ei Ej). rewrite Ei, Ej. cbn [bind]. case_if; cbn [bind]; [done|]. apply fill_regular_spec; (done || bsimpl; lia). }
  split; [done|]. rewrite E. intros m. unfold latlon_outcome. case_if; [done|].
  destruct (floor_size_calm (ddiv (dsub (max_x rules) (min_x rules)) (r_x rules))) as [->|(ni & Ei & Bi)]; [done|].
  destruct (floor_size_calm (ddiv (dsub (max_y rules) (min_y rules)) (r_y rules))) as [->|(nj & Ej & Bj)]; [by rewrite Ei|].
  rewrite Ei, Ej. case_if; [done|]. intros [= <-]. bsimpl. exists ni, nj.
  destruct (regular_mesh_ok ni nj (latlon_node rules)) as (M & N & _ & Q & D); [lia|lia|].
  split; [lia|]. split; [lia|]. split; [done|]. split; [rewrite N; nia|]. by split.
Qed.

Lemma gaussian_n_narrow rules : 0 < gaussian_n rules < 2 ^ 28 -> validate_gaussian_n rules = Ok tt /\ to_i32 (gaussian_n rules) = gaussian_n rules.
Proof.
  intros Hn. unfold validate_gaussian_n. rewrite (proj2 (Z.leb_gt _ _)) by lia. split; [done|]. apply to_i32_id. cbn [imin imax]. lia.
Qed.

(** The regular Gaussian grid. *)
Lemma gaussian_regular_correct rules : 0 < gaussian_n rules < 2 ^ 28 -> let N := gaussian_n rules in
  let bounds := circle_bounds (rule_latitudes (Z.to_nat N)) in
  generate_gaussian_regular rules
  = Ok (regular_mesh (4 * N) (2 * N) (fun i j => (dmul (of_int i) (ddiv c360 (of_int (4 * N))), value_at bounds j))).
Proof.
  intros Hn N bounds. destruct (gaussian_n_narrow rules Hn) as [Hv Hi]. unfold generate_gaussian_regular. rewrite Hv, Hi. cbn [bind]. fold N in Hn |- *.
  rewrite !arith_ok by (cbn [imin imax]; lia). cbn [bind]. rewrite !to_u64_id, latitudes_spec by lia. cbn [bind].
  pose proof (rule_latitudes_length (Z.to_nat N)) as Hl. replace (2 * N) with (Z.of_nat (length (rule_latitudes (Z.to_nat N)))) by lia.
  rewrite latitude_bounds_spec by lia. cbn [bind]. fold bounds. apply fill_regular_spec; [lia|lia|nia|]. intros i j _ Hj.
  rewrite read_value_at; [done|]. unfold bounds. rewrite circle_bounds_length; lia.
Qed.

(** The reduced grid of [N] circles per hemisphere has [4 N (N + 9)] cells, one for each
    point of each circle in order: between the bounds of the circle, at the point's share of
    the 360 degrees, with four nodes of its own. *)
Theorem gaussian_reduced_correct (rules : GridRulesParams) : 0 < gaussian_n rules < 2 ^ 28 ->
  let N := Z.to_nat (gaussian_n rules) in
  let sizes := octahedral N in
  let bounds := circle_bounds (rule_latitudes N) in
  exists m, generate_gaussian_reduced rules = Ok m /\ mesh_ok m /\ n_cells m = (4 * N * (N + 9))%nat /\ n_nodes m = (4 * n_cells m)%nat /\
    forall j n i q, sizes !! j = Some n -> (i < n)%nat -> (q < 4)%nat -> let c := (ring_start sizes j + i)%nat in
      cell_nodes m c = own_quad c /\
      (coord (node_coords m) (Z.of_nat (4 * c + q)) 0, coord (node_coords m) (Z.of_nat (4 * c + q)) 1) = reduced_corner bounds n j i q.
Proof.
  intros Hn N sizes bounds. destruct (gaussian_n_narrow rules Hn) as [Hv Hi].
  pose proof (octahedral_length N) as Hl. pose proof (octahedral_total N) as Ht. pose proof (rule_latitudes_length N) as Hr. fold sizes in Hl, Ht.
  assert (Hf : Forall (fun n => Z.of_nat n < 2 ^ 63) sizes).
  { apply list.Forall_forall. intros n [j Hj]%list_elem_of_lookup. apply octahedral_lookup in Hj. lia. }
  assert (Hs : Z.of_nat (sum_list sizes) < 2 ^ 60) by (unfold N in *; nia).
  assert (Hb : length bounds = S (length sizes)) by (unfold bounds; rewrite circle_bounds_length; lia).
  exists (reduced_mesh sizes bounds). destruct (reduced_mesh_ok sizes bounds) as (M & Nc & Nn & Q).
  split; [|split; [done|]; split; [by rewrite Nc|]; split; [by rewrite Nc, Nn|done]].
  unfold generate_gaussian_reduced. rewrite Hv, Hi. cbn [bind]. rewrite arith_ok by (cbn [imin imax]; lia). cbn [bind].
  rewrite to_u64_id, latitudes_spec, nlons_spec by lia. cbn [bind]. fold N sizes.
  replace (2 * gaussian_n rules) with (Z.of_nat (length sizes)) by (unfold N in *; lia). rewrite Nat2Z.id, total_spec by (done || lia). cbn [bind].
  replace (Z.of_nat (length sizes)) with (Z.of_nat (length (rule_latitudes N))) at 1 by lia. rewrite latitude_bounds_spec by (unfold N in *; lia).
  cbn [bind]. fold bounds. set (n := sum_list sizes) in *. rewrite (to_u64_id (Z.of_nat n * 4)), Nat2Z.id by lia.
  destruct (cells_filled n own_quad (range_order n) (fun c s => put_cell c (own_quad c) s)
    (zero_indices (Z.of_nat n + 1), zero_indices (Z.of_nat n * 4))) as (offsets & E & Hlo & Hw); [apply range_order_perm| |done|done|].
  { pose proof (zero_conn_sized (Z.of_nat n) ltac:(lia)) as [Hz _]. by rewrite Nat2Z.id in Hz. }
  rewrite (for_each_pair (range_order n) (put_nodes4 (reduced_node sizes bounds)) (fun c s => put_cell c (own_quad c) s) _ _ _
    (coords_view (4 * n) (reduced_node sizes bounds)) (offsets, quad_indices own_quad n)); [| | |done].
  - cbn [bind]. rewrite write_in_bounds by lia. cbn [bind]. rewrite to_index_id, Nat2Z.id by lia.
    rewrite (Z.mul_comm (Z.of_nat n)), Hw. done.
  - intros c v s Hc. rewrite range_order_perm in Hc. apply elem_of_seq in Hc. apply reduced_cell_eq; (done || lia).
  - apply nodes4_filled; [apply range_order_perm|]. unfold shaped, view_ok, zeros. cbn [cells extent0 extent1]. rewrite length_replicate.
    split; [lia|]. split; [lia|done].
Qed.
End Properties.

(** * Examples *)

#[local] Instance rising : ParallelFor.
Proof. refine {| range_order n := reverse (seq 0 n) |}. intros n. by rewrite reverse_Permutation. Defined.

(** Functions of the right shape, which is all the meshes depend on. *)
#[local] Instance crude_libm : Libm :=
  {| m_cos x := dsub one (dmul half (dmul x x)); m_sin x := x; m_asin x := x; m_atan2 y x := ddiv y x |}.

Definition demo_rules (kind : string) (n : Z) : GridRulesParams :=
  mkRules kind (of_int (-180)) (of_int 180) (of_int (-90)) (of_int 90) (of_int 90) (of_int 45) n EmptyString.

Lemma demo_sizes : floor_size (ddiv (dsub (max_x (demo_rules "RegularLatLon" 0)) (min_x (demo_rules "RegularLatLon" 0))) (r_x (demo_rules "RegularLatLon" 0))) = Ok 4 /\
  floor_size (ddiv (dsub (max_y (demo_rules "RegularLatLon" 0)) (min_y (demo_rules "RegularLatLon" 0))) (r_y (demo_rules "RegularLatLon" 0))) = Ok 4.
Proof. by split; vm_compute. Qed.

Lemma regular_latlon_correct_witness : exists m, generate_regular_latlon (demo_rules "RegularLatLon" 0) = Ok m /\ mesh_ok m.
Proof.
  destruct demo_sizes as [E1 E2]. destruct (regular_latlon_correct (demo_rules "RegularLatLon" 0)) as [E H].
  - intros ni nj Hi Hj. rewrite E1 in Hi. rewrite E2 in Hj. injection Hi as <-. injection Hj as <-. lia.
  - unfold latlon_outcome in E. rewrite E1, E2 in E. eexists. split; [exact E|]. destruct (H _ E) as (ni & nj & _ & _ & M & _). exact M.
Defined.

Lemma gaussian_reduced_correct_witness : exists m, generate_gaussian_reduced (demo_rules "GaussianReduced" 2) = Ok m /\
  n_cells m = 88%nat /\ cell_nodes m 20 = [80; 81; 82; 83].
Proof.
  destruct (gaussian_reduced_correct (demo_rules "GaussianReduced" 2) ltac:(cbn; lia)) as (m & E & _ & Hn & _ & Q).
  exists m. split; [exact E|]. split; [exact Hn|]. exact (proj1 (Q 1%nat 24%nat 0%nat 0%nat eq_refl ltac:(lia) ltac:(lia))).
Defined.

(** A bound that is not a number passes the validation, and its conversion has no meaning. *)
Example nan_bound :
  generate_regular_latlon (mkRules "RegularLatLon" dnan (of_int 180) (of_int (-90)) (of_int 90) one one 0 EmptyString) = Undef.
Proof. vm_compute. reflexivity. Qed.

(** The number of circles is checked as 64 bits and used as 32: [2^32] gives a mesh without
    cells. *)
Example wide_gaussian_n :
  (let! m := generate_gaussian_regular (demo_rules "GaussianRegular" (2 ^ 32)) in Ok (n_cells m, n_nodes m)) = Ok (0%nat, 1%nat).
Proof. vm_compute. reflexivity. Qed.
