(* ===== verification/GridNames.v ===== *)
(** * AXIS: names of grids
    (src/libs/axis/src/topology/named_grid_registry.cpp, the registry and the parser)

    A name is a family and a number, or [grid] and the number of an NCEP grid that is in the
    table.  The parser accepts exactly these names, in either case of letters and with leading
    zeros, and every number it accepts fits an [int]. *)
From Stdlib Require Import ZArith Lia SpecFloat Ascii.
From stdpp Require Import base list numbers strings pretty.
From S2P Require Import Prelude CType Blend KokkosArrays AxisMesh ProjectionBuilder.
Local Open Scope Z_scope.
Local Open Scope char_scope.
Local Open Scope Z_scope.

(** ** The table of NCEP grids *)

(** The two extents are sizes; for a projected grid the four doubles are the bounds. *)
Record NoaaGribDefinition : Type := mkNoaa {
  grid_number : Z;
  grid_ni : Z;
  grid_nj : Z;
  lon_start : double;
  lat_start : double;
  grid_dlon : double;
  grid_dlat : double;
  grid_proj : option string
}.

Definition NOAA_GRIB_GRIDS : list NoaaGribDefinition := [
  mkNoaa 3 360 181 (of_int (-180)) (of_int (-90)) (of_int 1) (of_int 1) None;
  mkNoaa 4 720 361 (of_int (-180)) (of_int (-90)) half half None;
  mkNoaa 87 81 62 dzero dzero dzero dzero (Some "+proj=stere +lat_ts=60 +lat_0=90 +lon_0=255.0 +k=1 +x_0=0 +y_0=0 +datum=WGS84 +units=m +no_defs");
  mkNoaa 88 580 548 dzero dzero dzero dzero (Some "+proj=stere +lat_ts=60 +lat_0=90 +lon_0=255.0 +k=1 +x_0=0 +y_0=0 +datum=WGS84 +units=m +no_defs");
  mkNoaa 90 4289 2753 dzero dzero dzero dzero (Some "+proj=lcc +lat_1=25.0 +lat_2=25.0 +lat_0=25.0 +lon_0=265.0 +x_0=0 +y_0=0 +datum=WGS84 +units=m +no_defs");
  mkNoaa 91 1649 1105 dzero dzero dzero dzero (Some "+proj=stere +lat_ts=60 +lat_0=90 +lon_0=210.0 +k=1 +x_0=0 +y_0=0 +datum=WGS84 +units=m +no_defs");
  mkNoaa 92 3297 2209 dzero dzero dzero dzero (Some "+proj=stere +lat_ts=60 +lat_0=90 +lon_0=210.0 +k=1 +x_0=0 +y_0=0 +datum=WGS84 +units=m +no_defs");
  mkNoaa 130 451 337 dzero dzero dzero dzero (Some "+proj=lcc +lat_1=2.0 +lat_2=2.0 +lat_0=2.0 +lon_0=265.0 +x_0=0 +y_0=0 +datum=WGS84 +units=m +no_defs");
  mkNoaa 132 697 553 dzero dzero dzero dzero (Some "+proj=lcc +lat_1=50.0 +lat_2=50.0 +lat_0=50.0 +lon_0=253.0 +x_0=0 +y_0=0 +datum=WGS84 +units=m +no_defs");
  mkNoaa 138 468 288 dzero dzero dzero dzero (Some "+proj=lcc +lat_1=2.0 +lat_2=2.0 +lat_0=2.0 +lon_0=263.0 +x_0=0 +y_0=0 +datum=WGS84 +units=m +no_defs");
  mkNoaa 139 80 52 dzero dzero dzero dzero (Some "+proj=lcc +lat_1=2.0 +lat_2=2.0 +lat_0=2.0 +lon_0=202.5 +x_0=0 +y_0=0 +datum=WGS84 +units=m +no_defs");
  mkNoaa 140 199 163 dzero dzero dzero dzero (Some "+proj=lcc +lat_1=2.0 +lat_2=2.0 +lat_0=2.0 +lon_0=211.4 +x_0=0 +y_0=0 +datum=WGS84 +units=m +no_defs");
  mkNoaa 145 169 145 dzero dzero dzero dzero (Some "+proj=lcc +lat_1=2.0 +lat_2=2.0 +lat_0=2.0 +lon_0=280.5 +x_0=0 +y_0=0 +datum=WGS84 +units=m +no_defs");
  mkNoaa 146 166 142 dzero dzero dzero dzero (Some "+proj=lcc +lat_1=2.0 +lat_2=2.0 +lat_0=2.0 +lon_0=280.5 +x_0=0 +y_0=0 +datum=WGS84 +units=m +no_defs");
  mkNoaa 147 268 259 dzero dzero dzero dzero (Some "+proj=lcc +lat_1=2.0 +lat_2=2.0 +lat_0=2.0 +lon_0=263.0 +x_0=0 +y_0=0 +datum=WGS84 +units=m +no_defs");
  mkNoaa 148 442 265 dzero dzero dzero dzero (Some "+proj=lcc +lat_1=2.0 +lat_2=2.0 +lat_0=2.0 +lon_0=263.0 +x_0=0 +y_0=0 +datum=WGS84 +units=m +no_defs");
  mkNoaa 150 401 201 (of_int 260) (of_int 5) dzero dzero None;
  mkNoaa 151 478 429 dzero dzero dzero dzero (Some "+proj=stere +lat_ts=60 +lat_0=90 +lon_0=250.0 +k=1 +x_0=0 +y_0=0 +datum=WGS84 +units=m +no_defs");
  mkNoaa 160 180 156 dzero dzero dzero dzero (Some "+proj=stere +lat_ts=60 +lat_0=90 +lon_0=210.0 +k=1 +x_0=0 +y_0=0 +datum=WGS84 +units=m +no_defs");
  mkNoaa 163 1008 722 dzero dzero dzero dzero (Some "+proj=lcc +lat_1=2.0 +lat_2=2.0 +lat_0=2.0 +lon_0=265.0 +x_0=0 +y_0=0 +datum=WGS84 +units=m +no_defs");
  mkNoaa 179 1196 871 dzero dzero dzero dzero (Some "+proj=stere +lat_ts=60 +lat_0=90 +lon_0=260.0 +k=1 +x_0=0 +y_0=0 +datum=WGS84 +units=m +no_defs");
  mkNoaa 184 2145 1377 dzero dzero dzero dzero (Some "+proj=lcc +lat_1=25.0 +lat_2=25.0 +lat_0=25.0 +lon_0=265.0 +x_0=0 +y_0=0 +datum=WGS84 +units=m +no_defs");
  mkNoaa 187 2145 1597 dzero dzero dzero dzero (Some "+proj=lcc +lat_1=25.0 +lat_2=25.0 +lat_0=25.0 +lon_0=265.0 +x_0=0 +y_0=0 +datum=WGS84 +units=m +no_defs");
  mkNoaa 188 709 795 dzero dzero dzero dzero (Some "+proj=lcc +lat_1=25.0 +lat_2=25.0 +lat_0=25.0 +lon_0=265.0 +x_0=0 +y_0=0 +datum=WGS84 +units=m +no_defs");
  mkNoaa 189 655 855 dzero dzero dzero dzero (Some "+proj=stere +lat_ts=60 +lat_0=90 +lon_0=225.0 +k=1 +x_0=0 +y_0=0 +datum=WGS84 +units=m +no_defs");
  mkNoaa 197 1073 689 dzero dzero dzero dzero (Some "+proj=lcc +lat_1=25.0 +lat_2=25.0 +lat_0=25.0 +lon_0=265.0 +x_0=0 +y_0=0 +datum=WGS84 +units=m +no_defs");
  mkNoaa 198 825 553 dzero dzero dzero dzero (Some "+proj=stere +lat_ts=60 +lat_0=90 +lon_0=210.0 +k=1 +x_0=0 +y_0=0 +datum=WGS84 +units=m +no_defs");
  mkNoaa 200 108 94 dzero dzero dzero dzero (Some "+proj=lcc +lat_1=2.0 +lat_2=2.0 +lat_0=2.0 +lon_0=253.0 +x_0=0 +y_0=0 +datum=WGS84 +units=m +no_defs");
  mkNoaa 201 65 65 dzero dzero dzero dzero (Some "+proj=stere +lat_ts=60 +lat_0=90 +lon_0=255.0 +k=1 +x_0=0 +y_0=0 +datum=WGS84 +units=m +no_defs");
  mkNoaa 202 65 43 dzero dzero dzero dzero (Some "+proj=stere +lat_ts=60 +lat_0=90 +lon_0=255.0 +k=1 +x_0=0 +y_0=0 +datum=WGS84 +units=m +no_defs");
  mkNoaa 203 45 39 dzero dzero dzero dzero (Some "+proj=stere +lat_ts=60 +lat_0=90 +lon_0=210.0 +k=1 +x_0=0 +y_0=0 +datum=WGS84 +units=m +no_defs");
  mkNoaa 205 45 39 dzero dzero dzero dzero (Some "+proj=stere +lat_ts=60 +lat_0=90 +lon_0=300.0 +k=1 +x_0=0 +y_0=0 +datum=WGS84 +units=m +no_defs");
  mkNoaa 206 51 41 dzero dzero dzero dzero (Some "+proj=lcc +lat_1=25.0 +lat_2=25.0 +lat_0=25.0 +lon_0=265.0 +x_0=0 +y_0=0 +datum=WGS84 +units=m +no_defs");
  mkNoaa 207 49 35 dzero dzero dzero dzero (Some "+proj=stere +lat_ts=60 +lat_0=90 +lon_0=210.0 +k=1 +x_0=0 +y_0=0 +datum=WGS84 +units=m +no_defs");
  mkNoaa 209 275 223 dzero dzero dzero dzero (Some "+proj=lcc +lat_1=45.0 +lat_2=45.0 +lat_0=45.0 +lon_0=249.0 +x_0=0 +y_0=0 +datum=WGS84 +units=m +no_defs");
  mkNoaa 211 93 65 (of_int (-3738443)) (of_int (-2600656)) (of_int 3738443) (of_int 2600656) (Some "+proj=lcc +lat_1=25.0 +lat_2=25.0 +lat_0=25.0 +lon_0=265.0 +x_0=0 +y_0=0 +datum=WGS84 +units=m +no_defs");
  mkNoaa 212 185 129 (of_int (-3738443)) (of_int (-2600656)) (of_int 3738443) (of_int 2600656) (Some "+proj=lcc +lat_1=25.0 +lat_2=25.0 +lat_0=25.0 +lon_0=265.0 +x_0=0 +y_0=0 +datum=WGS84 +units=m +no_defs");
  mkNoaa 213 129 85 dzero dzero dzero dzero (Some "+proj=stere +lat_ts=60 +lat_0=90 +lon_0=255.0 +k=1 +x_0=0 +y_0=0 +datum=WGS84 +units=m +no_defs");
  mkNoaa 214 97 69 dzero dzero dzero dzero (Some "+proj=stere +lat_ts=60 +lat_0=90 +lon_0=210.0 +k=1 +x_0=0 +y_0=0 +datum=WGS84 +units=m +no_defs");
  mkNoaa 215 369 257 (of_int (-3738443)) (of_int (-2600656)) (of_int 3738443) (of_int 2600656) (Some "+proj=lcc +lat_1=25.0 +lat_2=25.0 +lat_0=25.0 +lon_0=265.0 +x_0=0 +y_0=0 +datum=WGS84 +units=m +no_defs");
  mkNoaa 216 139 107 dzero dzero dzero dzero (Some "+proj=stere +lat_ts=60 +lat_0=90 +lon_0=225.0 +k=1 +x_0=0 +y_0=0 +datum=WGS84 +units=m +no_defs");
  mkNoaa 217 277 213 dzero dzero dzero dzero (Some "+proj=stere +lat_ts=60 +lat_0=90 +lon_0=225.0 +k=1 +x_0=0 +y_0=0 +datum=WGS84 +units=m +no_defs");
  mkNoaa 218 614 428 (of_int (-3733392)) (of_int (-2602779)) (of_int 3733392) (of_int 2602779) (Some "+proj=stere +lat_ts=60 +lat_0=90 +lon_0=265.0 +k=1 +x_0=0 +y_0=0 +datum=WGS84 +units=m +no_defs");
  mkNoaa 219 385 465 dzero dzero dzero dzero (Some "+proj=stere +lat_ts=60 +lat_0=90 +lon_0=280.0 +k=1 +x_0=0 +y_0=0 +datum=WGS84 +units=m +no_defs");
  mkNoaa 220 345 355 dzero dzero dzero dzero (Some "+proj=stere +lat_ts=60 +lat_0=90 +lon_0=100.0 +k=1 +x_0=0 +y_0=0 +datum=WGS84 +units=m +no_defs");
  mkNoaa 221 349 277 dzero dzero dzero dzero (Some "+proj=lcc +lat_1=50.0 +lat_2=50.0 +lat_0=50.0 +lon_0=253.0 +x_0=0 +y_0=0 +datum=WGS84 +units=m +no_defs");
  mkNoaa 222 138 112 dzero dzero dzero dzero (Some "+proj=lcc +lat_1=45.0 +lat_2=45.0 +lat_0=45.0 +lon_0=249.0 +x_0=0 +y_0=0 +datum=WGS84 +units=m +no_defs");
  mkNoaa 223 129 129 dzero dzero dzero dzero (Some "+proj=stere +lat_ts=60 +lat_0=90 +lon_0=255.0 +k=1 +x_0=0 +y_0=0 +datum=WGS84 +units=m +no_defs");
  mkNoaa 224 65 65 dzero dzero dzero dzero (Some "+proj=stere +lat_ts=60 +lat_0=90 +lon_0=-105.0 +k=1 +x_0=0 +y_0=0 +datum=WGS84 +units=m +no_defs");
  mkNoaa 226 737 517 dzero dzero dzero dzero (Some "+proj=lcc +lat_1=25.0 +lat_2=25.0 +lat_0=25.0 +lon_0=265.0 +x_0=0 +y_0=0 +datum=WGS84 +units=m +no_defs");
  mkNoaa 227 1473 1025 dzero dzero dzero dzero (Some "+proj=lcc +lat_1=25.0 +lat_2=25.0 +lat_0=25.0 +lon_0=265.0 +x_0=0 +y_0=0 +datum=WGS84 +units=m +no_defs");
  mkNoaa 236 151 113 dzero dzero dzero dzero (Some "+proj=lcc +lat_1=2.0 +lat_2=2.0 +lat_0=2.0 +lon_0=265.0 +x_0=0 +y_0=0 +datum=WGS84 +units=m +no_defs");
  mkNoaa 237 54 47 dzero dzero dzero dzero (Some "+proj=lcc +lat_1=2.0 +lat_2=2.0 +lat_0=2.0 +lon_0=253.0 +x_0=0 +y_0=0 +datum=WGS84 +units=m +no_defs");
  mkNoaa 240 1121 881 dzero dzero dzero dzero (Some "+proj=stere +lat_ts=60 +lat_0=90 +lon_0=255.0 +k=1 +x_0=0 +y_0=0 +datum=WGS84 +units=m +no_defs");
  mkNoaa 241 549 445 dzero dzero dzero dzero (Some "+proj=lcc +lat_1=2.0 +lat_2=2.0 +lat_0=2.0 +lon_0=249.0 +x_0=0 +y_0=0 +datum=WGS84 +units=m +no_defs");
  mkNoaa 242 553 425 dzero dzero dzero dzero (Some "+proj=stere +lat_ts=60 +lat_0=90 +lon_0=225.0 +k=1 +x_0=0 +y_0=0 +datum=WGS84 +units=m +no_defs");
  mkNoaa 245 336 372 dzero dzero dzero dzero (Some "+proj=lcc +lat_1=2.0 +lat_2=2.0 +lat_0=2.0 +lon_0=280.0 +x_0=0 +y_0=0 +datum=WGS84 +units=m +no_defs");
  mkNoaa 246 332 371 dzero dzero dzero dzero (Some "+proj=lcc +lat_1=2.0 +lat_2=2.0 +lat_0=2.0 +lon_0=245.0 +x_0=0 +y_0=0 +datum=WGS84 +units=m +no_defs");
  mkNoaa 247 336 372 dzero dzero dzero dzero (Some "+proj=lcc +lat_1=2.0 +lat_2=2.0 +lat_0=2.0 +lon_0=262.0 +x_0=0 +y_0=0 +datum=WGS84 +units=m +no_defs");
  mkNoaa 249 367 343 dzero dzero dzero dzero (Some "+proj=stere +lat_ts=60 +lat_0=90 +lon_0=210.0 +k=1 +x_0=0 +y_0=0 +datum=WGS84 +units=m +no_defs");
  mkNoaa 252 301 225 dzero dzero dzero dzero (Some "+proj=lcc +lat_1=2.0 +lat_2=2.0 +lat_0=2.0 +lon_0=265.0 +x_0=0 +y_0=0 +datum=WGS84 +units=m +no_defs")]%string.

(** ** Parsing *)

Record ParsedName : Type := mkParsed { family : ascii; number : Z }.

#[export] Instance parsed_name_dec : EqDecision ParsedName.
Proof. solve_decision. Defined.

(** The number after a prefix: digits only, read by [std::stoi], whose exceptions are caught,
    and positive. *)
Definition positive_number (num_str : string) : result Z :=
  do! throw_if (negb (forallb is_digit (String.list_ascii_of_string num_str))) invalid_argument then
  let! n := match stoi num_str with Throw _ => Throw invalid_argument | r => r end in
  do! throw_if (n <=? 0) invalid_argument then
  Ok n.

Definition found_grib (n : Z) : bool := existsb (fun g => grid_number g =? n) NOAA_GRIB_GRIDS.

Definition parse (name : string) : result ParsedName :=
  do! throw_if (is_empty name) invalid_argument then
  let lower_name := lowercase name in
  if String.prefix "grid" lower_name then
    do! throw_if (String.length name <? 5)%nat invalid_argument then
    let! grid_num := positive_number (String.substring 4 (String.length name - 4) name) in
    do! throw_if (negb (found_grib grid_num)) invalid_argument then
    Ok (mkParsed "G" grid_num)
  else
    match name with
    | EmptyString => Undef
    | String c _ =>
        let f := to_upper c in
        do! throw_if (negb (Ascii.eqb f "O") && negb (Ascii.eqb f "F") && negb (Ascii.eqb f "N") && negb (Ascii.eqb f "R")) invalid_argument then
        do! throw_if (String.length name <? 2)%nat invalid_argument then
        let! n := positive_number (String.substring 1 (String.length name - 1) name) in
        Ok (mkParsed f n)
    end.

Definition is_registered (name : string) : bool := match parse name with Ok _ => true | _ => false end.

Definition registered_families : list ascii := ["F"; "G"; "N"; "O"; "R"].

(** * Specification *)

(** A text of digits that spells a positive [int]. *)
Definition spells (digits : string) (n : Z) : Prop :=
  let l := String.list_ascii_of_string digits in forallb is_digit l = true /\ digits_value l = n /\ 0 < n < 2 ^ 31.

(** The names of grids. *)
Inductive names : string -> ParsedName -> Prop :=
| names_family c digits n : to_upper c ∈ ["O"; "F"; "N"; "R"] -> spells digits n -> names (String c digits) (mkParsed (to_upper c) n)
| names_grid p digits n : lowercase p = "grid"%string -> spells digits n -> n ∈ grid_number <$> NOAA_GRIB_GRIDS ->
    names (p ++ digits) (mkParsed "G" n).

(** The canonical name. *)
Definition canonical (p : ParsedName) : string :=
  if Ascii.eqb (family p) "G" then ("grid" ++ pretty (number p))%string else String (family p) (pretty (number p)).

(** * Lemmas *)

Lemma spells_nonempty digits n : spells digits n -> String.list_ascii_of_string digits <> [].
Proof. intros (_ & Hv & Hn) E. rewrite E in Hv. cbn in Hv. lia. Qed.

Lemma positive_number_spec s : 
  (exists n, positive_number s = Ok n /\ spells s n) \/ (positive_number s = Throw invalid_argument /\ forall n, ~ spells s n).
Proof.
  unfold positive_number, stoi, spells. set (l := String.list_ascii_of_string s). destruct (forallb is_digit l) eqn:Hd; cbn [negb throw_if bind].
  2:{ right. split; [done|]. intros n (H & _). done. }
  destruct (bool_decide (l = [])) eqn:El.
  { right. split; [done|]. intros n (_ & Hv & Hn). apply bool_decide_eq_true in El. rewrite El in Hv. cbn in Hv. lia. }
  destruct (Z.ltb_spec (digits_value l) (2 ^ 31)) as [Hlt|Hge]; cbn [bind].
  2:{ right. split; [done|]. intros n (_ & Hv & Hn). lia. }
  destruct (Z.leb_spec (digits_value l) 0); cbn [throw_if bind].
  - right. split; [done|]. intros n (_ & Hv & Hn). lia.
  - left. by exists (digits_value l).
Qed.

Lemma spells_fun s n n' : spells s n -> spells s n' -> n = n'.
Proof. intros (_ & <- & _) (_ & <- & _). done. Qed.

Lemma found_grib_spec n : found_grib n = true <-> n ∈ grid_number <$> NOAA_GRIB_GRIDS.
Proof.
  unfold found_grib. rewrite existsb_exists, list_elem_of_fmap. split.
  - intros (g & Hg & E). exists g. split; [lia|by apply list_elem_of_In].
  - intros (g & -> & Hg). exists g. split; [by apply list_elem_of_In|lia].
Qed.

(** Positions in texts. *)
Lemma substring_skip p s n : n = String.length s -> String.substring (String.length p) n (p ++ s) = s.
Proof. intros ->. induction p as [|c p IH]; [by apply substring_all|exact IH]. Qed.

Lemma lowercase_append a b : lowercase (a ++ b) = (lowercase a ++ lowercase b)%string.
Proof.
  unfold lowercase. apply ascii_inj. by rewrite !ascii_append, !String.list_ascii_of_string_of_list_ascii, fmap_app.
Qed.

Lemma lowercase_length s : String.length (lowercase s) = String.length s.
Proof. unfold lowercase. rewrite <- !ascii_length, String.list_ascii_of_string_of_list_ascii. apply length_fmap. Qed.

Lemma prefix_spec p s : String.prefix p s = true <-> exists r, s = (p ++ r)%string.
Proof.
  revert s. induction p as [|c p IH]; intros s; cbn [String.prefix]; [by split; [intros _; exists s|intros _; destruct s]|].
  destruct s as [|d s]; [by split; [|intros [r [=]]]|]. cbn [String.prefix]. destruct (ascii_dec c d) as [<-|Hne].
  - etransitivity; [exact (IH s)|]. split; intros [r Hr]; exists r; [by rewrite Hr|by injection Hr as ->].
  - split; [done|]. intros [r [= E _]]. done.
Qed.

Lemma grid_prefix name : String.prefix "grid" (lowercase name) = true <-> exists p digits, name = (p ++ digits)%string /\ lowercase p = "grid"%string.
Proof.
  rewrite prefix_spec. split.
  - intros [r Hr]. apply (f_equal String.list_ascii_of_string) in Hr. unfold lowercase in Hr.
    rewrite String.list_ascii_of_string_of_list_ascii, ascii_append in Hr. apply fmap_app_inv in Hr as (l1 & l2 & H1 & H2 & Hn).
    exists (String.string_of_list_ascii l1), (String.string_of_list_ascii l2). split.
    + apply ascii_inj. by rewrite ascii_append, !String.list_ascii_of_string_of_list_ascii.
    + unfold lowercase. rewrite String.list_ascii_of_string_of_list_ascii, <- H1. done.
  - intros (p & digits & -> & Hp). exists (lowercase digits). by rewrite lowercase_append, Hp.
Qed.

Lemma throw_if_eq {A} (b : bool) e (k : unit -> result A) : bind (throw_if b e) k = if b then Throw e else k tt.
Proof. by destruct b. Qed.

Lemma family_spec f : negb (Ascii.eqb f "O") && negb (Ascii.eqb f "F") && negb (Ascii.eqb f "N") && negb (Ascii.eqb f "R") = false <-> f ∈ ["O"; "F"; "N"; "R"].
Proof.
  rewrite !andb_false_iff, !negb_false_iff, !Ascii.eqb_eq, !elem_of_cons, elem_of_nil. tauto.
Qed.

(** A name of the table does not start like a name of a family. *)
Lemma grid_not_family p : lowercase p = "grid"%string -> exists c r, p = String c r /\ to_upper c ∉ ["O"; "F"; "N"; "R"].
Proof.
  destruct p as [|c r]; [done|]. intros E. exists c, r. split; [done|]. apply (f_equal String.list_ascii_of_string) in E.
  unfold lowercase in E. rewrite String.list_ascii_of_string_of_list_ascii in E. injection E as E _. revert E. clear. intros E.
  apply (proj1 (bool_decide_eq_false _)). destruct c as [[] [] [] [] [] [] [] []]; first [discriminate E|vm_compute; reflexivity].
Qed.

Lemma parse_grid p digits : lowercase p = "grid"%string -> parse (p ++ digits) =
  if bool_decide (digits = EmptyString) then Throw invalid_argument else
  let! n := positive_number digits in if found_grib n then Ok (mkParsed "G" n) else Throw invalid_argument.
Proof.
  intros Hp. pose proof (grid_not_family p Hp) as (c & r & E & _). pose proof (lowercase_length p) as Hl. rewrite Hp in Hl. cbn in Hl.
  unfold parse. rewrite throw_if_eq. assert (is_empty (p ++ digits) = false) as -> by by rewrite E.
  cbn zeta. rewrite (proj2 (grid_prefix _)) by by exists p, digits.
  rewrite throw_if_eq, length_append, <- Hl. case_bool_decide as Hd; [by subst|].
  destruct (Nat.ltb_spec (4 + String.length digits) 5) as [Hlt|Hge]; [destruct digits; [done|cbn in Hlt; lia]|].
  rewrite Hl. rewrite substring_skip by lia. destruct (positive_number digits); cbn [bind]; [|done..].
  rewrite throw_if_eq. by destruct (found_grib _).
Qed.

Lemma parse_family name : String.prefix "grid" (lowercase name) = false -> parse name =
  match name with
  | EmptyString => Throw invalid_argument
  | String c digits =>
      if bool_decide (to_upper c ∈ ["O"; "F"; "N"; "R"]) && negb (bool_decide (digits = EmptyString)) then
        let! n := positive_number digits in Ok (mkParsed (to_upper c) n)
      else Throw invalid_argument
  end.
Proof.
  intros Hp. unfold parse. rewrite Hp, throw_if_eq. destruct name as [|c digits]; [done|]. cbn [is_empty]. rewrite !throw_if_eq.
  pose proof (family_spec (to_upper c)) as Hf. destruct (negb _ && _ && _ && _).
  - rewrite bool_decide_false; [done|]. intros Hin. by apply Hf in Hin.
  - rewrite bool_decide_true by by apply Hf. cbn [andb]. case_bool_decide as Hd; [by subst|]. cbn [negb].
    destruct (Nat.ltb_spec (String.length (String c digits)) 2) as [Hlt|Hge]; [destruct digits; cbn in Hlt; (done || lia)|].
    rewrite (substring_skip (String c EmptyString) digits) by (cbn; lia). done.
Qed.

(** ** Canonical names *)

Lemma pretty_spells n : 0 < n < 2 ^ 31 -> spells (pretty n) n.
Proof. intros Hn. destruct (pretty_spelled n) as (l & E & _ & Hd & Hv); [lia|]. unfold spells. rewrite E. done. Qed.

Lemma names_positive name p : names name p -> 0 < number p < 2 ^ 31.
Proof. by intros [c digits n _ (_ & _ & Hn)|q digits n _ (_ & _ & Hn) _]. Qed.

Lemma to_upper_idem c : to_upper (to_upper c) = to_upper c.
Proof. destruct c as [[] [] [] [] [] [] [] []]; reflexivity. Qed.

Lemma names_canonical name p : names name p -> names (canonical p) p.
Proof.
  intros Hn. pose proof (names_positive _ _ Hn) as Hb. destruct Hn as [c digits n Hf Hd|q digits n Hq Hd Hg]; unfold canonical; cbn [family number] in *.
  - destruct (Ascii.eqb_spec (to_upper c) "G") as [E|_].
    { rewrite E in Hf. exfalso. revert Hf. clear. rewrite !elem_of_cons, elem_of_nil. intros Hf. intuition discriminate. }
    rewrite <- (to_upper_idem c) at 2. apply names_family; [by rewrite to_upper_idem|by apply pretty_spells].
  - apply names_grid; [done|by apply pretty_spells|done].
Qed.

Lemma parse_names name : (exists p, parse name = Ok p /\ forall q, names name q <-> q = p) \/ (parse name = Throw invalid_argument /\ forall p, ~ names name p).
Proof.
  destruct (String.prefix "grid" (lowercase name)) eqn:Hp.
  - apply grid_prefix in Hp as (p & digits & -> & Hp). rewrite (parse_grid _ _ Hp).
    assert (Hn : forall q, names (p ++ digits) q -> exists n, q = mkParsed "G" n /\ spells digits n /\ n ∈ grid_number <$> NOAA_GRIB_GRIDS).
    { intros q Hq. inversion Hq as [c ds n Hf Hd E|p' ds n Hp' Hd Hg E]; subst.
      - destruct (grid_not_family p Hp) as (c' & r & -> & Hc). injection E as -> _. done.
      - exists n. split; [done|]. apply (f_equal String.list_ascii_of_string) in E. rewrite !ascii_append in E.
        apply app_inj_1 in E as [_ E]; [by apply ascii_inj in E as <-|].
        rewrite !ascii_length, <- (lowercase_length p'), <- (lowercase_length p), Hp, Hp'. done. }
    case_bool_decide as Hd.
    { subst. right. split; [done|]. intros q Hq. apply Hn in Hq as (n & _ & Hs & _). by apply spells_nonempty in Hs. }
    destruct (positive_number_spec digits) as [(n & -> & Hs)|[-> Hs]]; cbn [bind].
    + pose proof (found_grib_spec n) as Hg. destruct (found_grib n).
      * left. exists (mkParsed "G" n). split; [done|]. intros q. split; [|intros ->; apply names_grid; naive_solver].
        intros Hq. apply Hn in Hq as (n' & -> & Hs' & _). by rewrite (spells_fun _ _ _ Hs Hs').
      * right. split; [done|]. intros q Hq. apply Hn in Hq as (n' & _ & Hs' & Hg'). rewrite (spells_fun _ _ _ Hs Hs') in Hg. discriminate (proj2 Hg Hg').
    + right. split; [done|]. intros q Hq. apply Hn in Hq as (n' & _ & Hs' & _). naive_solver.
  - rewrite (parse_family _ Hp).
    assert (Hn : forall q, names name q -> exists c digits n, name = String c digits /\ q = mkParsed (to_upper c) n /\ to_upper c ∈ ["O"; "F"; "N"; "R"] /\ spells digits n).
    { intros q Hq. inversion Hq as [c ds n Hf Hd E|p' ds n Hp' Hd Hg E]; subst; [by exists c, ds, n|].
      exfalso. rewrite (proj2 (grid_prefix _)) in Hp; [done|]. by exists p', ds. }
    destruct name as [|c digits]; [right; split; [done|]; intros q Hq; by apply Hn in Hq as (? & ? & ? & ? & _)|].
    case_bool_decide as Hc; cbn [andb].
    2:{ right. split; [done|]. intros q Hq. apply Hn in Hq as (c' & ds & n & [= <- <-] & _ & Hc' & _). done. }
    case_bool_decide as Hd; cbn [negb].
    { right. split; [done|]. intros q Hq. apply Hn in Hq as (c' & ds & n & [= <- <-] & _ & _ & Hs). subst. by apply spells_nonempty in Hs. }
    destruct (positive_number_spec digits) as [(n & -> & Hs)|[-> Hs]]; cbn [bind].
    + left. eexists. split; [done|]. intros q. split; [|intros ->; by apply names_family].
      intros Hq. apply Hn in Hq as (c' & ds & n' & [= <- <-] & -> & _ & Hs'). by rewrite (spells_fun _ _ _ Hs Hs').
    + right. split; [done|]. intros q Hq. apply Hn in Hq as (c' & ds & n & [= <- <-] & _ & _ & Hs'). by eapply Hs.
Qed.

(** * Properties *)

(** C30. The parser accepts exactly the names of grids, in either case and with leading zeros,
    and refuses every other text with [std::invalid_argument]; a grid is registered when its
    name parses, and the canonical name of what was parsed parses to the same. *)
Theorem parse_correct (name : string) :
  (forall p, parse name = Ok p <-> names name p) /\
  (parse name = Throw invalid_argument <-> forall p, ~ names name p) /\
  (is_registered name = true <-> exists p, names name p) /\
  (forall p, parse name = Ok p -> parse (canonical p) = Ok p /\ 0 < number p < 2 ^ 31 /\ family p ∈ registered_families).
Proof.
  assert (U : forall n p, parse n = Ok p <-> names n p).
  { intros n p. destruct (parse_names n) as [(q & E & Hq)|[E Hq]]; rewrite E; [|by split; [|intros Hn; destruct (Hq p Hn)]].
    rewrite Hq. by split; [intros [= ->]|intros ->]. }
  split; [apply U|]. split; [|split].
  - destruct (parse_names name) as [(q & E & Hq)|[E Hq]]; rewrite E; [|done]. split; [done|]. intros Hno. destruct (Hno q). by apply Hq.
  - unfold is_registered. destruct (parse_names name) as [(q & E & Hq)|[E Hq]]; rewrite E; [split; [exists q; by apply Hq|done]|].
    split; [done|]. intros [p Hp]. by destruct (Hq p).
  - intros p Hp. apply U in Hp. split; [by apply U, (names_canonical name)|]. split; [by apply (names_positive name)|].
    destruct Hp as [c digits n Hf _|]; cbn [family]; [|by apply list_elem_of_In; cbn; auto].
    unfold registered_families. revert Hf. rewrite !elem_of_cons. tauto.
Qed.

(** * Examples *)

Example parse_demo :
  parse "o1280" = Ok (mkParsed "O" 1280) /\ parse "F007" = Ok (mkParsed "F" 7) /\ parse "Grid218" = Ok (mkParsed "G" 218) /\
  parse "grid5" = Throw invalid_argument /\ parse "grid" = Throw invalid_argument /\ parse "N" = Throw invalid_argument /\
  parse "N0" = Throw invalid_argument /\ parse "N2147483648" = Throw invalid_argument /\ parse "O-1" = Throw invalid_argument.
Proof. vm_compute. tauto. Qed.

(** The registry lists the family [G], but no name starts with that letter and a number. *)
Example family_g : bool_decide ("G" ∈ registered_families) = true /\ is_registered "G3" = false.
Proof. by vm_compute. Qed.

(** No number is listed twice, and of 61 grids only six have an extent. *)
Example table_facts :
  bool_decide (NoDup (grid_number <$> NOAA_GRIB_GRIDS)) = true /\ length NOAA_GRIB_GRIDS = 61%nat /\
  grid_number <$> filter (fun g => SFeqb (grid_dlon g) dzero = false) NOAA_GRIB_GRIDS = [3; 4; 211; 212; 215; 218].
Proof. by vm_compute. Qed.
