(* ===== verification/NamedGrids.v ===== *)
(** * AXIS: generation of named grids
    (src/libs/axis/src/topology/named_grid_registry.cpp, the generators)

    Full Gaussian grids with cells that wrap around the circle, octahedral grids whose circles
    differ in length and are joined by cells placed in proportion, regular grids, and the grids
    of the table, projected ones through PROJ.  [std::sort] on doubles is the interface
    [DoubleSort]; a range with a value that is not a number has no order, and sorting it no
    meaning. *)
From Stdlib Require Import ZArith Lia SpecFloat Ascii Sorted.
From stdpp Require Import base list numbers strings.
From S2P Require Import Prelude CInt CType Blend KokkosArrays AxisMesh StructuredGrid ProjectionBuilder RuleGenerator Magnitude GridNames.
Local Open Scope Z_scope.

Definition is_number (x : double) : bool := match x with S754_nan => false | _ => true end.

(** [std::sort(first, last, std::greater<double>())] on numbers. *)
Class DoubleSort := {
  sort_descending : list double -> list double;
  sort_descending_perm l : sort_descending l ≡ₚ l;
  sort_descending_sorted l : Forall (fun x => is_number x = true) l -> Sorted (fun a b => SFltb a b = false) (sort_descending l)
}.

Section Generators.
Context `{!Libm, !DoubleSort}.

(** ** Latitudes *)

Fixpoint registry_newton (fuel n : nat) (x : double) : double :=
  match fuel with
  | O => x
  | S fuel =>
      let '(p0, p1) := legendre n x in
      let dp := ddiv (dmul (of_int (Z.of_nat n)) (dsub p0 (dmul x p1))) (dsub one (dmul x x)) in
      let dx := ddiv p1 dp in
      let x := dsub x dx in
      if SFltb (SFabs dx) newton_eps then x else registry_newton fuel n x
  end.

Definition quarter : double := S754_finite false 4503599627370496 (-54).

Definition registry_latitude (n i : nat) : double :=
  let k := of_int (Z.of_nat i + 1) in
  let theta := ddiv (dmul PI (dsub k quarter)) (dadd (of_int (Z.of_nat n)) half) in
  dmul (m_asin (registry_newton 100 n (m_cos theta))) (ddiv (of_int 180) PI).

Definition std_sort_greater (l : list double) : result (list double) :=
  if forallb is_number l then Ok (sort_descending l) else Undef.

Definition registry_gaussian_latitudes (N : Z) : result (list double) :=
  let! n := arith I32 (2 * N) in
  let! latitudes := new_vector (to_u64 n) dzero in
  let! latitudes := for_each (seq 0 (Z.to_nat n)) (fun i l => write l (Z.of_nat i) (registry_latitude (Z.to_nat n) i)) latitudes in
  std_sort_greater latitudes.

(** ** Circles *)

Definition octahedral_nlons (N : Z) : result (list Z) :=
  let! n_lat := arith I32 (2 * N) in
  let! nlons := new_vector (to_u64 n_lat) 0 in
  for_each (seq 0 (Z.to_nat n_lat)) (fun j nlons =>
    let dist_from_pole := Z.min (Z.of_nat j) (n_lat - 1 - Z.of_nat j) in
    let! nlon := arith I32 (20 + 4 * dist_from_pole) in
    write nlons (Z.of_nat j) nlon) nlons.

Definition octahedral_total_nodes (N : Z) : result Z :=
  let! n := arith I32 (2 * N) in
  for_each (seq 0 (Z.to_nat n)) (fun j total =>
    let dist := Z.min (Z.of_nat j) (n - 1 - Z.of_nat j) in
    let! nlon := arith I32 (20 + 4 * dist) in
    Ok (to_u64 (total + to_u64 nlon))) 0.

Definition regular_total_nodes (N : Z) : result Z :=
  let! a := arith I32 (2 * N) in
  let! b := arith I32 (4 * N) in
  Ok (to_u64 (to_u64 a * to_u64 b)).

Definition reduced_total_cells (nlons : list Z) : result Z :=
  for_each (seq 0 (length nlons - 1)) (fun j total =>
    let! a := read nlons (Z.of_nat j) in
    let! b := read nlons (Z.of_nat j + 1) in
    Ok (to_u64 (total + to_u64 (Z.max a b)))) 0.

Definition regular_total_cells (N : Z) : result Z :=
  let! a := arith I32 (2 * N) in
  let! a := arith I32 (a - 1) in
  let! b := arith I32 (4 * N) in
  Ok (to_u64 (to_u64 a * to_u64 b)).

(** ** The meshes *)

Definition fill_offsets (n_cells : Z) : result (list Z) :=
  for_each (seq 0 (Z.to_nat (n_cells + 1))) (fun c offsets => write offsets (Z.of_nat c) (to_index (to_u64 (Z.of_nat c * 4)))) (zero_indices (n_cells + 1)).

Definition full_cell (n_lon row_start next_row_start : Z) (i : nat) (s : list Z * Z) : result (list Z * Z) :=
  let '(indices, cell_idx) := s in
  let i_next := (Z.of_nat i + 1) mod n_lon in
  let tl := to_u64 (row_start + Z.of_nat i) in
  let tr := to_u64 (row_start + i_next) in
  let br := to_u64 (next_row_start + i_next) in
  let bl := to_u64 (next_row_start + Z.of_nat i) in
  let base := to_u64 (cell_idx * 4) in
  let! indices := put_quad indices base (to_index tl) (to_index tr) (to_index br) (to_index bl) in
  Ok (indices, to_u64 (cell_idx + 1)).

Definition generate_regular_gaussian (N : Z) : result UnstructuredMesh :=
  let! n_lat := arith I32 (2 * N) in
  let! n_lon := arith I32 (4 * N) in
  let! n_nodes := regular_total_nodes N in
  let! n_cells := regular_total_cells N in
  let! lats := registry_gaussian_latitudes N in
  let coords := mkView2 (Z.to_nat n_nodes) 2 (zeros (n_nodes * 2)) in
  let! '(coords, _) := for_each (seq 0 (Z.to_nat n_lat)) (fun j '(coords, node_idx) =>
    let! lat := read lats (Z.of_nat j) in
    let dlon := ddiv c360 (of_int n_lon) in
    for_each (seq 0 (Z.to_nat n_lon)) (fun i '(coords, node_idx) =>
      let! coords := write2 coords node_idx 0 (dmul (of_int (Z.of_nat i)) dlon) in
      let! coords := write2 coords node_idx 1 lat in
      Ok (coords, to_u64 (node_idx + 1))) (coords, node_idx)) (coords, 0) in
  let nnz := to_u64 (n_cells * 4) in
  let! offsets := fill_offsets n_cells in
  let! '(indices, _) := for_each (seq 0 (Z.to_nat (n_lat - 1))) (fun j s =>
    let row_start := to_u64 (to_u64 (Z.of_nat j) * to_u64 n_lon) in
    let next_row_start := to_u64 (to_u64 (Z.of_nat j + 1) * to_u64 n_lon) in
    for_each (seq 0 (Z.to_nat n_lon)) (full_cell n_lon row_start next_row_start) s) (zero_indices nnz, 0) in
  Ok (new_mesh coords offsets indices SphericalDeg).

(** [static_cast<int>(std::floor(c / ring * nlon)) % nlon] *)
Definition ring_index (c ring nlon : Z) : result Z :=
  match floorZ (dmul (ddiv (of_int c) (of_int ring)) (of_int nlon)) with
  | Some z => let! z := arith I32 z in if nlon =? 0 then Undef else Ok (Z.rem z nlon)
  | None => Undef
  end.

Definition octahedral_cell (nlon_top nlon_bot top_start bot_start n_cells_ring : Z) (c : nat) (s : list Z * Z) : result (list Z * Z) :=
  let '(indices, cell_idx) := s in
  let! top_i := ring_index (Z.of_nat c) n_cells_ring nlon_top in
  let! top_i_next := ring_index (Z.of_nat c + 1) n_cells_ring nlon_top in
  let! bot_i := ring_index (Z.of_nat c) n_cells_ring nlon_bot in
  let! bot_i_next := ring_index (Z.of_nat c + 1) n_cells_ring nlon_bot in
  let tl := to_u64 (top_start + to_u64 top_i) in
  let tr := to_u64 (top_start + to_u64 top_i_next) in
  let br := to_u64 (bot_start + to_u64 bot_i_next) in
  let bl := to_u64 (bot_start + to_u64 bot_i) in
  let base := to_u64 (cell_idx * 4) in
  let! indices := put_quad indices base (to_index tl) (to_index tr) (to_index br) (to_index bl) in
  Ok (indices, to_u64 (cell_idx + 1)).

Definition row_starts_of (nlons : list Z) (n_lat : Z) : result (list Z) :=
  let! row_starts := new_vector (to_u64 (to_u64 n_lat + 1)) 0 in
  let! row_starts := write row_starts 0 0 in
  for_each (seq 0 (Z.to_nat n_lat)) (fun j row_starts =>
    let! s := read row_starts (Z.of_nat j) in
    let! n := read nlons (Z.of_nat j) in
    write row_starts (Z.of_nat j + 1) (to_u64 (s + to_u64 n))) row_starts.

Definition generate_octahedral_gaussian (N : Z) : result UnstructuredMesh :=
  let! n_lat := arith I32 (2 * N) in
  let! nlons := octahedral_nlons N in
  let! n_nodes := octahedral_total_nodes N in
  let! n_cells := reduced_total_cells nlons in
  let! lats := registry_gaussian_latitudes N in
  let coords := mkView2 (Z.to_nat n_nodes) 2 (zeros (n_nodes * 2)) in
  let! row_starts := row_starts_of nlons n_lat in
  let! coords := for_each (seq 0 (Z.to_nat n_lat)) (fun j coords =>
    let! lat := read lats (Z.of_nat j) in
    let! nlon_j := read nlons (Z.of_nat j) in
    let dlon := ddiv c360 (of_int nlon_j) in
    let! start := read row_starts (Z.of_nat j) in
    for_each (seq 0 (Z.to_nat nlon_j)) (fun i coords =>
      let idx := to_u64 (start + Z.of_nat i) in
      let! coords := write2 coords idx 0 (dmul (of_int (Z.of_nat i)) dlon) in
      write2 coords idx 1 lat) coords) coords in
  let nnz := to_u64 (n_cells * 4) in
  let! offsets := fill_offsets n_cells in
  let! '(indices, _) := for_each (seq 0 (Z.to_nat (n_lat - 1))) (fun j s =>
    let! nlon_top := read nlons (Z.of_nat j) in
    let! nlon_bot := read nlons (Z.of_nat j + 1) in
    let! top_start := read row_starts (Z.of_nat j) in
    let! bot_start := read row_starts (Z.of_nat j + 1) in
    let n_cells_ring := Z.max nlon_top nlon_bot in
    for_each (seq 0 (Z.to_nat n_cells_ring)) (octahedral_cell nlon_top nlon_bot top_start bot_start n_cells_ring) s) (zero_indices nnz, 0) in
  Ok (new_mesh coords offsets indices SphericalDeg).

Definition generate_regular_grid (ni nj : Z) (lon_start lat_start dlon dlat : double) : result UnstructuredMesh :=
  let n_nodes := to_u64 (to_u64 (ni + 1) * to_u64 (nj + 1)) in
  let n_cells := to_u64 (ni * nj) in
  let coords := mkView2 (Z.to_nat n_nodes) 2 (zeros (n_nodes * 2)) in
  let! coords := for_each (seq 0 (Z.to_nat (nj + 1))) (fun j coords =>
    for_each (seq 0 (Z.to_nat (ni + 1))) (fun i coords =>
      let idx := to_u64 (Z.of_nat i + Z.of_nat j * (ni + 1)) in
      let! coords := write2 coords idx 0 (dadd lon_start (dmul (of_int (Z.of_nat i)) dlon)) in
      write2 coords idx 1 (dadd lat_start (dmul (of_int (Z.of_nat j)) dlat))) coords) coords in
  let! offsets := write (zero_indices (n_cells + 1)) 0 0 in
  let! '(offsets, indices) := for_each (seq 0 (Z.to_nat nj)) (fun j s =>
    for_each (seq 0 (Z.to_nat ni)) (fun i '(offsets, indices) =>
      let i := Z.of_nat i in let j := Z.of_nat j in
      let cell_idx := to_u64 (i + j * ni) in
      let! o := read offsets cell_idx in
      let! offsets := write offsets (to_u64 (cell_idx + 1)) (o + 4) in
      let n0 := to_u64 (i + j * (ni + 1)) in
      let n1 := to_u64 (i + 1 + j * (ni + 1)) in
      let n2 := to_u64 (i + 1 + (j + 1) * (ni + 1)) in
      let n3 := to_u64 (i + (j + 1) * (ni + 1)) in
      let! indices := put_quad indices (to_u64 (cell_idx * 4)) (to_index n0) (to_index n1) (to_index n2) (to_index n3) in
      Ok (offsets, indices)) s) (offsets, zero_indices (to_u64 (n_cells * 4))) in
  Ok (new_mesh coords offsets indices SphericalDeg).

(** The centers of a projected grid of the table. *)
Definition noaa_buffers (g : NoaaGribDefinition) : BufferViews :=
  let ni := grid_ni g in let nj := grid_nj g in
  let dx := ddiv (dsub (grid_dlon g) (lon_start g)) (of_int (to_u64 (ni - 1))) in
  let dy := ddiv (dsub (grid_dlat g) (lat_start g)) (of_int (to_u64 (nj - 1))) in
  let points := (fun k => (Z.of_nat k mod ni, Z.of_nat k / ni)) <$> seq 0 (Z.to_nat (ni * nj)) in
  let h_cx := (fun '(i, _) => dadd (lon_start g) (dmul (of_int i) dx)) <$> points in
  let h_cy := (fun '(_, j) => dadd (lat_start g) (dmul (of_int j) dy)) <$> points in
  mkBuffers (mkSpan (Some h_cx) (length h_cx)) (mkSpan (Some h_cy) (length h_cy)) no_view no_view no_view2 no_view no_view no_view no_view ni nj.

Definition generate_noaa_grib_grid `{!ParallelFor, !AxisBuild} (n : Z) : PJ UnstructuredMesh :=
  match List.find (fun g => grid_number g =? n) NOAA_GRIB_GRIDS with
  | None => pj_throw invalid_argument
  | Some g =>
      match grid_proj g with
      | Some proj_string =>
          match axis_proj with
          | None => pj_throw runtime_error
          | Some _ =>
              let* grid := build_projected proj_string (noaa_buffers g) in
              pj_lift (let! '(m, _) := to_unstructured grid in Ok m)
          end
      | None => pj_lift (generate_regular_grid (grid_ni g) (grid_nj g) (lon_start g) (lat_start g) (grid_dlon g) (grid_dlat g))
      end
  end.

Definition generate_regular_family (N : Z) : result UnstructuredMesh :=
  let! a := arith I32 (4 * N) in
  let! a := arith I32 (a - 1) in
  let! b := arith I32 (2 * N) in
  let! b := arith I32 (b - 1) in
  let ni := to_u64 a in
  let nj := to_u64 b in
  let dlon := ddiv c360 (of_int (to_u64 (ni + 1))) in
  let dlat := ddiv (of_int 180) (of_int (to_u64 (nj + 1))) in
  generate_regular_grid ni nj (of_int (-180)) (dadd (of_int (-90)) (dmul half dlat)) dlon dlat.

Definition generate `{!ParallelFor, !AxisBuild} (name : string) : PJ UnstructuredMesh :=
  let* parsed := pj_lift (parse name) in
  let f := family parsed in
  if Ascii.eqb f "G"%char then generate_noaa_grib_grid (number parsed)
  else if Ascii.eqb f "O"%char then pj_lift (generate_octahedral_gaussian (number parsed))
  else if Ascii.eqb f "N"%char then pj_lift (generate_octahedral_gaussian (number parsed))
  else if Ascii.eqb f "F"%char then pj_lift (generate_regular_gaussian (number parsed))
  else if Ascii.eqb f "R"%char then pj_lift (generate_regular_family (number parsed))
  else pj_throw invalid_argument.
End Generators.

(** * Specification *)

(** Circles of different sizes: the cells between one and the next. *)
Definition strips (sizes : list nat) : list nat := zip_with Nat.max sizes (tail sizes).

Definition circle_node (sizes : list nat) (lats : list double) (k : nat) : double * double :=
  let '(j, i) := ring_of sizes k in (dmul (of_int (Z.of_nat i)) (ddiv c360 (of_int (Z.of_nat (sizes !!! j)))), lats !!! j).

(** The point of a circle of [nlon] at the share [c] of [ring]. *)
Definition ring_point (c ring nlon : nat) : nat :=
  Z.to_nat (Z.rem (default 0 (floorZ (dmul (ddiv (of_int (Z.of_nat c)) (of_int (Z.of_nat ring))) (of_int (Z.of_nat nlon))))) (Z.of_nat nlon)).

Definition strip_quad (sizes : list nat) (j c : nat) : list Z :=
  let top := sizes !!! j in
  let bot := sizes !!! S j in
  let ring := Nat.max top bot in
  Z.of_nat <$> [ring_start sizes j + ring_point c ring top; ring_start sizes j + ring_point (c + 1) ring top;
    ring_start sizes (S j) + ring_point (c + 1) ring bot; ring_start sizes (S j) + ring_point c ring bot]%nat.

Definition octahedral_quad (sizes : list nat) (k : nat) : list Z := let '(j, c) := ring_of (strips sizes) k in strip_quad sizes j c.

(** Cells of a full grid: the last of a circle joins its first. *)
Definition wrap_quad (n j i : nat) : list Z :=
  let next := ((i + 1) mod n)%nat in
  Z.of_nat <$> [j * n + i; j * n + next; (j + 1) * n + next; (j + 1) * n + i]%nat.

Definition full_quad (n k : nat) : list Z := wrap_quad n (k / n) (k mod n).

Definition circle_mesh (sizes : list nat) (lats : list double) (n : nat) (quad : nat -> list Z) : UnstructuredMesh :=
  new_mesh (coords_view (sum_list sizes) (circle_node sizes lats)) (quad_offsets n) (quad_indices quad n) SphericalDeg.

(** * Lemmas *)

(** ** Loops *)

(** A loop that counts its iterations. *)
Lemma for_each_counted {S} n (b : nat -> S -> result S) (body : nat -> S * Z -> result (S * Z)) s s' : Z.of_nat n < 2 ^ 64 ->
  (forall k t, (k < n)%nat -> body k (t, Z.of_nat k) = (let! t := b k t in Ok (t, to_u64 (Z.of_nat k + 1)))) ->
  for_each (seq 0 n) b s = Ok s' -> for_each (seq 0 n) body (s, 0) = Ok (s', Z.of_nat n).
Proof.
  revert s'. induction n as [|n IH]; intros s' Hn Hb; [by intros [= ->]|]. rewrite !seq_S, !for_each_app. cbn [Nat.add for_each].
  destruct (for_each (seq 0 n) b s) as [t| |] eqn:E; cbn [bind]; [|done..]. rewrite (IH t); [|lia|intros; apply Hb; lia|done]. cbn [bind].
  rewrite Hb by lia. destruct (b n t); cbn [bind]; [|done..]. intros [= ->]. rewrite to_u64_id by lia. do 2 f_equal. lia.
Qed.

Definition put_cell_quad (c : nat) (q : list Z) (indices : list Z) : result (list Z) :=
  match q with [n0; n1; n2; n3] => put_quad indices (4 * Z.of_nat c) n0 n1 n2 n3 | _ => Undef end.

Lemma indices_filled f n l0 : (forall c, (c < n)%nat -> length (f c) = 4%nat) -> length l0 = (4 * n)%nat ->
  for_each (seq 0 n) (fun c => put_cell_quad c (f c)) l0 = Ok (quad_indices f n).
Proof.
  intros Hf Hl. destruct (for_each_keys (fun l : list Z => length l = (4 * n)%nat) (fun c l => forall k, (k < 4)%nat -> l !! (4 * c + k)%nat = f c !! k)
    (fun c c' => c = c') (seq 0 n) (fun c => put_cell_quad c (f c)) l0) as (l & E & HP & Hd & _); [|done|].
  - intros c l Hc Hl'. apply elem_of_seq in Hc. specialize (Hf c ltac:(lia)). unfold put_cell_quad.
    destruct (f c) as [|n0 [|n1 [|n2 [|n3 [|? ?]]]]] eqn:Ef; try done.
    destruct (put_quad_spec l (4 * Z.of_nat c) n0 n1 n2 n3) as (ix & E & Hz & Hn & Hk); [lia|lia|].
    replace (Z.to_nat (4 * Z.of_nat c)) with (4 * c)%nat in Hn, Hk by lia. exists ix. split; [done|]. split; [lia|].
    split; [intros c' <- k Hk4; rewrite Ef; by apply Hn|]. intros c' Hc' k Hk4. destruct (decide (c' = c)) as [->|Hne]; [rewrite Ef; by apply Hn|].
    rewrite Hk by lia. by apply Hc'.
  - rewrite E. f_equal. apply list_eq. intros i. destruct (decide (i < 4 * n)%nat) as [Hi|Hi];
      [|rewrite !lookup_ge_None_2; rewrite ?quad_indices_length by done; lia || done].
    pose proof (Nat.div_mod_eq i 4) as Ei. pose proof (Nat.mod_upper_bound i 4 ltac:(lia)) as Hk. rewrite Ei.
    rewrite quad_indices_lookup by (done || lia). apply (Hd (i / 4)%nat (i / 4)%nat); [apply elem_of_seq; lia|done|done].
Qed.

(** A loop that fills a vector. *)
Lemma vector_filled {A} (f : nat -> A) n body l0 : length l0 = n ->
  (forall i l, (i < n)%nat -> length l = n -> body i l = write l (Z.of_nat i) (f i)) -> for_each (seq 0 n) body l0 = Ok (f <$> seq 0 n).
Proof.
  intros Hl Hb. rewrite (for_each_own (fun i _ => f i) n); [|done|done|].
  - f_equal. apply list_eq. intros i. rewrite list_lookup_imap, list_lookup_fmap. destruct (decide (i < n)%nat) as [Hi|Hi].
    + rewrite lookup_seq_lt by done. destruct (lookup_lt_is_Some_2 l0 i) as [x ->]; [lia|done].
    + rewrite !lookup_ge_None_2; [done| |]; rewrite ?length_seq; lia.
  - intros j d Hj Hd. rewrite Hb, write_in_bounds, Nat2Z.id by lia. f_equal. apply list_eq. intros i.
    destruct (decide (i = j)) as [->|Hne]; [|by rewrite list_lookup_insert_ne, list_lookup_alter_ne].
    rewrite list_lookup_insert_eq, list_lookup_alter_eq by lia. by destruct (lookup_lt_is_Some_2 d j) as [x ->]; [lia|].
Qed.

Lemma fill_offsets_spec n : Z.of_nat n < 2 ^ 60 -> fill_offsets (Z.of_nat n) = Ok (quad_offsets n).
Proof.
  intros Hn. unfold fill_offsets. replace (Z.to_nat (Z.of_nat n + 1)) with (S n) by lia.
  apply (vector_filled (fun c => 4 * Z.of_nat c)); [unfold zero_indices; rewrite length_replicate; lia|].
  intros i l Hi _. rewrite to_u64_id, to_index_id by lia. by rewrite Z.mul_comm.
Qed.

(** ** Circles *)

Lemma octahedral_at N j : (j < 2 * N)%nat -> octahedral N !! j = Some (20 + 4 * Nat.min j (2 * N - 1 - j))%nat.
Proof.
  intros Hj. unfold octahedral. set (north := (fun j => 20 + 4 * j)%nat <$> seq 0 N).
  assert (Hl : length north = N) by (unfold north; by rewrite length_fmap, length_seq).
  assert (Hn : forall i, (i < N)%nat -> north !! i = Some (20 + 4 * i)%nat) by (intros i Hi; unfold north; by rewrite list_lookup_fmap, lookup_seq_lt).
  destruct (decide (j < N)%nat) as [Hlt|Hge].
  - rewrite lookup_app_l, Hn by lia. f_equal. lia.
  - rewrite lookup_app_r, reverse_lookup, Hn by lia. f_equal. lia.
Qed.

Lemma nlons_filled N : 0 < N < 2 ^ 28 -> octahedral_nlons N = Ok (Z.of_nat <$> octahedral (Z.to_nat N)).
Proof.
  intros Hn. unfold octahedral_nlons. rewrite arith_ok by (cbn [imin imax]; lia). cbn [bind]. rewrite to_u64_id, new_vector_ok by lia. cbn [bind].
  set (n := Z.to_nat (2 * N)). rewrite (vector_filled (fun j => Z.of_nat (20 + 4 * Nat.min j (n - 1 - j)))).
  - f_equal. apply list_eq. intros j. rewrite !list_lookup_fmap. destruct (decide (j < n)%nat) as [Hj|Hj].
    + rewrite lookup_seq_lt by done. cbn [fmap option_fmap option_map]. rewrite octahedral_at by lia. cbn. do 3 f_equal. lia.
    + rewrite !lookup_ge_None_2; [done| |]; rewrite ?octahedral_length, ?length_seq; lia.
  - rewrite length_replicate. lia.
  - intros i l Hi _. rewrite arith_ok by (cbn [imin imax]; lia). cbn [bind]. f_equal. lia.
Qed.

(** A list as a function of the place. *)
Lemma list_as_function {A} `{!Inhabited A} (l : list A) : (fun i => l !!! i) <$> seq 0 (length l) = l.
Proof.
  apply list_eq. intros i. rewrite list_lookup_fmap. destruct (decide (i < length l)%nat) as [Hi|Hi].
  - rewrite lookup_seq_lt by done. cbn. destruct (lookup_lt_is_Some_2 l i Hi) as [x Hx]. by rewrite Hx, (list_lookup_total_correct _ _ _ Hx).
  - rewrite !lookup_ge_None_2; [done| |]; rewrite ?length_fmap, ?length_seq; lia.
Qed.

(** A loop that sums sizes. *)
Lemma sizes_summed (l : list nat) body : Z.of_nat (sum_list l) < 2 ^ 64 ->
  (forall j n t, l !! j = Some n -> body j t = Ok (to_u64 (t + Z.of_nat n))) -> for_each (seq 0 (length l)) body 0 = Ok (Z.of_nat (sum_list l)).
Proof.
  induction l as [|n l IH] using rev_ind; intros Hs Hb; [done|]. rewrite sum_list_with_app in Hs |- *. cbn in Hs |- *.
  rewrite length_app, Nat.add_1_r, seq_S, for_each_app, IH; [|lia|intros j m t Hj; apply Hb; by apply lookup_app_l_Some]. cbn [bind for_each Nat.add].
  rewrite (Hb _ n) by by apply list_lookup_middle. cbn [bind]. rewrite to_u64_id by lia. f_equal. lia.
Qed.

Lemma total_nodes_spec N : 0 < N < 2 ^ 28 -> octahedral_total_nodes N = Ok (Z.of_nat (sum_list (octahedral (Z.to_nat N)))).
Proof.
  intros Hn. unfold octahedral_total_nodes. rewrite arith_ok by (cbn [imin imax]; lia). cbn [bind].
  replace (Z.to_nat (2 * N)) with (length (octahedral (Z.to_nat N))) by (rewrite octahedral_length; lia).
  apply sizes_summed; [rewrite octahedral_total; nia|]. intros j n t Hj. pose proof (lookup_lt_Some _ _ _ Hj) as Hlt. rewrite octahedral_length in Hlt.
  rewrite octahedral_at in Hj by done. injection Hj as <-. rewrite arith_ok by (cbn [imin imax]; lia). cbn [bind].
  rewrite (to_u64_id (20 + _)) by lia. do 3 f_equal. lia.
Qed.

Lemma strips_lookup sizes j a b : sizes !! j = Some a -> sizes !! S j = Some b -> strips sizes !! j = Some (Nat.max a b).
Proof. intros Ha Hb. unfold strips. apply lookup_zip_with_Some. exists a, b. split; [done|]. split; [done|]. by rewrite lookup_tail. Qed.

Lemma strips_inv sizes j n : strips sizes !! j = Some n -> exists a b, sizes !! j = Some a /\ sizes !! S j = Some b /\ n = Nat.max a b.
Proof. intros (a & b & -> & Ha & Hb)%lookup_zip_with_Some. exists a, b. rewrite lookup_tail in Hb. done. Qed.

Lemma strips_length sizes : length (strips sizes) = (length sizes - 1)%nat.
Proof. unfold strips. rewrite length_zip_with, length_tl. lia. Qed.

Lemma total_cells_spec sizes : Z.of_nat (sum_list (strips sizes)) < 2 ^ 63 -> Forall (fun n => Z.of_nat n < 2 ^ 63) sizes ->
  reduced_total_cells (Z.of_nat <$> sizes) = Ok (Z.of_nat (sum_list (strips sizes))).
Proof.
  intros Hs Hf. unfold reduced_total_cells. rewrite length_fmap, <- strips_length. apply sizes_summed; [lia|].
  intros j n t (a & b & Ha & Hb & ->)%strips_inv. rewrite (read_nat _ j (Z.of_nat a)) by by rewrite list_lookup_fmap, Ha. cbn [bind].
  replace (Z.of_nat j + 1) with (Z.of_nat (S j)) by lia. rewrite (read_nat _ (S j) (Z.of_nat b)) by by rewrite list_lookup_fmap, Hb. cbn [bind].
  rewrite list.Forall_forall in Hf. pose proof (Hf a (list_elem_of_lookup_2 _ _ _ Ha)). pose proof (Hf b (list_elem_of_lookup_2 _ _ _ Hb)).
  rewrite (to_u64_id (Z.max _ _)) by lia. do 3 f_equal. lia.
Qed.

(** The sizes of the strips against those of the circles. *)
Lemma strips_total sizes : (sum_list (strips sizes) <= 2 * sum_list sizes)%nat.
Proof.
  destruct sizes as [|a sizes]; [cbn; lia|]. unfold strips. cbn [tail]. assert (H : (sum_list (zip_with Nat.max (a :: sizes) sizes) <= a + 2 * sum_list sizes)%nat).
  { revert a. induction sizes as [|b sizes IH]; intros a; [cbn; lia|]. specialize (IH b). cbn in *. unfold sum_list_with in *. lia. }
  cbn in *. unfold sum_list_with in *. lia.
Qed.

Definition starts (sizes : list nat) : list Z := (fun j => Z.of_nat (ring_start sizes j)) <$> seq 0 (S (length sizes)).

Lemma starts_lookup sizes j : (j <= length sizes)%nat -> starts sizes !! j = Some (Z.of_nat (ring_start sizes j)).
Proof. intros Hj. unfold starts. by rewrite list_lookup_fmap, lookup_seq_lt by lia. Qed.

Lemma row_starts_spec sizes : Z.of_nat (sum_list sizes) < 2 ^ 60 -> Z.of_nat (length sizes) < 2 ^ 59 ->
  row_starts_of (Z.of_nat <$> sizes) (Z.of_nat (length sizes)) = Ok (starts sizes).
Proof.
  intros Hs Hl. unfold row_starts_of. rewrite !to_u64_id, new_vector_ok by (rewrite ?to_u64_id; lia). cbn [bind].
  set (n := length sizes) in *. rewrite write_in_bounds by (rewrite length_replicate; lia). cbn [bind]. rewrite Nat2Z.id.
  match goal with |- for_each _ ?bd ?l0 = _ => destruct (for_each_inv (fun j (rs : list Z) => length rs = S n /\
    forall k, (k <= j)%nat -> rs !! k = Some (Z.of_nat (ring_start sizes k))) n bd l0) as (l' & E & Hl' & Hk) end.
  - intros j l Hj [L K]. destruct (lookup_lt_is_Some_2 sizes j Hj) as [m Hm]. rewrite (read_nat _ _ _ (K j ltac:(lia))). cbn [bind].
    rewrite (read_nat _ j (Z.of_nat m)) by by rewrite list_lookup_fmap, Hm. cbn [bind]. pose proof (ring_start_S _ _ _ Hm) as HS.
    assert (Hb : (ring_start sizes (S j) <= sum_list sizes)%nat).
    { unfold ring_start. rewrite <- (take_drop (S j) sizes) at 2. rewrite sum_list_with_app. lia. }
    rewrite (to_u64_id (Z.of_nat m)), to_u64_id, write_in_bounds by lia. eexists. split; [done|]. split; [by rewrite length_insert|].
    intros k Hk. replace (Z.to_nat (Z.of_nat j + 1)) with (S j) by lia. destruct (decide (k = S j)) as [->|Hne].
    + rewrite list_lookup_insert_eq by lia. f_equal. lia.
    + rewrite list_lookup_insert_ne by lia. apply K. lia.
  - rewrite length_insert, length_replicate. split; [lia|]. intros k Hk. replace k with 0%nat by lia.
    rewrite list_lookup_insert_eq; [done|]. rewrite length_replicate. lia.
  - rewrite E. f_equal. apply list_eq. intros k. destruct (decide (k <= n)%nat) as [Hkn|Hkn]; [by rewrite starts_lookup, Hk by lia|].
    rewrite !lookup_ge_None_2; [done| |]; unfold starts; rewrite ?length_fmap, ?length_seq; fold n; lia.
Qed.

(** ** Places on a circle *)

Definition ring_floor (c ring nlon : Z) : option Z := floorZ (dmul (ddiv (of_int c) (of_int ring)) (of_int nlon)).

Lemma Zdigits2_mono a b : 0 < a <= b -> Zdigits2 a <= Zdigits2 b.
Proof. intros H. rewrite !Zdigits2_log2 by lia. pose proof (Z.log2_le_mono a b). lia. Qed.

Lemma Zdigits2_small n k : 0 < n < 2 ^ k -> 0 < Zdigits2 n <= k.
Proof.
  intros Hn. destruct (Zdigits2_bounds n) as [H0 [H1 _]]; [lia|]. split; [done|]. apply Z.nlt_ge. intros Hlt.
  pose proof (Z.pow_le_mono_r 2 k (Zdigits2 n - 1)). lia.
Qed.

Lemma of_int_finite z : 0 < z < 2 ^ 53 -> exists m e, of_int z = S754_finite false m e.
Proof. intros Hz. destruct (of_int_exact z Hz) as (m & e & E & _). by exists m, e. Qed.

(** The quotient is not far above one, so that the place is an [int]. *)
Lemma ring_floor_bound c ring nlon : 0 <= c <= ring -> 0 < ring < 2 ^ 25 -> 0 < nlon < 2 ^ 25 -> exists z, ring_floor c ring nlon = Some z /\ 0 <= z < 2 ^ 31.
Proof.
  intros Hc Hr Hn. unfold ring_floor. destruct (decide (c = 0)) as [->|Hne].
  - exists 0. split; [|lia]. destruct (of_int_finite ring) as (m & e & ->); [lia|]. destruct (of_int_finite nlon) as (m' & e' & ->); [lia|]. done.
  - destruct (of_int_mag c) as (k1 & M1 & B1); [lia|]. destruct (of_int_mag ring) as (k2 & M2 & B2); [lia|]. destruct (of_int_mag nlon) as (k3 & M3 & B3); [lia|].
    pose proof (Zdigits2_small c 25 ltac:(lia)). pose proof (Zdigits2_small ring 25 ltac:(lia)). pose proof (Zdigits2_small nlon 25 ltac:(lia)).
    pose proof (Zdigits2_mono c ring ltac:(lia)). destruct (div_mag _ _ k1 k2 M1 M2) as (k4 & M4 & B4); [lia|].
    destruct (mul_mag _ _ k4 k3 M4 M3) as (k5 & M5 & B5); [lia|]. destruct (floor_mag _ _ M5) as (z & -> & Hz). exists z. split; [done|].
    pose proof (Z.pow_le_mono_r 2 (Z.max k5 0) 31). lia.
Qed.

Lemma ring_index_spec c ring nlon : (c <= ring)%nat -> (0 < ring)%nat -> (0 < nlon)%nat -> Z.of_nat ring < 2 ^ 25 -> Z.of_nat nlon < 2 ^ 25 ->
  ring_index (Z.of_nat c) (Z.of_nat ring) (Z.of_nat nlon) = Ok (Z.of_nat (ring_point c ring nlon)) /\ (ring_point c ring nlon < nlon)%nat.
Proof.
  intros Hc Hr Hn Br Bn. unfold ring_index, ring_point. change (floorZ _) with (ring_floor (Z.of_nat c) (Z.of_nat ring) (Z.of_nat nlon)).
  destruct (ring_floor_bound (Z.of_nat c) (Z.of_nat ring) (Z.of_nat nlon)) as (z & -> & Hz); [lia..|]. cbn [from_option id].
  rewrite arith_ok by (cbn [imin imax]; lia). cbn [bind]. rewrite (proj2 (Z.eqb_neq _ _)) by lia.
  rewrite Z.rem_mod_nonneg by lia. pose proof (Z.mod_pos_bound z (Z.of_nat nlon) ltac:(lia)) as Hm.
  rewrite Z2Nat.id by lia. split; [done|]. apply Nat2Z.inj_lt. rewrite Z2Nat.id by lia. apply Hm.
Qed.

(** The end of a circle is its beginning. *)
Lemma ring_point_first ring nlon : (0 < ring)%nat -> (0 < nlon)%nat -> Z.of_nat ring < 2 ^ 25 -> Z.of_nat nlon < 2 ^ 25 -> ring_point 0 ring nlon = 0%nat.
Proof.
  intros Hr Hn Br Bn. unfold ring_point. destruct (of_int_finite (Z.of_nat ring)) as (m & e & ->); [lia|].
  destruct (of_int_finite (Z.of_nat nlon)) as (m' & e' & ->); [lia|]. 
  cbn. by rewrite Z.rem_0_l by lia.
Qed.

Lemma ring_point_last ring nlon : (0 < ring)%nat -> (0 < nlon)%nat -> Z.of_nat ring < 2 ^ 25 -> Z.of_nat nlon < 2 ^ 25 -> ring_point ring ring nlon = 0%nat.
Proof.
  intros Hr Hn Br Bn. unfold ring_point. assert (E : ddiv (of_int (Z.of_nat ring)) (of_int (Z.of_nat ring)) = one).
  { destruct (of_int_finite (Z.of_nat ring)) as (m & e & ->); [lia|]. apply div_self. }
  rewrite E, mul_one, of_int_floor by lia. cbn [from_option id]. by rewrite Z.rem_same by lia.
Qed.

(** ** The meshes *)

Lemma circle_node_at sizes lats j i n : sizes !! j = Some n -> (i < n)%nat ->
  circle_node sizes lats (ring_start sizes j + i) = (dmul (of_int (Z.of_nat i)) (ddiv c360 (of_int (Z.of_nat n))), lats !!! j).
Proof. intros Hj Hi. unfold circle_node. by rewrite (ring_of_start _ _ _ n), (list_lookup_total_correct _ _ _ Hj). Qed.

Section Meshes.
Context `{!Libm, !DoubleSort}.

Definition raw_latitudes (n : nat) : list double := registry_latitude n <$> seq 0 n.

(** North to south. *)
Definition named_latitudes (n : nat) : list double := sort_descending (raw_latitudes n).

Lemma named_latitudes_length n : length (named_latitudes n) = n.
Proof. unfold named_latitudes. rewrite sort_descending_perm. unfold raw_latitudes. by rewrite length_fmap, length_seq. Qed.

Lemma registry_latitudes_spec N : 0 < N < 2 ^ 28 -> let n := Z.to_nat (2 * N) in
  registry_gaussian_latitudes N = if forallb is_number (raw_latitudes n) then Ok (named_latitudes n) else Undef.
Proof.
  intros Hn n. unfold registry_gaussian_latitudes. rewrite arith_ok by (cbn [imin imax]; lia). cbn [bind].
  rewrite to_u64_id, new_vector_ok by lia. cbn [bind]. fold n. by rewrite (vector_filled (registry_latitude n)) by (rewrite ?length_replicate; done).
Qed.
End Meshes.

(** Circles of a grid that can be indexed. *)
Definition circles_ok (sizes : list nat) : Prop :=
  (forall j n, sizes !! j = Some n -> (0 < n)%nat /\ Z.of_nat n < 2 ^ 25) /\ Z.of_nat (sum_list sizes) < 2 ^ 58.

Lemma starts_bound sizes j n : sizes !! j = Some n -> (ring_start sizes (S j) <= sum_list sizes)%nat.
Proof.
  intros Hj. rewrite (ring_start_S _ _ _ Hj). unfold ring_start. rewrite <- (take_drop (S j) sizes) at 2.
  rewrite sum_list_with_app, (take_S_r _ _ _ Hj), sum_list_with_app. cbn. lia.
Qed.

Lemma strip_quad_spec sizes j c a b : circles_ok sizes -> sizes !! j = Some a -> sizes !! S j = Some b -> (c < Nat.max a b)%nat ->
  let ring := Nat.max a b in
  exists tl tr br bl, strip_quad sizes j c = [Z.of_nat tl; Z.of_nat tr; Z.of_nat br; Z.of_nat bl] /\
    tl = (ring_start sizes j + ring_point c ring a)%nat /\ tr = (ring_start sizes j + ring_point (c + 1) ring a)%nat /\
    br = (ring_start sizes (S j) + ring_point (c + 1) ring b)%nat /\ bl = (ring_start sizes (S j) + ring_point c ring b)%nat /\
    (tl < ring_start sizes j + a)%nat /\ (tr < ring_start sizes j + a)%nat /\ (br < ring_start sizes (S j) + b)%nat /\ (bl < ring_start sizes (S j) + b)%nat.
Proof.
  intros [Hs _] Ha Hb Hc ring. destruct (Hs _ _ Ha) as [Pa Ba]. destruct (Hs _ _ Hb) as [Pb Bb].
  destruct (ring_index_spec c ring a) as [_ R1]; [unfold ring; lia..|]. destruct (ring_index_spec (c + 1) ring a) as [_ R2]; [unfold ring; lia..|].
  destruct (ring_index_spec c ring b) as [_ R3]; [unfold ring; lia..|]. destruct (ring_index_spec (c + 1) ring b) as [_ R4]; [unfold ring; lia..|].
  do 4 eexists. split; [unfold strip_quad; by rewrite (list_lookup_total_correct _ _ _ Ha), (list_lookup_total_correct _ _ _ Hb)|].
  fold ring. repeat (split; [reflexivity|]). lia.
Qed.

Lemma octahedral_quad_at sizes j c a b : sizes !! j = Some a -> sizes !! S j = Some b -> (c < Nat.max a b)%nat ->
  octahedral_quad sizes (ring_start (strips sizes) j + c) = strip_quad sizes j c.
Proof. intros Ha Hb Hc. unfold octahedral_quad. rewrite (ring_of_start _ _ _ (Nat.max a b)); [done|by apply strips_lookup|done]. Qed.

Lemma octahedral_quad_range sizes k : circles_ok sizes -> (k < sum_list (strips sizes))%nat ->
  length (octahedral_quad sizes k) = 4%nat /\ Forall (fun v => 0 <= v < Z.of_nat (sum_list sizes)) (octahedral_quad sizes k).
Proof.
  intros Hok Hk. destruct (ring_of_inv _ _ Hk) as (j & c & n & _ & Hj & Hc & ->). apply strips_inv in Hj as (a & b & Ha & Hb & ->).
  rewrite (octahedral_quad_at _ _ _ a b) by done. destruct (strip_quad_spec sizes j c a b Hok Ha Hb Hc) as (tl & tr & br & bl & -> & _ & _ & _ & _ & B).
  pose proof (starts_bound _ _ _ Ha). pose proof (starts_bound _ _ _ Hb). rewrite (ring_start_S _ _ _ Hb) in *. rewrite (ring_start_S _ _ _ Ha) in *.
  split; [done|]. repeat (constructor; [lia|]). constructor.
Qed.

Lemma octahedral_cell_eq sizes j c a b indices : circles_ok sizes -> sizes !! j = Some a -> sizes !! S j = Some b -> (c < Nat.max a b)%nat ->
  let k := (ring_start (strips sizes) j + c)%nat in
  octahedral_cell (Z.of_nat a) (Z.of_nat b) (Z.of_nat (ring_start sizes j)) (Z.of_nat (ring_start sizes (S j))) (Z.of_nat (Nat.max a b)) c (indices, Z.of_nat k)
  = (let! indices := put_cell_quad k (octahedral_quad sizes k) indices in Ok (indices, to_u64 (Z.of_nat k + 1))).
Proof.
  intros Hok Ha Hb Hc k. pose proof Hok as [Hs Ht]. destruct (Hs _ _ Ha) as [Pa Ba]. destruct (Hs _ _ Hb) as [Pb Bb].
  unfold k. rewrite (octahedral_quad_at _ _ _ a b) by done. destruct (strip_quad_spec sizes j c a b Hok Ha Hb Hc) as (tl & tr & br & bl & -> & Et & Er & Ebr & Eb & Bd).
  destruct (ring_index_spec c (Nat.max a b) a) as [R1 _]; [lia..|]. destruct (ring_index_spec (c + 1) (Nat.max a b) a) as [R2 _]; [lia..|].
  destruct (ring_index_spec c (Nat.max a b) b) as [R3 _]; [lia..|]. destruct (ring_index_spec (c + 1) (Nat.max a b) b) as [R4 _]; [lia..|].
  assert (Hk : (ring_start (strips sizes) j + c < sum_list (strips sizes))%nat) by by apply (ring_start_bound _ _ (Nat.max a b)); [apply strips_lookup|].
  pose proof (strips_total sizes). pose proof (starts_bound _ _ _ Ha) as S1. pose proof (starts_bound _ _ _ Hb) as S2.
  rewrite (ring_start_S _ _ _ Hb) in S2. rewrite (ring_start_S _ _ _ Ha) in S1.
  unfold octahedral_cell, put_cell_quad. replace (Z.of_nat c + 1) with (Z.of_nat (c + 1)) by lia. rewrite R1, R2, R3, R4. cbn [bind].
  rewrite !(to_u64_id (Z.of_nat (ring_point _ _ _))) by lia. rewrite <- !Nat2Z.inj_add, <- Et, <- Er, <- Ebr, <- Eb.
  rewrite !to_u64_id, !to_index_id by lia. by rewrite (Z.mul_comm _ 4).
Qed.

(** A mesh of circles. *)
Lemma circle_mesh_ok sizes lats n quad :
  (forall c, (c < n)%nat -> length (quad c) = 4%nat /\ Forall (fun v => 0 <= v < Z.of_nat (sum_list sizes)) (quad c)) ->
  let m := circle_mesh sizes lats n quad in
  mesh_ok m /\ n_cells m = n /\ n_nodes m = sum_list sizes /\ (forall c, (c < n)%nat -> cell_nodes m c = quad c) /\
  (forall j i s, sizes !! j = Some s -> (i < s)%nat -> let k := Z.of_nat (ring_start sizes j + i) in
    (coord (node_coords m) k 0, coord (node_coords m) k 1) = (dmul (of_int (Z.of_nat i)) (ddiv c360 (of_int (Z.of_nat s))), lats !!! j)).
Proof.
  intros Hq m. destruct (quad_mesh_ok (node_coords m) quad n SphericalDeg) as (M & N & Q); [apply coords_view_shaped|done|exact Hq|].
  split; [exact M|]. split; [exact N|]. split; [done|]. split; [exact Q|]. intros j i s Hj Hi k.
  unfold m, circle_mesh. cbn [new_mesh node_coords].
  destruct (coords_view_coord (sum_list sizes) (circle_node sizes lats) (ring_start sizes j + i)) as [E0 E1]; [by apply (ring_start_bound _ _ s)|].
  unfold k. rewrite E0, E1, (circle_node_at _ _ _ _ _ Hj Hi). done.
Qed.

(** The nodes, circle by circle. *)
Lemma zero_coords_shaped n : shaped n (mkView2 (Z.to_nat (Z.of_nat n)) 2 (zeros (Z.of_nat n * 2))).
Proof. rewrite Nat2Z.id. split; [|done]. unfold view_ok, zeros. cbn [cells extent0 extent1]. rewrite length_replicate. lia. Qed.

Section Evaluation.
Context `{!Libm, !DoubleSort}.

Lemma octahedral_circles N : 0 < N < 2 ^ 22 -> circles_ok (octahedral (Z.to_nat N)).
Proof.
  intros Hn. split; [|rewrite octahedral_total; nia]. intros j n Hj%octahedral_lookup. lia.
Qed.

Lemma octahedral_mesh_eval N : 0 < N < 2 ^ 22 -> forallb is_number (raw_latitudes (Z.to_nat (2 * N))) = true ->
  let sizes := octahedral (Z.to_nat N) in
  generate_octahedral_gaussian N = Ok (circle_mesh sizes (named_latitudes (Z.to_nat (2 * N))) (sum_list (strips sizes)) (octahedral_quad sizes)).
Proof.
  intros Hn Hnum sizes. pose proof (octahedral_circles N Hn) as Hok. fold sizes in Hok. pose proof Hok as [Hs Ht].
  assert (Hl : Z.of_nat (length sizes) = 2 * N) by (unfold sizes; rewrite octahedral_length; lia).
  pose proof (strips_total sizes) as Hst. set (n := length sizes) in *. set (lats := named_latitudes _). set (cells := sum_list (strips sizes)) in *.
  unfold generate_octahedral_gaussian. rewrite arith_ok by (cbn [imin imax]; lia). cbn [bind].
  rewrite nlons_filled, total_nodes_spec by lia. cbn [bind]. fold sizes.
  rewrite total_cells_spec by (fold cells; lia || (apply list.Forall_forall; intros x [j Hj]%list_elem_of_lookup; apply Hs in Hj; lia)). cbn [bind].
  rewrite registry_latitudes_spec, Hnum by lia. cbn [bind]. fold lats cells. rewrite <- Hl. unfold n at 1. rewrite row_starts_spec by (fold n; lia). cbn [bind]. fold n.
  rewrite Nat2Z.id. change n with (length sizes) at 1.
  assert (Hat : forall j m, sizes !! j = Some m -> (Z.of_nat <$> sizes) !! j = Some (Z.of_nat m)) by (intros j m Hj; by rewrite list_lookup_fmap, Hj).
  assert (Hst' : forall j m, sizes !! j = Some m -> starts sizes !! j = Some (Z.of_nat (ring_start sizes j))).
  { intros j m Hj. apply starts_lookup. apply lookup_lt_Some in Hj. lia. }
  rewrite (for_each_rings sizes _ (fun j i => put_node (ring_start sizes j + i) (dmul (of_int (Z.of_nat i)) (ddiv c360 (of_int (Z.of_nat (sizes !!! j))))) (lats !!! j))).
  2:{ intros j m v Hj. pose proof (lookup_lt_Some _ _ _ Hj) as Hjn. destruct (lookup_lt_is_Some_2 lats j) as [lat Hlat]; [unfold lats; rewrite named_latitudes_length; lia|].
      rewrite (read_nat _ _ _ Hlat), (read_nat _ _ _ (Hat _ _ Hj)), (read_nat _ _ _ (Hst' _ _ Hj)). cbn [bind]. rewrite Nat2Z.id.
      apply for_each_ext. intros i t Hi%elem_of_seq. unfold put_node. pose proof (ring_start_bound sizes j m i Hj ltac:(lia)).
      rewrite to_u64_id, (list_lookup_total_correct _ _ _ Hj), (list_lookup_total_correct _ _ _ Hlat), Nat2Z.inj_add by lia. done. }
  rewrite (coords_filled (sum_list sizes) (circle_node sizes lats)); [|done|apply zero_coords_shaped|].
  2:{ intros k v Hk _. unfold circle_node. destruct (ring_of_inv sizes k Hk) as (j & i & m & -> & Hj & Hi & ->). done. }
  cbn [bind]. rewrite fill_offsets_spec by (fold cells; lia). cbn [bind].
  replace (Z.to_nat (Z.of_nat n - 1)) with (length (strips sizes)) by (rewrite strips_length; lia).
  rewrite (for_each_rings (strips sizes) _ (fun j => octahedral_cell (Z.of_nat (sizes !!! j)) (Z.of_nat (sizes !!! S j)) (Z.of_nat (ring_start sizes j))
    (Z.of_nat (ring_start sizes (S j))) (Z.of_nat (Nat.max (sizes !!! j) (sizes !!! S j))))).
  2:{ intros j m v (a & b & Ha & Hb & ->)%strips_inv. rewrite (read_nat _ _ _ (Hat _ _ Ha)), (read_nat _ _ _ (Hst' _ _ Ha)).
      replace (Z.of_nat j + 1) with (Z.of_nat (S j)) by lia. rewrite (read_nat _ _ _ (Hat _ _ Hb)), (read_nat _ _ _ (Hst' _ _ Hb)). cbn [bind].
      rewrite <- Nat2Z.inj_max, Nat2Z.id, (list_lookup_total_correct _ _ _ Ha), (list_lookup_total_correct _ _ _ Hb). done. }
  rewrite (for_each_counted cells (fun k => put_cell_quad k (octahedral_quad sizes k)) _ _ (quad_indices (octahedral_quad sizes) cells)).
  - done.
  - lia.
  - intros k v Hk. destruct (ring_of_inv (strips sizes) k Hk) as (j & c & m & -> & Hj & Hc & ->). apply strips_inv in Hj as (a & b & Ha & Hb & ->).
    rewrite (list_lookup_total_correct _ _ _ Ha), (list_lookup_total_correct _ _ _ Hb). by apply octahedral_cell_eq.
  - apply indices_filled; [intros c Hc; by apply octahedral_quad_range|]. unfold zero_indices. rewrite length_replicate, to_u64_id by lia. lia.
Qed.
End Evaluation.

(** ** Full grids *)

Lemma sum_equal a b : sum_list (replicate a b) = (a * b)%nat.
Proof. induction a as [|a IH]; [done|]. cbn [replicate]. change (sum_list (b :: replicate a b)) with (b + sum_list (replicate a b))%nat. rewrite IH. lia. Qed.

Lemma full_quad_range a b k : (k < (a - 1) * b)%nat ->
  length (full_quad b k) = 4%nat /\ Forall (fun v => 0 <= v < Z.of_nat (sum_list (replicate a b))) (full_quad b k).
Proof.
  intros Hk. split; [done|]. rewrite sum_equal. assert (Hb : (0 < b)%nat) by lia. assert (Hj : (k / b < a - 1)%nat) by (apply Nat.Div0.div_lt_upper_bound; lia).
  pose proof (Nat.mod_upper_bound k b ltac:(lia)). pose proof (Nat.mod_upper_bound (k mod b + 1) b ltac:(lia)).
  unfold full_quad, wrap_quad. cbn [fmap list_fmap]. repeat (constructor; [nia|]). constructor.
Qed.

Lemma full_cell_eq lon k v : (0 < lon)%nat -> Z.of_nat k + 2 * Z.of_nat lon < 2 ^ 60 ->
  full_cell (Z.of_nat lon) (Z.of_nat (k / lon) * Z.of_nat lon) ((Z.of_nat (k / lon) + 1) * Z.of_nat lon) (k mod lon) (v, Z.of_nat k)
  = (let! v := put_cell_quad k (full_quad lon k) v in Ok (v, to_u64 (Z.of_nat k + 1))).
Proof.
  intros Hl Hk. unfold full_cell, put_cell_quad, full_quad, wrap_quad. cbn [fmap list_fmap]. pose proof (Nat.div_mod_eq k lon) as Ek.
  pose proof (Nat.mod_upper_bound k lon ltac:(lia)) as Hi. pose proof (Nat.mod_upper_bound (k mod lon + 1) lon ltac:(lia)) as Hi'.
  assert (E : (Z.of_nat (k mod lon) + 1) mod Z.of_nat lon = Z.of_nat ((k mod lon + 1) mod lon)) by (rewrite (Nat2Z.inj_mod (k mod lon + 1)); f_equal; lia).
  rewrite E. clear E. set (j := (k / lon)%nat) in *. set (i := (k mod lon)%nat) in *. set (i' := ((i + 1) mod lon)%nat) in *.
  rewrite !to_u64_id, !to_index_id by nia.
  rewrite !Nat2Z.inj_add, !Nat2Z.inj_mul, Nat2Z.inj_add, (Z.mul_comm (Z.of_nat k) 4). done.
Qed.

Section Full.
Context `{!Libm, !DoubleSort}.

Lemma regular_gaussian_eval N : 0 < N < 2 ^ 26 -> forallb is_number (raw_latitudes (Z.to_nat (2 * N))) = true ->
  let lat := Z.to_nat (2 * N) in
  let lon := Z.to_nat (4 * N) in
  generate_regular_gaussian N = Ok (circle_mesh (replicate lat lon) (named_latitudes lat) ((lat - 1) * lon) (full_quad lon)).
Proof.
  intros Hn Hnum lat lon. set (lats := named_latitudes lat). unfold generate_regular_gaussian, regular_total_nodes, regular_total_cells.
  rewrite !arith_ok by (cbn [imin imax]; lia). cbn [bind]. rewrite !arith_ok by (cbn [imin imax]; lia). cbn [bind].
  rewrite registry_latitudes_spec, Hnum by lia. cbn [bind]. fold lat lats. rewrite !(to_u64_id (2 * N)), !(to_u64_id (4 * N)), (to_u64_id (2 * N - 1)) by lia.
  rewrite (to_u64_id (2 * N * (4 * N))), (to_u64_id ((2 * N - 1) * (4 * N))) by nia. fold lon.
  set (sizes := replicate lat lon). set (cells := ((lat - 1) * lon)%nat). assert (Hs : Z.of_nat (sum_list sizes) = 2 * N * (4 * N)) by (unfold sizes; rewrite sum_equal; lia).
  assert (Hc : Z.of_nat cells = (2 * N - 1) * (4 * N)) by (unfold cells; nia). rewrite <- Hs, <- Hc.
  assert (Hsz : forall j m, sizes !! j = Some m -> m = lon /\ (j < lat)%nat) by (intros j m [-> Hj]%lookup_replicate; done).
  replace lat with (length sizes) at 1 by apply length_replicate.
  rewrite (for_each_rings sizes _ (fun j i '(coords, node_idx) =>
    let! coords := write2 coords node_idx 0 (dmul (of_int (Z.of_nat i)) (ddiv c360 (of_int (4 * N)))) in
    let! coords := write2 coords node_idx 1 (lats !!! j) in Ok (coords, to_u64 (node_idx + 1)))).
  2:{ intros j m [coords idx] Hj. destruct (Hsz _ _ Hj) as [-> Hjl]. destruct (lookup_lt_is_Some_2 lats j) as [x Hx]; [unfold lats; rewrite named_latitudes_length; lia|].
      rewrite (read_nat _ _ _ Hx). cbn [bind]. by rewrite (list_lookup_total_correct _ _ _ Hx). }
  rewrite (for_each_counted (sum_list sizes) (fun k => put_node k (fst (circle_node sizes lats k)) (snd (circle_node sizes lats k))) _ _
    (coords_view (sum_list sizes) (circle_node sizes lats))); [|nia| |].
  2:{ intros k v Hk. unfold circle_node. destruct (ring_of_inv sizes k Hk) as (j & i & m & -> & Hj & Hi & Ek). destruct (Hsz _ _ Hj) as [-> Hjl].
      rewrite (list_lookup_total_correct _ _ _ Hj). unfold put_node. cbn [fst snd]. rewrite bind_assoc. unfold lon. by rewrite Z2Nat.id by lia. }
  2:{ apply coords_filled; [done|apply zero_coords_shaped|done]. }
  cbn [bind]. rewrite fill_offsets_spec by nia. cbn [bind].
  replace (Z.to_nat (2 * N - 1)) with (length (replicate (lat - 1) lon)) by (rewrite length_replicate; lia).
  erewrite (for_each_rings (replicate (lat - 1) lon)); [|intros j m v [-> _]%lookup_replicate; reflexivity]. rewrite sum_equal. fold cells.
  rewrite (for_each_counted cells (fun k => put_cell_quad k (full_quad lon k)) _ _ (quad_indices (full_quad lon) cells)); [done|nia| |].
  - intros k v Hk. assert (Hj : (k / lon < lat - 1)%nat) by (apply Nat.Div0.div_lt_upper_bound; unfold cells in Hk; lia).
    rewrite ring_of_equal by (unfold cells in Hk; lia). rewrite !(to_u64_id (Z.of_nat (k / lon))), !(to_u64_id (Z.of_nat (k / lon) + 1)) by lia.
    rewrite (to_u64_id (Z.of_nat (k / lon) * _)), (to_u64_id ((Z.of_nat (k / lon) + 1) * _)) by nia.
    replace (4 * N) with (Z.of_nat lon) by lia. apply full_cell_eq; [lia|nia].
  - apply indices_filled; [done|]. unfold zero_indices. rewrite length_replicate, to_u64_id by nia. lia.
Qed.
End Full.

(** ** Regular grids *)

Lemma offsets_by_steps n body l0 : length l0 = S n -> l0 !! 0%nat = Some 0 ->
  (forall k l, (k < n)%nat -> body k l = (let! o := read l (Z.of_nat k) in write l (Z.of_nat k + 1) (o + 4))) ->
  for_each (seq 0 n) body l0 = Ok (quad_offsets n).
Proof.
  intros Hl H0 Hb. destruct (for_each_inv (fun k (l : list Z) => length l = S n /\ forall i, (i <= k)%nat -> l !! i = Some (4 * Z.of_nat i)) n body l0)
    as (l & E & L & K).
  - intros k l Hk [L K]. rewrite Hb, (read_nat _ _ _ (K k ltac:(lia))) by done. cbn [bind]. rewrite write_in_bounds by lia.
    eexists. split; [done|]. split; [by rewrite length_insert|]. intros i Hi. replace (Z.to_nat (Z.of_nat k + 1)) with (S k) by lia.
    destruct (decide (i = S k)) as [->|Hne]; [rewrite list_lookup_insert_eq by lia; f_equal; lia|]. rewrite list_lookup_insert_ne by done. apply K. lia.
  - split; [done|]. intros i Hi. by replace i with 0%nat by lia.
  - rewrite E. f_equal. apply list_eq. intros i. destruct (decide (i <= n)%nat); [by rewrite quad_offsets_lookup, K by done|].
    rewrite !lookup_ge_None_2; [done| |]; rewrite ?quad_offsets_length; lia.
Qed.

Lemma regular_grid_spec ni nj lon_start lat_start dlon dlat : 0 < ni -> 0 < nj -> (ni + 1) * (nj + 1) < 2 ^ 58 ->
  generate_regular_grid ni nj lon_start lat_start dlon dlat
  = Ok (regular_mesh ni nj (fun i j => (dadd lon_start (dmul (of_int i) dlon), dadd lat_start (dmul (of_int j) dlat)))).
Proof.
  intros Hi Hj Hs. set (node := fun i j : Z => (_, _)). unfold generate_regular_grid, regular_mesh.
  rewrite (to_u64_id (ni + 1)), (to_u64_id (nj + 1)), (to_u64_id ((ni + 1) * _)), (to_u64_id (ni * nj)), (to_u64_id (ni * nj * 4)) by nia.
  set (n := Z.to_nat ((ni + 1) * (nj + 1))). set (c := Z.to_nat (ni * nj)). set (a := Z.to_nat ni). set (b := Z.to_nat nj).
  replace (Z.to_nat (nj + 1)) with (length (replicate (S b) (S a))) by (rewrite length_replicate; lia).
  rewrite (for_each_rings (replicate (S b) (S a)) _ (fun j i coords =>
      let! coords := write2 coords (to_u64 (Z.of_nat i + Z.of_nat j * (ni + 1))) 0 (dadd lon_start (dmul (of_int (Z.of_nat i)) dlon)) in
      write2 coords (to_u64 (Z.of_nat i + Z.of_nat j * (ni + 1))) 1 (dadd lat_start (dmul (of_int (Z.of_nat j)) dlat)))).
  2:{ intros j m v [-> _]%lookup_replicate. by replace (Z.to_nat (ni + 1)) with (S a) by lia. }
  rewrite sum_equal. replace (S b * S a)%nat with n by nia.
  rewrite (coords_filled n (fun k => node (Z.of_nat k mod (ni + 1)) (Z.of_nat k / (ni + 1)))); [|done| |].
  2:{ split; [|done]. unfold view_ok, zeros. cbn [cells extent0 extent1]. rewrite length_replicate. lia. }
  2:{ intros k v Hk _. rewrite ring_of_equal by nia. pose proof (Nat.div_mod_eq k (S a)). pose proof (Nat.mod_upper_bound k (S a) ltac:(lia)).
      assert (Hd : Z.of_nat k / (ni + 1) = Z.of_nat (k / S a)) by (rewrite Nat2Z.inj_div; f_equal; lia).
      assert (Hm : Z.of_nat k mod (ni + 1) = Z.of_nat (k mod S a)) by (rewrite Nat2Z.inj_mod; f_equal; lia).
      rewrite Hd, Hm. unfold put_node, node. cbn [fst snd]. rewrite to_u64_id by nia. by replace (Z.of_nat (k mod S a) + Z.of_nat (k / S a) * (ni + 1)) with (Z.of_nat k) by nia. }
  cbn [bind]. rewrite write_in_bounds by (unfold zero_indices; rewrite length_replicate; lia). cbn [bind].
  replace b with (length (replicate b a)) at 1 by apply length_replicate.
  erewrite (for_each_rings (replicate b a)); [|intros j m v [-> _]%lookup_replicate; reflexivity].
  rewrite sum_equal. replace (b * a)%nat with c by nia.
  rewrite (for_each_pair (seq 0 c) (fun k l => let! o := read l (Z.of_nat k) in write l (Z.of_nat k + 1) (o + 4))
    (fun k => put_cell_quad k (grid_quad a k)) _ _ _ (quad_offsets c) (quad_indices (grid_quad a) c)).
  - done.
  - intros k u v Hk%elem_of_seq. rewrite ring_of_equal by nia. pose proof (Nat.div_mod_eq k a). pose proof (Nat.mod_upper_bound k a ltac:(lia)).
    assert (Hjb : (k / a < b)%nat) by (apply Nat.Div0.div_lt_upper_bound; lia).
    assert (Ek : Z.of_nat (k mod a) + Z.of_nat (k / a) * ni = Z.of_nat k) by nia. rewrite Ek. rewrite !to_u64_id, !to_index_id by nia.
    rewrite bind_assoc. apply bind_ext. intros o. apply bind_ext. intros l. unfold put_cell_quad, grid_quad.
    rewrite (Z.mul_comm _ 4). replace (Z.of_nat a) with ni by lia. f_equal. f_equal; lia.
  - apply offsets_by_steps; [| |done].
    + unfold zero_indices. rewrite length_insert, length_replicate. lia.
    + apply list_lookup_insert_eq. unfold zero_indices. rewrite length_replicate. lia.
  - apply indices_filled; [done|]. unfold zero_indices. rewrite length_replicate. lia.
Qed.
