(* ===== verification/NamedGridProps.v ===== *)
(** * AXIS: named grids are the grids their names promise

    Sizes of the grids of all families, the octahedral mesh in detail, and the dispatch from a
    name to a mesh, projected grids of the table included. *)
From Stdlib Require Import ZArith Lia SpecFloat Ascii Sorted.
From stdpp Require Import base list numbers strings.
From S2P Require Import Prelude CInt CType Blend KokkosArrays AxisMesh StructuredGrid ProjectionBuilder RuleGenerator Magnitude GridNames NamedGrids DoubleOrder.
Local Open Scope Z_scope.

(** ** Numbers of cells *)

Lemma octahedral_strips N : (0 < N)%nat -> strips (octahedral N) =
  ((fun j => 24 + 4 * j)%nat <$> seq 0 (N - 1)) ++ (16 + 4 * N)%nat :: reverse ((fun j => 24 + 4 * j)%nat <$> seq 0 (N - 1)).
Proof.
  intros HN. set (half_ := (fun j => 24 + 4 * j)%nat <$> seq 0 (N - 1)).
  assert (Hl : length half_ = (N - 1)%nat) by (unfold half_; by rewrite length_fmap, length_seq).
  assert (Hh : forall i, (i < N - 1)%nat -> half_ !! i = Some (24 + 4 * i)%nat) by (intros i Hi; unfold half_; by rewrite list_lookup_fmap, lookup_seq_lt).
  apply list_eq. intros j. destruct (decide (j < 2 * N - 1)%nat) as [Hj|Hj].
  - rewrite (strips_lookup _ j _ _ (octahedral_at N j ltac:(lia)) (octahedral_at N (S j) ltac:(lia))).
    destruct (decide (j < N - 1)%nat); [rewrite lookup_app_l, Hh by lia; f_equal; lia|]. rewrite lookup_app_r by lia. rewrite Hl.
    destruct (j - (N - 1))%nat as [|i] eqn:Ei; [transitivity (Some (16 + 4 * N)%nat); [f_equal; lia|done]|]. rewrite lookup_cons_ne_0 by done. cbn [Nat.pred].
    rewrite reverse_lookup, Hh by lia. f_equal. lia.
  - rewrite !lookup_ge_None_2; [done| |]; rewrite ?strips_length, ?octahedral_length, ?length_app; cbn [length]; rewrite ?length_reverse; lia.
Qed.

Lemma octahedral_cells N : (0 < N)%nat -> sum_list (strips (octahedral N)) = (4 * N * (N + 10) - 24)%nat.
Proof.
  intros HN. rewrite octahedral_strips by done.
  assert (Hh : forall n, sum_list ((fun j => 24 + 4 * j)%nat <$> seq 0 n) = (2 * n * (n + 11))%nat).
  { induction n as [|n IH]; [done|]. rewrite seq_S, fmap_app, sum_list_with_app, IH. cbn. lia. }
  rewrite sum_list_with_app. change (sum_list_with id (?x :: ?l)) with (x + sum_list l)%nat. cbn [sum_list_with].
  rewrite sum_list_with_reverse, Hh. unfold id. nia.
Qed.

(** Nodes and cells of the grid of a name. *)
Definition grid_size (p : ParsedName) : nat * nat :=
  let N := Z.to_nat (number p) in
  if Ascii.eqb (family p) "G"%char then
    match List.find (fun g => grid_number g =? number p) NOAA_GRIB_GRIDS with
    | Some g => (Z.to_nat ((grid_ni g + 1) * (grid_nj g + 1)), Z.to_nat (grid_ni g * grid_nj g))
    | None => (0, 0)%nat
    end
  else if Ascii.eqb (family p) "F"%char then (8 * N * N, 4 * N * (2 * N - 1))%nat
  else if Ascii.eqb (family p) "R"%char then (8 * N * N, (4 * N - 1) * (2 * N - 1))%nat
  else (4 * N * (N + 9), 4 * N * (N + 10) - 24)%nat.

Definition table_ok (g : NoaaGribDefinition) : bool :=
  (0 <? grid_ni g) && (0 <? grid_nj g) && (grid_ni g * grid_nj g <=? 2 ^ 29) && match grid_proj g with Some ps => negb (is_empty ps) | None => true end.

Lemma table_in_range : forallb table_ok NOAA_GRIB_GRIDS = true.
Proof. vm_compute. reflexivity. Qed.

Lemma noaa_backed g : 0 < grid_ni g -> 0 < grid_nj g -> grid_ni g * grid_nj g <= 2 ^ 29 -> centers_backed (noaa_buffers g) (grid_ni g) (grid_nj g).
Proof.
  intros Hi Hj Hs. unfold centers_backed, backed, contents, noaa_buffers. cbn. rewrite !firstn_all, !length_fmap, !length_seq. repeat split; lia.
Qed.

Lemma projected_grid_outcome `{!AxisBuild} ps b : is_empty ps = false ->
  projected_grid ps b = Throw runtime_error \/ exists g, projected_grid ps b = Ok g.
Proof.
  intros Hp. unfold projected_grid, projection. destruct axis_proj; [|by left]. rewrite Hp. case_match; [by left|]. right. by eexists.
Qed.

(** ** Dispatch *)

Section Dispatch.
Context `{!ParallelFor, !Libm, !DoubleSort, !AxisBuild}.

(** A run that answers with a mesh of the given size or with an exception of PROJ. *)
Definition sized_mesh (size : nat * nat) (m : UnstructuredMesh) : Prop := mesh_ok m /\ n_nodes m = fst size /\ n_cells m = snd size.

Lemma generate_table p s : number p ∈ grid_number <$> NOAA_GRIB_GRIDS -> family p = "G"%char -> Forall (fun o => o < next s)%nat (live s) ->
  exists r s', generate_noaa_grib_grid (number p) s = (r, s') /\ live s' = live s /\
    (r = Throw runtime_error \/ exists m, r = Ok m /\ sized_mesh (grid_size p) m).
Proof.
  intros Hn Hf Hs. unfold generate_noaa_grib_grid, grid_size. rewrite Hf. cbn [Ascii.eqb]. rewrite !Bool.eqb_reflx.
  destruct (List.find _ NOAA_GRIB_GRIDS) as [g|] eqn:E.
  2:{ exfalso. apply list_elem_of_fmap in Hn as (g & Eg & Hg%list_elem_of_In). pose proof (List.find_none _ _ E g Hg) as Hne. cbn in Hne. lia. }
  apply List.find_some in E as [Hin Hnum]. pose proof (proj1 (forallb_forall _ _) table_in_range g Hin) as Ht. unfold table_ok in Ht.
  destruct (grid_proj g) as [ps|]; bsimpl.
  - destruct axis_proj as [proj|] eqn:Ep; [|exists (Throw runtime_error), s; split; [done|]; split; [done|by left]].
    destruct (projected_mesh_spec ps (noaa_buffers g) s) as (s' & E & Hl & _); [apply noaa_backed; lia|cbn; lia|done|].
    eexists _, s'. split; [exact E|]. split; [done|]. destruct (projected_grid_outcome ps (noaa_buffers g)) as [->|(grid & Eg)]; [apply Ht|by left|].
    rewrite Eg. right. exists (grid_mesh grid). split; [done|]. destruct (projected_grid_ok _ _ _ (noaa_backed g ltac:(lia) ltac:(lia) ltac:(lia)) Eg) as (Hg & Hi & Hj).
    cbn in Hi, Hj. destruct (grid_mesh_ok grid Hg) as (M & Nc & _). split; [done|]. cbn [fst snd]. rewrite Nc, <- Hi, <- Hj. done.
  - eexists _, s. split; [reflexivity|]. split; [done|]. right. rewrite regular_grid_spec by (lia || nia). eexists. split; [done|].
    destruct (regular_mesh_ok (grid_ni g) (grid_nj g) (fun i j => (dadd (lon_start g) (dmul (of_int i) (grid_dlon g)), dadd (lat_start g) (dmul (of_int j) (grid_dlat g)))))
      as (M & Nc & Nn & _); [lia..|]. by split.
Qed.

Lemma octahedral_sized N : 0 < N < 2 ^ 22 -> forallb is_number (raw_latitudes (Z.to_nat (2 * N))) = true ->
  exists m, generate_octahedral_gaussian N = Ok m /\ let n := Z.to_nat N in sized_mesh (4 * n * (n + 9), 4 * n * (n + 10) - 24)%nat m.
Proof.
  intros Hn Hnum. eexists. split; [by apply octahedral_mesh_eval|]. cbn zeta.
  destruct (circle_mesh_ok (octahedral (Z.to_nat N)) (named_latitudes (Z.to_nat (2 * N))) (sum_list (strips (octahedral (Z.to_nat N)))) (octahedral_quad (octahedral (Z.to_nat N))))
    as (M & Nc & Nn & _); [intros c Hc; apply octahedral_quad_range; [by apply octahedral_circles|done]|].
  split; [done|]. cbn [fst snd]. by rewrite Nc, Nn, octahedral_total, octahedral_cells by lia.
Qed.

Lemma regular_gaussian_sized N : 0 < N < 2 ^ 22 -> forallb is_number (raw_latitudes (Z.to_nat (2 * N))) = true ->
  exists m, generate_regular_gaussian N = Ok m /\ let n := Z.to_nat N in sized_mesh (8 * n * n, 4 * n * (2 * n - 1))%nat m.
Proof.
  intros Hn Hnum. eexists. split; [apply regular_gaussian_eval; [lia|done]|]. set (lat := Z.to_nat (2 * N)). set (lon := Z.to_nat (4 * N)).
  destruct (circle_mesh_ok (replicate lat lon) (named_latitudes lat) ((lat - 1) * lon) (full_quad lon)) as (M & Nc & Nn & _); [by apply full_quad_range|].
  split; [done|]. cbn [fst snd]. rewrite Nc, Nn, sum_equal. split; nia.
Qed.

Lemma regular_family_sized N : 0 < N < 2 ^ 22 ->
  exists m, generate_regular_family N = Ok m /\ let n := Z.to_nat N in sized_mesh (8 * n * n, (4 * n - 1) * (2 * n - 1))%nat m.
Proof.
  intros Hn. unfold generate_regular_family. rewrite !arith_ok by (cbn [imin imax]; lia). cbn [bind]. rewrite !arith_ok by (cbn [imin imax]; lia). cbn [bind].
  rewrite (to_u64_id (4 * N - 1)), (to_u64_id (2 * N - 1)) by lia.
  rewrite regular_grid_spec by (lia || nia). eexists. split; [done|].
  match goal with |- context [regular_mesh ?a ?b ?f] => destruct (regular_mesh_ok a b f) as (M & Nc & Nn & _); [lia..|] end.
  split; [done|]. cbn [fst snd]. rewrite Nc, Nn. split; nia.
Qed.
End Dispatch.

(** * Properties *)

Section Properties.
Context `{!ParallelFor, !Libm, !DoubleSort, !AxisBuild}.

Lemma numbers_forall l : forallb is_number l = true -> Forall (fun x => is_number x = true) l.
Proof. intros Hf. apply list.Forall_forall. intros x Hx%list_elem_of_In. by apply (proj1 (forallb_forall _ _) Hf). Qed.

Lemma strip_edge sizes j c a b : circles_ok sizes -> sizes !! j = Some a -> sizes !! S j = Some b -> (c < Nat.max a b)%nat ->
  exists tl tr br bl tr' br', strip_quad sizes j c = Z.of_nat <$> [tl; tr; br; bl] /\
    strip_quad sizes j ((c + 1) mod Nat.max a b) = Z.of_nat <$> [tr; tr'; br'; br] /\
    (forall v, v ∈ [tl; tr] -> ring_start sizes j <= v < ring_start sizes (S j))%nat /\
    (forall v, v ∈ [br; bl] -> ring_start sizes (S j) <= v < ring_start sizes (S (S j)))%nat.
Proof.
  intros Hok Ha Hb Hc. pose proof Hok as [Hs _]. destruct (Hs _ _ Ha) as [Pa Ba]. destruct (Hs _ _ Hb) as [Pb Bb].
  destruct (strip_quad_spec sizes j c a b Hok Ha Hb Hc) as (tl & tr & br & bl & E & -> & -> & -> & -> & B).
  set (c' := ((c + 1) mod Nat.max a b)%nat). assert (Hc' : (c' < Nat.max a b)%nat) by (apply Nat.mod_upper_bound; lia).
  destruct (strip_quad_spec sizes j c' a b Hok Ha Hb Hc') as (tl' & tr' & br' & bl' & E' & Etl & _ & _ & Ebl & _).
  assert (Hnext : ring_point c' (Nat.max a b) a = ring_point (c + 1) (Nat.max a b) a /\ ring_point c' (Nat.max a b) b = ring_point (c + 1) (Nat.max a b) b).
  { unfold c'. destruct (decide (c + 1 = Nat.max a b)%nat) as [Eq|Hne].
    - rewrite Eq, Nat.Div0.mod_same, !ring_point_first, !ring_point_last by lia. done.
    - by rewrite Nat.mod_small by lia. }
  destruct Hnext as [N1 N2]. rewrite N1 in Etl. rewrite N2 in Ebl. subst tl' bl'.
  do 6 eexists. split; [exact E|]. split; [exact E'|]. rewrite (ring_start_S _ _ _ Hb), (ring_start_S _ _ _ Ha).
  rewrite (ring_start_S _ _ _ Ha) in B. split; intros v; rewrite !elem_of_cons, elem_of_nil; intros [->|[->|[]]]; lia.
Qed.

(** The octahedral grid has [4 N (N + 9)] nodes on [2 N] circles from north to south,
    [20 + 4 j] of them evenly spaced on circle [j] from a pole, and [4 N (N + 10) - 24] cells:
    each joins two nodes of a circle to two of the next, and next to each other in the strip
    between two circles they share a side, the last with the first. *)
Theorem octahedral_correct (N : Z) : 0 < N < 2 ^ 22 -> forallb is_number (raw_latitudes (Z.to_nat (2 * N))) = true ->
  let n := Z.to_nat N in
  let sizes := octahedral n in
  exists m lats, generate_octahedral_gaussian N = Ok m /\ mesh_ok m /\
    n_nodes m = (4 * n * (n + 9))%nat /\ n_cells m = (4 * n * (n + 10) - 24)%nat /\
    lats ≡ₚ raw_latitudes (Z.to_nat (2 * N)) /\ Sorted (fun a b => SFltb a b = false) lats /\
    (forall j i s, sizes !! j = Some s -> (i < s)%nat -> let k := Z.of_nat (ring_start sizes j + i) in
      (coord (node_coords m) k 0, coord (node_coords m) k 1) = (dmul (of_int (Z.of_nat i)) (ddiv c360 (of_int (Z.of_nat s))), lats !!! j)) /\
    (forall j c a b, sizes !! j = Some a -> sizes !! S j = Some b -> (c < Nat.max a b)%nat ->
      let cell c := cell_nodes m (ring_start (strips sizes) j + c) in
      exists tl tr br bl tr' br', cell c = Z.of_nat <$> [tl; tr; br; bl] /\ cell ((c + 1) mod Nat.max a b)%nat = Z.of_nat <$> [tr; tr'; br'; br] /\
        (forall v, v ∈ [tl; tr] -> ring_start sizes j <= v < ring_start sizes (S j))%nat /\
        (forall v, v ∈ [br; bl] -> ring_start sizes (S j) <= v < ring_start sizes (S (S j)))%nat).
Proof.
  intros Hn Hnum n sizes. pose proof (octahedral_circles N Hn) as Hok. fold n sizes in Hok. set (lats := named_latitudes (Z.to_nat (2 * N))).
  exists (circle_mesh sizes lats (sum_list (strips sizes)) (octahedral_quad sizes)), lats.
  destruct (circle_mesh_ok sizes lats (sum_list (strips sizes)) (octahedral_quad sizes)) as (M & Nc & Nn & Q & D); [intros c Hc; by apply octahedral_quad_range|].
  split; [by apply octahedral_mesh_eval|]. split; [done|]. split; [by rewrite Nn, <- octahedral_total|]. split; [by rewrite Nc, <- octahedral_cells by lia|].
  split; [apply sort_descending_perm|]. split; [by apply sort_descending_sorted, numbers_forall|]. split; [exact D|].
  intros j c a b Ha Hb Hc cell. assert (Hat : forall c, (c < Nat.max a b)%nat -> cell c = strip_quad sizes j c).
  { intros c' Hc'. unfold cell. rewrite Q, (octahedral_quad_at _ _ _ a b) by (done || (apply (ring_start_bound _ _ (Nat.max a b)); [by apply strips_lookup|done])). done. }
  rewrite !Hat by (done || (apply Nat.mod_upper_bound; lia)). by apply strip_edge.
Qed.

(** What a name promises: the size of its mesh, unless PROJ is missing or fails. *)
Definition kept_promise (p : ParsedName) (r : result UnstructuredMesh) : Prop :=
  (r = Throw runtime_error /\ family p = "G"%char) \/ exists m, r = Ok m /\ sized_mesh (grid_size p) m.

(** Generation by name: a text that names no grid is refused and nothing else happens; a
    name gives a well-formed mesh with the numbers of nodes and cells of its family, or, for a
    projected grid of the table, the exception for a build without PROJ or its failure; the
    objects of PROJ are gone afterwards. *)
Theorem generate_correct (name : string) (s : pj_state) : Forall (fun o => o < next s)%nat (live s) ->
  (forall p, names name p -> family p = "G"%char \/ number p < 2 ^ 22 /\ forallb is_number (raw_latitudes (Z.to_nat (2 * number p))) = true) ->
  ((forall p, ~ names name p) -> generate name s = (Throw invalid_argument, s)) /\
  (forall p, names name p -> exists r s', generate name s = (r, s') /\ live s' = live s /\ kept_promise p r).
Proof.
  intros Hs Hb. unfold generate. destruct (parse_names name) as [(p & E & Hp)|[E Hp]]; rewrite E.
  2:{ split; [done|]. intros p Hq. by destruct (Hp p). }
  split; [intros Hno; destruct (Hno p); by apply Hp|]. intros q Hq. pose proof Hq as Hq'. apply Hp in Hq' as ->. rewrite bind_lift.
  pose proof (names_positive _ _ Hq) as Hpos. specialize (Hb p Hq). inversion Hq as [c digits n Hf Hd Ec|pre digits n Hpre Hd Hg Ec]; subst p; cbn [family number] in *.
  - set (f := to_upper c) in *. clearbody f.
    assert (HG : f <> "G"%char) by (intros ->; revert Hf; clear; rewrite !elem_of_cons, elem_of_nil; intuition discriminate).
    destruct Hb as [Hb|[Hlim Hnum]]; [done|]. assert (Hn : 0 < n < 2 ^ 22) by lia.
    unfold kept_promise, grid_size. cbn [family number].
    rewrite !elem_of_cons, elem_of_nil in Hf. destruct Hf as [->|[->|[->|[->|[]]]]]; cbn; unfold pj_lift.
    + destruct (octahedral_sized n Hn Hnum) as (m & -> & Hm). eexists _, s. split; [done|]. split; [done|]. right. by exists m.
    + destruct (regular_gaussian_sized n Hn Hnum) as (m & -> & Hm). eexists _, s. split; [done|]. split; [done|]. right. by exists m.
    + destruct (octahedral_sized n Hn Hnum) as (m & -> & Hm). eexists _, s. split; [done|]. split; [done|]. right. by exists m.
    + destruct (regular_family_sized n Hn) as (m & -> & Hm). eexists _, s. split; [done|]. split; [done|]. right. by exists m.
  - destruct (generate_table (mkParsed "G"%char n) s Hg eq_refl Hs) as (r & s' & Er & Hl & Ho). exists r, s'. split; [exact Er|]. split; [done|].
    destruct Ho as [->|Ho]; [by left|by right].
Qed.
End Properties.

(** * Examples *)

(** Insertion sort, from the largest. *)
Fixpoint insert_descending (x : double) (l : list double) : list double :=
  match l with
  | [] => [x]
  | y :: r => if SFltb x y then y :: insert_descending x r else x :: l
  end.

Definition insertion_sort (l : list double) : list double := foldr insert_descending [] l.

Lemma insert_descending_perm x l : insert_descending x l ≡ₚ x :: l.
Proof. induction l as [|y l IH]; [done|]. cbn. destruct (SFltb x y); [|done]. rewrite IH. apply Permutation_swap. Qed.

#[local] Instance insertion : DoubleSort.
Proof.
  refine {| sort_descending := insertion_sort |}.
  - intros l. induction l as [|x l IH]; [done|]. cbn. by rewrite insert_descending_perm, IH.
  - intros l _. induction l as [|x l IH]; [constructor|]. cbn. fold (insertion_sort l). induction IH as [|y l' Hs IHs Hy]; [by repeat constructor|]. cbn.
    destruct (SFltb x y) eqn:E; [|constructor; [by constructor|by constructor]]. constructor; [exact IHs|].
    destruct l' as [|z l']; cbn; [constructor; by apply SFltb_asym|]. destruct (SFltb x z); constructor; [by inversion Hy|by apply SFltb_asym].
Defined.

#[local] Instance in_order : ParallelFor.
Proof. refine {| range_order n := seq 0 n |}. done. Defined.

(** Functions of the right shape. *)
#[local] Instance rough_libm : Libm :=
  {| m_cos x := dsub one (dmul half (dmul x x)); m_sin x := x; m_asin x := x; m_atan2 y x := ddiv y x |}.

#[local] Instance without_proj : AxisBuild := Build_AxisBuild None.

Lemma octahedral_correct_witness : exists m, generate_octahedral_gaussian 1 = Ok m /\ n_nodes m = 40%nat /\ n_cells m = 20%nat.
Proof.
  assert (Hnum : forallb is_number (raw_latitudes (Z.to_nat (2 * 1))) = true) by (vm_compute; reflexivity).
  destruct (octahedral_correct 1 ltac:(lia) Hnum) as (m & lats & E & _ & Hn & Hc & _). exists m. split; [exact E|]. by split.
Defined.

Lemma numbers_2 : forallb is_number (raw_latitudes (Z.to_nat (2 * 2))) = true.
Proof. vm_compute. reflexivity. Qed.

Lemma generate_correct_witness : (exists m, generate "f2" (mkPj [] 0) = (Ok m, mkPj [] 0) /\ n_nodes m = 32%nat) /\
  generate "O-3" (mkPj [] 0) = (Throw invalid_argument, mkPj [] 0).
Proof.
  assert (Hp : forall name q, names name q <-> parse name = Ok q).
  { intros name q. destruct (parse_names name) as [(q' & E & Hq)|[E Hq]]; rewrite E; [rewrite Hq; split; [by intros ->|by intros [= ->]]|].
    by split; [intros Hn; destruct (Hq q Hn)|]. }
  split.
  - destruct (generate_correct "f2" (mkPj [] 0) (Forall_nil_2 _)) as [_ Hk].
    { intros p Hn%Hp. assert (p = mkParsed "F"%char 2) as -> by (vm_compute in Hn; by injection Hn as <-). right. split; [cbn; lia|]. exact numbers_2. }
    destruct (Hk (mkParsed "F"%char 2)) as (r & s' & E & Hl & Ho); [by apply Hp|]. destruct Ho as [[_ Ho]|(m & -> & _ & Hn & _)]; [done|].
    exists m. assert (s' = mkPj [] 0) as -> by (change s' with (snd (Ok m, s')); rewrite <- E; reflexivity). by split.
  - apply (generate_correct "O-3" (mkPj [] 0) (Forall_nil_2 _)); intros p Hn; apply Hp in Hn; discriminate Hn.
Defined.

(** A name that is registered and whose generation has no meaning: twice the number is no [int]. *)
Example registered_overflow : is_registered "O1073741824" = true /\ fst (generate "O1073741824" (mkPj [] 0)) = Undef.
Proof. by vm_compute. Qed.

(** One in 196 is rounded down so that 196 times as much is less than one: on circles of 196
    points, which the octahedral grids from [O45] on have, place 1 is point 0, the cell before
    it has two equal corners there, and 14 points are at no place. *)
Example circle_of_196 :
  bool_decide (196%nat ∈ octahedral 45) = true /\ ring_point 0 196 196 = ring_point 1 196 196 /\
  (let places := (fun c => ring_point c 196 196) <$> seq 0 197 in filter (fun k => k ∉ places) (seq 0 196)) = [2; 4; 8; 16; 27; 32; 55; 64; 99; 101; 108; 110; 119; 128]%nat.
Proof. by vm_compute. Qed.

(** The northern nodes of the one-degree grid lie at 91 degrees. *)
Example grid3_beyond_the_pole : List.find (fun g => grid_number g =? 3) NOAA_GRIB_GRIDS = Some (mkNoaa 3 360 181 (of_int (-180)) (of_int (-90)) (of_int 1) (of_int 1) None) /\
  SFltb (of_int 90) (snd ((fun i j => (dadd (of_int (-180)) (dmul (of_int i) (of_int 1)), dadd (of_int (-90)) (dmul (of_int j) (of_int 1)))) 0 181)) = true.
Proof. by vm_compute. Qed.
