(* ===== verification/MeshFactory.v ===== *)
(** * AXIS: the mesh factory
    (src/libs/axis/src/topology/mesh_factory.cpp, include/axis/ingest/grid_descriptor.hpp)

    The one entry for grids from every source: a descriptor is validated for its convention and
    handed to the builder of the convention.  Fields of a descriptor that the factory does not
    look at are left out.  An [enum class] may hold a value that names none of its constants:
    [None]. *)
From Stdlib Require Import ZArith Lia SpecFloat.
From stdpp Require Import base list numbers strings.
From S2P Require Import Prelude CInt Blend KokkosArrays AxisMesh StructuredGrid ProjectionBuilder RuleGenerator GridNames NamedGrids NamedGridProps.
Local Open Scope Z_scope.

Record GridDescriptor : Type := mkDescriptor {
  kind : option ConventionKind;
  coord_system : option CoordinateSystem;
  grib : GribParams;
  projected : string;
  named_grid : string;
  grid_rules : GridRulesParams;
  buffers : BufferViews
}.

(** ** Validation *)

Definition null_or_empty {A} (v : field_view A) : bool :=
  match handle v with None => true | Some _ => (extent v =? 0)%nat end.

Definition null_or_empty2 (v : field_view2) : bool :=
  match handle2 v with None => true | Some _ => (extent_0 v =? 0)%nat end.

(** The checks of the two arrays of centers, the same for all structured conventions. *)
Definition validate_centers (b : BufferViews) (expected : Z) : result unit :=
  do! throw_if (null_or_empty (center_x b)) invalid_argument then
  do! throw_if (null_or_empty (center_y b)) invalid_argument then
  do! throw_if (negb (Z.of_nat (extent (center_x b)) =? expected)) invalid_argument then
  throw_if (negb (Z.of_nat (extent (center_y b)) =? expected)) invalid_argument.

Definition validate_cf (desc : GridDescriptor) : result unit :=
  let b := buffers desc in
  do! throw_if (buf_ni b =? 0) invalid_argument then
  do! throw_if (buf_nj b =? 0) invalid_argument then
  validate_centers b (to_u64 (buf_ni b * buf_nj b)).

Definition validate_ugrid (desc : GridDescriptor) : result unit :=
  let b := buffers desc in
  do! throw_if (null_or_empty2 (buf_node_coords b)) invalid_argument then
  do! throw_if (null_or_empty (buf_conn_offsets b)) invalid_argument then
  do! throw_if (null_or_empty (buf_conn_indices b)) invalid_argument then
  throw_if (extent_1 (buf_node_coords b) <? 2)%nat invalid_argument.

Definition validate_grib (desc : GridDescriptor) : result unit :=
  let g := grib desc in
  let b := buffers desc in
  do! throw_if (is_empty (grid_type g)) invalid_argument then
  do! throw_if (grib_ni g <=? 0) invalid_argument then
  do! throw_if (grib_nj g <=? 0) invalid_argument then
  validate_centers b (to_u64 (to_u64 (grib_ni g) * to_u64 (grib_nj g))).

Definition validate_projected (desc : GridDescriptor) : result unit :=
  let b := buffers desc in
  do! throw_if (is_empty (projected desc)) invalid_argument then
  do! throw_if (buf_ni b =? 0) invalid_argument then
  do! throw_if (buf_nj b =? 0) invalid_argument then
  validate_centers b (to_u64 (buf_ni b * buf_nj b)).

Definition validate_named_grid (desc : GridDescriptor) : result unit := throw_if (is_empty (named_grid desc)) invalid_argument.

Definition validate_grid_rules (desc : GridDescriptor) : result unit := throw_if (is_empty (rule_kind (grid_rules desc))) invalid_argument.

(** ** Copies *)

(** [Kokkos::deep_copy] from an unmanaged view of the buffer. *)
Definition copy_buffer_1d {A} (src : field_view A) : result (list A) :=
  match handle src with
  | Some l => if (extent src <=? length l)%nat then Ok (take (extent src) l) else Undef
  | None => if (extent src =? 0)%nat then Ok [] else Undef
  end.

Definition copy_buffer_2d (src : field_view2) : result View2 :=
  let n := (extent_0 src * extent_1 src)%nat in
  match handle2 src with
  | Some l => if (n <=? length l)%nat then Ok (mkView2 (extent_0 src) (extent_1 src) (take n l)) else Undef
  | None => if (n =? 0)%nat then Ok (mkView2 (extent_0 src) (extent_1 src) []) else Undef
  end.

Definition map_coord_system (cs : option CoordinateSystem) : CoordinateSystem :=
  match cs with
  | Some SphericalDeg => SphericalDeg
  | Some SphericalRad => SphericalRad
  | Some Cartesian3D => Cartesian3D
  | None => SphericalDeg
  end.

(** ** Builders *)

Section Builders.
Context `{!ParallelFor, !Libm, !DoubleSort, !AxisBuild}.

(** The two structured conventions differ in where the extents come from. *)
Definition build_structured (ni nj : Z) (desc : GridDescriptor) : result UnstructuredMesh :=
  let b := buffers desc in
  let! center_lon := copy_buffer_1d (center_x b) in
  let! center_lat := copy_buffer_1d (center_y b) in
  let! grid := new_structured_grid ni nj center_lon center_lat (map_coord_system (coord_system desc)) in
  let! grid := if negb (null_or_empty (corner_x b)) && negb (null_or_empty (corner_y b)) then
      let! corner_lon := copy_buffer_1d (corner_x b) in
      let! corner_lat := copy_buffer_1d (corner_y b) in
      set_corners grid corner_lon corner_lat
    else Ok grid in
  let! '(m, _) := to_unstructured grid in
  Ok m.

Definition build_from_cf (desc : GridDescriptor) : result UnstructuredMesh :=
  build_structured (buf_ni (buffers desc)) (buf_nj (buffers desc)) desc.

Definition build_from_grib (desc : GridDescriptor) : result UnstructuredMesh :=
  build_structured (to_u64 (grib_ni (grib desc))) (to_u64 (grib_nj (grib desc))) desc.

Definition build_from_ugrid (desc : GridDescriptor) : result UnstructuredMesh :=
  let b := buffers desc in
  let! coords := copy_buffer_2d (buf_node_coords b) in
  let! offsets := copy_buffer_1d (buf_conn_offsets b) in
  let! indices := copy_buffer_1d (buf_conn_indices b) in
  let! areas := if negb (null_or_empty (buf_cell_areas b)) then copy_buffer_1d (buf_cell_areas b) else Ok [] in
  let! mask := if negb (null_or_empty (buf_cell_mask b)) then copy_buffer_1d (buf_cell_mask b) else Ok [] in
  Ok (mkMesh coords offsets indices (map_coord_system (coord_system desc)) areas mask).

Definition build_from_projected (desc : GridDescriptor) : PJ UnstructuredMesh :=
  let* grid := build_projected (projected desc) (buffers desc) in
  pj_lift (let! '(m, _) := to_unstructured grid in Ok m).

(** ** The factory *)

Definition from_named (name : string) : PJ UnstructuredMesh := NamedGrids.generate name.
Definition from_rules (params : GridRulesParams) : PJ UnstructuredMesh := RuleGenerator.generate params.

Definition from_descriptor (descriptor : GridDescriptor) : PJ UnstructuredMesh :=
  match kind descriptor with
  | Some CF => do* pj_lift (validate_cf descriptor) then pj_lift (build_from_cf descriptor)
  | Some UGRID => do* pj_lift (validate_ugrid descriptor) then pj_lift (build_from_ugrid descriptor)
  | Some GRIB => do* pj_lift (validate_grib descriptor) then pj_lift (build_from_grib descriptor)
  | Some Projected => do* pj_lift (validate_projected descriptor) then build_from_projected descriptor
  | Some NamedGrid => do* pj_lift (validate_named_grid descriptor) then from_named (named_grid descriptor)
  | Some GridRules => do* pj_lift (validate_grid_rules descriptor) then from_rules (grid_rules descriptor)
  | None => pj_throw invalid_argument
  end.
End Builders.

(** * Specification *)

Definition given {A} (v : field_view A) : bool := negb (null_or_empty v).

(** Structured descriptors that are accepted: extents, centers for every cell, and corners, if
    both arrays are given, for every node. *)
Definition centers_fit (b : BufferViews) (ni nj : Z) : Prop :=
  given (center_x b) = true /\ given (center_y b) = true /\ Z.of_nat (extent (center_x b)) = ni * nj /\ Z.of_nat (extent (center_y b)) = ni * nj.

Definition corners_fit (b : BufferViews) (ni nj : Z) : Prop :=
  given (corner_x b) = true -> given (corner_y b) = true ->
  Z.of_nat (extent (corner_x b)) = (ni + 1) * (nj + 1) /\ Z.of_nat (extent (corner_y b)) = (ni + 1) * (nj + 1).

(** The extents a structured descriptor is about. *)
Definition grid_extents (d : GridDescriptor) : Z * Z :=
  match kind d with Some GRIB => (grib_ni (grib d), grib_nj (grib d)) | _ => (buf_ni (buffers d), buf_nj (buffers d)) end.

Definition acceptable (d : GridDescriptor) : Prop :=
  let b := buffers d in
  let '(ni, nj) := grid_extents d in
  match kind d with
  | Some CF => 0 < ni /\ 0 < nj /\ centers_fit b ni nj /\ corners_fit b ni nj
  | Some GRIB => is_empty (grid_type (grib d)) = false /\ 0 < ni /\ 0 < nj /\ centers_fit b ni nj /\ corners_fit b ni nj
  | Some UGRID => null_or_empty2 (buf_node_coords b) = false /\ given (buf_conn_offsets b) = true /\ given (buf_conn_indices b) = true /\
      (2 <= extent_1 (buf_node_coords b))%nat
  | Some Projected => is_empty (projected d) = false /\ 0 < ni /\ 0 < nj /\ centers_fit b ni nj
  | Some NamedGrid => exists p, names (named_grid d) p
  | _ => False
  end.

(** Every view that is given covers an array. *)
Definition covered {A} (v : field_view A) : Prop := given v = true -> backed v.

Definition buffers_covered (b : BufferViews) : Prop :=
  covered (center_x b) /\ covered (center_y b) /\ covered (corner_x b) /\ covered (corner_y b) /\
  covered (buf_conn_offsets b) /\ covered (buf_conn_indices b) /\ covered (buf_cell_areas b) /\ covered (buf_cell_mask b) /\
  forall l, handle2 (buf_node_coords b) = Some l -> (extent_0 (buf_node_coords b) * extent_1 (buf_node_coords b) <= length l)%nat.

(** The grid of a structured descriptor. *)
Definition described_grid (d : GridDescriptor) : StructuredGrid :=
  let b := buffers d in
  let '(ni, nj) := grid_extents d in
  let corners := given (corner_x b) && given (corner_y b) in
  mkGrid ni nj (contents (center_x b)) (contents (center_y b))
    (if corners then contents (corner_x b) else []) (if corners then contents (corner_y b) else []) (map_coord_system (coord_system d)).

(** The mesh of an unstructured descriptor: its buffers. *)
Definition described_mesh (d : GridDescriptor) : UnstructuredMesh :=
  let b := buffers d in
  let c := buf_node_coords b in
  mkMesh (mkView2 (extent_0 c) (extent_1 c) (take (extent_0 c * extent_1 c) (default [] (handle2 c))))
    (contents (buf_conn_offsets b)) (contents (buf_conn_indices b)) (map_coord_system (coord_system d))
    (if given (buf_cell_areas b) then contents (buf_cell_areas b) else []) (if given (buf_cell_mask b) then contents (buf_cell_mask b) else []).

(** * Lemmas *)

Lemma copy_covered {A} (v : field_view A) : covered v -> given v = true -> copy_buffer_1d v = Ok (contents v) /\ length (contents v) = extent v.
Proof.
  intros Hc Hg. pose proof (Hc Hg) as Hb. split; [|done]. unfold given, null_or_empty, backed, contents, copy_buffer_1d in *.
  destruct (handle v) as [l|]; [|done]. rewrite length_take in Hb. by rewrite (proj2 (Nat.leb_le _ _)) by lia.
Qed.

Lemma centers_checked b ni nj : 0 < ni -> 0 < nj ->
  (validate_centers b (ni * nj) = Ok tt /\ centers_fit b ni nj) \/ (validate_centers b (ni * nj) = Throw invalid_argument /\ ~ centers_fit b ni nj).
Proof.
  intros Hi Hj. unfold validate_centers, centers_fit, given. destruct (null_or_empty (center_x b)); [right; split; [done|by intros []]|].
  destruct (null_or_empty (center_y b)); [right; split; [done|by intros (_ & ? & _)]|]. cbn [throw_if bind negb].
  destruct (Z.eqb_spec (Z.of_nat (extent (center_x b))) (ni * nj)); [|right; split; [done|by intros (_ & _ & ? & _)]].
  destruct (Z.eqb_spec (Z.of_nat (extent (center_y b))) (ni * nj)); [by left|right; split; [done|by intros (_ & _ & _ & ?)]].
Qed.

Lemma has_extent_spec l n : has_extent l n = true <-> Z.of_nat (length l) = n.
Proof. apply Z.eqb_eq. Qed.

Section Structured.
Context `{!ParallelFor, !Libm, !DoubleSort, !AxisBuild}.

Lemma described_ok d ni nj : grid_extents d = (ni, nj) -> 0 < ni -> 0 < nj -> buffers_covered (buffers d) -> centers_fit (buffers d) ni nj ->
  corners_fit (buffers d) ni nj -> grid_ok (described_grid d).
Proof.
  intros Ee Hi Hj (Cx & Cy & Kx & Ky & _) (Gx & Gy & Ex & Ey) Hk. unfold described_grid. rewrite Ee. unfold grid_ok, centers_ok. cbn.
  destruct (copy_covered _ Cx Gx) as [_ Lx]. destruct (copy_covered _ Cy Gy) as [_ Ly]. rewrite Lx, Ly. split; [lia|]. split; [done|].
  destruct (given (corner_x _)) eqn:G1; cbn [andb]; [|by left]. destruct (given (corner_y _)) eqn:G2; [|by left]. right.
  destruct (copy_covered _ Kx G1) as [_ ->]. destruct (copy_covered _ Ky G2) as [_ ->]. by apply Hk.
Qed.

Lemma built_structured d ni nj : grid_extents d = (ni, nj) -> 0 < ni -> 0 < nj -> ni * nj <= 2 ^ 29 ->
  buffers_covered (buffers d) -> centers_fit (buffers d) ni nj ->
  (corners_fit (buffers d) ni nj -> build_structured ni nj d = Ok (grid_mesh (described_grid d))) /\
  (~ corners_fit (buffers d) ni nj -> build_structured ni nj d = Throw invalid_argument).
Proof.
  intros Ee Hi Hj Hs Hcov Hfit. pose proof Hcov as (Cx & Cy & Kx & Ky & _). pose proof Hfit as (Gx & Gy & Ex & Ey).
  destruct (copy_covered _ Cx Gx) as [Rx Lx]. destruct (copy_covered _ Cy Gy) as [Ry Ly]. destruct (node_count_bound _ _ Hi Hj Hs) as (Hn & _).
  assert (Hfin : forall g, corners_fit (buffers d) ni nj -> g = described_grid d -> (let! '(m, _) := to_unstructured g in Ok m) = Ok (grid_mesh (described_grid d))).
  { intros g Hk ->. rewrite to_unstructured_eval; [done|by apply (described_ok d ni nj)|]. unfold described_grid. rewrite Ee. done. }
  unfold build_structured. rewrite Rx, Ry. cbn [bind]. rewrite new_grid_ok by lia. cbn [bind]. fold (given (corner_x (buffers d))) (given (corner_y (buffers d))).
  destruct (given (corner_x (buffers d))) eqn:G1; [destruct (given (corner_y (buffers d))) eqn:G2|]; cbn [andb].
  - destruct (copy_covered _ Kx G1) as [R1 L1]. destruct (copy_covered _ Ky G2) as [R2 L2]. rewrite R1, R2. cbn [bind].
    unfold set_corners. cbn [StructuredGrid.ni StructuredGrid.nj]. rewrite to_u64_id by lia.
    pose proof (has_extent_spec (contents (corner_x (buffers d))) ((ni + 1) * (nj + 1))) as Q1.
    pose proof (has_extent_spec (contents (corner_y (buffers d))) ((ni + 1) * (nj + 1))) as Q2. rewrite L1 in Q1. rewrite L2 in Q2.
    split.
    + intros Hk. destruct (Hk G1 G2) as [K1 K2]. rewrite (proj2 Q1 K1), (proj2 Q2 K2). cbn [negb throw_if bind]. apply Hfin; [done|].
      unfold described_grid, with_corners. rewrite Ee, G1, G2. done.
    + intros Hk. destruct (has_extent (contents (corner_x _)) _); [|done]. destruct (has_extent (contents (corner_y _)) _); [|done].
      destruct Hk. intros _ _. split; [by apply Q1|by apply Q2].
  - split; [|by intros Hk; destruct Hk; intros _ ?; congruence]. intros Hk. cbn [bind]. apply Hfin; [done|]. unfold described_grid. by rewrite Ee, G1, G2.
  - split; [|by intros Hk; destruct Hk; intros ?; congruence]. intros Hk. cbn [bind]. apply Hfin; [done|]. unfold described_grid. by rewrite Ee, G1.
Qed.
End Structured.

(** * Properties *)

Section Properties.
Context `{!ParallelFor, !Libm, !DoubleSort, !AxisBuild}.

(** Sizes are not negative, and a structured grid is small enough for the kernels. *)
Definition sizes_in_range (d : GridDescriptor) : Prop :=
  let '(ni, nj) := grid_extents d in
  0 <= buf_ni (buffers d) /\ 0 <= buf_nj (buffers d) /\
  (kind d ∈ [Some CF; Some GRIB; Some Projected] -> ni * nj <= 2 ^ 29).

Lemma pj_throwing {B} (k : unit -> PJ B) e s : pj_bind (pj_lift (Throw e)) k s = (Throw e, s).
Proof. reflexivity. Qed.

Lemma throw_if_run {B} (b : bool) e (k : unit -> PJ B) s : pj_bind (pj_lift (throw_if b e)) k s = if b then (Throw e, s) else k tt s.
Proof. by destruct b. Qed.

(** A validated structured descriptor. *)
Lemma structured_run d ni nj (v : result unit) s : grid_extents d = (ni, nj) -> 0 < ni -> 0 < nj -> ni * nj <= 2 ^ 29 -> buffers_covered (buffers d) ->
  v = validate_centers (buffers d) (ni * nj) ->
  let run := pj_bind (pj_lift v) (fun _ => pj_lift (build_structured ni nj d)) s in
  (centers_fit (buffers d) ni nj /\ corners_fit (buffers d) ni nj -> run = (Ok (grid_mesh (described_grid d)), s) /\ grid_ok (described_grid d)) /\
  (~ (centers_fit (buffers d) ni nj /\ corners_fit (buffers d) ni nj) -> run = (Throw invalid_argument, s)).
Proof.
  intros Ee Hi Hj Hs Hc -> run. unfold run. destruct (centers_checked (buffers d) ni nj Hi Hj) as [[E Hfit]|[E Hfit]]; rewrite E.
  - destruct (built_structured d ni nj Ee Hi Hj Hs Hc Hfit) as [B1 B2]. unfold pj_bind, pj_lift. split.
    + intros [_ Hk]. rewrite B1 by done. split; [done|by apply (described_ok d ni nj)].
    + intros Hno. rewrite B2; [done|]. intros Hk. by apply Hno.
  - split; [by intros [? _]|done].
Qed.

Lemma grid_mesh_size g : grid_ok g -> mesh_ok (grid_mesh g) /\ Z.of_nat (n_cells (grid_mesh g)) = ni g * nj g.
Proof. intros Hg. destruct (grid_mesh_ok g Hg) as (M & N & _). destruct Hg as ((Hi & _) & Hj & _). split; [done|]. rewrite N. nia. Qed.

Lemma cf_correct d s : kind d = Some CF -> buffers_covered (buffers d) -> sizes_in_range d ->
  (acceptable d -> from_descriptor d s = (Ok (grid_mesh (described_grid d)), s) /\ grid_ok (described_grid d)) /\
  (~ acceptable d -> from_descriptor d s = (Throw invalid_argument, s)).
Proof.
  intros Ek Hc Hr. unfold from_descriptor, acceptable, sizes_in_range, validate_cf, build_from_cf in *. pose proof Hr as Hr'. unfold grid_extents in Hr' |- *.
  rewrite Ek in *. destruct Hr' as (Ri & Rj & Hsmall). specialize (Hsmall ltac:(by left)).
  set (ni := buf_ni (buffers d)) in *. set (nj := buf_nj (buffers d)) in *.
  destruct (Z.eqb_spec ni 0) as [E|E]; [split; [intros (? & _); lia|done]|]. destruct (Z.eqb_spec nj 0) as [E'|E']; [split; [intros (_ & ? & _); lia|done]|].
  destruct (structured_run d ni nj (validate_centers (buffers d) (ni * nj)) s) as [R1 R2]; [by unfold grid_extents; rewrite Ek|lia|lia|done|done|done|].
  cbn [throw_if bind]. rewrite to_u64_id by nia. split; [intros (_ & _ & ?); by apply R1|]. intros Hno. apply R2. intros Hfit. apply Hno. split; [lia|]. split; [lia|done].
Qed.

Lemma grib_correct d s : kind d = Some GRIB -> buffers_covered (buffers d) -> sizes_in_range d ->
  (acceptable d -> from_descriptor d s = (Ok (grid_mesh (described_grid d)), s) /\ grid_ok (described_grid d)) /\
  (~ acceptable d -> from_descriptor d s = (Throw invalid_argument, s)).
Proof.
  intros Ek Hc Hr. unfold from_descriptor, acceptable, sizes_in_range, validate_grib, build_from_grib in *. pose proof Hr as Hr'. unfold grid_extents in Hr' |- *.
  rewrite Ek in *. destruct Hr' as (Ri & Rj & Hsmall). specialize (Hsmall ltac:(right; by left)).
  set (ni := grib_ni (grib d)) in *. set (nj := grib_nj (grib d)) in *. destruct (is_empty (grid_type (grib d))); [split; [by intros (? & _)|done]|].
  destruct (Z.leb_spec ni 0); [split; [intros (_ & ? & _); lia|done]|]. destruct (Z.leb_spec nj 0); [split; [intros (_ & _ & ? & _); lia|done]|].
  destruct (structured_run d ni nj (validate_centers (buffers d) (ni * nj)) s) as [R1 R2]; [by unfold grid_extents; rewrite Ek|lia|lia|done|done|done|].
  cbn [throw_if bind]. rewrite (to_u64_id ni), (to_u64_id nj), to_u64_id by nia. split; [intros (_ & _ & _ & ?); by apply R1|].
  intros Hno. apply R2. intros Hfit. apply Hno. split; [done|]. split; [lia|]. split; [lia|done].
Qed.

Lemma ugrid_checked d : kind d = Some UGRID ->
  (validate_ugrid d = Ok tt /\ acceptable d) \/ (validate_ugrid d = Throw invalid_argument /\ ~ acceptable d).
Proof.
  intros Ek. unfold acceptable, validate_ugrid, given. unfold grid_extents. rewrite Ek. set (b := buffers d).
  destruct (null_or_empty2 (buf_node_coords b)); [right; split; [done|by intros (? & _)]|]. cbn [throw_if bind].
  destruct (null_or_empty (buf_conn_offsets b)); [right; split; [done|by intros (_ & ? & _)]|]. cbn [throw_if bind].
  destruct (null_or_empty (buf_conn_indices b)); [right; split; [done|by intros (_ & _ & ? & _)]|]. cbn [throw_if bind].
  destruct (Nat.ltb_spec (extent_1 (buf_node_coords b)) 2); [right; split; [done|intros (_ & _ & _ & ?); lia]|by left].
Qed.

Lemma built_ugrid d : buffers_covered (buffers d) -> null_or_empty2 (buf_node_coords (buffers d)) = false ->
  given (buf_conn_offsets (buffers d)) = true -> given (buf_conn_indices (buffers d)) = true -> build_from_ugrid d = Ok (described_mesh d).
Proof.
  intros (_ & _ & _ & _ & Co & Ci & Ca & Cm & Cn) Hn Ho Hi. unfold build_from_ugrid, described_mesh, copy_buffer_2d. set (b := buffers d) in *.
  unfold null_or_empty2 in Hn. destruct (handle2 (buf_node_coords b)) as [l|]; [|done]. rewrite (proj2 (Nat.leb_le _ _)) by by apply Cn. cbn [bind].
  rewrite (proj1 (copy_covered _ Co Ho)), (proj1 (copy_covered _ Ci Hi)). cbn [bind].
  fold (given (buf_cell_areas b)) (given (buf_cell_mask b)). destruct (given (buf_cell_areas b)) eqn:Ga; [rewrite (proj1 (copy_covered _ Ca Ga))|];
    cbn [bind]; (destruct (given (buf_cell_mask b)) eqn:Gm; [rewrite (proj1 (copy_covered _ Cm Gm))|]); done.
Qed.

Lemma ugrid_correct d s : kind d = Some UGRID -> buffers_covered (buffers d) ->
  (acceptable d -> from_descriptor d s = (Ok (described_mesh d), s)) /\ (~ acceptable d -> from_descriptor d s = (Throw invalid_argument, s)).
Proof.
  intros Ek Hc. unfold from_descriptor. rewrite Ek. destruct (ugrid_checked d Ek) as [[E Ha]|[E Ha]]; rewrite E; [|done].
  split; [|done]. intros _. unfold acceptable, grid_extents in Ha. rewrite Ek in Ha. destruct Ha as (Hn & Ho & Hi & _).
  rewrite bind_lift. unfold pj_lift. by rewrite built_ugrid.
Qed.

Lemma projected_correct d s : kind d = Some Projected -> buffers_covered (buffers d) -> sizes_in_range d -> Forall (fun o => o < next s)%nat (live s) ->
  (acceptable d -> exists s', live s' = live s /\
    from_descriptor d s = (let! g := projected_grid (projected d) (buffers d) in Ok (grid_mesh g), s')) /\
  (~ acceptable d -> from_descriptor d s = (Throw invalid_argument, s)).
Proof.
  intros Ek Hc Hr Hs. unfold from_descriptor, acceptable, sizes_in_range, validate_projected, build_from_projected, grid_extents in *. rewrite Ek in *.
  destruct Hr as (Ri & Rj & Hsmall). specialize (Hsmall ltac:(do 2 right; by left)).
  set (ni := buf_ni (buffers d)) in *. set (nj := buf_nj (buffers d)) in *. destruct (is_empty (projected d)); [split; [by intros (? & _)|done]|].
  destruct (Z.eqb_spec ni 0) as [E|E]; [split; [intros (_ & ? & _); lia|done]|]. destruct (Z.eqb_spec nj 0) as [E'|E']; [split; [intros (_ & _ & ? & _); lia|done]|].
  cbn [throw_if bind]. rewrite to_u64_id by nia.
  destruct (centers_checked (buffers d) ni nj) as [[Ev Hfit]|[Ev Hfit]]; [lia|lia| |]; rewrite Ev.
  - split; [|intros Hno; destruct Hno; split; [done|]; split; [lia|]; split; [lia|done]]. intros _. rewrite bind_lift.
    pose proof Hc as (Cx & Cy & _). pose proof Hfit as (Gx & Gy & Ex & Ey).
    destruct (projected_mesh_spec (projected d) (buffers d) s) as (s' & E1 & Hl & _); [|done|done|by exists s'].
    unfold centers_backed. fold ni nj. repeat split; (lia || by apply Cx || by apply Cy).
  - split; [intros (_ & _ & _ & ?); done|done].
Qed.

End Properties.

(** * Examples *)

#[local] Instance plain_order : ParallelFor.
Proof. refine {| range_order n := seq 0 n |}. done. Defined.

#[local] Instance plain_libm : Libm := {| m_cos x := x; m_sin x := x; m_asin x := x; m_atan2 y x := ddiv y x |}.

#[local] Instance plain_build : AxisBuild := Build_AxisBuild None.

Definition no_rules : GridRulesParams := mkRules EmptyString dzero dzero dzero dzero dzero dzero 0 EmptyString.

Definition span {A} (l : list A) : field_view A := mkSpan (Some l) (length l).

(** Two cells of a structured grid. *)
Definition demo_cf : GridDescriptor :=
  mkDescriptor (Some CF) (Some SphericalDeg) (mkGribParams EmptyString 0 0 0) EmptyString EmptyString no_rules
    (mkBuffers (span [of_int 10; of_int 20]) (span [of_int 5; of_int 5]) no_view no_view no_view2 no_view no_view no_view no_view 2 1).

(** A triangle, whose third corner is a node that does not exist. *)
Definition stray_triangle : GridDescriptor :=
  mkDescriptor (Some UGRID) (Some Cartesian3D) (mkGribParams EmptyString 0 0 0) EmptyString EmptyString no_rules
    (mkBuffers no_view no_view no_view no_view (mkSpan2 (Some [dzero; one; dzero; one; dzero; dzero]) 2 3) (span [0; 3]) (span [0; 1; 7]) no_view no_view 0 0).

#[local] Existing Instance insertion.


(** The contents of the buffers of an unstructured descriptor are not looked at: a node that
    does not exist passes, and the areas of the mesh have no meaning. *)
Example stray_triangle_accepted :
  validate_ugrid stray_triangle = Ok tt /\
  (let! m := fst (from_descriptor stray_triangle (mkPj [] 0)) in compute_areas m) = Undef.
Proof. by vm_compute. Qed.

(** The product of the extents wraps around: a grid of [2^62 + 1] columns and four rows passes
    with four centers. *)
Example wrapped_extents :
  validate_cf (mkDescriptor (Some CF) (Some SphericalDeg) (mkGribParams EmptyString 0 0 0) EmptyString EmptyString no_rules
    (mkBuffers (span [one; one; one; one]) (span [one; one; one; one]) no_view no_view no_view2 no_view no_view no_view no_view (2 ^ 62 + 1) 4)) = Ok tt.
Proof. by vm_compute. Qed.
