(* ===== verification/AmioRequests.v ===== *)
(** * AMIO: checking the requests of the C interface
    ([amio/src/c_boundary/amio_api.cpp], and the checks of [amio_core.cpp])

    The entry points test their pointers, look the handle up and pass exceptions of the
    operation on as a status; the operations test their arguments in a fixed order.  A
    shape or box has arrays of [AMIO_MAX_RANK] elements; an index past them is [Undef].
    A pointer argument is an option, a string the list of its bytes without the
    terminator. *)
From Stdlib Require Import ZArith Lia.
From stdpp Require Import base list numbers.
From S2P Require Import Prelude CInt AmioErrors PrefetchQueue AmioHandleTable.
Local Open Scope Z_scope.

Definition AMIO_MODE_WRITE : Z := 0.
Definition AMIO_MODE_READ : Z := 1.
Definition AMIO_ERR_VIEWS_OUTSTANDING : Z := 13.

Record amio_shape_t : Type := mkShape { rank : Z; s_extents : list Z; s_strides : list Z }.

(** An element of one of the arrays. *)
Definition elem (l : list Z) (d : nat) : result Z := match l !! d with Some x => Ok x | None => Undef end.

(** ** The boundary *)

Section Dispatch.
Context {V : Type} (t : HandleTable V).

(** A handle is its token; the operation's exceptions become a status. *)
Definition kind_dispatch (handle : Z) (expected : HandleKind) (op : option V -> result Z) : result Z :=
  if handle =? 0 then Ok AMIO_ERR_NULL_HANDLE
  else
    let '(lookup_rc, payload) := lookup t handle expected in
    if negb (lookup_rc =? AMIO_OK) then Ok lookup_rc
    else match op payload with Throw _ => Ok AMIO_ERR_BACKEND_FAILURE | r => r end.

Definition amio_open_dataset (core : Z) (config_path out_dataset : bool) (mode : Z) (op : option V -> result Z) : result Z :=
  if negb out_dataset then Ok AMIO_ERR_INVALID_INPUT
  else if negb config_path then Ok AMIO_ERR_INVALID_INPUT
  else if negb (mode =? AMIO_MODE_WRITE) && negb (mode =? AMIO_MODE_READ) then Ok AMIO_ERR_INVALID_INPUT
  else kind_dispatch core Core op.

Definition amio_write (dataset : Z) (var_name host_data shape out_io : bool) (op : option V -> result Z) : result Z :=
  if negb out_io then Ok AMIO_ERR_INVALID_INPUT
  else if negb var_name || negb host_data || negb shape then Ok AMIO_ERR_INVALID_INPUT
  else kind_dispatch dataset Dataset op.

Definition amio_read (dataset : Z) (var_name out_view : bool) (op : option V -> result Z) : result Z :=
  if negb out_view then Ok AMIO_ERR_INVALID_INPUT
  else if negb var_name then Ok AMIO_ERR_INVALID_INPUT
  else kind_dispatch dataset Dataset op.

Definition amio_wait (io : Z) (op : option V -> result Z) : result Z := kind_dispatch io Io op.
Definition amio_release_view (view : Z) (op : option V -> result Z) : result Z := kind_dispatch view View op.
Definition amio_close (dataset : Z) (op : option V -> result Z) : result Z := kind_dispatch dataset Dataset op.
Definition amio_finalize (core : Z) (op : option V -> result Z) : result Z := kind_dispatch core Core op.
End Dispatch.

(** ** Shapes *)

(** The loops over the dimensions stop at the first that is refused. *)
Fixpoint all_dims (ds : list nat) (ok : nat -> result bool) : result bool :=
  match ds with
  | [] => Ok true
  | d :: rest => let! b := ok d in if b then all_dims rest ok else Ok false
  end.

Definition validate_shape (shape : amio_shape_t) : result bool :=
  if (rank shape <? 1) || (AMIO_MAX_RANK <? rank shape) then Ok false
  else all_dims (seq 0 (Z.to_nat (rank shape))) (fun i => let! e := elem (s_extents shape) i in Ok (negb (e <=? 0))).

Definition compute_element_count (shape : amio_shape_t) : result Z :=
  foldl (fun count i => let! c := count in let! e := elem (s_extents shape) i in Ok (to_u64 (c * to_u64 e))) (Ok 1)
    (seq 0 (Z.to_nat (rank shape))).

(** The checks of a write; what it copies, in bytes. *)
Definition write_request (host_data var_name : bool) (dtype : Z) (shape : option amio_shape_t) : result (Z * Z) :=
  match shape with
  | None => Ok (AMIO_ERR_INVALID_INPUT, 0)
  | Some shape =>
      if negb host_data || negb var_name then Ok (AMIO_ERR_INVALID_INPUT, 0)
      else
        let elem_size := element_size dtype in
        if elem_size =? 0 then Ok (AMIO_ERR_INVALID_INPUT, 0)
        else
          let! valid := validate_shape shape in
          if negb valid then Ok (AMIO_ERR_INVALID_INPUT, 0)
          else
            let! element_count := compute_element_count shape in
            let payload_bytes := to_u64 (element_count * elem_size) in
            if payload_bytes =? 0 then Ok (AMIO_ERR_INVALID_INPUT, 0) else Ok (AMIO_OK, payload_bytes)
  end.

(** The ordering key of a variable; [char] is signed. *)
Definition variable_hash (var_name : list Z) : Z := foldl (fun h c => to_u64 (to_u64 (h * 31) + to_u64 c)) 0 var_name.

(** ** Boxes *)

Definition validate_dim (b : amio_bbox_t) (shape : amio_shape_t) (d : nat) : result bool :=
  let! stride := elem (strides b) d in
  if stride <? 1 then Ok false
  else
    let! offset := elem (offsets b) d in
    if offset <? 0 then Ok false
    else
      let! extent := elem (extents b) d in
      let! last := (offset + (extent - 1%Z) * stride)%i64 in
      let! bound := elem (s_extents shape) d in
      Ok (negb ((extent <? 1) || (bound <=? last))).

Definition validate_bbox (b : option amio_bbox_t) (shape : amio_shape_t) : result Z :=
  match b with
  | None => Ok AMIO_OK
  | Some b =>
      if negb (b_rank b =? rank shape) then Ok AMIO_ERR_INVALID_INPUT
      else
        let! ok := all_dims (seq 0 (Z.to_nat (b_rank b))) (validate_dim b shape) in
        Ok (if ok then AMIO_OK else AMIO_ERR_INVALID_INPUT)
  end.

(** The checks of a read, up to the call of [get_buffer]; [describe] is the driver's answer:
    the shape and the number of records. *)
Definition read_request (mode : Z) (var_name : option (list Z)) (timestep : Z) (bbox : option amio_bbox_t)
    (describe : list Z -> option (amio_shape_t * Z)) : result Z :=
  match var_name with
  | None | Some [] => Ok AMIO_ERR_INVALID_INPUT
  | Some name =>
      if negb (mode =? AMIO_MODE_READ) then Ok AMIO_ERR_INVALID_INPUT
      else if timestep <? 0 then Ok AMIO_ERR_INVALID_INPUT
      else match describe name with
      | None => Ok AMIO_ERR_BACKEND_FAILURE
      | Some (shape, total_timesteps) =>
          if total_timesteps <=? timestep then Ok AMIO_ERR_INVALID_INPUT else validate_bbox bbox shape
      end
  end.

(** ** Attributes *)

(** [out_buf] is the capacity of the buffer when there is one; the answer is the status and
    the length and the bytes stored.  [value] is the driver's answer, when there is a driver. *)
Definition get_var_attribute_text (mode : Z) (driver : option (option (list Z))) (attr_name : option (list Z)) (out_buf : option nat)
    (out_len : bool) : Z * option (nat * list Z) :=
  match attr_name with
  | None | Some [] => (AMIO_ERR_INVALID_INPUT, None)
  | Some _ =>
      if negb out_len then (AMIO_ERR_INVALID_INPUT, None)
      else if bool_decide (out_buf = Some 0%nat) then (AMIO_ERR_INVALID_INPUT, None)
      else if negb (mode =? AMIO_MODE_READ) then (AMIO_ERR_INVALID_INPUT, None)
      else match driver with
      | None | Some None => (AMIO_ERR_BACKEND_FAILURE, None)
      | Some (Some value) =>
          (AMIO_OK, Some (length value,
            match out_buf with
            | Some buf_cap => take (Nat.min (length value) (buf_cap - 1)) value ++ [0]
            | None => []
            end))
      end
  end.

(** * Lemmas *)

Lemma all_dims_true ds ok (P : nat -> Prop) : (forall d, d ∈ ds -> (exists b, ok d = Ok b) /\ (ok d = Ok true <-> P d)) ->
  exists b, all_dims ds ok = Ok b /\ (b = true <-> forall d, d ∈ ds -> P d).
Proof.
  induction ds as [|d ds IH]; intros H.
  - exists true. split; [done|]. split; [intros _ d Hd; by apply elem_of_nil in Hd|done].
  - destruct (H d) as [[b Eb] Hd]; [by left|]. cbn [all_dims]. rewrite Eb in *. cbn [bind]. destruct b.
    + destruct IH as (b & E & Hb); [intros e He; apply H; by right|]. exists b. split; [done|]. rewrite Hb. split.
      * intros G e [->|He]%elem_of_cons; [by apply Hd|by apply G].
      * intros G e He. apply G. by right.
    + exists false. split; [done|]. split; [done|]. intros G. assert (P d) as HP by (apply G; by left).
      apply Hd in HP. discriminate.
Qed.

Lemma elem_Ok l d x : elem l d = Ok x <-> l !! d = Some x.
Proof. unfold elem. destruct (l !! d); split; congruence. Qed.

Lemma elem_total l d n : length l = n -> (d < n)%nat -> exists x, elem l d = Ok x /\ l !! d = Some x.
Proof. intros HL Hd. destruct (lookup_lt_is_Some_2 l d) as [x Hx]; [lia|]. exists x. by rewrite elem_Ok. Qed.

Lemma element_size_nonneg dtype : 0 <= element_size dtype.
Proof. unfold element_size. repeat case_match; lia. Qed.

(** ** Specification *)

(** Every element of the selection lies in the shape. *)
Definition selects_inside (b : amio_bbox_t) (shape : amio_shape_t) : Prop :=
  b_rank b = rank shape /\ forall d, Z.of_nat d < b_rank b ->
    1 <= dim (strides b) d /\ 0 <= dim (offsets b) d /\ 1 <= dim (extents b) d /\
    forall i, 0 <= i < dim (extents b) d -> 0 <= dim (offsets b) d + i * dim (strides b) d < dim (s_extents shape) d.

Definition array_ok (l : list Z) : Prop := length l = 7%nat.

(** The last index of the selection is an [int64_t]. *)
Definition last_fits (b : amio_bbox_t) (d : nat) : Prop :=
  imin I64 <= dim (extents b) d - 1 <= imax I64 /\
  imin I64 <= (dim (extents b) d - 1) * dim (strides b) d <= imax I64 /\
  imin I64 <= dim (offsets b) d + (dim (extents b) d - 1) * dim (strides b) d <= imax I64.

Lemma dim_elem l d : array_ok l -> (d < 7)%nat -> elem l d = Ok (dim l d).
Proof. intros HL Hd. destruct (elem_total l d 7 HL Hd) as (x & E & Hx). unfold dim. by rewrite E, Hx. Qed.

Lemma validate_dim_spec b shape d : array_ok (offsets b) -> array_ok (extents b) -> array_ok (strides b) -> array_ok (s_extents shape) ->
  (d < 7)%nat -> last_fits b d ->
  (exists r, validate_dim b shape d = Ok r) /\
  (validate_dim b shape d = Ok true <->
    1 <= dim (strides b) d /\ 0 <= dim (offsets b) d /\ 1 <= dim (extents b) d /\
    forall i, 0 <= i < dim (extents b) d -> 0 <= dim (offsets b) d + i * dim (strides b) d < dim (s_extents shape) d).
Proof.
  intros Ho He Hs Hx Hd (F1 & F2 & F3). unfold validate_dim. rewrite !dim_elem by done. cbn [bind].
  change (Ok (dim (extents b) d)) with (cval (dim (extents b) d)).
  destruct (Z.ltb_spec (dim (strides b) d) 1); [split; [by eexists|split; [done|lia]]|].
  destruct (Z.ltb_spec (dim (offsets b) d) 0); [split; [by eexists|split; [done|lia]]|].
  rewrite csub_ok, cmul_ok, cadd_ok by done. cbn [bind cval]. split; [by eexists|].
  set (o := dim (offsets b) d) in *. set (e := dim (extents b) d) in *. set (s := dim (strides b) d) in *. set (n := dim (s_extents shape) d).
  split.
  - intros [= H']. apply negb_true_iff, orb_false_iff in H' as [H1%Z.ltb_ge H2%Z.leb_gt]. do 3 (split; [done|]). intros i Hi. nia.
  - intros (_ & _ & H1 & G). specialize (G (e - 1)). do 2 f_equal. apply negb_true_iff, orb_false_iff. split; [apply Z.ltb_ge; lia|].
    apply Z.leb_gt. lia.
Qed.

Lemma count_loop l ds c : 0 <= c < 18446744073709551616 -> Forall (fun d => exists e, l !! d = Some e /\ 1 <= e) ds ->
  c * foldr Z.mul 1 (dim l <$> ds) < 18446744073709551616 ->
  foldl (fun count i => let! c := count in let! e := elem l i in Ok (to_u64 (c * to_u64 e))) (Ok c) ds = Ok (c * foldr Z.mul 1 (dim l <$> ds)).
Proof.
  intros Hc H. revert c Hc. induction H as [|d ds (e & Ee & He) H IH]; intros c Hc Hlt; [cbn; f_equal; lia|].
  cbn [foldl]. cbn [bind]. rewrite (proj2 (elem_Ok l d e) Ee). cbn [bind].
  assert (Hd : dim l d = e) by (unfold dim; by rewrite Ee). cbn [fmap list_fmap foldr] in *. rewrite Hd in *.
  assert (H1 : 1 <= foldr Z.mul 1 (dim l <$> ds)).
  { clear IH Hlt. induction H as [|d' ds' (e' & Ee' & He') _ IH']; [done|]. cbn. unfold dim at 1. rewrite Ee'. cbn. nia. }
  assert (Hw : to_u64 (c * to_u64 e) = c * e).
  { destruct (Z.eq_dec c 0) as [->|Hc0]; [by rewrite !Z.mul_0_l|]. assert (e < 18446744073709551616) by nia.
    unfold to_u64. rewrite (Z.mod_small e) by lia. apply Z.mod_small. nia. }
  rewrite Hw, IH by nia. f_equal. lia.
Qed.

(** * Properties *)

(** Checking a box gives a status on every input with arrays of seven elements whose
    last index fits: no box means the whole variable, and a box is accepted exactly when its
    rank is the variable's and every element it selects lies in the variable. *)
Theorem validate_bbox_correct b shape : rank shape <= 7 ->
  array_ok (offsets b) -> array_ok (extents b) -> array_ok (strides b) -> array_ok (s_extents shape) ->
  (forall d, Z.of_nat d < b_rank b -> last_fits b d) ->
  validate_bbox None shape = Ok AMIO_OK /\
  exists status, validate_bbox (Some b) shape = Ok status /\ (status = AMIO_OK \/ status = AMIO_ERR_INVALID_INPUT) /\
    (status = AMIO_OK <-> selects_inside b shape).
Proof.
  intros Hr Ho He Hs Hx Hf. split; [done|]. unfold validate_bbox, selects_inside. destruct (Z.eqb_spec (b_rank b) (rank shape)) as [Er|Er].
  - destruct (all_dims_true (seq 0 (Z.to_nat (b_rank b))) (validate_dim b shape) (fun d =>
      1 <= dim (strides b) d /\ 0 <= dim (offsets b) d /\ 1 <= dim (extents b) d /\
      forall i, 0 <= i < dim (extents b) d -> 0 <= dim (offsets b) d + i * dim (strides b) d < dim (s_extents shape) d)) as (r & E & Hr').
    { intros d Hd%elem_of_seq. apply validate_dim_spec; [done..|lia|apply Hf; lia]. }
    cbn [negb]. rewrite E. cbn [bind]. eexists. split; [done|]. split; [destruct r; tauto|]. split.
    + intros H. split; [done|]. intros d Hd. apply Hr'; [by destruct r|]. apply elem_of_seq. lia.
    + intros [_ H]. assert (r = true) as ->; [|done]. apply Hr'. intros d Hd%elem_of_seq. apply H. lia.
  - exists AMIO_ERR_INVALID_INPUT. split; [done|]. split; [tauto|]. split; [done|]. intros [H _]. done.
Qed.

(** A write of a shape with positive extents and a known element type is accepted with the
    exact number of bytes, when that number is representable, and every other combination of
    pointers, element type and extents is refused. *)
Theorem write_request_correct host var dtype shape : array_ok (s_extents shape) ->
  let ds := seq 0 (Z.to_nat (rank shape)) in
  let bytes := foldr Z.mul 1 (dim (s_extents shape) <$> ds) * element_size dtype in
  let good := host = true /\ var = true /\ element_size dtype <> 0 /\ 1 <= rank shape <= 7 /\ forall d, d ∈ ds -> 1 <= dim (s_extents shape) d in
  write_request host var dtype None = Ok (AMIO_ERR_INVALID_INPUT, 0) /\
  (~ good -> write_request host var dtype (Some shape) = Ok (AMIO_ERR_INVALID_INPUT, 0)) /\
  (good -> bytes < 18446744073709551616 -> write_request host var dtype (Some shape) = Ok (AMIO_OK, bytes)).
Proof.
  intros Hx ds bytes good. split; [done|].
  assert (Hv : exists v, validate_shape shape = Ok v /\ (v = true <-> 1 <= rank shape <= 7 /\ forall d, d ∈ ds -> 1 <= dim (s_extents shape) d)).
  { unfold validate_shape, AMIO_MAX_RANK. destruct ((rank shape <? 1) || (7 <? rank shape)) eqn:Er.
    - exists false. split; [done|]. split; [done|]. intros [Hr _]. bsimpl. lia.
    - destruct (all_dims_true ds (fun i => let! e := elem (s_extents shape) i in Ok (negb (e <=? 0))) (fun d => 1 <= dim (s_extents shape) d))
        as (v & E & Hv); [|exists v; split; [exact E|]; rewrite Hv; bsimpl; split; [intros H; split; [lia|exact H]|tauto]].
      intros d Hd%elem_of_seq. bsimpl. rewrite dim_elem by (done || lia). cbn [bind]. split; [by eexists|].
      destruct (Z.leb_spec (dim (s_extents shape) d) 0); cbn [negb]; split; try done; lia. }
  destruct Hv as (v & Ev & Hv). unfold write_request. rewrite Ev. cbn [bind]. split.
  - intros Hbad. destruct host, var; try done. cbn [negb orb]. destruct (Z.eqb_spec (element_size dtype) 0); [done|]. destruct v; [|done].
    exfalso. apply Hbad. do 3 (split; [done|]). by apply Hv.
  - intros (-> & -> & Hel & Hr & Hd) Hb. cbn [negb orb]. destruct (Z.eqb_spec (element_size dtype) 0); [done|].
    assert (v = true) as -> by (by apply Hv). cbn [negb].
    assert (Hp : 0 < element_size dtype) by (pose proof (element_size_nonneg dtype); lia).
    assert (H1 : 1 <= foldr Z.mul 1 (dim (s_extents shape) <$> ds)).
    { clear -Hd. induction ds as [|d ds IH]; [done|]. cbn. specialize (IH ltac:(intros e He; apply Hd; by right)).
      specialize (Hd d ltac:(by left)). nia. }
    unfold compute_element_count. fold ds. rewrite (count_loop _ ds 1); [|lia| |unfold bytes in Hb; nia].
    + cbn [bind]. unfold to_u64. rewrite Z.mul_1_l. fold bytes. rewrite Z.mod_small by (unfold bytes in *; nia).
      destruct (Z.eqb_spec bytes 0); [unfold bytes in *; nia|done].
    + apply list.Forall_forall. intros d Hin. exists (dim (s_extents shape) d). split; [|by apply Hd].
      apply elem_of_seq in Hin. apply elem_Ok, dim_elem; [done|lia].
Qed.

(** The two calls of an attribute query: the first gives the length, and a buffer with room
    for one more byte then receives the whole value and a terminator; a smaller buffer
    receives what fits.  Never more bytes than the buffer has. *)
Theorem attribute_text_roundtrip value attr buf_cap : attr <> [] -> (0 < buf_cap)%nat ->
  get_var_attribute_text AMIO_MODE_READ (Some (Some value)) (Some attr) None true = (AMIO_OK, Some (length value, [])) /\
  get_var_attribute_text AMIO_MODE_READ (Some (Some value)) (Some attr) (Some (length value + 1)%nat) true
    = (AMIO_OK, Some (length value, value ++ [0])) /\
  exists bytes, get_var_attribute_text AMIO_MODE_READ (Some (Some value)) (Some attr) (Some buf_cap) true = (AMIO_OK, Some (length value, bytes)) /\
    (length bytes <= buf_cap)%nat.
Proof.
  intros Ha Hc. destruct attr as [|a attr]; [done|]. split; [done|]. split.
  - unfold get_var_attribute_text. cbn [negb]. rewrite bool_decide_false by (intros [= H]; lia). cbn. do 3 f_equal.
    rewrite take_ge by lia. done.
  - unfold get_var_attribute_text. cbn [negb]. rewrite bool_decide_false by (intros [= H]; lia). cbn. eexists. split; [done|].
    rewrite length_app, length_take. cbn. lia.
Qed.

Definition demo_shape : amio_shape_t := mkShape 2 [4; 6; 0; 0; 0; 0; 0] [0; 0; 0; 0; 0; 0; 0].
Definition demo_box : amio_bbox_t := mkBbox 2 [1; 0; 0; 0; 0; 0; 0] [2; 3; 0; 0; 0; 0; 0] [2; 2; 0; 0; 0; 0; 0].

Lemma validate_bbox_correct_witness : validate_bbox (Some demo_box) demo_shape = Ok AMIO_OK /\ exists status,
  validate_bbox (Some demo_box) demo_shape = Ok status /\ (status = AMIO_OK <-> selects_inside demo_box demo_shape).
Proof.
  split; [reflexivity|].
  assert (F : forall d, Z.of_nat d < 2 -> last_fits demo_box d).
  { intros d Hd. assert (d = 0 \/ d = 1)%nat as [-> | ->] by lia; vm_compute; repeat split; discriminate. }
  destruct (proj2 (validate_bbox_correct demo_box demo_shape ltac:(cbn; lia) eq_refl eq_refl eq_refl eq_refl F)) as (st & E & _ & H).
  exists st. split; [exact E|exact H].
Defined.

Lemma write_request_correct_witness : write_request true true 1 (Some demo_shape) = Ok (AMIO_OK, 192).
Proof.
  apply (write_request_correct true true 1 demo_shape eq_refl).
  - do 3 (split; [done|]). split; [cbn; lia|]. intros d Hd. cbn in Hd.
    repeat (apply elem_of_cons in Hd as [-> | Hd]; [cbn; lia|]). by apply elem_of_nil in Hd.
  - reflexivity.
Defined.

(** A box whose last index does not fit is not refused: the computation overflows. *)
Example validate_bbox_overflow :
  validate_bbox (Some (mkBbox 1 [1; 0; 0; 0; 0; 0; 0] [4611686018427387904; 0; 0; 0; 0; 0; 0] [4; 0; 0; 0; 0; 0; 0]))
    (mkShape 1 [10; 0; 0; 0; 0; 0; 0] [0; 0; 0; 0; 0; 0; 0]) = Undef.
Proof. reflexivity. Qed.

(** A shape whose element count is beyond 2^64 is accepted with the count reduced: here 16
    bytes are copied for a variable of 2^64 + 4 elements. *)
Example write_request_wraps :
  write_request true true 0 (Some (mkShape 2 [4611686018427387905; 4; 0; 0; 0; 0; 0] [0; 0; 0; 0; 0; 0; 0])) = Ok (AMIO_OK, 16).
Proof. reflexivity. Qed.
