(* ===== verification/AmioCore.v ===== *)
(** * AMIO: the operations of the core ([amio/src/c_boundary/amio_core.hpp], [amio_core.cpp])

    One core with its datasets, as a transition system: host threads inside [write],
    [read], [release_view] and [close_dataset], and worker threads inside the callback of
    a write, share the state; a step is one access or critical section.  A write is one
    [IoRecord], and [at_] says how far it is, from the copy into the staging buffer to the
    end of its callback; [counted] says that the host thread has added it to
    [pending_writes] and returned.  The buffer pool is any [BufferPool].  The order in
    which the worker pool runs the writes and the order in which the prefetch queues
    fetch are the subject of other files: here a worker takes any queued write, and
    [prefetched] holds the buffers the prefetch queues own.  How a call of the driver
    ends is up to the environment. *)
From Stdlib Require Import ZArith Lia.
From stdpp Require Import base list numbers gmap relations.
From S2P Require Import Prelude CInt ListExtra AmioErrors BufferPool AmioRequests.
From S2P Require StagingPool.
Local Open Scope Z_scope.

(** ** State *)

(** Where a write is: in [amio_write] before [submit_write]; in the queue; in the callback
    before the driver's answer is recorded, before the buffer is released, before the
    count is decremented; over.  [Dropped]: [submit_write] did not take it. *)
Inductive stage : Type := Submitting | Queued | Running | Recorded | Released | Finished | Dropped.

#[export] Instance stage_eq_dec : EqDecision stage.
Proof. solve_decision. Defined.

Record IoRecord : Type := mkIo {
  io_dataset : Z; io_buf : nat; completed : bool; failed : bool; failure_code : Z; at_ : stage; counted : bool
}.

Record ViewRecord : Type := mkView { view_dataset : Z; view_buf : nat }.

Record DatasetRecord : Type := mkDataset {
  pending_writes : Z; ds_failed : bool; first_failure_code : Z; outstanding_views : Z; driver_closed : bool
}.

Section Core.
Context {P : Type} {pool_ops : BufferPool P}.

Record AMIO_Core : Type := mkCore {
  pool : P; ios : list IoRecord; views : list ViewRecord; prefetched : list (Z * nat);
  datasets : gmap Z DatasetRecord; queue_capacity : nat; stopped : bool
}.

Definition with_ios (s : AMIO_Core) (l : list IoRecord) : AMIO_Core :=
  mkCore (pool s) l (views s) (prefetched s) (datasets s) (queue_capacity s) (stopped s).
Definition with_pool (s : AMIO_Core) (p : P) : AMIO_Core :=
  mkCore p (ios s) (views s) (prefetched s) (datasets s) (queue_capacity s) (stopped s).
Definition with_reads (s : AMIO_Core) (v : list ViewRecord) (f : list (Z * nat)) : AMIO_Core :=
  mkCore (pool s) (ios s) v f (datasets s) (queue_capacity s) (stopped s).
Definition with_dataset (s : AMIO_Core) (id : Z) (f : DatasetRecord -> DatasetRecord) : AMIO_Core :=
  mkCore (pool s) (ios s) (views s) (prefetched s) (alter f id (datasets s)) (queue_capacity s) (stopped s).

Definition new_core (p : P) (capacity : nat) : AMIO_Core := mkCore p [] [] [] ∅ capacity false.

Definition new_dataset : DatasetRecord := mkDataset 0 false AMIO_OK 0 false.

(** [fetch_add] and [fetch_sub] on the counters. *)
Definition add_pending (n : Z) (r : DatasetRecord) : DatasetRecord :=
  mkDataset (to_u64 (pending_writes r + n)) (ds_failed r) (first_failure_code r) (outstanding_views r) (driver_closed r).
Definition add_views (n : Z) (r : DatasetRecord) : DatasetRecord :=
  mkDataset (pending_writes r) (ds_failed r) (first_failure_code r) (to_u64 (outstanding_views r + n)) (driver_closed r).
Definition record_failure (r : DatasetRecord) : DatasetRecord :=
  mkDataset (pending_writes r) true (if first_failure_code r =? AMIO_OK then AMIO_ERR_BACKEND_FAILURE else first_failure_code r)
    (outstanding_views r) (driver_closed r).
Definition set_closed (r : DatasetRecord) : DatasetRecord :=
  mkDataset (pending_writes r) (ds_failed r) (first_failure_code r) (outstanding_views r) true.

Definition move (st : stage) (io : IoRecord) : IoRecord :=
  mkIo (io_dataset io) (io_buf io) (completed io) (failed io) (failure_code io) st (counted io).

(** ** A write *)

(** The buffer is acquired and filled and the record minted. *)
Definition write_begin (s : AMIO_Core) (id : Z) (buf : nat) (p : P) : AMIO_Core :=
  with_pool (with_ios s (ios s ++ [mkIo id buf false false AMIO_OK Submitting false])) p.

Definition queue_length (s : AMIO_Core) : nat := length (filter (fun io => at_ io = Queued) (ios s)).

(** [submit_write]; what it returns is stored as the sequence number and not looked at. *)
Definition write_submit (s : AMIO_Core) (i : nat) : AMIO_Core :=
  with_ios s (alter (move (if stopped s || (queue_capacity s <=? queue_length s)%nat then Dropped else Queued)) i (ios s)).

(** The count, after which [write] returns [AMIO_OK]. *)
Definition write_count (s : AMIO_Core) (i : nat) (io : IoRecord) : AMIO_Core :=
  with_dataset (with_ios s (<[i := mkIo (io_dataset io) (io_buf io) (completed io) (failed io) (failure_code io) (at_ io) true]> (ios s)))
    (io_dataset io) (add_pending 1).

(** ** The callback *)

Definition callback_driver (s : AMIO_Core) (i : nat) (io : IoRecord) (throws : bool) : AMIO_Core :=
  if throws then
    with_dataset (with_ios s (<[i := mkIo (io_dataset io) (io_buf io) (completed io) true AMIO_ERR_BACKEND_FAILURE Recorded (counted io)]> (ios s)))
      (io_dataset io) record_failure
  else with_ios s (<[i := mkIo (io_dataset io) (io_buf io) true (failed io) (failure_code io) Recorded (counted io)]> (ios s)).

Definition callback_release (s : AMIO_Core) (i : nat) (io : IoRecord) : result AMIO_Core :=
  let! p := pool_release (pool s) (io_buf io) in
  Ok (with_pool (with_ios s (<[i := move Released io]> (ios s))) p).

Definition callback_end (s : AMIO_Core) (i : nat) (io : IoRecord) : AMIO_Core :=
  with_dataset (with_ios s (<[i := move Finished io]> (ios s))) (io_dataset io) (add_pending (-1)).

(** ** Reading *)

(** [get_buffer] hands a buffer over and the view is minted. *)
Definition read_view (s : AMIO_Core) (id : Z) (buf : nat) (rest : list (Z * nat)) : AMIO_Core :=
  with_dataset (with_reads s (views s ++ [mkView id buf]) rest) id (add_views 1).

Definition release_view (s : AMIO_Core) (k : nat) (v : ViewRecord) : result AMIO_Core :=
  let! p := pool_release (pool s) (view_buf v) in
  Ok (with_dataset (with_pool (with_reads s (delete k (views s)) (prefetched s)) p) (view_dataset v) (add_views (-1))).

(** [cancel_pending] and the release of a buffer with another selection. *)
Definition discard (s : AMIO_Core) (buf : nat) (rest : list (Z * nat)) : result AMIO_Core :=
  let! p := pool_release (pool s) buf in
  Ok (with_pool (with_reads s (views s) rest) p).

(** ** What the waiting calls see and return *)

Definition failure_status (r : DatasetRecord) : Z := if ds_failed r then first_failure_code r else AMIO_OK.

(** One test of the loop of [flush]: [None] is another turn.  The failure is read after
    the count. *)
Definition flush_poll (r later : DatasetRecord) (late : bool) : option Z :=
  if pending_writes r =? 0 then Some (failure_status later) else if late then Some AMIO_ERR_TIMEOUT else None.

Definition wait_poll (io : IoRecord) (late : bool) : option Z :=
  if completed io then Some (if failed io then failure_code io else AMIO_OK)
  else if late then Some AMIO_ERR_TIMEOUT else None.

(** ** Closing *)

Definition close_guard (r : DatasetRecord) : bool := 0 <? outstanding_views r.

(** The status, after the wait. *)
Definition close_status (r : DatasetRecord) (flush_throws close_throws : bool) : Z :=
  let result := failure_status r in
  let result := if flush_throws && (result =? AMIO_OK) then AMIO_ERR_BACKEND_FAILURE else result in
  if close_throws && (result =? AMIO_OK) then AMIO_ERR_BACKEND_FAILURE else result.

(** The driver is closed once no write is pending or the 30 seconds are over. *)
Definition close_dataset (s : AMIO_Core) (id : Z) (r : DatasetRecord) (late flush_throws close_throws : bool) : option (Z * AMIO_Core) :=
  if close_guard r then Some (AMIO_ERR_VIEWS_OUTSTANDING, s)
  else if (pending_writes r =? 0) || late then Some (close_status r flush_throws close_throws, with_dataset s id set_closed)
  else None.

(** ** Steps *)

Inductive step : AMIO_Core -> AMIO_Core -> Prop :=
| step_open s id : datasets s !! id = None ->
    step s (mkCore (pool s) (ios s) (views s) (prefetched s) (<[id := new_dataset]> (datasets s)) (queue_capacity s) (stopped s))
| step_write s id r n buf p : datasets s !! id = Some r -> pool_acquire (pool s) n (Some buf) p -> step s (write_begin s id buf p)
| step_submit s i io : ios s !! i = Some io -> at_ io = Submitting -> step s (write_submit s i)
| step_count s i io : ios s !! i = Some io -> at_ io <> Submitting -> counted io = false -> step s (write_count s i io)
| step_take s i io : ios s !! i = Some io -> at_ io = Queued -> step s (with_ios s (<[i := move Running io]> (ios s)))
| step_driver s i io throws : ios s !! i = Some io -> at_ io = Running -> step s (callback_driver s i io throws)
| step_release s i io s' : ios s !! i = Some io -> at_ io = Recorded -> callback_release s i io = Ok s' -> step s s'
| step_end s i io : ios s !! i = Some io -> at_ io = Released -> step s (callback_end s i io)
| step_fetch s id r n buf p : datasets s !! id = Some r -> pool_acquire (pool s) n (Some buf) p ->
    step s (with_pool (with_reads s (views s) (prefetched s ++ [(id, buf)])) p)
| step_read s id buf k : prefetched s !! k = Some (id, buf) -> step s (read_view s id buf (delete k (prefetched s)))
| step_discard s id buf k s' : prefetched s !! k = Some (id, buf) -> discard s buf (delete k (prefetched s)) = Ok s' -> step s s'
| step_view s k v s' : views s !! k = Some v -> release_view s k v = Ok s' -> step s s'
| step_close s id r late ft ct status s' : datasets s !! id = Some r -> close_dataset s id r late ft ct = Some (status, s') -> step s s'
| step_stop s : step s (mkCore (pool s) (ios s) (views s) (prefetched s) (datasets s) (queue_capacity s) true).

Definition reachable (s : AMIO_Core) : Prop :=
  exists p capacity, pool_valid p /\ (forall b, refs p b = 0) /\ rtc step (new_core p capacity) s.
End Core.
Arguments AMIO_Core : clear implicits.

(** * Invariant *)

Definition b2z (b : bool) : Z := if b then 1 else 0.

(** The write holds its buffer. *)
Definition holds (io : IoRecord) : bool :=
  match at_ io with Submitting | Queued | Running | Recorded | Dropped => true | _ => false end.

(** What the write contributes to the count of its dataset. *)
Definition owed (id : Z) (io : IoRecord) : Z :=
  if io_dataset io =? id then
    match at_ io with
    | Submitting => 0
    | Finished => if counted io then 0 else -1
    | _ => if counted io then 1 else 0
    end
  else 0.

Definition io_ok (ds : gmap Z DatasetRecord) (io : IoRecord) : Prop :=
  is_Some (ds !! io_dataset io) /\
  (at_ io = Submitting -> counted io = false) /\
  match at_ io with
  | Submitting | Queued | Running | Dropped => completed io = false /\ failed io = false
  | _ => completed io = negb (failed io)
  end /\
  (failed io = true -> failure_code io = AMIO_ERR_BACKEND_FAILURE /\ exists r, ds !! io_dataset io = Some r /\ ds_failed r = true).

Definition dataset_ok {P} (s : AMIO_Core P) (id : Z) (r : DatasetRecord) : Prop :=
  pending_writes r = to_u64 (total (owed id) (ios s)) /\
  outstanding_views r = to_u64 (total (fun v => b2z (view_dataset v =? id)) (views s)) /\
  first_failure_code r = if ds_failed r then AMIO_ERR_BACKEND_FAILURE else AMIO_OK.

Section Inv.
Context {P : Type} {pool_ops : BufferPool P}.
Implicit Types s : AMIO_Core P.

(** The references of a buffer that the core knows of. *)
Definition owners s (b : nat) : Z :=
  total (fun io => b2z (holds io && (io_buf io =? b)%nat)) (ios s) + total (fun v => b2z (view_buf v =? b)%nat) (views s)
  + total (fun f => b2z (snd f =? b)%nat) (prefetched s).

Record inv s : Prop := {
  inv_pool : pool_valid (pool s);
  inv_refs b : refs (pool s) b = owners s b;
  inv_ios : Forall (io_ok (datasets s)) (ios s);
  inv_datasets id r : datasets s !! id = Some r -> dataset_ok s id r;
  inv_views : Forall (fun v => is_Some (datasets s !! view_dataset v)) (views s);
  inv_prefetched : Forall (fun f => is_Some (datasets s !! fst f)) (prefetched s)
}.

(** The dataset map only grows and failures stay. *)
Definition grows (d d' : gmap Z DatasetRecord) : Prop :=
  forall id r, d !! id = Some r -> exists r', d' !! id = Some r' /\ (ds_failed r = true -> ds_failed r' = true).

Lemma grows_refl d : grows d d.
Proof. intros id r H. by exists r. Qed.

Lemma grows_alter d id f : (forall r, ds_failed r = true -> ds_failed (f r) = true) -> grows d (alter f id d).
Proof.
  intros Hf i r H. destruct (decide (i = id)) as [->|Hne].
  - exists (f r). rewrite lookup_alter_eq, H. split; [done|apply Hf].
  - exists r. by rewrite lookup_alter_ne.
Qed.

Lemma grows_insert d id r : d !! id = None -> grows d (<[id := r]> d).
Proof. intros H i x Hi. exists x. rewrite lookup_insert_ne by congruence. done. Qed.

Lemma grows_some d d' id : grows d d' -> is_Some (d !! id) -> is_Some (d' !! id).
Proof. intros H [r Hr]. destruct (H id r Hr) as (r' & -> & _). by eexists. Qed.

Lemma io_ok_grows d d' io : grows d d' -> io_ok d io -> io_ok d' io.
Proof.
  intros H (H1 & H2 & H3 & H4). split; [by eapply grows_some|]. do 2 (split; [done|]). intros Hf.
  destruct (H4 Hf) as (Hc & r & Hr & Hfr). split; [done|]. destruct (H _ _ Hr) as (r' & Hr' & Hk). exists r'. auto.
Qed.

Lemma some_grows {A} (f : A -> Z) d d' l : grows d d' -> Forall (fun x => is_Some (d !! f x)) l -> Forall (fun x => is_Some (d' !! f x)) l.
Proof. intros H Hl. eapply Forall_impl; [exact Hl|]. intros x. by apply grows_some. Qed.

Lemma to_u64_add a b : to_u64 (to_u64 a + b) = to_u64 (a + b).
Proof. unfold to_u64. apply Zplus_mod_idemp_l. Qed.

Lemma owed_other id io : io_dataset io <> id -> owed id io = 0.
Proof. intros H. unfold owed. by rewrite (proj2 (Z.eqb_neq _ _) H). Qed.

(** A write moves on. *)
Lemma core_move s i io io' f p' : inv s -> ios s !! i = Some io -> io_dataset io' = io_dataset io -> io_buf io' = io_buf io ->
  pool_valid p' ->
  (forall b, refs p' b = refs (pool s) b - b2z (holds io && (io_buf io =? b)%nat) + b2z (holds io' && (io_buf io =? b)%nat)) ->
  (forall r, (ds_failed r = true -> ds_failed (f r) = true) /\ outstanding_views (f r) = outstanding_views r /\
    (first_failure_code r = (if ds_failed r then AMIO_ERR_BACKEND_FAILURE else AMIO_OK) ->
     first_failure_code (f r) = if ds_failed (f r) then AMIO_ERR_BACKEND_FAILURE else AMIO_OK)) ->
  (forall r, pending_writes r = to_u64 (pending_writes r) ->
    pending_writes (f r) = to_u64 (pending_writes r - owed (io_dataset io) io + owed (io_dataset io) io')) ->
  io_ok (alter f (io_dataset io) (datasets s)) io' ->
  inv (mkCore p' (<[i := io']> (ios s)) (views s) (prefetched s) (alter f (io_dataset io) (datasets s)) (queue_capacity s) (stopped s)).
Proof.
  intros [Hp Hr Hio Hds Hv Hpf] Hi Hd Hb Hp' Hr' Hf Hpend Hok.
  assert (Hg : grows (datasets s) (alter f (io_dataset io) (datasets s))) by (apply grows_alter; intros r; apply (Hf r)).
  split; cbn.
  - exact Hp'.
  - intros b. rewrite Hr', Hr. unfold owners. cbn. rewrite (total_insert _ _ _ _ _ Hi), Hb. lia.
  - apply Forall_insert; [|exact Hok]. eapply Forall_impl; [exact Hio|]. intros x. by apply io_ok_grows.
  - intros id r Hid. destruct (decide (id = io_dataset io)) as [->|Hne].
    + rewrite lookup_alter_eq in Hid. destruct (datasets s !! io_dataset io) as [r0|] eqn:E; [|done]. injection Hid as <-.
      destruct (Hds _ _ E) as (H1 & H2 & H3). destruct (Hf r0) as (F1 & F2 & F3). split; [|split; [cbn; congruence|auto]].
      rewrite Hpend by (rewrite H1; unfold to_u64; by rewrite Z.mod_mod). cbn. rewrite (total_insert _ _ _ _ _ Hi), H1.
      replace (to_u64 (total (owed (io_dataset io)) (ios s)) - owed (io_dataset io) io + owed (io_dataset io) io') with
        (to_u64 (total (owed (io_dataset io)) (ios s)) + (owed (io_dataset io) io' - owed (io_dataset io) io)) by lia.
      rewrite to_u64_add. f_equal. lia.
    + rewrite lookup_alter_ne in Hid by done. destruct (Hds _ _ Hid) as (H1 & H2 & H3). split; [|by split]. cbn.
      rewrite (total_insert _ _ _ _ _ Hi), !owed_other by congruence. rewrite H1. f_equal. lia.
  - by eapply some_grows.
  - by eapply some_grows.
Qed.

Lemma add_pending_ok n r : (ds_failed r = true -> ds_failed (add_pending n r) = true) /\ outstanding_views (add_pending n r) = outstanding_views r /\
    (first_failure_code r = (if ds_failed r then AMIO_ERR_BACKEND_FAILURE else AMIO_OK) ->
     first_failure_code (add_pending n r) = if ds_failed (add_pending n r) then AMIO_ERR_BACKEND_FAILURE else AMIO_OK).
Proof. done. Qed.

Lemma alter_same_map (m : gmap Z DatasetRecord) id : alter (fun r => r) id m = m.
Proof. apply map_eq. intros i. destruct (decide (i = id)) as [->|]; [rewrite lookup_alter_eq; by destruct (m !! id)|by rewrite lookup_alter_ne]. Qed.

(** ... without touching its dataset or its buffer. *)
Lemma inv_flag s i io io' : inv s -> ios s !! i = Some io -> io_dataset io' = io_dataset io -> io_buf io' = io_buf io ->
  holds io' = holds io -> owed (io_dataset io) io' = owed (io_dataset io) io -> io_ok (datasets s) io' -> inv (with_ios s (<[i := io']> (ios s))).
Proof.
  intros Hs Hi Hd Hb Hh Ho Hok.
  pose proof (core_move s i io io' (fun r => r) (pool s) Hs Hi Hd Hb (inv_pool s Hs)) as H.
  rewrite alter_same_map in H. apply H; try done.
  - intros b. rewrite Hh. lia.
  - intros r Hr. rewrite Hr at 1. f_equal. lia.
Qed.

Lemma io_at s i io : inv s -> ios s !! i = Some io -> io_ok (datasets s) io.
Proof. intros Hs Hi. pose proof (inv_ios s Hs) as H. rewrite Forall_lookup in H. by eapply H. Qed.

(** ** Steps of a write *)

Lemma inv_submit s i io : inv s -> ios s !! i = Some io -> at_ io = Submitting -> inv (write_submit s i).
Proof.
  intros Hs Hi Ha. destruct (io_at s i io Hs Hi) as (H1 & H2 & H3 & H4). rewrite Ha in H3. specialize (H2 Ha).
  unfold write_submit. set (st := if stopped s || (queue_capacity s <=? queue_length s)%nat then Dropped else Queued).
  assert (Est : st = Dropped \/ st = Queued) by (subst st; case_match; auto).
  replace (alter (move st) i (ios s)) with (<[i := move st io]> (ios s)).
  2:{ apply list_eq. intros j. rewrite list_lookup_alter. case_decide; [subst|by rewrite list_lookup_insert_ne].
      rewrite list_lookup_insert_eq by (by eapply lookup_lt_Some). by rewrite Hi. }
  apply (inv_flag s i io); [done..| | |].
  - unfold holds. cbn. rewrite Ha. by destruct Est as [-> | ->].
  - unfold owed. cbn. rewrite Z.eqb_refl, Ha, H2. by destruct Est as [-> | ->].
  - split; [done|]. split; [cbn; by destruct Est as [-> | ->]|]. cbn. split; [by destruct Est as [-> | ->]|]. destruct H3 as [_ ->]. done.
Qed.

Lemma inv_count s i io : inv s -> ios s !! i = Some io -> at_ io <> Submitting -> counted io = false -> inv (write_count s i io).
Proof.
  intros Hs Hi Ha Hc. destruct (io_at s i io Hs Hi) as (H1 & H2 & H3 & H4). apply (core_move s i io); try done.
  - exact (inv_pool s Hs).
  - intros b. unfold holds. cbn. lia.
  - intros r Hr. unfold add_pending. cbn. f_equal. unfold owed. cbn. rewrite Z.eqb_refl, Hc. destruct (at_ io); try lia; done.
  - split; [|split; [done|split; [done|]]]; cbn.
    + rewrite lookup_alter_eq. destruct H1 as [r ->]. by eexists.
    + intros Hf. destruct (H4 Hf) as (Hcode & r & Hr & Hfr). split; [done|]. rewrite lookup_alter_eq, Hr. by eexists.
Qed.

Lemma inv_driver s i io throws : inv s -> ios s !! i = Some io -> at_ io = Running -> inv (callback_driver s i io throws).
Proof.
  intros Hs Hi Ha. destruct (io_at s i io Hs Hi) as (H1 & H2 & H3 & H4). rewrite Ha in H3. destruct H3 as [Hc Hf].
  unfold callback_driver. destruct throws.
  - apply (core_move s i io); try done.
    + exact (inv_pool s Hs).
    + intros b. unfold holds. cbn. rewrite Ha. cbn. lia.
    + intros r. split; [done|]. split; [done|]. cbn. intros ->. by destruct (ds_failed r).
    + intros r Hr. cbn. rewrite Hr at 1. f_equal. unfold owed. cbn. rewrite Z.eqb_refl, Ha. lia.
    + destruct H1 as [r Hr]. split; [cbn; rewrite lookup_alter_eq, Hr; by eexists|]. split; [done|]. split; [by cbn|].
      intros _. split; [done|]. cbn. rewrite lookup_alter_eq, Hr. by eexists.
  - apply (inv_flag s i io); try done.
    + unfold holds. cbn. by rewrite Ha.
    + unfold owed. cbn. by rewrite Z.eqb_refl, Ha.
    + split; [done|]. split; [done|]. split; [cbn; by rewrite Hf|]. cbn. by rewrite Hf.
Qed.

Lemma b2z_cond (b : bool) : 0 <= b2z b <= 1.
Proof. by destruct b. Qed.

Lemma holds_refs s i io : inv s -> ios s !! i = Some io -> holds io = true -> 0 < refs (pool s) (io_buf io).
Proof.
  intros Hs Hi Hh. rewrite (inv_refs s Hs). unfold owners.
  assert (Hn : forall {A} (g : A -> bool) l, 0 <= total (fun x => b2z (g x)) l) by (intros A g l; induction l as [|x l IH]; cbn; [|pose proof (b2z_cond (g x))]; lia).
  pose proof (Hn _ (fun v => view_buf v =? io_buf io)%nat (views s)). pose proof (Hn _ (fun f => snd f =? io_buf io)%nat (prefetched s)).
  pose proof (total_elem (fun x => b2z (holds x && (io_buf x =? io_buf io)%nat)) (ios s) i io) as H'.
  cbv beta in H'. rewrite Hh, Nat.eqb_refl in H'. cbn [andb b2z] in H'. specialize (H' ltac:(apply list.Forall_forall; intros x _; apply b2z_cond) Hi). lia.
Qed.

Lemma inv_callback_release s i io s' : inv s -> ios s !! i = Some io -> at_ io = Recorded -> callback_release s i io = Ok s' -> inv s'.
Proof.
  intros Hs Hi Ha E. destruct (io_at s i io Hs Hi) as (H1 & H2 & H3 & H4). rewrite Ha in H3.
  assert (Hh : holds io = true) by (unfold holds; by rewrite Ha).
  destruct (release_law (pool s) (io_buf io) (inv_pool s Hs) (holds_refs s i io Hs Hi Hh)) as (p' & Ep & Hp' & Hb & Ho).
  unfold callback_release in E. rewrite Ep in E. cbn [bind] in E. injection E as <-.
  pose proof (core_move s i io (move Released io) (fun r => r) p' Hs Hi eq_refl eq_refl Hp') as H. rewrite alter_same_map in H. apply H; try done.
  - intros b. rewrite Hh. cbn. destruct (Nat.eqb_spec (io_buf io) b) as [<-|Hne]; cbn; [lia|]. rewrite Ho by done. lia.
  - intros r Hr. rewrite Hr at 1. f_equal. unfold owed. cbn. rewrite Z.eqb_refl, Ha. lia.
Qed.

Lemma inv_end s i io : inv s -> ios s !! i = Some io -> at_ io = Released -> inv (callback_end s i io).
Proof.
  intros Hs Hi Ha. destruct (io_at s i io Hs Hi) as (H1 & H2 & H3 & H4). rewrite Ha in H3. apply (core_move s i io); try done.
  - exact (inv_pool s Hs).
  - intros b. unfold holds. cbn. rewrite Ha. cbn. lia.
  - intros r Hr. unfold add_pending. cbn. f_equal. unfold owed. cbn. rewrite Z.eqb_refl, Ha. destruct (counted io); lia.
  - split; [|split; [done|split; [done|]]]; cbn.
    + rewrite lookup_alter_eq. destruct H1 as [r ->]. by eexists.
    + intros Hf. destruct (H4 Hf) as (Hcode & r & Hr & Hfr). split; [done|]. rewrite lookup_alter_eq, Hr. by eexists.
Qed.

(** ** Reads *)

Definition in_views (b : nat) (l : list ViewRecord) : Z := total (fun v => b2z (view_buf v =? b)%nat) l.
Definition in_queues (b : nat) (l : list (Z * nat)) : Z := total (fun f => b2z (snd f =? b)%nat) l.
Definition of_dataset (id : Z) (l : list ViewRecord) : Z := total (fun v => b2z (view_dataset v =? id)) l.

(** Buffers change hands between the pool, the queues and the views. *)
Lemma inv_reads s p v f id n : inv s -> pool_valid p ->
  (forall b, refs p b = refs (pool s) b + (in_views b v - in_views b (views s)) + (in_queues b f - in_queues b (prefetched s))) ->
  (forall i, of_dataset i v = of_dataset i (views s) + if decide (i = id) then n else 0) ->
  Forall (fun x => is_Some (datasets s !! view_dataset x)) v -> Forall (fun x => is_Some (datasets s !! fst x)) f ->
  inv (mkCore p (ios s) v f (alter (add_views n) id (datasets s)) (queue_capacity s) (stopped s)).
Proof.
  intros [Hp Hr Hio Hds Hv Hpf] Hp' Hr' Hn Hv' Hf'.
  assert (Hg : grows (datasets s) (alter (add_views n) id (datasets s))) by (apply grows_alter; done).
  split; cbn.
  - done.
  - intros b. rewrite Hr', Hr. unfold owners. cbn. unfold in_views, in_queues. lia.
  - eapply Forall_impl; [exact Hio|]. intros x. by apply io_ok_grows.
  - intros i r Hi. specialize (Hn i). unfold of_dataset in Hn. destruct (decide (i = id)) as [->|Hne].
    + rewrite lookup_alter_eq in Hi. destruct (datasets s !! id) as [r0|] eqn:E; [|done]. injection Hi as <-.
      destruct (Hds _ _ E) as (H1 & H2 & H3). split; [done|]. split; [|done]. cbn. rewrite H2, to_u64_add. f_equal. lia.
    + rewrite lookup_alter_ne in Hi by done. destruct (Hds _ _ Hi) as (H1 & H2 & H3). split; [done|]. split; [|done]. cbn. rewrite H2. f_equal. lia.
  - by eapply (some_grows view_dataset).
  - by eapply (some_grows fst).
Qed.

(** ... and no view is made or released. *)
Lemma inv_buffers s p f : inv s -> pool_valid p ->
  (forall b, refs p b = refs (pool s) b + (in_queues b f - in_queues b (prefetched s))) ->
  Forall (fun x => is_Some (datasets s !! fst x)) f -> inv (with_pool (with_reads s (views s) f) p).
Proof.
  intros Hs Hp Hr Hf. destruct (Hs) as [Hp0 Hr0 Hio Hds Hv Hpf]. split; cbn; try done.
  intros b. rewrite Hr, Hr0. unfold owners, in_queues. cbn. lia.
Qed.

Lemma in_queues_delete b l k x : l !! k = Some x -> in_queues b (delete k l) = in_queues b l - b2z (snd x =? b)%nat.
Proof. intros H. unfold in_queues. by rewrite (total_delete _ _ _ _ H). Qed.

Lemma total_nonneg {A} (g : A -> bool) l : 0 <= total (fun x => b2z (g x)) l.
Proof. induction l as [|x l IH]; cbn; [lia|]. pose proof (b2z_cond (g x)). lia. Qed.

Lemma owner_refs s b : inv s -> 0 < in_views b (views s) \/ 0 < in_queues b (prefetched s) -> 0 < refs (pool s) b.
Proof.
  intros Hs H. rewrite (inv_refs s Hs). unfold owners. unfold in_views, in_queues in H.
  pose proof (total_nonneg (fun io => holds io && (io_buf io =? b)%nat) (ios s)).
  pose proof (total_nonneg (fun v => view_buf v =? b)%nat (views s)). pose proof (total_nonneg (fun f => snd f =? b)%nat (prefetched s)). lia.
Qed.

Lemma queue_refs s k id buf : inv s -> prefetched s !! k = Some (id, buf) -> 0 < refs (pool s) buf.
Proof.
  intros Hs Hk. apply owner_refs; [done|]. right. pose proof (total_elem (fun f => b2z (snd f =? buf)%nat) (prefetched s) k (id, buf)) as H.
  cbn in H. rewrite Nat.eqb_refl in H. cbn [b2z] in H. specialize (H ltac:(apply list.Forall_forall; intros x _; apply b2z_cond) Hk).
  unfold in_queues. lia.
Qed.

Lemma view_refs s k v : inv s -> views s !! k = Some v -> 0 < refs (pool s) (view_buf v).
Proof.
  intros Hs Hk. apply owner_refs; [done|]. left. pose proof (total_elem (fun x => b2z (view_buf x =? view_buf v)%nat) (views s) k v) as H.
  cbn in H. rewrite Nat.eqb_refl in H. cbn [b2z] in H. specialize (H ltac:(apply list.Forall_forall; intros x _; apply b2z_cond) Hk).
  unfold in_views. lia.
Qed.

Lemma inv_fetch s id r n buf p : inv s -> datasets s !! id = Some r -> pool_acquire (pool s) n (Some buf) p ->
  inv (with_pool (with_reads s (views s) (prefetched s ++ [(id, buf)])) p).
Proof.
  intros Hs Hid Ha. destruct (acquire_law _ _ _ _ (inv_pool s Hs) Ha) as (Hp & H0 & H1 & _ & Ho). apply (inv_buffers s); [done..| |].
  - intros b. unfold in_queues. rewrite total_concat. cbn. destruct (Nat.eqb_spec buf b) as [<-|Hne]; cbn [b2z]; [lia|]. rewrite Ho by done. lia.
  - apply Forall_app. split; [apply Hs|]. constructor; [by eexists|constructor].
Qed.

Lemma inv_read s id buf k : inv s -> prefetched s !! k = Some (id, buf) -> inv (read_view s id buf (delete k (prefetched s))).
Proof.
  intros Hs Hk. pose proof (inv_prefetched s Hs) as Hpf. assert (Hid := Hpf). rewrite Forall_lookup in Hid. specialize (Hid k _ Hk). cbn in Hid.
  change (inv (mkCore (pool s) (ios s) (views s ++ [mkView id buf]) (delete k (prefetched s)) (alter (add_views 1) id (datasets s))
    (queue_capacity s) (stopped s))).
  apply (inv_reads s); [done|apply (inv_pool s Hs)|..].
  - intros b. rewrite (in_queues_delete _ _ _ _ Hk). unfold in_views. rewrite total_concat. cbn. lia.
  - intros i. unfold of_dataset. rewrite total_concat. cbn. case_decide as E; [subst; rewrite Z.eqb_refl; cbn; lia|].
    rewrite (proj2 (Z.eqb_neq id i)) by congruence. cbn. lia.
  - apply Forall_app. split; [apply Hs|]. by constructor.
  - by apply Forall_delete.
Qed.

Lemma inv_discard s id buf k s' : inv s -> prefetched s !! k = Some (id, buf) -> discard s buf (delete k (prefetched s)) = Ok s' -> inv s'.
Proof.
  intros Hs Hk E. destruct (release_law (pool s) buf (inv_pool s Hs) (queue_refs s k id buf Hs Hk)) as (p' & Ep & Hp' & Hb & Ho).
  unfold discard in E. rewrite Ep in E. injection E as <-. apply (inv_buffers s); [done..| |].
  - intros b. rewrite (in_queues_delete _ _ _ _ Hk). cbn. destruct (Nat.eqb_spec buf b) as [<-|Hne]; cbn [b2z]; [lia|]. rewrite Ho by done. lia.
  - apply Forall_delete, Hs.
Qed.

Lemma inv_view s k v s' : inv s -> views s !! k = Some v -> release_view s k v = Ok s' -> inv s'.
Proof.
  intros Hs Hk E. destruct (release_law (pool s) (view_buf v) (inv_pool s Hs) (view_refs s k v Hs Hk)) as (p' & Ep & Hp' & Hb & Ho).
  unfold release_view in E. rewrite Ep in E. injection E as <-.
  change (inv (mkCore p' (ios s) (delete k (views s)) (prefetched s) (alter (add_views (-1)) (view_dataset v) (datasets s))
    (queue_capacity s) (stopped s))).
  apply (inv_reads s); [done..| | | |apply Hs].
  - intros b. unfold in_views. rewrite (total_delete _ _ _ _ Hk). destruct (Nat.eqb_spec (view_buf v) b) as [<-|Hne]; cbn [b2z]; [lia|].
    rewrite Ho by done. lia.
  - intros i. unfold of_dataset. rewrite (total_delete _ _ _ _ Hk). case_decide as E; [subst; rewrite Z.eqb_refl; cbn; lia|].
    rewrite (proj2 (Z.eqb_neq (view_dataset v) i)) by congruence. cbn. lia.
  - apply Forall_delete, Hs.
Qed.

(** ** All steps *)

Lemma inv_datasets_only s ds : inv s -> grows (datasets s) ds ->
  (forall id r, ds !! id = Some r -> dataset_ok s id r) ->
  inv (mkCore (pool s) (ios s) (views s) (prefetched s) ds (queue_capacity s) (stopped s)).
Proof.
  intros [Hp Hr Hio Hds Hv Hpf] Hg H. split; cbn; try done.
  - eapply Forall_impl; [exact Hio|]. intros x. by apply io_ok_grows.
  - by eapply (some_grows view_dataset).
  - by eapply (some_grows fst).
Qed.

Lemma inv_open s id : inv s -> datasets s !! id = None ->
  inv (mkCore (pool s) (ios s) (views s) (prefetched s) (<[id := new_dataset]> (datasets s)) (queue_capacity s) (stopped s)).
Proof.
  intros Hs Hid. apply (inv_datasets_only s); [done|by apply grows_insert|]. intros i r Hi. destruct (decide (i = id)) as [->|Hne].
  - rewrite lookup_insert_eq in Hi. injection Hi as <-. split; [|split; [|done]]; cbn; rewrite total_zero; try done.
    + eapply Forall_impl; [exact (inv_ios s Hs)|]. intros io ([r Hr] & _). apply owed_other. congruence.
    + eapply Forall_impl; [exact (inv_views s Hs)|]. cbn. intros v [r Hr]. rewrite (proj2 (Z.eqb_neq _ _)); [done|]. congruence.
  - rewrite lookup_insert_ne in Hi by done. by apply (inv_datasets s Hs).
Qed.

Lemma inv_write s id r n buf p : inv s -> datasets s !! id = Some r -> pool_acquire (pool s) n (Some buf) p -> inv (write_begin s id buf p).
Proof.
  intros Hs Hid Ha. destruct (acquire_law _ _ _ _ (inv_pool s Hs) Ha) as (Hp & H0 & H1 & _ & Ho).
  destruct (Hs) as [Hp0 Hr0 Hio Hds Hv Hpf]. split; cbn; try done.
  - intros b. unfold owners. cbn. rewrite total_concat. cbn. specialize (Hr0 b). unfold owners in Hr0.
    destruct (Nat.eqb_spec buf b) as [<-|Hne]; cbn [b2z]; [lia|]. rewrite Ho by done. lia.
  - apply Forall_app. split; [done|]. constructor; [|constructor]. split; [by eexists|]. done.
  - intros i x Hi. destruct (Hds i x Hi) as (D1 & D2 & D3). split; [|by split]. cbn. rewrite total_concat, D1. f_equal. cbn [total].
    assert (owed i (mkIo id buf false false AMIO_OK Submitting false) = 0) as ->; [|lia]. unfold owed. cbn. by destruct (id =? i).
Qed.

Lemma inv_close s id r late ft ct status s' : inv s -> datasets s !! id = Some r -> close_dataset s id r late ft ct = Some (status, s') -> inv s'.
Proof.
  intros Hs Hid. unfold close_dataset. destruct (close_guard r); [by intros [= <- <-]|]. case_match; [|done]. intros [= <- <-].
  apply (inv_datasets_only s); [done|by apply grows_alter|]. intros i x Hi. destruct (decide (i = id)) as [->|Hne].
  - rewrite lookup_alter_eq, Hid in Hi. injection Hi as <-. destruct (inv_datasets s Hs id r Hid) as (D1 & D2 & D3). by split.
  - rewrite lookup_alter_ne in Hi by done. by apply (inv_datasets s Hs).
Qed.

Lemma step_inv s s' : step s s' -> inv s -> inv s'.
Proof.
  destruct 1; intros Hs.
  - by apply inv_open.
  - by eapply inv_write.
  - by eapply inv_submit.
  - by apply inv_count.
  - destruct (io_at s i io Hs ltac:(done)) as (H1 & H2 & H3 & H4). rewrite H0 in H3. apply (inv_flag s i io); try done.
    + unfold holds. cbn. by rewrite H0.
    + unfold owed. cbn. by rewrite Z.eqb_refl, H0.
  - by apply inv_driver.
  - by eapply inv_callback_release.
  - by apply inv_end.
  - by eapply inv_fetch.
  - by apply inv_read.
  - by eapply inv_discard.
  - by eapply inv_view.
  - by eapply inv_close.
  - by destruct Hs.
Qed.

Lemma new_core_inv p capacity : pool_valid p -> (forall b, refs p b = 0) -> inv (new_core p capacity).
Proof. intros Hp Hr. split; cbn; try done. Qed.

Lemma steps_inv s s' : rtc step s s' -> inv s -> inv s'.
Proof. induction 1 as [s|s t u Hst _ IH]; [done|]. intros Hs. apply IH. by eapply step_inv. Qed.

Lemma core_reachable_inv s : reachable s -> inv s.
Proof. intros (p & c & Hp & Hr & H). eapply steps_inv; [exact H|]. by apply new_core_inv. Qed.

(** ** What stays *)

Record follows (io io' : IoRecord) : Prop := {
  f_dataset : io_dataset io' = io_dataset io;
  f_buf : io_buf io' = io_buf io;
  f_failed : failed io = true -> failed io' = true;
  f_completed : completed io = true -> completed io' = true;
  f_counted : counted io = true -> counted io' = true;
  f_dropped : at_ io = Dropped -> at_ io' = Dropped
}.

Lemma follows_refl io : follows io io.
Proof. by split. Qed.

Definition ios_follow s s' : Prop := forall i io, ios s !! i = Some io -> exists io', ios s' !! i = Some io' /\ follows io io'.

Lemma follow_insert (l : list IoRecord) i io io' : l !! i = Some io -> follows io io' ->
  forall j x, l !! j = Some x -> exists x', <[i := io']> l !! j = Some x' /\ follows x x'.
Proof.
  intros Hi H j x Hj. destruct (decide (j = i)) as [->|Hne].
  - exists io'. rewrite list_lookup_insert_eq by (by eapply lookup_lt_Some). split; [done|]. congruence.
  - exists x. rewrite list_lookup_insert_ne by done. split; [done|apply follows_refl].
Qed.

Lemma step_follow s s' : step s s' -> inv s -> ios_follow s s'.
Proof.
  destruct 1 as [| | s i io Hi Ha | s i io Hi Ha Hc | s i io Hi Ha | s i io throws Hi Ha | s i io s' Hi Ha E | s i io Hi Ha | | | s id buf k s' Hk E | s k v s' Hk E | s id r late ft ct status s' Hid E | s];
    intros Hs; try (intros j x Hj; exists x; split; [exact Hj|apply follows_refl]).
  - intros j x Hj. exists x. split; [by apply lookup_app_l_Some|apply follows_refl].
  - unfold write_submit. set (st := if stopped s || (queue_capacity s <=? queue_length s)%nat then Dropped else Queued).
    intros j x Hj. cbn. rewrite list_lookup_alter. case_decide as Ej; [subst j|by exists x].
    rewrite Hi in Hj. injection Hj as <-. rewrite Hi. eexists. split; [done|]. split; cbn; try done. congruence.
  - intros j x Hj; eapply (follow_insert _ i io); [exact Hi| |exact Hj]. by split.
  - intros j x Hj; eapply (follow_insert _ i io); [exact Hi| |exact Hj]. split; cbn; try done. congruence.
  - unfold callback_driver. destruct throws; (intros j x Hj; eapply (follow_insert _ i io); [exact Hi| |exact Hj]); split; cbn; try done; congruence.
  - unfold callback_release in E. destruct (pool_release (pool s) (io_buf io)); try done. injection E as <-.
    intros j x Hj; eapply (follow_insert _ i io); [exact Hi| |exact Hj]. split; cbn; try done. congruence.
  - intros j x Hj; eapply (follow_insert _ i io); [exact Hi| |exact Hj]. split; cbn; try done. congruence.
  - unfold discard in E. destruct (pool_release (pool s) buf); try done. injection E as <-. intros j x Hj. exists x. split; [exact Hj|apply follows_refl].
  - unfold release_view in E. destruct (pool_release (pool s) (view_buf v)); try done. injection E as <-. intros j x Hj. exists x. split; [exact Hj|apply follows_refl].
  - unfold close_dataset in E. destruct (close_guard r); [injection E as <- <-|destruct ((pending_writes r =? 0) || late); [injection E as <- <-|done]];
      intros j x Hj; exists x; (split; [exact Hj|apply follows_refl]).
Qed.

Lemma follows_trans a b c : follows a b -> follows b c -> follows a c.
Proof. intros [] []. split; try congruence; auto. Qed.

Lemma steps_follow s s' : rtc step s s' -> inv s -> ios_follow s s'.
Proof.
  induction 1 as [s|s t u Hst _ IH]; intros Hs i io Hi; [exists io; split; [done|apply follows_refl]|].
  destruct (step_follow s t Hst Hs i io Hi) as (io1 & H1 & F1).
  destruct (IH ltac:(by eapply step_inv) i io1 H1) as (io2 & H2 & F2). exists io2. split; [done|]. by eapply follows_trans.
Qed.

(** A dataset that reports a failure has a write that failed. *)
Definition failures_have_writes s : Prop := forall id r, datasets s !! id = Some r -> ds_failed r = true ->
  exists i io, ios s !! i = Some io /\ io_dataset io = id /\ failed io = true.

Lemma failures_keep s s' : inv s -> ios_follow s s' -> failures_have_writes s ->
  (forall id r, datasets s' !! id = Some r -> ds_failed r = true -> exists r0, datasets s !! id = Some r0 /\ ds_failed r0 = true) -> failures_have_writes s'.
Proof.
  intros Hs Hf H Hb id r Hid Hr. destruct (Hb id r Hid Hr) as (r0 & Hid0 & Hr0). destruct (H id r0 Hid0 Hr0) as (i & io & Hi & Hd & Hfl).
  destruct (Hf i io Hi) as (io' & Hi' & F). exists i, io'. split; [done|]. split; [|by apply F]. rewrite (f_dataset _ _ F). done.
Qed.

Lemma alter_failed (d : gmap Z DatasetRecord) k f : (forall r, ds_failed (f r) = ds_failed r) ->
  forall id r, alter f k d !! id = Some r -> ds_failed r = true -> exists r0, d !! id = Some r0 /\ ds_failed r0 = true.
Proof.
  intros Hf id r Hid Hr. destruct (decide (id = k)) as [->|Hne].
  - rewrite lookup_alter_eq in Hid. destruct (d !! k) as [r0|]; [|done]. injection Hid as <-. exists r0. split; [done|]. by rewrite Hf in Hr.
  - rewrite lookup_alter_ne in Hid by done. by exists r.
Qed.

Lemma step_failures s s' : step s s' -> inv s -> failures_have_writes s -> failures_have_writes s'.
Proof.
  intros Hst Hs H. pose proof (step_follow s s' Hst Hs) as Hf.
  destruct Hst as [s id Hid| | s i io Hi Ha | s i io Hi Ha Hc | s i io Hi Ha | s i io throws Hi Ha | s i io s' Hi Ha E | s i io Hi Ha | | | s id buf k s' Hk E | s k v s' Hk E | s id r late ft ct status s' Hid E | s];
    try (by apply (failures_keep s); [..|intros i' r' Hi' Hr'; exists r']).
  - apply (failures_keep s); [done..|]. cbn. intros i r Hi Hr. destruct (decide (i = id)) as [->|Hne].
    + rewrite lookup_insert_eq in Hi. injection Hi as <-. done.
    + rewrite lookup_insert_ne in Hi by done. by exists r.
  - apply (failures_keep s); [done..|]. by apply alter_failed.
  - unfold callback_driver in *. destruct throws; [|by apply (failures_keep s); [..|intros i' r' Hi' Hr'; exists r']].
    intros id r Hid Hr. destruct (decide (id = io_dataset io)) as [->|Hne].
    + exists i. eexists. cbn. rewrite list_lookup_insert_eq by (by eapply lookup_lt_Some). split; [done|]. done.
    + cbn in Hid. rewrite lookup_alter_ne in Hid by done. destruct (H id r Hid Hr) as (j & x & Hj & Hd & Hx).
      destruct (Hf j x Hj) as (x' & Hx' & F). exists j, x'. split; [done|]. split; [by rewrite (f_dataset _ _ F)|by apply F].
  - unfold callback_release in E. destruct (pool_release (pool s) (io_buf io)); try done. injection E as <-.
    by apply (failures_keep s); [..|intros i' r' Hi' Hr'; exists r'].
  - apply (failures_keep s); [done..|]. by apply alter_failed.
  - apply (failures_keep s); [done..|]. by apply alter_failed.
  - unfold discard in E. destruct (pool_release (pool s) buf); try done. injection E as <-.
    by apply (failures_keep s); [..|intros i' r' Hi' Hr'; exists r'].
  - unfold release_view in E. destruct (pool_release (pool s) (view_buf v)); try done. injection E as <-.
    apply (failures_keep s); [done..|]. by apply alter_failed.
  - unfold close_dataset in E. destruct (close_guard r); [injection E as <- <-|destruct ((pending_writes r =? 0) || late); [injection E as <- <-|done]].
    + done.
    + apply (failures_keep s); [done..|]. by apply alter_failed.
Qed.

Lemma steps_failures s s' : rtc step s s' -> inv s -> failures_have_writes s -> failures_have_writes s'.
Proof. induction 1 as [s|s t u Hst _ IH]; [done|]. intros Hs H. apply IH; [by eapply step_inv|by eapply step_failures]. Qed.

Lemma reachable_failures s : reachable s -> failures_have_writes s.
Proof. intros (p & c & Hp & Hr & H). eapply steps_failures; [exact H|by apply new_core_inv|]. intros id r Hid. done. Qed.

(** A buffer never has two owners. *)
Lemma step_exclusive s s' : step s s' -> inv s -> (forall b, refs (pool s) b <= 1) -> forall b, refs (pool s') b <= 1.
Proof.
  assert (Hacq : forall p n buf p', pool_valid p -> pool_acquire p n (Some buf) p' -> (forall b, refs p b <= 1) -> forall b, refs p' b <= 1).
  { intros p n buf p' Hp Ha H b. destruct (acquire_law _ _ _ _ Hp Ha) as (_ & _ & H1 & _ & Ho). destruct (decide (b = buf)) as [->|Hne]; [lia|].
    rewrite Ho by done. done. }
  assert (Hrel : forall p buf p', pool_valid p -> 0 < refs p buf -> pool_release p buf = Ok p' -> (forall b, refs p b <= 1) -> forall b, refs p' b <= 1).
  { intros p buf p' Hp Hb E H b. destruct (release_law p buf Hp Hb) as (p1 & E1 & _ & Hb1 & Ho). rewrite E in E1. injection E1 as <-.
    destruct (decide (b = buf)) as [->|Hne]; [specialize (H buf); lia|]. rewrite Ho by done. done. }
  destruct 1 as [s id Hid | s id r n buf p Hid Ha | s i io Hi Ha | s i io Hi Ha Hc | s i io Hi Ha | s i io throws Hi Ha | s i io s' Hi Ha E | s i io Hi Ha | s id r n buf p Hid Ha | s id buf k Hk | s id buf k s' Hk E | s k v s' Hk E | s id r late ft ct status s' Hid E | s];
    intros Hs H; try exact H.
  - cbn. eapply Hacq; [|done..]. apply Hs.
  - by destruct throws.
  - unfold callback_release in E. destruct (pool_release (pool s) (io_buf io)) as [p'| |] eqn:Ep; try done. injection E as <-. cbn.
    eapply Hrel; [apply Hs| |done..]. apply (holds_refs s i io); try done. unfold holds. by rewrite Ha.
  - cbn. eapply Hacq; [|done..]. apply Hs.
  - unfold discard in E. destruct (pool_release (pool s) buf) as [p'| |] eqn:Ep; try done. injection E as <-. cbn.
    eapply Hrel; [apply Hs| |done..]. by apply (queue_refs s k id).
  - unfold release_view in E. destruct (pool_release (pool s) (view_buf v)) as [p'| |] eqn:Ep; try done. injection E as <-. cbn.
    eapply Hrel; [apply Hs| |done..]. by apply (view_refs s k).
  - unfold close_dataset in E. destruct (close_guard r); [by injection E as <- <-|]. case_match; [|done]. by injection E as <- <-.
Qed.

Lemma reachable_exclusive s b : reachable s -> refs (pool s) b <= 1.
Proof.
  intros (p & c & Hp & Hr & H). revert b. assert (Hs : inv (new_core p c)) by (by apply new_core_inv).
  assert (H0 : forall b, refs (pool (new_core p c)) b <= 1) by (intros b; cbn; rewrite Hr; lia). revert Hs H0.
  induction H as [s|s t u Hst _ IH]; intros Hs H0; [done|]. apply IH; [by eapply step_inv|]. by eapply step_exclusive.
Qed.
End Inv.

(** * Properties *)

Section Properties.
Context {P : Type} {pool_ops : BufferPool P}.
Implicit Types s : AMIO_Core P.

(** Every call of [amio_write] on the dataset has returned or has not reached the queue. *)
Definition no_call_between (s : AMIO_Core P) (id : Z) : Prop :=
  (forall i io, ios s !! i = Some io -> io_dataset io = id -> at_ io = Submitting \/ counted io = true) /\
  Z.of_nat (length (ios s)) < 18446744073709551616.

Lemma owed_range s id : inv s -> no_call_between s id -> Forall (fun io => 0 <= owed id io <= 1) (ios s).
Proof.
  intros Hs [H _]. apply Forall_lookup. intros i io Hi. unfold owed. destruct (Z.eqb_spec (io_dataset io) id) as [E|]; [|lia].
  destruct (H i io Hi E) as [-> | ->]; [lia|]. destruct (at_ io); lia.
Qed.

Lemma pending_total s id r : inv s -> no_call_between s id -> datasets s !! id = Some r -> pending_writes r = total (owed id) (ios s).
Proof.
  intros Hs Hn Hid. destruct (inv_datasets s Hs id r Hid) as (-> & _). unfold to_u64. apply Z.mod_small.
  pose proof (total_bounds (owed id) (ios s) (owed_range s id Hs Hn)). destruct Hn as [_ Hn]. lia.
Qed.

(** When the count is zero, no write of the dataset is on its way. *)
Lemma drained s id r i io : inv s -> no_call_between s id -> datasets s !! id = Some r -> pending_writes r = 0 ->
  ios s !! i = Some io -> io_dataset io = id -> counted io = true -> at_ io = Finished /\ completed io = negb (failed io).
Proof.
  intros Hs Hn Hid Hp Hi Hd Hc. rewrite (pending_total s id r Hs Hn Hid) in Hp.
  assert (Hr := owed_range s id Hs Hn). pose proof (total_elem (owed id) (ios s) i io) as H.
  assert (Hnn : Forall (fun x => 0 <= owed id x) (ios s)) by (eapply Forall_impl; [exact Hr|]; cbn; intros x Hx; lia).
  specialize (H Hnn Hi). unfold owed at 1 in H. rewrite Hd, Z.eqb_refl, Hc in H.
  destruct (io_at s i io Hs Hi) as (_ & H2 & H3 & _). destruct (at_ io) eqn:Ea; try lia; [by rewrite H2 in Hc|done].
Qed.

(** C25. The buffers of a core are accounted for: a buffer has exactly the references of the
    writes, views and prefetch queues that hold it, never more than one, so no two of them
    share it; every release on the way finds its reference; and a dataset counts its
    outstanding views. *)
Theorem buffers_accounted s : reachable s ->
  (forall b, refs (pool s) b = owners s b /\ refs (pool s) b <= 1) /\
  (forall i io, ios s !! i = Some io -> at_ io = Recorded -> exists s', callback_release s i io = Ok s') /\
  (forall k v, views s !! k = Some v -> exists s', release_view s k v = Ok s') /\
  (forall k id buf, prefetched s !! k = Some (id, buf) -> exists s', discard s buf (delete k (prefetched s)) = Ok s') /\
  (forall id r, datasets s !! id = Some r -> outstanding_views r = to_u64 (of_dataset id (views s))).
Proof.
  intros Hr. pose proof (core_reachable_inv s Hr) as Hs.
  assert (Hrel : forall b, 0 < refs (pool s) b -> exists p, pool_release (pool s) b = Ok p).
  { intros b Hb. destruct (release_law (pool s) b (inv_pool s Hs) Hb) as (p & E & _). by exists p. }
  split; [|split; [|split; [|split]]].
  - intros b. split; [by apply inv_refs|by apply reachable_exclusive].
  - intros i io Hi Ha. destruct (Hrel (io_buf io)) as [p Ep].
    + apply (holds_refs s i io Hs Hi). unfold holds. by rewrite Ha.
    + unfold callback_release. rewrite Ep. by eexists.
  - intros k v Hk. destruct (Hrel (view_buf v)) as [p Ep]; [by apply (view_refs s k)|]. unfold release_view. rewrite Ep. by eexists.
  - intros k id buf Hk. destruct (Hrel buf) as [p Ep]; [by apply (queue_refs s k id)|]. unfold discard. rewrite Ep. by eexists.
  - intros id r Hid. by apply (inv_datasets s Hs).
Qed.

(** What [amio_flush] and [amio_close] report: when no other thread is inside [amio_write]
    on the dataset, a flush that does not time out, and a close that did not wait in vain,
    found every accepted write finished; [AMIO_OK] of the flush means that every one of them
    succeeded, and any other status that a write of the dataset failed. *)
Theorem flush_reports s s' id r r' late status : reachable s -> no_call_between s id -> datasets s !! id = Some r ->
  rtc step s s' -> datasets s' !! id = Some r' ->
  (flush_poll r r' late = Some status ->
    (status = AMIO_ERR_TIMEOUT /\ late = true) \/
    ((forall i io, ios s !! i = Some io -> io_dataset io = id -> counted io = true ->
        at_ io = Finished /\ completed io = negb (failed io) /\ (status = AMIO_OK -> failed io = false)) /\
     (status = AMIO_OK \/ (status = AMIO_ERR_BACKEND_FAILURE /\
        exists i io, ios s' !! i = Some io /\ io_dataset io = id /\ failed io = true)))) /\
  (forall ft ct t, close_dataset s id r false ft ct = Some (status, t) -> close_guard r = false ->
    forall i io, ios s !! i = Some io -> io_dataset io = id -> counted io = true -> at_ io = Finished).
Proof.
  intros Hr Hn Hid Hst Hid'. pose proof (core_reachable_inv s Hr) as Hs. pose proof (steps_inv s s' Hst Hs) as Hs'. split.
  - unfold flush_poll. destruct (Z.eqb_spec (pending_writes r) 0) as [Hp|Hp].
    + intros [= <-]. right. destruct (inv_datasets s' Hs' id r' Hid') as (_ & _ & Hc). unfold failure_status. split.
      * intros i io Hi Hd Hct. destruct (drained s id r i io Hs Hn Hid Hp Hi Hd Hct) as [Ha Hcm]. do 2 (split; [done|]).
        intros Hok. destruct (failed io) eqn:Hf; [|done]. destruct (steps_follow s s' Hst Hs i io Hi) as (io' & Hi' & F).
        destruct (io_at s' i io' Hs' Hi') as (_ & _ & _ & H4). destruct (H4 (f_failed _ _ F Hf)) as (_ & r2 & Hr2 & Hfr2).
        rewrite (f_dataset _ _ F), Hd, Hid' in Hr2. injection Hr2 as <-. rewrite Hfr2, Hc, Hfr2 in Hok. discriminate.
      * destruct (ds_failed r') eqn:Hf; [|by left]. right. rewrite Hc. split; [done|].
        exact (steps_failures s s' Hst Hs (reachable_failures s Hr) id r' Hid' Hf).
    + destruct late; [|done]. intros [= <-]. by left.
  - intros ft ct t E Hg i io Hi Hd Hct. unfold close_dataset in E. rewrite Hg, orb_false_r in E.
    destruct (Z.eqb_spec (pending_writes r) 0) as [Hp|]; [|done]. by apply (drained s id r i io).
Qed.

(** [amio_wait] never reports the failure of a write: once the driver has thrown, the
    record stays failed and is never marked completed, so that a wait returns nothing but a
    timeout, whatever happens afterwards. *)
Theorem wait_misses_failures s s' i io : reachable s -> ios s !! i = Some io -> failed io = true -> rtc step s s' ->
  exists io', ios s' !! i = Some io' /\ failed io' = true /\
    wait_poll io' false = None /\ wait_poll io' true = Some AMIO_ERR_TIMEOUT.
Proof.
  intros Hr Hi Hf Hst. pose proof (core_reachable_inv s Hr) as Hs. destruct (steps_follow s s' Hst Hs i io Hi) as (io' & Hi' & F).
  exists io'. split; [done|]. assert (Hf' := f_failed _ _ F Hf). split; [done|].
  destruct (io_at s' i io' (steps_inv s s' Hst Hs) Hi') as (_ & _ & H3 & _).
  assert (Hc : completed io' = false) by (destruct (at_ io'); [destruct H3; congruence..| | | |destruct H3; congruence]; by rewrite H3, Hf').
  unfold wait_poll. by rewrite Hc.
Qed.

(** A write that meets a full queue is lost although [amio_write] returns [AMIO_OK]: in
    every later state its buffer is still taken, a wait for it returns nothing but a timeout,
    and once no call of [amio_write] on the dataset is under way neither does a flush. *)
Theorem full_queue_loses_write s i io : reachable s -> ios s !! i = Some io -> at_ io = Submitting ->
  (queue_capacity s <= queue_length s)%nat ->
  step s (write_submit s i) /\
  forall s', rtc step (write_submit s i) s' -> exists io', ios s' !! i = Some io' /\ at_ io' = Dropped /\
    0 < refs (pool s') (io_buf io) /\
    (forall late status, wait_poll io' late = Some status -> status = AMIO_ERR_TIMEOUT) /\
    (no_call_between s' (io_dataset io) -> forall r r' late status, datasets s' !! io_dataset io = Some r ->
       flush_poll r r' late = Some status -> status = AMIO_ERR_TIMEOUT).
Proof.
  intros Hr Hi Ha Hq. pose proof (core_reachable_inv s Hr) as Hs. assert (Hst : step s (write_submit s i)) by (by eapply step_submit).
  split; [done|]. intros s' Hst'. pose proof (step_inv _ _ Hst Hs) as Hs1. pose proof (steps_inv _ _ Hst' Hs1) as Hs'.
  destruct (steps_follow _ _ Hst' Hs1 i (move Dropped io)) as (io' & Hi' & F).
  { unfold write_submit. rewrite (proj2 (Nat.leb_le _ _) Hq), orb_true_r. cbn. by rewrite list_lookup_alter_eq, Hi. }
  assert (Hd : at_ io' = Dropped) by (by apply (f_dropped _ _ F)). pose proof (f_buf _ _ F) as Hb. pose proof (f_dataset _ _ F) as Hds. cbn in Hb, Hds.
  exists io'. do 2 (split; [done|]). split; [rewrite <- Hb; apply (holds_refs s' i io' Hs' Hi'); unfold holds; by rewrite Hd|].
  destruct (io_at s' i io' Hs' Hi') as (_ & _ & H3 & _). rewrite Hd in H3. destruct H3 as [Hc _]. split.
  - intros late status. unfold wait_poll. rewrite Hc. destruct late; [by intros [= <-]|done].
  - intros Hn r r' late status Hid. unfold flush_poll.
    assert (Hp : pending_writes r <> 0).
    { intros Hp. destruct (proj1 Hn i io' Hi' Hds) as [H|H]; [congruence|].
      destruct (drained s' (io_dataset io) r i io' Hs' Hn Hid Hp Hi' Hds H) as [H' _]. congruence. }
    rewrite (proj2 (Z.eqb_neq _ _) Hp). destruct late; [by intros [= <-]|done].
Qed.
End Properties.

(** ** Executions over the staging pool, with a queue of one place *)

Abbreviation Pool := StagingPool.StagingPool.

Definition demo_pool : Pool := StagingPool.staging_pool 1 64 4 StagingPool.Grow [0%nat].

Lemma core_pool_free : pool_valid demo_pool /\ forall b, refs demo_pool b = 0.
Proof.
  split.
  - split.
    + apply StagingPool.staging_pool_ok; [reflexivity|lia].
    + intros [|[|i]] b Hb; [by injection Hb as <-|done|done].
  - by intros [|[|b]].
Qed.

Definition demo_acquire (p : Pool) (fresh : Z) : Pool :=
  match StagingPool.acquire_once p 64 fresh with Ok (_, p') => p' | _ => p end.

Definition core0 : AMIO_Core Pool := Eval vm_compute in new_core demo_pool 1.
Definition core1 : AMIO_Core Pool := Eval vm_compute in
  mkCore (pool core0) [] [] [] {[1 := new_dataset]} 1 false.
Definition core2 : AMIO_Core Pool := Eval vm_compute in write_begin core1 1 0 (demo_acquire demo_pool 5000).
Definition core3 : AMIO_Core Pool := Eval vm_compute in write_submit core2 0.
Definition demo_io (s : AMIO_Core Pool) (i : nat) : IoRecord := default (mkIo 0 0 false false 0 Finished true) (ios s !! i).
Definition core4 : AMIO_Core Pool := Eval vm_compute in write_count core3 0 (demo_io core3 0).

(** A second write finds the queue full. *)
Definition core5 : AMIO_Core Pool := Eval vm_compute in write_begin core4 1 1 (demo_acquire (pool core4) 6000).

(** The first one fails in the driver, and ends. *)
Definition core6 : AMIO_Core Pool := Eval vm_compute in with_ios core4 (<[0%nat := move Running (demo_io core4 0)]> (ios core4)).
Definition core7 : AMIO_Core Pool := Eval vm_compute in callback_driver core6 0 (demo_io core6 0) true.
Definition core8 : AMIO_Core Pool := Eval vm_compute in
  match callback_release core7 0 (demo_io core7 0) with Ok s => s | _ => core7 end.
Definition core9 : AMIO_Core Pool := Eval vm_compute in callback_end core8 0 (demo_io core8 0).

Lemma core4_run : rtc step core0 core4.
Proof.
  eapply (rtc_l _ _ core1); [exact (step_open core0 1 eq_refl)|].
  eapply (rtc_l _ _ core2).
  { refine (step_write core1 1 _ 64 0%nat (demo_acquire demo_pool 5000) eq_refl _). exists 5000. split; [|left; reflexivity].
    split; [discriminate|]. intros b Hb. apply list_elem_of_singleton in Hb as ->. discriminate. }
  eapply (rtc_l _ _ core3); [exact (step_submit core2 0 _ eq_refl eq_refl)|].
  eapply (rtc_l _ _ core4); [exact (step_count core3 0 _ eq_refl ltac:(discriminate) eq_refl)|]. apply rtc_refl.
Qed.

Lemma core5_step : step core4 core5.
Proof.
  refine (step_write core4 1 _ 64 1%nat (demo_acquire (pool core4) 6000) eq_refl _). exists 6000. split; [|left; reflexivity].
  split; [discriminate|]. intros b Hb. cbn in Hb. apply list_elem_of_singleton in Hb as ->. discriminate.
Qed.

Lemma core7_run : rtc step core4 core7.
Proof.
  eapply (rtc_l _ _ core6); [exact (step_take core4 0 _ eq_refl eq_refl)|].
  eapply (rtc_l _ _ core7); [exact (step_driver core6 0 _ true eq_refl eq_refl)|]. apply rtc_refl.
Qed.

Lemma core9_run : rtc step core7 core9.
Proof.
  eapply (rtc_l _ _ core8); [exact (step_release core7 0 _ core8 eq_refl eq_refl eq_refl)|].
  eapply (rtc_l _ _ core9); [exact (step_end core8 0 _ eq_refl eq_refl)|]. apply rtc_refl.
Qed.

Lemma core7_reached : rtc step core0 core7.
Proof. etrans; [exact core4_run|exact core7_run]. Qed.

Lemma core9_reached : rtc step core0 core9.
Proof. etrans; [exact core7_reached|exact core9_run]. Qed.

Lemma demo_reachable s : rtc step core0 s -> reachable s.
Proof. intros H. exists demo_pool, 1%nat. split; [apply core_pool_free|]. split; [apply core_pool_free|exact H]. Qed.

Lemma buffers_accounted_witness : refs (pool core7) 0 = 1 /\ exists s', callback_release core7 0 (demo_io core7 0) = Ok s'.
Proof.
  split; [reflexivity|].
  exact (proj1 (proj2 (buffers_accounted core7 (demo_reachable core7 core7_reached))) 0%nat _ eq_refl eq_refl).
Defined.

(** After the failed write a flush reports the failure. *)
Lemma flush_reports_witness : flush_poll (mkDataset 0 true 16 0 false) (mkDataset 0 true 16 0 false) false = Some AMIO_ERR_BACKEND_FAILURE /\
  forall i io, ios core9 !! i = Some io -> io_dataset io = 1 -> counted io = true -> at_ io = Finished /\ completed io = negb (failed io).
Proof.
  split; [reflexivity|]. intros i io Hi Hd Hc.
  assert (R : reachable core9) by (exact (demo_reachable core9 core9_reached)).
  assert (N : no_call_between core9 1).
  { split; [|reflexivity]. intros [|j] x Hx _; [injection Hx as <-; by right|done]. }
  destruct (proj1 (flush_reports core9 core9 1 _ _ false AMIO_ERR_BACKEND_FAILURE R N eq_refl (rtc_refl _ _) eq_refl) eq_refl)
    as [[_ H]|[H _]]; [discriminate H|]. destruct (H i io Hi Hd Hc) as (H1 & H2 & _). split; [exact H1|exact H2].
Defined.

Lemma wait_misses_failures_witness : exists io', ios core9 !! 0%nat = Some io' /\ failed io' = true /\ wait_poll io' true = Some AMIO_ERR_TIMEOUT.
Proof.
  destruct (wait_misses_failures core7 core9 0 _ (demo_reachable core7 core7_reached) eq_refl eq_refl core9_run)
    as (io' & H1 & H2 & _ & H3). exists io'. split; [exact H1|]. split; [exact H2|exact H3].
Defined.

Lemma full_queue_loses_write_witness : step core5 (write_submit core5 1) /\ exists io', ios (write_submit core5 1) !! 1%nat = Some io' /\ at_ io' = Dropped.
Proof.
  destruct (full_queue_loses_write core5 1 _ (demo_reachable core5 (rtc_r _ _ _ core4_run core5_step)) eq_refl eq_refl ltac:(vm_compute; lia)) as [H1 H2].
  split; [exact H1|]. destruct (H2 _ (rtc_refl _ _)) as (io' & E & H & _). exists io'. split; [exact E|exact H].
Defined.
