(* ===== verification/TransformNode.v ===== *)
(** * DAGR: the temporal bookend node ([dagr/src/transform_node.cpp])

    The node calls AMIO for the two snapshots around a time and hands their addresses to
    BLEND.  Its engines are an interface over their common state [W]: [amio_read],
    [amio_view_data] and [blend::dispatch_blend], which the file declares and no library
    of the repository defines.  The node runs in a monad with that state and the list of
    the calls made so far; an exception is the text of a [std::runtime_error] or what
    BLEND threw.  Pointers and handles are numbers, the null pointer is 0. *)
From Stdlib Require Import ZArith Lia SpecFloat.
From stdpp Require Import base list numbers strings pretty relations gmap.
From S2P Require Import Prelude CInt PipelineConfig AmioErrors.
From S2P Require Import ListExtra AmioRequests BufferPool AmioCore.
From S2P Require Aliasing StagingPool.
Local Open Scope Z_scope.

(** ** Engines *)

Inductive call : Type :=
| Read (dataset : Z) (var_name : string) (timestep : Z)
| View_data (view : Z)
| Blend (left_ptr right_ptr out_ptr count : Z) (alpha : spec_float) (profile_tag : Z).

(** A read stores a handle and the data call an address and a size in bytes. *)
Class Engines (W : Type) : Type := {
  read_field : Z -> string -> Z -> W -> (Z * option Z) * W;
  view_data : Z -> W -> (Z * option (Z * Z)) * W;
  dispatch_blend : Z -> Z -> Z -> Z -> spec_float -> Z -> W -> option exn * W
}.

Inductive fault : Type := RuntimeError (what : string) | Propagated (e : exn).

Section Node.
Context {W : Type} {engines : Engines W}.

Definition state : Type := W * list call.
Definition M (A : Type) : Type := state -> (fault + A) * state.

Definition ret {A} (a : A) : M A := fun s => (inr a, s).
Definition raise {A} (e : fault) : M A := fun s => (inl e, s).
Definition mbind {A B} (m : M A) (k : A -> M B) : M B := fun s =>
  match m s with (inl e, s') => (inl e, s') | (inr a, s') => k a s' end.

Lemma mbind_run {A B} (m : M A) (k : A -> M B) s :
  mbind m k s = match m s with (inl e, s') => (inl e, s') | (inr a, s') => k a s' end.
Proof. reflexivity. Qed.

(** A call is recorded and changes the engines. *)
Definition invoke {A} (c : call) (op : W -> A * W) : M A := fun s =>
  let '(a, w) := op (fst s) in (inr a, (w, snd s ++ [c])).

(** ** The code *)

Definition to_blend_profile_tag (profile : Temporal_Profile) : Z := match profile with linear => 0 | PipelineConfig.step => 1 end.

Definition to_tick_oob_policy (p : OutOfBounds_Policy) : Aliasing.OutOfBoundsPolicy :=
  match p with clamp => Aliasing.clamp_to_edge | cycle => Aliasing.cycle_last_year end.

Record Fetched_View : Type := mkFetched { data : Z; element_count : Z; handle : Z }.

Definition amio_fetch_field (dataset : Z) (var_name : string) (timestep : Z) : M Fetched_View :=
  mbind (invoke (Read dataset var_name timestep) (read_field dataset var_name timestep)) (fun '(rc, out_view) =>
  if negb (rc =? AMIO_OK) then
    raise (RuntimeError ("AMIO fetch failure for variable '" ++ var_name ++ "' at timestep " ++ pretty timestep ++ ": " ++ amio_strerror rc))
  else
    let view_handle := default 0 out_view in
    mbind (invoke (View_data view_handle) (view_data view_handle)) (fun '(data_rc, out) =>
    if negb (data_rc =? AMIO_OK) then raise (RuntimeError ("AMIO view_data failure: " ++ amio_strerror data_rc))
    else let '(raw_data, byte_size) := default (0, 0) out in
      ret (mkFetched raw_data (byte_size / 8) view_handle))).

Definition dispatch_temporal_bookend (stream : Stream_Descriptor) (aliased : Aliasing.AliasedWindow) (dataset : Z)
    (var_name : string) (t_left_step t_right_step output_ptr output_count : Z) : M unit :=
  mbind (amio_fetch_field dataset var_name t_left_step) (fun left_view =>
  mbind (amio_fetch_field dataset var_name t_right_step) (fun right_view =>
  let alpha := Aliasing.alpha aliased in
  let profile_tag := to_blend_profile_tag (temporal_profile stream) in
  mbind (invoke (Blend (data left_view) (data right_view) output_ptr output_count alpha profile_tag)
    (dispatch_blend (data left_view) (data right_view) output_ptr output_count alpha profile_tag)) (fun thrown =>
  match thrown with Some e => raise (Propagated e) | None => ret tt end))).

(** ** What a node does to its engines *)

(** The calls of a successful fetch. *)
Definition fetched (dataset : Z) (var_name : string) (timestep : Z) (v : Fetched_View) : list call :=
  [Read dataset var_name timestep; View_data (handle v)].

(** A fetch: both calls succeed, or the failing one is the last. *)
Inductive fetch_run (dataset : Z) (var_name : string) (timestep : Z) (w : W) : fault + Fetched_View -> W -> list call -> Prop :=
| fetch_ok h w1 p w2 : read_field dataset var_name timestep w = ((AMIO_OK, h), w1) ->
    view_data (default 0 h) w1 = ((AMIO_OK, p), w2) ->
    fetch_run dataset var_name timestep w (inr (mkFetched (fst (default (0, 0) p)) (snd (default (0, 0) p) / 8) (default 0 h))) w2
      [Read dataset var_name timestep; View_data (default 0 h)]
| fetch_read rc h w1 : rc <> AMIO_OK -> read_field dataset var_name timestep w = ((rc, h), w1) ->
    fetch_run dataset var_name timestep w
      (inl (RuntimeError ("AMIO fetch failure for variable '" ++ var_name ++ "' at timestep " ++ pretty timestep ++ ": " ++ amio_strerror rc)))
      w1 [Read dataset var_name timestep]
| fetch_data rc h p w1 w2 : rc <> AMIO_OK -> read_field dataset var_name timestep w = ((AMIO_OK, h), w1) ->
    view_data (default 0 h) w1 = ((rc, p), w2) ->
    fetch_run dataset var_name timestep w (inl (RuntimeError ("AMIO view_data failure: " ++ amio_strerror rc))) w2
      [Read dataset var_name timestep; View_data (default 0 h)].

Lemma amio_fetch_field_run dataset var_name timestep w tr : exists w' cs,
  fetch_run dataset var_name timestep w (fst (amio_fetch_field dataset var_name timestep (w, tr))) w' cs /\
  snd (amio_fetch_field dataset var_name timestep (w, tr)) = (w', tr ++ cs).
Proof.
  unfold amio_fetch_field, mbind, invoke. cbn [fst snd].
  destruct (read_field dataset var_name timestep w) as [[rc h] w1] eqn:E1. cbn [fst snd].
  destruct (Z.eqb_spec rc AMIO_OK) as [->|Hrc]; cbn [negb].
  2:{ exists w1, [Read dataset var_name timestep]. split; [by eapply fetch_read|done]. }
  cbn [fst snd]. destruct (view_data (default 0 h) w1) as [[rc2 p] w2] eqn:E2. cbn [fst snd].
  exists w2, [Read dataset var_name timestep; View_data (default 0 h)].
  destruct (Z.eqb_spec rc2 AMIO_OK) as [->|Hrc2]; cbn [negb].
  - destruct (default (0, 0) p) as [raw bytes] eqn:Ep. cbn. split; [|by rewrite <- app_assoc].
    pose proof (fetch_ok dataset var_name timestep w h w1 p w2 E1 E2) as R. by rewrite Ep in R.
  - cbn. split; [by eapply fetch_data|by rewrite <- app_assoc].
Qed.

(** The node: the first failing engine call is the last one. *)
Inductive node_run (stream : Stream_Descriptor) (aliased : Aliasing.AliasedWindow) (dataset : Z) (var_name : string)
    (tl tr out count : Z) (w : W) : fault + unit -> W -> list call -> Prop :=
| node_left e w1 cs : fetch_run dataset var_name tl w (inl e) w1 cs ->
    node_run stream aliased dataset var_name tl tr out count w (inl e) w1 cs
| node_right l e w1 w2 cs1 cs2 : fetch_run dataset var_name tl w (inr l) w1 cs1 -> fetch_run dataset var_name tr w1 (inl e) w2 cs2 ->
    node_run stream aliased dataset var_name tl tr out count w (inl e) w2 (cs1 ++ cs2)
| node_blend l r w1 w2 w3 cs1 cs2 thrown :
    fetch_run dataset var_name tl w (inr l) w1 cs1 -> fetch_run dataset var_name tr w1 (inr r) w2 cs2 ->
    dispatch_blend (data l) (data r) out count (Aliasing.alpha aliased) (to_blend_profile_tag (temporal_profile stream)) w2 = (thrown, w3) ->
    node_run stream aliased dataset var_name tl tr out count w
      (match thrown with Some e => inl (Propagated e) | None => inr tt end) w3
      (cs1 ++ cs2 ++ [Blend (data l) (data r) out count (Aliasing.alpha aliased) (to_blend_profile_tag (temporal_profile stream))]).

Lemma dispatch_run stream aliased dataset var_name tl tr out count w calls :
  let run := dispatch_temporal_bookend stream aliased dataset var_name tl tr out count (w, calls) in
  exists w' cs, node_run stream aliased dataset var_name tl tr out count w (fst run) w' cs /\ snd run = (w', calls ++ cs).
Proof.
  cbv zeta. unfold dispatch_temporal_bookend. cbv zeta. rewrite mbind_run.
  destruct (amio_fetch_field_run dataset var_name tl w calls) as (w1 & cs1 & R1 & S1).
  destruct (amio_fetch_field dataset var_name tl (w, calls)) as [[e|l] s1]; cbn in S1, R1; subst s1.
  { exists w1, cs1. split; [by apply node_left|done]. }
  rewrite mbind_run. destruct (amio_fetch_field_run dataset var_name tr w1 (calls ++ cs1)) as (w2 & cs2 & R2 & S2).
  destruct (amio_fetch_field dataset var_name tr (w1, calls ++ cs1)) as [[e|r] s2]; cbn in S2, R2; subst s2.
  { exists w2, (cs1 ++ cs2). split; [by eapply node_right|]. cbn. by rewrite app_assoc. }
  rewrite mbind_run. unfold invoke. cbn [fst snd].
  destruct (dispatch_blend (data l) (data r) out count (Aliasing.alpha aliased) (to_blend_profile_tag (temporal_profile stream)) w2) as [thrown w3] eqn:E3.
  eexists w3, _. split.
  - pose proof (node_blend stream aliased dataset var_name tl tr out count w l r w1 w2 w3 cs1 cs2 thrown R1 R2 E3) as N.
    destruct thrown; exact N.
  - destruct thrown; cbn; by rewrite <- !app_assoc.
Qed.

(** The node is a pure router: it makes at most five calls, always a prefix of read left,
    left data, read right, right data, blend; BLEND gets the two addresses AMIO gave and the
    interpolation weight, output address, count and profile unchanged; a call that fails is
    the last one and its exception comes out; and the node succeeds exactly when all five
    calls were made and succeeded. *)
Theorem dispatch_temporal_bookend_correct stream aliased dataset var_name tl tr out count w :
  let run := dispatch_temporal_bookend stream aliased dataset var_name tl tr out count (w, []) in
  let cs := snd (snd run) in
  (exists l r, cs `prefix_of` fetched dataset var_name tl l ++ fetched dataset var_name tr r ++
      [Blend (data l) (data r) out count (Aliasing.alpha aliased) (to_blend_profile_tag (temporal_profile stream))]) /\
  (fst run = inr tt <-> exists l r w1 w2,
     fetch_run dataset var_name tl w (inr l) w1 (fetched dataset var_name tl l) /\
     fetch_run dataset var_name tr w1 (inr r) w2 (fetched dataset var_name tr r) /\
     dispatch_blend (data l) (data r) out count (Aliasing.alpha aliased) (to_blend_profile_tag (temporal_profile stream)) w2
       = (None, fst (snd run)) /\ length cs = 5%nat) /\
  (forall e, fst run = inl (Propagated e) -> length cs = 5%nat) /\
  (forall t, fst run = inl (RuntimeError t) -> (length cs <= 4)%nat).
Proof.
  cbv zeta. destruct (dispatch_run stream aliased dataset var_name tl tr out count w []) as (w' & cs & R & S).
  rewrite S. cbn [fst snd app].
  assert (Hf : forall t u l x c, fetch_run dataset var_name t u (inr l) x c -> c = fetched dataset var_name t l).
  { intros t u l x c F. inversion F; subst. done. }
  assert (Hd : forall t u r1 x1 c1 r2 x2 c2, fetch_run dataset var_name t u r1 x1 c1 -> fetch_run dataset var_name t u r2 x2 c2 ->
    r1 = r2 /\ x1 = x2).
  { intros t u r1 x1 c1 r2 x2 c2 F G. inversion F; subst; inversion G; subst; split; congruence. }
  assert (He : forall t u e x c, fetch_run dataset var_name t u (inl e) x c ->
    (exists d, c `prefix_of` fetched dataset var_name t d) /\ (length c <= 2)%nat /\ exists m, e = RuntimeError m).
  { intros t u e x c F. inversion F; subst; (split; [|split; [cbn; lia|by eexists]]).
    - exists (mkFetched 0 0 0). by apply prefix_cons, prefix_nil.
    - by exists (mkFetched 0 0 (default 0 h)). }
  inversion R as [e w1 c1 F|l e w1 w2 c1 c2 F1 F2|l r w1 w2 w3 c1 c2 thrown F1 F2 B]; subst; clear R.
  - destruct (He _ _ _ _ _ F) as ((d & Hp) & Hl & m & ->). split; [|split; [split|]].
    + exists d, d. by apply prefix_app_r.
    + done.
    + intros (l & r & x1 & x2 & G & _). by destruct (Hd _ _ _ _ _ _ _ _ F G) as [? _].
    + split; [done|]. intros t _. lia.
  - rewrite (Hf _ _ _ _ _ F1). destruct (He _ _ _ _ _ F2) as ((d & Hp) & Hl & m & ->). split; [|split; [split|]].
    + exists l, d. apply prefix_app. by apply prefix_app_r.
    + done.
    + intros (l' & r & x1 & x2 & G1 & G2 & _). destruct (Hd _ _ _ _ _ _ _ _ F1 G1) as [_ <-].
      by destruct (Hd _ _ _ _ _ _ _ _ F2 G2) as [? _].
    + split; [done|]. intros t _. rewrite length_app. cbn. lia.
  - rewrite (Hf _ _ _ _ _ F1), (Hf _ _ _ _ _ F2). split; [by exists l, r|]. split; [split|].
    + intros Hr. destruct thrown; [done|]. exists l, r, w1, w2. rewrite <- (Hf _ _ _ _ _ F1), <- (Hf _ _ _ _ _ F2).
      do 3 (split; [done|]). rewrite (Hf _ _ _ _ _ F1), (Hf _ _ _ _ _ F2). done.
    + intros (l' & r' & x1 & x2 & G1 & G2 & B' & _). destruct (Hd _ _ _ _ _ _ _ _ F1 G1) as [[= <-] <-].
      destruct (Hd _ _ _ _ _ _ _ _ F2 G2) as [[= <-] <-]. rewrite B in B'. injection B' as ->. done.
    + split; [done|]. intros t Ht. by destruct thrown.
Qed.
End Node.

(** ** The views of a node *)

(** What AMIO promises about the views of a dataset: a successful read adds one and no other
    call of the node changes their number. *)
Class PinningEngines (W : Type) (engines : Engines W) : Type := {
  pinned : Z -> W -> Z;
  read_pins ds var t w h w' id : read_field ds var t w = ((AMIO_OK, h), w') ->
    pinned id w' = pinned id w + (if ds =? id then 1 else 0);
  failed_read_pins rc ds var t w h w' id : rc <> AMIO_OK -> read_field ds var t w = ((rc, h), w') -> pinned id w' = pinned id w;
  data_pins v w r w' id : view_data v w = (r, w') -> pinned id w' = pinned id w;
  blend_pins l r o n a p w t w' id : dispatch_blend l r o n a p w = (t, w') -> pinned id w' = pinned id w
}.

Section Pinning.
Context {W : Type} {engines : Engines W} {pinning : PinningEngines W engines}.

Lemma fetch_pins ds var t w r w' cs id : fetch_run ds var t w r w' cs ->
  (pinned id w' = pinned id w \/ pinned id w' = pinned id w + (if ds =? id then 1 else 0)) /\
  (forall v, r = inr v -> pinned id w' = pinned id w + (if ds =? id then 1 else 0)).
Proof.
  intros R. inversion R as [h w1 p w2 E1 E2|rc h w1 Hrc E1|rc h p w1 w2 Hrc E1 E2]; subst.
  - rewrite (data_pins _ _ _ _ id E2), (read_pins _ _ _ _ _ _ id E1). auto.
  - rewrite (failed_read_pins _ _ _ _ _ _ _ id Hrc E1). split; [by left|done].
  - rewrite (data_pins _ _ _ _ id E2), (read_pins _ _ _ _ _ _ id E1). split; [by right|done].
Qed.

(** A node never gives a view back: after a successful one the dataset has two more views, after
    a failed one at least as many as before, and BLEND's failure keeps both. *)
Theorem bookend_keeps_views stream aliased dataset var_name tl tr out count w :
  let run := dispatch_temporal_bookend stream aliased dataset var_name tl tr out count (w, []) in
  let w' := fst (snd run) in
  (fst run = inr tt -> pinned dataset w' = pinned dataset w + 2) /\
  (forall e, fst run = inl (Propagated e) -> pinned dataset w' = pinned dataset w + 2) /\
  pinned dataset w <= pinned dataset w' <= pinned dataset w + 2 /\
  (forall id, id <> dataset -> pinned id w' = pinned id w).
Proof.
  cbv zeta. destruct (dispatch_run stream aliased dataset var_name tl tr out count w []) as (w' & cs & R & S).
  rewrite S. cbn [fst snd].
  assert (Hone : forall t u r x c, fetch_run dataset var_name t u r x c ->
    (pinned dataset u <= pinned dataset x <= pinned dataset u + 1) /\ (forall v, r = inr v -> pinned dataset x = pinned dataset u + 1) /\
    (forall m, r = inl m -> exists text, m = RuntimeError text) /\ forall id, id <> dataset -> pinned id x = pinned id u).
  { intros t u r x c F. destruct (fetch_pins _ _ _ _ _ _ _ dataset F) as [H1 H2]. rewrite Z.eqb_refl in H1, H2.
    split; [lia|]. split; [done|]. split; [intros m ->; inversion F; by eexists|]. intros id Hid.
    destruct (fetch_pins _ _ _ _ _ _ _ id F) as [H3 _]. rewrite (proj2 (Z.eqb_neq dataset id)) in H3 by congruence. lia. }
  inversion R as [e w1 c1 F|l e w1 w2 c1 c2 F1 F2|l r w1 w2 w3 c1 c2 thrown F1 F2 B]; subst; clear R.
  - destruct (Hone _ _ _ _ _ F) as (H1 & _ & H3 & H4). destruct (H3 _ eq_refl) as [text ->].
    split; [done|]. split; [done|]. split; [lia|done].
  - destruct (Hone _ _ _ _ _ F1) as (_ & H2 & _ & H4). destruct (Hone _ _ _ _ _ F2) as (K1 & _ & K3 & K4).
    destruct (K3 _ eq_refl) as [text ->]. specialize (H2 _ eq_refl). split; [done|]. split; [done|]. split; [lia|].
    intros id Hid. by rewrite K4, H4.
  - destruct (Hone _ _ _ _ _ F1) as (_ & H2 & _ & H4). destruct (Hone _ _ _ _ _ F2) as (_ & K2 & _ & K4).
    specialize (H2 _ eq_refl). specialize (K2 _ eq_refl). rewrite (blend_pins _ _ _ _ _ _ _ _ _ dataset B).
    split; [lia|]. split; [lia|]. split; [lia|]. intros id Hid. by rewrite (blend_pins _ _ _ _ _ _ _ _ _ id B), K4, H4.
Qed.
End Pinning.

(** ** The node on an AMIO core *)

Section OnCore.
Context {P : Type} {pool_ops : BufferPool P}.

(** A read takes the first buffer prefetched for the dataset, or times out; the handle of a
    view is its position among the views of the core, counted from 1. *)
Fixpoint first_prefetched (ds : Z) (k : nat) (l : list (Z * nat)) : option (nat * nat) :=
  match l with
  | [] => None
  | (id, buf) :: rest => if id =? ds then Some (k, buf) else first_prefetched ds (S k) rest
  end.

Definition core_read (ds : Z) (s : AMIO_Core P) : (Z * option Z) * AMIO_Core P :=
  match first_prefetched ds 0 (prefetched s) with
  | Some (k, buf) => ((AMIO_OK, Some (Z.of_nat (length (views s)) + 1)), read_view s ds buf (delete k (prefetched s)))
  | None => ((AMIO_ERR_TIMEOUT, None), s)
  end.

(** The addresses of the buffers, their size, and a BLEND that may throw. *)
Context (address : nat -> Z) (bytes : Z) (blend : option exn).

Definition core_view_data (v : Z) (s : AMIO_Core P) : (Z * option (Z * Z)) * AMIO_Core P :=
  match views s !! Z.to_nat (v - 1) with
  | Some r => ((AMIO_OK, Some (address (view_buf r), bytes)), s)
  | None => ((AMIO_ERR_INVALID_HANDLE, None), s)
  end.

#[export] Instance core_engines : Engines (AMIO_Core P) := {
  read_field ds _ _ s := core_read ds s; view_data := core_view_data; dispatch_blend _ _ _ _ _ _ s := (blend, s)
}.

Lemma core_read_step ds s h s' : core_read ds s = ((AMIO_OK, h), s') -> AmioCore.step s s'.
Proof.
  unfold core_read. destruct (first_prefetched ds 0 (prefetched s)) as [[k buf]|] eqn:E; [|done]. intros [= <- <-].
  apply step_read. assert (H : forall l j, first_prefetched ds j l = Some (k, buf) -> exists i, k = (j + i)%nat /\ l !! i = Some (ds, buf)).
  { induction l as [|[id b] l IH]; intros j Hj; cbn in Hj; [done|]. destruct (Z.eqb_spec id ds) as [->|].
    - injection Hj as <- <-. exists 0%nat. split; [lia|done].
    - destruct (IH _ Hj) as (i & -> & Hi). exists (S i). split; [lia|done]. }
  destruct (H _ _ E) as (i & -> & Hi). exact Hi.
Qed.

#[export] Program Instance core_pinning : PinningEngines (AMIO_Core P) core_engines := {
  pinned id s := of_dataset id (views s)
}.
Next Obligation.
  intros ds var t s h s' id E. cbn in E. unfold core_read in E.
  destruct (first_prefetched ds 0 (prefetched s)) as [[k buf]|]; [|done]. injection E as _ <-.
  unfold of_dataset. cbn. rewrite total_concat. cbn. unfold b2z. destruct (ds =? id); lia.
Qed.
Next Obligation.
  intros rc ds var t s h s' id Hrc E. cbn in E. unfold core_read in E.
  destruct (first_prefetched ds 0 (prefetched s)) as [[k buf]|]; congruence.
Qed.
Next Obligation. intros v s r s' id E. cbn in E. unfold core_view_data in E. destruct (views s !! _); congruence. Qed.
Next Obligation. intros. cbn in *. congruence. Qed.

(** What a call of the node does to the core. *)
Definition core_after (s s' : AMIO_Core P) : Prop :=
  rtc AmioCore.step s s' /\ forall id, is_Some (datasets s !! id) -> is_Some (datasets s' !! id).

Lemma core_after_refl s : core_after s s.
Proof. by split. Qed.

Lemma core_after_trans s t u : core_after s t -> core_after t u -> core_after s u.
Proof. intros [H1 H2] [H3 H4]. split; [by etrans|auto]. Qed.

Lemma core_read_after ds s r s' : core_read ds s = (r, s') -> core_after s s'.
Proof.
  intros E. assert (E' := E). unfold core_read in E'.
  destruct (first_prefetched ds 0 (prefetched s)) as [[k buf]|]; injection E' as <- <-; [|apply core_after_refl].
  split; [apply rtc_once; exact (core_read_step _ _ _ _ E)|]. intros id H. cbn. rewrite lookup_alter. case_decide; [|done].
  subst. by apply fmap_is_Some.
Qed.

Lemma core_view_data_same v s r s' : core_view_data v s = (r, s') -> s' = s.
Proof. unfold core_view_data. destruct (views s !! _); congruence. Qed.

Lemma fetch_after ds var t s r s' cs : fetch_run ds var t s r s' cs -> core_after s s'.
Proof.
  intros R. inversion R as [h w1 p w2 E1 E2|rc h w1 Hrc E1|rc h p w1 w2 Hrc E1 E2]; subst.
  - rewrite (core_view_data_same _ _ _ _ E2). exact (core_read_after _ _ _ _ E1).
  - exact (core_read_after _ _ _ _ E1).
  - rewrite (core_view_data_same _ _ _ _ E2). exact (core_read_after _ _ _ _ E1).
Qed.

Lemma node_after stream aliased ds var tl tr out count s r s' cs :
  node_run stream aliased ds var tl tr out count s r s' cs -> core_after s s'.
Proof.
  intros R. inversion R as [e w1 c1 F|l e w1 w2 c1 c2 F1 F2|l r0 w1 w2 w3 c1 c2 thrown F1 F2 B]; subst.
  - by eapply fetch_after.
  - eapply core_after_trans; by eapply fetch_after.
  - cbn in B. injection B as _ <-. eapply core_after_trans; by eapply fetch_after.
Qed.

(** A node that runs on an AMIO core makes steps of the core only, and leaves its dataset
    impossible to close: after a successful node, whatever the dataset, [amio_close] of it
    returns [AMIO_ERR_VIEWS_OUTSTANDING] and does nothing, and so it does after a node whose
    BLEND call threw; the handles that could release the views are gone. *)
Theorem node_blocks_close stream aliased ds var tl tr out count s : reachable s -> is_Some (datasets s !! ds) ->
  Z.of_nat (length (views s)) < 18446744073709551614 ->
  let run := dispatch_temporal_bookend stream aliased ds var tl tr out count (s, []) in
  let s' := fst (snd run) in
  reachable s' /\
  ((fst run = inr tt \/ exists e, fst run = inl (Propagated e)) ->
   exists r', datasets s' !! ds = Some r' /\ 2 <= outstanding_views r' /\
     forall late ft ct, close_dataset s' ds r' late ft ct = Some (AMIO_ERR_VIEWS_OUTSTANDING, s')).
Proof.
  cbv zeta. intros (p & c & Hp & Hrefs & Hr) Hds Hlen.
  pose proof (bookend_keeps_views stream aliased ds var tl tr out count s) as (H1 & H2 & _ & _).
  destruct (dispatch_run stream aliased ds var tl tr out count s []) as (s' & cs & R & S).
  rewrite S in *. cbn [fst snd] in *. destruct (node_after _ _ _ _ _ _ _ _ _ _ _ _ R) as [Hst Hk].
  assert (Hr' : reachable s') by (exists p, c; split; [done|split; [done|by etrans]]). split; [exact Hr'|]. intros Hrun.
  destruct (Hk ds Hds) as [r' Er']. exists r'. split; [done|].
  assert (Hpin : of_dataset ds (views s') = of_dataset ds (views s) + 2).
  { destruct Hrun as [Hrun|[e Hrun]]; [exact (H1 Hrun)|exact (H2 e Hrun)]. }
  destruct (inv_datasets s' (core_reachable_inv s' Hr') ds r' Er') as (_ & Ho & _).
  assert (Hb : 0 <= of_dataset ds (views s) <= Z.of_nat (length (views s))).
  { apply total_bounds, Forall_forall. intros v _. apply b2z_cond. }
  fold (of_dataset ds (views s')) in Ho. rewrite Hpin in Ho. unfold to_u64 in Ho. rewrite Z.mod_small in Ho by lia.
  split; [lia|]. intros late ft ct. unfold close_dataset, close_guard. rewrite (proj2 (Z.ltb_lt 0 _)) by lia. done.
Qed.
End OnCore.

(** * Concrete runs *)

(** A core with a dataset 1 and two snapshots of two elements each. *)
Definition bookend0 : AMIO_Core Pool := Eval vm_compute in new_core demo_pool 1.
Definition bookend1 : AMIO_Core Pool := Eval vm_compute in
  mkCore (pool bookend0) [] [] [] (<[1 := new_dataset]> (datasets bookend0)) 1 false.
Definition bookend2 : AMIO_Core Pool := Eval vm_compute in
  with_pool (with_reads bookend1 (views bookend1) (prefetched bookend1 ++ [(1, 0%nat)])) (demo_acquire (pool bookend1) 5000).
Definition bookend3 : AMIO_Core Pool := Eval vm_compute in
  with_pool (with_reads bookend2 (views bookend2) (prefetched bookend2 ++ [(1, 1%nat)])) (demo_acquire (pool bookend2) 6000).

Definition demo_stream : Stream_Descriptor := mkStream "era5" PipelineConfig.step clamp "/data" (TimeCore.mkDuration 3600).

#[export] Instance demo_engines : Engines (AMIO_Core Pool) := core_engines (fun b => 4096 + 16 * Z.of_nat b) 16 None.

Lemma bookend_reachable : reachable bookend3.
Proof.
  exists demo_pool, 1%nat. split; [apply core_pool_free|]. split; [apply core_pool_free|].
  eapply (rtc_l _ _ bookend1); [exact (step_open bookend0 1 eq_refl)|].
  eapply (rtc_l _ _ bookend2).
  { refine (step_fetch bookend1 1 _ 64 0%nat (demo_acquire (pool bookend1) 5000) eq_refl _). exists 5000. split; [|left; reflexivity].
    split; [discriminate|]. intros b Hb. apply list_elem_of_singleton in Hb as ->. discriminate. }
  eapply (rtc_l _ _ bookend3); [|apply rtc_refl].
  refine (step_fetch bookend2 1 _ 64 1%nat (demo_acquire (pool bookend2) 6000) eq_refl _). exists 6000. split; [|left; reflexivity].
  split; [discriminate|]. intros b Hb. cbn in Hb. apply list_elem_of_singleton in Hb as ->. discriminate.
Qed.

Lemma node_blocks_close_witness : exists r', close_dataset
    (fst (snd (dispatch_temporal_bookend demo_stream Aliasing.aliased_zero 1 "t2m" 0 1 8192 2 (bookend3, [])))) 1 r' false false false
  = Some (AMIO_ERR_VIEWS_OUTSTANDING, fst (snd (dispatch_temporal_bookend demo_stream Aliasing.aliased_zero 1 "t2m" 0 1 8192 2 (bookend3, [])))).
Proof.
  destruct (node_blocks_close (fun b => 4096 + 16 * Z.of_nat b) 16 None demo_stream Aliasing.aliased_zero 1 "t2m" 0 1 8192 2 bookend3
    bookend_reachable ltac:(by eexists) ltac:(cbn; lia)) as [_ H].
  destruct (H ltac:(left; vm_compute; reflexivity)) as (r' & _ & _ & Hc). exists r'. exact (Hc false false false).
Defined.

(** The calls, in order.  The count is the caller's, whatever AMIO returned: with an output of
    five elements BLEND is told to read five from buffers that hold two. *)
Example bookend_calls : forall count,
  snd (snd (dispatch_temporal_bookend demo_stream Aliasing.aliased_zero 1 "t2m" 0 1 8192 count (bookend3, []))) =
  [Read 1 "t2m" 0; View_data 1; Read 1 "t2m" 1; View_data 2; Blend 4096 4112 8192 count (S754_zero false) 1].
Proof. intros count. reflexivity. Qed.

(** The third read finds nothing prefetched. *)
Example bookend_failure :
  let s := fst (snd (dispatch_temporal_bookend demo_stream Aliasing.aliased_zero 1 "t2m" 0 1 8192 2 (bookend3, []))) in
  dispatch_temporal_bookend demo_stream Aliasing.aliased_zero 1 "t2m" 7 8 8192 2 (s, []) =
  (inl (RuntimeError "AMIO fetch failure for variable 't2m' at timestep 7: AMIO_ERR_TIMEOUT: synchronous wait, flush, or read exceeded its configured timeout"),
   (s, [Read 1 "t2m" 7])).
Proof. vm_compute. reflexivity. Qed.
