(* ===== verification/Grib2Templates.v ===== *)
(** * AMIO: GRIB2 identifiers and templates ([amio/src/drivers/grib2/grib2_driver.hpp], [.cpp])

    The numbers of the manifest, the template arrays the encode path builds from them, and
    what the decode path takes out of a template array.  A template is the list of its
    entries; [std::tolower] is that of the C locale, [std::to_string] the decimal numeral. *)
From Stdlib Require Import ZArith Lia Ascii.
From stdpp Require Import base list numbers strings pretty.
From S2P Require Import Prelude CInt CType Conf.
Local Open Scope Z_scope.

(** ** Data *)

Inductive GRIB2_DRT : Type := AdaptiveEntropyCoding | LosslessJPEG2000.

Definition drt_code (d : GRIB2_DRT) : Z := match d with AdaptiveEntropyCoding => 42 | LosslessJPEG2000 => 40 end.

Record CompositionMetadata : Type := mkMeta {
  meta_pdt_number : Z; m_chemical_constituent_type : Z; m_aerosol_type : Z; m_optical_property_type : Z;
  m_wavelength_first_nm : Z; m_wavelength_last_nm : Z; m_ensemble_perturbation_number : Z; m_statistical_process : Z
}.

Record Grib2Settings : Type := mkSettings {
  discipline : Z; center : Z; subcenter : Z; master_table_version : Z; local_table_version : Z;
  significance_of_ref_time : Z; production_status : Z; type_of_data : Z;
  gdt_number : Z; lat_first : Z; lon_first : Z; lat_last : Z; lon_last : Z;
  pdt_number : Z; parameter_category : Z; parameter_number : Z; type_of_first_fixed_surface : Z;
  scale_factor_first_surface : Z; scaled_value_first_surface : Z; forecast_time : Z; indicator_of_unit_of_time : Z;
  decimal_scale_factor : Z;
  chemical_constituent_type : Z; aerosol_type : Z; size_dist_param_first : Z; size_dist_param_second : Z;
  optical_property_type : Z; wavelength_first_nm : Z; wavelength_last_nm : Z; ensemble_perturbation_number : Z;
  statistical_process : Z; time_range_unit : Z; time_range_length : Z; number_of_time_range_specs : Z;
  total_missing_from_statistical_process : Z; n_parallel : Z
}.

Definition default_settings : Grib2Settings :=
  mkSettings 0 7 0 2 1 1 0 1 0 90000000 0 (-90000000) 359000000 0 0 0 100 0 0 0 1 0 0 0 0 0 0 0 0 0 0 0 0 0 0 0.

(** ** Names of data representations *)

Definition mem_name (x : string) (l : list string) : bool := existsb (String.eqb x) l.

Definition aec_names : list string :=
  ["adaptive_entropy_coding"; "libaec"; "adaptive entropy coding via libaec"; "adaptive entropy coding"]%string.
Definition jpeg_names : list string := ["lossless_jpeg2000"; "jpeg2000"; "lossless jpeg2000"]%string.

Definition parse_drt_name (name : string) : result GRIB2_DRT :=
  let lower := lowercase name in
  if mem_name lower aec_names then Ok AdaptiveEntropyCoding
  else if mem_name lower jpeg_names then Ok LosslessJPEG2000
  else Throw runtime_error.

(** ** The manifest *)

Section Manifest.
Context {Node : Type} `{!YamlLib Node}.

Definition cfg_int (config : @Config Node) (key : string) (def : Z) : Z :=
  if negb (has config key) then def else get_or node_int config key (to_i32 def).

Definition read_settings (config : @Config Node) : Grib2Settings :=
  let s := default_settings in
  let category := cfg_int config "grib2.parameter_category" (parameter_category s) in
  let number := cfg_int config "grib2.parameter_number" (parameter_number s) in
  mkSettings
    (cfg_int config "grib2.discipline" (discipline s)) (cfg_int config "grib2.center" (center s))
    (cfg_int config "grib2.subcenter" (subcenter s)) (cfg_int config "grib2.master_table_version" (master_table_version s))
    (cfg_int config "grib2.local_table_version" (local_table_version s))
    (cfg_int config "grib2.significance_of_ref_time" (significance_of_ref_time s))
    (cfg_int config "grib2.production_status" (production_status s)) (cfg_int config "grib2.type_of_data" (type_of_data s))
    (cfg_int config "grib2.gdt_number" (gdt_number s)) (cfg_int config "grib2.lat_first" (lat_first s))
    (cfg_int config "grib2.lon_first" (lon_first s)) (cfg_int config "grib2.lat_last" (lat_last s))
    (cfg_int config "grib2.lon_last" (lon_last s))
    (cfg_int config "grib2.pdt_number" (pdt_number s))
    (cfg_int config "grib2.category" category) (cfg_int config "grib2.parameter" number)
    (cfg_int config "grib2.type_of_first_fixed_surface" (type_of_first_fixed_surface s))
    (cfg_int config "grib2.scale_factor_first_surface" (scale_factor_first_surface s))
    (cfg_int config "grib2.scaled_value_first_surface" (scaled_value_first_surface s))
    (cfg_int config "grib2.forecast_time" (forecast_time s))
    (cfg_int config "grib2.indicator_of_unit_of_time" (indicator_of_unit_of_time s))
    (cfg_int config "grib2.decimal_scale_factor" (decimal_scale_factor s))
    (cfg_int config "grib2.chemical_constituent_type" 0) (cfg_int config "grib2.aerosol_type" 0)
    (cfg_int config "grib2.size_dist_param_first" 0) (cfg_int config "grib2.size_dist_param_second" 0)
    (cfg_int config "grib2.optical_property_type" 0) (cfg_int config "grib2.wavelength_first_nm" 0)
    (cfg_int config "grib2.wavelength_last_nm" 0) (cfg_int config "grib2.ensemble_perturbation_number" 0)
    (cfg_int config "grib2.statistical_process" 0) (cfg_int config "grib2.time_range_unit" 0)
    (cfg_int config "grib2.time_range_length" 0) (cfg_int config "grib2.number_of_time_range_specs" 0)
    (cfg_int config "grib2.total_missing_from_statistical_process" 0) (cfg_int config "grib2.n_parallel" 0).

Definition validate_drt (config : @Config Node) : result GRIB2_DRT :=
  if negb (has config "data_representation_template") && negb (has config "drt") then Throw runtime_error
  else
    let! drt_name := (if has config "data_representation_template" then get_string config "data_representation_template"
                      else get_string config "drt") in
    if String.eqb drt_name "" then Throw runtime_error else parse_drt_name drt_name.
End Manifest.

(** ** Grid definition templates *)

Definition positive (z : Z) : result Z := if z <? 0 then (- cval z)%i64 else Ok z.

Definition build_gdt_3_0 (s : Grib2Settings) (ni nj : Z) : result (list Z) :=
  let! di := (if 1 <? ni then ((lon_last s - lon_first s) / (ni - 1))%i64 else Ok 0) in
  let! dj := (if 1 <? nj then ((lat_first s - lat_last s) / (nj - 1))%i64 else Ok 0) in
  let! di := positive di in
  let! dj := positive dj in
  Ok [6; 0; 0; 0; 0; 0; 0; ni; nj; 0; 0; lat_first s; lon_first s; 48; lat_last s; lon_last s; di; dj; 0].

Definition build_gdt_3_40 (s : Grib2Settings) (ni nj : Z) : result (list Z) :=
  let! di := (if 1 <? ni then ((lon_last s - lon_first s) / (ni - 1))%i64 else Ok 0) in
  let! di := positive di in
  Ok [6; 0; 0; 0; 0; 0; 0; ni; nj; 0; 0; lat_first s; lon_first s; 48; lat_last s; lon_last s; di; n_parallel s; 0].

(** ** Product definition templates *)

Definition build_pdt_4_0 (s : Grib2Settings) : list Z :=
  [parameter_category s; parameter_number s; 2; 0; 0; 0; 0; indicator_of_unit_of_time s; forecast_time s;
   type_of_first_fixed_surface s; scale_factor_first_surface s; scaled_value_first_surface s; 255; 0; 0].

Definition build_pdt_4_8 (s : Grib2Settings) : list Z :=
  [parameter_category s; parameter_number s; 2; 0; 0; 0; 0; indicator_of_unit_of_time s; forecast_time s;
   type_of_first_fixed_surface s; scale_factor_first_surface s; scaled_value_first_surface s; 255; 0; 0;
   0; 0; 0; 0; 0; 0;
   number_of_time_range_specs s; total_missing_from_statistical_process s; statistical_process s; 2; time_range_unit s;
   time_range_length s; indicator_of_unit_of_time s; 0].

Definition build_pdt_4_40 (s : Grib2Settings) : list Z :=
  [parameter_category s; parameter_number s; chemical_constituent_type s; 2; 0; 0; 0; 0; indicator_of_unit_of_time s;
   forecast_time s; type_of_first_fixed_surface s; scale_factor_first_surface s; scaled_value_first_surface s; 255; 0; 0].

Definition build_pdt_4_44 (s : Grib2Settings) : list Z :=
  [parameter_category s; parameter_number s; aerosol_type s; 0; 0; size_dist_param_first s; 0; size_dist_param_second s;
   2; 0; 0; 0; 0; indicator_of_unit_of_time s; forecast_time s;
   type_of_first_fixed_surface s; scale_factor_first_surface s; scaled_value_first_surface s; 255; 0; 0].

Definition build_pdt_4_45 (s : Grib2Settings) : list Z :=
  [parameter_category s; parameter_number s; aerosol_type s; 0; 0; size_dist_param_first s; 0; size_dist_param_second s;
   2; 0; 0; 0; 0; indicator_of_unit_of_time s; forecast_time s;
   0; ensemble_perturbation_number s; 0;
   type_of_first_fixed_surface s; scale_factor_first_surface s; scaled_value_first_surface s; 255; 0; 0].

Definition build_pdt_4_46 (s : Grib2Settings) : list Z :=
  [parameter_category s; parameter_number s; aerosol_type s; 0; 0; size_dist_param_first s; 0; size_dist_param_second s;
   2; 0; 0; 0; 0; indicator_of_unit_of_time s; forecast_time s;
   type_of_first_fixed_surface s; scale_factor_first_surface s; scaled_value_first_surface s; 255; 0; 0;
   0; 0; 0; 0; 0; 0;
   number_of_time_range_specs s; total_missing_from_statistical_process s; statistical_process s; 0; time_range_unit s;
   time_range_length s; 0; 0].

Definition build_pdt_4_48 (s : Grib2Settings) : list Z :=
  [parameter_category s; parameter_number s; aerosol_type s; 0; 0; 0; 0; 0;
   optical_property_type s; 0; wavelength_first_nm s; 0; wavelength_last_nm s;
   2; 0; 0; 0; 0; indicator_of_unit_of_time s; forecast_time s;
   type_of_first_fixed_surface s; scale_factor_first_surface s; scaled_value_first_surface s; 255; 0; 0].

Definition build_pdt_4_49 (s : Grib2Settings) : list Z :=
  [parameter_category s; parameter_number s; aerosol_type s; 0; 0; 0; 0; 0;
   optical_property_type s; 0; wavelength_first_nm s; 0; wavelength_last_nm s;
   2; 0; 0; 0; 0; indicator_of_unit_of_time s; forecast_time s;
   0; ensemble_perturbation_number s; 0;
   type_of_first_fixed_surface s; scale_factor_first_surface s; scaled_value_first_surface s; 255; 0; 0].

(** The dispatch of [write]. *)
Definition build_gdt (s : Grib2Settings) (ni nj : Z) : result (list Z) :=
  match gdt_number s with
  | 0 => build_gdt_3_0 s ni nj
  | 40 => build_gdt_3_40 s ni nj
  | _ => Throw runtime_error
  end.

Definition build_pdt (s : Grib2Settings) : result (list Z) :=
  match pdt_number s with
  | 0 => Ok (build_pdt_4_0 s)
  | 8 => Ok (build_pdt_4_8 s)
  | 40 => Ok (build_pdt_4_40 s)
  | 44 => Ok (build_pdt_4_44 s)
  | 45 => Ok (build_pdt_4_45 s)
  | 46 => Ok (build_pdt_4_46 s)
  | 48 => Ok (build_pdt_4_48 s)
  | 49 => Ok (build_pdt_4_49 s)
  | _ => Throw runtime_error
  end.

Definition build_drs_template (drt : GRIB2_DRT) (s : Grib2Settings) : list Z :=
  match drt with
  | LosslessJPEG2000 => [0; 0; decimal_scale_factor s; 0; 0; 0; 255]
  | AdaptiveEntropyCoding => [0; 0; decimal_scale_factor s; 0; 0; 0; 0; 0]
  end.

(** ** What the decode path takes out of a template *)

Definition safe_get (t : list Z) (idx : nat) : Z := default 0 (t !! idx).

Definition extract_composition_metadata (pdt : Z) (t : list Z) : CompositionMetadata :=
  match pdt with
  | 40 => mkMeta pdt (safe_get t 2) 0 0 0 0 0 0
  | 44 => mkMeta pdt 0 (safe_get t 2) 0 0 0 0 0
  | 45 => mkMeta pdt 0 (safe_get t 2) 0 0 0 (safe_get t 16) 0
  | 46 => mkMeta pdt 0 (safe_get t 2) 0 0 0 0 (safe_get t 29)
  | 48 => mkMeta pdt 0 (safe_get t 2) (safe_get t 8) (safe_get t 10) (safe_get t 12) 0 0
  | 49 => mkMeta pdt 0 (safe_get t 2) (safe_get t 8) (safe_get t 10) (safe_get t 12) (safe_get t 21) 0
  | 8 => mkMeta pdt 0 0 0 0 0 0 (safe_get t 23)
  | _ => mkMeta pdt 0 0 0 0 0 0 0
  end.

Definition pdt_surface_type_index (pdt : Z) : nat :=
  match pdt with
  | 0 => 9%nat | 8 => 9%nat | 40 => 10%nat | 44 => 15%nat | 45 => 18%nat | 46 => 15%nat | 48 => 20%nat | 49 => 23%nat
  | _ => 9%nat
  end.

Definition pdt_surface_value_index (pdt : Z) : nat := (pdt_surface_type_index pdt + 2)%nat.

(** [name] of the five base numbers, then the suffix of the template. *)
Definition field_identity_name (discipline category number surface_type surface_value : Z) : string :=
  "d" ++ pretty discipline ++ "_c" ++ pretty category ++ "_n" ++ pretty number ++ "_s" ++ pretty surface_type
    ++ "_l" ++ pretty surface_value.

Definition field_identity_name_extended (discipline category number surface_type surface_value : Z) (m : CompositionMetadata) : string :=
  let name := field_identity_name discipline category number surface_type surface_value in
  match meta_pdt_number m with
  | 40 => name ++ "_ct" ++ pretty (m_chemical_constituent_type m)
  | 44 => name ++ "_at" ++ pretty (m_aerosol_type m)
  | 45 => (name ++ "_at" ++ pretty (m_aerosol_type m)) ++ "_ep" ++ pretty (m_ensemble_perturbation_number m)
  | 46 => (name ++ "_at" ++ pretty (m_aerosol_type m)) ++ "_sp" ++ pretty (m_statistical_process m)
  | 48 => ((name ++ "_at" ++ pretty (m_aerosol_type m)) ++ "_op" ++ pretty (m_optical_property_type m))
            ++ "_wl" ++ pretty (m_wavelength_first_nm m) ++ "_" ++ pretty (m_wavelength_last_nm m)
  | 49 => (((name ++ "_at" ++ pretty (m_aerosol_type m)) ++ "_op" ++ pretty (m_optical_property_type m))
            ++ "_wl" ++ pretty (m_wavelength_first_nm m) ++ "_" ++ pretty (m_wavelength_last_nm m))
            ++ "_ep" ++ pretty (m_ensemble_perturbation_number m)
  | 8 => name ++ "_sp" ++ pretty (m_statistical_process m)
  | _ => name
  end.

(** The key under which [build_record_index] files a record. *)
Definition record_key (discipline pdt : Z) (t : list Z) : string :=
  field_identity_name_extended discipline (safe_get t 0) (safe_get t 1) (safe_get t (pdt_surface_type_index pdt))
    (safe_get t (pdt_surface_value_index pdt)) (extract_composition_metadata pdt t).

(** ** Names determine what they name *)

(** A name as a sequence of tags, each with a number. *)
Definition render (l : list (string * Z)) : list ascii :=
  concat ((fun x => String.list_ascii_of_string (fst x) ++ String.list_ascii_of_string (pretty (snd x))) <$> l).

Definition base_segments (d c n t v : Z) : list (string * Z) := [("d", d); ("_c", c); ("_n", n); ("_s", t); ("_l", v)]%string.

Definition suffix (m : CompositionMetadata) : list (string * Z) :=
  let at_ := ("_at"%string, m_aerosol_type m) in
  let ep := ("_ep"%string, m_ensemble_perturbation_number m) in
  let sp := ("_sp"%string, m_statistical_process m) in
  let optics := [("_op"%string, m_optical_property_type m); ("_wl"%string, m_wavelength_first_nm m); ("_"%string, m_wavelength_last_nm m)] in
  match meta_pdt_number m with
  | 40 => [("_ct"%string, m_chemical_constituent_type m)]
  | 44 => [at_]
  | 45 => [at_; ep]
  | 46 => [at_; sp]
  | 48 => at_ :: optics
  | 49 => at_ :: optics ++ [ep]
  | 8 => [sp]
  | _ => []
  end.

Definition numeral_char (c : ascii) : bool :=
  let n := N_of_ascii c in (((48 <=? n) && (n <=? 57)) || (n =? 45))%N.

Lemma pretty_char_numeral n : (n < 10)%N -> numeral_char (pretty_N_char n) = true.
Proof.
  intros H. destruct n as [|p]; [reflexivity|]. do 4 (destruct p as [p|p|]; try reflexivity; try lia).
Qed.

Lemma pretty_N_go_numeral (x : N) s : Forall (fun c => numeral_char c = true) (String.list_ascii_of_string s) ->
  Forall (fun c => numeral_char c = true) (String.list_ascii_of_string (pretty_N_go x s)).
Proof.
  revert s. induction (N.lt_wf_0 x) as [x _ IH]. intros s Hs. destruct (decide (x = 0)%N) as [->|Hx].
  - by rewrite pretty_N_go_0.
  - rewrite pretty_N_go_step by lia. apply IH; [apply N.div_lt; lia|]. cbn. constructor; [|exact Hs].
    apply pretty_char_numeral. apply N.mod_lt. done.
Qed.

Lemma pretty_numeral (z : Z) : Forall (fun c => numeral_char c = true) (String.list_ascii_of_string (pretty z)).
Proof.
  assert (Hp : forall p, Forall (fun c => numeral_char c = true) (String.list_ascii_of_string (pretty (N.pos p)))).
  { intros p. unfold pretty, pretty_N. rewrite decide_False by done. by apply pretty_N_go_numeral. }
  destruct z as [|p|p]; unfold pretty, pretty_Z; [by repeat constructor|exact (Hp p)|].
  rewrite ascii_append. apply Forall_app. split; [by repeat constructor|exact (Hp p)].
Qed.

Lemma pretty_nonempty (z : Z) : String.list_ascii_of_string (pretty z) <> [].
Proof.
  assert (Hp : forall p, String.list_ascii_of_string (pretty (N.pos p)) <> []).
  { intros p E. assert (H : pretty (N.pos p) = pretty 0%N -> False) by (intros H%(inj pretty); done).
    assert (Hg : forall x s, s <> EmptyString -> pretty_N_go x s <> EmptyString).
    { intros x. induction (N.lt_wf_0 x) as [x _ IH]. intros s Hs. destruct (decide (x = 0)%N) as [->|Hx]; [by rewrite pretty_N_go_0|].
      rewrite pretty_N_go_step by lia. apply IH; [apply N.div_lt; lia|done]. }
    assert (Hne : pretty (N.pos p) <> EmptyString).
    { unfold pretty, pretty_N. rewrite decide_False by done. rewrite pretty_N_go_step by lia. by apply Hg. }
    destruct (pretty (N.pos p)); done. }
  destruct z as [|p|p]; unfold pretty, pretty_Z; [done|exact (Hp p)|]. rewrite ascii_append. done.
Qed.

(** The longest prefix of one kind of characters is unique. *)
Lemma run_unique (P : ascii -> bool) a b r s : Forall (fun c => P c = true) a -> Forall (fun c => P c = true) b ->
  (forall c l, r = c :: l -> P c = false) -> (forall c l, s = c :: l -> P c = false) -> a ++ r = b ++ s -> a = b /\ r = s.
Proof.
  intros Ha. revert b. induction Ha as [|x a Hx Ha IH]; intros b Hb Hr Hs E.
  - destruct Hb as [|y b Hy Hb]; [done|]. cbn in E. specialize (Hr _ _ E). congruence.
  - destruct Hb as [|y b Hy Hb]; [cbn in E; symmetry in E; specialize (Hs _ _ E); congruence|].
    injection E as -> E. destruct (IH b Hb Hr Hs E) as [-> ->]. done.
Qed.

Definition tag_ok (t : string) : Prop :=
  String.list_ascii_of_string t <> [] /\ Forall (fun c => numeral_char c = false) (String.list_ascii_of_string t).

Lemma render_head l : Forall (fun x => tag_ok (fst x)) l -> forall c r, render l = c :: r -> numeral_char c = false.
Proof.
  intros Hl c r E. destruct Hl as [|[t v] l [Hne Ht] Hl]; [done|]. unfold render in E. cbn in E, Hne, Ht.
  destruct (String.list_ascii_of_string t) as [|x t']; [done|]. injection E as -> _. by inversion Ht.
Qed.

Lemma render_inj l1 l2 : Forall (fun x => tag_ok (fst x)) l1 -> Forall (fun x => tag_ok (fst x)) l2 -> render l1 = render l2 -> l1 = l2.
Proof.
  intros H1. revert l2. induction H1 as [|[t1 v1] l1 [Hn1 Ht1] Hl1 IH]; intros l2 H2 E.
  - destruct H2 as [|[t2 v2] l2 [Hn2 Ht2] Hl2]; [done|]. unfold render in E. cbn in E, Hn2. by destruct (String.list_ascii_of_string t2).
  - destruct H2 as [|[t2 v2] l2 [Hn2 Ht2] Hl2].
    { unfold render in E. cbn in E, Hn1. by destruct (String.list_ascii_of_string t1). }
    cbn [fst] in *. change (render ((t1, v1) :: l1)) with ((String.list_ascii_of_string t1 ++ String.list_ascii_of_string (pretty v1)) ++ render l1) in E.
    change (render ((t2, v2) :: l2)) with ((String.list_ascii_of_string t2 ++ String.list_ascii_of_string (pretty v2)) ++ render l2) in E.
    rewrite <- !app_assoc in E.
    assert (Hnum : forall (v : Z) l c r, String.list_ascii_of_string (pretty v) ++ l = c :: r -> negb (numeral_char c) = false).
    { intros v l c r Ev. pose proof (pretty_nonempty v). pose proof (pretty_numeral v) as Hv.
      destruct (String.list_ascii_of_string (pretty v)); [done|]. injection Ev as -> _. inversion Hv as [|? ? Hc]. by rewrite Hc. }
    assert (Hneg : forall t, Forall (fun c => numeral_char c = false) t -> Forall (fun c => negb (numeral_char c) = true) t).
    { intros t Ht. eapply Forall_impl; [exact Ht|]. cbn. intros c ->. done. }
    destruct (run_unique (fun c => negb (numeral_char c)) _ _ _ _ (Hneg _ Ht1) (Hneg _ Ht2) (Hnum v1 _) (Hnum v2 _) E) as [Et E2].
    destruct (run_unique numeral_char _ _ _ _ (pretty_numeral v1) (pretty_numeral v2) (render_head l1 Hl1) (render_head l2 Hl2) E2) as [Ev E3].
    apply ascii_inj in Et as ->. apply ascii_inj, (inj pretty) in Ev as ->. f_equal. by apply IH.
Qed.

Ltac tags_ok := repeat constructor; discriminate.

Lemma suffix_tags m : Forall (fun x => tag_ok (fst x)) (suffix m).
Proof. destruct m as [p a b c d e f g]. unfold suffix. cbn. repeat case_match; tags_ok. Qed.

Lemma base_tags d c n t v : Forall (fun x => tag_ok (fst x)) (base_segments d c n t v).
Proof. tags_ok. Qed.

Lemma name_render d c n t v m :
  String.list_ascii_of_string (field_identity_name_extended d c n t v m) = render (base_segments d c n t v ++ suffix m).
Proof.
  assert (Hb : String.list_ascii_of_string (field_identity_name d c n t v) = render (base_segments d c n t v)).
  { unfold field_identity_name, render. rewrite !ascii_append. cbn [base_segments fmap list_fmap concat fst snd].
    by rewrite <- !app_assoc, app_nil_r. }
  assert (Hr : forall l, render (base_segments d c n t v ++ l) = render (base_segments d c n t v) ++ render l).
  { intros l. unfold render. by rewrite fmap_app, concat_app. }
  rewrite Hr, <- Hb. unfold field_identity_name_extended, suffix, render.
  repeat case_match; rewrite ?ascii_append; cbn [app fmap list_fmap concat fst snd]; by rewrite <- ?app_assoc, ?app_nil_r.
Qed.

(** * Properties *)

(** Templates the writer builds. *)
Definition supported (pdt : Z) : Prop := pdt ∈ [0; 8; 40; 44; 45; 46; 48; 49].

(** What the manifest says about a field, as far as the name of the template tells. *)
Definition settings_meta (s : Grib2Settings) : CompositionMetadata :=
  let p := pdt_number s in
  let only (l : list Z) (z : Z) := if existsb (Z.eqb p) l then z else 0 in
  mkMeta p (only [40] (chemical_constituent_type s)) (only [44; 45; 46; 48; 49] (aerosol_type s)) (only [48; 49] (optical_property_type s))
    (only [48; 49] (wavelength_first_nm s)) (only [48; 49] (wavelength_last_nm s)) (only [45; 49] (ensemble_perturbation_number s))
    (only [8; 46] (statistical_process s)).

Lemma build_pdt_supported s : (exists t, build_pdt s = Ok t) <-> supported (pdt_number s).
Proof.
  unfold supported, build_pdt. split.
  - intros [t Ht]. repeat case_match; try discriminate; repeat (apply elem_of_cons; (by left) || right).
  - intros H. repeat (apply elem_of_cons in H as [->|H]; [by eexists|]). by apply elem_of_nil in H.
Qed.

Lemma build_pdt_extract s t : build_pdt s = Ok t ->
  extract_composition_metadata (pdt_number s) t = settings_meta s /\
  safe_get t 0 = parameter_category s /\ safe_get t 1 = parameter_number s /\
  safe_get t (pdt_surface_type_index (pdt_number s)) = type_of_first_fixed_surface s /\
  safe_get t (pdt_surface_value_index (pdt_number s)) = scaled_value_first_surface s.
Proof.
  intros H. assert (Hs : supported (pdt_number s)) by (apply build_pdt_supported; by exists t).
  unfold build_pdt in H. unfold settings_meta, supported in *. revert H Hs. generalize (pdt_number s). intros p H Hs.
  repeat (apply elem_of_cons in Hs as [->|Hs]; [injection H as <-; by repeat split|]). by apply elem_of_nil in Hs.
Qed.

(** Writing and reading agree on the name of a field: from the template that the encode path
    builds, whatever its number, the decode path derives the name that the settings give, and
    two settings give the same name exactly when they have the same discipline, template
    number, parameter, surface and (as far as the template carries them) constituent, optical,
    wavelength, ensemble and statistical numbers.  So two fields share a name only if they are
    the same field. *)
Theorem field_identity_roundtrip s1 s2 t1 t2 : build_pdt s1 = Ok t1 -> build_pdt s2 = Ok t2 ->
  record_key (discipline s1) (pdt_number s1) t1 =
    field_identity_name_extended (discipline s1) (parameter_category s1) (parameter_number s1) (type_of_first_fixed_surface s1)
      (scaled_value_first_surface s1) (settings_meta s1) /\
  (record_key (discipline s1) (pdt_number s1) t1 = record_key (discipline s2) (pdt_number s2) t2 <->
    discipline s1 = discipline s2 /\ parameter_category s1 = parameter_category s2 /\ parameter_number s1 = parameter_number s2 /\
    type_of_first_fixed_surface s1 = type_of_first_fixed_surface s2 /\ scaled_value_first_surface s1 = scaled_value_first_surface s2 /\
    settings_meta s1 = settings_meta s2).
Proof.
  assert (Hkey : forall s t, build_pdt s = Ok t -> record_key (discipline s) (pdt_number s) t =
    field_identity_name_extended (discipline s) (parameter_category s) (parameter_number s) (type_of_first_fixed_surface s)
      (scaled_value_first_surface s) (settings_meta s)).
  { intros s t H. unfold record_key. destruct (build_pdt_extract s t H) as (-> & -> & -> & -> & ->). done. }
  intros H1 H2. split; [by apply Hkey|]. rewrite (Hkey s1 t1 H1), (Hkey s2 t2 H2). split.
  2:{ intros (-> & -> & -> & -> & -> & ->). done. }
  intros E. apply (f_equal String.list_ascii_of_string) in E. rewrite !name_render in E.
  apply render_inj in E; [|apply Forall_app; split; [apply base_tags|apply suffix_tags]..].
  injection E as E1 E2 E3 E4 E5 E. do 5 (split; [done|]).
  assert (Hs1 : supported (pdt_number s1)) by (apply build_pdt_supported; by exists t1).
  assert (Hs2 : supported (pdt_number s2)) by (apply build_pdt_supported; by exists t2).
  revert E. unfold settings_meta, suffix, supported in *. cbn [meta_pdt_number]. clear H1 H2 Hkey E1 E2 E3 E4 E5 t1 t2.
  generalize dependent (pdt_number s1). intros p1 Hs1. generalize dependent (pdt_number s2). intros p2 Hs2.
  repeat (apply elem_of_cons in Hs1 as [->|Hs1];
    [repeat (apply elem_of_cons in Hs2 as [->|Hs2]; [cbn; intros E; first [done | by injection E; intros; congruence]|]);
     by apply elem_of_nil in Hs2|]).
  by apply elem_of_nil in Hs1.
Qed.

(** ** Names of data representations are compared without case *)

Lemma mem_name_spec x l : mem_name x l = true <-> x ∈ l.
Proof.
  unfold mem_name. rewrite existsb_exists. split.
  - intros (y & Hy & E). apply String.eqb_eq in E as ->. by apply list_elem_of_In.
  - intros H. exists x. split; [by apply list_elem_of_In|apply String.eqb_refl].
Qed.

Lemma parse_drt_name_spec name :
  parse_drt_name name = parse_drt_name (lowercase name) /\
  (parse_drt_name name = Ok AdaptiveEntropyCoding <-> lowercase name ∈ aec_names) /\
  (parse_drt_name name = Ok LosslessJPEG2000 <-> lowercase name ∈ jpeg_names) /\
  (parse_drt_name name = Throw runtime_error <-> (lowercase name ∉ aec_names) /\ (lowercase name ∉ jpeg_names)).
Proof.
  unfold parse_drt_name. rewrite lowercase_idem. split; [done|].
  assert (Hdis : forall x, x ∈ aec_names -> x ∉ jpeg_names).
  { intros x Hx Hj. unfold aec_names, jpeg_names in *.
    repeat (apply elem_of_cons in Hx as [->|Hx];
      [repeat (apply elem_of_cons in Hj as [Hj|Hj]; [discriminate|]); by apply elem_of_nil in Hj|]).
    by apply elem_of_nil in Hx. }
  pose proof (mem_name_spec (lowercase name) aec_names) as Ha. pose proof (mem_name_spec (lowercase name) jpeg_names) as Hj.
  destruct (mem_name (lowercase name) aec_names), (mem_name (lowercase name) jpeg_names); naive_solver.
Qed.

(** ** Grid definitions *)

Definition grid_settings_ok (s : Grib2Settings) : Prop :=
  Forall (fun z => in_i32 z = true) [lat_first s; lon_first s; lat_last s; lon_last s].

Lemma quot_abs_bound a b : 0 < b -> Z.abs (Z.quot a b) * b <= Z.abs a < (Z.abs (Z.quot a b) + 1) * b.
Proof. intros Hb. rewrite <- (Z.quot_abs a b) by lia. rewrite (Z.abs_eq b) by lia. pose proof (Z.quot_rem' (Z.abs a) b). pose proof (Z.rem_bound_pos (Z.abs a) b). nia. Qed.

Lemma increment_ok first last n : in_i32 first = true -> in_i32 last = true -> in_i64 n = true -> 1 <= n -> exists d,
  (let! d := (if 1 <? n then ((last - first) / (n - 1))%i64 else Ok 0) in positive d) = Ok d /\
  0 <= d /\ (1 < n -> d * (n - 1) <= Z.abs (last - first) < (d + 1) * (n - 1)).
Proof.
  unfold in_range. cbn. rewrite !andb_true_iff, !Z.leb_le. intros Hf Hl Hn H1. destruct (Z.ltb_spec 1 n) as [H|H].
  2:{ exists 0. split; [done|]. split; [done|lia]. }
  unfold cdiv, csub, arith, in_range, cval. cbn.
  replace ((-9223372036854775808 <=? last - first) && (last - first <=? 9223372036854775807)) with true by (symmetry; apply andb_true_iff; lia).
  cbn. replace ((-9223372036854775808 <=? n - 1) && (n - 1 <=? 9223372036854775807)) with true by (symmetry; apply andb_true_iff; lia).
  cbn. replace (n - 1 =? 0) with false by lia. pose proof (quot_abs_bound (last - first) (n - 1) ltac:(lia)) as Hq.
  set (q := Z.quot (last - first) (n - 1)) in *. assert (Hqa : Z.abs q <= Z.abs (last - first)) by nia.
  replace ((-9223372036854775808 <=? q) && (q <=? 9223372036854775807)) with true by (symmetry; apply andb_true_iff; lia).
  cbn. exists (Z.abs q). unfold positive, cneg, arith, in_range, cval. cbn.
  destruct (Z.ltb_spec q 0).
  - replace ((-9223372036854775808 <=? - q) && (- q <=? 9223372036854775807)) with true by (symmetry; apply andb_true_iff; lia).
    rewrite Z.abs_neq by lia. split; [done|]. split; [lia|]. rewrite Z.abs_neq in Hq at 1 2 by lia. intros _. lia.
  - rewrite Z.abs_eq by lia. split; [done|]. split; [lia|]. rewrite (Z.abs_eq q) in Hq by lia. intros _. lia.
Qed.

(** The settings of a manifest are values of [int], so the grid templates are defined for every
    grid with at least one point in each direction; the increment is the span divided by the
    number of steps, rounded down. *)
Theorem build_gdt_defined s ni nj : grid_settings_ok s -> gdt_number s ∈ [0; 40] ->
  in_i64 ni = true -> in_i64 nj = true -> 1 <= ni -> 1 <= nj -> exists t,
  build_gdt s ni nj = Ok t /\ length t = 19%nat /\ safe_get t 7 = ni /\ safe_get t 8 = nj /\
  (1 < ni -> safe_get t 16 * (ni - 1) <= Z.abs (lon_last s - lon_first s) < (safe_get t 16 + 1) * (ni - 1)) /\
  (gdt_number s = 0 -> 1 < nj -> safe_get t 17 * (nj - 1) <= Z.abs (lat_first s - lat_last s) < (safe_get t 17 + 1) * (nj - 1)).
Proof.
  intros Hs Hg Hni Hnj H1 H2. unfold grid_settings_ok in Hs. inversion Hs as [|? ? L1 Hs1]; subst. inversion Hs1 as [|? ? L2 Hs2]; subst.
  inversion Hs2 as [|? ? L3 Hs3]; subst. inversion Hs3 as [|? ? L4 _]; subst.
  destruct (increment_ok _ _ _ L2 L4 Hni H1) as (di & Ei & Hd & Hdi). destruct (increment_ok _ _ _ L3 L1 Hnj H2) as (dj & Ej & _ & Hdj).
  apply bind_Ok_inv in Ei as (qi & Eqi & Epi). apply bind_Ok_inv in Ej as (qj & Eqj & Epj).
  unfold build_gdt. apply elem_of_cons in Hg as [->|Hg]; [|apply list_elem_of_singleton in Hg as ->].
  - unfold build_gdt_3_0. rewrite Eqi, bind_Ok_l, Eqj, bind_Ok_l, Epi, bind_Ok_l, Epj, bind_Ok_l. by eexists.
  - unfold build_gdt_3_40. rewrite Eqi, bind_Ok_l, Epi, bind_Ok_l. eexists. split; [done|]. do 3 (split; [done|]). split; [done|]. done.
Qed.

(** * Concrete fields *)

Definition demo_aerosol : Grib2Settings :=
  mkSettings 0 7 0 2 1 1 0 1 0 90000000 0 (-90000000) 359000000 49 20 102 103 0 2 6 1 0 0 62001 0 0 3 550 700 5 0 0 0 0 0 0.
Definition demo_temperature : Grib2Settings := default_settings.

Lemma field_identity_roundtrip_witness :
  record_key 0 49 (build_pdt_4_49 demo_aerosol) = "d0_c20_n102_s103_l2_at62001_op3_wl550_700_ep5"%string /\
  record_key 0 49 (build_pdt_4_49 demo_aerosol) <> record_key 0 0 (build_pdt_4_0 demo_temperature).
Proof.
  destruct (field_identity_roundtrip demo_aerosol demo_temperature (build_pdt_4_49 demo_aerosol) (build_pdt_4_0 demo_temperature)
    eq_refl eq_refl) as [E1 E2].
  split; [etrans; [exact E1|vm_compute; reflexivity]|]. intros E. apply (proj1 E2) in E as (_ & E & _). vm_compute in E. discriminate.
Defined.

Lemma build_gdt_defined_witness : exists t, build_gdt default_settings 360 181 = Ok t /\ safe_get t 16 = 1000000 /\ safe_get t 17 = 1000000.
Proof.
  destruct (build_gdt_defined default_settings 360 181 ltac:(by repeat constructor) ltac:(by apply elem_of_cons; left)
    eq_refl eq_refl ltac:(lia) ltac:(lia)) as (t & E & _). exists t. split; [exact E|].
  vm_compute in E. injection E as <-. split; vm_compute; reflexivity.
Defined.

(** Settings outside the range of [int] can make the increment meaningless. *)
Example gdt_increment_undefined :
  build_gdt_3_0 (mkSettings 0 7 0 2 1 1 0 1 0 0 (-1) 0 9223372036854775807 0 0 0 100 0 0 0 1 0 0 0 0 0 0 0 0 0 0 0 0 0 0 0) 2 2 = Undef.
Proof. reflexivity. Qed.
