(* ===== verification/RowMajor.v ===== *)
(** * AMIO: row-major layouts ([amio/src/drivers/grib2/grib2_driver.cpp: total_elements,
      is_contiguous_row_major, pack_row_major], and the sub-region loop of [read])

    Arrays of [AMIO_MAX_RANK] elements are lists of that length.  A payload is a list of
    bytes; a copy that leaves it is [Undef]. *)
From Stdlib Require Import ZArith Lia.
From stdpp Require Import base list numbers.
From S2P Require Import Prelude CInt PrefetchQueue AmioRequests.
Local Open Scope Z_scope.

(** ** The code *)

Definition total_elements (shape : amio_shape_t) : Z :=
  if (rank shape <=? 0) || (AMIO_MAX_RANK <? rank shape) then 0
  else default 0 (size_product (dim (s_extents shape) <$> used_dims (rank shape)) 1).

(** [for (d = rank - 1; d >= 0; --d)] *)
Definition dims_down (rank : Z) : list nat := rev (seq 0 (Z.to_nat rank)).

Fixpoint expected_strides (shape : amio_shape_t) (ds : list nat) (expected_stride : Z) : result bool :=
  match ds with
  | [] => Ok true
  | d :: rest =>
      if negb (dim (s_strides shape) d =? 0) && negb (dim (s_strides shape) d =? expected_stride) then Ok false
      else let! e := (expected_stride * dim (s_extents shape) d)%i64 in expected_strides shape rest e
  end.

Definition is_contiguous_row_major (shape : amio_shape_t) : result bool :=
  if (rank shape <=? 0) || (AMIO_MAX_RANK <? rank shape) then Ok false
  else if forallb (fun d => dim (s_strides shape) d =? 0) (seq 0 (Z.to_nat (rank shape))) then Ok true
  else expected_strides shape (dims_down (rank shape)) 1.

(** A zero stride is the row-major one. *)
Fixpoint resolve_strides (shape : amio_shape_t) (ds : list nat) (row_major_stride : Z) (actual : list Z) : result (list Z) :=
  match ds with
  | [] => Ok actual
  | d :: rest =>
      let a := if dim (s_strides shape) d =? 0 then row_major_stride else dim (s_strides shape) d in
      let! e := (row_major_stride * dim (s_extents shape) d)%i64 in resolve_strides shape rest e (<[d := a]> actual)
  end.

(** The odometer: last dimension first, stop at the first one that does not wrap. *)
Fixpoint increment (ds : list nat) (ext idx : list Z) : list Z :=
  match ds with
  | [] => idx
  | d :: rest =>
      let v := dim idx d + 1 in
      if v <? dim ext d then <[d := v]> idx else increment rest ext (<[d := 0]> idx)
  end.

Section Walk.
Context {B : Type}.

(** [n] turns of a loop that fetches an element and turns the odometer. *)
Fixpoint walk (rank : Z) (ext : list Z) (fetch : list Z -> result (list B)) (n : nat) (idx : list Z) (out : list B) : result (list B) :=
  match n with
  | O => Ok out
  | S n => let! e := fetch idx in walk rank ext fetch n (increment (dims_down rank) ext idx) (out ++ e)
  end.

Definition zeros : list Z := replicate (Z.to_nat AMIO_MAX_RANK) 0.

(** [std::memcpy] of [n] bytes from an offset. *)
Definition copy (src : list B) (offset n : Z) : result (list B) :=
  if (0 <=? offset) && (offset + n <=? Z.of_nat (length src)) then Ok (take (Z.to_nat n) (drop (Z.to_nat offset) src)) else Undef.

Definition src_elem_offset (rank : Z) (actual idx : list Z) : Z :=
  foldl (fun acc d => to_u64 (acc + to_u64 (to_u64 (dim idx d) * to_u64 (dim actual d)))) 0 (seq 0 (Z.to_nat rank)).

Definition pack_row_major (src_data : list B) (shape : amio_shape_t) (element_size : Z) : result (list B) :=
  let num_elements := total_elements shape in
  if (num_elements =? 0) || (element_size =? 0) then Ok []
  else
    let! actual := resolve_strides shape (dims_down (rank shape)) 1 zeros in
    let fetch idx := copy src_data (to_u64 (src_elem_offset (rank shape) actual idx * element_size)) element_size in
    walk (rank shape) (s_extents shape) fetch (Z.to_nat num_elements) zeros [].

(** ** The sub-region of a decoded grid *)

Fixpoint full_strides (grid_extents : list Z) (ds : list nat) (acc : Z) (strides : list Z) : result (list Z) :=
  match ds with
  | [] => Ok strides
  | d :: rest => let! e := (acc * dim grid_extents d)%i64 in full_strides grid_extents rest e (<[d := acc]> strides)
  end.

(** The checks, and the number of elements. *)
Fixpoint box_elements (b : amio_bbox_t) (grid_extents : list Z) (ds : list nat) (sub_elems : Z) : result Z :=
  match ds with
  | [] => Ok sub_elems
  | d :: rest =>
      if (dim (extents b) d <? 1) || (dim (strides b) d <? 1) || (dim (offsets b) d <? 0) then Throw runtime_error
      else
        let! last := (dim (offsets b) d + (dim (extents b) d - 1) * dim (strides b) d)%i64 in
        if dim grid_extents d <=? last then Throw runtime_error
        else box_elements b grid_extents rest (to_u64 (sub_elems * dim (extents b) d))
  end.

Fixpoint box_offset (b : amio_bbox_t) (full idx : list Z) (ds : list nat) (src_off : Z) : result Z :=
  match ds with
  | [] => Ok src_off
  | d :: rest =>
      let! o := (src_off + (dim (offsets b) d + dim idx d * dim (strides b) d) * dim full d)%i64 in
      box_offset b full idx rest o
  end.

Definition gather_box (b : amio_bbox_t) (grid_rank : Z) (grid_extents : list Z) (full : list B) : result (list B) :=
  if negb (b_rank b =? grid_rank) then Throw runtime_error
  else
    let! sub_elems := box_elements b grid_extents (seq 0 (Z.to_nat grid_rank)) 1 in
    let! strides := full_strides grid_extents (dims_down grid_rank) 1 zeros in
    let fetch idx := let! off := box_offset b strides idx (seq 0 (Z.to_nat grid_rank)) 0 in
      match full !! Z.to_nat off with Some x => if 0 <=? off then Ok [x] else Undef | None => Undef end in
    walk grid_rank (extents b) fetch (Z.to_nat sub_elems) zeros [].
End Walk.

(** ** Mixed-radix numbers *)

(** The number of elements of the dimensions [d] to [r - 1]. *)
Definition block (ext : list Z) (r d : nat) : Z := foldr Z.mul 1 (dim ext <$> seq d (r - d)).

(** The index in dimension [d] of element [k] in row-major order. *)
Definition digit (ext : list Z) (r d : nat) (k : Z) : Z := (k / block ext r (S d)) mod dim ext d.

Definition digits (ext : list Z) (r : nat) (k : Z) : list Z :=
  (fun d => if decide (d < r)%nat then digit ext r d k else 0) <$> seq 0 7.

Definition positive_dims (ext : list Z) (r : nat) : Prop := forall d, (d < r)%nat -> 1 <= dim ext d.

Lemma foldr_mul_app l1 l2 : foldr Z.mul 1 (l1 ++ l2) = foldr Z.mul 1 l1 * foldr Z.mul 1 l2.
Proof. induction l1 as [|x l1 IH]; cbn [app foldr]; [lia|]. rewrite IH. lia. Qed.

Section Radix.
Variables (ext : list Z) (r : nat).
Hypothesis Hpos : positive_dims ext r.

Lemma block_end : block ext r r = 1.
Proof using. unfold block. by rewrite Nat.sub_diag. Qed.

Lemma block_step d : (d < r)%nat -> block ext r d = dim ext d * block ext r (S d).
Proof using. intros H. unfold block. replace (r - d)%nat with (S (r - S d)) by lia. done. Qed.

Lemma block_split d m : (d <= m <= r)%nat -> exists c, block ext r d = c * block ext r m.
Proof using.
  intros H. exists (foldr Z.mul 1 (dim ext <$> seq d (m - d))). unfold block.
  replace (r - d)%nat with ((m - d) + (r - m))%nat by lia. rewrite seq_app, fmap_app, foldr_mul_app. do 4 f_equal. lia.
Qed.

Lemma block_pos d : 1 <= block ext r d.
Proof.
  unfold block. assert (H : forall x, x ∈ seq d (r - d) -> 1 <= dim ext x) by (intros x Hx%elem_of_seq; apply Hpos; lia).
  revert H. generalize (seq d (r - d)). induction l as [|y l IH]; intros H; cbn; [lia|].
  assert (1 <= dim ext y) by (apply H; left). assert (1 <= foldr Z.mul 1 (dim ext <$> l)) by (apply IH; intros x Hx; apply H; by right). nia.
Qed.

Lemma dim_digits d k : (d < r)%nat -> (r <= 7)%nat -> dim (digits ext r k) d = digit ext r d k.
Proof using. intros H Hr. unfold dim, digits. rewrite list_lookup_fmap, lookup_seq_lt by lia. cbn. by rewrite decide_True. Qed.

Lemma digit_range d k : (d < r)%nat -> 0 <= digit ext r d k < dim ext d.
Proof. intros H. apply Z.mod_pos_bound. specialize (Hpos d H). lia. Qed.

Lemma digits_length k : length (digits ext r k) = 7%nat.
Proof using. unfold digits. by rewrite length_fmap. Qed.

Lemma digits_zero : (forall d, (d < r)%nat -> digit ext r d 0 = 0).
Proof. intros d H. unfold digit. rewrite Z.div_0_l by (pose proof (block_pos (S d)); lia). apply Z.mod_0_l. specialize (Hpos d H). lia. Qed.

(** A step that does not wrap in [m] leaves the quotient alone. *)
Lemma quotient_stays q e c : 1 <= e -> 1 <= c -> q mod e <> 0 -> q / (c * e) = (q - 1) / (c * e).
Proof using.
  intros He Hc Hq. rewrite (Z.mul_comm c e), <- !Z.div_div by lia. f_equal.
  pose proof (Z.div_mod q e ltac:(lia)) as E. pose proof (Z.mod_pos_bound q e ltac:(lia)).
  apply (Z.div_unique _ _ _ (q mod e - 1)); lia.
Qed.

Lemma increment_from m k idx : (m <= r)%nat -> (r <= 7)%nat -> 0 <= k -> k + 1 < block ext r 0 -> (block ext r m | k + 1) ->
  length idx = 7%nat ->
  (forall d, (d < m)%nat -> idx !! d = Some (digit ext r d k)) ->
  (forall d, (m <= d < 7)%nat -> idx !! d = digits ext r (k + 1) !! d) ->
  increment (rev (seq 0 m)) ext idx = digits ext r (k + 1).
Proof.
  intros Hm Hr Hk Hv. revert Hm idx. induction m as [|m IH]; intros Hm idx [q Hq] Hl Hlo Hhi.
  - pose proof (block_pos 0). assert (q <= 0 \/ 1 <= q) by lia. nia.
  - rewrite seq_S, rev_app_distr. cbn [rev app increment Nat.add].
    set (B := block ext r (S m)) in *. pose proof (block_pos (S m)) as HB. fold B in HB.
    assert (He := Hpos m ltac:(lia)). set (e := dim ext m) in *.
    assert (Ek : k / B = q - 1) by (symmetry; apply (Z.div_unique _ _ _ (B - 1)); lia).
    assert (Ek1 : (k + 1) / B = q) by (rewrite Hq; apply Z.div_mul; lia).
    assert (Edk : digit ext r m k = (q - 1) mod e) by (unfold digit; fold B e; by rewrite Ek).
    assert (Edk1 : digit ext r m (k + 1) = q mod e) by (unfold digit; fold B e; by rewrite Ek1).
    assert (Hi : dim idx m = (q - 1) mod e) by (unfold dim; rewrite (Hlo m) by lia; exact Edk). rewrite Hi.
    pose proof (Z.mod_pos_bound (q - 1) e ltac:(lia)) as Hqb. pose proof (Z.div_mod (q - 1) e ltac:(lia)) as Hqd.
    destruct (Z.ltb_spec ((q - 1) mod e + 1) e) as [Hlt|Hge].
    + assert (Eq : q mod e = (q - 1) mod e + 1) by (symmetry; apply (Z.mod_unique _ _ ((q - 1) / e)); lia).
      apply list_eq. intros d. destruct (decide (d = m)) as [->|Hne].
      { rewrite list_lookup_insert_eq by lia. unfold digits. rewrite list_lookup_fmap, lookup_seq_lt by lia. cbn.
        rewrite decide_True by lia. by rewrite Edk1, Eq. }
      rewrite list_lookup_insert_ne by done. destruct (decide (d < m)%nat) as [Hd|Hd].
      * rewrite (Hlo d) by lia. unfold digits. rewrite list_lookup_fmap, lookup_seq_lt by lia. cbn. rewrite decide_True by lia.
        f_equal. unfold digit. f_equal. destruct (block_split (S d) m ltac:(lia)) as [c Hc]. rewrite Hc, (block_step m) by lia. fold B e.
        assert (1 <= c) by (pose proof (block_pos (S d)); rewrite Hc, (block_step m) in H by lia; fold B e in H; nia).
        replace (c * (e * B)) with (B * (c * e)) by lia. rewrite <- (Z.div_div k B), <- (Z.div_div (k + 1) B), Ek, Ek1 by nia. symmetry. apply quotient_stays; lia.
      * destruct (decide (d < 7)%nat); [by apply Hhi; lia|]. rewrite !lookup_ge_None_2; [done|rewrite digits_length; lia|lia].
    + assert (Eq : q mod e = 0) by (symmetry; apply (Z.mod_unique _ _ ((q - 1) / e + 1)); lia).
      apply IH; [lia|..].
      * rewrite block_step by lia. fold B e. exists (q / e). rewrite Hq. pose proof (Z.div_mod q e ltac:(lia)). nia.
      * by rewrite length_insert.
      * intros d Hd. rewrite list_lookup_insert_ne by lia. apply Hlo. lia.
      * intros d Hd. destruct (decide (d = m)) as [->|Hne].
        -- rewrite list_lookup_insert_eq by lia. unfold digits. rewrite list_lookup_fmap, lookup_seq_lt by lia. cbn.
           rewrite decide_True by lia. by rewrite Edk1, Eq.
        -- rewrite list_lookup_insert_ne by done. apply Hhi. lia.
Qed.

Lemma increment_digits k : (r <= 7)%nat -> 0 <= k -> k + 1 < block ext r 0 ->
  increment (rev (seq 0 r)) ext (digits ext r k) = digits ext r (k + 1).
Proof.
  intros Hr Hk Hv. apply (increment_from r k); [lia|lia|lia|lia| |apply digits_length| |].
  - rewrite block_end. apply Z.divide_1_l.
  - intros d Hd. unfold digits. rewrite list_lookup_fmap, lookup_seq_lt by lia. cbn. by rewrite decide_True.
  - intros d Hd. unfold digits. rewrite !list_lookup_fmap, !lookup_seq_lt by lia. cbn. by rewrite !decide_False by lia.
Qed.

Lemma zeros_digits : (r <= 7)%nat -> zeros = digits ext r 0.
Proof.
  intros Hr. apply list_eq. intros d. unfold zeros, digits. destruct (decide (d < 7)%nat).
  - rewrite lookup_replicate_2 by (unfold AMIO_MAX_RANK; lia). rewrite list_lookup_fmap, lookup_seq_lt by lia. cbn.
    destruct (decide (d < r)%nat); [by rewrite digits_zero|done].
  - rewrite !lookup_ge_None_2; [done|rewrite length_fmap, length_seq; lia|rewrite length_replicate; unfold AMIO_MAX_RANK; lia].
Qed.

(** The digits of a number below the volume give it back. *)
Lemma digits_value k d : (d <= r)%nat -> 0 <= k ->
  foldr Z.add 0 ((fun i => digit ext r i k * block ext r (S i)) <$> seq d (r - d)) = k mod block ext r d.
Proof.
  intros Hd Hk. remember (r - d)%nat as n eqn:En. revert d Hd En. induction n as [|n IH]; intros d Hd En.
  - replace d with r by lia. rewrite block_end. cbn. by rewrite Z.mod_1_r.
  - cbn [seq fmap list_fmap foldr]. rewrite (IH (S d)) by lia. rewrite (block_step d) by lia. unfold digit.
    pose proof (block_pos (S d)). specialize (Hpos d ltac:(lia)).
    rewrite (Z.mul_comm (dim ext d)), Z.rem_mul_r by lia. lia.
Qed.

Context {B : Type}.

Lemma walk_spec rk (fetch : list Z -> result (list B)) (el : Z -> list B) n k out : (r <= 7)%nat -> Z.to_nat rk = r -> 0 <= k ->
  k + Z.of_nat n <= block ext r 0 ->
  (forall j, k <= j < k + Z.of_nat n -> fetch (digits ext r j) = Ok (el j)) ->
  walk rk ext fetch n (digits ext r k) out = Ok (out ++ concat ((fun i => el (k + Z.of_nat i)) <$> seq 0 n)).
Proof.
  intros Hr Hrk. revert k out. induction n as [|n IH]; intros k out Hk Hn Hf; [cbn; by rewrite app_nil_r|].
  cbn [walk]. rewrite Hf by lia. rewrite bind_Ok_l. unfold dims_down. rewrite Hrk. destruct n as [|n].
  { cbn. rewrite app_nil_r, Z.add_0_r. done. }
  rewrite increment_digits by lia. rewrite (IH (k + 1)) by (try lia; intros j Hj; apply Hf; lia).
  f_equal. rewrite <- app_assoc. f_equal. change (seq 0 (S (S n))) with (0%nat :: seq 1 (S n)). rewrite fmap_cons. cbn [concat].
  rewrite Z.add_0_r. f_equal. rewrite <- (fmap_S_seq 0 (S n)), <- list_fmap_compose. f_equal. apply list_fmap_ext.
  intros i x Hx. cbn. f_equal. lia.
Qed.
End Radix.

(** ** The loops of the code *)

Definition array7 (l : list Z) : Prop := length l = 7%nat.

Lemma arith64_ok z : 0 <= z <= 9223372036854775807 -> arith I64 z = Ok z.
Proof. intros H. unfold arith, in_range. cbn. replace ((-9223372036854775808 <=? z) && (z <=? 9223372036854775807)) with true by (symmetry; apply andb_true_iff; lia). done. Qed.

Definition sum_dims (f : nat -> Z) (r : nat) : Z := foldr Z.add 0 (f <$> seq 0 r).

Lemma sum_app l1 l2 : foldr Z.add 0 (l1 ++ l2) = foldr Z.add 0 l1 + foldr Z.add 0 l2.
Proof. induction l1 as [|x l1 IH]; cbn [app foldr]; lia. Qed.

Lemma sum_dims_S f r : sum_dims f (S r) = sum_dims f r + f r.
Proof. unfold sum_dims. rewrite seq_S, fmap_app, sum_app. cbn. lia. Qed.

Lemma sum_dims_le f g r : (forall d, (d < r)%nat -> f d <= g d) -> sum_dims f r <= sum_dims g r.
Proof. induction r as [|r IH]; intros H; [done|]. rewrite !sum_dims_S. specialize (IH ltac:(intros d Hd; apply H; lia)). specialize (H r ltac:(lia)). lia. Qed.

Lemma sum_dims_nonneg f r : (forall d, (d < r)%nat -> 0 <= f d) -> 0 <= sum_dims f r.
Proof. induction r as [|r IH]; intros H; [done|]. rewrite sum_dims_S. specialize (IH ltac:(intros d Hd; apply H; lia)). specialize (H r ltac:(lia)). lia. Qed.

Lemma sum_dims_mono f r m : (forall d, (d < r)%nat -> 0 <= f d) -> (m <= r)%nat -> sum_dims f m <= sum_dims f r.
Proof.
  intros H Hm. induction r as [|r IH]; [by replace m with 0%nat by lia|]. destruct (decide (m = S r)) as [->|]; [lia|].
  rewrite sum_dims_S. specialize (IH ltac:(intros d Hd; apply H; lia) ltac:(lia)). specialize (H r ltac:(lia)). lia.
Qed.

Lemma sum_dims_ext f g r : (forall d, (d < r)%nat -> f d = g d) -> sum_dims f r = sum_dims g r.
Proof. induction r as [|r IH]; intros H; [done|]. rewrite !sum_dims_S, IH, (H r) by (intros; try apply H; lia). done. Qed.

Lemma size_product_block ext r m acc : positive_dims ext r -> (m <= r)%nat -> 0 <= acc -> acc * block ext r m < 18446744073709551616 ->
  size_product (dim ext <$> seq m (r - m)) acc = Some (acc * block ext r m).
Proof.
  intros Hpos Hm. remember (r - m)%nat as n eqn:En. revert m acc Hm En. induction n as [|n IH]; intros m acc Hm En Ha Hb.
  - replace m with r in * by lia. rewrite block_end in *. cbn. by rewrite Z.mul_1_r.
  - cbn [seq fmap list_fmap size_product]. rewrite block_step in * by lia. pose proof (Hpos m ltac:(lia)). pose proof (block_pos ext r Hpos (S m)).
    rewrite (proj2 (Z.leb_gt _ _)) by lia. rewrite to_u64_id by nia. rewrite IH by (try lia; nia). f_equal. lia.
Qed.

Lemma total_elements_spec shape : 1 <= rank shape <= 7 -> positive_dims (s_extents shape) (Z.to_nat (rank shape)) ->
  block (s_extents shape) (Z.to_nat (rank shape)) 0 < 18446744073709551616 ->
  total_elements shape = block (s_extents shape) (Z.to_nat (rank shape)) 0.
Proof.
  intros Hr Hpos Hb. unfold total_elements. replace ((rank shape <=? 0) || (AMIO_MAX_RANK <? rank shape)) with false.
  2:{ symmetry. apply orb_false_iff. unfold AMIO_MAX_RANK. lia. }
  unfold used_dims. rewrite Z.min_l by (unfold AMIO_MAX_RANK; lia). set (r := Z.to_nat (rank shape)) in *.
  change (List.seq 0 r) with (seq 0 r). replace (seq 0 r) with (seq 0 (r - 0)) by (f_equal; lia).
  rewrite (size_product_block _ r 0 1); [cbn [default from_option id]; lia|done|lia|lia|lia].
Qed.

(** The strides that a shape stands for. *)
Definition stride_of (shape : amio_shape_t) (d : nat) : Z :=
  if dim (s_strides shape) d =? 0 then block (s_extents shape) (Z.to_nat (rank shape)) (S d) else dim (s_strides shape) d.

Section Shape.
Variable shape : amio_shape_t.
Abbreviation r := (Z.to_nat (rank shape)).
Abbreviation ext := (s_extents shape).
Hypothesis Hrank : 1 <= rank shape <= 7.
Hypothesis Hpos : positive_dims ext r.
Hypothesis Hvol : block ext r 0 <= 9223372036854775807.

Lemma block_le m : (m <= r)%nat -> 0 <= block ext r m <= 9223372036854775807.
Proof. intros Hm. destruct (block_split ext r 0 m ltac:(lia)) as [c Hc]. pose proof (block_pos ext r Hpos m). pose proof (block_pos ext r Hpos 0).
  assert (1 <= c) by (destruct (Z.le_gt_cases c 0); nia). nia.
Qed.

Lemma resolve_strides_spec m actual : (m <= r)%nat -> length actual = 7%nat -> exists l,
  resolve_strides shape (rev (seq 0 m)) (block ext r m) actual = Ok l /\ length l = 7%nat /\
  (forall d, (d < m)%nat -> dim l d = stride_of shape d) /\ (forall d, (m <= d)%nat -> dim l d = dim actual d).
Proof.
  revert actual. induction m as [|m IH]; intros actual Hm Hl; [exists actual; split; [done|split; [done|split; [lia|done]]]|].
  rewrite seq_S, rev_app_distr. cbn [rev app resolve_strides Nat.add]. unfold cmul, cval. rewrite !bind_Ok_l.
  rewrite Z.mul_comm, <- block_step by lia. rewrite arith64_ok by (apply block_le; lia). rewrite bind_Ok_l.
  destruct (IH (<[m := if dim (s_strides shape) m =? 0 then block ext r (S m) else dim (s_strides shape) m]> actual)) as (l & E & Hl' & Hlo & Hhi);
    [lia|by rewrite length_insert|]. exists l. split; [exact E|]. split; [done|]. split.
  - intros d Hd. destruct (decide (d = m)) as [->|]; [|apply Hlo; lia]. rewrite Hhi by lia. unfold dim at 1. by rewrite list_lookup_insert_eq by lia.
  - intros d Hd. rewrite Hhi by lia. unfold dim at 1. by rewrite list_lookup_insert_ne by lia.
Qed.

Lemma expected_strides_spec m : (m <= r)%nat ->
  expected_strides shape (rev (seq 0 m)) (block ext r m) =
    Ok (forallb (fun d => (dim (s_strides shape) d =? 0) || (dim (s_strides shape) d =? block ext r (S d))) (seq 0 m)).
Proof.
  induction m as [|m IH]; intros Hm; [done|]. rewrite seq_S, rev_app_distr, forallb_app. cbn [rev app expected_strides Nat.add forallb].
  rewrite andb_true_r, <- negb_orb. destruct ((dim (s_strides shape) m =? 0) || (dim (s_strides shape) m =? block ext r (S m))); cbn [negb].
  - unfold cmul, cval. rewrite !bind_Ok_l, Z.mul_comm, <- block_step by lia. rewrite arith64_ok by (apply block_le; lia).
    rewrite bind_Ok_l, IH by lia. by rewrite andb_true_r.
  - by rewrite andb_false_r.
Qed.

(** The code's test is: every stride is zero or the row-major one. *)
Lemma is_contiguous_spec :
  is_contiguous_row_major shape = Ok (forallb (fun d => stride_of shape d =? block ext r (S d)) (seq 0 r)).
Proof.
  unfold is_contiguous_row_major. replace ((rank shape <=? 0) || (AMIO_MAX_RANK <? rank shape)) with false.
  2:{ symmetry. apply orb_false_iff. unfold AMIO_MAX_RANK. lia. }
  assert (E : forallb (fun d => (dim (s_strides shape) d =? 0) || (dim (s_strides shape) d =? block ext r (S d))) (seq 0 r) =
    forallb (fun d => stride_of shape d =? block ext r (S d)) (seq 0 r)).
  { induction (seq 0 r) as [|d l IH]; cbn; [done|]. rewrite IH. f_equal. unfold stride_of.
    destruct (dim (s_strides shape) d =? 0); [cbn; symmetry; apply Z.eqb_refl|done]. }
  destruct (forallb (fun d => dim (s_strides shape) d =? 0) (seq 0 r)) eqn:Ez.
  - f_equal. rewrite <- E. symmetry. rewrite forallb_forall in *. intros d Hd. by rewrite Ez.
  - unfold dims_down. rewrite <- E. rewrite <- (expected_strides_spec r) by lia. by rewrite block_end.
Qed.
End Shape.

(** ** Payloads as sequences of elements *)

(** Element [k] of a payload of elements of [n] bytes. *)
Definition element {B} (n : nat) (k : nat) (l : list B) : list B := take n (drop (k * n) l).

Lemma concat_chunks_length {B} (f : nat -> list B) n m j : (forall k, (j <= k < j + m)%nat -> length (f k) = n) -> length (concat (f <$> seq j m)) = (m * n)%nat.
Proof.
  revert j. induction m as [|m IH]; intros j H; [done|]. cbn [seq fmap list_fmap concat]. rewrite length_app, (H j), (IH (S j)) by (try lia; intros; apply H; lia). lia.
Qed.

Lemma element_concat {B} (f : nat -> list B) n m j k : (forall i, (j <= i < j + m)%nat -> length (f i) = n) -> (k < m)%nat ->
  element n k (concat (f <$> seq j m)) = f (j + k)%nat.
Proof.
  revert j k. induction m as [|m IH]; intros j k H Hk; [lia|]. cbn [seq fmap list_fmap concat]. unfold element in *. destruct k as [|k].
  - cbn [Nat.mul]. rewrite drop_0, take_app_le by (rewrite (H j); lia). rewrite take_ge by (rewrite (H j); lia). f_equal. lia.
  - rewrite drop_app_ge by (rewrite (H j); lia). rewrite (H j) by lia. replace (S k * n - n)%nat with (k * n)%nat by lia.
    rewrite (IH (S j)) by (try lia; intros; apply H; lia). f_equal. lia.
Qed.

Lemma concat_elements {B} (l : list B) n m j : ((j + m) * n <= length l)%nat ->
  concat ((fun k => element n k l) <$> seq j m) = take (m * n) (drop (j * n) l).
Proof.
  revert j. induction m as [|m IH]; intros j H; [done|]. cbn [seq fmap list_fmap concat]. rewrite (IH (S j)) by lia. unfold element.
  replace (S m * n)%nat with (n + m * n)%nat by lia. rewrite <- take_take_drop, drop_drop. do 3 f_equal. lia.
Qed.

Lemma copy_element {B} (src : list B) k n : 0 <= k -> 0 <= n -> (k + 1) * n <= Z.of_nat (length src) ->
  copy src (k * n) n = Ok (element (Z.to_nat n) (Z.to_nat k) src).
Proof.
  intros Hk Hn H. unfold copy, element. replace ((0 <=? k * n) && (k * n + n <=? Z.of_nat (length src))) with true.
  2:{ symmetry. apply andb_true_iff. nia. } do 3 f_equal. lia.
Qed.

(** ** Packing *)

Section Packing.
Variable shape : amio_shape_t.
Abbreviation r := (Z.to_nat (rank shape)).
Abbreviation ext := (s_extents shape).
Hypothesis Hrank : 1 <= rank shape <= 7.
Hypothesis Hpos : positive_dims ext r.
Hypothesis Hvol : block ext r 0 <= 9223372036854775807.
Hypothesis Hstr : forall d, (d < r)%nat -> 0 <= stride_of shape d.

(** Where element [k] of the packed buffer comes from. *)
Definition source_of (k : Z) : Z := sum_dims (fun d => digit ext r d k * stride_of shape d) r.
Definition furthest : Z := sum_dims (fun d => (dim ext d - 1) * stride_of shape d) r.

Lemma source_bounds k : 0 <= source_of k <= furthest.
Proof using Hpos Hstr.
  clear Hrank Hvol.
  split.
  - apply sum_dims_nonneg. intros d Hd. pose proof (digit_range ext r Hpos d k Hd). specialize (Hstr d Hd). nia.
  - apply sum_dims_le. intros d Hd. pose proof (digit_range ext r Hpos d k Hd). specialize (Hstr d Hd). nia.
Qed.

Lemma src_elem_offset_spec actual k : (forall d, (d < r)%nat -> dim actual d = stride_of shape d) -> furthest < 18446744073709551616 ->
  src_elem_offset (rank shape) actual (digits ext r k) = source_of k.
Proof.
  intros Ha Hf. unfold src_elem_offset, source_of. pose proof (source_bounds k) as Hb. unfold source_of in Hb.
  set (t := fun d => digit ext r d k * stride_of shape d) in *.
  assert (Ht : forall d, (d < r)%nat -> 0 <= t d).
  { intros d Hd. unfold t. pose proof (digit_range ext r Hpos d k Hd). specialize (Hstr d Hd). nia. }
  assert (H : forall m, (m <= r)%nat -> foldl (fun acc d => to_u64 (acc + to_u64 (to_u64 (dim (digits ext r k) d) * to_u64 (dim actual d)))) 0 (seq 0 m)
    = sum_dims t m).
  { induction m as [|m IH]; intros Hm; [done|]. rewrite seq_S, foldl_app. cbn [foldl Nat.add]. rewrite IH by lia. rewrite sum_dims_S.
    pose proof (sum_dims_mono t r (S m) Ht Hm) as Hmono. rewrite sum_dims_S in Hmono.
    pose proof (sum_dims_nonneg t m ltac:(intros; apply Ht; lia)) as Hnn. pose proof (Ht m ltac:(lia)) as Htm.
    rewrite dim_digits, (Ha m) by lia. pose proof (digit_range ext r Hpos m k ltac:(lia)) as Hd. specialize (Hstr m ltac:(lia)).
    destruct (block_split ext r 0 m ltac:(lia)) as [c Hc]. rewrite (block_step ext r m) in Hc by lia.
    pose proof (block_pos ext r Hpos 0). pose proof (block_pos ext r Hpos (S m)).
    assert (Hdv : dim ext m <= 9223372036854775807).
    { pose proof (block_le shape Hrank Hpos Hvol m ltac:(lia)) as Hbl. rewrite block_step in Hbl by lia. nia. }
    rewrite (to_u64_id (digit ext r m k)) by lia. change (t m) with (digit ext r m k * stride_of shape m) in *.
    destruct (decide (digit ext r m k = 0)) as [E0|E0].
    - rewrite E0, Z.mul_0_l in *. change (to_u64 0) with 0. rewrite to_u64_id by lia. done.
    - assert (stride_of shape m < 18446744073709551616) by nia.
      rewrite (to_u64_id (stride_of shape m)) by lia. rewrite (to_u64_id (_ * _)) by lia. rewrite to_u64_id by lia. done. }
  rewrite H by lia. done.
Qed.

Context {B : Type}.

Lemma pack_run (src : list B) n : 1 <= n -> (furthest + 1) * n <= Z.of_nat (length src) -> Z.of_nat (length src) < 18446744073709551616 ->
  pack_row_major src shape n =
    Ok (concat ((fun k => element (Z.to_nat n) (Z.to_nat (source_of (Z.of_nat k))) src) <$> seq 0 (Z.to_nat (block ext r 0)))).
Proof.
  intros Hn Hlen Hmax. pose proof (block_pos ext r Hpos 0) as Hb1. pose proof (source_bounds 0) as Hs0.
  unfold pack_row_major. rewrite total_elements_spec by (try assumption; lia).
  replace ((block ext r 0 =? 0) || (n =? 0)) with false by (symmetry; apply orb_false_iff; lia). unfold dims_down.
  destruct (resolve_strides_spec shape Hrank Hpos Hvol r zeros ltac:(lia) ltac:(done)) as (actual & E & _ & Ha & _).
  rewrite block_end in E. rewrite E, bind_Ok_l. rewrite (zeros_digits ext r Hpos) by lia.
  rewrite (walk_spec ext r Hpos (rank shape) _ (fun k => element (Z.to_nat n) (Z.to_nat (source_of k)) src)); [done|lia|done|lia|lia|].
  intros j _. pose proof (source_bounds j). rewrite src_elem_offset_spec by (try done; nia). rewrite to_u64_id by nia. apply copy_element; nia.
Qed.

(** On a contiguous layout an element stays where it is. *)
Lemma contiguous_source k : (forall d, (d < r)%nat -> stride_of shape d = block ext r (S d)) -> 0 <= k < block ext r 0 -> source_of k = k.
Proof using Hpos.
  clear Hrank Hvol Hstr. intros Hs Hk. unfold source_of. rewrite (sum_dims_ext _ (fun d => digit ext r d k * block ext r (S d))).
  2:{ intros d Hd. by rewrite Hs. }
  pose proof (digits_value ext r Hpos k 0 ltac:(lia) ltac:(lia)) as H. rewrite Nat.sub_0_r in H. unfold sum_dims. rewrite H.
  apply Z.mod_small. lia.
Qed.
End Packing.

(** Packing: for a shape whose elements all lie in the payload, the packed buffer holds them
    in row-major order, element [k] coming from the position that its indices and the strides
    give; when the layout test says that the payload is already contiguous, packing copies it,
    so that the fast path, which skips the packing, hands the same bytes over. *)
Theorem pack_row_major_correct {B} (src : list B) shape n : let r := Z.to_nat (rank shape) in let volume := block (s_extents shape) r 0 in
  1 <= rank shape <= 7 -> positive_dims (s_extents shape) r -> volume <= 9223372036854775807 ->
  (forall d, (d < r)%nat -> 0 <= stride_of shape d) -> 1 <= n ->
  (furthest shape + 1) * n <= Z.of_nat (length src) < 18446744073709551616 ->
  exists out, pack_row_major src shape n = Ok out /\ length out = Z.to_nat (volume * n) /\
    (forall k, 0 <= k < volume -> element (Z.to_nat n) (Z.to_nat k) out = element (Z.to_nat n) (Z.to_nat (source_of shape k)) src) /\
    exists c, is_contiguous_row_major shape = Ok c /\ (c = true -> out = take (Z.to_nat (volume * n)) src).
Proof.
  intros r volume Hrank Hpos Hvol Hstr Hn [Hlen Hmax]. subst r volume.
  pose proof (block_pos _ _ Hpos 0) as Hb1.
  eexists. split; [by apply pack_run|]. pose proof (source_bounds shape Hpos Hstr) as Hsb.
  assert (Hel : forall k, length (element (Z.to_nat n) (Z.to_nat (source_of shape (Z.of_nat k))) src) = Z.to_nat n).
  { intros k. specialize (Hsb (Z.of_nat k)). unfold element. rewrite length_take, length_drop, <- Z2Nat.inj_mul by lia.
    assert ((source_of shape (Z.of_nat k) + 1) * n <= Z.of_nat (length src)) by nia. assert (0 <= source_of shape (Z.of_nat k) * n) by nia. lia. }
  split; [|split].
  - rewrite (concat_chunks_length _ (Z.to_nat n)) by (intros; apply Hel). rewrite Z2Nat.inj_mul by lia. done.
  - intros k Hk. rewrite (element_concat _ (Z.to_nat n)) by (try (intros; apply Hel); lia). cbn [Nat.add]. by rewrite Z2Nat.id by lia.
  - rewrite is_contiguous_spec by done. eexists. split; [done|]. intros Hc.
    assert (Hs : forall d, (d < Z.to_nat (rank shape))%nat -> stride_of shape d = block (s_extents shape) (Z.to_nat (rank shape)) (S d)).
    { intros d Hd. rewrite forallb_forall in Hc. apply Z.eqb_eq, Hc, in_seq. lia. }
    assert (Hfar : block (s_extents shape) (Z.to_nat (rank shape)) 0 - 1 <= furthest shape).
    { rewrite <- (contiguous_source shape Hpos (block (s_extents shape) (Z.to_nat (rank shape)) 0 - 1)) by (done || lia). apply Hsb. }
    rewrite (list_fmap_ext _ (fun k => element (Z.to_nat n) k src)).
    2:{ intros i k Hi. apply lookup_seq in Hi as [-> Hi]. cbn. rewrite (contiguous_source shape Hpos) by (done || lia). by rewrite Nat2Z.id. }
    rewrite concat_elements by (cbn [Nat.add]; rewrite <- Z2Nat.inj_mul by lia; assert (block (s_extents shape) (Z.to_nat (rank shape)) 0 * n <= Z.of_nat (length src)) by nia; lia). cbn [Nat.mul]. rewrite drop_0, Z2Nat.inj_mul by lia. done.
Qed.

(** ** Sub-regions *)

Section Box.
Variables (b : amio_bbox_t) (grid : list Z) (rk : Z).
Abbreviation r := (Z.to_nat rk).
Abbreviation whole := (mkShape rk grid []).
Hypothesis Hrank : 1 <= rk <= 7.
Hypothesis Hpos : positive_dims grid r.
Hypothesis Hvol : block grid r 0 <= 9223372036854775807.
Hypothesis Hb : b_rank b = rk.

Definition dim_inside (d : nat) : Prop :=
  1 <= dim (strides b) d /\ 0 <= dim (offsets b) d /\ 1 <= dim (extents b) d /\
  forall i, 0 <= i < dim (extents b) d -> 0 <= dim (offsets b) d + i * dim (strides b) d < dim grid d.

Lemma dim_inside_last d : 1 <= dim (strides b) d -> 0 <= dim (offsets b) d -> 1 <= dim (extents b) d ->
  dim_inside d <-> dim (offsets b) d + (dim (extents b) d - 1) * dim (strides b) d < dim grid d.
Proof using. clear Hrank Hpos Hvol Hb. intros Hs Ho He. split; [intros (_ & _ & _ & H); apply H; lia|]. intros H. do 3 (split; [done|]). intros i Hi. nia. Qed.

Lemma extents_le d : dim_inside d -> dim (extents b) d <= dim grid d.
Proof using. clear Hrank Hpos Hvol Hb. intros (Hs & Ho & He & H). specialize (H (dim (extents b) d - 1) ltac:(lia)). nia. Qed.

(** The check computes the last index of dimension [d], which is no [int64_t]. *)
Definition dim_overflows (d : nat) : Prop :=
  1 <= dim (extents b) d /\ 1 <= dim (strides b) d /\ 0 <= dim (offsets b) d /\ ~ last_fits b d.

Lemma last_fits_dec d : last_fits b d \/ ~ last_fits b d.
Proof using. clear Hrank Hpos Hvol Hb. unfold last_fits. lia. Qed.

Lemma dim_grid_fits d : (d < r)%nat -> dim grid d <= imax I64.
Proof using Hrank Hpos Hvol.
  intros Hd. destruct (block_split grid r 0 d ltac:(lia)) as [c Hc]. rewrite (block_step grid r d) in Hc by lia.
  pose proof (block_pos grid r Hpos 0) as P0. pose proof (block_pos grid r Hpos (S d)) as P1. pose proof (Hpos d Hd). cbn [imax].
  assert (1 <= dim grid d * block grid r (S d)) by nia. assert (1 <= c) by nia. nia.
Qed.

Lemma dim_inside_fits d : (d < r)%nat -> dim_inside d -> last_fits b d.
Proof using Hrank Hpos Hvol.
  intros Hd Hin. pose proof (dim_grid_fits d Hd) as Hg. destruct Hin as (Hs & Ho & He & H).
  pose proof (H (dim (extents b) d - 1) ltac:(lia)). unfold last_fits. cbn [imin imax] in *. nia.
Qed.

(** One dimension in the check. *)
Lemma check_step n m acc : (m < r)%nat ->
  box_elements b grid (seq m (S n)) acc = Throw runtime_error /\ ~ dim_inside m /\ ~ dim_overflows m \/
  box_elements b grid (seq m (S n)) acc = Undef /\ ~ dim_inside m /\ dim_overflows m \/
  box_elements b grid (seq m (S n)) acc = box_elements b grid (seq (S m) n) (to_u64 (acc * dim (extents b) m)) /\ dim_inside m.
Proof using Hrank Hpos Hvol.
  intros Hm. cbn [seq box_elements].
  destruct ((dim (extents b) m <? 1) || (dim (strides b) m <? 1) || (dim (offsets b) m <? 0)) eqn:Et.
  { left. split; [done|]. split; [intros (H1 & H2 & H3 & _); lia|intros (H1 & H2 & H3 & _); lia]. }
  apply orb_false_iff in Et as [Et Ho%Z.ltb_ge]. apply orb_false_iff in Et as [He%Z.ltb_ge Hs%Z.ltb_ge].
  unfold cadd, cmul, csub, cval. rewrite !bind_Ok_l.
  destruct (last_fits_dec m) as [(F1 & F2 & F3)|Hf].
  - rewrite !arith_ok by done. rewrite !bind_Ok_l. rewrite arith_ok by done. rewrite !bind_Ok_l, arith_ok by done. rewrite !bind_Ok_l.
    destruct (Z.leb_spec (dim grid m) (dim (offsets b) m + (dim (extents b) m - 1) * dim (strides b) m)) as [Hle|Hlt].
    + left. split; [done|]. split; [intros Hin%dim_inside_last; [lia|done..]|]. intros (_ & _ & _ & Hn). apply Hn. done.
    + right. right. split; [done|]. by apply dim_inside_last.
  - right. left. split; [|split; [intros Hin; by apply Hf, dim_inside_fits|done]].
    unfold arith. destruct (in_range I64 (dim (extents b) m - 1)) eqn:E1; [|done]. cbn [bind].
    destruct (in_range I64 ((dim (extents b) m - 1) * dim (strides b) m)) eqn:E2; [|done]. cbn [bind].
    destruct (in_range I64 (dim (offsets b) m + (dim (extents b) m - 1) * dim (strides b) m)) eqn:E3; [|done].
    exfalso. apply Hf. unfold last_fits, in_range in *. lia.
Qed.

(** A dimension overflows, and all before it are within the grid. *)
Definition overflows_from (m : nat) : Prop := exists d, (m <= d < r)%nat /\ dim_overflows d /\ forall k, (m <= k < d)%nat -> dim_inside k.

Lemma overflows_skip m : dim_inside m -> overflows_from (S m) <-> overflows_from m.
Proof using Hrank Hpos Hvol.
  intros Hin. split; intros (d & Hd & Ho & Hk).
  - exists d. split; [lia|]. split; [done|]. intros k Hk'. destruct (decide (k = m)) as [->|]; [done|apply Hk; lia].
  - exists d. assert (d <> m) by (intros ->; destruct Ho as (_ & _ & _ & Hn); apply Hn, dim_inside_fits; [lia|done]).
    split; [lia|]. split; [done|]. intros k Hk'. apply Hk. lia.
Qed.

Lemma box_elements_spec n m acc : (m + n = r)%nat -> 0 <= acc -> acc * block grid r m <= 9223372036854775807 ->
  ((forall d, (m <= d < r)%nat -> dim_inside d) -> box_elements b grid (seq m n) acc = Ok (acc * block (extents b) r m) /\ block (extents b) r m <= block grid r m) /\
  (overflows_from m -> box_elements b grid (seq m n) acc = Undef) /\
  (~ (forall d, (m <= d < r)%nat -> dim_inside d) -> ~ overflows_from m -> box_elements b grid (seq m n) acc = Throw runtime_error).
Proof using Hrank Hpos Hvol.
  revert m acc. induction n as [|n IH]; intros m acc Hm Ha Hacc.
  - replace m with r in * by lia. split; [|split].
    + intros _. rewrite !block_end. cbn. split; [f_equal; lia|lia].
    + intros (d & Hd & _). lia.
    + intros H. destruct H. intros d Hd. lia.
  - destruct (check_step n m acc ltac:(lia)) as [(-> & Hn & Ho)|[(-> & Hn & Ho)|(-> & Hin)]].
    + split; [intros H; destruct Hn; apply H; lia|]. split; [|done]. intros (d & Hd & Hov & Hk).
      destruct (decide (d = m)) as [->|]; [done|]. destruct Hn. apply Hk. lia.
    + split; [intros H; destruct Hn; apply H; lia|]. split; [done|]. intros _ Hno. destruct Hno. exists m. split; [lia|]. split; [done|]. intros k Hk. lia.
    + pose proof (extents_le m Hin) as Hel. pose proof Hin as (Hs & Ho & He & _).
      rewrite block_step in Hacc by lia. pose proof (block_pos grid r Hpos (S m)) as HbS. pose proof (Hpos m ltac:(lia)) as Hg.
      assert (Hm1 : acc * dim (extents b) m * block grid r (S m) <= 9223372036854775807) by (transitivity (acc * (dim grid m * block grid r (S m))); nia).
      assert (Hm0 : acc * dim (extents b) m <= 9223372036854775807) by nia.
      rewrite to_u64_id by nia. destruct (IH (S m) (acc * dim (extents b) m) ltac:(lia) ltac:(nia) Hm1) as (IH1 & IH2 & IH3).
      rewrite (overflows_skip m Hin) in IH2, IH3. split; [|split; [done|]].
      * intros H. destruct IH1 as [-> Hle]; [intros d Hd; apply H; lia|]. rewrite !(block_step _ r m) by lia. split; [f_equal; lia|nia].
      * intros H. apply IH3. intros H'. apply H. intros d Hd. destruct (decide (d = m)) as [->|]; [done|apply H'; lia].
Qed.

Lemma full_strides_spec m l : (m <= r)%nat -> length l = 7%nat -> exists st,
  full_strides grid (rev (seq 0 m)) (block grid r m) l = Ok st /\ length st = 7%nat /\
  (forall d, (d < m)%nat -> dim st d = block grid r (S d)) /\ (forall d, (m <= d)%nat -> dim st d = dim l d).
Proof.
  revert l. induction m as [|m IH]; intros l Hm Hl; [exists l; split; [done|split; [done|split; [lia|done]]]|].
  rewrite seq_S, rev_app_distr. cbn [rev app full_strides Nat.add]. unfold cmul, cval. rewrite !bind_Ok_l.
  rewrite Z.mul_comm, <- block_step by lia. rewrite arith64_ok by (apply (block_le whole); try done; cbn; lia). rewrite bind_Ok_l.
  destruct (IH (<[m := block grid r (S m)]> l)) as (st & E & Hl' & Hlo & Hhi); [lia|by rewrite length_insert|].
  exists st. split; [exact E|]. split; [done|]. split.
  - intros d Hd. destruct (decide (d = m)) as [->|]; [|apply Hlo; lia]. rewrite Hhi by lia. unfold dim. by rewrite list_lookup_insert_eq by lia.
  - intros d Hd. rewrite Hhi by lia. unfold dim. by rewrite list_lookup_insert_ne by lia.
Qed.

(** Where element [k] of the sub-region comes from. *)
Definition box_source (k : Z) : Z :=
  sum_dims (fun d => (dim (offsets b) d + digit (extents b) r d k * dim (strides b) d) * block grid r (S d)) r.

Lemma sum_blocks m : (m <= r)%nat -> sum_dims (fun d => (dim grid d - 1) * block grid r (S d)) m = block grid r 0 - block grid r m.
Proof using.
  clear Hrank Hpos Hvol Hb. induction m as [|m IH]; intros Hm; [cbn; lia|]. rewrite sum_dims_S, IH by lia. rewrite (block_step grid r m) by lia. lia.
Qed.

Lemma box_offset_spec st k : (forall d, (d < r)%nat -> dim_inside d) -> (forall d, (d < r)%nat -> dim st d = block grid r (S d)) ->
  box_offset b st (digits (extents b) r k) (seq 0 r) 0 = Ok (box_source k) /\ 0 <= box_source k < block grid r 0.
Proof.
  intros Hin Hst. set (t := fun d => (dim (offsets b) d + digit (extents b) r d k * dim (strides b) d) * block grid r (S d)).
  assert (He : positive_dims (extents b) r) by (intros d Hd; by destruct (Hin d Hd) as (_ & _ & ? & _)).
  assert (Hix : forall d, (d < r)%nat -> 0 <= dim (offsets b) d + digit (extents b) r d k * dim (strides b) d <= dim grid d - 1).
  { intros d Hd. destruct (Hin d Hd) as (_ & _ & _ & H). specialize (H _ (digit_range (extents b) r He d k Hd)). lia. }
  assert (Ht : forall d, (d < r)%nat -> 0 <= t d) by (intros d Hd; specialize (Hix d Hd); pose proof (block_pos grid r Hpos (S d)); unfold t; nia).
  assert (Hsum : forall m, (m <= r)%nat -> 0 <= sum_dims t m <= block grid r 0 - block grid r m).
  { intros m Hm. rewrite <- sum_blocks by lia. split; [apply sum_dims_nonneg; intros; apply Ht; lia|]. apply sum_dims_le. intros d Hd.
    specialize (Hix d ltac:(lia)). pose proof (block_pos grid r Hpos (S d)). unfold t. nia. }
  assert (H : forall n m, (m + n = r)%nat -> box_offset b st (digits (extents b) r k) (seq m n) (sum_dims t m) = Ok (sum_dims t r)).
  { induction n as [|n IH]; intros m Hm; [by replace m with r by lia|]. cbn [seq box_offset].
    rewrite dim_digits, Hst by lia. specialize (Hix m ltac:(lia)). pose proof (block_pos grid r Hpos (S m)) as Hbp.
    pose proof (Hsum m ltac:(lia)) as Hs0. pose proof (Hsum (S m) ltac:(lia)) as Hs1. rewrite sum_dims_S in Hs1.
    pose proof (Ht m ltac:(lia)) as Htm. change (t m) with ((dim (offsets b) m + digit (extents b) r m k * dim (strides b) m) * block grid r (S m)) in *.
    destruct (Hin m ltac:(lia)) as (Hs & Ho & _ & _). pose proof (digit_range (extents b) r He m k ltac:(lia)) as Hd.
    assert (Hg : dim grid m <= 9223372036854775807).
    { pose proof (block_le whole ltac:(done) ltac:(done) ltac:(done) m ltac:(cbn; lia)) as Hbl. cbn [rank s_extents] in Hbl. rewrite block_step in Hbl by lia. nia. }
    unfold cadd, cmul, cval. rewrite !bind_Ok_l. rewrite (arith64_ok (digit (extents b) r m k * _)) by nia. rewrite !bind_Ok_l.
    rewrite (arith64_ok (dim (offsets b) m + _)) by nia. rewrite !bind_Ok_l. rewrite arith64_ok by lia. rewrite !bind_Ok_l.
    rewrite arith64_ok by lia. rewrite bind_Ok_l. pose proof (IH (S m) ltac:(lia)) as E. rewrite sum_dims_S in E. exact E. }
  split; [exact (H r 0%nat ltac:(lia))|]. pose proof (Hsum r ltac:(lia)) as Hr. rewrite block_end in Hr. unfold box_source. fold t. lia.
Qed.

Lemma gather_run {B} (full : list B) : Z.of_nat (length full) = block grid r 0 -> (forall d, (d < r)%nat -> dim_inside d) -> exists out,
  gather_box b rk grid full = Ok out /\ Z.of_nat (length out) = block (extents b) r 0 /\
  forall k, 0 <= k < block (extents b) r 0 -> 0 <= box_source k < Z.of_nat (length full) /\ out !! Z.to_nat k = full !! Z.to_nat (box_source k).
Proof.
  intros Hfull Hin. assert (He : positive_dims (extents b) r) by (intros d Hd; by destruct (Hin d Hd) as (_ & _ & ? & _)).
  unfold gather_box. rewrite Hb, Z.eqb_refl. cbn [negb].
  destruct (box_elements_spec r 0 1 ltac:(lia) ltac:(lia) ltac:(lia)) as (Hbe & _ & _).
  destruct Hbe as [-> Hle]; [intros d Hd; apply Hin; lia|]. rewrite bind_Ok_l, Z.mul_1_l.
  destruct (full_strides_spec r zeros ltac:(lia) ltac:(done)) as (st & E & _ & Hst & _). rewrite block_end in E. unfold dims_down.
  rewrite E, bind_Ok_l. rewrite (zeros_digits (extents b) r He) by lia.
  pose proof (block_pos (extents b) r He 0) as Hv1.
  assert (Hel : forall k, exists x, full !! Z.to_nat (box_source k) = Some x).
  { intros k. destruct (box_offset_spec st k Hin Hst) as [_ Hs]. apply lookup_lt_is_Some_2. lia. }
  rewrite (walk_spec (extents b) r He rk _ (fun k => element 1 (Z.to_nat (box_source k)) full)); [|lia|done|lia|lia|].
  2:{ intros j _. destruct (box_offset_spec st j Hin Hst) as [-> Hs]. rewrite bind_Ok_l. destruct (Hel j) as [x Hx]. rewrite Hx.
      rewrite (proj2 (Z.leb_le 0 _)) by lia. unfold element. rewrite Nat.mul_1_r, (drop_S _ _ _ Hx). cbn [take]. by rewrite take_0. }
  assert (Hone : forall k, length (element 1 (Z.to_nat (box_source k)) full) = 1%nat).
  { intros k. destruct (box_offset_spec st k Hin Hst) as [_ Hs]. unfold element. rewrite length_take, length_drop. lia. }
  eexists. split; [done|]. cbn [app]. rewrite (concat_chunks_length _ 1) by (intros; apply Hone). split; [lia|]. intros k Hk.
  destruct (box_offset_spec st k Hin Hst) as [_ Hbs]. split; [lia|].
  pose proof (element_concat (fun i => element 1 (Z.to_nat (box_source (0 + Z.of_nat i))) full) 1 (Z.to_nat (block (extents b) r 0)) 0
    (Z.to_nat k) ltac:(intros; apply Hone) ltac:(lia)) as Ec.
  assert (Hl : forall (l : list B) i, l !! i = head (element 1 i l)).
  { intros l i. unfold element. rewrite Nat.mul_1_r. rewrite <- (Nat.add_0_r i) at 1. rewrite <- lookup_drop. by destruct (drop i l). }
  rewrite !Hl, Ec. cbn [Nat.add Z.add]. by rewrite Z2Nat.id by lia.
Qed.
End Box.

(** C26. Taking a sub-region out of a decoded grid, for every box: one of the grid's rank whose selection lies in
    the grid gives exactly its elements, in row-major order of the box.  Any other box is refused, unless
    the code computes a last index that is no [int64_t] in some dimension, all earlier ones being
    within the grid: that is the only input without a meaning, and the only way past the checks.
    No element outside the grid is read. *)
Theorem gather_box_correct {B} b rk grid (full : list B) : 1 <= rk <= 7 -> positive_dims grid (Z.to_nat rk) ->
  Z.of_nat (length full) = block grid (Z.to_nat rk) 0 -> Z.of_nat (length full) <= 9223372036854775807 ->
  (selects_inside b (mkShape rk grid []) -> exists out, gather_box b rk grid full = Ok out /\
     Z.of_nat (length out) = block (extents b) (Z.to_nat rk) 0 /\
     forall k, 0 <= k < block (extents b) (Z.to_nat rk) 0 ->
       0 <= box_source b grid rk k < Z.of_nat (length full) /\ out !! Z.to_nat k = full !! Z.to_nat (box_source b grid rk k)) /\
  (b_rank b = rk -> overflows_from b grid rk 0 -> gather_box b rk grid full = Undef) /\
  (~ selects_inside b (mkShape rk grid []) -> ~ (b_rank b = rk /\ overflows_from b grid rk 0) -> gather_box b rk grid full = Throw runtime_error).
Proof.
  intros Hrank Hpos Hfull Hmax.
  assert (Hspec : b_rank b = rk -> _) by (intros Hb; exact (box_elements_spec b grid rk Hrank Hpos ltac:(lia) (Z.to_nat rk) 0 1 ltac:(lia) ltac:(lia) ltac:(lia))).
  split; [|split].
  - intros [Hb Hin]. cbn [rank s_extents] in *. apply gather_run; try done; [lia|]. intros d Hd. apply Hin. lia.
  - intros Hb Ho. unfold gather_box. rewrite Hb, Z.eqb_refl. cbn [negb]. destruct (Hspec Hb) as (_ & -> & _); done.
  - intros Hn Hno. unfold gather_box. destruct (Z.eqb_spec (b_rank b) rk) as [Hb|Hb]; cbn [negb]; [|done].
    destruct (Hspec Hb) as (_ & _ & ->); [done|intros H|intros H; by apply Hno].
    apply Hn. split; [done|]. intros d Hd. apply H. cbn [rank] in Hd. lia.
Qed.

(** * Concrete layouts *)

(** Two rows of three, stored by columns. *)
Definition columns : amio_shape_t := mkShape 2 [2; 3; 0; 0; 0; 0; 0] [1; 2; 0; 0; 0; 0; 0].
Definition rows : amio_shape_t := mkShape 2 [2; 3; 0; 0; 0; 0; 0] [3; 0; 0; 0; 0; 0; 0].

Lemma columns_ok : 1 <= rank columns <= 7 /\ positive_dims (s_extents columns) 2 /\ positive_dims (s_extents rows) 2 /\
  (forall d, (d < 2)%nat -> 0 <= stride_of columns d) /\ (forall d, (d < 2)%nat -> 0 <= stride_of rows d).
Proof. split; [cbn; lia|]. split; [|split; [|split]]; intros [|[|d]] Hd; try lia; vm_compute; discriminate. Qed.

Lemma pack_row_major_correct_witness :
  pack_row_major [1; 4; 2; 5; 3; 6] columns 1 = Ok [1; 2; 3; 4; 5; 6] /\
  pack_row_major [1; 2; 3; 4; 5; 6] rows 1 = Ok [1; 2; 3; 4; 5; 6].
Proof.
  destruct columns_ok as (H1 & H2 & H3 & H4 & H5). split.
  - destruct (pack_row_major_correct [1; 4; 2; 5; 3; 6] columns 1 H1 H2 ltac:(vm_compute; discriminate) H4 ltac:(lia) ltac:(vm_compute; by split))
      as (out & E & _). rewrite E. vm_compute in E. congruence.
  - destruct (pack_row_major_correct [1; 2; 3; 4; 5; 6] rows 1 H1 H3 ltac:(vm_compute; discriminate) H5 ltac:(lia) ltac:(vm_compute; by split))
      as (out & E & _ & _ & c & Ec & Hc). rewrite E. rewrite Hc; [reflexivity|]. vm_compute in Ec. congruence.
Defined.

(** [amio_write] stages as many bytes as the shape has elements, whatever the strides: packing a
    shape with a stride of two reads past the staged bytes. *)
Example strided_write_reads_past :
  write_request true true 0 (Some (mkShape 1 [3; 0; 0; 0; 0; 0; 0] [2; 0; 0; 0; 0; 0; 0])) = Ok (AmioErrors.AMIO_OK, 12) /\
  pack_row_major (replicate 12 0) (mkShape 1 [3; 0; 0; 0; 0; 0; 0] [2; 0; 0; 0; 0; 0; 0]) 4 = Undef.
Proof. split; vm_compute; reflexivity. Qed.

Definition grid_box : amio_bbox_t := mkBbox 2 [0; 1; 0; 0; 0; 0; 0] [2; 2; 0; 0; 0; 0; 0] [1; 2; 0; 0; 0; 0; 0].

(** A box whose last index is beyond the [int64_t]s. *)
Definition far_box : amio_bbox_t := mkBbox 1 [1; 0; 0; 0; 0; 0; 0] [3; 0; 0; 0; 0; 0; 0] [9223372036854775807; 0; 0; 0; 0; 0; 0].

Lemma gather_box_correct_witness :
  gather_box grid_box 2 [2; 4; 0; 0; 0; 0; 0] [10; 11; 12; 13; 20; 21; 22; 23] = Ok [11; 13; 21; 23] /\
  gather_box grid_box 2 [2; 3; 0; 0; 0; 0; 0] [10; 11; 12; 20; 21; 22] = Throw runtime_error /\
  gather_box far_box 1 [4; 0; 0; 0; 0; 0; 0] [10; 11; 12; 13] = Undef.
Proof.
  split; [|split].
  - destruct (gather_box_correct grid_box 2 [2; 4; 0; 0; 0; 0; 0] [10; 11; 12; 13; 20; 21; 22; 23] ltac:(lia)
      ltac:(intros [|[|d]] Hd; try lia; vm_compute; discriminate) ltac:(reflexivity) ltac:(vm_compute; discriminate)) as [H _].
    destruct H as (out & E & _).
    { split; [done|]. intros [|[|d]] Hd; cbn in Hd |- *; try lia; (split; [lia|split; [lia|split; [lia|]]]); intros i Hi; lia. }
    rewrite E. vm_compute in E. congruence.
  - apply (gather_box_correct grid_box 2 [2; 3; 0; 0; 0; 0; 0] [10; 11; 12; 20; 21; 22] ltac:(lia)
      ltac:(intros [|[|d]] Hd; try lia; vm_compute; discriminate) ltac:(reflexivity) ltac:(vm_compute; discriminate)).
    + intros [_ H]. destruct (H 1%nat ltac:(cbn; lia)) as (_ & _ & _ & G). specialize (G 1 ltac:(cbn; lia)). cbn in G. lia.
    + intros [_ (d & Hd & (_ & _ & _ & Hn) & _)]. apply Hn. destruct d as [|[|d]]; [..|cbn in Hd; lia]; (split; [|split]); vm_compute; by split.
  - apply (gather_box_correct far_box 1 [4; 0; 0; 0; 0; 0; 0] [10; 11; 12; 13] ltac:(lia)
      ltac:(intros [|d] Hd; try lia; vm_compute; discriminate) ltac:(reflexivity) ltac:(vm_compute; discriminate)); [done|].
    exists 0%nat. split; [cbn; lia|]. split; [|intros k Hk; lia]. do 3 (split; [vm_compute; discriminate|]). intros (_ & H & _). vm_compute in H. by destruct H.
Defined.
