(* ===== verification/Grib2Driver.v ===== *)
(** * AMIO: the GRIB2 driver ([amio/src/drivers/grib2/grib2_driver.cpp], built with g2c)

    The driver's members are a record, its files the store of an interface [Files], and the
    calls of NCEPLIBS-g2c an interface [G2c]; [g2int] is the 64-bit integer it is declared
    as.  A grid-point value is the list of its four bytes.  What has been written to a stream
    is in the file when the stream has been closed or flushed without error.  Messages of
    exceptions are left out. *)
From Stdlib Require Import ZArith Lia.
From stdpp Require Import base list numbers strings gmap.
From S2P Require Import Prelude CInt Conf PrefetchQueue AmioRequests Grib2Templates RowMajor.
Local Open Scope Z_scope.

(** ** The libraries *)

(** Streams that are open for writing, named by their paths, and files: [fopen] for writing opens a
    stream or fails, [fwrite] gives it what it could write, [fflush] and [fclose] return zero or
    an error; [contents] is what a file has for a program that opens it for reading. *)
Class Files (W : Type) := {
  fopen_write : W -> string -> option W;
  fwrite : W -> string -> list Z -> nat * W;
  fflush : W -> string -> Z * W;
  fclose : W -> string -> Z * W;
  contents : W -> string -> option (list Z)
}.

Record gribfield : Type := mkField {
  ipdtnum : Z; ipdtmpl : option (list Z); igdtmpl : option (list Z); ngrdpts : Z; fld : option (list (list Z))
}.

(** A message under construction is a [Buf]; the calls return g2c's status first. *)
Class G2c (Buf : Type) := {
  g2_create : list Z -> list Z -> Z * Buf;
  g2_addgrid : Buf -> list Z -> list Z -> Z * Buf;
  g2_addfield : Buf -> Z -> list Z -> Z -> list Z -> list (list Z) -> Z -> Z * Buf;
  g2_gribend : Buf -> Z * Buf;
  message : Buf -> list Z;
  seekgb : list Z -> Z -> Z -> Z * Z;
  g2_info : list Z -> Z * list Z * Z;
  g2_getfld : list Z -> Z -> bool -> Z * option gribfield
}.

(** ** State *)

Record GribRecordLocation : Type := mkLocation { offset : Z; rec_length : Z; field_number : Z }.
Record GribFieldIndex : Type := mkIndex { e_ni : Z; e_nj : Z; e_ngrdpts : Z; records : list GribRecordLocation }.

Record GRIB2_Driver : Type := mkDriver {
  initialized_ : bool; settings_ : Grib2Settings; output_path_ : string; active_drt_ : GRIB2_DRT;
  out_file_ : option string; read_mode_ : bool; input_path_ : string; records_ : gmap string GribFieldIndex
}.

Definition new_driver : GRIB2_Driver :=
  mkDriver false default_settings "" AdaptiveEntropyCoding None false "" ∅.

Record VarMeta : Type := mkVarMeta { var_name : string; var_dtype : Z; var_shape : amio_shape_t }.

Definition AMIO_DTYPE_F32 : Z := 0.

Section Driver.
Context {Node : Type} `{!YamlLib Node}.
Context {W : Type} `{!Files W}.
Context {Buf : Type} `{!G2c Buf}.

(** ** Opening for writing *)

(** The first of the keys that is present, or what there was. *)
Fixpoint path_of (config : @Config Node) (keys : list string) (d : string) : result string :=
  match keys with
  | [] => Ok d
  | k :: rest => if has config k then get_string config k else path_of config rest d
  end.

Definition initialize (d : GRIB2_Driver) (config : @Config Node) (w : W) : result (GRIB2_Driver * W) :=
  if initialized_ d then Ok (d, w)
  else
    let s := read_settings config in
    let! path := path_of config ["path"; "output_path"]%string (output_path_ d) in
    let opened o w := (mkDriver true s path (active_drt_ d) o (read_mode_ d) (input_path_ d) (records_ d), w) in
    if negb (String.eqb path "") then
      match fopen_write w path with Some w' => Ok (opened (Some path) w') | None => Throw runtime_error end
    else Ok (opened (out_file_ d) w).

Definition open_write (d : GRIB2_Driver) (config : @Config Node) (w : W) : result (GRIB2_Driver * W) :=
  let! drt := validate_drt config in
  initialize (mkDriver (initialized_ d) (settings_ d) (output_path_ d) drt (out_file_ d) (read_mode_ d) (input_path_ d) (records_ d)) config w.

(** ** Writing *)

(** The points along a parallel and along a meridian. *)
Definition grid_of (shape : amio_shape_t) (num_elements : Z) : result (Z * Z) :=
  if 2 <=? rank shape then
    let! nj := elem (s_extents shape) (Z.to_nat (rank shape - 2)) in
    let! ni := elem (s_extents shape) (Z.to_nat (rank shape - 1)) in Ok (ni, nj)
  else Ok (num_elements, 1).

Definition section1 (s : Grib2Settings) : list Z :=
  [center s; subcenter s; master_table_version s; local_table_version s; significance_of_ref_time s;
   1970; 1; 1; 0; 0; 0; production_status s; type_of_data s].

(** [std::memcpy] into a vector of [n] floats. *)
Definition floats (payload : list Z) (n : Z) : result (list (list Z)) :=
  let! bytes := copy payload 0 (n * 4) in Ok ((fun k => element 4 k bytes) <$> seq 0 (Z.to_nat n)).

(** The message of a field: any failing call of g2c throws. *)
Definition encode (d : GRIB2_Driver) (payload : list Z) (num_elements ni nj : Z) : result (list Z) :=
  let s := settings_ d in
  let '(r0, b0) := g2_create [discipline s; 2] (section1 s) in
  if r0 <=? 0 then Throw runtime_error
  else
    let! gdt := build_gdt s ni nj in
    let! points := (ni * nj)%i64 in
    let '(r1, b1) := g2_addgrid b0 [0; points; 0; 0; gdt_number s] gdt in
    if r1 <=? 0 then Throw runtime_error
    else
      let! pdt := build_pdt s in
      let! values := floats payload num_elements in
      let '(r2, b2) := g2_addfield b1 (pdt_number s) pdt (drt_code (active_drt_ d)) (build_drs_template (active_drt_ d) s) values num_elements in
      if r2 <=? 0 then Throw runtime_error
      else
        let '(msglen, b3) := g2_gribend b2 in
        if msglen <=? 0 then Throw runtime_error else copy (message b3) 0 msglen.

(** The payload as it is, or packed. *)
Definition staged_payload (src_data : list Z) (shape : amio_shape_t) (elem_size : Z) : result (list Z) :=
  let! contiguous := is_contiguous_row_major shape in
  if contiguous then Ok src_data else pack_row_major src_data shape elem_size.

Definition write (d : GRIB2_Driver) (src_data : list Z) (meta : VarMeta) (w : W) : result W :=
  if negb (initialized_ d) then Throw runtime_error
  else if negb (var_dtype meta =? AMIO_DTYPE_F32) then Throw runtime_error
  else
    let elem_size := element_size (var_dtype meta) in
    let num_elements := total_elements (var_shape meta) in
    if (num_elements =? 0) || (elem_size =? 0) then Throw runtime_error
    else
      let! payload := staged_payload src_data (var_shape meta) elem_size in
      let! '(ni, nj) := grid_of (var_shape meta) num_elements in
      let! msg := encode d payload num_elements ni nj in
      match out_file_ d with
      | None => Ok w
      | Some path =>
          let '(written, w') := fwrite w path msg in
          if negb (written =? length msg)%nat then Throw runtime_error else Ok w'
      end.

(** ** Opening for reading *)

Definition pdt_value (g : gribfield) (idx : nat) : Z :=
  match ipdtmpl g with Some t => safe_get t idx | None => 0 end.

Definition field_key (disc : Z) (g : gribfield) : string :=
  field_identity_name_extended disc (pdt_value g 0) (pdt_value g 1) (pdt_value g (pdt_surface_type_index (ipdtnum g)))
    (pdt_value g (pdt_surface_value_index (ipdtnum g))) (extract_composition_metadata (ipdtnum g) (default [] (ipdtmpl g))).

(** [Ni] and [Nj] of the grid template when their product is the number of points. *)
Definition field_grid (g : gribfield) : result (Z * Z) :=
  let '(ni, nj) := match igdtmpl g with
    | Some t => if (8 <? length t)%nat then (safe_get t 7, safe_get t 8) else (0, 0)
    | None => (0, 0)
    end in
  if (ni <=? 0) || (nj <=? 0) then Ok (ngrdpts g, 1)
  else let! points := (ni * nj)%i64 in if points =? ngrdpts g then Ok (ni, nj) else Ok (ngrdpts g, 1).

Definition add_record (index : gmap string GribFieldIndex) (key : string) (ni nj points : Z) (loc : GribRecordLocation) : gmap string GribFieldIndex :=
  let entry := default (mkIndex 0 0 0 []) (index !! key) in
  let entry := match records entry with [] => mkIndex ni nj points [] | _ => entry end in
  <[key := mkIndex (e_ni entry) (e_nj entry) (e_ngrdpts entry) (records entry ++ [loc])]> index.

(** The fields of a message, numbered from 1. *)
Fixpoint index_fields (msg : list Z) (disc lskip lgrib : Z) (ns : list Z) (index : gmap string GribFieldIndex) : result (gmap string GribFieldIndex) :=
  match ns with
  | [] => Ok index
  | n :: rest =>
      match g2_getfld msg n false with
      | (0, Some g) =>
          let! '(ni, nj) := field_grid g in
          index_fields msg disc lskip lgrib rest (add_record index (field_key disc g) ni nj (ngrdpts g) (mkLocation lskip lgrib n))
      | _ => Throw runtime_error
      end
  end.

Definition numbers (n : Z) : list Z := (fun i => Z.of_nat i) <$> seq 1 (Z.to_nat n).

(** The messages of a file, from a position on; [None] when the fuel is used up. *)
Fixpoint index_loop (fuel : nat) (file : list Z) (seek_from : Z) (index : gmap string GribFieldIndex) : option (result (gmap string GribFieldIndex)) :=
  match fuel with
  | O => None
  | S f =>
      let '(lskip, lgrib) := seekgb file seek_from 32000 in
      if lgrib =? 0 then Some (Ok index)
      else
        let step :=
          let! msg := (if 0 <=? lgrib then match copy file lskip lgrib with Ok m => Ok m | _ => Throw runtime_error end else Throw runtime_error) in
          let '(ret, sec0, numfields) := g2_info msg in
          if negb (ret =? 0) then Throw runtime_error
          else index_fields msg (safe_get sec0 0) lskip lgrib (numbers numfields) index in
        match step with
        | Ok index' => index_loop f file (lskip + lgrib) index'
        | r => Some r
        end
  end.

Definition build_record_index (fuel : nat) (w : W) (path : string) : option (result (gmap string GribFieldIndex)) :=
  match contents w path with
  | None => Some (Throw runtime_error)
  | Some file => index_loop fuel file 0 ∅
  end.

Definition open_read (fuel : nat) (d : GRIB2_Driver) (config : @Config Node) (w : W) : option (result GRIB2_Driver) :=
  if initialized_ d then Some (Ok d)
  else
    match path_of config ["path"; "input_path"; "output_path"]%string (input_path_ d) with
    | Ok path =>
        if String.eqb path "" then Some (Throw runtime_error)
        else match build_record_index fuel w path with
             | None => None
             | Some (Ok index) => Some (Ok (mkDriver true (read_settings config) (output_path_ d) (active_drt_ d) (out_file_ d) true path index))
             | Some (Throw e) => Some (Throw e)
             | Some Undef => Some Undef
             end
    | Throw e => Some (Throw e)
    | Undef => Some Undef
    end.

(** ** Reading *)

Definition describe_variable (d : GRIB2_Driver) (name : string) : option (VariableInfo * Z) :=
  if negb (initialized_ d) || negb (read_mode_ d) then None
  else match records_ d !! name with
    | None => None
    | Some entry =>
        match records entry with
        | [] => None
        | l => Some (if 1 <? e_nj entry then mkInfo AMIO_DTYPE_F32 2 [e_nj entry; e_ni entry; 0; 0; 0; 0; 0]
                     else mkInfo AMIO_DTYPE_F32 1 [e_ni entry; 0; 0; 0; 0; 0; 0], Z.of_nat (length l))
        end
    end.

(** The message of a record. *)
Definition record_bytes (w : W) (path : string) (loc : GribRecordLocation) : result (list Z) :=
  if rec_length loc <=? 0 then Throw runtime_error
  else match contents w path with
    | None => Throw runtime_error
    | Some file => match copy file (offset loc) (rec_length loc) with Ok m => Ok m | _ => Throw runtime_error end
    end.

(** All values of the record, or the sub-region, when they fit the buffer. *)
Definition deliver (entry : GribFieldIndex) (full : list (list Z)) (points capacity : Z) (bbox : option amio_bbox_t) : result (list Z) :=
  let '(grid_rank, grid_extents) := if 1 <? e_nj entry then (2, [e_nj entry; e_ni entry; 0; 0; 0; 0; 0]) else (1, [points; 0; 0; 0; 0; 0; 0]) in
  match bbox with
  | None => if capacity <? points * 4 then Throw runtime_error else Ok (concat full)
  | Some b =>
      if negb (b_rank b =? grid_rank) then Throw runtime_error
      else
        let! sub_elems := box_elements b grid_extents (seq 0 (Z.to_nat grid_rank)) 1 in
        if capacity <? to_u64 (sub_elems * 4) then Throw runtime_error
        else let! out := gather_box b grid_rank grid_extents full in Ok (concat out)
  end.

(** The bytes delivered. *)
Definition read (d : GRIB2_Driver) (w : W) (name : string) (timestep capacity : Z) (bbox : option amio_bbox_t) : result (list Z) :=
  if negb (initialized_ d) || negb (read_mode_ d) then Throw runtime_error
  else match records_ d !! name with
    | None => Throw runtime_error
    | Some entry =>
        if (timestep <? 0) || (Z.of_nat (length (records entry)) <=? timestep) then Throw runtime_error
        else match records entry !! Z.to_nat timestep with
          | None => Undef
          | Some loc =>
              let! msg := record_bytes w (input_path_ d) loc in
              match g2_getfld msg (field_number loc) true with
              | (0, Some g) =>
                  match fld g with
                  | Some full =>
                      if ngrdpts g <=? 0 then Throw runtime_error
                      else if Z.of_nat (length full) <? ngrdpts g then Undef
                      else deliver entry (take (Z.to_nat (ngrdpts g)) full) (ngrdpts g) capacity bbox
                  | None => Throw runtime_error
                  end
              | _ => Throw runtime_error
              end
          end
    end.

(** ** Closing *)

(** What [fflush] and [fclose] return is not looked at. *)
Definition flush (d : GRIB2_Driver) (w : W) : W := match out_file_ d with Some path => snd (fflush w path) | None => w end.

Definition close (d : GRIB2_Driver) (w : W) : GRIB2_Driver * W :=
  if negb (initialized_ d) then (d, w)
  else
    let w := match out_file_ d with Some path => snd (fclose w path) | None => w end in
    (mkDriver false (settings_ d) (output_path_ d) (active_drt_ d) None false "" ∅, w).
End Driver.

(** ** What the driver relies on *)

(** [stream w p] is what has been given to the open stream [p], of which the file may have less:
    a stream starts empty, a complete [fwrite] appends, and only [fflush] or [fclose] without
    error makes the file have all of it. *)
Class FilesLaws (W : Type) `{!Files W} := {
  stream : W -> string -> option (list Z);
  fopen_stream w p w' : fopen_write w p = Some w' -> stream w' p = Some [];
  fwrite_stream w p b w' l : fwrite w p b = (length b, w') -> stream w p = Some l -> stream w' p = Some (l ++ b);
  fflush_contents w p w' l : fflush w p = (0, w') -> stream w p = Some l -> contents w' p = Some l;
  fclose_contents w p w' l : fclose w p = (0, w') -> stream w p = Some l -> contents w' p = Some l
}.

(** A value that fits the octets of an entry of a template; a negative count of octets is that of a
    signed entry, of which one bit is the sign. *)
Definition fits_octets (v octets : Z) : Prop :=
  if octets <? 0 then Z.abs v < 2 ^ (8 * - octets - 1) else 0 <= v < 2 ^ (8 * octets).

(** A message that was encoded without error, of templates whose values fit their octets, of a
    discipline of one octet and a number of points of four, is decoded to what went in; the values come back
    as the data representation keeps them.  The search finds the message that starts where it
    looks, and nothing at the end of a file. *)
Class G2cLaws (Buf : Type) `{!G2c Buf} := {
  repack : Z -> list Z -> list (list Z) -> list (list Z);
  repack_length drt drs v : length (repack drt drs v) = length v;
  grib_message : list Z -> Prop;
  grid_octets : Z -> list Z;
  product_octets : Z -> list Z;
  encode_decode sec0 sec1 igds gdt pdtn pdt drt drs v n r0 b0 r1 b1 r2 b2 len b3 :
    g2_create sec0 sec1 = (r0, b0) -> 0 < r0 -> g2_addgrid b0 igds gdt = (r1, b1) -> 0 < r1 ->
    g2_addfield b1 pdtn pdt drt drs v n = (r2, b2) -> 0 < r2 -> g2_gribend b2 = (len, b3) -> 0 < len ->
    Z.of_nat (length v) = n -> igds !! 1%nat = Some n ->
    Forall2 fits_octets gdt (grid_octets (safe_get igds 4)) -> Forall2 fits_octets pdt (product_octets pdtn) ->
    fits_octets (safe_get sec0 0) 1 -> fits_octets n 4 ->
    let m := take (Z.to_nat len) (message b3) in
    len <= Z.of_nat (length (message b3)) /\ grib_message m /\
    (exists sec0', g2_info m = (0, sec0', 1) /\ safe_get sec0' 0 = safe_get sec0 0) /\
    forall unpack, g2_getfld m 1 unpack = (0, Some (mkField pdtn (Some pdt) (Some gdt) n (if unpack then Some (repack drt drs v) else None)));
  seek_finds pre m post : grib_message m -> seekgb (pre ++ m ++ post) (Z.of_nat (length pre)) 32000 = (Z.of_nat (length pre), Z.of_nat (length m));
  seek_ends file : snd (seekgb file (Z.of_nat (length file)) 32000) = 0
}.

Section Correct.
Context {Node : Type} `{!YamlLib Node}.
Context {W : Type} `{!Files W} {files_laws : FilesLaws W}.
Context {Buf : Type} `{!G2c Buf} {g2c_laws : G2cLaws Buf}.

(** [m] is the message of the values [v] on a grid of [nj] rows of [ni]. *)
Record encoded (d : GRIB2_Driver) (m : list Z) (ni nj : Z) (v : list (list Z)) : Prop := {
  enc_grib : grib_message m;
  enc_nonempty : 0 < Z.of_nat (length m);
  enc_info : exists sec0', g2_info m = (0, sec0', 1) /\ safe_get sec0' 0 = discipline (settings_ d);
  enc_fields : exists gdt pdt, build_gdt (settings_ d) ni nj = Ok gdt /\ build_pdt (settings_ d) = Ok pdt /\
    forall unpack, g2_getfld m 1 unpack = (0, Some (mkField (pdt_number (settings_ d)) (Some pdt) (Some gdt) (Z.of_nat (length v))
      (if unpack then Some (repack (drt_code (active_drt_ d)) (build_drs_template (active_drt_ d) (settings_ d)) v) else None)));
  enc_grid : ni * nj = Z.of_nat (length v) /\ 1 <= ni /\ 1 <= nj
}.

Lemma floats_length payload n v : 0 <= n -> floats payload n = Ok v -> Z.of_nat (length v) = n.
Proof. intros Hn H. unfold floats in H. inv_ok H. subst. rewrite length_fmap, length_seq. lia. Qed.

(** The templates of a field of [nj] rows of [ni], the discipline and the number of points fit their octets. *)
Definition octets_fit (s : Grib2Settings) (ni nj : Z) : Prop :=
  (forall gdt, build_gdt s ni nj = Ok gdt -> Forall2 fits_octets gdt (grid_octets (gdt_number s))) /\
  (forall pdt, build_pdt s = Ok pdt -> Forall2 fits_octets pdt (product_octets (pdt_number s))) /\
  fits_octets (discipline s) 1 /\ fits_octets (ni * nj) 4.

Lemma encode_message d payload n ni nj m : encode d payload n ni nj = Ok m -> ni * nj = n -> 1 <= ni -> 1 <= nj -> octets_fit (settings_ d) ni nj ->
  exists v, floats payload n = Ok v /\ encoded d m ni nj v.
Proof.
  unfold encode. destruct (g2_create _ _) as [r0 b0] eqn:E0. destruct (Z.leb_spec r0 0) as [|H0]; [done|]. intros H Hg Hi Hj (Fg & Fp & Fd & Fn).
  apply bind_Ok_inv in H as (gdt & Eg & H). apply bind_Ok_inv in H as (points & Ep & H).
  assert (points = n) as ->.
  { unfold cmul, cval, arith in Ep. rewrite !bind_Ok_l in Ep. destruct (in_range I64 (ni * nj)); [|done]. injection Ep as <-. lia. }
  destruct (g2_addgrid _ _ _) as [r1 b1] eqn:E1. destruct (Z.leb_spec r1 0) as [|H1]; [done|].
  apply bind_Ok_inv in H as (pdt & Epd & H). apply bind_Ok_inv in H as (v & Ev & H).
  destruct (g2_addfield _ _ _ _ _ _ _) as [r2 b2] eqn:E2. destruct (Z.leb_spec r2 0) as [|H2]; [done|].
  destruct (g2_gribend b2) as [len b3] eqn:E3. destruct (Z.leb_spec len 0) as [|H3]; [done|].
  assert (Hl : Z.of_nat (length v) = n) by (eapply floats_length; [nia|exact Ev]).
  destruct (encode_decode _ _ _ _ _ _ _ _ _ _ _ _ _ _ _ _ _ _ E0 H0 E1 H1 E2 H2 E3 H3 Hl eq_refl (Fg gdt Eg) (Fp pdt Epd) Fd ltac:(by rewrite <- Hg)) as (Hlen & Hm & (sec0' & Hi' & Hs) & Hf).
  exists v. split; [done|].
  assert (m = take (Z.to_nat len) (message b3)) as ->.
  { unfold copy in H. destruct (_ && _); [|done]. injection H as <-. by rewrite drop_0. }
  split; [exact Hm| |by exists sec0'| |].
  - rewrite length_take. lia.
  - exists gdt, pdt. split; [done|]. split; [done|]. by rewrite Hl.
  - lia.
Qed.

(** The values a write stages. *)
Definition staged_values (src_data : list Z) (meta : VarMeta) : result (list (list Z)) :=
  let! payload := staged_payload src_data (var_shape meta) (element_size (var_dtype meta)) in floats payload (total_elements (var_shape meta)).

Lemma total_elements_pos shape : 0 <= total_elements shape.
Proof.
  unfold total_elements. destruct (_ || _); [done|]. assert (H : forall l a, 0 <= a -> 0 <= default 0 (size_product l a)).
  { induction l as [|x l IH]; intros a Ha; cbn; [done|]. destruct (x <=? 0); [done|]. apply IH. by apply Z.mod_pos_bound. }
  by apply H.
Qed.

(** Extents of a shape of rank two, and what they multiply to. *)
Lemma grid_of_two shape ni nj : array7 (s_extents shape) -> 1 <= rank shape <= 2 -> positive_dims (s_extents shape) (Z.to_nat (rank shape)) ->
  block (s_extents shape) (Z.to_nat (rank shape)) 0 <= 9223372036854775807 ->
  grid_of shape (total_elements shape) = Ok (ni, nj) -> ni * nj = total_elements shape /\ 1 <= ni /\ 1 <= nj.
Proof.
  intros Ha Hr Hpos Hb H. rewrite total_elements_spec in * by (try done; lia). unfold grid_of in H.
  destruct (Z.leb_spec 2 (rank shape)) as [H2|H2].
  - replace (rank shape) with 2 in * by lia. change (Z.to_nat (2 - 2)) with 0%nat in H. change (Z.to_nat (2 - 1)) with 1%nat in H.
    apply bind_Ok_inv in H as (x & Ex & H). apply bind_Ok_inv in H as (y & Ey & H). injection H as <- <-.
    apply elem_Ok in Ex, Ey. change (Z.to_nat 2) with 2%nat in *. pose proof (Hpos 0%nat ltac:(lia)) as P0. pose proof (Hpos 1%nat ltac:(lia)) as P1.
    unfold block, dim in *. rewrite Ex in *. rewrite Ey in *. cbn in *. rewrite Ex, Ey. cbn. lia.
  - injection H as <- <-. pose proof (block_pos _ _ Hpos 0). lia.
Qed.

Definition write_ok (meta : VarMeta) : Prop :=
  array7 (s_extents (var_shape meta)) /\ 1 <= rank (var_shape meta) <= 2 /\
  positive_dims (s_extents (var_shape meta)) (Z.to_nat (rank (var_shape meta))) /\
  block (s_extents (var_shape meta)) (Z.to_nat (rank (var_shape meta))) 0 <= 9223372036854775807.

(** The field of a write, with the settings [s], fits the octets of a message. *)
Definition field_fits (s : Grib2Settings) (meta : VarMeta) : Prop :=
  forall ni nj, grid_of (var_shape meta) (total_elements (var_shape meta)) = Ok (ni, nj) -> octets_fit s ni nj.

Lemma write_appends d src meta w w' p file : write d src meta w = Ok w' -> out_file_ d = Some p -> stream w p = Some file -> write_ok meta -> field_fits (settings_ d) meta ->
  exists m v ni nj, staged_values src meta = Ok v /\ encoded d m ni nj v /\ stream w' p = Some (file ++ m) /\
    grid_of (var_shape meta) (total_elements (var_shape meta)) = Ok (ni, nj).
Proof.
  unfold write. destruct (initialized_ d); cbn [negb]; [|done]. destruct (var_dtype meta =? AMIO_DTYPE_F32); cbn [negb]; [|done].
  destruct ((total_elements (var_shape meta) =? 0) || (element_size (var_dtype meta) =? 0)); [done|]. intros H Ho Hc (W1 & W2 & W3 & W4) Hfit.
  apply bind_Ok_inv in H as (payload & Ep & H). apply bind_Ok_inv in H as ([ni nj] & Eg & H). apply bind_Ok_inv in H as (msg & Em & H).
  destruct (grid_of_two _ _ _ W1 W2 W3 W4 Eg) as (G1 & G2 & G3). destruct (encode_message _ _ _ _ _ _ Em G1 G2 G3 (Hfit _ _ Eg)) as (v & Ev & Henc).
  rewrite Ho in H. destruct (fwrite w p msg) as [written w1] eqn:Ew. destruct (Nat.eqb_spec written (length msg)) as [->|]; cbn [negb] in H; [|done].
  injection H as <-. exists msg, v, ni, nj. split; [unfold staged_values; by rewrite Ep|]. split; [done|]. split; [|done].
  by eapply fwrite_stream.
Qed.

(** ** A sequence of writes *)

Fixpoint write_all (d : GRIB2_Driver) (l : list (list Z * VarMeta)) (w : W) : result W :=
  match l with [] => Ok w | (src, meta) :: rest => let! w' := write d src meta w in write_all d rest w' end.

(** A written message with its grid and values. *)
Definition written : Type := (list Z * (Z * Z) * list (list Z)).
Definition bytes_of (x : written) : list Z := fst (fst x).

Record stored (d : GRIB2_Driver) (fw : list Z * VarMeta) (x : written) : Prop := {
  st_values : staged_values (fst fw) (snd fw) = Ok (snd x);
  st_encoded : encoded d (bytes_of x) (fst (snd (fst x))) (snd (snd (fst x))) (snd x);
  st_grid : grid_of (var_shape (snd fw)) (total_elements (var_shape (snd fw))) = Ok (snd (fst x))
}.

Lemma write_all_stored d l w w' p file : write_all d l w = Ok w' -> out_file_ d = Some p -> stream w p = Some file ->
  Forall (fun x => write_ok (snd x)) l -> Forall (fun x => field_fits (settings_ d) (snd x)) l ->
  exists xs, Forall2 (stored d) l xs /\ stream w' p = Some (file ++ concat (bytes_of <$> xs)).
Proof.
  revert w file. induction l as [|[src meta] l IH]; intros w file H Ho Hc Hok Hft.
  - injection H as <-. exists []. split; [constructor|]. by rewrite app_nil_r.
  - cbn [write_all] in H. apply bind_Ok_inv in H as (w1 & E1 & H). inversion Hok as [|? ? Hok1 Hok2]; subst. inversion Hft as [|? ? Hft1 Hft2]; subst.
    destruct (write_appends _ _ _ _ _ _ _ E1 Ho Hc Hok1 Hft1) as (m & v & ni & nj & Ev & Henc & Hc1 & Hg).
    destruct (IH w1 (file ++ m) H Ho Hc1 Hok2 Hft2) as (xs & Hxs & Hc2). exists ((m, (ni, nj), v) :: xs). split.
    + constructor; [by split|done].
    + rewrite Hc2. cbn. by rewrite <- app_assoc.
Qed.

(** ** The index of such a file *)

Fixpoint locations (pos : Z) (xs : list written) : list GribRecordLocation :=
  match xs with
  | [] => []
  | x :: rest => mkLocation pos (Z.of_nat (length (bytes_of x))) 1 :: locations (pos + Z.of_nat (length (bytes_of x))) rest
  end.

Definition settings_key (s : Grib2Settings) : string :=
  field_identity_name_extended (discipline s) (parameter_category s) (parameter_number s) (type_of_first_fixed_surface s)
    (scaled_value_first_surface s) (settings_meta s).

Lemma copy_middle (pre m post : list Z) : copy (pre ++ m ++ post) (Z.of_nat (length pre)) (Z.of_nat (length m)) = Ok m.
Proof.
  unfold copy. rewrite !length_app. rewrite (proj2 (Z.leb_le 0 _)), (proj2 (Z.leb_le _ (Z.of_nat (_ + _)))) by lia. cbn [andb].
  rewrite !Nat2Z.id, drop_app_length, take_app_length. done.
Qed.

Lemma build_gdt_entries s ni nj t : build_gdt s ni nj = Ok t -> length t = 19%nat /\ safe_get t 7 = ni /\ safe_get t 8 = nj.
Proof.
  unfold build_gdt. intros H.
  assert (H' : build_gdt_3_0 s ni nj = Ok t \/ build_gdt_3_40 s ni nj = Ok t) by (repeat case_match; auto; discriminate).
  destruct H' as [H'|H']; [unfold build_gdt_3_0 in H'|unfold build_gdt_3_40 in H'].
  - apply bind_Ok_inv in H' as (? & _ & H'). apply bind_Ok_inv in H' as (? & _ & H'). apply bind_Ok_inv in H' as (? & _ & H').
    apply bind_Ok_inv in H' as (? & _ & H'). by injection H' as <-.
  - apply bind_Ok_inv in H' as (? & _ & H'). apply bind_Ok_inv in H' as (? & _ & H'). by injection H' as <-.
Qed.

Lemma encoded_field d m ni nj v g : encoded d m ni nj v -> Z.of_nat (length v) <= 9223372036854775807 -> g2_getfld m 1 false = (0, Some g) ->
  field_key (discipline (settings_ d)) g = settings_key (settings_ d) /\ field_grid g = Ok (ni, nj) /\ ngrdpts g = Z.of_nat (length v).
Proof.
  intros [_ _ _ (gdt & pdt & Eg & Ep & Hf) (G1 & G2 & G3)] Hv Hg. rewrite Hf in Hg. injection Hg as <-. split; [|split].
  - unfold field_key, pdt_value. cbn [ipdtnum ipdtmpl default from_option id].
    destruct (build_pdt_extract _ _ Ep) as (-> & -> & -> & -> & ->). done.
  - destruct (build_gdt_entries _ _ _ _ Eg) as (Hl & H7 & H8). unfold field_grid. cbn [igdtmpl ngrdpts]. rewrite Hl, H7, H8. cbn [Nat.ltb Nat.leb].
    replace ((ni <=? 0) || (nj <=? 0)) with false by (symmetry; apply orb_false_iff; lia).
    unfold cmul, cval. rewrite !bind_Ok_l. rewrite arith64_ok by lia. rewrite bind_Ok_l, (proj2 (Z.eqb_eq _ _) G1). done.
  - done.
Qed.

(** The entry after the records of [xs]; the grid is that of the first record. *)
Definition extend (entry : option GribFieldIndex) (xs : list written) (pos : Z) : option GribFieldIndex :=
  match xs with
  | [] => entry
  | x :: _ =>
      let e := default (mkIndex 0 0 0 []) entry in
      let e := match records e with [] => mkIndex (fst (snd (fst x))) (snd (snd (fst x))) (Z.of_nat (length (snd x))) [] | _ => e end in
      Some (mkIndex (e_ni e) (e_nj e) (e_ngrdpts e) (records e ++ locations pos xs))
  end.

Definition small (x : written) : Prop := Z.of_nat (length (snd x)) <= 9223372036854775807.

Lemma index_loop_messages d : forall (xs : list written) (fuel : nat) (pre : list Z) (index : gmap string GribFieldIndex),
  Forall (fun x => encoded d (bytes_of x) (fst (snd (fst x))) (snd (snd (fst x))) (snd x)) xs -> Forall small xs -> (length xs < fuel)%nat ->
  exists index', index_loop fuel (pre ++ concat (bytes_of <$> xs)) (Z.of_nat (length pre)) index = Some (Ok index') /\
    index' !! settings_key (settings_ d) = extend (index !! settings_key (settings_ d)) xs (Z.of_nat (length pre)) /\
    (forall k, k <> settings_key (settings_ d) -> index' !! k = index !! k).
Proof.
  induction xs as [|x xs IH]; intros fuel pre index He Hs Hf.
  - destruct fuel as [|f]; [cbn in Hf; lia|]. exists index. cbn [fmap list_fmap concat index_loop]. rewrite app_nil_r.
    pose proof (seek_ends pre) as E. destruct (seekgb pre (Z.of_nat (length pre)) 32000) as [ls lg]. cbn in E. subst lg. done.
  - destruct fuel as [|f]; [lia|]. inversion He as [|? ? Ex Hes]; subst. inversion Hs as [|? ? Sx Ss]; subst.
    cbn [fmap list_fmap concat index_loop]. pose proof Ex as [Hm Hn (sec0' & Ei & Es) (gdt & pdt & Eg & Ep & Hfld) _].
    rewrite (seek_finds pre (bytes_of x) _ Hm). rewrite (proj2 (Z.eqb_neq _ 0)) by lia. rewrite (proj2 (Z.leb_le 0 _)) by lia.
    rewrite copy_middle, bind_Ok_l, Ei. cbn [negb Z.eqb]. rewrite Es. change (numbers 1) with [1]. cbn [index_fields].
    pose proof (Hfld false) as Hg. rewrite Hg.
    destruct (encoded_field d _ _ _ _ _ Ex Sx Hg) as (Ek & Egr & Epts). rewrite Egr, bind_Ok_l, Ek, Epts.
    set (key := settings_key (settings_ d)) in *. set (loc := mkLocation (Z.of_nat (length pre)) (Z.of_nat (length (bytes_of x))) 1).
    set (index1 := add_record index key (fst (snd (fst x))) (snd (snd (fst x))) (Z.of_nat (length (snd x))) loc).
    replace (Z.of_nat (length pre) + Z.of_nat (length (bytes_of x))) with (Z.of_nat (length (pre ++ bytes_of x))) by (rewrite length_app; lia).
    rewrite app_assoc. destruct (IH f (pre ++ bytes_of x) index1 Hes Ss ltac:(cbn in Hf; lia)) as (index' & E & Hk & Ho).
    exists index'. split; [exact E|]. split.
    + rewrite Hk. unfold index1, add_record. rewrite lookup_insert_eq. destruct xs as [|y ys].
      * cbn [extend locations]. done.
      * cbn [extend default from_option id records e_ni e_nj e_ngrdpts]. destruct (records _ ++ [loc]) eqn:El; [by destruct (records _)|].
        rewrite <- El. cbn [records e_ni e_nj e_ngrdpts]. do 2 f_equal. rewrite <- app_assoc. f_equal. cbn [locations app].
        rewrite length_app, Nat2Z.inj_add. done.
    + intros k Hne. rewrite (Ho k Hne). unfold index1, add_record. by rewrite lookup_insert_ne by congruence.
Qed.

Lemma locations_length xs pos : length (locations pos xs) = length xs.
Proof. revert pos. induction xs as [|x xs IH]; intros pos; cbn; [done|]. by rewrite IH. Qed.

Lemma locations_lookup xs pre t x : xs !! t = Some x -> exists before after,
  pre ++ concat (bytes_of <$> xs) = before ++ bytes_of x ++ after /\
  locations (Z.of_nat (length pre)) xs !! t = Some (mkLocation (Z.of_nat (length before)) (Z.of_nat (length (bytes_of x))) 1).
Proof.
  revert pre t. induction xs as [|y xs IH]; intros pre t Ht; [done|]. destruct t as [|t].
  - injection Ht as ->. exists pre, (concat (bytes_of <$> xs)). done.
  - cbn [fmap list_fmap concat locations]. destruct (IH (pre ++ bytes_of y) t Ht) as (before & after & E & El).
    exists before, after. split; [by rewrite app_assoc|]. cbn. rewrite <- El. rewrite length_app. do 2 f_equal. lia.
Qed.

Lemma open_write_opened config w d p : open_write new_driver config w = Ok d -> has config "path" = true ->
  get_string config "path" = Ok p -> p <> ""%string ->
  exists drt w', validate_drt config = Ok drt /\ fopen_write w p = Some w' /\
    d = (mkDriver true (read_settings config) p drt (Some p) false "" ∅, w').
Proof.
  unfold open_write. intros H Hh Hp Hne. apply bind_Ok_inv in H as (drt & Ed & H). unfold initialize, new_driver in H. cbn in H.
  rewrite Hh, Hp, bind_Ok_l in H. rewrite (proj2 (String.eqb_neq p "")) in H by done. cbn [negb] in H.
  destruct (fopen_write w p) as [w'|] eqn:Ew; [|done]. injection H as <-. by exists drt, w'.
Qed.

Lemma open_read_index fuel config w p file index : has config "path" = true -> get_string config "path" = Ok p -> p <> ""%string ->
  contents w p = Some file -> index_loop fuel file 0 ∅ = Some (Ok index) ->
  open_read fuel new_driver config w = Some (Ok (mkDriver true (read_settings config) "" AdaptiveEntropyCoding None true p index)).
Proof.
  intros Hh Hp Hne Hc Hi. unfold open_read, new_driver. cbn [initialized_ path_of]. rewrite Hh, Hp.
  rewrite (proj2 (String.eqb_neq p "")) by done. unfold build_record_index. by rewrite Hc, Hi.
Qed.

End Correct.

(** * A library that satisfies the laws *)

(** A message is one number that codes everything in it. *)
Definition Parts : Type := Z * Z * list Z * list Z * Z * list (list Z).

Definition demo_message (x : Parts) : list Z := [Z.pos (countable.encode x)].
Definition demo_parts (m : list Z) : option Parts := match m with [Z.pos p] => decode p | _ => None end.

Lemma demo_parts_message x : demo_parts (demo_message x) = Some x.
Proof. apply decode_encode. Qed.

#[export] Instance demo_g2c : G2c Parts := {
  g2_create sec0 sec1 := (16, (safe_get sec0 0, 0, [], [], 0, []));
  g2_addgrid '(disc, p, pdt, _, n, v) igds gdt := (32, (disc, p, pdt, gdt, n, v));
  g2_addfield '(disc, _, _, gdt, _, _) p pdt drt drs v n := (64, (disc, p, pdt, gdt, n, v));
  g2_gribend b := (1, b);
  message := demo_message;
  seekgb file from mseek := if drop (Z.to_nat from) file is [] then (0, 0) else (from, 1);
  g2_info m := match demo_parts m with Some (disc, _, _, _, _, _) => (0, [disc; 2], 1) | None => (1, [], 0) end;
  g2_getfld m n unpack := match demo_parts m with
    | Some (_, p, pdt, gdt, points, v) => (0, Some (mkField p (Some pdt) (Some gdt) points (if unpack then Some v else None)))
    | None => (1, None)
    end
}.

#[export] Program Instance demo_g2c_laws : G2cLaws Parts := {
  repack _ _ v := v; grib_message m := length m = 1%nat;
  grid_octets _ := replicate 19 (-8); product_octets _ := replicate 21 (-8)
}.
Next Obligation. done. Qed.
Next Obligation.
  intros sec0 sec1 igds gdt pdtn pdt drt drs v n r0 b0 r1 b1 r2 b2 len b3 C _ G _ F _ E _ Hv Hn _ _ _ _.
  cbn in C. injection C as <- <-. cbn in G. injection G as <- <-. cbn in F. injection F as <- <-.
  cbn in E. injection E as <- <-. split; [done|]. split; [done|]. cbn [message demo_g2c]. change (Z.to_nat 1) with 1%nat. unfold demo_message.
  cbn [take]. split.
  - exists [safe_get sec0 0; 2]. split; [|done]. cbn [g2_info demo_g2c]. fold (demo_message (safe_get sec0 0, pdtn, pdt, gdt, n, v)).
    by rewrite demo_parts_message.
  - intros unpack. cbn [g2_getfld demo_g2c]. fold (demo_message (safe_get sec0 0, pdtn, pdt, gdt, n, v)). by rewrite demo_parts_message.
Qed.
Next Obligation. intros pre m post Hm. cbn. rewrite Nat2Z.id, drop_app_length, Hm. destruct m; done. Qed.
Next Obligation. intros file. cbn. by rewrite Nat2Z.id, drop_all. Qed.

(** Files and streams in two maps; every file can be opened and no write is short. *)
Definition Disk : Type := gmap string (list Z) * gmap string (list Z).

#[export] Instance demo_files : Files Disk := {
  fopen_write w p := Some (<[p := []]> (fst w), <[p := []]> (snd w));
  fwrite w p b := (length b, (fst w, alter (fun l => l ++ b) p (snd w)));
  fflush w p := (0, (match snd w !! p with Some l => <[p := l]> (fst w) | None => fst w end, snd w));
  fclose w p := (0, (match snd w !! p with Some l => <[p := l]> (fst w) | None => fst w end, delete p (snd w)));
  contents w p := fst w !! p
}.

#[export] Instance demo_files_laws : FilesLaws Disk.
Proof.
  refine {| stream w p := snd w !! p |}; cbn.
  - intros w p w' [= <-]. apply lookup_insert_eq.
  - intros w p b w' l [= <-] H. cbn. by rewrite lookup_alter_eq, H.
  - intros w p w' l [= <-] H. cbn. rewrite H. apply lookup_insert_eq.
  - intros w p w' l [= <-] H. cbn. rewrite H. apply lookup_insert_eq.
Defined.

(** A manifest for an aerosol, and two fields of one row of two points. *)
Definition demo_manifest : Yaml :=
  YMap [("path", YScalar "/out"); ("drt", YScalar "LibAEC");
        ("grib2", YMap [("pdt_number", YScalar "44"); ("aerosol_type", YScalar "62001"); ("parameter", YScalar "2")])]%string.
#[local] Instance demo_grib_yaml : YamlLib Yaml := yaml_lib demo_manifest.

Definition demo_meta (name : string) : VarMeta := mkVarMeta name 0 (mkShape 1 [2; 0; 0; 0; 0; 0; 0] [0; 0; 0; 0; 0; 0; 0]).
Definition demo_fields : list (list Z * VarMeta) :=
  [([1; 2; 3; 4; 5; 6; 7; 8], demo_meta "dust"); ([9; 9; 9; 9; 8; 8; 8; 8], demo_meta "salt")]%string.

Definition demo_opened : result (GRIB2_Driver * Disk) := open_write new_driver (Some demo_manifest) (∅, ∅).
Definition demo_w1 : Disk := match demo_opened with Ok x => snd x | _ => (∅, ∅) end.
Definition demo_d : GRIB2_Driver := match demo_opened with Ok x => fst x | _ => new_driver end.
Definition demo_w2 : Disk := match write_all demo_d demo_fields demo_w1 with Ok w => w | _ => (∅, ∅) end.
Definition demo_w3 : Disk := snd (close demo_d demo_w2).

Lemma demo_open : open_write new_driver (Some demo_manifest) ((∅, ∅) : Disk) = Ok (demo_d, demo_w1).
Proof. vm_compute. reflexivity. Qed.

Lemma demo_write : write_all demo_d demo_fields demo_w1 = Ok demo_w2.
Proof. vm_compute. reflexivity. Qed.

Lemma demo_closed : fclose demo_w2 "/out" = (0, demo_w3).
Proof. vm_compute. reflexivity. Qed.

(** Before the close, the file is empty. *)
Example nothing_before_close : contents demo_w2 "/out" = Some [].
Proof. vm_compute. reflexivity. Qed.

Lemma demo_path : has (Some demo_manifest) "path" = true /\ get_string (Some demo_manifest) "path" = Ok "/out"%string.
Proof. split; vm_compute; reflexivity. Qed.

Lemma demo_fields_ok : Forall (fun x => write_ok (snd x)) demo_fields.
Proof.
  assert (H : forall name, write_ok (demo_meta name)).
  { intros name. split; [reflexivity|]. split; [cbn; lia|]. split; [|vm_compute; discriminate].
    intros [|d] Hd; [vm_compute; discriminate|]. change (S d < 1)%nat in Hd. lia. }
  repeat constructor; apply H.
Qed.

Lemma demo_fields_fit : Forall (fun x => field_fits (read_settings (Some demo_manifest)) (snd x)) demo_fields.
Proof.
  assert (H : forall name, field_fits (read_settings (Some demo_manifest)) (demo_meta name)).
  { intros name ni nj E. cbn in E. injection E as <- <-. split; [|split; [|split; vm_compute; by split]].
    - intros gdt E. vm_compute in E. injection E as <-. vm_compute. repeat constructor.
    - intros pdt E. vm_compute in E. injection E as <-. vm_compute. repeat constructor. }
  apply Forall_cons. split; [apply H|]. apply Forall_cons. split; [apply H|]. apply Forall_nil. exact I.
Qed.


(** The scan keeps the grid of the first record of a name: a later record with fewer points is
    read with the first one's rows, past its values. *)
Example box_of_a_smaller_record :
  deliver (mkIndex 2 2 4 []) [[1; 1; 1; 1]; [2; 2; 2; 2]] 2 64 (Some (mkBbox 2 [1; 0; 0; 0; 0; 0; 0] [1; 1; 0; 0; 0; 0; 0] [1; 1; 0; 0; 0; 0; 0])) = Undef.
Proof. reflexivity. Qed.
